(* ===== verification/_CoqProject ===== *)
-Q . S2P
Prelude.v
BTree.v
F64.v
F64Value.v
Text.v
Json.v
Grid.v
Cache.v
Resilience.v
ChunkPlan.v
Mask.v
Auth.v
ProcessGraph.v
Calendar.v
JobStore.v
SqlStore.v
Migration.v
FileStore.v
Metrics.v
Executor.v
Arrays.v
Runner.v
UrlPolicy.v
Catalog.v
Registry.v
Geo.v
Callback.v
Apply.v
Reduce.v
Cube.v
Window.v
AsyncTiff.v
Stac.v
Load.v
Stream.v
Timeline.v
CubeOps.v
Jobs.v
Supervisor.v
Interleave.v
Ir.v
Vector.v
Misc.v
Etl.v
EtlEngine.v
EtlService.v
EtlServer.v
OpenEo.v
Raster.v
Blocks.v
Sampling.v
Scenes.v
PixelProcs.v
ReduceProcs.v
BlockExec.v
SubGraph.v
Credentials.v
Routes.v
GeoExec.v
GeoCache.v
GdalTools.v
Cli.v
Contracts.v
ApiDiff.v
Discovery.v
Server.v
