(* ===== verification/Prelude.v ===== *)
(** * openEO-RuSTAC: a verification library (root file)

    The repository is an openEO backend in Rust: an HTTP server that stores
    process graphs as jobs, runs them over satellite rasters found through STAC
    catalogs, and serves the results; next to it a set of crates for the block
    grid, masks, caches, retries, metrics, process graphs and an ETL engine.
    This library models the logic of those parts as Rocq functions, state
    machines and classes, and proves what makes each of them correct.  Paths
    below are under src/.

    ** Parts, files and sources

    Foundations, with no counterpart of their own in the repository:
    - Prelude: results, loops that stop at an error, machine words, generic lemmas;
    - BTree: Rust's [BTreeMap] as a sorted association list; F64: binary64 and
      binary32 as the Standard Library's executable specification; F64Value: the
      values that doubles stand for; Text: [str] as UTF-8 bytes; Json: serde_json
      values, objects in insertion order.

    The job side of the server (apps/orbit-openeo/src):
    - Calendar, JobStore, SqlStore: job_store.rs.  The trait is a class, its
      contract a second class; the in-memory and the SQLite store are instances.
      Migration: the opening of its database, and of the ETL engine's.
    - FileStore: file_store.rs.  Metrics: crates/orbit-observability.
    - Runner: runner.rs and event_bus.rs, [run_job] in a state monad.
    - Jobs: the handlers of routes/jobs.rs.  Supervisor: how jobs are started,
      cancelled and drained (routes/jobs.rs, job_registry.rs), as a transition
      system.  Auth: auth/, auth_layer.rs, security.rs.  Catalog: process_catalog.rs.
    - UrlPolicy: url_policy.rs.  ChunkPlan: chunk_plan.rs.  BlockExec: the block
      executor and its memory budget (block_executor.rs).
    - Credentials: routes/credentials.rs.  Routes: the other handlers of routes/, the
      stores of process graphs and schemas, the catalog of a remote STAC API.
    - Server: lib.rs, state.rs, main.rs; the state, the table of routes with every
      handler behind it, the layers around it, and start-up from the command line.
    - Contracts: datacube.rs, alignment.rs, provenance.rs, storage_contracts.rs,
      typed_errors.rs, engine_bridge.rs.

    Process graphs and their evaluation:
    - ProcessGraph: crates/eo-process/src/graph.rs and process_graph.rs.
    - Executor: executor.rs and catalog.rs, and the walk over an analysed graph
      that the real executor shares.  Geo: geo_executor/mod.rs.  Registry, Arrays:
      registry.rs and eval_arrays.rs.
    - GeoExec: the construction of the executor, its scratch directory, its signers
      and downloaders (mod.rs, download.rs).
    - Callback, SubGraph, Apply, Reduce: sub_graph.rs, eval_apply.rs, eval_reduce.rs.
    - Cube, CubeOps: data_cube.rs, identifier.rs, eval_cube_ops.rs.  Timeline: times
      and the bounds of a temporal extent as moments, the specification that the
      temporal filter is proved against.
    - Scenes: a process over rasters as a program on a file system, with the laws of
      the typed reads and writes of GDAL and a file system in memory that keeps
      them.  PixelProcs: eval_ndvi.rs, eval_mask.rs, eval_mask_from_values.rs.
      ReduceProcs: the handlers of eval_apply.rs and eval_reduce.rs.
    - Stac, Load, Stream: stac.rs, eval_load.rs and the cached fetch of mod.rs; Stream
      is the mode that writes cropped virtual rasters and downloads nothing.
    - Misc: eval_misc.rs (merging, zonal processes, resampling, classifier) with
      orbit-geo's samplers, histogram and classifier.  Ir: process_graph_ir.rs.

    Rasters and infrastructure (crates/):
    - Grid: eo-core, eo-kernel, orbit-geo/src/block.rs.  Mask: eo-mask and
      orbit-geo/src/cloud_mask.rs, products.rs.
    - Window, AsyncTiff: orbit-geo/src/providers.rs and async_download.rs, and
      eo-io/src/vsi.rs.  Cache: orbit-cache.  GeoCache: orbit-geo/src/cache.rs, used
      by several threads.  Resilience: orbit-resilience.
    - Raster: the datasets of orbit-geo (source.rs, builder.rs, dataset.rs,
      composition.rs, error.rs).  Blocks: its block processing (processing.rs,
      writer.rs, array_ops.rs), the thread pool as a state under a schedule.
      Sampling: the block of a cell, samples at points, sources (sampling.rs,
      source.rs) and the download that runs gdal_translate.
    - GdalTools: gdal_utils.rs, rasterization.rs and eo-io/src/atomic.rs.
    - Vector: eo-vector.  OpenEo: the openEO client of orbit-geo/src/openeo.rs.
    - Discovery: eo-catalog, and stac.rs, stac_helpers.rs and dsl/ of orbit-geo.
    - Interleave: programs of atomic actions, their rely-guarantee proof rule and
      pools of tasks (a foundation).  Etl, EtlEngine: orbit-core and orbit-etl, the
      engine as a pool of tasks.  EtlService: apps/orbit-server/src/service.rs.
      EtlServer: apps/orbit-server/src/main.rs and orbit-config.
    - Cli: apps/orbit-cli.  ApiDiff: tools/api-diff.

    ** How the parts interact

    A submitted graph passes [Jobs.create_job], which checks it with ProcessGraph
    and the ids of Catalog, and is stored through the class [JobStore].
    Supervisor takes a permit, registers the job and runs [Runner.run_job], which
    calls the executor; the executor's graph walk is [Executor.walk], and Geo
    instantiates it with the registry's dispatch.  load_collection asks Stac for
    scenes, checks each link with UrlPolicy and fetches through the cache, whose
    operations are those of Cache, and the downloader, which is Window's or
    AsyncTiff's.  The result is a cube in the envelope of Cube, which CubeOps,
    PixelProcs and ReduceProcs take and return; their block workers are the kernels
    of Apply and Reduce, run by Blocks over the datasets of Raster.  Runner writes the bytes of the result
    through the class [FileStore], from where [Jobs.download_asset] reads them.
    Every request reaches its handler through [Server.serve], behind the layers of
    Auth; GeoExec puts the executor together from the downloaders and the GeoCache.
    The ETL side is EtlEngine behind EtlService behind EtlServer, with Cli as its
    client.

    ** What the theorems show

    - Jobs end to end: the bytes a run stores are downloadable under the job's id;
      what a run does to every store on each branch, under interference by other
      tasks; at most as many jobs run as there are permits; after its
      cancellation or the end of its run is noticed a job settles, its permit is freed
      and its registry entry is gone; handlers answer every request as the API prescribes.
    - Servers: a server that listens beyond the loopback address has a token, and
      clients that do not send it change no job, no stored graph and no setting; a
      file changes only by a request to write it.  The ETL server refuses every such
      call, and keeps paths under its data root.  A device code yields a token
      exactly when it was approved, within ten minutes of its start.
    - Stores: both job stores meet one contract, so they agree on every sequence
      of operations of a stated domain (fresh ids, graphs that read back from their
      text); the file stores agree too, up to the failures the back end reports; a validated path never leaves
      its user's directory.  However many processes open a database at once, each
      opening succeeds, and the rows that were there keep their values.
    - Graphs: construction finds exactly the references between nodes and rejects
      exactly the cyclic graphs; in the order of evaluation a node comes after those
      it refers to; every node is called once with its arguments resolved.
    - Callbacks: the memoised evaluation with its stack of nodes in progress
      terminates and computes the meaning of the callback; the fast path of the
      reducers agrees with the general one.
    - Loading: under every schedule of the downloads the slots of the cube hold
      the rasters of their scenes; the rasters of the streaming mode read as those
      that are downloaded; the temporal filter keeps the scenes within the extent,
      compared as times, where no scene lies a fraction of a second from a bound; tile
      stitching equals a copy of the window; the pool of clients converges.
    - Files: a conversion to a cloud-optimised file shows either the old file or the
      whole new one at every moment, for a converter that leaves the destination
      alone; a file of an item's asset is whole whenever it is there, if no asset is
      named like a download in progress; a cell of a raster lies in exactly the block that is looked up.
    - Infrastructure: blocks partition a raster, the cache stays within its bound
      and evicts the least recently used, whichever size readings and removals fail, an open breaker holds calls back, masks
      decode as the taxonomy says, planned chunks fit the budget; the bytes reserved
      by concurrent blocks never exceed the memory budget and every run of blocks
      ends; the shared file cache is bounded under every interleaving.
    - ETL: under every interleaving of the tasks of the engine a job ends exactly
      once and its cancellation flag is gone then; a finished status survives a
      restart; a chunk is written in statements within the database's limit of
      variables, each row once and in order.
    - Blocks: under every schedule of the threads, and whichever handles they
      reuse, a block-parallel reduction over blocks without overlap computes the
      worker's function of each pixel, on every pixel of the raster.
    - Processes over rasters: the pixels that a chain of processes leaves in the
      files (mask_from_values and mask; ndvi and reduce_dimension over time) are
      the chain's function of the pixels of the sources, and no other file changes.
    - Rasteriser: a pixel in the mask of a polygon has its centre inside by the
      even-odd rule, and one whose centre is inside is in the mask unless an edge
      crosses between its left side and its centre.
    - Typed graphs: lifting a graph with nested callbacks terminates.
    - Tools: the rows of the surface differ are the join of the two trees; the exit
      of the command line reports the outcome it was told.

    ** Conventions

    - Code that is not in the repository (GDAL, object_store, petgraph, HTTP,
      serde's derived code where no attribute fixes it, digests, clocks, UUIDs)
      is a parameter of the definitions that use it, or a class of operations
      with its documented behaviour as laws; each class of laws has a concrete
      instance.
    - Integers are [Z]; at machine width they wrap, as in a release build, where
      a bound is not evident from the code.  A panic is [None] or a constructor of
      its own.
    - Atomic actions of concurrent tasks are steps and an interleaving is a list
      of them; between two calls on a shared store another task may act.
    - Fuel: the measure of a recursion is given with it.  Walks over JSON use the
      size of the value, the memoised callbacks the number of nodes plus one, path
      and text parsers the length of the text; a theorem of the same file shows
      that this is enough (no result is an artefact of running out), or the
      fuel's exhaustion is the code's own limit.
    - Strings are UTF-8 bytes.  Floats are rounded after every operation.

    ** Not modelled

    What is outside of the repository's own logic: axum's path matching and
    extractors, tower, tokio's runtime and signals, tonic's transport, tracing; reading
    and writing rasters, which is GDAL's; serde's derived code where no attribute
    fixes it; the macros that generate one handler per process (their results are
    written out); trait declarations without bodies, getters, and the poisoning of
    locks.  The generated messages of orbit-proto and its build script, the test
    support of orbit-geo, examples, benches and tests have no logic of the
    program.  The manifest lists each with its reason.

    ** Order of the work

    The job side came first, then graphs, loading, the processes on cubes, and
    the crates, with the datasets and the block processing that stand behind the
    rasters of the processes; then the servers, the credentials and the other
    routes, the streaming mode, and the clients and tools.  Every part that the
    manifest lists as code of the program is modelled. *)

From stdpp Require Export base tactics list gmap strings option relations pretty.
From Stdlib Require Export ZArith Lia.
From Stdlib Require Import Ascii Sorted.

#[global] Set Default Goal Selector "!".

(** ** Results of fallible calls (Rust's [Result<T, E>]) *)

Inductive result (E A : Type) : Type :=
| Ok (a : A)
| Err (e : E).
Arguments Ok {E A} a.
Arguments Err {E A} e.

#[export] Instance result_ret {E} : MRet (result E) := λ A a, Ok a.
#[export] Instance result_bind {E} : MBind (result E) :=
  λ A B f m, match m with Ok a => f a | Err e => Err e end.
#[export] Instance result_fmap {E} : FMap (result E) :=
  λ A B f m, match m with Ok a => Ok (f a) | Err e => Err e end.

#[export] Instance result_eq_dec {E A} `{EqDecision E, EqDecision A} :
  EqDecision (result E A).
Proof. solve_decision. Defined.

Definition is_ok {E A} (r : result E A) : bool :=
  match r with Ok _ => true | Err _ => false end.

(** [r.map_err(f)] *)
Definition map_err {E F A} (f : E → F) (r : result E A) : result F A :=
  match r with Ok a => Ok a | Err e => Err (f e) end.

(** [o.ok_or(e)] *)
Definition ok_or {E A} (o : option A) (e : E) : result E A :=
  match o with Some a => Ok a | None => Err e end.

(** The [for x in xs { ..?; .. }] loop that stops at the first error. *)
Fixpoint result_traverse {E A B} (f : A → result E B) (l : list A) : result E (list B) :=
  match l with
  | [] => Ok []
  | x :: l' =>
      match f x with
      | Err e => Err e
      | Ok y => match result_traverse f l' with Err e => Err e | Ok ys => Ok (y :: ys) end
      end
  end.

Section result_lemmas.
Context {E A B : Type}.
Implicit Types (f : A → result E B) (l : list A).

Lemma result_traverse_ok f l ys :
  result_traverse f l = Ok ys ↔ Forall2 (λ x y, f x = Ok y) l ys.
Proof.
  revert ys. induction l as [|x l IH]; intros ys; simpl.
  - split; [intros [= <-]; constructor | inversion 1; done].
  - destruct (f x) as [y|e] eqn:Hf.
    + destruct (result_traverse f l) as [zs|e] eqn:Hl.
      * split.
        -- intros [= <-]. constructor; [done|]. by apply IH.
        -- inversion 1 as [|? y' ? ys' Hy Hys]; subst.
           apply IH in Hys. congruence.
      * split; [done|]. inversion 1 as [|? y' ? ys' Hy Hys]; subst.
        apply IH in Hys. done.
    + split; [done|]. intros H; inversion H; subst; congruence.
Qed.

(** The error of a failing traversal is the error of the first failing
    element, everything before it having succeeded. *)
Lemma result_traverse_err f l e :
  result_traverse f l = Err e ↔
  ∃ l1 x l2, l = l1 ++ x :: l2 ∧ Forall (λ z, is_ok (f z)) l1 ∧ f x = Err e.
Proof.
  split.
  - revert e. induction l as [|x l IH]; intros e; simpl; [done|].
    destruct (f x) as [y|e'] eqn:Hf.
    + destruct (result_traverse f l) as [zs|e''] eqn:Hl; [done|].
      intros [= <-]. destruct (IH e'') as (l1 & x' & l2 & -> & Hall & Hx'); [done|].
      exists (x :: l1), x', l2. repeat split; [|done]. constructor; [|done].
      by rewrite Hf.
    + intros [= <-]. exists [], x, l. repeat split; [constructor | done].
  - intros (l1 & x & l2 & -> & Hall & Hx). induction Hall as [|z l1 Hz _ IH]; simpl.
    + by rewrite Hx.
    + destruct (f z); [|done]. by rewrite IH.
Qed.

Lemma result_traverse_length f l ys :
  result_traverse f l = Ok ys → length ys = length l.
Proof. rewrite result_traverse_ok. intros H. symmetry. by eapply Forall2_length. Qed.
End result_lemmas.

Local Open Scope Z_scope.

(** ** Machine integers

    A [w]-bit unsigned integer is a [Z] in [0, 2^w); a signed one is a [Z] in
    [-2^(w-1), 2^(w-1)). *)

Definition wrap (w x : Z) : Z := x mod 2 ^ w.
Definition to_signed (w x : Z) : Z :=
  let y := wrap w x in if y <? 2 ^ (w - 1) then y else y - 2 ^ w.
Definition sat_mul (w x y : Z) : Z := Z.min (x * y) (2 ^ w - 1).
Definition sat_add (w x y : Z) : Z := Z.min (x + y) (2 ^ w - 1).
(** [x.saturating_sub(y)] on unsigned integers *)
Definition sat_sub (x y : Z) : Z := Z.max 0 (x - y).
Definition in_u (w x : Z) : Prop := 0 ≤ x < 2 ^ w.
(** Whether a value is representable, for overflow checks. *)
Definition fits (w x : Z) : bool := (0 <=? x) && (x <? 2 ^ w).

Lemma wrap_small w x : in_u w x → wrap w x = x.
Proof. intros H. by apply Z.mod_small. Qed.

Lemma wrap_in_u w x : 0 ≤ w → in_u w (wrap w x).
Proof. intros H. apply Z.mod_pos_bound. by apply Z.pow_pos_nonneg. Qed.

Lemma to_signed_small w x : 0 < w → 0 ≤ x < 2 ^ (w - 1) → to_signed w x = x.
Proof.
  intros Hw Hx. unfold to_signed.
  assert (2 ^ w = 2 * 2 ^ (w - 1)) as E.
  { rewrite <- Z.pow_succ_r by lia. f_equal. lia. }
  rewrite wrap_small by (unfold in_u; lia).
  destruct (Z.ltb_spec x (2 ^ (w - 1))); lia.
Qed.

(** [(n as i64) as u64] *)
Lemma wrap_to_signed w x : 0 < w → in_u w x → wrap w (to_signed w x) = x.
Proof.
  intros Hw Hx. unfold to_signed. rewrite (wrap_small w x Hx).
  destruct (x <? 2 ^ (w - 1)); [by apply wrap_small|]. unfold wrap.
  replace (x - 2 ^ w) with (x + (-1) * 2 ^ w) by lia.
  rewrite Z.mod_add by (apply Z.pow_nonzero; lia). by apply Z.mod_small.
Qed.

Lemma fits_spec w x : fits w x = true ↔ in_u w x.
Proof. unfold fits, in_u. lia. Qed.

(** A disjunction of disjoint bit ranges is a sum. *)
Lemma lor_add k x y : 0 ≤ k → x mod 2 ^ k = 0 → 0 ≤ y < 2 ^ k → Z.lor x y = x + y.
Proof.
  intros Hk Hx Hy.
  assert (Z.land x y = 0) as Hland.
  { apply Z.bits_inj'. intros n Hn. rewrite Z.land_spec, Z.bits_0.
    destruct (Z.lt_ge_cases n k) as [H|H].
    - rewrite <- (Z.mod_pow2_bits_low x k n), Hx, Z.bits_0 by lia. done.
    - rewrite <- (Z.mod_small y (2 ^ k)), Z.mod_pow2_bits_high, andb_false_r by lia. done. }
  rewrite Z.add_nocarry_lxor by done. symmetry. by apply Z.lxor_lor.
Qed.

(** ** Tactics *)

(** Turn boolean tests of the context and goal into propositions. *)
Ltac boolp :=
  repeat match goal with
  | H : context [negb _ = true] |- _ => rewrite negb_true_iff in H
  | H : context [negb _ = false] |- _ => rewrite negb_false_iff in H
  | H : context [(_ && _) = true] |- _ => rewrite andb_true_iff in H
  | H : context [(_ && _) = false] |- _ => rewrite andb_false_iff in H
  | H : context [(_ || _) = true] |- _ => rewrite orb_true_iff in H
  | H : context [(_ || _) = false] |- _ => rewrite orb_false_iff in H
  | H : context [bool_decide _ = true] |- _ => rewrite bool_decide_eq_true in H
  | H : context [bool_decide _ = false] |- _ => rewrite bool_decide_eq_false in H
  | |- context [bool_decide _ = true] => rewrite bool_decide_eq_true
  | |- context [(_ && _) = true] => rewrite andb_true_iff
  | |- context [(_ || _) = true] => rewrite orb_true_iff
  | |- context [negb _ = true] => rewrite negb_true_iff
  end.

(** Case analysis on the innermost [match] of the goal or of a hypothesis. *)
Ltac case_goal :=
  match goal with
  | |- context [match ?x with _ => _ end] =>
      lazymatch x with
      | context [match _ with _ => _ end] => fail
      | _ => destruct x eqn:?
      end
  end.
Ltac case_hyp H :=
  match type of H with
  | context [match ?x with _ => _ end] =>
      lazymatch x with
      | context [match _ with _ => _ end] => fail
      | _ => destruct x eqn:?
      end
  end.

(** ** Lists *)

Section list_lemmas.
Context {A : Type}.
Implicit Types l : list A.

Lemma find_some_iff (p : A → bool) l x :
  List.find p l = Some x → x ∈ l ∧ p x = true.
Proof.
  intros H. apply List.find_some in H as [Hin Hp].
  by rewrite list_elem_of_In.
Qed.

Lemma filter_all (P : A → Prop) `{∀ x, Decision (P x)} l :
  Forall P l → filter P l = l.
Proof.
  induction 1 as [|x l Hx _ IH]; [done|].
  by rewrite filter_cons_True, IH.
Qed.
Lemma filter_fmap {B} (f : B → A) (P : A → Prop) `{∀ x, Decision (P x)} (l : list B) :
  filter P (f <$> l) = f <$> filter (λ x, P (f x)) l.
Proof.
  induction l as [|x l IH]; [done|]. rewrite fmap_cons, !filter_cons.
  destruct (decide (P (f x))); rewrite IH; done.
Qed.

Lemma StronglySorted_filter (R : A → A → Prop) (P : A → Prop) `{∀ x, Decision (P x)} l :
  StronglySorted R l → StronglySorted R (filter P l).
Proof.
  induction 1 as [|x l _ IH Hall]; [constructor|]. rewrite filter_cons.
  destruct (decide (P x)); [|done]. constructor; [done|].
  rewrite Forall_forall in *. intros y [_ Hy]%list_elem_of_filter. by apply Hall.
Qed.
Lemma Forall2_filter {B} (R : A → B → Prop) (P : A → Prop) (Q : B → Prop)
    `{∀ x, Decision (P x)} `{∀ y, Decision (Q y)} (l : list A) (k : list B) :
  (∀ x y, R x y → (P x ↔ Q y)) → Forall2 R l k → Forall2 R (filter P l) (filter Q k).
Proof.
  intros HR. induction 1 as [|x y l k Hxy _ IH]; [constructor|]. rewrite !filter_cons.
  destruct (decide (P x)) as [Hp|Hp], (decide (Q y)) as [Hq|Hq]; [by constructor| | |done].
  - destruct Hq. by apply (HR x y).
  - destruct Hp. by apply (HR x y).
Qed.

Lemma Forall2_impl_in {B} (P Q : A → B → Prop) l k :
  Forall2 P l k → (∀ x y, y ∈ k → P x y → Q x y) → Forall2 Q l k.
Proof.
  induction 1 as [|x y l k Hxy _ IH]; intros HQ; constructor.
  - apply HQ; [by left|done].
  - apply IH. intros. apply HQ; [by right|done].
Qed.
End list_lemmas.

Create HintDb orbit.
#[export] Hint Resolve wrap_in_u : orbit.
#[export] Hint Rewrite fits_spec : orbit.

(** ** Strings *)

Lemma str_app_nil (t : string) : EmptyString +:+ t = t.
Proof. reflexivity. Qed.

Lemma str_app_cons c (s t : string) : String c s +:+ t = String c (s +:+ t).
Proof. reflexivity. Qed.

Lemma str_app_assoc (s t u : string) : (s +:+ t) +:+ u = s +:+ (t +:+ u).
Proof. induction s as [|c s IH]; [done|]. by rewrite !str_app_cons, IH. Qed.

Lemma str_app_nil_r (s : string) : s +:+ "" = s.
Proof. induction s as [|c s IH]; [done|]. by rewrite str_app_cons, IH. Qed.

Lemma str_length_app (s t : string) :
  String.length (s +:+ t) = (String.length s + String.length t)%nat.
Proof. induction s as [|c s IH]; [done|]. rewrite str_app_cons. simpl. by rewrite IH. Qed.

Create HintDb str.
#[export] Hint Rewrite str_app_nil str_app_cons str_app_assoc str_app_nil_r : str.
