(* ===== verification/BTree.v ===== *)
(** * Ordered maps (Rust's [BTreeMap]) as sorted association lists

    Several components iterate their maps in key order and expose that order
    (metric export, file listings, graph walks), so a [BTreeMap<K, V>] is the
    list of its entries in iteration order.  [bt_wf] is the representation
    invariant; every operation preserves it, and two well-formed maps with the
    same lookups are equal. *)

From Stdlib Require Import Ascii Sorting.Sorted.
From S2P Require Import Prelude.
Local Open Scope Z_scope.

(** ** Total orders ([Ord]) *)

Class Ord (K : Type) := cmp : K → K → comparison.

Class OrdLaws (K : Type) `{Ord K} : Prop := {
  cmp_eq : ∀ x y : K, cmp x y = Eq ↔ x = y;
  cmp_antisym : ∀ x y : K, cmp y x = CompOpp (cmp x y);
  cmp_trans : ∀ x y z : K, cmp x y = Lt → cmp y z = Lt → cmp x z = Lt }.

#[export] Instance ord_Z : Ord Z := Z.compare.
#[export] Instance ord_Z_laws : OrdLaws Z.
Proof.
  split; unfold cmp, ord_Z.
  - apply Z.compare_eq_iff.
  - intros. apply Z.compare_antisym.
  - intros x y z. rewrite !Z.compare_lt_iff. lia.
Qed.

#[export] Instance ord_string : Ord string := String.compare.

Lemma string_compare_trans (x y z : string) :
  String.compare x y = Lt → String.compare y z = Lt → String.compare x z = Lt.
Proof.
  revert y z. induction x as [|a x IH]; intros [|b y] [|c z]; simpl; try done.
  unfold Ascii.compare.
  destruct (N.compare_spec (N_of_ascii a) (N_of_ascii b)) as [E1|E1|E1],
    (N.compare_spec (N_of_ascii b) (N_of_ascii c)) as [E2|E2|E2],
    (N.compare_spec (N_of_ascii a) (N_of_ascii c)) as [E3|E3|E3]; try done; try lia.
  apply IH.
Qed.

#[export] Instance ord_string_laws : OrdLaws string.
Proof.
  split; unfold cmp, ord_string.
  - intros x y. split; [apply String.compare_eq_iff|]. intros ->.
    induction y as [|a y IH]; simpl; [done|]. unfold Ascii.compare. by rewrite N.compare_refl.
  - intros. apply String.compare_antisym.
  - apply string_compare_trans.
Qed.

(** Tuples compare lexicographically. *)
#[export] Instance ord_prod {A B} `{Ord A, Ord B} : Ord (A * B) :=
  λ x y, match cmp x.1 y.1 with Eq => cmp x.2 y.2 | c => c end.

#[export] Instance ord_prod_laws {A B} `{OrdLaws A, OrdLaws B} : OrdLaws (A * B).
Proof.
  split; unfold cmp at 1, ord_prod.
  - intros [a b] [a' b']; simpl. pose proof (cmp_eq a a'). pose proof (cmp_eq b b').
    destruct (cmp a a'); naive_solver.
  - intros [a b] [a' b']; simpl. unfold cmp at 3, ord_prod; simpl.
    rewrite (cmp_antisym a a'), (cmp_antisym b b'). by destruct (cmp a a').
  - intros [a b] [a' b'] [a'' b'']; simpl. unfold cmp at 3 6, ord_prod; simpl.
    destruct (cmp a a') eqn:E1; try done; destruct (cmp a' a'') eqn:E2; try done.
    + apply cmp_eq in E1 as ->. rewrite E2. apply cmp_trans.
    + apply cmp_eq in E1 as ->. by rewrite E2.
    + apply cmp_eq in E2 as <-. by rewrite E1.
    + intros _ _. by rewrite (cmp_trans a a' a'').
Qed.

(** Sequences (and maps, through their entries) compare lexicographically. *)
Fixpoint list_cmp {A} `{Ord A} (x y : list A) : comparison :=
  match x, y with
  | [], [] => Eq
  | [], _ => Lt
  | _, [] => Gt
  | a :: x, b :: y => match cmp a b with Eq => list_cmp x y | c => c end
  end.

#[export] Instance ord_list {A} `{Ord A} : Ord (list A) := list_cmp.

#[export] Instance ord_list_laws {A} `{OrdLaws A} : OrdLaws (list A).
Proof.
  split; change (@cmp (list A) _) with (@list_cmp A _).
  - intros x. induction x as [|a x IH]; intros [|b y]; simpl; [done..|].
    pose proof (cmp_eq a b). destruct (cmp a b); [rewrite IH|..]; naive_solver.
  - intros x. induction x as [|a x IH]; intros [|b y]; simpl; [done..|].
    rewrite (cmp_antisym a b). destruct (cmp a b); simpl; [|done..]. apply IH.
  - intros x. induction x as [|a x IH]; intros [|b y] [|c z]; simpl; try done.
    destruct (cmp a b) eqn:E1; try done; destruct (cmp b c) eqn:E2; try done.
    + apply cmp_eq in E1 as ->. rewrite E2. apply IH.
    + apply cmp_eq in E1 as ->. by rewrite E2.
    + apply cmp_eq in E2 as <-. by rewrite E1.
    + intros _ _. by rewrite (cmp_trans a b c).
Qed.

Section ord_facts.
Context {K : Type} `{OrdLaws K}.

Lemma cmp_refl (x : K) : cmp x x = Eq.
Proof. by apply cmp_eq. Qed.

Lemma cmp_gt_lt (x y : K) : cmp x y = Gt ↔ cmp y x = Lt.
Proof. rewrite (cmp_antisym x y). by destruct (cmp x y). Qed.

Lemma cmp_lt_ne (x y : K) : cmp x y = Lt → x ≠ y.
Proof. intros E ->. by rewrite cmp_refl in E. Qed.
End ord_facts.

(** ** Maps *)

Notation btree K V := (list (K * V)%type).

Section btree.
Context {K V : Type} `{Ord K}.
Implicit Types t : btree K V.

Fixpoint bt_get (k : K) t : option V :=
  match t with
  | [] => None
  | (k', v) :: t' =>
      match cmp k k' with Eq => Some v | Lt => None | Gt => bt_get k t' end
  end.

Fixpoint bt_insert (k : K) (v : V) t : btree K V :=
  match t with
  | [] => [(k, v)]
  | (k', v') :: t' =>
      match cmp k k' with
      | Eq => (k, v) :: t'
      | Lt => (k, v) :: (k', v') :: t'
      | Gt => (k', v') :: bt_insert k v t'
      end
  end.

Fixpoint bt_remove (k : K) t : btree K V :=
  match t with
  | [] => []
  | (k', v') :: t' =>
      match cmp k k' with
      | Eq => t'
      | Lt => (k', v') :: t'
      | Gt => (k', v') :: bt_remove k t'
      end
  end.

Definition bt_lt (a b : K * V) : Prop := cmp a.1 b.1 = Lt.
Definition bt_wf t : Prop := StronglySorted bt_lt t.

(** [iter().collect::<BTreeMap<_, _>>()] *)
Definition bt_of_list (l : list (K * V)) : btree K V :=
  foldl (λ t e, bt_insert e.1 e.2 t) [] l.
End btree.

Section btree_lemmas.
Context {K V : Type} `{OrdLaws K}.
Implicit Types t : btree K V.

Lemma bt_get_below k t : Forall (λ e, cmp k e.1 = Lt) t → bt_get k t = None.
Proof. destruct 1 as [|[k' v] t Hk _]; simpl in *; [done|]. by rewrite Hk. Qed.

Lemma bt_get_insert k k' v t :
  bt_wf t → bt_get k (bt_insert k' v t) = match cmp k k' with Eq => Some v | _ => bt_get k t end.
Proof.
  induction 1 as [|[k1 v1] t Hwf IH Hall]; simpl; [by destruct (cmp k k')|].
  destruct (cmp k' k1) eqn:E1; simpl.
  - apply cmp_eq in E1 as ->. by destruct (cmp k k1) eqn:E2.
  - destruct (cmp k k') eqn:E2; [done| |done].
    by rewrite (cmp_trans k k' k1).
  - rewrite IH. destruct (cmp k k1) eqn:E2.
    + apply cmp_eq in E2 as ->. rewrite (cmp_antisym k' k1), E1. done.
    + apply cmp_gt_lt in E1. by rewrite (cmp_trans k k1 k').
    + done.
Qed.

Lemma bt_get_insert_eq k v t : bt_wf t → bt_get k (bt_insert k v t) = Some v.
Proof. intros Ht. by rewrite bt_get_insert, cmp_refl. Qed.

Lemma bt_get_insert_ne k k' v t :
  bt_wf t → k ≠ k' → bt_get k (bt_insert k' v t) = bt_get k t.
Proof.
  intros Ht Hne. rewrite bt_get_insert by done.
  destruct (cmp k k') eqn:E; [|done..]. by apply cmp_eq in E.
Qed.

Lemma bt_insert_forall (P : K * V → Prop) k v t :
  P (k, v) → Forall P t → Forall P (bt_insert k v t).
Proof.
  intros Hk. induction 1 as [|[k1 v1] t Hp Ht IH]; simpl; [by constructor|].
  destruct (cmp k k1); repeat constructor; done.
Qed.

Lemma bt_wf_insert k v t : bt_wf t → bt_wf (bt_insert k v t).
Proof.
  induction 1 as [|[k1 v1] t Hwf IH Hall]; simpl; [repeat constructor|].
  destruct (cmp k k1) eqn:E.
  - apply cmp_eq in E as ->. by constructor.
  - constructor; [by constructor|]. constructor; [done|].
    eapply Forall_impl; [exact Hall|]. intros [k2 v2] Hlt. unfold bt_lt in *; simpl in *.
    by apply (cmp_trans k k1 k2).
  - constructor; [done|]. apply bt_insert_forall; [|done]. by apply cmp_gt_lt.
Qed.

Lemma bt_remove_forall (P : K * V → Prop) k t : Forall P t → Forall P (bt_remove k t).
Proof.
  induction 1 as [|[k1 v1] t Hp Ht IH]; simpl; [done|].
  destruct (cmp k k1); [done| |]; by constructor.
Qed.

Lemma bt_wf_remove k t : bt_wf t → bt_wf (bt_remove k t).
Proof.
  induction 1 as [|[k1 v1] t Hwf IH Hall]; simpl; [constructor|].
  destruct (cmp k k1); [done|by constructor|].
  constructor; [done|]. by apply bt_remove_forall.
Qed.

Lemma bt_get_remove k k' t :
  bt_wf t → bt_get k (bt_remove k' t) = match cmp k k' with Eq => None | _ => bt_get k t end.
Proof.
  induction 1 as [|[k1 v1] t Hwf IH Hall]; simpl; [by destruct (cmp k k')|].
  destruct (cmp k' k1) eqn:E1; simpl.
  - apply cmp_eq in E1 as ->. destruct (cmp k k1) eqn:E2; [| |done].
    + apply cmp_eq in E2 as ->. by apply bt_get_below.
    + apply bt_get_below. eapply Forall_impl; [exact Hall|].
      intros [k2 v2] Hlt. by apply (cmp_trans k k1 k2).
  - destruct (cmp k k') eqn:E2; [|done..]. apply cmp_eq in E2 as ->. by rewrite E1.
  - rewrite IH. destruct (cmp k k') eqn:E2; [|done..].
    apply cmp_eq in E2 as ->. by rewrite E1.
Qed.

Lemma bt_get_remove_ne k k' t : bt_wf t → k ≠ k' → bt_get k (bt_remove k' t) = bt_get k t.
Proof.
  intros Hwf Hne. rewrite bt_get_remove by done.
  destruct (cmp k k') eqn:E; [by apply cmp_eq in E|done..].
Qed.

Lemma bt_get_Some k v t : bt_wf t → bt_get k t = Some v ↔ (k, v) ∈ t.
Proof.
  induction 1 as [|[k1 v1] t Hwf IH Hall]; simpl; [by split; [|intros ?%not_elem_of_nil]|].
  rewrite elem_of_cons. destruct (cmp k k1) eqn:E.
  - apply cmp_eq in E as ->. split; [intros [= ->]; by left|].
    intros [[= ->]|Hin]; [done|]. rewrite Forall_forall in Hall.
    apply Hall in Hin. unfold bt_lt in Hin; simpl in Hin. by rewrite cmp_refl in Hin.
  - split; [done|]. intros [[= -> ->]|Hin]; [by rewrite cmp_refl in E|].
    rewrite Forall_forall in Hall. apply Hall in Hin. unfold bt_lt in Hin; simpl in Hin.
    apply cmp_gt_lt in E as E'. apply (cmp_trans k k1 k) in Hin; [|done].
    by rewrite cmp_refl in Hin.
  - rewrite IH. split; [by right|]. intros [[= -> ->]|Hin]; [|done].
    by rewrite cmp_refl in E.
Qed.

Lemma bt_insert_last k v t : Forall (λ e, bt_lt e (k, v)) t → bt_insert k v t = t ++ [(k, v)].
Proof.
  induction 1 as [|[k1 v1] t Hk Ht IH]; simpl; [done|].
  unfold bt_lt in Hk. simpl in Hk. apply cmp_gt_lt in Hk. by rewrite Hk, IH.
Qed.

Lemma bt_wf_nil : bt_wf ([] : btree K V).
Proof. constructor. Qed.

Lemma bt_wf_filter (P : K * V → Prop) `{∀ e, Decision (P e)} t :
  bt_wf t → bt_wf (filter P t).
Proof.
  induction 1 as [|e t Hwf IH Hall]; [constructor|].
  rewrite filter_cons. case_decide; [|done]. constructor; [done|].
  rewrite Forall_forall in *. intros e' [_ ?]%list_elem_of_filter. auto.
Qed.

Lemma bt_get_filter (P : K * V → Prop) `{∀ e, Decision (P e)} k t :
  bt_wf t → bt_get k (filter P t) =
    match bt_get k t with Some v => if decide (P (k, v)) then Some v else None | None => None end.
Proof.
  intros Hwf. apply option_eq. intros v.
  rewrite bt_get_Some by by apply bt_wf_filter. rewrite list_elem_of_filter.
  rewrite <- (bt_get_Some k v t) by done.
  destruct (bt_get k t) as [v'|]; [|naive_solver]. case_decide; naive_solver.
Qed.

(** The keys come out in strictly increasing order. *)
Lemma bt_keys_sorted t : bt_wf t → StronglySorted (λ a b : K, cmp a b = Lt) t.*1.
Proof.
  induction 1 as [|e t Hwf IH Hall]; simpl; constructor; [done|]. by apply Forall_fmap.
Qed.

Lemma bt_wf_nodup t : bt_wf t → NoDup t.*1.
Proof.
  intros Hs%bt_keys_sorted. induction Hs as [|k l _ IH Hall]; constructor; [|done].
  intros Hin. rewrite Forall_forall in Hall. specialize (Hall k Hin). simpl in Hall.
  by rewrite cmp_refl in Hall.
Qed.

Lemma bt_wf_tail e t : bt_wf (e :: t) → bt_wf t ∧ Forall (bt_lt e) t.
Proof. by inversion 1. Qed.

(** Mapping entries without touching the keys. *)
Lemma bt_wf_fmap_keys {V'} (f : K * V → K * V') t : (∀ e, (f e).1 = e.1) → bt_wf t →
  StronglySorted (λ a b : K * V', cmp a.1 b.1 = Lt) (f <$> t).
Proof.
  intros Hf. induction 1 as [|e t Hwf IH Hall]; simpl; constructor; [done|]. apply Forall_fmap.
  eapply Forall_impl; [exact Hall|]. intros e' He. unfold compose. by rewrite !Hf.
Qed.

(** Extensionality *)
Lemma bt_ext t1 t2 :
  bt_wf t1 → bt_wf t2 → (∀ k, bt_get k t1 = bt_get k t2) → t1 = t2.
Proof.
  intros H1. revert t2. induction H1 as [|[k1 v1] t1 Hw1 IH Ha1]; intros [|[k2 v2] t2] H2 Hext.
  - done.
  - specialize (Hext k2). simpl in Hext. by rewrite cmp_refl in Hext.
  - specialize (Hext k1). simpl in Hext. by rewrite cmp_refl in Hext.
  - apply bt_wf_tail in H2 as [Hw2 Ha2].
    assert (∀ k t (v : V), Forall (bt_lt (k, v)) t → bt_get k t = None) as Hnone.
    { intros k t v Hf. apply bt_get_below. done. }
    pose proof (Hext k1) as Hk1. pose proof (Hext k2) as Hk2. simpl in Hk1, Hk2.
    rewrite cmp_refl in Hk1, Hk2. rewrite (cmp_antisym k1 k2) in Hk2.
    destruct (cmp k1 k2) eqn:E; simpl in *; [|done..].
    apply cmp_eq in E as ->. simplify_eq. f_equal.
    apply IH; [done|]. intros k. specialize (Hext k). simpl in Hext.
    destruct (cmp k k2) eqn:E'; [|rewrite !bt_get_below; [done|..]|done].
    + apply cmp_eq in E' as ->. by rewrite (Hnone _ _ _ Ha1), (Hnone _ _ _ Ha2).
    + eapply Forall_impl; [exact Ha2|]. intros [k' v'] Hlt. by apply (cmp_trans k k2 k').
    + eapply Forall_impl; [exact Ha1|]. intros [k' v'] Hlt. by apply (cmp_trans k k2 k').
Qed.

Lemma bt_insert_length_fresh k v t :
  bt_wf t → bt_get k t = None → length (bt_insert k v t) = S (length t).
Proof.
  induction 1 as [|[k1 v1] t Hwf IH Hall]; simpl; [done|].
  destruct (cmp k k1); simpl; [done..|]. intros. by rewrite IH.
Qed.

Lemma bt_insert_length_present k v v' t :
  bt_wf t → bt_get k t = Some v' → length (bt_insert k v t) = length t.
Proof.
  induction 1 as [|[k1 v1] t Hwf IH Hall]; simpl; [done|].
  destruct (cmp k k1); simpl; [done..|]. intros. by rewrite IH.
Qed.

Lemma bt_wf_foldl (l : list (K * V)) t : bt_wf t → bt_wf (foldl (λ t e, bt_insert e.1 e.2 t) t l).
Proof. revert t. induction l as [|e l IH]; intros t Ht; simpl; [done|]. by apply IH, bt_wf_insert. Qed.

Lemma bt_get_foldl_ne (l : list (K * V)) k t : bt_wf t → k ∉ l.*1 →
  bt_get k (foldl (λ t e, bt_insert e.1 e.2 t) t l) = bt_get k t.
Proof.
  revert t. induction l as [|e l IH]; intros t Ht Hk; simpl; [done|].
  apply not_elem_of_cons in Hk as [Hne Hk]. rewrite IH by (auto using bt_wf_insert).
  by apply bt_get_insert_ne.
Qed.

Lemma bt_wf_of_list l : bt_wf (bt_of_list (V := V) l).
Proof. apply bt_wf_foldl, bt_wf_nil. Qed.
End btree_lemmas.

Section btree_omap.
Context {K V : Type} `{OrdLaws K}.
Implicit Types t : btree K V.

(** Mapping and filtering the values of a map, keys in place. *)
Lemma bt_wf_omap {B} (f : K → V → option B) t :
  bt_wf t → bt_wf (omap (λ e : K * V, y ← f e.1 e.2; Some (e.1, y)) t).
Proof.
  induction 1 as [|e t Hwf IH Hall]; [constructor|]. simpl.
  destruct (f e.1 e.2) as [y|]; simpl; [|done]. constructor; [done|].
  rewrite Forall_forall in Hall. apply Forall_forall. intros e' ([k v] & Hin & He)%list_elem_of_omap. simpl in He.
  destruct (f k v); simpl in He; [|done]. injection He as <-. by apply Hall in Hin.
Qed.

Lemma bt_get_omap {B} (f : K → V → option B) k t : bt_wf t →
  bt_get k (omap (λ e : K * V, y ← f e.1 e.2; Some (e.1, y)) t) = bt_get k t ≫= f k.
Proof.
  induction 1 as [|[k' v] t Hwf IH Hall]; [done|]. simpl.
  assert (cmp k k' = Lt ∨ cmp k k' = Eq →
    bt_get k (omap (λ e : K * V, y ← f e.1 e.2; Some (e.1, y)) t) = None) as Hbelow.
  { intros Hk. apply bt_get_below. rewrite Forall_forall in Hall. apply Forall_forall.
    intros e' ([k2 v2] & Hin & He)%list_elem_of_omap. simpl in He.
    destruct (f k2 v2); simpl in He; [|done]. injection He as <-. simpl.
    apply Hall in Hin. unfold bt_lt in Hin. simpl in Hin.
    destruct Hk as [Hk|Hk%cmp_eq]; [by eapply cmp_trans|by subst]. }
  destruct (f k' v) as [y|] eqn:Ef; simpl.
  - destruct (cmp k k') eqn:E; [|done|apply IH]. apply cmp_eq in E as ->. done.
  - destruct (cmp k k') eqn:E; [| |apply IH].
    + etrans; [apply Hbelow; auto|]. apply cmp_eq in E. subst k. simpl. by rewrite Ef.
    + apply Hbelow; auto.
Qed.
End btree_omap.

#[export] Hint Resolve bt_wf_insert bt_wf_remove bt_wf_nil bt_wf_of_list bt_wf_filter : orbit.
