(* ===== verification/F64.v ===== *)
(** * IEEE-754 binary64 and binary32 values (Rust's [f64] and [f32])

    [f64] is the Standard Library's executable specification of binary
    floating point, at precision 53 and exponent bound 1024; the operations
    below are the ones the modelled code performs. *)

From Stdlib Require Import Floats.SpecFloat.
From S2P Require Import Prelude BTree.
Local Open Scope Z_scope.

Definition f64 : Type := spec_float.

#[export] Instance f64_eq_dec : EqDecision f64.
Proof. unfold f64. solve_decision. Defined.

Definition f64_add (x y : f64) : f64 := SFadd 53 1024 x y.
Definition f64_sub (x y : f64) : f64 := SFsub 53 1024 x y.
Definition f64_mul (x y : f64) : f64 := SFmul 53 1024 x y.
Definition f64_div (x y : f64) : f64 := SFdiv 53 1024 x y.
Definition f64_abs (x : f64) : f64 := SFabs x.
Definition f64_ltb (x y : f64) : bool := SFltb x y.
Definition f64_leb (x y : f64) : bool := SFleb x y.
Definition f64_eqb (x y : f64) : bool := SFeqb x y.
Definition is_finite (x : f64) : bool :=
  match x with S754_zero _ | S754_finite _ _ _ => true | _ => false end.
Definition is_nan (x : f64) : bool := match x with S754_nan => true | _ => false end.

(** [n as f64]: the nearest double, ties to even. *)
Definition f64_of_Z (n : Z) : f64 := binary_normalize 53 1024 n 0 false.

(** The integer part of a finite double, rounding towards zero. *)
Definition f64_trunc_Z (x : f64) : Z :=
  match x with
  | S754_finite s m e =>
      let n := if 0 <=? e then Z.pos m * 2 ^ e else Z.pos m / 2 ^ (- e) in
      if s then - n else n
  | _ => 0
  end.

(** [x as u64]: saturating, and 0 on NaN. *)
Definition f64_to_u64 (x : f64) : Z :=
  match x with
  | S754_infinity false => 2 ^ 64 - 1
  | S754_infinity true | S754_nan => 0
  | _ => Z.max 0 (Z.min (f64_trunc_Z x) (2 ^ 64 - 1))
  end.

(** [x as isize]: saturating, and 0 on NaN. *)
Definition f64_to_i64 (x : f64) : Z :=
  match x with
  | S754_infinity false => 2 ^ 63 - 1
  | S754_infinity true => - 2 ^ 63
  | S754_nan => 0
  | _ => Z.max (- 2 ^ 63) (Z.min (f64_trunc_Z x) (2 ^ 63 - 1))
  end.

(** [x.clamp(lo, hi)] for [lo ≤ hi], neither of them NaN; NaN stays NaN. *)
Definition f64_clamp (x lo hi : f64) : f64 :=
  if f64_ltb x lo then lo else if f64_ltb hi x then hi else x.

(** Rounding to an integer: [f n d] rounds the quotient [n / d]; a zero keeps the
    sign of the argument. *)
Definition round_int (f : Z → Z → Z) (x : f64) : f64 :=
  match x with
  | S754_finite s m e =>
      if 0 <=? e then x
      else
        let n := f (if s then Z.neg m else Z.pos m) (2 ^ (- e)) in
        if n =? 0 then S754_zero s else f64_of_Z n
  | _ => x
  end.
Definition half_even (n d : Z) : Z :=
  let q := n / d in
  match 2 * (n mod d) ?= d with
  | Lt => q
  | Gt => q + 1
  | Eq => if Z.even q then q else q + 1
  end.
Definition f64_floor : f64 → f64 := round_int Z.div.
Definition f64_ceil : f64 → f64 := round_int (λ n d, - (- n / d)).
Definition f64_trunc : f64 → f64 := round_int Z.quot.
Definition f64_round_ties_even : f64 → f64 := round_int half_even.

Definition f64_sqrt (x : f64) : f64 := SFsqrt 53 1024 x.

(** [x.clamp(lo, hi)] asserts [lo <= hi]: [None] is its panic. *)
Definition f64_clamp_checked (x lo hi : f64) : option f64 :=
  if f64_leb lo hi then Some (f64_clamp x lo hi) else None.

(** [x.max(y)] and [x.min(y)]: a NaN is ignored. *)
Definition f64_max (x y : f64) : f64 :=
  if is_nan x then y else if is_nan y then x else if f64_ltb x y then y else x.
Definition f64_min (x y : f64) : f64 :=
  if is_nan x then y else if is_nan y then x else if f64_ltb y x then y else x.

Definition f64_zero : f64 := S754_zero false.
Definition f64_one : f64 := Eval vm_compute in f64_of_Z 1.
Definition f64_hundred : f64 := Eval vm_compute in f64_of_Z 100.

Definition f64_neg_one : f64 := Eval vm_compute in f64_of_Z (-1).
Definition f64_epsilon : f64 := Eval vm_compute in f64_div f64_one (f64_of_Z (2 ^ 52)).

(** [x.signum()]: the sign of a zero counts. *)
Definition f64_signum (x : f64) : f64 :=
  match x with
  | S754_nan => S754_nan
  | S754_zero s | S754_infinity s | S754_finite s _ _ => if s then f64_neg_one else f64_one
  end.

(** ** Single precision *)

Definition f32 : Type := spec_float.

#[export] Instance f32_eq_dec : EqDecision f32 := f64_eq_dec.

Definition f32_add (x y : f32) : f32 := SFadd 24 128 x y.
Definition f32_sub (x y : f32) : f32 := SFsub 24 128 x y.
Definition f32_mul (x y : f32) : f32 := SFmul 24 128 x y.
Definition f32_div (x y : f32) : f32 := SFdiv 24 128 x y.
Definition f32_sqrt (x : f32) : f32 := SFsqrt 24 128 x.
Definition f32_of_Z (n : Z) : f32 := binary_normalize 24 128 n 0 false.

(** Change of precision, to the nearest value. *)
Definition convert (prec emax : Z) (x : spec_float) : spec_float :=
  match x with
  | S754_finite s m e => binary_normalize prec emax (if s then Z.neg m else Z.pos m) e s
  | _ => x
  end.
(** [x as f64] and [x as f32] *)
Definition f64_of_f32 (x : f32) : f64 := convert 53 1024 x.
Definition f32_of_f64 (x : f64) : f32 := convert 24 128 x.

Definition f32_one : f32 := Eval vm_compute in f32_of_Z 1.
(** Rounding to an integer is exact, so it can be done on the wider type. *)
Definition f32_floor (x : f32) : f32 := f32_of_f64 (f64_floor x).
Definition f32_ceil (x : f32) : f32 := f32_of_f64 (f64_ceil x).
Definition f32_trunc (x : f32) : f32 := f32_of_f64 (f64_trunc x).
Definition f32_round_ties_even (x : f32) : f32 := f32_of_f64 (f64_round_ties_even x).
Definition f32_signum (x : f32) : f32 := f32_of_f64 (f64_signum x).

(** The functions of the platform's mathematical library. *)
Class Libm := {
  f64_exp : f64 → f64; f64_ln : f64 → f64;
  f64_sin : f64 → f64; f64_cos : f64 → f64; f64_tan : f64 → f64;
  f64_asin : f64 → f64; f64_acos : f64 → f64; f64_atan : f64 → f64;
  f64_powf : f64 → f64 → f64; f64_powi : f64 → Z → f64; f64_atan2 : f64 → f64 → f64 }.

(** Their single-precision versions. *)
Class Libm32 := {
  f32_exp : f32 → f32; f32_ln : f32 → f32;
  f32_sin : f32 → f32; f32_cos : f32 → f32; f32_tan : f32 → f32;
  f32_asin : f32 → f32; f32_acos : f32 → f32; f32_atan : f32 → f32;
  f32_powf : f32 → f32 → f32; f32_powi : f32 → Z → f32; f32_atan2 : f32 → f32 → f32 }.

(** [x.log(base)] *)
Definition f64_log `{Libm} (x base : f64) : f64 := f64_div (f64_ln x) (f64_ln base).

(** ** Comparison *)

Lemma SFcompare_swap (x y : f64) :
  SFcompare y x = match SFcompare x y with Some c => Some (CompOpp c) | None => None end.
Proof.
  destruct x as [sx|sx| |sx mx ex], y as [sy|sy| |sy my ey];
    try destruct sx; try destruct sy; simpl; try done.
  - rewrite (Z.compare_antisym ex ey). destruct (ex ?= ey)%Z; simpl; try done.
    change (Pos.compare_cont Eq) with Pos.compare.
    rewrite (Pos.compare_antisym mx my). by destruct (mx ?= my)%positive.
  - rewrite (Z.compare_antisym ex ey). destruct (ex ?= ey)%Z; simpl; try done.
    change (Pos.compare_cont Eq) with Pos.compare.
    by rewrite (Pos.compare_antisym mx my).
Qed.

Lemma SFcompare_nan (x y : f64) :
  SFcompare x y = None ↔ is_nan x = true ∨ is_nan y = true.
Proof.
  destruct x as [sx|sx| |sx mx ex], y as [sy|sy| |sy my ey];
    try destruct sx; try destruct sy; simpl; try naive_solver;
    destruct (ex ?= ey)%Z; naive_solver.
Qed.

Lemma finite_not_nan (x : f64) : is_finite x = true → is_nan x = false.
Proof. by destruct x. Qed.

(** On non-NaN values [<=] is the negation of the converse [<]. *)
Lemma f64_nlt_le (x y : f64) :
  is_nan x = false → is_nan y = false → f64_ltb x y = false → f64_leb y x = true.
Proof.
  intros Hx Hy. unfold f64_ltb, f64_leb, SFltb, SFleb. rewrite (SFcompare_swap x y).
  destruct (SFcompare x y) as [[]|] eqn:E; simpl; try done.
  apply SFcompare_nan in E as [E|E]; congruence.
Qed.

Lemma f64_clamp_bounds (x lo hi : f64) :
  is_nan x = false → is_nan lo = false → is_nan hi = false → f64_leb lo hi = true →
  f64_leb lo (f64_clamp x lo hi) = true ∧ f64_leb (f64_clamp x lo hi) hi = true.
Proof.
  intros Hx Hlo Hhi Hle. unfold f64_clamp.
  assert (∀ z, is_nan z = false → f64_leb z z = true) as Hrefl.
  { intros z Hz. apply f64_nlt_le; [done..|]. unfold f64_ltb, SFltb.
    pose proof (SFcompare_swap z z). destruct (SFcompare z z) as [[]|]; simpl in *; naive_solver. }
  destruct (f64_ltb x lo) eqn:E1; [by auto|].
  destruct (f64_ltb hi x) eqn:E2; [by auto|].
  split; by apply f64_nlt_le.
Qed.

Lemma f64_clamp_nan (x lo hi : f64) : is_nan x = true → f64_clamp x lo hi = x.
Proof. destruct x; try done. intros _. by destruct lo, hi. Qed.

(** Comparison is the lexicographic order of sign, exponent and mantissa. *)
Definition order_key (x : f64) : Z * (Z * Z) :=
  match x with
  | S754_infinity true => (-2, (0, 0))
  | S754_finite true m e => (-1, (- e, Z.neg m))
  | S754_zero _ | S754_nan => (0, (0, 0))
  | S754_finite false m e => (1, (e, Z.pos m))
  | S754_infinity false => (2, (0, 0))
  end.

Lemma SFcompare_key (x y : f64) :
  is_nan x = false → is_nan y = false → SFcompare x y = Some (cmp (order_key x) (order_key y)).
Proof.
  destruct x as [[]|[]| |[] mx ex], y as [[]|[]| |[] my ey]; try done; intros _ _; simpl;
    unfold cmp, ord_prod; simpl; unfold cmp, ord_Z; simpl; change (Pos.compare_cont Eq) with Pos.compare.
  rewrite Z.compare_opp, (Z.compare_antisym ex ey). by destruct (ex ?= ey).
Qed.
