(* ===== verification/F64Value.v ===== *)
(** * The values behind doubles

    A double that an operation can return is canonical ([valid]), and then stands
    for an integer multiple of the least positive double, 2^-1074 ([sval]).  The
    operations return canonical doubles, comparing doubles is comparing values, and
    conversions of small integers are exact. *)

From Stdlib Require Import Floats.SpecFloat.
From S2P Require Import Prelude BTree F64.
Local Open Scope Z_scope.

Definition valid (x : f64) : Prop := valid_binary 53 1024 x = true.

(** ** Digits *)

Notation dig := Zdigits2.
Notation fexp := (SpecFloat.fexp 53 1024).

Lemma pow2_pos k : 0 ≤ k → 0 < 2 ^ k.
Proof. intros. by apply Z.pow_pos_nonneg. Qed.

Lemma fexp_eq e : fexp e = Z.max (e - 53) (-1074).
Proof. reflexivity. Qed.

Lemma digits_pos p : 2 ^ (Z.pos (digits2_pos p) - 1) ≤ Z.pos p < 2 ^ Z.pos (digits2_pos p).
Proof.
  induction p as [p IH|p IH|]; simpl digits2_pos; [| |simpl; lia];
    rewrite Pos2Z.inj_succ, Z.pow_succ_r by lia;
    replace (Z.succ (Z.pos (digits2_pos p)) - 1) with (Z.succ (Z.pos (digits2_pos p) - 1)) by lia;
    rewrite Z.pow_succ_r by lia; lia.
Qed.

Lemma dig_spec m : 0 < m → 2 ^ (dig m - 1) ≤ m < 2 ^ dig m ∧ 1 ≤ dig m.
Proof. destruct m as [|p|p]; [lia| |lia]. intros _. split; [apply digits_pos|simpl; lia]. Qed.

Lemma dig_nonneg m : 0 ≤ m → 0 ≤ dig m.
Proof. destruct m; simpl; lia. Qed.

Lemma dig_le m k : 0 ≤ k → m < 2 ^ k → 0 ≤ m → dig m ≤ k.
Proof.
  intros Hk Hm H0. destruct (decide (m = 0)) as [->|]; [simpl; lia|].
  destruct (dig_spec m ltac:(lia)) as [[Hlo _] _].
  assert (2 ^ (dig m - 1) < 2 ^ k) as H by lia. apply Z.pow_lt_mono_r_iff in H; lia.
Qed.

Lemma dig_ge m k : 0 ≤ k → 2 ^ k ≤ m → k + 1 ≤ dig m.
Proof.
  intros Hk Hm. pose proof (pow2_pos k Hk). destruct (dig_spec m ltac:(lia)) as [[_ Hhi] H1].
  assert (2 ^ k < 2 ^ dig m) as H' by lia. apply Z.pow_lt_mono_r_iff in H'; lia.
Qed.

Lemma dig_mul_pow m k : 0 < m → 0 ≤ k → dig (m * 2 ^ k) = dig m + k.
Proof.
  intros Hm Hk. destruct (dig_spec m Hm) as [[Hlo Hhi] H1]. pose proof (pow2_pos k Hk).
  assert (dig (m * 2 ^ k) ≤ dig m + k).
  { apply dig_le; [lia| |nia]. rewrite Z.pow_add_r by lia. nia. }
  assert (dig m - 1 + k + 1 ≤ dig (m * 2 ^ k)); [|lia].
  apply dig_ge; [lia|]. rewrite Z.pow_add_r by lia. nia.
Qed.

(** ** Shifting *)

Lemma shr_1_m mrs : 0 ≤ shr_m mrs → shr_m (shr_1 mrs) = shr_m mrs / 2.
Proof.
  destruct mrs as [[|[p|p|]|p] r s]; simpl; try lia; intros _; try done.
  - rewrite Pos2Z.inj_xI. Z.to_euclidean_division_equations; lia.
  - rewrite Pos2Z.inj_xO. Z.to_euclidean_division_equations; lia.
Qed.

Lemma iter_shr_m n : ∀ mrs, 0 ≤ shr_m mrs →
  shr_m (SpecFloat.iter_pos shr_1 n mrs) = shr_m mrs / 2 ^ Z.pos n.
Proof.
  assert (∀ m k, 0 ≤ m → 0 ≤ m / 2 ^ Z.pos k) as Hpos
    by (intros; apply Z.div_pos; [done|apply Z.pow_pos_nonneg; lia]).
  induction n as [n IH|n IH|]; intros mrs Hm; cbn [SpecFloat.iter_pos].
  - assert (shr_m (shr_1 mrs) = shr_m mrs / 2) as H1 by (by apply shr_1_m).
    assert (0 ≤ shr_m (shr_1 mrs)) by (rewrite H1; by apply (Hpos _ 1%positive)).
    rewrite IH, IH, H1 by (done || (rewrite IH by done; by apply Hpos)).
    pose proof (pow2_pos (Z.pos n) ltac:(lia)). rewrite !Z.div_div by lia. f_equal.
    replace (Z.pos n~1) with (1 + (Z.pos n + Z.pos n)) by lia.
    rewrite !Z.pow_add_r by lia. lia.
  - rewrite IH, IH by (done || (rewrite IH by done; by apply Hpos)).
    pose proof (pow2_pos (Z.pos n) ltac:(lia)). rewrite Z.div_div by lia. f_equal.
    replace (Z.pos n~0) with (Z.pos n + Z.pos n) by lia. by rewrite Z.pow_add_r by lia.
  - by apply shr_1_m.
Qed.

(** Shifting out zeros is exact. *)
Lemma iter_shr_exact n : ∀ m, 0 ≤ m →
  SpecFloat.iter_pos shr_1 n (Build_shr_record (m * 2 ^ Z.pos n) false false) = Build_shr_record m false false.
Proof.
  assert (∀ m, 0 ≤ m → shr_1 (Build_shr_record (m * 2) false false) = Build_shr_record m false false) as H1.
  { intros [|p|p] Hm; [done| |lia]. by rewrite Z.mul_comm, <- Pos2Z.inj_xO. }
  induction n as [n IH|n IH|]; intros m Hm; cbn [SpecFloat.iter_pos].
  - pose proof (pow2_pos (Z.pos n) ltac:(lia)).
    replace (Z.pos n~1) with (Z.pos n + (Z.pos n + 1)) by lia.
    rewrite !Z.pow_add_r, Z.pow_1_r by lia.
    replace (m * (2 ^ Z.pos n * (2 ^ Z.pos n * 2)))
      with (m * 2 ^ Z.pos n * 2 ^ Z.pos n * 2) by lia.
    rewrite H1, !IH by (repeat apply Z.mul_nonneg_nonneg; lia). done.
  - pose proof (pow2_pos (Z.pos n) ltac:(lia)).
    replace (Z.pos n~0) with (Z.pos n + Z.pos n) by lia. rewrite Z.pow_add_r, Z.mul_assoc by lia.
    rewrite !IH by (repeat apply Z.mul_nonneg_nonneg; lia). done.
  - by apply H1.
Qed.

(** ** Rounding *)

(** A shift towards the exponent of a double leaves the quotient. *)
Lemma shr_fexp_spec m e l mrs e' : 0 ≤ m → SpecFloat.shr_fexp 53 1024 m e l = (mrs, e') →
  e' = Z.max e (fexp (dig m + e)) ∧ shr_m mrs = m / 2 ^ (e' - e) ∧
  (fexp (dig m + e) ≤ e → mrs = shr_record_of_loc m l) ∧
  (∀ q, l = loc_Exact → m = q * 2 ^ (e' - e) → 0 ≤ q → mrs = Build_shr_record q false false).
Proof.
  intros Hm. unfold SpecFloat.shr_fexp. assert (shr_m (shr_record_of_loc m l) = m) as Hr
    by (by destruct l as [|[]]).
  destruct (fexp (dig m + e) - e) as [|p|p] eqn:E; simpl; intros [= <- <-].
  - replace (Z.max e (fexp (dig m + e))) with e by lia. rewrite Z.sub_diag, Z.div_1_r.
    split_and!; [done..|]. intros q -> ->. by rewrite Z.mul_1_r.
  - replace (Z.max e (fexp (dig m + e))) with (e + Z.pos p) by lia.
    replace (e + Z.pos p - e) with (Z.pos p) by lia.
    split_and!; [done|by rewrite iter_shr_m; rewrite Hr|lia|].
    intros q -> -> Hq. simpl. by apply iter_shr_exact.
  - replace (Z.max e (fexp (dig m + e))) with e by lia. rewrite Z.sub_diag, Z.div_1_r.
    split_and!; [done..|]. intros q -> ->. by rewrite Z.mul_1_r.
Qed.

Lemma round_ne_cases m l : round_nearest_even m l = m ∨ round_nearest_even m l = m + 1.
Proof. destruct l as [|[]]; simpl; auto. destruct (Z.even m); auto. Qed.

Lemma valid_intro s m e : fexp (dig (Z.pos m) + e) = e → e ≤ 971 → valid (S754_finite s m e).
Proof.
  intros Hc He. unfold valid, valid_binary, bounded, canonical_mantissa.
  apply andb_true_iff. split; [by apply Z.eqb_eq|by apply Z.leb_le].
Qed.

Lemma valid_finite s m e : valid (S754_finite s m e) →
  fexp (dig (Z.pos m) + e) = e ∧ -1074 ≤ e ≤ 971 ∧ Z.pos m < 2 ^ 53 ∧
  (-1074 < e → 2 ^ 52 ≤ Z.pos m).
Proof.
  unfold valid, valid_binary, bounded, canonical_mantissa. intros [Hc He]%andb_true_iff.
  apply Z.eqb_eq in Hc. apply Z.leb_le in He. change (Z.pos (digits2_pos m)) with (dig (Z.pos m)) in Hc.
  split; [done|]. rewrite fexp_eq in Hc. destruct (dig_spec (Z.pos m) ltac:(lia)) as [[Hlo Hhi] H1].
  split; [lia|]. split.
  - assert (2 ^ dig (Z.pos m) ≤ 2 ^ 53); [|lia]. apply Z.pow_le_mono_r; lia.
  - intros He'. assert (dig (Z.pos m) = 53) as E by lia. rewrite E in Hlo. exact Hlo.
Qed.

(** What a rounding returns is canonical. *)
Lemma valid_round_aux s m e l : 0 ≤ m → e ≤ fexp (dig m + e) →
  valid (binary_round_aux 53 1024 s m e l).
Proof.
  intros Hm He. unfold binary_round_aux.
  destruct (SpecFloat.shr_fexp 53 1024 m e l) as [mrs1 e1] eqn:E1.
  destruct (shr_fexp_spec _ _ _ _ _ Hm E1) as (He1 & Hm1 & _).
  set (m1 := shr_m mrs1) in *. rewrite fexp_eq in *.
  pose proof (pow2_pos (e1 - e) ltac:(lia)) as Hpow.
  assert (0 ≤ m1 < 2 ^ 53) as Hm1r.
  { rewrite Hm1. split; [by apply Z.div_pos|]. apply Z.div_lt_upper_bound; [done|].
    rewrite <- Z.pow_add_r by lia. destruct (decide (m = 0)) as [->|]; [apply pow2_pos; lia|].
    destruct (dig_spec m ltac:(lia)) as [[_ Hhi] _].
    apply (Z.lt_le_trans _ _ _ Hhi), Z.pow_le_mono_r; lia. }
  assert (-1074 < e1 → 2 ^ 52 ≤ m1) as Hnorm.
  { intros Hlt. assert (m ≠ 0) by (intros ->; simpl in *; lia).
    destruct (dig_spec m ltac:(lia)) as [[Hlo _] _]. rewrite Hm1.
    apply Z.div_le_lower_bound; [done|]. rewrite <- Z.pow_add_r by lia.
    etrans; [|exact Hlo]. apply Z.pow_le_mono_r; lia. }
  set (m2 := round_nearest_even m1 _).
  assert (m2 = m1 ∨ m2 = m1 + 1) as Hm2 by apply round_ne_cases.
  destruct (SpecFloat.shr_fexp 53 1024 m2 e1 loc_Exact) as [mrs2 e2] eqn:E2.
  assert (0 ≤ m2) as Hm2p by lia. destruct (shr_fexp_spec _ _ _ _ _ Hm2p E2) as (He2 & Hm3 & _). rewrite fexp_eq in He2.
  assert (-1074 ≤ e1) by lia.
  destruct (shr_m mrs2) as [|p|p] eqn:Ep; [done| |].
  2:{ exfalso. assert (0 ≤ m2 / 2 ^ (e2 - e1)); [|lia]. apply Z.div_pos; [lia|apply pow2_pos; lia]. }
  destruct (Z.leb_spec e2 (1024 - 53)) as [Hle|]; [|done].
  apply valid_intro; [|lia]. rewrite fexp_eq. destruct (decide (m2 = 2 ^ 53)) as [Etop|Htop].
  - assert (dig m2 = 54) as Ed by (by rewrite Etop). rewrite Ed in He2.
    assert (e2 = e1 + 1) as -> by lia. rewrite Etop in Hm3.
    replace (e1 + 1 - e1) with 1 in Hm3 by lia. change (2 ^ 53 / 2 ^ 1) with (2 ^ 52) in Hm3.
    rewrite Hm3. change (dig (2 ^ 52)) with 53. lia.
  - assert (dig m2 ≤ 53) as Hd by (apply dig_le; lia). assert (e2 = e1) as -> by lia.
    rewrite Z.sub_diag, Z.div_1_r in Hm3. rewrite Hm3.
    destruct (decide (e1 = -1074)) as [->|Hne]; [lia|].
    assert (53 ≤ dig m2); [|lia]. apply (dig_ge m2 52); lia.
Qed.

Lemma shl_align_spec mx ex ex' mz ez : shl_align mx ex ex' = (mz, ez) →
  ez = Z.min ex ex' ∧ Z.pos mz = Z.pos mx * 2 ^ (ex - ez).
Proof.
  assert (∀ d, Z.pos (Pos.iter xO mx d) = Z.pos mx * 2 ^ Z.pos d) as Hit.
  { induction d as [|d IH] using Pos.peano_ind; [simpl; lia|].
    rewrite Pos.iter_succ, Pos2Z.inj_xO, IH, Pos2Z.inj_succ, Z.pow_succ_r by lia. lia. }
  unfold shl_align. destruct (ex' - ex) as [|d|d] eqn:E; intros [= <- <-].
  - replace (Z.min ex ex') with ex by lia. split; [done|]. rewrite Z.sub_diag. lia.
  - replace (Z.min ex ex') with ex by lia. split; [done|]. rewrite Z.sub_diag. lia.
  - replace (Z.min ex ex') with ex' by lia. split; [done|].
    rewrite Hit. do 2 f_equal. lia.
Qed.

Lemma valid_round s mx ex : valid (binary_round 53 1024 s mx ex).
Proof.
  unfold binary_round. change (Z.pos (digits2_pos mx)) with (dig (Z.pos mx)).
  destruct (shl_align mx ex _) as [mz ez] eqn:E. apply shl_align_spec in E as [Hez Hmz].
  apply valid_round_aux; [lia|]. rewrite Hmz, dig_mul_pow by lia.
  replace (dig (Z.pos mx) + (ex - ez) + ez) with (dig (Z.pos mx) + ex) by lia. lia.
Qed.

Lemma valid_normalize m e z : valid (binary_normalize 53 1024 m e z).
Proof. destruct m; [done|apply valid_round..]. Qed.

Lemma valid_of_Z n : valid (f64_of_Z n).
Proof. apply valid_normalize. Qed.

Lemma valid_add x y : valid x → valid y → valid (f64_add x y).
Proof.
  intros Hx Hy. destruct x as [[]|[]| |sx mx ex], y as [[]|[]| |sy my ey]; try done.
  apply valid_normalize.
Qed.

Lemma valid_sub x y : valid x → valid y → valid (f64_sub x y).
Proof.
  intros Hx Hy. destruct x as [[]|[]| |sx mx ex], y as [[]|[]| |sy my ey]; try done.
  apply valid_normalize.
Qed.

Lemma valid_mul x y : valid x → valid y → valid (f64_mul x y).
Proof.
  intros Hx Hy. destruct x as [[]|[]| |sx mx ex], y as [[]|[]| |sy my ey]; try done.
  apply valid_finite in Hx as (_ & Hex & Hmx & Hnx), Hy as (_ & Hey & Hmy & Hny).
  simpl. apply valid_round_aux; [lia|]. rewrite fexp_eq.
  destruct (dig_spec (Z.pos mx) ltac:(lia)) as [[Hlx _] H1x].
  destruct (dig_spec (Z.pos my) ltac:(lia)) as [[Hly _] H1y].
  assert (dig (Z.pos mx) - 1 + (dig (Z.pos my) - 1) + 1 ≤ dig (Z.pos (mx * my))) as Hd.
  { apply dig_ge; [lia|]. rewrite Z.pow_add_r by lia. rewrite Pos2Z.inj_mul. nia. }
  assert (-1074 < ex → 53 ≤ dig (Z.pos mx)) as Hdx by (intros Hlt; apply (dig_ge _ 52); [lia|auto]).
  assert (-1074 < ey → 53 ≤ dig (Z.pos my)) as Hdy by (intros Hlt; apply (dig_ge _ 52); [lia|auto]).
  destruct (decide (-1074 < ex)), (decide (-1074 < ey)); lia.
Qed.

Lemma valid_div x y : valid x → valid y → valid (f64_div x y).
Proof.
  intros Hx Hy. destruct x as [[]|[]| |sx mx ex], y as [[]|[]| |sy my ey]; try done.
  unfold f64_div, SFdiv, SFdiv_core_binary.
  set (d1 := dig (Z.pos mx)). set (d2 := dig (Z.pos my)).
  set (e' := Z.min _ (ex - ey)). set (s := ex - ey - e').
  assert (match s with Z.pos _ => Z.shiftl (Z.pos mx) s | 0 => Z.pos mx | Z.neg _ => 0 end =
    Z.pos mx * 2 ^ s) as ->.
  { destruct s eqn:E; [lia|by rewrite Z.shiftl_mul_pow2 by lia|unfold s, e' in E; lia]. }
  assert (0 ≤ s) as Hs by (unfold s, e'; lia). pose proof (pow2_pos s Hs) as Hpow.
  assert (Z.div_eucl (Z.pos mx * 2 ^ s) (Z.pos my) =
    (Z.pos mx * 2 ^ s / Z.pos my, (Z.pos mx * 2 ^ s) mod Z.pos my)) as ->.
  { unfold Z.div, Z.modulo. by destruct (Z.div_eucl _ _). }
  set (q := Z.pos mx * 2 ^ s / Z.pos my).
  assert (0 ≤ q) as Hq by (apply Z.div_pos; nia).
  apply valid_round_aux; [done|].
  destruct (dig_spec (Z.pos mx) ltac:(lia)) as [[Hlx _] H1x].
  destruct (dig_spec (Z.pos my) ltac:(lia)) as [[_ Hhy] H1y]. fold d1 in Hlx, H1x. fold d2 in Hhy, H1y.
  assert (d1 + s - d2 ≤ dig q) as Hd.
  { destruct (decide (d1 + s - d2 ≤ 0)); [pose proof (dig_nonneg q Hq); lia|].
    replace (d1 + s - d2) with (d1 + s - d2 - 1 + 1) by lia. apply dig_ge; [lia|].
    apply Z.div_le_lower_bound; [lia|].
    apply (Z.le_trans _ (2 ^ d2 * 2 ^ (d1 + s - d2 - 1))).
    - apply Z.mul_le_mono_nonneg_r; [apply Z.lt_le_incl, pow2_pos; lia|lia].
    - rewrite <- Z.pow_add_r by lia. replace (d2 + (d1 + s - d2 - 1)) with (d1 - 1 + s) by lia.
      rewrite Z.pow_add_r by lia. nia. }
  assert (e' ≤ fexp (d1 + ex - (d2 + ey))) as He' by (unfold e'; lia).
  rewrite fexp_eq in *. unfold s in Hd. lia.
Qed.

(** ** Values *)

(** The value of a finite double, in units of 2^-1074. *)
Definition sval (x : f64) : Z :=
  match x with
  | S754_finite s m e => (if s then Z.neg m else Z.pos m) * 2 ^ (e + 1074)
  | _ => 0
  end.

(** Canonical doubles compare by exponent, then mantissa: by value. *)
Lemma finite_compare m1 e1 m2 e2 : valid (S754_finite false m1 e1) → valid (S754_finite false m2 e2) →
  match e1 ?= e2 with Lt => Lt | Gt => Gt | Eq => (m1 ?= m2)%positive end =
  (Z.pos m1 * 2 ^ (e1 + 1074) ?= Z.pos m2 * 2 ^ (e2 + 1074)).
Proof.
  assert (∀ m1 e1 m2 e2, valid (S754_finite false m1 e1) → valid (S754_finite false m2 e2) →
    e1 < e2 → Z.pos m1 * 2 ^ (e1 + 1074) < Z.pos m2 * 2 ^ (e2 + 1074)) as Hlt.
  { clear. intros m1 e1 m2 e2 (_ & He1 & Hm1 & _)%valid_finite (_ & He2 & _ & Hn)%valid_finite H.
    specialize (Hn ltac:(lia)). pose proof (pow2_pos (e1 + 1074) ltac:(lia)).
    apply (Z.lt_le_trans _ (2 ^ 53 * 2 ^ (e1 + 1074))); [nia|].
    apply (Z.le_trans _ (2 ^ 52 * 2 ^ (e2 + 1074))).
    - rewrite <- !Z.pow_add_r by lia. apply Z.pow_le_mono_r; lia.
    - pose proof (pow2_pos (e2 + 1074) ltac:(lia)). nia. }
  intros H1 H2. symmetry. destruct (Z.compare_spec e1 e2) as [->|E|E].
  - apply valid_finite in H2 as (_ & He2 & _). pose proof (pow2_pos (e2 + 1074) ltac:(lia)) as Hp.
    symmetry. apply (Zmult_compare_compat_r (Z.pos m1) (Z.pos m2)). lia.
  - apply Z.compare_lt_iff, Hlt; done.
  - apply Z.compare_gt_iff, Hlt; done.
Qed.

Lemma SFcompare_sval x y : valid x → valid y → is_finite x = true → is_finite y = true →
  SFcompare x y = Some (sval x ?= sval y).
Proof.
  assert (∀ m e, valid (S754_finite false m e) → 0 < Z.pos m * 2 ^ (e + 1074)) as Hpos.
  { intros m e (_ & He & _)%valid_finite. pose proof (pow2_pos (e + 1074) ltac:(lia)). nia. }
  assert (∀ s m e, valid (S754_finite s m e) → valid (S754_finite false m e)) as Habs
    by (intros s m e H; exact H).
  intros Hx Hy. destruct x as [sx|sx| |sx mx ex], y as [sy|sy| |sy my ey]; try done; intros _ _;
    cbn [SFcompare sval].
  - apply Habs, Hpos in Hy. f_equal. symmetry. destruct sy; [apply Z.compare_gt_iff|apply Z.compare_lt_iff]; lia.
  - apply Habs, Hpos in Hx. f_equal. symmetry. destruct sx; [apply Z.compare_lt_iff|apply Z.compare_gt_iff]; lia.
  - apply Habs in Hx, Hy. f_equal. pose proof (Hpos _ _ Hx). pose proof (Hpos _ _ Hy).
    pose proof (finite_compare mx ex my ey Hx Hy) as Hc.
    change (Pos.compare_cont Eq) with Pos.compare.
    destruct sx, sy; [|symmetry; apply Z.compare_lt_iff; lia|symmetry; apply Z.compare_gt_iff; lia|exact Hc].
    replace (Z.neg mx * 2 ^ (ex + 1074)) with (- (Z.pos mx * 2 ^ (ex + 1074))) by lia.
    replace (Z.neg my * 2 ^ (ey + 1074)) with (- (Z.pos my * 2 ^ (ey + 1074))) by lia.
    rewrite Z.compare_opp, (Z.compare_antisym (Z.pos mx * 2 ^ (ex + 1074))), <- Hc.
    by destruct (ex ?= ey).
Qed.

Lemma f64_leb_sval x y : valid x → valid y → is_finite x = true → is_finite y = true →
  f64_leb x y = (sval x <=? sval y).
Proof.
  intros. unfold f64_leb, SFleb. rewrite SFcompare_sval by done. unfold Z.leb.
  by destruct (sval x ?= sval y).
Qed.

Lemma f64_ltb_sval x y : valid x → valid y → is_finite x = true → is_finite y = true →
  f64_ltb x y = (sval x <? sval y).
Proof.
  intros. unfold f64_ltb, SFltb. rewrite SFcompare_sval by done. unfold Z.ltb.
  by destruct (sval x ?= sval y).
Qed.

(** A value with at most 53 significant bits is represented exactly. *)
Lemma round_exact s mx ex n f t : 0 < n < 2 ^ 53 → -1074 ≤ f ≤ 971 → t ≤ ex → t ≤ f →
  Z.pos mx * 2 ^ (ex - t) = n * 2 ^ (f - t) →
  ∃ m e, binary_round 53 1024 s mx ex = S754_finite s m e ∧
    Z.pos m * 2 ^ (e + 1074) = n * 2 ^ (f + 1074).
Proof.
  intros Hn Hf Hte Htf HV. set (d := dig (Z.pos mx)).
  assert (d + ex = dig n + f) as HD.
  { pose proof (dig_mul_pow (Z.pos mx) (ex - t) ltac:(lia) ltac:(lia)) as H1.
    pose proof (dig_mul_pow n (f - t) ltac:(lia) ltac:(lia)) as H2. rewrite HV in H1. unfold d. lia. }
  assert (dig n ≤ 53) as Hdn by (apply dig_le; lia).
  set (e' := fexp (d + ex)). assert (-1074 ≤ e' ≤ f) as He' by (unfold e'; rewrite fexp_eq; lia).
  set (q := n * 2 ^ (f - e')). pose proof (pow2_pos (f - e') ltac:(lia)) as Hpq.
  assert (0 < q) as Hq by (unfold q; nia).
  assert (dig q + e' = d + ex) as Hdq by (unfold q; rewrite dig_mul_pow by lia; lia).
  unfold binary_round. change (Z.pos (digits2_pos mx)) with d. fold e'.
  destruct (shl_align mx ex e') as [mz ez] eqn:E. apply shl_align_spec in E as [Hez Hmz].
  assert (Z.pos mz = q * 2 ^ (e' - ez)) as Hmz'.
  { rewrite Hmz. unfold q. rewrite <- Z.mul_assoc, <- Z.pow_add_r by lia.
    set (t' := Z.min t ez). apply (Z.mul_reg_r _ _ (2 ^ (ez - t'))); [apply Z.pow_nonzero; lia|].
    rewrite <- !Z.mul_assoc, <- !Z.pow_add_r by lia.
    replace (ex - ez + (ez - t')) with (ex - t + (t - t')) by lia.
    replace (f - e' + (e' - ez) + (ez - t')) with (f - t + (t - t')) by lia.
    rewrite !Z.pow_add_r, !Z.mul_assoc by lia. by rewrite HV. }
  unfold binary_round_aux.
  destruct (SpecFloat.shr_fexp 53 1024 (Z.pos mz) ez loc_Exact) as [mrs1 e1] eqn:E1.
  apply shr_fexp_spec in E1 as (He1 & _ & _ & Hex1); [|lia].
  assert (dig (Z.pos mz) + ez = d + ex) as Hdz.
  { rewrite Hmz', dig_mul_pow by lia. lia. }
  rewrite Hdz in He1. fold e' in He1. assert (e1 = e') as -> by lia.
  rewrite (Hex1 q eq_refl Hmz' ltac:(lia)). simpl shr_m. simpl loc_of_shr_record.
  simpl round_nearest_even.
  destruct (SpecFloat.shr_fexp 53 1024 q e' loc_Exact) as [mrs2 e2] eqn:E2.
  apply shr_fexp_spec in E2 as (He2 & _ & Hex2 & _); [|lia].
  rewrite Hdq in He2, Hex2. fold e' in He2, Hex2. assert (e2 = e') as -> by lia.
  rewrite (Hex2 ltac:(lia)). simpl shr_m. destruct q as [|m|m] eqn:Eq; [lia| |lia].
  destruct (Z.leb_spec e' (1024 - 53)); [|lia]. exists m, e'. split; [done|].
  rewrite <- Eq. unfold q. rewrite <- Z.mul_assoc, <- Z.pow_add_r by lia. do 2 f_equal. lia.
Qed.

Lemma normalize_exact m e z n f t : Z.abs n < 2 ^ 53 → -1074 ≤ f ≤ 971 → t ≤ e → t ≤ f →
  m * 2 ^ (e - t) = n * 2 ^ (f - t) →
  let x := binary_normalize 53 1024 m e z in
  is_finite x = true ∧ sval x = n * 2 ^ (f + 1074).
Proof.
  intros Hn Hf Hte Htf HV. pose proof (pow2_pos (e - t) ltac:(lia)). pose proof (pow2_pos (f - t) ltac:(lia)).
  destruct m as [|mx|mx]; simpl.
  - assert (n = 0) as -> by nia. done.
  - destruct (round_exact false mx e n f t) as (m' & e' & -> & Hv); [nia|done..|]. done.
  - destruct (round_exact true mx e (- n) f t) as (m' & e' & -> & Hv); [nia|done..|nia|].
    simpl. split; [done|]. lia.
Qed.

Lemma of_Z_exact n : Z.abs n < 2 ^ 53 → is_finite (f64_of_Z n) = true ∧ sval (f64_of_Z n) = n * 2 ^ 1074.
Proof. intros Hn. by apply (normalize_exact n 0 false n 0 0). Qed.

Lemma add_exact x y n f : valid x → valid y → is_finite x = true → is_finite y = true →
  Z.abs n < 2 ^ 53 → -1074 ≤ f ≤ 971 → sval x + sval y = n * 2 ^ (f + 1074) →
  is_finite (f64_add x y) = true ∧ sval (f64_add x y) = sval x + sval y.
Proof.
  intros Hx Hy Hfx Hfy Hn Hf HV.
  destruct x as [sx|sx| |sx mx ex], y as [sy|sy| |sy my ey]; try done.
  - by destruct sx, sy.
  - split; [done|]. cbn [sval] in *. simpl. lia.
  - apply valid_finite in Hx as (_ & Hex & _), Hy as (_ & Hey & _). rewrite HV. simpl.
    set (ez := Z.min ex ey).
    destruct (shl_align mx ex ez) as [mx' ex'] eqn:Ax. apply shl_align_spec in Ax as [Hex' Hmx].
    destruct (shl_align my ey ez) as [my' ey'] eqn:Ay. apply shl_align_spec in Ay as [Hey' Hmy].
    assert (ex' = ez) as -> by lia. assert (ey' = ez) as -> by lia. simpl fst.
    apply (normalize_exact _ ez false n f (-1074)); [done|done|lia|lia|].
    replace (ez - -1074) with (ez + 1074) by lia. replace (f - -1074) with (f + 1074) by lia.
    rewrite <- HV. cbn [sval].
    replace (ex + 1074) with (ex - ez + (ez + 1074)) by lia.
    replace (ey + 1074) with (ey - ez + (ez + 1074)) by lia.
    rewrite !(Z.pow_add_r 2 (_ - _)) by lia.
    destruct sx, sy; simpl cond_Zopp; rewrite Hmx, Hmy; lia.
Qed.

(** ** Integer parts *)

Lemma trunc_value x n : valid x → is_finite x = true → sval x = n * 2 ^ 1074 → f64_trunc_Z x = n.
Proof.
  assert (∀ m e k, -1074 ≤ e → Z.pos m * 2 ^ (e + 1074) = k * 2 ^ 1074 →
    (if 0 <=? e then Z.pos m * 2 ^ e else Z.pos m / 2 ^ (- e)) = k) as H.
  { intros m e k He HV. pose proof (pow2_pos 1074 ltac:(lia)).
    destruct (Z.leb_spec 0 e).
    - rewrite Z.pow_add_r, Z.mul_assoc in HV by lia. by apply Z.mul_reg_r in HV; [|lia].
    - assert (2 ^ 1074 = 2 ^ (- e) * 2 ^ (e + 1074)) as E
        by (rewrite <- Z.pow_add_r by lia; f_equal; lia).
      rewrite E, Z.mul_assoc in HV. pose proof (pow2_pos (e + 1074) ltac:(lia)).
      pose proof (pow2_pos (- e) ltac:(lia)). apply Z.mul_reg_r in HV; [|lia].
      rewrite HV. apply Z.div_mul. lia. }
  intros Hx Hf HV. pose proof (pow2_pos 1074 ltac:(lia)).
  destruct x as [sx|sx| |s m e]; try done; cbn [sval f64_trunc_Z] in *; [nia|].
  apply valid_finite in Hx as (_ & He & _). destruct s.
  - rewrite (H m e (- n)); lia.
  - apply H; [lia|exact HV].
Qed.

Lemma trunc_of_Z n : Z.abs n < 2 ^ 53 → f64_trunc_Z (f64_of_Z n) = n.
Proof. intros Hn. destruct (of_Z_exact n Hn). apply trunc_value; [apply valid_of_Z|done|done]. Qed.

(** [f] rounds quotients: it is exact on multiples and depends on the quotient. *)
Lemma round_int_value (f : Z → Z → Z) x :
  (∀ n d, 0 < d → f (n * d) d = n) → (∀ n d k, 0 < d → 0 < k → f (n * k) (d * k) = f n d) →
  (∀ n d, 0 < d → Z.abs n < 2 ^ 53 → Z.abs (f n d) < 2 ^ 53) →
  valid x → is_finite x = true →
  is_finite (round_int f x) = true ∧ f64_trunc_Z (round_int f x) = f (sval x) (2 ^ 1074).
Proof.
  intros Hmul Hscale Hsmall Hx Hf. pose proof (pow2_pos 1074 ltac:(lia)) as Hp.
  destruct x as [s|s| |s m e]; try done; cbn [round_int].
  - split; [done|]. cbn [sval f64_trunc_Z]. specialize (Hmul 0 _ Hp). rewrite Z.mul_0_l in Hmul.
    by rewrite Hmul.
  - pose proof (valid_finite _ _ _ Hx) as (_ & He & Hm & _). cbn [sval].
    set (z := if s then Z.neg m else Z.pos m). assert (Z.abs z < 2 ^ 53) by (unfold z; by destruct s).
    destruct (Z.leb_spec 0 e) as [He0|He0].
    + split; [done|]. rewrite Z.pow_add_r, Z.mul_assoc by lia. rewrite Hmul by done.
      apply trunc_value; [done|done|]. cbn [sval]. fold z. rewrite Z.pow_add_r by lia. lia.
    + pose proof (pow2_pos (- e) ltac:(lia)). pose proof (pow2_pos (e + 1074) ltac:(lia)).
      assert (f (z * 2 ^ (e + 1074)) (2 ^ 1074) = f z (2 ^ (- e))) as ->.
      { rewrite <- (Hscale z (2 ^ (- e)) (2 ^ (e + 1074))) by done. f_equal.
        rewrite <- Z.pow_add_r by lia. f_equal. lia. }
      destruct (Z.eqb_spec (f z (2 ^ (- e))) 0) as [->|Hne]; [done|].
      assert (Z.abs (f z (2 ^ (- e))) < 2 ^ 53) as Hn by (by apply Hsmall).
      split; [by apply of_Z_exact|by apply trunc_of_Z].
Qed.

Lemma floor_value x : valid x → is_finite x = true →
  is_finite (f64_floor x) = true ∧ f64_trunc_Z (f64_floor x) = sval x / 2 ^ 1074.
Proof.
  apply round_int_value.
  - intros n d Hd. apply Z.div_mul. lia.
  - intros n d k Hd Hk. apply Z.div_mul_cancel_r; lia.
  - intros n d Hd Hn. Z.to_euclidean_division_equations. nia.
Qed.

Lemma ceil_value x : valid x → is_finite x = true →
  is_finite (f64_ceil x) = true ∧ f64_trunc_Z (f64_ceil x) = - (- sval x / 2 ^ 1074).
Proof.
  apply (round_int_value (λ n d, - (- n / d))).
  - intros n d Hd. rewrite <- Z.mul_opp_l, Z.div_mul by lia. lia.
  - intros n d k Hd Hk. by rewrite <- Z.mul_opp_l, Z.div_mul_cancel_r by lia.
  - intros n d Hd Hn. Z.to_euclidean_division_equations. nia.
Qed.
