(* ===== verification/Text.v ===== *)
(** * Byte strings and the [str] operations the code uses

    A Rust [str] is its UTF-8 bytes, as a [string]; the separators the code
    searches for are ASCII, so searching bytes is searching characters. *)

From Stdlib Require Import Ascii.
From S2P Require Import Prelude.
Local Open Scope Z_scope.

(** ** Characters *)

Definition dquote : ascii := "034"%char.
Definition backslash : ascii := "092"%char.
Definition newline : ascii := "010"%char.
Definition chr (c : ascii) : string := String c EmptyString.

Definition byte_of (c : ascii) : Z := Z.of_N (N_of_ascii c).
Definition ascii_of (b : Z) : ascii := ascii_of_N (Z.to_N b).

Lemma byte_of_range c : 0 ≤ byte_of c < 256.
Proof. unfold byte_of. pose proof (N_ascii_bounded c). lia. Qed.

Lemma ascii_of_byte_of c : ascii_of (byte_of c) = c.
Proof. unfold ascii_of, byte_of. by rewrite N2Z.id, ascii_N_embedding. Qed.

Lemma byte_of_ascii_of b : 0 ≤ b < 256 → byte_of (ascii_of b) = b.
Proof.
  intros Hb. unfold ascii_of, byte_of. rewrite N_ascii_embedding by lia. by rewrite Z2N.id by lia.
Qed.

Lemma byte_of_inj c d : byte_of c = byte_of d → c = d.
Proof. intros H. by rewrite <- (ascii_of_byte_of c), H, ascii_of_byte_of. Qed.

Fixpoint bytes_of (s : string) : list Z :=
  match s with EmptyString => [] | String c s' => byte_of c :: bytes_of s' end.
Fixpoint string_of (l : list Z) : string :=
  match l with [] => EmptyString | b :: l' => String (ascii_of b) (string_of l') end.

Lemma string_of_bytes_of s : string_of (bytes_of s) = s.
Proof. induction s as [|c s IH]; simpl; [done|]. by rewrite ascii_of_byte_of, IH. Qed.

Lemma bytes_of_string_of l : Forall (λ b, 0 ≤ b < 256) l → bytes_of (string_of l) = l.
Proof. induction 1 as [|b l Hb _ IH]; simpl; [done|]. by rewrite byte_of_ascii_of, IH. Qed.

Lemma bytes_of_range s : Forall (λ b, 0 ≤ b < 256) (bytes_of s).
Proof. induction s; simpl; constructor; [apply byte_of_range|done]. Qed.

Lemma bytes_of_inj s t : bytes_of s = bytes_of t → s = t.
Proof. intros H. by rewrite <- (string_of_bytes_of s), H, string_of_bytes_of. Qed.

Lemma bytes_of_app s t : bytes_of (s +:+ t) = bytes_of s ++ bytes_of t.
Proof. induction s as [|c s IH]; [done|]. rewrite str_app_cons. simpl. by rewrite IH. Qed.

Lemma string_of_app l k : string_of (l ++ k) = string_of l +:+ string_of k.
Proof. induction l as [|b l IH]; [done|]. simpl. by rewrite IH, str_app_cons. Qed.

(** ** ASCII case *)

Definition is_upper (c : ascii) : bool := (65 <=? byte_of c) && (byte_of c <=? 90).
Definition is_lower (c : ascii) : bool := (97 <=? byte_of c) && (byte_of c <=? 122).
Definition is_digit (c : ascii) : bool := (48 <=? byte_of c) && (byte_of c <=? 57).
Definition is_alpha (c : ascii) : bool := is_upper c || is_lower c.
Definition is_alnum (c : ascii) : bool := is_alpha c || is_digit c.

Definition lower (c : ascii) : ascii := if is_upper c then ascii_of (byte_of c + 32) else c.
Definition upper (c : ascii) : ascii := if is_lower c then ascii_of (byte_of c - 32) else c.

Fixpoint str_map (f : ascii → ascii) (s : string) : string :=
  match s with EmptyString => EmptyString | String c s' => String (f c) (str_map f s') end.
Definition to_ascii_lowercase : string → string := str_map lower.
Definition to_ascii_uppercase : string → string := str_map upper.

Fixpoint str_all (p : ascii → bool) (s : string) : bool :=
  match s with EmptyString => true | String c s' => p c && str_all p s' end.

(** ** Searching *)

Fixpoint has_char (c : ascii) (s : string) : bool :=
  match s with
  | EmptyString => false
  | String d s' => bool_decide (c = d) || has_char c s'
  end.

(** [s.strip_prefix(p)] *)
Fixpoint strip_prefix (p s : string) : option string :=
  match p, s with
  | EmptyString, _ => Some s
  | String a p', String b s' => if bool_decide (a = b) then strip_prefix p' s' else None
  | String _ _, EmptyString => None
  end.

Definition starts_with (p s : string) : bool :=
  match strip_prefix p s with Some _ => true | None => false end.

(** [s.split_once(c)] on one character, and on a pattern. *)
Fixpoint split_once (c : ascii) (s : string) : option (string * string) :=
  match s with
  | EmptyString => None
  | String d s' =>
      if bool_decide (c = d) then Some ("", s')
      else '(a, b) ← split_once c s'; Some (String d a, b)
  end.

Fixpoint split_once_str (p s : string) : option (string * string) :=
  match strip_prefix p s with
  | Some rest => Some ("", rest)
  | None =>
      match s with
      | EmptyString => None
      | String d s' => '(a, b) ← split_once_str p s'; Some (String d a, b)
      end
  end.

(** [s.rsplit_once(c)] *)
Fixpoint rsplit_once (c : ascii) (s : string) : option (string * string) :=
  match s with
  | EmptyString => None
  | String d s' =>
      match rsplit_once c s' with
      | Some (a, b) => Some (String d a, b)
      | None => if bool_decide (c = d) then Some ("", s') else None
      end
  end.

(** [s.split(f).next()]: the text before the first character satisfying [f]. *)
Fixpoint first_piece (f : ascii → bool) (s : string) : string :=
  match s with
  | EmptyString => ""
  | String d s' => if f d then "" else String d (first_piece f s')
  end.

(** [s.split(c)] *)
Fixpoint split (c : ascii) (s : string) : list string :=
  match s with
  | EmptyString => [""]
  | String d s' =>
      if bool_decide (c = d) then "" :: split c s'
      else match split c s' with
           | [] => [String d ""]
           | p :: ps => String d p :: ps
           end
  end.

Fixpoint str_contains (p s : string) : bool :=
  starts_with p s ||
  match s with EmptyString => false | String _ s' => str_contains p s' end.

(** [s.ends_with(p)] *)
Fixpoint ends_with (p s : string) : bool :=
  bool_decide (s = p) ||
  match s with EmptyString => false | String _ s' => ends_with p s' end.

Fixpoint strip_suffix (p s : string) : option string :=
  if bool_decide (s = p) then Some ""
  else match s with EmptyString => None | String c s' => String c <$> strip_suffix p s' end.

Fixpoint join (sep : string) (l : list string) : string :=
  match l with
  | [] => ""
  | [x] => x
  | x :: l' => x +:+ sep +:+ join sep l'
  end.

(** [char::to_digit(16)] *)
Definition hex_digit (c : ascii) : option Z :=
  let b := byte_of c in
  if is_digit c then Some (b - 48)
  else if (97 <=? b) && (b <=? 102) then Some (b - 87)
  else if (65 <=? b) && (b <=? 70) then Some (b - 55)
  else None.

(** [s.trim()]: the White_Space characters, as they are encoded in UTF-8.
    [ws_strip] removes one of them from the front. *)
Definition whitespace : list string :=
  string_of <$>
  ([[9]; [10]; [11]; [12]; [13]; [32]; [194; 133]; [194; 160]; [225; 154; 128];
    [226; 128; 168]; [226; 128; 169]; [226; 128; 175]; [226; 129; 159]; [227; 128; 128]] ++
   ((λ k, [226; 128; Z.of_nat k]) <$> seq 128 11)).
Definition ws_strip (s : string) : option string :=
  head (omap (λ w, strip_prefix w s) whitespace).
Fixpoint trim_start_fuel (fuel : nat) (s : string) : string :=
  match fuel with
  | O => s
  | S fuel => match ws_strip s with Some s' => trim_start_fuel fuel s' | None => s end
  end.
Definition trim_start (s : string) : string := trim_start_fuel (String.length s) s.
Fixpoint trim_end (s : string) : string :=
  match s with
  | EmptyString => EmptyString
  | String c s' => if bool_decide (trim_start s = "") then "" else String c (trim_end s')
  end.
Definition trim (s : string) : string := trim_end (trim_start s).

(** [s.parse::<uN>()] with [w] bits: an optional plus sign and decimal digits
    that fit. *)
Definition digit_val (c : ascii) : option Z :=
  if is_digit c then Some (byte_of c - 48) else None.
Fixpoint parse_digits (w acc : Z) (s : string) : option Z :=
  match s with
  | EmptyString => Some acc
  | String c s' =>
      d ← digit_val c;
      let acc' := acc * 10 + d in
      if acc' <? 2 ^ w then parse_digits w acc' s' else None
  end.
Definition parse_uint (w : Z) (s : string) : option Z :=
  match s with
  | EmptyString => None
  | String c s' =>
      if bool_decide (c = "+"%char) then
        match s' with EmptyString => None | _ => parse_digits w 0 s' end
      else parse_digits w 0 s
  end.

(** ** Lemmas *)

Lemma strip_prefix_Some p s t : strip_prefix p s = Some t ↔ s = p +:+ t.
Proof.
  revert s. induction p as [|a p IH]; intros s; simpl.
  - rewrite str_app_nil. split; congruence.
  - rewrite str_app_cons. destruct s as [|b s]; [done|].
    destruct (bool_decide_reflect (a = b)) as [->|Hne].
    + rewrite IH. split; congruence.
    + split; congruence.
Qed.

Lemma strip_prefix_app p t : strip_prefix p (p +:+ t) = Some t.
Proof. by apply strip_prefix_Some. Qed.

Lemma starts_with_spec p s : starts_with p s = true ↔ ∃ t, s = p +:+ t.
Proof.
  unfold starts_with. destruct (strip_prefix p s) as [t|] eqn:H.
  - apply strip_prefix_Some in H. split; [by exists t|done].
  - split; [done|]. intros [t Ht]. apply strip_prefix_Some in Ht. congruence.
Qed.

Lemma ends_with_app s p : ends_with p (s +:+ p) = true.
Proof.
  induction s as [|c s IH].
  - rewrite str_app_nil. destruct p as [|c p]; [done|]. cbn [ends_with].
    by rewrite bool_decide_eq_true_2.
  - rewrite str_app_cons. cbn [ends_with]. by rewrite IH, orb_true_r.
Qed.

Lemma has_char_app c s t : has_char c (s +:+ t) = has_char c s || has_char c t.
Proof.
  induction s as [|d s IH]; [done|]. rewrite str_app_cons. simpl. rewrite IH.
  by rewrite orb_assoc.
Qed.

Lemma split_once_Some c s a b :
  split_once c s = Some (a, b) ↔ s = a +:+ String c b ∧ has_char c a = false.
Proof.
  revert a b. induction s as [|d s IH]; intros a b; simpl.
  - split; [done|]. intros [H _]. by destruct a.
  - destruct (bool_decide_reflect (c = d)) as [<-|Hne].
    + split; [intros [= <- <-]; by rewrite str_app_nil|].
      destruct a as [|e a]; rewrite ?str_app_nil, ?str_app_cons; simpl.
      * intros [[= ->] _]. done.
      * intros [[= <- _] H]. by rewrite bool_decide_eq_true_2 in H.
    + destruct (split_once c s) as [[a' b']|] eqn:E; simpl.
      * pose proof (proj1 (IH a' b') eq_refl) as [-> Ha].
        split.
        -- intros [= <- <-]. rewrite str_app_cons. split; [done|]. simpl.
           by rewrite bool_decide_eq_false_2.
        -- destruct a as [|e a]; rewrite ?str_app_nil, ?str_app_cons; simpl.
           ++ intros [[= -> _] _]. done.
           ++ intros [[= <- H2] H]. apply orb_false_iff in H as [_ H].
              pose proof (proj2 (IH a b) (conj H2 H)) as H3. congruence.
      * split; [done|]. destruct a as [|e a]; rewrite ?str_app_nil, ?str_app_cons; simpl.
        -- intros [[= -> _] _]. done.
        -- intros [[= <- H2] H]. apply orb_false_iff in H as [_ H].
           pose proof (proj2 (IH a b) (conj H2 H)). congruence.
Qed.

Lemma split_once_None c s : split_once c s = None ↔ has_char c s = false.
Proof.
  induction s as [|d s IH]; simpl; [done|].
  destruct (bool_decide_reflect (c = d)) as [<-|Hne]; simpl; [done|].
  rewrite <- IH. destruct (split_once c s) as [[]|]; split; done.
Qed.

Lemma rsplit_once_none c s : has_char c s = false → rsplit_once c s = None.
Proof. induction s as [|d s IH]; simpl; [done|]. intros [-> Hs]%orb_false_iff. by rewrite IH. Qed.

Lemma rsplit_once_app c s t :
  has_char c t = false → rsplit_once c (s +:+ String c t) = Some (s, t).
Proof.
  intros Ht. induction s as [|d s IH].
  - rewrite str_app_nil. simpl. rewrite rsplit_once_none by done.
    by rewrite bool_decide_eq_true_2.
  - rewrite str_app_cons. simpl. by rewrite IH.
Qed.

Lemma first_piece_spec f s :
  str_all (λ c, negb (f c)) (first_piece f s) = true ∧
  (s = first_piece f s ∨ ∃ d t, f d = true ∧ s = first_piece f s +:+ String d t).
Proof.
  induction s as [|d s [IH1 IH2]]; simpl; [by split; [|left]|].
  destruct (f d) eqn:Hf; simpl.
  - split; [done|]. right. exists d, s. by rewrite str_app_nil.
  - rewrite Hf, IH1. split; [done|]. destruct IH2 as [IH2|(e & t & He & IH2)].
    + left. congruence.
    + right. exists e, t. rewrite str_app_cons. split; [done|]. congruence.
Qed.

(** ** Numbers *)

Lemma pretty_N_go_no_char c n : is_digit c = false → ∀ s, has_char c s = false →
  has_char c (pretty_N_go n s) = false.
Proof.
  intros Hc. induction (N.lt_wf_0 n) as [n _ IH]. intros s Hs.
  destruct (decide (n = 0%N)) as [->|Hn]; [by rewrite pretty_N_go_0|].
  rewrite pretty_N_go_step by lia. apply IH; [apply N.div_lt; lia|].
  simpl. rewrite Hs, orb_false_r. unfold pretty_N_char.
  assert (∀ d, is_digit d = true → bool_decide (c = d) = false) as Hd.
  { intros d Hd. apply bool_decide_eq_false. intros ->. congruence. }
  repeat case_match; by apply Hd.
Qed.

Lemma pretty_Z_no_char c z : is_digit c = false → 0 ≤ z → has_char c (pretty z) = false.
Proof.
  intros Hc Hz. destruct z as [|p|p]; [|apply pretty_N_go_no_char; done|lia].
  simpl. rewrite orb_false_r. apply bool_decide_eq_false. intros ->. done.
Qed.

Lemma pretty_N_char_digit d : (d < 10)%N →
  digit_val (pretty_N_char d) = Some (Z.of_N d) ∧ pretty_N_char d ≠ "+"%char.
Proof.
  intros Hd. assert (∃ k : nat, (k < 10)%nat ∧ d = N.of_nat k) as (k & Hk & ->)
    by (exists (N.to_nat d); lia).
  do 10 (destruct k as [|k]; [split; [reflexivity|discriminate]|]). lia.
Qed.

Lemma parse_digits_pretty w n : ∀ s, Z.of_N n < 2 ^ w →
  parse_digits w 0 (pretty_N_go n s) = parse_digits w (Z.of_N n) s.
Proof.
  induction (N.lt_wf_0 n) as [n _ IH]. intros s Hn.
  destruct (decide (n = 0%N)) as [->|Hn0]; [by rewrite pretty_N_go_0|].
  rewrite pretty_N_go_step by lia.
  pose proof (N.div_mod n 10 ltac:(lia)) as E. pose proof (N.mod_lt n 10 ltac:(lia)) as Hm.
  pose proof (N.div_lt n 10 ltac:(lia) ltac:(lia)) as Hlt.
  set (q := (n / 10)%N) in *. set (m := (n mod 10)%N) in *. clearbody q m.
  rewrite IH by lia. cbn [parse_digits].
  destruct (pretty_N_char_digit m Hm) as [-> _]. simpl.
  replace (Z.of_N q * 10 + Z.of_N m) with (Z.of_N n) by lia.
  by rewrite (proj2 (Z.ltb_lt _ _)).
Qed.

Lemma pretty_N_go_head n s : (0 < n)%N → ∃ d t, pretty_N_go n s = String d t ∧ d ≠ "+"%char.
Proof.
  revert s. induction (N.lt_wf_0 n) as [n _ IH]. intros s Hn.
  rewrite pretty_N_go_step by lia. destruct (decide (n / 10 = 0)%N) as [->|Hq].
  - rewrite pretty_N_go_0. eexists _, _. split; [done|]. apply pretty_N_char_digit, N.mod_lt. lia.
  - apply IH; [apply N.div_lt; lia|by apply N.neq_0_lt_0].
Qed.

(** Printed numbers are read back. *)
Lemma parse_uint_pretty w z : 0 < w → 0 ≤ z < 2 ^ w → parse_uint w (pretty z) = Some z.
Proof.
  intros Hw Hz. destruct z as [|p|p]; [| |lia].
  - change (parse_uint w (pretty 0)) with (if 0 <? 2 ^ w then Some 0 else None).
    by rewrite (proj2 (Z.ltb_lt _ _)) by lia.
  - change (pretty (Z.pos p)) with (pretty_N_go (N.pos p) "").
    destruct (pretty_N_go_head (N.pos p) "" ltac:(lia)) as (d & t & E & Hd).
    pose proof (parse_digits_pretty w (N.pos p) "" ltac:(lia)) as Hp. rewrite E in Hp |- *.
    cbn [parse_uint]. rewrite bool_decide_eq_false_2 by done. exact Hp.
Qed.

(** ** UTF-8 *)

Definition is_cont (b : Z) : bool := (128 <=? b) && (b <=? 191).

(** [std::str::from_utf8(..).is_ok()]: the well-formed byte sequences. *)
Fixpoint utf8_valid (l : list Z) : bool :=
  match l with
  | [] => true
  | b :: l1 =>
      if b <? 128 then utf8_valid l1
      else
        match l1 with
        | c1 :: l2 =>
            if (194 <=? b) && (b <=? 223) then is_cont c1 && utf8_valid l2
            else
              match l2 with
              | c2 :: l3 =>
                  if (224 <=? b) && (b <=? 239) then
                    ((if b =? 224 then 160 else 128) <=? c1) &&
                    (c1 <=? (if b =? 237 then 159 else 191)) && is_cont c2 && utf8_valid l3
                  else
                    match l3 with
                    | c3 :: l4 =>
                        ((240 <=? b) && (b <=? 244)) &&
                        ((if b =? 240 then 144 else 128) <=? c1) &&
                        (c1 <=? (if b =? 244 then 143 else 191)) &&
                        is_cont c2 && is_cont c3 && utf8_valid l4
                    | [] => false
                    end
              | [] => false
              end
        | [] => false
        end
  end.

(** [trim_end_matches('/')] *)
Fixpoint trim_end_slashes (s : string) : string :=
  match s with
  | EmptyString => EmptyString
  | String c s =>
      match trim_end_slashes s with
      | EmptyString => if Ascii.eqb c "/" then EmptyString else String c EmptyString
      | s' => String c s'
      end
  end.
