(* ===== verification/Json.v ===== *)
(** * JSON values as serde_json represents them

    The repository builds serde_json with its [preserve_order] feature, so an
    object is a list of members in insertion order.  Parsing and printing text
    is serde_json's own code and is not modelled here. *)

From S2P Require Import Prelude F64.
Local Open Scope Z_scope.

Inductive JNumber := PosInt (n : Z) | NegInt (n : Z) | Float (x : f64).

Inductive Value :=
| Null
| Bool (b : bool)
| Number (n : JNumber)
| JString (s : string)
| Array (l : list Value)
| Object (m : list (string * Value)).

#[export] Instance JNumber_eq_dec : EqDecision JNumber.
Proof. solve_decision. Defined.

Section value_ind.
Context (P : Value → Prop).
Hypothesis HNull : P Null.
Hypothesis HBool : ∀ b, P (Bool b).
Hypothesis HNumber : ∀ n, P (Number n).
Hypothesis HString : ∀ s, P (JString s).
Hypothesis HArray : ∀ l, Forall P l → P (Array l).
Hypothesis HObject : ∀ m, Forall (λ e, P e.2) m → P (Object m).

(** Induction that reaches the elements of arrays and objects. *)
Fixpoint Value_ind' (v : Value) : P v :=
  match v with
  | Null => HNull
  | Bool b => HBool b
  | Number n => HNumber n
  | JString s => HString s
  | Array l =>
      HArray l ((fix go l : Forall P l :=
        match l with
        | [] => Forall_nil_2 _
        | v :: l => Forall_cons_2 _ _ _ (Value_ind' v) (go l)
        end) l)
  | Object m =>
      HObject m ((fix go m : Forall (λ e, P e.2) m :=
        match m with
        | [] => Forall_nil_2 _
        | e :: m => Forall_cons_2 _ _ _ (Value_ind' e.2) (go m)
        end) m)
  end.
End value_ind.

(** Values without floating-point numbers: the ones serde_json reads back
    exactly as they were written in its default configuration. *)
Fixpoint no_float (v : Value) : bool :=
  match v with
  | Number (Float _) => false
  | Array l => forallb no_float l
  | Object m => forallb (λ e, no_float e.2) m
  | _ => true
  end.

Fixpoint assoc_get {A} (k : string) (m : list (string * A)) : option A :=
  match m with
  | [] => None
  | (k', v) :: m' => if bool_decide (k = k') then Some v else assoc_get k m'
  end.

Definition as_object (v : Value) : option (list (string * Value)) :=
  match v with Object m => Some m | _ => None end.
Definition as_array (v : Value) : option (list Value) :=
  match v with Array l => Some l | _ => None end.
Definition as_str (v : Value) : option string :=
  match v with JString s => Some s | _ => None end.
Definition as_bool (v : Value) : option bool :=
  match v with Bool b => Some b | _ => None end.
Definition as_u64 (v : Value) : option Z :=
  match v with Number (PosInt n) => Some n | _ => None end.
Definition as_i64 (v : Value) : option Z :=
  match v with
  | Number (PosInt n) => if n <? 2 ^ 63 then Some n else None
  | Number (NegInt n) => Some n
  | _ => None
  end.
Definition as_f64 (v : Value) : option f64 :=
  match v with
  | Number (PosInt n) | Number (NegInt n) => Some (f64_of_Z n)
  | Number (Float x) => Some x
  | _ => None
  end.

(** [Value::from(x)] for a double: JSON has no NaN and no infinities. *)
Definition json_of_f64 (x : f64) : Value := if is_finite x then Number (Float x) else Null.

(** [v.get(key)] *)
Definition jget (k : string) (v : Value) : option Value := as_object v ≫= assoc_get k.

(** [map.insert(k, v)]: replaces in place, or appends. *)
Fixpoint assoc_set {A} (k : string) (v : A) (m : list (string * A)) : list (string * A) :=
  match m with
  | [] => [(k, v)]
  | (k', v') :: m' => if bool_decide (k = k') then (k, v) :: m' else (k', v') :: assoc_set k v m'
  end.

Lemma assoc_get_set_eq {A} k (v : A) m : assoc_get k (assoc_set k v m) = Some v.
Proof.
  induction m as [|[k' v'] m IH]; simpl; [by rewrite bool_decide_eq_true_2|].
  destruct (bool_decide_reflect (k = k')); simpl;
    [by rewrite bool_decide_eq_true_2 | by rewrite bool_decide_eq_false_2].
Qed.

Lemma assoc_get_set_ne {A} k k' (v : A) m :
  k ≠ k' → assoc_get k (assoc_set k' v m) = assoc_get k m.
Proof.
  intros Hne. induction m as [|[k2 v2] m IH]; simpl; [by rewrite bool_decide_eq_false_2|].
  destruct (bool_decide_reflect (k' = k2)) as [<-|]; simpl.
  - by rewrite !bool_decide_eq_false_2.
  - by rewrite IH.
Qed.

Lemma assoc_get_Some {A} k (v : A) m :
  NoDup m.*1 → assoc_get k m = Some v ↔ (k, v) ∈ m.
Proof.
  induction m as [|[k' v'] m IH]; simpl; [by split; [|intros ?%not_elem_of_nil]|].
  intros [Hn Hd]%NoDup_cons. rewrite elem_of_cons.
  destruct (bool_decide_reflect (k = k')) as [<-|Hne].
  - split; [intros [= ->]; by left|]. intros [[= ->]|Hin]; [done|].
    destruct Hn. by apply (list_elem_of_fmap_2 fst) in Hin.
  - rewrite IH by done. split; [by right|]. intros [[= <- _]|?]; [done|done].
Qed.

Lemma assoc_get_In {A} k (v : A) m : assoc_get k m = Some v → (k, v) ∈ m.
Proof.
  induction m as [|[k' v'] m IH]; simpl; [done|].
  destruct (bool_decide_reflect (k = k')) as [<-|Hne].
  - intros [= ->]. by left.
  - intros H. right. by apply IH.
Qed.

Lemma assoc_get_is_Some {A} k (l : list (string * A)) : is_Some (assoc_get k l) ↔ k ∈ l.*1.
Proof.
  induction l as [|[k' v] l IH]; simpl.
  - split; [by intros [? ?]|by intros ?%not_elem_of_nil].
  - rewrite elem_of_cons. destruct (bool_decide_reflect (k = k')) as [->|Hne].
    + split; [by left|by eexists].
    + rewrite IH. split; [by right|]. by intros [?|?].
Qed.

(** The size of a value, the measure of recursions that look members up. *)
Fixpoint value_size (v : Value) : nat :=
  match v with
  | Array l => S (list_sum (value_size <$> l))
  | Object m => S (list_sum ((λ e, value_size e.2) <$> m))
  | _ => 1
  end.

Lemma elem_list_sum {A} (f : A → nat) l x : x ∈ l → (f x ≤ list_sum (f <$> l))%nat.
Proof.
  induction 1 as [x l|x y l _ IH]; rewrite fmap_cons;
    unfold list_sum in *; simpl; lia.
Qed.

Lemma jget_size k v w : jget k v = Some w → (value_size w < value_size v)%nat.
Proof.
  unfold jget. destruct v as [| | | | |m]; simpl; try done. intros Hk%assoc_get_In.
  apply (elem_list_sum (λ e : string * Value, value_size e.2)) in Hk. simpl in Hk. lia.
Qed.

Lemma elem_size v l : v ∈ l → (value_size v < value_size (Array l))%nat.
Proof. intros Hv. apply (elem_list_sum value_size) in Hv. simpl. lia. Qed.
