(* ===== verification/Grid.v ===== *)
(** * Block grids: eo-core shapes and windows, eo-kernel block executor

    Models crates/eo-core (block.rs, shape.rs, window.rs, transform.rs, output.rs) and crates/eo-kernel
    (block.rs, worker.rs, executor.rs), and the block metadata of
    crates/orbit-geo/src/block.rs.  [usize] and [isize] are 64 bits wide; a
    panic of a debug assertion, of an overflow check or of a division by zero
    is [None], and [dbg] says whether debug assertions are compiled in. *)

From S2P Require Import Prelude F64.
Local Open Scope Z_scope.

(** ** eo-core *)

Record BlockSize := mkBlockSize { bs_rows : Z; bs_cols : Z }.

#[export] Instance BlockSize_eq_dec : EqDecision BlockSize.
Proof. solve_decision. Defined.

Definition BlockSize_new (dbg : bool) (rows cols : Z) : option BlockSize :=
  if dbg && (negb (0 <? rows) || negb (0 <? cols)) then None
  else Some (mkBlockSize rows cols).

Definition BlockSize_area (b : BlockSize) : Z := sat_mul 64 (bs_rows b) (bs_cols b).

Definition BlockSize_is_square (b : BlockSize) : bool := bs_rows b =? bs_cols b.

Definition BlockSize_default : BlockSize := mkBlockSize 2048 2048.

Record RasterShape := mkRasterShape {
  rs_times : Z; rs_layers : Z; rs_rows : Z; rs_cols : Z }.

Definition total_elements (s : RasterShape) : Z :=
  sat_mul 64 (sat_mul 64 (sat_mul 64 (rs_times s) (rs_layers s)) (rs_rows s)) (rs_cols s).

Definition RasterShape_is_non_empty (s : RasterShape) : bool :=
  (0 <? rs_times s) && (0 <? rs_layers s) && (0 <? rs_rows s) && (0 <? rs_cols s).

Record Offset := mkOffset { off_rows : Z; off_cols : Z }.
Record Size := mkSize { sz_rows : Z; sz_cols : Z }.
Record ReadWindow := mkReadWindow { rw_offset : Offset; rw_size : Size }.

#[export] Instance Offset_eq_dec : EqDecision Offset.
Proof. solve_decision. Defined.
#[export] Instance Size_eq_dec : EqDecision Size.
Proof. solve_decision. Defined.
#[export] Instance ReadWindow_eq_dec : EqDecision ReadWindow.
Proof. solve_decision. Defined.

Definition ReadWindow_is_non_empty (w : ReadWindow) : bool :=
  (0 <? sz_rows (rw_size w)) && (0 <? sz_cols (rw_size w)).

Record Overlap := mkOverlap { ov_top : Z; ov_bottom : Z; ov_left : Z; ov_right : Z }.

Definition Overlap_uniform (n : Z) : Overlap := mkOverlap n n n n.

Definition Overlap_is_zero (o : Overlap) : bool :=
  (ov_top o =? 0) && (ov_bottom o =? 0) && (ov_left o =? 0) && (ov_right o =? 0).

(** The default is the first. *)
Inductive Dimension := Layer | Time.

(** GDAL's six coefficients: origin, pixel width and row skew of x, then origin,
    column skew and pixel height of y. *)
Record GeoTransform := mkGeoTransform {
  origin_x : f64; pixel_width : f64; row_skew : f64;
  origin_y : f64; col_skew : f64; pixel_height : f64 }.

Definition is_axis_aligned (gt : GeoTransform) : bool :=
  f64_eqb (row_skew gt) f64_zero && f64_eqb (col_skew gt) f64_zero.

(** The upper left corner of a pixel. *)
Definition pixel_to_crs (gt : GeoTransform) (col row : f64) : f64 * f64 :=
  (f64_add (f64_add (origin_x gt) (f64_mul col (pixel_width gt))) (f64_mul row (row_skew gt)),
   f64_add (f64_add (origin_y gt) (f64_mul col (col_skew gt))) (f64_mul row (pixel_height gt))).

Inductive OutputFormat := GeoTiff | Cog | Vrt.

Definition gdal_driver (f : OutputFormat) : string :=
  match f with GeoTiff => "GTiff" | Cog => "COG" | Vrt => "VRT" end.

Record OutputConfig := mkOutputConfig {
  oc_format : OutputFormat; oc_compression : string; oc_tile_size : BlockSize;
  oc_overview_levels : list Z; oc_overview_resampling : string }.

Definition OutputConfig_default : OutputConfig :=
  mkOutputConfig GeoTiff "LZW" (mkBlockSize 512 512) [2; 4; 8; 16] "AVERAGE".

(** ** eo-kernel: block ids, errors, workers *)

Record RasterBlockId := mkRasterBlockId { block_row : Z; block_col : Z }.

#[export] Instance RasterBlockId_eq_dec : EqDecision RasterBlockId.
Proof. solve_decision. Defined.

Definition RasterBlockId_to_string (i : RasterBlockId) : string :=
  "(" +:+ pretty (block_row i) +:+ ", " +:+ pretty (block_col i) +:+ ")".

Record RasterBlock (T : Type) := mkRasterBlock {
  rb_id : RasterBlockId; rb_window : ReadWindow; rb_size : BlockSize; rb_pixels : T }.
Arguments mkRasterBlock {T}.
Arguments rb_id {T}. Arguments rb_window {T}.
Arguments rb_size {T}. Arguments rb_pixels {T}.

Definition RasterBlock_area {T} (b : RasterBlock T) : Z := BlockSize_area (rb_size b).

(** [E] is the type-erased [Box<dyn Error>]. *)
Inductive KernelError (E : Type) : Type :=
| Worker (block_id : string) (source : E)
| Alignment (msg : string)
| Io (msg : string).
Arguments Worker {E}. Arguments Alignment {E}. Arguments Io {E}.

Record GridShape := mkGridShape { gs_rows : Z; gs_cols : Z }.

Definition GridShape_new (dbg : bool) (rows cols : Z) : option GridShape :=
  if dbg && (negb (0 <? rows) || negb (0 <? cols)) then None
  else Some (mkGridShape rows cols).

(** [usize::div_ceil], which panics on a zero divisor. *)
Definition div_ceil (a b : Z) : option Z :=
  if b =? 0 then None
  else Some (if 0 <? a mod b then a / b + 1 else a / b).

(** The loop body for block [(br, bc)]. *)
Definition block_at (shape : GridShape) (block : BlockSize) (br bc : Z)
    : RasterBlockId * ReadWindow :=
  let row_off := br * bs_rows block in
  let col_off := bc * bs_cols block in
  let rows := Z.min (bs_rows block) (gs_rows shape - row_off) in
  let cols := Z.min (bs_cols block) (gs_cols shape - col_off) in
  (mkRasterBlockId br bc,
   mkReadWindow (mkOffset (to_signed 64 row_off) (to_signed 64 col_off))
                (mkSize (to_signed 64 rows) (to_signed 64 cols))).

(** [Vec::with_capacity(n_block_rows * n_block_cols)] panics in a debug build
    when the product overflows; the capacity itself is only a hint. *)
Definition enumerate_blocks (dbg : bool) (shape : GridShape) (block : BlockSize)
    : option (list (RasterBlockId * ReadWindow)) :=
  n_block_rows ← div_ceil (gs_rows shape) (bs_rows block);
  n_block_cols ← div_ceil (gs_cols shape) (bs_cols block);
  if dbg && negb (fits 64 (n_block_rows * n_block_cols)) then None
  else Some (
    br ← seqZ 0 n_block_rows;
    bc ← seqZ 0 n_block_cols;
    [block_at shape block br bc]).

Section apply_blocks.
Context {Pixels Output E : Type}.

(** The closure run on one grid entry. *)
Definition run_block (block : BlockSize)
    (read : RasterBlockId → ReadWindow → result E Pixels)
    (worker : RasterBlock Pixels → result E Output)
    (e : RasterBlockId * ReadWindow) : result (KernelError E) Output :=
  let '(id, window) := e in
  pixels ← map_err (Worker (RasterBlockId_to_string id)) (read id window);
  map_err (Worker (RasterBlockId_to_string id))
    (worker (mkRasterBlock id window block pixels)).

(** [par_iter().map(..).collect()] keeps grid order; the loop over the
    collected results returns the first error. *)
Definition apply_blocks (dbg : bool) (shape : GridShape) (block : BlockSize)
    (read : RasterBlockId → ReadWindow → result E Pixels)
    (worker : RasterBlock Pixels → result E Output)
    : option (result (KernelError E) (list Output)) :=
  grid ← enumerate_blocks dbg shape block;
  Some (result_traverse id (map (run_block block read worker) grid)).
End apply_blocks.

(** ** orbit-geo block metadata *)

Record RasterRegion := mkRasterRegion {
  rr_block_index : Z;
  rr_read_window : ReadWindow;
  rr_overlap : Overlap;
  rr_geo_transform : GeoTransform;
  rr_epsg_code : Z }.

Definition inner_size (r : RasterRegion) : Size :=
  mkSize
    (to_signed 64 (sz_rows (rw_size (rr_read_window r))
       - to_signed 64 (wrap 64 (ov_top (rr_overlap r) + ov_bottom (rr_overlap r)))))
    (to_signed 64 (sz_cols (rw_size (rr_read_window r))
       - to_signed 64 (wrap 64 (ov_left (rr_overlap r) + ov_right (rr_overlap r))))).

Definition write_window (r : RasterRegion) : ReadWindow :=
  mkReadWindow
    (mkOffset
       (to_signed 64 (off_rows (rw_offset (rr_read_window r))
          + to_signed 64 (ov_top (rr_overlap r))))
       (to_signed 64 (off_cols (rw_offset (rr_read_window r))
          + to_signed 64 (ov_left (rr_overlap r)))))
    (inner_size r).

(** ** Well-formed inputs *)

Record grid_ok (shape : GridShape) (block : BlockSize) : Prop := {
  go_rows : in_u 63 (gs_rows shape);
  go_cols : in_u 63 (gs_cols shape);
  go_brows : 0 < bs_rows block;
  go_bcols : 0 < bs_cols block }.

Definition in_window (r c : Z) (w : ReadWindow) : Prop :=
  off_rows (rw_offset w) ≤ r < off_rows (rw_offset w) + sz_rows (rw_size w) ∧
  off_cols (rw_offset w) ≤ c < off_cols (rw_offset w) + sz_cols (rw_size w).

Lemma div_ceil_spec a b n :
  0 ≤ a → 0 < b → div_ceil a b = Some n → 0 ≤ n ∧ (n - 1) * b < a ≤ n * b.
Proof.
  intros Ha Hb. unfold div_ceil.
  destruct (Z.eqb_spec b 0); [lia|]. intros [= <-].
  pose proof (Z.div_mod a b ltac:(lia)). pose proof (Z.mod_pos_bound a b ltac:(lia)).
  pose proof (Z.div_pos a b Ha ltac:(lia)).
  destruct (Z.ltb_spec 0 (a mod b)); nia.
Qed.

Lemma div_ceil_Some a b : 0 < b → ∃ n, div_ceil a b = Some n.
Proof. intros. unfold div_ceil. destruct (Z.eqb_spec b 0); [lia|]. eauto. Qed.

(** One axis of the grid: block index [i] starts at [i * b] and has
    [min b (n - i * b)] cells. *)
Lemma axis_block n b m i :
  in_u 63 n → 0 < b → (m - 1) * b < n ≤ m * b → 0 ≤ i < m →
  to_signed 64 (i * b) = i * b ∧
  to_signed 64 (Z.min b (n - i * b)) = Z.min b (n - i * b) ∧
  0 < Z.min b (n - i * b).
Proof.
  unfold in_u. intros Hn Hb Hm Hi.
  assert (i * b < n) by nia.
  rewrite !to_signed_small; [nia|lia|nia|lia|nia].
Qed.

(** The block index of a cell is its quotient by the block size. *)
Lemma axis_cell n b m i x :
  0 < b → (m - 1) * b < n ≤ m * b → 0 ≤ i →
  (i * b ≤ x < i * b + Z.min b (n - i * b)) ↔ (x < n ∧ i = x / b).
Proof.
  intros Hb Hm Hi. split.
  - intros Hx. split; [lia|]. apply (Z.div_unique x b i (x - i * b)); lia.
  - intros [Hx ->]. pose proof (Z.div_mod x b ltac:(lia)).
    pose proof (Z.mod_pos_bound x b Hb). nia.
Qed.

Lemma axis_cell_bound n b m x :
  0 < b → (m - 1) * b < n ≤ m * b → 0 ≤ x < n → 0 ≤ x / b < m.
Proof.
  intros Hb Hm Hx. split; [by apply Z.div_pos; lia|].
  apply Z.div_lt_upper_bound; nia.
Qed.

Section grid.
Context (dbg : bool) (shape : GridShape) (block : BlockSize).
Context (nr nc : Z).
Hypothesis Hok : grid_ok shape block.
Hypothesis Hnr : div_ceil (gs_rows shape) (bs_rows block) = Some nr.
Hypothesis Hnc : div_ceil (gs_cols shape) (bs_cols block) = Some nc.

Definition grid_list : list (RasterBlockId * ReadWindow) :=
  br ← seqZ 0 nr; bc ← seqZ 0 nc; [block_at shape block br bc].

Lemma nr_spec : 0 ≤ nr ∧ (nr - 1) * bs_rows block < gs_rows shape ≤ nr * bs_rows block.
Proof. destruct Hok as [[] [] ??]. by apply div_ceil_spec. Qed.
Lemma nc_spec : 0 ≤ nc ∧ (nc - 1) * bs_cols block < gs_cols shape ≤ nc * bs_cols block.
Proof. destruct Hok as [[] [] ??]. by apply div_ceil_spec. Qed.

Lemma elem_of_grid e :
  e ∈ grid_list ↔ ∃ br bc, 0 ≤ br < nr ∧ 0 ≤ bc < nc ∧ e = block_at shape block br bc.
Proof.
  unfold grid_list. rewrite list_elem_of_bind. split.
  - intros (br & (bc & ->%list_elem_of_singleton & Hbc)%list_elem_of_bind & Hbr).
    apply elem_of_seqZ in Hbr, Hbc. exists br, bc. repeat split; lia.
  - intros (br & bc & Hbr & Hbc & ->). exists br. split; [|apply elem_of_seqZ; lia].
    apply list_elem_of_bind. exists bc. split; [by apply list_elem_of_singleton|].
    apply elem_of_seqZ; lia.
Qed.

Lemma in_window_block_at r c br bc :
  0 ≤ br < nr → 0 ≤ bc < nc →
  in_window r c (block_at shape block br bc).2 ↔
  (r < gs_rows shape ∧ br = r / bs_rows block) ∧
  (c < gs_cols shape ∧ bc = c / bs_cols block).
Proof.
  intros Hbr Hbc. destruct Hok as [Hr Hc Hb1 Hb2].
  destruct nr_spec as [_ Hm1], nc_spec as [_ Hm2].
  destruct (axis_block _ _ _ br Hr Hb1 Hm1 Hbr) as (E1 & E2 & _).
  destruct (axis_block _ _ _ bc Hc Hb2 Hm2 Hbc) as (E3 & E4 & _).
  unfold in_window, block_at; simpl. rewrite E1, E2, E3, E4.
  rewrite (axis_cell (gs_rows shape) _ nr), (axis_cell (gs_cols shape) _ nc) by lia.
  done.
Qed.

(** The grid in row-major order. *)
Lemma grid_lookup br bc :
  0 ≤ br < nr → 0 ≤ bc < nc →
  grid_list !! Z.to_nat (br * nc + bc) = Some (block_at shape block br bc).
Proof.
  intros Hbr Hbc. unfold grid_list, mbind, list_bind.
  assert (∀ l k (i : nat), l !! i = Some k →
    (fix go l := match l with [] => [] | x :: l => (bc ← seqZ 0 nc; [block_at shape block x bc]) ++ go l end) l
      !! (i * Z.to_nat nc + Z.to_nat bc)%nat = Some (block_at shape block k bc)) as Hgo.
  { intros l k. induction l as [|x l IH]; intros i Hi; [done|].
    assert (length (bc ← seqZ 0 nc; [block_at shape block x bc]) = Z.to_nat nc) as Hlen.
    { rewrite <- (length_seqZ 0 nc). generalize (seqZ 0 nc). intros l'.
      induction l' as [|y l' IH']; [done|]. csimpl. by rewrite IH'. }
    assert (∀ l' j z, l' !! j = Some z →
      (bc ← l'; [block_at shape block x bc]) !! j = Some (block_at shape block x z)) as Hrow.
    { intros l'. induction l' as [|y l' IH']; intros [|j] z Hz; simplify_eq/=; auto. }
    destruct i as [|i]; simplify_eq/=.
    - rewrite lookup_app_l by (rewrite Hlen; lia). apply Hrow.
      apply lookup_seqZ. lia.
    - rewrite lookup_app_r by (rewrite Hlen; lia). rewrite Hlen.
      replace (Z.to_nat nc + i * Z.to_nat nc + Z.to_nat bc - Z.to_nat nc)%nat
        with (i * Z.to_nat nc + Z.to_nat bc)%nat by lia.
      by apply IH. }
  replace (Z.to_nat (br * nc + bc)) with (Z.to_nat br * Z.to_nat nc + Z.to_nat bc)%nat by nia.
  apply Hgo. apply lookup_seqZ. lia.
Qed.

Lemma grid_length : length grid_list = Z.to_nat (nr * nc).
Proof.
  unfold grid_list.
  assert (∀ l : list Z, length (br ← l; bc ← seqZ 0 nc; [block_at shape block br bc])
            = (length l * Z.to_nat nc)%nat) as H.
  { intros l. induction l as [|x l IH]; [done|]. csimpl. rewrite length_app, IH.
    f_equal. rewrite <- (length_seqZ 0 nc). generalize (seqZ 0 nc). intros l'.
    induction l' as [|y l' IH']; [done|]. csimpl. by rewrite IH'. }
  rewrite H, length_seqZ. destruct nr_spec, nc_spec. nia.
Qed.
End grid.

Lemma enumerate_blocks_total shape block :
  grid_ok shape block →
  ∃ nr nc, div_ceil (gs_rows shape) (bs_rows block) = Some nr ∧
    div_ceil (gs_cols shape) (bs_cols block) = Some nc ∧
    enumerate_blocks false shape block = Some (grid_list shape block nr nc).
Proof.
  intros [_ _ H1 H2].
  destruct (div_ceil_Some (gs_rows shape) _ H1) as [nr Hnr].
  destruct (div_ceil_Some (gs_cols shape) _ H2) as [nc Hnc].
  exists nr, nc. unfold enumerate_blocks. by rewrite Hnr, Hnc.
Qed.

(** ** Properties *)

(** C21: the grid of [enumerate_blocks] tiles the raster: every cell of the
    raster lies in the window of exactly one block, and every window is
    non-empty and inside the raster. *)
Theorem enumerate_blocks_partition (shape : GridShape) (block : BlockSize)
    (Hok : grid_ok shape block) :
  ∃ grid, enumerate_blocks false shape block = Some grid ∧
    (∀ r c, 0 ≤ r < gs_rows shape → 0 ≤ c < gs_cols shape →
       exists! e, e ∈ grid ∧ in_window r c e.2) ∧
    (∀ e, e ∈ grid → ReadWindow_is_non_empty e.2 = true ∧
       ∀ r c, in_window r c e.2 → 0 ≤ r < gs_rows shape ∧ 0 ≤ c < gs_cols shape).
Proof.
  destruct (enumerate_blocks_total _ _ Hok) as (nr & nc & Hnr & Hnc & ->).
  pose proof (nr_spec _ _ _ Hok Hnr) as [_ Hm1].
  pose proof (nc_spec _ _ _ Hok Hnc) as [_ Hm2].
  eexists. split; [done|]. destruct Hok as [Hr Hc Hb1 Hb2]. split.
  - intros r c Hrr Hcc.
    pose proof (axis_cell_bound _ _ _ _ Hb1 Hm1 Hrr) as Hbr.
    pose proof (axis_cell_bound _ _ _ _ Hb2 Hm2 Hcc) as Hbc.
    exists (block_at shape block (r / bs_rows block) (c / bs_cols block)). split.
    + rewrite elem_of_grid. split; [by eauto 10|].
      by apply (in_window_block_at _ _ nr nc); [..|split; split; lia].
    + intros e [(br & bc & Hbr' & Hbc' & ->)%elem_of_grid Hin].
      apply (in_window_block_at _ _ nr nc) in Hin as [[_ ->] [_ ->]]; done.
  - intros e (br & bc & Hbr & Hbc & ->)%elem_of_grid.
    destruct (axis_block _ _ _ br Hr Hb1 Hm1 Hbr) as (E1 & E2 & Hp1).
    destruct (axis_block _ _ _ bc Hc Hb2 Hm2 Hbc) as (E3 & E4 & Hp2).
    unfold in_window, ReadWindow_is_non_empty, block_at; simpl.
    rewrite E1, E2, E3, E4. split; [lia|]. intros r c. nia.
Qed.

Lemma enumerate_blocks_partition_witness :
  grid_ok (mkGridShape 50 50) (mkBlockSize 32 32) ∧
  ∃ grid, enumerate_blocks false (mkGridShape 50 50) (mkBlockSize 32 32) = Some grid ∧
    length grid = 4%nat.
Proof.
  assert (grid_ok (mkGridShape 50 50) (mkBlockSize 32 32)) as H
    by (constructor; unfold in_u; simpl; lia).
  split; [exact H|].
  destruct (enumerate_blocks_partition _ _ H) as (grid & Hg & _).
  exists grid. split; [exact Hg|]. vm_compute in Hg. injection Hg as <-. reflexivity.
Defined.

(** [apply_blocks] returns the outputs in row-major block order: on success
    entry [br * n_cols + bc] is the worker's output on block [(br, bc)]; on
    failure the error is a [Worker] error that names the first block, in
    row-major order, whose read or worker failed. *)
Theorem apply_blocks_row_major {Pixels Output E} (shape : GridShape) (block : BlockSize)
    (read : RasterBlockId → ReadWindow → result E Pixels)
    (worker : RasterBlock Pixels → result E Output)
    (Hok : grid_ok shape block) :
  ∃ nr nc grid,
    div_ceil (gs_rows shape) (bs_rows block) = Some nr ∧
    div_ceil (gs_cols shape) (bs_cols block) = Some nc ∧
    enumerate_blocks false shape block = Some grid ∧
    match apply_blocks false shape block read worker with
    | None => False
    | Some (Ok outs) =>
        length outs = Z.to_nat (nr * nc) ∧
        ∀ br bc, 0 ≤ br < nr → 0 ≤ bc < nc → ∃ out,
          outs !! Z.to_nat (br * nc + bc) = Some out ∧
          run_block block read worker (block_at shape block br bc) = Ok out
    | Some (Err err) =>
        ∃ before e after src, grid = before ++ e :: after ∧
          err = Worker (RasterBlockId_to_string e.1) src ∧
          run_block block read worker e = Err err ∧
          Forall (λ e', is_ok (run_block block read worker e')) before
    end.
Proof.
  destruct (enumerate_blocks_total _ _ Hok) as (nr & nc & Hnr & Hnc & Hg).
  exists nr, nc, (grid_list shape block nr nc). repeat split; [done..|].
  unfold apply_blocks. rewrite Hg. csimpl.
  destruct (result_traverse id _) as [outs|err] eqn:Ht.
  - pose proof (result_traverse_length _ _ _ Ht) as Hlen.
    rewrite length_map, (grid_length _ _ _ _ Hok Hnr Hnc) in Hlen. split; [done|].
    intros br bc Hbr Hbc.
    apply result_traverse_ok in Ht.
    pose proof (grid_lookup shape block nr nc br bc Hbr Hbc) as Hl.
    apply (f_equal (fmap (run_block block read worker))) in Hl.
    rewrite <- list_lookup_fmap in Hl. csimpl in Hl.
    destruct (Forall2_lookup_l _ _ _ _ _ Ht Hl) as (out & Hout & Hrun). by exists out.
  - apply result_traverse_err in Ht as (l1 & x & l2 & Heq & Hall & Hx).
    apply map_eq_app in Heq as (g1 & g2 & -> & Hg1 & Hg2).
    apply map_eq_cons in Hg2 as (e & g3 & -> & He & Hg3).
    unfold id in Hx. subst x.
    assert (∃ src, err = Worker (RasterBlockId_to_string e.1) src) as [src Hsrc].
    { destruct e as [i w]. unfold run_block in Hx. simpl in Hx.
      destruct (read i w) as [px|]; simpl in Hx; [|naive_solver].
      destruct (worker _); simpl in Hx; naive_solver. }
    exists g1, e, g3, src. repeat split; [done..|].
    subst l1. clear -Hall. induction g1 as [|y g1 IH]; [constructor|].
    inversion Hall; subst. constructor; auto.
Qed.

Definition demo_worker (b : RasterBlock Z) : result string Z :=
  if bool_decide (rb_id b = mkRasterBlockId 0 1) then Err "simulated failure"
  else Ok (rb_pixels b).

Lemma apply_blocks_row_major_witness :
  grid_ok (mkGridShape 64 64) (mkBlockSize 32 32) ∧
  ∃ e, apply_blocks false (mkGridShape 64 64) (mkBlockSize 32 32) (λ _ _, Ok 0) demo_worker
    = Some (Err (Worker (RasterBlockId_to_string e) "simulated failure")).
Proof.
  assert (grid_ok (mkGridShape 64 64) (mkBlockSize 32 32)) as H
    by (constructor; unfold in_u; simpl; lia).
  split; [exact H|].
  destruct (apply_blocks_row_major _ _ (λ _ _, Ok 0) demo_worker H)
    as (nr & nc & grid & _ & _ & _ & Hm).
  destruct (apply_blocks _ _ _ _ _) as [[outs|err]|] eqn:E;
    [vm_compute in E; discriminate| |destruct Hm].
  destruct Hm as (before & e & after & src & _ & -> & _ & _).
  exists e.1. vm_compute in E. injection E as _ <-. reflexivity.
Defined.
