(* ===== verification/Cache.v ===== *)
(** * The content-addressed LRU file cache: crates/orbit-cache

    The file system is a map from paths to file metadata (the cache never
    looks at contents), and its calls may fail ([DiskFaults]).  SHA-256 and the iteration order of [HashMap] are
    parameters: the digest function [sha256], and [iter_order], which lists a
    map's entries in some order. *)

From Stdlib Require Import Permutation.
From S2P Require Import Prelude F64.
Local Open Scope Z_scope.

(** ** Keys *)

Definition hex_digit (d : Z) : string :=
  match String.get (Z.to_nat d) "0123456789abcdef" with
  | Some c => String.String c EmptyString
  | None => ""
  end.

(** [format!("{b:02x}")] *)
Definition hex_byte (b : Z) : string := hex_digit (b / 16) +:+ hex_digit (b mod 16).

Definition key_for (sha256 : string → list Z) (url : string) : string :=
  foldr (λ b acc, hex_byte b +:+ acc) "" (sha256 url).

(** ** Stats *)

Record Stats := mkStats {
  st_hits : Z; st_misses : Z; st_bytes_in : Z; st_bytes_out : Z }.

Definition Stats_new : Stats := mkStats 0 0 0 0.
Definition record_hit (s : Stats) (n : Z) : Stats :=
  mkStats (wrap 64 (st_hits s + 1)) (st_misses s) (st_bytes_in s) (wrap 64 (st_bytes_out s + n)).
Definition record_miss (s : Stats) (n : Z) : Stats :=
  mkStats (st_hits s) (wrap 64 (st_misses s + 1)) (wrap 64 (st_bytes_in s + n)) (st_bytes_out s).
Definition hit_ratio (s : Stats) : f64 :=
  let h := f64_of_Z (st_hits s) in
  let m := f64_of_Z (st_misses s) in
  if f64_ltb f64_zero (f64_add h m) then f64_div h (f64_add h m) else f64_zero.

(** ** Cache state *)

Record CacheEntry := mkCacheEntry {
  ce_path : string; ce_size_bytes : Z; ce_last_access : Z }.

Record FileMeta := mkFileMeta { fm_len : Z; fm_accessed : option Z }.
Notation FileSystem := (gmap string FileMeta).
Notation CacheIndex := (gmap string CacheEntry).

Record FileCache := mkFileCache {
  fc_root : string; fc_max_bytes : Z;
  fc_index : CacheIndex; fc_hits : Z; fc_misses : Z }.

Record CacheSnapshot := mkCacheSnapshot {
  cs_entries : nat; cs_total_bytes : Z; cs_hits : Z; cs_misses : Z }.

Inductive IoError := NotFoundIo | OtherIo.

(** What goes wrong on the disk: a copy fails before it has opened its destination
    ([Some None]) or after some bytes of it ([Some (Some n)]); the metadata of a file
    cannot be read; a file cannot be removed. *)
Class DiskFaults := {
  copy_fault : Z → string → string → FileSystem → option (option Z);
  stat_fails : string → FileSystem → bool;
  remove_fails : string → FileSystem → bool }.
Definition no_faults : DiskFaults :=
  {| copy_fault _ _ _ _ := None; stat_fails _ _ := false; remove_fails _ _ := false |}.

(** [std::fs::remove_file], its result ignored. *)
Definition fs_remove `{DiskFaults} (p : string) (fs : FileSystem) : FileSystem :=
  if remove_fails p fs then fs else delete p fs.

(** [std::fs::copy]; the destination is truncated when it is opened, so copying
    a file onto itself leaves it empty, and a copy that fails part way leaves what
    it has written. *)
Definition fs_copy `{DiskFaults} (now : Z) (src dst : string) (fs : FileSystem)
    : result IoError unit * FileSystem :=
  match fs !! src with
  | None => (Err NotFoundIo, fs)
  | Some m =>
      let len := if decide (src = dst) then 0 else fm_len m in
      match copy_fault now src dst fs with
      | Some None => (Err OtherIo, fs)
      | Some (Some n) => (Err OtherIo, <[dst := mkFileMeta (Z.min (Z.max 0 n) len) (Some now)]> fs)
      | None => (Ok tt, <[dst := mkFileMeta len (Some now)]> fs)
      end
  end.

(** [std::fs::metadata] *)
Definition fs_metadata `{DiskFaults} (p : string) (fs : FileSystem) : result IoError FileMeta :=
  if stat_fails p fs then Err OtherIo else ok_or (fs !! p) NotFoundIo.

(** [root.join(name)] for a relative [name] *)
Definition path_join (root name : string) : string := root +:+ "/" +:+ name.

(** The body of [open]'s loop over the directory listing: [None] is a file
    name that is not UTF-8; directories have no entry. *)
Definition open_entry (root : string) (index : CacheIndex)
    (e : option string * bool * FileMeta) : CacheIndex :=
  let '(name, is_file, meta) := e in
  if is_file then
    match name with
    | Some key =>
        <[key := mkCacheEntry (path_join root key) (fm_len meta)
                   (default 0 (fm_accessed meta))]> index
    | None => index
    end
  else index.

Definition FileCache_open (root : string) (max_bytes : Z)
    (listing : list (option string * bool * FileMeta)) : FileCache :=
  mkFileCache root max_bytes (foldl (open_entry root) ∅ listing) 0 0.

Section cache.
Context `{DiskFaults} (sha256 : string → list Z).
Context (iter_order : CacheIndex → list (string * CacheEntry)).

Definition total_bytes (index : CacheIndex) : Z :=
  foldr (λ e acc, ce_size_bytes e.2 + acc) 0 (map_to_list index).

(** [min_by_key(|(_, e)| e.last_access)]: the first minimum. *)
Definition min_by_access (l : list (string * CacheEntry)) : option (string * CacheEntry) :=
  foldl (λ best e,
    match best with
    | None => Some e
    | Some b => if ce_last_access e.2 <? ce_last_access b.2 then Some e else Some b
    end) None l.

Definition get (now : Z) (c : FileCache) (url : string) : option string * FileCache :=
  let key := key_for sha256 url in
  match fc_index c !! key with
  | Some entry =>
      (Some (ce_path entry),
       mkFileCache (fc_root c) (fc_max_bytes c)
         (<[key := mkCacheEntry (ce_path entry) (ce_size_bytes entry) now]> (fc_index c))
         (wrap 64 (fc_hits c + 1)) (fc_misses c))
  | None =>
      (None, mkFileCache (fc_root c) (fc_max_bytes c) (fc_index c)
               (fc_hits c) (wrap 64 (fc_misses c + 1)))
  end.

(** The eviction loop; [None] is an exhausted fuel. *)
Fixpoint evict_loop (fuel : nat) (max_bytes : Z) (index : CacheIndex) (fs : FileSystem)
    : option (CacheIndex * FileSystem) :=
  match fuel with
  | O => None
  | S fuel =>
      let total := wrap 64 (total_bytes index) in
      if total <=? max_bytes then Some (index, fs)
      else
        match min_by_access (iter_order index) with
        | None => Some (index, fs)
        | Some (lru_key, _) =>
            match index !! lru_key with
            | Some entry =>
                evict_loop fuel max_bytes (delete lru_key index) (fs_remove (ce_path entry) fs)
            | None => evict_loop fuel max_bytes index fs
            end
        end
  end.

Definition evict_if_needed (c : FileCache) (fs : FileSystem)
    : option (FileCache * FileSystem) :=
  if fc_max_bytes c =? 0 then Some (c, fs)
  else
    '(index, fs) ← evict_loop (S (size (fc_index c))) (fc_max_bytes c) (fc_index c) fs;
    Some (mkFileCache (fc_root c) (fc_max_bytes c) index (fc_hits c) (fc_misses c), fs).

Definition insert (now : Z) (c : FileCache) (fs : FileSystem) (url local_src : string)
    : option (result IoError string * FileCache * FileSystem) :=
  let key := key_for sha256 url in
  let dst := path_join (fc_root c) key in
  match fs_copy now local_src dst fs with
  | (Err e, fs) => Some (Err e, c, fs)
  | (Ok _, fs) =>
      match fs_metadata dst fs with
      | Err e => Some (Err e, c, fs)
      | Ok meta =>
          let c := mkFileCache (fc_root c) (fc_max_bytes c)
            (<[key := mkCacheEntry dst (fm_len meta) now]> (fc_index c))
            (fc_hits c) (fc_misses c) in
          '(c, fs) ← evict_if_needed c fs;
          Some (Ok dst, c, fs)
      end
  end.

Definition snapshot (c : FileCache) : CacheSnapshot :=
  mkCacheSnapshot (size (fc_index c)) (wrap 64 (total_bytes (fc_index c)))
    (fc_hits c) (fc_misses c).

Definition clear (c : FileCache) (fs : FileSystem) : FileCache * FileSystem :=
  (mkFileCache (fc_root c) (fc_max_bytes c) ∅ (fc_hits c) (fc_misses c),
   foldr (λ e fs, fs_remove (ce_path e.2) fs) fs (map_to_list (fc_index c))).
End cache.

(** ** Lemmas *)

(** A [HashMap] iterates over each of its entries once. *)
Definition iter_order_ok (iter_order : CacheIndex → list (string * CacheEntry)) : Prop :=
  ∀ m, Permutation (iter_order m) (map_to_list m).

(** Entries never claim a negative size and their sum fits 64 bits. *)
Definition sizes_ok (index : CacheIndex) : Prop :=
  (∀ k e, index !! k = Some e → 0 ≤ ce_size_bytes e) ∧ total_bytes index < 2 ^ 64.

Lemma total_bytes_insert k e index :
  index !! k = None → total_bytes (<[k := e]> index) = ce_size_bytes e + total_bytes index.
Proof.
  intros Hk. unfold total_bytes.
  assert (∀ l1 l2 : list (string * CacheEntry), Permutation l1 l2 →
    foldr (λ e acc, ce_size_bytes e.2 + acc) 0 l1 = foldr (λ e acc, ce_size_bytes e.2 + acc) 0 l2)
    as Hperm.
  { induction 1; simpl; lia. }
  pose proof (map_to_list_insert index k e Hk) as Hp. apply Hperm in Hp. exact Hp.
Qed.

Lemma total_bytes_delete k e index :
  index !! k = Some e → total_bytes index = ce_size_bytes e + total_bytes (delete k index).
Proof.
  intros Hk. rewrite <- (total_bytes_insert k) by apply lookup_delete_eq.
  by rewrite insert_delete_id.
Qed.

Lemma sizes_ok_delete k index : sizes_ok index → sizes_ok (delete k index).
Proof.
  intros [Hpos Htot]. split.
  - intros k' e [_ He]%lookup_delete_Some. by eapply Hpos.
  - destruct (index !! k) as [e|] eqn:He; [|by rewrite delete_id].
    rewrite (total_bytes_delete k e) in Htot by done. specialize (Hpos _ _ He). lia.
Qed.

Lemma total_bytes_nonneg index : sizes_ok index → 0 ≤ total_bytes index.
Proof.
  intros [Hpos _]. unfold total_bytes.
  assert (Forall (λ e : string * CacheEntry, 0 ≤ ce_size_bytes e.2) (map_to_list index)) as H.
  { apply Forall_forall. intros [k e] Hin%elem_of_map_to_list. by eapply Hpos. }
  induction H; simpl; lia.
Qed.

Lemma total_bytes_ge k e index :
  sizes_ok index → index !! k = Some e → ce_size_bytes e ≤ total_bytes index.
Proof.
  intros Hok He. rewrite (total_bytes_delete k e) by done.
  pose proof (total_bytes_nonneg _ (sizes_ok_delete k _ Hok)). lia.
Qed.

Lemma min_by_access_spec l :
  match min_by_access l with
  | None => l = []
  | Some b => b ∈ l ∧ ∀ e, e ∈ l → ce_last_access b.2 ≤ ce_last_access e.2
  end.
Proof.
  unfold min_by_access. induction l as [|x l IH] using rev_ind; [done|].
  rewrite foldl_app; simpl. destruct (foldl _ None l) as [b|].
  - destruct IH as [Hb Hmin].
    destruct (Z.ltb_spec (ce_last_access x.2) (ce_last_access b.2));
      (split; [set_solver|]); intros e [He| ->%list_elem_of_singleton]%elem_of_app;
      try specialize (Hmin _ He); lia.
  - subst. split; [set_solver|]. by intros e ->%list_elem_of_singleton.
Qed.

(** A removal changes nothing but the file, which it deletes or fails to. *)
Lemma fs_remove_lookup `{DiskFaults} p q fs :
  fs_remove p fs !! q = fs !! q ∨ p = q ∧ fs_remove p fs !! q = None.
Proof.
  unfold fs_remove. destruct (remove_fails p fs); [by left|].
  destruct (decide (p = q)) as [->|]; [right; by rewrite lookup_delete_eq|left].
  by rewrite lookup_delete_ne.
Qed.

(** The removal of the file was refused. *)
Definition removal_failed `{DiskFaults} (p : string) : Prop := ∃ fs, remove_fails p fs = true.

Lemma fs_remove_gone `{DiskFaults} p fs : fs_remove p fs !! p = None ∨ removal_failed p.
Proof.
  unfold fs_remove. destruct (remove_fails p fs) eqn:E; [right; by exists fs|left].
  apply lookup_delete_eq.
Qed.

Section evict.
Context `{DiskFaults} (iter_order : CacheIndex → list (string * CacheEntry)).
Hypothesis Hiter : iter_order_ok iter_order.

(** What one run of the loop does, whatever the iteration order. *)
Lemma evict_loop_spec fuel max_bytes index fs :
  (size index < fuel)%nat → sizes_ok index → 0 ≤ max_bytes →
  ∃ index' fs', evict_loop iter_order fuel max_bytes index fs = Some (index', fs') ∧
    index' ⊆ index ∧ sizes_ok index' ∧
    (total_bytes index' ≤ max_bytes) ∧
    (index' = index ∨
     ∃ k2 e2, index !! k2 = Some e2 ∧ index' !! k2 = None ∧
       max_bytes < total_bytes index' + ce_size_bytes e2 ∧
       ∀ k e, index !! k = Some e → index' !! k = None →
         ce_last_access e ≤ ce_last_access e2) ∧
    (∀ k e k' e', index !! k = Some e → index' !! k = None → index' !! k' = Some e' →
       ce_last_access e ≤ ce_last_access e') ∧
    (∀ k e, index !! k = Some e → index' !! k = None →
       fs' !! ce_path e = None ∨ removal_failed (ce_path e)) ∧
    (∀ p, fs' !! p = fs !! p ∨
       fs' !! p = None ∧ ∃ k e, index !! k = Some e ∧ index' !! k = None ∧ ce_path e = p).
Proof.
  revert index fs. induction fuel as [|fuel IH]; intros index fs Hf Hok Hmax; [lia|].
  simpl. rewrite wrap_small by (pose proof (total_bytes_nonneg _ Hok); destruct Hok;
    unfold in_u; lia).
  destruct (Z.leb_spec (total_bytes index) max_bytes) as [Hle|Hgt].
  { exists index, fs. split; [done|]. split; [done|]. split; [done|]. split; [done|].
    split; [by left|]. repeat split; try (intros; congruence). by left. }
  pose proof (min_by_access_spec (iter_order index)) as Hmin.
  destruct (min_by_access (iter_order index)) as [[lk le]|].
  2:{ pose proof (Hiter index) as Hp. rewrite Hmin in Hp.
      apply Permutation_nil, map_to_list_empty_iff in Hp as ->.
      unfold total_bytes in Hgt. rewrite map_to_list_empty in Hgt. simpl in Hgt. lia. }
  destruct Hmin as [Hin Hmin]. rewrite (Hiter index) in Hin.
  apply elem_of_map_to_list in Hin. rewrite Hin.
  assert (∀ k e, index !! k = Some e → ce_last_access le ≤ ce_last_access e) as Hlru.
  { intros k e Hke. apply (Hmin (k, e)). rewrite (Hiter index). by apply elem_of_map_to_list. }
  destruct (IH (delete lk index) (fs_remove (ce_path le) fs)) as
    (index' & fs' & -> & Hsub & Hok' & Htot & Hlast & Hord & Hgone & Hfs).
  { rewrite map_size_delete, Hin. simpl.
    assert (size index ≠ 0%nat) by (intros E%map_size_empty_inv; subst; done). lia. }
  { by apply sizes_ok_delete. }
  { done. }
  assert (index' !! lk = None) as Hlk.
  { destruct (index' !! lk) eqn:E; [|done].
    eapply lookup_weaken in E; [|exact Hsub]. by rewrite lookup_delete_eq in E. }
  exists index', fs'. split; [done|].
  split; [by etrans; [|apply delete_subseteq]|]. split; [done|]. split; [done|].
  assert (∀ k e, index !! k = Some e → k ≠ lk → delete lk index !! k = Some e) as Hdel.
  { intros k e Hk Hne. by rewrite lookup_delete_ne. }
  repeat split.
  - right. destruct Hlast as [->|(k2 & e2 & Hk2 & Hk2' & Hmx & Hrec)].
    + exists lk, le. repeat split; [done..| |].
      * rewrite (total_bytes_delete lk le) in Hgt by done. lia.
      * intros k e Hk Hk'. destruct (decide (k = lk)) as [->|Hne]; [by simplify_eq|].
        by rewrite lookup_delete_ne in Hk' by done; simplify_eq.
    + apply lookup_delete_Some in Hk2 as [_ Hk2]. exists k2, e2. repeat split; [done..|].
      intros k e Hk Hk'. destruct (decide (k = lk)) as [->|Hne]; [|by eapply Hrec; eauto].
      simplify_eq. by eapply Hlru.
  - intros k e k' e' Hk Hk' Hk2. destruct (decide (k = lk)) as [->|Hne].
    + assert (e = le) as -> by congruence. eapply lookup_weaken in Hk2; [|exact Hsub].
      apply lookup_delete_Some in Hk2 as [_ Hk2]. by eapply Hlru.
    + by eapply Hord; [apply Hdel| |].
  - intros k e Hk Hk'. destruct (decide (k = lk)) as [->|Hne].
    + assert (e = le) as -> by congruence.
      destruct (Hfs (ce_path le)) as [->|[-> _]]; [apply fs_remove_gone|by left].
    + by eapply Hgone; [apply Hdel|].
  - intros p. destruct (Hfs p) as [Hp|[Hp (k & e & Hk & Hk' & Hpe)]].
    + rewrite Hp. destruct (fs_remove_lookup (ce_path le) p fs) as [E|[E Hn]]; [by left|right].
      split; [done|]. by exists lk, le.
    + right. split; [done|]. apply lookup_delete_Some in Hk as [_ Hk]. eauto.
Qed.
End evict.

(** ** The cache's invariant and its operations *)

(** Every entry sits at the path of its key, and the sizes are sane. *)
Definition cache_wf (c : FileCache) : Prop :=
  (∀ k e, fc_index c !! k = Some e → ce_path e = path_join (fc_root c) k) ∧
  sizes_ok (fc_index c) ∧ 0 ≤ fc_max_bytes c.

(** The index names only files that exist, with their real size. *)
Definition files_present (c : FileCache) (fs : FileSystem) : Prop :=
  ∀ k e, fc_index c !! k = Some e →
    ∃ m, fs !! ce_path e = Some m ∧ fm_len m = ce_size_bytes e.

Lemma string_app_inj (s t1 t2 : string) : s +:+ t1 = s +:+ t2 → t1 = t2.
Proof. induction s as [|a s IH]; simpl; [done|]. intros [= H]. by apply IH. Qed.

Lemma path_join_inj root : Inj (=) (=) (path_join root).
Proof.
  intros k1 k2. unfold path_join. intros H. by apply string_app_inj, string_app_inj in H.
Qed.

Lemma evict_if_needed_spec `{DiskFaults} iter_order c fs :
  iter_order_ok iter_order → cache_wf c → 0 < fc_max_bytes c →
  ∃ c' fs', evict_if_needed iter_order c fs = Some (c', fs') ∧
    cache_wf c' ∧ fc_root c' = fc_root c ∧ fc_max_bytes c' = fc_max_bytes c ∧
    fc_index c' ⊆ fc_index c ∧
    total_bytes (fc_index c') ≤ fc_max_bytes c ∧
    (fc_index c' = fc_index c ∨
     ∃ k2 e2, fc_index c !! k2 = Some e2 ∧ fc_index c' !! k2 = None ∧
       fc_max_bytes c < total_bytes (fc_index c') + ce_size_bytes e2 ∧
       ∀ k e, fc_index c !! k = Some e → fc_index c' !! k = None →
         ce_last_access e ≤ ce_last_access e2) ∧
    (∀ k e k' e', fc_index c !! k = Some e → fc_index c' !! k = None →
       fc_index c' !! k' = Some e' → ce_last_access e ≤ ce_last_access e') ∧
    (∀ k e, fc_index c !! k = Some e → fc_index c' !! k = None →
       fs' !! ce_path e = None ∨ removal_failed (ce_path e)) ∧
    (∀ k e, fc_index c' !! k = Some e → fs' !! ce_path e = fs !! ce_path e).
Proof.
  intros Hiter (Hpath & Hsz & Hmx) Hpos.
  destruct (evict_loop_spec iter_order Hiter (S (size (fc_index c))) (fc_max_bytes c)
    (fc_index c) fs) as (ix & fs' & He & Hsub & Hok & Htot & Hlast & Hord & Hgone & Hfs);
    [lia|done|done|].
  eexists _, fs'. unfold evict_if_needed.
  destruct (Z.eqb_spec (fc_max_bytes c) 0); [lia|]. rewrite He. simpl.
  split; [done|]. split.
  { split; [|done]. intros k e Hk. eapply Hpath, lookup_weaken; done. }
  repeat (split; [done|]). intros k e Hk. simpl in Hk.
  destruct (Hfs (ce_path e)) as [->|[_ (k2 & e2 & Hk2 & Hn & Hp)]]; [done|].
  exfalso. assert (k = k2); [|congruence].
  apply (path_join_inj (fc_root c)).
  rewrite <- (Hpath k2 e2), <- (Hpath k e); [done| |done]. by eapply lookup_weaken.
Qed.

(** The cache right after the copied file has been recorded, before eviction. *)
Definition recorded (c : FileCache) (key : string) (len now : Z) : FileCache :=
  mkFileCache (fc_root c) (fc_max_bytes c)
    (<[key := mkCacheEntry (path_join (fc_root c) key) len now]> (fc_index c))
    (fc_hits c) (fc_misses c).

Lemma recorded_wf c key len now :
  cache_wf c → 0 ≤ len → total_bytes (fc_index c) + len < 2 ^ 64 →
  cache_wf (recorded c key len now).
Proof.
  intros (Hpath & (Hpos & Htot) & Hmx) Hlen Hsum. unfold recorded.
  split; [|split; [split|done]]; simpl.
  - intros k e [[<- <-]|[_ Hk]]%lookup_insert_Some; simpl; [done|]. by apply Hpath.
  - intros k e [[<- <-]|[_ Hk]]%lookup_insert_Some; simpl; [done|]. by eapply Hpos.
  - simpl. rewrite <- insert_delete_eq, total_bytes_insert by apply lookup_delete_eq. simpl.
    destruct (fc_index c !! key) as [e|] eqn:He; [|rewrite delete_id by done; lia].
    rewrite (total_bytes_delete key e) in Hsum by done. specialize (Hpos _ _ He). lia.
Qed.

(** The copy of [src] and the reading of its size do not fail. *)
Definition copies `{DiskFaults} (now : Z) (src dst : string) (m : FileMeta) (fs : FileSystem) : Prop :=
  fs !! src = Some m ∧ src ≠ dst ∧ copy_fault now src dst fs = None ∧
  stat_fails dst (<[dst := mkFileMeta (fm_len m) (Some now)]> fs) = false.

Lemma insert_unfold `{DiskFaults} sha256 iter_order now c fs url src m :
  copies now src (path_join (fc_root c) (key_for sha256 url)) m fs →
  let key := key_for sha256 url in
  insert sha256 iter_order now c fs url src =
    '(c', fs') ← evict_if_needed iter_order (recorded c key (fm_len m) now)
       (<[path_join (fc_root c) key := mkFileMeta (fm_len m) (Some now)]> fs);
    Some (Ok (path_join (fc_root c) key), c', fs').
Proof.
  intros (Hm & Hne & Hc & Hs). simpl. unfold insert, fs_copy, fs_metadata.
  by rewrite Hm, Hc, decide_False, Hs, lookup_insert_eq.
Qed.

(** ** Properties *)

(** C29: inserting a file into a bounded cache always ends and brings the cache
    within [max_bytes], when the copy does not fail; only entries at most as recently
    used as every kept one are evicted, never more than needed (with the last evicted
    one kept the total would still exceed the cap), an evicted entry's file is deleted
    unless its removal fails, a kept entry's file is still there with the recorded
    size, and the path handed back is the key's. *)
Theorem cache_insert_bounded_lru `{DiskFaults} sha256 iter_order now c fs url src m :
  iter_order_ok iter_order → cache_wf c → files_present c fs →
  0 < fc_max_bytes c → copies now src (path_join (fc_root c) (key_for sha256 url)) m fs →
  0 ≤ fm_len m →
  total_bytes (fc_index c) + fm_len m < 2 ^ 64 →
  let key := key_for sha256 url in
  let rec := fc_index (recorded c key (fm_len m) now) in
  ∃ c' fs', insert sha256 iter_order now c fs url src =
      Some (Ok (path_join (fc_root c) key), c', fs') ∧
    cache_wf c' ∧ files_present c' fs' ∧
    fc_index c' ⊆ rec ∧ total_bytes (fc_index c') ≤ fc_max_bytes c ∧
    (fc_index c' = rec ∨
     ∃ k2 e2, rec !! k2 = Some e2 ∧ fc_index c' !! k2 = None ∧
       fc_max_bytes c < total_bytes (fc_index c') + ce_size_bytes e2) ∧
    (∀ k e k' e', rec !! k = Some e → fc_index c' !! k = None →
       fc_index c' !! k' = Some e' → ce_last_access e ≤ ce_last_access e') ∧
    (∀ k e, rec !! k = Some e → fc_index c' !! k = None →
       fs' !! ce_path e = None ∨ removal_failed (ce_path e)).
Proof.
  intros Hiter Hwf Hfiles Hmx Hm Hlen Hsum key rec.
  pose proof (recorded_wf c key (fm_len m) now Hwf Hlen Hsum) as Hrwf.
  destruct (evict_if_needed_spec iter_order (recorded c key (fm_len m) now)
    (<[path_join (fc_root c) key := mkFileMeta (fm_len m) (Some now)]> fs) Hiter Hrwf Hmx)
    as (c' & fs' & He & Hwf' & _ & _ & Hsub & Htot & Hlast & Hord & Hgone & Hkeep).
  exists c', fs'. rewrite (insert_unfold sha256 iter_order now c fs url src m Hm).
  fold key. rewrite He. split; [done|]. split; [done|]. split.
  - intros k e Hk. rewrite (Hkeep k e Hk).
    eapply lookup_weaken in Hk; [|exact Hsub].
    unfold recorded in Hk. simpl in Hk.
    apply lookup_insert_Some in Hk as [[<- <-]|[Hne Hk]]; simpl.
    + rewrite lookup_insert_eq. eauto.
    + destruct (decide (path_join (fc_root c) key = ce_path e)) as [E|E].
      * rewrite (proj1 Hwf k e Hk) in E. by apply path_join_inj in E.
      * rewrite lookup_insert_ne by done. by apply Hfiles with k.
  - repeat (split; [done|]). split; [|done].
    destruct Hlast as [->|(k2 & e2 & ? & ? & ? & _)]; [by left|]. right. eauto.
Qed.

Lemma total_bytes_empty : total_bytes ∅ = 0.
Proof. unfold total_bytes. by rewrite map_to_list_empty. Qed.

(** A file that fits the cache alone and is inserted strictly later than
    every other entry was last used is served by the next [get] of its URL,
    from a file of the inserted length; the hit counter goes up by one. *)
Theorem cache_insert_then_get `{DiskFaults} sha256 iter_order now later c fs url src m :
  iter_order_ok iter_order → cache_wf c →
  0 < fc_max_bytes c → copies now src (path_join (fc_root c) (key_for sha256 url)) m fs →
  0 ≤ fm_len m ≤ fc_max_bytes c →
  total_bytes (fc_index c) + fm_len m < 2 ^ 64 →
  (∀ k e, fc_index c !! k = Some e → k ≠ key_for sha256 url → ce_last_access e < now) →
  ∃ c' fs' p m', insert sha256 iter_order now c fs url src = Some (Ok p, c', fs') ∧
    fst (get sha256 later c' url) = Some p ∧
    fc_hits (snd (get sha256 later c' url)) = wrap 64 (fc_hits c + 1) ∧
    fs' !! p = Some m' ∧ fm_len m' = fm_len m.
Proof.
  intros Hiter Hwf Hmx Hm [Hlen Hfit] Hsum Hold. set (key := key_for sha256 url) in *.
  set (rc := recorded c key (fm_len m) now).
  pose proof (recorded_wf c key (fm_len m) now Hwf Hlen Hsum) as Hrwf. fold rc in Hrwf.
  destruct (evict_if_needed_spec iter_order rc
    (<[path_join (fc_root c) key := mkFileMeta (fm_len m) (Some now)]> fs) Hiter Hrwf Hmx)
    as (c' & fs' & He & Hwf' & _ & _ & Hsub & Htot & Hlast & Hord & Hgone & Hkeep).
  set (new := mkCacheEntry (path_join (fc_root c) key) (fm_len m) now).
  assert (fc_index rc !! key = Some new) as Hnew by apply lookup_insert_eq.
  assert (∀ k e, fc_index rc !! k = Some e → k ≠ key → ce_last_access e < now) as Hold'.
  { intros k e Hk Hne. unfold rc in Hk. simpl in Hk. rewrite lookup_insert_ne in Hk by done.
    by eapply Hold. }
  assert (fc_index c' !! key = Some new) as Hkey.
  { destruct (fc_index c' !! key) as [e|] eqn:E.
    { eapply lookup_weaken in E; [|exact Hsub]. congruence. }
    exfalso. destruct Hlast as [Heq|(k2 & e2 & Hk2 & _ & Hbig & Hrec)]; [congruence|].
    specialize (Hrec key new Hnew E). simpl in Hrec.
    destruct (decide (k2 = key)) as [->|Hne]; [|specialize (Hold' _ _ Hk2 Hne); lia].
    assert (fc_index c' = ∅) as Hempty.
    { apply map_eq. intros k. rewrite lookup_empty.
      destruct (fc_index c' !! k) as [e|] eqn:Hk; [|done]. exfalso.
      pose proof (Hord key new k e Hnew E Hk) as Hle. simpl in Hle.
      eapply lookup_weaken in Hk as Hk'; [|exact Hsub].
      assert (k ≠ key) as Hne by congruence. specialize (Hold' _ _ Hk' Hne). lia. }
    rewrite Hempty, total_bytes_empty in Hbig. rewrite Hnew in Hk2. injection Hk2 as <-.
    simpl in Hbig. lia. }
  assert (fc_hits c' = fc_hits c) as Hhits.
  { unfold evict_if_needed in He. case_match; [by simplify_eq|].
    destruct (evict_loop _ _ _ _ _) as [[]|]; by simplify_eq/=. }
  exists c', fs', (path_join (fc_root c) key), (mkFileMeta (fm_len m) (Some now)).
  rewrite (insert_unfold sha256 iter_order now c fs url src m Hm). fold key rc. rewrite He.
  unfold get. fold key. rewrite Hkey, <- Hhits. repeat split.
  pose proof (Hkeep key new Hkey) as Hf. simpl in Hf. by rewrite Hf, lookup_insert_eq.
Qed.

(** A file larger than a bounded cache is still reported as cached: [insert]
    answers [Ok] with the path it copied to, though eviction has already dropped
    the entry and deleted that very file, or failed to. *)
Theorem cache_insert_oversized `{DiskFaults} sha256 iter_order now c fs url src m :
  iter_order_ok iter_order → cache_wf c →
  0 < fc_max_bytes c < fm_len m →
  copies now src (path_join (fc_root c) (key_for sha256 url)) m fs →
  total_bytes (fc_index c) + fm_len m < 2 ^ 64 →
  ∃ c' fs' p, insert sha256 iter_order now c fs url src = Some (Ok p, c', fs') ∧
    fc_index c' !! key_for sha256 url = None ∧ (fs' !! p = None ∨ removal_failed p).
Proof.
  intros Hiter Hwf [Hmx Hbig] Hm Hsum. set (key := key_for sha256 url) in *.
  set (rc := recorded c key (fm_len m) now).
  assert (cache_wf rc) as Hrwf by (apply recorded_wf; [done|lia|done]).
  destruct (evict_if_needed_spec iter_order rc
    (<[path_join (fc_root c) key := mkFileMeta (fm_len m) (Some now)]> fs) Hiter Hrwf Hmx)
    as (c' & fs' & He & Hwf' & _ & _ & Hsub & Htot & _ & _ & Hgone & _).
  assert (fc_index rc !! key =
    Some (mkCacheEntry (path_join (fc_root c) key) (fm_len m) now)) as Hnew
    by apply lookup_insert_eq.
  assert (fc_index c' !! key = None) as Hkey.
  { destruct (fc_index c' !! key) as [e|] eqn:E; [|done].
    pose proof (total_bytes_ge _ _ _ (proj1 (proj2 Hwf')) E).
    eapply lookup_weaken in E; [|exact Hsub]. rewrite Hnew in E. injection E as <-.
    simpl in *. lia. }
  exists c', fs', (path_join (fc_root c) key).
  rewrite (insert_unfold sha256 iter_order now c fs url src m Hm). fold key rc. rewrite He.
  repeat split; [done|]. by apply (Hgone key _ Hnew Hkey).
Qed.

(** An insertion that fails leaves the index alone and touches no file but the
    key's, of which it leaves a part or a whole copy. *)
Theorem cache_insert_failed `{DiskFaults} sha256 iter_order now c fs url src e c' fs' :
  insert sha256 iter_order now c fs url src = Some (Err e, c', fs') →
  c' = c ∧ ∀ p, p ≠ path_join (fc_root c) (key_for sha256 url) → fs' !! p = fs !! p.
Proof.
  unfold insert. set (dst := path_join (fc_root c) (key_for sha256 url)).
  destruct (fs_copy now src dst fs) as [r fs1] eqn:Ec.
  assert (∀ p, p ≠ dst → fs1 !! p = fs !! p) as Hfs.
  { intros p Hp. unfold fs_copy in Ec. destruct (fs !! src); [|by injection Ec as <- <-].
    destruct (copy_fault _ _ _ _) as [[n|]|]; injection Ec as <- <-; [|done|];
      by rewrite lookup_insert_ne. }
  destruct r as [[]|e1]; [|by intros [= <- <- <-]].
  destruct (fs_metadata dst fs1); [|by intros [= <- <- <-]].
  destruct (evict_if_needed _ _ _) as [[]|]; intros [=].
Qed.

(** ** Witnesses: a cache of 10 bytes holding one old 6-byte entry *)

#[local] Existing Instance no_faults.

Definition demo_sha256 (s : string) : list Z := [Z.of_nat (String.length s)].
Definition demo_cache : FileCache :=
  mkFileCache "c" 10 {["05" := mkCacheEntry "c/05" 6 1]} 0 0.
Definition demo_fs (len : Z) : FileSystem :=
  <["c/05" := mkFileMeta 6 None]> {["src" := mkFileMeta len None]}.

Lemma demo_cache_lookup k e :
  fc_index demo_cache !! k = Some e → k = "05" ∧ e = mkCacheEntry "c/05" 6 1.
Proof. unfold demo_cache; simpl. by intros [<- <-]%lookup_singleton_Some. Qed.

Lemma demo_cache_wf : cache_wf demo_cache.
Proof.
  split; [|split; [split|done]]; simpl; [..|done];
    intros k e Hk; apply demo_cache_lookup in Hk as [-> ->]; done.
Qed.

Lemma demo_files_present len : files_present demo_cache (demo_fs len).
Proof. intros k e Hk; apply demo_cache_lookup in Hk as [-> ->]. by exists (mkFileMeta 6 None). Qed.

Lemma cache_insert_bounded_lru_witness :
  ∃ c' fs', insert demo_sha256 map_to_list 7 demo_cache (demo_fs 8) "https://x" "src" =
    Some (Ok "c/09", c', fs') ∧ total_bytes (fc_index c') ≤ 10.
Proof.
  destruct (cache_insert_bounded_lru demo_sha256 map_to_list 7 demo_cache (demo_fs 8)
    "https://x" "src" (mkFileMeta 8 None) (λ _, reflexivity _) demo_cache_wf
    (demo_files_present 8)) as (c' & fs' & H1 & _ & _ & _ & H2 & _); [done|by repeat split|done..|].
  by exists c', fs'.
Defined.

Lemma cache_insert_then_get_witness :
  ∃ c' fs' p m', insert demo_sha256 map_to_list 7 demo_cache (demo_fs 8) "https://x" "src" =
      Some (Ok p, c', fs') ∧
    fst (get demo_sha256 9 c' "https://x") = Some p ∧
    fc_hits (snd (get demo_sha256 9 c' "https://x")) = 1 ∧
    fs' !! p = Some m' ∧ fm_len m' = 8.
Proof.
  apply (cache_insert_then_get demo_sha256 map_to_list 7 9 demo_cache (demo_fs 8)
    "https://x" "src" (mkFileMeta 8 None)); [intros ?; done|apply demo_cache_wf|done|by repeat split|by split|done|].
  intros k e [-> ->]%demo_cache_lookup _. done.
Defined.

Lemma cache_insert_oversized_witness :
  ∃ c' fs' p, insert demo_sha256 map_to_list 7 demo_cache (demo_fs 80) "https://x" "src" =
      Some (Ok p, c', fs') ∧
    fc_index c' !! key_for demo_sha256 "https://x" = None ∧ (fs' !! p = None ∨ removal_failed p).
Proof.
  apply (cache_insert_oversized demo_sha256 map_to_list 7 demo_cache (demo_fs 80)
    "https://x" "src" (mkFileMeta 80 None)); [intros ?; done|apply demo_cache_wf|split; done|by repeat split|done].
Defined.

(** A link that is inserted again and whose copy breaks off: the entry of the first
    insertion still answers, with a file that has lost its end. *)
Example failed_reinsert_truncates :
  let breaks : DiskFaults :=
    {| copy_fault _ _ _ _ := Some (Some 2); stat_fails _ _ := false; remove_fails _ _ := false |} in
  ∃ fs', insert (H := breaks) (λ _, [5]) map_to_list 7 demo_cache (demo_fs 8) "https://x" "src" =
      Some (Err OtherIo, demo_cache, fs') ∧
    fst (get (λ _, [5]) 9 demo_cache "https://x") = Some "c/05" ∧
    fs' !! "c/05" = Some (mkFileMeta 2 (Some 7)).
Proof. eexists. split; [vm_compute; reflexivity|]. split; vm_compute; reflexivity. Qed.
