(* ===== verification/Resilience.v ===== *)
(** * Retry policy and circuit breaker: crates/orbit-resilience

    Durations and instants are counted in nanoseconds; a [Duration] is at most
    [DURATION_MAX].  The atomics wrap at their width.  [retry_async] drives a
    stateful closure and records the calls and sleeps it makes; the circuit
    breaker is given both as whole methods and as the atomic actions that
    concurrent callers interleave. *)

From S2P Require Import Prelude F64.
Local Open Scope Z_scope.

(** ** Durations *)

Definition millis (n : Z) : Z := n * 1000000.
Definition secs (n : Z) : Z := n * 1000000000.
Definition DURATION_MAX : Z := (2 ^ 64 - 1) * 1000000000 + 999999999.
Definition duration_checked_mul (d n : Z) : option Z :=
  if d * n <=? DURATION_MAX then Some (d * n) else None.

(** ** RetryPolicy *)

Record RetryPolicy := mkRetryPolicy {
  max_attempts : Z;  (* u32 *)
  base_delay : Z;
  max_delay : Z }.

Definition RetryPolicy_default : RetryPolicy := mkRetryPolicy 4 (millis 100) (secs 30).

Definition delay_for_attempt (p : RetryPolicy) (n : Z) : Z :=
  if n =? 0 then 0
  else
    let shift := Z.min (n - 1) 30 in
    Z.min (default (max_delay p) (duration_checked_mul (base_delay p) (Z.shiftl 1 shift)))
          (max_delay p).

Definition should_retry (p : RetryPolicy) (n : Z) : bool := n <? max_attempts p.

(** [rng] is the value the caller's closure returns. *)
Definition jittered_delay (p : RetryPolicy) (n : Z) (rng : f64) : Z :=
  let cap := delay_for_attempt p n in
  let cap_micros := wrap 64 (cap / 1000) in
  if cap_micros =? 0 then 0
  else
    let jittered :=
      f64_to_u64 (f64_mul (f64_clamp rng f64_zero f64_one) (f64_of_Z cap_micros)) in
    jittered * 1000.

(** ** retry_async *)

Inductive retry_event := ECall | ESleep (d : Z).

Inductive retry_outcome (E T : Type) := Returned (r : result E T) | Panicked.
Arguments Returned {E T}. Arguments Panicked {E T}.

Section retry.
Context {St E T : Type} (p : RetryPolicy) (op : St → result E T * St).

(** The [while] loop; [None] is an exhausted fuel. *)
Fixpoint retry_loop (fuel : nat) (s : St) (attempt : Z) (last_err : option E)
    : option (retry_outcome E T * St * list retry_event) :=
  match fuel with
  | O => None
  | S fuel =>
      if should_retry p attempt then
        let attempt := attempt + 1 in
        match op s with
        | (Ok t, s) => Some (Returned (Ok t), s, [ECall])
        | (Err e, s) =>
            let slept :=
              if should_retry p attempt then [ESleep (delay_for_attempt p attempt)] else [] in
            '(out, s', tr) ← retry_loop fuel s attempt (Some e);
            Some (out, s', ECall :: slept ++ tr)
        end
      else
        match last_err with
        | Some e => Some (Returned (Err e), s, [])
        | None => Some (Panicked, s, [])
        end
  end.

Definition retry_async (s : St) : option (retry_outcome E T * St * list retry_event) :=
  retry_loop (S (Z.to_nat (max_attempts p))) s 0 None.

(** The state and the result of the [k]-th call, counted from 0. *)
Fixpoint op_state (k : nat) (s : St) : St :=
  match k with O => s | S k => op_state k (op s).2 end.
Definition op_result (k : nat) (s : St) : result E T := (op (op_state k s)).1.

(** The trace of [k + 1] calls starting after [n] earlier ones. *)
Fixpoint retry_trace (n : Z) (k : nat) : list retry_event :=
  match k with
  | O => [ECall]
  | S k => ECall :: ESleep (delay_for_attempt p (n + 1)) :: retry_trace (n + 1) k
  end.

Lemma retry_loop_behaviour fuel s n last_err :
  0 ≤ n < max_attempts p → (Z.to_nat (max_attempts p - n) < fuel)%nat →
  ∃ k : nat, n + Z.of_nat k < max_attempts p ∧
    retry_loop fuel s n last_err =
      Some (Returned (op_result k s), op_state (S k) s, retry_trace n k) ∧
    (∀ j, (j < k)%nat → is_ok (op_result j s) = false) ∧
    (is_ok (op_result k s) = true ∨ n + Z.of_nat k + 1 = max_attempts p).
Proof.
  revert s n last_err. induction fuel as [|fuel IH]; intros s n last_err Hn Hf; [lia|].
  simpl. unfold should_retry at 1. destruct (Z.ltb_spec n (max_attempts p)); [|lia].
  destruct (op s) as [[t|e] s'] eqn:Hop.
  - exists O. unfold op_result; simpl. rewrite Hop; simpl.
    repeat split; [lia|intros; lia|by left].
  - unfold should_retry at 1. destruct (Z.ltb_spec (n + 1) (max_attempts p)) as [Hlt|Hge].
    + destruct (IH s' (n + 1) (Some e)) as (k & Hk & -> & Herr & Hlast); [lia..|].
      exists (S k). unfold op_result in *; simpl. rewrite Hop; simpl.
      repeat split; [lia| |].
      * intros [|j] Hj; simpl; rewrite Hop; [done|]. apply Herr. lia.
      * destruct Hlast as [|Hlast]; [by left|right; lia].
    + exists O. unfold op_result; simpl. rewrite Hop; simpl.
      destruct fuel as [|fuel]; [lia|]. simpl. unfold should_retry.
      destruct (Z.ltb_spec (n + 1) (max_attempts p)); [lia|]. simpl.
      repeat split; [lia|intros; lia|right; lia].
Qed.
End retry.

(** ** CircuitBreaker *)

Inductive CircuitState := Closed | Open | HalfOpen.
#[export] Instance CircuitState_eq_dec : EqDecision CircuitState.
Proof. solve_decision. Defined.

Record CircuitConfig := mkCircuitConfig {
  failure_threshold : Z;  (* u32 *)
  open_cooldown : Z }.

Definition CircuitConfig_default : CircuitConfig := mkCircuitConfig 5 (secs 30).

Inductive CircuitError := CircuitOpen.

Record CircuitBreaker := mkCircuitBreaker {
  cb_cfg : CircuitConfig;
  cb_state : CircuitState;
  cb_opened_at : option Z;
  cb_consecutive_failures : Z;  (* AtomicU32 *)
  cb_open_count : Z             (* AtomicU64 *) }.

Definition with_now (cfg : CircuitConfig) : CircuitBreaker :=
  mkCircuitBreaker cfg Closed None 0 0.

(** [Instant::duration_since] saturates at zero. *)
Definition duration_since (now at_ : Z) : Z := sat_sub now at_.

Definition cb_state_op (now : Z) (b : CircuitBreaker) : CircuitState * CircuitBreaker :=
  match cb_state b, cb_opened_at b with
  | Open, Some at_ =>
      if open_cooldown (cb_cfg b) <=? duration_since now at_ then
        (HalfOpen, mkCircuitBreaker (cb_cfg b) HalfOpen (cb_opened_at b)
                     (cb_consecutive_failures b) (cb_open_count b))
      else (Open, b)
  | st, _ => (st, b)
  end.

Definition open_count (b : CircuitBreaker) : Z := cb_open_count b.

Definition try_acquire (now : Z) (b : CircuitBreaker)
    : result CircuitError unit * CircuitBreaker :=
  let '(st, b) := cb_state_op now b in
  match st with
  | Open => (Err CircuitOpen, b)
  | Closed | HalfOpen => (Ok (), b)
  end.

(** [record_success] is an atomic store followed by a locked update. *)
Definition success_store (b : CircuitBreaker) : CircuitBreaker :=
  mkCircuitBreaker (cb_cfg b) (cb_state b) (cb_opened_at b) 0 (cb_open_count b).
Definition success_lock (b : CircuitBreaker) : CircuitBreaker :=
  match cb_state b with
  | HalfOpen => mkCircuitBreaker (cb_cfg b) Closed None
                  (cb_consecutive_failures b) (cb_open_count b)
  | _ => b
  end.
Definition record_success (b : CircuitBreaker) : CircuitBreaker :=
  success_lock (success_store b).

(** [record_failure] is an atomic increment, whose result is kept in [prev],
    followed by a locked update. *)
Definition failure_fetch_add (b : CircuitBreaker) : Z * CircuitBreaker :=
  (wrap 32 (cb_consecutive_failures b + 1),
   mkCircuitBreaker (cb_cfg b) (cb_state b) (cb_opened_at b)
     (wrap 32 (cb_consecutive_failures b + 1)) (cb_open_count b)).
Definition failure_lock (prev now : Z) (b : CircuitBreaker) : CircuitBreaker :=
  let should_open :=
    match cb_state b with
    | Closed => failure_threshold (cb_cfg b) <=? prev
    | HalfOpen => true
    | Open => false
    end in
  if should_open && negb (bool_decide (cb_state b = Open)) then
    mkCircuitBreaker (cb_cfg b) Open (Some now) (cb_consecutive_failures b)
      (wrap 64 (cb_open_count b + 1))
  else b.
Definition record_failure (now : Z) (b : CircuitBreaker) : CircuitBreaker :=
  let '(prev, b) := failure_fetch_add b in failure_lock prev now b.

(** ** Interleavings

    A configuration is the breaker, the clock, and the calls of
    [record_success] and [record_failure] that are between their two actions. *)

Inductive pending := PSuccess | PFailure (prev : Z).

Record conc := mkConc { c_breaker : CircuitBreaker; c_clock : Z; c_pending : list pending }.

Inductive cstep : conc → conc → Prop :=
| step_tick b t ps d : 0 ≤ d → cstep (mkConc b t ps) (mkConc b (t + d) ps)
| step_acquire b t ps :
    cstep (mkConc b t ps) (mkConc (try_acquire t b).2 t ps)
| step_success_begin b t ps :
    cstep (mkConc b t ps) (mkConc (success_store b) t (PSuccess :: ps))
| step_success_end b t ps1 ps2 :
    cstep (mkConc b t (ps1 ++ PSuccess :: ps2)) (mkConc (success_lock b) t (ps1 ++ ps2))
| step_failure_begin b t ps :
    cstep (mkConc b t ps)
      (mkConc (failure_fetch_add b).2 t (PFailure (failure_fetch_add b).1 :: ps))
| step_failure_end b t ps1 prev ps2 :
    cstep (mkConc b t (ps1 ++ PFailure prev :: ps2))
      (mkConc (failure_lock prev t b) t (ps1 ++ ps2)).

Record breaker_ok (c : conc) : Prop := {
  bo_closed : cb_state (c_breaker c) = Closed ↔ cb_opened_at (c_breaker c) = None;
  bo_past : ∀ t, cb_opened_at (c_breaker c) = Some t → t ≤ c_clock c }.

Lemma try_acquire_breaker now b :
  (try_acquire now b).2 = (cb_state_op now b).2.
Proof. unfold try_acquire. by destruct (cb_state_op now b) as [[] ?]. Qed.

Ltac breaker_cases :=
  unfold cb_state_op, success_store, success_lock, failure_fetch_add, failure_lock in *;
  simpl in *; repeat case_match; simplify_eq/=.

Lemma cstep_breaker_ok c c' : cstep c c' → breaker_ok c → breaker_ok c'.
Proof.
  destruct 1 as [b t ps d Hd|b t ps|b t ps|b t ps1 ps2|b t ps|b t ps1 prev ps2];
    intros [Hc Hp]; simpl in *; rewrite ?try_acquire_breaker; split; simpl in *;
    try (intros t' Ht'; specialize (Hp t')); breaker_cases; intuition (congruence || lia || eauto with lia).
Qed.

(** Properties of one step from an open breaker. *)
Lemma cstep_open c c' t0 :
  cstep c c' → cb_state (c_breaker c) = Open → cb_opened_at (c_breaker c) = Some t0 →
  c_clock c ≤ c_clock c' ∧ cb_cfg (c_breaker c') = cb_cfg (c_breaker c) ∧
  (c_clock c' - t0 < open_cooldown (cb_cfg (c_breaker c)) → t0 ≤ c_clock c →
   cb_state (c_breaker c') = Open ∧ cb_opened_at (c_breaker c') = Some t0).
Proof.
  destruct 1 as [b t ps d Hd|b t ps|b t ps|b t ps1 ps2|b t ps|b t ps1 prev ps2];
    intros Hs Ho; simpl in *; rewrite ?try_acquire_breaker;
    unfold cb_state_op, success_store, success_lock, failure_fetch_add, failure_lock,
      duration_since, sat_sub in *; rewrite ?Hs, ?Ho; simpl; try (repeat split; by auto with lia).
  destruct (Z.leb_spec (open_cooldown (cb_cfg b)) (0 `max` (t - t0))); simpl.
  - split; [lia|]. split; [done|]. lia.
  - auto with lia.
Qed.

(** ** Sequential runs: trips on a run of consecutive failures *)

(** [true] is a success, [false] a failure. *)
Definition record_outcome (now : Z) (b : CircuitBreaker) (ok : bool) : CircuitBreaker :=
  if ok then record_success b else record_failure now b.

(** The number of failures at the end of a history, most recent first. *)
Fixpoint trailing_failures (h : list bool) : Z :=
  match h with false :: h => 1 + trailing_failures h | _ => 0 end.

Lemma trailing_failures_bounds h : 0 ≤ trailing_failures h ≤ Z.of_nat (length h).
Proof. induction h as [|[] h IH]; simpl; lia. Qed.

Lemma trailing_failures_replicate n h :
  Z.of_nat n ≤ trailing_failures h ↔ ∃ h', h = replicate n false ++ h'.
Proof.
  revert h. induction n as [|n IH]; intros h.
  - pose proof (trailing_failures_bounds h). split; [by exists h|lia].
  - destruct h as [|[] h].
    + simpl. split; [lia|]. by intros (? & ?).
    + simpl. split; [lia|]. by intros (? & ?).
    + cbn [trailing_failures replicate].
      transitivity (Z.of_nat n ≤ trailing_failures h); [lia|].
      rewrite IH. simpl. split; intros (h' & Hh); exists h'; simplify_eq; done.
Qed.

(** [h] contains [n] failures in a row. *)
Definition has_failure_run (n : nat) (h : list bool) : Prop :=
  ∃ h1 h2, h = h1 ++ replicate n false ++ h2.

Lemma has_failure_run_cons n h x :
  (0 < n)%nat →
  has_failure_run n (x :: h) ↔
  has_failure_run n h ∨ Z.of_nat n ≤ trailing_failures (x :: h).
Proof.
  intros Hn. rewrite trailing_failures_replicate. split.
  - intros ([|y h1] & h2 & Hh); simplify_eq/=; [right; by exists h2|left].
    by exists h1, h2.
  - intros [(h1 & h2 & ->)|(h' & Hh)]; [by exists (x :: h1), h2|].
    exists [], h'. done.
Qed.

(** The breaker after the history [h] (most recent first), the cooldown not
    elapsing meanwhile. *)
Fixpoint breaker_after (cfg : CircuitConfig) (now : Z) (h : list bool) : CircuitBreaker :=
  match h with
  | [] => with_now cfg
  | ok :: h => record_outcome now (breaker_after cfg now h) ok
  end.

Lemma breaker_after_state cfg now h :
  0 < failure_threshold cfg → Z.of_nat (length h) < 2 ^ 32 →
  let b := breaker_after cfg now h in
  cb_cfg b = cfg ∧ cb_consecutive_failures b = trailing_failures h ∧
  (has_failure_run (Z.to_nat (failure_threshold cfg)) h ∧ cb_state b = Open ∧
     cb_open_count b = 1 ∨
   ¬ has_failure_run (Z.to_nat (failure_threshold cfg)) h ∧ cb_state b = Closed ∧
     cb_open_count b = 0).
Proof.
  intros Hth. induction h as [|ok h IH]; intros Hlen; simpl.
  - repeat split. right. repeat split. intros ([|] & h2 & Hh); [|done].
    destruct (Z.to_nat (failure_threshold cfg)) eqn:E; [lia|done].
  - destruct IH as (Hcfg & Hf & Hst); [simpl in Hlen; lia|].
    rewrite has_failure_run_cons by lia. rewrite Z2Nat.id by lia.
    pose proof (trailing_failures_bounds h) as Hb. simpl in Hlen.
    unfold record_outcome. destruct ok; simpl.
    + unfold record_success, success_lock, success_store; simpl.
      destruct Hst as [(Hr & -> & Hn)|(Hr & -> & Hn)]; simpl;
        (repeat split; [done|]); [left|right]; intuition lia.
    + unfold record_failure, failure_fetch_add, failure_lock; simpl.
      rewrite Hf, Hcfg, wrap_small by (unfold in_u; lia).
      destruct Hst as [(Hr & Hs & Hn)|(Hr & Hs & Hn)]; rewrite Hs; simpl.
      * split; [done|]. split; [lia|]. left. auto.
      * destruct (Z.leb_spec (failure_threshold cfg) (trailing_failures h + 1)); simpl;
          (split; [done|]); (split; [lia|]); [left|right]; rewrite ?Hn.
        -- split; [right; lia|done].
        -- split; [|done]. intros [|]; [done|lia].
Qed.

(** ** Properties *)

(** [retry_async] with [max_attempts > 0] calls the closure [k + 1] times
    for some [k < max_attempts], the first [k] calls failing; it returns the
    result of the last call, which succeeded unless the attempts are used up;
    between consecutive calls it sleeps exactly the delay of the policy. *)
Theorem retry_async_behaviour {St E T : Type} (p : RetryPolicy)
    (op : St → result E T * St) (s : St) (Hpos : 0 < max_attempts p) :
  ∃ k : nat, Z.of_nat k < max_attempts p ∧
    retry_async p op s =
      Some (Returned (op_result op k s), op_state op (S k) s, retry_trace p 0 k) ∧
    (∀ j, (j < k)%nat → is_ok (op_result op j s) = false) ∧
    (is_ok (op_result op k s) = true ∨ Z.of_nat k + 1 = max_attempts p).
Proof. apply (retry_loop_behaviour p op (S (Z.to_nat (max_attempts p))) s 0 None); lia. Qed.

(** A closure that fails twice and then succeeds. *)
Definition flaky (n : Z) : result string Z * Z :=
  (if n <? 2 then Err "fail" else Ok 7, n + 1).

Lemma retry_async_behaviour_witness :
  0 < max_attempts (mkRetryPolicy 5 (millis 1) (millis 10)) ∧
  retry_async (mkRetryPolicy 5 (millis 1) (millis 10)) flaky 0 =
    Some (Returned (Ok 7), 3, [ECall; ESleep (millis 1); ECall; ESleep (millis 2); ECall]).
Proof.
  split; [reflexivity|].
  destruct (retry_async_behaviour (mkRetryPolicy 5 (millis 1) (millis 10)) flaky 0
    ltac:(reflexivity)) as (k & Hk & Heq & Herr & Hok).
  assert (k = 2)%nat as ->; [|rewrite Heq; reflexivity].
  destruct k as [|[|[|k]]]; [|..|reflexivity|].
  - destruct Hok as [Hok|Hok]; vm_compute in Hok; discriminate.
  - destruct Hok as [Hok|Hok]; vm_compute in Hok; discriminate.
  - specialize (Herr 2%nat ltac:(lia)). vm_compute in Herr. discriminate.
Defined.

(** The delay before retry [n] is [min (base * 2^min(n-1, 30)) max_delay],
    so it is at most [max_delay] and never decreases with [n]: the overflow
    fallback of [checked_mul] agrees with the cap. *)
Theorem delay_for_attempt_closed_form (p : RetryPolicy) (n m : Z)
    (Hbase : 0 ≤ base_delay p) (Hmax : 0 ≤ max_delay p ≤ DURATION_MAX)
    (Hn : 1 ≤ n ≤ m) :
  delay_for_attempt p n = Z.min (base_delay p * 2 ^ Z.min (n - 1) 30) (max_delay p) ∧
  0 ≤ delay_for_attempt p n ≤ delay_for_attempt p m ∧
  delay_for_attempt p m ≤ max_delay p.
Proof.
  assert (∀ i, 1 ≤ i →
    delay_for_attempt p i = Z.min (base_delay p * 2 ^ Z.min (i - 1) 30) (max_delay p)) as H.
  { intros i Hi. unfold delay_for_attempt, duration_checked_mul.
    destruct (Z.eqb_spec i 0); [lia|].
    rewrite Z.shiftl_mul_pow2, Z.mul_1_l by lia.
    destruct (Z.leb_spec (base_delay p * 2 ^ Z.min (i - 1) 30) DURATION_MAX); simpl; lia. }
  rewrite !H by lia.
  assert (2 ^ Z.min (n - 1) 30 ≤ 2 ^ Z.min (m - 1) 30) by (apply Z.pow_le_mono_r; lia).
  assert (0 < 2 ^ Z.min (n - 1) 30) by (apply Z.pow_pos_nonneg; lia).
  split; [done|]. nia.
Qed.

Lemma delay_for_attempt_closed_form_witness :
  (0 ≤ base_delay RetryPolicy_default ∧ 0 ≤ max_delay RetryPolicy_default ≤ DURATION_MAX ∧
   1 ≤ 3 ≤ 20) ∧
  delay_for_attempt RetryPolicy_default 3 = millis 400 ∧
  delay_for_attempt RetryPolicy_default 20 ≤ secs 30.
Proof.
  assert (0 ≤ base_delay RetryPolicy_default) as H1 by (vm_compute; discriminate).
  assert (0 ≤ max_delay RetryPolicy_default ≤ DURATION_MAX) as H2
    by (split; vm_compute; discriminate).
  assert (1 ≤ 3 ≤ 20) as H3 by lia.
  split; [done|].
  destruct (delay_for_attempt_closed_form RetryPolicy_default 3 20 H1 H2 H3) as (E & _ & Hle).
  split; [rewrite E; reflexivity|exact Hle].
Defined.

(** C30: under every interleaving of calls, a breaker that opened at [t0] stays
    open, and so rejects every call, until its cooldown has elapsed. *)
Theorem breaker_open_holds (c c' : conc) (t0 : Z)
    (Hsteps : rtc cstep c c')
    (Hopen : cb_state (c_breaker c) = Open)
    (Hat : cb_opened_at (c_breaker c) = Some t0)
    (Hpast : t0 ≤ c_clock c)
    (Hcool : c_clock c' - t0 < open_cooldown (cb_cfg (c_breaker c))) :
  cb_state (c_breaker c') = Open ∧ cb_opened_at (c_breaker c') = Some t0 ∧
  (try_acquire (c_clock c') (c_breaker c')).1 = Err CircuitOpen.
Proof.
  assert (∀ c1 c2, rtc cstep c1 c2 → c_clock c1 ≤ c_clock c2) as Hmono.
  { intros c1 c2. induction 1 as [|? ? ? [] _ IH]; simpl in *; lia. }
  assert (cb_cfg (c_breaker c') = cb_cfg (c_breaker c) ∧
    cb_state (c_breaker c') = Open ∧ cb_opened_at (c_breaker c') = Some t0) as (Ecfg & Es & Ea).
  { induction Hsteps as [c|c1 c2 c3 H12 H23 IH]; [done|].
    pose proof (Hmono _ _ H23).
    destruct (cstep_open _ _ _ H12 Hopen Hat) as (Hclk & Hc & Hkeep).
    destruct Hkeep as [Hs Ha]; [lia..|]. rewrite <- Hc. apply IH; [done..|lia|].
    by rewrite Hc. }
  split; [done|]. split; [done|].
  unfold try_acquire, cb_state_op. rewrite Es, Ea, Ecfg. unfold duration_since, sat_sub.
  pose proof (Hmono _ _ Hsteps).
  destruct (Z.leb_spec (open_cooldown (cb_cfg (c_breaker c))) (0 `max` (c_clock c' - t0)));
    [lia|done].
Qed.

Definition tripped : CircuitBreaker :=
  breaker_after (mkCircuitConfig 1 10) 0 [false].

Lemma breaker_open_holds_witness :
  ∃ c', rtc cstep (mkConc tripped 0 []) c' ∧ c_pending c' = [PSuccess] ∧
    (try_acquire (c_clock c') (c_breaker c')).1 = Err CircuitOpen.
Proof.
  exists (mkConc (success_store tripped) 5 [PSuccess]).
  assert (rtc cstep (mkConc tripped 0 []) (mkConc (success_store tripped) 5 [PSuccess])) as H.
  { eapply rtc_l; [apply (step_tick tripped 0 [] 5); lia|].
    eapply rtc_l; [apply step_success_begin|]. apply rtc_refl. }
  split; [exact H|]. split; [reflexivity|].
  apply (breaker_open_holds _ _ 0 H); reflexivity || (simpl; lia).
Defined.

(** A fresh breaker with a positive threshold is open after a history of
    outcomes exactly when the history has [failure_threshold] failures in a
    row; it then has opened once, and otherwise is closed. *)
Theorem breaker_trips_on_failure_run (cfg : CircuitConfig) (now : Z) (h : list bool)
    (Hth : 0 < failure_threshold cfg) (Hlen : Z.of_nat (length h) < 2 ^ 32) :
  (cb_state (breaker_after cfg now h) = Open ↔
     has_failure_run (Z.to_nat (failure_threshold cfg)) h) ∧
  (cb_state (breaker_after cfg now h) = Closed ↔
     ¬ has_failure_run (Z.to_nat (failure_threshold cfg)) h) ∧
  open_count (breaker_after cfg now h) =
    if bool_decide (cb_state (breaker_after cfg now h) = Open) then 1 else 0.
Proof.
  destruct (breaker_after_state cfg now h Hth Hlen) as (_ & _ & [(Hr & Hs & Hn)|(Hr & Hs & Hn)]);
    unfold open_count; rewrite Hs, Hn; simpl; naive_solver.
Qed.

Lemma breaker_trips_on_failure_run_witness :
  cb_state (breaker_after (mkCircuitConfig 3 10) 0 [false; false; true; false; false]) = Closed ∧
  ¬ has_failure_run 3 [false; false; true; false; false].
Proof.
  destruct (breaker_trips_on_failure_run (mkCircuitConfig 3 10) 0
    [false; false; true; false; false] ltac:(reflexivity) ltac:(reflexivity)) as (_ & [H _] & _).
  split; [reflexivity|]. apply H. reflexivity.
Defined.
