(* ===== verification/ChunkPlan.v ===== *)
(** * The chunk planner: apps/orbit-openeo/src/chunk_plan.rs

    The planner's arithmetic is [usize] arithmetic, modelled at 64 bits with
    its wrap-around; [None] is the panic of a division by zero. *)

From S2P Require Import Prelude.
Local Open Scope Z_scope.

Inductive PlanError :=
| BudgetTooSmall (budget n_threads min_block_bytes : Z).

Inductive OpKind := Pixelwise | Reduction | Window.

Definition bytes_per_pixel_overhead (op : OpKind) : Z :=
  match op with Pixelwise => 8 | Reduction => 16 | Window => 32 end.

Record PlanInput := mkPlanInput {
  cog_tile_size : Z;  (* u32 *)
  rows : Z;
  cols : Z;
  bands : Z;
  times : Z;
  bytes_per_pixel : Z }.

Record ChunkPlan := mkChunkPlan {
  block_rows : Z; block_cols : Z; n_threads : Z; est_peak_bytes : Z }.

Definition MIN_BLOCK : Z := 64.
Definition MAX_BLOCK : Z := 4096.

(** [a * b] and [a + b] on [usize] *)
Definition umul (a b : Z) : Z := wrap 64 (a * b).
Definition uadd (a b : Z) : Z := wrap 64 (a + b).

Definition per_pixel (input : PlanInput) (op : OpKind) : Z :=
  uadd (bytes_per_pixel input)
    (umul (umul (bytes_per_pixel_overhead op) (Z.max (bands input) 1))
       (Z.max (times input) 1)).

(** [x.clamp(MIN_BLOCK, MAX_BLOCK)] of the side the budget allows. *)
Definition target_side (budget_per_thread per_pixel : Z) : Z :=
  let max_side_by_budget :=
    Z.sqrt (Z.min (Z.max (budget_per_thread / per_pixel) 1) (MAX_BLOCK * MAX_BLOCK)) in
  Z.min (Z.max max_side_by_budget MIN_BLOCK) MAX_BLOCK.

Definition snap (cog target : Z) : Z :=
  if (MIN_BLOCK <=? cog) && (cog <=? target) then target / cog * cog else target.

Definition clip (input : PlanInput) (snapped : Z) : Z :=
  Z.min (Z.min (Z.min (Z.max snapped MIN_BLOCK) MAX_BLOCK) (Z.max (rows input) MIN_BLOCK))
    (Z.max (cols input) MIN_BLOCK).

Definition plan (input : PlanInput) (op : OpKind) (n_threads memory_budget_bytes : Z)
    : option (result PlanError ChunkPlan) :=
  let n_threads := Z.max n_threads 1 in
  let cog := cog_tile_size input in
  let per_pixel := per_pixel input op in
  let min_block_bytes := umul (MIN_BLOCK * MIN_BLOCK) per_pixel in
  let budget_per_thread := memory_budget_bytes / n_threads in
  if budget_per_thread <? min_block_bytes then
    Some (Err (BudgetTooSmall memory_budget_bytes n_threads min_block_bytes))
  else if per_pixel =? 0 then None
  else
    let target := target_side budget_per_thread per_pixel in
    let block := clip input (snap cog target) in
    Some (Ok (mkChunkPlan block block n_threads
                (umul (umul (umul block block) per_pixel) n_threads))).

(** ** Lemmas *)

(** The bytes of one pixel, as a mathematical integer. *)
Definition pixel_bytes (input : PlanInput) (op : OpKind) : Z :=
  bytes_per_pixel input +
  bytes_per_pixel_overhead op * Z.max (bands input) 1 * Z.max (times input) 1.

(** Arguments in range, and a smallest block whose size fits a [usize]. *)
Record plan_args_ok (input : PlanInput) (op : OpKind) (n_threads budget : Z) : Prop := {
  pa_cog : 0 ≤ cog_tile_size input;
  pa_bpp : 0 ≤ bytes_per_pixel input;
  pa_bands : 0 ≤ bands input;
  pa_times : 0 ≤ times input;
  pa_fits : MIN_BLOCK * MIN_BLOCK * pixel_bytes input op < 2 ^ 64;
  pa_threads : in_u 64 n_threads;
  pa_budget : in_u 64 budget }.

Lemma pixel_bytes_pos input op n b : plan_args_ok input op n b → 8 ≤ pixel_bytes input op.
Proof.
  intros []. unfold pixel_bytes.
  assert (8 ≤ bytes_per_pixel_overhead op) by (destruct op; simpl; lia). nia.
Qed.

Lemma per_pixel_eq input op n b :
  plan_args_ok input op n b → per_pixel input op = pixel_bytes input op.
Proof.
  intros Hok. pose proof (pixel_bytes_pos _ _ _ _ Hok) as Hpos. destruct Hok.
  unfold per_pixel, uadd, umul, pixel_bytes, MIN_BLOCK in *.
  assert (0 ≤ bytes_per_pixel_overhead op) by (destruct op; simpl; lia).
  set (o := bytes_per_pixel_overhead op) in *.
  set (m := Z.max (bands input) 1) in *. set (t := Z.max (times input) 1) in *.
  assert (1 ≤ m ∧ 1 ≤ t) as [Hm Ht] by lia.
  assert (0 ≤ o * m) by nia. assert (o * m ≤ o * m * t) by nia.
  rewrite (wrap_small 64 (o * m)) by (unfold in_u; lia).
  rewrite (wrap_small 64 (o * m * t)) by (unfold in_u; lia).
  apply wrap_small. unfold in_u. lia.
Qed.

(** The side is the largest one, within the limits, whose square fits. *)
Lemma target_side_spec budget pp :
  0 < pp → MIN_BLOCK * MIN_BLOCK * pp ≤ budget →
  MIN_BLOCK ≤ target_side budget pp ≤ MAX_BLOCK ∧
  target_side budget pp * target_side budget pp * pp ≤ budget ∧
  ∀ s, MIN_BLOCK ≤ s ≤ MAX_BLOCK → s * s * pp ≤ budget → s ≤ target_side budget pp.
Proof.
  intros Hpp Hmin. unfold target_side, MIN_BLOCK, MAX_BLOCK in *.
  set (q := budget / pp).
  assert (64 * 64 ≤ q) as Hq by (apply Z.div_le_lower_bound; lia).
  assert (q * pp ≤ budget) as Hqb by (rewrite Z.mul_comm; apply Z.mul_div_le; lia).
  set (x := Z.min (Z.max q 1) (4096 * 4096)).
  assert (64 * 64 ≤ x ≤ 4096 * 4096 ∧ x ≤ q) as [[Hx1 Hx2] Hxq] by lia.
  pose proof (Z.sqrt_spec x ltac:(lia)) as [Hs1 Hs2].
  assert (64 ≤ Z.sqrt x) by (apply Z.sqrt_le_square; lia).
  assert (Z.sqrt x ≤ 4096) by nia.
  rewrite Z.max_l, Z.min_l by lia. split; [lia|]. split; [nia|].
  intros s Hs Hfit. apply Z.sqrt_le_square; [lia..|].
  assert (s * s ≤ q) by (apply Z.div_le_lower_bound; lia). unfold x. nia.
Qed.

Lemma snap_spec cog t :
  0 ≤ cog → MIN_BLOCK ≤ t →
  MIN_BLOCK ≤ snap cog t ≤ t ∧
  (MIN_BLOCK ≤ cog ≤ t → (cog | snap cog t) ∧ ∀ s, (cog | s) → s ≤ t → s ≤ snap cog t) ∧
  (¬ (MIN_BLOCK ≤ cog ≤ t) → snap cog t = t).
Proof.
  intros Hcog Ht. unfold snap, MIN_BLOCK in *.
  destruct (Z.leb_spec 64 cog), (Z.leb_spec cog t); simpl; try (split; [lia|]; split; lia).
  pose proof (Z.mul_div_le t cog ltac:(lia)).
  assert (1 ≤ t / cog) by (apply Z.div_le_lower_bound; lia).
  split; [nia|]. split; [|lia]. intros _. split; [by exists (t / cog)|].
  intros s [k ->] Hk. assert (k ≤ t / cog) by (apply Z.div_le_lower_bound; lia). nia.
Qed.

Lemma est_peak_eq block pp n budget :
  0 ≤ block → 1 ≤ pp → 1 ≤ n → block * block * pp ≤ budget / n → in_u 64 budget →
  umul (umul (umul block block) pp) n = block * block * pp * n ∧
  block * block * pp * n ≤ budget.
Proof.
  intros Hb Hp Hn Hfit Hbud. unfold in_u in Hbud.
  pose proof (Z.mul_div_le budget n ltac:(lia)).
  assert (block * block * pp * n ≤ budget) as Hle by nia.
  split; [|done]. unfold umul.
  assert (0 ≤ block * block) by nia. assert (block * block ≤ block * block * pp) by nia.
  assert (block * block * pp ≤ block * block * pp * n) by nia.
  rewrite (wrap_small 64 (block * block)), (wrap_small 64 (block * block * pp)),
    wrap_small by (unfold in_u; lia). done.
Qed.

(** ** Properties *)

(** A block size the planner may choose for an input: within the limits and
    the raster, fitting each thread's share of the budget, and a multiple of
    the COG tile where a tile fits the largest affordable block. *)
Record admissible (input : PlanInput) (pp share s : Z) : Prop := {
  ad_min : MIN_BLOCK ≤ s ≤ MAX_BLOCK;
  ad_rows : s ≤ Z.max (rows input) MIN_BLOCK;
  ad_cols : s ≤ Z.max (cols input) MIN_BLOCK;
  ad_budget : s * s * pp ≤ share;
  ad_cog : MIN_BLOCK ≤ cog_tile_size input ≤ target_side share pp →
           (cog_tile_size input | s) }.

(** [plan] fails exactly when a 64 by 64 block does not fit a thread's share
    of the budget.  Otherwise it never panics, and the square block it returns
    is within [64, 4096] and the raster, its estimated peak is the exact product
    and within the memory budget, it is a multiple of the COG tile whenever a
    tile fits, unless it was cut to the raster's height or width, and no
    admissible block size is larger. *)
Theorem plan_correct (input : PlanInput) (op : OpKind) (threads budget : Z) :
  plan_args_ok input op threads budget →
  let n := Z.max threads 1 in
  let pp := pixel_bytes input op in
  let share := budget / n in
  if decide (share < MIN_BLOCK * MIN_BLOCK * pp) then
    plan input op threads budget =
      Some (Err (BudgetTooSmall budget n (MIN_BLOCK * MIN_BLOCK * pp)))
  else
    ∃ block, plan input op threads budget =
        Some (Ok (mkChunkPlan block block n (block * block * pp * n))) ∧
      MIN_BLOCK ≤ block ≤ MAX_BLOCK ∧
      block ≤ Z.max (rows input) MIN_BLOCK ∧ block ≤ Z.max (cols input) MIN_BLOCK ∧
      block * block * pp * n ≤ budget ∧
      (MIN_BLOCK ≤ cog_tile_size input ≤ target_side share pp →
         (cog_tile_size input | block) ∨
         block = Z.max (rows input) MIN_BLOCK ∨ block = Z.max (cols input) MIN_BLOCK) ∧
      ∀ s, admissible input pp share s → s ≤ block.
Proof.
  intros Hok n pp share. pose proof (pixel_bytes_pos _ _ _ _ Hok) as Hpos.
  unfold plan. rewrite (per_pixel_eq _ _ _ _ Hok). fold n pp share.
  destruct Hok as [Hcog Hbpp Hbands Htimes Hfits Hth Hbud]. fold pp in Hfits, Hpos.
  assert (umul (MIN_BLOCK * MIN_BLOCK) pp = MIN_BLOCK * MIN_BLOCK * pp) as ->
    by (apply wrap_small; unfold in_u, MIN_BLOCK in *; lia).
  destruct (decide _) as [Hlt|Hge]; [by rewrite (proj2 (Z.ltb_lt _ _) Hlt)|].
  apply Z.nlt_ge in Hge. rewrite (proj2 (Z.ltb_ge _ _) Hge).
  destruct (Z.eqb_spec pp 0); [lia|].
  destruct (target_side_spec share pp) as (Hrange & Hsq & Hmaxi); [lia..|].
  set (t := target_side share pp) in *.
  destruct (snap_spec (cog_tile_size input) t) as (Hsn & Hal & Hnal); [done|apply Hrange|].
  set (sn := snap (cog_tile_size input) t) in *.
  set (block := clip input sn).
  assert (MIN_BLOCK ≤ block ≤ sn) as [Hb1 Hb2].
  { clear -Hsn Hrange. unfold block, clip, MIN_BLOCK, MAX_BLOCK in *. lia. }
  assert (block = sn ∨ block = Z.max (rows input) MIN_BLOCK
          ∨ block = Z.max (cols input) MIN_BLOCK) as Hcut.
  { clear -Hsn Hrange. unfold block, clip, MIN_BLOCK, MAX_BLOCK in *. lia. }
  assert (block * block * pp ≤ share) as Hshare.
  { assert (block * block ≤ t * t) by (unfold MIN_BLOCK in *; nia). nia. }
  destruct (est_peak_eq block pp n budget) as [-> Hpeak];
    [unfold MIN_BLOCK in *; lia|lia|lia|done|done|].
  exists block. split; [done|]. split; [unfold MIN_BLOCK, MAX_BLOCK in *; lia|].
  split; [unfold block, clip; lia|]. split; [unfold block, clip; lia|].
  split; [done|]. split.
  - intros Hc. destruct (Hal Hc) as [Hdiv _]. destruct Hcut as [->|[->| ->]]; auto.
  - intros s []. assert (s ≤ sn).
    { destruct (decide (MIN_BLOCK ≤ cog_tile_size input ≤ t)) as [Hc|Hc].
      - apply (proj2 (Hal Hc)); [by apply ad_cog0|by apply Hmaxi].
      - rewrite (Hnal Hc). by apply Hmaxi. }
    unfold block, clip, MIN_BLOCK, MAX_BLOCK in *. lia.
Qed.

Definition demo_input : PlanInput := mkPlanInput 512 5490 1300 4 2 2.

Example plan_demo : plan demo_input Reduction 4 1000000000 =
  Some (Ok (mkChunkPlan 1024 1024 4 (1024 * 1024 * 130 * 4))).
Proof. vm_compute. reflexivity. Qed.

Lemma plan_correct_witness :
  plan_args_ok demo_input Reduction 4 1000000000 ∧
  ∃ block, plan demo_input Reduction 4 1000000000 =
    Some (Ok (mkChunkPlan block block 4 (block * block * 130 * 4))) ∧
    MIN_BLOCK ≤ block ≤ MAX_BLOCK.
Proof.
  assert (plan_args_ok demo_input Reduction 4 1000000000) as Hok
    by (split; vm_compute; intuition congruence).
  split; [exact Hok|]. pose proof (plan_correct demo_input Reduction 4 1000000000 Hok) as H.
  cbv zeta in H. rewrite decide_False in H by (vm_compute; congruence).
  destruct H as (b & H & Hb & _). exists b. split; [exact H|exact Hb].
Defined.
