(* ===== verification/Mask.v ===== *)
(** * Cloud masks: crates/eo-mask and the brightness rule of crates/orbit-geo

    Bytes and 16-bit words are [Z] in range; [v >> k & 1 != 0] is written with
    [Z.shiftr] and [Z.land] as in the source. *)

From S2P Require Import Prelude F64.
Local Open Scope Z_scope.

(** ** provider.rs *)

Inductive MaskValue :=
| Clear | Cloud | Shadow | Snow | Water | Saturated | NoData | Other (b : Z).

Definition mask_discriminant (v : MaskValue) : Z :=
  match v with
  | NoData => 0 | Clear => 1 | Cloud => 2 | Shadow => 3
  | Snow => 4 | Water => 5 | Saturated => 6 | Other b => b
  end.

Inductive MaskConfidence := MCLow | MCMedium | MCHigh.
Definition MaskConfidence_default : MaskConfidence := MCMedium.

Record MaskBand := mkMaskBand { mb_rows : Z; mb_cols : Z; mb_pixels : list Z }.

Definition MaskBand_clear (rows cols : Z) : MaskBand :=
  mkMaskBand rows cols (replicate (Z.to_nat (wrap 64 (rows * cols))) (mask_discriminant Clear)).
Definition MaskBand_area (m : MaskBand) : Z := wrap 64 (mb_rows m * mb_cols m).

(** The trait: a scene type, an error type, [mask], and [confidence] with its
    provided default. *)
Class CloudMaskProvider (Scene Error : Type) := {
  mask : Scene → result Error MaskBand;
  confidence : MaskConfidence }.

(** ** scl.rs *)

Inductive ScenSceneClass :=
| SclNoData | SclSaturated | SclDarkArea | SclCloudShadows | SclVegetation | SclBareSoil
| SclWater | SclUnclassified | SclCloudMedium | SclCloudHigh | SclCirrus | SclSnow.

(** The [repr(u8)] discriminant. *)
Definition scl_repr (c : ScenSceneClass) : Z :=
  match c with
  | SclNoData => 0 | SclSaturated => 1 | SclDarkArea => 2 | SclCloudShadows => 3
  | SclVegetation => 4 | SclBareSoil => 5 | SclWater => 6 | SclUnclassified => 7
  | SclCloudMedium => 8 | SclCloudHigh => 9 | SclCirrus => 10 | SclSnow => 11
  end.

Definition from_u8 (b : Z) : ScenSceneClass :=
  match b with
  | 0 => SclNoData | 1 => SclSaturated | 2 => SclDarkArea | 3 => SclCloudShadows
  | 4 => SclVegetation | 5 => SclBareSoil | 6 => SclWater | 8 => SclCloudMedium
  | 9 => SclCloudHigh | 10 => SclCirrus | 11 => SclSnow
  | _ => SclUnclassified
  end.

Definition scl_to_mask_value (c : ScenSceneClass) : MaskValue :=
  match c with
  | SclNoData => NoData
  | SclSaturated => Saturated
  | SclCloudShadows => Shadow
  | SclVegetation | SclBareSoil | SclUnclassified | SclDarkArea => Clear
  | SclWater => Water
  | SclCloudMedium | SclCloudHigh | SclCirrus => Cloud
  | SclSnow => Snow
  end.

(** ** qa_pixel.rs *)

Inductive QaConfidence := QNone | QLow | QMedium | QHigh.

Definition from_2bits (v : Z) : QaConfidence :=
  match Z.land v 3 with 0 => QNone | 1 => QLow | 2 => QMedium | _ => QHigh end.

Definition is_medium_or_high (c : QaConfidence) : bool :=
  match c with QMedium | QHigh => true | _ => false end.

Record QaPixel := mkQaPixel {
  fill : bool; dilated_cloud : bool; cirrus : bool; cloud : bool;
  cloud_shadow : bool; snow : bool; clear : bool; water : bool;
  cloud_confidence : QaConfidence; cloud_shadow_confidence : QaConfidence;
  snow_confidence : QaConfidence; cirrus_confidence : QaConfidence }.

(** [v >> k & 0b1 != 0] *)
Definition bit (v k : Z) : bool := negb (Z.land (Z.shiftr v k) 1 =? 0).

Definition from_u16 (v : Z) : QaPixel := {|
  fill := negb (Z.land v 1 =? 0);
  dilated_cloud := bit v 1;
  cirrus := bit v 2;
  cloud := bit v 3;
  cloud_shadow := bit v 4;
  snow := bit v 5;
  clear := bit v 6;
  water := bit v 7;
  cloud_confidence := from_2bits (Z.shiftr v 8);
  cloud_shadow_confidence := from_2bits (Z.shiftr v 10);
  snow_confidence := from_2bits (Z.shiftr v 12);
  cirrus_confidence := from_2bits (Z.shiftr v 14) |}.

Definition qa_to_mask_value (q : QaPixel) : MaskValue :=
  if fill q then NoData
  else if cloud q || dilated_cloud q then Cloud
  else if cloud_shadow q then Shadow
  else if cirrus q then Cloud
  else if snow q then Snow
  else if water q then Water
  else if clear q then Clear
  else Clear.

(** ** orbit-geo: cloud_mask.rs *)

Record CloudThresholds := mkCloudThresholds { blue_min : Z; nir_min : Z; swir2_min : Z }.
Definition CloudThresholds_default : CloudThresholds := mkCloudThresholds 2000 2000 1500.

(** A two-dimensional array, row major. *)
Record Array2 (A : Type) := mkArray2 { a_rows : nat; a_cols : nat; a_data : list A }.
Arguments mkArray2 {A}. Arguments a_rows {A}. Arguments a_cols {A}. Arguments a_data {A}.

Definition a_dim {A} (a : Array2 A) : nat * nat := (a_rows a, a_cols a).
Definition a_index {A} (a : Array2 A) (i : nat * nat) : option nat :=
  if bool_decide (i.1 < a_rows a ∧ i.2 < a_cols a)%nat then Some (i.1 * a_cols a + i.2)%nat
  else None.
(** [a[[r, c]]]; [None] is the panic of an index out of bounds. *)
Definition a_get {A} (a : Array2 A) (i : nat * nat) : option A :=
  a_index a i ≫= λ k, a_data a !! k.
Definition a_set {A} (a : Array2 A) (i : nat * nat) (x : A) : option (Array2 A) :=
  k ← a_index a i;
  if bool_decide (k < length (a_data a))%nat then
    Some (mkArray2 (a_rows a) (a_cols a) (<[k := x]> (a_data a)))
  else None.
Definition a_zeros (dim : nat * nat) : Array2 Z :=
  mkArray2 dim.1 dim.2 (replicate (dim.1 * dim.2) 0).
(** The order of [indexed_iter]. *)
Definition a_indices (dim : nat * nat) : list (nat * nat) :=
  r ← seq 0 dim.1; c ← seq 0 dim.2; [(r, c)].

Section classify.
Context (blue nir swir2 : Array2 Z) (thresh : CloudThresholds).

(** One iteration of the loop over the pixels. *)
Definition classify_pixel (out : Array2 Z) (i : nat * nat) : option (Array2 Z) :=
  b ← a_get blue i; n ← a_get nir i; s ← a_get swir2 i;
  if (blue_min thresh <=? b) && (nir_min thresh <=? n) && (swir2_min thresh <=? s)
  then a_set out i 1 else Some out.

Definition classify : option (result (nat * nat * (nat * nat) * (nat * nat)) (Array2 Z)) :=
  let dims := a_dim blue in
  if negb (bool_decide (a_dim nir = dims)) || negb (bool_decide (a_dim swir2 = dims)) then
    Some (Err (dims, a_dim nir, a_dim swir2))
  else
    out ← foldl (λ acc i, out ← acc; classify_pixel out i)
      (Some (a_zeros dims)) (a_indices dims);
    Some (Ok out).
End classify.

(** ** orbit-geo: products.rs *)

Inductive MaskKind := Sentinel2Scl | LandsatC2QaPixel | MaskNone.

Record BandAliases := mkBandAliases {
  red : list string; ba_nir : list string; ba_swir2 : list string; ba_mask : list string }.

Record Product := mkProduct {
  pr_id : string; pr_title : string; pr_platform : string;
  native_resolution_m : f64; mask_kind : MaskKind; band_aliases : BandAliases }.

Definition known_products : list Product := [
  mkProduct "sentinel-2-l2a" "Sentinel-2 Level-2A" "Sentinel-2" (f64_of_Z 10) Sentinel2Scl
    (mkBandAliases ["red"; "B04"; "b04"] ["nir"; "B08"; "b08"]
       ["swir22"; "B12"; "b12"] ["scl"; "SCL"]);
  mkProduct "sentinel-2-l1c" "Sentinel-2 Level-1C (Top-of-Atmosphere)" "Sentinel-2"
    (f64_of_Z 10) MaskNone
    (mkBandAliases ["red"; "B04"] ["nir"; "B08"] ["swir22"; "B12"] []);
  mkProduct "landsat-c2-l2" "Landsat Collection 2 Level-2 Surface Reflectance" "Landsat-8/9"
    (f64_of_Z 30) LandsatC2QaPixel
    (mkBandAliases ["red"; "SR_B4"] ["nir08"; "SR_B5"] ["swir22"; "SR_B7"]
       ["qa_pixel"; "QA_PIXEL"]);
  mkProduct "cop-dem-glo-30" "Copernicus DEM Global 30 m" "TanDEM-X" (f64_of_Z 30) MaskNone
    (mkBandAliases ["data"] ["data"] [] [])
].

(** ** Lemmas *)

Lemma land_1 x : Z.land x 1 = Z.b2z (Z.testbit x 0).
Proof.
  change (Z.land x 1) with (Z.land x (Z.ones 1)). by rewrite Z.land_ones, Z.bit0_mod by lia.
Qed.

Lemma bit_testbit v k : 0 ≤ k → bit v k = Z.testbit v k.
Proof.
  intros Hk. unfold bit. rewrite land_1, Z.shiftr_spec by lia. rewrite Z.add_0_l.
  by destruct (Z.testbit v k).
Qed.

Lemma fill_testbit v : negb (Z.land v 1 =? 0) = Z.testbit v 0.
Proof. rewrite land_1. by destruct (Z.testbit v 0). Qed.

(** The two confidence bits, as a number. *)
Definition conf_repr (c : QaConfidence) : Z :=
  match c with QNone => 0 | QLow => 1 | QMedium => 2 | QHigh => 3 end.

Lemma conf_repr_from_2bits v : conf_repr (from_2bits v) = v mod 4.
Proof.
  unfold from_2bits. change 3 with (Z.ones 2). rewrite Z.land_ones by lia.
  change (2 ^ 2) with 4. pose proof (Z.mod_pos_bound v 4 ltac:(lia)) as H.
  assert (v mod 4 = 0 ∨ v mod 4 = 1 ∨ v mod 4 = 2 ∨ v mod 4 = 3) as Hc by lia.
  by destruct Hc as [->|[->|[->| ->]]].
Qed.

(** The QA_PIXEL word laid out as the product guide's table has it. *)
Definition qa_encode (q : QaPixel) : Z :=
  Z.b2z (fill q) + 2 * Z.b2z (dilated_cloud q) + 4 * Z.b2z (cirrus q) + 8 * Z.b2z (cloud q) +
  16 * Z.b2z (cloud_shadow q) + 32 * Z.b2z (snow q) + 64 * Z.b2z (clear q) +
  128 * Z.b2z (water q) + 256 * conf_repr (cloud_confidence q) +
  1024 * conf_repr (cloud_shadow_confidence q) + 4096 * conf_repr (snow_confidence q) +
  16384 * conf_repr (cirrus_confidence q).

Lemma testbit_b2z v k : 0 ≤ k → Z.b2z (Z.testbit v k) = (v / 2 ^ k) mod 2.
Proof. intros Hk. by rewrite Z.testbit_spec' by lia. Qed.

Lemma from_2bits_shift v k : 0 ≤ k → conf_repr (from_2bits (Z.shiftr v k)) = (v / 2 ^ k) mod 4.
Proof. intros Hk. by rewrite conf_repr_from_2bits, Z.shiftr_div_pow2. Qed.

Lemma from_2bits_repr c m : from_2bits (4 * m + conf_repr c) = c.
Proof.
  unfold from_2bits. change 3 with (Z.ones 2). rewrite Z.land_ones by lia.
  rewrite Z.add_comm, Z.mul_comm, Z.mod_add by lia. by destruct c.
Qed.

(** The decoder followed by the [repr] of the class. *)
Lemma scl_repr_from_u8 b :
  0 ≤ b < 256 → scl_repr (from_u8 b) = if b <=? 11 then b else 7.
Proof.
  intros Hb. unfold from_u8. destruct b as [|p|p]; [done| |lia].
  do 8 (try destruct p as [p|p|]); try done; lia.
Qed.

Lemma half_pow v k k' : 0 ≤ k → k' = k + 1 →
  v / 2 ^ k = 2 * (v / 2 ^ k') + (v / 2 ^ k) mod 2.
Proof.
  intros Hk ->. rewrite Z.pow_add_r, <- Z.div_div by (try apply Z.pow_pos_nonneg; lia).
  change (2 ^ 1) with 2. apply Z.div_mod. lia.
Qed.

Lemma quarter_pow v k k' : 0 ≤ k → k' = k + 2 →
  v / 2 ^ k = 4 * (v / 2 ^ k') + (v / 2 ^ k) mod 4.
Proof.
  intros Hk ->. rewrite Z.pow_add_r, <- Z.div_div by (try apply Z.pow_pos_nonneg; lia).
  change (2 ^ 2) with 4. apply Z.div_mod. lia.
Qed.

Lemma qa_encode_from_u16 v : in_u 16 v → qa_encode (from_u16 v) = v.
Proof.
  intros Hv. unfold qa_encode, from_u16. simpl.
  rewrite fill_testbit, !bit_testbit, !testbit_b2z, !from_2bits_shift by lia.
  assert (v / 2 ^ 0 = v) as E0 by (change (2 ^ 0) with 1; apply Z.div_1_r).
  assert (v / 2 ^ 16 = 0) as E16 by (by apply Z.div_small).
  pose proof (half_pow v 0 1 ltac:(lia) eq_refl) as H0.
  pose proof (half_pow v 1 2 ltac:(lia) eq_refl) as H1.
  pose proof (half_pow v 2 3 ltac:(lia) eq_refl) as H2. pose proof (half_pow v 3 4 ltac:(lia) eq_refl) as H3.
  pose proof (half_pow v 4 5 ltac:(lia) eq_refl) as H4. pose proof (half_pow v 5 6 ltac:(lia) eq_refl) as H5.
  pose proof (half_pow v 6 7 ltac:(lia) eq_refl) as H6. pose proof (half_pow v 7 8 ltac:(lia) eq_refl) as H7.
  pose proof (quarter_pow v 8 10 ltac:(lia) eq_refl) as H8. pose proof (quarter_pow v 10 12 ltac:(lia) eq_refl) as H10.
  pose proof (quarter_pow v 12 14 ltac:(lia) eq_refl) as H12. pose proof (quarter_pow v 14 16 ltac:(lia) eq_refl) as H14.
  rewrite E16 in H14. rewrite E0 in *. lia.
Qed.

Lemma b2z_inj a b : Z.b2z a = Z.b2z b → a = b.
Proof. by destruct a, b. Qed.

Lemma conf_repr_inj a b : conf_repr a = conf_repr b → a = b.
Proof. by destruct a, b. Qed.

Lemma conf_repr_range c : 0 ≤ conf_repr c < 4.
Proof. by destruct c. Qed.

Lemma from_u16_qa_encode q : from_u16 (qa_encode q) = q.
Proof.
  assert (∀ b, 0 ≤ Z.b2z b < 2) as Hb by (intros []; simpl; lia).
  pose proof (conf_repr_range (cloud_confidence q)).
  pose proof (conf_repr_range (cloud_shadow_confidence q)).
  pose proof (conf_repr_range (snow_confidence q)).
  pose proof (conf_repr_range (cirrus_confidence q)).
  destruct q as [b0 b1 b2 b3 b4 b5 b6 b7 c0 c1 c2 c3]. simpl in *.
  pose proof (Hb b0); pose proof (Hb b1); pose proof (Hb b2); pose proof (Hb b3).
  pose proof (Hb b4); pose proof (Hb b5); pose proof (Hb b6); pose proof (Hb b7).
  unfold from_u16, qa_encode; simpl. f_equal;
    (apply b2z_inj || apply conf_repr_inj);
    rewrite ?fill_testbit, ?bit_testbit, ?testbit_b2z, ?from_2bits_shift by lia;
    clear Hb; Z.to_euclidean_division_equations; lia.
Qed.

(** ** The rule classifier *)

(** A well-formed array holds one element per index. *)
Definition a_wf {A} (a : Array2 A) : Prop := length (a_data a) = (a_rows a * a_cols a)%nat.
Definition in_dim (i dim : nat * nat) : Prop := (i.1 < dim.1 ∧ i.2 < dim.2)%nat.

Lemma a_index_Some {A} (a : Array2 A) i :
  in_dim i (a_dim a) → a_index a i = Some (i.1 * a_cols a + i.2)%nat.
Proof. intros H. unfold a_index. by rewrite bool_decide_eq_true_2. Qed.

Lemma a_index_lt {A} (a : Array2 A) i :
  a_wf a → in_dim i (a_dim a) → (i.1 * a_cols a + i.2 < length (a_data a))%nat.
Proof. intros -> [H1 H2]. simpl in *. nia. Qed.

Lemma a_get_is_Some {A} (a : Array2 A) i :
  a_wf a → in_dim i (a_dim a) → is_Some (a_get a i).
Proof.
  intros Hwf Hi. unfold a_get. rewrite (a_index_Some a i Hi). simpl.
  by apply lookup_lt_is_Some_2, a_index_lt.
Qed.

Lemma a_set_spec {A} (a : Array2 A) i x :
  a_wf a → in_dim i (a_dim a) →
  ∃ a', a_set a i x = Some a' ∧ a_wf a' ∧ a_dim a' = a_dim a ∧
    ∀ j, in_dim j (a_dim a) →
      a_get a' j = if decide (j = i) then Some x else a_get a j.
Proof.
  intros Hwf Hi. unfold a_set. rewrite (a_index_Some a i Hi). simpl.
  pose proof (a_index_lt a i Hwf Hi) as Hlt. rewrite bool_decide_eq_true_2 by done.
  eexists. split; [done|]. unfold a_wf. simpl. rewrite length_insert. split; [done|].
  split; [done|]. intros j Hj. unfold a_get. rewrite !a_index_Some by done. simpl.
  destruct i as [ir ic], j as [jr jc], Hi, Hj; simpl in *.
  destruct (decide _) as [[= -> ->]|Hne].
  - by apply list_lookup_insert_eq.
  - apply list_lookup_insert_ne. intros E. apply Hne.
    assert (ir = jr) as -> by nia. f_equal. lia.
Qed.

Lemma elem_of_a_indices i dim : i ∈ a_indices dim ↔ in_dim i dim.
Proof.
  unfold a_indices, in_dim. rewrite list_elem_of_bind. destruct i as [r c]. split.
  - intros (r' & Hc & Hr). apply list_elem_of_bind in Hc as (c' & Hrc & Hc).
    rewrite elem_of_seq in Hr, Hc. apply list_elem_of_singleton in Hrc as [= -> ->].
    simpl. lia.
  - intros [Hr Hc]. exists r. rewrite elem_of_seq. split; [|simpl in *; lia].
    apply list_elem_of_bind. exists c. rewrite elem_of_seq, list_elem_of_singleton.
    split; [done|simpl in *; lia].
Qed.

Section classify_lemmas.
Context (blue nir swir2 : Array2 Z) (thresh : CloudThresholds).
Hypothesis blue_wf : a_wf blue.
Hypothesis nir_wf : a_wf nir.
Hypothesis swir2_wf : a_wf swir2.
Hypothesis nir_dim : a_dim nir = a_dim blue.
Hypothesis swir2_dim : a_dim swir2 = a_dim blue.

(** Whether the rule flags a pixel. *)
Definition bright (i : nat * nat) : Prop :=
  ∃ b n s, a_get blue i = Some b ∧ a_get nir i = Some n ∧ a_get swir2 i = Some s ∧
    blue_min thresh ≤ b ∧ nir_min thresh ≤ n ∧ swir2_min thresh ≤ s.

Lemma classify_pixel_spec out i :
  a_wf out → a_dim out = a_dim blue → in_dim i (a_dim blue) →
  ∃ out', classify_pixel blue nir swir2 thresh out i = Some out' ∧
    a_wf out' ∧ a_dim out' = a_dim blue ∧
    (∀ j, in_dim j (a_dim blue) → j ≠ i → a_get out' j = a_get out j) ∧
    (bright i → a_get out' i = Some 1) ∧ (¬ bright i → a_get out' i = a_get out i).
Proof.
  intros Hwf Hdim Hi.
  destruct (a_get_is_Some blue i blue_wf Hi) as [b Hb].
  destruct (a_get_is_Some nir i nir_wf) as [n Hn]; [by rewrite nir_dim|].
  destruct (a_get_is_Some swir2 i swir2_wf) as [s Hs]; [by rewrite swir2_dim|].
  unfold classify_pixel. rewrite Hb, Hn, Hs. simpl.
  destruct ((blue_min thresh <=? b) && _ && _) eqn:Hc.
  - destruct (a_set_spec out i 1 Hwf) as (out' & -> & Hwf' & Hdim' & Hget); [by rewrite Hdim|].
    rewrite Hdim in *. exists out'. repeat (split; [done|]). split; [|split].
    + intros j Hj Hne. by rewrite Hget, decide_False.
    + intros _. by rewrite Hget, decide_True.
    + intros Hnb. destruct Hnb. exists b, n, s. repeat split; first [done | lia].
  - exists out. repeat (split; [done|]). split; [|done].
    intros (b' & n' & s' & Hb' & Hn' & Hs' & Hle). simplify_eq. lia.
Qed.

Lemma classify_fold_spec l out :
  a_wf out → a_dim out = a_dim blue → Forall (λ i, in_dim i (a_dim blue)) l →
  ∃ out', foldl (λ acc i, out ← acc; classify_pixel blue nir swir2 thresh out i)
      (Some out) l = Some out' ∧
    a_wf out' ∧ a_dim out' = a_dim blue ∧
    ∀ j, in_dim j (a_dim blue) →
      (j ∈ l → bright j → a_get out' j = Some 1) ∧
      (j ∉ l ∨ ¬ bright j → a_get out' j = a_get out j).
Proof.
  intros Hwf Hdim Hl. revert out Hwf Hdim. induction Hl as [|i l Hi _ IH]; intros out Hwf Hdim.
  - exists out. repeat (split; [done|]). intros j Hj. split; [set_solver|done].
  - simpl. destruct (classify_pixel_spec out i Hwf Hdim Hi)
      as (o1 & -> & Hwf1 & Hdim1 & Hother & Hbr & Hnbr).
    destruct (IH o1 Hwf1 Hdim1) as (o2 & -> & Hwf2 & Hdim2 & Hget).
    exists o2. repeat (split; [done|]). intros j Hj. destruct (Hget j Hj) as [H1 H2].
    destruct (decide (j ∈ l)) as [Hin|Hnin]; destruct (decide (j = i)) as [->|Hne].
    + split; [auto|]. intros [?|Hnb]; [set_solver|]. rewrite H2 by auto. by apply Hnbr.
    + split; [auto|]. intros [?|Hnb]; [set_solver|]. rewrite H2 by auto. by apply Hother.
    + rewrite H2 by auto. split; [auto|]. intros [?|Hnb]; [set_solver|]. by apply Hnbr.
    + rewrite H2 by auto. split; [set_solver|]. intros _. by apply Hother.
Qed.
End classify_lemmas.

Lemma a_zeros_spec dim :
  a_wf (a_zeros dim) ∧ a_dim (a_zeros dim) = dim ∧
  ∀ i, in_dim i dim → a_get (a_zeros dim) i = Some 0.
Proof.
  destruct dim as [r c]. unfold a_wf, a_zeros. simpl. rewrite length_replicate.
  split; [done|]. split; [done|]. intros i [H1 H2]. unfold a_get.
  rewrite a_index_Some by done. simpl in *. apply lookup_replicate_2. nia.
Qed.

(** ** Properties *)

(** [from_u16] loses no bit of a QA_PIXEL word and decodes every field
    combination: it is a bijection between 16-bit words and typed views, whose
    inverse places each flag and each 2-bit confidence at the position of the
    product guide's table. *)
Theorem qa_pixel_roundtrip (v : Z) (q : QaPixel) :
  (in_u 16 v → qa_encode (from_u16 v) = v) ∧
  (in_u 16 (qa_encode q) ∧ from_u16 (qa_encode q) = q).
Proof.
  split; [apply qa_encode_from_u16|]. split; [|apply from_u16_qa_encode].
  assert (∀ b, 0 ≤ Z.b2z b ≤ 1) as Hb by (intros []; simpl; lia).
  pose proof (conf_repr_range (cloud_confidence q)).
  pose proof (conf_repr_range (cloud_shadow_confidence q)).
  pose proof (conf_repr_range (snow_confidence q)).
  pose proof (conf_repr_range (cirrus_confidence q)).
  destruct q as [b0 b1 b2 b3 b4 b5 b6 b7 c0 c1 c2 c3]. simpl in *.
  pose proof (Hb b0); pose proof (Hb b1); pose proof (Hb b2); pose proof (Hb b3).
  pose proof (Hb b4); pose proof (Hb b5); pose proof (Hb b6); pose proof (Hb b7).
  unfold in_u, qa_encode. simpl. lia.
Qed.

Lemma qa_pixel_roundtrip_witness :
  in_u 16 21824 ∧ qa_encode (from_u16 21824) = 21824.
Proof.
  assert (in_u 16 21824) as H by (split; lia). split; [exact H|].
  exact (proj1 (qa_pixel_roundtrip 21824 (from_u16 0)) H).
Defined.

(** The documented order in which the flags decide: (bit, value). *)
Definition qa_precedence : list (Z * MaskValue) :=
  [(0, NoData); (1, Cloud); (3, Cloud); (4, Shadow); (2, Cloud); (5, Snow); (7, Water);
   (6, Clear)].

(** A QA_PIXEL word is classified by its first set bit in the precedence
    fill, cloud or dilated cloud, shadow, cirrus, snow, water, clear, and as
    clear when none of them is set, whatever the confidence bits. *)
Theorem qa_mask_precedence (v : Z) :
  qa_to_mask_value (from_u16 v) =
  match List.find (λ p, Z.testbit v p.1) qa_precedence with
  | Some (_, m) => m
  | None => Clear
  end.
Proof.
  unfold qa_to_mask_value, from_u16.
  cbn [fill cloud dilated_cloud cloud_shadow cirrus snow water clear].
  rewrite fill_testbit, !bit_testbit by lia. generalize (Z.testbit v). intros t. simpl.
  destruct (t 0); [done|].
  by destruct (t 1), (t 3), (t 4), (t 2), (t 5), (t 7), (t 6).
Qed.

(** The brightness rule never indexes out of bounds; on bands of different
    shapes it reports the three shapes, and otherwise it returns a mask of the
    same shape whose pixel is 1 where blue, NIR and SWIR2 all reach their
    thresholds and 0 elsewhere. *)
Theorem classify_pointwise (blue nir swir2 : Array2 Z) (thresh : CloudThresholds)
    (blue_wf : a_wf blue) (nir_wf : a_wf nir) (swir2_wf : a_wf swir2) :
  if decide (a_dim nir = a_dim blue ∧ a_dim swir2 = a_dim blue) then
    ∃ out, classify blue nir swir2 thresh = Some (Ok out) ∧ a_wf out ∧
      a_dim out = a_dim blue ∧
      ∀ i, in_dim i (a_dim blue) →
        (bright blue nir swir2 thresh i → a_get out i = Some 1) ∧
        (¬ bright blue nir swir2 thresh i → a_get out i = Some 0)
  else
    classify blue nir swir2 thresh = Some (Err (a_dim blue, a_dim nir, a_dim swir2)).
Proof.
  unfold classify. destruct (decide _) as [[H1 H2]|Hne].
  - rewrite !bool_decide_eq_true_2 by done. simpl.
    destruct (a_zeros_spec (a_dim blue)) as (Hzwf & Hzdim & Hz).
    destruct (classify_fold_spec blue nir swir2 thresh blue_wf nir_wf swir2_wf H1 H2
      (a_indices (a_dim blue)) _ Hzwf Hzdim) as (out & -> & Hwf & Hdim & Hget).
    { apply Forall_forall. intros i. apply elem_of_a_indices. }
    exists out. repeat (split; [done|]). intros i Hi. destruct (Hget i Hi) as [Hb Hn].
    split; [by apply Hb, elem_of_a_indices|]. intros Hnb.
    rewrite Hn by auto. by apply Hz.
  - destruct (bool_decide_reflect (a_dim nir = a_dim blue)); [|done].
    destruct (bool_decide_reflect (a_dim swir2 = a_dim blue)); [|done].
    by destruct Hne.
Qed.

Definition demo_band (l : list Z) : Array2 Z := mkArray2 1 2 l.

Lemma classify_pointwise_witness :
  ∃ out, classify (demo_band [3000; 100]) (demo_band [3000; 100]) (demo_band [1500; 100])
    CloudThresholds_default = Some (Ok out) ∧ a_wf out.
Proof.
  pose proof (classify_pointwise (demo_band [3000; 100]) (demo_band [3000; 100])
    (demo_band [1500; 100]) CloudThresholds_default eq_refl eq_refl eq_refl) as H.
  rewrite decide_True in H by done. destruct H as (out & H & Hwf & _). by exists out.
Defined.
