(* ===== verification/Auth.v ===== *)
(** * Authentication: apps/orbit-openeo/src/auth, security.rs, auth_layer.rs

    Bearer and Basic credentials, the policy, the per-route security map read
    from the OpenAPI document, and the middleware that combines them.  The
    Unicode upper-casing of method names is a parameter. *)

From Stdlib Require Import Ascii.
From S2P Require Import Prelude F64 Text Json.
Local Open Scope Z_scope.

(** ** bearer.rs *)

(** The same private function is written out in bearer.rs and in basic.rs. *)
Definition constant_time_eq (a b : list Z) : bool :=
  if negb (length a =? length b)%nat then false
  else foldl (λ diff '(x, y), Z.lor diff (Z.lxor x y)) 0 (zip a b) =? 0.

Inductive BearerError := NotBearer.
Record BearerToken := mkBearerToken { raw : string }.

Definition Bearer_parse (header : string) : result BearerError BearerToken :=
  token ← ok_or (strip_prefix "Bearer " header) NotBearer; Ok (mkBearerToken token).
Definition Bearer_matches (b : BearerToken) (expected : string) : bool :=
  constant_time_eq (bytes_of (raw b)) (bytes_of expected).

(** ** basic.rs *)

Inductive BasicError := NotBasic | BadBase64 | MissingColon | NotUtf8.
Record BasicCredentials := mkBasic { username : string; password : string }.

Definition b64_alphabet : list Z :=
  bytes_of "ABCDEFGHIJKLMNOPQRSTUVWXYZabcdefghijklmnopqrstuvwxyz0123456789+/".

(** The lookup table: -1 for a byte outside the alphabet, 0 for padding. *)
Definition b64_table (b : Z) : Z :=
  if b =? 61 then 0
  else match list_find (λ a, a = b) b64_alphabet with
       | Some (i, _) => Z.of_nat i
       | None => -1
       end.

Record b64_state := mkB64 { b64_out : list Z; b64_buf : list Z; b64_pad : Z }.

(** One byte of the input; [b64_buf] is [buf[..len]]. *)
Definition b64_step (st : b64_state) (b : Z) : option b64_state :=
  if (b =? 10) || (b =? 13) || (b =? 32) then Some st
  else
    let v := b64_table b in
    if v <? 0 then None
    else
      let pad := if b =? 61 then b64_pad st + 1 else b64_pad st in
      match b64_buf st ++ [v] with
      | [v0; v1; v2; v3] =>
          let triple := Z.lor (Z.lor (Z.lor (Z.shiftl v0 18) (Z.shiftl v1 12)) (Z.shiftl v2 6)) v3 in
          let out := b64_out st ++ [Z.land (Z.shiftr triple 16) 255] in
          let out := if pad <? 2 then out ++ [Z.land (Z.shiftr triple 8) 255] else out in
          let out := if pad <? 1 then out ++ [Z.land triple 255] else out in
          Some (mkB64 out [] 0)
      | buf => Some (mkB64 (b64_out st) buf pad)
      end.

Definition b64_decode (input : list Z) : option (list Z) :=
  st ← foldl (λ acc b, st ← acc; b64_step st b) (Some (mkB64 [] [] 0)) input;
  match b64_buf st with [] => Some (b64_out st) | _ => None end.

Definition Basic_parse (header : string) : result BasicError BasicCredentials :=
  payload ← ok_or (strip_prefix "Basic " header) NotBasic;
  decoded ← ok_or (b64_decode (bytes_of payload)) BadBase64;
  s ← (if utf8_valid decoded then Ok (string_of decoded) else Err NotUtf8);
  '(u, p) ← ok_or (split_once ":" s) MissingColon;
  Ok (mkBasic u p).

Definition Basic_matches (c : BasicCredentials) (expected_user expected_pass : string) : bool :=
  constant_time_eq (bytes_of (username c)) (bytes_of expected_user) &&
  constant_time_eq (bytes_of (password c)) (bytes_of expected_pass).

(** ** mod.rs *)

Inductive AuthPolicy :=
| Open
| Bearer (token : string)
| Basic (username password : string)
| Any (bearer : option string) (basic : option (string * string)).

Inductive AuthOutcome := OOpen | Authenticated | Missing | BadScheme | BadCredentials.
#[export] Instance AuthOutcome_eq_dec : EqDecision AuthOutcome.
Proof. solve_decision. Defined.

Definition check (policy : AuthPolicy) (header : option string) : AuthOutcome :=
  match policy with
  | Open => OOpen
  | Bearer token =>
      match header with
      | None => Missing
      | Some h =>
          match Bearer_parse h with
          | Ok b => if Bearer_matches b token then Authenticated else BadCredentials
          | Err _ => BadScheme
          end
      end
  | Basic username password =>
      match header with
      | None => Missing
      | Some h =>
          match Basic_parse h with
          | Ok b => if Basic_matches b username password then Authenticated else BadCredentials
          | Err _ => BadScheme
          end
      end
  | Any bearer basic =>
      match header with
      | None => Missing
      | Some h =>
          let try_basic :=
            match basic with
            | Some (u, p) =>
                match Basic_parse h with
                | Ok c => if Basic_matches c u p then Authenticated else BadCredentials
                | Err _ => BadScheme
                end
            | None => BadScheme
            end in
          match bearer with
          | Some tok =>
              match Bearer_parse h with
              | Ok b => if Bearer_matches b tok then Authenticated else BadCredentials
              | Err _ => try_basic
              end
          | None => try_basic
          end
      end
  end.

(** ** security.rs *)

Record RouteSecurity := mkRouteSecurity { alternatives : list (list string) }.

Definition is_empty {A} (l : list A) : bool := match l with [] => true | _ => false end.

Definition is_public (r : RouteSecurity) : bool :=
  is_empty (alternatives r) || existsb is_empty (alternatives r).
Definition requires_scheme (r : RouteSecurity) (scheme : string) : bool :=
  existsb (existsb (λ s, bool_decide (s = scheme))) (alternatives r).

Notation RouteSecurityMap := (gmap (string * string) RouteSecurity).

Inductive SecurityMapError := ParseError (e : string) | NoPaths.

Definition parse_security_array (arr : list Value) : list (list string) :=
  (λ alt, alt.*1) <$> omap as_object arr.

Definition http_methods : list string :=
  ["GET"; "POST"; "PUT"; "PATCH"; "DELETE"; "HEAD"; "OPTIONS"].

Section security.
Context (to_uppercase : string → string).

(** The body of the inner loop: one [(method, op)] member of a path item. *)
Definition operation_entry (path : string) (map : RouteSecurityMap)
    (e : string * Value) : RouteSecurityMap :=
  let '(method, op) := e in
  let m_upper := to_uppercase method in
  if bool_decide (m_upper ∈ http_methods) then
    let sec := default [] (parse_security_array <$> (jget "security" op ≫= as_array)) in
    <[(m_upper, path) := mkRouteSecurity sec]> map
  else map.

Definition path_entry (map : RouteSecurityMap) (e : string * Value) : RouteSecurityMap :=
  let '(path, ops) := e in
  match as_object ops with
  | Some o => foldl (operation_entry path) map o
  | None => map
  end.

Definition from_spec (spec : Value) : result SecurityMapError RouteSecurityMap :=
  paths ← ok_or (jget "paths" spec ≫= as_object) NoPaths;
  Ok (foldl path_entry ∅ paths).

(** [serde_json::from_str] is the parser argument. *)
Definition from_openapi_json (from_str : string → result string Value) (openapi : string)
    : result SecurityMapError RouteSecurityMap :=
  spec ← map_err ParseError (from_str openapi); from_spec spec.

Definition route_get (map : RouteSecurityMap) (method path_template : string)
    : option RouteSecurity :=
  map !! (to_uppercase method, path_template).

(** ** auth_layer.rs *)

Record AuthLayerState := mkAuthLayer { routes : RouteSecurityMap; policy : AuthPolicy }.

Inductive Response := Forwarded | Unauthorized (msg : string).

(** [matched] is the matched path template, [header] the [Authorization] value
    when it is a readable string; [Forwarded] is [next.run(req)]. *)
Definition enforce (state : AuthLayerState) (matched : option string) (method : string)
    (header : option string) : Response :=
  let route_sec := matched ≫= route_get (routes state) method in
  if match route_sec with None => true | Some s => is_public s end then Forwarded
  else
    match check (policy state) header with
    | Authenticated | OOpen => Forwarded
    | Missing => Unauthorized "missing Authorization header"
    | BadScheme => Unauthorized "unsupported Authorization scheme"
    | BadCredentials => Unauthorized "invalid credentials"
    end.
End security.

(** ** Constant-time comparison *)

Lemma lor_fold_zero l d :
  foldl (λ diff '(x, y), Z.lor diff (Z.lxor x y)) d l = 0 ↔
  d = 0 ∧ Forall (λ e, e.1 = e.2) l.
Proof.
  revert d. induction l as [|[x y] l IH]; intros d; simpl.
  - rewrite Forall_nil. tauto.
  - rewrite IH, Z.lor_eq_0_iff, Z.lxor_eq_0_iff, Forall_cons. simpl. tauto.
Qed.

Lemma constant_time_eq_spec a b : constant_time_eq a b = true ↔ a = b.
Proof.
  unfold constant_time_eq. destruct (Nat.eqb_spec (length a) (length b)) as [Hlen|Hlen].
  - simpl. rewrite Z.eqb_eq, lor_fold_zero. split.
    + intros [_ H]. revert b Hlen H.
      induction a as [|x a IH]; intros [|y b] Hlen H; simpl in *; try done.
      apply Forall_cons in H as [Hx H]. simpl in Hx. subst. f_equal. apply IH; [lia|done].
    + intros ->. split; [done|]. induction b; simpl; constructor; [done|]. apply IHb. done.
  - simpl. split; [done|]. congruence.
Qed.

Lemma Bearer_parse_Ok h b : Bearer_parse h = Ok b ↔ h = "Bearer " +:+ raw b.
Proof.
  rewrite <- strip_prefix_Some. unfold Bearer_parse.
  destruct (strip_prefix "Bearer " h) as [t|]; simpl.
  - destruct b as [t']. simpl. split; congruence.
  - split; done.
Qed.

Lemma Bearer_matches_spec b t : Bearer_matches b t = true ↔ raw b = t.
Proof.
  unfold Bearer_matches. rewrite constant_time_eq_spec. split; [apply bytes_of_inj|by intros ->].
Qed.

(** What a Basic header must carry. *)
Definition basic_header (h u p : string) : Prop :=
  ∃ payload bs, h = "Basic " +:+ payload ∧ b64_decode (bytes_of payload) = Some bs ∧
    utf8_valid bs = true ∧ string_of bs = u +:+ String ":" p ∧ has_char ":" u = false.

Lemma Basic_parse_Ok h c :
  Basic_parse h = Ok c ↔ basic_header h (username c) (password c).
Proof.
  unfold Basic_parse, basic_header. destruct (strip_prefix "Basic " h) as [payload|] eqn:Hs; simpl.
  2:{ split; [done|]. intros (pl & bs & Hh & _). apply strip_prefix_Some in Hh. congruence. }
  split.
  - destruct (b64_decode (bytes_of payload)) as [bs|] eqn:Hd; simpl; [|done].
    destruct (utf8_valid bs) eqn:Hu; simpl; [|done].
    destruct (split_once ":" (string_of bs)) as [[u p]|] eqn:Hc; simpl; [|done].
    intros [= <-]. simpl. apply strip_prefix_Some in Hs. apply split_once_Some in Hc as [Hc Hn].
    by exists payload, bs.
  - intros (pl & bs & Hh & Hd & Hu & Hc & Hn). apply strip_prefix_Some in Hh.
    assert (pl = payload) as -> by congruence. rewrite Hd. simpl. rewrite Hu. simpl.
    rewrite (proj2 (split_once_Some _ _ _ _) (conj Hc Hn)). simpl. by destruct c.
Qed.

Lemma Basic_matches_spec c u p : Basic_matches c u p = true ↔ username c = u ∧ password c = p.
Proof.
  unfold Basic_matches. rewrite andb_true_iff, !constant_time_eq_spec.
  split; intros []; [split; by apply bytes_of_inj|by subst].
Qed.

(** ** The OpenAPI walk *)

Lemma fold_insert_lookup {A} (k : string * string) (v : A)
    (l : list ((string * string) * A)) (m : gmap (string * string) A) :
  (k, v) ∈ l → (∀ v', (k, v') ∈ l → v' = v) →
  foldl (λ m e, <[e.1 := e.2]> m) m l !! k = Some v.
Proof.
  induction l as [|[k' v'] l IH] using rev_ind; [by intros ?%not_elem_of_nil|].
  intros Hin Huniq. rewrite foldl_app. simpl. destruct (decide (k' = k)) as [->|Hne].
  - rewrite lookup_insert_eq. f_equal. apply Huniq. set_solver.
  - rewrite lookup_insert_ne by done. apply IH; [set_solver|]. intros v2 ?. apply Huniq. set_solver.
Qed.

(** The entries the walk inserts, in order. *)
Definition op_security (op : Value) : RouteSecurity :=
  mkRouteSecurity (default [] (parse_security_array <$> (jget "security" op ≫= as_array))).

Definition op_entries (up : string → string) (path : string) (e : string * Value)
    : list ((string * string) * RouteSecurity) :=
  if decide (up e.1 ∈ http_methods) then [((up e.1, path), op_security e.2)] else [].
Definition path_entries (up : string → string) (e : string * Value)
    : list ((string * string) * RouteSecurity) :=
  match as_object e.2 with Some o => o ≫= op_entries up e.1 | None => [] end.

Lemma operation_fold up path o m :
  foldl (operation_entry up path) m o =
  foldl (λ m e, <[e.1 := e.2]> m) m (o ≫= op_entries up path).
Proof.
  revert m. induction o as [|[method op] o IH]; intros m; [done|].
  cbn [foldl mbind list_bind]. rewrite foldl_app, IH. f_equal.
  unfold op_entries, operation_entry. cbn [fst snd].
  destruct (decide (up method ∈ http_methods)) as [H|H].
  - by rewrite (bool_decide_eq_true_2 _ H).
  - by rewrite (bool_decide_eq_false_2 _ H).
Qed.

Lemma path_fold up paths m :
  foldl (path_entry up) m paths =
  foldl (λ m e, <[e.1 := e.2]> m) m (paths ≫= path_entries up).
Proof.
  revert m. induction paths as [|[path ops] paths IH]; intros m; [done|].
  cbn [foldl mbind list_bind]. rewrite foldl_app, IH. f_equal.
  unfold path_entries, path_entry. simpl. destruct (as_object ops); [|done].
  apply operation_fold.
Qed.

(** The document gives one operation for a route: the member [op] under the
    method [m], no other member of the same path upper-casing to the same
    method with other requirements. *)
Definition declares (up : string → string) (spec : Value) (method path : string) (op : Value)
    : Prop :=
  ∃ paths, jget "paths" spec = Some (Object paths) ∧
    (up method, path, op_security op) ∈ paths ≫= path_entries up ∧
    ∀ s, (up method, path, s) ∈ paths ≫= path_entries up → s = op_security op.

Lemma from_spec_lookup up spec method path op map :
  declares up spec method path op → from_spec up spec = Ok map →
  route_get up map method path = Some (op_security op).
Proof.
  intros (paths & Hp & Hin & Huniq). unfold from_spec. rewrite Hp. simpl.
  intros [= <-]. unfold route_get. rewrite path_fold. by apply fold_insert_lookup.
Qed.

(** The requirements of an operation whose [security] array lists at least one
    alternative, each naming at least one scheme. *)
Definition secured_op (op : Value) : Prop :=
  ∃ alts, jget "security" op = Some (Array alts) ∧ alts ≠ [] ∧
    Forall (λ a, ∃ e m, a = Object (e :: m)) alts.

Lemma secured_not_public op : secured_op op → is_public (op_security op) = false.
Proof.
  intros (alts & Hs & Hne & Hall). unfold is_public, op_security. rewrite Hs. simpl.
  unfold parse_security_array.
  destruct Hall as [|a alts (e & m & ->) Hall]; [done|]. simpl.
  clear Hs Hne. induction Hall as [|a alts (e' & m' & ->) _ IH]; simpl; [done|]. apply IH.
Qed.

(** ** Base64 *)

(** The encoder of RFC 4648, one three-byte group at a time. *)
Definition b64_char (v : Z) : Z := nth (Z.to_nat v) b64_alphabet 61.
Fixpoint b64_encode (l : list Z) : list Z :=
  match l with
  | [] => []
  | [x] => [b64_char (x / 4); b64_char (x mod 4 * 16); 61; 61]
  | [x; y] => [b64_char (x / 4); b64_char (x mod 4 * 16 + y / 16);
               b64_char (y mod 16 * 4); 61]
  | x :: y :: z :: l' =>
      b64_char (x / 4) :: b64_char (x mod 4 * 16 + y / 16) ::
      b64_char (y mod 16 * 4 + z / 64) :: b64_char (z mod 64) :: b64_encode l'
  end.

(** Every digit of the alphabet is read back, and none is skipped or padding. *)
Definition digit_ok (v : Z) : bool :=
  let b := b64_char v in
  negb ((b =? 10) || (b =? 13) || (b =? 32)) && negb (b =? 61) && (b64_table b =? v).

Lemma digit_ok_all : forallb digit_ok (Z.of_nat <$> seq 0 64) = true.
Proof. vm_compute. reflexivity. Qed.

Lemma digit_ok_range v : 0 ≤ v < 64 → digit_ok v = true.
Proof.
  intros Hv. pose proof (proj1 (forallb_forall _ _) digit_ok_all v) as H. apply H.
  apply list_elem_of_In, list_elem_of_fmap. exists (Z.to_nat v). rewrite elem_of_seq. lia.
Qed.

Lemma b64_step_digit st v :
  0 ≤ v < 64 →
  b64_step st (b64_char v) =
  match b64_buf st ++ [v] with
  | [v0; v1; v2; v3] =>
      let triple := Z.lor (Z.lor (Z.lor (Z.shiftl v0 18) (Z.shiftl v1 12)) (Z.shiftl v2 6)) v3 in
      let out := b64_out st ++ [Z.land (Z.shiftr triple 16) 255] in
      let out := if b64_pad st <? 2 then out ++ [Z.land (Z.shiftr triple 8) 255] else out in
      let out := if b64_pad st <? 1 then out ++ [Z.land triple 255] else out in
      Some (mkB64 out [] 0)
  | buf => Some (mkB64 (b64_out st) buf (b64_pad st))
  end.
Proof.
  intros Hv. pose proof (digit_ok_range v Hv) as H. unfold digit_ok in H. boolp.
  destruct H as [[H1 H2] H3]. apply Z.eqb_eq in H3. unfold b64_step.
  assert ((b64_char v =? 10) || (b64_char v =? 13) || (b64_char v =? 32) = false) as -> by
    (destruct H1 as [[-> ->] ->]; done).
  rewrite H3, H2. destruct (Z.ltb_spec v 0); [lia|done].
Qed.

Lemma b64_step_pad out buf pad :
  b64_step (mkB64 out buf pad) 61 =
  match buf ++ [0] with
  | [v0; v1; v2; v3] =>
      let triple := Z.lor (Z.lor (Z.lor (Z.shiftl v0 18) (Z.shiftl v1 12)) (Z.shiftl v2 6)) v3 in
      let out := out ++ [Z.land (Z.shiftr triple 16) 255] in
      let out := if pad + 1 <? 2 then out ++ [Z.land (Z.shiftr triple 8) 255] else out in
      let out := if pad + 1 <? 1 then out ++ [Z.land triple 255] else out in
      Some (mkB64 out [] 0)
  | buf => Some (mkB64 out buf (pad + 1))
  end.
Proof. reflexivity. Qed.

(** The 24-bit word of four digits, as a sum. *)
Lemma triple_sum v0 v1 v2 v3 :
  0 ≤ v0 < 64 → 0 ≤ v1 < 64 → 0 ≤ v2 < 64 → 0 ≤ v3 < 64 →
  Z.lor (Z.lor (Z.lor (Z.shiftl v0 18) (Z.shiftl v1 12)) (Z.shiftl v2 6)) v3 =
  v0 * 262144 + v1 * 4096 + v2 * 64 + v3.
Proof.
  intros H0 H1 H2 H3. rewrite !Z.shiftl_mul_pow2 by lia.
  change (2 ^ 18) with 262144. change (2 ^ 12) with 4096. change (2 ^ 6) with 64.
  rewrite (lor_add 18 (v0 * 262144)); [|lia| |lia].
  2:{ change (2 ^ 18) with 262144. apply Z.mod_mul. lia. }
  rewrite (lor_add 12 (v0 * 262144 + v1 * 4096)); [|lia| |lia].
  2:{ change (2 ^ 12) with 4096. apply Z.mod_divide; [lia|]. exists (v0 * 64 + v1). lia. }
  rewrite (lor_add 6); [done|lia| |lia].
  change (2 ^ 6) with 64. apply Z.mod_divide; [lia|]. exists (v0 * 4096 + v1 * 64 + v2). lia.
Qed.

Lemma byte_at x k : 0 ≤ k → Z.land (Z.shiftr x k) 255 = (x / 2 ^ k) mod 256.
Proof.
  intros Hk. change 255 with (Z.ones 8). rewrite Z.land_ones by lia.
  by rewrite Z.shiftr_div_pow2 by lia.
Qed.

Lemma byte_at_0 x : Z.land x 255 = x mod 256.
Proof. change 255 with (Z.ones 8). by rewrite Z.land_ones by lia. Qed.

Definition b64_run (st : b64_state) (l : list Z) : option b64_state :=
  foldl (λ acc b, st ← acc; b64_step st b) (Some st) l.

Lemma b64_run_cons st b l st' : b64_step st b = Some st' → b64_run st (b :: l) = b64_run st' l.
Proof. intros H. unfold b64_run. simpl. by rewrite H. Qed.

Ltac b64_digits :=
  repeat (erewrite b64_run_cons;
    [|rewrite b64_step_digit by (Z.to_euclidean_division_equations; lia); reflexivity]).

Lemma b64_group3 out x y z l :
  in_u 8 x → in_u 8 y → in_u 8 z →
  b64_run (mkB64 out [] 0)
    (b64_char (x / 4) :: b64_char (x mod 4 * 16 + y / 16) ::
     b64_char (y mod 16 * 4 + z / 64) :: b64_char (z mod 64) :: l) =
  b64_run (mkB64 (out ++ [x; y; z]) [] 0) l.
Proof.
  unfold in_u. change (2 ^ 8) with 256. intros Hx Hy Hz. b64_digits.
  rewrite triple_sum by (Z.to_euclidean_division_equations; lia).
  simpl. rewrite !byte_at, byte_at_0 by lia. simpl. rewrite <- !app_assoc. simpl.
  change (2 ^ 16) with 65536. change (2 ^ 8) with 256.
  f_equal. f_equal. f_equal. f_equal; [|f_equal; [|f_equal]];
    Z.to_euclidean_division_equations; lia.
Qed.

Lemma b64_group2 out x y :
  in_u 8 x → in_u 8 y →
  b64_run (mkB64 out [] 0)
    [b64_char (x / 4); b64_char (x mod 4 * 16 + y / 16); b64_char (y mod 16 * 4); 61] =
  Some (mkB64 (out ++ [x; y]) [] 0).
Proof.
  unfold in_u. change (2 ^ 8) with 256. intros Hx Hy. b64_digits.
  erewrite b64_run_cons; [|rewrite b64_step_pad; reflexivity].
  rewrite triple_sum by (Z.to_euclidean_division_equations; lia).
  simpl. rewrite !byte_at by lia. rewrite <- !app_assoc. simpl.
  change (2 ^ 16) with 65536. change (2 ^ 8) with 256. unfold b64_run. simpl.
  f_equal. f_equal. f_equal. f_equal; [|f_equal]; Z.to_euclidean_division_equations; lia.
Qed.

Lemma b64_group1 out x :
  in_u 8 x →
  b64_run (mkB64 out [] 0) [b64_char (x / 4); b64_char (x mod 4 * 16); 61; 61] =
  Some (mkB64 (out ++ [x]) [] 0).
Proof.
  unfold in_u. change (2 ^ 8) with 256. intros Hx. b64_digits.
  do 2 (erewrite b64_run_cons; [|rewrite b64_step_pad; reflexivity]).
  rewrite triple_sum by (Z.to_euclidean_division_equations; lia).
  simpl. rewrite !byte_at by lia.
  change (2 ^ 16) with 65536. unfold b64_run. simpl.
  f_equal. f_equal. f_equal. f_equal; Z.to_euclidean_division_equations; lia.
Qed.

Lemma b64_run_encode n l out :
  (length l ≤ n)%nat → Forall (in_u 8) l →
  b64_run (mkB64 out [] 0) (b64_encode l) = Some (mkB64 (out ++ l) [] 0).
Proof.
  revert l out. induction n as [|n IH]; intros l out Hn Hl.
  { destruct l; [|simpl in Hn; lia]. unfold b64_run. simpl. by rewrite app_nil_r. }
  destruct l as [|x [|y [|z l]]]; cbn [b64_encode].
  - unfold b64_run. simpl. by rewrite app_nil_r.
  - apply Forall_cons in Hl as [Hx _]. by apply b64_group1.
  - apply Forall_cons in Hl as [Hx [Hy _]%Forall_cons]. by apply b64_group2.
  - apply Forall_cons in Hl as [Hx [Hy [Hz Hl]%Forall_cons]%Forall_cons].
    rewrite b64_group3 by done. rewrite IH; [|simpl in Hn; lia|done].
    by rewrite <- app_assoc.
Qed.

(** What the policy accepts, said without the parsers. *)
Definition bearer_header (h token : string) : Prop := h = "Bearer " +:+ token.
Definition accepts (policy : AuthPolicy) (h : string) : Prop :=
  match policy with
  | Open => False
  | Bearer token => bearer_header h token
  | Basic u p => basic_header h u p
  | Any bearer basic =>
      (∃ t, bearer = Some t ∧ bearer_header h t) ∨
      (∃ u p, basic = Some (u, p) ∧ basic_header h u p)
  end.

Lemma basic_not_bearer h u p t : basic_header h u p → bearer_header h t → False.
Proof. intros (pl & bs & -> & _). discriminate. Qed.

Lemma basic_outcome h u p :
  match Basic_parse h with
  | Ok c => if Basic_matches c u p then Authenticated else BadCredentials
  | Err _ => BadScheme
  end = Authenticated ↔ basic_header h u p.
Proof.
  destruct (Basic_parse h) as [c|e] eqn:Hp.
  - apply Basic_parse_Ok in Hp as Hh. destruct (Basic_matches c u p) eqn:Hm.
    + apply Basic_matches_spec in Hm as [<- <-]. done.
    + split; [done|]. intros H. change u with (username (mkBasic u p)) in H.
      change p with (password (mkBasic u p)) in H at 2. apply Basic_parse_Ok in H.
      assert (c = mkBasic u p) as -> by congruence.
      exfalso. apply not_true_iff_false in Hm. by apply Hm, Basic_matches_spec.
  - split; [done|]. intros H. change u with (username (mkBasic u p)) in H.
    change p with (password (mkBasic u p)) in H at 2. apply Basic_parse_Ok in H. congruence.
Qed.

Lemma check_spec (policy : AuthPolicy) (h : string) :
  (check policy (Some h) = Authenticated ↔ accepts policy h) ∧
  check policy None ≠ Authenticated.
Proof.
  split; [|by destruct policy].
  assert (∀ t, match Bearer_parse h with
               | Ok b => if Bearer_matches b t then Authenticated else BadCredentials
               | Err _ => BadScheme end = Authenticated ↔ bearer_header h t) as Hbearer.
  { intros t. unfold bearer_header. destruct (Bearer_parse h) as [b|e] eqn:Hp.
    - apply Bearer_parse_Ok in Hp as Hh. destruct (Bearer_matches b t) eqn:Hm.
      + apply Bearer_matches_spec in Hm as <-. done.
      + split; [done|]. intros Ht. apply not_true_iff_false in Hm.
        destruct Hm. apply Bearer_matches_spec. rewrite Hh in Ht. by apply (inj _) in Ht.
    - split; [done|]. intros Ht. change t with (raw (mkBearerToken t)) in Ht.
      apply Bearer_parse_Ok in Ht. congruence. }
  destruct policy as [|t|u p|bearer basic]; simpl; [done|apply Hbearer|apply basic_outcome|].
  destruct bearer as [t|], basic as [[u p]|]; simpl.
  - specialize (Hbearer t). pose proof (basic_outcome h u p) as Hbasic.
    destruct (Bearer_parse h) as [b|e] eqn:Hp.
    + rewrite Hbearer. split; [eauto|]. intros [(t' & [= <-] & H)|(u' & p' & [= <- <-] & H)]; [done|].
      exfalso. apply Bearer_parse_Ok in Hp. by eapply basic_not_bearer.
    + rewrite Hbasic. split; [eauto 6|].
      intros [(t' & [= <-] & H)|(u' & p' & [= <- <-] & H)]; [|done]. by apply Hbearer in H.
  - specialize (Hbearer t). destruct (Bearer_parse h).
    + rewrite Hbearer. split; [eauto|]. by intros [(t' & [= <-] & H)|(u' & p' & [=] & H)].
    + split; [done|]. intros [(t' & [= <-] & H)|(u' & p' & [=] & H)]. by apply Hbearer in H.
  - rewrite basic_outcome. split; [eauto 6|].
    by intros [(t' & [=] & H)|(u' & p' & [= <- <-] & H)].
  - split; [done|]. by intros [(t' & [=] & H)|(u' & p' & [=] & H)].
Qed.

Lemma check_open pol h : check pol h = OOpen ↔ pol = Open.
Proof.
  split; [|by intros ->]. destruct pol as [|t|u p|bearer basic]; simpl; [done|..];
    destruct h as [h|]; try done.
  - by destruct (Bearer_parse h); [destruct (Bearer_matches _ _)|].
  - by destruct (Basic_parse h); [destruct (Basic_matches _ _ _)|].
  - by destruct bearer, basic as [[]|]; try destruct (Bearer_parse h); try destruct (Basic_parse h);
      try destruct (Bearer_matches _ _); try destruct (Basic_matches _ _ _).
Qed.

(** ** Properties *)

(** A request is authenticated exactly when its [Authorization] header is
    one the policy accepts: [Bearer ] followed by the expected token, or
    [Basic ] followed by a payload that decodes to the UTF-8 text
    [user:password] of the expected pair; no header never authenticates. *)
Theorem check_authenticated (policy : AuthPolicy) (h : string) :
  (check policy (Some h) = Authenticated ↔ accepts policy h) ∧
  check policy None ≠ Authenticated.
Proof. apply check_spec. Qed.

(** Decoding the standard base64 encoding of any byte string gives that
    byte string back. *)
Theorem b64_roundtrip (l : list Z) : Forall (in_u 8) l → b64_decode (b64_encode l) = Some l.
Proof.
  intros Hl. pose proof (b64_run_encode (length l) l [] (le_n _) Hl) as H.
  unfold b64_decode. unfold b64_run in H. by rewrite H.
Qed.

Lemma b64_roundtrip_witness :
  b64_decode (b64_encode (bytes_of "aladdin:sesam")) = Some (bytes_of "aladdin:sesam").
Proof. apply b64_roundtrip. by repeat constructor. Defined.

(** Under the map read from an OpenAPI document, a request to an operation
    whose [security] lists alternatives that all name a scheme reaches the
    handler exactly when the policy is open or its header is accepted;
    otherwise the answer is 401. *)
Theorem enforce_guards_secured_routes (up : string → string) (spec : Value)
    (map : RouteSecurityMap) (pol : AuthPolicy) (method path : string) (op : Value)
    (header : option string) :
  from_spec up spec = Ok map → declares up spec method path op → secured_op op →
  enforce up (mkAuthLayer map pol) (Some path) method header = Forwarded ↔
  pol = Open ∨ ∃ h, header = Some h ∧ accepts pol h.
Proof.
  intros Hmap Hdecl Hsec. unfold enforce. simpl.
  rewrite (from_spec_lookup _ _ _ _ _ _ Hdecl Hmap), secured_not_public by done.
  pose proof (check_open pol header) as Hopen.
  assert (check pol header = Authenticated ↔ ∃ h, header = Some h ∧ accepts pol h) as Hauth.
  { destruct header as [h|].
    - rewrite (proj1 (check_spec pol h)). split; [eauto|]. by intros (h' & [= <-] & H).
    - pose proof (proj2 (check_spec pol "")). split; [done|]. by intros (h & [=] & _). }
  rewrite <- Hopen, <- Hauth. destruct (check pol header); split; try done; auto;
    by intros [|].
Qed.

Definition demo_op : Value :=
  Object [("security", Array [Object [("Bearer", Array [])]])].
Definition demo_spec : Value :=
  Object [("paths", Object [("/jobs", Object [("post", demo_op); ("get", Object [])])])].

Lemma enforce_guards_secured_routes_witness :
  ∃ map, from_spec to_ascii_uppercase demo_spec = Ok map ∧
    (enforce to_ascii_uppercase (mkAuthLayer map (Bearer "s3cret")) (Some "/jobs") "POST"
       (Some "Bearer s3cret") = Forwarded ↔
     Bearer "s3cret" = Open ∨
     ∃ h, Some "Bearer s3cret" = Some h ∧ accepts (Bearer "s3cret") h).
Proof.
  eexists. split; [reflexivity|].
  apply (enforce_guards_secured_routes to_ascii_uppercase demo_spec _ (Bearer "s3cret")
    "POST" "/jobs" demo_op).
  - reflexivity.
  - eexists. split; [reflexivity|]. split.
    + vm_compute. by left.
    + intros s H. apply list_elem_of_In in H. vm_compute in H.
      destruct H as [[= <-]|[[=]|[]]]. reflexivity.
  - eexists. split; [reflexivity|]. split; [done|]. repeat constructor. by eexists _, _.
Defined.
