(* ===== verification/ProcessGraph.v ===== *)
(** * Process graphs: crates/eo-process/src/graph.rs and
    apps/orbit-openeo/src/process_graph.rs

    petgraph is a third-party crate: its graph is a vector of node weights and
    a vector of edges, and its algorithms are the operations of the class
    [Petgraph], with their documented behaviour as laws.  [Kahn] below is a
    concrete instance. *)

From Stdlib Require Import Sorted.
From S2P Require Import Prelude BTree F64 Json.
Local Open Scope Z_scope.

(** ** eo-process: graph.rs *)

Notation ProcessId := string.

Record Process := mkProcess {
  process_id : ProcessId;
  arguments : btree string Value;
  p_result : option bool }.

Record ProcessGraph := mkProcessGraph { nodes : btree string Process }.

Definition is_result (p : Process) : bool := bool_decide (p_result p = Some true).

(** The loop of [result_node]: the inner [None] is its early return. *)
Fixpoint result_node_loop (l : btree string Process) (found : option (string * Process))
    : option (string * Process) :=
  match l with
  | [] => found
  | (id, node) :: l' =>
      if is_result node then
        match found with Some _ => None | None => result_node_loop l' (Some (id, node)) end
      else result_node_loop l' found
  end.
Definition result_node (pg : ProcessGraph) : option (string * Process) :=
  result_node_loop (nodes pg) None.

(** ** petgraph *)

Record DiGraph := mkDiGraph { g_nodes : list string; g_edges : list (nat * nat) }.

Definition DiGraph_new : DiGraph := mkDiGraph [] [].
Definition add_node (w : string) (g : DiGraph) : nat * DiGraph :=
  (length (g_nodes g), mkDiGraph (g_nodes g ++ [w]) (g_edges g)).
Definition add_edge (a b : nat) (g : DiGraph) : DiGraph :=
  mkDiGraph (g_nodes g) (g_edges g ++ [(a, b)]).

Definition edge (g : DiGraph) (a b : nat) : Prop := (a, b) ∈ g_edges g.
Definition graph_wf (g : DiGraph) : Prop :=
  ∀ a b, edge g a b → (a < length (g_nodes g) ∧ b < length (g_nodes g))%nat.
Definition acyclic (g : DiGraph) : Prop := ∀ n, ¬ tc (edge g) n n.

(** [a] occurs before [b]. *)
Definition before {A} (l : list A) (a b : A) : Prop :=
  ∃ i j, (i < j)%nat ∧ l !! i = Some a ∧ l !! j = Some b.
Definition topological (g : DiGraph) (l : list nat) : Prop :=
  Permutation l (seq 0 (length (g_nodes g))) ∧ ∀ a b, edge g a b → before l a b.

Class Petgraph := {
  is_cyclic_directed : DiGraph → bool;
  toposort : DiGraph → option (list nat) }.

Class PetgraphLaws `{Petgraph} : Prop := {
  is_cyclic_spec g : graph_wf g → is_cyclic_directed g = false ↔ acyclic g;
  toposort_spec g : graph_wf g → acyclic g → ∃ l, toposort g = Some l ∧ topological g l }.

(** ** process_graph.rs *)

Definition MAX_SUBGRAPH_DEPTH : Z := 64.

Inductive GraphError :=
| Cycle (n : string)
| UnknownNodeReference (n : string)
| AmbiguousResult (n : nat)
| DepthExceeded (limit : Z).

Definition graph_error_text (e : GraphError) : string :=
  match e with
  | Cycle n => "process graph contains a cycle through node `" +:+ n +:+ "`"
  | UnknownNodeReference n => "unknown node `" +:+ n +:+ "` referenced as `from_node`"
  | AmbiguousResult n =>
      "expected exactly one result-marked node (got " +:+ pretty n +:+ ")"
  | DepthExceeded limit =>
      "process graph argument nesting exceeded depth limit (" +:+ pretty (Z.to_N limit) +:+ ")"
  end.

Section collect.
Context {St : Type} (visit : string → St → result GraphError St).

Fixpoint collect_in_value_inner (v : Value) (depth : Z) (s : St) : result GraphError St :=
  if MAX_SUBGRAPH_DEPTH <? depth then Err (DepthExceeded MAX_SUBGRAPH_DEPTH)
  else
    match v with
    | Object obj =>
        match assoc_get "from_node" obj with
        | Some (JString src) => visit src s
        | _ =>
            match assoc_get "process_graph" obj with
            | Some _ => Ok s
            | None =>
                (fix go (m : list (string * Value)) (s : St) :=
                   match m with
                   | [] => Ok s
                   | (_, inner) :: m' =>
                       match collect_in_value_inner inner (depth + 1) s with
                       | Ok s => go m' s
                       | Err e => Err e
                       end
                   end) obj s
            end
        end
    | Array arr =>
        (fix go (l : list Value) (s : St) :=
           match l with
           | [] => Ok s
           | inner :: l' =>
               match collect_in_value_inner inner (depth + 1) s with
               | Ok s => go l' s
               | Err e => Err e
               end
           end) arr s
    | _ => Ok s
    end.

Definition collect_in_value (v : Value) (s : St) : result GraphError St :=
  collect_in_value_inner v 0 s.

Fixpoint collect_from_node_refs (args : btree string Value) (s : St) : result GraphError St :=
  match args with
  | [] => Ok s
  | (_, v) :: args' => s ← collect_in_value v s; collect_from_node_refs args' s
  end.
End collect.

Record ProcessGraphAnalysis := mkAnalysis {
  graph : DiGraph;
  idx : gmap string nat;
  by_index : gmap nat string;
  result_id : string }.

(** Pass 1: one iteration. *)
Definition add_process (acc : DiGraph * gmap string nat * gmap nat string)
    (e : string * Process) : DiGraph * gmap string nat * gmap nat string :=
  let '(g, idx, by_index) := acc in
  let '(n, g) := add_node (process_id e.2) g in
  (g, <[e.1 := n]> idx, <[n := e.1]> by_index).

(** The closure passed to the walker for the node at [dst_idx]. *)
Definition visit_edge (idx : gmap string nat) (dst_idx : nat) (src_id : string) (g : DiGraph)
    : result GraphError DiGraph :=
  src_idx ← ok_or (idx !! src_id) (UnknownNodeReference src_id);
  Ok (add_edge src_idx dst_idx g).

(** Pass 2.  Every key of the map has been indexed by pass 1, so the default
    of [idx[dst_id]] is never used. *)
Fixpoint add_edges (idx : gmap string nat) (l : btree string Process) (g : DiGraph)
    : result GraphError DiGraph :=
  match l with
  | [] => Ok g
  | (dst_id, node) :: l' =>
      let dst_idx := default 0%nat (idx !! dst_id) in
      g ← collect_from_node_refs (visit_edge idx dst_idx) (arguments node) g;
      add_edges idx l' g
  end.

Section analysis.
Context `{Petgraph}.

Definition build (pg : ProcessGraph) : result GraphError ProcessGraphAnalysis :=
  let '(g, idx, by_index) := foldl add_process (DiGraph_new, ∅, ∅) (nodes pg) in
  g ← add_edges idx (nodes pg) g;
  if is_cyclic_directed g then
    Err (Cycle (default "<unknown>" (head ((nodes pg).*1))))
  else
    let result_nodes := (filter (λ e, is_result e.2 = true) (nodes pg)).*1 in
    match result_nodes with
    | [result_id] => Ok (mkAnalysis g idx by_index result_id)
    | _ => Err (AmbiguousResult (length result_nodes))
    end.

(** [None] is the panic of indexing [by_index] with an unknown node. *)
Definition evaluation_order (a : ProcessGraphAnalysis) : option (list string) :=
  mapM (λ n, by_index a !! n) (default [] (toposort (graph a))).

Definition node_count (a : ProcessGraphAnalysis) : nat := length (g_nodes (graph a)).
Definition edge_count (a : ProcessGraphAnalysis) : nat := length (g_edges (graph a)).
End analysis.

(** [walk] of [collect_process_ids], the output set threaded through. *)
Fixpoint walk_ids (v : Value) (depth : Z) (out : btree string unit) : btree string unit :=
  if MAX_SUBGRAPH_DEPTH <? depth then out
  else
    match v with
    | Object map =>
        let out :=
          match assoc_get "process_id" map with
          | Some (JString pid) => bt_insert pid () out
          | _ => out
          end in
        match assoc_get "process_graph" map with
        | Some _ => out
        | None =>
            (fix go (m : list (string * Value)) (out : btree string unit) :=
               match m with
               | [] => out
               | (_, inner) :: m' => go m' (walk_ids inner (depth + 1) out)
               end) map out
        end
    | Array arr =>
        (fix go (l : list Value) (out : btree string unit) :=
           match l with
           | [] => out
           | inner :: l' => go l' (walk_ids inner (depth + 1) out)
           end) arr out
    | _ => out
    end.

Definition submission_graph (body : Value) : Value :=
  match jget "process" body ≫= jget "process_graph" with
  | Some pg => pg
  | None => default body (jget "process_graph" body)
  end.

Definition collect_process_ids (body : Value) : btree string unit :=
  walk_ids (submission_graph body) 0 [].

Definition unsupported_process_ids (body : Value) (known : list string) : list string :=
  filter (λ id, id ∉ known) (collect_process_ids body).*1.

(** ** The walk as a list of events *)

(** What the walker meets, in order: a reference, or the depth limit. *)
Fixpoint walk_refs (v : Value) (depth : Z) : list (result GraphError string) :=
  if MAX_SUBGRAPH_DEPTH <? depth then [Err (DepthExceeded MAX_SUBGRAPH_DEPTH)]
  else
    match v with
    | Object obj =>
        match assoc_get "from_node" obj with
        | Some (JString src) => [Ok src]
        | _ =>
            match assoc_get "process_graph" obj with
            | Some _ => []
            | None => flat_map (λ e, walk_refs e.2 (depth + 1)) obj
            end
        end
    | Array arr => flat_map (λ v, walk_refs v (depth + 1)) arr
    | _ => []
    end.

Definition node_refs (p : Process) : list (result GraphError string) :=
  flat_map (λ e, walk_refs e.2 0) (arguments p).

Section events.
Context {St : Type} (visit : string → St → result GraphError St).

(** Handling the events one after the other, up to the first error. *)
Fixpoint run_events (evs : list (result GraphError string)) (s : St) : result GraphError St :=
  match evs with
  | [] => Ok s
  | Err e :: _ => Err e
  | Ok src :: evs' => match visit src s with Ok s => run_events evs' s | Err e => Err e end
  end.

Lemma run_events_app e1 e2 s :
  run_events (e1 ++ e2) s = match run_events e1 s with Ok s => run_events e2 s | Err e => Err e end.
Proof.
  revert s. induction e1 as [|[src|e] e1 IH]; intros s; simpl; [done| |done].
  destruct (visit src s); [apply IH|done].
Qed.

Lemma collect_walk v : ∀ depth s,
  collect_in_value_inner visit v depth s = run_events (walk_refs v depth) s.
Proof.
  induction v as [|b|n|str|l IH|m IH] using Value_ind'; intros depth s; simpl;
    destruct (MAX_SUBGRAPH_DEPTH <? depth); try done.
  - revert s. induction IH as [|v l Hv _ IHl]; intros s; [done|]. cbn [flat_map].
    rewrite run_events_app, <- Hv. by destruct (collect_in_value_inner _ v _ s).
  - assert (∀ t,
      (fix go (m : list (string * Value)) (s : St) :=
         match m with
         | [] => Ok s
         | (_, inner) :: m' =>
             match collect_in_value_inner visit inner (depth + 1) s with
             | Ok s => go m' s
             | Err e => Err e
             end
         end) m t = run_events (flat_map (λ e, walk_refs e.2 (depth + 1)) m) t) as Hgo.
    { clear s. induction IH as [|[k v] m Hv _ IHm]; intros t; [done|]. cbn [flat_map].
      rewrite run_events_app. cbn [snd] in *. rewrite <- Hv.
      by destruct (collect_in_value_inner _ v _ t). }
    rewrite Hgo. destruct (assoc_get "from_node" m) as [[]|]; simpl;
      try (by destruct (assoc_get "process_graph" m)).
    by destruct (visit _ s).
Qed.

Lemma collect_args args s :
  collect_from_node_refs visit args s = run_events (flat_map (λ e, walk_refs e.2 0) args) s.
Proof.
  revert s. induction args as [|[k v] args IH]; intros s; simpl; [done|].
  unfold collect_in_value. rewrite collect_walk, run_events_app.
  destruct (run_events _ s); simpl; [apply IH|done].
Qed.
End events.

(** ** Pass 1 *)

Lemma list_lookup_app_last {A} (l : list A) (x : A) i y :
  (l ++ [x]) !! i = Some y ↔ l !! i = Some y ∨ (i = length l ∧ x = y).
Proof.
  rewrite lookup_app_Some, list_lookup_singleton_Some. split.
  - intros [?|(Hlen & Hi & ->)]; [by left|]. right. split; [lia|done].
  - intros [?|[-> ->]]; [by left|]. right. split; [lia|]. split; [lia|done].
Qed.

Lemma pass1_spec l :
  NoDup l.*1 →
  let '(g, ix, bi) := foldl add_process (DiGraph_new, ∅, ∅) l in
  g = mkDiGraph ((λ e, process_id e.2) <$> l) [] ∧
  (∀ id i, ix !! id = Some i ↔ l.*1 !! i = Some id) ∧
  (∀ i, bi !! i = l.*1 !! i).
Proof.
  induction l as [|e l IH] using rev_ind; intros Hnd.
  - simpl. repeat split; intros; by rewrite ?lookup_empty in *.
  - rewrite foldl_app. simpl. rewrite fmap_app, NoDup_app in Hnd.
    destruct Hnd as (Hnd & Hfresh & _). specialize (IH Hnd).
    destruct (foldl _ _ l) as [[g ix] bi]. destruct IH as (-> & Hix & Hbi).
    assert (e.1 ∉ l.*1) as Hnew. { intros H. by apply (Hfresh _ H), list_elem_of_singleton. }
    unfold add_process, add_node. simpl. rewrite !fmap_app, length_fmap. simpl.
    split; [done|]. split.
    + intros id i. rewrite list_lookup_app_last, length_fmap, <- Hix.
      destruct (decide (e.1 = id)) as [<-|Hne].
      * rewrite lookup_insert_eq. split; [intros [= <-]; by right|].
        intros [H|[-> _]]; [|done]. apply Hix, list_elem_of_lookup_2 in H. done.
      * rewrite lookup_insert_ne by done. split; [by left|]. by intros [?|[_ ?]].
    + intros i. destruct (decide (i = length l)) as [->|Hne].
      * rewrite lookup_insert_eq, lookup_app_r; rewrite length_fmap; [|done].
        by rewrite Nat.sub_diag.
      * rewrite lookup_insert_ne by done. rewrite Hbi.
        destruct (decide (i < length l)%nat).
        -- by rewrite lookup_app_l by (rewrite length_fmap; lia).
        -- rewrite !(lookup_ge_None_2 _ i); [done|..];
             rewrite ?length_app, length_fmap; simpl; lia.
Qed.

(** ** Pass 2 *)

(** An event succeeds when it is a reference to a known node. *)
Definition event_ok (ids : list string) (e : result GraphError string) : Prop :=
  match e with Ok src => src ∈ ids | Err _ => False end.

(** The error an event stops the walk with. *)
Definition event_error (ids : list string) (e : result GraphError string) : option GraphError :=
  match e with
  | Ok src => if decide (src ∈ ids) then None else Some (UnknownNodeReference src)
  | Err e => Some e
  end.

Definition all_events (l : btree string Process) : list (string * result GraphError string) :=
  flat_map (λ e, (λ r, (e.1, r)) <$> node_refs e.2) l.

Definition first_error (ids : list string) (evs : list (string * result GraphError string))
    : option GraphError := head (omap (λ e, event_error ids e.2) evs).

Section pass2.
Context (ids : list string) (ix : gmap string nat).
Hypothesis Hix : ∀ id i, ix !! id = Some i ↔ ids !! i = Some id.

Lemma ix_dom id : id ∈ ids ↔ is_Some (ix !! id).
Proof.
  rewrite list_elem_of_lookup. split; intros [i Hi]; exists i; by apply Hix.
Qed.

(** The edges a list of references adds. *)
Definition ref_edges (evs : list (string * result GraphError string)) : list (nat * nat) :=
  omap (λ e, match e.2 with
             | Ok src => i ← ix !! src; j ← ix !! e.1; Some (i, j)
             | Err _ => None end) evs.

Lemma run_visit_edge dst j evs g :
  ix !! dst = Some j →
  run_events (visit_edge ix j) evs g =
  match first_error ids ((λ r, (dst, r)) <$> evs) with
  | Some e => Err e
  | None => Ok (mkDiGraph (g_nodes g) (g_edges g ++ ref_edges ((λ r, (dst, r)) <$> evs)))
  end.
Proof.
  intros Hj. unfold first_error. revert g. induction evs as [|[src|e] evs IH]; intros g; simpl.
  - rewrite app_nil_r. by destruct g.
  - unfold visit_edge at 1. simpl. destruct (decide (src ∈ ids)) as [Hin|Hin]; simpl.
    + apply ix_dom in Hin as [i Hi]. rewrite Hi. simpl. rewrite IH. simpl. rewrite Hj. simpl.
      destruct (head _); [done|]. by rewrite <- app_assoc.
    + rewrite ix_dom, <- eq_None_not_Some in Hin. by rewrite Hin.
  - done.
Qed.

Lemma add_edges_spec l g :
  (∀ e, e ∈ l → e.1 ∈ ids) →
  add_edges ix l g =
  match first_error ids (all_events l) with
  | Some e => Err e
  | None => Ok (mkDiGraph (g_nodes g) (g_edges g ++ ref_edges (all_events l)))
  end.
Proof.
  revert g. induction l as [|[dst node] l IH]; intros g Hl; simpl.
  - rewrite app_nil_r. by destruct g.
  - assert (dst ∈ ids) as [j Hj]%ix_dom by (apply (Hl (dst, node)); by left).
    rewrite Hj. simpl. rewrite collect_args, (run_visit_edge dst j) by done.
    unfold first_error, ref_edges. rewrite !omap_app. fold (node_refs node).
    destruct (omap _ ((λ r, (dst, r)) <$> node_refs node)) as [|e l'] eqn:E; simpl.
    + rewrite IH by (intros; apply Hl; by right). unfold first_error.
      destruct (head _); [done|]. simpl. by rewrite <- app_assoc.
    + done.
Qed.
End pass2.

Lemma first_error_None ids evs :
  first_error ids evs = None ↔ Forall (λ e, event_ok ids e.2) evs.
Proof.
  unfold first_error. induction evs as [|[dst [src|e]] evs IH]; simpl.
  - by rewrite Forall_nil.
  - rewrite Forall_cons. simpl. destruct (decide (src ∈ ids)); simpl; [tauto|].
    split; [done|]. by intros [].
  - rewrite Forall_cons. simpl. split; [done|]. by intros [].
Qed.

(** ** The graph the builder makes *)

(** The node [dst] refers to the node [src] outside any sub-process graph. *)
Definition depends (pg : ProcessGraph) (src dst : string) : Prop :=
  ∃ node, (dst, node) ∈ nodes pg ∧ Ok src ∈ node_refs node.

(** Every event of every node is a reference to a node of the graph. *)
Definition refs_ok (pg : ProcessGraph) : Prop :=
  ∀ dst node e, (dst, node) ∈ nodes pg → e ∈ node_refs node → event_ok (nodes pg).*1 e.

Definition result_ids (pg : ProcessGraph) : list string :=
  (filter (λ e, is_result e.2 = true) (nodes pg)).*1.

Lemma elem_of_all_events l dst r :
  (dst, r) ∈ all_events l ↔ ∃ node, (dst, node) ∈ l ∧ r ∈ node_refs node.
Proof.
  unfold all_events. rewrite list_elem_of_In, in_flat_map. split.
  - intros ([dst' node] & Hin & Hr). apply list_elem_of_In, list_elem_of_fmap in Hr.
    destruct Hr as (r' & [= -> ->] & Hr). exists node. by rewrite list_elem_of_In.
  - intros (node & Hin & Hr). exists (dst, node). rewrite <- list_elem_of_In. split; [done|].
    apply list_elem_of_In, list_elem_of_fmap. by exists r.
Qed.

Lemma refs_ok_events pg :
  refs_ok pg ↔ first_error (nodes pg).*1 (all_events (nodes pg)) = None.
Proof.
  rewrite first_error_None, Forall_forall. split.
  - intros H [dst r] (node & Hn & Hr)%elem_of_all_events. by eapply H.
  - intros H dst node e Hn He. apply (H (dst, e)), elem_of_all_events. by exists node.
Qed.

(** The state after both passes, for a graph whose references are all known. *)
Record built (pg : ProcessGraph) (g : DiGraph) (ix : gmap string nat) (bi : gmap nat string)
    : Prop := {
  b_nodes : g_nodes g = (λ e, process_id e.2) <$> nodes pg;
  b_ix id i : ix !! id = Some i ↔ (nodes pg).*1 !! i = Some id;
  b_bi i : bi !! i = (nodes pg).*1 !! i;
  b_edge i j : edge g i j ↔ ∃ src dst, (nodes pg).*1 !! i = Some src ∧
    (nodes pg).*1 !! j = Some dst ∧ depends pg src dst }.

Lemma passes_spec pg :
  NoDup (nodes pg).*1 →
  let '(g, ix, bi) := foldl add_process (DiGraph_new, ∅, ∅) (nodes pg) in
  match first_error (nodes pg).*1 (all_events (nodes pg)) with
  | Some e => add_edges ix (nodes pg) g = Err e
  | None => ∃ g', add_edges ix (nodes pg) g = Ok g' ∧ built pg g' ix bi
  end.
Proof.
  intros Hnd. pose proof (pass1_spec (nodes pg) Hnd) as H.
  destruct (foldl _ _ _) as [[g ix] bi]. destruct H as (-> & Hix & Hbi).
  rewrite (add_edges_spec (nodes pg).*1 ix Hix) by (intros e He; by apply list_elem_of_fmap_2).
  destruct (first_error _ _) eqn:Hf; [done|]. eexists. split; [done|]. split; simpl; try done.
  intros i j. unfold edge, ref_edges. simpl. rewrite list_elem_of_omap. split.
  - intros ([dst r] & Hin & He). apply elem_of_all_events in Hin as (node & Hn & Hr). simpl in He.
    destruct r as [src|]; [|done].
    destruct (ix !! src) as [i'|] eqn:Hi; [|done]. destruct (ix !! dst) as [j'|] eqn:Hj; [|done].
    simpl in He. injection He as -> ->. exists src, dst. rewrite <- !Hix. repeat split; [done..|].
    by exists node.
  - intros (src & dst & Hi & Hj & node & Hn & Hr). exists (dst, Ok src).
    split; [apply elem_of_all_events; by exists node|]. simpl.
    rewrite <- Hix in Hi, Hj. by rewrite Hi, Hj.
Qed.

Section built_facts.
Context (pg : ProcessGraph) (g : DiGraph) (ix : gmap string nat) (bi : gmap nat string).
Hypothesis Hnd : NoDup (nodes pg).*1.
Hypothesis Hb : built pg g ix bi.

Lemma built_length : length (g_nodes g) = length (nodes pg).*1.
Proof. by rewrite (b_nodes _ _ _ _ Hb), !length_fmap. Qed.

Lemma built_wf : graph_wf g.
Proof.
  intros a b (src & dst & Ha & Hb' & _)%(b_edge _ _ _ _ Hb).
  rewrite built_length. split; by eapply lookup_lt_Some.
Qed.

Lemma built_tc i j :
  tc (edge g) i j → ∃ a b, (nodes pg).*1 !! i = Some a ∧ (nodes pg).*1 !! j = Some b ∧
    tc (depends pg) a b.
Proof.
  induction 1 as [i j He|i k j He _ (k' & b & Hk & Hj & IH)].
  - apply (b_edge _ _ _ _ Hb) in He as (a & b & ? & ? & ?). exists a, b. by repeat (split || constructor).
  - apply (b_edge _ _ _ _ Hb) in He as (a & b' & Ha & Hb' & Hd). exists a, b.
    repeat (split; [done|]). eapply tc_l; [|exact IH]. congruence.
Qed.

Lemma depends_tc a b i j :
  refs_ok pg → tc (depends pg) a b →
  (nodes pg).*1 !! i = Some a → (nodes pg).*1 !! j = Some b → tc (edge g) i j.
Proof.
  intros Hok H. revert i. induction H as [a b Hd|a c b Hd _ IH]; intros i Hi Hj.
  - apply tc_once, (b_edge _ _ _ _ Hb). eauto.
  - destruct Hd as (node & Hn & Hr). apply (list_elem_of_fmap_2 fst) in Hn as Hc. simpl in Hc.
    apply list_elem_of_lookup in Hc as [k Hk]. eapply tc_l; [|by apply (IH k)].
    apply (b_edge _ _ _ _ Hb). exists a, c. repeat (split; [done|]). by exists node.
Qed.

Lemma tc_depends_dom a b : tc (depends pg) a b → b ∈ (nodes pg).*1.
Proof.
  induction 1 as [a b (node & Hn & _)|]; [|done]. by apply (list_elem_of_fmap_2 fst) in Hn.
Qed.

Lemma built_acyclic : refs_ok pg → acyclic g ↔ ∀ id, ¬ tc (depends pg) id id.
Proof.
  intros Hok. split.
  - intros Hac id Htc. pose proof (tc_depends_dom _ _ Htc) as [i Hi]%list_elem_of_lookup.
    apply (Hac i). by eapply depends_tc.
  - intros Hac n (a & b & Ha & Hb' & Htc)%built_tc. assert (a = b) as -> by congruence.
    by apply (Hac b).
Qed.
End built_facts.

Lemma before_fmap {A B} (f : A → B) l a b : before l a b → before (f <$> l) (f a) (f b).
Proof.
  intros (i & j & Hij & Hi & Hj). exists i, j. rewrite !list_lookup_fmap, Hi, Hj. done.
Qed.

Lemma mapM_lookup (ids : list string) (bi : gmap nat string) l :
  (∀ i, bi !! i = ids !! i) → (∀ i, i ∈ l → (i < length ids)%nat) →
  mapM (λ n, bi !! n) l = Some ((λ n, default "" (ids !! n)) <$> l).
Proof.
  intros Hbi. induction l as [|i l IH]; intros Hl; simpl; [done|]. rewrite Hbi.
  destruct (lookup_lt_is_Some_2 ids i) as [x Hx]; [apply Hl; by left|].
  rewrite Hx. simpl. rewrite IH; [done|]. intros j Hj. apply Hl. by right.
Qed.

Lemma fmap_lookup_seq (ids : list string) :
  (λ n, default "" (ids !! n)) <$> seq 0 (length ids) = ids.
Proof.
  apply list_eq. intros i. rewrite list_lookup_fmap.
  destruct (decide (i < length ids)%nat) as [H|H].
  - rewrite lookup_seq_lt by done. simpl. destruct (lookup_lt_is_Some_2 ids i H) as [x Hx].
    by rewrite Hx.
  - rewrite !lookup_ge_None_2; [done|lia|rewrite length_seq; lia].
Qed.

(** ** A concrete petgraph: Kahn's algorithm *)

Definition has_pred (g : DiGraph) (rem : list nat) (n : nat) : bool :=
  existsb (λ m, bool_decide ((m, n) ∈ g_edges g)) rem.

Fixpoint kahn (fuel : nat) (g : DiGraph) (rem : list nat) : option (list nat) :=
  match fuel with
  | O => match rem with [] => Some [] | _ => None end
  | S fuel =>
      match rem with
      | [] => Some []
      | _ =>
          n ← List.find (λ n, negb (has_pred g rem n)) rem;
          l ← kahn fuel g (filter (λ m, m ≠ n) rem);
          Some (n :: l)
      end
  end.

#[export] Instance Kahn : Petgraph := {
  toposort g := kahn (length (g_nodes g)) g (seq 0 (length (g_nodes g)));
  is_cyclic_directed g :=
    match kahn (length (g_nodes g)) g (seq 0 (length (g_nodes g))) with
    | Some _ => false | None => true end }.

Lemma has_pred_spec g rem n : has_pred g rem n = true ↔ ∃ m, m ∈ rem ∧ edge g m n.
Proof.
  unfold has_pred. rewrite existsb_exists.
  split; intros (m & Hm & He); exists m; rewrite list_elem_of_In in *;
    [by apply bool_decide_eq_true in He|by rewrite bool_decide_eq_true].
Qed.

(** A walk against the edges that never leaves [rem]. *)
Inductive back_path (g : DiGraph) (rem : list nat) : list nat → Prop :=
| back_one n : n ∈ rem → back_path g rem [n]
| back_cons m n l : m ∈ rem → edge g m n → back_path g rem (n :: l) → back_path g rem (m :: n :: l).

Lemma back_path_tc g rem m l n : back_path g rem (m :: l) → n ∈ l → tc (edge g) m n.
Proof.
  remember (m :: l) as p eqn:Hp. intros H. revert m l Hp n.
  induction H as [k Hk|k n' l' Hk He H IH]; intros m l [= <- <-] n Hn; [by apply elem_of_nil in Hn|].
  apply elem_of_cons in Hn as [->|Hn]; [by apply tc_once|].
  eapply tc_l; [exact He|]. by eapply IH.
Qed.

Lemma back_path_in g rem p : back_path g rem p → ∀ n, n ∈ p → n ∈ rem.
Proof.
  induction 1 as [n Hn|m n l Hm He H IH]; intros k Hk; apply elem_of_cons in Hk as [->|Hk];
    [done|by apply elem_of_nil in Hk|done|by apply IH].
Qed.

Lemma acyclic_no_back_path g rem p : acyclic g → back_path g rem p → NoDup p.
Proof.
  intros Hac H. induction H as [n Hn|m n l Hm He H IH]; [apply NoDup_singleton|].
  constructor; [|done]. intros Hin. apply (Hac m).
  eapply (back_path_tc g rem m (n :: l)); [|exact Hin]. by apply back_cons.
Qed.

Lemma all_pred_long_path g rem k :
  rem ≠ [] → (∀ n, n ∈ rem → has_pred g rem n = true) →
  ∃ p, back_path g rem p ∧ length p = S k.
Proof.
  intros Hne Hp. induction k as [|k (p & Hpath & Hlen)].
  - destruct rem as [|n rem]; [done|]. exists [n]. split; [constructor; by left|done].
  - destruct p as [|n p]; [done|]. assert (n ∈ rem) as Hn by (eapply back_path_in; [done|by left]).
    apply Hp, has_pred_spec in Hn as (m & Hm & He). exists (m :: n :: p).
    split; [by constructor|]. simpl in *. lia.
Qed.

Lemma kahn_find g rem :
  acyclic g → rem ≠ [] → ∃ n, List.find (λ n, negb (has_pred g rem n)) rem = Some n.
Proof.
  intros Hac Hne. destruct (List.find _ rem) as [n|] eqn:Hf; [by exists n|]. exfalso.
  destruct (all_pred_long_path g rem (length rem)) as (p & Hpath & Hlen); [done| |].
  { intros n Hn. pose proof (find_none _ _ Hf n) as H. rewrite <- list_elem_of_In in H.
    apply H, negb_false_iff in Hn. done. }
  pose proof (acyclic_no_back_path g rem p Hac Hpath) as Hnd.
  pose proof (submseteq_length _ _ (NoDup_submseteq p rem Hnd (back_path_in g rem p Hpath))).
  lia.
Qed.

Lemma kahn_sound fuel g : ∀ rem l,
  NoDup rem → kahn fuel g rem = Some l →
  Permutation l rem ∧ ∀ a b, a ∈ rem → b ∈ rem → edge g a b → before l a b.
Proof.
  induction fuel as [|fuel IH]; intros rem l Hnd Hk; simpl in Hk.
  { destruct rem; [|done]. injection Hk as <-. split; [done|]. by intros a b ?%elem_of_nil. }
  destruct rem as [|r rem0]; [injection Hk as <-; split; [done|]; by intros a b ?%elem_of_nil|].
  remember (r :: rem0) as rem. clear Heqrem r rem0.
  destruct (List.find _ rem) as [n|] eqn:Hf; [|done]. simpl in Hk.
  destruct (kahn fuel g _) as [l'|] eqn:Hk'; [|done]. simpl in Hk. injection Hk as <-.
  apply IH in Hk' as [Hperm Hbef]; [|by apply NoDup_filter].
  apply find_some_iff in Hf as [Hn Hpred]. apply negb_true_iff in Hpred.
  split.
  - rewrite Hperm. symmetry. apply NoDup_Permutation; [done| |].
    + constructor; [|by apply NoDup_filter]. by intros [? _]%list_elem_of_filter.
    + intros x. rewrite elem_of_cons, list_elem_of_filter. destruct (decide (x = n)); naive_solver.
  - intros a b Ha Hb He. destruct (decide (b = n)) as [->|Hbn].
    { exfalso. apply not_true_iff_false in Hpred. apply Hpred, has_pred_spec. by exists a. }
    assert (b ∈ l') as Hbl. { rewrite Hperm. by apply list_elem_of_filter. }
    destruct (decide (a = n)) as [->|Han].
    + apply list_elem_of_lookup in Hbl as [j Hj]. exists 0%nat, (S j). split; [lia|done].
    + destruct (Hbef a b) as (i & j & ? & ? & ?);
        [by apply list_elem_of_filter|by apply list_elem_of_filter|done|].
      exists (S i), (S j). split; [lia|done].
Qed.

Lemma kahn_total fuel g : ∀ rem,
  acyclic g → (length rem ≤ fuel)%nat → is_Some (kahn fuel g rem).
Proof.
  induction fuel as [|fuel IH]; intros rem Hac Hlen; simpl.
  { destruct rem; [done|simpl in Hlen; lia]. }
  destruct rem as [|r rem0]; [done|]. remember (r :: rem0) as rem.
  destruct (kahn_find g rem Hac) as [n Hn]; [by subst|]. rewrite Hn. simpl.
  destruct (IH (filter (λ m, m ≠ n) rem)) as [l ->]; [done| |done].
  apply find_some_iff in Hn as [Hn _].
  assert (length (filter (λ m, m ≠ n) rem) < length rem)%nat; [|lia].
  apply length_filter_lt with n; [done|]. by intros ?.
Qed.

Lemma before_trans {A} (l : list A) x y z :
  NoDup l → before l x y → before l y z → before l x z.
Proof.
  intros Hnd (i & j & ? & ? & Hj) (j' & k & ? & Hj' & ?).
  pose proof (NoDup_lookup _ _ _ _ Hnd Hj Hj') as ->. exists i, k. split; [lia|done].
Qed.

(** A list that respects a relation respects its transitive closure. *)
Lemma before_tc {A} (R : relation A) (l : list A) :
  NoDup l → (∀ x y, R x y → before l x y) → ∀ x y, tc R x y → before l x y.
Proof.
  intros Hnd HR. induction 1 as [x y Hxy|x y z Hxy _ IH]; [by apply HR|].
  eapply before_trans; [done|by apply HR|done].
Qed.

Lemma topological_acyclic g l : graph_wf g → topological g l → acyclic g.
Proof.
  intros Hwf [Hperm Hbef].
  assert (NoDup l) as Hnd by (rewrite Hperm; apply NoDup_seq).
  intros n (i & j & Hij & Hi & Hj)%(before_tc (edge g) l Hnd Hbef). pose proof (NoDup_lookup _ _ _ _ Hnd Hi Hj). lia.
Qed.

#[export] Instance Kahn_laws : PetgraphLaws.
Proof.
  split; intros g Hwf; simpl; set (n := length (g_nodes g)).
  - split.
    + destruct (kahn n g (seq 0 n)) as [l|] eqn:Hk; [|done]. intros _.
      apply kahn_sound in Hk as [Hperm Hbef]; [|apply NoDup_seq].
      apply (topological_acyclic g l Hwf). split; [done|]. intros a b He.
      destruct (Hwf a b He). apply Hbef; [apply elem_of_seq; lia..|done].
    + intros Hac. destruct (kahn_total n g (seq 0 n) Hac) as [l ->]; [by rewrite length_seq|done].
  - intros Hac. destruct (kahn_total n g (seq 0 n) Hac) as [l Hl]; [by rewrite length_seq|].
    exists l. split; [done|]. apply kahn_sound in Hl as [Hperm Hbef]; [|apply NoDup_seq].
    split; [done|]. intros a b He.
    destruct (Hwf a b He). apply Hbef; [apply elem_of_seq; lia..|done].
Qed.

(** ** Building, on every branch *)

Lemma build_outcome `{PetgraphLaws} (pg : ProcessGraph) :
  bt_wf (nodes pg) →
  match first_error (nodes pg).*1 (all_events (nodes pg)) with
  | Some e => build pg = Err e
  | None =>
      ∃ g ix bi, built pg g ix bi ∧
      if is_cyclic_directed g then build pg = Err (Cycle (default "<unknown>" (head (nodes pg).*1)))
      else match result_ids pg with
           | [id] => build pg = Ok (mkAnalysis g ix bi id)
           | l => build pg = Err (AmbiguousResult (length l))
           end
  end.
Proof.
  intros Hwf. pose proof (passes_spec pg (bt_wf_nodup _ Hwf)) as Hp.
  unfold build. destruct (foldl _ _ _) as [[g0 ix] bi]. fold (result_ids pg).
  destruct (first_error _ _) as [e|]; [by rewrite Hp|].
  destruct Hp as (g & -> & Hb). exists g, ix, bi. split; [done|]. simpl.
  destruct (is_cyclic_directed g); [done|]. by destruct (result_ids pg) as [|id [|]].
Qed.

Lemma build_Ok `{PetgraphLaws} (pg : ProcessGraph) a :
  bt_wf (nodes pg) → build pg = Ok a →
  refs_ok pg ∧ built pg (graph a) (idx a) (by_index a) ∧ acyclic (graph a) ∧
  result_ids pg = [result_id a].
Proof.
  intros Hwf Ha. pose proof (build_outcome pg Hwf) as Ho. rewrite refs_ok_events.
  destruct (first_error _ _); [congruence|]. destruct Ho as (g & ix & bi & Hb & Ho).
  destruct (is_cyclic_directed g) eqn:Hc; [congruence|].
  apply is_cyclic_spec in Hc; [|by eapply built_wf].
  destruct (result_ids pg) as [|id [|]]; try congruence. rewrite Ho in Ha. by injection Ha as <-.
Qed.

Lemma evaluation_order_total `{PetgraphLaws} (pg : ProcessGraph)
    (a : ProcessGraphAnalysis) :
  bt_wf (nodes pg) → build pg = Ok a →
  ∃ order, evaluation_order a = Some order ∧ Permutation order (nodes pg).*1 ∧
    ∀ src dst, depends pg src dst → before order src dst.
Proof.
  intros Hwf Ha. apply build_Ok in Ha as (Hok & Hb & Hac & _); [|done].
  destruct (toposort_spec (graph a)) as (l & Hl & Hperm & Hbef);
    [by eapply built_wf|done|].
  rewrite (built_length _ _ _ _ Hb) in Hperm.
  exists ((λ n, default "" ((nodes pg).*1 !! n)) <$> l).
  unfold evaluation_order. rewrite Hl. simpl. split; [|split].
  - apply mapM_lookup; [apply (b_bi _ _ _ _ Hb)|]. intros i. rewrite Hperm, elem_of_seq. lia.
  - rewrite Hperm. by rewrite fmap_lookup_seq.
  - intros src dst Hd. destruct Hd as (node & Hn & Hr).
    pose proof (Hok dst node (Ok src) Hn Hr) as Hs. simpl in Hs.
    apply (list_elem_of_fmap_2 fst) in Hn as Hdst. simpl in Hdst.
    apply list_elem_of_lookup in Hs as [i Hi]. apply list_elem_of_lookup in Hdst as [j Hj].
    assert (edge (graph a) i j) as He.
    { apply (b_edge _ _ _ _ Hb). exists src, dst. repeat (split; [done|]). by exists node. }
    apply Hbef, (before_fmap (λ n, default "" ((nodes pg).*1 !! n))) in He.
    by rewrite Hi, Hj in He.
Qed.

(** ** Sub-process graphs are opaque *)

(** Blank out the contents of every [process_graph] member. *)
Fixpoint erase (v : Value) : Value :=
  match v with
  | Object m =>
      Object ((fix go (m : list (string * Value)) :=
        match m with
        | [] => []
        | (k, v) :: m' =>
            (k, if bool_decide (k = "process_graph") then Null else erase v) :: go m'
        end) m)
  | Array l => Array (map erase l)
  | _ => v
  end.

Definition erase_members (m : list (string * Value)) : list (string * Value) :=
  map (λ e, (e.1, if bool_decide (e.1 = "process_graph") then Null else erase e.2)) m.

Lemma erase_object m : erase (Object m) = Object (erase_members m).
Proof. simpl. f_equal. induction m as [|[k v] m IH]; simpl; [done|]. by f_equal. Qed.

Lemma erase_get k m :
  k ≠ "process_graph" → assoc_get k (erase_members m) = erase <$> assoc_get k m.
Proof.
  intros Hk. induction m as [|[k' v] m IH]; simpl; [done|].
  destruct (bool_decide_reflect (k = k')) as [<-|]; [|done].
  by rewrite bool_decide_eq_false_2.
Qed.

Lemma erase_get_pg m :
  assoc_get "process_graph" (erase_members m) =
  match assoc_get "process_graph" m with Some _ => Some Null | None => None end.
Proof.
  induction m as [|[k v] m IH]; [done|]. cbn [erase_members map assoc_get fst].
  destruct (bool_decide_reflect ("process_graph" = k)) as [<-|Hne]; [done|]. apply IH.
Qed.

Lemma flat_map_erase {A} (f : Value → list A) m :
  assoc_get "process_graph" m = None → Forall (λ e, f (erase e.2) = f e.2) m →
  flat_map (λ e, f e.2) (erase_members m) = flat_map (λ e, f e.2) m.
Proof.
  intros Hn H. induction H as [|[k v] m Hv _ IH]; [done|].
  cbn [assoc_get] in Hn. destruct (bool_decide_reflect ("process_graph" = k)) as [|Hne]; [done|].
  cbn [erase_members map flat_map fst snd]. rewrite bool_decide_eq_false_2 by done.
  simpl in Hv. rewrite Hv. f_equal. by apply IH.
Qed.

Lemma walk_refs_erase v : ∀ depth, walk_refs (erase v) depth = walk_refs v depth.
Proof.
  induction v as [|b|n|str|l IH|m IH] using Value_ind'; intros depth; try done.
  - simpl. destruct (_ <? _); [done|]. induction IH as [|v l Hv _ IHl]; [done|].
    cbn [map flat_map]. by rewrite Hv, IHl.
  - rewrite erase_object. cbn [walk_refs]. destruct (_ <? _); [done|].
    rewrite erase_get, erase_get_pg by done.
    destruct (assoc_get "process_graph" m) as [pg|] eqn:Hpg.
    + destruct (assoc_get "from_node" m) as [[]|]; done.
    + rewrite (flat_map_erase (λ v, walk_refs v (depth + 1))); [|done|].
      * destruct (assoc_get "from_node" m) as [[]|]; done.
      * eapply Forall_impl; [exact IH|]. intros e He. apply He.
Qed.

Definition erase_process (p : Process) : Process :=
  mkProcess (process_id p) ((λ e, (e.1, erase e.2)) <$> arguments p) (p_result p).
Definition erase_graph (pg : ProcessGraph) : ProcessGraph :=
  mkProcessGraph ((λ e, (e.1, erase_process e.2)) <$> nodes pg).

Lemma collect_erase {St} (visit : string → St → result GraphError St) args s :
  collect_from_node_refs visit ((λ e, (e.1, erase e.2)) <$> args) s =
  collect_from_node_refs visit args s.
Proof.
  rewrite !collect_args. f_equal. induction args as [|e args IH]; [done|].
  cbn [fmap list_fmap flat_map snd]. by rewrite walk_refs_erase, IH.
Qed.

Lemma results_erase l :
  (filter (λ e, is_result e.2 = true) ((λ e, (e.1, erase_process e.2)) <$> l)).*1 =
  (filter (λ e : string * Process, is_result e.2 = true) l).*1.
Proof.
  induction l as [|[id p] l IH]; [done|]. rewrite fmap_cons, !filter_cons. cbn [fst snd].
  destruct (decide (is_result (erase_process p) = true)),
    (decide (is_result p = true)); try done;
    rewrite ?fmap_cons; cbn [fst]; rewrite ?IH; done.
Qed.

(** ** Properties *)

(** C17: [build] on every branch, for any node map: the first unknown reference
    or over-deep argument in map order is reported; otherwise a graph one of whose
    nodes depends on itself, directly or not, is rejected as cyclic; and otherwise
    the build succeeds exactly when one node is the result node. *)
Theorem build_correct `{PetgraphLaws} (pg : ProcessGraph) (Hwf : bt_wf (nodes pg)) :
  match first_error (nodes pg).*1 (all_events (nodes pg)) with
  | Some e => build pg = Err e
  | None =>
      ((∃ id, tc (depends pg) id id) → ∃ id, build pg = Err (Cycle id)) ∧
      ((∀ id, ¬ tc (depends pg) id id) →
         match result_ids pg with
         | [id] => ∃ a, build pg = Ok a ∧ result_id a = id ∧ node_count a = length (nodes pg)
         | l => build pg = Err (AmbiguousResult (length l))
         end)
  end.
Proof.
  pose proof (build_outcome pg Hwf) as Ho. pose proof (proj2 (refs_ok_events pg)) as Hok.
  destruct (first_error _ _); [done|]. specialize (Hok eq_refl).
  destruct Ho as (g & ix & bi & Hb & Ho).
  pose proof (built_acyclic pg g ix bi Hb Hok) as Hac.
  pose proof (is_cyclic_spec g (built_wf pg g ix bi Hb)) as Hcyc.
  destruct (is_cyclic_directed g).
  - split; [by eexists|]. intros Hno. apply Hac, Hcyc in Hno. done.
  - split; [intros [id Hid]; by destruct (proj1 Hac (proj1 Hcyc eq_refl) id)|]. intros _.
    destruct (result_ids pg) as [|id [|]]; [done| |done]. eexists. split; [exact Ho|].
    split; [done|]. unfold node_count. simpl. rewrite (built_length pg g ix bi Hb).
    by rewrite length_fmap.
Qed.

(** C18: the evaluation order of an analysed graph exists (the look-ups never
    panic) and names nodes of the graph, none twice.  It names the result node and,
    before it, every node the result depends on, directly or not; and every node it
    names comes after all the nodes its arguments refer to. *)
Theorem evaluation_order_respects_references `{PetgraphLaws} (pg : ProcessGraph)
    (a : ProcessGraphAnalysis) :
  bt_wf (nodes pg) → build pg = Ok a →
  ∃ order, evaluation_order a = Some order ∧ NoDup order ∧
    (∀ id, id ∈ order → id ∈ (nodes pg).*1) ∧
    result_id a ∈ order ∧
    (∀ src, tc (depends pg) src (result_id a) → before order src (result_id a)) ∧
    (∀ src dst, depends pg src dst → dst ∈ order → before order src dst).
Proof.
  intros Hwf Ha. destruct (evaluation_order_total pg a Hwf Ha) as (order & Ho & Hp & Hbef).
  assert (NoDup order) as Hnd by (rewrite Hp; by apply bt_wf_nodup).
  apply build_Ok in Ha as (_ & _ & _ & Hres); [|done].
  exists order. split; [done|]. split; [done|]. split; [intros id; by rewrite Hp|]. split.
  { rewrite Hp. assert (result_id a ∈ result_ids pg) as Hin by (rewrite Hres; by left).
    apply list_elem_of_fmap in Hin as (e & -> & He). apply list_elem_of_filter in He as [_ He].
    by apply list_elem_of_fmap_2. }
  split; [|by intros src dst Hd _; apply Hbef].
  intros src. by apply (before_tc (depends pg) order Hnd Hbef).
Qed.

(** What a sub-process callback contains has no influence on the outer
    graph: blanking out every [process_graph] member of every argument leaves
    the result of [build], graph, order and errors included, as it was. *)
Theorem build_ignores_subgraphs `{Petgraph} (pg : ProcessGraph) :
  build (erase_graph pg) = build pg.
Proof.
  unfold build, erase_graph. simpl.
  assert (foldl add_process (DiGraph_new, ∅, ∅) ((λ e, (e.1, erase_process e.2)) <$> nodes pg) =
          foldl add_process (DiGraph_new, ∅, ∅) (nodes pg)) as ->.
  { generalize (DiGraph_new, (∅ : gmap string nat), (∅ : gmap nat string)).
    induction (nodes pg) as [|e l IH]; intros acc; [done|]. apply IH. }
  destruct (foldl _ _ _) as [[g ix] bi].
  assert (∀ g, add_edges ix ((λ e, (e.1, erase_process e.2)) <$> nodes pg) g =
               add_edges ix (nodes pg) g) as Hadd.
  { induction (nodes pg) as [|[dst p] l IH]; intros g'; [done|]. simpl.
    rewrite collect_erase. by destruct (collect_from_node_refs _ _ g'); simpl. }
  rewrite Hadd. destruct (add_edges ix (nodes pg) g) as [g'|]; simpl; [|done].
  assert (((λ e, (e.1, erase_process e.2)) <$> nodes pg).*1 = (nodes pg).*1) as ->.
  { rewrite <- list_fmap_compose. by apply list_fmap_ext. }
  by rewrite results_erase.
Qed.

(** ** Process ids of a submission *)

(** [pid] names a process of the outer graph: it is reached without entering
    an object that carries a [process_graph], within the depth limit. *)
Inductive outer_pid : Z → Value → string → Prop :=
| op_here d m pid : d ≤ MAX_SUBGRAPH_DEPTH →
    assoc_get "process_id" m = Some (JString pid) → outer_pid d (Object m) pid
| op_object d m k v pid : d ≤ MAX_SUBGRAPH_DEPTH → assoc_get "process_graph" m = None →
    (k, v) ∈ m → outer_pid (d + 1) v pid → outer_pid d (Object m) pid
| op_array d l v pid : d ≤ MAX_SUBGRAPH_DEPTH →
    v ∈ l → outer_pid (d + 1) v pid → outer_pid d (Array l) pid.

Definition set_has (k : string) (t : btree string unit) : Prop := bt_get k t = Some ().

Lemma set_has_insert k k' t : bt_wf t → set_has k (bt_insert k' () t) ↔ k = k' ∨ set_has k t.
Proof.
  intros Hwf. unfold set_has. destruct (decide (k = k')) as [->|Hne].
  - rewrite bt_get_insert_eq by done. tauto.
  - rewrite bt_get_insert_ne by done. tauto.
Qed.

(** What the walk adds to the set, for one value. *)
Definition walk_ok (v : Value) : Prop := ∀ d out, bt_wf out →
  bt_wf (walk_ids v d out) ∧
  ∀ pid, set_has pid (walk_ids v d out) ↔ set_has pid out ∨ outer_pid d v pid.

(** The walk over the elements of a container. *)
Fixpoint walk_list (l : list Value) (d : Z) (out : btree string unit) : btree string unit :=
  match l with [] => out | v :: l' => walk_list l' d (walk_ids v d out) end.

Lemma walk_list_ok l d : Forall walk_ok l → ∀ out, bt_wf out →
  bt_wf (walk_list l d out) ∧
  ∀ pid, set_has pid (walk_list l d out) ↔ set_has pid out ∨ ∃ v, v ∈ l ∧ outer_pid d v pid.
Proof.
  induction 1 as [|v l Hv _ IH]; intros out Hwf; simpl.
  - split; [done|]. intros pid. split; [by left|]. by intros [|(v & ?%elem_of_nil & _)].
  - destruct (Hv d out Hwf) as [Hwf' Hhas]. destruct (IH _ Hwf') as [Hwf'' Hhas'].
    split; [done|]. intros pid. rewrite Hhas', Hhas. setoid_rewrite elem_of_cons. naive_solver.
Qed.

Lemma walk_ids_object m d out :
  walk_ids (Object m) d out =
  if MAX_SUBGRAPH_DEPTH <? d then out
  else
    let out := match assoc_get "process_id" m with
               | Some (JString pid) => bt_insert pid () out | _ => out end in
    match assoc_get "process_graph" m with
    | Some _ => out
    | None => walk_list m.*2 (d + 1) out
    end.
Proof.
  simpl. destruct (_ <? _); [done|]. destruct (assoc_get "process_graph" m); [done|].
  generalize (match assoc_get "process_id" m with
              | Some (JString pid) => bt_insert pid () out | _ => out end).
  induction m as [|[k v] m IH]; intros out'; [done|]. simpl. apply IH.
Qed.

Lemma walk_ids_array l d out :
  walk_ids (Array l) d out =
  if MAX_SUBGRAPH_DEPTH <? d then out else walk_list l (d + 1) out.
Proof.
  simpl. destruct (_ <? _); [done|]. revert out.
  induction l as [|v l IH]; intros out; [done|]. simpl. apply IH.
Qed.

Lemma walk_ids_ok v : walk_ok v.
Proof.
  assert (∀ w d out, walk_ids w d out = out → (∀ pid, ¬ outer_pid d w pid) → bt_wf out →
    bt_wf (walk_ids w d out) ∧
    ∀ pid, set_has pid (walk_ids w d out) ↔ set_has pid out ∨ outer_pid d w pid) as Hscalar.
  { intros w d out -> Hno Hwf. split; [done|]. intros pid. specialize (Hno pid). tauto. }
  induction v as [|b|n|str|l IH|m IH] using Value_ind'; intros d out Hwf.
  1-4: apply Hscalar; [simpl; by destruct (_ <? _)|intros pid Ho; inversion Ho|done].
  - rewrite walk_ids_array. destruct (Z.ltb_spec MAX_SUBGRAPH_DEPTH d).
    + split; [done|]. intros pid. split; [by left|]. intros [?|Ho]; [done|]. inversion Ho; lia.
    + destruct (walk_list_ok l (d + 1) IH out Hwf) as [Hwf' Hhas]. split; [done|]. intros pid.
      rewrite Hhas. split.
      * intros [?|(v & Hv & Ho)]; [by left|]. right. by eapply op_array.
      * intros [?|Ho]; [by left|]. right. inversion Ho; subst. eauto.
  - rewrite walk_ids_object. destruct (Z.ltb_spec MAX_SUBGRAPH_DEPTH d).
    { split; [done|]. intros pid. split; [by left|]. intros [?|Ho]; [done|]. inversion Ho; lia. }
    set (out' := match assoc_get "process_id" m with
                 | Some (JString pid) => bt_insert pid () out | _ => out end).
    assert (bt_wf out' ∧ ∀ pid, set_has pid out' ↔
      set_has pid out ∨ assoc_get "process_id" m = Some (JString pid)) as [Hwf' Hhas'].
    { unfold out'. destruct (assoc_get "process_id" m) as [[| | |s| |]|];
        try (split; [done|]; intros pid; split; [by left|]; by intros [|]).
      split; [by apply bt_wf_insert|]. intros pid. rewrite set_has_insert by done. naive_solver. }
    cbn zeta. destruct (assoc_get "process_graph" m) as [pg|] eqn:Hpg.
    + split; [done|]. intros pid. rewrite Hhas'. split.
      * intros [?|?]; [by left|]. right. by apply op_here.
      * intros [?|Ho]; [by left|]. right. inversion Ho; subst; [done|congruence].
    + destruct (walk_list_ok m.*2 (d + 1)) with (out := out') as [Hwf'' Hhas'']; [|done|].
      { by apply Forall_fmap. }
      split; [done|]. intros pid. rewrite Hhas'', Hhas'. split.
      * intros [[?|?]|(v & Hv & Ho)]; [by left|right; by apply op_here|].
        apply list_elem_of_fmap in Hv as ([k v'] & -> & Hv). right. by eapply op_object.
      * intros [?|Ho]; [by left; left|]. inversion Ho; subst; [by left; right|].
        right. exists v. split; [by apply (list_elem_of_fmap_2 snd m (k, v))|done].
Qed.

(** Submit-time validation reports, in sorted order and once each, exactly
    the process ids of the outer graph that are not implemented: ids used only
    inside sub-process callbacks are never reported. *)
Theorem unsupported_ids_spec (body : Value) (known : list string) :
  StronglySorted (λ a b, cmp a b = Lt) (unsupported_process_ids body known) ∧
  ∀ pid, pid ∈ unsupported_process_ids body known ↔
    outer_pid 0 (submission_graph body) pid ∧ pid ∉ known.
Proof.
  destruct (walk_ids_ok (submission_graph body) 0 [] bt_wf_nil) as [Hwf Hhas].
  unfold unsupported_process_ids. split.
  - fold (collect_process_ids body) in Hwf.
    by apply StronglySorted_filter, bt_keys_sorted.
  - intros pid. rewrite list_elem_of_filter. specialize (Hhas pid).
    fold (collect_process_ids body) in Hhas, Hwf.
    assert (set_has pid [] ∨ outer_pid 0 (submission_graph body) pid ↔
            outer_pid 0 (submission_graph body) pid) as E by (split; [by intros [[=]|]|by right]).
    rewrite <- E, <- Hhas. unfold set_has. rewrite bt_get_Some by done.
    rewrite list_elem_of_fmap. split.
    + intros [? ([k []] & -> & ?)]. done.
    + intros [? ?]. split; [done|]. by exists (pid, ()).
Qed.

(** ** Witnesses: load, reduce with a callback, save *)

Definition from_node (id : string) : Value := Object [("from_node", JString id)].
Definition demo_callback : Value :=
  Object [("process_graph", Object [("m", Object [("data", from_node "elsewhere")])])].

Definition demo_graph : ProcessGraph := mkProcessGraph [
  ("load", mkProcess "load_collection" [] None);
  ("reduce", mkProcess "reduce_dimension"
     [("data", from_node "load"); ("reducer", demo_callback)] None);
  ("save", mkProcess "save_result" [("data", Array [from_node "reduce"])] (Some true)) ].

Lemma demo_graph_wf : bt_wf (nodes demo_graph).
Proof. repeat constructor. Qed.

Example demo_order :
  match build demo_graph with Ok a => evaluation_order a | Err _ => None end
  = Some ["load"; "reduce"; "save"].
Proof. vm_compute. reflexivity. Qed.

Lemma build_correct_witness :
  bt_wf (nodes demo_graph) ∧
  match first_error (nodes demo_graph).*1 (all_events (nodes demo_graph)) with
  | Some e => build demo_graph = Err e
  | None =>
      ((∃ id, tc (depends demo_graph) id id) → ∃ id, build demo_graph = Err (Cycle id)) ∧
      ((∀ id, ¬ tc (depends demo_graph) id id) →
         match result_ids demo_graph with
         | [id] => ∃ a, build demo_graph = Ok a ∧ result_id a = id ∧
                     node_count a = length (nodes demo_graph)
         | l => build demo_graph = Err (AmbiguousResult (length l))
         end)
  end.
Proof. split; [apply demo_graph_wf|]. exact (build_correct demo_graph demo_graph_wf). Defined.

Lemma evaluation_order_respects_references_witness :
  ∃ a order, build demo_graph = Ok a ∧ evaluation_order a = Some order ∧ "save" ∈ order ∧
    before order "reduce" "save".
Proof.
  destruct (build demo_graph) as [a|e] eqn:E; [|vm_compute in E; discriminate E].
  assert (result_id a = "save") as Hres by (vm_compute in E; by injection E as <-).
  destruct (evaluation_order_respects_references demo_graph a demo_graph_wf E)
    as (order & Ho & _ & _ & Hr & _ & Hd). rewrite Hres in Hr.
  exists a, order. split; [reflexivity|]. split; [exact Ho|]. split; [exact Hr|].
  apply Hd; [|exact Hr]. eexists. split; [right; right; left|vm_compute; left].
Defined.
