(* ===== verification/Calendar.v ===== *)
(** * Timestamps: [iso8601] and [days_to_ymd] of apps/orbit-openeo/src/job_store.rs

    The conversion is compared with the Gregorian calendar counted one day at a
    time from 1970-01-01. *)

From S2P Require Import Prelude.
Local Open Scope Z_scope.

(** ** The code *)

(** [i64::div_euclid] and [rem_euclid] by a positive divisor are [/] and [mod]. *)
Definition days_to_ymd (z : Z) : Z * Z * Z :=
  let z := z + 719468 in
  let era := z / 146097 in
  let doe := z - era * 146097 in
  let yoe := (doe - doe / 1460 + doe / 36524 - doe / 146096) / 365 in
  let y := yoe + era * 400 in
  let doy := doe - (365 * yoe + yoe / 4 - yoe / 100) in
  let mp := (5 * doy + 2) / 153 in
  let d := doy - (153 * mp + 2) / 5 + 1 in
  let m := if mp <? 10 then mp + 3 else mp - 9 in
  let y := if m <=? 2 then y + 1 else y in
  (y, m, d).

(** [{n:0w}]: decimal, zero padded to width [w], the sign counted. *)
Fixpoint zeros (n : nat) : string :=
  match n with O => "" | S n => "0" +:+ zeros n end.
Definition pad0 (w : nat) (n : Z) : string :=
  let digits := pretty (Z.to_N (Z.abs n)) in
  let sign := if n <? 0 then "-" else "" in
  sign +:+ zeros (w - String.length sign - String.length digits) +:+ digits.

Definition format_timestamp (date : Z * Z * Z) (secs_of_day : Z) : string :=
  let '(y, m, d) := date in
  pad0 4 y +:+ "-" +:+ pad0 2 m +:+ "-" +:+ pad0 2 d +:+ "T" +:+
  pad0 2 (secs_of_day / 3600) +:+ ":" +:+ pad0 2 (secs_of_day / 60 mod 60) +:+ ":" +:+
  pad0 2 (secs_of_day mod 60) +:+ "Z".

Definition iso8601 (unix_secs : Z) : string :=
  let secs := to_signed 64 unix_secs in
  let days_since_epoch := secs / 86400 in
  let secs_of_day := secs mod 86400 in
  format_timestamp (days_to_ymd days_since_epoch) secs_of_day.

(** ** The Gregorian calendar *)

Definition leap (y : Z) : bool :=
  (y mod 4 =? 0) && (negb (y mod 100 =? 0) || (y mod 400 =? 0)).

Definition month_length (y m : Z) : Z :=
  if m =? 2 then (if leap y then 29 else 28)
  else if (m =? 4) || (m =? 6) || (m =? 9) || (m =? 11) then 30 else 31.

Definition next_day (date : Z * Z * Z) : Z * Z * Z :=
  let '(y, m, d) := date in
  if d <? month_length y m then (y, m, d + 1)
  else if m <? 12 then (y, m + 1, 1) else (y + 1, 1, 1).

Definition epoch : Z * Z * Z := (1970, 1, 1).
Definition date_of_day (n : nat) : Z * Z * Z := Nat.iter n next_day epoch.

(** ** Years counted from March *)

(** Days of a 400-year era before its year [Y], years starting on 1 March. *)
Definition year_start (Y : Z) : Z := if Y =? 400 then 146097 else 365 * Y + Y / 4 - Y / 100.
Definition year_num (doe : Z) : Z := doe - doe / 1460 + doe / 36524 - doe / 146096.
Definition year_of (doe : Z) : Z := year_num doe / 365.

Lemma year_num_step d : 0 ≤ d → year_num d ≤ year_num (d + 1).
Proof. intros Hd. unfold year_num. Z.to_euclidean_division_equations. lia. Qed.

Lemma year_num_mono a b : 0 ≤ a ≤ b → year_num a ≤ year_num b.
Proof.
  intros Hab. replace b with (a + Z.of_nat (Z.to_nat (b - a))) by lia.
  induction (Z.to_nat (b - a)) as [|n IH]; [rewrite Z.add_0_r; lia|].
  pose proof (year_num_step (a + Z.of_nat n) ltac:(lia)).
  replace (a + Z.of_nat (S n)) with (a + Z.of_nat n + 1) by lia. lia.
Qed.

Definition year_ok (Y : Z) : bool :=
  (year_of (year_start Y) =? Y) && (year_of (year_start (Y + 1) - 1) =? Y) &&
  (year_start (Y + 1) - year_start Y =? (if leap (Y + 1) then 366 else 365)).

Lemma year_ok_all : forallb year_ok (Z.of_nat <$> seq 0 400) = true.
Proof. vm_compute. reflexivity. Qed.

Lemma forallb_range (p : Z → bool) n :
  forallb p (Z.of_nat <$> seq 0 n) = true → ∀ x, 0 ≤ x < Z.of_nat n → p x = true.
Proof.
  intros H x Hx. pose proof (proj1 (forallb_forall _ _) H x) as Hp. apply Hp.
  apply list_elem_of_In, list_elem_of_fmap. exists (Z.to_nat x). rewrite elem_of_seq. lia.
Qed.

Lemma year_ok_range Y : 0 ≤ Y < 400 →
  year_of (year_start Y) = Y ∧ year_of (year_start (Y + 1) - 1) = Y ∧
  year_start (Y + 1) - year_start Y = if leap (Y + 1) then 366 else 365.
Proof.
  intros HY. pose proof (forallb_range _ _ year_ok_all Y HY) as H.
  unfold year_ok in H. rewrite !andb_true_iff, !Z.eqb_eq in H. tauto.
Qed.

Lemma year_of_between Y doe :
  0 ≤ Y < 400 → year_start Y ≤ doe < year_start (Y + 1) → year_of doe = Y.
Proof.
  intros HY Hd. destruct (year_ok_range Y HY) as (H1 & H2 & _).
  assert (0 ≤ year_start Y).
  { unfold year_start. destruct (Z.eqb_spec Y 400); [lia|]. Z.to_euclidean_division_equations; lia. }
  unfold year_of in *.
  pose proof (year_num_mono (year_start Y) doe ltac:(lia)).
  pose proof (year_num_mono doe (year_start (Y + 1) - 1) ltac:(lia)).
  pose proof (Z.div_le_mono (year_num (year_start Y)) (year_num doe) 365 ltac:(lia) ltac:(lia)).
  pose proof (Z.div_le_mono (year_num doe) (year_num (year_start (Y + 1) - 1)) 365
    ltac:(lia) ltac:(lia)).
  lia.
Qed.

(** Every day of an era lies in one year. *)
Lemma year_exists doe :
  0 ≤ doe < 146097 → ∃ Y, 0 ≤ Y < 400 ∧ year_start Y ≤ doe < year_start (Y + 1).
Proof.
  intros Hd. assert (∀ n, (n ≤ 400)%nat → doe < year_start (Z.of_nat n) →
    ∃ Y, 0 ≤ Y < Z.of_nat n ∧ year_start Y ≤ doe < year_start (Y + 1)) as H.
  { induction n as [|n IH]; intros Hn Hlt; [change (year_start (Z.of_nat 0)) with 0 in Hlt; lia|].
    destruct (Z_lt_ge_dec doe (year_start (Z.of_nat n))) as [Hl|Hge].
    - destruct IH as (Y & ? & ?); [lia|done|]. exists Y. split; [lia|done].
    - exists (Z.of_nat n). rewrite Nat2Z.inj_succ, <- Z.add_1_r in *. split; [lia|]. lia. }
  destruct (H 400%nat) as (Y & ? & ?); [lia|change (year_start (Z.of_nat 400)) with 146097; lia|].
  by exists Y.
Qed.

(** ** Months *)

Definition month_of (doy : Z) : Z :=
  let mp := (5 * doy + 2) / 153 in if mp <? 10 then mp + 3 else mp - 9.
Definition day_of (doy : Z) : Z := doy - (153 * ((5 * doy + 2) / 153) + 2) / 5 + 1.

Lemma days_to_ymd_parts era Y doe :
  0 ≤ Y < 400 → year_start Y ≤ doe < year_start (Y + 1) → 0 ≤ doe < 146097 →
  days_to_ymd (era * 146097 + doe - 719468) =
  let doy := doe - year_start Y in
  (Y + era * 400 + (if month_of doy <=? 2 then 1 else 0), month_of doy, day_of doy).
Proof.
  intros HY Hd Hdoe. unfold days_to_ymd.
  replace (era * 146097 + doe - 719468 + 719468) with (doe + era * 146097) by lia.
  assert ((doe + era * 146097) / 146097 = era) as ->
    by (rewrite Z.div_add, Z.div_small by lia; lia).
  replace (doe + era * 146097 - era * 146097) with doe by lia.
  change ((doe - doe / 1460 + doe / 36524 - doe / 146096) / 365) with (year_of doe).
  rewrite (year_of_between Y doe) by done.
  replace (365 * Y + Y / 4 - Y / 100) with (year_start Y)
    by (unfold year_start; destruct (Z.eqb_spec Y 400); [lia|done]).
  cbv zeta. unfold month_of, day_of. cbv zeta.
  set (m := if _ <? 10 then _ else _). destruct (m <=? 2); f_equal; f_equal; lia.
Qed.

(** A day inside the March year, in a March year of either length, and the
    year of the date counted from the March year. *)
Definition day_step_ok (lp : bool) (doy : Z) : bool :=
  let m := month_of doy in
  let d := day_of doy in
  let len := if m =? 2 then (if lp then 29 else 28)
             else if (m =? 4) || (m =? 6) || (m =? 9) || (m =? 11) then 30 else 31 in
  let y := if m <=? 2 then 1 else 0 in
  let '(y', m', d') := if d <? len then (y, m, d + 1)
                       else if m <? 12 then (y, m + 1, 1) else (y + 1, 1, 1) in
  (month_of (doy + 1) =? m') && (day_of (doy + 1) =? d') &&
  ((if month_of (doy + 1) <=? 2 then 1 else 0) =? y').

Lemma day_steps_common : forallb (day_step_ok false) (Z.of_nat <$> seq 0 364) = true.
Proof. vm_compute. reflexivity. Qed.
Lemma day_steps_leap : forallb (day_step_ok true) (Z.of_nat <$> seq 0 365) = true.
Proof. vm_compute. reflexivity. Qed.

Lemma leap_era Y era : leap (Y + era * 400) = leap Y.
Proof.
  unfold leap.
  replace ((Y + era * 400) mod 4) with (Y mod 4)
    by (replace (Y + era * 400) with (Y + era * 100 * 4) by lia; by rewrite Z.mod_add).
  replace ((Y + era * 400) mod 100) with (Y mod 100)
    by (replace (Y + era * 400) with (Y + era * 4 * 100) by lia; by rewrite Z.mod_add).
  by rewrite Z.mod_add by lia.
Qed.

Lemma day_step (lp : bool) doy :
  0 ≤ doy < (if lp then 365 else 364) → day_step_ok lp doy = true.
Proof.
  intros Hd. destruct lp.
  - exact (forallb_range _ _ day_steps_leap doy Hd).
  - exact (forallb_range _ _ day_steps_common doy Hd).
Qed.

(** A day followed by another one of the same March year. *)
Lemma next_day_inside Y0 (lp : bool) doy :
  day_step_ok lp doy = true → leap (Y0 + 1) = lp →
  next_day (Y0 + (if month_of doy <=? 2 then 1 else 0), month_of doy, day_of doy) =
  (Y0 + (if month_of (doy + 1) <=? 2 then 1 else 0), month_of (doy + 1), day_of (doy + 1)).
Proof.
  unfold day_step_ok, next_day, month_length. intros Hok <-.
  set (m := month_of doy) in *. set (d := day_of doy) in *. clearbody m d.
  destruct (Z.eqb_spec m 2) as [Em|Em].
  - rewrite Em in *. change (2 <=? 2) with true in *.
    change (2 <? 12) with true in *. cbv beta iota zeta in *.
    destruct (d <? (if leap (Y0 + 1) then 29 else 28));
      cbv beta iota zeta in Hok; rewrite !andb_true_iff, !Z.eqb_eq in Hok;
      destruct Hok as [[E1 E2] E3];
      rewrite E3, E2, E1; f_equal; f_equal; lia.
  - set (len := if (m =? 4) || (m =? 6) || (m =? 9) || (m =? 11) then 30 else 31) in *.
    destruct (d <? len); [|destruct (m <? 12)];
      cbv beta iota zeta in Hok; rewrite !andb_true_iff, !Z.eqb_eq in Hok;
      destruct Hok as [[E1 E2] E3];
      rewrite E3, E2, E1; f_equal; f_equal; lia.
Qed.

Lemma last_day_of_year Y0 :
  let doy := if leap (Y0 + 1) then 365 else 364 in
  next_day (Y0 + (if month_of doy <=? 2 then 1 else 0), month_of doy, day_of doy) =
  (Y0 + 1, 3, 1).
Proof.
  unfold next_day, month_length. destruct (leap (Y0 + 1)) eqn:Hl; cbv zeta;
    [change (month_of 365) with 2; change (day_of 365) with 29
    |change (month_of 364) with 2; change (day_of 364) with 28];
    change (2 <=? 2) with true; change (2 =? 2) with true; cbv iota; rewrite Hl; done.
Qed.

Lemma days_to_ymd_succ z : days_to_ymd (z + 1) = next_day (days_to_ymd z).
Proof.
  set (era := (z + 719468) / 146097). set (doe := (z + 719468) mod 146097).
  pose proof (Z.mod_pos_bound (z + 719468) 146097 ltac:(lia)) as Hdoe. fold doe in Hdoe.
  pose proof (Z.div_mod (z + 719468) 146097 ltac:(lia)) as Hz. fold era doe in Hz.
  destruct (year_exists doe Hdoe) as (Y & HY & Hd).
  destruct (year_ok_range Y HY) as (_ & _ & Hlen).
  replace z with (era * 146097 + doe - 719468) by lia. clearbody era doe. clear Hz z.
  rewrite (days_to_ymd_parts era Y doe) by done. cbv zeta.
  rewrite <- (leap_era (Y + 1) era) in Hlen.
  replace (Y + 1 + era * 400) with (Y + era * 400 + 1) in Hlen by lia.
  destruct (decide (doe + 1 < year_start (Y + 1))) as [Hin|Hlast].
  - replace (era * 146097 + doe - 719468 + 1) with (era * 146097 + (doe + 1) - 719468) by lia.
    assert (doe + 1 < 146097).
    { assert (year_start (Y + 1) ≤ 146097); [|lia]. unfold year_start.
      destruct (Z.eqb_spec (Y + 1) 400); [lia|]. Z.to_euclidean_division_equations; lia. }
    rewrite (days_to_ymd_parts era Y (doe + 1)) by lia. cbv zeta.
    replace (doe + 1 - year_start Y) with (doe - year_start Y + 1) by lia. symmetry.
    apply next_day_inside with (leap (Y + era * 400 + 1)); [|done].
    apply day_step. destruct (leap _); lia.
  - assert (doe - year_start Y = if leap (Y + era * 400 + 1) then 365 else 364) as ->
      by (destruct (leap _); lia).
    rewrite last_day_of_year.
    destruct (decide (Y = 399)) as [->|HYne].
    + change (year_start (399 + 1)) with 146097 in *.
      replace (era * 146097 + doe - 719468 + 1) with ((era + 1) * 146097 + 0 - 719468) by lia.
      rewrite (days_to_ymd_parts (era + 1) 0 0); [|lia|done|lia].
      cbv zeta. change (0 - year_start 0) with 0. change (month_of 0) with 3.
      change (day_of 0) with 1. simpl. f_equal. f_equal. lia.
    + replace (era * 146097 + doe - 719468 + 1) with (era * 146097 + (doe + 1) - 719468) by lia.
      destruct (year_ok_range (Y + 1) ltac:(lia)) as (_ & _ & Hlen').
      assert (year_start (Y + 1) ≤ 145000 + 1097).
      { unfold year_start. destruct (Z.eqb_spec (Y + 1) 400); [lia|].
        Z.to_euclidean_division_equations; lia. }
      rewrite (days_to_ymd_parts era (Y + 1) (doe + 1)).
      * cbv zeta. replace (doe + 1 - year_start (Y + 1)) with 0 by lia.
        change (month_of 0) with 3. change (day_of 0) with 1. simpl. f_equal. f_equal. lia.
      * lia.
      * destruct (leap (Y + 1 + 1)); lia.
      * destruct (decide (Y = 398)) as [->|]; [change (year_start (398 + 1)) with 145731 in *; lia|].
        unfold year_start in *. destruct (Z.eqb_spec (Y + 1) 400); [lia|].
        Z.to_euclidean_division_equations; lia.
Qed.

(** ** Properties *)

(** The timestamps the API reports follow the Gregorian calendar: the date
    computed for day [n] after the epoch is the one reached from 1970-01-01 by
    stepping day by day through months of their proper lengths and leap years,
    and it is printed with the hour, minute and second of the day. *)
Theorem iso8601_gregorian (n : nat) (h m s : Z)
    (Hh : 0 ≤ h < 24) (Hm : 0 ≤ m < 60) (Hs : 0 ≤ s < 60) :
  86400 * Z.of_nat n + 3600 * h + 60 * m + s < 2 ^ 63 →
  days_to_ymd (Z.of_nat n) = date_of_day n ∧
  iso8601 (86400 * Z.of_nat n + 3600 * h + 60 * m + s) =
    (let '(y, mo, d) := date_of_day n in
     pad0 4 y +:+ "-" +:+ pad0 2 mo +:+ "-" +:+ pad0 2 d +:+ "T" +:+
     pad0 2 h +:+ ":" +:+ pad0 2 m +:+ ":" +:+ pad0 2 s +:+ "Z").
Proof.
  intros Hbound. assert (∀ n, days_to_ymd (Z.of_nat n) = date_of_day n) as Hday.
  { induction n0 as [|k IH]; [reflexivity|].
    rewrite Nat2Z.inj_succ, <- Z.add_1_r, days_to_ymd_succ, IH. reflexivity. }
  split; [apply Hday|]. unfold iso8601. rewrite to_signed_small by (simpl; lia).
  set (t := 86400 * Z.of_nat n + 3600 * h + 60 * m + s).
  assert (t / 86400 = Z.of_nat n) as -> by (unfold t; Z.to_euclidean_division_equations; lia).
  assert (t mod 86400 = 3600 * h + 60 * m + s) as ->
    by (unfold t; Z.to_euclidean_division_equations; lia).
  rewrite Hday. unfold format_timestamp. destruct (date_of_day n) as [[y mo] d].
  assert ((3600 * h + 60 * m + s) / 3600 = h) as -> by (Z.to_euclidean_division_equations; lia).
  assert ((3600 * h + 60 * m + s) / 60 mod 60 = m) as ->
    by (Z.to_euclidean_division_equations; lia).
  assert ((3600 * h + 60 * m + s) mod 60 = s) as -> by (Z.to_euclidean_division_equations; lia).
  done.
Qed.

Example iso8601_demo : iso8601 951782399 = "2000-02-28T23:59:59Z" ∧
  iso8601 951782400 = "2000-02-29T00:00:00Z".
Proof. split; vm_compute; reflexivity. Qed.

Lemma iso8601_gregorian_witness : iso8601 (86400 * 58 + 3600 * 23 + 60 * 59 + 58)
  = "1970-02-28T23:59:58Z".
Proof.
  destruct (iso8601_gregorian 58 23 59 58) as [_ H]; [lia..|].
  change (Z.of_nat 58) with 58 in H. rewrite H. vm_compute. reflexivity.
Defined.
