(* ===== verification/JobStore.v ===== *)
(** * The job store: apps/orbit-openeo/src/job_store.rs

    The trait is the class [JobStore], its contract the class [JobStoreLaws]:
    every operation of a store agrees with the same operation on a finite map
    from ids to a record and its log.  The in-memory store is proved to meet
    the contract here, the SQLite store in SqlStore.v.  The fresh UUID and the
    current time are arguments; a method is one step. *)

From S2P Require Import Prelude F64 Json Calendar.
Local Open Scope Z_scope.

(** ** Data *)

Inductive JobStatus := Created | Queued | Running | Canceled | Finished | Error.
#[export] Instance JobStatus_eq_dec : EqDecision JobStatus.
Proof. solve_decision. Defined.

Definition status_as_str (s : JobStatus) : string :=
  match s with
  | Created => "created" | Queued => "queued" | Running => "running"
  | Canceled => "canceled" | Finished => "finished" | Error => "error"
  end.

Record JobAsset := mkJobAsset { as_name : string; as_media_type : string; as_size : Z }.

Record JobLogEntry := mkJobLogEntry {
  le_id : string; le_level : string; le_message : string; le_time : string }.

Record JobRecord := mkJobRecord {
  jr_id : string;
  jr_user_id : string;
  jr_title : option string;
  jr_description : option string;
  jr_process : Value;
  jr_status : JobStatus;
  jr_progress : option f64;
  jr_created : Z;   (* u64 *)
  jr_updated : Z;   (* u64 *)
  jr_assets : list JobAsset }.

Inductive JobError := NotFound (id : string) | Backend (msg : string).

Definition opt_json (o : option string) : Value :=
  match o with Some s => JString s | None => Null end.
(** [json!] of an [f64]: a finite number, or [null]. *)
Definition f64_json (x : f64) : Value :=
  match x with
  | Floats.SpecFloat.S754_nan | Floats.SpecFloat.S754_infinity _ => Null
  | _ => Number (Float x)
  end.

Definition to_openeo_json (r : JobRecord) : Value := Object [
  ("id", JString (jr_id r));
  ("title", opt_json (jr_title r));
  ("description", opt_json (jr_description r));
  ("process", jr_process r);
  ("status", JString (status_as_str (jr_status r)));
  ("progress", match jr_progress r with Some x => f64_json x | None => Null end);
  ("created", JString (iso8601 (jr_created r)));
  ("updated", JString (iso8601 (jr_updated r))) ].

(** The changes the operations make to a record. *)
Definition with_status (s : JobStatus) (now : Z) (r : JobRecord) : JobRecord :=
  mkJobRecord (jr_id r) (jr_user_id r) (jr_title r) (jr_description r) (jr_process r)
    s (jr_progress r) (jr_created r) now (jr_assets r).
Definition with_progress (p : option f64) (now : Z) (r : JobRecord) : JobRecord :=
  mkJobRecord (jr_id r) (jr_user_id r) (jr_title r) (jr_description r) (jr_process r)
    (jr_status r) p (jr_created r) now (jr_assets r).
Definition with_metadata (title description : option string) (now : Z) (r : JobRecord) : JobRecord :=
  mkJobRecord (jr_id r) (jr_user_id r)
    (match title with Some _ => title | None => jr_title r end)
    (match description with Some _ => description | None => jr_description r end)
    (jr_process r) (jr_status r) (jr_progress r) (jr_created r) now (jr_assets r).
Definition with_asset (a : JobAsset) (now : Z) (r : JobRecord) : JobRecord :=
  mkJobRecord (jr_id r) (jr_user_id r) (jr_title r) (jr_description r) (jr_process r)
    (jr_status r) (jr_progress r) (jr_created r) now (jr_assets r ++ [a]).

Definition clamp_progress (p : f64) : f64 := f64_clamp p f64_zero f64_hundred.

Definition is_orphan (r : JobRecord) : bool :=
  match jr_status r with Queued | Running => true | _ => false end.
Definition recover (now : Z) (r : JobRecord) : JobRecord :=
  if is_orphan r then with_status Error now r else r.

(** ** The trait *)

Class JobStore (St : Type) := {
  create (id : string) (now : Z) (user_id : string) (title description : option string)
    (process : Value) : St → result JobError JobRecord * St;
  get (id : string) : St → result JobError JobRecord;
  list_for_user (user_id : string) : St → result JobError (list JobRecord);
  set_status (now : Z) (id : string) (status : JobStatus) : St → result JobError unit * St;
  set_progress (now : Z) (id : string) (progress : f64) : St → result JobError unit * St;
  set_metadata (now : Z) (id : string) (title description : option string) :
    St → result JobError unit * St;
  delete_job (id : string) : St → result JobError unit * St;
  add_asset (now : Z) (id : string) (asset : JobAsset) : St → result JobError unit * St;
  append_log (now : Z) (id level message : string) : St → result JobError unit * St;
  get_logs (id : string) : St → result JobError (list JobLogEntry);
  recover_orphans (now : Z) : St → result JobError Z * St }.

(** ** The contract: the same operations on a finite map *)

Notation Entry := (JobRecord * list JobLogEntry)%type.
Notation Jobs := (gmap string Entry).

Definition new_record (id : string) (now : Z) (user_id : string)
    (title description : option string) (process : Value) : JobRecord :=
  mkJobRecord id user_id title description process Created (Some f64_zero) now now [].

Definition spec_get {A} (f : Entry → A) (id : string) (m : Jobs) : result JobError A :=
  match m !! id with Some e => Ok (f e) | None => Err (NotFound id) end.

(** An update of one entry; [NotFound], and no change, when it is absent. *)
Definition spec_update (f : Entry → Entry) (id : string) (m : Jobs)
    : result JobError unit * Jobs :=
  match m !! id with Some _ => (Ok (), alter f id m) | None => (Err (NotFound id), m) end.

Definition new_log (now : Z) (level message : string) (logs : list JobLogEntry) : JobLogEntry :=
  mkJobLogEntry (pretty (N.of_nat (length logs))) level message (iso8601 now).
Definition add_log (now : Z) (level message : string) (e : Entry) : Entry :=
  (e.1, e.2 ++ [new_log now level message e.2]).

Definition on_record (f : JobRecord → JobRecord) (e : Entry) : Entry := (f e.1, e.2).

(** [st] holds exactly the jobs [m]. *)
Class JobStoreRep (St : Type) := rep : St → Jobs → Prop.

(** The process graphs and the progress values that a store gives back as it got
    them. *)
Class JobStoreDomain (St : Type) := {
  keeps_process : Value → Prop;
  keeps_progress : f64 → Prop }.
Arguments keeps_process St {_} v.
Arguments keeps_progress St {_} p.

(** An update operation [op] of a store refines [spec]. *)
Definition refines {St A} `{JobStoreRep St} (op : St → result JobError A * St)
    (spec : Jobs → result JobError A * Jobs) : Prop :=
  ∀ st m, rep st m → (op st).1 = (spec m).1 ∧ rep (op st).2 (spec m).2.

Class JobStoreLaws (St : Type) `{JobStore St} `{JobStoreRep St} `{JobStoreDomain St} : Prop := {
  keeps_plain_process v : no_float v = true → keeps_process St v;
  keeps_number p : is_nan p = false → keeps_progress St p;
  create_law st m id now user title desc process :
    rep st m → m !! id = None → in_u 64 now → keeps_process St process →
    let rec := new_record id now user title desc process in
    (create id now user title desc process st).1 = Ok rec ∧
    rep (create id now user title desc process st).2 (<[id := (rec, [])]> m);
  get_law st m id : rep st m → get id st = spec_get fst id m;
  list_law st m user : rep st m →
    ∃ l, list_for_user user st = Ok l ∧
      Permutation l (filter (λ r, jr_user_id r = user) (map_to_list m).*2.*1);
  set_status_law now id s : in_u 64 now →
    refines (set_status now id s) (spec_update (on_record (with_status s now)) id);
  set_progress_law now id p : in_u 64 now → keeps_progress St p →
    refines (set_progress now id p)
      (spec_update (on_record (with_progress (Some (clamp_progress p)) now)) id);
  set_metadata_law now id title desc : in_u 64 now →
    refines (set_metadata now id title desc)
      (spec_update (on_record (with_metadata title desc now)) id);
  delete_law id : refines (delete_job id) (λ m, (Ok (), delete id m));
  add_asset_law now id a : in_u 64 now →
    refines (add_asset now id a) (spec_update (on_record (with_asset a now)) id);
  append_log_law now id level msg :
    refines (append_log now id level msg) (spec_update (add_log now level msg) id);
  get_logs_law st m id : rep st m → get_logs id st = spec_get snd id m;
  recover_law now : in_u 64 now →
    refines (recover_orphans now)
      (λ m, (Ok (Z.of_nat (length (filter (λ e, is_orphan e.2.1 = true) (map_to_list m)))),
             on_record (recover now) <$> m)) }.

(** ** The in-memory store *)

Record InMemoryJobStore := mkInMemory {
  inner : list JobRecord;
  logs : gmap string (list JobLogEntry) }.

Definition InMemory_new : InMemoryJobStore := mkInMemory [] ∅.

(** [iter_mut().find(|r| r.id == id)] followed by a change of the record. *)
Fixpoint find_update (id : string) (f : JobRecord → JobRecord) (l : list JobRecord)
    : option (list JobRecord) :=
  match l with
  | [] => None
  | r :: l' =>
      if bool_decide (jr_id r = id) then Some (f r :: l')
      else l'' ← find_update id f l'; Some (r :: l'')
  end.

Definition mem_update (id : string) (f : JobRecord → JobRecord) (st : InMemoryJobStore)
    : result JobError unit * InMemoryJobStore :=
  match find_update id f (inner st) with
  | Some l => (Ok (), mkInMemory l (logs st))
  | None => (Err (NotFound id), st)
  end.

Definition mem_find (id : string) (l : list JobRecord) : option JobRecord :=
  List.find (λ r, bool_decide (jr_id r = id)) l.
Definition mem_any (id : string) (l : list JobRecord) : bool :=
  existsb (λ r, bool_decide (jr_id r = id)) l.

Definition mem_create (id : string) (now : Z) (user_id : string)
    (title description : option string) (process : Value) (st : InMemoryJobStore)
    : result JobError JobRecord * InMemoryJobStore :=
  let rec := mkJobRecord id user_id title description process Created (Some f64_zero) now now [] in
  (Ok rec, mkInMemory (inner st ++ [rec]) (logs st)).

Definition mem_get (id : string) (st : InMemoryJobStore) : result JobError JobRecord :=
  ok_or (mem_find id (inner st)) (NotFound id).

Definition mem_list_for_user (user_id : string) (st : InMemoryJobStore)
    : result JobError (list JobRecord) :=
  Ok (filter (λ r, jr_user_id r = user_id) (inner st)).

Definition mem_set_status (now : Z) (id : string) (s : JobStatus) :=
  mem_update id (with_status s now).
Definition mem_set_progress (now : Z) (id : string) (p : f64) :=
  mem_update id (with_progress (Some (f64_clamp p f64_zero f64_hundred)) now).
Definition mem_set_metadata (now : Z) (id : string) (title description : option string) :=
  mem_update id (with_metadata title description now).
Definition mem_add_asset (now : Z) (id : string) (a : JobAsset) :=
  mem_update id (with_asset a now).

Definition mem_delete (id : string) (st : InMemoryJobStore)
    : result JobError unit * InMemoryJobStore :=
  (Ok (), mkInMemory (filter (λ r, jr_id r ≠ id) (inner st)) (delete id (logs st))).

Definition mem_append_log (now : Z) (id level message : string) (st : InMemoryJobStore)
    : result JobError unit * InMemoryJobStore :=
  if negb (mem_any id (inner st)) then (Err (NotFound id), st)
  else
    let entries := default [] (logs st !! id) in
    let entry := mkJobLogEntry (pretty (N.of_nat (length entries))) level message (iso8601 now) in
    (Ok (), mkInMemory (inner st) (<[id := entries ++ [entry]]> (logs st))).

Definition mem_get_logs (id : string) (st : InMemoryJobStore)
    : result JobError (list JobLogEntry) :=
  if negb (mem_any id (inner st)) then Err (NotFound id) else Ok (default [] (logs st !! id)).

(** The loop, with its counter. *)
Fixpoint mem_recover_loop (now : Z) (l : list JobRecord) (n : Z) : Z * list JobRecord :=
  match l with
  | [] => (n, [])
  | r :: l' =>
      let '(n', r') := match jr_status r with
                       | Queued | Running => (n + 1, with_status Error now r)
                       | _ => (n, r)
                       end in
      let '(n'', l'') := mem_recover_loop now l' n' in (n'', r' :: l'')
  end.
Definition mem_recover_orphans (now : Z) (st : InMemoryJobStore)
    : result JobError Z * InMemoryJobStore :=
  let '(n, l) := mem_recover_loop now (inner st) 0 in (Ok n, mkInMemory l (logs st)).

#[export] Instance InMemory_store : JobStore InMemoryJobStore := {
  create := mem_create;
  get := mem_get;
  list_for_user := mem_list_for_user;
  set_status := mem_set_status;
  set_progress := mem_set_progress;
  set_metadata := mem_set_metadata;
  delete_job := mem_delete;
  add_asset := mem_add_asset;
  append_log := mem_append_log;
  get_logs := mem_get_logs;
  recover_orphans := mem_recover_orphans }.

(** ** Association lists as maps *)

Section assoc_maps.
Context {V : Type}.
Implicit Types l : list (string * V).

Lemma list_to_map_update (f : V → V) id l :
  list_to_map ((λ e, if decide (e.1 = id) then (e.1, f e.2) else e) <$> l) =
  alter f id (list_to_map l : gmap string V).
Proof.
  induction l as [|[k v] l IH]; [simpl; by rewrite alter_empty|].
  rewrite fmap_cons. cbn [fst snd].
  destruct (decide (k = id)) as [->|Hne]; rewrite !list_to_map_cons, IH.
  - rewrite alter_insert_eq. apply map_eq. intros j.
    destruct (decide (j = id)) as [->|]; [by rewrite !lookup_insert_eq|].
    by rewrite !lookup_insert_ne, lookup_alter_ne.
  - by rewrite alter_insert_ne.
Qed.

Lemma list_to_map_remove id l :
  list_to_map (filter (λ e, e.1 ≠ id) l) = delete id (list_to_map l : gmap string V).
Proof.
  induction l as [|[k v] l IH]; [simpl; by rewrite delete_empty|].
  rewrite filter_cons. cbn [fst].
  destruct (decide (k ≠ id)) as [Hne|Heq].
  - by rewrite !list_to_map_cons, IH, delete_insert_ne.
  - assert (k = id) as -> by (by destruct (decide (k = id))).
    by rewrite list_to_map_cons, IH, delete_insert_eq.
Qed.

Lemma list_to_map_is_Some id l :
  is_Some ((list_to_map l : gmap string V) !! id) ↔ id ∈ l.*1.
Proof.
  split.
  - intros Hs. destruct (decide (id ∈ l.*1)) as [|Hn]; [done|].
    apply not_elem_of_list_to_map in Hn. rewrite Hn in Hs. by destruct Hs.
  - intros Hin. destruct (list_to_map l !! id) eqn:E; [done|].
    by apply not_elem_of_list_to_map in E.
Qed.
End assoc_maps.

(** ** The in-memory store meets the contract *)

Definition ids (l : list JobRecord) : list string := jr_id <$> l.

Definition mem_entry (lg : gmap string (list JobLogEntry)) (r : JobRecord) : string * Entry :=
  (jr_id r, (r, default [] (lg !! jr_id r))).
Definition mem_entries (st : InMemoryJobStore) : list (string * Entry) :=
  mem_entry (logs st) <$> inner st.

(** Ids are distinct and only existing jobs have logs. *)
#[export] Instance InMemory_rep : JobStoreRep InMemoryJobStore := λ st m,
  NoDup (ids (inner st)) ∧ (∀ id, is_Some (logs st !! id) → id ∈ ids (inner st)) ∧
  m = list_to_map (mem_entries st).
#[export] Instance InMemory_domain : JobStoreDomain InMemoryJobStore := {
  keeps_process _ := True;
  keeps_progress _ := True }.

Lemma mem_entries_keys lg l : (mem_entry lg <$> l).*1 = ids l.
Proof. unfold ids. rewrite <- list_fmap_compose. by apply list_fmap_ext. Qed.

Lemma mem_lookup st m id e :
  rep st m → m !! id = Some e ↔
  ∃ r, r ∈ inner st ∧ jr_id r = id ∧ e = (r, default [] (logs st !! id)).
Proof.
  intros (Hnd & _ & ->). rewrite <- elem_of_list_to_map
    by (unfold mem_entries; by rewrite mem_entries_keys).
  unfold mem_entries, mem_entry. rewrite list_elem_of_fmap. split.
  - intros (r & [= -> ->] & Hr). by exists r.
  - intros (r & Hr & <- & ->). by exists r.
Qed.

Lemma mem_present st m id : rep st m → is_Some (m !! id) ↔ id ∈ ids (inner st).
Proof.
  intros (_ & _ & ->). rewrite list_to_map_is_Some. unfold mem_entries.
  by rewrite mem_entries_keys.
Qed.

Lemma find_update_spec id f l :
  find_update id f l =
  if decide (id ∈ ids l) then find_update id f l else None.
Proof.
  destruct (decide (id ∈ ids l)) as [|Hn]; [done|].
  induction l as [|r l IH]; simpl; [done|]. unfold ids in *. simpl in Hn.
  apply not_elem_of_cons in Hn as [Hne Hn]. rewrite bool_decide_eq_false_2 by done.
  by rewrite IH.
Qed.

Lemma find_update_map id f l :
  NoDup (ids l) → id ∈ ids l →
  find_update id f l = Some ((λ r, if decide (jr_id r = id) then f r else r) <$> l).
Proof.
  induction l as [|r l IH]; intros Hnd Hin; [by apply elem_of_nil in Hin|]. simpl.
  unfold ids in *. simpl in *. apply NoDup_cons in Hnd as [Hr Hnd].
  destruct (decide (jr_id r = id)) as [<-|Hne].
  - rewrite bool_decide_eq_true_2 by done. do 2 f_equal.
    rewrite <- (list_fmap_id l) at 1. apply list_fmap_ext. intros i r' Hr'.
    destruct (decide (jr_id r' = jr_id r)) as [E|]; [|done]. destruct Hr. rewrite <- E.
    by apply list_elem_of_fmap_2, list_elem_of_lookup_2 with i.
  - rewrite bool_decide_eq_false_2 by done. apply elem_of_cons in Hin as [?|Hin]; [congruence|].
    by rewrite IH.
Qed.

Lemma mem_update_refines id f :
  (∀ r, jr_id (f r) = jr_id r) → refines (mem_update id f) (spec_update (on_record f) id).
Proof.
  intros Hf st m Hrep. pose proof (mem_present st m id Hrep) as Hpres.
  destruct Hrep as (Hnd & Hlogs & Hm). unfold mem_update, spec_update.
  destruct (decide (id ∈ ids (inner st))) as [Hin|Hn].
  - rewrite find_update_map by done. apply Hpres in Hin as [e He]. rewrite He. simpl.
    split; [done|].
    assert (ids ((λ r, if decide (jr_id r = id) then f r else r) <$> inner st) = ids (inner st))
      as Hids.
    { unfold ids. rewrite <- list_fmap_compose. apply list_fmap_ext. intros i r _. simpl.
      by destruct (decide _). }
    unfold rep, InMemory_rep. simpl. rewrite Hids. split; [done|]. split; [done|].
    rewrite Hm, <- list_to_map_update. unfold mem_entries. simpl. f_equal.
    rewrite <- !list_fmap_compose. apply list_fmap_ext. intros i r _. unfold mem_entry. simpl.
    destruct (decide (jr_id r = id)) as [<-|]; [|done]. by rewrite Hf.
  - rewrite find_update_spec, decide_False by done.
    destruct (m !! id) eqn:E; [|done]. destruct Hn. by apply Hpres.
Qed.

Lemma mem_find_spec id l :
  mem_find id l = None ∧ id ∉ ids l ∨
  ∃ r, mem_find id l = Some r ∧ r ∈ l ∧ jr_id r = id.
Proof.
  unfold mem_find. destruct (List.find _ l) as [r|] eqn:E.
  - right. apply find_some_iff in E as [Hr Hid]. exists r. by apply bool_decide_eq_true in Hid.
  - left. split; [done|]. intros (r & -> & Hr)%list_elem_of_fmap. apply list_elem_of_In in Hr.
    pose proof (find_none _ _ E r Hr) as Hb. simpl in Hb. by rewrite bool_decide_eq_true_2 in Hb.
Qed.

Lemma mem_any_spec id l : mem_any id l = true ↔ id ∈ ids l.
Proof.
  unfold mem_any, ids. rewrite existsb_exists, list_elem_of_fmap.
  split; intros (r & H1 & H2); exists r; rewrite list_elem_of_In in *.
  - by apply bool_decide_eq_true in H2.
  - split; [done|]. by apply bool_decide_eq_true.
Qed.

Lemma mem_recover_loop_spec now l n :
  mem_recover_loop now l n =
  (n + Z.of_nat (length (filter (λ r, is_orphan r = true) l)), recover now <$> l).
Proof.
  revert n. induction l as [|r l IH]; intros n; [simpl; f_equal; lia|].
  cbn [mem_recover_loop]. rewrite filter_cons, fmap_cons. unfold recover at 1.
  assert (match jr_status r with
          | Queued | Running => (n + 1, with_status Error now r)
          | _ => (n, r)
          end = if is_orphan r then (n + 1, with_status Error now r) else (n, r)) as ->
    by (unfold is_orphan; by destruct (jr_status r)).
  destruct (decide (is_orphan r = true)) as [E|E%not_true_iff_false];
    rewrite E, IH; simpl; f_equal; lia.
Qed.

Lemma mem_records st m :
  rep st m → Permutation (map_to_list m) (mem_entries st).
Proof.
  intros (Hnd & _ & ->). apply map_to_list_to_map. unfold mem_entries. by rewrite mem_entries_keys.
Qed.

Lemma ltm_eq (l1 l2 : list (string * Entry)) :
  l1 = l2 → (list_to_map l1 : Jobs) = list_to_map l2.
Proof. by intros ->. Qed.

#[export] Instance InMemory_laws : JobStoreLaws InMemoryJobStore.
Proof.
  split; [done|done|..].
  - intros st m id now user title desc process Hrep Hfresh Hnow _. split; [done|].
    assert (id ∉ ids (inner st)) as Hnew.
    { rewrite <- (mem_present st m id Hrep), Hfresh. by intros []. }
    destruct Hrep as (Hnd & Hlogs & ->). split; [|split].
    + unfold ids in *. simpl. rewrite fmap_app. apply NoDup_app. split; [done|].
      split; [|apply NoDup_singleton]. intros k Hk ->%list_elem_of_singleton. done.
    + intros k Hk%Hlogs. unfold ids in *. simpl. rewrite fmap_app. by apply elem_of_app; left.
    + unfold mem_entries at 2. simpl. rewrite fmap_app.
      assert (default [] (logs st !! id) = []) as Hl.
      { destruct (logs st !! id) eqn:E; [|done]. destruct Hnew. by apply Hlogs. }
      unfold mem_entry at 2. simpl. rewrite Hl, list_to_map_snoc; [done|].
      unfold mem_entries. by rewrite mem_entries_keys.
  - intros st m id Hrep. unfold get, InMemory_store, mem_get, spec_get.
    destruct (mem_find_spec id (inner st)) as [[-> Hn]|(r & -> & Hr & Hid)].
    + destruct (m !! id) eqn:E; [|done]. destruct Hn. by apply (mem_present st m id Hrep).
    + assert (m !! id = Some ((r, default [] (logs st !! id)) : Entry)) as ->; [|done].
      apply (mem_lookup st m id _ Hrep). by exists r.
  - intros st m user Hrep. eexists. split; [reflexivity|].
    rewrite (mem_records st m Hrep). unfold mem_entries. rewrite <- !list_fmap_compose.
    by rewrite list_fmap_id.
  - intros now id s _. by apply mem_update_refines.
  - intros now id p _ _. by apply mem_update_refines.
  - intros now id t d _. by apply mem_update_refines.
  - intros id st m Hrep. split; [done|]. destruct Hrep as (Hnd & Hlogs & ->).
    assert (ids (filter (λ r, jr_id r ≠ id) (inner st)) = filter (λ k, k ≠ id) (ids (inner st)))
      as Hids by (unfold ids; by rewrite filter_fmap).
    split; [|split].
    + simpl. rewrite Hids. by apply NoDup_filter.
    + simpl. intros k [lg Hk]. rewrite Hids. apply lookup_delete_Some in Hk as [Hne Hk].
      apply list_elem_of_filter. split; [done|]. by apply Hlogs.
    + rewrite <- list_to_map_remove. apply ltm_eq. unfold mem_entries. simpl.
      rewrite filter_fmap.
      assert (mem_entry (logs st) <$> filter (λ r, (mem_entry (logs st) r).1 ≠ id) (inner st) =
              mem_entry (delete id (logs st)) <$> filter (λ r, jr_id r ≠ id) (inner st)) as E.
      { apply list_fmap_ext. intros i r Hr. unfold mem_entry.
        apply list_elem_of_lookup_2, list_elem_of_filter in Hr as [Hne _].
        by rewrite lookup_delete_ne by done. }
      exact E.
  - intros now id a _. by apply mem_update_refines.
  - intros now id level msg st m Hrep. pose proof (mem_present st m id Hrep) as Hpres.
    unfold append_log, InMemory_store, mem_append_log, spec_update.
    pose proof (mem_any_spec id (inner st)) as Hany.
    destruct (mem_any id (inner st)); simpl.
    2:{ destruct (m !! id) eqn:E; [|done].
        assert (id ∈ ids (inner st)) as H%Hany by (by apply Hpres). done. }
    assert (id ∈ ids (inner st)) as Hin by (by apply Hany).
    apply Hpres in Hin as He. destruct He as [e He]. rewrite He. split; [done|].
    destruct Hrep as (Hnd & Hlogs & Hm). split; [done|]. split.
    + simpl. intros k [lg Hk]. destruct (decide (k = id)) as [->|Hne]; [done|].
      rewrite lookup_insert_ne in Hk by done. by apply Hlogs.
    + rewrite Hm, <- list_to_map_update. apply ltm_eq. unfold mem_entries. simpl.
      rewrite <- list_fmap_compose. apply list_fmap_ext. intros i r _. unfold mem_entry. simpl.
      destruct (decide (jr_id r = id)) as [->|Hne]; [by rewrite lookup_insert_eq|].
      by rewrite lookup_insert_ne.
  - intros st m id Hrep. unfold get_logs, InMemory_store, mem_get_logs, spec_get.
    pose proof (mem_any_spec id (inner st)) as Hany. pose proof (mem_present st m id Hrep) as Hpres.
    destruct (mem_any id (inner st)); simpl.
    + assert (id ∈ ids (inner st)) as He%Hpres by (by apply Hany). destruct He as [e He].
      rewrite He. apply (mem_lookup st m id e Hrep) in He as (r & _ & _ & ->). done.
    + destruct (m !! id) eqn:E; [|done].
      assert (id ∈ ids (inner st)) as H%Hany by (by apply Hpres). done.
  - intros now _ st m Hrep. unfold recover_orphans, InMemory_store, mem_recover_orphans.
    rewrite mem_recover_loop_spec. simpl. split.
    + f_equal. f_equal. rewrite (mem_records st m Hrep). unfold mem_entries.
      by rewrite filter_fmap, length_fmap.
    + destruct Hrep as (Hnd & Hlogs & ->).
      assert (ids (recover now <$> inner st) = ids (inner st)) as Hids.
      { unfold ids. rewrite <- list_fmap_compose. apply list_fmap_ext. intros i r _. simpl.
        unfold recover. by destruct (is_orphan r). }
      unfold rep, InMemory_rep. simpl. rewrite Hids. split; [done|]. split; [done|].
      rewrite <- list_to_map_fmap. apply ltm_eq. unfold mem_entries. simpl.
      rewrite <- !list_fmap_compose. apply list_fmap_ext. intros i r _. unfold mem_entry. simpl.
      assert (jr_id (recover now r) = jr_id r) as -> by (unfold recover; by destruct (is_orphan r)).
      done.
Qed.

(** ** Histories: a store answers like the map *)

Inductive job_op :=
| OCreate (id : string) (now : Z) (user : string) (title desc : option string) (process : Value)
| OGet (id : string)
| OList (user : string)
| OSetStatus (now : Z) (id : string) (s : JobStatus)
| OSetProgress (now : Z) (id : string) (p : f64)
| OSetMetadata (now : Z) (id : string) (title desc : option string)
| ODelete (id : string)
| OAddAsset (now : Z) (id : string) (a : JobAsset)
| OAppendLog (now : Z) (id level msg : string)
| OGetLogs (id : string)
| ORecover (now : Z).

Inductive response :=
| RRecord (r : result JobError JobRecord)
| RList (r : result JobError (list JobRecord))
| RUnit (r : result JobError unit)
| RLogs (r : result JobError (list JobLogEntry))
| RCount (r : result JobError Z).

(** Lists of jobs are compared as multisets: the trait promises no order. *)
Inductive same_response : response → response → Prop :=
| same_list l l' : Permutation l l' → same_response (RList (Ok l)) (RList (Ok l'))
| same_refl r : same_response r r.

Definition unit_step {St} (p : result JobError unit * St) : response * St := (RUnit p.1, p.2).

Definition store_step `{JobStore St} (op : job_op) (st : St) : response * St :=
  match op with
  | OCreate id now u t d p => let '(r, st) := create id now u t d p st in (RRecord r, st)
  | OGet id => (RRecord (get id st), st)
  | OList u => (RList (list_for_user u st), st)
  | OSetStatus now id s => unit_step (set_status now id s st)
  | OSetProgress now id p => unit_step (set_progress now id p st)
  | OSetMetadata now id t d => unit_step (set_metadata now id t d st)
  | ODelete id => unit_step (delete_job id st)
  | OAddAsset now id a => unit_step (add_asset now id a st)
  | OAppendLog now id l msg => unit_step (append_log now id l msg st)
  | OGetLogs id => (RLogs (get_logs id st), st)
  | ORecover now => let '(r, st) := recover_orphans now st in (RCount r, st)
  end.

Definition spec_step (op : job_op) (m : Jobs) : response * Jobs :=
  match op with
  | OCreate id now u t d p =>
      (RRecord (Ok (new_record id now u t d p)), <[id := (new_record id now u t d p, [])]> m)
  | OGet id => (RRecord (spec_get fst id m), m)
  | OList u => (RList (Ok (filter (λ r, jr_user_id r = u) (map_to_list m).*2.*1)), m)
  | OSetStatus now id s => unit_step (spec_update (on_record (with_status s now)) id m)
  | OSetProgress now id p =>
      unit_step (spec_update (on_record (with_progress (Some (clamp_progress p)) now)) id m)
  | OSetMetadata now id t d => unit_step (spec_update (on_record (with_metadata t d now)) id m)
  | ODelete id => (RUnit (Ok ()), delete id m)
  | OAddAsset now id a => unit_step (spec_update (on_record (with_asset a now)) id m)
  | OAppendLog now id l msg => unit_step (spec_update (add_log now l msg) id m)
  | OGetLogs id => (RLogs (spec_get snd id m), m)
  | ORecover now =>
      (RCount (Ok (Z.of_nat (length (filter (λ e, is_orphan e.2.1 = true) (map_to_list m))))),
       on_record (recover now) <$> m)
  end.

(** New ids are fresh, times are [u64]s, and the store keeps the process graphs and
    the progress values it is given. *)
Definition op_ok (St : Type) `{JobStoreDomain St} (op : job_op) (m : Jobs) : Prop :=
  match op with
  | OCreate id now _ _ _ process => m !! id = None ∧ in_u 64 now ∧ keeps_process St process
  | OSetStatus now _ _ | OSetMetadata now _ _ _ | OAddAsset now _ _ | ORecover now => in_u 64 now
  | OSetProgress now _ p => in_u 64 now ∧ keeps_progress St p
  | _ => True
  end.

Fixpoint run {A} (step : job_op → A → response * A) (ops : list job_op) (a : A)
    : list response * A :=
  match ops with
  | [] => ([], a)
  | op :: ops => let '(r, a) := step op a in let '(rs, a) := run step ops a in (r :: rs, a)
  end.

Fixpoint ops_ok (St : Type) `{JobStoreDomain St} (ops : list job_op) (m : Jobs) : Prop :=
  match ops with
  | [] => True
  | op :: ops => op_ok St op m ∧ ops_ok St ops (spec_step op m).2
  end.

Lemma step_simulation `{JobStoreLaws St} op st m :
  rep st m → op_ok St op m →
  same_response (store_step op st).1 (spec_step op m).1 ∧
  rep (store_step op st).2 (spec_step op m).2.
Proof.
  intros Hrep Hok. destruct op; simpl in *.
  - destruct (create_law st m id now user title desc process) as [Hr1 Hr2]; [done|apply Hok..|].
    destruct (create _ _ _ _ _ _ st). simpl in *. subst. split; [constructor|done].
  - rewrite (get_law st m) by done. split; [constructor|done].
  - destruct (list_law st m user) as (l & -> & Hl); [done|]. split; [by constructor|done].
  - destruct (set_status_law now id s Hok st m Hrep) as [-> ?]. split; [constructor|done].
  - destruct Hok as [Hnow Hp].
    destruct (set_progress_law now id p Hnow Hp st m Hrep) as [-> ?]. split; [constructor|done].
  - destruct (set_metadata_law now id title desc Hok st m Hrep) as [-> ?].
    split; [constructor|done].
  - destruct (delete_law id st m Hrep) as [-> ?]. split; [constructor|done].
  - destruct (add_asset_law now id a Hok st m Hrep) as [-> ?]. split; [constructor|done].
  - destruct (append_log_law now id level msg st m Hrep) as [-> ?]. split; [constructor|done].
  - rewrite (get_logs_law st m) by done. split; [constructor|done].
  - destruct (recover_law now Hok st m Hrep) as [Hr1 Hr2].
    destruct (recover_orphans now st). simpl in *. subst. split; [constructor|done].
Qed.

Lemma run_simulation `{JobStoreLaws St} ops st m :
  rep st m → ops_ok St ops m →
  Forall2 same_response (run store_step ops st).1 (run spec_step ops m).1 ∧
  rep (run store_step ops st).2 (run spec_step ops m).2.
Proof.
  revert st m. induction ops as [|op ops IH]; intros st m Hrep; simpl.
  - intros _. split; [constructor|done].
  - intros [Hop Hops]. destruct (step_simulation op st m Hrep Hop) as [Hr Hrep'].
    destruct (store_step op st) as [r st'], (spec_step op m) as [r' m']. simpl in *.
    destruct (IH st' m' Hrep' Hops) as [Hrs Hrep''].
    destruct (run store_step ops st'), (run spec_step ops m'). simpl in *.
    split; [by constructor|done].
Qed.

Lemma InMemory_new_rep : rep InMemory_new ∅.
Proof. split; [constructor|]. split; [|done]. intros id [x Hx]. simpl in Hx. by rewrite lookup_empty in Hx. Qed.

(** ** Properties *)

(** C16: the in-memory store implements the contract: started empty, it answers
    any sequence of operations (creations with fresh ids, reads, updates, log
    writes, deletions and orphan recoveries, on present or absent jobs, with times
    that are [u64]s and any process graph and progress) exactly as a map from ids
    to a record and its log does, and ends holding that map. *)
Theorem in_memory_refines_contract (ops : list job_op) :
  ops_ok InMemoryJobStore ops ∅ →
  Forall2 same_response (run store_step ops InMemory_new).1 (run spec_step ops ∅).1 ∧
  rep (run store_step ops InMemory_new).2 (run spec_step ops ∅).2.
Proof. intros Hok. apply run_simulation; [apply InMemory_new_rep|done]. Qed.

Definition demo_ops : list job_op := [
  OCreate "j1" 5 "alice" (Some "t") None Null;
  OSetStatus 6 "j1" Running; OAppendLog 6 "j1" "info" "job started";
  OSetStatus 7 "j2" Finished; ORecover 8; OGet "j1"; ODelete "j1"; OGetLogs "j1" ].

Lemma in_memory_refines_contract_witness :
  ops_ok InMemoryJobStore demo_ops ∅ ∧
  Forall2 same_response (run store_step demo_ops InMemory_new).1 (run spec_step demo_ops ∅).1.
Proof.
  assert (ops_ok InMemoryJobStore demo_ops ∅) as Hok by (repeat split; vm_compute; congruence).
  split; [exact Hok|]. exact (proj1 (in_memory_refines_contract demo_ops Hok)).
Defined.

(** Orphan recovery never touches a job that is finished, failed, canceled
    or merely created, leaves no job queued or running, reports how many it
    changed, and is idempotent. *)
Theorem recovery_clears_orphans `{JobStoreLaws St} (st : St) (m : Jobs) (now : Z)
    (Hrep : rep st m) (Hnow : in_u 64 now) :
  let st' := (recover_orphans now st).2 in
  (∀ id r lg, m !! id = Some (r, lg) →
     get id st' = Ok (if is_orphan r then with_status Error now r else r)) ∧
  (∀ id, m !! id = None → get id st' = Err (NotFound id)) ∧
  (∀ id r, get id st' = Ok r → is_orphan r = false) ∧
  (recover_orphans now st).1 =
    Ok (Z.of_nat (length (filter (λ e, is_orphan e.2.1 = true) (map_to_list m)))) ∧
  ∀ now', in_u 64 now' → (recover_orphans now' st').1 = Ok 0.
Proof.
  destruct (recover_law now Hnow st m Hrep) as [Hcount Hrep']. cbn [fst snd] in Hcount, Hrep'.
  cbv zeta. assert (∀ r, is_orphan (recover now r) = false) as Hclear.
  { intros r. unfold recover. by destruct (is_orphan r) eqn:E. }
  assert (∀ id, get id (recover_orphans now st).2 =
    match m !! id with Some e => Ok (recover now e.1) | None => Err (NotFound id) end) as Hget.
  { intros id. rewrite (get_law _ _ id Hrep'). unfold spec_get. rewrite lookup_fmap.
    by destruct (m !! id). }
  split; [|split; [|split; [|split]]].
  - intros id r lg Hid. by rewrite Hget, Hid.
  - intros id Hid. by rewrite Hget, Hid.
  - intros id r. rewrite Hget. destruct (m !! id); [|done]. intros [= <-]. apply Hclear.
  - done.
  - intros now' Hnow'. destruct (recover_law now' Hnow' _ _ Hrep') as [-> _]. simpl.
    rewrite map_to_list_fmap, filter_fmap.
    assert (filter (λ x : string * Entry,
      is_orphan (prod_map id (on_record (recover now)) x).2.1 = true) (map_to_list m) = []) as ->;
      [|done].
    clear -Hclear. induction (map_to_list m) as [|e l IH]; [done|].
    rewrite filter_cons_False; [exact IH|]. simpl. by rewrite Hclear.
Qed.

Lemma recovery_clears_orphans_witness :
  ∃ st m, rep st m ∧ m !! "j1" ≠ None ∧
    get "j1" (recover_orphans 9 st).2 =
      Ok (with_status Error 9 (with_status Running 6 (new_record "j1" 5 "u" None None Null))).
Proof.
  set (ops := [OCreate "j1" 5 "u" None None Null; OSetStatus 6 "j1" Running]).
  assert (ops_ok InMemoryJobStore ops ∅) as Hok by (repeat split; vm_compute; congruence).
  destruct (run_simulation ops InMemory_new ∅ InMemory_new_rep Hok) as [_ Hrep].
  eexists _, _. split; [exact Hrep|]. split; [vm_compute; congruence|].
  destruct (recovery_clears_orphans _ _ 9 Hrep ltac:(by split)) as [H _].
  exact (H "j1" (with_status Running 6 (new_record "j1" 5 "u" None None Null)) [] eq_refl).
Defined.
