(* ===== verification/SqlStore.v ===== *)
(** * The SQLite job store: [SqliteJobStore] of apps/orbit-openeo/src/job_store.rs

    The database and the JSON codec are third-party code: a table of rows with
    the statements the store issues ([SqlDb]), and the encoding of a column's
    document ([Codec]), each with its documented behaviour as laws.  Under the
    laws the store meets the contract of JobStore.v; [ListDb] and [PlainCodec]
    are concrete instances. *)

From stdpp Require Import sorting.
From Stdlib Require Import Sorted.
From S2P Require Import Prelude F64 Json Calendar JobStore.
Local Open Scope Z_scope.

(** ** Rows, documents and statements *)

Class Codec (Text : Type) := {
  process_to_string : Value → result string Text;
  process_from_str : Text → result string Value;
  assets_to_string : list JobAsset → result string Text;
  assets_from_str : Text → result string (list JobAsset);
  logs_to_string : list JobLogEntry → result string Text;
  logs_from_str : Text → result string (list JobLogEntry);
  empty_array : Text  (* the text [] *) }.

Class CodecLaws (Text : Type) `{Codec Text} : Prop := {
  process_codec v : no_float v = true →
    ∃ t, process_to_string v = Ok t ∧ process_from_str t = Ok v;
  assets_codec l : ∃ t, assets_to_string l = Ok t ∧ assets_from_str t = Ok l;
  logs_codec l : ∃ t, logs_to_string l = Ok t ∧ logs_from_str t = Ok l;
  empty_assets : assets_from_str empty_array = Ok [];
  empty_logs : logs_from_str empty_array = Ok [] }.

(** The columns of the table [jobs]. *)
Record Row (Text : Type) := mkRow {
  c_id : string; c_user_id : string; c_title : option string; c_description : option string;
  c_process : Text; c_status : string; c_progress : option f64;
  c_created : Z; c_updated : Z; c_assets : Text; c_logs : Text }.
Arguments mkRow {Text}. Arguments c_id {Text}. Arguments c_user_id {Text}.
Arguments c_title {Text}. Arguments c_description {Text}. Arguments c_process {Text}.
Arguments c_status {Text}. Arguments c_progress {Text}. Arguments c_created {Text}.
Arguments c_updated {Text}. Arguments c_assets {Text}. Arguments c_logs {Text}.

(** The statements: INSERT, SELECT .. WHERE, SELECT .. WHERE .. ORDER BY,
    UPDATE .. WHERE with its count of rows, and DELETE .. WHERE. *)
Class SqlDb (Db Text : Type) := {
  db_insert : Row Text → Db → result string Db;
  db_select : (Row Text → bool) → Db → result string (list (Row Text));
  db_select_by : (Row Text → Z) → (Row Text → bool) → Db → result string (list (Row Text));
  db_update : (Row Text → bool) → (Row Text → Row Text) → Db → result string (Z * Db);
  db_delete : (Row Text → bool) → Db → result string Db;
  db_begin : Db → result string unit;   (* BEGIN *)
  db_commit : Db → result string unit   (* COMMIT *) }.

(** The behaviour of a working database: [id] is the primary key. *)
Class SqlLaws (Db Text : Type) `{SqlDb Db Text} := {
  rows : Db → list (Row Text);
  insert_law db row : c_id row ∉ c_id <$> rows db →
    ∃ db', db_insert row db = Ok db' ∧ Permutation (rows db') (row :: rows db);
  select_law db p : ∃ l, db_select p db = Ok l ∧
    Permutation l (filter (λ r, p r = true) (rows db));
  select_by_law db key p : ∃ l, db_select_by key p db = Ok l ∧
    Permutation l (filter (λ r, p r = true) (rows db)) ∧ Sorted (λ a b, key a ≤ key b) l;
  update_law db p f : (∀ r, c_id (f r) = c_id r) →
    ∃ db', db_update p f db = Ok (Z.of_nat (length (filter (λ r, p r = true) (rows db))), db') ∧
      Permutation (rows db') ((λ r, if p r then f r else r) <$> rows db);
  db_delete_law db p : ∃ db', db_delete p db = Ok db' ∧
    Permutation (rows db') (filter (λ r, p r = false) (rows db));
  db_begin_law db : db_begin db = Ok ();
  db_commit_law db : db_commit db = Ok () }.

(** Binding an [f64]: SQLite stores NaN as NULL. *)
Definition bind_real (x : f64) : option f64 := if is_nan x then None else Some x.

(** The status text, read back through its serde names; the wording of a decoding
    error is serde_json's. *)
Definition status_from_str (s : string) : option JobStatus :=
  List.find (λ st, bool_decide (status_as_str st = s))
    [Created; Queued; Running; Canceled; Finished; Error].

Section sqlite.
Context {Db Text : Type} `{Codec Text} `{SqlDb Db Text}.

Definition backend {A} (what : string) (r : result string A) : result JobError A :=
  map_err (λ e, Backend (what +:+ e)) r.

Definition row_to_record (r : Row Text) : result JobError JobRecord :=
  process ← backend "process json: " (process_from_str (c_process r));
  status ← ok_or (status_from_str (c_status r)) (Backend "status: unknown variant");
  assets ← backend "assets: " (assets_from_str (c_assets r));
  Ok (mkJobRecord (c_id r) (c_user_id r) (c_title r) (c_description r) process status
        (c_progress r) (wrap 64 (c_created r)) (wrap 64 (c_updated r)) assets).

Definition by_id (id : string) (r : Row Text) : bool := bool_decide (c_id r = id).

(** [fetch_optional] *)
Definition select_one (id : string) (db : Db) : result string (option (Row Text)) :=
  rs ← db_select (by_id id) db; Ok (head rs).

Definition sql_create (id : string) (now : Z) (user_id : string)
    (title description : option string) (process : Value) (db : Db)
    : result JobError JobRecord * Db :=
  let now := to_signed 64 now in
  match backend "encode process: " (process_to_string process) with
  | Err e => (Err e, db)
  | Ok process_json =>
      match db_insert (mkRow id user_id title description process_json
                         (status_as_str Created) (bind_real f64_zero) now now
                         empty_array empty_array) db with
      | Err e => (Err (Backend ("insert: " +:+ e)), db)
      | Ok db' =>
          (Ok (mkJobRecord id user_id title description process Created (Some f64_zero)
                 (wrap 64 now) (wrap 64 now) []), db')
      end
  end.

Definition sql_get (id : string) (db : Db) : result JobError JobRecord :=
  row ← backend "select: " (select_one id db);
  r ← ok_or row (NotFound id);
  row_to_record r.

Definition sql_list_for_user (user_id : string) (db : Db) : result JobError (list JobRecord) :=
  rs ← backend "select: " (db_select_by c_created (λ r, bool_decide (c_user_id r = user_id)) db);
  result_traverse row_to_record rs.

(** UPDATE .. WHERE id = ?, and [NotFound] when no row is affected. *)
Definition update_by_id (what id : string) (f : Row Text → Row Text) (db : Db)
    : result JobError unit * Db :=
  match db_update (by_id id) f db with
  | Err e => (Err (Backend (what +:+ e)), db)
  | Ok (affected, db') => (if affected =? 0 then Err (NotFound id) else Ok (), db')
  end.

Definition row_status (s : string) (now : Z) (r : Row Text) : Row Text :=
  mkRow (c_id r) (c_user_id r) (c_title r) (c_description r) (c_process r) s (c_progress r)
    (c_created r) now (c_assets r) (c_logs r).
Definition row_progress (p : option f64) (now : Z) (r : Row Text) : Row Text :=
  mkRow (c_id r) (c_user_id r) (c_title r) (c_description r) (c_process r) (c_status r) p
    (c_created r) now (c_assets r) (c_logs r).
(** COALESCE(?, column) *)
Definition coalesce {A} (x y : option A) : option A :=
  match x with Some _ => x | None => y end.
Definition row_metadata (title description : option string) (now : Z) (r : Row Text) : Row Text :=
  mkRow (c_id r) (c_user_id r) (coalesce title (c_title r))
    (coalesce description (c_description r)) (c_process r) (c_status r) (c_progress r)
    (c_created r) now (c_assets r) (c_logs r).
Definition row_assets (t : Text) (now : Z) (r : Row Text) : Row Text :=
  mkRow (c_id r) (c_user_id r) (c_title r) (c_description r) (c_process r) (c_status r)
    (c_progress r) (c_created r) now t (c_logs r).
Definition row_logs (t : Text) (r : Row Text) : Row Text :=
  mkRow (c_id r) (c_user_id r) (c_title r) (c_description r) (c_process r) (c_status r)
    (c_progress r) (c_created r) (c_updated r) (c_assets r) t.

Definition sql_set_status (now : Z) (id : string) (s : JobStatus) : Db → result JobError unit * Db :=
  update_by_id "update: " id (row_status (status_as_str s) (to_signed 64 now)).
Definition sql_set_progress (now : Z) (id : string) (p : f64) : Db → result JobError unit * Db :=
  update_by_id "update: " id
    (row_progress (bind_real (f64_clamp p f64_zero f64_hundred)) (to_signed 64 now)).
Definition sql_set_metadata (now : Z) (id : string) (title description : option string)
    : Db → result JobError unit * Db :=
  update_by_id "set_metadata: " id (row_metadata title description (to_signed 64 now)).

Definition sql_delete (id : string) (db : Db) : result JobError unit * Db :=
  match db_delete (by_id id) db with
  | Err e => (Err (Backend ("delete: " +:+ e)), db)
  | Ok db' => (Ok (), db')
  end.

(** A read-modify-write of one row in a transaction: an error leaves the
    database as it was. *)
Definition transact (sel what id : string) (change : Row Text → result JobError (Row Text → Row Text))
    (db : Db) : result JobError unit * Db :=
  match (_ ← backend "tx: " (db_begin db);
         row ← backend sel (select_one id db);
         r ← ok_or row (NotFound id);
         f ← change r;
         res ← backend what (db_update (by_id id) f db);
         _ ← backend "commit: " (db_commit res.2);
         Ok res.2) with
  | Ok db' => (Ok (), db')
  | Err e => (Err e, db)
  end.

Definition sql_add_asset (now : Z) (id : string) (asset : JobAsset)
    : Db → result JobError unit * Db :=
  transact "select: " "update: " id (λ r,
    assets ← backend "decode assets: " (assets_from_str (c_assets r));
    t ← backend "encode assets: " (assets_to_string (assets ++ [asset]));
    Ok (row_assets t (to_signed 64 now))).

Definition sql_append_log (now : Z) (id level message : string)
    : Db → result JobError unit * Db :=
  transact "select logs: " "update logs: " id (λ r,
    logs ← backend "decode logs: " (logs_from_str (c_logs r));
    let entry := mkJobLogEntry (pretty (N.of_nat (length logs))) level message (iso8601 now) in
    t ← backend "encode logs: " (logs_to_string (logs ++ [entry]));
    Ok (row_logs t)).

Definition sql_get_logs (id : string) (db : Db) : result JobError (list JobLogEntry) :=
  row ← backend "select logs: " (select_one id db);
  r ← ok_or row (NotFound id);
  backend "decode logs: " (logs_from_str (c_logs r)).

(** WHERE status IN ('queued', 'running') *)
Definition in_flight (r : Row Text) : bool := bool_decide (c_status r ∈ ["queued"; "running"]).

Definition sql_recover_orphans (now : Z) (db : Db) : result JobError Z * Db :=
  match db_update in_flight (row_status "error" (to_signed 64 now)) db with
  | Err e => (Err (Backend ("recover_orphans: " +:+ e)), db)
  | Ok (n, db') => (Ok n, db')
  end.
End sqlite.

#[export] Instance Sqlite_store {Db Text} `{Codec Text} `{SqlDb Db Text} : JobStore Db := {
  create := sql_create;
  get := sql_get;
  list_for_user := sql_list_for_user;
  set_status := sql_set_status;
  set_progress := sql_set_progress;
  set_metadata := sql_set_metadata;
  delete_job := sql_delete;
  add_asset := sql_add_asset;
  append_log := sql_append_log;
  get_logs := sql_get_logs;
  recover_orphans := sql_recover_orphans }.

(** ** The store meets the contract *)

Section refinement.
Context {Db Text : Type} `{CodecLaws Text} `{SqlLaws Db Text}.

Definition row_entry (r : Row Text) : option Entry :=
  match row_to_record r, logs_from_str (c_logs r) with
  | Ok rec, Ok lg => Some (rec, lg)
  | _, _ => None
  end.

Definition row_rel (r : Row Text) (e : string * Entry) : Prop :=
  c_id r = e.1 ∧ row_entry r = Some e.2.

(** Every row decodes, ids are distinct, and the jobs are the decoded rows. *)
#[export] Instance Sqlite_rep : JobStoreRep Db := λ db m,
  ∃ es, Forall2 row_rel (rows db) es ∧ NoDup es.*1 ∧ m = list_to_map es.

Lemma rows_ids l es : Forall2 row_rel l es → c_id <$> l = es.*1.
Proof. induction 1 as [|r e l es [Hid _] _ IH]; [done|]. by rewrite !fmap_cons, Hid, IH. Qed.

Lemma row_entry_id r e : row_entry r = Some e → jr_id e.1 = c_id r.
Proof.
  unfold row_entry, row_to_record.
  destruct (process_from_str _); simpl; [|done]. destruct (status_from_str _); simpl; [|done].
  destruct (assets_from_str _); simpl; [|done]. destruct (logs_from_str _); [|done].
  by intros [= <-].
Qed.

(** The rep relation only depends on the rows up to their order. *)
Lemma rep_rows db' l es :
  Permutation (rows db') l → Forall2 row_rel l es → NoDup es.*1 → rep db' (list_to_map es).
Proof.
  intros Hp Hf Hnd. symmetry in Hp. destruct (Permutation_Forall2 Hp Hf) as (es' & Hes & Hf').
  exists es'. split; [done|]. split; [by rewrite <- Hes|]. by apply list_to_map_proper.
Qed.

(** The row of a job, and its absence. *)
Lemma rep_row db m id :
  rep db m →
  match m !! id with
  | Some e => ∃ r, filter (λ r, by_id id r = true) (rows db) = [r] ∧ c_id r = id ∧
                row_entry r = Some e
  | None => filter (λ r, by_id id r = true) (rows db) = []
  end.
Proof.
  intros (es & Hf & Hnd & ->). induction Hf as [|r [k e] l es [Hid He] Hf IH].
  - simpl. by rewrite lookup_empty.
  - simpl in Hnd, Hid, He. apply NoDup_cons in Hnd as [Hk Hnd]. specialize (IH Hnd).
    rewrite list_to_map_cons, filter_cons.
    destruct (decide (k = id)) as [->|Hne].
    + rewrite lookup_insert_eq.
      rewrite decide_True by (unfold by_id; by rewrite bool_decide_eq_true_2). exists r. apply not_elem_of_list_to_map in Hk. rewrite Hk in IH. by rewrite IH.
    + rewrite lookup_insert_ne by done. rewrite decide_False; [done|].
      unfold by_id. by rewrite bool_decide_eq_false_2 by congruence.
Qed.

Lemma filter_singleton_perm {A} (l : list A) x : Permutation l [x] → l = [x].
Proof. intros Hp. by apply Permutation_singleton_r. Qed.

Lemma select_one_spec db m id :
  rep db m →
  ∃ o, select_one id db = Ok o ∧
    match m !! id with
    | Some e => ∃ r, o = Some r ∧ c_id r = id ∧ row_entry r = Some e
    | None => o = None
    end.
Proof.
  intros Hrep. destruct (select_law db (by_id id)) as (l & Hl & Hp).
  unfold select_one. rewrite Hl. simpl. eexists. split; [done|].
  pose proof (rep_row db m id Hrep) as Hr. destruct (m !! id) as [e|].
  - destruct Hr as (r & Hr & Hid & He). rewrite Hr in Hp. apply filter_singleton_perm in Hp as ->.
    by exists r.
  - rewrite Hr in Hp. symmetry in Hp. apply Permutation_nil in Hp as ->. done.
Qed.

Lemma alter_keys (f : Entry → Entry) id (es : list (string * Entry)) :
  ((λ e, if decide (e.1 = id) then (e.1, f e.2) else e) <$> es).*1 = es.*1.
Proof.
  rewrite <- list_fmap_compose. apply list_fmap_ext. intros i e _. simpl. by destruct (decide _).
Qed.

(** Updating the row of a job updates its entry. *)
Lemma rep_update db m id g f db' :
  rep db m →
  (∀ r e, m !! id = Some e → row_entry r = Some e → row_entry (g r) = Some (f e)) →
  (∀ r, c_id (g r) = c_id r) →
  Permutation (rows db') ((λ r, if by_id id r then g r else r) <$> rows db) →
  rep db' (alter f id m).
Proof.
  intros (es & Hf & Hnd & ->) Hg Hid Hp. rewrite <- list_to_map_update.
  eapply rep_rows; [exact Hp| |by rewrite alter_keys].
  apply Forall2_fmap. eapply Forall2_impl_in; [exact Hf|].
  intros r [k e] Hin [Hk He]. unfold by_id. simpl in *.
  destruct (decide (k = id)) as [->|Hne].
  - rewrite bool_decide_eq_true_2 by done. split; [simpl; by rewrite Hid|]. simpl. apply Hg; [|done].
    by apply elem_of_list_to_map.
  - rewrite bool_decide_eq_false_2 by congruence. done.
Qed.

Lemma update_by_id_refines what id g f :
  (∀ r e, row_entry r = Some e → row_entry (g r) = Some (f e)) → (∀ r, c_id (g r) = c_id r) →
  refines (update_by_id what id g) (spec_update f id).
Proof.
  intros Hg Hid db m Hrep. unfold update_by_id, spec_update.
  destruct (update_law db (by_id id) g Hid) as (db' & -> & Hp).
  pose proof (rep_row db m id Hrep) as Hr.
  destruct (m !! id) as [e|] eqn:Hm.
  - destruct Hr as (r & -> & _ & _). simpl. split; [done|].
    by eapply rep_update; [done|intros; by apply Hg|done|].
  - rewrite Hr. simpl. split; [done|]. replace m with (alter f id m).
    + eapply rep_update; [done|intros r e; congruence|done|done].
    + by apply alter_id; intros; congruence.
Qed.

Lemma transact_refines sel what id change f :
  (∀ r e, row_entry r = Some e → ∃ g, change r = Ok g ∧
     (∀ r', row_entry r' = Some e → row_entry (g r') = Some (f e)) ∧ ∀ r', c_id (g r') = c_id r') →
  refines (transact sel what id change) (spec_update f id).
Proof.
  intros Hc db m Hrep. unfold transact, spec_update. rewrite db_begin_law. simpl.
  destruct (select_one_spec db m id Hrep) as (o & -> & Ho). simpl.
  destruct (m !! id) as [e|] eqn:Hm.
  - destruct Ho as (r & -> & _ & He). simpl.
    destruct (Hc r e He) as (g & -> & Hg & Hid). simpl.
    destruct (update_law db (by_id id) g Hid) as (db' & -> & Hp). simpl.
    rewrite db_commit_law. simpl. split; [done|].
    eapply rep_update; [done| |done|done]. intros r' e' He'. assert (e' = e) as -> by congruence.
    apply Hg.
  - by rewrite Ho.
Qed.

Lemma row_entry_inv r e :
  row_entry r = Some e →
  ∃ process status assets lg,
    process_from_str (c_process r) = Ok process ∧ status_from_str (c_status r) = Some status ∧
    assets_from_str (c_assets r) = Ok assets ∧ logs_from_str (c_logs r) = Ok lg ∧
    e = (mkJobRecord (c_id r) (c_user_id r) (c_title r) (c_description r) process status
           (c_progress r) (wrap 64 (c_created r)) (wrap 64 (c_updated r)) assets, lg).
Proof.
  unfold row_entry, row_to_record.
  destruct (process_from_str _) as [process|]; simpl; [|done].
  destruct (status_from_str _) as [status|]; simpl; [|done].
  destruct (assets_from_str _) as [assets|]; simpl; [|done].
  destruct (logs_from_str _) as [lg|]; [|done]. intros [= <-]. by eexists _, _, _, _.
Qed.

Lemma status_roundtrip s : status_from_str (status_as_str s) = Some s.
Proof. by destruct s. Qed.

Ltac decode_row :=
  intros r e (process & status & assets & lg & Hp & Hs & Ha & Hl & ->)%row_entry_inv;
  unfold row_entry, row_to_record; simpl; rewrite Hp; simpl.

Lemma row_status_entry s now :
  in_u 64 now →
  ∀ r e, row_entry r = Some e →
    row_entry (row_status (status_as_str s) (to_signed 64 now) r) =
    Some (on_record (with_status s now) e).
Proof.
  intros Hnow. decode_row. rewrite status_roundtrip. simpl. rewrite Ha. simpl.
  rewrite Hl, wrap_to_signed by done. done.
Qed.

Lemma row_progress_entry p now :
  in_u 64 now →
  ∀ r e, row_entry r = Some e →
    row_entry (row_progress p (to_signed 64 now) r) = Some (on_record (with_progress p now) e).
Proof.
  intros Hnow. decode_row. rewrite Hs. simpl. rewrite Ha. simpl.
  rewrite Hl, wrap_to_signed by done. done.
Qed.

Lemma row_metadata_entry t d now :
  in_u 64 now →
  ∀ r e, row_entry r = Some e →
    row_entry (row_metadata t d (to_signed 64 now) r) = Some (on_record (with_metadata t d now) e).
Proof.
  intros Hnow. decode_row. rewrite Hs. simpl. rewrite Ha. simpl.
  rewrite Hl, wrap_to_signed by done. done.
Qed.

Lemma row_assets_entry t a now :
  in_u 64 now →
  ∀ r e, assets_from_str t = Ok (jr_assets e.1 ++ [a]) → row_entry r = Some e →
    row_entry (row_assets t (to_signed 64 now) r) = Some (on_record (with_asset a now) e).
Proof.
  intros Hnow r e Ht (process & status & assets & lg & Hp & Hs & Ha & Hl & ->)%row_entry_inv.
  unfold row_entry, row_to_record. simpl in *. rewrite Hp, Hs. simpl. rewrite Ht. simpl.
  by rewrite Hl, wrap_to_signed.
Qed.

Lemma row_logs_entry t le :
  ∀ r e, logs_from_str t = Ok (e.2 ++ [le]) → row_entry r = Some e →
    row_entry (row_logs t r) = Some (e.1, e.2 ++ [le]).
Proof.
  intros r e Ht (process & status & assets & lg & Hp & Hs & Ha & Hl & ->)%row_entry_inv.
  unfold row_entry, row_to_record. simpl in *. rewrite Hp, Hs. simpl. rewrite Ha. simpl.
  by rewrite Ht.
Qed.

Lemma bind_real_clamp p :
  is_nan p = false → bind_real (f64_clamp p f64_zero f64_hundred) = Some (clamp_progress p).
Proof.
  intros Hp. unfold bind_real, clamp_progress, f64_clamp.
  destruct (f64_ltb p f64_zero); [done|]. destruct (f64_ltb f64_hundred p); [done|]. by rewrite Hp.
Qed.

Lemma in_flight_orphan r e : row_entry r = Some e → in_flight r = is_orphan e.1.
Proof.
  intros (process & status & assets & lg & _ & Hs & _ & _ & ->)%row_entry_inv. unfold in_flight.
  assert (c_status r = status_as_str status) as ->.
  { apply find_some_iff in Hs as [_ Hs]. by apply bool_decide_eq_true in Hs. }
  by destruct status.
Qed.
Lemma filter_rel_length l es :
  Forall2 row_rel l es →
  length (filter (λ r, in_flight r = true) l) =
  length (filter (λ e : string * Entry, is_orphan e.2.1 = true) es).
Proof.
  intros Hf. eapply Forall2_length, Forall2_filter; [|exact Hf].
  intros r [k e] [_ He]. simpl in *. by rewrite (in_flight_orphan r e He).
Qed.

Lemma recover_refines now :
  in_u 64 now →
  refines (sql_recover_orphans now)
    (λ m, (Ok (Z.of_nat (length (filter (λ e, is_orphan e.2.1 = true) (map_to_list m)))),
           on_record (recover now) <$> m)).
Proof.
  intros Hnow db m (es & Hf & Hnd & ->). unfold sql_recover_orphans.
  destruct (update_law db in_flight (row_status "error" (to_signed 64 now))) as (db' & -> & Hp);
    [done|]. simpl. split.
  - rewrite (filter_rel_length _ _ Hf). f_equal. f_equal.
    by rewrite (map_to_list_to_map es Hnd).
  - rewrite <- list_to_map_fmap. eapply rep_rows; [exact Hp| |].
    + apply Forall2_fmap. eapply Forall2_impl; [exact Hf|]. intros r [k e] [Hk He]. simpl in *.
      rewrite (in_flight_orphan r e He). unfold recover, on_record.
      destruct (is_orphan e.1) eqn:Ho; (split; [done|]); simpl.
      * exact (row_status_entry Error now Hnow r e He).
      * rewrite He. by destruct e.
    + rewrite <- list_fmap_compose. by rewrite (list_fmap_ext _ fst).
Qed.

(** Kept are the process graphs that read back unchanged from their text, and the
    progress values that are numbers: a NaN is bound as NULL. *)
#[export] Instance Sqlite_domain : JobStoreDomain Db := {
  keeps_process v := ∃ t, process_to_string v = Ok t ∧ process_from_str t = Ok v;
  keeps_progress p := is_nan p = false }.

#[export] Instance Sqlite_laws : JobStoreLaws Db.
Proof.
  split.
  - exact process_codec.
  - done.
  - intros db m id now user title desc process Hrep Hfresh Hnow (t & Ht & Ht').
    unfold create, Sqlite_store, sql_create. rewrite Ht. simpl.
    pose proof (rep_row db m id Hrep) as Hr. rewrite Hfresh in Hr.
    destruct (insert_law db (mkRow id user title desc t (status_as_str Created)
      (bind_real f64_zero) (to_signed 64 now) (to_signed 64 now) empty_array empty_array))
      as (db' & Hins & Hp).
    { simpl. intros (r & Hid & Hin)%list_elem_of_fmap.
      assert (r ∈ filter (λ r, by_id id r = true) (rows db)) as Hin'.
      { apply list_elem_of_filter. split; [|done]. unfold by_id. by rewrite bool_decide_eq_true_2. }
      rewrite Hr in Hin'. by apply elem_of_nil in Hin'. }
    simpl in Hins. rewrite Hins. simpl. rewrite wrap_to_signed by done. split; [done|].
    destruct Hrep as (es & Hf & Hnd & ->). rewrite <- list_to_map_cons.
    eapply rep_rows; [exact Hp| |].
    + constructor; [|done]. split; [done|]. unfold row_entry, row_to_record. simpl.
      rewrite Ht'. simpl. rewrite empty_assets, empty_logs. simpl. by rewrite wrap_to_signed.
    + simpl. apply NoDup_cons. split; [|done]. by apply not_elem_of_list_to_map.
  - intros db m id Hrep. unfold get, Sqlite_store, sql_get, spec_get.
    destruct (select_one_spec db m id Hrep) as (o & -> & Ho). simpl.
    destruct (m !! id) as [e|]; [|by rewrite Ho]. destruct Ho as (r & -> & _ & He). simpl.
    unfold row_entry in He. destruct (row_to_record r); [|done].
    destruct (logs_from_str _); [|done]. by injection He as <-.
  - intros db m user (es & Hf & Hnd & ->). unfold list_for_user, Sqlite_store, sql_list_for_user.
    destruct (select_by_law db c_created (λ r, bool_decide (c_user_id r = user)))
      as (l & -> & Hp & _). simpl.
    assert (∃ es', Forall2 row_rel l es' ∧
      Permutation es' (filter (λ e : string * Entry, jr_user_id e.2.1 = user) es))
      as (es' & Hf' & Hp').
    { assert (Forall2 row_rel (filter (λ r, bool_decide (c_user_id r = user) = true) (rows db))
        (filter (λ e : string * Entry, jr_user_id e.2.1 = user) es)) as Hff.
      { eapply Forall2_filter; [|exact Hf]. intros r [k e] [_ He]. simpl in *.
        apply row_entry_inv in He as (p' & s' & a' & l2 & _ & _ & _ & _ & ->). simpl.
        apply bool_decide_eq_true. }
      symmetry in Hp. destruct (Permutation_Forall2 Hp Hff) as (es' & ? & ?). by exists es'. }
    exists es'.*2.*1. split.
    + apply result_traverse_ok. apply Forall2_fmap_r, Forall2_fmap_r.
      eapply Forall2_impl; [exact Hf'|]. intros r [k e] [_ He]. simpl in *.
      unfold row_entry in He. destruct (row_to_record r); [|done].
      destruct (logs_from_str _); [|done]. by injection He as <-.
    + rewrite Hp', !filter_fmap, (map_to_list_to_map es Hnd). done.
  - intros now id s Hnow. apply update_by_id_refines; [by apply row_status_entry|done].
  - intros now id p Hnow Hnan. unfold set_progress, Sqlite_store, sql_set_progress.
    rewrite bind_real_clamp by done.
    apply update_by_id_refines; [by apply row_progress_entry|done].
  - intros now id t d Hnow. apply update_by_id_refines; [by apply row_metadata_entry|done].
  - intros id db m Hrep. unfold delete_job, Sqlite_store, sql_delete.
    destruct (db_delete_law db (by_id id)) as (db' & -> & Hp). split; [done|].
    destruct Hrep as (es & Hf & Hnd & ->). simpl. rewrite <- list_to_map_remove.
    eapply rep_rows; [exact Hp| |].
    + eapply Forall2_filter; [|exact Hf]. intros r [k e] [Hid _]. simpl in *. unfold by_id.
      rewrite bool_decide_eq_false, Hid. done.
    + assert ((filter (λ e : string * Entry, e.1 ≠ id) es).*1 = filter (λ k, k ≠ id) es.*1) as ->
        by (by rewrite filter_fmap).
      by apply NoDup_filter.
  - intros now id a Hnow. apply transact_refines. intros r e He.
    pose proof He as (process & status & assets & lg & _ & _ & Ha & _ & Heq)%row_entry_inv.
    destruct (assets_codec (assets ++ [a])) as (t & Ht & Ht').
    rewrite Ha. simpl. rewrite Ht. simpl. eexists. split; [done|]. split; [|done].
    intros r' He'. apply row_assets_entry; [done| |done]. by rewrite Heq.
  - intros now id level msg. apply transact_refines. intros r e He.
    pose proof He as (process & status & assets & lg & _ & _ & _ & Hl & Heq)%row_entry_inv.
    rewrite Hl. simpl.
    destruct (logs_codec (lg ++ [mkJobLogEntry (pretty (N.of_nat (length lg))) level msg
      (iso8601 now)])) as (t & Ht & Ht').
    rewrite Ht. simpl. eexists. split; [done|]. split; [|done].
    intros r' He'. unfold add_log, new_log. apply row_logs_entry; [|done]. by rewrite Heq.
  - intros db m id Hrep. unfold get_logs, Sqlite_store, sql_get_logs, spec_get.
    destruct (select_one_spec db m id Hrep) as (o & -> & Ho). simpl.
    destruct (m !! id) as [e|]; [|by rewrite Ho]. destruct Ho as (r & -> & _ & He). simpl.
    apply row_entry_inv in He as (p' & s' & a' & l2 & _ & _ & _ & -> & ->). done.
  - intros now Hnow. by apply recover_refines.
Qed.
End refinement.

(** ** A concrete database and codec *)

(** The texts of the three kinds of document, kept as their parse trees. *)
Inductive Doc := DProcess (v : Value) | DAssets (l : list JobAsset) | DLogs (l : list JobLogEntry) | DEmpty.

#[export] Instance PlainCodec : Codec Doc := {
  process_to_string v := Ok (DProcess v);
  process_from_str t := match t with DProcess v => Ok v | _ => Err "invalid" end;
  assets_to_string l := Ok (DAssets l);
  assets_from_str t := match t with DAssets l => Ok l | DEmpty => Ok [] | _ => Err "invalid" end;
  logs_to_string l := Ok (DLogs l);
  logs_from_str t := match t with DLogs l => Ok l | DEmpty => Ok [] | _ => Err "invalid" end;
  empty_array := DEmpty }.

#[export] Instance PlainCodec_laws : CodecLaws Doc.
Proof. split; try done; intros; by eexists. Qed.

Notation ListDb := (list (Row Doc)).

Definition key_le (key : Row Doc → Z) (a b : Row Doc) : Prop := key a ≤ key b.
#[export] Instance key_le_dec key a b : Decision (key_le key a b).
Proof. unfold key_le. apply _. Defined.
#[export] Instance key_le_total key : Total (key_le key).
Proof. intros a b. unfold key_le. lia. Qed.

#[export] Instance ListDb_sql : SqlDb ListDb Doc := {
  db_insert row db :=
    if decide (c_id row ∈ c_id <$> db) then Err "UNIQUE constraint failed: jobs.id"
    else Ok (db ++ [row]);
  db_select p db := Ok (filter (λ r, p r = true) db);
  db_select_by key p db := Ok (merge_sort (key_le key) (filter (λ r, p r = true) db));
  db_update p f db :=
    Ok (Z.of_nat (length (filter (λ r, p r = true) db)), (λ r, if p r then f r else r) <$> db);
  db_delete p db := Ok (filter (λ r, p r = false) db);
  db_begin db := Ok ();
  db_commit db := Ok () }.

#[export] Instance ListDb_laws : SqlLaws ListDb Doc.
Proof.
  refine {| rows := λ db : ListDb, db |}; simpl; intros.
  - rewrite decide_False by done. eexists. split; [done|]. symmetry. apply Permutation_cons_append.
  - by eexists.
  - eexists. split; [done|]. split; [apply merge_sort_Permutation|].
    apply (Sorted_merge_sort (key_le key)).
  - by eexists.
  - by eexists.
  - done.
  - done.
Defined.

(** ** Properties *)

Lemma same_response_sym r r' : same_response r r' → same_response r' r.
Proof. destruct 1; constructor; by symmetry. Qed.

Lemma same_response_trans r1 r2 r3 :
  same_response r1 r2 → same_response r2 r3 → same_response r1 r3.
Proof.
  intros H12 H23. destruct H12 as [l l' Hl|]; [|done].
  inversion H23; subst; constructor; [by etrans|done].
Qed.

(** The in-memory store keeps whatever it is given. *)
Lemma ops_ok_in_memory (St : Type) `{JobStoreDomain St} ops m :
  ops_ok St ops m → ops_ok InMemoryJobStore ops m.
Proof.
  revert m. induction ops as [|op ops IH]; intros m; [done|]. simpl.
  intros [Hop Hops]. split; [|by apply IH].
  destruct op; simpl in *; try done; destruct_and?; by split_and?.
Qed.

(** C14: the SQLite store and the in-memory store are interchangeable on what both
    keep.  On any working database that starts with no jobs, take a sequence of
    operations whose created ids are fresh, whose times are [u64]s, whose progress
    values are not NaN and whose process graphs read back unchanged from their JSON
    text, fractional numbers included where they do.  Both stores give the same
    answers to it (lists of jobs up to order), and the rows left in the database
    decode to exactly the jobs the contract's map holds. *)
Theorem sqlite_agrees_with_memory `{CodecLaws Text, SqlLaws Db Text} (db : Db)
    (ops : list job_op) (Hempty : rows db = []) (Hops : ops_ok Db ops ∅) :
  Forall2 same_response (run store_step ops db).1 (run store_step ops InMemory_new).1 ∧
  rep (run store_step ops db).2 (run spec_step ops ∅).2.
Proof.
  assert (rep db ∅) as Hrep by (exists []; rewrite Hempty; repeat constructor).
  destruct (run_simulation ops db ∅ Hrep Hops) as [Hsql Hrep'].
  destruct (run_simulation ops InMemory_new ∅ InMemory_new_rep
    (ops_ok_in_memory Db ops ∅ Hops)) as [Hmem _].
  split; [|done]. clear Hrep'. revert Hsql Hmem.
  generalize (run store_step ops db).1, (run store_step ops InMemory_new).1,
    (run spec_step ops ∅).1. intros l1 l2 l3 H13. revert l2.
  induction H13 as [|r1 r3 l1 l3 Hr _ IH]; inversion 1; subst; constructor; [|by apply IH].
  eapply same_response_trans; [exact Hr|]. by apply same_response_sym.
Qed.

Definition one_half : f64 := f64_div f64_one (f64_of_Z 2).

(** The operations of [demo_ops] after a job whose graph holds a fractional number. *)
Definition fraction_ops : list job_op :=
  OCreate "j0" 4 "alice" None None (Number (Float one_half)) ::
  OSetProgress 4 "j0" one_half :: demo_ops.

Lemma sqlite_agrees_with_memory_witness :
  ops_ok ListDb fraction_ops ∅ ∧
  Forall2 same_response (run store_step fraction_ops ([] : ListDb)).1
    (run store_step fraction_ops InMemory_new).1.
Proof.
  assert (ops_ok ListDb fraction_ops ∅) as Hok.
  { repeat split; try (by eexists); vm_compute; congruence. }
  split; [exact Hok|].
  exact (proj1 (sqlite_agrees_with_memory ([] : ListDb) fraction_ops eq_refl Hok)).
Defined.
