(* ===== verification/Migration.v ===== *)
(** * Opening the databases

    [SqliteJobStore::open] (apps/orbit-openeo/src/job_store.rs) and
    [Engine::open] (crates/orbit-etl/src/engine.rs): the statements that create or
    bring up to date the tables, on a database that may be new, of an older
    version or current, and that other processes may be opening at the same
    time.  The database is a class of the statements' effects on the columns of
    its tables, with the documented behaviour of SQLite as laws; sqlx's options and
    pool are parameters. *)

From S2P Require Import Prelude Text JobStore.
Local Open Scope Z_scope.

(** ** The statements *)

Definition CREATE_JOBS : string :=
  "CREATE TABLE IF NOT EXISTS jobs (id TEXT PRIMARY KEY, user_id TEXT NOT NULL, title TEXT, description TEXT, " +:+
  "process TEXT NOT NULL, status TEXT NOT NULL, progress REAL, created INTEGER NOT NULL, updated INTEGER NOT NULL, " +:+
  "assets TEXT NOT NULL DEFAULT '[]', logs TEXT NOT NULL DEFAULT '[]')".
Definition JOB_COLUMNS : list string :=
  ["id"; "user_id"; "title"; "description"; "process"; "status"; "progress"; "created"; "updated"; "assets"; "logs"].
Definition ADD_LOGS : string := "ALTER TABLE jobs ADD COLUMN logs TEXT NOT NULL DEFAULT '[]'".
Definition CREATE_INDEX : string := "CREATE INDEX IF NOT EXISTS idx_jobs_user ON jobs(user_id)".
Definition CREATE_ORBIT_JOBS : string :=
  "CREATE TABLE IF NOT EXISTS orbit_jobs (id TEXT PRIMARY KEY, state TEXT NOT NULL, rows_read INTEGER NOT NULL DEFAULT 0, " +:+
  "rows_written INTEGER NOT NULL DEFAULT 0, started_at TEXT NOT NULL, finished_at TEXT, error TEXT, spec_json TEXT NOT NULL)".

Class Ddl (Db : Type) := {
  ddl : string → Db → result string Db;
  jobs_columns : Db → option (list string);    (* of the table jobs, if it exists *)
  stored_rows : Db → list (gmap string string) (* its rows, column by column *) }.

Class DdlLaws (Db : Type) `{Ddl Db} := {
  create_new db : jobs_columns db = None →
    ∃ db', ddl CREATE_JOBS db = Ok db' ∧ jobs_columns db' = Some JOB_COLUMNS ∧ stored_rows db' = [];
  create_old db cols : jobs_columns db = Some cols → ddl CREATE_JOBS db = Ok db;
  add_new db cols : jobs_columns db = Some cols → "logs" ∉ cols →
    ∃ db', ddl ADD_LOGS db = Ok db' ∧ jobs_columns db' = Some (cols ++ ["logs"]) ∧
      stored_rows db' = (<["logs" := "[]"]>) <$> stored_rows db;
  add_old db cols : jobs_columns db = Some cols → "logs" ∈ cols →
    ∃ e, ddl ADD_LOGS db = Err e ∧ str_contains "duplicate column" e = true;
  index_law db cols : jobs_columns db = Some cols → "user_id" ∈ cols →
    ∃ db', ddl CREATE_INDEX db = Ok db' ∧ jobs_columns db' = Some cols ∧ stored_rows db' = stored_rows db }.

(** ** Opening *)

(** Where an opening is. *)
Inductive Phase := Connecting | Created | Altered | Opened | OpenFailed (e : JobError).

Section opening.
Context {Db : Type} `{Ddl Db}.
Context (parse_url pool_connect : result string ()).      (* sqlx, for one url *)

(** One statement of an opening; an error that says the column is there is passed over. *)
Definition open_step (p : Phase) (db : Db) : Phase * Db :=
  match p with
  | Connecting =>
      match ddl CREATE_JOBS db with
      | Ok db => (Created, db)
      | Err e => (OpenFailed (Backend ("migrate: " +:+ e)), db)
      end
  | Created =>
      match ddl ADD_LOGS db with
      | Ok db => (Altered, db)
      | Err e =>
          if str_contains "duplicate column" e then (Altered, db)
          else (OpenFailed (Backend ("migrate logs column: " +:+ e)), db)
      end
  | Altered =>
      match ddl CREATE_INDEX db with
      | Ok db => (Opened, db)
      | Err e => (OpenFailed (Backend ("index: " +:+ e)), db)
      end
  | Opened | OpenFailed _ => (p, db)
  end.

Definition open (db : Db) : result JobError () * Db :=
  match parse_url with
  | Err e => (Err (Backend ("parse url: " +:+ e)), db)
  | Ok _ =>
      match pool_connect with
      | Err e => (Err (Backend ("pool: " +:+ e)), db)
      | Ok _ =>
          let '(p, db) := open_step Connecting db in
          let '(p, db) := open_step p db in
          let '(p, db) := open_step p db in
          (match p with OpenFailed e => Err e | _ => Ok tt end, db)
      end
  end.

(** Several openings at once: a schedule says whose statement is next. *)
Fixpoint open_all (sched : list nat) (ps : list Phase) (db : Db) : list Phase * Db :=
  match sched with
  | [] => (ps, db)
  | i :: sched =>
      match ps !! i with
      | None => open_all sched ps db
      | Some p => let '(p, db) := open_step p db in open_all sched (<[i := p]> ps) db
      end
  end.

(** [Engine::open] of the ETL engine: one idempotent statement. *)
Definition engine_open (db : Db) : result string Db :=
  _ ← parse_url; _ ← pool_connect; ddl CREATE_ORBIT_JOBS db.
End opening.

(** ** Correctness *)

Section laws.
Context {Db : Type} `{DdlLaws Db}.

(** A database an opening accepts: without the table, or with a table that has
    the column of the index. *)
Definition openable (db : Db) : Prop := ∀ cols, jobs_columns db = Some cols → "user_id" ∈ cols.

(** What a phase knows of the database. *)
Definition reached (p : Phase) (db : Db) : Prop :=
  match p with
  | Connecting => True
  | Created => is_Some (jobs_columns db)
  | Altered | Opened => ∃ cols, jobs_columns db = Some cols ∧ "logs" ∈ cols
  | OpenFailed _ => False
  end.

(** Columns are only added, and rows keep their values. *)
Definition upgraded (db db' : Db) : Prop :=
  (∀ cols, jobs_columns db = Some cols → ∃ cols', jobs_columns db' = Some cols' ∧ cols `prefix_of` cols') ∧
  (is_Some (jobs_columns db) →
    Forall2 (λ row row' : gmap string string, ∀ c v, c ≠ "logs" → row' !! c = Some v ↔ row !! c = Some v)
      (stored_rows db) (stored_rows db')).

Lemma upgraded_refl db : upgraded db db.
Proof.
  split; [eauto|]. intros _. induction (stored_rows db); constructor; [done|assumption].
Qed.

Lemma upgraded_trans db1 db2 db3 : upgraded db1 db2 → upgraded db2 db3 → upgraded db1 db3.
Proof.
  intros [Hc Hr] [Hc' Hr']. split.
  - intros cols E. destruct (Hc cols E) as (cols2 & E2 & Hp). destruct (Hc' cols2 E2) as (cols3 & E3 & Hp').
    exists cols3. split; [done|]. by transitivity cols2.
  - intros [cols E]. specialize (Hr ltac:(eauto)). destruct (Hc cols E) as (cols2 & E2 & _).
    specialize (Hr' ltac:(eauto)). revert Hr'. generalize (stored_rows db3).
    induction Hr as [|x y l k Hxy _ IH]; intros m Hm; inversion Hm as [|? z ? m' Hyz Hm']; subst; constructor; [|by apply IH].
    intros c v Hcv. by rewrite Hyz, Hxy.
Qed.

Lemma reached_upgraded p db db' : reached p db → upgraded db db' → reached p db'.
Proof.
  intros Hp [Hc _]. destruct p; simpl in *; try done.
  - destruct Hp as [cols E]. destruct (Hc cols E) as (cols' & -> & _). by eexists.
  - destruct Hp as (cols & E & Hl). destruct (Hc cols E) as (cols' & -> & [k ->]). exists (cols ++ k). set_solver.
  - destruct Hp as (cols & E & Hl). destruct (Hc cols E) as (cols' & -> & [k ->]). exists (cols ++ k). set_solver.
Qed.

Lemma open_step_ok p db p' db' : openable db → reached p db → open_step p db = (p', db') →
  openable db' ∧ reached p' db' ∧ upgraded db db' ∧ ∀ e, p' ≠ OpenFailed e.
Proof.
  intros Hopen Hp. destruct p as [| | | |e]; simpl in *; [| | |by intros [= <- <-]; refine (conj Hopen (conj Hp (conj (upgraded_refl db) _)))|done].
  - destruct (jobs_columns db) as [cols|] eqn:E.
    + rewrite (create_old db cols E). intros [= <- <-]. refine (conj _ (conj _ (conj _ _))); [done|by eexists|apply upgraded_refl|done].
    + destruct (create_new db E) as (db1 & -> & E1 & Hrows). intros [= <- <-]. refine (conj _ (conj _ (conj _ _))); [|by eexists| |done].
      * intros cols. rewrite E1. intros [= <-]. set_solver.
      * split; [by rewrite E|]. rewrite E. by intros [].
  - destruct Hp as [cols E]. destruct (decide ("logs" ∈ cols)) as [Hin|Hout].
    + destruct (add_old db cols E Hin) as (e & -> & ->). intros [= <- <-].
      refine (conj Hopen (conj _ (conj (upgraded_refl db) _))); [by exists cols|done].
    + destruct (add_new db cols E Hout) as (db1 & -> & E1 & Hrows). intros [= <- <-].
      refine (conj _ (conj _ (conj _ _))); [| | |done].
      * intros cols'. rewrite E1. intros [= <-]. specialize (Hopen cols E). set_solver.
      * exists (cols ++ ["logs"]). split; [done|]. set_solver.
      * split.
        -- intros cols'. rewrite E. intros [= <-]. exists (cols ++ ["logs"]). split; [done|]. by eexists.
        -- intros _. rewrite Hrows. clear Hrows. induction (stored_rows db) as [|row rows IH]; constructor; [|exact IH].
           intros c v Hc. by rewrite lookup_insert_ne.
  - destruct Hp as (cols & E & Hl). destruct (index_law db cols E (Hopen cols E)) as (db1 & -> & E1 & Hrows).
    intros [= <- <-]. refine (conj _ (conj _ (conj _ _))); [| | |done].
    + intros cols'. rewrite E1. intros [= <-]. by apply Hopen.
    + by exists cols.
    + split; [intros cols' E'; exists cols; rewrite E in E'; injection E' as <-; by split|].
      intros Hs. rewrite Hrows. by apply (upgraded_refl db).
Qed.

Lemma open_all_ok sched : ∀ ps db ps' db', openable db → Forall (λ p, reached p db) ps →
  open_all sched ps db = (ps', db') → Forall (λ p, reached p db') ps' ∧ upgraded db db'.
Proof.
  induction sched as [|i sched IH]; intros ps db ps' db' Hopen Hps; simpl.
  { intros [= <- <-]. split; [done|apply upgraded_refl]. }
  destruct (ps !! i) as [p|] eqn:Hi; [|by apply IH].
  destruct (open_step p db) as [p1 db1] eqn:Hs. intros Hrest.
  destruct (open_step_ok p db p1 db1 Hopen (Forall_lookup_1 _ _ _ _ Hps Hi) Hs) as (Ho & Hp1 & Hup & _).
  destruct (IH (<[i:=p1]> ps) db1 ps' db' Ho) as [Hps' Hup']; [|done|].
  - apply Forall_insert; [|done]. eapply Forall_impl; [exact Hps|]. intros q Hq. exact (reached_upgraded q db db1 Hq Hup).
  - split; [done|]. exact (upgraded_trans db db1 db' Hup Hup').
Qed.

(** However many processes open one database at a time, and in whatever order
    their statements fall, none fails; an opening that has come to its end finds
    the table with the column of the logs, columns are only added, and the rows that
    were there keep the values of their other columns. *)
Theorem concurrent_opens_succeed n sched db ps db' : openable db →
  open_all sched (replicate n Connecting) db = (ps, db') →
  (∀ e, OpenFailed e ∉ ps) ∧ upgraded db db' ∧
  (Opened ∈ ps → ∃ cols, jobs_columns db' = Some cols ∧ "logs" ∈ cols).
Proof.
  intros Hopen Ha. destruct (open_all_ok sched (replicate n Connecting) db ps db' Hopen) as [Hps Hup]; [|done|].
  { by apply Forall_replicate. }
  rewrite Forall_forall in Hps. split_and!; [|done|].
  - intros e He. by apply Hps in He.
  - intros Ho. by apply Hps in Ho.
Qed.

(** One opening succeeds on a new, an old or a current database, and a second one
    changes no column. *)
Theorem open_upgrades parse_url pool_connect db : parse_url = Ok tt → pool_connect = Ok tt → openable db →
  ∃ db', open parse_url pool_connect db = (Ok tt, db') ∧ upgraded db db' ∧
    (jobs_columns db = None → jobs_columns db' = Some JOB_COLUMNS) ∧
    ∃ cols, jobs_columns db' = Some cols ∧ "logs" ∈ cols ∧
      ∃ db'', open parse_url pool_connect db' = (Ok tt, db'') ∧ jobs_columns db'' = Some cols.
Proof.
  intros -> -> Hopen.
  assert (∀ d, openable d → ∃ d', open (Ok tt) (Ok tt) d = (Ok tt, d') ∧ upgraded d d' ∧ openable d' ∧
    match jobs_columns d with
    | None => jobs_columns d' = Some JOB_COLUMNS
    | Some cols => jobs_columns d' = Some (if decide ("logs" ∈ cols) then cols else cols ++ ["logs"])
    end) as Hone.
  { intros d Hd. assert (∃ d1 cols, ddl CREATE_JOBS d = Ok d1 ∧ jobs_columns d1 = Some cols ∧ openable d1 ∧ upgraded d d1 ∧
      cols = default JOB_COLUMNS (jobs_columns d)) as (d1 & cols & E1 & Hc1 & Ho1 & Hu1 & Hcols).
    { destruct (jobs_columns d) as [cols|] eqn:E.
      - exists d, cols. rewrite (create_old d cols E). by pose proof (upgraded_refl d).
      - destruct (create_new d E) as (d1 & E1 & Hc1 & _). exists d1, JOB_COLUMNS.
        destruct (open_step_ok Connecting d Created d1 Hd I) as (? & _ & ? & _); [simpl; by rewrite E1|]. done. }
    destruct (open_step Created d1) as [p2 d2] eqn:E2.
    destruct (open_step_ok Created d1 p2 d2 Ho1 ltac:(by eexists) E2) as (Ho2 & Hp2 & Hu2 & Hf2).
    assert (p2 = Altered ∧ jobs_columns d2 = Some (if decide ("logs" ∈ cols) then cols else cols ++ ["logs"])) as [-> Hc2].
    { simpl in E2. case_decide as Hl.
      - destruct (add_old d1 cols Hc1 Hl) as (e & He & Hs). rewrite He, Hs in E2. injection E2 as <- <-. done.
      - destruct (add_new d1 cols Hc1 Hl) as (d' & He & Hc & _). rewrite He in E2. injection E2 as <- <-. done. }
    destruct (index_law d2 _ Hc2 (Ho2 _ Hc2)) as (d3 & E3 & Hc3 & _).
    destruct (open_step_ok Altered d2 Opened d3 Ho2 Hp2) as (Ho3 & _ & Hu3 & _); [simpl; by rewrite E3|].
    exists d3. unfold open. cbn [open_step]. rewrite E1. cbn [open_step] in E2 |- *. rewrite E2. cbn [open_step].
    rewrite E3. split; [done|]. split; [by eauto using upgraded_trans|]. split; [done|].
    rewrite Hc3, Hcols. by destruct (jobs_columns d). }
  destruct (Hone db Hopen) as (db' & E & Hu & Ho & Hc). exists db'. split; [done|]. split; [done|].
  split; [intros En; by rewrite En in Hc|].
  assert (∃ cols, jobs_columns db' = Some cols ∧ "logs" ∈ cols) as (cols & Ec & Hl).
  { destruct (jobs_columns db) as [cols|]; rewrite Hc; eexists; (split; [done|]); [case_decide; set_solver|set_solver]. }
  exists cols. split; [done|]. split; [done|]. destruct (Hone db' Ho) as (db'' & E' & _ & _ & Hc').
  exists db''. split; [done|]. rewrite Ec in Hc'. by rewrite decide_True in Hc'.
Qed.
End laws.

(** ** A table kept as its columns and rows *)

Module Demo.
Record Table := mkTable { columns : option (list string); rows : list (gmap string string) }.

#[export] Instance table_ddl : Ddl Table := {|
  ddl stmt t :=
    match columns t with
    | None =>
        if decide (stmt = CREATE_JOBS) then Ok (mkTable (Some JOB_COLUMNS) [])
        else if decide (stmt = CREATE_ORBIT_JOBS) then Ok t
        else Err "no such table: jobs"
    | Some cols =>
        if decide (stmt = ADD_LOGS) then
          if decide ("logs" ∈ cols) then Err "duplicate column name: logs"
          else Ok (mkTable (Some (cols ++ ["logs"])) (<["logs" := "[]"]> <$> rows t))
        else if decide (stmt = CREATE_INDEX) then
          if decide ("user_id" ∈ cols) then Ok t else Err "no such column: user_id"
        else Ok t
    end;
  jobs_columns := columns;
  stored_rows := rows |}.

#[export] Instance table_laws : DdlLaws Table.
Proof.
  split; intros [c rs] *; simpl.
  - intros ->. by eexists.
  - by intros ->.
  - intros -> H. rewrite (decide_False _ _ H). by eexists.
  - intros -> H. rewrite (decide_True _ _ H). by eexists.
  - intros -> H. rewrite (decide_True _ _ H). by eexists.
Qed.

(** Two servers open a database written before the logs were kept. *)
Example two_servers :
  open_all [0; 1; 0; 1; 1; 0]%nat [Connecting; Connecting]
    (mkTable (Some ["id"; "user_id"]) [{[ "id" := "j"; "user_id" := "u" ]}]) =
  ([Opened; Opened],
   mkTable (Some ["id"; "user_id"; "logs"]) [{[ "id" := "j"; "user_id" := "u"; "logs" := "[]" ]}]).
Proof. vm_compute. reflexivity. Qed.
End Demo.
