(* ===== verification/FileStore.v ===== *)
(** * The file store: apps/orbit-openeo/src/file_store.rs

    Path validation, the trait as the class [FileStore], the in-memory store and
    the adapter over an [object_store] back end.  The back end itself is
    third-party code: a class of operations with its documented behaviour as
    laws, and a finite map as a concrete instance. *)

From Stdlib Require Import Ascii.
From S2P Require Import Prelude Text BTree.
Local Open Scope Z_scope.

(** ** Data *)

Record FileKey := mkFileKey { fk_user_id : string; fk_path : string }.
Record FileEntry := mkFileEntry { fe_path : string; fe_size : Z }.
Inductive FileError := FNotFound | Forbidden (msg : string) | Io (msg : string).

#[export] Instance FileKey_eq_dec : EqDecision FileKey.
Proof. solve_decision. Defined.

(** The derived order: by user, then by path. *)
Definition key_pair (k : FileKey) : string * string := (fk_user_id k, fk_path k).
#[export] Instance ord_key : Ord FileKey := λ x y, cmp (key_pair x) (key_pair y).
#[export] Instance ord_key_laws : OrdLaws FileKey.
Proof.
  split; unfold cmp at 1, ord_key.
  - intros [u p] [v q]. rewrite (cmp_eq (K := string * string)). unfold key_pair. simpl.
    naive_solver.
  - intros x y. apply (cmp_antisym (K := string * string)).
  - intros x y z. apply (cmp_trans (K := string * string)).
Qed.

(** ** Path validation *)

Definition slash : ascii := "/"%char.
Definition percent : ascii := "%"%char.

(** The decoding loop: [%hl] with two hexadecimal digits becomes a byte. *)
Fixpoint decode_loop (s : string) : string :=
  match s with
  | EmptyString => EmptyString
  | String b s1 =>
      match s1 with
      | String h (String l s3) =>
          if Ascii.eqb b percent then
            match hex_digit h, hex_digit l with
            | Some hi, Some lo => String (ascii_of (Z.lor (Z.shiftl hi 4) lo)) (decode_loop s3)
            | _, _ => String b (decode_loop s1)
            end
          else String b (decode_loop s1)
      | _ => String b (decode_loop s1)
      end
  end.

Definition percent_decode_once (s : string) : string :=
  if negb (has_char percent s) then s
  else
    let out := decode_loop s in
    if utf8_valid (bytes_of out) then out else String backslash "0invalid".

(** [target.chars()]: the code points of well-formed UTF-8; continuation bytes
    belong to the character before them. *)
Fixpoint chars (l : list Z) : list Z :=
  match l with
  | [] => []
  | b :: l1 =>
      if b <? 128 then b :: chars l1
      else if is_cont b then chars l1
      else
        match l1 with
        | c1 :: l2 =>
            if b <=? 223 then ((b - 192) * 64 + (c1 - 128)) :: chars l1
            else
              match l2 with
              | c2 :: l3 =>
                  if b <=? 239 then
                    ((b - 224) * 4096 + (c1 - 128) * 64 + (c2 - 128)) :: chars l1
                  else
                    match l3 with
                    | c3 :: _ =>
                        ((b - 240) * 262144 + (c1 - 128) * 4096 + (c2 - 128) * 64 + (c3 - 128))
                          :: chars l1
                    | [] => chars l1
                    end
              | [] => chars l1
              end
        | [] => chars l1
        end
  end.

(** [char::is_control]: the general category Cc. *)
Definition is_control (c : Z) : bool := (c <? 32) || ((127 <=? c) && (c <=? 159)).
(** The disallowed characters; NUL is a control character already. *)
Definition disallowed (c : Z) : bool :=
  existsb (Z.eqb c) [92; 58; 60; 62; 34; 124; 63; 42; 0].

(** [{:04X}] of a number below 65536, and [{:?}] of an ASCII character. *)
Definition hex_upper (d : Z) : ascii := ascii_of (if d <? 10 then d + 48 else d + 55).
Definition hex4 (n : Z) : string :=
  String (hex_upper (n / 4096)) (String (hex_upper (n / 256 mod 16))
    (String (hex_upper (n / 16 mod 16)) (chr (hex_upper (n mod 16))))).
Definition char_debug (c : Z) : string :=
  "'" +:+ (if c =? 92 then String backslash (chr backslash) else chr (ascii_of c)) +:+ "'".

Fixpoint check_chars (l : list Z) : result FileError unit :=
  match l with
  | [] => Ok ()
  | c :: l' =>
      if is_control c then Err (Forbidden ("control char U+" +:+ hex4 c))
      else if disallowed c then Err (Forbidden ("disallowed char " +:+ char_debug c))
      else check_chars l'
  end.

Definition bad_segment (seg : string) : bool :=
  bool_decide (seg = "..") || bool_decide (seg = ".") || bool_decide (seg = "").

Fixpoint check_segments (path : string) (segs : list string) : result FileError unit :=
  match segs with
  | [] => Ok ()
  | seg :: segs' => if bad_segment seg then Err (Forbidden path) else check_segments path segs'
  end.

Definition drive_letter (target : string) : bool :=
  match target with
  | String c0 (String c1 _) => Ascii.eqb c1 ":" && is_alpha c0
  | _ => false
  end.

Definition validate_path (path : string) : result FileError unit :=
  let decoded := percent_decode_once path in
  let target := if bool_decide (decoded ≠ path) then decoded else path in
  if bool_decide (target = "") then Err (Forbidden "empty path")
  else if starts_with "/" target || starts_with (chr backslash) target then
    Err (Forbidden "absolute path")
  else if starts_with "-" target then Err (Forbidden "leading dash (option-injection risk)")
  else if starts_with "~" target then Err (Forbidden "leading tilde (home-dir injection)")
  else if drive_letter target then Err (Forbidden "drive-letter prefix")
  else
    _ ← check_chars (chars (bytes_of target));
    check_segments path (split slash target).

(** ** The trait *)

Class FileStore (Fs : Type) := {
  put_file (key : FileKey) (bytes : list Z) : Fs → result FileError unit * Fs;
  get_file (key : FileKey) : Fs → result FileError (list Z);
  delete_file (key : FileKey) : Fs → result FileError unit * Fs;
  list_files (user_id : string) : Fs → result FileError (list FileEntry) }.

(** What a client of a store relies on: a stored file can be read back. *)
Class FileStoreLaws (Fs : Type) `{FileStore Fs} : Prop := {
  put_get_law k b fs fs' : put_file k b fs = (Ok (), fs') → get_file k fs' = Ok b }.

(** ** The in-memory store *)

Notation InMemoryFileStore := (btree FileKey (list Z)).

Definition memory_put (key : FileKey) (bytes : list Z) (fs : InMemoryFileStore)
    : result FileError unit * InMemoryFileStore :=
  match validate_path (fk_path key) with
  | Err e => (Err e, fs)
  | Ok _ => (Ok (), bt_insert key bytes fs)
  end.

Definition memory_get (key : FileKey) (fs : InMemoryFileStore) : result FileError (list Z) :=
  _ ← validate_path (fk_path key);
  ok_or (bt_get key fs) FNotFound.

Definition memory_delete (key : FileKey) (fs : InMemoryFileStore)
    : result FileError unit * InMemoryFileStore :=
  match validate_path (fk_path key) with
  | Err e => (Err e, fs)
  | Ok _ => (Ok (), bt_remove key fs)
  end.

Definition memory_list (user_id : string) (fs : InMemoryFileStore)
    : result FileError (list FileEntry) :=
  Ok ((λ e, mkFileEntry (fk_path e.1) (Z.of_nat (length e.2))) <$>
      filter (λ e, fk_user_id e.1 = user_id) fs).

#[export] Instance InMemory_files : FileStore InMemoryFileStore := {
  put_file := memory_put;
  get_file := memory_get;
  delete_file := memory_delete;
  list_files := memory_list }.

#[export] Instance InMemory_files_laws : FileStoreLaws InMemoryFileStore.
Proof.
  split. intros k b fs fs'. unfold put_file, get_file, InMemory_files, memory_put, memory_get.
  destruct (validate_path (fk_path k)) as [[]|]; [|done]. intros [= <-]. simpl.
  assert (bt_get k (bt_insert k b fs) = Some b) as ->; [|done].
  induction fs as [|[k' b'] fs IH]; simpl; [by rewrite cmp_refl|].
  destruct (cmp k k') eqn:E; simpl; [by rewrite cmp_refl..|]. by rewrite E.
Qed.

(** ** The [object_store] back end and its adapter *)

Inductive OsError := OsNotFound | OsOther (msg : string).
Definition os_message (e : OsError) : string :=
  match e with OsNotFound => "not found" | OsOther m => m end.

Class ObjectStore (Os : Type) := {
  os_parse : string → result string string;  (* Path::parse *)
  os_put (p : string) (bytes : list Z) : Os → result OsError unit * Os;
  os_get (p : string) : Os → result OsError (list Z);
  os_delete (p : string) : Os → result OsError unit * Os;
  os_list (prefix : string) : Os → result OsError (list (string * Z)) }.

(** A segment [Path::parse] accepts as it is. *)
Definition plain_segment (seg : string) : bool :=
  negb (bad_segment seg) && str_all (λ c, negb (is_control (byte_of c) && (byte_of c <? 128))) seg &&
  negb (has_char slash seg).

(** What an object store promises.  Any call may fail; a failed write or deletion
    has not happened or has happened whole, and what succeeds is as on a map. *)
Class ObjectStoreLaws (Os : Type) `{ObjectStore Os} := {
  objects : Os → gmap string (list Z);
  os_parse_law s : Forall (λ seg, plain_segment seg = true) (split slash s) → os_parse s = Ok s;
  os_put_law p b st r st' : os_put p b st = (r, st') →
    objects st' = <[p := b]> (objects st) ∨ (r ≠ Ok () ∧ objects st' = objects st);
  os_get_law p st :
    os_get p st = ok_or (objects st !! p) OsNotFound ∨ ∃ m, os_get p st = Err (OsOther m);
  (* deleting an absent object may report it *)
  os_delete_law p st r st' : os_delete p st = (r, st') →
    objects st' = delete p (objects st) ∨ (∃ m, r = Err (OsOther m)) ∧ objects st' = objects st;
  os_list_law p st l : os_list p st = Ok l →
    Permutation l ((λ e, (e.1, Z.of_nat (length e.2))) <$>
      filter (λ e, starts_with (p +:+ "/") e.1 = true) (map_to_list (objects st))) }.

Section adapter.
Context {Os : Type} `{ObjectStore Os}.

Definition key_to_path (key : FileKey) : result FileError string :=
  _ ← validate_path (fk_path key);
  map_err Forbidden (os_parse (fk_user_id key +:+ "/" +:+ fk_path key)).

Definition backend_put (key : FileKey) (bytes : list Z) (st : Os) : result FileError unit * Os :=
  match key_to_path key with
  | Err e => (Err e, st)
  | Ok p => let '(r, st') := os_put p bytes st in (map_err (λ e, Io (os_message e)) r, st')
  end.

Definition backend_get (key : FileKey) (st : Os) : result FileError (list Z) :=
  p ← key_to_path key;
  map_err (λ e, match e with OsNotFound => FNotFound | OsOther m => Io m end) (os_get p st).

Definition backend_delete (key : FileKey) (st : Os) : result FileError unit * Os :=
  match key_to_path key with
  | Err e => (Err e, st)
  | Ok p =>
      let '(r, st') := os_delete p st in
      (match r with Ok _ | Err OsNotFound => Ok () | Err (OsOther m) => Err (Io m) end, st')
  end.

Definition relative_entry (prefix : string) (m : string * Z) : option FileEntry :=
  match strip_prefix prefix m.1 with Some rest => Some (mkFileEntry rest m.2) | None => None end.

Definition backend_list (user_id : string) (st : Os) : result FileError (list FileEntry) :=
  prefix ← map_err Forbidden (os_parse user_id);
  metas ← map_err (λ e, Io (os_message e)) (os_list prefix st);
  Ok (omap (M := list) (relative_entry (user_id +:+ "/")) metas).
End adapter.

(** [ObjectStoreBackend]: a wrapper around the back end. *)
Record ObjectStoreBackend (Os : Type) := mkBackend { bk_inner : Os }.
Arguments mkBackend {Os}. Arguments bk_inner {Os}.

#[export] Instance Backend_files {Os} `{ObjectStore Os} : FileStore (ObjectStoreBackend Os) := {
  put_file key bytes b := let '(r, st) := backend_put key bytes (bk_inner b) in (r, mkBackend st);
  get_file key b := backend_get key (bk_inner b);
  delete_file key b := let '(r, st) := backend_delete key (bk_inner b) in (r, mkBackend st);
  list_files user_id b := backend_list user_id (bk_inner b) }.

(** ** Lemmas on [split] and the decoder *)

Lemma split_app c a b : split c (a +:+ String c b) = split c a ++ split c b.
Proof.
  induction a as [|d a IH]; simpl.
  - by rewrite bool_decide_eq_true_2.
  - destruct (bool_decide (c = d)); rewrite IH; [done|].
    destruct (split c a) eqn:E; [|done]. by destruct a; simpl in E; repeat case_match.
Qed.

Lemma split_none c s : has_char c s = false → split c s = [s].
Proof.
  induction s as [|d s IH]; [done|]. simpl. intros [Hd Hs]%orb_false_iff.
  by rewrite IH, Hd.
Qed.

Lemma split_once_app c s : has_char c s = true → ∃ a b, s = a +:+ String c b ∧ has_char c a = false.
Proof.
  induction s as [|d s IH]; simpl; [done|]. intros Hs.
  destruct (decide (c = d)) as [<-|Hne]; [by exists "", s|].
  rewrite bool_decide_eq_false_2 in Hs by done. destruct (IH Hs) as (a & b & -> & Ha).
  exists (String d a), b. split; [done|]. simpl. by rewrite bool_decide_eq_false_2.
Qed.

(** Induction over the separators of a string. *)
Lemma split_ind (c : ascii) (P : string → Prop) :
  (∀ s, has_char c s = false → P s) →
  (∀ a b, has_char c a = false → P b → P (a +:+ String c b)) → ∀ s, P s.
Proof.
  intros Hbase Hstep s. remember (String.length s) as n eqn:Hn. revert s Hn.
  induction (lt_wf n) as [n _ IH]. intros s ->.
  destruct (has_char c s) eqn:E; [|by apply Hbase].
  destruct (split_once_app c s E) as (a & b & -> & Ha). apply Hstep; [done|].
  eapply IH; [|reflexivity]. rewrite str_length_app. simpl. lia.
Qed.

(** A byte that cannot take part in an escape survives decoding. *)
Definition inert (c : ascii) : Prop := c ≠ percent ∧ hex_digit c = None.

Lemma slash_inert : inert slash.
Proof. by split. Qed.

Lemma decode_loop_cons c s : c ≠ percent → decode_loop (String c s) = String c (decode_loop s).
Proof.
  intros Hc. simpl. destruct s as [|h [|l s]]; [done..|].
  by destruct (Ascii.eqb_spec c percent).
Qed.

Lemma decode_loop_escape h l s :
  decode_loop (String percent (String h (String l s))) =
  match hex_digit h, hex_digit l with
  | Some hi, Some lo => String (ascii_of (Z.lor (Z.shiftl hi 4) lo)) (decode_loop s)
  | _, _ => String percent (decode_loop (String h (String l s)))
  end.
Proof. reflexivity. Qed.

Lemma decode_loop_app c a b :
  inert c → decode_loop (a +:+ String c b) = decode_loop a +:+ String c (decode_loop b).
Proof.
  intros [Hc Hhex]. remember (String.length a) as n eqn:Hn. revert a Hn.
  induction (lt_wf n) as [n _ IH]. intros a ->.
  destruct a as [|x a]; [by apply decode_loop_cons|].
  destruct (decide (x = percent)) as [->|Hx].
  2:{ rewrite str_app_cons, !decode_loop_cons, str_app_cons by done. f_equal.
      eapply IH; [|reflexivity]. simpl. lia. }
  assert (∀ t, String.length t < S (String.length a) →
    decode_loop (t +:+ String c b) = decode_loop t +:+ String c (decode_loop b))%nat as IH'
    by (intros t Ht; by eapply IH; [exact Ht|]).
  clear IH. destruct a as [|h [|l a]]; rewrite !str_app_cons.
  - rewrite !str_app_nil. destruct b as [|l b]; [done|].
    rewrite decode_loop_escape, Hhex, decode_loop_cons by done. done.
  - rewrite str_app_nil, decode_loop_escape, Hhex.
    specialize (IH' (chr h) ltac:(simpl; lia)). unfold chr in IH'.
    rewrite !str_app_cons, !str_app_nil in IH'. rewrite IH'. by destruct (hex_digit h).
  - rewrite !decode_loop_escape.
    pose proof (IH' a ltac:(simpl; lia)) as Ha.
    pose proof (IH' (String h (String l a)) ltac:(simpl; lia)) as Hhl.
    rewrite !str_app_cons in Hhl.
    destruct (hex_digit h), (hex_digit l); rewrite str_app_cons; f_equal; done.
Qed.

Lemma decode_loop_id s : has_char percent s = false → decode_loop s = s.
Proof.
  induction s as [|c s IH]; [done|]. simpl has_char. intros [Hc Hs]%orb_false_iff.
  apply bool_decide_eq_false in Hc. rewrite decode_loop_cons by congruence. by rewrite IH.
Qed.

Lemma has_char_decode c s : inert c → has_char c s = true → has_char c (decode_loop s) = true.
Proof.
  intros Hc Hs. destruct (split_once_app c s Hs) as (a & b & -> & _).
  rewrite decode_loop_app by done. rewrite has_char_app. simpl.
  rewrite bool_decide_eq_true_2 by done. by rewrite orb_true_r.
Qed.

(** A segment without escapes is still a segment after decoding. *)
Lemma segment_decode s seg :
  seg ∈ split slash s → has_char percent seg = false → seg ∈ split slash (decode_loop s).
Proof.
  intros Hin Hseg. revert Hin.
  assert (∀ a, has_char slash a = false → has_char percent a = false → split slash (decode_loop a) = [a])
    as Hone by (intros; rewrite decode_loop_id by done; by apply split_none).
  induction s as [s Hs|a b Ha IH] using (split_ind slash).
  - rewrite (split_none slash s) by done. intros ->%list_elem_of_singleton.
    rewrite Hone by done. by apply list_elem_of_singleton.
  - rewrite decode_loop_app by apply slash_inert. rewrite !split_app, !elem_of_app.
    rewrite (split_none slash a) by done. intros [->%list_elem_of_singleton|Hb]; [left|right; auto].
    rewrite Hone by done. by apply list_elem_of_singleton.
Qed.

(** ** What validation accepts *)

(** A legal path, on its decoded text. *)
Record path_ok (t : string) : Prop := {
  ok_nonempty : t ≠ "";
  ok_start : Forall (λ p, starts_with p t = false) ["/"; chr backslash; "-"; "~"];
  ok_drive : drive_letter t = false;
  ok_chars : Forall (λ c, is_control c = false ∧ disallowed c = false) (chars (bytes_of t));
  ok_segments : Forall (λ seg, bad_segment seg = false) (split slash t) }.

Lemma check_chars_ok l :
  check_chars l = Ok () ↔ Forall (λ c, is_control c = false ∧ disallowed c = false) l.
Proof.
  induction l as [|c l IH]; simpl; [by split; [constructor|]|]. rewrite Forall_cons, <- IH.
  destruct (is_control c); [naive_solver|]. destruct (disallowed c); naive_solver.
Qed.

Lemma check_segments_ok path l :
  check_segments path l = Ok () ↔ Forall (λ seg, bad_segment seg = false) l.
Proof.
  induction l as [|c l IH]; simpl; [by split; [constructor|]|]. rewrite Forall_cons, <- IH.
  destruct (bad_segment c); naive_solver.
Qed.

Lemma validate_path_ok path : validate_path path = Ok () ↔ path_ok (percent_decode_once path).
Proof.
  unfold validate_path.
  replace (if bool_decide (percent_decode_once path ≠ path) then percent_decode_once path else path)
    with (percent_decode_once path).
  2:{ destruct (bool_decide _) eqn:E; [done|]. apply bool_decide_eq_false in E.
      by destruct (decide (percent_decode_once path = path)). }
  set (t := percent_decode_once path). split.
  - destruct (bool_decide (t = "")) eqn:E1; [done|]. apply bool_decide_eq_false in E1.
    destruct (starts_with "/" t) eqn:E2; [done|].
    destruct (starts_with (chr backslash) t) eqn:E3; [done|]. simpl.
    destruct (starts_with "-" t) eqn:E4; [done|]. destruct (starts_with "~" t) eqn:E5; [done|].
    destruct (drive_letter t) eqn:E6; [done|].
    destruct (check_chars (chars (bytes_of t))) as [[]|] eqn:E7; simpl; [|done].
    intros Hseg%check_segments_ok. apply check_chars_ok in E7. split; [done| |done..].
    by repeat constructor.
  - intros [H1 H2 H3 H4 H5]. rewrite bool_decide_eq_false_2 by done.
    apply check_chars_ok in H4. apply (check_segments_ok path) in H5.
    repeat (apply Forall_cons in H2 as [? H2]).
    repeat match goal with H : starts_with _ _ = _ |- _ => rewrite H; clear H end.
    rewrite H3, H4. simpl. by rewrite H5.
Qed.

Lemma check_chars_forbidden l e : check_chars l = Err e → ∃ m, e = Forbidden m.
Proof.
  induction l as [|c l IH]; simpl; [done|]. destruct (is_control c); [naive_solver|].
  destruct (disallowed c); naive_solver.
Qed.

Lemma check_segments_forbidden path l e : check_segments path l = Err e → e = Forbidden path.
Proof.
  induction l as [|c l IH]; simpl; [done|]. destruct (bad_segment c); naive_solver.
Qed.

Lemma validate_path_forbidden path e : validate_path path = Err e → ∃ m, e = Forbidden m.
Proof.
  unfold validate_path. generalize (if bool_decide (percent_decode_once path ≠ path)
    then percent_decode_once path else path). intros t.
  destruct (bool_decide _); [naive_solver|]. destruct (_ || _); [naive_solver|].
  destruct (starts_with _ _); [naive_solver|]. destruct (starts_with _ _); [naive_solver|].
  destruct (drive_letter t); [naive_solver|].
  destruct (check_chars _) as [[]|e'] eqn:E; simpl.
  - intros ->%check_segments_forbidden. by eexists.
  - intros [= ->]. by eapply check_chars_forbidden.
Qed.

Lemma has_char_chars c s :
  has_char c s = true → byte_of c < 128 → byte_of c ∈ chars (bytes_of s).
Proof.
  intros Hs Hc. induction s as [|d s IH]; [done|]. cbn [bytes_of chars].
  cbn [has_char] in Hs. destruct (decide (c = d)) as [<-|Hne].
  - destruct (Z.ltb_spec (byte_of c) 128); [by apply list_elem_of_here|lia].
  - rewrite bool_decide_eq_false_2 in Hs by done. specialize (IH Hs).
    destruct (byte_of d <? 128); [by apply list_elem_of_further|]. destruct (is_cont _); [done|].
    destruct (bytes_of s) as [|c1 l2] eqn:E; [done|].
    destruct (_ <=? 223); [by apply list_elem_of_further|]. destruct l2 as [|c2 l3]; [done|].
    destruct (_ <=? 239); [by apply list_elem_of_further|].
    destruct l3; [done|]. by apply list_elem_of_further.
Qed.

(** The accepted text itself, before decoding: its segments are names and it
    holds no ASCII control character and no backslash. *)
Lemma accepted_decode path :
  validate_path path = Ok () → percent_decode_once path = decode_loop path.
Proof.
  rewrite validate_path_ok. unfold percent_decode_once.
  destruct (has_char percent path) eqn:E; simpl; [|by rewrite decode_loop_id].
  destruct (utf8_valid _); [done|]. intros [_ Hs _ _ _]. exfalso.
  by repeat (apply Forall_cons in Hs as [? Hs]).
Qed.

Lemma bad_segment_percent seg : bad_segment seg = true → has_char percent seg = false.
Proof.
  unfold bad_segment. rewrite !orb_true_iff, !bool_decide_eq_true. by intros [[->| ->]| ->].
Qed.

Lemma accepted_segments path :
  validate_path path = Ok () → Forall (λ seg, bad_segment seg = false) (split slash path).
Proof.
  intros Hv. pose proof (accepted_decode path Hv) as Hd. apply validate_path_ok in Hv.
  apply Forall_forall. intros seg Hin. destruct (bad_segment seg) eqn:E; [|done].
  pose proof (segment_decode path seg Hin (bad_segment_percent seg E)) as Hin'.
  destruct Hv as [_ _ _ _ Hs]. rewrite Hd in Hs. rewrite Forall_forall in Hs.
  specialize (Hs seg Hin'). congruence.
Qed.

Lemma accepted_chars path c :
  validate_path path = Ok () → inert c → byte_of c < 128 →
  is_control (byte_of c) = true ∨ disallowed (byte_of c) = true → has_char c path = false.
Proof.
  intros Hv Hin Hc Hbad. pose proof (accepted_decode path Hv) as Hd. apply validate_path_ok in Hv.
  destruct (has_char c path) eqn:E; [|done]. apply (has_char_decode c path Hin) in E.
  destruct Hv as [_ _ _ Hs _]. rewrite Hd, Forall_forall in Hs.
  destruct (Hs (byte_of c) (has_char_chars _ _ E Hc)). naive_solver congruence.
Qed.

(** ** The adapter over a working back end *)

Lemma split_pieces c s seg :
  seg ∈ split c s → has_char c seg = false ∧ ∀ d, has_char d seg = true → has_char d s = true.
Proof.
  induction s as [s Hs|a b Ha IH] using (split_ind c).
  - rewrite split_none by done. by intros ->%list_elem_of_singleton.
  - rewrite split_app, elem_of_app, (split_none c a) by done.
    intros [->%list_elem_of_singleton|Hb].
    + split; [done|]. intros d Hd. by rewrite has_char_app, Hd.
    + destruct (IH Hb) as [Hc Hd]. split; [done|]. intros d Hseg%Hd.
      rewrite has_char_app. simpl. by rewrite Hseg, !orb_true_r.
Qed.

Lemma str_all_intro (p : ascii → bool) s :
  (∀ c, has_char c s = true → p c = true) → str_all p s = true.
Proof.
  induction s as [|d s IH]; [done|]. intros Hp. simpl. rewrite IH, andb_true_r.
  - apply Hp. simpl. by rewrite bool_decide_eq_true_2.
  - intros c Hc. apply Hp. simpl. by rewrite Hc, orb_true_r.
Qed.

Lemma control_inert c : is_control (byte_of c) = true → byte_of c < 128 → inert c.
Proof.
  unfold is_control. rewrite orb_true_iff, andb_true_iff, Z.ltb_lt, !Z.leb_le.
  intros Hc Hlt. split; [intros ->; change (byte_of percent) with 37 in *; lia|]. unfold hex_digit, is_digit.
  destruct (Z.leb_spec 48 (byte_of c)), (Z.leb_spec (byte_of c) 57); simpl; try lia;
    destruct (Z.leb_spec 97 (byte_of c)), (Z.leb_spec (byte_of c) 102); simpl; try lia;
    destruct (Z.leb_spec 65 (byte_of c)), (Z.leb_spec (byte_of c) 70); simpl; try lia; done.
Qed.

Lemma accepted_plain path :
  validate_path path = Ok () → Forall (λ seg, plain_segment seg = true) (split slash path).
Proof.
  intros Hv. pose proof (accepted_segments path Hv) as Hseg. rewrite Forall_forall in *.
  intros seg Hin. destruct (split_pieces _ _ _ Hin) as [Hs Hsub]. unfold plain_segment.
  rewrite (Hseg seg Hin), Hs, andb_true_r. apply str_all_intro. intros c Hc%Hsub.
  apply negb_true_iff, andb_false_iff.
  destruct (is_control (byte_of c)) eqn:E1; [right|by left].
  destruct (Z.ltb_spec (byte_of c) 128) as [Hlt|]; [|done].
  rewrite (accepted_chars path c) in Hc; auto using control_inert.
Qed.

Definition key_text (k : FileKey) : string := fk_user_id k +:+ String slash (fk_path k).
Definition good_key (k : FileKey) : Prop :=
  plain_segment (fk_user_id k) = true ∧ validate_path (fk_path k) = Ok ().

Lemma plain_no_slash u : plain_segment u = true → has_char slash u = false.
Proof. unfold plain_segment. intros [_ H]%andb_true_iff. by apply negb_true_iff. Qed.

Lemma text_inj u p v q :
  has_char slash u = false → has_char slash v = false →
  u +:+ String slash p = v +:+ String slash q → u = v ∧ p = q.
Proof.
  intros Hu Hv E. pose proof (f_equal (split_once slash) E) as Es.
  assert (∀ a b, has_char slash a = false → split_once slash (a +:+ String slash b) = Some (a, b)) as H.
  { intros a b Ha. by apply split_once_Some. }
  rewrite !H in Es by done. by simplify_eq.
Qed.

Lemma key_text_inj k k' : good_key k → good_key k' → key_text k = key_text k' → k = k'.
Proof.
  intros [Hk%plain_no_slash _] [Hk'%plain_no_slash _] E.
  destruct (text_inj _ _ _ _ Hk Hk' E). destruct k, k'. by simplify_eq/=.
Qed.

Section adapter_refinement.
Context {Os : Type} `{ObjectStoreLaws Os}.

(** The objects are exactly the files, under their joined names. *)
Definition holds (st : Os) (fs : InMemoryFileStore) : Prop :=
  bt_wf fs ∧ (∀ k b, bt_get k fs = Some b → good_key k) ∧
  ∀ p b, objects st !! p = Some b ↔ ∃ k, key_text k = p ∧ bt_get k fs = Some b.

Lemma key_to_path_good k : good_key k → key_to_path k = Ok (key_text k).
Proof.
  intros [Hu Hv]. unfold key_to_path. rewrite Hv. simpl.
  change (fk_user_id k +:+ "/" +:+ fk_path k) with (key_text k).
  rewrite os_parse_law; [done|]. unfold key_text. rewrite split_app, Forall_app.
  rewrite split_none by (by apply plain_no_slash). split; [by constructor|]. by apply accepted_plain.
Qed.

Lemma key_to_path_bad k e : validate_path (fk_path k) = Err e → key_to_path k = Err e.
Proof. intros Hv. unfold key_to_path. by rewrite Hv. Qed.

Lemma holds_lookup st fs k :
  holds st fs → good_key k → objects st !! key_text k = bt_get k fs.
Proof.
  intros (Hwf & Hgood & Hobj) Hk. apply option_eq. intros b. rewrite Hobj. split.
  - intros (k' & E & Hb). by rewrite <- (key_text_inj k' k (Hgood _ _ Hb) Hk E).
  - intros Hb. by exists k.
Qed.

Lemma holds_put st st' fs k b :
  holds st fs → good_key k → objects st' = <[key_text k := b]> (objects st) →
  holds st' (bt_insert k b fs).
Proof.
  intros (Hwf & Hgood & Hobj) Hk Hst'. split; [by apply bt_wf_insert|]. split.
  - intros k' b'. rewrite bt_get_insert by done. destruct (cmp k' k) eqn:E; [|by eauto..].
    apply cmp_eq in E as ->. done.
  - intros p b'. rewrite Hst', lookup_insert_Some. split.
    + intros [[<- <-]|[Hne Hp]]; [exists k; by rewrite bt_get_insert_eq|].
      apply Hobj in Hp as (k' & <- & Hk'). exists k'.
      rewrite bt_get_insert_ne by (congruence || done). done.
    + intros (k' & <- & Hk'). destruct (decide (k' = k)) as [->|Hne].
      * left. rewrite bt_get_insert_eq in Hk' by done. by injection Hk' as ->.
      * right. rewrite bt_get_insert_ne in Hk' by done. split.
        -- intros E. apply Hne. symmetry. eapply key_text_inj; eauto.
        -- apply Hobj. by exists k'.
Qed.

Lemma holds_delete st st' fs k :
  holds st fs → good_key k → objects st' = delete (key_text k) (objects st) →
  holds st' (bt_remove k fs).
Proof.
  intros (Hwf & Hgood & Hobj) Hk Hst'. split; [by apply bt_wf_remove|]. split.
  - intros k' b'. rewrite bt_get_remove by done. destruct (cmp k' k); by eauto.
  - intros p b'. rewrite Hst', lookup_delete_Some. split.
    + intros [Hne (k' & <- & Hk')%Hobj]. exists k'.
      rewrite bt_get_remove_ne by (congruence || done). done.
    + intros (k' & <- & Hk'). destruct (decide (k' = k)) as [->|Hne].
      * rewrite bt_get_remove, cmp_refl in Hk' by done. done.
      * rewrite bt_get_remove_ne in Hk' by done. split.
        -- intros E. apply Hne. symmetry. eapply key_text_inj; eauto.
        -- apply Hobj. by exists k'.
Qed.

Lemma strip_key_text u k :
  plain_segment u = true → good_key k →
  strip_prefix (u +:+ "/") (key_text k) =
  if decide (fk_user_id k = u) then Some (fk_path k) else None.
Proof.
  intros Hu%plain_no_slash [Hk%plain_no_slash _]. unfold key_text.
  assert (∀ v q, v +:+ String slash q = (v +:+ "/") +:+ q) as Hassoc
    by (intros; by rewrite str_app_assoc).
  destruct (decide (fk_user_id k = u)) as [<-|Hne].
  - rewrite (Hassoc _ (fk_path k)). apply strip_prefix_app.
  - destruct (strip_prefix _ _) as [t|] eqn:E; [|done]. apply strip_prefix_Some in E.
    rewrite <- (Hassoc u t) in E. by destruct (text_inj _ _ _ _ Hk Hu E).
Qed.

Lemma holds_objects st fs :
  holds st fs →
  Permutation (map_to_list (objects st)) ((λ e, (key_text e.1, e.2)) <$> fs).
Proof.
  intros (Hwf & Hgood & Hobj). apply NoDup_Permutation.
  - apply NoDup_map_to_list.
  - apply (NoDup_fmap_1 fst). rewrite <- list_fmap_compose.
    change (fst ∘ (λ e : FileKey * list Z, (key_text e.1, e.2))) with (key_text ∘ (fst (B := list Z))).
    rewrite list_fmap_compose. apply NoDup_fmap_2_strong; [|by apply bt_wf_nodup].
    assert (∀ k, k ∈ fs.*1 → good_key k) as Hk; [|intros; apply key_text_inj; auto].
    intros k ([k1 b] & -> & Hin)%list_elem_of_fmap. apply bt_get_Some in Hin; eauto.
  - intros [p b]. rewrite elem_of_map_to_list, Hobj, list_elem_of_fmap. split.
    + intros (k & <- & Hk). exists (k, b). split; [done|]. by apply bt_get_Some.
    + intros ([k b'] & [= -> ->] & Hk%bt_get_Some); [|done]. by exists k.
Qed.

Lemma backend_list_memory u st fs :
  holds st fs → plain_segment u = true →
  (∃ l l', backend_list u st = Ok l ∧ memory_list u fs = Ok l' ∧ Permutation l l') ∨
  ∃ m, backend_list u st = Err (Io m).
Proof.
  intros Hh Hu. unfold backend_list, memory_list.
  rewrite os_parse_law. 2:{ rewrite split_none by (by apply plain_no_slash). by constructor. }
  simpl. destruct (os_list u st) as [l|e] eqn:El; [left|right; by eexists].
  pose proof (os_list_law u st l El) as Hl. simpl.
  eexists _, _. split; [done|]. split; [done|].
  rewrite Hl, (holds_objects st fs Hh), filter_fmap, <- list_fmap_compose.
  destruct Hh as (Hwf & Hgood & _).
  assert (Forall (λ e, good_key e.1) fs) as Hall.
  { apply Forall_forall. intros [k b] Hin%bt_get_Some; [|done]. eauto. }
  clear -Hu Hall. induction Hall as [|[k b] fs Hk _ IH]; [done|].
  pose proof (strip_key_text u k Hu Hk) as Hs. rewrite !filter_cons. cbn [fst snd].
  unfold starts_with. rewrite Hs. simpl in Hk.
  destruct (decide (fk_user_id k = u)) as [E|E].
  - rewrite decide_True by done. simpl. unfold relative_entry at 1. simpl. rewrite Hs.
    by rewrite <- IH.
  - rewrite decide_False by done. exact IH.
Qed.
End adapter_refinement.

(** ** Histories of file operations *)

Inductive file_op :=
| FPut (k : FileKey) (bytes : list Z) | FGet (k : FileKey)
| FDelete (k : FileKey) | FList (user_id : string).

Inductive file_response :=
| FUnit (r : result FileError unit)
| FBytes (r : result FileError (list Z))
| FEntries (r : result FileError (list FileEntry)).

(** Listings are compared as multisets. *)
Inductive same_files : file_response → file_response → Prop :=
| same_entries l l' : Permutation l l' → same_files (FEntries (Ok l)) (FEntries (Ok l'))
| same_file r : same_files r r.

Definition file_step `{FileStore Fs} (op : file_op) (fs : Fs) : file_response * Fs :=
  match op with
  | FPut k b => let '(r, fs') := put_file k b fs in (FUnit r, fs')
  | FGet k => (FBytes (get_file k fs), fs)
  | FDelete k => let '(r, fs') := delete_file k fs in (FUnit r, fs')
  | FList u => (FEntries (list_files u fs), fs)
  end.

Fixpoint file_run `{FileStore Fs} (ops : list file_op) (fs : Fs) : list file_response * Fs :=
  match ops with
  | [] => ([], fs)
  | op :: ops =>
      let '(r, fs) := file_step op fs in let '(rs, fs) := file_run ops fs in (r :: rs, fs)
  end.

Definition op_user (op : file_op) : string :=
  match op with FPut k _ | FGet k | FDelete k => fk_user_id k | FList u => u end.

(** The response reports a failure of the back end. *)
Inductive io_failure : file_response → Prop :=
| io_unit m : io_failure (FUnit (Err (Io m)))
| io_bytes m : io_failure (FBytes (Err (Io m)))
| io_entries m : io_failure (FEntries (Err (Io m))).

(** The responses [rs] to [ops] are those of an in-memory store that starts as [fs]
    and ends as [fs'], but that an operation reported as a failure of the back end
    may have been skipped. *)
Inductive file_trace : InMemoryFileStore → list file_op → list file_response →
    InMemoryFileStore → Prop :=
| trace_end fs : file_trace fs [] [] fs
| trace_answered fs op ops r rs fs' :
    same_files r (file_step op fs).1 → file_trace (file_step op fs).2 ops rs fs' →
    file_trace fs (op :: ops) (r :: rs) fs'
| trace_failed fs op ops r rs fs1 fs' :
    io_failure r → fs1 = fs ∨ fs1 = (file_step op fs).2 → file_trace fs1 ops rs fs' →
    file_trace fs (op :: ops) (r :: rs) fs'.

Lemma holds_same `{ObjectStoreLaws Os} (st st' : Os) fs :
  objects st' = objects st → holds st fs → holds st' fs.
Proof. unfold holds. by intros ->. Qed.

Lemma step_agrees `{ObjectStoreLaws Os} op (st : Os) fs :
  holds st fs → plain_segment (op_user op) = true →
  let '(r, st') := file_step op (mkBackend st) in
  same_files r (file_step op fs).1 ∧ holds (bk_inner st') (file_step op fs).2 ∨
  io_failure r ∧ (holds (bk_inner st') fs ∨ holds (bk_inner st') (file_step op fs).2).
Proof.
  intros Hh Hu. destruct op as [k b|k|k|u]; simpl in *.
  - unfold backend_put, memory_put. destruct (validate_path (fk_path k)) as [[]|e] eqn:Hv.
    + rewrite key_to_path_good by done. destruct (os_put (key_text k) b st) as [r st'] eqn:Hp.
      apply os_put_law in Hp as [Hst|[Hr Hst]]; simpl.
      * assert (holds st' (bt_insert k b fs)) as Hh' by (by eapply holds_put).
        destruct r as [[]|e]; [left; split; [constructor|done]|right; split; [constructor|by right]].
      * destruct r as [[]|e]; [done|]. right. split; [constructor|left]. by eapply holds_same.
    + rewrite (key_to_path_bad k e Hv). left. by split; [constructor|].
  - unfold backend_get, memory_get. destruct (validate_path (fk_path k)) as [[]|e] eqn:Hv.
    + rewrite key_to_path_good by done. simpl. destruct (os_get_law (key_text k) st) as [->|[m ->]].
      * rewrite (holds_lookup st fs k) by done. left. split; [|done].
        destruct (bt_get k fs); constructor.
      * right. split; [constructor|by left].
    + rewrite (key_to_path_bad k e Hv). left. by split; [constructor|].
  - unfold backend_delete, memory_delete. destruct (validate_path (fk_path k)) as [[]|e] eqn:Hv.
    + rewrite key_to_path_good by done. destruct (os_delete (key_text k) st) as [r st'] eqn:Hp.
      apply os_delete_law in Hp as [Hst|[[m ->] Hst]]; simpl.
      * assert (holds st' (bt_remove k fs)) as Hh' by (by eapply holds_delete).
        destruct r as [[]|[|m]]; [left; split; [constructor|done]..|right; split; [constructor|by right]].
      * right. split; [constructor|left]. by eapply holds_same.
    + rewrite (key_to_path_bad k e Hv). left. by split; [constructor|].
  - destruct (backend_list_memory u st fs Hh Hu) as [(l & l' & -> & Hl & Hp)|[m ->]].
    + left. rewrite Hl. split; [by constructor|done].
    + right. split; [constructor|by left].
Qed.

Lemma run_traced `{ObjectStoreLaws Os} ops : ∀ (st : Os) fs,
  holds st fs → Forall (λ op, plain_segment (op_user op) = true) ops →
  ∃ fs', file_trace fs ops (file_run ops (mkBackend st)).1 fs' ∧
    holds (bk_inner (file_run ops (mkBackend st)).2) fs'.
Proof.
  induction ops as [|op ops IH]; intros st fs Hh Husers; simpl.
  { exists fs. split; [constructor|done]. }
  apply Forall_cons in Husers as [Hop Hops]. pose proof (step_agrees op st fs Hh Hop) as Hstep.
  destruct (file_step op (mkBackend st)) as [r [st']]. cbn [bk_inner] in Hstep.
  assert (∃ fs1, holds st' fs1 ∧ ∀ rs fs', file_trace fs1 ops rs fs' →
    file_trace fs (op :: ops) (r :: rs) fs') as (fs1 & Hh1 & Htr).
  { destruct Hstep as [[Hr Hh']|[Hr [Hh'|Hh']]].
    - eexists. split; [exact Hh'|]. intros rs fs'. by apply trace_answered.
    - eexists. split; [exact Hh'|]. intros rs fs'. apply trace_failed; [done|by left].
    - eexists. split; [exact Hh'|]. intros rs fs'. apply trace_failed; [done|by right]. }
  destruct (IH st' fs1 Hh1 Hops) as (fs' & Ht & Hend).
  destruct (file_run ops (mkBackend st')) as [rs st'']. exists fs'. split; [by apply Htr|done].
Qed.

(** Without a failure the responses are the in-memory store's. *)
Lemma trace_no_failure fs ops rs fs' :
  file_trace fs ops rs fs' → Forall (λ r, ¬ io_failure r) rs →
  Forall2 same_files rs (file_run ops fs).1 ∧ (file_run ops fs).2 = fs'.
Proof.
  induction 1 as [fs|fs op ops r rs fs' Hr _ IH|fs op ops r rs fs1 fs' Hr _ _ _];
    intros Hok; [by split|..]; apply Forall_cons in Hok as [Hr' Hok]; [|done].
  simpl. destruct (file_step op fs) as [r' fs1]. simpl in *.
  destruct (IH Hok) as [Hrs <-]. destruct (file_run ops fs1). split; [by constructor|done].
Qed.

(** ** A concrete back end *)

(** A directory tree: an object cannot be written where a directory is, nor below
    an object. *)
Record DirStore := mkDirStore { dir_files : gmap string (list Z) }.
Definition in_the_way (p k : string) : bool :=
  starts_with (p +:+ "/") k || starts_with (k +:+ "/") p.

#[export] Instance DirStore_os : ObjectStore DirStore := {
  os_parse s := if forallb plain_segment (split slash s) then Ok s else Err "invalid path";
  os_put p b st :=
    if existsb (in_the_way p) (map_to_list (dir_files st)).*1
    then (Err (OsOther "not a directory"), st)
    else (Ok (), mkDirStore (<[p := b]> (dir_files st)));
  os_get p st := ok_or (dir_files st !! p) OsNotFound;
  os_delete p st :=
    (match dir_files st !! p with Some _ => Ok () | None => Err OsNotFound end,
     mkDirStore (delete p (dir_files st)));
  os_list p st := Ok ((λ e, (e.1, Z.of_nat (length e.2))) <$>
    filter (λ e, starts_with (p +:+ "/") e.1 = true) (map_to_list (dir_files st))) }.

#[export] Instance DirStore_laws : ObjectStoreLaws DirStore.
Proof.
  refine {| objects := dir_files |}; simpl.
  - intros s Hs. assert (forallb plain_segment (split slash s) = true) as ->; [|done].
    apply forallb_forall. intros x Hx. rewrite Forall_forall in Hs. by apply Hs, list_elem_of_In.
  - intros p b st r st'. destruct (existsb _ _); intros [= <- <-]; [by right|by left].
  - by left.
  - intros p st r st' [= <- <-]. by left.
  - by intros p st l [= <-].
Defined.

(** ** Properties *)

(** Lexical resolution of a relative path against a directory. *)
Fixpoint resolve (dir : list string) (segs : list string) : list string :=
  match segs with
  | [] => dir
  | seg :: segs' =>
      if bool_decide (seg = "..") then resolve (removelast dir) segs'
      else if bool_decide (seg = ".") || bool_decide (seg = "") then resolve dir segs'
      else resolve (dir ++ [seg]) segs'
  end.

Lemma resolve_plain dir segs :
  Forall (λ seg, bad_segment seg = false) segs → resolve dir segs = dir ++ segs.
Proof.
  intros Hs. revert dir. induction Hs as [|seg segs Hseg _ IH]; intros dir; simpl.
  - by rewrite app_nil_r.
  - unfold bad_segment in Hseg. rewrite !orb_false_iff in Hseg. destruct Hseg as [[-> ->] ->].
    simpl. rewrite IH. by rewrite <- app_assoc.
Qed.

(** C24: path validation confines a path to its directory. It accepts exactly the
    paths whose percent-decoded text is legal; every refusal is [Forbidden]; and
    an accepted path, both as it is written and decoded, resolves below any
    directory without ever leaving it and holds no NUL, no other ASCII control
    character and no backslash. *)
Theorem validate_path_confines (path : string) :
  (validate_path path = Ok () ↔ path_ok (percent_decode_once path)) ∧
  (∀ e, validate_path path = Err e → ∃ msg, e = Forbidden msg) ∧
  (validate_path path = Ok () → ∀ t, t = path ∨ t = percent_decode_once path →
     (∀ dir, resolve dir (split slash t) = dir ++ split slash t) ∧
     ∀ c, has_char c t = true → 32 ≤ byte_of c ∧ byte_of c ≠ 127 ∧ c ≠ backslash).
Proof.
  split; [apply validate_path_ok|]. split; [apply validate_path_forbidden|].
  intros Hv t Ht. pose proof (proj1 (validate_path_ok path) Hv) as [_ _ _ Hchars Hsegs].
  split.
  - intros dir. apply resolve_plain. destruct Ht as [->| ->]; [by apply accepted_segments|done].
  - intros c Hc.
    assert (¬ (is_control (byte_of c) = true ∨ disallowed (byte_of c) = true) ∨ 128 ≤ byte_of c)
      as Hgood.
    { destruct (Z.lt_ge_cases (byte_of c) 128) as [Hlt|]; [left|by right].
      intros Hbad. destruct Ht as [->| ->].
      - assert (inert c) as Hin.
        { destruct Hbad as [Hbad|Hbad]; [by apply control_inert|]. split.
          - intros ->. done.
          - unfold disallowed in Hbad. simpl in Hbad. rewrite !orb_true_iff, !Z.eqb_eq in Hbad.
            assert (ascii_of (byte_of c) = c) as <- by apply ascii_of_byte_of.
            by destruct Hbad as [->|[->|[->|[->|[->|[->|[->|[->|[->|?]]]]]]]]]. }
        pose proof (accepted_chars path c Hv Hin Hlt Hbad). congruence.
      - pose proof (has_char_chars _ _ Hc Hlt) as Hin. rewrite Forall_forall in Hchars.
        destruct (Hchars _ Hin). naive_solver congruence. }
    pose proof (byte_of_range c). destruct Hgood as [Hgood|Hge].
    + unfold is_control in Hgood. repeat split.
      * destruct (Z.ltb_spec (byte_of c) 32); [|lia]. destruct Hgood. by left.
      * intros E. apply Hgood. left. by rewrite E.
      * intros ->. apply Hgood. by right.
    + repeat split; [lia..|]. intros ->. by vm_compute in Hge.
Qed.

Lemma validate_path_confines_witness :
  validate_path "a/b%20c.tif" = Ok () ∧ validate_path "a/%2e%2E/b" = Err (Forbidden "a/%2e%2E/b") ∧
  ∀ dir, resolve dir (split slash "a/b%20c.tif") = dir ++ ["a"; "b%20c.tif"].
Proof.
  assert (validate_path "a/b%20c.tif" = Ok ()) as Hv by (vm_compute; reflexivity).
  split; [exact Hv|]. split; [vm_compute; reflexivity|].
  destruct (validate_path_confines "a/b%20c.tif") as (_ & _ & H).
  exact (proj1 (H Hv _ (or_introl eq_refl))).
Defined.

(** C32: the adapter over an object store and the in-memory store agree.  For user
    ids that are plain path segments, over any back end that starts empty, every
    sequence of uploads, downloads, deletions and listings is answered as the
    in-memory store answers it (listings up to order, deletions of absent files and
    refused paths included), but for operations the adapter reports as I/O failures,
    each of which has been carried out whole or not at all; and the back end ends
    holding exactly the files of that in-memory store.  So when no failure is
    reported, all the answers are the in-memory store's. *)
Theorem object_store_agrees_with_memory `{ObjectStoreLaws Os} (st : Os) (ops : list file_op)
    (Hempty : objects st = ∅) (Husers : Forall (λ op, plain_segment (op_user op) = true) ops) :
  let '(rs, b) := file_run ops (mkBackend st) in
  (∃ fs', file_trace [] ops rs fs' ∧ holds (bk_inner b) fs') ∧
  (Forall (λ r, ¬ io_failure r) rs →
     Forall2 same_files rs (file_run ops ([] : InMemoryFileStore)).1 ∧
     holds (bk_inner b) (file_run ops ([] : InMemoryFileStore)).2).
Proof.
  assert (holds st []) as Hh.
  { split; [constructor|]. split; [done|]. intros p b. rewrite Hempty, lookup_empty.
    split; [done|]. by intros (k & _ & ?). }
  destruct (run_traced ops st [] Hh Husers) as (fs' & Ht & Hend).
  destruct (file_run ops (mkBackend st)) as [rs b]. split; [by exists fs'|].
  intros Hok. by destruct (trace_no_failure _ _ _ _ Ht Hok) as [Hrs ->].
Qed.

Definition demo_files : list file_op := [
  FPut (mkFileKey "alice" "out/result.tif") [1; 2; 3]; FGet (mkFileKey "alice" "out/result.tif");
  FGet (mkFileKey "bob" "out/result.tif"); FPut (mkFileKey "bob" "../alice/x") [0];
  FList "alice"; FDelete (mkFileKey "alice" "none"); FList "bob" ].

(** An object where a directory would be needed. *)
Definition demo_conflict : list file_op := [
  FPut (mkFileKey "alice" "a") [1]; FPut (mkFileKey "alice" "a/b") [2];
  FGet (mkFileKey "alice" "a/b"); FGet (mkFileKey "alice" "a") ].

Lemma object_store_agrees_with_memory_witness :
  Forall2 same_files (file_run demo_files (mkBackend (mkDirStore ∅))).1
    (file_run demo_files ([] : InMemoryFileStore)).1 ∧
  (file_run demo_conflict (mkBackend (mkDirStore ∅))).1 =
    [FUnit (Ok ()); FUnit (Err (Io "not a directory")); FBytes (Err FNotFound); FBytes (Ok [1])] ∧
  ∃ fs', file_trace [] demo_conflict (file_run demo_conflict (mkBackend (mkDirStore ∅))).1 fs'.
Proof.
  split; [|split; [vm_compute; reflexivity|]].
  - pose proof (object_store_agrees_with_memory (mkDirStore ∅) demo_files eq_refl
      ltac:(repeat constructor)) as H.
    assert (Forall (λ r, ¬ io_failure r) (file_run demo_files (mkBackend (mkDirStore ∅))).1) as Hok
      by (vm_compute; repeat (constructor; [by inversion 1|]); constructor).
    destruct (file_run demo_files (mkBackend (mkDirStore ∅))) as [rs b].
    exact (proj1 (proj2 H Hok)).
  - pose proof (object_store_agrees_with_memory (mkDirStore ∅) demo_conflict eq_refl
      ltac:(repeat constructor)) as H.
    destruct (file_run demo_conflict (mkBackend (mkDirStore ∅))) as [rs b].
    destruct H as [(fs' & Ht & _) _]. exists fs'. exact Ht.
Defined.
