(* ===== verification/Metrics.v ===== *)
(** * Metrics: crates/orbit-observability

    The recorder's mutex makes each operation one step on its two maps.
    Strings are byte strings; the characters the renderer escapes are ASCII, so
    escaping byte by byte is escaping character by character.  How an [f64] is
    displayed is a parameter of the renderer. *)

From Stdlib Require Import Ascii.
From S2P Require Import Prelude Text BTree F64.
Local Open Scope Z_scope.

(** ** Names and kinds *)

Inductive MetricName :=
| EtlJobsTotal | EtlRowsReadTotal | EtlRowsWrittenTotal | EtlJobDurationSeconds
| CatalogSearchTotal | CacheHitsTotal | CacheMissesTotal | CacheBytesOutTotal
| CacheBytesInTotal | KernelBlockDurationSeconds | GrpcRequestsTotal | GrpcErrorsTotal.

Definition metric_as_str (n : MetricName) : string :=
  match n with
  | EtlJobsTotal => "orbit_etl_jobs_total"
  | EtlRowsReadTotal => "orbit_etl_rows_read_total"
  | EtlRowsWrittenTotal => "orbit_etl_rows_written_total"
  | EtlJobDurationSeconds => "orbit_etl_job_duration_seconds"
  | CatalogSearchTotal => "orbit_catalog_search_total"
  | CacheHitsTotal => "orbit_cache_hits_total"
  | CacheMissesTotal => "orbit_cache_misses_total"
  | CacheBytesOutTotal => "orbit_cache_bytes_out_total"
  | CacheBytesInTotal => "orbit_cache_bytes_in_total"
  | KernelBlockDurationSeconds => "orbit_kernel_block_duration_seconds"
  | GrpcRequestsTotal => "orbit_grpc_requests_total"
  | GrpcErrorsTotal => "orbit_grpc_errors_total"
  end.

Inductive MetricKind := Counter | Histogram.

Definition kind (n : MetricName) : MetricKind :=
  match n with
  | EtlJobDurationSeconds | KernelBlockDurationSeconds => Histogram
  | _ => Counter
  end.

Definition type_str (k : MetricKind) : string :=
  match k with Counter => "counter" | Histogram => "histogram" end.

(** The derived order: declaration order. *)
Definition metric_index (n : MetricName) : Z :=
  match n with
  | EtlJobsTotal => 0 | EtlRowsReadTotal => 1 | EtlRowsWrittenTotal => 2
  | EtlJobDurationSeconds => 3 | CatalogSearchTotal => 4 | CacheHitsTotal => 5
  | CacheMissesTotal => 6 | CacheBytesOutTotal => 7 | CacheBytesInTotal => 8
  | KernelBlockDurationSeconds => 9 | GrpcRequestsTotal => 10 | GrpcErrorsTotal => 11
  end.

#[export] Instance MetricName_eq_dec : EqDecision MetricName.
Proof. solve_decision. Defined.
#[export] Instance ord_metric : Ord MetricName := λ x y, metric_index x ?= metric_index y.
#[export] Instance ord_metric_laws : OrdLaws MetricName.
Proof.
  split; unfold cmp, ord_metric.
  - intros x y. rewrite Z.compare_eq_iff. split; [|by intros ->]. by destruct x, y.
  - intros. apply Z.compare_antisym.
  - intros x y z. rewrite !Z.compare_lt_iff. lia.
Qed.

(** ** The in-memory recorder *)

Notation Labels := (btree string string).
Notation Series := (MetricName * Labels)%type.

Record InMemoryRecorder := mkRecorder {
  counters : btree Series Z;
  histograms : btree Series (Z * f64) }.

Definition Recorder_new : InMemoryRecorder := mkRecorder [] [].

Definition counter (r : InMemoryRecorder) (name : MetricName) (labels : Labels) : Z :=
  default 0 (bt_get (name, labels) (counters r)).
Definition histogram (r : InMemoryRecorder) (name : MetricName) (labels : Labels) : Z * f64 :=
  default (0, f64_zero) (bt_get (name, labels) (histograms r)).
Definition counter_series_count (r : InMemoryRecorder) : nat := length (counters r).

Definition counter_inc (name : MetricName) (labels : Labels) (delta : Z)
    (r : InMemoryRecorder) : InMemoryRecorder :=
  let old := default 0 (bt_get (name, labels) (counters r)) in
  mkRecorder (bt_insert (name, labels) (wrap 64 (old + delta)) (counters r)) (histograms r).

Definition histogram_observe (name : MetricName) (labels : Labels) (value : f64)
    (r : InMemoryRecorder) : InMemoryRecorder :=
  let e := default (0, f64_zero) (bt_get (name, labels) (histograms r)) in
  mkRecorder (counters r)
    (bt_insert (name, labels) (wrap 64 (e.1 + 1), f64_add e.2 value) (histograms r)).

Definition labels_of (pairs : list (string * string)) : Labels := bt_of_list pairs.

(** ** Rendering *)

Fixpoint escape (v : string) : string :=
  match v with
  | EmptyString => EmptyString
  | String ch v' =>
      if bool_decide (ch = backslash) then String backslash (String backslash (escape v'))
      else if bool_decide (ch = dquote) then String backslash (String dquote (escape v'))
      else if bool_decide (ch = newline) then String backslash (String "n"%char (escape v'))
      else String ch (escape v')
  end.

(** The loop over the labels, [first] as in the source. *)
Fixpoint push_pairs (first : bool) (labels : Labels) : string :=
  match labels with
  | [] => ""
  | (k, v) :: labels' =>
      (if first then "" else ",") +:+ k +:+ "=" +:+ chr dquote +:+ escape v +:+ chr dquote
      +:+ push_pairs false labels'
  end.

Definition push_labels (buf : string) (labels : Labels) : string :=
  match labels with
  | [] => buf
  | _ => buf +:+ "{" +:+ push_pairs true labels +:+ "}"
  end.

(** [entry(name).or_default().push(..)] over the series in key order. *)
Definition group_by_name {V} (m : btree Series V) : btree MetricName (list (Labels * V)) :=
  foldl (λ g '((name, labels), v),
    bt_insert name (default [] (bt_get name g) ++ [(labels, v)]) g) [] m.

Definition nl : string := chr newline.

Definition type_line (name : MetricName) : string :=
  "# TYPE " +:+ metric_as_str name +:+ " " +:+ type_str (kind name) +:+ nl.

Section render.
Context (f64_display : f64 → string).

Definition counter_line (name : MetricName) (out : string) (s : Labels * Z) : string :=
  push_labels (out +:+ metric_as_str name) s.1 +:+ " " +:+ pretty s.2 +:+ nl.

Definition histogram_lines (name : MetricName) (out : string) (s : Labels * (Z * f64)) : string :=
  let n := metric_as_str name in
  let out := push_labels (out +:+ (n +:+ "_count")) s.1 +:+ " " +:+ pretty s.2.1 +:+ nl in
  push_labels (out +:+ (n +:+ "_sum")) s.1 +:+ " " +:+ f64_display s.2.2 +:+ nl.

Definition to_prometheus (r : InMemoryRecorder) : string :=
  let out := foldl (λ out '(name, series),
    foldl (counter_line name) (out +:+ type_line name) series) "" (group_by_name (counters r)) in
  foldl (λ out '(name, series),
    foldl (histogram_lines name) (out +:+ type_line name) series) out
    (group_by_name (histograms r)).
End render.

(** ** The recorder as the sum of its history *)

Inductive event :=
| EInc (name : MetricName) (labels : Labels) (delta : Z)
| EObserve (name : MetricName) (labels : Labels) (value : f64).

Definition apply_event (r : InMemoryRecorder) (e : event) : InMemoryRecorder :=
  match e with
  | EInc n l d => counter_inc n l d r
  | EObserve n l v => histogram_observe n l v r
  end.

(** What the events of one series add up to. *)
Definition delta_of (s : Series) (e : event) : Z :=
  match e with EInc n l d => if decide ((n, l) = s) then d else 0 | _ => 0 end.
Definition value_of (s : Series) (e : event) : option f64 :=
  match e with EObserve n l v => if decide ((n, l) = s) then Some v else None | _ => None end.
Definition sum_deltas (s : Series) (h : list event) : Z :=
  foldr (λ e acc, delta_of s e + acc) 0 h.

Definition recorder_wf (r : InMemoryRecorder) : Prop :=
  bt_wf (counters r) ∧ bt_wf (histograms r).

Lemma apply_event_wf r e : recorder_wf r → recorder_wf (apply_event r e).
Proof. intros [Hc Hh]. destruct e; (split; [try apply bt_wf_insert; done..]). Qed.

Lemma counter_apply_event r e n l :
  recorder_wf r → in_u 64 (counter r n l) →
  counter (apply_event r e) n l = wrap 64 (counter r n l + delta_of (n, l) e).
Proof.
  intros [Hc Hh] Hu. unfold counter in *.
  destruct e as [n' l' d|n' l' v]; simpl; [|by rewrite Z.add_0_r, wrap_small].
  destruct (decide ((n', l') = (n, l))) as [[= -> ->]|Hne].
  - by rewrite bt_get_insert_eq.
  - by rewrite bt_get_insert_ne, Z.add_0_r, wrap_small.
Qed.

Lemma histogram_apply_event r e n l :
  recorder_wf r →
  histogram (apply_event r e) n l =
  match value_of (n, l) e with
  | Some v => (wrap 64 ((histogram r n l).1 + 1), f64_add (histogram r n l).2 v)
  | None => histogram r n l
  end.
Proof.
  intros [Hc Hh]. unfold histogram.
  destruct e as [n' l' d|n' l' v]; simpl; [done|].
  destruct (decide ((n', l') = (n, l))) as [[= -> ->]|Hne].
  - by rewrite bt_get_insert_eq.
  - by rewrite bt_get_insert_ne.
Qed.

Lemma history_spec h r n l :
  recorder_wf r → in_u 64 (counter r n l) → in_u 64 (histogram r n l).1 →
  let r' := foldl apply_event r h in
  let vs := omap (value_of (n, l)) h in
  counter r' n l = wrap 64 (counter r n l + sum_deltas (n, l) h) ∧
  histogram r' n l = (wrap 64 ((histogram r n l).1 + Z.of_nat (length vs)),
                      foldl f64_add (histogram r n l).2 vs).
Proof.
  revert r. induction h as [|e h IH]; intros r Hwf Hc Hh; simpl.
  - rewrite !Z.add_0_r, !wrap_small by done. by destruct (histogram r n l).
  - pose proof (counter_apply_event r e n l Hwf Hc) as Ec.
    pose proof (histogram_apply_event r e n l Hwf) as Eh.
    destruct (IH (apply_event r e)) as [Hc' Hh'].
    { by apply apply_event_wf. }
    { rewrite Ec. by apply wrap_in_u. }
    { rewrite Eh. destruct (value_of (n, l) e); [by apply wrap_in_u|done]. }
    rewrite Hc', Hh', Ec, Eh. split.
    + unfold wrap. rewrite Zplus_mod_idemp_l. by rewrite Z.add_assoc.
    + destruct (value_of (n, l) e); simpl; [|done].
      unfold wrap. rewrite Zplus_mod_idemp_l.
      by rewrite Nat2Z.inj_succ, <- Z.add_1_l, Z.add_assoc.
Qed.

(** ** A reader of the exposition format's label block *)

Fixpoint parse_value (s : string) : option (string * string) :=
  match s with
  | EmptyString => None
  | String c s' =>
      if bool_decide (c = dquote) then Some ("", s')
      else if bool_decide (c = backslash) then
        match s' with
        | EmptyString => None
        | String d s'' =>
            let c' := if bool_decide (d = "n"%char) then newline else d in
            '(v, rest) ← parse_value s''; Some (String c' v, rest)
        end
      else '(v, rest) ← parse_value s'; Some (String c v, rest)
  end.

Fixpoint parse_key (s : string) : option (string * string) :=
  match s with
  | EmptyString => None
  | String c s' =>
      if bool_decide (c = "="%char) then Some ("", s')
      else '(k, rest) ← parse_key s'; Some (String c k, rest)
  end.

Fixpoint parse_pairs (fuel : nat) (s : string) : option (Labels * string) :=
  match fuel with
  | O => None
  | S fuel =>
      '(k, s) ← parse_key s;
      match s with
      | String c s =>
          if bool_decide (c = dquote) then
            '(v, s) ← parse_value s;
            match s with
            | String c s =>
                if bool_decide (c = "}"%char) then Some ([(k, v)], s)
                else if bool_decide (c = ","%char) then
                  '(ls, s) ← parse_pairs fuel s; Some ((k, v) :: ls, s)
                else None
            | EmptyString => None
            end
          else None
      | EmptyString => None
      end
  end.

Definition parse_labels (s : string) : option (Labels * string) :=
  match s with
  | String c s' => if bool_decide (c = "{"%char) then parse_pairs (String.length s') s'
                   else Some ([], s)
  | EmptyString => Some ([], s)
  end.

Lemma parse_value_escape v rest :
  parse_value (escape v +:+ String dquote rest) = Some (v, rest).
Proof.
  induction v as [|c v IH]; [done|]. cbn [escape].
  destruct (bool_decide_reflect (c = backslash)) as [->|H1];
    [rewrite !str_app_cons; simpl; by rewrite IH|].
  destruct (bool_decide_reflect (c = dquote)) as [->|H2];
    [rewrite !str_app_cons; simpl; by rewrite IH|].
  destruct (bool_decide_reflect (c = newline)) as [->|H3];
    [rewrite !str_app_cons; simpl; by rewrite IH|].
  rewrite str_app_cons. simpl. rewrite !bool_decide_eq_false_2 by done. by rewrite IH.
Qed.

Lemma parse_key_app k rest :
  has_char "=" k = false → parse_key (k +:+ String "=" rest) = Some (k, rest).
Proof.
  induction k as [|c k IH]; [done|]. rewrite str_app_cons. simpl.
  rewrite orb_false_iff, bool_decide_eq_false.
  intros [Hne Hk]. rewrite bool_decide_eq_false_2 by congruence. by rewrite IH.
Qed.

(** One pair of the block, whatever follows it. *)
Definition pair_text (k v rest : string) : string :=
  k +:+ String "=" (String dquote (escape v +:+ String dquote rest)).

Lemma push_pairs_cons first k v labels :
  push_pairs first ((k, v) :: labels) =
  (if first then "" else ",") +:+ pair_text k v (push_pairs false labels).
Proof.
  unfold pair_text. simpl. unfold chr. by autorewrite with str.
Qed.

#[local] Arguments push_pairs : simpl never.

Lemma pair_text_app k v s rest : pair_text k v s +:+ rest = pair_text k v (s +:+ rest).
Proof. unfold pair_text. by autorewrite with str. Qed.

Lemma parse_pairs_push labels : ∀ fuel e rest,
  Forall (λ e, has_char "=" e.1 = false) (e :: labels) → (length labels < fuel)%nat →
  parse_pairs fuel (push_pairs true (e :: labels) +:+ String "}" rest)
    = Some (e :: labels, rest).
Proof.
  induction labels as [|e' labels IH]; intros [|fuel] [k v] rest Hk Hf; simpl in Hf; try lia;
    apply Forall_cons in Hk as [Hk Hks]; simpl in Hk;
    rewrite push_pairs_cons, str_app_nil, pair_text_app; cbn [parse_pairs];
    unfold pair_text at 1; rewrite parse_key_app by done; simpl;
    rewrite parse_value_escape; simpl.
  - done.
  - destruct e' as [k' v']. rewrite push_pairs_cons, str_app_cons, str_app_nil. simpl.
    specialize (IH fuel (k', v') rest Hks ltac:(lia)).
    rewrite push_pairs_cons, str_app_nil in IH. by rewrite IH.
Qed.

Lemma push_pairs_length labels first :
  (length labels ≤ String.length (push_pairs first labels))%nat.
Proof.
  revert first. induction labels as [|[k v] labels IH]; intros first; [simpl; lia|].
  rewrite push_pairs_cons. unfold pair_text.
  repeat (rewrite !str_length_app || cbn [String.length]). specialize (IH false). simpl. lia.
Qed.

(** ** Properties *)

(** Whatever the events and their order, a counter series holds the sum of
    its increments modulo 2^64, and a histogram series the number of its
    observations and their floating-point sum in order of arrival; events of
    other series, and of the other kind, leave a series alone. *)
Theorem recorder_history (h : list event) (n : MetricName) (l : Labels) :
  let r := foldl apply_event Recorder_new h in
  let vs := omap (value_of (n, l)) h in
  counter r n l = wrap 64 (sum_deltas (n, l) h) ∧
  histogram r n l = (wrap 64 (Z.of_nat (length vs)), foldl f64_add f64_zero vs).
Proof.
  exact (history_spec h Recorder_new n l (conj bt_wf_nil bt_wf_nil)
    ltac:(by split) ltac:(by split)).
Qed.

(** The label block of the exposition text is unambiguous: whatever the
    label values contain (quotes, backslashes, newlines, braces), a reader of
    the format gets back exactly the labels and the text that follows, provided
    no label key contains an equals sign. *)
Theorem push_labels_roundtrip (labels : Labels) (rest : string) :
  Forall (λ e, has_char "=" e.1 = false) labels → String.get 0 rest ≠ Some "{"%char →
  parse_labels (push_labels "" labels +:+ rest) = Some (labels, rest).
Proof.
  intros Hk Hrest. destruct labels as [|e labels].
  - simpl. unfold parse_labels. destruct rest as [|c rest]; [done|].
    simpl. rewrite bool_decide_eq_false_2 by (intros ->; done). done.
  - unfold push_labels. autorewrite with str. simpl.
    apply parse_pairs_push; [done|].
    pose proof (push_pairs_length (e :: labels) true) as Hlen.
    rewrite str_length_app. simpl in *. lia.
Qed.

Lemma push_labels_roundtrip_witness :
  parse_labels (push_labels "" [("state", chr dquote +:+ "}," +:+ chr newline)] +:+ " 3")
  = Some ([("state", chr dquote +:+ "}," +:+ chr newline)], " 3").
Proof. apply push_labels_roundtrip; [by repeat constructor|done]. Defined.
