(* ===== verification/Executor.v ===== *)
(** * Process-graph executors: apps/orbit-openeo/src/executor.rs and catalog.rs

    The executor interface of the HTTP layer, the collection catalog, and the
    walk over an analysed graph that evaluates its nodes in dependency order
    with memoised results.  The walk is written once, over the way a node is
    dispatched and the state the dispatch acts on: LocalExecutor's dispatch is
    here, the process registry of the GeoExecutor is in the file Geo.  A dispatch
    that panics is [None]. *)

From S2P Require Import Prelude Text BTree F64 Json ProcessGraph.
Local Open Scope Z_scope.

(** ** Data *)

Inductive ExecError :=
| InvalidGraph (m : string) | UnknownProcess (p : string) | ExecBackend (m : string)
| PerPixelComputation (m : string).

Record SyncResult := mkSyncResult { content_type : string; sr_body : list Z }.

(** ** catalog.rs *)

Record Collection := mkCollection {
  col_id : string; stac_version : string; description : string; license : string;
  extra : list (string * Value) }.

Definition Collection_new (id : string) : Collection :=
  mkCollection id "1.0.0" "" "proprietary" [].

Inductive CatalogError := CollectionNotFound (id : string) | CatalogBackend (m : string).

Definition catalog_error_text (e : CatalogError) : string :=
  match e with
  | CollectionNotFound id => "collection not found: " +:+ id
  | CatalogBackend m => "catalog backend error: " +:+ m
  end.

Class CollectionCatalog (C : Type) := {
  catalog_list : C → result CatalogError (list Collection);
  catalog_get : string → C → result CatalogError Collection }.

Record InMemoryCatalog := mkInMemoryCatalog { catalog_inner : list Collection }.

#[export] Instance InMemory_catalog : CollectionCatalog InMemoryCatalog := {
  catalog_list c := Ok (catalog_inner c);
  catalog_get id c :=
    ok_or (List.find (λ c, bool_decide (col_id c = id)) (catalog_inner c))
      (CollectionNotFound id) }.

(** ** Bodies *)

(** The graph of a request body: under [process], or at the top. *)
Definition body_graph (body : Value) : option Value :=
  match jget "process" body ≫= jget "process_graph" with
  | Some v => Some v
  | None => jget "process_graph" body
  end.

Definition validate_process_wrapper (body : Value) : result ExecError unit :=
  match body_graph body with
  | Some (Object (_ :: _)) => Ok ()
  | Some _ => Err (InvalidGraph "process_graph is not a non-empty object")
  | None => Err (InvalidGraph "missing process.process_graph")
  end.

(** ** Resolving arguments *)

(** The target of an argument that is exactly [{"from_node": "x"}]. *)
Definition direct_ref (v : Value) : option string :=
  match v with
  | Object obj =>
      if (length obj =? 1)%nat then
        match assoc_get "from_node" obj with Some (JString target) => Some target | _ => None end
      else None
  | _ => None
  end.

Definition resolve_value (v : Value) (memo : gmap string Value) : result ExecError Value :=
  match direct_ref v with
  | Some target =>
      ok_or (memo !! target)
        (InvalidGraph ("upstream node `" +:+ target +:+ "` not yet evaluated"))
  | None => Ok v
  end.

Fixpoint resolve_args (args : btree string Value) (memo : gmap string Value)
    (resolved : btree string Value) : result ExecError (btree string Value) :=
  match args with
  | [] => Ok resolved
  | (k, v) :: args' =>
      r ← resolve_value v memo;
      resolve_args args' memo (bt_insert k r resolved)
  end.

(** ** The walk *)

Section walk.
Context {W : Type}.
Context (dispatch : string → btree string Value → W → option (result ExecError Value * W)).
Context (pg : ProcessGraph).

Fixpoint walk (order : list string) (memo : gmap string Value) (w : W)
    : option (result ExecError (gmap string Value) * W) :=
  match order with
  | [] => Some (Ok memo, w)
  | node_id :: order' =>
      match bt_get node_id (nodes pg) with
      | None => Some (Err (InvalidGraph ("unknown node `" +:+ node_id +:+ "`")), w)
      | Some node =>
          match resolve_args (arguments node) memo [] with
          | Err e => Some (Err e, w)
          | Ok resolved_args =>
              match dispatch (process_id node) resolved_args w with
              | None => None
              | Some (Err e, w) => Some (Err e, w)
              | Some (Ok out, w) => walk order' (<[node_id := out]> memo) w
              end
          end
      end
  end.

(** Analyse, walk, take the result node's value and process.  [None] is a panic
    of [evaluation_order] or of a dispatch. *)
Definition evaluate_graph `{Petgraph} (w : W) : option (result ExecError (string * Value) * W) :=
  match build pg with
  | Err e => Some (Err (InvalidGraph (graph_error_text e)), w)
  | Ok analysis =>
      order ← evaluation_order analysis;
      match walk order ∅ w with
      | None => None
      | Some (Err e, w) => Some (Err e, w)
      | Some (Ok memo, w) =>
          Some
            (value ← ok_or (memo !! result_id analysis)
               (InvalidGraph "result node was not visited during topo walk");
             Ok (match bt_get (result_id analysis) (nodes pg) with
                 | Some p => process_id p | None => "" end, value), w)
      end
  end.
End walk.

(** ** EchoExecutor and LocalExecutor *)

Definition hex_char (d : Z) : string :=
  string_of [if d <? 10 then d + 48 else d + 87].
(** At most [fuel] hexadecimal digits, without leading zeros. *)
Fixpoint hex_digits (fuel : nat) (n : Z) : string :=
  match fuel with
  | O => ""
  | S fuel => if n =? 0 then "" else hex_digits fuel (n / 16) +:+ hex_char (n mod 16)
  end.
Fixpoint zeros (n : nat) : string := match n with O => "" | S n => "0" +:+ zeros n end.
(** [format!("{:08x}", n)] of a 64-bit integer *)
Definition hex08 (n : Z) : string :=
  let s := hex_digits 16 n in zeros (8 - String.length s) +:+ s.
(** [format!("{:016x}", n)] *)
Definition hex016 (n : Z) : string :=
  let s := hex_digits 16 n in zeros (16 - String.length s) +:+ s.

Section executors.
Context (to_text : Value → string).      (* serde_json's compact printer *)
Context (hash_text : string → Z).        (* DefaultHasher, 64 bits *)
Context (nodes_of_json : Value → result string (btree string Process)).  (* serde's decoder *)
Context `{Petgraph}.

Definition SyncResult_json (v : Value) : SyncResult :=
  mkSyncResult "application/json" (bytes_of (to_text v)).
Definition enqueued_id (body : Value) : string := "job-" +:+ hex08 (hash_text (to_text body)).

Definition echo_run_sync (body : Value) : result ExecError SyncResult :=
  _ ← validate_process_wrapper body; Ok (SyncResult_json body).
Definition echo_enqueue (body : Value) : result ExecError string :=
  _ ← validate_process_wrapper body; Ok (enqueued_id body).

Definition parse_graph (body : Value) : result ExecError ProcessGraph :=
  pg_val ← ok_or (body_graph body) (InvalidGraph "missing process.process_graph");
  nodes ← map_err InvalidGraph (nodes_of_json pg_val);
  match nodes with
  | [] => Err (InvalidGraph "process_graph is empty")
  | _ => Ok (mkProcessGraph nodes)
  end.

Definition number (opt : option Value) : result ExecError f64 :=
  ok_or (opt ≫= as_f64) (InvalidGraph "expected numeric argument").

Context {C : Type} `{CollectionCatalog C} (catalog : option C).

Definition load_collection (args : btree string Value) : result ExecError Value :=
  let id_arg := default Null (bt_get "id" args) in
  match catalog with
  | None => Ok (Object [("type", JString "DataCube"); ("collection", id_arg)])
  | Some cat =>
      id_str ← ok_or (as_str id_arg)
        (InvalidGraph "load_collection: `id` argument must be a string");
      match catalog_get id_str cat with
      | Ok meta =>
          Ok (Object ([("type", JString "DataCube"); ("collection", id_arg);
                       ("stac_version", JString (stac_version meta))] ++
                      (if bool_decide (description meta = "") then []
                       else [("description", JString (description meta))])))
      | Err (CollectionNotFound id) => Err (ExecBackend ("CollectionNotFound: " +:+ id))
      | Err e => Err (ExecBackend ("catalog: " +:+ catalog_error_text e))
      end
  end.

Definition two_numbers (f : f64 → f64 → result ExecError Value) (args : btree string Value)
    : result ExecError Value :=
  x ← number (bt_get "x" args); y ← number (bt_get "y" args); f x y.

(** The [match] on the process id. *)
Definition local_dispatch (pid : string) (args : btree string Value) : result ExecError Value :=
  if bool_decide (pid = "load_collection") then load_collection args
  else if bool_decide (pid = "save_result") then Ok (default Null (bt_get "data" args))
  else if bool_decide (pid = "add") then
    two_numbers (λ x y, Ok (json_of_f64 (f64_add x y))) args
  else if bool_decide (pid = "subtract") then
    two_numbers (λ x y, Ok (json_of_f64 (f64_sub x y))) args
  else if bool_decide (pid = "multiply") then
    two_numbers (λ x y, Ok (json_of_f64 (f64_mul x y))) args
  else if bool_decide (pid = "divide") then
    two_numbers (λ x y,
      if f64_eqb y f64_zero then Err (InvalidGraph "divide: y must be non-zero")
      else Ok (json_of_f64 (f64_div x y))) args
  else Err (UnknownProcess pid).

(** [LocalExecutor::evaluate]; the dispatch keeps no state. *)
Definition local_evaluate (graph : ProcessGraph) : option (result ExecError Value) :=
  match evaluate_graph (λ pid args _, Some (local_dispatch pid args, ())) graph () with
  | Some (r, _) => Some (snd <$> r)
  | None => None
  end.

Definition local_run_sync (body : Value) : option (result ExecError SyncResult) :=
  match parse_graph body with
  | Err e => Some (Err e)
  | Ok graph =>
      match local_evaluate graph with
      | Some r => Some (SyncResult_json <$> r)
      | None => None
      end
  end.
Definition local_enqueue (body : Value) : result ExecError string :=
  _ ← parse_graph body; Ok (enqueued_id body).
End executors.

(** ** What a walk does *)

Record Call := mkCall { c_node : string; c_args : btree string Value; c_out : Value }.

Definition outputs (l : list Call) : gmap string Value :=
  list_to_map ((λ c, (c_node c, c_out c)) <$> l).

(** The arguments with every direct reference replaced by an output. *)
Definition subst_arg (outs : gmap string Value) (v : Value) : Value :=
  match direct_ref v with Some target => default Null (outs !! target) | None => v end.
Definition subst_args (outs : gmap string Value) (args : btree string Value)
    : btree string Value := (λ e, (e.1, subst_arg outs e.2)) <$> args.

(** Every direct reference has an output. *)
Definition closed_args (outs : gmap string Value) (args : btree string Value) : Prop :=
  ∀ k v target, (k, v) ∈ args → direct_ref v = Some target → is_Some (outs !! target).

Section walk_facts.
Context {W : Type}.
Context (dispatch : string → btree string Value → W → option (result ExecError Value * W)).
Context (pg : ProcessGraph).

(** The dispatches of a walk, in order, with the state they thread. *)
Inductive performed : W → list Call → W → Prop :=
| performed_nil w : performed w [] w
| performed_cons id node args out w w1 l w2 :
    bt_get id (nodes pg) = Some node →
    dispatch (process_id node) args w = Some (Ok out, w1) →
    performed w1 l w2 → performed w (mkCall id args out :: l) w2.

(** The call got its node's arguments with the references filled in from [outs]. *)
Definition given (outs : gmap string Value) (c : Call) : Prop :=
  ∃ node, bt_get (c_node c) (nodes pg) = Some node ∧
    closed_args outs (arguments node) ∧ c_args c = subst_args outs (arguments node).

Lemma performed_app w l w1 l' w2 : performed w l w1 → performed w1 l' w2 → performed w (l ++ l') w2.
Proof. induction 1; [done|]. intros. simpl. econstructor; eauto. Qed.

(** Resolving the arguments of a node whose references have been evaluated. *)
Lemma resolve_args_closed memo args : ∀ acc,
  bt_wf args → (∀ a e, a ∈ acc → e ∈ args → bt_lt a e) → closed_args memo args →
  resolve_args args memo acc = Ok (acc ++ subst_args memo args).
Proof.
  induction args as [|[k v] args IH]; intros acc Hwf Hlt Hc; simpl; [by rewrite app_nil_r|].
  apply bt_wf_tail in Hwf as [Hwf Hall]. rewrite Forall_forall in Hall.
  assert (resolve_value v memo = Ok (subst_arg memo v)) as ->.
  { unfold resolve_value, subst_arg. destruct (direct_ref v) as [t|] eqn:Ht; [|done].
    destruct (Hc k v t) as [o ->]; [by left|done|done]. }
  simpl. rewrite bt_insert_last.
  2: { apply Forall_forall. intros a Ha. apply (Hlt a (k, v)); [done|by left]. }
  rewrite IH; [|done| |].
  - by rewrite <- app_assoc.
  - intros a e [Ha|Ha%list_elem_of_singleton]%elem_of_app He.
    + apply (Hlt a e); [done|by right].
    + subst a. by apply (Hall e).
  - intros k' v' t Hin. apply (Hc k' v' t). by right.
Qed.

Lemma outputs_snoc l c : c_node c ∉ c_node <$> l →
  outputs (l ++ [c]) = <[c_node c := c_out c]> (outputs l).
Proof.
  intros Hn. unfold outputs. rewrite fmap_app. simpl. apply list_to_map_snoc.
  by rewrite <- list_fmap_compose.
Qed.

Lemma outputs_dom l id : is_Some (outputs l !! id) ↔ id ∈ c_node <$> l.
Proof.
  unfold outputs. rewrite <- elem_of_dom, dom_list_to_map_L, elem_of_list_to_set.
  by rewrite <- list_fmap_compose.
Qed.

Lemma outputs_mono l l' : NoDup (c_node <$> l ++ l') → outputs l ⊆ outputs (l ++ l').
Proof.
  intros Hnd. unfold outputs. rewrite fmap_app, list_to_map_app.
  apply map_union_subseteq_l.
Qed.

Lemma given_mono outs outs' c : outs ⊆ outs' → given outs c → given outs' c.
Proof.
  intros Hsub (node & Hn & Hc & Ha). exists node. split; [done|].
  assert (∀ t v, outs !! t = Some v → outs' !! t = Some v) as Hs
    by (intros; by eapply lookup_weaken).
  split.
  - intros k v t Hin Ht. destruct (Hc k v t Hin Ht) as [o Ho]. exists o. by apply Hs.
  - rewrite Ha. unfold subst_args. apply list_fmap_ext. intros i [k v] Hi. simpl. f_equal.
    unfold subst_arg. destruct (direct_ref v) as [t|] eqn:Ht; [|done].
    apply list_elem_of_lookup_2 in Hi. destruct (Hc k v t Hi Ht) as [o Ho].
    by rewrite Ho, (Hs _ _ Ho).
Qed.

(** An order of evaluation: known nodes with well-formed arguments, each after
    the nodes its arguments refer to. *)
Record evaluable (order : list string) : Prop := {
  ev_nodup : NoDup order;
  ev_known id : id ∈ order → ∃ node, bt_get id (nodes pg) = Some node ∧ bt_wf (arguments node);
  ev_refs id node k v t : bt_get id (nodes pg) = Some node → (k, v) ∈ arguments node →
    direct_ref v = Some t → before order t id }.

Lemma before_done {A} (l1 l2 : list A) a b :
  NoDup (l1 ++ b :: l2) → before (l1 ++ b :: l2) a b → a ∈ l1.
Proof.
  intros Hnd (i & j & Hij & Hi & Hj).
  assert (j = length l1) as ->.
  { eapply NoDup_lookup; [exact Hnd|exact Hj|]. by rewrite list_lookup_middle. }
  rewrite lookup_app_l in Hi by done. by eapply list_elem_of_lookup_2.
Qed.

Lemma walk_spec full : evaluable full → ∀ order done w,
  full = (c_node <$> done) ++ order →
  match walk dispatch pg order (outputs done) w with
  | Some (Ok memo, w') => ∃ l, performed w l w' ∧ c_node <$> l = order ∧
      memo = outputs (done ++ l) ∧ Forall (given (outputs (done ++ l))) l
  | r => ∃ l w1 id node rest, performed w l w1 ∧ (c_node <$> l) ++ id :: rest = order ∧
      Forall (given (outputs (done ++ l))) l ∧ bt_get id (nodes pg) = Some node ∧
      closed_args (outputs (done ++ l)) (arguments node) ∧
      dispatch (process_id node) (subst_args (outputs (done ++ l)) (arguments node)) w1 =
        match r with Some (Err e, w') => Some (Err e, w') | _ => None end
  end.
Proof.
  intros Hev. induction order as [|id order IH]; intros done w Hfull; simpl.
  { exists []. rewrite app_nil_r. split; [constructor|]. done. }
  destruct (ev_known _ Hev id) as (node & Hn & Hwf); [rewrite Hfull; apply elem_of_app; right; by left|].
  pose proof (ev_nodup _ Hev) as Hnd. rewrite Hfull in Hnd.
  assert (closed_args (outputs done) (arguments node)) as Hc.
  { intros k v t Hin Ht. apply outputs_dom.
    eapply before_done; [exact Hnd|]. rewrite <- Hfull. by eapply ev_refs. }
  rewrite Hn, (resolve_args_closed _ _ []); [|done|by intros ?? []%not_elem_of_nil|done]. simpl.
  destruct (dispatch _ _ w) as [[[out|e] w1]|] eqn:Hd.
  - set (c := mkCall id (subst_args (outputs done) (arguments node)) out).
    assert (c_node c ∉ c_node <$> done) as Hfresh.
    { apply NoDup_app in Hnd as (_ & Hx & _). intros Hin. apply (Hx _ Hin). by left. }
    change (<[id := out]> (outputs done)) with (<[c_node c := c_out c]> (outputs done)).
    rewrite <- outputs_snoc by exact Hfresh.
    assert (full = (c_node <$> done ++ [c]) ++ order) as Hfull'
      by (rewrite fmap_app, <- app_assoc; exact Hfull).
    assert (∀ l, NoDup (c_node <$> (done ++ [c]) ++ l) → given (outputs ((done ++ [c]) ++ l)) c) as Hg.
    { intros l Hl. apply (given_mono (outputs done)); [|by exists node].
      rewrite <- app_assoc. apply outputs_mono. by rewrite app_assoc. }
    specialize (IH (done ++ [c]) w1 Hfull').
    assert (∀ l rest, (c_node <$> done ++ [c]) ++ (c_node <$> l) ++ rest = full →
      given (outputs ((done ++ [c]) ++ l)) c) as Hg'.
    { intros l rest Hl. apply Hg. pose proof (ev_nodup _ Hev) as H. rewrite <- Hl, app_assoc in H.
      rewrite fmap_app. by apply NoDup_app in H as [? _]. }
    assert (∀ l, done ++ c :: l = (done ++ [c]) ++ l) as Hassoc by (intros; by rewrite <- app_assoc).
    destruct (walk _ _ order _ w1) as [[[memo|e] w']|].
    1: { destruct IH as (l & Hp & Hl & Hm & Hall). exists (c :: l). rewrite Hassoc.
      split; [by econstructor|]. split; [by rewrite fmap_cons, Hl|]. split; [done|].
      constructor; [|done]. apply (Hg' l []). by rewrite Hl, app_nil_r. }
    all: destruct IH as (l & w2 & id' & node' & rest & Hp & Hl & Hall & Hn' & Hc' & Hd');
      exists (c :: l), w2, id', node', rest; rewrite Hassoc; split; [by econstructor|];
      (split; [by rewrite fmap_cons, <- Hl|]); (split; [|done]); constructor; [|done];
      apply (Hg' l (id' :: rest)); by rewrite Hl.
  - exists [], w, id, node, order. rewrite app_nil_r. split; [constructor|]. done.
  - exists [], w, id, node, order. rewrite app_nil_r. split; [constructor|]. done.
Qed.
End walk_facts.

Definition pg_wf (pg : ProcessGraph) : Prop :=
  bt_wf (nodes pg) ∧ ∀ id node, (id, node) ∈ nodes pg → bt_wf (arguments node).

Lemma direct_ref_depends pg id node k v t :
  (id, node) ∈ nodes pg → (k, v) ∈ arguments node → direct_ref v = Some t → depends pg t id.
Proof.
  intros Hn Hin Ht. exists node. split; [done|]. apply list_elem_of_In, in_flat_map.
  exists (k, v). rewrite <- !list_elem_of_In. split; [done|].
  destruct v as [| | | | |obj]; try done. unfold direct_ref in Ht. simpl in *.
  destruct (length obj =? 1)%nat; [|done].
  destruct (assoc_get "from_node" obj) as [[]|]; try done. injection Ht as ->. by left.
Qed.

Lemma order_evaluable `{PetgraphLaws} pg a order :
  pg_wf pg → build pg = Ok a → evaluation_order a = Some order → evaluable pg order.
Proof.
  intros [Hwf Hargs] Ha Ho.
  destruct (evaluation_order_total pg a Hwf Ha) as (order' & Ho' & Hperm & Hbef).
  rewrite Ho in Ho'. injection Ho' as <-. split.
  - rewrite Hperm. by apply bt_wf_nodup.
  - intros id Hid. rewrite Hperm in Hid. apply list_elem_of_fmap in Hid as ([id' node] & -> & Hin).
    exists node. split; [by apply bt_get_Some|]. by eapply Hargs.
  - intros id node k v t Hn Hin Ht. apply Hbef. apply bt_get_Some in Hn; [|done].
    by eapply direct_ref_depends.
Qed.

Lemma result_in_order `{PetgraphLaws} pg a order :
  pg_wf pg → build pg = Ok a → evaluation_order a = Some order → result_id a ∈ order.
Proof.
  intros [Hwf _] Ha Ho.
  destruct (evaluation_order_total pg a Hwf Ha) as (order' & Ho' & Hperm & _).
  rewrite Ho in Ho'. injection Ho' as <-. rewrite Hperm.
  apply build_Ok in Ha as (_ & _ & _ & Hr); [|done].
  assert (result_id a ∈ result_ids pg) as Hin by (rewrite Hr; by left).
  unfold result_ids in Hin. apply list_elem_of_fmap in Hin as ([id node] & -> & Hin).
  apply list_elem_of_filter in Hin as [_ Hin]. by apply (list_elem_of_fmap_2 fst) in Hin.
Qed.

(** Evaluating an analysed graph: the nodes are dispatched once each, in the
    order of evaluation, on their arguments with the references filled in, until
    a dispatch fails; none of the walk's own errors occurs. *)
Lemma evaluate_graph_spec `{PetgraphLaws} {W} dispatch pg a order (w : W) :
  pg_wf pg → build pg = Ok a → evaluation_order a = Some order →
  match evaluate_graph dispatch pg w with
  | Some (Ok (proc, v), w') => ∃ l, performed dispatch pg w l w' ∧ c_node <$> l = order ∧
      Forall (given pg (outputs l)) l ∧ outputs l !! result_id a = Some v ∧
      ∃ node, bt_get (result_id a) (nodes pg) = Some node ∧ proc = process_id node
  | r => ∃ l w1 id node rest, performed dispatch pg w l w1 ∧
      (c_node <$> l) ++ id :: rest = order ∧ Forall (given pg (outputs l)) l ∧
      bt_get id (nodes pg) = Some node ∧ closed_args (outputs l) (arguments node) ∧
      dispatch (process_id node) (subst_args (outputs l) (arguments node)) w1 =
        match r with Some (Err e, w') => Some (Err e, w') | _ => None end
  end.
Proof.
  intros Hwf Ha Ho. pose proof (order_evaluable pg a order Hwf Ha Ho) as Hev.
  pose proof (result_in_order pg a order Hwf Ha Ho) as Hres.
  pose proof (walk_spec dispatch pg order Hev order [] w eq_refl) as Hw.
  unfold evaluate_graph. rewrite Ha, Ho. simpl.
  change (outputs []) with (∅ : gmap string Value) in Hw.
  destruct (walk dispatch pg order ∅ w) as [[[memo|e] w']|].
  - destruct Hw as (l & Hp & Hl & -> & Hg). simpl in *. rewrite <- Hl in Hres.
    apply outputs_dom in Hres as [v Hv]. rewrite Hv. simpl. exists l.
    destruct (ev_known _ _ Hev (result_id a)) as (node & Hn & _).
    { rewrite <- Hl. apply outputs_dom. by exists v. }
    rewrite Hn. repeat (split; [done|]). by exists node.
  - done.
  - done.
Qed.

(** ** The value of a node

    The reference semantics of a graph evaluated without state: a node yields
    what its process makes of its arguments, a direct reference standing for a
    value its target yields. *)

Section yields.
Context (dispatch : string → btree string Value → result ExecError Value) (pg : ProcessGraph).

Inductive yields : string → Value → Prop :=
| yields_node id node args out :
    bt_get id (nodes pg) = Some node →
    Forall2 (λ e e', e'.1 = e.1 ∧ resolves e.2 e'.2) (arguments node) args →
    dispatch (process_id node) args = Ok out → yields id out
with resolves : Value → Value → Prop :=
| resolves_ref v target r : direct_ref v = Some target → yields target r → resolves v r
| resolves_literal v : direct_ref v = None → resolves v v.

Definition args_yield (node : Process) (args : btree string Value) : Prop :=
  Forall2 (λ e e', e'.1 = e.1 ∧ resolves e.2 e'.2) (arguments node) args.

Lemma subst_args_yield outs node :
  closed_args outs (arguments node) →
  (∀ k v t r, (k, v) ∈ arguments node → direct_ref v = Some t → outs !! t = Some r → yields t r) →
  args_yield node (subst_args outs (arguments node)).
Proof.
  unfold args_yield, subst_args. intros Hc Hy. apply Forall2_fmap_r.
  apply Forall_Forall2_diag, Forall_forall. intros [k v] Hin. simpl. split; [done|].
  unfold subst_arg. destruct (direct_ref v) as [t|] eqn:Ht; [|by constructor].
  destruct (Hc k v t Hin Ht) as [r Hr]. rewrite Hr. apply resolves_ref with t; [done|].
  by eapply Hy.
Qed.

Lemma performed_out l w w' c :
  performed (λ pid args (_ : unit), Some (dispatch pid args, ())) pg w l w' → c ∈ l →
  ∃ node, bt_get (c_node c) (nodes pg) = Some node ∧
    dispatch (process_id node) (c_args c) = Ok (c_out c).
Proof.
  induction 1 as [|id node args out w w1 l w2 Hn Hd _ IH]; [by intros ?%not_elem_of_nil|].
  intros [->|Hc]%elem_of_cons; [|by apply IH]. exists node. split; [done|].
  by injection Hd.
Qed.

(** What the calls of a walk put out is what the nodes yield. *)
Lemma calls_yield order l w w' rest :
  evaluable pg order → (c_node <$> l) ++ rest = order → Forall (given pg (outputs l)) l →
  performed (λ pid args (_ : unit), Some (dispatch pid args, ())) pg w l w' →
  ∀ id v, outputs l !! id = Some v → yields id v.
Proof.
  intros Hev Hl Hg Hp.
  assert (NoDup (c_node <$> l)) as Hnd.
  { pose proof (ev_nodup _ _ Hev) as H. rewrite <- Hl in H. by apply NoDup_app in H as [? _]. }
  assert (∀ id v, outputs l !! id = Some v ↔ ∃ i c, l !! i = Some c ∧ c_node c = id ∧ c_out c = v)
    as Hlook.
  { intros id v. unfold outputs. rewrite <- elem_of_list_to_map.
    - rewrite list_elem_of_fmap. split.
      + intros (c & [= -> ->] & Hc). apply list_elem_of_lookup in Hc as [i Hi]. eauto.
      + intros (i & c & Hi & <- & <-). exists c. split; [done|]. by eapply list_elem_of_lookup_2.
    - by rewrite <- list_fmap_compose. }
  assert (∀ n i c, (i < n)%nat → l !! i = Some c → yields (c_node c) (c_out c)) as Hmain.
  { induction n as [|n IH]; [lia|]. intros i c Hi Hc.
    pose proof (list_elem_of_lookup_2 _ _ _ Hc) as Hin.
    destruct (performed_out l w w' c Hp Hin) as (node & Hn & Hd).
    rewrite Forall_forall in Hg. destruct (Hg c Hin) as (node' & Hn' & Hcl & Ha).
    rewrite Hn in Hn'. injection Hn' as <-. rewrite Ha in Hd.
    econstructor; [exact Hn| |exact Hd]. apply subst_args_yield; [done|].
    intros k v t r Hkv Ht Hr. apply Hlook in Hr as (j & c' & Hj & <- & <-).
    apply (IH j); [|done].
    destruct (ev_refs _ _ Hev (c_node c) node k v (c_node c') Hn Hkv Ht) as (x & y & Hxy & Hx & Hy).
    pose proof (ev_nodup _ _ Hev) as Hnd'.
    assert (∀ m d, l !! m = Some d → order !! m = Some (c_node d)) as Hord.
    { intros m d Hm. rewrite <- Hl. apply lookup_app_l_Some. by rewrite list_lookup_fmap, Hm. }
    assert (x = j) as -> by (eapply NoDup_lookup; [exact Hnd'|exact Hx|by apply Hord]).
    assert (y = i) as -> by (eapply NoDup_lookup; [exact Hnd'|exact Hy|by apply Hord]).
    lia. }
  intros id v (i & c & Hc & <- & <-)%Hlook. apply (Hmain (S i) i); [lia|done].
Qed.
End yields.

(** ** Properties *)

(** LocalExecutor's evaluation agrees with the reference semantics of the
    graph: a graph the analysis rejects gives its error; otherwise either every
    node yields a value and the answer is the one the result node yields, or the
    answer is the error some node's process gives on the values its references
    yield.  It never panics, and the errors for a missing node, an argument not
    yet evaluated or an unvisited result never occur. *)
Theorem local_evaluate_correct `{PetgraphLaws} `{CollectionCatalog C} (catalog : option C)
    (pg : ProcessGraph) (Hwf : pg_wf pg) :
  let dispatch := local_dispatch catalog in
  match build pg with
  | Err e => local_evaluate catalog pg = Some (Err (InvalidGraph (graph_error_text e)))
  | Ok a =>
      (∃ v, local_evaluate catalog pg = Some (Ok v) ∧ yields dispatch pg (result_id a) v ∧
         ∀ id, id ∈ (nodes pg).*1 → ∃ u, yields dispatch pg id u) ∨
      (∃ id node args e, local_evaluate catalog pg = Some (Err e) ∧
         bt_get id (nodes pg) = Some node ∧ args_yield dispatch pg node args ∧
         dispatch (process_id node) args = Err e)
  end.
Proof.
  intros dispatch. unfold local_evaluate. destruct (build pg) as [a|e] eqn:Ha.
  2: { unfold evaluate_graph. by rewrite Ha. }
  destruct (evaluation_order_total pg a (proj1 Hwf) Ha) as (order & Ho & Hperm & _).
  pose proof (order_evaluable pg a order Hwf Ha Ho) as Hev.
  pose proof (evaluate_graph_spec (λ pid args _, Some (dispatch pid args, ())) pg a order () Hwf Ha Ho)
    as Hspec. fold dispatch.
  destruct (evaluate_graph _ pg ()) as [[[[proc v]|e] w']|].
  - left. destruct Hspec as (l & Hp & Hl & Hg & Hv & _). exists v. split; [done|].
    assert (∀ id u, outputs l !! id = Some u → yields dispatch pg id u) as Hy.
    { eapply calls_yield with (rest := []); [exact Hev|by rewrite app_nil_r|done|exact Hp]. }
    split; [by apply Hy|]. intros id Hid. rewrite <- Hperm, <- Hl in Hid.
    apply outputs_dom in Hid as [u Hu]. exists u. by apply Hy.
  - right. destruct Hspec as (l & w1 & id & node & rest & Hp & Hl & Hg & Hn & Hc & Hd).
    exists id, node, (subst_args (outputs l) (arguments node)), e. split; [done|].
    split; [done|]. injection Hd as Hd _. split; [|done]. apply subst_args_yield; [done|].
    intros k v t r _ _ Hr. eapply calls_yield; eauto.
  - by destruct Hspec as (l & w1 & id & node & rest & _ & _ & _ & _ & _ & ?).
Qed.

Definition demo_arith : ProcessGraph := mkProcessGraph [
  ("a", mkProcess "add" [("x", Number (PosInt 3)); ("y", Number (PosInt 4))] None);
  ("b", mkProcess "divide" [("x", Object [("from_node", JString "a")]); ("y", Number (PosInt 2))]
     (Some true))].

Lemma demo_arith_wf : pg_wf demo_arith.
Proof.
  split; [repeat constructor|]. intros id node.
  intros [[= -> ->]|[[= -> ->]|[]%not_elem_of_nil]%elem_of_cons]%elem_of_cons; repeat constructor.
Qed.

Lemma local_evaluate_correct_witness :
  let catalog := Some (mkInMemoryCatalog []) in
  local_evaluate catalog demo_arith =
    Some (Ok (Number (Float (f64_div (f64_of_Z 7) (f64_of_Z 2))))) ∧
  (∃ v, yields (local_dispatch catalog) demo_arith "b" v).
Proof.
  split; [vm_compute; reflexivity|].
  pose proof (local_evaluate_correct (Some (mkInMemoryCatalog [])) demo_arith demo_arith_wf) as H.
  cbv zeta in H. destruct (build demo_arith) as [a|e] eqn:Ha; [|vm_compute in Ha; discriminate].
  destruct H as [(v & _ & Hv & Hall)|(id & node & args & e & He & _)].
  - apply Hall. by right; left.
  - vm_compute in He. discriminate.
Defined.
