(* ===== verification/Arrays.v ===== *)
(** * Array processes: apps/orbit-openeo/src/geo_executor/eval_arrays.rs

    The openEO processes over JSON arrays, as functions of the resolved
    arguments.  [sort_by] is Rust's stable sort. *)

From Stdlib Require Import Floats.SpecFloat Sorting.Sorted.
From S2P Require Import Prelude Text BTree F64 Json Executor.
Local Open Scope Z_scope.

(** ** Equality of JSON values *)

(** [PartialEq] of serde_json's numbers: an integer never equals a float. *)
Definition number_eqb (a b : JNumber) : bool :=
  match a, b with
  | PosInt x, PosInt y | NegInt x, NegInt y => x =? y
  | Float x, Float y => f64_eqb x y
  | _, _ => false
  end.

(** Objects are equal when they have the same members, in any order. *)
Fixpoint json_eqb (a b : Value) : bool :=
  match a, b with
  | Null, Null => true
  | Bool x, Bool y => Bool.eqb x y
  | Number x, Number y => number_eqb x y
  | JString x, JString y => bool_decide (x = y)
  | Array l, Array k =>
      (fix go l k := match l, k with
       | [], [] => true
       | x :: l, y :: k => json_eqb x y && go l k
       | _, _ => false
       end) l k
  | Object m, Object n =>
      (length m =? length n)%nat &&
      (fix go m := match m with
       | [] => true
       | (k, x) :: m => match assoc_get k n with Some y => json_eqb x y | None => false end && go m
       end) m
  | _, _ => false
  end.

Definition is_null (v : Value) : bool := match v with Null => true | _ => false end.

(** ** The processes *)

Section arrays.
Implicit Types args : btree string Value.

Definition arr (key : string) args : result ExecError (list Value) :=
  ok_or (bt_get key args ≫= as_array)
    (InvalidGraph ("expected array `" +:+ key +:+ "` argument")).

Definition flag (key : string) (d : bool) args : bool := default d (bt_get key args ≫= as_bool).

Definition array_element args : result ExecError Value :=
  data ← arr "data" args;
  let return_nodata := flag "return_nodata" false args in
  index ← ok_or (bt_get "index" args ≫= as_i64)
    (InvalidGraph "array_element: `index` (integer) required (label lookup unsupported on raw arrays)");
  if index <? 0 then Err (InvalidGraph "array_element: index must be >= 0")
  else
    match data !! Z.to_nat index with
    | Some v => Ok v
    | None =>
        if return_nodata then Ok Null
        else Err (InvalidGraph ("array_element: index " +:+ pretty index +:+
                   " out of bounds (len " +:+ pretty (length data) +:+ ")"))
    end.

Definition MAX_ARRAY_LEN : Z := 10000000.

(** The [for _ in 0..repeat] loop. *)
Fixpoint repeat_append (n : nat) (data out : list Value) : list Value :=
  match n with O => out | S n => repeat_append n data (out ++ data) end.

Definition array_create args : result ExecError Value :=
  let data := default [] (bt_get "data" args ≫= as_array) in
  let repeat := Z.max (default 1 (bt_get "repeat" args ≫= as_u64)) 1 in
  match data with
  | [] => Ok (Array [])
  | _ =>
      let len := Z.of_nat (length data) in
      (* usize is 64 bits: the conversion succeeds, the product is checked *)
      match (if fits 64 (len * repeat) then Some (len * repeat) else None) ≫=
            (λ n, if n <=? MAX_ARRAY_LEN then Some n else None) with
      | None =>
          Err (InvalidGraph ("array_create: result length " +:+ pretty len +:+ "×" +:+
                 pretty repeat +:+ " exceeds the " +:+ pretty MAX_ARRAY_LEN +:+ "-element cap"))
      | Some total => Ok (Array (repeat_append (Z.to_nat repeat) data []))
      end
  end.

Definition array_concat args : result ExecError Value :=
  a ← arr "array1" args; b ← arr "array2" args; Ok (Array (a ++ b)).

Definition array_append args : result ExecError Value :=
  out ← arr "data" args;
  value ← ok_or (bt_get "value" args) (InvalidGraph "array_append: missing `value`");
  Ok (Array (out ++ [value])).

Definition array_contains args : result ExecError Value :=
  data ← arr "data" args;
  value ← ok_or (bt_get "value" args) (InvalidGraph "array_contains: missing `value`");
  Ok (Bool (existsb (λ v, json_eqb v value) data)).

(** [iter().position(p)] *)
Fixpoint position {A} (p : A → bool) (l : list A) : option nat :=
  match l with [] => None | x :: l' => if p x then Some 0%nat else S <$> position p l' end.

Definition index_value (i : nat) : Value := Number (PosInt (Z.of_nat i)).

Definition array_find args : result ExecError Value :=
  data ← arr "data" args;
  value ← ok_or (bt_get "value" args) (InvalidGraph "array_find: missing `value`");
  Ok (match position (λ v, json_eqb v value) data with Some i => index_value i | None => Null end).

(** Both branches of the code count the elements that are not null. *)
Definition count args : result ExecError Value :=
  data ← arr "data" args;
  let count_all := match bt_get "condition" args with
                   | Some (Bool true) | None => true | _ => false end in
  Ok (index_value (if count_all then length (filter (λ v, is_null v = false) data)
                   else length (filter (λ v, is_null v = false) data))).

(** ** Sorting *)

(** The place of [x] in front of the first element it does not exceed. *)
Fixpoint sort_insert {A} (le : A → A → bool) (x : A) (l : list A) : list A :=
  match l with
  | [] => [x]
  | y :: l' => if le x y then x :: l else y :: sort_insert le x l'
  end.
(** [sort_by], stable. *)
Definition sort_by {A} (le : A → A → bool) (l : list A) : list A := foldr (sort_insert le) [] l.

Definition numeric_with_index (data : list Value) : list (nat * f64 * bool) :=
  imap (λ i v, match as_f64 v with
               | Some f => if is_finite f then (i, f, false) else (i, S754_nan, true)
               | None => (i, S754_nan, true)
               end) data.

(** [partial_cmp(..).unwrap_or(Equal)], reversed for a descending sort, is not [Greater]. *)
Definition sort_le (asc : bool) (a b : f64) : bool :=
  match SFcompare a b with
  | Some Gt => negb asc
  | Some Lt => asc
  | _ => true
  end.

Definition is_valid (e : nat * f64 * bool) : bool := negb e.2.

Definition order args : result ExecError Value :=
  data ← arr "data" args;
  let asc := flag "asc" true args in
  let nodata := bt_get "nodata" args ≫= as_bool in
  let items := numeric_with_index data in
  let valid := (λ e, (e.1.1, e.1.2)) <$> filter (λ e, is_valid e = true) items in
  let nodata_idx := (λ e, e.1.1) <$> filter (λ e, is_valid e = false) items in
  let valid := sort_by (λ a b, sort_le asc a.2 b.2) valid in
  let first := match nodata with Some false => index_value <$> nodata_idx | _ => [] end in
  let last := match nodata with Some true => index_value <$> nodata_idx | _ => [] end in
  Ok (Array (first ++ ((λ e, index_value e.1) <$> valid) ++ last)).

(** [Number::from_f64(f).map(Value::Number)], dropping what is not finite. *)
Definition finite_number (f : f64) : option Value :=
  if is_finite f then Some (Number (Float f)) else None.

Definition sort args : result ExecError Value :=
  data ← arr "data" args;
  let asc := flag "asc" true args in
  let nodata := bt_get "nodata" args ≫= as_bool in
  let items := numeric_with_index data in
  let valid := (λ e, e.1.2) <$> filter (λ e, is_valid e = true) items in
  let nodata_count := length (filter (λ e, is_valid e = false) items) in
  let valid := sort_by (sort_le asc) valid in
  let nodata_vals := replicate nodata_count Null in
  let numbers := omap finite_number valid in
  Ok (Array (match nodata with
             | None => numbers
             | Some false => nodata_vals ++ numbers
             | Some true => numbers ++ nodata_vals
             end)).
End arrays.

Example order_demo :
  order [("asc", Bool false); ("data", Array [index_value 3; Null; index_value 1; index_value 2]);
         ("nodata", Bool true)] =
  Ok (Array [index_value 0; index_value 3; index_value 2; index_value 1]).
Proof. vm_compute. reflexivity. Qed.

(** The sum of two integers is a float, which equals no integer element. *)
Example contains_integer_float :
  array_contains [("data", Array [index_value 7]); ("value", json_of_f64 (f64_of_Z 7))] =
  Ok (Bool false).
Proof. vm_compute. reflexivity. Qed.

(** ** Stable sorting *)

Section sort_by.
Context {A : Type} (le : A → A → bool).

Lemma sort_insert_perm x l : Permutation (sort_insert le x l) (x :: l).
Proof.
  induction l as [|y l IH]; simpl; [done|]. destruct (le x y); [done|].
  rewrite IH. constructor.
Qed.

Lemma sort_by_perm l : Permutation (sort_by le l) l.
Proof.
  induction l as [|x l IH]; [done|]. unfold sort_by in *. simpl. by rewrite sort_insert_perm, IH.
Qed.

Lemma sort_insert_fmap {B} (f : B → A) x l :
  f <$> sort_insert (λ a b, le (f a) (f b)) x l = sort_insert le (f x) (f <$> l).
Proof.
  induction l as [|y l IH]; [done|]. simpl. destruct (le (f x) (f y)); [done|].
  by rewrite fmap_cons, IH.
Qed.

Lemma sort_by_fmap {B} (f : B → A) l :
  f <$> sort_by (λ a b, le (f a) (f b)) l = sort_by le (f <$> l).
Proof.
  induction l as [|x l IH]; [done|]. unfold sort_by in *. simpl.
  by rewrite sort_insert_fmap, IH.
Qed.

Context (P : A → Prop).
Hypothesis le_total : ∀ a b, P a → P b → le a b = false → le b a = true.
Hypothesis le_trans : ∀ a b c, P a → P b → P c → le a b = true → le b c = true → le a c = true.
Context (pos : A → nat).

Lemma sort_insert_ordered x l :
  P x → Forall P l → StronglySorted (λ a b, le a b = true) l →
  StronglySorted (λ a b, le a b = true) (sort_insert le x l).
Proof.
  intros Hx HP Hs. induction Hs as [|y l Hs IH Hall]; simpl; [repeat constructor|].
  apply Forall_cons in HP as [Hy HP]. destruct (le x y) eqn:E.
  - constructor; [by constructor|]. constructor; [done|].
    rewrite Forall_forall in *. intros z Hz. eapply le_trans; [done|exact Hy|by apply HP|done|].
    by apply Hall.
  - constructor; [by apply IH|]. rewrite Forall_forall in *. intros z Hz.
    rewrite sort_insert_perm in Hz. apply elem_of_cons in Hz as [->|Hz]; [by apply le_total|by apply Hall].
Qed.

Lemma sort_by_ordered l : Forall P l → StronglySorted (λ a b, le a b = true) (sort_by le l).
Proof.
  induction 1 as [|x l Hx HP IH]; [constructor|]. unfold sort_by in *. simpl.
  apply sort_insert_ordered; [done| |done]. rewrite Forall_forall in *.
  fold (sort_by le l). intros y. rewrite sort_by_perm. apply HP.
Qed.

(** In order, and equal elements in the order of their positions. *)
Definition stable_lt (a b : A) : Prop :=
  le a b = true ∧ (le b a = true → (pos a < pos b)%nat).

Lemma sort_insert_sorted x l :
  P x → Forall P l → (∀ y, y ∈ l → (pos x < pos y)%nat) → StronglySorted stable_lt l →
  StronglySorted stable_lt (sort_insert le x l).
Proof.
  intros Hx HP Hpos Hs. induction Hs as [|y l Hs IH Hall]; simpl; [repeat constructor|].
  apply Forall_cons in HP as [Hy HP].
  assert (∀ z, z ∈ l → (pos x < pos z)%nat) as Hpos' by (intros; apply Hpos; by right).
  destruct (le x y) eqn:E.
  - constructor; [by constructor|]. constructor.
    + split; [done|]. intros _. apply Hpos. by left.
    + rewrite Forall_forall in *. intros z Hz. destruct (Hall z Hz) as [Hyz _].
      split; [|intros _; by apply Hpos']. eapply le_trans; [done|exact Hy|by apply HP|done..].
  - constructor; [by apply IH|]. rewrite Forall_forall in *. intros z Hz.
    rewrite sort_insert_perm in Hz. apply elem_of_cons in Hz as [->|Hz]; [|by apply Hall].
    split; [by apply le_total|]. congruence.
Qed.

Lemma sort_by_sorted l :
  Forall P l → StronglySorted (λ a b, (pos a < pos b)%nat) l → StronglySorted stable_lt (sort_by le l).
Proof.
  intros HP Hs. induction Hs as [|x l Hs IH Hall]; [constructor|].
  apply Forall_cons in HP as [Hx HP]. unfold sort_by in *. simpl.
  apply sort_insert_sorted; [done| | |by apply IH].
  - fold (sort_by le l). by rewrite sort_by_perm.
  - fold (sort_by le l). intros y. rewrite sort_by_perm. rewrite Forall_forall in Hall. apply Hall.
Qed.
End sort_by.

Lemma sort_le_key asc a b : is_nan a = false → is_nan b = false →
  sort_le asc a b =
  match cmp (order_key a) (order_key b) with Gt => negb asc | Lt => asc | Eq => true end.
Proof. intros Ha Hb. unfold sort_le. by rewrite SFcompare_key. Qed.

Lemma sort_le_total asc a b : is_nan a = false → is_nan b = false →
  sort_le asc a b = false → sort_le asc b a = true.
Proof.
  intros Ha Hb. rewrite !sort_le_key, (cmp_antisym (order_key a) (order_key b)) by done.
  destruct (cmp (order_key a) (order_key b)), asc; done.
Qed.

Lemma sort_le_trans asc a b c : is_nan a = false → is_nan b = false → is_nan c = false →
  sort_le asc a b = true → sort_le asc b c = true → sort_le asc a c = true.
Proof.
  intros Ha Hb Hc. rewrite !sort_le_key by done.
  destruct (cmp (order_key a) (order_key b)) eqn:E1.
  1: { apply cmp_eq in E1 as ->. done. }
  all: destruct (cmp (order_key b) (order_key c)) eqn:E2;
    [apply cmp_eq in E2 as <-; by rewrite E1| |]; destruct asc; try done; intros _ _.
  - by rewrite (cmp_trans _ _ _ E1 E2).
  - apply cmp_gt_lt in E1, E2. pose proof (cmp_trans _ _ _ E2 E1) as E. apply cmp_gt_lt in E.
    by rewrite E.
Qed.

(** ** Ordering and sorting an array *)

(** The number an element stands for: what is not a finite number is no data. *)
Definition value_of (v : Value) : option f64 :=
  f ← as_f64 v; if is_finite f then Some f else None.

Definition value_at (data : list Value) (i : nat) : option f64 := data !! i ≫= value_of.

Definition item (i : nat) (v : Value) : nat * f64 * bool :=
  match value_of v with Some f => (i, f, false) | None => (i, S754_nan, true) end.

Lemma numeric_with_index_item data : numeric_with_index data = imap item data.
Proof.
  unfold numeric_with_index. apply imap_ext. intros i v _. unfold item, value_of.
  destruct (as_f64 v) as [f|]; [|done]. simpl. by destruct (is_finite f).
Qed.

Lemma items_positions data : (λ e, e.1.1) <$> imap item data = seq 0 (length data).
Proof.
  apply list_eq. intros i. rewrite list_lookup_fmap, list_lookup_imap.
  destruct (data !! i) as [v|] eqn:E; simpl.
  - apply lookup_lt_Some in E as Hi. rewrite lookup_seq_lt by done. unfold item.
    by destruct (value_of v).
  - apply lookup_ge_None in E. by rewrite lookup_seq_ge.
Qed.

Lemma StronglySorted_fmap_iff {A B} (f : A → B) (R : B → B → Prop) l :
  StronglySorted R (f <$> l) ↔ StronglySorted (λ a b, R (f a) (f b)) l.
Proof.
  induction l as [|x l IH]; [split; constructor|]. rewrite fmap_cons. split; inversion 1; subst;
    constructor; try (by apply IH); by apply Forall_fmap || (by apply Forall_fmap in H3).
Qed.

Definition valid_items (data : list Value) : list (nat * f64) :=
  (λ e, (e.1.1, e.1.2)) <$> filter (λ e, is_valid e = true) (imap item data).
Definition missing_items (data : list Value) : list nat :=
  (λ e, e.1.1) <$> filter (λ e, is_valid e = false) (imap item data).

Lemma elem_of_valid_items data i f : (i, f) ∈ valid_items data ↔ value_at data i = Some f.
Proof.
  unfold valid_items, value_at. rewrite list_elem_of_fmap. split.
  - intros (e & [= -> ->] & [Hv Hin]%list_elem_of_filter).
    apply elem_of_lookup_imap in Hin as (j & v & -> & Hd). unfold item in *.
    destruct (value_of v) as [g|] eqn:E; [|done]. simpl. by rewrite Hd.
  - destruct (data !! i) as [v|] eqn:Hd; [|done]. simpl. intros Hv.
    exists (i, f, false). split; [done|]. apply list_elem_of_filter. split; [done|].
    apply elem_of_lookup_imap. exists i, v. unfold item. by rewrite Hv.
Qed.

Lemma elem_of_missing_items data i :
  i ∈ missing_items data ↔ (i < length data)%nat ∧ value_at data i = None.
Proof.
  unfold missing_items, value_at. rewrite list_elem_of_fmap. split.
  - intros (e & -> & [Hv Hin]%list_elem_of_filter).
    apply elem_of_lookup_imap in Hin as (j & v & -> & Hd). unfold item in *.
    destruct (value_of v) as [g|] eqn:E; [done|]. simpl. rewrite Hd.
    split; [by eapply lookup_lt_Some|done].
  - intros [Hi Hv]. apply lookup_lt_is_Some_2 in Hi as [v Hd]. rewrite Hd in Hv. simpl in Hv.
    exists (item i v). unfold item. rewrite Hv. split; [done|]. apply list_elem_of_filter.
    split; [done|]. apply elem_of_lookup_imap. exists i, v. unfold item. by rewrite Hv.
Qed.

Lemma StronglySorted_seq i n : StronglySorted lt (seq i n).
Proof.
  revert i. induction n as [|n IH]; intros i; simpl; constructor; [done|].
  apply Forall_forall. intros j ?%elem_of_seq. lia.
Qed.

Lemma items_sorted data b :
  StronglySorted (λ x y, (x.1.1 < y.1.1)%nat) (filter (λ e, is_valid e = b) (imap item data)).
Proof.
  apply StronglySorted_filter, (StronglySorted_fmap_iff (λ e : nat * f64 * bool, e.1.1)).
  rewrite items_positions. apply StronglySorted_seq.
Qed.

(** Element [i] goes before element [j]. *)
Definition in_order (asc : bool) (data : list Value) (i j : nat) : Prop :=
  ∃ f g, value_at data i = Some f ∧ value_at data j = Some g ∧
    (if asc then f64_leb f g else f64_leb g f) = true ∧ (f64_eqb f g = true → (i < j)%nat).

Definition arranged (nodata : option bool) (idx missing : list nat) : list nat :=
  match nodata with
  | None => idx | Some false => missing ++ idx | Some true => idx ++ missing
  end.

Definition number_at (data : list Value) (i : nat) : Value :=
  match value_at data i with Some f => Number (Float f) | None => Null end.

Lemma value_at_finite data i f : value_at data i = Some f → is_finite f = true ∧ is_nan f = false.
Proof.
  unfold value_at, value_of. destruct (data !! i) as [v|]; [|done]. simpl.
  destruct (as_f64 v) as [g|]; [|done]. simpl. destruct (is_finite g) eqn:E; [|done].
  intros [= <-]. by destruct g.
Qed.

Lemma sort_le_leb asc f g :
  is_nan f = false → is_nan g = false →
  sort_le asc f g = (if asc then f64_leb f g else f64_leb g f) ∧
  (f64_eqb f g = true → sort_le asc f g = true ∧ sort_le asc g f = true).
Proof.
  intros Hf Hg. unfold sort_le, f64_leb, f64_eqb, SFleb, SFeqb.
  rewrite (SFcompare_swap f g), SFcompare_key by done.
  by destruct (cmp (order_key f) (order_key g)), asc.
Qed.

(** The sorted order of the elements that are numbers. *)
Definition sorted_items (asc : bool) (data : list Value) : list (nat * f64) :=
  sort_by (λ a b, sort_le asc a.2 b.2) (valid_items data).

Lemma sorted_items_in_order asc data :
  StronglySorted (in_order asc data) (sorted_items asc data).*1.
Proof.
  assert (Forall (λ a, is_nan a.2 = false) (valid_items data)) as HP.
  { apply Forall_forall. intros [i f] Hi. apply elem_of_valid_items, value_at_finite in Hi. apply Hi. }
  apply StronglySorted_fmap_iff.
  assert (StronglySorted (stable_lt (λ a b, sort_le asc a.2 b.2) fst) (sorted_items asc data)) as Hs.
  { apply sort_by_sorted with (λ a, is_nan a.2 = false); [| |done|].
    - intros a b. apply sort_le_total.
    - intros a b c. apply sort_le_trans.
    - unfold valid_items. apply (StronglySorted_fmap_iff (λ e : nat * f64 * bool, (e.1.1, e.1.2))).
      apply (items_sorted data true). }
  assert (Forall (λ a, value_at data a.1 = Some a.2) (sorted_items asc data)) as Hv.
  { apply Forall_forall. intros [i f]. unfold sorted_items. rewrite sort_by_perm.
    apply elem_of_valid_items. }
  clear HP. induction Hs as [|[i f] l Hs IH Hall]; [constructor|].
  apply Forall_cons in Hv as [Hif Hv]. constructor; [by apply IH|].
  rewrite Forall_forall in *. intros [j g] Hj. destruct (Hall _ Hj) as [Hle Hpos].
  pose proof (Hv _ Hj) as Hjg. simpl in *. exists f, g. split; [done|]. split; [done|].
  apply value_at_finite in Hif as [_ Hf], Hjg as [_ Hg].
  destruct (sort_le_leb asc f g Hf Hg) as [<- Heq]. split; [done|].
  intros He. apply Hpos. by apply Heq.
Qed.

Lemma order_unfold args data : arr "data" args = Ok data →
  order args = Ok (Array (index_value <$>
    arranged (bt_get "nodata" args ≫= as_bool) (sorted_items (flag "asc" true args) data).*1
      (missing_items data))).
Proof.
  intros Ha. unfold order. rewrite Ha. simpl. rewrite numeric_with_index_item.
  fold (valid_items data) (missing_items data). f_equal. f_equal.
  change (sort_by _ (valid_items data)) with (sorted_items (flag "asc" true args) data).
  destruct (bt_get "nodata" args ≫= as_bool) as [[]|]; unfold arranged;
    rewrite ?fmap_app, <- ?list_fmap_compose, ?app_nil_r; done.
Qed.

Lemma sort_unfold args data : arr "data" args = Ok data →
  sort args = Ok (Array (number_at data <$>
    arranged (bt_get "nodata" args ≫= as_bool) (sorted_items (flag "asc" true args) data).*1
      (missing_items data))).
Proof.
  intros Ha. unfold sort. rewrite Ha. simpl. rewrite numeric_with_index_item.
  set (asc := flag "asc" true args).
  assert ((λ e : nat * f64 * bool, e.1.2) <$> filter (λ e, is_valid e = true) (imap item data) =
          (valid_items data).*2) as -> by (unfold valid_items; by rewrite <- list_fmap_compose).
  rewrite <- (sort_by_fmap (sort_le asc) (snd : nat * f64 → f64)). fold (sorted_items asc data).
  assert (omap finite_number (sorted_items asc data).*2 = number_at data <$> (sorted_items asc data).*1)
    as ->.
  { assert (Forall (λ a, value_at data a.1 = Some a.2) (sorted_items asc data)) as Hv.
    { apply Forall_forall. intros [i f]. unfold sorted_items. rewrite sort_by_perm.
      apply elem_of_valid_items. }
    induction Hv as [|[i f] l Hif _ IH]; [done|]. simpl in *.
    destruct (value_at_finite _ _ _ Hif) as [Hf _].
    assert (finite_number f = Some (Number (Float f))) as -> by (unfold finite_number; by rewrite Hf).
    assert (number_at data i = Number (Float f)) as -> by (unfold number_at; by rewrite Hif).
    f_equal. apply IH. }
  assert (replicate (length (filter (λ e, is_valid e = false) (imap item data))) Null =
          number_at data <$> missing_items data) as ->.
  { rewrite <- (length_fmap (λ e : nat * f64 * bool, e.1.1)). fold (missing_items data).
    apply list_eq_Forall2. apply Forall2_fmap_r.
    assert (Forall (λ i, number_at data i = Null) (missing_items data)) as Hm.
    { apply Forall_forall. intros i [_ Hi]%elem_of_missing_items. unfold number_at. by rewrite Hi. }
    induction Hm; simpl; by constructor. }
  destruct (bt_get "nodata" args ≫= as_bool) as [[]|]; unfold arranged; by rewrite ?fmap_app.
Qed.

(** ** Properties *)

(** [order] and [sort] arrange the elements of an array the same way: those
    that are finite numbers in ascending or descending order, equal ones in the
    order they had, and the others left out, or in front, or at the end, in the
    order they had.  [order] lists every position it keeps once; [sort] gives the
    numbers, as doubles, and null for the others. *)
Theorem order_sort_correct (args : btree string Value) (data : list Value)
    (Hdata : arr "data" args = Ok data) :
  let asc := flag "asc" true args in
  let nodata := bt_get "nodata" args ≫= as_bool in
  ∃ idx missing : list nat,
    order args = Ok (Array (index_value <$> arranged nodata idx missing)) ∧
    sort args = Ok (Array (number_at data <$> arranged nodata idx missing)) ∧
    StronglySorted (in_order asc data) idx ∧
    (∀ i, i ∈ idx ↔ is_Some (value_at data i)) ∧
    StronglySorted lt missing ∧
    (∀ i, i ∈ missing ↔ (i < length data)%nat ∧ value_at data i = None).
Proof.
  intros asc nodata. exists (sorted_items asc data).*1, (missing_items data).
  split; [by apply order_unfold|]. split; [by apply sort_unfold|].
  split; [apply sorted_items_in_order|]. split; [|split].
  - intros i. rewrite list_elem_of_fmap. unfold sorted_items. split.
    + intros ([j f] & -> & Hj). rewrite sort_by_perm in Hj. apply elem_of_valid_items in Hj.
      by exists f.
    + intros [f Hf]. exists (i, f). split; [done|]. rewrite sort_by_perm.
      by apply elem_of_valid_items.
  - unfold missing_items. apply StronglySorted_fmap_iff. apply items_sorted.
  - intros i. apply elem_of_missing_items.
Qed.

Definition demo_args : btree string Value :=
  [("asc", Bool false); ("data", Array [index_value 3; Null; index_value 1; index_value 2]);
   ("nodata", Bool true)].

Lemma order_sort_correct_witness :
  sort demo_args = Ok (Array [number_at [index_value 3] 0; number_at [index_value 2] 0;
                              number_at [index_value 1] 0; Null]) ∧
  ∃ idx missing : list nat,
    order demo_args = Ok (Array (index_value <$> arranged (Some true) idx missing)) ∧
    StronglySorted lt missing.
Proof.
  split; [vm_compute; reflexivity|].
  destruct (order_sort_correct demo_args [index_value 3; Null; index_value 1; index_value 2]
    eq_refl) as (idx & missing & Ho & _ & _ & _ & Hm & _).
  exists idx, missing. split; [exact Ho|exact Hm].
Defined.

Lemma repeat_append_length n (data out : list Value) :
  length (repeat_append n data out) = (length out + n * length data)%nat.
Proof.
  revert out. induction n as [|n IH]; intros out; simpl; [lia|].
  rewrite IH, length_app. lia.
Qed.

Lemma repeat_append_lookup n (data out : list Value) i :
  (0 < length data)%nat → (i < n * length data)%nat →
  repeat_append n data out !! (length out + i)%nat = data !! (i mod length data)%nat.
Proof.
  revert out i. induction n as [|n IH]; intros out i Hd Hi; [simpl in Hi; lia|]. simpl.
  destruct (Nat.lt_ge_cases i (length data)) as [H|H].
  - rewrite Nat.mod_small by done. clear IH.
    assert (∀ m (o : list Value) k, (k < length o)%nat → repeat_append m data o !! k = o !! k) as Hpre.
    { induction m as [|m IHm]; intros o k Hk; [done|]. simpl.
      rewrite IHm by (rewrite length_app; lia). by apply lookup_app_l. }
    rewrite Hpre by (rewrite length_app; lia). rewrite lookup_app_r by lia. f_equal. lia.
  - replace (length out + i)%nat with (length (out ++ data) + (i - length data))%nat
      by (rewrite length_app; lia).
    rewrite IH by (try done; simpl in Hi; lia). f_equal.
    replace i with ((i - length data) + 1 * length data)%nat at 2 by lia.
    by rewrite Nat.Div0.mod_add.
Qed.

(** [array_create] never builds an array longer than [MAX_ARRAY_LEN]: within
    that bound it gives the data repeated, position [i] holding the element
    [i mod len]; over it, it fails; and no data gives no elements, whatever the
    number of repetitions. *)
Theorem array_create_bounded (args : btree string Value) :
  let data := default [] (bt_get "data" args ≫= as_array) in
  let repeat := Z.max (default 1 (bt_get "repeat" args ≫= as_u64)) 1 in
  let total := Z.of_nat (length data) * repeat in
  if bool_decide (data = []) then array_create args = Ok (Array [])
  else if bool_decide (total ≤ MAX_ARRAY_LEN) then
    ∃ out, array_create args = Ok (Array out) ∧ Z.of_nat (length out) = total ∧
      ∀ i, (i < length out)%nat → out !! i = data !! (i mod length data)%nat
  else ∃ m, array_create args = Err (InvalidGraph m).
Proof.
  intros data repeat total. unfold array_create. fold data repeat.
  assert (1 ≤ repeat) as Hrep by (unfold repeat; lia). clearbody repeat data.
  destruct data as [|v data]; [done|]. rewrite bool_decide_eq_false_2 by done.
  assert (0 < Z.of_nat (length (v :: data))) as Hlen by (simpl; lia).
  assert (0 < total) as Htot by (unfold total; nia). fold total. case_bool_decide as Hcap.
  - rewrite (proj2 (fits_spec 64 total)) by (unfold in_u, MAX_ARRAY_LEN in *; lia). simpl.
    rewrite (proj2 (Z.leb_le _ _)) by exact Hcap. eexists. split; [done|].
    assert (length (repeat_append (Z.to_nat repeat) (v :: data) []) =
            (Z.to_nat repeat * length (v :: data))%nat) as Hl by (by rewrite repeat_append_length).
    split; [rewrite Hl; unfold total; lia|]. intros i Hi. rewrite Hl in Hi.
    pose proof (repeat_append_lookup (Z.to_nat repeat) (v :: data) [] i) as Hi'.
    rewrite Nat.add_0_l in Hi'. apply Hi'; [lia|done].
  - assert ((if fits 64 total then Some total else None) ≫=
            (λ n, if n <=? MAX_ARRAY_LEN then Some n else None) = None) as ->.
    { destruct (fits 64 total); [|done]. simpl. destruct (Z.leb_spec total MAX_ARRAY_LEN); [lia|done]. }
    by eexists.
Qed.
