(* ===== verification/Runner.v ===== *)
(** * The job runner: apps/orbit-openeo/src/runner.rs and event_bus.rs

    [run_job] is a sequence of calls on the job store, the file store, the event
    bus and the metrics recorder.  It is written in a state monad over the four;
    between two calls on the job store other tasks may change it, which the
    argument [env] does.  The executor and the wall clock are parameters: the
    executor's answer is [None] when the time limit passes first. *)

From Stdlib Require Import Ascii.
From S2P Require Export Executor.
From S2P Require Import Prelude Text BTree F64 Json Calendar JobStore FileStore Metrics.
Local Open Scope Z_scope.

(** ** Data *)

Inductive JobEventKind := Started | Progress | Completed | Failed | Cancelled.
Record JobEvent := mkJobEvent { ev_user_id : string; ev_job_id : string; ev_kind : JobEventKind }.

Inductive RunOutcome := RunFinished | RunFailed (msg : string) | RunStoreError (msg : string).

Definition job_error_text (e : JobError) : string :=
  match e with
  | NotFound id => "job not found: " +:+ id
  | JobStore.Backend msg => "job store error: " +:+ msg
  end.
Definition file_error_text (e : FileError) : string :=
  match e with
  | FNotFound => "file not found"
  | Forbidden m => "forbidden path: " +:+ m
  | Io m => "io error: " +:+ m
  end.

Definition format_exec_error (e : ExecError) : string :=
  match e with
  | InvalidGraph m => "invalid_graph: " +:+ m
  | UnknownProcess p => "unknown_process: " +:+ p
  | ExecBackend m => "backend: " +:+ m
  | PerPixelComputation m => "per_pixel_computation: " +:+ m
  end.

Definition default_asset_name (ct : string) : string :=
  let media := trim (first_piece (λ c, bool_decide (c = ";"%char)) ct) in
  "result." +:+
  (if bool_decide (media = "application/json") then "json"
   else if bool_decide (media ∈ ["image/tiff"; "image/geotiff"]) then "tif"
   else if bool_decide (media = "image/png") then "png"
   else if bool_decide (media = "application/x-netcdf") then "nc"
   else "bin").

(** ORBIT_JOB_TIMEOUT_SECS, given the variable's value. *)
Definition job_timeout_secs (var : option string) : Z :=
  match (v ← var; n ← parse_uint 64 v; if 0 <? n then Some n else None) with
  | Some n => n
  | None => 600
  end.

Definition f64_ten : f64 := Eval vm_compute in f64_of_Z 10.
Definition f64_eighty : f64 := Eval vm_compute in f64_of_Z 80.
Definition f64_ninety_five : f64 := Eval vm_compute in f64_of_Z 95.

(** ** The runner *)

Section runner.
Context {St Fs : Type} `{JobStore St} `{FileStore Fs}.
Context (env : nat → St → St).  (* what other tasks do before a store call *)
Context (clk : nat → Z).        (* the time a store call reads *)
Context (elapsed : f64).        (* the run's duration *)

Record World := mkWorld {
  w_store : St; w_bus : list JobEvent; w_files : Fs; w_metrics : InMemoryRecorder }.

Definition M (A : Type) : Type := World → A * World.
#[local] Instance M_ret : MRet M := λ A a w, (a, w).
#[local] Instance M_bind : MBind M := λ A B f m w, let '(a, w) := m w in f a w.

(** The [i]-th call on the job store. *)
Definition call {A} (i : nat) (op : Z → St → A * St) : M A := λ w,
  let '(a, st) := op (clk i) (env i (w_store w)) in
  (a, mkWorld st (w_bus w) (w_files w) (w_metrics w)).

Definition publish (ev : JobEvent) : M unit := λ w,
  ((), mkWorld (w_store w) (w_bus w ++ [ev]) (w_files w) (w_metrics w)).

Definition files_put (key : FileKey) (bytes : list Z) : M (result FileError unit) := λ w,
  let '(r, fs) := put_file key bytes (w_files w) in
  (r, mkWorld (w_store w) (w_bus w) fs (w_metrics w)).

Definition outcome_labels (outcome : string) : Labels := labels_of [("outcome", outcome)].

Definition record_terminal (outcome : string) : M unit := λ w,
  let labels := outcome_labels outcome in
  ((), mkWorld (w_store w) (w_bus w) (w_files w)
         (histogram_observe EtlJobDurationSeconds labels elapsed
           (counter_inc EtlJobsTotal labels 1 (w_metrics w)))).

Context (job_id user_id : string).

Definition publish_kind (kind : JobEventKind) : M unit :=
  publish (mkJobEvent user_id job_id kind).

(** The timeout branch. *)
Definition run_timeout (timeout_secs : Z) : M RunOutcome :=
  let msg := "job timed out after " +:+ pretty (Z.to_N timeout_secs) +:+ "s" in
  _ ← call 4 (λ now, append_log now job_id "error" msg);
  _ ← call 5 (λ now, set_status now job_id Error);
  _ ← publish_kind Failed;
  _ ← record_terminal "timeout";
  mret (RunFailed msg).

(** The executor returned an error. *)
Definition run_error (e : ExecError) : M RunOutcome :=
  let detail := format_exec_error e in
  _ ← call 5 (λ now, append_log now job_id "error" ("executor failed: " +:+ detail));
  _ ← call 6 (λ now, set_status now job_id Error);
  _ ← publish_kind Failed;
  _ ← record_terminal "error";
  mret (RunFailed detail).

(** The result bytes could not be stored, or their metadata could not. *)
Definition run_abort (o : RunOutcome) (i : nat) : M RunOutcome :=
  _ ← call i (λ now, set_status now job_id Error);
  _ ← publish_kind Failed;
  mret o.

(** The executor returned a result: persist it and finish. *)
Definition run_success (r : SyncResult) : M RunOutcome :=
  let asset_name := default_asset_name (content_type r) in
  let size := wrap 64 (Z.of_nat (length (sr_body r))) in
  put ← files_put (mkFileKey job_id asset_name) (sr_body r);
  match put with
  | Err e => run_abort (RunFailed ("file_store: " +:+ file_error_text e)) 5
  | Ok _ =>
      added ← call 5 (λ now, add_asset now job_id (mkJobAsset asset_name (content_type r) size));
      match added with
      | Err e => run_abort (RunStoreError ("add_asset: " +:+ job_error_text e)) 6
      | Ok _ =>
          _ ← call 6 (λ now, set_progress now job_id f64_ninety_five);
          _ ← publish_kind Progress;
          finished ← call 7 (λ now, set_status now job_id Finished);
          match finished with
          | Err e => mret (RunStoreError (job_error_text e))
          | Ok _ =>
              _ ← call 8 (λ now, append_log now job_id "info" "job finished");
              _ ← call 9 (λ now, set_progress now job_id f64_hundred);
              _ ← publish_kind Completed;
              _ ← record_terminal "finished";
              mret RunFinished
          end
      end
  end.

Definition run_job (timeout_var : option string)
    (executor : Value → option (result ExecError SyncResult)) (body : Value) : M RunOutcome :=
  queued ← call 0 (λ now, set_status now job_id Queued);
  match queued with
  | Err e => mret (RunStoreError (job_error_text e))
  | Ok _ =>
      _ ← publish_kind Started;
      running ← call 1 (λ now, set_status now job_id Running);
      match running with
      | Err e => mret (RunStoreError (job_error_text e))
      | Ok _ =>
          _ ← call 2 (λ now, append_log now job_id "info" "job started");
          _ ← call 3 (λ now, set_progress now job_id f64_ten);
          _ ← publish_kind Progress;
          match executor body with
          | None => run_timeout (job_timeout_secs timeout_var)
          | Some res =>
              _ ← call 4 (λ now, set_progress now job_id f64_eighty);
              _ ← publish_kind Progress;
              match res with Ok r => run_success r | Err e => run_error e end
          end
      end
  end.
End runner.
Arguments World : clear implicits.
Arguments mkWorld {St Fs}.
Arguments w_store {St Fs}. Arguments w_bus {St Fs}. Arguments w_files {St Fs}.
Arguments w_metrics {St Fs}.

(** ** What a run publishes, whatever the stores answer *)

(** The outcome of a run, the events it publishes and the terminal metric. *)
Inductive lifecycle : RunOutcome → list JobEventKind → option string → Prop :=
| lc_not_queued m : lifecycle (RunStoreError m) [] None
| lc_not_running m : lifecycle (RunStoreError m) [Started] None
| lc_timeout m : lifecycle (RunFailed m) [Started; Progress; Failed] (Some "timeout")
| lc_error m : lifecycle (RunFailed m) [Started; Progress; Progress; Failed] (Some "error")
| lc_not_stored m : lifecycle (RunFailed m) [Started; Progress; Progress; Failed] None
| lc_not_attached m : lifecycle (RunStoreError m) [Started; Progress; Progress; Failed] None
| lc_not_finished m : lifecycle (RunStoreError m) [Started; Progress; Progress; Progress] None
| lc_finished : lifecycle RunFinished [Started; Progress; Progress; Progress; Completed]
    (Some "finished").

Definition terminal_metric (elapsed : f64) (metric : option string) (r : InMemoryRecorder)
    : InMemoryRecorder :=
  match metric with
  | None => r
  | Some o => histogram_observe EtlJobDurationSeconds (outcome_labels o) elapsed
                (counter_inc EtlJobsTotal (outcome_labels o) 1 r)
  end.

Section trace.
Context {St Fs : Type} `{JobStore St} `{FileStore Fs}.
Context (env : nat → St → St) (clk : nat → Z) (elapsed : f64) (job_id user_id : string).
Implicit Types w : World St Fs.

Definition event_of (kind : JobEventKind) : JobEvent := mkJobEvent user_id job_id kind.

(** A call on the job store leaves everything else alone. *)
Lemma call_frame {A} i (op : Z → St → A * St) w :
  ∃ a st, call env clk i op w = (a, mkWorld st (w_bus w) (w_files w) (w_metrics w)).
Proof. unfold call. destruct (op _ _) as [a st]. by exists a, st. Qed.

Lemma files_put_frame key bytes w :
  ∃ r fs, files_put key bytes w = (r, mkWorld (w_store w) (w_bus w) fs (w_metrics w)) ∧
    put_file key bytes (w_files w) = (r, fs).
Proof. unfold files_put. destruct (put_file _ _ _) as [r fs]. by exists r, fs. Qed.
End trace.

(** One call of a run, in a proof. *)
Ltac run_step :=
  match goal with
  | |- context [call ?e ?c ?i ?op ?w] =>
      let r := fresh "r" in let st := fresh "st" in let E := fresh "E" in
      destruct (call_frame e c i op w) as (r & st & E); rewrite E; clear E; simpl
  | |- context [files_put ?k ?b ?w] =>
      let r := fresh "r" in let fs := fresh "fs" in let E := fresh "E" in
      destruct (files_put_frame k b w) as (r & fs & E & Hput); rewrite E; clear E; simpl
  | |- context [match ?r with Ok _ => _ | Err _ => _ end] => destruct r as [[]|] ; simpl
  end.
Ltac run_end c :=
  eexists _, _; split; [apply c|]; simpl; rewrite <- ?app_assoc; simpl;
  split; [by rewrite ?app_nil_r|]; split; [done|].

(** The events, the metric and the outcome of a run belong together, whatever
    the stores answer and whatever other tasks do to the job meanwhile: exactly
    the eight listed lifecycles occur; [Completed] is published last, only by a
    run that ends Finished, and only after the executor's bytes were stored. *)
Theorem run_job_lifecycle `{JobStore St, FileStore Fs} (env : nat → St → St) (clk : nat → Z)
    (elapsed : f64) (job_id user_id : string) (timeout_var : option string)
    (executor : Value → option (result ExecError SyncResult)) (body : Value) (w : World St Fs) :
  let '(o, w') := run_job env clk elapsed job_id user_id timeout_var executor body w in
  ∃ kinds metric,
    lifecycle o kinds metric ∧
    w_bus w' = w_bus w ++ (event_of job_id user_id <$> kinds) ∧
    w_metrics w' = terminal_metric elapsed metric (w_metrics w) ∧
    (o = RunFinished → ∃ r, executor body = Some (Ok r) ∧
       put_file (mkFileKey job_id (default_asset_name (content_type r))) (sr_body r) (w_files w)
         = (Ok (), w_files w')).
Proof.
  unfold run_job, mbind, M_bind. run_step. run_step; [|by run_end lc_not_queued].
  run_step. run_step; [|by run_end lc_not_running]. run_step. run_step.
  destruct (executor body) as [[r'|e]|]; simpl.
  - run_step. unfold run_success, run_abort, mbind, M_bind. run_step. run_step.
    2:{ run_step. by run_end lc_not_stored. }
    run_step. run_step.
    2:{ run_step. by run_end lc_not_attached. }
    run_step. run_step. run_step; [|by run_end lc_not_finished]. run_step. run_step.
    run_end lc_finished. intros _. by exists r'.
  - run_step. unfold run_error, mbind, M_bind. run_step. run_step. by run_end lc_error.
  - unfold run_timeout, mbind, M_bind. run_step. run_step. by run_end lc_timeout.
Qed.

(** ** A run on a working store *)

(** What a run leaves in the job's record and log. *)
Record RunEffect := mkEffect {
  re_outcome : RunOutcome;
  re_status : JobStatus;
  re_progress : f64;
  re_assets : list JobAsset;
  re_logs : list (string * string) }.

Definition expected (job_id : string) (timeout_secs : Z)
    (answer : option (result ExecError SyncResult))
    (put : SyncResult → result FileError unit) : RunEffect :=
  let started := ("info", "job started") in
  match answer with
  | None =>
      let msg := "job timed out after " +:+ pretty (Z.to_N timeout_secs) +:+ "s" in
      mkEffect (RunFailed msg) Error f64_ten [] [started; ("error", msg)]
  | Some (Err e) =>
      mkEffect (RunFailed (format_exec_error e)) Error f64_eighty []
        [started; ("error", "executor failed: " +:+ format_exec_error e)]
  | Some (Ok r) =>
      match put r with
      | Err e =>
          mkEffect (RunFailed ("file_store: " +:+ file_error_text e)) Error f64_eighty [] [started]
      | Ok _ =>
          mkEffect RunFinished Finished f64_hundred
            [mkJobAsset (default_asset_name (content_type r)) (content_type r)
               (wrap 64 (Z.of_nat (length (sr_body r))))]
            [started; ("info", "job finished")]
      end
  end.

(** [e'] is [e] after a run with the given effect. *)
Definition ran (ef : RunEffect) (e e' : Entry) : Prop :=
  jr_status e'.1 = re_status ef ∧ jr_progress e'.1 = Some (re_progress ef) ∧
  jr_assets e'.1 = jr_assets e.1 ++ re_assets ef ∧
  (jr_id e'.1, jr_user_id e'.1, jr_title e'.1, jr_description e'.1, jr_process e'.1, jr_created e'.1)
  = (jr_id e.1, jr_user_id e.1, jr_title e.1, jr_description e.1, jr_process e.1, jr_created e.1) ∧
  (λ l, (le_level l, le_message l)) <$> e'.2 =
  ((λ l, (le_level l, le_message l)) <$> e.2) ++ re_logs ef.

Section working.
Context {St Fs : Type} `{JobStoreLaws St} `{FileStore Fs}.
Context (clk : nat → Z) (Hclk : ∀ i, in_u 64 (clk i)).
Context (job_id : string) (m : Jobs).
Implicit Types w : World St Fs.

(** The store holds [m] with the job's entry replaced by [e]. *)
Definition holds_job (st : St) (e : Entry) : Prop := rep st (<[job_id := e]> m).

Definition quiet : nat → St → St := λ _ st, st.

Lemma call_update i (op : Z → St → result JobError unit * St) (f : Entry → Entry) w e :
  refines (op (clk i)) (spec_update f job_id) → holds_job (w_store w) e →
  ∃ st, call quiet clk i op w = (Ok (), mkWorld st (w_bus w) (w_files w) (w_metrics w)) ∧
    holds_job st (f e).
Proof.
  intros Hop Hw. destruct (Hop (w_store w) _ Hw) as [Hr Hrep]. unfold call, quiet.
  unfold spec_update in *. rewrite lookup_insert_eq in Hr, Hrep. simpl in *.
  destruct (op (clk i) (w_store w)) as [r st]. simpl in *. subst. exists st. split; [done|].
  unfold holds_job. simpl. by rewrite alter_insert_eq in Hrep.
Qed.

Lemma progress_refines i p :
  is_nan p = false →
  refines (set_progress (clk i) job_id p)
    (spec_update (on_record (with_progress (Some (clamp_progress p)) (clk i))) job_id).
Proof. intros Hp. by apply set_progress_law, keeps_number. Qed.
End working.

(** One call of a run on a working store. *)
Ltac job_step Hclk Hw :=
  match type of Hw with
  | holds_job ?id ?m _ ?e =>
    match goal with
    | |- context [call quiet ?c ?i ?op ?w] =>
        let f := open_constr:(_ : Entry → Entry) in let Hop := fresh "Hop" in
        let st := fresh "st" in let E := fresh "E" in let Hw' := fresh "Hw" in
        assert (refines (op (c i)) (spec_update f id)) as Hop;
        [ cbv beta; first [ apply set_status_law, Hclk | apply append_log_law
                | apply progress_refines; [exact Hclk|reflexivity] | apply add_asset_law, Hclk ]
        | destruct (call_update c id m i op f w e Hop Hw) as (st & E & Hw');
          rewrite E; clear E Hop Hw; rename Hw' into Hw; simpl ]
    end
  end.

Lemma run_job_working `{JobStoreLaws St, FileStore Fs} (clk : nat → Z)
    (Hclk : ∀ i, in_u 64 (clk i)) (elapsed : f64) (job_id user_id : string)
    (timeout_var : option string) (executor : Value → option (result ExecError SyncResult))
    (body : Value) (w : World St Fs) (m : Jobs) (e : Entry)
    (Hrep : rep (w_store w) m) (Hjob : m !! job_id = Some e) :
  let put r := put_file (mkFileKey job_id (default_asset_name (content_type r))) (sr_body r)
                 (w_files w) in
  let ef := expected job_id (job_timeout_secs timeout_var) (executor body) (λ r, (put r).1) in
  let '(o, w') := run_job quiet clk elapsed job_id user_id timeout_var executor body w in
  o = re_outcome ef ∧
  (∃ e', rep (w_store w') (<[job_id := e']> m) ∧ ran ef e e') ∧
  w_files w' = match executor body with Some (Ok r) => (put r).2 | _ => w_files w end.
Proof.
  cbv zeta. assert (holds_job job_id m (w_store w) e) as Hw.
  { unfold holds_job. by rewrite insert_id. }
  unfold run_job, mbind, M_bind. job_step Hclk Hw. job_step Hclk Hw. job_step Hclk Hw.
  job_step Hclk Hw. unfold expected.
  destruct (executor body) as [[r'|er]|]; simpl.
  - job_step Hclk Hw. unfold run_success, run_abort, mbind, M_bind, files_put. simpl.
    destruct (put_file _ _ _) as [[[]|er] fs]; simpl.
    + job_step Hclk Hw. job_step Hclk Hw. job_step Hclk Hw. job_step Hclk Hw. job_step Hclk Hw.
      split; [done|]. split; [|done]. eexists. split; [exact Hw|]. unfold ran. simpl.
      split; [done|]. split; [done|]. split; [done|]. split; [done|].
      by rewrite !fmap_app, <- !app_assoc.
    + job_step Hclk Hw. split; [done|]. split; [|done]. eexists. split; [exact Hw|].
      unfold ran. simpl. rewrite app_nil_r, !fmap_app. done.
  - job_step Hclk Hw. unfold run_error, mbind, M_bind. job_step Hclk Hw. job_step Hclk Hw.
    split; [done|]. split; [|done]. eexists. split; [exact Hw|]. unfold ran. simpl.
    by rewrite app_nil_r, !fmap_app, <- !app_assoc.
  - unfold run_timeout, mbind, M_bind. job_step Hclk Hw. job_step Hclk Hw.
    split; [done|]. split; [|done]. eexists. split; [exact Hw|]. unfold ran. simpl.
    by rewrite app_nil_r, !fmap_app, <- !app_assoc.
Qed.

(** ** Properties *)

(** C2: a run on a working store does what its answer says: the job ends Finished
    at 100 with the produced asset recorded and the bytes in the file store, or in
    Error at the progress it had reached, with the log lines and the outcome of
    that case; nothing else of the job, and no other job, changes. *)
Theorem run_job_effect `{JobStoreLaws St, FileStore Fs} (clk : nat → Z)
    (Hclk : ∀ i, in_u 64 (clk i)) (elapsed : f64) (job_id user_id : string)
    (timeout_var : option string) (executor : Value → option (result ExecError SyncResult))
    (body : Value) (w : World St Fs) (m : Jobs) (e : Entry)
    (Hrep : rep (w_store w) m) (Hjob : m !! job_id = Some e) :
  let put r := put_file (mkFileKey job_id (default_asset_name (content_type r))) (sr_body r)
                 (w_files w) in
  let ef := expected job_id (job_timeout_secs timeout_var) (executor body) (λ r, (put r).1) in
  let '(o, w') := run_job quiet clk elapsed job_id user_id timeout_var executor body w in
  o = re_outcome ef ∧
  (∃ e', rep (w_store w') (<[job_id := e']> m) ∧ ran ef e e') ∧
  w_files w' = match executor body with Some (Ok r) => (put r).2 | _ => w_files w end.
Proof. by apply run_job_working. Qed.

Definition demo_store : InMemoryJobStore :=
  (create "j1" 5 "alice" None None Null InMemory_new).2.
Definition demo_job : Entry := (new_record "j1" 5 "alice" None None Null, []).
Definition demo_world : World InMemoryJobStore InMemoryFileStore :=
  mkWorld demo_store [] [] Recorder_new.
Definition demo_executor : Value → option (result ExecError SyncResult) := λ _,
  Some (Ok (mkSyncResult "image/tiff; application=geotiff" [1; 2; 3])).
Definition demo_run :=
  run_job quiet (λ _, 7) f64_ten "j1" "alice" (Some "30") demo_executor Null demo_world.

Lemma run_job_effect_witness :
  demo_run.1 = RunFinished ∧
  ∃ e', rep (w_store demo_run.2) (<["j1" := e']> {["j1" := demo_job]}) ∧
    jr_status e'.1 = Finished ∧ jr_assets e'.1 = [mkJobAsset "result.tif" "image/tiff; application=geotiff" 3].
Proof.
  assert (rep demo_store {["j1" := demo_job]}) as Hrep.
  { destruct (create_law InMemory_new ∅ "j1" 5 "alice" None None Null InMemory_new_rep)
      as [_ H]; [reflexivity|split; reflexivity || (vm_compute; congruence)|reflexivity|].
    exact H. }
  assert (∀ i : nat, in_u 64 7) as Hclk by (intros; split; reflexivity || (vm_compute; congruence)).
  pose proof (run_job_effect (λ _, 7) Hclk f64_ten "j1" "alice" (Some "30") demo_executor Null
    demo_world {["j1" := demo_job]} demo_job Hrep eq_refl) as Hrun.
  cbv zeta in Hrun. unfold demo_run. destruct (run_job _ _ _ _ _ _ _ _ _) as [o w'].
  cbn [fst snd].
  destruct Hrun as (-> & (e' & Hrep' & Hst & _ & Has & _) & _).
  split; [reflexivity|]. exists e'. split; [exact Hrep'|]. split; [exact Hst|].
  rewrite Has. reflexivity.
Defined.
