(* ===== verification/UrlPolicy.v ===== *)
(** * The URL policy: apps/orbit-openeo/src/url_policy.rs

    The check of a link before it is fetched, with the Standard Library's parser
    of IP addresses written out.  An IPv4 address is its four octets, an IPv6
    address its eight 16-bit segments. *)

From Stdlib Require Import Ascii.
From S2P Require Import Prelude Text.
Local Open Scope Z_scope.

(** ** Parsing an IP address ([core::net::parser]) *)

Inductive IpAddr := V4 (octets : list Z) | V6 (segments : list Z).

(** A parser takes a value from the front of the text, or fails and takes nothing. *)
Definition parser (A : Type) : Type := string → option (A * string).

Definition read_char (c : ascii) : parser unit := λ s,
  match s with String d s' => if bool_decide (c = d) then Some ((), s') else None | _ => None end.

(** The digits of a number below [bound] with at most [max] digits. *)
Fixpoint read_digits (digit : ascii → option Z) (radix bound : Z) (max count : nat) (acc : Z)
    (s : string) : option (Z * nat * string) :=
  match s with
  | String c s' =>
      match digit c with
      | Some d =>
          let acc' := acc * radix + d in
          if (bound <=? acc') || (max <=? count)%nat then None
          else read_digits digit radix bound max (S count) acc' s'
      | None => Some (acc, count, s)
      end
  | EmptyString => Some (acc, count, s)
  end.

Definition starts_zero (s : string) : bool :=
  match s with String c _ => bool_decide (c = "0"%char) | _ => false end.

Definition read_number (digit : ascii → option Z) (radix bound : Z) (max : nat)
    (allow_zero_prefix : bool) : parser Z := λ s,
  match read_digits digit radix bound max 0 0 s with
  | Some (n, count, s') =>
      if (count =? 0)%nat then None
      else if negb allow_zero_prefix && starts_zero s && (1 <? count)%nat then None
      else Some (n, s')
  | None => None
  end.

(** An octet: decimal, no leading zero. A group: up to four hexadecimal digits. *)
Definition read_octet : parser Z := read_number digit_val 10 256 3 false.
Definition read_group : parser Z := read_number hex_digit 16 65536 4 true.

(** The [i]-th item of a list with separators. *)
Definition read_separator {A} (sep : ascii) (i : nat) (inner : parser A) : parser A := λ s,
  match i with
  | O => inner s
  | S _ => p ← read_char sep s; inner p.2
  end.

Definition read_ipv4 : parser (list Z) := λ s,
  a ← read_separator "." 0 read_octet s;
  b ← read_separator "." 1 read_octet a.2;
  c ← read_separator "." 2 read_octet b.2;
  d ← read_separator "." 3 read_octet c.2;
  Some ([a.1; b.1; c.1; d.1], d.2).

(** Groups [i], [i+1], ... of at most [i + left]; the flag tells that the last two
    came from an embedded IPv4 address, which needs two free groups. *)
Fixpoint read_groups (left i : nat) (s : string) : list Z * bool * string :=
  match left with
  | O => ([], false, s)
  | S left' =>
      match (if (1 <=? left')%nat then read_separator ":" i read_ipv4 s else None) with
      | Some ([one; two; three; four], s') => ([one * 256 + two; three * 256 + four], true, s')
      | _ =>
          match read_separator ":" i read_group s with
          | Some (g, s') => let '(gs, v4, s'') := read_groups left' (S i) s' in (g :: gs, v4, s'')
          | None => ([], false, s)
          end
      end
  end.

Definition read_ipv6 : parser (list Z) := λ s,
  let '(head, head_ipv4, s1) := read_groups 8 0 s in
  if (length head =? 8)%nat then Some (head, s1)
  else if head_ipv4 then None
  else
    p ← read_char ":" s1;
    q ← read_char ":" p.2;
    let '(tail, _, s3) := read_groups (8 - (length head + 1)) 0 q.2 in
    Some (head ++ replicate (8 - length head - length tail) 0 ++ tail, s3).

(** [s.parse::<IpAddr>()] *)
Definition parse_ip (s : string) : option IpAddr :=
  match read_ipv4 s with
  | Some (a, rest) => if bool_decide (rest = "") then Some (V4 a) else None
  | None =>
      match read_ipv6 s with
      | Some (a, rest) => if bool_decide (rest = "") then Some (V6 a) else None
      | None => None
      end
  end.

(** ** Internal ranges *)

Definition octet (o : list Z) (i : nat) : Z := nth i o 0.

Definition is_internal_v4 (o : list Z) : bool :=
  if octet o 0 =? 127 then true
  else if (octet o 0 =? 169) && (octet o 1 =? 254) then true
  else if octet o 0 =? 10 then true
  else if (octet o 0 =? 172) && (Z.land (octet o 1) 0xF0 =? 16) then true
  else if (octet o 0 =? 192) && (octet o 1 =? 168) then true
  else if octet o 0 =? 0 then true
  else if (octet o 0 =? 100) && (Z.land (octet o 1) 0xC0 =? 64) then true
  else false.

Definition is_loopback_v6 (s : list Z) : bool := bool_decide (s = [0; 0; 0; 0; 0; 0; 0; 1]).
(** [IpAddr::is_loopback] *)
Definition is_loopback (ip : IpAddr) : bool :=
  match ip with V4 o => octet o 0 =? 127 | V6 s => is_loopback_v6 s end.
Definition to_ipv4_mapped (s : list Z) : option (list Z) :=
  match s with
  | [s0; s1; s2; s3; s4; s5; ab; cd] =>
      if bool_decide ([s0; s1; s2; s3; s4] = [0; 0; 0; 0; 0]) && (s5 =? 0xffff) then
        Some [Z.shiftr ab 8; Z.land ab 255; Z.shiftr cd 8; Z.land cd 255]
      else None
  | _ => None
  end.

Definition is_internal_v6 (s : list Z) : bool :=
  if is_loopback_v6 s then true
  else if Z.land (octet s 0) 0xFE00 =? 0xFC00 then true
  else if Z.land (octet s 0) 0xFFC0 =? 0xFE80 then true
  else match to_ipv4_mapped s with Some v4 => is_internal_v4 v4 | None => false end.

Definition is_internal_ip (ip : IpAddr) : bool :=
  match ip with V4 o => is_internal_v4 o | V6 s => is_internal_v6 s end.

Definition is_obvious_internal_hostname (host : string) : bool :=
  let h := to_ascii_lowercase host in
  bool_decide (h = "localhost") || ends_with ".localhost" h
  || bool_decide (h = "metadata.google.internal")
  || ends_with ".internal" h
  || ends_with ".local" h.

(** ** The policy *)

Inductive UrlPolicyError :=
| SchemeNotAllowed (scheme : string) | DeniedRange (host : string)
| Malformed (url : string) | OptionInjection (href : string).

Record UrlPolicy := mkUrlPolicy { allowed_schemes : list string; deny_internal_ranges : bool }.

Definition default_policy : UrlPolicy := mkUrlPolicy ["https"] true.
Definition relaxed_dev : UrlPolicy := mkUrlPolicy ["http"; "https"] false.

(** The host of what follows the scheme. *)
Definition host_no_port (rest : string) : string :=
  let host_with_port :=
    first_piece (λ c, bool_decide (c ∈ ["/"%char; "?"%char; "#"%char])) rest in
  let host := match rsplit_once "@" host_with_port with
              | Some (_, h) => h
              | None => host_with_port
              end in
  match strip_prefix "[" host with
  | Some stripped => first_piece (λ c, bool_decide (c = "]"%char)) stripped
  | None => match rsplit_once ":" host with Some (h, _) => h | None => host end
  end.

Definition check (p : UrlPolicy) (href : string) : result UrlPolicyError unit :=
  if starts_with "-" href then Err (OptionInjection href)
  else
    match split_once_str "://" href with
    | None => Err (Malformed href)
    | Some (scheme, rest) =>
        let scheme_lower := to_ascii_lowercase scheme in
        if negb (existsb (λ s, bool_decide (s = scheme_lower)) (allowed_schemes p)) then
          Err (SchemeNotAllowed scheme_lower)
        else
          let host := host_no_port rest in
          if deny_internal_ranges p then
            match parse_ip host with
            | Some ip => if is_internal_ip ip then Err (DeniedRange host) else Ok ()
            | None =>
                if is_obvious_internal_hostname host then Err (DeniedRange host) else Ok ()
            end
          else Ok ()
    end.

Example check_demos :
  check default_policy "https://169.254.169.254/latest" = Err (DeniedRange "169.254.169.254") ∧
  check default_policy "https://u:p@[::ffff:10.0.0.1]:80/" = Err (DeniedRange "::ffff:10.0.0.1") ∧
  check default_policy "HTTPS://[fd12::7]/x" = Err (DeniedRange "fd12::7") ∧
  check default_policy "https://a.localhost:8080" = Err (DeniedRange "a.localhost") ∧
  check default_policy "https://earth.example:443/x" = Ok () ∧
  parse_ip "1::2:3.4.5.6" = Some (V6 [1; 0; 0; 0; 0; 2; 772; 1286]) ∧
  parse_ip "01.2.3.4" = None ∧ parse_ip "1.2.3.4.5" = None ∧ parse_ip "1.2.3.256" = None.
Proof. vm_compute. done. Qed.

(** ** The ranges as CIDR blocks *)

Definition ipv4_num (o : list Z) : Z :=
  octet o 0 * 2 ^ 24 + octet o 1 * 2 ^ 16 + octet o 2 * 2 ^ 8 + octet o 3.
Definition in_cidr (n : Z) (block : list Z * Z) : bool :=
  n / 2 ^ (32 - block.2) =? ipv4_num block.1 / 2 ^ (32 - block.2).

Definition denied_blocks : list (list Z * Z) := [
  ([127; 0; 0; 0], 8); ([169; 254; 0; 0], 16); ([10; 0; 0; 0], 8); ([172; 16; 0; 0], 12);
  ([192; 168; 0; 0], 16); ([0; 0; 0; 0], 8); ([100; 64; 0; 0], 10)].

Definition is_byte (b : Z) : Prop := 0 ≤ b < 256.

(** Masking the top bits of a [w]-bit number is dividing. *)
Lemma land_top w k x c :
  0 ≤ k ≤ w → in_u w x →
  (Z.land x (2 ^ w - 2 ^ k) =? c * 2 ^ k) = (x / 2 ^ k =? c).
Proof.
  intros Hk Hx.
  assert (Z.land x (2 ^ w - 2 ^ k) = x / 2 ^ k * 2 ^ k) as ->.
  { replace (2 ^ w - 2 ^ k) with (Z.shiftl (Z.ones (w - k)) k).
    2:{ rewrite Z.shiftl_mul_pow2, Z.ones_equiv by lia. unfold Z.pred.
        replace (2 ^ w) with (2 ^ (w - k) * 2 ^ k) by (rewrite <- Z.pow_add_r by lia; f_equal; lia).
        lia. }
    rewrite <- Z.shiftr_div_pow2, <- Z.shiftl_mul_pow2 by lia. apply Z.bits_inj'. intros n Hn.
    rewrite Z.land_spec. destruct (Z.lt_ge_cases n k) as [Hlt|Hge].
    - rewrite !Z.shiftl_spec_low by done. by rewrite andb_false_r.
    - rewrite !Z.shiftl_spec, Z.shiftr_spec by lia. replace (n - k + k) with n by lia.
      destruct (Z.lt_ge_cases n w) as [Hw|Hw].
      + by rewrite Z.ones_spec_low, andb_true_r by lia.
      + rewrite <- (Z.mod_small x (2 ^ w)) by exact Hx.
        by rewrite Z.mod_pow2_bits_high by lia. }
  assert (0 < 2 ^ k) by (apply Z.pow_pos_nonneg; lia).
  apply eq_true_iff_eq. rewrite !Z.eqb_eq. split; [|by intros ->]. intros. nia.
Qed.

Lemma if_orb (b c : bool) : (if b then true else c) = b || c.
Proof. by destruct b. Qed.

Lemma is_internal_v4_cidr a b c d :
  is_byte a → is_byte b → is_byte c → is_byte d →
  is_internal_v4 [a; b; c; d] = existsb (in_cidr (ipv4_num [a; b; c; d])) denied_blocks.
Proof.
  unfold is_byte. intros Ha Hb Hc Hd. unfold is_internal_v4, octet. cbn [nth].
  replace (Z.land b 0xF0 =? 16) with (b / 2 ^ 4 =? 1)
    by (symmetry; apply (land_top 8 4 b 1); unfold in_u; lia).
  replace (Z.land b 0xC0 =? 64) with (b / 2 ^ 6 =? 1)
    by (symmetry; apply (land_top 8 6 b 1); unfold in_u; lia).
  rewrite !if_orb. unfold denied_blocks, in_cidr, ipv4_num, octet. cbn [existsb fst snd nth].
  set (n := a * 2 ^ 24 + b * 2 ^ 16 + c * 2 ^ 8 + d).
  assert (n / 2 ^ (32 - 8) = a) as -> by (subst n; Z.to_euclidean_division_equations; lia).
  assert (n / 2 ^ (32 - 16) = a * 256 + b) as ->
    by (subst n; Z.to_euclidean_division_equations; lia).
  assert (n / 2 ^ (32 - 12) = a * 16 + b / 2 ^ 4) as ->
    by (subst n; Z.to_euclidean_division_equations; lia).
  assert (n / 2 ^ (32 - 10) = a * 4 + b / 2 ^ 6) as ->
    by (subst n; Z.to_euclidean_division_equations; lia).
  assert (0 ≤ b / 2 ^ 4 < 16 ∧ 0 ≤ b / 2 ^ 6 < 4) as [? ?]
    by (Z.to_euclidean_division_equations; lia).
  apply eq_true_iff_eq. rewrite !orb_true_iff, !andb_true_iff, !Z.eqb_eq.
  repeat match goal with |- context [?x / 2 ^ (?k - ?j)] =>
    let v := eval vm_compute in (x / 2 ^ (k - j)) in change (x / 2 ^ (k - j)) with v end.
  generalize dependent (b / 2 ^ 4). generalize dependent (b / 2 ^ 6). intros. clear n. lia.
Qed.

Lemma mapped_spec s v4 :
  Forall (in_u 16) s →
  to_ipv4_mapped s = Some v4 ↔
  ∃ a b c d, v4 = [a; b; c; d] ∧ Forall is_byte v4 ∧
    s = [0; 0; 0; 0; 0; 0xffff; a * 256 + b; c * 256 + d].
Proof.
  intros Hs. split.
  - unfold to_ipv4_mapped. destruct s as [|s0 [|s1 [|s2 [|s3 [|s4 [|s5 [|ab [|cd [|? ?]]]]]]]]]; try done.
    destruct (bool_decide _) eqn:E1; [|done]. destruct (Z.eqb_spec s5 0xffff) as [->|]; [|done].
    apply bool_decide_eq_true in E1. injection E1 as -> -> -> -> ->. simpl. intros [= <-].
    do 6 (apply Forall_cons in Hs as [_ Hs]). rewrite !Forall_cons in Hs.
    destruct Hs as (Hab & Hcd & _). unfold in_u in *.
    change 255 with (Z.ones 8). rewrite !Z.land_ones, !Z.shiftr_div_pow2 by lia.
    eexists _, _, _, _. split; [done|]. unfold is_byte. rewrite !Forall_cons.
    repeat split; try done; try (Z.to_euclidean_division_equations; lia).
    repeat (f_equal; try (Z.to_euclidean_division_equations; lia)).
  - intros (a & b & c & d & -> & Hb & ->). unfold is_byte in Hb. rewrite !Forall_cons in Hb.
    destruct Hb as (? & ? & ? & ? & _). simpl. change 255 with (Z.ones 8).
    rewrite !Z.land_ones, !Z.shiftr_div_pow2 by lia.
    repeat (f_equal; try (Z.to_euclidean_division_equations; lia)).
Qed.

(** An address is refused exactly when it lies in one of the denied ranges. An
    IPv4 address: 127/8, 169.254/16, 10/8, 172.16/12, 192.168/16, 0/8 or 100.64/10.
    An IPv6 address: the loopback ::1, a unique local or a link-local one, or the
    IPv4-mapped form of a refused IPv4 address; no other, the unspecified address
    :: in particular. *)
Theorem internal_ip_ranges (ip : IpAddr)
    (Hwf : match ip with
           | V4 o => length o = 4%nat ∧ Forall is_byte o
           | V6 s => length s = 8%nat ∧ Forall (in_u 16) s
           end) :
  is_internal_ip ip = true ↔
  match ip with
  | V4 o => ∃ block, block ∈ denied_blocks ∧ in_cidr (ipv4_num o) block = true
  | V6 s =>
      s = [0; 0; 0; 0; 0; 0; 0; 1] ∨
      0xfc00 ≤ octet s 0 ≤ 0xfdff ∨ 0xfe80 ≤ octet s 0 ≤ 0xfebf ∨
      ∃ a b c d, Forall is_byte [a; b; c; d] ∧
        s = [0; 0; 0; 0; 0; 0xffff; a * 256 + b; c * 256 + d] ∧
        is_internal_ip (V4 [a; b; c; d]) = true
  end.
Proof.
  destruct ip as [o|s]; destruct Hwf as [Hlen Hwf]; simpl.
  - destruct o as [|a [|b [|c [|d [|? ?]]]]]; try done. rewrite !Forall_cons in Hwf.
    destruct Hwf as (? & ? & ? & ? & _). rewrite is_internal_v4_cidr by done.
    rewrite existsb_exists. by setoid_rewrite <- list_elem_of_In.
  - assert (in_u 16 (octet s 0)) as H0.
    { destruct s as [|s0 s]; [done|]. by apply Forall_cons in Hwf as [? _]. }
    unfold is_internal_v6.
    replace (Z.land (octet s 0) 0xFE00 =? 0xFC00) with (octet s 0 / 2 ^ 9 =? 126)
      by (symmetry; apply (land_top 16 9 _ 126); [lia|done]).
    replace (Z.land (octet s 0) 0xFFC0 =? 0xFE80) with (octet s 0 / 2 ^ 6 =? 1018)
      by (symmetry; apply (land_top 16 6 _ 1018); [lia|done]).
    rewrite !if_orb, !orb_true_iff, !Z.eqb_eq. unfold is_loopback_v6. rewrite bool_decide_eq_true.
    assert (match to_ipv4_mapped s with Some v4 => is_internal_v4 v4 | None => false end = true ↔
      ∃ a b c d, Forall is_byte [a; b; c; d] ∧
        s = [0; 0; 0; 0; 0; 0xffff; a * 256 + b; c * 256 + d] ∧
        is_internal_v4 [a; b; c; d] = true) as ->.
    { split.
      - destruct (to_ipv4_mapped s) as [v4|] eqn:E; [|done]. intros Hv.
        apply (mapped_spec s v4 Hwf) in E as (a & b & c & d & -> & Hb & ->). by exists a, b, c, d.
      - intros (a & b & c & d & Hb & -> & Hv).
        assert (to_ipv4_mapped [0; 0; 0; 0; 0; 0xffff; a * 256 + b; c * 256 + d] =
          Some [a; b; c; d]) as -> by (apply mapped_spec; [done|]; by exists a, b, c, d). done. }
    assert (octet s 0 / 2 ^ 9 = 126 ↔ 0xfc00 ≤ octet s 0 ≤ 0xfdff) as ->
      by (Z.to_euclidean_division_equations; lia).
    assert (octet s 0 / 2 ^ 6 = 1018 ↔ 0xfe80 ≤ octet s 0 ≤ 0xfebf) as ->
      by (Z.to_euclidean_division_equations; lia).
    tauto.
Qed.

Lemma internal_ip_ranges_witness :
  is_internal_ip (V4 [172; 31; 255; 1]) = true ∧ is_internal_ip (V6 [0; 0; 0; 0; 0; 0; 0; 0]) ≠ true.
Proof.
  assert (Forall is_byte [172; 31; 255; 1]) as H4
    by (unfold is_byte; rewrite !Forall_cons, Forall_nil; lia).
  assert (Forall (in_u 16) [0; 0; 0; 0; 0; 0; 0; 0]) as H6
    by (unfold in_u; rewrite !Forall_cons, Forall_nil; lia).
  split.
  - apply (internal_ip_ranges (V4 [172; 31; 255; 1]) (conj eq_refl H4)).
    exists ([172; 16; 0; 0], 12). split; [|reflexivity].
    unfold denied_blocks. do 3 apply list_elem_of_further. apply list_elem_of_here.
  - intros [H|[H|[H|H]]]%(internal_ip_ranges (V6 [0; 0; 0; 0; 0; 0; 0; 0]) (conj eq_refl H6)).
    + done.
    + unfold octet in H. simpl in H. lia.
    + unfold octet in H. simpl in H. lia.
    + destruct H as (a & b & c & d & _ & H & _). done.
Defined.

(** ** Checking the link to an IPv4 literal *)

Definition digit (d : Z) : ascii := ascii_of (d + 48).
(** An octet in decimal, and an address in dotted form. *)
Definition dec_byte (b : Z) : string :=
  if b <? 10 then chr (digit b)
  else if b <? 100 then String (digit (b / 10)) (chr (digit (b mod 10)))
  else String (digit (b / 100)) (String (digit (b / 10 mod 10)) (chr (digit (b mod 10)))).
Definition dotted (a b c d : Z) : string :=
  dec_byte a +:+ "." +:+ dec_byte b +:+ "." +:+ dec_byte c +:+ "." +:+ dec_byte d.

Lemma digit_val_digit d : 0 ≤ d < 10 → digit_val (digit d) = Some d.
Proof.
  intros Hd. unfold digit_val, is_digit, digit. rewrite byte_of_ascii_of by lia.
  destruct (Z.leb_spec 48 (d + 48)), (Z.leb_spec (d + 48) 57); try lia. simpl. f_equal. lia.
Qed.

Definition no_digit (s : string) : Prop :=
  match s with String c _ => digit_val c = None | EmptyString => True end.

Lemma read_digits_stop digit_of radix bound max count acc s :
  match s with String c _ => digit_of c = None | EmptyString => True end →
  read_digits digit_of radix bound max count acc s = Some (acc, count, s).
Proof. destruct s as [|c s]; simpl; [done|]. by intros ->. Qed.

Lemma digit_zero d : 1 ≤ d < 10 → bool_decide (digit d = "0"%char) = false.
Proof.
  intros Hd. apply bool_decide_eq_false. intros E. pose proof (digit_val_digit d ltac:(lia)) as H.
  rewrite E in H. change (digit_val "0") with (Some 0) in H. assert (d = 0) by congruence. lia.
Qed.

(** One digit of a number. *)
Lemma read_digits_digit bound max count acc d s :
  0 ≤ d < 10 → acc * 10 + d < bound → (count < max)%nat →
  read_digits digit_val 10 bound max count acc (String (digit d) s) =
  read_digits digit_val 10 bound max (S count) (acc * 10 + d) s.
Proof.
  intros Hd Hb Hc. cbn [read_digits]. rewrite digit_val_digit by done.
  destruct (Z.leb_spec bound (acc * 10 + d)); [lia|]. by destruct (Nat.leb_spec max count); [lia|].
Qed.

Lemma read_octet_dec b rest :
  is_byte b → no_digit rest → read_octet (dec_byte b +:+ rest) = Some (b, rest).
Proof.
  unfold is_byte. intros Hb Hrest. unfold read_octet, read_number, dec_byte.
  assert (b = b / 10 * 10 + b mod 10 ∧ 0 ≤ b mod 10 < 10) as [Hb1 Hm1]
    by (Z.to_euclidean_division_equations; lia).
  assert (b / 10 = b / 100 * 10 + b / 10 mod 10 ∧ 0 ≤ b / 10 mod 10 < 10 ∧ 0 ≤ b / 100 < 3)
    as (Hb2 & Hm2 & Hm3) by (Z.to_euclidean_division_equations; lia).
  destruct (Z.ltb_spec b 10); [|destruct (Z.ltb_spec b 100)]; unfold chr;
    rewrite ?str_app_cons, ?str_app_nil; rewrite !read_digits_digit by lia;
    rewrite read_digits_stop by done; cbn [Nat.eqb starts_zero negb andb Nat.ltb Nat.leb].
  - rewrite andb_false_r. by repeat f_equal.
  - rewrite digit_zero by lia. simpl. by repeat f_equal; lia.
  - rewrite digit_zero by lia. simpl. by repeat f_equal; lia.
Qed.

Lemma read_dot i b rest :
  is_byte b → no_digit rest →
  read_separator "." (S i) read_octet (String "." (dec_byte b +:+ rest)) = Some (b, rest).
Proof.
  intros Hb Hrest. cbn [read_separator read_char]. rewrite bool_decide_eq_true_2 by done.
  by apply read_octet_dec.
Qed.

Lemma parse_ip_dotted a b c d :
  Forall is_byte [a; b; c; d] → parse_ip (dotted a b c d) = Some (V4 [a; b; c; d]).
Proof.
  rewrite !Forall_cons. intros (Ha & Hb & Hc & Hd & _). unfold parse_ip.
  assert (read_ipv4 (dotted a b c d) = Some ([a; b; c; d], "")) as ->; [|done].
  unfold dotted, read_ipv4. rewrite <- (str_app_nil_r (dec_byte d)), !str_app_cons, !str_app_nil.
  change (read_separator "." 0 read_octet ?s) with (read_octet s).
  rewrite read_octet_dec by done. unfold mbind, option_bind. cbn [snd].
  do 3 (rewrite read_dot by done; cbn [snd fst]). done.
Qed.

(** The characters of a dotted address. *)
Lemma dotted_chars x a b c d :
  Forall is_byte [a; b; c; d] → x ≠ "."%char → digit_val x = None →
  has_char x (dotted a b c d) = false.
Proof.
  rewrite !Forall_cons. intros (Ha & Hb & Hc & Hd & _) Hdot Hx.
  assert (∀ e, is_byte e → has_char x (dec_byte e) = false) as Hbyte.
  { unfold is_byte. intros e He.
    assert (∀ k, 0 ≤ k < 10 → bool_decide (x = digit k) = false) as Hk.
    { intros k Hk. apply bool_decide_eq_false. intros ->. by rewrite digit_val_digit in Hx. }
    unfold dec_byte, chr. destruct (Z.ltb_spec e 10); [|destruct (Z.ltb_spec e 100)];
      cbn [has_char]; rewrite !Hk by (Z.to_euclidean_division_equations; lia); done. }
  unfold dotted. rewrite !has_char_app, !Hbyte by done. simpl.
  by rewrite bool_decide_eq_false_2.
Qed.

Lemma dotted_first a b c d : is_byte a → ∃ k s, 0 ≤ k < 10 ∧ dotted a b c d = String (digit k) s.
Proof.
  unfold is_byte. intros Ha. unfold dotted, dec_byte at 1, chr.
  destruct (Z.ltb_spec a 10); [|destruct (Z.ltb_spec a 100)]; rewrite !str_app_cons;
    eexists _, _; (split; [|reflexivity]); Z.to_euclidean_division_equations; lia.
Qed.

(** ** The parts of a link *)

Lemma first_piece_stop f s t :
  (∀ c, has_char c s = true → f c = false) →
  match t with String c _ => f c = true | EmptyString => True end → first_piece f (s +:+ t) = s.
Proof.
  intros Hs Ht. induction s as [|d s IH].
  - rewrite str_app_nil. destruct t; simpl; [done|]. by rewrite Ht.
  - rewrite str_app_cons. simpl. rewrite Hs by (simpl; by rewrite bool_decide_eq_true_2).
    rewrite IH; [done|]. intros c Hc. apply Hs. simpl. by rewrite Hc, orb_true_r.
Qed.

Lemma split_once_str_first c p s t :
  has_char c s = false →
  split_once_str (String c p) (s +:+ String c p +:+ t) = Some (s, t).
Proof.
  intros Hs. induction s as [|d s IH].
  - rewrite str_app_nil. unfold split_once_str.
    destruct (String c p +:+ t) eqn:E; [done|]. rewrite <- E.
    by rewrite strip_prefix_app.
  - cbn [has_char] in Hs. apply orb_false_iff in Hs as [Hd Hs]. rewrite str_app_cons.
    cbn [split_once_str strip_prefix]. rewrite Hd. by rewrite IH.
Qed.

Definition delimiter (c : ascii) : bool := bool_decide (c ∈ ["/"%char; "?"%char; "#"%char]).
Definition no_delimiter (s : string) : Prop := ∀ c, has_char c s = true → delimiter c = false.

Lemma no_delimiter_app s t : no_delimiter s → no_delimiter t → no_delimiter (s +:+ t).
Proof. intros Hs Ht c. rewrite has_char_app. intros [H|H]%orb_true_iff; auto. Qed.

Lemma dotted_no_delimiter a b c d : Forall is_byte [a; b; c; d] → no_delimiter (dotted a b c d).
Proof.
  intros Hb x Hx. unfold delimiter. apply bool_decide_eq_false. intros Hin.
  rewrite dotted_chars in Hx; [done|done|..];
    rewrite !elem_of_cons, elem_of_nil in Hin; by destruct Hin as [->|[->|[->|[]]]].
Qed.

(** A link whose scheme is https in any case; user information ends in an at sign
    and a port begins with a colon; neither holds a character that ends it early. *)
Record link_parts (scheme user port tail : string) : Prop := {
  lp_scheme : to_ascii_lowercase scheme = "https";
  lp_user : user = "" ∨ ∃ u, user = u +:+ "@" ∧ no_delimiter u;
  lp_port : port = "" ∨ ∃ p, port = String ":" p ∧ no_delimiter p ∧
    has_char "@" p = false ∧ has_char ":" p = false;
  lp_tail : match tail with String c _ => delimiter c = true | EmptyString => True end }.

Lemma scheme_chars scheme :
  to_ascii_lowercase scheme = "https" → has_char ":" scheme = false ∧ starts_with "-" scheme = false.
Proof.
  unfold to_ascii_lowercase.
  assert (∀ t c, lower c = c → has_char c (str_map lower t) = false → has_char c t = false) as H.
  { intros t c Hc. induction t as [|d t IH]; [done|]. simpl. intros [Hd Ht]%orb_false_iff.
    apply bool_decide_eq_false in Hd. rewrite IH, orb_false_r by done.
    apply bool_decide_eq_false. intros ->. congruence. }
  intros E. split; [apply H; [done|by rewrite E]|].
  destruct scheme as [|d scheme]; [done|]. unfold starts_with. simpl.
  case_bool_decide as Hd; [|done]. subst d. simpl in E. discriminate E.
Qed.

Lemma host_no_port_literal user port tail scheme a b c d :
  link_parts scheme user port tail → Forall is_byte [a; b; c; d] →
  host_no_port (user +:+ dotted a b c d +:+ port +:+ tail) = dotted a b c d.
Proof.
  intros [_ Huser Hport Htail] Hbytes. set (host := dotted a b c d).
  assert (no_delimiter host) as Hhost by (by apply dotted_no_delimiter).
  assert (∀ x, x ≠ "."%char → digit_val x = None → has_char x host = false) as Hchars
    by (intros; by apply dotted_chars).
  assert (no_delimiter user ∧ no_delimiter port) as [Hu Hp].
  { split.
    - destruct Huser as [->|(u & -> & Hu)]; [by intros x|]. apply no_delimiter_app; [done|].
      intros x. simpl. rewrite orb_false_r, bool_decide_eq_true. by intros ->.
    - destruct Hport as [->|(p & -> & Hp & _)]; [by intros x|]. intros x. simpl.
      rewrite orb_true_iff, bool_decide_eq_true. intros [->|Hx]; [done|auto]. }
  unfold host_no_port.
  assert (first_piece (λ c, bool_decide (c ∈ ["/"%char; "?"%char; "#"%char]))
    (user +:+ host +:+ port +:+ tail) = user +:+ host +:+ port) as ->.
  { rewrite <- !str_app_assoc. apply (first_piece_stop delimiter); [|exact Htail].
    apply no_delimiter_app; [by apply no_delimiter_app|done]. }
  assert (has_char "@" (host +:+ port) = false) as Hat.
  { rewrite has_char_app, Hchars by done. destruct Hport as [->|(p & -> & _ & Hp' & _)]; [done|].
    simpl. by rewrite Hp'. }
  assert ((match rsplit_once "@" (user +:+ host +:+ port) with
           | Some (_, h) => h | None => user +:+ host +:+ port end) = host +:+ port) as ->.
  { destruct Huser as [->|(u & -> & _)].
    - rewrite str_app_nil. by rewrite rsplit_once_none.
    - rewrite str_app_assoc, str_app_cons, str_app_nil. by rewrite rsplit_once_app. }
  assert (strip_prefix "[" (host +:+ port) = None) as ->.
  { destruct (dotted_first a b c d) as (k & s & Hk & E).
    { by apply Forall_cons in Hbytes as [? _]. }
    unfold host. rewrite E, str_app_cons. cbn [strip_prefix]. rewrite bool_decide_eq_false_2; [done|].
    intros Hk'. pose proof (digit_val_digit k Hk) as Hd. rewrite <- Hk' in Hd. done. }
  destruct Hport as [->|(p & -> & _ & _ & Hp')].
  - rewrite str_app_nil_r, rsplit_once_none; [done|]. by apply Hchars.
  - by rewrite rsplit_once_app.
Qed.

(** C25: a link to an IPv4 address in dotted decimal form does not evade the policy by
    its other parts: with any case of the scheme, any user information, any port and
    any path, query or fragment, the default policy refuses the link exactly when the address is in a denied
    range, and names that address. *)
Theorem check_ipv4_literal (scheme user port tail : string) (a b c d : Z)
    (Hlink : link_parts scheme user port tail) (Hbytes : Forall is_byte [a; b; c; d]) :
  check default_policy (scheme +:+ "://" +:+ user +:+ dotted a b c d +:+ port +:+ tail) =
  if existsb (in_cidr (ipv4_num [a; b; c; d])) denied_blocks
  then Err (DeniedRange (dotted a b c d)) else Ok ().
Proof.
  pose proof (lp_scheme _ _ _ _ Hlink) as Hscheme.
  destruct (scheme_chars scheme Hscheme) as [Hcolon Hdash]. unfold check.
  assert (starts_with "-" (scheme +:+ "://" +:+ user +:+ dotted a b c d +:+ port +:+ tail) = false)
    as ->.
  { destruct scheme as [|x s]; [done|]. rewrite str_app_cons. unfold starts_with in *.
    cbn [strip_prefix] in *. by destruct (bool_decide _). }
  rewrite split_once_str_first by done. rewrite Hscheme.
  rewrite host_no_port_literal with (scheme := scheme) by done. simpl.
  rewrite parse_ip_dotted by done. simpl.
  rewrite !Forall_cons in Hbytes. destruct Hbytes as (? & ? & ? & ? & _).
  by rewrite is_internal_v4_cidr.
Qed.

Lemma check_ipv4_literal_witness :
  link_parts "HttpS" "a@b@" ":8080" "?q" ∧
  check default_policy "HttpS://a@b@169.254.169.254:8080?q" = Err (DeniedRange "169.254.169.254").
Proof.
  assert (link_parts "HttpS" "a@b@" ":8080" "?q") as Hl.
  { split; [reflexivity| | |reflexivity].
    - right. exists "a@b". split; [reflexivity|]. intros x. simpl.
      rewrite !orb_true_iff, !bool_decide_eq_true. by intros [->|[->|[->|?]]].
    - right. exists "8080". repeat split; try reflexivity. intros x. simpl.
      rewrite !orb_true_iff, !bool_decide_eq_true. by intros [->|[->|[->|[->|?]]]]. }
  split; [exact Hl|].
  exact (check_ipv4_literal "HttpS" "a@b@" ":8080" "?q" 169 254 169 254 Hl
    ltac:(unfold is_byte; rewrite !Forall_cons, Forall_nil; lia)).
Defined.

(** Links the check lets through although common clients resolve them locally. *)
Example check_gaps :
  check default_policy "https://[::]/" = Ok () ∧ check default_policy "https://localhost./" = Ok () ∧
  check default_policy "https://2130706433/" = Ok ().
Proof. vm_compute. done. Qed.
