(* ===== verification/Catalog.v ===== *)
(** * The process catalog: apps/orbit-openeo/src/process_catalog.rs

    The table of implemented processes and the views of it: the sorted ids that
    submissions are checked against and the descriptions that are advertised. *)

From Stdlib Require Import Ascii Sorted.
From S2P Require Import Prelude Text BTree F64 Json.

Record ProcessSpec := mkSpec {
  sp_id : string; summary : string; categories : list string; parameters : list string;
  returns : string }.

Definition SPECS : list ProcessSpec := [
  mkSpec "load_collection" "Load a collection into a data cube, filtered by space/time/bands."
    ["cubes"; "import"] ["id"; "spatial_extent"; "temporal_extent"; "*bands"; "*properties"] "A data cube.";
  mkSpec "save_result" "Save processing results to the requested output format."
    ["cubes"; "export"] ["data"; "format"; "*options"] "Always true.";
  mkSpec "reduce_dimension" "Reduce a cube dimension to a single value with a reducer callback."
    ["cubes"; "reducer"] ["data"; "reducer"; "dimension"; "*context"] "A data cube with the dimension removed.";
  mkSpec "apply" "Apply a unary per-pixel process to every value in the cube."
    ["cubes"] ["data"; "process"; "*context"] "A data cube with the same dimensions.";
  mkSpec "mask" "Mask a cube with a truthy mask cube (replace masked values)."
    ["cubes"; "masks"] ["data"; "mask"; "*replacement"] "The masked data cube.";
  mkSpec "merge_cubes" "Merge two data cubes (band-axis join, overlap resolver, or spatial mosaic)."
    ["cubes"] ["cube1"; "cube2"; "*overlap_resolver"; "*context"] "The merged data cube.";
  mkSpec "ndvi" "Normalized Difference Vegetation Index from nir/red bands."
    ["cubes"; "vegetation indices"] ["data"; "*nir"; "*red"; "*target_band"] "A data cube with an NDVI band.";
  mkSpec "filter_temporal" "Limit a cube to the given temporal interval."
    ["cubes"; "filter"] ["data"; "extent"; "*dimension"] "A temporally-filtered data cube.";
  mkSpec "filter_spatial" "Limit a cube to the given spatial geometries."
    ["cubes"; "filter"] ["data"; "geometries"] "A spatially-filtered data cube.";
  mkSpec "filter_bbox" "Limit a cube to the given bounding box."
    ["cubes"; "filter"] ["data"; "extent"] "A spatially-filtered data cube.";
  mkSpec "filter_bands" "Keep only the requested bands."
    ["cubes"; "filter"] ["data"; "bands"] "A band-subset data cube.";
  mkSpec "rename_labels" "Rename labels (band names) along a dimension."
    ["cubes"] ["data"; "dimension"; "target"; "*source"] "A data cube with renamed labels.";
  mkSpec "add_dimension" "Add a new singleton dimension."
    ["cubes"] ["data"; "name"; "label"; "*type"] "A data cube with the added dimension.";
  mkSpec "drop_dimension" "Remove a singleton dimension."
    ["cubes"] ["data"; "name"] "A data cube without the dimension.";
  mkSpec "resample_spatial" "Reproject/resample a cube to a target CRS and resolution."
    ["cubes"; "reproject"] ["data"; "*projection"; "*resolution"; "*method"] "A resampled data cube.";
  mkSpec "aggregate_spatial" "Aggregate cube values over geometries with a reducer."
    ["cubes"; "aggregate"] ["data"; "geometries"; "reducer"; "*target_dimension"; "*context"] "A vector cube of aggregated values.";
  mkSpec "mask_scl_dilation" "Mask Sentinel-2 clouds/shadows using the SCL band (dilated)."
    ["cubes"; "masks"] ["data"; "*scl_band_name"; "*kernel_size"] "A cloud-masked data cube.";
  mkSpec "mask_from_values" "Build a binary mask from a band by listing the mask-out class values."
    ["cubes"; "masks"] ["data"; "band"; "values"] "A masked data cube.";
  mkSpec "aggregate_spatial_polygon" "(extension) Per-polygon mean of raster values."
    ["cubes"; "aggregate"] ["data"; "geometries"] "Per-polygon means.";
  mkSpec "aggregate_spatial_point" "(extension) Sample raster values at points."
    ["cubes"; "aggregate"] ["data"; "points"] "Per-point samples.";
  mkSpec "zonal_histogram" "(extension) Per-zone pixel counts from a data + mask raster."
    ["cubes"; "aggregate"] ["data"; "mask"] "Per-zone counts.";
  mkSpec "fit_classifier" "(extension) Train a binary logistic classifier."
    ["machine learning"] ["x"; "y"; "*iterations"; "*lr"] "A model object.";
  mkSpec "predict_classifier" "(extension) Apply a fitted classifier to features."
    ["machine learning"] ["model"; "x"] "Predictions.";
  mkSpec "add" "x + y."
    ["math"] ["x"; "y"] "The sum.";
  mkSpec "subtract" "x - y."
    ["math"] ["x"; "y"] "The difference.";
  mkSpec "multiply" "x * y."
    ["math"] ["x"; "y"] "The product.";
  mkSpec "divide" "x / y."
    ["math"] ["x"; "y"] "The quotient.";
  mkSpec "absolute" "Absolute value."
    ["math"] ["x"] "|x|.";
  mkSpec "sqrt" "Square root."
    ["math"] ["x"] "sqrt(x).";
  mkSpec "power" "base raised to p."
    ["math"] ["base"; "p"] "base^p.";
  mkSpec "exp" "e raised to p."
    ["math"] ["p"] "e^p.";
  mkSpec "ln" "Natural logarithm."
    ["math"] ["x"] "ln(x).";
  mkSpec "log" "Logarithm to a base."
    ["math"] ["x"; "base"] "log_base(x).";
  mkSpec "sgn" "Sign of x."
    ["math"] ["x"] "-1, 0 or 1.";
  mkSpec "floor" "Round down."
    ["math"; "rounding"] ["x"] "floor(x).";
  mkSpec "ceil" "Round up."
    ["math"; "rounding"] ["x"] "ceil(x).";
  mkSpec "int" "Truncate to integer."
    ["math"; "rounding"] ["x"] "trunc(x).";
  mkSpec "round" "Round half to even to p decimals."
    ["math"; "rounding"] ["x"; "*p"] "The rounded value.";
  mkSpec "mod" "Modulo (sign of divisor)."
    ["math"] ["x"; "y"] "x mod y.";
  mkSpec "clip" "Clamp x to [min, max]."
    ["math"] ["x"; "min"; "max"] "The clamped value.";
  mkSpec "normalized_difference" "(x - y) / (x + y)."
    ["math"] ["x"; "y"] "The normalized difference.";
  mkSpec "cos" "Cosine."
    ["math"; "trigonometric"] ["x"] "cos(x).";
  mkSpec "sin" "Sine."
    ["math"; "trigonometric"] ["x"] "sin(x).";
  mkSpec "tan" "Tangent."
    ["math"; "trigonometric"] ["x"] "tan(x).";
  mkSpec "arccos" "Inverse cosine."
    ["math"; "trigonometric"] ["x"] "acos(x).";
  mkSpec "arcsin" "Inverse sine."
    ["math"; "trigonometric"] ["x"] "asin(x).";
  mkSpec "arctan" "Inverse tangent."
    ["math"; "trigonometric"] ["x"] "atan(x).";
  mkSpec "arctan2" "Two-argument inverse tangent."
    ["math"; "trigonometric"] ["y"; "x"] "atan2(y, x).";
  mkSpec "eq" "Equality (optional delta)."
    ["comparison"] ["x"; "y"; "*delta"; "*case_sensitive"] "Boolean.";
  mkSpec "neq" "Inequality (optional delta)."
    ["comparison"] ["x"; "y"; "*delta"; "*case_sensitive"] "Boolean.";
  mkSpec "gt" "Greater than."
    ["comparison"] ["x"; "y"] "Boolean.";
  mkSpec "gte" "Greater than or equal."
    ["comparison"] ["x"; "y"] "Boolean.";
  mkSpec "lt" "Less than."
    ["comparison"] ["x"; "y"] "Boolean.";
  mkSpec "lte" "Less than or equal."
    ["comparison"] ["x"; "y"] "Boolean.";
  mkSpec "between" "Test min <= x <= max."
    ["comparison"] ["x"; "min"; "max"; "*exclude_max"] "Boolean.";
  mkSpec "and" "Logical AND."
    ["logic"] ["x"; "y"] "Boolean.";
  mkSpec "or" "Logical OR."
    ["logic"] ["x"; "y"] "Boolean.";
  mkSpec "xor" "Logical XOR."
    ["logic"] ["x"; "y"] "Boolean.";
  mkSpec "not" "Logical NOT."
    ["logic"] ["x"] "Boolean.";
  mkSpec "array_element" "Get an array element by index or label."
    ["arrays"] ["data"; "*index"; "*label"; "*return_nodata"] "The element.";
  mkSpec "array_create" "Create an array from values."
    ["arrays"] ["*data"; "*repeat"] "An array.";
  mkSpec "array_concat" "Concatenate two arrays."
    ["arrays"] ["array1"; "array2"] "The concatenated array.";
  mkSpec "array_append" "Append a value to an array."
    ["arrays"] ["data"; "value"] "The extended array.";
  mkSpec "array_contains" "Test array membership."
    ["arrays"] ["data"; "value"] "Boolean.";
  mkSpec "array_find" "Find the index of a value."
    ["arrays"] ["data"; "value"] "The index or null.";
  mkSpec "count" "Count elements (optionally by condition)."
    ["arrays"; "reducer"] ["data"; "*condition"] "The count.";
  mkSpec "order" "Permutation that would sort the array."
    ["arrays"; "sorting"] ["data"; "*asc"; "*nodata"] "The order indices.";
  mkSpec "sort" "Sort the array."
    ["arrays"; "sorting"] ["data"; "*asc"; "*nodata"] "The sorted array."].

(** [v.sort()] and [v.sort_by_key(key)]: a stable sort. *)
Fixpoint insert_by {A K} `{Ord K} (key : A → K) (x : A) (l : list A) : list A :=
  match l with
  | [] => [x]
  | y :: l' => match cmp (key x) (key y) with Gt => y :: insert_by key x l' | _ => x :: l end
  end.
Definition sort_by_key {A K} `{Ord K} (key : A → K) (l : list A) : list A :=
  foldr (insert_by key) [] l.

(** [v.dedup()]: drop the elements equal to the one before. *)
Fixpoint dedup (l : list string) : list string :=
  match l with
  | x :: (y :: _) as l' => if bool_decide (x = y) then dedup l' else x :: dedup l'
  | _ => l
  end.

Definition process_ids : list string := dedup (sort_by_key id (sp_id <$> SPECS)).

Definition is_known_process (id : string) : bool :=
  existsb (λ s, bool_decide (sp_id s = id)) SPECS.

(** [raw.trim_start_matches('*')] *)
Fixpoint trim_stars (s : string) : string :=
  match s with
  | String c s' => if bool_decide (c = "*"%char) then trim_stars s' else s
  | EmptyString => s
  end.

Definition parameter_json (raw : string) : Value := Object [
  ("name", JString (trim_stars raw));
  ("description", JString (trim_stars raw));
  ("schema", Object []);
  ("optional", Bool (starts_with "*" raw))].

Definition to_process_json (spec : ProcessSpec) : Value := Object [
  ("id", JString (sp_id spec));
  ("summary", JString (summary spec));
  ("description", JString (summary spec));
  ("categories", Array (JString <$> categories spec));
  ("parameters", Array (parameter_json <$> parameters spec));
  ("returns", Object [("description", JString (returns spec)); ("schema", Object [])])].

Definition process_descriptions : list Value := to_process_json <$> sort_by_key sp_id SPECS.

(** ** Sorting *)

Section sorting.
Context {A K : Type} `{OrdLaws K} (key : A → K).

Lemma insert_by_perm x l : Permutation (insert_by key x l) (x :: l).
Proof.
  induction l as [|y l IH]; simpl; [done|]. destruct (cmp (key x) (key y)); [done..|].
  rewrite IH. constructor.
Qed.

Lemma sort_by_key_perm l : Permutation (sort_by_key key l) l.
Proof. induction l as [|x l IH]; simpl; [done|]. rewrite insert_by_perm. by constructor. Qed.

Definition in_order (x y : A) : Prop := cmp (key x) (key y) ≠ Gt.

Lemma insert_by_sorted x l : StronglySorted in_order l → StronglySorted in_order (insert_by key x l).
Proof.
  assert (∀ a b c : A, in_order a b → in_order b c → in_order a c) as Htrans.
  { unfold in_order. intros a b c Hab Hbc. destruct (cmp (key a) (key b)) eqn:E1; [| |done].
    - apply cmp_eq in E1 as ->. done.
    - destruct (cmp (key b) (key c)) eqn:E2; [| |done].
      + apply cmp_eq in E2 as <-. by rewrite E1.
      + by rewrite (cmp_trans _ _ _ E1 E2). }
  induction 1 as [|y l Hs IH Hall]; simpl; [repeat constructor|].
  destruct (cmp (key x) (key y)) eqn:E.
  1,2: assert (in_order x y) as Hxy by (unfold in_order; by rewrite E);
    constructor; [by constructor|]; constructor; [done|];
    eapply Forall_impl; [exact Hall|]; intros z Hz; by eapply Htrans.
  constructor; [done|]. rewrite insert_by_perm. constructor; [|done].
  unfold in_order. rewrite cmp_antisym, E. done.
Qed.

Lemma sort_by_key_sorted l : StronglySorted in_order (sort_by_key key l).
Proof. induction l as [|x l IH]; simpl; [constructor|by apply insert_by_sorted]. Qed.
End sorting.

Lemma dedup_elem x l : x ∈ dedup l ↔ x ∈ l.
Proof.
  induction l as [|y [|z l] IH]; simpl; [done..|]. case_bool_decide as E.
  - subst. rewrite IH. rewrite !elem_of_cons. tauto.
  - rewrite elem_of_cons, IH, !elem_of_cons. tauto.
Qed.

Lemma process_ids_known i : i ∈ process_ids ↔ is_known_process i = true.
Proof.
  unfold process_ids, is_known_process.
  rewrite dedup_elem, (sort_by_key_perm _ _), existsb_exists, list_elem_of_fmap. split.
  - intros (s & -> & Hs). exists s. rewrite bool_decide_eq_true. split; [|done].
    by apply list_elem_of_In.
  - intros (s & Hs & <-%bool_decide_eq_true). exists s. split; [done|].
    by apply list_elem_of_In.
Qed.

(** ** Properties *)

(** The three views of the catalog agree: the ids used to refuse unknown
    processes at submission are strictly sorted and are exactly the ids that
    [is_known_process] accepts, and GET /processes describes exactly these
    processes, once each and in the same order. *)
Theorem catalog_views_agree :
  StronglySorted (λ a b, cmp a b = Lt) process_ids ∧
  (∀ id, id ∈ process_ids ↔ is_known_process id = true) ∧
  jget "id" <$> process_descriptions = (λ i, Some (JString i)) <$> process_ids.
Proof.
  split; [|split].
  - apply Sorted_StronglySorted; [intros x y z; apply cmp_trans|].
    assert (∀ l : list string,
      (fix ok l := match l with
                   | x :: (y :: _) as l' => match cmp x y with Lt => ok l' | _ => false end
                   | _ => true
                   end) l = true → Sorted (λ a b, cmp a b = Lt) l) as Hok.
    { induction l as [|x [|y l] IH]; [repeat constructor..|]. intros Hl.
      destruct (cmp x y) eqn:E; try done. constructor; [by apply IH|by constructor]. }
    apply Hok. vm_compute. reflexivity.
  - apply process_ids_known.
  - vm_compute. reflexivity.
Qed.
