(* ===== verification/Registry.v ===== *)
(** * The process registry: apps/orbit-openeo/src/geo_executor/registry.rs

    The table from process names to handlers, the did-you-mean suggestions by
    edit distance, and the handlers that are pure functions of their arguments. *)

From stdpp Require Import sorting.
From Stdlib Require Import Sorting.Sorted.
From S2P Require Import Prelude Text BTree F64 Json Executor Arrays Catalog.
Local Open Scope Z_scope.

(** ** Edit distance *)

(** [s.chars()]: the characters of a UTF-8 string, each as its bytes. *)
Fixpoint chars (s : string) : list string :=
  match s with
  | EmptyString => []
  | String c s' =>
      match chars s' with
      | String d g :: gs =>
          if is_cont (byte_of d) then String c (String d g) :: gs
          else chr c :: String d g :: gs
      | gs => chr c :: gs
      end
  end.

Section levenshtein.
Context {A : Type} `{EqDecision A}.
Implicit Types a b c : list A.

(** The inner loop: [curr[j + 1]] for each [j], given [curr[j]] and the rest of
    the previous row from [prev[j]] on. *)
Fixpoint lev_row (ca : A) (left : nat) (prev : list nat) b : list nat :=
  match b, prev with
  | cb :: b', d :: (u :: _) as prev' =>
      let cost := if decide (ca = cb) then 0%nat else 1%nat in
      let v := ((u + 1) `min` (left + 1) `min` (d + cost))%nat in
      v :: lev_row ca v (tail prev) b'
  | _, _ => []
  end.

(** The outer loop, from the index [i] on. *)
Fixpoint lev_rows (i : nat) (prev : list nat) a b : list nat :=
  match a with
  | [] => prev
  | ca :: a' => lev_rows (S i) (S i :: lev_row ca (S i) prev b) a' b
  end.

Definition levenshtein_list a b : nat :=
  match a, b with
  | [], _ => length b
  | _, [] => length a
  | _, _ => default 0%nat (lev_rows 0 (seq 0 (length b + 1)) a b !! length b)
  end.

(** The recursive edit distance. *)
Fixpoint dist a : list A → nat :=
  match a with
  | [] => length
  | x :: a' =>
      fix go b := match b with
        | [] => length a
        | y :: b' =>
            let cost := if decide (x = y) then 0%nat else 1%nat in
            ((dist a' b + 1) `min` (go b' + 1) `min` (dist a' b' + cost))%nat
        end
  end.

(** One insertion, deletion or substitution of a character. *)
Inductive edit : list A → list A → Prop :=
| edit_insert l x r : edit (l ++ r) (l ++ x :: r)
| edit_delete l x r : edit (l ++ x :: r) (l ++ r)
| edit_substitute l x y r : edit (l ++ x :: r) (l ++ y :: r).

Lemma dist_nil_r a : dist a [] = length a.
Proof. by destruct a. Qed.

Lemma dist_cons x a y b :
  dist (x :: a) (y :: b) =
  ((dist a (y :: b) + 1) `min` (dist (x :: a) b + 1) `min`
   (dist a b + if decide (x = y) then 0 else 1))%nat.
Proof. done. Qed.

Lemma dist_refl a : dist a a = 0%nat.
Proof. induction a as [|x a IH]; [done|]. rewrite dist_cons, IH, decide_True by done. lia. Qed.

Lemma dist_length a b : (length b ≤ dist a b + length a)%nat.
Proof.
  revert b. induction a as [|x a IH]; intros b; [simpl; lia|].
  induction b as [|y b IHb]; [simpl; lia|]. rewrite dist_cons.
  pose proof (IH (y :: b)). pose proof (IH b). simpl in *. lia.
Qed.

Lemma dist_insert_l x a c : (dist (x :: a) c ≤ S (dist a c))%nat.
Proof. destruct c as [|y c]; [by rewrite !dist_nil_r|]. rewrite dist_cons. lia. Qed.

Lemma dist_insert_r y a c : (dist a (y :: c) ≤ S (dist a c))%nat.
Proof. destruct a as [|x a]; [done|]. rewrite dist_cons. lia. Qed.

Lemma dist_delete x a c : (dist a c ≤ S (dist (x :: a) c))%nat.
Proof.
  induction c as [|y c IH]; [rewrite !dist_nil_r; simpl; lia|]. rewrite dist_cons.
  pose proof (dist_insert_r y a c). lia.
Qed.

Lemma dist_substitute x y a c : (dist (x :: a) c ≤ S (dist (y :: a) c))%nat.
Proof.
  induction c as [|z c IH]; [rewrite !dist_nil_r; simpl; lia|]. rewrite !dist_cons.
  pose proof (dist_insert_r z a c). destruct (decide (x = z)), (decide (y = z)); lia.
Qed.

Lemma dist_cong x a b :
  (∀ c, (dist a c ≤ S (dist b c))%nat) → ∀ c, (dist (x :: a) c ≤ S (dist (x :: b) c))%nat.
Proof.
  intros H c. induction c as [|y c IH].
  - specialize (H []). rewrite !dist_nil_r in *. simpl. lia.
  - rewrite !dist_cons. pose proof (H (y :: c)). pose proof (H c). lia.
Qed.

Lemma edit_dist a b : edit a b → ∀ c, (dist a c ≤ S (dist b c))%nat.
Proof.
  destruct 1 as [l x r|l x r|l x y r]; induction l as [|z l IH]; simpl; try by apply dist_cong.
  - intros c. apply dist_delete.
  - intros c. apply dist_insert_l.
  - intros c. apply dist_substitute.
Qed.

Lemma edit_cons x a b : edit a b → edit (x :: a) (x :: b).
Proof. destruct 1; rewrite !app_comm_cons; constructor. Qed.

Lemma edits_cons x n a b : nsteps edit n a b → nsteps edit n (x :: a) (x :: b).
Proof. induction 1; [constructor|]. econstructor; [by apply edit_cons|done]. Qed.

Lemma dist_minimal n a b : nsteps edit n a b → (dist a b ≤ n)%nat.
Proof.
  induction 1 as [a|n a b c He _ IH]; [by rewrite dist_refl|].
  pose proof (edit_dist a b He c). lia.
Qed.

Lemma dist_edits a : ∀ b, nsteps edit (dist a b) a b.
Proof.
  induction a as [|x a IH]; intros b.
  - induction b as [|y b IHb]; simpl; [constructor|].
    eapply nsteps_r; [exact IHb|]. apply (edit_insert [] y b).
  - induction b as [|y b IHb].
    + simpl. apply nsteps_l with a; [apply (edit_delete [] x a)|]. rewrite <- dist_nil_r. apply IH.
    + rewrite dist_cons. pose proof (IH (y :: b)) as H1. pose proof (edits_cons y _ _ _ (IH b)) as H3.
      set (d3 := (dist a b + if decide (x = y) then 0 else 1)%nat).
      assert (nsteps edit (dist a (y :: b) + 1) (x :: a) (y :: b)) as K1.
      { rewrite Nat.add_1_r. apply nsteps_l with a; [apply (edit_delete [] x a)|done]. }
      assert (nsteps edit (dist (x :: a) b + 1) (x :: a) (y :: b)) as K2.
      { rewrite Nat.add_1_r. eapply nsteps_r; [exact IHb|]. apply (edit_insert [] y b). }
      assert (nsteps edit d3 (x :: a) (y :: b)) as K3.
      { unfold d3. destruct (decide (x = y)) as [<-|]; [by rewrite Nat.add_0_r|].
        rewrite Nat.add_1_r. apply nsteps_l with (y :: a); [apply (edit_substitute [] x y a)|done]. }
      destruct (Nat.min_dec (dist a (y :: b) + 1) (dist (x :: a) b + 1)) as [E|E], 
        (Nat.min_dec ((dist a (y :: b) + 1) `min` (dist (x :: a) b + 1)) d3) as [E'|E'];
        rewrite E'; try rewrite E; done.
Qed.

Lemma edit_rev a b : edit a b → edit (rev a) (rev b).
Proof.
  destruct 1 as [l x r|l x r|l x y r]; rewrite !rev_app_distr; simpl; rewrite <- !app_assoc; simpl;
    constructor.
Qed.

Lemma edits_rev n a b : nsteps edit n a b → nsteps edit n (rev a) (rev b).
Proof. induction 1; [constructor|]. econstructor; [by apply edit_rev|done]. Qed.

Lemma dist_rev a b : dist (rev a) (rev b) = dist a b.
Proof.
  apply Nat.le_antisymm; apply dist_minimal.
  - apply edits_rev, dist_edits.
  - rewrite <- (rev_involutive a), <- (rev_involutive b) at 2. apply edits_rev, dist_edits.
Qed.

(** Row [i] of the table: the distances between a prefix of [a] and the prefixes
    of [b]; both prefixes are kept reversed. *)
Definition row (pa pb : list A) b : list nat :=
  (λ j, dist pa (rev (take j b) ++ pb)) <$> seq 0 (S (length b)).

Lemma row_cons pa pb y b : row pa pb (y :: b) = dist pa pb :: row pa (y :: pb) b.
Proof.
  unfold row. change (seq 0 (S (length (y :: b)))) with (0%nat :: seq 1 (S (length b))).
  rewrite <- fmap_S_seq, fmap_cons, <- list_fmap_compose. f_equal.
  apply list_fmap_ext. intros i j _. simpl. by rewrite <- app_assoc.
Qed.

Lemma lev_row_spec ca pa b : ∀ pb,
  dist (ca :: pa) pb :: lev_row ca (dist (ca :: pa) pb) (row pa pb b) b = row (ca :: pa) pb b.
Proof.
  induction b as [|cb b IH]; intros pb; [done|]. rewrite !row_cons. f_equal.
  destruct (row pa (cb :: pb) b) as [|u row'] eqn:E; [done|].
  assert (u = dist pa (cb :: pb)) as ->.
  { destruct b as [|y b']; [by injection E|]. rewrite row_cons in E. by injection E. }
  cbn [lev_row tail]. rewrite <- E, <- (IH (cb :: pb)), (dist_cons ca pa cb pb). done.
Qed.

Lemma lev_rows_spec b a : ∀ i pa,
  i = length pa → lev_rows i (row pa [] b) a b = row (rev a ++ pa) [] b.
Proof.
  induction a as [|ca a IH]; intros i pa Hi; [done|]. simpl lev_rows.
  assert (S i = dist (ca :: pa) []) as E by (by rewrite dist_nil_r, Hi).
  rewrite E at 2 3. rewrite lev_row_spec, IH by (by rewrite Hi). simpl.
  by rewrite <- app_assoc.
Qed.

Lemma levenshtein_dist a b : levenshtein_list a b = dist a b.
Proof.
  destruct a as [|x a]; [done|]. destruct b as [|y b]; [done|].
  assert (seq 0 (length (y :: b) + 1) = row [] [] (y :: b)) as E.
  { unfold row. rewrite Nat.add_1_r. symmetry. etransitivity; [|apply list_fmap_id].
    apply list_fmap_ext. intros i j Hij. apply lookup_seq in Hij as [-> Hi]. simpl dist.
    rewrite app_nil_r, length_rev, length_take. simpl length in *. unfold id. lia. }
  unfold levenshtein_list. rewrite E, lev_rows_spec by done.
  unfold row. rewrite list_lookup_fmap, lookup_seq_lt by lia. cbn [fmap option_fmap option_map default].
  unfold id. rewrite Nat.add_0_l, firstn_all, !app_nil_r. apply dist_rev.
Qed.
End levenshtein.

(** Characters, not bytes, are compared. *)
Definition levenshtein (a b : string) : nat := levenshtein_list (chars a) (chars b).

(** ** The registry *)

Section registry.
Context {W : Type}.

(** A handler acts on the executor's state; [None] is a panic. *)
Definition Handler : Type := btree string Value → W → option (result ExecError Value * W).

Record ProcessRegistry := mkRegistry { handlers : gmap string Handler }.

Definition ProcessRegistry_new : ProcessRegistry := mkRegistry ∅.
Definition register (name : string) (h : Handler) (r : ProcessRegistry) : ProcessRegistry :=
  mkRegistry (<[name := h]> (handlers r)).
Definition registry_get (name : string) (r : ProcessRegistry) : option Handler := handlers r !! name.
Definition contains (name : string) (r : ProcessRegistry) : bool :=
  bool_decide (is_Some (handlers r !! name)).

(** The order in which the hash map lists its keys. *)
Context (hash_keys : gmap string Handler → list string).

Definition registered_processes (r : ProcessRegistry) : list string :=
  sort_by (λ a b, match cmp a b with Gt => false | _ => true end) (hash_keys (handlers r)).

Definition score_le (a b : nat * string) : bool :=
  match cmp (Z.of_nat a.1, a.2) (Z.of_nat b.1, b.2) with Gt => false | _ => true end.

Definition threshold (name : string) : nat := (String.length name / 3) `max` 2.

Definition suggest (name : string) (max : nat) (r : ProcessRegistry) : list string :=
  let scored := filter (λ e, (e.1 <= threshold name)%nat)
    ((λ p, (levenshtein name p, p)) <$> hash_keys (handlers r)) in
  snd <$> take max (sort_by score_le scored).
End registry.
Arguments Handler : clear implicits.
Arguments ProcessRegistry : clear implicits.

(** ** Arguments of the scalar processes *)

Section scalars.
Implicit Types args : btree string Value.

Definition arg_number (key : string) args : result ExecError f64 :=
  ok_or (bt_get key args ≫= as_f64)
    (InvalidGraph ("expected numeric `" +:+ key +:+ "` argument")).
Definition arg_bool (key : string) args : result ExecError bool :=
  ok_or (bt_get key args ≫= as_bool)
    (InvalidGraph ("expected boolean `" +:+ key +:+ "` argument")).

(** The three macros. *)
Definition unary_num (key : string) (f : f64 → f64) args : result ExecError Value :=
  x ← arg_number key args; Ok (json_of_f64 (f x)).
Definition binary_num (ka kb : string) (f : f64 → f64 → f64) args : result ExecError Value :=
  a ← arg_number ka args; b ← arg_number kb args; Ok (json_of_f64 (f a b)).
Definition cmp_num (f : f64 → f64 → bool) args : result ExecError Value :=
  x ← arg_number "x" args; y ← arg_number "y" args; Ok (Bool (f x y)).

Definition mod_f64 (x y : f64) : f64 := f64_sub x (f64_mul y (f64_floor (f64_div x y))).

(** The comparison shared by [eq] and [neq]. *)
Definition eq_delta args (x y : f64) : bool :=
  match bt_get "delta" args ≫= as_f64 with
  | Some d => f64_leb (f64_abs (f64_sub x y)) d
  | None => f64_eqb x y
  end.
Definition eq_handler args : result ExecError Value :=
  x ← arg_number "x" args; y ← arg_number "y" args; Ok (Bool (eq_delta args x y)).
Definition neq_handler args : result ExecError Value :=
  x ← arg_number "x" args; y ← arg_number "y" args; Ok (Bool (negb (eq_delta args x y))).

Context `{Libm}.

Definition log_handler args : result ExecError Value :=
  x ← arg_number "x" args; base ← arg_number "base" args;
  if f64_leb base f64_zero || f64_ltb (f64_abs (f64_sub base f64_one)) f64_epsilon
  then Err (InvalidGraph "log: base must be > 0 and != 1")
  else Ok (json_of_f64 (f64_log x base)).

Definition round_handler args : result ExecError Value :=
  x ← arg_number "x" args;
  let p := default 0 (bt_get "p" args ≫= as_i64) in
  let factor := f64_powi (f64_of_Z 10) (to_signed 32 p) in
  let scaled := f64_mul x factor in
  Ok (json_of_f64 (f64_div (f64_round_ties_even scaled) factor)).

(** [None] is the panic of [clamp]. *)
Definition clip_handler args : option (result ExecError Value) :=
  match (x ← arg_number "x" args; lo ← arg_number "min" args; hi ← arg_number "max" args;
         Ok (x, lo, hi)) with
  | Err e => Some (Err e)
  | Ok (x, lo, hi) =>
      match f64_clamp_checked x lo hi with
      | Some r => Some (Ok (json_of_f64 r))
      | None => None
      end
  end.

Definition normalized_difference args : result ExecError Value :=
  x ← arg_number "x" args; y ← arg_number "y" args;
  let denom := f64_add x y in
  if f64_eqb denom f64_zero then Err (InvalidGraph "normalized_difference: x + y == 0")
  else Ok (json_of_f64 (f64_div (f64_sub x y) denom)).

Definition between args : result ExecError Value :=
  x ← arg_number "x" args; lo ← arg_number "min" args; hi ← arg_number "max" args;
  let exclude_max := default false (bt_get "exclude_max" args ≫= as_bool) in
  Ok (Bool (f64_leb lo x && (if exclude_max then f64_ltb x hi else f64_leb x hi))).

(** The second operand is only read when the first does not decide. *)
Definition and_handler args : result ExecError Value :=
  match arg_bool "x" args with
  | Err e => Err e
  | Ok true => y ← arg_bool "y" args; Ok (Bool y)
  | Ok false => Ok (Bool false)
  end.
Definition or_handler args : result ExecError Value :=
  match arg_bool "x" args with
  | Err e => Err e
  | Ok true => Ok (Bool true)
  | Ok false => y ← arg_bool "y" args; Ok (Bool y)
  end.
Definition xor_handler args : result ExecError Value :=
  x ← arg_bool "x" args; y ← arg_bool "y" args; Ok (Bool (xorb x y)).
Definition not_handler args : result ExecError Value :=
  x ← arg_bool "x" args; Ok (Bool (negb x)).

Definition divide args : result ExecError Value :=
  x ← arg_number "x" args; y ← arg_number "y" args;
  if f64_eqb y f64_zero then Err (InvalidGraph "divide: y must be non-zero")
  else Ok (json_of_f64 (f64_div x y)).

Definition save_result args : result ExecError Value :=
  let format := default "" (bt_get "format" args ≫= as_str) in
  let data := default Null (bt_get "data" args) in
  if bool_decide (format = "") then Ok data
  else Ok (Object [("__save_result", Object [("data", data); ("format", JString format)])]).
End scalars.

(** ** The default handlers *)

Section defaults.
Context {W : Type} `{Libm}.
(** The methods of the executor that read and write rasters, by name. *)
Context (external : string → Handler W).

Definition pure (f : btree string Value → result ExecError Value) : Handler W :=
  λ args w, Some (f args, w).
Definition panicking (f : btree string Value → option (result ExecError Value)) : Handler W :=
  λ args w, match f args with Some r => Some (r, w) | None => None end.

Definition apply_handler : Handler W := λ args w,
  match bt_get "process" args with
  | Some _ => external "eval_apply" args w
  | None => Some (Ok (default Null (bt_get "data" args)), w)
  end.

(** The registrations, in the order of the code. *)
Definition default_handlers : list (string * Handler W) := [
  ("load_collection", external "eval_load_collection");
  ("ndvi", external "eval_ndvi");
  ("mask", external "eval_mask");
  ("mask_from_values", external "eval_mask_from_values");
  ("mask_scl_dilation", external "eval_mask_scl_dilation");
  ("reduce_dimension", external "eval_reduce_dimension");
  ("apply", apply_handler);
  ("save_result", pure save_result);
  ("resample_spatial", external "eval_resample_spatial");
  ("zonal_histogram", external "eval_zonal_histogram");
  ("aggregate_spatial_polygon", external "eval_aggregate_spatial_polygon");
  ("aggregate_spatial_point", external "eval_aggregate_spatial_point");
  ("merge_cubes", external "eval_merge_cubes");
  ("aggregate_spatial", external "eval_aggregate_spatial");
  ("fit_classifier", external "eval_fit_classifier");
  ("predict_classifier", external "eval_predict_classifier");
  ("add", pure (binary_num "x" "y" f64_add));
  ("subtract", pure (binary_num "x" "y" f64_sub));
  ("multiply", pure (binary_num "x" "y" f64_mul));
  ("divide", pure divide);
  ("filter_temporal", external "eval_filter_temporal");
  ("filter_spatial", external "eval_filter_spatial");
  ("filter_bbox", external "eval_filter_bbox");
  ("filter_bands", external "eval_filter_bands");
  ("rename_labels", external "eval_rename_labels");
  ("add_dimension", external "eval_add_dimension");
  ("drop_dimension", external "eval_drop_dimension");
  ("absolute", pure (unary_num "x" f64_abs));
  ("sqrt", pure (unary_num "x" f64_sqrt));
  ("exp", pure (unary_num "p" f64_exp));
  ("ln", pure (unary_num "x" f64_ln));
  ("log", pure log_handler);
  ("power", pure (binary_num "base" "p" f64_powf));
  ("sgn", pure (unary_num "x" f64_signum));
  ("floor", pure (unary_num "x" f64_floor));
  ("ceil", pure (unary_num "x" f64_ceil));
  ("int", pure (unary_num "x" f64_trunc));
  ("round", pure round_handler);
  ("mod", pure (binary_num "x" "y" mod_f64));
  ("clip", panicking clip_handler);
  ("normalized_difference", pure normalized_difference);
  ("cos", pure (unary_num "x" f64_cos));
  ("sin", pure (unary_num "x" f64_sin));
  ("tan", pure (unary_num "x" f64_tan));
  ("arccos", pure (unary_num "x" f64_acos));
  ("arcsin", pure (unary_num "x" f64_asin));
  ("arctan", pure (unary_num "x" f64_atan));
  ("arctan2", pure (binary_num "y" "x" f64_atan2));
  ("eq", pure eq_handler);
  ("neq", pure neq_handler);
  ("gt", pure (cmp_num (λ x y, f64_ltb y x)));
  ("gte", pure (cmp_num (λ x y, f64_leb y x)));
  ("lt", pure (cmp_num f64_ltb));
  ("lte", pure (cmp_num f64_leb));
  ("between", pure between);
  ("and", pure and_handler);
  ("or", pure or_handler);
  ("xor", pure xor_handler);
  ("not", pure not_handler);
  ("array_element", pure array_element);
  ("array_create", pure array_create);
  ("array_concat", pure array_concat);
  ("array_append", pure array_append);
  ("array_contains", pure array_contains);
  ("array_find", pure array_find);
  ("count", pure count);
  ("order", pure order);
  ("sort", pure sort)].

Definition register_defaults (r : ProcessRegistry W) : ProcessRegistry W :=
  foldl (λ r e, register e.1 e.2 r) r default_handlers.
End defaults.

(** ** Lookups after registration *)

Lemma register_all_lookup {W} (l : list (string * Handler W)) r name :
  NoDup l.*1 →
  handlers (foldl (λ r e, register e.1 e.2 r) r l) !! name =
  match assoc_get name l with Some h => Some h | None => handlers r !! name end.
Proof.
  revert r. induction l as [|[k h] l IH]; intros r; simpl; [done|].
  intros [Hk Hnd]%NoDup_cons. rewrite IH by done. unfold register. simpl.
  destruct (bool_decide_reflect (name = k)) as [->|Hne].
  - rewrite lookup_insert_eq. destruct (assoc_get k l) as [h'|] eqn:E; [|done].
    apply assoc_get_In, (list_elem_of_fmap_2 fst) in E. done.
  - by rewrite lookup_insert_ne by done.
Qed.

Definition default_names : list string :=
  Eval vm_compute in (default_handlers (W := ()) (H := Build_Libm id id id id id id id id
    (λ x _, x) (λ x _, x) (λ x _, x)) (λ _ _ _, None)).*1.

Lemma default_handlers_names {W} `{Libm} (external : string → Handler W) :
  (default_handlers external).*1 = default_names.
Proof. reflexivity. Qed.

Lemma default_names_nodup : NoDup default_names.
Proof. apply (bool_decide_unpack _). vm_compute. exact I. Qed.

Lemma default_lookup {W} `{Libm} (external : string → Handler W) name :
  registry_get name (register_defaults external ProcessRegistry_new) =
  assoc_get name (default_handlers external).
Proof.
  unfold registry_get, register_defaults. rewrite register_all_lookup.
  - change (handlers ProcessRegistry_new) with (∅ : gmap string (Handler W)). rewrite lookup_empty.
    by destruct (assoc_get name (default_handlers external)).
  - rewrite default_handlers_names. apply default_names_nodup.
Qed.

(** ** Suggestions *)

Section suggest.
Context {W : Type} (hash_keys : gmap string (Handler W) → list string).
Hypothesis hash_keys_perm : ∀ m, Permutation (hash_keys m) (map_to_list m).*1.

Lemma elem_of_hash_keys (r : ProcessRegistry W) p :
  p ∈ hash_keys (handlers r) ↔ contains p r = true.
Proof.
  rewrite hash_keys_perm. unfold contains. rewrite bool_decide_eq_true. split.
  - intros ([k h] & -> & Hin)%list_elem_of_fmap. apply elem_of_map_to_list in Hin. by exists h.
  - intros [h Hh]. apply (list_elem_of_fmap_2' fst _ (p, h)); [by apply elem_of_map_to_list|done].
Qed.

Lemma score_le_key a b :
  score_le a b = match cmp (Z.of_nat a.1, a.2) (Z.of_nat b.1, b.2) with Gt => false | _ => true end.
Proof. done. Qed.

(** One name is suggested before another. *)
Definition closer (name p q : string) : Prop :=
  (levenshtein name p < levenshtein name q)%nat ∨
  levenshtein name p = levenshtein name q ∧ cmp p q = Lt.

Definition candidates (name : string) (r : ProcessRegistry W) : list (nat * string) :=
  sort_by score_le (filter (λ e, (e.1 <= threshold name)%nat)
    ((λ p, (levenshtein name p, p)) <$> hash_keys (handlers r))).

Lemma elem_of_candidates name r n p :
  (n, p) ∈ candidates name r ↔
  n = levenshtein name p ∧ (n ≤ threshold name)%nat ∧ contains p r = true.
Proof.
  unfold candidates. rewrite sort_by_perm, list_elem_of_filter, list_elem_of_fmap. simpl. split.
  - intros (Hn & q & [= -> ->] & Hq). by rewrite <- elem_of_hash_keys.
  - intros (-> & Hn & Hp). split; [done|]. exists p. by rewrite elem_of_hash_keys.
Qed.

Lemma sort_by_total_sorted {A} (le : A → A → bool) l :
  (∀ a b, le a b = false → le b a = true) →
  (∀ a b c, le a b = true → le b c = true → le a c = true) →
  StronglySorted (λ a b, le a b = true) (sort_by le l).
Proof.
  intros Htot Htrans. induction l as [|x l IH]; [constructor|]. unfold sort_by in *. simpl.
  induction IH as [|y k Hk IH Hall]; simpl; [repeat constructor|]. destruct (le x y) eqn:E.
  - constructor; [by constructor|]. constructor; [done|].
    eapply Forall_impl; [exact Hall|]. intros z. by apply Htrans.
  - constructor; [done|]. rewrite Forall_forall in *. intros z Hz.
    rewrite sort_insert_perm in Hz. apply elem_of_cons in Hz as [->|Hz]; [by apply Htot|by apply Hall].
Qed.

Lemma candidates_sorted name r : StronglySorted (closer name) (candidates name r).*2.
Proof.
  assert (StronglySorted (λ a b, score_le a b = true) (candidates name r)) as Hs.
  { apply sort_by_total_sorted.
    - intros a b. rewrite !score_le_key.
      rewrite (cmp_antisym (Z.of_nat a.1, a.2) (Z.of_nat b.1, b.2)). by destruct (cmp _ _).
    - intros a b c. rewrite !score_le_key. intros H1 H2.
      destruct (cmp (Z.of_nat a.1, a.2) (Z.of_nat b.1, b.2)) eqn:E1; [|clear H1|done].
      + apply cmp_eq in E1 as ->. done.
      + destruct (cmp (Z.of_nat b.1, b.2) (Z.of_nat c.1, c.2)) eqn:E2; [|clear H2|done].
        * apply cmp_eq in E2 as <-. by rewrite E1.
        * by rewrite (cmp_trans _ _ _ E1 E2). }
  assert (NoDup (candidates name r).*2) as Hnd.
  { unfold candidates. rewrite sort_by_perm, filter_fmap, <- list_fmap_compose. simpl.
    rewrite list_fmap_id. apply NoDup_filter. rewrite hash_keys_perm. apply NoDup_fst_map_to_list. }
  assert (Forall (λ e, e.1 = levenshtein name e.2) (candidates name r)) as Hl.
  { apply Forall_forall. intros [n p] Hin. by apply elem_of_candidates in Hin as [? _]. }
  induction Hs as [|[n p] k Hs IH Hall]; [constructor|]. simpl in Hnd. apply NoDup_cons in Hnd as [Hp Hnd].
  apply Forall_cons in Hl as [Hn Hl]. simpl. constructor; [by apply IH|].
  apply Forall_fmap, Forall_forall. intros [m q] Hq. rewrite Forall_forall in Hall, Hl.
  pose proof (Hall _ Hq) as Hle. pose proof (Hl _ Hq) as Hm. simpl in *. subst n m.
  rewrite score_le_key in Hle. unfold cmp at 1, ord_prod, cmp at 1, ord_Z in Hle. simpl in Hle.
  unfold closer. simpl. destruct (Z.compare_spec (Z.of_nat (levenshtein name p)) (Z.of_nat (levenshtein name q)));
    [|left; lia|done].
  right. split; [lia|]. destruct (cmp p q) eqn:E; [|done|done].
  apply cmp_eq in E as ->. destruct Hp. by apply (list_elem_of_fmap_2 snd) in Hq.
Qed.
End suggest.

(** ** Properties *)

(** The distance behind the suggestions is the least number of insertions,
    deletions and substitutions of characters that turn one name into the other. *)
Theorem levenshtein_least_edits (a b : string) :
  nsteps edit (levenshtein a b) (chars a) (chars b) ∧
  ∀ n, nsteps edit n (chars a) (chars b) → (levenshtein a b ≤ n)%nat.
Proof.
  unfold levenshtein. rewrite levenshtein_dist. split; [apply dist_edits|].
  intros n. apply dist_minimal.
Qed.

(** The suggestions for a name do not depend on the order of the hash map:
    they are registered names within the threshold, nearest first and
    alphabetically among equally near ones, at most [max] of them, and a name
    within the threshold that is left out is further than all of [max] others. *)
Theorem suggest_correct {W} (hash_keys : gmap string (Handler W) → list string)
    (Hkeys : ∀ m, Permutation (hash_keys m) (map_to_list m).*1)
    (name : string) (max : nat) (r : ProcessRegistry W) :
  let l := suggest hash_keys name max r in
  (length l ≤ max)%nat ∧ StronglySorted (closer name) l ∧
  (∀ p, p ∈ l → contains p r = true ∧ (levenshtein name p ≤ threshold name)%nat) ∧
  (∀ p, contains p r = true → (levenshtein name p ≤ threshold name)%nat → p ∉ l →
     length l = max ∧ ∀ q, q ∈ l → closer name q p).
Proof.
  unfold suggest. fold (candidates hash_keys name r).
  pose proof (candidates_sorted hash_keys Hkeys name r) as Hs.
  pose proof (elem_of_candidates hash_keys Hkeys name r) as Hel.
  rewrite fmap_take. set (c := candidates hash_keys name r) in *.
  assert (∀ p, p ∈ c.*2 ↔ contains p r = true ∧ (levenshtein name p ≤ threshold name)%nat) as Hc.
  { intros p. rewrite list_elem_of_fmap. split.
    - intros ([n q] & -> & Hin). apply Hel in Hin as (-> & ? & ?). done.
    - intros [Hp Hn]. exists (levenshtein name p, p). split; [done|]. by apply Hel. }
  rewrite <- (take_drop max c.*2) in Hs, Hc. apply StronglySorted_app in Hs as (Hcross & Hs1 & _).
  split; [rewrite length_take; lia|]. split; [done|]. split.
  - intros p Hp. apply Hc, elem_of_app. by left.
  - intros p Hp Hn Hout. assert (p ∈ drop max c.*2) as Hin.
    { pose proof (proj2 (Hc p) (conj Hp Hn)) as [?|?]%elem_of_app; done. }
    split; [|intros q Hq; by apply Hcross].
    rewrite length_take. assert (length (drop max c.*2) ≠ 0%nat) as Hd.
    { intros H0%nil_length_inv. rewrite H0 in Hin. by apply not_elem_of_nil in Hin. }
    rewrite length_drop in Hd. lia.
Qed.

Definition demo_registry : ProcessRegistry () :=
  register "ndvi" (λ _ _, None) (register "ndmi" (λ _ _, None)
    (register "mask" (λ _ _, None) ProcessRegistry_new)).
Definition demo_keys (m : gmap string (Handler ())) : list string := (map_to_list m).*1.

Lemma suggest_correct_witness :
  suggest demo_keys "ndvj" 3 demo_registry = ["ndvi"; "ndmi"] ∧
  StronglySorted (closer "ndvj") (suggest demo_keys "ndvj" 3 demo_registry).
Proof.
  split; [vm_compute; reflexivity|].
  exact (proj1 (proj2 (suggest_correct demo_keys (λ m, Permutation_refl _) "ndvj" 3 demo_registry))).
Defined.

(** The registry and the advertised catalog agree: a process name has a
    handler exactly when submissions that use it are accepted. *)
Theorem defaults_match_catalog {W} `{Libm} (external : string → Handler W) (name : string) :
  contains name (register_defaults external ProcessRegistry_new) = is_known_process name.
Proof.
  assert (∀ n, n ∈ default_names ↔ n ∈ process_ids) as Hsame.
  { assert (Forall (λ n, n ∈ process_ids) default_names) as H1
      by (apply (bool_decide_unpack _); vm_compute; exact I).
    assert (Forall (λ n, n ∈ default_names) process_ids) as H2
      by (apply (bool_decide_unpack _); vm_compute; exact I).
    rewrite Forall_forall in H1, H2. split; [apply H1|apply H2]. }
  apply eq_bool_prop_intro. rewrite !Is_true_true, <- process_ids_known, <- Hsame.
  unfold contains. fold (registry_get name (register_defaults external ProcessRegistry_new)).
  rewrite bool_decide_eq_true, default_lookup, assoc_get_is_Some.
  by rewrite default_handlers_names.
Qed.

(** The processes that run a method of the executor on rasters. *)
Definition raster_names : list string := [
  "load_collection"; "ndvi"; "mask"; "mask_from_values"; "mask_scl_dilation"; "reduce_dimension";
  "apply"; "resample_spatial"; "zonal_histogram"; "aggregate_spatial_polygon";
  "aggregate_spatial_point"; "merge_cubes"; "aggregate_spatial"; "fit_classifier";
  "predict_classifier"; "filter_temporal"; "filter_spatial"; "filter_bbox"; "filter_bands";
  "rename_labels"; "add_dimension"; "drop_dimension"].

(** The bounds of a [clip] are not in order. *)
Definition bad_clip (args : btree string Value) : Prop :=
  ∃ x lo hi, arg_number "x" args = Ok x ∧ arg_number "min" args = Ok lo ∧
    arg_number "max" args = Ok hi ∧ f64_leb lo hi = false.

Lemma clip_handler_panics args : clip_handler args = None ↔ bad_clip args.
Proof.
  unfold clip_handler, bad_clip.
  destruct (arg_number "x" args) as [x|ex]; simpl; [|by split; [|intros (?&?&?&[=]&_)]].
  destruct (arg_number "min" args) as [lo|el]; simpl; [|by split; [|intros (?&?&?&_&[=]&_)]].
  destruct (arg_number "max" args) as [hi|eh]; simpl; [|by split; [|intros (?&?&?&_&_&[=]&_)]].
  unfold f64_clamp_checked. destruct (f64_leb lo hi) eqn:E; split; try done.
  - intros (x' & lo' & hi' & [= <-] & [= <-] & [= <-] & H). congruence.
  - intros _. by exists x, lo, hi.
Qed.

Definition scalar_entry {W} (e : string * Handler W) : Prop :=
  e.1 ∈ raster_names ∨ (e.1 ≠ "clip" ∧ ∃ f, e.2 = pure f) ∨
  (e.1 = "clip" ∧ ∃ l : Libm, e.2 = panicking clip_handler).

Lemma default_handlers_scalar {W} `{Libm} (external : string → Handler W) :
  Forall scalar_entry (default_handlers external).
Proof.
  unfold default_handlers.
  repeat (apply Forall_cons; split; [unfold scalar_entry; cbn [fst snd];
    first [ left; apply (bool_decide_unpack _); vm_compute; exact I
          | right; left; split; [discriminate|eexists; reflexivity]
          | right; right; split; [reflexivity|by eexists] ]|]).
  constructor.
Qed.

(** The handlers of the scalar, logical and array processes and of
    [save_result] leave the executor's state alone and answer every argument
    map, with a value or an error, except that [clip] panics, exactly when its
    arguments are numbers whose bounds are not in order. *)
Theorem scalar_handlers_total {W} `{Libm} (external : string → Handler W) (name : string)
    (h : Handler W)
    (Hh : registry_get name (register_defaults external ProcessRegistry_new) = Some h)
    (Hname : name ∉ raster_names) (args : btree string Value) (w : W) :
  (name = "clip" ∧ bad_clip args ∧ h args w = None) ∨
  (¬ (name = "clip" ∧ bad_clip args) ∧ ∃ r, h args w = Some (r, w)).
Proof.
  rewrite default_lookup in Hh. apply assoc_get_In in Hh as E.
  pose proof (default_handlers_scalar external) as Hall. rewrite Forall_forall in Hall.
  destruct (Hall _ E) as [Hr|[(Hne & f & Hf)|(Hc & _ & Hf)]]; simpl in *; [done| |]; subst.
  - right. split; [by intros [? _]|]. by eexists.
  - unfold panicking. destruct (clip_handler args) as [r|] eqn:Hp.
    + right. split; [|by eexists]. intros [_ Hb]. apply clip_handler_panics in Hb. congruence.
    + left. split; [done|]. split; [by apply clip_handler_panics|done].
Qed.

Definition demo_libm : Libm :=
  Build_Libm id id id id id id id id (λ x _, x) (λ x _, x) (λ x _, x).
Definition demo_clip : btree string Value :=
  [("max", Number (PosInt 1)); ("min", Number (PosInt 2)); ("x", Number (PosInt 3))].

Lemma scalar_handlers_total_witness :
  ∃ h, registry_get "clip" (register_defaults (W := ()) (H := demo_libm) (λ _ _ _, None)
         ProcessRegistry_new) = Some h ∧ h demo_clip () = None.
Proof.
  assert (registry_get "clip" (register_defaults (W := ()) (H := demo_libm) (λ _ _ _, None)
    ProcessRegistry_new) = Some (panicking clip_handler)) as E
    by (rewrite default_lookup; reflexivity).
  exists (panicking clip_handler). split; [exact E|].
  assert ("clip" ∉ raster_names) as Hn by (apply (bool_decide_unpack _); vm_compute; exact I).
  assert (bad_clip demo_clip) as Hb.
  { exists (f64_of_Z 3), (f64_of_Z 2), (f64_of_Z 1). repeat (split; [reflexivity|]). reflexivity. }
  destruct (@scalar_handlers_total () demo_libm _ "clip" _ E Hn demo_clip ()) as [(_ & _ & H)|[H _]].
  - exact H.
  - destruct H. split; [reflexivity|exact Hb].
Defined.
