(* ===== verification/Geo.v ===== *)
(** * The GeoExecutor: apps/orbit-openeo/src/geo_executor/mod.rs

    Dispatch through the process registry, the answer of a run, and the
    conversion of what reaches [save_result] into bytes.  Handlers that use GDAL
    act on the executor's state, of a type [W] left open; reading a file, the
    TIFF encoder and GDAL's PNG driver are parameters over that state. *)

From Stdlib Require Import Floats.SpecFloat.
From S2P Require Import Prelude Text BTree F64 Json ProcessGraph Executor Registry.
Local Open Scope Z_scope.

(** ** Evaluation *)

Section evaluate.
Context {W : Type} `{Petgraph}.
Context (hash_keys : gmap string (Handler W) → list string).
Context (registry : ProcessRegistry W).

Definition unknown_process (name : string) : ExecError :=
  match suggest hash_keys name 3 registry with
  | [] => UnknownProcess name
  | hints => UnknownProcess (name +:+ " (did you mean: " +:+ join ", " hints +:+ ")")
  end.

Definition geo_dispatch (pid : string) (args : btree string Value) (w : W)
    : option (result ExecError Value * W) :=
  match registry_get pid registry with
  | None => Some (Err (unknown_process pid), w)
  | Some handler => handler args w
  end.

Definition evaluate (graph : ProcessGraph) (w : W)
    : option (result ExecError (string * Value) * W) := evaluate_graph geo_dispatch graph w.
End evaluate.

(** ** Output formats *)

Inductive OutputFormat := GTiff | Cog | FJson | Png | NetCdf.

Definition format_parse (s : string) : OutputFormat :=
  let u := to_ascii_uppercase s in
  if bool_decide (u ∈ ["GTIFF"; "TIFF"; "GEOTIFF"]) then GTiff
  else if bool_decide (u ∈ ["COG"; "CLOUD_OPTIMIZED_GEOTIFF"]) then Cog
  else if bool_decide (u = "JSON") then FJson
  else if bool_decide (u = "PNG") then Png
  else if bool_decide (u ∈ ["NETCDF"; "NC"]) then NetCdf
  else GTiff.

Definition media_type (f : OutputFormat) : string :=
  match f with
  | GTiff | Cog | NetCdf => "image/tiff"
  | FJson => "application/json"
  | Png => "image/png"
  end.

(** ** Raster handles *)

Definition F32_INDEX_BANDS : list string := ["ndvi"; "ndmi"; "ndwi"; "evi"; "savi"; "msavi"].

(** The primary band: a canonical index band, else the first that is not SCL. *)
Definition pick_band {A} (bands : list (string * A)) : option string :=
  match List.find (λ k, bool_decide (is_Some (assoc_get k bands))) F32_INDEX_BANDS with
  | Some k => Some k
  | None => List.find (λ k, negb (bool_decide (k = "SCL"))) bands.*1
  end.

Definition extract_save_path (v : Value) : option string :=
  match jget "__raster" v with
  | Some raster => jget "path" raster ≫= as_str
  | None =>
      match jget "__cube" v with
      | Some cube =>
          bands ← jget "bands" cube ≫= as_object;
          pick_key ← pick_band bands;
          paths ← assoc_get pick_key bands ≫= as_array;
          head paths ≫= as_str
      | None => None
      end
  end.

(** ** The one-pixel PNG *)

(** One step of the CRC's inner loop, and the loop over a byte. *)
Definition crc_step (c : Z) : Z :=
  if negb (Z.land c 1 =? 0) then Z.lxor 0xEDB88320 (Z.shiftr c 1) else Z.shiftr c 1.
Definition crc_byte (crc b : Z) : Z :=
  let c := Z.land (Z.lxor crc b) 0xFF in
  Z.lxor (Z.shiftr crc 8) (Nat.iter 8 crc_step c).
Definition png_crc32 (buf : list Z) : Z :=
  Z.lxor (foldl crc_byte 0xFFFFFFFF buf) 0xFFFFFFFF.

Definition be32 (n : Z) : list Z :=
  [Z.land (Z.shiftr n 24) 255; Z.land (Z.shiftr n 16) 255; Z.land (Z.shiftr n 8) 255; Z.land n 255].
Definition le16 (n : Z) : list Z := [Z.land n 255; Z.land (Z.shiftr n 8) 255].

Definition write_png_chunk (out tag data : list Z) : list Z :=
  out ++ be32 (wrap 32 (Z.of_nat (length data))) ++ tag ++ data ++ be32 (png_crc32 (tag ++ data)).

Definition adler_step (ab : Z * Z) (x : Z) : Z * Z :=
  let a := (ab.1 + x) mod 65521 in (a, (ab.2 + a) mod 65521).

(** [pixel.clamp(0.0, 255.0) as u8] *)
Definition gray (pixel : f64) : Z :=
  match f64_clamp pixel f64_zero (f64_of_Z 255) with
  | S754_nan => 0
  | x => Z.max 0 (Z.min (f64_trunc_Z x) 255)
  end.

Definition png_of_gray (v : Z) : list Z :=
  let out := [0x89; 0x50; 0x4E; 0x47; 0x0D; 0x0A; 0x1A; 0x0A] in
  let ihdr := be32 1 ++ be32 1 ++ [8; 0; 0; 0; 0] in
  let out := write_png_chunk out (bytes_of "IHDR") ihdr in
  let raw := [0; v] in
  let len := Z.of_nat (length raw) in
  let ab := foldl adler_step (1, 0) raw in
  let idat := [0x78; 0x01] ++ [0x01] ++ le16 len ++ le16 (wrap 16 (Z.lnot len)) ++ raw ++
              be32 (Z.lor (Z.shiftl ab.2 16) ab.1) in
  let out := write_png_chunk out (bytes_of "IDAT") idat in
  write_png_chunk out (bytes_of "IEND") [].

Definition write_png_1x1 (pixel : f64) : list Z := png_of_gray (gray pixel).

(** ** Answers *)

Section answers.
Context {W : Type}.
Context (to_text : Value → string).
Context (read_file : string → W → result string (list Z)).
Context (tiff_1x1 : f64 → result ExecError (list Z)).
Context (raster_to_png_bytes : string → W → result ExecError (list Z)).

Definition finalise_save_result (value : Value) (w : W) : result ExecError SyncResult :=
  let '(data, format) :=
    match jget "__save_result" value with
    | Some env =>
        (default Null (jget "data" env),
         format_parse (default "GTiff" (jget "format" env ≫= as_str)))
    | None =>
        (value, match jget "__raster" value, value with
                | Some _, _ => GTiff
                | None, Number _ => GTiff
                | _, _ => FJson
                end)
    end in
  match format with
  | FJson => Ok (SyncResult_json to_text data)
  | Png =>
      match extract_save_path data with
      | Some path =>
          bytes ← raster_to_png_bytes path w; Ok (mkSyncResult "image/png" bytes)
      | None =>
          Ok (mkSyncResult "image/png" (write_png_1x1 (default f64_zero (as_f64 data))))
      end
  | GTiff | Cog | NetCdf =>
      match extract_save_path data with
      | Some path =>
          bytes ← map_err (λ e, ExecBackend ("save_result: read " +:+ path +:+ ": " +:+ e))
                    (read_file path w);
          Ok (mkSyncResult (media_type format) bytes)
      | None =>
          bytes ← tiff_1x1 (default f64_zero (as_f64 data));
          Ok (mkSyncResult (media_type format) bytes)
      end
  end.

Context `{Petgraph}.
Context (nodes_of_json : Value → result string (btree string Process)).
Context (hash_keys : gmap string (Handler W) → list string) (registry : ProcessRegistry W).

Definition run_sync (body : Value) (w : W) : option (result ExecError SyncResult * W) :=
  match parse_graph nodes_of_json body with
  | Err e => Some (Err e, w)
  | Ok graph =>
      match evaluate hash_keys registry graph w with
      | None => None
      | Some (Err e, w) => Some (Err e, w)
      | Some (Ok (result_proc, value), w) =>
          Some (if bool_decide (result_proc = "save_result") then finalise_save_result value w
                else Ok (SyncResult_json to_text value), w)
      end
  end.

(** [enqueue]: the graph is only parsed; [hash_text] is DefaultHasher on the text. *)
Definition geo_enqueue (hash_text : string → Z) (body : Value) : result ExecError string :=
  _ ← parse_graph nodes_of_json body; Ok ("job-" +:+ hex08 (hash_text (to_text body))).
End answers.

(** [write_float32_tiff_1x1] over the encoder of the tiff crate: its start, and
    the writing of a grey image of given width, height and pixels. *)
Definition write_float32_tiff_1x1 {E} (new_encoder : result string E)
    (write_image : E → Z → Z → list f32 → result string (list Z)) (pixel : f64) : result ExecError (list Z) :=
  encoder ← map_err (λ e, ExecBackend ("tiff: " +:+ e)) new_encoder;
  map_err (λ e, ExecBackend ("tiff write: " +:+ e)) (write_image encoder 1 1 [f32_of_f64 pixel]).

(** ** Reading a PNG back

    A reader of the PNG format for 8-bit grey images whose deflate stream is one
    stored block: the definition the writer is checked against. *)

(** The bit-serial CRC-32 of the PNG specification. *)
Definition crc_reference (buf : list Z) : Z :=
  Z.lxor (foldl (λ r b, Nat.iter 8 crc_step (Z.lxor r b)) 0xFFFFFFFF buf) 0xFFFFFFFF.

Definition of_be (l : list Z) : Z := foldl (λ n b, n * 256 + b) 0 l.

(** [n] bytes from the front. *)
Definition bytes (n : nat) (l : list Z) : option (list Z * list Z) :=
  if (n <=? length l)%nat then Some (take n l, drop n l) else None.

(** A chunk: its tag, its data and what follows, if its checksum is right. *)
Definition read_chunk (l : list Z) : option (list Z * list Z * list Z) :=
  '(len, l) ← bytes 4 l; '(tag, l) ← bytes 4 l; '(data, l) ← bytes (Z.to_nat (of_be len)) l;
  '(crc, l) ← bytes 4 l;
  if of_be crc =? crc_reference (tag ++ data) then Some (tag, data, l) else None.

(** A zlib stream of one stored block, with its Adler-32 checksum. *)
Definition inflate_stored (l : list Z) : option (list Z) :=
  '(hd, l) ← bytes 2 l; '(block, l) ← bytes 1 l; '(len, l) ← bytes 2 l; '(nlen, l) ← bytes 2 l;
  let n := of_be (rev len) in
  '(raw, adler) ← bytes (Z.to_nat n) l;
  let ab := foldl adler_step (1, 0) raw in
  if (of_be hd mod 31 =? 0) && (of_be block =? 1) && (of_be (rev nlen) =? 65535 - n) &&
     bool_decide (length adler = 4%nat) && (of_be adler =? ab.2 * 65536 + ab.1)
  then Some raw else None.

(** Width, height and scanlines, filter bytes included. *)
Definition read_gray_png (l : list Z) : option (Z * Z * list Z) :=
  '(sig, l) ← bytes 8 l; '(t1, ihdr, l) ← read_chunk l; '(t2, idat, l) ← read_chunk l;
  '(t3, iend, l) ← read_chunk l; '(w, ihdr) ← bytes 4 ihdr; '(h, ihdr) ← bytes 4 ihdr;
  raw ← inflate_stored idat;
  if bool_decide (sig = [137; 80; 78; 71; 13; 10; 26; 10] ∧ t1 = bytes_of "IHDR" ∧
       t2 = bytes_of "IDAT" ∧ t3 = bytes_of "IEND" ∧ iend = [] ∧ l = [] ∧ ihdr = [8; 0; 0; 0; 0])
  then Some (of_be w, of_be h, raw) else None.

Lemma crc_step_bit x : 0 ≤ x →
  crc_step x = if Z.testbit x 0 then Z.lxor 0xEDB88320 (Z.shiftr x 1) else Z.shiftr x 1.
Proof.
  intros Hx. unfold crc_step. change 1 with (Z.ones 1) at 1. rewrite Z.land_ones by lia.
  change (2 ^ 1) with 2. rewrite Zmod_odd, Z.bit0_odd. by destruct (Z.odd x).
Qed.

Lemma crc_step_nonneg x : 0 ≤ x → 0 ≤ crc_step x.
Proof.
  intros Hx. rewrite crc_step_bit by done. assert (0 ≤ Z.shiftr x 1) by by apply Z.shiftr_nonneg.
  destruct (Z.testbit x 0); [|done]. by apply Z.lxor_nonneg.
Qed.

Lemma crc_iter_nonneg n x : 0 ≤ x → 0 ≤ Nat.iter n crc_step x.
Proof. intros Hx. induction n as [|n IH]; [done|]. simpl. by apply crc_step_nonneg. Qed.

(** The step is linear over GF(2). *)
Lemma crc_step_lxor a b : 0 ≤ a → 0 ≤ b → crc_step (Z.lxor a b) = Z.lxor (crc_step a) (crc_step b).
Proof.
  intros Ha Hb. rewrite !crc_step_bit by (try done; by apply Z.lxor_nonneg).
  rewrite Z.lxor_spec, Z.shiftr_lxor. generalize 0xEDB88320 (Z.shiftr a 1) (Z.shiftr b 1).
  intros p x y. destruct (Z.testbit a 0), (Z.testbit b 0); cbn [xorb]; [| | |done];
    apply Z.bits_inj'; intros n Hn; rewrite !Z.lxor_spec;
    by destruct (Z.testbit p n), (Z.testbit x n), (Z.testbit y n).
Qed.

Lemma crc_iter_lxor n a b : 0 ≤ a → 0 ≤ b →
  Nat.iter n crc_step (Z.lxor a b) = Z.lxor (Nat.iter n crc_step a) (Nat.iter n crc_step b).
Proof.
  intros Ha Hb. induction n as [|n IH]; [done|]. simpl.
  by rewrite IH, crc_step_lxor by by apply crc_iter_nonneg.
Qed.

(** Zero bits are shifted out. *)
Lemma crc_iter_shift n y : 0 ≤ y → Nat.iter n crc_step (y * 2 ^ Z.of_nat n) = y.
Proof.
  intros Hy. revert y Hy. induction n as [|n IH]; intros y Hy; [simpl; lia|].
  rewrite Nat.iter_succ_r. rewrite crc_step_bit by (apply Z.mul_nonneg_nonneg; lia).
  rewrite Nat2Z.inj_succ, Z.pow_succ_r by lia.
  replace (y * (2 * 2 ^ Z.of_nat n)) with ((y * 2 ^ Z.of_nat n) * 2) by lia.
  rewrite Z.bit0_odd, Z.odd_mul, andb_false_r, Z.shiftr_div_pow2 by lia.
  change (2 ^ 1) with 2. rewrite Z.div_mul by lia. by apply IH.
Qed.

Lemma crc_byte_serial crc b : 0 ≤ crc → 0 ≤ b < 256 →
  crc_byte crc b = Nat.iter 8 crc_step (Z.lxor crc b).
Proof.
  intros Hc Hb. unfold crc_byte. set (v := Z.lxor crc b).
  assert (0 ≤ v) as Hv by (apply Z.lxor_nonneg; lia).
  assert (Z.shiftr v 8 = Z.shiftr crc 8) as <-.
  { unfold v. rewrite Z.shiftr_lxor, (Z.shiftr_div_pow2 b) by lia.
    rewrite (Z.div_small b) by done. apply Z.lxor_0_r. }
  assert (Z.lxor (Z.shiftr v 8 * 2 ^ 8) (Z.land v 0xFF) = v) as E.
  { change 0xFF with (Z.ones 8). rewrite Z.land_ones by lia.
    rewrite <- Z.add_nocarry_lxor.
    - rewrite Z.shiftr_div_pow2 by lia. pose proof (Z.div_mod v (2 ^ 8)). lia.
    - apply Z.bits_inj'. intros n Hn. rewrite Z.land_spec, Z.bits_0.
      destruct (Z.lt_ge_cases n 8) as [H|H].
      + by rewrite Z.mul_pow2_bits_low.
      + by rewrite Z.mod_pow2_bits_high, andb_false_r by lia. }
  rewrite <- E at 3. rewrite crc_iter_lxor.
  - by rewrite (crc_iter_shift 8) by by apply Z.shiftr_nonneg.
  - apply Z.mul_nonneg_nonneg; [by apply Z.shiftr_nonneg|done].
  - apply Z.land_nonneg. by right.
Qed.

Lemma png_crc32_reference buf : Forall (λ b, 0 ≤ b < 256) buf → png_crc32 buf = crc_reference buf.
Proof.
  intros Hb. unfold png_crc32, crc_reference. f_equal.
  assert (0 ≤ 0xFFFFFFFF) as H by done. revert H. generalize 0xFFFFFFFF.
  induction Hb as [|b buf Hb _ IH]; intros r Hr; [done|]. cbn [foldl].
  rewrite crc_byte_serial by done. apply IH, crc_iter_nonneg, Z.lxor_nonneg. lia.
Qed.

Lemma gray_range pixel : 0 ≤ gray pixel ≤ 255.
Proof. unfold gray. destruct (f64_clamp _ _ _); lia. Qed.

Lemma png_of_gray_reads v : 0 ≤ v ≤ 255 → read_gray_png (png_of_gray v) = Some (1, 1, [0; v]).
Proof.
  intros Hv.
  assert (∀ n, (n < 256)%nat → read_gray_png (png_of_gray (Z.of_nat n)) = Some (1, 1, [0; Z.of_nat n]))
    as Hall.
  { intros n Hn.
    assert (forallb (λ n, bool_decide (read_gray_png (png_of_gray (Z.of_nat n)) =
      Some (1, 1, [0; Z.of_nat n]))) (seq 0 256) = true) as H by (vm_compute; reflexivity).
    rewrite forallb_forall in H. apply (bool_decide_eq_true_1 _), H, in_seq. lia. }
  specialize (Hall (Z.to_nat v)). rewrite Z2Nat.id in Hall by lia. apply Hall. lia.
Qed.

(** ** Properties *)

(** C5: an analysed graph is evaluated by calling the handler of each node once,
    in the order of evaluation, on the node's arguments with every direct
    reference replaced by what the handler of its target put out; the answer is
    the result node's output with its process, after the last call's effects.
    The run stops at the first node whose process is not registered, with the
    suggestions for its name, or whose handler fails or panics; no other error
    occurs. *)
Theorem evaluate_calls_each_node_once `{PetgraphLaws} {W}
    (hash_keys : gmap string (Handler W) → list string) (registry : ProcessRegistry W)
    (pg : ProcessGraph) (a : ProcessGraphAnalysis) (Hwf : pg_wf pg) (Ha : build pg = Ok a) (w : W) :
  let dispatch := geo_dispatch hash_keys registry in
  ∃ order, evaluation_order a = Some order ∧ Permutation order (nodes pg).*1 ∧
  match evaluate hash_keys registry pg w with
  | Some (Ok (proc, v), w') => ∃ l, performed dispatch pg w l w' ∧ c_node <$> l = order ∧
      Forall (given pg (outputs l)) l ∧ outputs l !! result_id a = Some v ∧
      ∃ node, bt_get (result_id a) (nodes pg) = Some node ∧ proc = process_id node
  | r => ∃ l w1 id node rest, performed dispatch pg w l w1 ∧ (c_node <$> l) ++ id :: rest = order ∧
      Forall (given pg (outputs l)) l ∧ bt_get id (nodes pg) = Some node ∧
      closed_args (outputs l) (arguments node) ∧
      match registry_get (process_id node) registry with
      | None => r = Some (Err (unknown_process hash_keys registry (process_id node)), w1)
      | Some h => h (subst_args (outputs l) (arguments node)) w1 =
                  match r with Some (Err e, w') => Some (Err e, w') | _ => None end
      end
  end.
Proof.
  intros dispatch. destruct (evaluation_order_total pg a (proj1 Hwf) Ha) as (order & Ho & Hperm & _).
  exists order. split; [done|]. split; [done|].
  pose proof (evaluate_graph_spec dispatch pg a order w Hwf Ha Ho) as Hs.
  unfold evaluate. fold dispatch. destruct (evaluate_graph dispatch pg w) as [[[[proc v]|e] w']|];
    [done| |].
  all: destruct Hs as (l & w1 & id & node & rest & Hp & Hl & Hg & Hn & Hc & Hd);
    exists l, w1, id, node, rest; repeat (split; [done|]); revert Hd;
    unfold dispatch, geo_dispatch; destruct (registry_get _ registry); [done|congruence].
Qed.

Lemma evaluate_calls_each_node_once_witness :
  pg_wf demo_arith ∧ ∃ a order, build demo_arith = Ok a ∧ evaluation_order a = Some order ∧
    Permutation order ["a"; "b"].
Proof.
  split; [exact demo_arith_wf|].
  destruct (build demo_arith) as [a|e] eqn:Ha; [|vm_compute in Ha; discriminate].
  destruct (evaluate_calls_each_node_once (λ m, (map_to_list m).*1)
    (register_defaults (W := ()) (H := demo_libm) (λ _ _ _, None) ProcessRegistry_new)
    demo_arith a demo_arith_wf Ha ()) as (order & Ho & Hperm & _).
  exists a, order. split; [reflexivity|]. split; [exact Ho|exact Hperm].
Defined.

Example geo_demo :
  fst <$> evaluate (λ m, (map_to_list m).*1)
    (register_defaults (W := ()) (H := demo_libm) (λ _ _ _, None) ProcessRegistry_new)
    demo_arith () =
  Some (Ok ("divide", Number (Float (f64_div (f64_of_Z 7) (f64_of_Z 2))))).
Proof. vm_compute. reflexivity. Qed.

(** The hand-written PNG encoder is right for every pixel value: its CRC is
    the bit-serial CRC-32 on every byte sequence, and the bytes written for a
    pixel are a PNG file, with correct lengths and checksums, of one row whose
    only pixel is the value clamped to a byte. *)
Theorem png_1x1_valid :
  (∀ buf, Forall (λ b, 0 ≤ b < 256) buf → png_crc32 buf = crc_reference buf) ∧
  ∀ pixel, read_gray_png (write_png_1x1 pixel) = Some (1, 1, [0; gray pixel]) ∧
    0 ≤ gray pixel ≤ 255.
Proof.
  split; [apply png_crc32_reference|]. intros pixel. pose proof (gray_range pixel) as Hg.
  split; [by apply png_of_gray_reads|done].
Qed.
