(* ===== verification/Callback.v ===== *)
(** * Evaluating callbacks: memoised recursion over a node map

    The evaluators of apps/orbit-openeo/src/geo_executor for [apply] and
    [reduce_dimension] callbacks share one scheme: a recursive function on node
    ids with a memo table and a stack of the ids in progress, which turns a
    cycle into an error.  The body of a node is a computation that may ask for
    the values of other nodes; the scheme runs it.  This file holds the scheme,
    the reference semantics without memo and stack, and the theorem that relates
    them; the helpers of sub_graph.rs that every callback uses are here too. *)

From S2P Require Import Prelude Json Executor.

(** ** Computations that ask for the values of nodes *)

Section prog.
Context {E V : Type}.

Inductive Prog (A : Type) : Type :=
| Done (r : result E A)
| Ask (id : string) (k : V → Prog A).
End prog.
Arguments Prog : clear implicits.
Arguments Done {E V A} r.
Arguments Ask {E V A} id k.

Section prog_ops.
Context {E V : Type}.

Fixpoint prog_bind {A B} (f : A → Prog E V B) (p : Prog E V A) : Prog E V B :=
  match p with
  | Done (Ok a) => f a
  | Done (Err e) => Done (Err e)
  | Ask id k => Ask id (λ v, prog_bind f (k v))
  end.
End prog_ops.

#[export] Instance Prog_ret {E V} : MRet (Prog E V) := λ A a, Done (Ok a).
#[export] Instance Prog_bind {E V} : MBind (Prog E V) := λ A B f p, prog_bind f p.

(** The value of a node, an error, and the answer of a fallible call. *)
Definition ask {E V} (id : string) : Prog E V V := Ask id mret.
Definition fail {E V A} (e : E) : Prog E V A := Done (Err e).
Definition lift {E V A} (r : result E A) : Prog E V A := Done r.

(** ** The scheme *)

Section scheme.
Context {E V : Type} (body : string → Prog E V V) (cycle : string → E).

Record Frame := mkFrame { memo : gmap string V; in_progress : list string }.

(** The stack's top is its head. *)
Definition push (id : string) (s : Frame) : Frame := mkFrame (memo s) (id :: in_progress s).
Definition finish (id : string) (v : V) (s : Frame) : Frame :=
  mkFrame (<[id := v]> (memo s)) (tail (in_progress s)).

(** Run a computation, given the recursive function; [None] is out of fuel. *)
Fixpoint run {A} (rec : string → Frame → option (result E V * Frame)) (p : Prog E V A) (s : Frame)
    : option (result E A * Frame) :=
  match p with
  | Done r => Some (r, s)
  | Ask id k =>
      match rec id s with
      | None => None
      | Some (Err e, s) => Some (Err e, s)
      | Some (Ok v, s) => run rec (k v) s
      end
  end.

Fixpoint eval_node (fuel : nat) (id : string) (s : Frame) : option (result E V * Frame) :=
  match fuel with
  | O => None
  | S fuel =>
      match memo s !! id with
      | Some v => Some (Ok v, s)
      | None =>
          if bool_decide (id ∈ in_progress s) then Some (Err (cycle id), s)
          else
            match run (eval_node fuel) (body id) (push id s) with
            | Some (Ok v, s) => Some (Ok v, finish id v s)
            | r => r
            end
      end
  end.

Definition Frame_new : Frame := mkFrame ∅ [].

(** ** Reference semantics *)

(** [runs n p r]: the computation [p] answers [r], nodes being evaluated afresh
    whenever they are asked for, with [n] bounding the nesting. *)
Inductive runs : nat → Prog E V V → result E V → Prop :=
| runs_done r : runs 0 (Done r) r
| runs_ask id k v n m r :
    runs n (body id) (Ok v) → runs m (k v) r → runs (S n `max` m) (Ask id k) r
| runs_ask_err id k e n : runs n (body id) (Err e) → runs (S n) (Ask id k) (Err e).

Definition evaluates (id : string) (r : result E V) : Prop := ∃ n, runs n (body id) r.

(** The nodes a computation asks for. *)
Inductive asks : Prog E V V → string → Prop :=
| asks_here id k : asks (Ask id k) id
| asks_later id k v n b : runs n (body id) (Ok v) → asks (k v) b → asks (Ask id k) b.

Definition calls (a b : string) : Prop := asks (body a) b.

Lemma runs_fun n p r : runs n p r → ∀ n' r', runs n' p r' → n' = n ∧ r' = r.
Proof.
  induction 1 as [r|id k v n m r Hb IHb Hk IHk|id k e n Hb IHb]; intros n' r' H'.
  - by inversion H'.
  - inversion H' as [|? ? v' n1 m1 ? Hb' Hk'|? ? e' n1 Hb']; subst.
    + destruct (IHb _ _ Hb') as [-> [= ->]]. destruct (IHk _ _ Hk') as [-> ->]. done.
    + destruct (IHb _ _ Hb') as [_ [=]].
  - inversion H' as [|? ? v' n1 m1 ? Hb' Hk'|? ? e' n1 Hb']; subst.
    + destruct (IHb _ _ Hb') as [_ [=]].
    + destruct (IHb _ _ Hb') as [-> [= ->]]. done.
Qed.

Lemma evaluates_fun id r r' : evaluates id r → evaluates id r' → r' = r.
Proof. intros [n Hn] [m Hm]. by destruct (runs_fun _ _ _ Hn _ _ Hm). Qed.

(** A node asked for is evaluated at a smaller height. *)
Lemma asks_height p b : asks p b → ∀ n r, runs n p r →
  ∃ m rb, runs m (body b) rb ∧ (m < n)%nat.
Proof.
  induction 1 as [id k|id k v n0 b Hb _ IH]; intros n r H.
  - inversion H as [|? ? v n1 m1 ? Hb|? ? e n1 Hb]; subst; eexists _, _; (split; [exact Hb|lia]).
  - inversion H as [|? ? v' n1 m1 ? Hb' Hk'|? ? e' n1 Hb']; subst.
    + destruct (runs_fun _ _ _ Hb _ _ Hb') as [-> [= ->]].
      destruct (IH _ _ Hk') as (m & rb & Hm & Hlt). exists m, rb. split; [done|lia].
    + destruct (runs_fun _ _ _ Hb _ _ Hb') as [_ [=]].
Qed.

Lemma tc_calls_height a b : tc calls a b → ∀ n r, runs n (body a) r →
  ∃ m rb, runs m (body b) rb ∧ (m < n)%nat.
Proof.
  induction 1 as [a b H|a b c H _ IH]; intros n r Hn; [by eapply asks_height|].
  destruct (asks_height _ _ H _ _ Hn) as (m & rb & Hm & Hlt).
  destruct (IH _ _ Hm) as (m' & rc & Hm' & Hlt'). exists m', rc. split; [done|lia].
Qed.

(** A node that reaches a cycle has no value. *)
Lemma cycle_no_value a i r : rtc calls a i → tc calls i i → ¬ evaluates a r.
Proof.
  intros Hai Hii [n Hn]. assert (tc calls a i) as Hti.
  { inversion Hai; subst; [done|]. by eapply tc_rtc_l; [|exact Hii]. }
  destruct (tc_calls_height _ _ Hti _ _ Hn) as (m & ri & Hm & _).
  destruct (tc_calls_height _ _ Hii _ _ Hm) as (m' & ri' & Hm' & Hlt).
  destruct (runs_fun _ _ _ Hm _ _ Hm') as [-> _]. lia.
Qed.

(** ** What the scheme computes *)

Definition memo_ok (s : Frame) : Prop := ∀ i v, memo s !! i = Some v → evaluates i (Ok v).

(** Each id on the stack calls the one above it. *)
Fixpoint chain (id : string) (l : list string) : Prop :=
  match l with [] => True | a :: l' => calls a id ∧ chain a l' end.

Lemma chain_in id l a : chain id l → a ∈ l → tc calls a id.
Proof.
  revert id. induction l as [|b l IH]; intros id Hc; [by intros ?%not_elem_of_nil|].
  destruct Hc as [Hb Hc]. intros [->|Ha]%elem_of_cons; [by constructor|].
  eapply tc_r; [by apply IH|done].
Qed.

(** The answer [r] of a computation within [id0]'s evaluation is justified. *)
Definition justified (id0 : string) (p : Prog E V V) (r : result E V) : Prop :=
  (∃ n, runs n p r) ∨ ∃ i, r = Err (cycle i) ∧ rtc calls id0 i ∧ tc calls i i.

Definition sound (rec : string → Frame → option (result E V * Frame)) : Prop :=
  ∀ id s r s', memo_ok s → chain id (in_progress s) → rec id s = Some (r, s') →
    memo_ok s' ∧ (is_ok r = true → in_progress s' = in_progress s) ∧ justified id (body id) r.

Lemma run_sound rec id0 l p : sound rec → chain id0 l → (∀ b, asks p b → calls id0 b) →
  ∀ s r s', in_progress s = id0 :: l → memo_ok s → run rec p s = Some (r, s') →
  memo_ok s' ∧ (is_ok r = true → in_progress s' = id0 :: l) ∧ justified id0 p r.
Proof.
  intros Hrec Hl. induction p as [r0|id k IH]; intros Hasks s r s' Hs Hm Hr; simpl in Hr.
  - injection Hr as <- <-. repeat split; [done..|]. left. by exists 0%nat; constructor.
  - assert (calls id0 id) as Hcall by (apply Hasks; constructor).
    destruct (rec id s) as [[[v|e] s1]|] eqn:HE; [| |done].
    + apply Hrec in HE as (Hm1 & Hs1 & Hj); [|done|by rewrite Hs].
      destruct Hj as [[n Hn]|(i & ? & _)]; [|done].
      assert (∀ b, asks (k v) b → calls id0 b) as Hk
        by (intros b Hb; apply Hasks; by eapply asks_later).
      destruct (IH v Hk s1 r s') as (Hm' & Hs' & Hj'); [by rewrite Hs1|done|done|].
      repeat split; [done..|]. destruct Hj' as [[m Hm2]|Hj']; [left|by right].
      exists (S n `max` m)%nat. by econstructor.
    + injection Hr as <- <-. apply Hrec in HE as (Hm1 & _ & Hj); [|done|by rewrite Hs].
      repeat split; [done..|]. destruct Hj as [[n Hn]|(i & He & Hi & Hc)].
      * left. exists (S n). by constructor.
      * right. exists i. split; [done|]. split; [|done]. by eapply rtc_l.
Qed.

Lemma eval_node_sound fuel : sound (eval_node fuel).
Proof.
  induction fuel as [|fuel IH]; intros id s r s' Hm Hc Hr; [done|]. simpl in Hr.
  destruct (memo s !! id) as [v|] eqn:Hv.
  { injection Hr as <- <-. repeat split; [done..|]. left. by apply Hm. }
  case_bool_decide as Hin.
  { injection Hr as <- <-. repeat split; [done..|]. right. exists id.
    split; [done|]. split; [done|]. by eapply chain_in. }
  destruct (run _ _ _) as [[r1 s1]|] eqn:HE; [|done].
  apply (run_sound _ id (in_progress s)) in HE as (Hm1 & Hs1 & Hj); [|done..].
  destruct r1 as [v|e]; injection Hr as <- <-; [|by repeat split].
  split; [|split; [|done]].
  - intros i u. simpl. destruct (decide (i = id)) as [->|Hne].
    + rewrite lookup_insert_eq. intros [= ->]. destruct Hj as [[n Hn]|(i & ? & _)]; [by exists n|done].
    + rewrite lookup_insert_ne by done. apply Hm1.
  - intros _. simpl. by rewrite Hs1.
Qed.

(** ** Termination *)

Context (dom : list string).
(** Outside [dom] a node is an error, or a value, at once. *)
Hypothesis body_outside : ∀ id, id ∉ dom → ∃ r, body id = Done r.

Lemma eval_node_stack fuel : ∀ id s v s',
  eval_node fuel id s = Some (Ok v, s') → in_progress s' = in_progress s.
Proof.
  induction fuel as [|fuel IH]; intros id s v s' Hr; [done|]. simpl in Hr.
  destruct (memo s !! id) as [u|]; [by injection Hr as _ <-|].
  case_bool_decide; [done|].
  assert (∀ (p : Prog E V V) s v s', run (eval_node fuel) p s = Some (Ok v, s') →
    in_progress s' = in_progress s) as Hrun.
  { induction p as [r|id' k IHp]; intros s0 v0 s1 H0; simpl in H0; [by injection H0 as _ <-|].
    destruct (eval_node fuel id' s0) as [[[u|e] s2]|] eqn:HE; [| |done]; [|by injection H0].
    apply IHp in H0. rewrite H0. by eapply IH. }
  destruct (run _ _ _) as [[[u|e] s1]|] eqn:HE; [| |done]; [|by injection Hr].
  injection Hr as _ <-. simpl. by rewrite (Hrun _ _ _ _ HE).
Qed.

Lemma eval_node_total fuel : ∀ id s,
  NoDup (in_progress s) → (∀ i, i ∈ in_progress s → i ∈ dom) →
  (length dom + 2 ≤ fuel + length (in_progress s))%nat → is_Some (eval_node fuel id s).
Proof.
  induction fuel as [|fuel IH]; intros id s Hnd Hin Hf.
  { assert (length (in_progress s) ≤ length dom)%nat; [|lia].
    apply submseteq_length, NoDup_submseteq; [done|]. by intros i; apply Hin. }
  simpl. destruct (memo s !! id) as [u|]; [done|]. case_bool_decide as Hstack; [done|].
  destruct (decide (id ∈ dom)) as [Hid|Hid].
  2: { destruct (body_outside id Hid) as [[v|e] ->]; simpl; by eexists. }
  assert (∀ (p : Prog E V V) s1, in_progress s1 = id :: in_progress s →
    is_Some (run (eval_node fuel) p s1)) as Hrun.
  { induction p as [r|id' k IHp]; intros s1 Hs1; simpl; [done|].
    destruct (IH id' s1) as [[[v|e] s2] HE].
    - rewrite Hs1. by constructor.
    - rewrite Hs1. intros i [->|Hi]%elem_of_cons; [done|by apply Hin].
    - rewrite Hs1. simpl. lia.
    - rewrite HE. apply IHp. apply eval_node_stack in HE. by rewrite HE.
    - rewrite HE. done. }
  destruct (Hrun (body id) (push id s) eq_refl) as [[[v|e] s1] ->]; done.
Qed.

(** The scheme answers, with a fuel of two more than the number of nodes: what
    the reference semantics gives the node, or the cycle error, and then the
    node reaches a cycle and has no value. *)
Lemma eval_node_spec id :
  ∃ r s, eval_node (length dom + 2) id Frame_new = Some (r, s) ∧
    (evaluates id r ∨
     (∀ r', ¬ evaluates id r') ∧ ∃ i, r = Err (cycle i) ∧ rtc calls id i ∧ tc calls i i).
Proof.
  destruct (eval_node_total (length dom + 2) id Frame_new) as [[r s] HE];
    [constructor|by intros i ?%not_elem_of_nil|simpl; lia|].
  exists r, s. split; [done|].
  apply eval_node_sound in HE as (_ & _ & [?|(i & -> & Hi & Hc)]); [by left| |by intros ? ? ?|done].
  right. split; [intros r'; by apply cycle_no_value with i|]. by exists i.
Qed.
End scheme.

(** ** Two evaluations in step *)

Section simulation.
Context {E V : Type} (tolerated : E → Prop).

(** Where the first computation goes through, the second asks for the same
    nodes, and answers or fails with a tolerated error. *)
Inductive sim {A} (R : A → A → Prop) : Prog E V A → Prog E V A → Prop :=
| sim_failed e p : sim R (Done (Err e)) p
| sim_ok a b : R a b → sim R (Done (Ok a)) (Done (Ok b))
| sim_tolerated p e : tolerated e → sim R p (Done (Err e))
| sim_ask id k1 k2 : (∀ v1 v2, sim R (k1 v1) (k2 v2)) → sim R (Ask id k1) (Ask id k2).

Lemma sim_bind {A B} (R : A → A → Prop) (S : B → B → Prop) f g p q :
  sim R p q → (∀ a b, R a b → sim S (f a) (g b)) → sim S (p ≫= f) (q ≫= g).
Proof.
  intros Hs Hf. unfold mbind, Prog_bind. induction Hs as [e p|a b Hab|p e He|id k1 k2 _ IH]; simpl.
  - constructor.
  - by apply Hf.
  - by apply sim_tolerated.
  - constructor. intros v1 v2. apply IH.
Qed.

Context (body1 body2 : string → Prog E V V).
Hypothesis bodies : ∀ id, sim (λ _ _, True) (body1 id) (body2 id).

Lemma sim_runs n p v : runs body1 n p (Ok v) → ∀ q, sim (λ _ _, True) p q →
  ∃ m r, runs body2 m q r ∧ match r with Ok _ => True | Err e => tolerated e end.
Proof.
  remember (Ok v) as r eqn:Hr. intros H. revert v Hr.
  induction H as [r|id k u n m r Hb IHb Hk IHk|id k e n Hb IHb]; intros v Hr q Hs; subst.
  - inversion Hs; subst; eexists _, _; (split; [constructor|done]).
  - inversion Hs as [| |? e He|? ? k2 Hk2]; subst; [eexists _, _; (split; [constructor|done])|].
    destruct (IHb u eq_refl (body2 id) (bodies id)) as (n2 & [u2|e2] & Hn2 & Ht).
    + destruct (IHk v eq_refl (k2 u2) (Hk2 u u2)) as (m2 & r2 & Hm2 & Ht2).
      eexists _, _. split; [by econstructor|done].
    + eexists _, _. split; [by constructor|done].
  - done.
Qed.
End simulation.

(** ** What every answer of a computation satisfies *)

Section leaves.
Context {E V : Type} (bad : E → Prop).

(** All answers are values in [Q] or errors in [bad], whatever the nodes asked for give. *)
Fixpoint leaves {A} (Q : A → Prop) (p : Prog E V A) : Prop :=
  match p with
  | Done (Ok a) => Q a
  | Done (Err e) => bad e
  | Ask _ k => ∀ v, leaves Q (k v)
  end.

Lemma leaves_bind {A B} (Q : A → Prop) (R : B → Prop) (f : A → Prog E V B) p :
  leaves Q p → (∀ a, Q a → leaves R (f a)) → leaves R (p ≫= f).
Proof.
  intros Hp Hf. unfold mbind, Prog_bind. induction p as [[a|e]|id k IH]; simpl in *; [by apply Hf|done|].
  intros v. by apply IH.
Qed.

Lemma leaves_weaken {A} (Q R : A → Prop) (p : Prog E V A) :
  leaves Q p → (∀ a, Q a → R a) → leaves R p.
Proof.
  intros Hp HQ. induction p as [[a|e]|id k IH]; simpl in *; [by apply HQ|done|].
  intros v. by apply IH.
Qed.

Lemma leaves_runs (Q : V → Prop) (body : string → Prog E V V) :
  (∀ id, leaves Q (body id)) → ∀ n p r, runs body n p r → leaves Q p →
  match r with Ok v => Q v | Err e => bad e end.
Proof.
  intros Hb. induction 1 as [r|id k v n m r H IH Hk IHk|id k e n H IH]; intros Hp; simpl in *.
  - by destruct r.
  - by apply IHk.
  - by apply IH.
Qed.

Lemma leaves_evaluates (Q : V → Prop) (body : string → Prog E V V) id r :
  (∀ id, leaves Q (body id)) → evaluates body id r →
  match r with Ok v => Q v | Err e => bad e end.
Proof. intros Hb [n Hn]. by eapply leaves_runs. Qed.
End leaves.

(** ** The helpers of sub_graph.rs *)

Definition require_subgraph (value : Value) (field_name : string)
    : result ExecError (list (string * Value)) :=
  pg ← ok_or (jget "process_graph" value ≫= as_object)
    (InvalidGraph (field_name +:+ ": must be a Process with `process_graph` sub-callback"));
  match pg with
  | [] => Err (InvalidGraph (field_name +:+ ": process_graph is empty"))
  | _ => Ok pg
  end.

Definition is_result_node (node : Value) : bool := default false (jget "result" node ≫= as_bool).

(** The loop, with the node found so far. *)
Fixpoint find_result (field_name : string) (graph : list (string * Value))
    (found : option (string * Value)) : result ExecError (option (string * Value)) :=
  match graph with
  | [] => Ok found
  | (id, node) :: graph' =>
      if is_result_node node then
        match found with
        | Some _ =>
            Err (InvalidGraph (field_name +:+ ": process_graph has multiple result nodes"))
        | None => find_result field_name graph' (Some (id, node))
        end
      else find_result field_name graph' found
  end.

Definition find_unique_result_node (graph : list (string * Value)) (field_name : string)
    : result ExecError (string * Value) :=
  found ← find_result field_name graph None;
  ok_or found (InvalidGraph (field_name +:+ ": process_graph has no `result: true` node")).

Definition result_process_id (node : Value) (field_name : string) : result ExecError string :=
  ok_or (jget "process_id" node ≫= as_str)
    (InvalidGraph (field_name +:+ ": result node has no `process_id`")).

(** The result node is found exactly when one node is marked. *)
Lemma find_unique_result_node_spec graph field_name :
  let marked := filter (λ e, is_result_node e.2 = true) graph in
  match find_unique_result_node graph field_name with
  | Ok e => marked = [e]
  | Err _ => length marked ≠ 1%nat
  end.
Proof.
  intros marked. unfold find_unique_result_node.
  assert (∀ found, match find_result field_name graph found with
    | Ok (Some e) => option_list found ++ marked = [e]
    | Ok None => found = None ∧ marked = []
    | Err _ => (2 ≤ length (option_list found ++ marked))%nat
    end) as H.
  { unfold marked. clear marked. induction graph as [|[id node] graph IH]; intros found; simpl.
    - by destruct found.
    - rewrite filter_cons. simpl. destruct (is_result_node node) eqn:E.
      + rewrite decide_True by done. destruct found as [e|]; [simpl; lia|].
        specialize (IH (Some (id, node))). destruct (find_result _ graph _) as [[e|]|]; simpl in *;
          [done|by destruct IH|done].
      + rewrite decide_False by done. apply IH. }
  specialize (H None). destruct (find_result field_name graph None) as [[e|]|e]; simpl in *.
  - done.
  - destruct H as [_ ->]. done.
  - lia.
Qed.
