(* ===== verification/Apply.v ===== *)
(** * The [apply] process: apps/orbit-openeo/src/geo_executor/eval_apply.rs

    The callback of [apply] is evaluated once per pixel: a recursive evaluation
    of its node map, with the pixel's value for every parameter.  The process of
    each node is a numeric kernel.  [clamp] panics on bounds that are not in
    order, so an evaluation can panic. *)

From Stdlib Require Import Floats.SpecFloat.
From S2P Require Import Prelude Text BTree F64 Json Executor Registry Callback.
Local Open Scope Z_scope.

(** ** Arguments *)

Inductive Fault := Error (e : ExecError) | Panic.
Definition invalid (m : string) : Fault := Error (InvalidGraph m).
Definition per_pixel (m : string) : Fault := Error (PerPixelComputation m).

Inductive ArgVal := Num (n : f64) | Arr (l : list f64).

Definition as_num (who : string) (a : ArgVal) : result Fault f64 :=
  match a with
  | Num n => Ok n
  | Arr _ => Err (invalid ("apply: `" +:+ who +:+ "` expected scalar, got array"))
  end.
Definition as_pair (who : string) (a : ArgVal) : result Fault (f64 * f64) :=
  match a with
  | Arr [x; y] => Ok (x, y)
  | _ => Err (invalid ("apply: `" +:+ who +:+ "` expected 2-element array"))
  end.

(** ** The kernel *)

Definition f64_of_bool (b : bool) : f64 := if b then f64_one else f64_zero.
Definition f64_1e9inv : f64 := Eval vm_compute in f64_div f64_one (f64_of_Z (10 ^ 9)).
Definition f64_1e12inv : f64 := Eval vm_compute in f64_div f64_one (f64_of_Z (10 ^ 12)).

(** [p as i32] *)
Definition f64_to_i32 (x : f64) : Z :=
  match x with
  | S754_infinity s => if s then - 2 ^ 31 else 2 ^ 31 - 1
  | S754_nan => 0
  | _ => Z.max (- 2 ^ 31) (Z.min (f64_trunc_Z x) (2 ^ 31 - 1))
  end.

Section kernel.
Context `{Libm}.
Context (args : gmap string ArgVal).

Definition two (who : string) : result Fault (f64 * f64) :=
  match args !! "x", args !! "y" with
  | Some x, Some y => x ← as_num "x" x; y ← as_num "y" y; Ok (x, y)
  | _, _ =>
      match args !! "data" with
      | Some d => as_pair who d
      | None => Err (invalid ("apply: `" +:+ who +:+ "` needs `x`+`y` or `data: [a, b]`"))
      end
  end.
Definition one (who : string) : result Fault f64 :=
  match args !! "x" with
  | Some x => as_num "x" x
  | None =>
      match args !! "data" with
      | Some d => as_num "data" d
      | None => Err (invalid ("apply: `" +:+ who +:+ "` needs `x` or `data`"))
      end
  end.

(** [args.get(k)], or [args.get(alt)], or the error; then [as_num(k)]. *)
Definition named (k alt missing : string) : result Fault f64 :=
  a ← ok_or (match args !! k with Some a => Some a | None => args !! alt end)
    (invalid ("apply: " +:+ missing));
  as_num k a.
Definition opt_num (k : string) (d : f64) : result Fault f64 :=
  match args !! k with Some a => as_num k a | None => Ok d end.

Definition unary (who : string) (f : f64 → f64) : result Fault f64 := x ← one who; Ok (f x).
Definition binary (who : string) (f : f64 → f64 → f64) : result Fault f64 :=
  '(x, y) ← two who; Ok (f x y).
Definition compare (who : string) (f : f64 → f64 → bool) : result Fault f64 :=
  binary who (λ x y, f64_of_bool (f x y)).

Definition near (x y : f64) : bool := f64_ltb (f64_abs (f64_sub x y)) f64_1e9inv.
Definition truthy (x : f64) : bool := negb (f64_eqb x f64_zero).

Definition op_divide : result Fault f64 :=
  '(x, y) ← two "divide";
  if f64_eqb y f64_zero then Err (per_pixel "apply: divide by zero") else Ok (f64_div x y).
Definition op_power : result Fault f64 :=
  base ← named "base" "x" "`power` needs `base` or `x`";
  p ← named "p" "y" "`power` needs `p` or `y`";
  Ok (f64_powf base p).
Definition op_log : result Fault f64 :=
  x ← named "x" "data" "`log` needs `x` or `data`";
  base ← named "base" "y" "`log` needs `base` or `y`";
  Ok (f64_log x base).
Definition op_clip : result Fault f64 :=
  x ← named "x" "data" "`clip` needs `x` or `data`";
  lo ← named "min" "min" "`clip` needs `min`";
  hi ← named "max" "max" "`clip` needs `max`";
  ok_or (f64_clamp_checked x lo hi) Panic.
Definition op_linear_scale_range : result Fault f64 :=
  x ← named "x" "data" "`linear_scale_range` needs `x` or `data`";
  in_min ← named "inputMin" "inputMin" "`linear_scale_range` needs `inputMin`";
  in_max ← named "inputMax" "inputMax" "`linear_scale_range` needs `inputMax`";
  out_min ← opt_num "outputMin" f64_zero;
  out_max ← opt_num "outputMax" f64_one;
  if f64_ltb (f64_abs (f64_sub in_max in_min)) f64_1e12inv
  then Err (invalid "apply: linear_scale_range: inputMin == inputMax")
  else Ok (f64_add (f64_div (f64_mul (f64_sub x in_min) (f64_sub out_max out_min))
                      (f64_sub in_max in_min)) out_min).
Definition op_round : result Fault f64 :=
  x ← one "round";
  let p := match args !! "p" with Some (Num p) => p | _ => f64_zero end in
  let factor := f64_powi (f64_of_Z 10) (f64_to_i32 p) in
  Ok (f64_div (f64_round_ties_even (f64_mul x factor)) factor).
Definition op_normalized_difference : result Fault f64 :=
  '(x, y) ← two "normalized_difference";
  let denom := f64_add x y in
  if f64_eqb denom f64_zero then Err (per_pixel "apply: normalized_difference x + y == 0")
  else Ok (f64_div (f64_sub x y) denom).
Definition op_between : result Fault f64 :=
  x ← named "x" "data" "`between` needs `x`";
  lo ← named "min" "min" "`between` needs `min`";
  hi ← named "max" "max" "`between` needs `max`";
  Ok (f64_of_bool (f64_leb lo x && f64_leb x hi)).
Definition op_arctan2 : result Fault f64 :=
  match args !! "y", args !! "x" with
  | Some y, Some x => y ← as_num "y" y; x ← as_num "x" x; Ok (f64_atan2 y x)
  | _, _ => '(y, x) ← two "arctan2"; Ok (f64_atan2 y x)
  end.

(** The arms of the [match], in order. *)
Definition kernel_ops : list (string * result Fault f64) := [
  ("add", binary "add" f64_add);
  ("subtract", binary "subtract" f64_sub);
  ("multiply", binary "multiply" f64_mul);
  ("divide", op_divide);
  ("power", op_power);
  ("absolute", unary "absolute" f64_abs);
  ("abs", unary "absolute" f64_abs);
  ("ln", unary "ln" f64_ln);
  ("log", op_log);
  ("exp", unary "exp" f64_exp);
  ("eq", compare "eq" near);
  ("neq", compare "neq" (λ x y, f64_leb f64_1e9inv (f64_abs (f64_sub x y))));
  ("lt", compare "lt" f64_ltb);
  ("lte", compare "lte" f64_leb);
  ("gt", compare "gt" (λ x y, f64_ltb y x));
  ("gte", compare "gte" (λ x y, f64_leb y x));
  ("and", compare "and" (λ x y, truthy x && truthy y));
  ("or", compare "or" (λ x y, truthy x || truthy y));
  ("not", unary "not" (λ x, f64_of_bool (f64_eqb x f64_zero)));
  ("max", binary "max" f64_max);
  ("min", binary "min" f64_min);
  ("clip", op_clip);
  ("linear_scale_range", op_linear_scale_range);
  ("mod", binary "mod" mod_f64);
  ("sgn", unary "sgn" f64_signum);
  ("sign", unary "sgn" f64_signum);
  ("floor", unary "floor" f64_floor);
  ("ceil", unary "ceil" f64_ceil);
  ("int", unary "int" f64_trunc);
  ("round", op_round);
  ("sqrt", unary "sqrt" f64_sqrt);
  ("normalized_difference", op_normalized_difference);
  ("between", op_between);
  ("cos", unary "cos" f64_cos);
  ("sin", unary "sin" f64_sin);
  ("tan", unary "tan" f64_tan);
  ("arccos", unary "arccos" f64_acos);
  ("arcsin", unary "arcsin" f64_asin);
  ("arctan", unary "arctan" f64_atan);
  ("arctan2", op_arctan2)].

Definition apply_pure_numeric_op (process_id : string) : result Fault f64 :=
  match assoc_get process_id kernel_ops with
  | Some r => r
  | None => Err (invalid ("apply: unsupported sub-process `" +:+ process_id +:+ "`"))
  end.
End kernel.

(** ** Evaluating a callback *)

Section callback.
Context `{Libm} (to_text : Value → string).   (* serde_json's printer *)
Context (pg : list (string * Value)).

Fixpoint resolve_arg_value (x : f64) (v : Value) : Prog Fault f64 ArgVal :=
  match v with
  | Number _ => mret (Num (default f64_zero (as_f64 v)))
  | Object obj =>
      match assoc_get "from_parameter" obj ≫= as_str with
      | Some _ => mret (Num x)
      | None =>
          match assoc_get "from_node" obj with
          | Some (JString target) => val ← ask target; mret (Num val)
          | _ => fail (invalid ("apply: unsupported argument shape: " +:+ to_text v))
          end
      end
  | Array arr =>
      out ← (fix go (arr : list Value) : Prog Fault f64 (list f64) :=
               match arr with
               | [] => mret []
               | elem :: arr' =>
                   r ← resolve_arg_value x elem;
                   match r with
                   | Num n => rest ← go arr'; mret (n :: rest)
                   | Arr _ =>
                       fail (invalid "apply: nested arrays not supported in sub-graph arguments")
                   end
               end) arr;
      mret (Arr out)
  | Null => fail (invalid "apply: null argument value")
  | _ => fail (invalid ("apply: unsupported argument value: " +:+ to_text v))
  end.

Fixpoint resolve_arguments (x : f64) (args_obj : list (string * Value))
    (resolved : gmap string ArgVal) : Prog Fault f64 (gmap string ArgVal) :=
  match args_obj with
  | [] => mret resolved
  | (k, v) :: args_obj' =>
      r ← resolve_arg_value x v; resolve_arguments x args_obj' (<[k := r]> resolved)
  end.

(** The part of [eval_node_inline] between the two stack operations. *)
Definition node_body (x : f64) (id : string) : Prog Fault f64 f64 :=
  node ← lift (ok_or (assoc_get id pg)
    (invalid ("apply: unknown node reference `" +:+ id +:+ "`")));
  pid ← lift (ok_or (jget "process_id" node ≫= as_str)
    (invalid ("apply: node `" +:+ id +:+ "` has no process_id")));
  args_obj ← lift (ok_or (jget "arguments" node ≫= as_object)
    (invalid ("apply: node `" +:+ id +:+ "` has no arguments object")));
  resolved ← resolve_arguments x args_obj ∅;
  lift (apply_pure_numeric_op resolved pid).

Definition cycle_error (id : string) : Fault :=
  invalid ("apply: cycle detected at node `" +:+ id +:+ "`").

(** [None] is out of fuel, which [apply_callback_semantics] excludes. *)
Definition eval_node_inline (x : f64) (id : string) : option (result Fault f64) :=
  match eval_node (node_body x) cycle_error (length pg + 2) id Frame_new with
  | Some (r, _) => Some r
  | None => None
  end.
End callback.

Definition eval_apply_subgraph `{Libm} (to_text : Value → string) (sub_pg : Value) (x : f64)
    : option (result Fault f64) :=
  match as_object sub_pg with
  | None => Some (Err (invalid "apply: process_graph must be an object"))
  | Some [] => Some (Err (invalid "apply: process_graph is empty"))
  | Some pg =>
      match find_unique_result_node pg "apply" with
      | Err e => Some (Err (Error e))
      | Ok (result_id, _) => eval_node_inline to_text pg x result_id
      end
  end.

(** ** The worker *)

Definition SENTINEL_NDVI_NA : f32 := Eval vm_compute in f32_of_Z (-9999).

Section worker.
Context `{Libm} (to_text : Value → string) (sub_pg : Value) (w_scale w_offset : f64).

(** One pixel; [None] is a panic. *)
Definition apply_pixel (v : f32) : option f32 :=
  if negb (is_finite v) || f64_eqb v SENTINEL_NDVI_NA then Some SENTINEL_NDVI_NA
  else
    let scaled := f64_add (f64_mul (f64_of_f32 v) w_scale) w_offset in
    match eval_apply_subgraph to_text sub_pg scaled with
    | Some (Ok n) => Some (if is_finite n then f32_of_f64 n else SENTINEL_NDVI_NA)
    | Some (Err (Error _)) => Some SENTINEL_NDVI_NA
    | Some (Err Panic) | None => None
    end.

(** A block of one layer, row by row. *)
Definition apply_worker (block : list (list f32)) : option (list (list f32)) :=
  mapM (mapM apply_pixel) block.
End worker.

(** [1.0 / x]: the smoke test at [x = 0.0] fails with a per-pixel error, so the
    whole [apply] is refused although other pixels would have a value. *)
Definition demo_one_over_x : Value := Object [
  ("d", Object [("process_id", JString "divide");
    ("arguments", Object [("x", Number (PosInt 1)); ("y", Object [("from_parameter", JString "x")])]);
    ("result", Bool true)])].
(** [clip(0.5, x, 0.5)]: right at [x = 0], a panic at [x = 1]. *)
Definition demo_clip_x : Value := Object [
  ("c", Object [("process_id", JString "clip");
    ("arguments", Object [("x", Number (PosInt 0)); ("min", Object [("from_parameter", JString "x")]);
       ("max", Number (PosInt 0))]);
    ("result", Bool true)])].
Definition demo_square_plus : Value := Object [
  ("s", Object [("process_id", JString "multiply");
    ("arguments", Object [("data", Array [Object [("from_parameter", JString "x")];
                                          Object [("from_parameter", JString "v")]])])]);
  ("a", Object [("process_id", JString "add");
    ("arguments", Object [("x", Object [("from_node", JString "s")]);
                          ("y", Object [("from_node", JString "s")])]);
    ("result", Bool true)])].
Definition demo_text (v : Value) : string := "".

Example smoke_rejects_one_over_x :
  eval_apply_subgraph (H := demo_libm) demo_text demo_one_over_x f64_zero =
    Some (Err (per_pixel "apply: divide by zero")) ∧
  eval_apply_subgraph (H := demo_libm) demo_text demo_one_over_x (f64_of_Z 2) =
    Some (Ok (f64_div f64_one (f64_of_Z 2))).
Proof. split; vm_compute; reflexivity. Qed.

Example clip_panics_at_a_pixel :
  eval_apply_subgraph (H := demo_libm) demo_text demo_clip_x f64_zero = Some (Ok f64_zero) ∧
  eval_apply_subgraph (H := demo_libm) demo_text demo_clip_x f64_one = Some (Err Panic).
Proof. split; vm_compute; reflexivity. Qed.

Example square_plus :
  eval_apply_subgraph (H := demo_libm) demo_text demo_square_plus (f64_of_Z 3) =
    Some (Ok (f64_of_Z 18)).
Proof. vm_compute. reflexivity. Qed.

(** ** Two pixels in step *)

Definition tolerated (e : Fault) : Prop := ∃ m, e = per_pixel m.

(** The second of two fallible calls goes as far as the first. *)
Definition rsim {A} (R : A → A → Prop) (r1 r2 : result Fault A) : Prop :=
  match r1, r2 with
  | Err _, _ => True
  | Ok a, Ok b => R a b
  | Ok _, Err e => tolerated e
  end.

Lemma rsim_bind {A B} (R : A → A → Prop) (S : B → B → Prop) r1 r2 f g :
  rsim R r1 r2 → (∀ a b, R a b → rsim S (f a) (g b)) → rsim S (r1 ≫= f) (r2 ≫= g).
Proof.
  destruct r1 as [a|e], r2 as [b|e']; simpl; try done; [by auto|].
  intros He _. destruct (f a); done.
Qed.

Lemma rsim_eq {A} (R : A → A → Prop) (r : result Fault A) : (∀ a, R a a) → rsim R r r.
Proof. intros HR. destruct r; simpl; done. Qed.

Definition shape (a b : ArgVal) : Prop :=
  match a, b with
  | Num _, Num _ => True
  | Arr l, Arr k => length l = length k
  | _, _ => False
  end.
Definition same_shape (m1 m2 : gmap string ArgVal) : Prop :=
  ∀ k, option_Forall2 shape (m1 !! k) (m2 !! k).

Lemma same_shape_insert k a b m1 m2 :
  shape a b → same_shape m1 m2 → same_shape (<[k := a]> m1) (<[k := b]> m2).
Proof.
  intros Hab Hm k'. destruct (decide (k' = k)) as [->|Hne].
  - rewrite !lookup_insert_eq. by constructor.
  - rewrite !lookup_insert_ne by done. apply Hm.
Qed.

Section kernel_sim.
Context `{Libm} (m1 m2 : gmap string ArgVal) (Hm : same_shape m1 m2).

Lemma as_num_sim who a b : shape a b → rsim (λ _ _, True) (as_num who a) (as_num who b).
Proof. by destruct a, b. Qed.

Lemma as_pair_sim who a b : shape a b → rsim (λ _ _, True) (as_pair who a) (as_pair who b).
Proof.
  destruct a as [|l], b as [|k]; try done. simpl. intros Hl.
  destruct l as [|x [|y [|z l]]], k as [|x' [|y' [|z' k]]]; done.
Qed.

Lemma two_sim who : rsim (λ _ _, True) (two m1 who) (two m2 who).
Proof.
  unfold two. pose proof (Hm "x") as Hx. pose proof (Hm "y") as Hy. pose proof (Hm "data") as Hd.
  assert (rsim (λ _ _, True)
    match m1 !! "data" with Some d => as_pair who d
      | None => Err (invalid ("apply: `" +:+ who +:+ "` needs `x`+`y` or `data: [a, b]`")) end
    match m2 !! "data" with Some d => as_pair who d
      | None => Err (invalid ("apply: `" +:+ who +:+ "` needs `x`+`y` or `data: [a, b]`")) end) as Hdata.
  { destruct Hd as [a b Hab|]; [by apply as_pair_sim|done]. }
  destruct Hx as [xa xb Hx|]; [|done]. destruct Hy as [ya yb Hy|]; [|done].
  eapply rsim_bind; [by apply as_num_sim|]. intros ? ? _.
  eapply rsim_bind; [by apply as_num_sim|]. done.
Qed.

Lemma one_sim who : rsim (λ _ _, True) (one m1 who) (one m2 who).
Proof.
  unfold one. destruct (Hm "x") as [a b Hab|]; [by apply as_num_sim|].
  destruct (Hm "data") as [a b Hab|]; [by apply as_num_sim|done].
Qed.

Lemma named_sim k alt missing : rsim (λ _ _, True) (named m1 k alt missing) (named m2 k alt missing).
Proof.
  unfold named. destruct (Hm k) as [a b Hab|]; simpl; [by apply as_num_sim|].
  destruct (Hm alt) as [a b Hab|]; simpl; [by apply as_num_sim|done].
Qed.

(** The processes whose outcome depends on more than the shape of the arguments. *)
Definition data_dependent : list string := ["clip"; "linear_scale_range"].

Ltac op_sim :=
  repeat first
    [ done
    | eapply rsim_bind; [first [apply two_sim | apply one_sim | apply named_sim
                               | by apply as_num_sim]|];
      first [intros [? ?] [? ?] _ | intros ? ? _]
    | match goal with |- rsim _ (if ?b then _ else _) _ => destruct b end
    | match goal with |- rsim _ _ (if ?b then _ else _) => destruct b end
    | by eexists ].

Lemma arctan2_sim : rsim (λ _ _, True) (op_arctan2 m1) (op_arctan2 m2).
Proof.
  unfold op_arctan2. destruct (Hm "y") as [ya yb Hy|]; [|op_sim].
  destruct (Hm "x") as [xa xb Hx|]; op_sim.
Qed.

Lemma kernel_sim : Forall2 (λ e1 e2, e1.1 = e2.1 ∧
  (e1.1 ∈ data_dependent ∨ rsim (λ _ _, True) e1.2 e2.2)) (kernel_ops m1) (kernel_ops m2).
Proof.
  unfold kernel_ops.
  repeat (apply Forall2_cons; split; [split; [reflexivity|]; cbn [fst snd];
    first [ left; apply (bool_decide_unpack _); vm_compute; exact I
          | right; first [apply arctan2_sim
            | unfold unary, compare, binary, op_divide, op_power, op_log, op_round,
                op_normalized_difference, op_between; op_sim] ]|]).
  constructor.
Qed.

Lemma apply_op_sim pid : pid ∉ data_dependent →
  rsim (λ _ _, True) (apply_pure_numeric_op m1 pid) (apply_pure_numeric_op m2 pid).
Proof.
  intros Hp. unfold apply_pure_numeric_op.
  induction kernel_sim as [|[k1 r1] [k2 r2] l1 l2 [Hk Hr] _ IH]; [done|]. simpl in *. subst k2.
  destruct (bool_decide_reflect (pid = k1)) as [->|]; [|done]. by destruct Hr.
Qed.
End kernel_sim.

Section callback_sim.
Context `{Libm} (to_text : Value → string) (pg : list (string * Value)) (x1 x2 : f64).

Notation sim R p q := (Callback.sim tolerated R p q).

Lemma resolve_arg_value_sim v :
  sim shape (resolve_arg_value to_text x1 v) (resolve_arg_value to_text x2 v).
Proof.
  induction v as [| | | |l IH|m IH] using Value_ind'; try by constructor.
  - change (sim shape (resolve_arg_value to_text x1 (Array l)) (resolve_arg_value to_text x2 (Array l))).
    cbn [resolve_arg_value]. apply (sim_bind _ (λ a b : list f64, length a = length b));
      [|by intros; constructor].
    induction IH as [|v l Hv _ IHl]; [by constructor|].
    eapply sim_bind; [exact Hv|]. intros [n1|l1] [n2|l2] Hs; try done; [|constructor].
    eapply sim_bind; [exact IHl|]. intros a b Hab. constructor. simpl. by rewrite Hab.
  - cbn [resolve_arg_value]. destruct (assoc_get "from_parameter" m ≫= as_str); [by constructor|].
    destruct (assoc_get "from_node" m) as [[]|]; try constructor. intros v1 v2. by constructor.
Qed.

Lemma resolve_arguments_sim l : ∀ m1 m2, same_shape m1 m2 →
  sim same_shape (resolve_arguments to_text x1 l m1) (resolve_arguments to_text x2 l m2).
Proof.
  induction l as [|[k v] l IH]; intros m1 m2 Hm; simpl; [by constructor|].
  eapply sim_bind; [apply resolve_arg_value_sim|]. intros a b Hab. by apply IH, same_shape_insert.
Qed.

(** No node runs a process whose outcome depends on more than shapes. *)
Definition shape_determined (pg : list (string * Value)) : Prop :=
  Forall (λ e, ∀ pid, jget "process_id" e.2 ≫= as_str = Some pid → pid ∉ data_dependent) pg.

Lemma node_body_sim id : shape_determined pg →
  sim (λ _ _, True) (node_body to_text pg x1 id) (node_body to_text pg x2 id).
Proof.
  intros Hdet. unfold node_body. destruct (assoc_get id pg) as [node|] eqn:Hn; [|constructor].
  cbn [ok_or lift mbind Prog_bind prog_bind].
  destruct (jget "process_id" node ≫= as_str) as [pid|] eqn:Hp; [|constructor].
  destruct (jget "arguments" node ≫= as_object) as [args_obj|]; [|constructor].
  unfold mbind, Prog_bind, lift. simpl.
  apply (sim_bind _ same_shape).
  { apply resolve_arguments_sim. intros k. rewrite !lookup_empty. constructor. }
  intros m1 m2 Hm. apply assoc_get_In in Hn. unfold shape_determined in Hdet.
  rewrite Forall_forall in Hdet. pose proof (apply_op_sim m1 m2 Hm pid (Hdet _ Hn pid Hp)) as Hop.
  destruct (apply_pure_numeric_op m1 pid), (apply_pure_numeric_op m2 pid); by constructor.
Qed.
End callback_sim.

(** ** What an evaluation answers *)

Section semantics.
Context `{Libm} (to_text : Value → string) (pg : list (string * Value)) (x : f64).

Lemma eval_node_inline_spec id :
  ∃ r, eval_node_inline to_text pg x id = Some r ∧
    (evaluates (node_body to_text pg x) id r ∨
     (∀ r', ¬ evaluates (node_body to_text pg x) id r') ∧
     ∃ i, r = Err (cycle_error i) ∧ rtc (calls (node_body to_text pg x)) id i ∧
       tc (calls (node_body to_text pg x)) i i).
Proof.
  unfold eval_node_inline. rewrite <- (length_fmap fst pg).
  destruct (eval_node_spec (node_body to_text pg x) cycle_error pg.*1) with (id := id)
    as (r & s & -> & Hr).
  - intros i Hi. unfold node_body. destruct (assoc_get i pg) eqn:E.
    + destruct Hi. apply assoc_get_is_Some. by eexists.
    + by eexists.
  - by exists r.
Qed.
End semantics.

Definition marked (pg : list (string * Value)) : list (string * Value) :=
  filter (λ e, is_result_node e.2 = true) pg.

(** ** Properties *)

(** C13: evaluating an [apply] callback at a pixel always comes to an answer.  A
    callback that is not a non-empty object with exactly one result node is an
    error; otherwise the answer is the value, error or panic that the reference
    semantics, which evaluates nodes afresh wherever they are referred to, gives
    the result node; it is the cycle error only when the result node reaches a
    cycle, and then the reference semantics gives it nothing. *)
Theorem apply_callback_semantics `{Libm} (to_text : Value → string) (sub_pg : Value) (x : f64) :
  ∃ r, eval_apply_subgraph to_text sub_pg x = Some r ∧
  match marked (default [] (as_object sub_pg)) with
  | [(id, _)] =>
      let body := node_body to_text (default [] (as_object sub_pg)) x in
      evaluates body id r ∨
      (∀ r', ¬ evaluates body id r') ∧
      ∃ i, r = Err (cycle_error i) ∧ rtc (calls body) id i ∧ tc (calls body) i i
  | _ => ∃ m, r = Err (invalid m)
  end.
Proof.
  unfold eval_apply_subgraph. destruct (as_object sub_pg) as [[|e pg]|]; simpl default.
  - eexists. split; [done|]. by eexists.
  - pose proof (find_unique_result_node_spec (e :: pg) "apply") as Hf. cbv zeta in Hf.
    fold (marked (e :: pg)) in Hf.
    destruct (find_unique_result_node (e :: pg) "apply") as [[id node]|err] eqn:E.
    + rewrite Hf. apply eval_node_inline_spec.
    + eexists. split; [done|].
      assert (∃ m, err = InvalidGraph m) as [m ->].
      { unfold find_unique_result_node in E. clear Hf. revert E. generalize (None (A := string * Value)).
        generalize (e :: pg). induction l as [|[k v] l IH]; intros found; simpl.
        - destruct found; simpl; [done|]. intros [= <-]. by eexists.
        - destruct (is_result_node v); [|apply IH]. destruct found; [|apply IH].
          intros [= <-]. by eexists. }
      destruct (marked (e :: pg)) as [|[] [|]]; [by eexists|done|by eexists].
  - eexists. split; [done|]. by eexists.
Qed.

(** What the worker makes of a pixel that does not panic. *)
Definition pixel_value `{Libm} (to_text : Value → string) (sub_pg : Value) (scale offset : f64)
    (v : f32) : f32 :=
  if negb (is_finite v) || f64_eqb v SENTINEL_NDVI_NA then SENTINEL_NDVI_NA
  else
    match eval_apply_subgraph to_text sub_pg (f64_add (f64_mul (f64_of_f32 v) scale) offset) with
    | Some (Ok y) => if is_finite y then f32_of_f64 y else SENTINEL_NDVI_NA
    | _ => SENTINEL_NDVI_NA
    end.

Lemma smoke_test_pixels `{Libm} (to_text : Value → string) (sub_pg : Value) (x0 v0 x : f64) :
  eval_apply_subgraph to_text sub_pg x0 = Some (Ok v0) →
  shape_determined (default [] (as_object sub_pg)) →
  ∃ r, eval_apply_subgraph to_text sub_pg x = Some r ∧
    match r with Ok _ => True | Err e => tolerated e end.
Proof.
  intros Hsmoke Hdet. unfold eval_apply_subgraph in *.
  destruct (as_object sub_pg) as [[|e pg]|]; try done. simpl default in Hdet.
  destruct (find_unique_result_node (e :: pg) "apply") as [[id node]|err]; [|done].
  destruct (eval_node_inline_spec to_text (e :: pg) x0 id) as (r0 & E0 & Hr0).
  rewrite Hsmoke in E0. injection E0 as <-.
  destruct Hr0 as [[n Hn]|(_ & i & [=] & _)].
  pose proof (λ id, node_body_sim to_text (e :: pg) x0 x id Hdet) as Hsim.
  destruct (sim_runs tolerated _ _ Hsim n _ v0 Hn _ (Hsim id)) as (m & r & Hm & Ht).
  destruct (eval_node_inline_spec to_text (e :: pg) x id) as (r' & E & [Hr'|[Hno _]]).
  - exists r'. split; [done|].
    assert (evaluates (node_body to_text (e :: pg) x) id r) as Hr by by exists m.
    by rewrite (evaluates_fun _ _ _ _ Hr Hr').
  - by destruct (Hno r); exists m.
Qed.

Lemma mapM_total {A B} (f : A → option B) (g : A → B) (l : list A) :
  (∀ a, f a = Some (g a)) → mapM f l = Some (g <$> l).
Proof. intros Hf. induction l as [|a l IH]; [done|]. simpl. by rewrite Hf, IH. Qed.

(** C22: the smoke test does what it is for on callbacks without [clip] and
    [linear_scale_range]: when the callback evaluates at one value, then at every
    value it evaluates or fails with a per-pixel error, so that no structural
    error reaches a worker; and the worker never panics: it leaves missing pixels
    missing and gives every other pixel the value of the callback at its scaled
    value, or missing when that is not finite or fails. *)
Theorem smoke_test_covers_pixels `{Libm} (to_text : Value → string) (sub_pg : Value) (x0 v0 : f64)
    (Hsmoke : eval_apply_subgraph to_text sub_pg x0 = Some (Ok v0))
    (Hdet : shape_determined (default [] (as_object sub_pg))) :
  (∀ x, ∃ r, eval_apply_subgraph to_text sub_pg x = Some r ∧
     match r with Ok _ => True | Err e => ∃ m, e = Error (PerPixelComputation m) end) ∧
  ∀ scale offset block,
    apply_worker to_text sub_pg scale offset block =
    Some ((λ row : list f32, pixel_value to_text sub_pg scale offset <$> row) <$> block).
Proof.
  split; [intros x; by eapply smoke_test_pixels|]. intros scale offset block.
  unfold apply_worker. apply mapM_total. intros row. apply mapM_total. intros v.
  unfold apply_pixel, pixel_value. destruct (negb (is_finite v) || _); [done|].
  destruct (smoke_test_pixels to_text sub_pg x0 v0
    (f64_add (f64_mul (f64_of_f32 v) scale) offset) Hsmoke Hdet) as (r & -> & Hr).
  destruct r as [y|[e|]]; [done..|]. by destruct Hr.
Qed.

Lemma smoke_test_covers_pixels_witness :
  apply_worker (H := demo_libm) demo_text demo_square_plus f64_one f64_zero
    [[f32_of_Z 3; SENTINEL_NDVI_NA]] = Some [[f32_of_Z 18; SENTINEL_NDVI_NA]].
Proof.
  assert (shape_determined (default [] (as_object demo_square_plus))) as Hdet.
  { repeat constructor; intros pid Hp; vm_compute in Hp; injection Hp as <-;
      apply (bool_decide_unpack _); vm_compute; exact I. }
  assert (eval_apply_subgraph (H := demo_libm) demo_text demo_square_plus f64_zero =
    Some (Ok f64_zero)) as Hsmoke by (vm_compute; reflexivity).
  rewrite (proj2 (smoke_test_covers_pixels (H := demo_libm) demo_text demo_square_plus f64_zero
    f64_zero Hsmoke Hdet)).
  vm_compute. reflexivity.
Defined.
