(* ===== verification/Reduce.v ===== *)
(** * The reduce_dimension process: reducers, reducer callbacks and workers

    apps/orbit-openeo/src/geo_executor/eval_reduce.rs: the ten statistical
    reducers on binary32, the classification of a callback into one of them or
    a general expression, the evaluation of expressions with the scheme of
    [Callback], and the workers that reduce a block along its time or band
    axis.  [f32] arithmetic is rounded after every operation, as in the code. *)

From Stdlib Require Import Floats.SpecFloat Sorted.
From S2P Require Import Prelude BTree F64 Json Executor Arrays Callback Apply.
Local Open Scope string_scope.

(** ** Reducers *)

Inductive Reducer :=
| Mean | RMin | RMax | Sum | Median | Count | First | Last | Sd | Variance.

#[export] Instance Reducer_eq_dec : EqDecision Reducer.
Proof. solve_decision. Defined.

Definition name (r : Reducer) : string :=
  match r with
  | Mean => "mean" | RMin => "min" | RMax => "max" | Sum => "sum" | Median => "median"
  | Count => "count" | First => "first" | Last => "last" | Sd => "sd" | Variance => "variance"
  end.

Definition from_process_id (pid : string) : option Reducer :=
  match pid with
  | "mean" => Some Mean | "min" => Some RMin | "max" => Some RMax | "sum" => Some Sum
  | "median" => Some Median | "count" => Some Count | "first" => Some First | "last" => Some Last
  | "sd" | "stdev" => Some Sd
  | "variance" | "var" => Some Variance
  | _ => None
  end.

Definition f32_two : f32 := Eval vm_compute in f32_of_Z 2.
Definition f32_len (l : list f32) : f32 := f32_of_Z (Z.of_nat (length l)).
(** [iter().sum::<f32>()] starts from -0.0. *)
Definition f32_sum (l : list f32) : f32 := foldl f32_add (S754_zero true) l.
(** [sort_by(|a, b| a.partial_cmp(b).unwrap_or(Equal))] *)
Definition f32_sort (l : list f32) : list f32 := sort_by (sort_le true) l.

(** [None] is a panic: an index outside of an empty stack. *)
Definition apply_reducer `{Libm32} (stack : list f32) (reducer : Reducer) : option f32 :=
  match reducer with
  | Mean => Some (f32_div (f32_sum stack) (f32_len stack))
  | RMin => Some (foldl f64_min (S754_infinity false) stack)
  | RMax => Some (foldl f64_max (S754_infinity true) stack)
  | Sum => Some (f32_sum stack)
  | Count => Some (f32_len stack)
  | First => stack !! 0%nat
  | Last => last stack
  | Median =>
      let stack := f32_sort stack in
      let n := length stack in
      if bool_decide (n mod 2 = 1)%nat then stack !! (n / 2)%nat
      else
        a ← (if bool_decide (n = 0)%nat then None else stack !! (n / 2 - 1)%nat);
        b ← stack !! (n / 2)%nat;
        Some (f32_div (f32_add a b) f32_two)
  | Variance | Sd =>
      let n := f32_len stack in
      Some (if f64_ltb n f32_two then f64_zero
            else
              let mean := f32_div (f32_sum stack) n in
              let ss := f32_sum ((λ v, f32_powi (f32_sub v mean) 2) <$> stack) in
              let var := f32_div ss (f32_sub n f32_one) in
              if bool_decide (reducer = Sd) then f32_sqrt var else var)
  end.

Inductive ReducerKind :=
| Builtin (r : Reducer)
| SubGraph (pg : list (string * Value)).

Definition reducer_kind_label (k : ReducerKind) : string :=
  match k with Builtin r => name r | SubGraph _ => "subgraph" end.

(** ** Parsing a callback *)

Definition scalar_process_ids : list string :=
  ["add"; "subtract"; "multiply"; "divide"; "power"; "absolute"; "clip"; "min"; "max"; "sqrt";
   "exp"; "ln"; "mod"; "sgn"; "sign"; "floor"; "ceil"; "int"; "round"; "normalized_difference";
   "between"; "cos"; "sin"; "tan"; "arccos"; "arcsin"; "arctan"; "arctan2"].

Definition field : string := "reduce_dimension.reducer".
Definition graph_error (m : string) : ExecError := InvalidGraph (field +:+ ": " +:+ m).

Fixpoint validate_reduce_subgraph_processes (pg : list (string * Value)) : result ExecError unit :=
  match pg with
  | [] => Ok tt
  | (id, node) :: pg' =>
      pid ← ok_or (jget "process_id" node ≫= as_str)
        (graph_error ("node `" +:+ id +:+ "` has no process_id"));
      if negb (bool_decide (is_Some (from_process_id pid))) && negb (bool_decide (pid ∈ scalar_process_ids))
      then Err (graph_error ("unsupported process `" +:+ pid +:+ "` in reducer callback "
        +:+ "(supported: statistical reducers + arithmetic/trig/rounding/comparison scalar ops)"))
      else validate_reduce_subgraph_processes pg'
  end.

Definition parse_reducer_subgraph (reducer : Value) : result ExecError ReducerKind :=
  pg ← require_subgraph reducer field;
  '(_, result_node) ← find_unique_result_node pg field;
  pid ← result_process_id result_node field;
  match (if bool_decide (length pg = 1%nat) then from_process_id pid else None) with
  | Some r => Ok (Builtin r)
  | None => _ ← validate_reduce_subgraph_processes pg; Ok (SubGraph pg)
  end.

(** ** Evaluating an expression at a pixel *)

Inductive RedVal := Scalar (s : f32) | RArray (l : list f32).

Definition invalid_at (m : string) : Fault := Error (graph_error m).

Section node.
Context (stack : list f32) (id : string) (args : option (list (string * Value))).

Definition resolve (key : string) : Prog Fault RedVal RedVal :=
  a ← lift (ok_or (args ≫= assoc_get key)
    (invalid_at ("node `" +:+ id +:+ "` missing arg `" +:+ key +:+ "`")));
  match as_f64 a with
  | Some n => mret (Scalar (f32_of_f64 n))
  | None =>
      match as_object a ≫= assoc_get "from_parameter", as_object a ≫= assoc_get "from_node" with
      | Some (JString p), _ =>
          if bool_decide (p = "data") then mret (RArray stack)
          else fail (invalid_at ("only `data` parameter is bound (got `" +:+ p +:+ "`)"))
      | _, Some (JString t) => ask t
      | _, _ =>
          fail (invalid_at ("node `" +:+ id +:+ "` arg `" +:+ key +:+ "` has unsupported shape"))
      end
  end.

Definition scalar (rv : RedVal) (who : string) : result Fault f32 :=
  match rv with
  | Scalar s => Ok s
  | RArray _ => Err (per_pixel (field +:+ ": `" +:+ who +:+ "` expected scalar, got array"))
  end.

(** [scalar(resolve(key, ..)?, key)?] *)
Definition operand (key : string) : Prog Fault RedVal f32 := rv ← resolve key; lift (scalar rv key).

Context `{Libm32}.

Definition red_unary (key : string) (f : f32 → f32) : Prog Fault RedVal f32 :=
  x ← operand key; mret (f x).
Definition red_binary (ka kb : string) (f : f32 → f32 → f32) : Prog Fault RedVal f32 :=
  a ← operand ka; b ← operand kb; mret (f a b).

Definition red_divide : Prog Fault RedVal f32 :=
  y ← operand "y";
  if f64_eqb y f64_zero then fail (per_pixel (field +:+ ": divide by zero"))
  else x ← operand "x"; mret (f32_div x y).

Definition red_clip : Prog Fault RedVal f32 :=
  x ← operand "x"; lo ← operand "min"; hi ← operand "max";
  lift (ok_or (f64_clamp_checked x lo hi) Panic).

Definition red_round : Prog Fault RedVal f32 :=
  x ← operand "x";
  let p := default f64_zero ((args ≫= assoc_get "p") ≫= as_f64) in
  let factor := f32_powi (f32_of_Z 10) (f64_to_i32 p) in
  mret (f32_div (f32_round_ties_even (f32_mul x factor)) factor).

Definition red_normalized_difference : Prog Fault RedVal f32 :=
  x ← operand "x"; y ← operand "y";
  if f64_eqb (f32_add x y) f64_zero
  then fail (per_pixel (field +:+ ": normalized_difference x + y == 0"))
  else mret (f32_div (f32_sub x y) (f32_add x y)).

Definition red_between : Prog Fault RedVal f32 :=
  x ← operand "x"; lo ← operand "min"; hi ← operand "max";
  mret (if f64_leb lo x && f64_leb x hi then f32_one else f64_zero).

Definition red_mod (x y : f32) : f32 := f32_sub x (f32_mul y (f32_floor (f32_div x y))).

Definition scalar_ops : list (string * Prog Fault RedVal f32) := [
  ("add", red_binary "x" "y" f32_add);
  ("subtract", red_binary "x" "y" f32_sub);
  ("multiply", red_binary "x" "y" f32_mul);
  ("divide", red_divide);
  ("power", red_binary "base" "p" f32_powf);
  ("absolute", red_unary "x" f64_abs);
  ("sqrt", red_unary "x" f32_sqrt);
  ("exp", red_unary "p" f32_exp);
  ("ln", red_unary "x" f32_ln);
  ("min", red_binary "x" "y" f64_min);
  ("max", red_binary "x" "y" f64_max);
  ("clip", red_clip);
  ("mod", red_binary "x" "y" red_mod);
  ("sgn", red_unary "x" f32_signum);
  ("sign", red_unary "x" f32_signum);
  ("floor", red_unary "x" f32_floor);
  ("ceil", red_unary "x" f32_ceil);
  ("int", red_unary "x" f32_trunc);
  ("round", red_round);
  ("normalized_difference", red_normalized_difference);
  ("between", red_between);
  ("cos", red_unary "x" f32_cos);
  ("sin", red_unary "x" f32_sin);
  ("tan", red_unary "x" f32_tan);
  ("arccos", red_unary "x" f32_acos);
  ("arcsin", red_unary "x" f32_asin);
  ("arctan", red_unary "x" f32_atan);
  ("arctan2", red_binary "y" "x" f32_atan2)].

Definition scalar_op (pid : string) : Prog Fault RedVal f32 :=
  default (fail (invalid_at ("unsupported process `" +:+ pid +:+ "`"))) (assoc_get pid scalar_ops).

(** An array reducer collapses its [data]; a single value reduces as itself. *)
Definition array_op (reducer : Reducer) : Prog Fault RedVal f32 :=
  rv ← resolve "data";
  match (match rv with RArray v => v | Scalar s => [s] end) with
  | [] => mret SENTINEL_NDVI_NA
  | arr => lift (ok_or (apply_reducer arr reducer) Panic)
  end.

Definition node_value (pid : string) : Prog Fault RedVal RedVal :=
  s ← (match from_process_id pid with
       | Some reducer => array_op reducer
       | None => scalar_op pid
       end);
  mret (Scalar s).
End node.

Section expression.
Context `{Libm32} (pg : list (string * Value)) (stack : list f32).

(** [eval_reduce_node] between the two stack operations. *)
Definition reduce_body (id : string) : Prog Fault RedVal RedVal :=
  node ← lift (ok_or (assoc_get id pg) (invalid_at ("unknown node `" +:+ id +:+ "`")));
  pid ← lift (ok_or (jget "process_id" node ≫= as_str)
    (invalid_at ("node `" +:+ id +:+ "` has no process_id")));
  node_value stack id (jget "arguments" node ≫= as_object) pid.

Definition reduce_cycle (id : string) : Fault := invalid_at ("cycle at node `" +:+ id +:+ "`").

(** [None] is out of fuel, which [reduce_callback_semantics] excludes. *)
Definition eval_reduce_node (id : string) : option (result Fault RedVal) :=
  match eval_node reduce_body reduce_cycle (length pg + 2) id Frame_new with
  | Some (r, _) => Some r
  | None => None
  end.

Definition eval_reduce_subgraph : option (result Fault f32) :=
  match find_unique_result_node pg field with
  | Err e => Some (Err (Error e))
  | Ok (result_id, _) =>
      match eval_reduce_node result_id with
      | None => None
      | Some (Err e) => Some (Err e)
      | Some (Ok (Scalar s)) => Some (Ok s)
      | Some (Ok (RArray _)) =>
          Some (Err (per_pixel (field +:+ ": result node returned an array, expected a scalar")))
      end
  end.
End expression.

(** ** Workers *)

(** The dimensions of a block and its cells by time, layer, row and column. *)
Record RasterDataBlock := mkBlock {
  times : nat; layers : nat; rows : nat; cols : nat;
  cell : nat → nat → nat → nat → f32 }.

Section worker.
Context `{Libm32} (red : ReducerKind).

Definition valid (v : f32) : bool := is_finite v && negb (f64_eqb v SENTINEL_NDVI_NA).

(** One stack of values; [None] is a panic. *)
Definition reduce_pixel (values : list f32) : option f32 :=
  match filter (λ v, valid v = true) values with
  | [] => Some SENTINEL_NDVI_NA
  | stack =>
      match red with
      | Builtin r => apply_reducer stack r
      | SubGraph pg =>
          match eval_reduce_subgraph pg stack with
          | Some (Ok s) => Some s
          | Some (Err (Error _)) => Some SENTINEL_NDVI_NA
          | Some (Err Panic) | None => None
          end
      end
  end.

Definition time_worker (rdb : RasterDataBlock) : option (list (list f32)) :=
  mapM (λ row, mapM (λ col,
    reduce_pixel ((λ t, cell rdb t 0 row col) <$> seq 0 (times rdb)))
    (seq 0 (cols rdb))) (seq 0 (rows rdb)).

Definition band_worker (rdb : RasterDataBlock) : option (list (list f32)) :=
  mapM (λ row, mapM (λ col,
    reduce_pixel ((λ l, cell rdb 0 l row col) <$> seq 0 (layers rdb)))
    (seq 0 (cols rdb))) (seq 0 (rows rdb)).
End worker.

Definition demo_libm32 : Libm32 := {|
  f32_exp := id; f32_ln := id; f32_sin := id; f32_cos := id; f32_tan := id;
  f32_asin := id; f32_acos := id; f32_atan := id;
  f32_powf := λ x _, x; f32_powi := λ x _, f32_mul x x; f32_atan2 := λ x _, x |}.

Definition data_param : Value := Object [("from_parameter", JString "data")].
Definition reducer_node (pid : string) : Value :=
  Object [("process_id", JString pid); ("arguments", Object [("data", data_param)])].
(** [max(data) - min(data)] *)
Definition demo_range : Value := Object [("process_graph", Object [
  ("hi", reducer_node "max"); ("lo", reducer_node "min");
  ("range", Object [("process_id", JString "subtract");
     ("arguments", Object [("x", Object [("from_node", JString "hi")]);
                           ("y", Object [("from_node", JString "lo")])]);
     ("result", Bool true)])])].
Definition f32s (l : list Z) : list f32 := f32_of_Z <$> l.

Example range_demo :
  match parse_reducer_subgraph demo_range with
  | Ok k => reduce_pixel (H := demo_libm32) k (f32s [7; -9999; 3; 12; 5]%Z)
  | Err _ => None
  end = Some (f32_of_Z 9).
Proof. vm_compute. reflexivity. Qed.

Example median_demo :
  apply_reducer (H := demo_libm32) (f32s [7; 3; 12; 4]%Z) Median =
  Some (f32_div (f32_of_Z 11) f32_two).
Proof. vm_compute. reflexivity. Qed.

(** A callback of one reducer node counts as the reducer whatever its [data]
    argument says: the fast path looks at the process name alone. *)
Example fast_path_ignores_arguments :
  parse_reducer_subgraph (Object [("process_graph", Object [
    ("n", Object [("process_id", JString "mean");
       ("arguments", Object [("data", Number (PosInt 5))]); ("result", Bool true)])])]) =
  Ok (Builtin Mean).
Proof. vm_compute. reflexivity. Qed.

(** ** Order statistics *)

Lemma f64_leb_sort_le x y : is_nan x = false → is_nan y = false → f64_leb x y = sort_le true x y.
Proof.
  intros Hx Hy. unfold f64_leb, SFleb, sort_le. rewrite SFcompare_key by done.
  by destruct (cmp _ _).
Qed.

Lemma f64_leb_trans x y z : is_nan x = false → is_nan y = false → is_nan z = false →
  f64_leb x y = true → f64_leb y z = true → f64_leb x z = true.
Proof. intros ???. rewrite !f64_leb_sort_le by done. by apply sort_le_trans. Qed.

Lemma f64_ltb_leb x y : f64_ltb x y = true → f64_leb x y = true.
Proof. unfold f64_ltb, SFltb, f64_leb, SFleb. by destruct (SFcompare x y) as [[]|]. Qed.

Lemma f64_leb_refl x : is_nan x = false → f64_leb x x = true.
Proof. intros Hx. rewrite f64_leb_sort_le, sort_le_key by done. by rewrite cmp_refl. Qed.

Section extremum.
Context {A} (op : A → A → A) (R : A → A → Prop) (P : A → Prop).
Hypothesis op_choice : ∀ a b, P a → P b → op a b = a ∨ op a b = b.
Hypothesis op_bound : ∀ a b, P a → P b → R (op a b) a ∧ R (op a b) b.
Hypothesis R_refl : ∀ a, P a → R a a.
Hypothesis R_trans : ∀ a b c, P a → P b → P c → R a b → R b c → R a c.

(** Folding a choice of the better of two gives a best element. *)
Lemma fold_extremum l : ∀ a, P a → Forall P l →
  let m := foldl op a l in m ∈ a :: l ∧ ∀ v, v ∈ a :: l → R m v.
Proof.
  induction l as [|b l IH]; intros a Ha Hl; simpl.
  - split; [by left|]. intros v ->%list_elem_of_singleton. by apply R_refl.
  - apply Forall_cons in Hl as [Hb Hl]. pose proof (op_choice a b Ha Hb) as Hc.
    assert (P (op a b)) as Hab by (destruct Hc as [-> | ->]; done).
    destruct (IH (op a b) Hab Hl) as [Hin Hbest]. split.
    + apply elem_of_cons in Hin as [Hin|Hin]; [|by do 2 right].
      rewrite Hin. destruct Hc as [-> | ->]; [by left|by right; left].
    + assert (P (foldl op (op a b) l)) as Hm.
      { apply elem_of_cons in Hin as [-> |Hin]; [done|]. rewrite Forall_forall in Hl. by apply Hl. }
      destruct (op_bound a b Ha Hb) as [Hra Hrb].
      pose proof (Hbest (op a b) ltac:(by left)) as Hmo.
      intros v [-> |[-> |Hv]%elem_of_cons]%elem_of_cons.
      * exact (R_trans _ _ _ Hm Hab Ha Hmo Hra).
      * exact (R_trans _ _ _ Hm Hab Hb Hmo Hrb).
      * apply Hbest. by right.
Qed.
End extremum.

Lemma fold_min_spec l : l ≠ [] → Forall (λ v, is_finite v = true) l →
  let m := foldl f64_min (S754_infinity false) l in
  m ∈ l ∧ ∀ v, v ∈ l → f64_leb m v = true.
Proof.
  intros Hne Hl. destruct (fold_extremum f64_min (λ a b, f64_leb a b = true)
    (λ v, is_nan v = false)) with (l := l) (a := S754_infinity false : f32) as [Hin Hb].
  - intros a b Ha Hb. unfold f64_min. rewrite Ha, Hb. destruct (f64_ltb b a); auto.
  - intros a b Ha Hb. unfold f64_min. rewrite Ha, Hb. destruct (f64_ltb b a) eqn:E.
    + split; [by apply f64_ltb_leb|by apply f64_leb_refl].
    + split; [by apply f64_leb_refl|by apply f64_nlt_le].
  - apply f64_leb_refl.
  - intros a b c. apply f64_leb_trans.
  - done.
  - eapply Forall_impl; [exact Hl|]. intros v. apply finite_not_nan.
  - intros m. split; [|intros v Hv; apply Hb; by right].
    apply elem_of_cons in Hin as [Hm|]; [|done]. destruct l as [|v l]; [done|].
    apply Forall_cons in Hl as [Hv _]. specialize (Hb v). rewrite Hm in Hb.
    destruct v as [[]|[]| |[] ? ?]; try done; discriminate Hb; right; left.
Qed.

Lemma fold_max_spec l : l ≠ [] → Forall (λ v, is_finite v = true) l →
  let m := foldl f64_max (S754_infinity true) l in
  m ∈ l ∧ ∀ v, v ∈ l → f64_leb v m = true.
Proof.
  intros Hne Hl. destruct (fold_extremum f64_max (λ a b, f64_leb b a = true)
    (λ v, is_nan v = false)) with (l := l) (a := S754_infinity true : f32) as [Hin Hb].
  - intros a b Ha Hb. unfold f64_max. rewrite Ha, Hb. destruct (f64_ltb a b); auto.
  - intros a b Ha Hb. unfold f64_max. rewrite Ha, Hb. destruct (f64_ltb a b) eqn:E.
    + split; [by apply f64_ltb_leb|by apply f64_leb_refl].
    + split; [by apply f64_leb_refl|by apply f64_nlt_le].
  - apply f64_leb_refl.
  - intros a b c Ha Hb Hc H1 H2. by apply (f64_leb_trans c b a).
  - done.
  - eapply Forall_impl; [exact Hl|]. intros v. apply finite_not_nan.
  - intros m. split; [|intros v Hv; apply Hb; by right].
    apply elem_of_cons in Hin as [Hm|]; [|done]. destruct l as [|v l]; [done|].
    apply Forall_cons in Hl as [Hv _]. specialize (Hb v). rewrite Hm in Hb.
    destruct v as [[]|[]| |[] ? ?]; try done; discriminate Hb; right; left.
Qed.

Lemma f32_sort_spec l : Forall (λ v, is_finite v = true) l →
  Permutation (f32_sort l) l ∧ StronglySorted (λ a b, f64_leb a b = true) (f32_sort l).
Proof.
  intros Hl. split; [apply sort_by_perm|].
  assert (Forall (λ v, is_nan v = false) l) as Hn
    by (eapply Forall_impl; [exact Hl|]; intros v; apply finite_not_nan).
  pose proof (sort_by_ordered (sort_le true) (λ v, is_nan v = false) (sort_le_total true)
    (sort_le_trans true) l Hn) as Hs. fold (f32_sort l) in Hs.
  assert (Forall (λ v, is_nan v = false) (f32_sort l)) as Hn'
    by (unfold f32_sort; by rewrite sort_by_perm).
  clear -Hs Hn'. induction Hs as [|a s Hs IH Ha]; [constructor|].
  apply Forall_cons in Hn' as [Hna Hns]. constructor; [by apply IH|].
  rewrite Forall_forall in *. intros b Hb. rewrite f64_leb_sort_le; [by apply Ha|done|by apply Hns].
Qed.

Section total.
Context `{Libm32}.

Lemma apply_reducer_total stack r : stack ≠ [] → is_Some (apply_reducer stack r).
Proof.
  intros Hne. assert (0 < length stack)%nat as Hl by (destruct stack; [done|simpl; lia]).
  destruct r; unfold apply_reducer; cbv zeta; try by eexists.
  - assert (length (f32_sort stack) = length stack) as Hs
      by apply Permutation_length, sort_by_perm.
    revert Hs. generalize (f32_sort stack). intros s Hs.
    assert (length s / 2 < length s)%nat by (apply Nat.div_lt; lia).
    case_bool_decide as Ho; [by apply lookup_lt_is_Some|].
    rewrite bool_decide_eq_false_2 by lia.
    destruct (lookup_lt_is_Some_2 s (length s / 2 - 1)) as [a ->]; [lia|].
    destruct (lookup_lt_is_Some_2 s (length s / 2)) as [b ->]; [lia|]. by eexists.
  - apply lookup_lt_is_Some. lia.
  - by apply last_is_Some.
Qed.

(** ** The fast path *)

Lemma fast_path_graph v r id node : parse_reducer_subgraph v = Ok (Builtin r) →
  jget "process_graph" v = Some (Object [(id, node)]) →
  is_result_node node = true ∧ ∃ pid, jget "process_id" node ≫= as_str = Some pid ∧
    from_process_id pid = Some r.
Proof.
  unfold parse_reducer_subgraph, require_subgraph. intros Hp Hg. revert Hp. rewrite Hg.
  unfold mbind, result_bind, find_unique_result_node, find_result. simpl.
  destruct (is_result_node node); [|done]. simpl. unfold result_process_id.
  destruct (jget "process_id" node ≫= as_str) as [pid|] eqn:E; simpl; [|done].
  destruct (from_process_id pid) as [r'|] eqn:Ef; simpl.
  - intros [= ->]. split; [done|]. by exists pid.
  - by destruct (negb _).
Qed.

Lemma expression_of_reducer stack id node pid r :
  stack ≠ [] → is_result_node node = true →
  jget "process_id" node ≫= as_str = Some pid → from_process_id pid = Some r →
  jget "arguments" node ≫= jget "data" = Some data_param →
  ∃ s, apply_reducer stack r = Some s ∧ eval_reduce_subgraph [(id, node)] stack = Some (Ok s).
Proof.
  intros Hne Hres Hpid Hr Hdata. destruct (apply_reducer_total stack r Hne) as [s Hs].
  exists s. split; [done|]. unfold eval_reduce_subgraph, find_unique_result_node. simpl.
  rewrite Hres. simpl. unfold eval_reduce_node.
  assert (reduce_body [(id, node)] stack id = mret (Scalar s)) as Hb.
  { unfold reduce_body. cbn [assoc_get]. rewrite bool_decide_eq_true_2 by done. simpl.
    rewrite Hpid. simpl. unfold node_value. rewrite Hr. unfold array_op, resolve.
    assert ((jget "arguments" node ≫= as_object) ≫= assoc_get "data" = Some data_param) as ->.
    { destruct (jget "arguments" node) as [a|]; [|done]. exact Hdata. }
    simpl. destruct stack as [|x stack']; [done|]. by rewrite Hs. }
  cbn [eval_node length Nat.add]. rewrite Hb. done.
Qed.
End total.

Section totality.
Context `{Libm32}.

Definition not_panic (e : Fault) : Prop := e ≠ Panic.

Lemma resolve_leaves stack id args key : leaves not_panic (λ _, True) (resolve stack id args key).
Proof.
  unfold resolve. destruct (args ≫= assoc_get key) as [a|]; simpl; [|done].
  destruct (as_f64 a); [done|].
  destruct (as_object a ≫= _) as [[]|]; try (destruct (as_object a ≫= _) as [[]|]); try done;
    by destruct (bool_decide _).
Qed.

Lemma operand_leaves stack id args key : leaves not_panic (λ _, True) (operand stack id args key).
Proof. apply (leaves_bind _ (λ _, True)); [apply resolve_leaves|by intros []]. Qed.

Ltac leaves_op :=
  repeat first
    [ done
    | match goal with |- leaves _ _ (operand _ _ _ _ ≫= _) =>
        apply (leaves_bind _ (λ _, True)); [apply operand_leaves | intros ? _] end
    | progress simpl
    | match goal with |- context [if ?b then _ else _] => destruct b end ].

Lemma scalar_op_leaves stack id args pid : pid ≠ "clip" →
  leaves not_panic (λ _, True) (scalar_op stack id args pid).
Proof.
  intros Hp. unfold scalar_op.
  assert (Forall (λ e, e.1 ≠ "clip" → leaves not_panic (λ _, True) e.2) (scalar_ops stack id args)) as Hall.
  { unfold scalar_ops. repeat (apply Forall_cons; split;
      [simpl; intros Hc; first [by destruct Hc
         | unfold red_unary, red_binary, red_divide, red_round, red_normalized_difference, red_between;
           leaves_op]|]). constructor. }
  destruct (assoc_get pid _) as [p|] eqn:E; simpl; [|done].
  apply assoc_get_In in E. rewrite Forall_forall in Hall. by apply (Hall _ E).
Qed.

Definition is_scalar (v : RedVal) : Prop := ∃ s, v = Scalar s.

Definition without_clip (pg : list (string * Value)) : Prop :=
  Forall (λ e, jget "process_id" e.2 ≫= as_str ≠ Some "clip") pg.

Lemma reduce_body_leaves (bad : Fault → Prop) pg stack id :
  (∀ e, not_panic e → bad e) → (without_clip pg ∨ ∀ e, bad e) →
  leaves bad is_scalar (reduce_body pg stack id).
Proof.
  intros Hbad Hclip.
  assert (∀ A (Q : A → Prop) (p : Prog Fault RedVal A), leaves not_panic Q p → leaves bad Q p) as Hw.
  { intros A Q p. induction p as [[a|e]|i k IH]; simpl; [done|apply Hbad|]. intros Hk v. by apply IH. }
  unfold reduce_body. destruct (assoc_get id pg) as [node|] eqn:Hn; simpl; [|by apply Hbad].
  destruct (jget "process_id" node ≫= as_str) as [pid|] eqn:Hp; simpl; [|by apply Hbad].
  unfold node_value. apply (leaves_bind _ (λ _, True)); [|intros s _; by exists s].
  destruct (from_process_id pid) as [r|] eqn:Hr.
  - apply Hw. unfold array_op. apply (leaves_bind _ (λ _, True)).
    + apply resolve_leaves.
    + intros rv _. destruct (match rv with RArray v => v | Scalar s => [s] end) as [|x l]; [done|].
      destruct (apply_reducer_total (x :: l) r) as [s ->]; [done|]. done.
  - destruct Hclip as [Hc|Hall].
    + apply Hw, scalar_op_leaves. intros ->. apply assoc_get_In in Hn. unfold without_clip in Hc.
      rewrite Forall_forall in Hc. by apply (Hc _ Hn).
    + clear -Hall. induction (scalar_op _ _ _ _) as [[a|e]|i k IH]; simpl; auto.
Qed.
End totality.

Section workers.
Context `{Libm32}.

Lemma mapM_is_Some {A B} (f : A → option B) (l : list A) :
  (∀ a, a ∈ l → is_Some (f a)) → is_Some (mapM f l).
Proof.
  induction l as [|a l IH]; intros Hf; [by eexists|]. simpl.
  destruct (Hf a ltac:(by left)) as [b ->]. destruct IH as [l' ->]; [intros; apply Hf; by right|].
  by eexists.
Qed.

(** The rows and columns of a worker's answer are those of the block. *)
Definition fills (rdb : RasterDataBlock) (out : option (list (list f32))) : Prop :=
  ∃ l, out = Some l ∧ length l = rows rdb ∧ Forall (λ row, length row = cols rdb) l.

Lemma worker_fills rdb (f : nat → nat → option f32) : (∀ row col, is_Some (f row col)) →
  fills rdb (mapM (λ row, mapM (f row) (seq 0 (cols rdb))) (seq 0 (rows rdb))).
Proof.
  intros Hf. destruct (mapM_is_Some (λ row, mapM (f row) (seq 0 (cols rdb))) (seq 0 (rows rdb)))
    as [l Hl]; [intros row _; apply mapM_is_Some; intros; apply Hf|].
  exists l. split; [done|]. apply mapM_Some in Hl as Hl2. split.
  - apply Forall2_length in Hl2. by rewrite <- Hl2, length_seq.
  - clear Hl. induction Hl2 as [|row out rs l Hrow _ IH]; constructor; [|done].
    apply mapM_Some, Forall2_length in Hrow. by rewrite <- Hrow, length_seq.
Qed.

Lemma reduce_pixel_agree red1 red2 :
  (∀ stack, stack ≠ [] → reduce_pixel red1 stack = reduce_pixel red2 stack) →
  ∀ rdb, time_worker red1 rdb = time_worker red2 rdb ∧ band_worker red1 rdb = band_worker red2 rdb.
Proof.
  intros Hp.
  assert (∀ l, reduce_pixel red1 l = reduce_pixel red2 l) as Hall
    by (intros [|x l]; [done|by apply Hp]).
  intros rdb. unfold time_worker, band_worker.
  split; apply mapM_ext; intros row; apply mapM_ext; intros col; apply Hall.
Qed.

Lemma eval_reduce_spec pg stack id : ∃ r, eval_reduce_node pg stack id = Some r ∧
  (evaluates (reduce_body pg stack) id r ∨
   (∀ r', ¬ evaluates (reduce_body pg stack) id r') ∧
   ∃ i, r = Err (reduce_cycle i) ∧ rtc (calls (reduce_body pg stack)) id i ∧
     tc (calls (reduce_body pg stack)) i i).
Proof.
  unfold eval_reduce_node. rewrite <- (length_fmap fst pg).
  destruct (eval_node_spec (reduce_body pg stack) reduce_cycle pg.*1) with (id := id)
    as (r & s & -> & Hr).
  - intros i Hi. unfold reduce_body. destruct (assoc_get i pg) eqn:E.
    + destruct Hi. apply assoc_get_is_Some. by eexists.
    + by eexists.
  - by exists r.
Qed.

Lemma parsed_subgraph v pg : parse_reducer_subgraph v = Ok (SubGraph pg) →
  ∃ id node, find_unique_result_node pg field = Ok (id, node).
Proof.
  unfold parse_reducer_subgraph. unfold mbind, result_bind.
  destruct (require_subgraph v field) as [pg'|]; [|done].
  destruct (find_unique_result_node pg' field) as [[id node]|] eqn:E; [|done].
  destruct (result_process_id node field) as [pid|]; [|done].
  destruct (if bool_decide _ then _ else _) as [r|]; [done|].
  destruct (validate_reduce_subgraph_processes pg'); [|done]. intros [= <-]. by exists id, node.
Qed.

(** An expression without [clip] has a value or an ordinary error. *)
Lemma expression_no_panic pg stack : without_clip pg →
  eval_reduce_subgraph pg stack ≠ Some (Err Panic).
Proof.
  intros Hc. unfold eval_reduce_subgraph. destruct (find_unique_result_node pg field) as [[id node]|]; [|done].
  destruct (eval_reduce_spec pg stack id) as (r & -> & Hr).
  destruct r as [[s|l]|e]; [done..|]. intros [= ->].
  destruct Hr as [Hr|(_ & i & [=] & _)].
  pose proof (leaves_evaluates not_panic is_scalar _ _ _
    (λ i, reduce_body_leaves not_panic pg stack i (λ e He, He) (or_introl Hc)) Hr) as Hn. by apply Hn.
Qed.
End workers.

(** ** Properties *)

(** C23: the fast path of a callback that is one reducer over the data agrees
    with the general evaluation of its graph: on every block both workers, over
    time and over bands, give the same values. *)
Theorem fast_path_agrees `{Libm32} (v : Value) (r : Reducer) (id : string) (node : Value)
    (rdb : RasterDataBlock)
    (Hparse : parse_reducer_subgraph v = Ok (Builtin r))
    (Hgraph : jget "process_graph" v = Some (Object [(id, node)]))
    (Hdata : jget "arguments" node ≫= jget "data" = Some data_param) :
  time_worker (Builtin r) rdb = time_worker (SubGraph [(id, node)]) rdb ∧
  band_worker (Builtin r) rdb = band_worker (SubGraph [(id, node)]) rdb.
Proof.
  destruct (fast_path_graph v r id node Hparse Hgraph) as (Hres & pid & Hpid & Hr).
  apply reduce_pixel_agree. intros stack _. unfold reduce_pixel.
  destruct (filter _ stack) as [|x l] eqn:E; [done|].
  destruct (expression_of_reducer (x :: l) id node pid r) as (s & -> & ->); done.
Qed.

Lemma fast_path_agrees_witness :
  let node := Object [("process_id", JString "median");
    ("arguments", Object [("data", data_param)]); ("result", Bool true)] in
  let rdb := mkBlock 3 1 1 1 (λ t _ _ _, f32_of_Z (Z.of_nat (t * t))) in
  time_worker (H := demo_libm32) (SubGraph [("m", node)]) rdb = Some [[f32_one]].
Proof.
  intros node rdb.
  destruct (fast_path_agrees (H := demo_libm32) (Object [("process_graph", Object [("m", node)])])
    Median "m" node rdb) as [<- _]; [vm_compute; reflexivity..|]. vm_compute. reflexivity.
Defined.

(** On a stack of finite values, which is all the workers pass, no reducer
    panics; the minimum and the maximum are values of the stack that bound it,
    the median is the middle value, or the rounded mean of the two middle
    values, of the stack in order, and count, first and last are what they say. *)
Theorem order_statistics `{Libm32} (stack : list f32) (Hne : stack ≠ [])
    (Hfin : Forall (λ v, is_finite v = true) stack) :
  (∀ r, is_Some (apply_reducer stack r)) ∧
  (∃ m, apply_reducer stack RMin = Some m ∧ m ∈ stack ∧ ∀ v, v ∈ stack → f64_leb m v = true) ∧
  (∃ m, apply_reducer stack RMax = Some m ∧ m ∈ stack ∧ ∀ v, v ∈ stack → f64_leb v m = true) ∧
  (∃ s, Permutation s stack ∧ StronglySorted (λ a b, f64_leb a b = true) s ∧
     ∀ h, (length s = 2 * h + 1 → apply_reducer stack Median = s !! h)%nat ∧
          (length s = 2 * h + 2 → ∃ a b, s !! h = Some a ∧ s !! S h = Some b ∧
             apply_reducer stack Median = Some (f32_div (f32_add a b) f32_two))%nat) ∧
  apply_reducer stack Count = Some (f32_of_Z (Z.of_nat (length stack))) ∧
  apply_reducer stack First = head stack ∧ apply_reducer stack Last = last stack.
Proof.
  split; [intros r; by apply apply_reducer_total|].
  split; [destruct (fold_min_spec stack Hne Hfin); by eexists|].
  split; [destruct (fold_max_spec stack Hne Hfin); by eexists|].
  split; [|split; [done|split; [by destruct stack|done]]].
  destruct (f32_sort_spec stack Hfin) as [Hp Hs]. exists (f32_sort stack).
  split; [done|]. split; [done|]. clear Hp Hs. intros h. unfold apply_reducer. cbv zeta.
  generalize (f32_sort stack). intros s. split; intros Hl.
  - assert (length s = 1 + h * 2)%nat as -> by lia.
    by rewrite Nat.Div0.mod_add, Nat.div_add by lia.
  - rewrite Hl. replace (2 * h + 2)%nat with (S h * 2)%nat by lia.
    rewrite Nat.div_mul, Nat.Div0.mod_mul, bool_decide_eq_false_2 by lia.
    rewrite bool_decide_eq_false_2 by lia. replace (S h - 1)%nat with h by lia.
    destruct (lookup_lt_is_Some_2 s h) as [a Ha]; [lia|].
    destruct (lookup_lt_is_Some_2 s (S h)) as [b Hb]; [lia|]. exists a, b. by rewrite Ha, Hb.
Qed.

Lemma order_statistics_witness :
  let stack := f32s [5; 2; 9]%Z in
  is_Some (apply_reducer (H := demo_libm32) stack Median) ∧
  ∃ m, apply_reducer (H := demo_libm32) stack RMin = Some m ∧ m ∈ stack ∧
    ∀ v, v ∈ stack → f64_leb m v = true.
Proof.
  intros stack.
  destruct (order_statistics (H := demo_libm32) stack) as (Hall & Hmin & _);
    [done|repeat constructor|]. split; [apply Hall|exact Hmin].
Defined.

(** C15: an expression callback always comes to an answer at a pixel: the number,
    error or panic that the reference semantics gives the result node, which is
    never an array, or the cycle error, exactly when the result node reaches a
    cycle.  Without [clip] nothing panics, and both workers fill the whole block. *)
Theorem reduce_callback_semantics `{Libm32} (v : Value) (pg : list (string * Value))
    (Hparse : parse_reducer_subgraph v = Ok (SubGraph pg)) :
  ∃ id node, marked pg = [(id, node)] ∧
  (∀ stack, ∃ r, eval_reduce_subgraph pg stack = Some r ∧
     let body := reduce_body pg stack in
     (evaluates body id (Scalar <$> r) ∨
      (∀ r', ¬ evaluates body id r') ∧
      ∃ i, r = Err (reduce_cycle i) ∧ rtc (calls body) id i ∧ tc (calls body) i i)) ∧
  (without_clip pg →
     (∀ stack, eval_reduce_subgraph pg stack ≠ Some (Err Panic)) ∧
     ∀ rdb, fills rdb (time_worker (SubGraph pg) rdb) ∧ fills rdb (band_worker (SubGraph pg) rdb)).
Proof.
  destruct (parsed_subgraph v pg Hparse) as (id & node & Hf). exists id, node.
  pose proof (find_unique_result_node_spec pg field) as Hm. cbv zeta in Hm. rewrite Hf in Hm.
  split; [done|].
  assert (∀ stack, ∃ r, eval_reduce_subgraph pg stack = Some r ∧
     (evaluates (reduce_body pg stack) id (Scalar <$> r) ∨
      (∀ r', ¬ evaluates (reduce_body pg stack) id r') ∧
      ∃ i, r = Err (reduce_cycle i) ∧ rtc (calls (reduce_body pg stack)) id i ∧
        tc (calls (reduce_body pg stack)) i i)) as Hsem.
  { intros stack. unfold eval_reduce_subgraph. rewrite Hf.
    destruct (eval_reduce_spec pg stack id) as (r & -> & Hr).
    destruct Hr as [Hr|(Hno & i & -> & Hi)]; [|eexists; split; [done|]; right; split; [done|]; by exists i].
    pose proof (leaves_evaluates (λ _, True) is_scalar _ _ _
      (λ i, reduce_body_leaves (λ _, True) pg stack i (λ _ _, I) (or_intror (λ _, I))) Hr) as Hq.
    destruct r as [rv|e]; [destruct Hq as [s ->]|]; eexists; (split; [done|by left]). }
  split; [exact Hsem|]. intros Hc.
  assert (∀ l, is_Some (reduce_pixel (SubGraph pg) l)) as Hpix.
  { intros l. unfold reduce_pixel. destruct (filter _ l) as [|x s]; [by eexists|].
    pose proof (expression_no_panic pg (x :: s) Hc) as Hn.
    destruct (Hsem (x :: s)) as (r & E & _). rewrite E in *.
    destruct r as [y|[e|]]; [by eexists..|done]. }
  split; [intros stack; by apply expression_no_panic|].
  intros rdb. split; apply worker_fills; intros; apply Hpix.
Qed.

Lemma reduce_callback_semantics_witness :
  ∃ pg, parse_reducer_subgraph demo_range = Ok (SubGraph pg) ∧
    ∀ rdb, fills rdb (time_worker (H := demo_libm32) (SubGraph pg) rdb).
Proof.
  eexists. split; [vm_compute; reflexivity|]. intros rdb.
  edestruct (reduce_callback_semantics (H := demo_libm32) demo_range) as (id & node & _ & _ & Hw);
    [vm_compute; reflexivity|].
  apply Hw. repeat constructor; vm_compute; discriminate.
Defined.
