(* ===== verification/Cube.v ===== *)
(** * The cube envelope: what the processes of a graph hand to each other

    apps/orbit-openeo/src/data_cube.rs and geo_executor/identifier.rs.  A cube
    travels between processes as JSON; [DataCube] is its typed form, decoded
    and encoded by serde's derived code, which the attributes of the struct
    determine and which is written out here.  The text of serde's errors is a
    parameter.  Paths are UTF-8 text, as they are everywhere in the code. *)

From stdpp Require Import sorting.
From Stdlib Require Import Ascii.
From S2P Require Import Prelude BTree F64 Text Json Executor.
Local Open Scope Z_scope.

(** Rust's [Debug] rendering of a character, of strings and of numbers. *)
Class DebugText := {
  debug_char : string → string;
  debug_strings : list string → string;
  debug_f64s : list f64 → string }.

(** ** Identifiers *)

Definition identifier_char (c : ascii) : bool :=
  is_alnum c || Ascii.eqb c "_" || Ascii.eqb c "-" || Ascii.eqb c ".".

(** The first character outside of the allowed set, as text. *)
Fixpoint find_bad (p : ascii → bool) (s : string) : option string :=
  match s with
  | EmptyString => None
  | String c s' => if p c then find_bad p s' else Some s
  end.

Definition validate_identifier `{DebugText} (name field : string) : result ExecError unit :=
  let len := Z.of_nat (String.length name) in
  if (len =? 0) || (64 <? len) then
    Err (InvalidGraph (field +:+ ": identifier length must be 1..=64 (got " +:+ pretty len +:+ ")"))
  else if starts_with "-" name || starts_with "." name then
    Err (InvalidGraph (field +:+ ": identifier may not start with '-' or '.'"))
  else
    match find_bad identifier_char name with
    | Some rest =>
        Err (InvalidGraph (field +:+ ": identifier may only contain [A-Za-z0-9_.-]; found "
          +:+ debug_char rest))
    | None =>
        if str_contains ".." name then
          Err (InvalidGraph (field +:+ ": identifier may not contain '..'"))
        else Ok tt
    end.

(** ** Cubes *)

Inductive DataCubeError :=
| MissingBand (band : string)
| MissingEnvelope
| Decode (m : string).

Definition cube_error_text (e : DataCubeError) : string :=
  match e with
  | MissingBand b => "DataCube missing required band: " +:+ b
  | MissingEnvelope => "DataCube envelope missing `__cube` key"
  | Decode m => "DataCube decode failed: " +:+ m
  end.

Record DataCube := mkDataCube {
  bands : btree string (list string);
  band_scales : btree string (f64 * f64);
  cube_collection : option string;
  bbox : option (list f64);
  scene_count : option Z;
  datetimes : option (list string);
  times : option Z;
  layers : option Z;
  layer_names : option (list string);
  source_band : option string;
  masked_bands : option (list string);
  masked_by : option string;
  replacement : option Z;
  extras : btree string Value }.

Definition DataCube_new : DataCube :=
  mkDataCube [] [] None None None None None None None None None None None [].

Definition set_bands (b : btree string (list string)) (c : DataCube) : DataCube :=
  mkDataCube b (band_scales c) (cube_collection c) (bbox c) (scene_count c) (datetimes c) (times c)
    (layers c) (layer_names c) (source_band c) (masked_bands c) (masked_by c) (replacement c)
    (extras c).

Definition band (b : string) (c : DataCube) : option (list string) := bt_get b (bands c).

Definition band_required (b : string) (c : DataCube) : result DataCubeError (list string) :=
  ok_or (band b c) (MissingBand b).

Definition take_band (b : string) (c : DataCube) : result DataCubeError (list string) * DataCube :=
  match bt_get b (bands c) with
  | Some paths => (Ok paths, set_bands (bt_remove b (bands c)) c)
  | None => (Err (MissingBand b), c)
  end.

(** ** Decoding (serde's derived [Deserialize]) *)

Definition de_vec {A} (de : Value → option A) (v : Value) : option (list A) :=
  l ← as_array v; mapM de l.

Definition de_map {A} (de : Value → option A) (v : Value) : option (btree string A) :=
  m ← as_object v;
  l ← mapM (λ e : string * Value, x ← de e.2; Some (e.1, x)) m;
  Some (bt_of_list l).

Definition de_pair (v : Value) : option (f64 * f64) :=
  match v with
  | Array [a; b] => x ← as_f64 a; y ← as_f64 b; Some (x, y)
  | _ => None
  end.

(** A field with [#[serde(default)]]. *)
Definition de_default {A} (de : Value → option A) (d : A) (k : string) (m : list (string * Value))
    : option A :=
  match assoc_get k m with None => Some d | Some v => de v end.

(** An [Option] field with a default: null and absence are [None]. *)
Definition de_option {A} (de : Value → option A) (k : string) (m : list (string * Value))
    : option (option A) :=
  match assoc_get k m with
  | None | Some Null => Some None
  | Some v => Some <$> de v
  end.

Definition field_names : list string :=
  ["bands"; "band_scales"; "collection"; "bbox"; "scene_count"; "datetimes"; "times"; "layers";
   "layer_names"; "source_band"; "masked_bands"; "masked_by"; "replacement"].

Definition from_map (m : list (string * Value)) : option DataCube :=
  bands ← de_default (de_map (de_vec as_str)) [] "bands" m;
  band_scales ← de_default (de_map de_pair) [] "band_scales" m;
  collection ← de_option as_str "collection" m;
  bbox ← de_option (de_vec as_f64) "bbox" m;
  scene_count ← de_option as_u64 "scene_count" m;
  datetimes ← de_option (de_vec as_str) "datetimes" m;
  times ← de_option as_u64 "times" m;
  layers ← de_option as_u64 "layers" m;
  layer_names ← de_option (de_vec as_str) "layer_names" m;
  source_band ← de_option as_str "source_band" m;
  masked_bands ← de_option (de_vec as_str) "masked_bands" m;
  masked_by ← de_option as_str "masked_by" m;
  replacement ← de_option as_i64 "replacement" m;
  Some (mkDataCube bands band_scales collection bbox scene_count datetimes times layers layer_names
    source_band masked_bands masked_by replacement
    (bt_of_list (filter (λ e, e.1 ∉ field_names) m))).

Section envelope.
Context (serde_error : Value → string).

Definition from_value (v : Value) : result DataCubeError DataCube :=
  ok_or (as_object v ≫= from_map) (Decode (serde_error v)).

Definition from_envelope (v : Value) : result DataCubeError DataCube :=
  match default v (jget "__cube" v) with
  | Null => Err MissingEnvelope
  | inner => from_value inner
  end.

Definition from_raster_envelope (raster : Value) : result DataCubeError DataCube :=
  path ← ok_or (jget "path" raster ≫= as_str)
    (Decode "__raster envelope: missing `path` (string)");
  Ok (mkDataCube [("result", [path])] [] None None (Some 1) None None None None None None None
    None []).

Definition from_envelope_owned (v : Value) : result DataCubeError DataCube :=
  match jget "__raster" v with
  | Some raster => from_raster_envelope raster
  | None => from_envelope v
  end.
End envelope.

(** ** Encoding (serde's derived [Serialize]) *)

Definition str_array (l : list string) : Value := Array (JString <$> l).
Definition json_of_i64 (n : Z) : Value := Number (if n <? 0 then NegInt n else PosInt n).

(** The members in the order of the struct; those that are [None] are skipped. *)
Definition slots (c : DataCube) : list (string * option Value) := [
  ("bands", Some (Object (prod_map id str_array <$> bands c)));
  ("band_scales",
   if bool_decide (band_scales c = []) then None
   else Some (Object (prod_map id (λ p : f64 * f64, Array [json_of_f64 p.1; json_of_f64 p.2])
                      <$> band_scales c)));
  ("collection", JString <$> cube_collection c);
  ("bbox", (λ l, Array (json_of_f64 <$> l)) <$> bbox c);
  ("scene_count", (λ n, Number (PosInt n)) <$> scene_count c);
  ("datetimes", str_array <$> datetimes c);
  ("times", (λ n, Number (PosInt n)) <$> times c);
  ("layers", (λ n, Number (PosInt n)) <$> layers c);
  ("layer_names", str_array <$> layer_names c);
  ("source_band", JString <$> source_band c);
  ("masked_bands", str_array <$> masked_bands c);
  ("masked_by", JString <$> masked_by c);
  ("replacement", json_of_i64 <$> replacement c)].

Definition fields (c : DataCube) : list (string * Value) :=
  omap (λ e : string * option Value, v ← e.2; Some (e.1, v)) (slots c).

(** The flattened members are set after the others: an equal key overwrites. *)
Definition to_map (c : DataCube) : list (string * Value) :=
  foldl (λ m e, assoc_set e.1 e.2 m) (fields c) (extras c).

Definition to_envelope (c : DataCube) : Value := Object [("__cube", Object (to_map c))].

(** ** Lemmas on member lists *)

Lemma assoc_get_app {A} k (l1 l2 : list (string * A)) :
  assoc_get k (l1 ++ l2) = match assoc_get k l1 with Some v => Some v | None => assoc_get k l2 end.
Proof. induction l1 as [|[k' v] l1 IH]; [done|]. simpl. by destruct (bool_decide _). Qed.

Lemma assoc_get_None {A} k (l : list (string * A)) : assoc_get k l = None ↔ k ∉ l.*1.
Proof. rewrite <- assoc_get_is_Some. by rewrite eq_None_not_Some. Qed.

Lemma assoc_set_fresh {A} k (v : A) l : k ∉ l.*1 → assoc_set k v l = l ++ [(k, v)].
Proof.
  induction l as [|[k' v'] l IH]; [done|]. simpl. intros [Hne Hk]%not_elem_of_cons.
  rewrite bool_decide_eq_false_2 by done. by rewrite IH.
Qed.

Lemma assoc_set_all_fresh {A} (l : list (string * A)) : ∀ m,
  NoDup l.*1 → (∀ k, k ∈ l.*1 → k ∉ m.*1) → foldl (λ m e, assoc_set e.1 e.2 m) m l = m ++ l.
Proof.
  induction l as [|[k v] l IH]; intros m Hnd Hf; simpl; [by rewrite app_nil_r|].
  simpl in Hnd. apply NoDup_cons in Hnd as [Hk Hnd].
  rewrite assoc_set_fresh by (apply Hf; by left). rewrite IH; [by rewrite <- app_assoc|done|].
  intros k' Hk'. rewrite fmap_app, elem_of_app. simpl. rewrite list_elem_of_singleton.
  intros [Hm| ->]; [|done]. apply (Hf k'); [by right|done].
Qed.

Lemma assoc_get_omap (k : string) (l : list (string * option Value)) : NoDup l.*1 →
  assoc_get k (omap (λ e : string * option Value, v ← e.2; Some (e.1, v)) l) =
  assoc_get k l ≫= id.
Proof.
  induction l as [|[k' [v|]] l IH]; simpl; [done|..]; intros [Hk Hnd]%NoDup_cons.
  - destruct (bool_decide_reflect (k = k')); [done|by apply IH].
  - destruct (bool_decide_reflect (k = k')) as [->|]; [|by apply IH].
    etrans; [by apply IH|]. apply assoc_get_None in Hk. by rewrite Hk.
Qed.

Lemma bt_of_list_id {A} (t : btree string A) : bt_wf t → bt_of_list t = t.
Proof.
  intros Hwf. unfold bt_of_list.
  assert (∀ t m : btree string A, bt_wf (m ++ t) →
    foldl (λ m e, bt_insert e.1 e.2 m) m t = m ++ t) as H.
  { clear. induction t as [|[k v] t IH]; intros m Hm; simpl; [by rewrite app_nil_r|].
    rewrite bt_insert_last.
    - rewrite IH; by rewrite <- app_assoc.
    - unfold bt_wf in Hm. apply StronglySorted_app in Hm as (Hlt & _ & _).
      apply Forall_forall. intros e He. apply Hlt; [done|by left]. }
  apply (H t []). done.
Qed.

(** ** Well-formed cubes and JSON values *)

Definition finite_pair (p : f64 * f64) : Prop := is_finite p.1 = true ∧ is_finite p.2 = true.

(** What every decoded cube satisfies. *)
Record cube_wf (c : DataCube) : Prop := {
  wf_bands : bt_wf (bands c);
  wf_scales : bt_wf (band_scales c);
  wf_scales_finite : Forall (λ e, finite_pair e.2) (band_scales c);
  wf_bbox : ∀ l, bbox c = Some l → Forall (λ x, is_finite x = true) l;
  wf_replacement : ∀ n, replacement c = Some n → n < 2 ^ 63;
  wf_extras : bt_wf (extras c);
  wf_extras_keys : Forall (λ e, e.1 ∉ field_names) (extras c) }.

(** The numbers serde_json holds: a negative integer is negative, and every
    number is finite as a double. *)
Fixpoint numbers_ok (v : Value) : bool :=
  match v with
  | Number n =>
      (match n with NegInt z => z <? 0 | _ => true end)
      && match as_f64 v with Some x => is_finite x | None => false end
  | Array l => forallb numbers_ok l
  | Object m => forallb (λ e, numbers_ok e.2) m
  | _ => true
  end.

Lemma numbers_ok_jget k v x : numbers_ok v = true → jget k v = Some x → numbers_ok x = true.
Proof.
  unfold jget. destruct v as [| | | | |m]; try done. simpl. intros Hm Hx.
  apply assoc_get_In in Hx. rewrite forallb_forall in Hm.
  apply (Hm (k, x)). by apply list_elem_of_In.
Qed.

(** ** Decoding what was encoded *)

Lemma mapM_fmap_id {A B} (f : A → B) (g : B → option A) l :
  (∀ x, x ∈ l → g (f x) = Some x) → mapM g (f <$> l) = Some l.
Proof.
  intros Hg. apply mapM_Some_2, Forall2_fmap_l.
  induction l as [|x l IH]; constructor; [apply Hg; by left|]. apply IH. intros; apply Hg; by right.
Qed.

Lemma de_str_array l : de_vec as_str (str_array l) = Some l.
Proof. unfold de_vec. simpl. by apply mapM_fmap_id. Qed.

Lemma as_f64_json x : is_finite x = true → as_f64 (json_of_f64 x) = Some x.
Proof. unfold json_of_f64. by intros ->. Qed.

Lemma as_i64_json n : n < 2 ^ 63 → as_i64 (json_of_i64 n) = Some n.
Proof.
  intros Hn. unfold json_of_i64. destruct (Z.ltb_spec n 0); simpl; [done|].
  destruct (Z.ltb_spec n (2 ^ 63)); [done|lia].
Qed.

Lemma de_map_encoded {A} (ser : A → Value) (de : Value → option A) (t : btree string A) :
  bt_wf t → (∀ k x, (k, x) ∈ t → de (ser x) = Some x) →
  de_map de (Object (prod_map id ser <$> t)) = Some t.
Proof.
  intros Hwf Hde. unfold de_map. simpl. rewrite (mapM_fmap_id (prod_map id ser)).
  - simpl. by rewrite bt_of_list_id.
  - intros [k x] Hx. simpl. by rewrite (Hde k x).
Qed.

(** The value of each slot of an encoded cube. *)
Lemma slots_keys c : (slots c).*1 = field_names.
Proof. done. Qed.

Lemma field_names_nodup : NoDup field_names.
Proof. apply (bool_decide_unpack _). vm_compute. exact I. Qed.

Lemma fields_get c k : assoc_get k (fields c) = assoc_get k (slots c) ≫= id.
Proof. apply assoc_get_omap. rewrite slots_keys. apply field_names_nodup. Qed.

Lemma fields_keys c k : k ∈ (fields c).*1 → k ∈ field_names.
Proof.
  rewrite <- (slots_keys c). unfold fields. generalize (slots c).
  intros l (e & -> & He)%list_elem_of_fmap. apply list_elem_of_omap in He as ([k' o] & Hin & He).
  destruct o; simpl in He; [|done]. injection He as <-. simpl.
  by apply (list_elem_of_fmap_2 fst) in Hin.
Qed.

Lemma to_map_app c : cube_wf c → to_map c = fields c ++ extras c.
Proof.
  intros Hc. unfold to_map. apply assoc_set_all_fresh; [by apply bt_wf_nodup, wf_extras|].
  intros k (e & -> & He)%list_elem_of_fmap Hk. apply fields_keys in Hk.
  pose proof (wf_extras_keys c Hc) as Hx. rewrite Forall_forall in Hx. by apply (Hx e).
Qed.

Lemma to_map_get c k : cube_wf c → k ∈ field_names →
  assoc_get k (to_map c) = assoc_get k (slots c) ≫= id.
Proof.
  intros Hc Hk. rewrite to_map_app, assoc_get_app, fields_get by done.
  destruct (assoc_get k (slots c) ≫= id); [done|]. apply assoc_get_None.
  intros (e & -> & He)%list_elem_of_fmap. pose proof (wf_extras_keys c Hc) as Hx.
  rewrite Forall_forall in Hx. by apply (Hx e).
Qed.

Lemma de_option_encoded {A} (ser : A → Value) (de : Value → option A) k c (o : option A) :
  cube_wf c → k ∈ field_names → assoc_get k (slots c) = Some (ser <$> o) →
  (∀ x, o = Some x → ser x ≠ Null ∧ de (ser x) = Some x) → de_option de k (to_map c) = Some o.
Proof.
  intros Hc Hk Hs Hde. unfold de_option. rewrite to_map_get, Hs by done. simpl.
  destruct o as [x|]; [|done]. simpl. destruct (Hde x eq_refl) as [Hn ->]. by destruct (ser x).
Qed.

Lemma extras_encoded c : cube_wf c →
  bt_of_list (filter (λ e, e.1 ∉ field_names) (to_map c)) = extras c.
Proof.
  intros Hc. rewrite to_map_app, filter_app by done.
  assert (filter (λ e : string * Value, e.1 ∉ field_names) (fields c) = []) as ->.
  { pose proof (fields_keys c) as Hk. induction (fields c) as [|e l IH]; [done|].
    rewrite filter_cons, decide_False; [|intros Hn; apply Hn, Hk; by left].
    apply IH. intros k Hin. apply Hk. by right. }
  simpl. assert (filter (λ e : string * Value, e.1 ∉ field_names) (extras c) = extras c) as ->.
  { pose proof (wf_extras_keys c Hc) as Hx. induction Hx as [|e l He _ IH]; [done|].
    by rewrite filter_cons, decide_True, IH. }
  apply bt_of_list_id, wf_extras, Hc.
Qed.

Ltac in_names := apply (bool_decide_unpack _); vm_compute; exact I.

Lemma from_map_encoded c : cube_wf c → from_map (to_map c) = Some c.
Proof.
  intros Hc. unfold from_map.
  assert (de_default (de_map (de_vec as_str)) [] "bands" (to_map c) = Some (bands c)) as ->.
  { unfold de_default. rewrite to_map_get; [|done|in_names]. simpl.
    apply de_map_encoded; [by apply wf_bands|]. intros; apply de_str_array. }
  assert (de_default (de_map de_pair) [] "band_scales" (to_map c) = Some (band_scales c)) as ->.
  { unfold de_default. rewrite to_map_get; [|done|in_names]. simpl.
    case_bool_decide as Hs; simpl; [by rewrite Hs|].
    apply (de_map_encoded (λ p : f64 * f64, Array [json_of_f64 p.1; json_of_f64 p.2]));
      [by apply wf_scales|]. intros k [x y] Hx. simpl.
    pose proof (wf_scales_finite c Hc) as Hf. rewrite Forall_forall in Hf.
    destruct (Hf _ Hx) as [? ?]. by rewrite !as_f64_json. }
  cbn [mbind option_bind].
  assert (de_option as_str "collection" (to_map c) = Some (cube_collection c)) as ->
    by (by apply (de_option_encoded JString _ "collection" c (cube_collection c) Hc ltac:(in_names) eq_refl)).
  cbn [mbind option_bind].
  rewrite (de_option_encoded (λ l, Array (json_of_f64 <$> l)) _ "bbox" c (bbox c) Hc
    ltac:(in_names) eq_refl).
  2: { intros l Hl. split; [done|]. unfold de_vec. simpl. apply mapM_fmap_id.
    pose proof (wf_bbox c Hc l Hl) as Hf. rewrite Forall_forall in Hf. intros x Hx.
    by apply as_f64_json, Hf. }
  cbn [mbind option_bind].
  assert (∀ k (o : option Z), k ∈ field_names →
    assoc_get k (slots c) = Some ((λ n, Number (PosInt n)) <$> o) →
    de_option as_u64 k (to_map c) = Some o) as Hnum
    by (intros k o Hk Hs; by apply (de_option_encoded (λ n, Number (PosInt n)) _ _ c)).
  assert (∀ k (o : option (list string)), k ∈ field_names →
    assoc_get k (slots c) = Some (str_array <$> o) →
    de_option (de_vec as_str) k (to_map c) = Some o) as Hstrs
    by (intros k o Hk Hs; apply (de_option_encoded str_array _ _ c); [done..|];
        intros l _; split; [done|apply de_str_array]).
  assert (∀ k (o : option string), k ∈ field_names →
    assoc_get k (slots c) = Some (JString <$> o) →
    de_option as_str k (to_map c) = Some o) as Hstr
    by (intros k o Hk Hs; by apply (de_option_encoded JString _ _ c)).
  rewrite (Hnum "scene_count" (scene_count c) ltac:(in_names) eq_refl). cbn [mbind option_bind].
  rewrite (Hstrs "datetimes" (datetimes c) ltac:(in_names) eq_refl). cbn [mbind option_bind].
  rewrite (Hnum "times" (times c) ltac:(in_names) eq_refl). cbn [mbind option_bind].
  rewrite (Hnum "layers" (layers c) ltac:(in_names) eq_refl). cbn [mbind option_bind].
  rewrite (Hstrs "layer_names" (layer_names c) ltac:(in_names) eq_refl). cbn [mbind option_bind].
  rewrite (Hstr "source_band" (source_band c) ltac:(in_names) eq_refl). cbn [mbind option_bind].
  rewrite (Hstrs "masked_bands" (masked_bands c) ltac:(in_names) eq_refl). cbn [mbind option_bind].
  rewrite (Hstr "masked_by" (masked_by c) ltac:(in_names) eq_refl). cbn [mbind option_bind].
  rewrite (de_option_encoded json_of_i64 _ "replacement" c (replacement c) Hc
    ltac:(in_names) eq_refl).
  2: { intros n Hn. split; [done|]. by apply as_i64_json, (wf_replacement c Hc). }
  cbn [mbind option_bind]. rewrite extras_encoded by done. by destruct c.
Qed.

(** ** Decoded cubes are well formed *)

Lemma mapM_forall {A B} (f : A → option B) (P : A → Prop) (Q : B → Prop) l l' :
  mapM f l = Some l' → Forall P l → (∀ x y, P x → f x = Some y → Q y) → Forall Q l'.
Proof.
  intros Hm%mapM_Some Hl Hf. induction Hm as [|x y l l' Hx _ IH]; [constructor|].
  apply Forall_cons in Hl as [Hp Hl]. constructor; [by eapply Hf|by apply IH].
Qed.

Lemma as_f64_finite v x : numbers_ok v = true → as_f64 v = Some x → is_finite x = true.
Proof.
  intros Hv Hx. destruct v as [| |n| | |]; try done. cbn [numbers_ok] in Hv. rewrite Hx in Hv.
  by apply andb_prop in Hv as [_ ?].
Qed.

Lemma numbers_ok_elems l : numbers_ok (Array l) = true → Forall (λ v, numbers_ok v = true) l.
Proof. simpl. rewrite forallb_forall, Forall_forall. intros H x Hx. by apply H, list_elem_of_In. Qed.

Lemma bt_of_list_forall {A} (P : string * A → Prop) l : Forall P l → Forall P (bt_of_list l).
Proof.
  unfold bt_of_list. assert (Forall P []) as H0 by constructor. revert H0.
  generalize (@nil (string * A)). induction l as [|e l IH]; intros t Ht Hl; [done|].
  apply Forall_cons in Hl as [He Hl]. apply IH; [|done]. apply bt_insert_forall; [by destruct e|done].
Qed.

Lemma bind_Some_inv {A B} (o : option A) (f : A → option B) b :
  o ≫= f = Some b → ∃ a, o = Some a ∧ f a = Some b.
Proof. destruct o as [a|]; [|done]. by exists a. Qed.

Lemma from_map_wf m c : numbers_ok (Object m) = true → from_map m = Some c → cube_wf c.
Proof.
  intros Hm H. unfold from_map in H.
  repeat (apply bind_Some_inv in H as (? & ? & H)). injection H as <-.
  assert (∀ k v, assoc_get k m = Some v → numbers_ok v = true) as Hk
    by (intros k v Hv; by apply (numbers_ok_jget k (Object m))).
  assert (∀ A (de : Value → option A) k t, de_default (de_map de) [] k m = Some t → bt_wf t) as Hbt.
  { intros A de k t. unfold de_default, de_map. destruct (assoc_get k m) as [v|].
    - intros (mm & _ & (l & _ & [= <-])%bind_Some_inv)%bind_Some_inv. by apply bt_wf_of_list.
    - intros [= <-]. by apply bt_wf_nil. }
  split; simpl.
  - by eapply Hbt.
  - by eapply Hbt.
  - unfold de_default, de_map in *.
    destruct (assoc_get "band_scales" m) as [v|] eqn:Ev; [|by simplify_eq].
    match goal with H : as_object v ≫= _ = Some _ |- _ =>
      apply bind_Some_inv in H as (mm & Hmm & (l & Hl & [= <-])%bind_Some_inv) end.
    apply bt_of_list_forall. destruct v as [| | | | |mm']; try done. injection Hmm as ->.
    apply Hk in Ev. eapply (mapM_forall _ (λ e : string * Value, numbers_ok e.2 = true)); [exact Hl| |].
    + simpl in Ev. rewrite forallb_forall in Ev. apply Forall_forall. intros e He.
      by apply Ev, list_elem_of_In.
    + intros [k v] [k' q] Hv (p & Hp & [= <- ->])%bind_Some_inv. simpl in *.
      destruct v as [| | | |[|a [|b []]]|]; try done. simpl in Hp.
      apply numbers_ok_elems in Hv. apply Forall_cons in Hv as [Ha [Hb _]%Forall_cons].
      apply bind_Some_inv in Hp as (xa & Hx & (xb & Hy & [= <-])%bind_Some_inv).
      split; [by apply (as_f64_finite a)|by apply (as_f64_finite b)].
  - intros l ->. unfold de_option in *. destruct (assoc_get "bbox" m) as [v|] eqn:Ev; [|done].
    apply Hk in Ev. destruct v as [| | | |vs|]; try done.
    match goal with H : _ <$> de_vec as_f64 _ = Some (Some l) |- _ =>
      apply fmap_Some in H as (l' & Hl & [= <-]) end.
    unfold de_vec in Hl. simpl in Hl. apply numbers_ok_elems in Ev.
    eapply (mapM_forall _ _ _ _ _ Hl Ev). intros; by eapply as_f64_finite.
  - intros n ->. unfold de_option in *. destruct (assoc_get "replacement" m) as [v|] eqn:Ev; [|done].
    apply Hk in Ev. destruct v as [| |[z|z|]| | |]; try done; simpl in *.
    + destruct (Z.ltb_spec z (2 ^ 63)); [|done].
      match goal with H : _ <$> _ = Some (Some n) |- _ => injection H as -> end. done.
    + apply andb_prop in Ev as [Hz _]. apply Z.ltb_lt in Hz.
      match goal with H : _ = Some (Some n) |- _ => injection H as -> end. lia.
  - by apply bt_wf_of_list.
  - apply bt_of_list_forall. apply Forall_forall. by intros e [? _]%list_elem_of_filter.
Qed.

Lemma find_bad_None p s : find_bad p s = None ↔ str_all p s = true.
Proof. induction s as [|c s IH]; simpl; [done|]. by destruct (p c). Qed.

(** The names that reach the file system: one path component of at most 64
    harmless characters, which is not relative and hides no parent directory. *)
Lemma validate_identifier_spec `{DebugText} name field :
  validate_identifier name field = Ok tt ↔
  (1 ≤ String.length name ≤ 64)%nat ∧ str_all identifier_char name = true ∧
  starts_with "-" name = false ∧ starts_with "." name = false ∧ str_contains ".." name = false.
Proof.
  unfold validate_identifier. destruct (_ || _) eqn:E1.
  { split; [done|]. intros ([? ?] & _). apply orb_prop in E1 as [?%Z.eqb_eq|?%Z.ltb_lt]; lia. }
  apply orb_false_elim in E1 as [?%Z.eqb_neq ?%Z.ltb_ge].
  destruct (starts_with "-" name), (starts_with "." name); simpl; try naive_solver.
  pose proof (find_bad_None identifier_char name) as Hb.
  destruct (find_bad identifier_char name) as [rest|].
  { split; [done|]. intros (_ & Ha & _). apply Hb in Ha. done. }
  destruct (str_contains ".." name); [naive_solver|].
  split; [|done]. intros _. split; [lia|]. split; [by apply Hb|done].
Qed.

Lemma decode_encoded serde_error c : cube_wf c → from_envelope_owned serde_error (to_envelope c) = Ok c.
Proof.
  intros Hc. unfold from_envelope_owned, from_envelope, from_value. simpl. by rewrite from_map_encoded.
Qed.

Lemma decoded_wf serde_error v c :
  numbers_ok v = true → from_envelope_owned serde_error v = Ok c → cube_wf c.
Proof.
  intros Hv. unfold from_envelope_owned. destruct (jget "__raster" v) as [raster|].
  - unfold from_raster_envelope. destruct (jget "path" raster ≫= as_str); [|done].
    intros [= <-]. by split; simpl; repeat constructor.
  - unfold from_envelope. set (inner := default v (jget "__cube" v)).
    assert (numbers_ok inner = true) as Hi.
    { unfold inner. destruct (jget "__cube" v) as [x|] eqn:E; [|done].
      by apply (numbers_ok_jget "__cube" v). }
    destruct inner as [| | | | |m]; try done. unfold from_value. simpl.
    destruct (from_map m) as [c'|] eqn:E; [|done]. intros [= <-]. by eapply from_map_wf.
Qed.

(** ** Properties *)

(** C12: a cube survives the envelope: encoding a well-formed cube and decoding
    the envelope gives the cube back, through both decoders, whatever its
    metadata and additional members; and every cube decoded from a value that
    serde_json can hold is well formed, so that handing a received cube on
    loses nothing. *)
Theorem cube_roundtrip (serde_error : Value → string) :
  (∀ c, cube_wf c →
     from_envelope_owned serde_error (to_envelope c) = Ok c ∧
     from_envelope serde_error (to_envelope c) = Ok c) ∧
  (∀ v c, numbers_ok v = true → from_envelope_owned serde_error v = Ok c → cube_wf c).
Proof.
  split; [|apply decoded_wf]. intros c Hc. pose proof (decode_encoded serde_error c Hc) as E.
  split; [exact E|]. exact E.
Qed.

Definition demo_cube : DataCube :=
  mkDataCube [("B04", ["/tmp/r0.tif"; "/tmp/r1.tif"]); ("SCL", ["/tmp/s0.tif"; "/tmp/s1.tif"])]
    [("B04", (f64_one, f64_zero))] (Some "sentinel-2-l2a") (Some [f64_zero; f64_zero; f64_one; f64_one])
    (Some 2) (Some ["2024-06-01T00:00:00Z"; "2024-06-02T00:00:00Z"]) None None None None None None
    (Some (-1)) [("produced_by", JString "load_collection")].

Lemma demo_cube_wf : cube_wf demo_cube.
Proof.
  split; simpl.
  - repeat constructor.
  - repeat constructor.
  - repeat constructor.
  - intros l [= <-]. repeat constructor.
  - intros n [= <-]. done.
  - repeat constructor.
  - constructor; [|constructor]. apply (bool_decide_unpack _). vm_compute. exact I.
Qed.

Lemma cube_roundtrip_witness :
  from_envelope_owned (λ _, "") (to_envelope demo_cube) = Ok demo_cube ∧ cube_wf demo_cube.
Proof.
  split; [apply (proj1 (cube_roundtrip (λ _, ""))), demo_cube_wf|].
  apply (proj2 (cube_roundtrip (λ _, "")) (to_envelope demo_cube) demo_cube); vm_compute; reflexivity.
Defined.
