(* ===== verification/Window.v ===== *)
(** * Crop windows and the in-process copy

    crates/orbit-geo/src/providers.rs and eo-io's vsi.rs: the guard on coordinate
    systems, the rewriting and signing of links, the argument vector of
    gdal_translate, the pixel window of a bounding box and the copy of that
    window into a new raster.  GDAL is a parameter: [Gdal] has the calls the copy
    makes.  Arithmetic on [isize] wraps, as in a release build; an index outside
    of a slice or vector is [None], the panic of the code. *)

From Stdlib Require Import Ascii.
From S2P Require Import Prelude F64 Text Json Cube.
Local Open Scope Z_scope.

(** ** Coordinate systems and links *)

Definition crs_char (c : ascii) : bool :=
  is_alnum c || bool_decide (c ∈ ["+"; "-"; "_"; "="; "."; ":"; "/"; ","; " "]%char).

(** The tokens and characters refused outright, then the allowed characters;
    the last test of the code can no longer fail. *)
Definition validate_crs_spec (debug_char : string → string) (crs : string) : result string unit :=
  let len := Z.of_nat (String.length crs) in
  if (len =? 0) || (128 <? len) then Err "CRS spec length must be 1..=128"
  else
    match filter (λ bad, str_contains bad crs = true) ["+nadgrids"; "@"; "+wktext"] with
    | bad :: _ => Err ("CRS spec contains disallowed token: " +:+ bad)
    | [] =>
        match find_bad crs_char crs with
        | Some rest => Err ("CRS spec contains disallowed character: " +:+ debug_char rest)
        | None =>
            match filter (λ c, has_char c crs = true)
                    ["$"; "`"; ";"; "|"; "&"; "010"; "013"; "000"]%char with
            | c :: _ => Err ("CRS spec contains shell metacharacter: " +:+ debug_char (chr c))
            | [] => Ok tt
            end
        end
    end.

Definition vsi_rewrite (url : string) : string :=
  if starts_with "/vsi" url then url
  else match strip_prefix "s3://" url with Some rest => "/vsis3/" +:+ rest | None =>
  match strip_prefix "gs://" url with Some rest => "/vsigs/" +:+ rest | None =>
  match strip_prefix "az://" url with Some rest => "/vsiaz/" +:+ rest | None =>
  if starts_with "http://" url || starts_with "https://" url then "/vsicurl/" +:+ url else url
  end end end.

Definition unreserved (c : ascii) : bool :=
  is_alnum c || bool_decide (c ∈ ["-"; "_"; "."; "~"]%char).

(** The upper-case hexadecimal digit of a number below 16. *)
Definition hex_upper (d : Z) : ascii := ascii_of (if d <? 10 then 48 + d else 55 + d).

Fixpoint percent_encode (s : string) : string :=
  match s with
  | EmptyString => ""
  | String c s' =>
      if unreserved c then String c (percent_encode s')
      else String "%" (String (hex_upper (byte_of c / 16)) (String (hex_upper (byte_of c mod 16))
             (percent_encode s')))
  end.

Definition planetary_computer_sign_endpoint (raw_asset_url : string) : string :=
  "https://planetarycomputer.microsoft.com/api/sas/v1/sign?href=" +:+ percent_encode raw_asset_url.

(** The body is the JSON text [parse] reads. *)
Definition parse_signed_response {B} (parse : B → result string Value) (body : B)
    : result string string :=
  v ← map_err (λ e, "PC sign response JSON: " +:+ e) (parse body);
  ok_or (jget "href" v ≫= as_str) "PC sign response missing 'href' field".

Definition sign_planetary_computer_url {B W} (parse : B → result string Value)
    (get : string → W → result string (result string B) * W) (raw_asset_url : string) (w : W)
    : result string string * W :=
  let endpoint := planetary_computer_sign_endpoint raw_asset_url in
  match get endpoint w with
  | (Err e, w) => (Err ("PC sign GET " +:+ endpoint +:+ ": " +:+ e), w)
  | (Ok (Err e), w) => (Err ("PC sign body read: " +:+ e), w)
  | (Ok (Ok body), w) => (parse_signed_response parse body, w)
  end.

(** ** Windows *)

Record CropWindow := mkCropWindow { min_x : f64; min_y : f64; max_x : f64; max_y : f64 }.

(** What the search result says about a raster (async_download.rs). *)
Record BandMetadataHint := mkHint {
  h_epsg : option Z; h_geo_transform : option (list f64); h_raster_size : option (Z * Z);
  h_dtype : option string; h_nodata : option f64 }.

Definition build_gdal_translate_argv (f64_display : f64 → string) (debug_char : string → string)
    (src dst : string) (crop : option CropWindow) (crop_crs : option string) : list string :=
  ["gdal_translate"; "-q"]
  ++ match crop with
     | None => []
     | Some w =>
         ["-projwin"; f64_display (min_x w); f64_display (max_y w); f64_display (max_x w);
          f64_display (min_y w)]
         ++ match crop_crs with
            | Some crs =>
                match validate_crs_spec debug_char crs with Ok _ => ["-projwin_srs"; crs] | Err _ => [] end
            | None => []
            end
     end
  ++ [src; dst].

Definition isize (n : Z) : Z := to_signed 64 n.

Definition thousandth : f64 := Eval vm_compute in f64_div f64_one (f64_of_Z 1000).

(** One axis of GDAL's -projwin rounding: the first pixel, and the number of
    pixels from its edge to the other end. *)
Definition projwin_axis (near far origin pix : f64) : Z * f64 :=
  let off := f64_to_i64 (f64_floor (f64_add (f64_div (f64_sub near origin) pix) thousandth)) in
  let snapped := f64_add (f64_mul (f64_of_Z off) pix) origin in
  (off, f64_ceil (f64_sub (f64_div (f64_sub far snapped) pix) thousandth)).

Definition no_pixels (cols_f rows_f : f64) : bool :=
  negb (is_finite cols_f) || negb (is_finite rows_f) || f64_ltb cols_f f64_one || f64_ltb rows_f f64_one.

(** A window of pixels; it may lie partly outside of the raster. *)
Record PixelWindow := mkPixelWindow { col_off : Z; row_off : Z; cols : Z; rows : Z }.

Definition is_zero (x : f64) : bool := f64_eqb x f64_zero.

(** async_download.rs *)
Definition native_crs_pixel_window (f64_display : f64 → string) (crop : CropWindow)
    (origin_x pix_w origin_y pix_h : f64) : result string PixelWindow :=
  if is_zero pix_w || is_zero pix_h then
    Err ("async_tiff: degenerate geo_transform pix_w=" +:+ f64_display pix_w +:+ " pix_h=" +:+ f64_display pix_h)
  else
    let '(col_off, cols_f) := projwin_axis (min_x crop) (max_x crop) origin_x pix_w in
    let '(row_off, rows_f) := projwin_axis (max_y crop) (min_y crop) origin_y pix_h in
    if no_pixels cols_f rows_f then
      Err ("async_tiff: degenerate projwin (crop=[" +:+ f64_display (min_x crop) +:+ ","
        +:+ f64_display (max_y crop) +:+ "]-[" +:+ f64_display (max_x crop) +:+ ","
        +:+ f64_display (min_y crop) +:+ "])")
    else Ok (mkPixelWindow col_off row_off (f64_to_u64 cols_f) (f64_to_u64 rows_f)).

(** ** Copying blocks of pixels *)

Section copy.
Context {T : Type}.

(** [l[i..i + n]] and [l[i..i + n].copy_from_slice(xs)]. *)
Definition slice (i n : nat) (l : list T) : option (list T) :=
  if (i + n <=? length l)%nat then Some (take n (drop i l)) else None.
Definition splice (i : nat) (xs l : list T) : option (list T) :=
  if (i + length xs <=? length l)%nat then Some (take i l ++ xs ++ drop (i + length xs) l) else None.

(** A loop that copies runs of [n] pixels: each pair is a source and a
    destination index. *)
Fixpoint copy_rows (runs : list (nat * nat)) (n : nat) (src out : list T) : option (list T) :=
  match runs with
  | [] => Some out
  | (s, d) :: runs =>
      data ← slice s n src;
      out ← splice d data out;
      copy_rows runs n src out
  end.
End copy.

(** The part of a window that lies in the raster: first column and row, end
    column and row. *)
Record ReadWindow := mkReadWindow { r_col_start : Z; r_row_start : Z; r_col_end : Z; r_row_end : Z }.

Definition read_window (w : PixelWindow) (src_cols_total src_rows_total : Z) : ReadWindow :=
  mkReadWindow (Z.max (col_off w) 0) (Z.max (row_off w) 0)
    (Z.min (Z.max (isize (col_off w + isize (cols w))) 0) (isize src_cols_total))
    (Z.min (Z.max (isize (row_off w + isize (rows w))) 0) (isize src_rows_total)).

(** ** GDAL *)

Inductive PixelType := UInt8 | UInt16 | Int16 | Float32.
#[export] Instance PixelType_eq_dec : EqDecision PixelType.
Proof. solve_decision. Defined.

Definition pixel (t : PixelType) : Type := match t with Float32 => f32 | _ => Z end.
Definition pixel_default (t : PixelType) : pixel t :=
  match t with Float32 => f64_zero | _ => 0 end.
Inductive DType := Known (t : PixelType) | OtherType (name : string).

(** num_traits' [NumCast], to and between pixel types. *)
Class NumCast := {
  cast_f64 : ∀ t, f64 → option (pixel t);
  cast_pixel : ∀ s t, pixel s → option (pixel t) }.

Record Band := mkBand {
  band_type : DType;
  no_data_value : option f64;
  read_as : ∀ t, Z * Z → Z * Z → result string (list (pixel t)) }.

Record Source (SR : Type) := mkSource {
  geo_transform : result string (list f64);
  raster_size : Z * Z;
  spatial_ref : result string SR;
  rasterband : result string Band }.
Arguments geo_transform {SR}. Arguments raster_size {SR}. Arguments spatial_ref {SR}.
Arguments rasterband {SR}.

Record Gdal (SR DS W : Type) := mkGdal {
  create_dir_all : string → W → result string unit * W;
  open_dataset : string → W → result string (Source SR);
  from_definition : string → result string SR;
  traditional_axes : SR → SR;
  coord_transform : SR → SR → result string (list f64 → result string (list f64));
  driver : string → result string unit;
  mem_create : ∀ t : PixelType, Z → Z → result string DS;
  set_geo_transform : DS → list f64 → result string DS;
  set_spatial_ref : DS → SR → result string DS;
  ds_rasterband : DS → result string unit;
  set_no_data_value : DS → f64 → result string DS;
  write_band : ∀ t, DS → Z * Z → list (pixel t) → result string DS;
  create_copy : DS → string → W → result string unit * W }.
Arguments create_dir_all {SR DS W}. Arguments open_dataset {SR DS W}.
Arguments from_definition {SR DS W}. Arguments traditional_axes {SR DS W}.
Arguments coord_transform {SR DS W}. Arguments driver {SR DS W}. Arguments mem_create {SR DS W}.
Arguments set_geo_transform {SR DS W}. Arguments set_spatial_ref {SR DS W}.
Arguments ds_rasterband {SR DS W}. Arguments set_no_data_value {SR DS W}.
Arguments write_band {SR DS W}. Arguments create_copy {SR DS W}.

(** ** The in-process download *)

Section in_process.
Context {SR DS W : Type} (gdal : Gdal SR DS W) `{NumCast}.
Context (f64_display fmt1 : f64 → string) (debug_char : string → string).

Definition with_text {A} (what : string) (r : result string A) : result string A :=
  map_err (λ e, what +:+ ": " +:+ e) r.

(** [dst.parent()] *)
Fixpoint trim_slashes (s : string) : string :=
  match s with
  | EmptyString => ""
  | String c s' =>
      match trim_slashes s' with
      | EmptyString => if bool_decide (c = "/"%char) then "" else String c ""
      | t => String c t
      end
  end.
Definition parent (s : string) : option string :=
  match trim_slashes s with
  | EmptyString => None
  | t => match rsplit_once "/" t with
         | Some ("", _) => Some "/"
         | Some (p, _) => Some p
         | None => Some ""
         end
  end.

Definition create_parent (dst : string) (w : W) : result string unit * W :=
  match parent dst with
  | Some p => if bool_decide (p = "") then (Ok tt, w) else create_dir_all gdal p w
  | None => (Ok tt, w)
  end.

Definition gt (l : list f64) (i : nat) : f64 := nth i l f64_zero.

(** The pixel window of a crop; the whole raster without one. *)
Definition crop_window (src_sr : SR) (geo : list f64) (size : Z * Z) (crop : option CropWindow)
    (crop_crs : option string) : result string PixelWindow :=
  let '(origin_x, pix_w, origin_y, pix_h) := (gt geo 0, gt geo 1, gt geo 3, gt geo 5) in
  match crop with
  | None => Ok (mkPixelWindow 0 0 size.1 size.2)
  | Some w =>
      let validated := c ← crop_crs; match validate_crs_spec debug_char c with Ok _ => Some c | Err _ => None end in
      work ← match validated with
             | Some c => with_text ("in_process from_definition " +:+ c) (from_definition gdal c)
             | None => Ok src_sr
             end;
      xform ← with_text "in_process CoordTransform" (coord_transform gdal (traditional_axes gdal work) src_sr);
      b ← with_text "in_process transform_bounds" (xform [min_x w; min_y w; max_x w; max_y w]);
      let '(pulx, plry, plrx, puly) := (gt b 0, gt b 1, gt b 2, gt b 3) in
      let '(col_off, cols_f) := projwin_axis pulx plrx origin_x pix_w in
      let '(row_off, rows_f) := projwin_axis puly plry origin_y pix_h in
      let where_ := "(src=[" +:+ f64_display origin_x +:+ "," +:+ f64_display origin_y +:+ "] "
        +:+ pretty size.1 +:+ "x" +:+ pretty size.2 +:+ ", crop projects to [" +:+ fmt1 pulx +:+ ","
        +:+ fmt1 plrx +:+ "] x [" +:+ fmt1 plry +:+ "," +:+ fmt1 puly +:+ "])" in
      if no_pixels cols_f rows_f then
        Err ("in_process: degenerate projwin produces 0-pixel window " +:+ where_)
      else
        let cols := f64_to_u64 cols_f in
        let rows := f64_to_u64 rows_f in
        let in_x := (0 <? isize (col_off + isize cols)) && (col_off <? isize size.1) in
        let in_y := (0 <? isize (row_off + isize rows)) && (row_off <? isize size.2) in
        if negb in_x || negb in_y then
          Err ("in_process: crop window does not intersect source raster " +:+ where_)
        else Ok (mkPixelWindow col_off row_off cols rows)
  end.

Definition out_geo_transform (origin_x pix_w origin_y pix_h : f64) (w : PixelWindow) : list f64 :=
  [f64_add origin_x (f64_mul (f64_of_Z (col_off w)) pix_w); pix_w; f64_zero;
   f64_add origin_y (f64_mul (f64_of_Z (row_off w)) pix_h); f64_zero; pix_h].

Section typed.
Context (t : PixelType).

Definition fill_value (src_nodata : option f64) : pixel t :=
  default (pixel_default t) (src_nodata ≫= cast_f64 t).

Definition blank (fill : pixel t) (w : PixelWindow) : list (pixel t) :=
  replicate (Z.to_nat (wrap 64 (cols w * rows w))) fill.

(** Row [r] of the pixels read goes to its place in the window. *)
Definition read_runs (w : PixelWindow) (rw : ReadWindow) (read_cols read_rows : Z) : list (nat * nat) :=
  let dst_col_start := r_col_start rw - col_off w in
  let dst_row_start := r_row_start rw - row_off w in
  (λ r, (Z.to_nat (Z.of_nat r * read_cols),
         Z.to_nat ((dst_row_start + Z.of_nat r) * cols w + dst_col_start))) <$> seq 0 (Z.to_nat read_rows).

(** The pixels of the window. *)
Definition window_data (band : Band) (size : Z * Z) (w : PixelWindow) (src_nodata : option f64)
    : option (result string (list (pixel t))) :=
  let rw := read_window w size.1 size.2 in
  let read_cols := sat_sub (r_col_end rw) (r_col_start rw) in
  let read_rows := sat_sub (r_row_end rw) (r_row_start rw) in
  let out := blank (fill_value src_nodata) w in
  if (0 <? read_cols) && (0 <? read_rows) then
    match read_as band t (r_col_start rw, r_row_start rw) (read_cols, read_rows) with
    | Err e => Some (Err ("copy_window read_as col=" +:+ pretty (r_col_start rw) +:+ " row="
                 +:+ pretty (r_row_start rw) +:+ " w=" +:+ pretty read_cols +:+ " h="
                 +:+ pretty read_rows +:+ ": " +:+ e))
    | Ok data => Ok <$> copy_rows (read_runs w rw read_cols read_rows) (Z.to_nat read_cols) data out
    end
  else Some (Ok out).

Definition copy_window_typed (src : Source SR) (src_sr : SR) (out_gt : list f64) (dst : string)
    (size : Z * Z) (win : PixelWindow) (src_nodata : option f64) (w : W)
    : option (result string unit * W) :=
  match with_text "copy_window read rasterband" (rasterband src) with
  | Err e => Some (Err e, w)
  | Ok band =>
      data ← window_data band size win src_nodata;
      match (out_data ← data;
             ds ← with_text "copy_window mem create" (mem_create gdal t (cols win) (rows win));
             ds ← with_text "copy_window set_geo_transform" (set_geo_transform gdal ds out_gt);
             ds ← with_text "copy_window set_spatial_ref" (set_spatial_ref gdal ds src_sr);
             _ ← with_text "copy_window mem rasterband" (ds_rasterband gdal ds);
             let ds := match src_nodata with
                       | Some nd => match set_no_data_value gdal ds nd with Ok ds => ds | Err _ => ds end
                       | None => ds
                       end in
             with_text "copy_window mem write" (write_band gdal t ds (cols win, rows win) out_data)) with
      | Err e => Some (Err e, w)
      | Ok ds =>
          let '(r, w) := create_copy gdal ds dst w in
          Some (with_text ("copy_window create_copy " +:+ dst) r, w)
      end
  end.
End typed.

Definition download_in_process_with_crs (src dst : string) (crop : option CropWindow)
    (crop_crs : option string) (w : W) : option (result string string * W) :=
  match create_parent dst w with
  | (Err e, w) => Some (Err e, w)
  | (Ok _, w) =>
      match (ds ← with_text ("in_process open " +:+ src) (open_dataset gdal src w);
             geo ← with_text ("in_process geo_transform " +:+ src) (geo_transform ds);
             sr ← with_text ("in_process spatial_ref " +:+ src) (spatial_ref ds);
             let sr := traditional_axes gdal sr in
             band ← with_text ("in_process rasterband " +:+ src) (rasterband ds);
             _ ← if is_zero (gt geo 1) || is_zero (gt geo 5) then
                   Err ("in_process: degenerate geo_transform pix_w=" +:+ f64_display (gt geo 1)
                        +:+ " pix_h=" +:+ f64_display (gt geo 5))
                 else Ok tt;
             win ← crop_window sr geo (raster_size ds) crop crop_crs;
             _ ← with_text "in_process MEM driver" (driver gdal "MEM");
             _ ← with_text "in_process GTiff driver" (driver gdal "GTiff");
             match band_type band with
             | OtherType o => Err ("in_process: unsupported source dtype " +:+ o
                                   +:+ " (extend copy_window_typed dispatch)")
             | Known t => Ok (ds, geo, sr, band, win, t)
             end) with
      | Err e => Some (Err e, w)
      | Ok (ds, geo, sr, band, win, t) =>
          '(r, w) ← copy_window_typed t ds sr (out_geo_transform (gt geo 0) (gt geo 1) (gt geo 3) (gt geo 5) win)
                      dst (raster_size ds) win (no_data_value band) w;
          Some (_ ← r; Ok dst, w)
      end
  end.
End in_process.

(** ** What the copying loops do *)

Section copy_facts.
Context {T : Type}.
Implicit Types src out : list T.

Lemma lookup_splice i (xs l l' : list T) k : splice i xs l = Some l' →
  length l' = length l ∧
  l' !! k = if bool_decide (i ≤ k < i + length xs)%nat then xs !! (k - i)%nat else l !! k.
Proof.
  unfold splice. destruct (Nat.leb_spec (i + length xs) (length l)); [|done]. intros [= <-].
  split; [rewrite !length_app, length_take, length_drop; lia|].
  assert (length (take i l) = i) as Hi by (rewrite length_take; lia).
  case_bool_decide as Hk.
  - rewrite lookup_app_r, Hi by lia. by rewrite lookup_app_l by lia.
  - destruct (decide (k < i)%nat).
    + rewrite lookup_app_l by lia. by apply lookup_take_lt.
    + rewrite !lookup_app_r, Hi by lia. rewrite lookup_drop. f_equal. lia.
Qed.

Lemma copy_rows_spec runs n src : ∀ out,
  (∀ s d, (s, d) ∈ runs → (s + n ≤ length src)%nat ∧ (d + n ≤ length out)%nat) →
  ∃ out', copy_rows runs n src out = Some out' ∧ length out' = length out ∧
    ∀ k, (∃ s d, (s, d) ∈ runs ∧ (d ≤ k < d + n)%nat ∧ out' !! k = src !! (s + (k - d))%nat) ∨
         ((∀ s d, (s, d) ∈ runs → ¬ (d ≤ k < d + n)%nat) ∧ out' !! k = out !! k).
Proof.
  induction runs as [|[s d] runs IH]; intros out Hb; simpl.
  { exists out. split_and!; [done..|]. intros k. right. split; [|done]. by intros ?? ?%not_elem_of_nil. }
  destruct (Hb s d) as [Hs Hd]; [by left|].
  unfold slice. rewrite (proj2 (Nat.leb_le _ _) Hs). cbn [mbind option_bind].
  set (data := take n (drop s src)).
  assert (length data = n) as Hn by (unfold data; rewrite length_take, length_drop; lia).
  destruct (splice d data out) as [out1|] eqn:E1.
  2: { unfold splice in E1. rewrite Hn in E1. by rewrite (proj2 (Nat.leb_le _ _) Hd) in E1. }
  cbn [mbind option_bind]. destruct (lookup_splice _ _ _ _ 0 E1) as [Hl _].
  destruct (IH out1) as (out' & -> & Hlen & Hk).
  { intros s' d' Hin. rewrite Hl. apply Hb. by right. }
  exists out'. split; [done|]. split; [congruence|]. intros k.
  destruct (Hk k) as [(s' & d' & Hin & Hr & Ho)|[Hout Ho]].
  { left. exists s', d'. split; [by right|done]. }
  destruct (lookup_splice _ _ _ _ k E1) as [_ Hx]. rewrite Hn in Hx.
  case_bool_decide as Hin.
  - left. exists s, d. split; [by left|]. split; [done|]. rewrite Ho, Hx. unfold data.
    rewrite lookup_take_lt by lia. by rewrite lookup_drop.
  - right. split; [|congruence]. intros s' d' [[= -> ->]|Hi]%elem_of_cons; [done|by eapply Hout].
Qed.
End copy_facts.

(** ** Images and windows on them *)

(** The pixels of rows [r0, r1) and columns [c0, c1). *)
Definition block (r0 r1 c0 c1 : Z) (r c : Z) : bool :=
  (r0 <=? r) && (r <? r1) && (c0 <=? c) && (c <? c1).

Lemma block_spec r0 r1 c0 c1 r c : block r0 r1 c0 c1 r c = true ↔ r0 ≤ r < r1 ∧ c0 ≤ c < c1.
Proof. unfold block. rewrite !andb_true_iff, !Z.leb_le, !Z.ltb_lt. tauto. Qed.

Section image.
Context {T : Type} (img : Z → Z → T).

(** [out] shows the window: the image on [S], the fill elsewhere. *)
Definition holds (w : PixelWindow) (fill : T) (S : Z → Z → bool) (out : list T) : Prop :=
  length out = Z.to_nat (cols w * rows w) ∧
  ∀ r c, 0 ≤ r < rows w → 0 ≤ c < cols w →
    out !! Z.to_nat (r * cols w + c) =
    Some (if S (row_off w + r) (col_off w + c) then img (row_off w + r) (col_off w + c) else fill).

Lemma blank_holds w fill : 0 ≤ cols w → 0 ≤ rows w →
  holds w fill (λ _ _, false) (replicate (Z.to_nat (cols w * rows w)) fill).
Proof.
  intros Hc Hr. split; [by rewrite length_replicate|]. intros r c ??.
  apply lookup_replicate. split; [done|]. nia.
Qed.

Lemma holds_ext w fill S S' out : (∀ r c, 0 ≤ r - row_off w < rows w → 0 ≤ c - col_off w < cols w →
  S r c = S' r c) → holds w fill S out → holds w fill S' out.
Proof. intros HS [Hl Ho]. split; [done|]. intros r c Hr Hc. rewrite Ho by done. by rewrite HS by lia. Qed.

Lemma holds_inj w fill S out out' : 0 ≤ cols w → 0 ≤ rows w →
  holds w fill S out → holds w fill S out' → out = out'.
Proof.
  intros Hc Hr [Hl Ho] [Hl' Ho']. apply list_eq. intros i.
  destruct (decide (i < length out)%nat) as [Hi|Hi].
  2: { by rewrite !lookup_ge_None_2 by lia. }
  assert (0 < cols w) by nia.
  pose proof (Z.div_mod (Z.of_nat i) (cols w) ltac:(lia)) as E.
  pose proof (Z.mod_pos_bound (Z.of_nat i) (cols w) ltac:(lia)).
  set (r := Z.of_nat i / cols w) in *. set (c := Z.of_nat i mod cols w) in *.
  assert (0 ≤ r < rows w) by nia.
  replace i with (Z.to_nat (r * cols w + c)) by lia. by rewrite Ho, Ho'.
Qed.

(** Copying [h] rows of [n] pixels of the image to their places. *)
Lemma place_block w fill S out src (s : nat → nat) r0 c0 (h n : nat) :
  0 ≤ cols w → 0 ≤ rows w → col_off w ≤ c0 → c0 + Z.of_nat n ≤ col_off w + cols w →
  row_off w ≤ r0 → r0 + Z.of_nat h ≤ row_off w + rows w →
  (∀ i, (i < h)%nat → (s i + n ≤ length src)%nat) →
  (∀ i j, (i < h)%nat → (j < n)%nat → src !! (s i + j)%nat = Some (img (r0 + Z.of_nat i) (c0 + Z.of_nat j))) →
  holds w fill S out →
  ∃ out', copy_rows ((λ i, (s i, Z.to_nat ((r0 + Z.of_nat i - row_off w) * cols w + (c0 - col_off w))))
                      <$> seq 0 h) n src out = Some out' ∧
    holds w fill (λ r c, S r c || block r0 (r0 + Z.of_nat h) c0 (c0 + Z.of_nat n) r c) out'.
Proof.
  intros Hc Hr Hc0 Hc1 Hr0 Hr1 Hs Hsrc [Hlen Hout].
  set (d := λ i : nat, Z.to_nat ((r0 + Z.of_nat i - row_off w) * cols w + (c0 - col_off w))).
  assert (∀ a b, (a, b) ∈ (λ i, (s i, d i)) <$> seq 0 h →
    ∃ i, (i < h)%nat ∧ a = s i ∧ b = d i) as Hruns.
  { intros a b (i & [= -> ->] & Hi)%list_elem_of_fmap. exists i. apply elem_of_seq in Hi. split; [lia|done]. }
  assert (∀ i, (i < h)%nat → Z.of_nat (d i) = (r0 + Z.of_nat i - row_off w) * cols w + (c0 - col_off w)) as Hd
    by (intros i Hi; unfold d; rewrite Z2Nat.id; [done|nia]).
  destruct (copy_rows_spec ((λ i, (s i, d i)) <$> seq 0 h) n src out) as (out' & Hcopy & Hl & Hk).
  { intros a b (i & Hi & -> & ->)%Hruns. split; [by apply Hs|]. pose proof (Hd i Hi). nia. }
  exists out'. split; [exact Hcopy|]. split; [congruence|]. intros r c Hr' Hc'.
  destruct (Hk (Z.to_nat (r * cols w + c))) as [(a & b & (i & Hi & -> & ->)%Hruns & Hb & Ho)|[Hno Ho]].
  - pose proof (Hd i Hi) as Hdi. assert (r0 + Z.of_nat i - row_off w = r) as Er by nia.
    assert (Z.to_nat (r * cols w + c) - d i = Z.to_nat (c + col_off w - c0))%nat as Ej by nia.
    rewrite Ho, Ej, Hsrc by nia. unfold block.
    replace (_ || _) with true; [do 2 f_equal; lia|]. symmetry. apply orb_true_iff. right. lia.
  - rewrite Ho, Hout by done. unfold block.
    destruct (S _ _); [done|]. cbn [orb].
    destruct (((r0 <=? _) && _ && _) && _) eqn:Eb; [|done]. exfalso.
    set (i := Z.to_nat (row_off w + r - r0)). assert (i < h)%nat as Hi by lia.
    apply (Hno (s i) (d i)).
    + apply list_elem_of_fmap. exists i. split; [done|]. apply elem_of_seq. lia.
    + pose proof (Hd i Hi). nia.
Qed.
End image.

(** ** The copied window *)

(** Windows and rasters small enough for the arithmetic not to wrap. *)
Record sane (w : PixelWindow) (size : Z * Z) : Prop := {
  sane_cols : 1 ≤ cols w < 2 ^ 62; sane_rows : 1 ≤ rows w < 2 ^ 62;
  sane_pixels : cols w * rows w < 2 ^ 64;
  sane_col_off : - 2 ^ 62 ≤ col_off w < 2 ^ 62; sane_row_off : - 2 ^ 62 ≤ row_off w < 2 ^ 62;
  sane_size : 0 ≤ size.1 < 2 ^ 62 ∧ 0 ≤ size.2 < 2 ^ 62 }.

Lemma isize_id n : - 2 ^ 63 ≤ n < 2 ^ 63 → isize n = n.
Proof.
  intros Hn. unfold isize, to_signed, wrap. destruct (Z.ltb_spec n 0).
  - replace (n mod 2 ^ 64) with (n + 2 ^ 64)
      by (symmetry; rewrite <- (Z.mod_add n 1) by lia; apply Z.mod_small; lia).
    destruct (Z.ltb_spec (n + 2 ^ 64) (2 ^ (64 - 1))); lia.
  - rewrite Z.mod_small by lia. destruct (Z.ltb_spec n (2 ^ (64 - 1))); lia.
Qed.

Lemma read_window_sane w size : sane w size →
  read_window w size.1 size.2 =
  mkReadWindow (Z.max (col_off w) 0) (Z.max (row_off w) 0)
    (Z.min (Z.max (col_off w + cols w) 0) size.1) (Z.min (Z.max (row_off w + rows w) 0) size.2).
Proof. intros []. unfold read_window. by rewrite !isize_id by (rewrite ?isize_id; lia). Qed.

Definition in_raster (size : Z * Z) : Z → Z → bool := block 0 size.2 0 size.1.

(** The raster's band shows the image [img]: what GDAL's RasterIO returns. *)
Definition reads_image {t} (band : Band) (img : Z → Z → pixel t) (size : Z * Z) : Prop :=
  ∀ c0 r0 n h, 0 ≤ c0 → 0 ≤ r0 → 0 < n → 0 < h → c0 + n ≤ size.1 → r0 + h ≤ size.2 →
  ∃ data, read_as band t (c0, r0) (n, h) = Ok data ∧ length data = Z.to_nat (n * h) ∧
    ∀ i j, 0 ≤ i < h → 0 ≤ j < n → data !! Z.to_nat (i * n + j) = Some (img (r0 + i) (c0 + j)).

Lemma run_bound (n h : Z) (i : nat) : 0 < n → (i < Z.to_nat h)%nat →
  (Z.to_nat (Z.of_nat i * n) + Z.to_nat n ≤ Z.to_nat (n * h))%nat.
Proof. intros Hn Hi. rewrite <- Z2Nat.inj_add by nia. apply Z2Nat.inj_le; nia. Qed.

Lemma run_index (n : Z) (i j : nat) : 0 < n →
  (Z.to_nat (Z.of_nat i * n) + j)%nat = Z.to_nat (Z.of_nat i * n + Z.of_nat j).
Proof. intros Hn. rewrite Z2Nat.inj_add, Nat2Z.id by nia. done. Qed.

(** Inside the window, the pixels of the raster are the ones that are read. *)
Lemma read_block size w r c (h n : nat) :
  0 ≤ r - row_off w < rows w → 0 ≤ c - col_off w < cols w →
  Z.of_nat h = Z.min (Z.max (row_off w + rows w) 0) size.2 - Z.max (row_off w) 0 →
  Z.of_nat n = Z.min (Z.max (col_off w + cols w) 0) size.1 - Z.max (col_off w) 0 →
  false || block (Z.max (row_off w) 0) (Z.max (row_off w) 0 + Z.of_nat h)
                 (Z.max (col_off w) 0) (Z.max (col_off w) 0 + Z.of_nat n) r c = in_raster size r c.
Proof.
  intros Hr Hc Hh Hn. unfold in_raster. apply eq_true_iff_eq. cbn [orb]. rewrite !block_spec, Hh, Hn.
  clear Hh Hn. lia.
Qed.

(** The in-process download copies the window pixel for pixel: the buffer has the
    requested size, shows the image wherever the window lies in the raster and
    the raster's nodata value (or zero) elsewhere; no slice is out of range. *)
Lemma window_data_holds `{NumCast} t band (img : Z → Z → pixel t) size w nodata :
  sane w size → reads_image band img size →
  ∃ out, window_data t band size w nodata = Some (Ok out) ∧
    holds img w (fill_value t nodata) (in_raster size) out.
Proof.
  intros Hs Hread. unfold window_data. rewrite read_window_sane by done.
  cbn [r_col_start r_row_start r_col_end r_row_end]. cbv zeta. destruct Hs as [].
  set (c0 := Z.max (col_off w) 0). set (r0 := Z.max (row_off w) 0).
  set (c1 := Z.min (Z.max (col_off w + cols w) 0) size.1).
  set (r1 := Z.min (Z.max (row_off w + rows w) 0) size.2).
  set (fill := fill_value t nodata).
  assert (holds img w fill (λ _ _, false) (blank t fill w)) as Hblank.
  { unfold blank. rewrite wrap_small by (unfold in_u; nia). apply blank_holds; lia. }
  unfold sat_sub. destruct ((0 <? Z.max 0 (c1 - c0)) && (0 <? Z.max 0 (r1 - r0))) eqn:Epos.
  - apply andb_prop in Epos as [Hc%Z.ltb_lt Hr%Z.ltb_lt].
    replace (Z.max 0 (c1 - c0)) with (c1 - c0) by lia. replace (Z.max 0 (r1 - r0)) with (r1 - r0) by lia.
    destruct (Hread c0 r0 (c1 - c0) (r1 - r0)) as (data & -> & Hlen & Hdata); [lia..|].
    destruct (place_block img w fill (λ _ _, false) (blank t fill w) data
      (λ i, Z.to_nat (Z.of_nat i * (c1 - c0))) r0 c0 (Z.to_nat (r1 - r0)) (Z.to_nat (c1 - c0)))
      as (out & Hcopy & Hout); [lia..| | |done|].
    + intros i Hi. rewrite Hlen. apply run_bound; [lia|done].
    + intros i j Hi Hj. rewrite <- Hdata by lia. f_equal. apply run_index. lia.
    + exists out. split; [|eapply holds_ext; [|exact Hout]; intros r c ??; apply read_block; lia].
      apply (f_equal (fmap (M := option) (Ok (E := string)))) in Hcopy. etrans; [|exact Hcopy].
      do 2 f_equal. unfold read_runs.
      cbn [r_col_start r_row_start]. apply list_fmap_ext. intros k i _. do 2 f_equal. lia.
  - eexists. split; [done|]. eapply holds_ext; [|exact Hblank]. intros r c ??.
    symmetry. apply not_true_iff_false. unfold in_raster. rewrite block_spec.
    apply andb_false_iff in Epos as [Ep%Z.ltb_ge|Ep%Z.ltb_ge]; simpl; lia.
Qed.
