(* ===== verification/AsyncTiff.v ===== *)
(** * The download over object_store and async-tiff

    crates/orbit-geo/src/async_download.rs, async_io.rs and the [AsyncTiffDownloader]:
    the parsing and opening of sources, the pool of S3 clients, the treatment of coordinate
    systems with and without a hint, and the stitching of tiles into the pixel
    window.  object_store, async-tiff, libproj and GDAL are parameters.  Index
    arithmetic stays below the sizes of allocated buffers and is on [Z]; an
    index out of range is [None], the panic of the code. *)

From Stdlib Require Import Ascii.
From S2P Require Import Prelude BTree F64 Text Cube Window.
Local Open Scope Z_scope.

(** ** Sources *)

Inductive ParsedSource :=
| S3 (bucket key region : string)
| Local (abs_dir file_name : string).

Section sources.
Context (canonicalize : string → result string string).

Definition parse_local_path (p : string) : result string ParsedSource :=
  abs ← map_err (λ e, "async_tiff: canonicalize " +:+ p +:+ ": " +:+ e) (canonicalize p);
  dir ← ok_or (parent abs) ("async_tiff: no parent for " +:+ abs);
  name ← ok_or (snd <$> rsplit_once "/" abs) ("async_tiff: no file name for " +:+ abs);
  Ok (Local dir name).

(** The bucket, key and region of a virtual-host or path-style S3 link. *)
Definition s3_host (host key : string) : option ParsedSource :=
  stripped ← strip_suffix ".amazonaws.com" host;
  let path_style :=
    region ← match strip_prefix "s3." stripped with
             | Some r => Some r
             | None => strip_prefix "s3-" stripped
             end;
    '(bucket, rest_key) ← split_once "/" key;
    Some (S3 bucket rest_key region) in
  match path_style with
  | Some s => Some s
  | None =>
      match split_once_str ".s3." stripped with
      | Some (bucket, after) => Some (S3 bucket key after)
      | None => '(bucket, after) ← split_once_str ".s3-" stripped; Some (S3 bucket key after)
      end
  end.

Definition parse_source (src : string) : result string ParsedSource :=
  match strip_prefix "s3://" src with
  | Some rest =>
      '(bucket, key) ← ok_or (split_once "/" rest) ("async_tiff: s3 url missing key: " +:+ src);
      Ok (S3 bucket key "us-west-2")
  | None =>
  match strip_prefix "file://" src with
  | Some rest => parse_local_path rest
  | None =>
  if starts_with "/" src then parse_local_path src
  else
  match strip_prefix "https://" src with
  | Some rest =>
      ok_or ('(host, key) ← split_once "/" rest;
             s3_host host (first_piece (λ c, bool_decide (c = "?"%char)) key))
        ("async_tiff: unsupported https host (only s3 hosts handled): " +:+ src)
  | None => Err ("async_tiff: unsupported scheme (expected s3://, file://, https://*.amazonaws.com, or /local/path): "
                 +:+ src)
  end end end.
End sources.

(** ** The pool of S3 clients *)

Record S3Config := mkS3Config {
  cfg_bucket : string; cfg_region : string; max_retries : Z; retry_timeout_secs : Z;
  request_timeout_secs : Z; connect_timeout_secs : Z }.

Section pool.
Context {Store W : Type} (env : string → option string).
Context (build : S3Config → W → result string Store * W).

Definition env_or (name : string) (d : Z) : Z := default d (env name ≫= parse_uint 64).

Definition s3_config (key : string * string) : S3Config :=
  mkS3Config key.1 key.2 (env_or "ORBIT_S3_MAX_RETRIES" 3) (env_or "ORBIT_S3_RETRY_TIMEOUT_SECS" 60)
    (env_or "ORBIT_S3_REQUEST_TIMEOUT_SECS" 120) (env_or "ORBIT_S3_CONNECT_TIMEOUT_SECS" 10).

(** A call of [shared_s3_for]: the look-up under the read lock, the building
    outside of any lock, the insertion under the write lock. *)
Inductive PoolCall := Looking | Building | Inserting (store : Store) | Got (r : result string Store).

Definition pool_step (key : string * string) (c : PoolCall) (pool : btree (string * string) Store) (w : W)
    : PoolCall * btree (string * string) Store * W :=
  match c with
  | Looking =>
      (match bt_get key pool with Some store => Got (Ok store) | None => Building end, pool, w)
  | Building =>
      match build (s3_config key) w with
      | (Err e, w) => (Got (Err ("AmazonS3Builder " +:+ key.1 +:+ ": " +:+ e)), pool, w)
      | (Ok store, w) => (Inserting store, pool, w)
      end
  | Inserting store =>
      match bt_get key pool with
      | Some entry => (Got (Ok entry), pool, w)
      | None => (Got (Ok store), bt_insert key store pool, w)
      end
  | Got r => (Got r, pool, w)
  end.

(** Calls acting in the order of a schedule. *)
Fixpoint run_pool (sched : list nat) (calls : list ((string * string) * PoolCall))
    (pool : btree (string * string) Store) (w : W)
    : list ((string * string) * PoolCall) * btree (string * string) Store * W :=
  match sched with
  | [] => (calls, pool, w)
  | i :: sched =>
      match calls !! i with
      | None => run_pool sched calls pool w
      | Some (key, c) =>
          let '(c, pool, w) := pool_step key c pool w in
          run_pool sched (<[i := (key, c)]> calls) pool w
      end
  end.
End pool.
Arguments PoolCall : clear implicits.

(** ** Coordinate systems *)

Inductive ReprojectAction := RNone | REpsgToEpsg (src_epsg : Z) | FallbackToInProcess.
Inductive HintDecision := HNone | HEpsgToEpsg (src_epsg : Z) | HFallback.

Record ImageFileDirectory := mkIfd {
  ifd_epsg_from_gkd : option Z;
  tile_width : option Z; tile_height : option Z; image_width : Z; image_height : Z;
  samples_per_pixel : Z;
  model_pixel_scale : option (list f64); model_tiepoint : option (list f64);
  model_transformation : option (list f64) }.

(** The code after "EPSG:", whatever the case of the letters. *)
Definition asked_epsg (crs : string) : option Z :=
  strip_prefix "EPSG:" (to_ascii_uppercase (trim crs)) ≫= parse_uint 16.

Definition classify_reproject_from_hint (src_epsg : Z) (crop_crs : option string) : HintDecision :=
  match crop_crs with
  | None => HNone
  | Some crs =>
      match asked_epsg crs with
      | Some asked => if asked =? src_epsg then HNone else HEpsgToEpsg src_epsg
      | None => HFallback
      end
  end.

Definition reproject_decision (ifd : ImageFileDirectory) (crop_crs : option string) : ReprojectAction :=
  match crop_crs with
  | None => RNone
  | Some crs =>
      match asked_epsg crs, ifd_epsg_from_gkd ifd with
      | Some asked, Some src => if src =? asked then RNone else REpsgToEpsg src
      | _, _ => FallbackToInProcess
      end
  end.

Definition ifd_geo_transform (ifd : ImageFileDirectory) : result string (f64 * f64 * f64 * f64) :=
  let tied :=
    scale ← model_pixel_scale ifd;
    tp ← model_tiepoint ifd;
    if (2 <=? length scale)%nat && (6 <=? length tp)%nat then
      let pix_w := gt scale 0 in
      let pix_h := SpecFloat.SFopp (gt scale 1) in
      Some (f64_sub (gt tp 3) (f64_mul (gt tp 0) pix_w), pix_w,
            f64_sub (gt tp 4) (f64_mul (gt tp 1) pix_h), pix_h)
    else None in
  match tied with
  | Some r => Ok r
  | None =>
      match model_transformation ifd with
      | Some mt =>
          if (length mt =? 16)%nat && is_zero (gt mt 1) && is_zero (gt mt 4)
          then Ok (gt mt 3, gt mt 0, gt mt 7, gt mt 5)
          else Err "async_tiff: source TIFF has no usable Model* geo tags"
      | None => Err "async_tiff: source TIFF has no usable Model* geo tags"
      end
  end.

(** ** Tiles *)

Definition tile_range (pixel_start pixel_end tile_size : Z) : Z * Z :=
  if (pixel_end <=? pixel_start) || (tile_size =? 0) then (0, 0)
  else (pixel_start / tile_size, (pixel_end - 1) / tile_size + 1).

Definition z_range (a b : Z) : list Z := (λ i, a + Z.of_nat i) <$> seq 0 (Z.to_nat (b - a)).

(** The tiles over a window, row by row. *)
Definition tile_indices (rw : ReadWindow) (tile_w tile_h : Z) : list (Z * Z) :=
  let '(col_first, col_end) := tile_range (r_col_start rw) (r_col_end rw) tile_w in
  let '(row_first, row_end) := tile_range (r_row_start rw) (r_row_end rw) tile_h in
  ty ← z_range row_first row_end; (λ tx, (tx, ty)) <$> z_range col_first col_end.

(** The part of a tile inside the read window goes to its place. *)
Definition place_tile {T} (out : list T) (w : PixelWindow) (tile_x tile_y : Z) (tile : list T)
    (tile_w tile_h : Z) (rw : ReadWindow) : option (list T) :=
  let px := tile_x * tile_w in
  let py := tile_y * tile_h in
  let col_start := Z.max px (r_col_start rw) in
  let row_start := Z.max py (r_row_start rw) in
  let col_end := Z.min (px + tile_w) (r_col_end rw) in
  let row_end := Z.min (py + tile_h) (r_row_end rw) in
  if (col_end <=? col_start) || (row_end <=? row_start) then Some out
  else
    copy_rows
      ((λ i, let src_row := row_start + Z.of_nat i in
             (Z.to_nat ((src_row - py) * tile_w + (col_start - px)),
              Z.to_nat ((src_row - row_off w) * cols w + (col_start - col_off w))))
       <$> seq 0 (Z.to_nat (row_end - row_start)))
      (Z.to_nat (col_end - col_start)) tile out.

Inductive TypedArray := Typed (t : PixelType) (data : list (pixel t)) | OtherArray (name : string).
Record Tile := mkTile { tile_x : Z; tile_y : Z; tile_decode : result string TypedArray }.

Section stitch.
Context `{NumCast} (t : PixelType) (w : PixelWindow) (tile_w tile_h : Z) (rw : ReadWindow).

Definition tile_pixels (a : TypedArray) : result string (list (pixel t)) :=
  match a with
  | Typed s data => Ok ((λ x, default (pixel_default t) (cast_pixel s t x)) <$> data)
  | OtherArray o => Err ("async_tiff: heterogeneous tile dtypes (" +:+ o +:+ ") not supported")
  end.

Fixpoint stitch_rest (rest : list Tile) (out : list (pixel t)) : option (result string (list (pixel t))) :=
  match rest with
  | [] => Some (Ok out)
  | tile :: rest =>
      match (a ← map_err (λ e, "async_tiff: decode tile: " +:+ e) (tile_decode tile); tile_pixels a) with
      | Err e => Some (Err e)
      | Ok data =>
          out ← place_tile out w (tile_x tile) (tile_y tile) data tile_w tile_h rw;
          stitch_rest rest out
      end
  end.

(** The buffer of the window, tile by tile. *)
Definition stitch (first_x first_y : Z) (first : list (pixel t)) (rest : list Tile)
    : option (result string (list (pixel t))) :=
  out ← place_tile (blank t (pixel_default t) w) w first_x first_y first tile_w tile_h rw;
  stitch_rest rest out.
End stitch.

(** ** The download *)

Record TiffIO (SR DS Store Rd W : Type) := mkTiffIO {
  t_gdal : Gdal SR DS W;
  t_canonicalize : string → result string string;
  open_reader : ParsedSource → W → result string Rd * W;
  read_ifds : Rd → W → result string (list ImageFileDirectory) * W;
  fetch_tiles : Rd → ImageFileDirectory → list (Z * Z) → W → result string (list Tile) * W;
  new_known_crs : string → string → result string (list f64 → result string (list f64));
  gtiff_create : ∀ t : PixelType, string → Z → Z → W → result string DS * W;
  drop_dataset : DS → W → W }.
Arguments t_gdal {SR DS Store Rd W}. Arguments t_canonicalize {SR DS Store Rd W}.
Arguments open_reader {SR DS Store Rd W}. Arguments read_ifds {SR DS Store Rd W}.
Arguments fetch_tiles {SR DS Store Rd W}. Arguments new_known_crs {SR DS Store Rd W}.
Arguments gtiff_create {SR DS Store Rd W}. Arguments drop_dataset {SR DS Store Rd W}.

Section download.
Context {SR DS Store Rd W : Type} (io : TiffIO SR DS Store Rd W) `{NumCast}.
Context (f64_display fmt1 : f64 → string) (debug_char : string → string).

Definition in_process : string → string → option CropWindow → option string → W →
    option (result string string * W) :=
  download_in_process_with_crs (t_gdal io) f64_display fmt1 debug_char.

Definition project_bbox_to_source_crs (crop : CropWindow) (crop_crs : string) (src_epsg : Z)
    : result string CropWindow :=
  let target := "EPSG:" +:+ pretty src_epsg in
  f ← map_err (λ e, "async_tiff: proj new_known_crs " +:+ crop_crs +:+ " -> " +:+ target +:+ ": " +:+ e)
        (new_known_crs io crop_crs target);
  b ← map_err (λ e, "async_tiff: proj transform_bounds " +:+ crop_crs +:+ " -> " +:+ target +:+ ": " +:+ e)
        (f [min_x crop; min_y crop; max_x crop; max_y crop]);
  Ok (mkCropWindow (gt b 0) (gt b 1) (gt b 2) (gt b 3)).

Record Geo := mkGeo { origin_x : f64; pix_w : f64; origin_y : f64; pix_h : f64 }.

(** The GTiff file is written when its dataset is dropped. *)
Definition write_gtiff (t : PixelType) (dst : string) (geo : Geo) (win : PixelWindow)
    (out_data : list (pixel t)) (w : W) : result string string * W :=
  match (_ ← map_err (λ e, "async_tiff: GTiff driver: " +:+ e) (driver (t_gdal io) "GTiff"); Ok tt) with
  | Err e => (Err e, w)
  | Ok _ =>
      match gtiff_create io t dst (cols win) (rows win) w with
      | (Err e, w) =>
          (Err ("async_tiff: GTiff create " +:+ dst +:+ " (" +:+ pretty (cols win) +:+ "x"
                +:+ pretty (rows win) +:+ "): " +:+ e), w)
      | (Ok ds, w) =>
          match with_text "async_tiff: set_geo_transform"
                  (set_geo_transform (t_gdal io) ds
                     (out_geo_transform (origin_x geo) (pix_w geo) (origin_y geo) (pix_h geo) win)) with
          | Err e => (Err e, drop_dataset io ds w)
          | Ok ds =>
              match (_ ← with_text "async_tiff: rasterband(1)" (ds_rasterband (t_gdal io) ds);
                     with_text "async_tiff: write"
                       (write_band (t_gdal io) t ds (cols win, rows win) out_data)) with
              | Err e => (Err e, drop_dataset io ds w)
              | Ok ds => (Ok dst, drop_dataset io ds w)
              end
          end
      end
  end.

Definition stitch_and_write (t : PixelType) (dst : string) (rest : list Tile) (first_x first_y : Z)
    (first : list (pixel t)) (tile_w tile_h : Z) (win : PixelWindow) (geo : Geo) (rw : ReadWindow) (w : W)
    : option (result string string * W) :=
  out ← stitch t win tile_w tile_h rw first_x first_y first rest;
  match out with
  | Err e => Some (Err e, w)
  | Ok out_data => Some (write_gtiff t dst geo win out_data w)
  end.

(** The box of a window, for the fallback. *)
Definition window_box (geo : Geo) (win : PixelWindow) : CropWindow :=
  let at_ (o p : f64) (n : Z) := f64_add o (f64_mul (f64_of_Z n) p) in
  mkCropWindow
    (at_ (origin_x geo) (pix_w geo) (col_off win))
    (at_ (origin_y geo) (pix_h geo) (isize (row_off win + isize (rows win))))
    (at_ (origin_x geo) (pix_w geo) (isize (col_off win + isize (cols win))))
    (at_ (origin_y geo) (pix_h geo) (row_off win)).

Definition fetch_and_stitch_then_write (dst : string) (ifd : ImageFileDirectory) (reader : Rd)
    (src : string) (geo : Geo) (win : PixelWindow) (w : W) : option (result string string * W) :=
  match tile_width ifd, tile_height ifd with
  | Some tile_w, Some tile_h =>
      if negb (samples_per_pixel ifd =? 1) then in_process src dst (Some (window_box geo win)) None w
      else
        let rw := read_window win (image_width ifd) (image_height ifd) in
        let idx := tile_indices rw tile_w tile_h in
        match (if bool_decide (idx = []) then (Ok [], w)
               else let '(r, w) := fetch_tiles io reader ifd idx w in
                    (map_err (λ e, "async_tiff: fetch_tiles " +:+ src +:+ ": " +:+ e) r, w)) with
        | (Err e, w) => Some (Err e, w)
        | (Ok [], w) =>
            Some (Err "async_tiff: crop window does not intersect any tile in the source", w)
        | (Ok (first :: rest), w) =>
            match map_err (λ e, "async_tiff: decode: " +:+ e) (tile_decode first) with
            | Err e => Some (Err e, w)
            | Ok (OtherArray o) => Some (Err ("async_tiff: unsupported dtype " +:+ o), w)
            | Ok (Typed t data) =>
                stitch_and_write t dst rest (tile_x first) (tile_y first) data tile_w tile_h win geo rw w
            end
        end
  | _, _ => Some (Err ("async_tiff: not tiled: " +:+ src), w)
  end.

(** What is left to do once the file is open: the crop in the raster's own
    coordinates, or the fallback. *)
Inductive CropPlan :=
| Crop (crop : option CropWindow) (crs : option string)
| UseInProcess.

Definition plan_crop (ifd : ImageFileDirectory) (crop : option CropWindow) (crop_crs : option string)
    (projected_via_hint : option CropWindow) (hint : option HintDecision) : result string CropPlan :=
  let reproject c src_epsg :=
    match crop_crs with
    | Some user =>
        p ← project_bbox_to_source_crs c user src_epsg;
        Ok (Crop (Some p) (Some ("EPSG:" +:+ pretty src_epsg)))
    | None => Err "async_tiff: reproject_decision inconsistency (EpsgToEpsg w/o crop_crs)"
    end in
  match crop, projected_via_hint, hint, reproject_decision ifd crop_crs with
  | Some _, Some projected, Some (HEpsgToEpsg src_epsg), _ =>
      Ok (Crop (Some projected) (Some ("EPSG:" +:+ pretty src_epsg)))
  | Some c, None, _, REpsgToEpsg src_epsg => reproject c src_epsg
  | None, _, _, REpsgToEpsg _ => Ok (Crop None crop_crs)
  | _, _, _, FallbackToInProcess => Ok UseInProcess
  | _, _, _, RNone => Ok (Crop crop crop_crs)
  | Some c, Some _, _, REpsgToEpsg src_epsg => reproject c src_epsg
  end.

Definition hint_decision (hint : option BandMetadataHint) (crop_crs : option string) : option HintDecision :=
  e ← hint ≫= h_epsg;
  if e <? 2 ^ 16 then Some (classify_reproject_from_hint e crop_crs) else None.

Definition download_via_async_tiff_with_crs_and_meta (src dst : string) (crop : option CropWindow)
    (crop_crs : option string) (hint : option BandMetadataHint) (w : W)
    : option (result string string * W) :=
  match parse_source (t_canonicalize io) src with
  | Err _ => in_process src dst crop crop_crs w
  | Ok parsed =>
      let decision := hint_decision hint crop_crs in
      match decision with
      | Some HFallback => in_process src dst crop crop_crs w
      | _ =>
          match open_reader io parsed w with
          | (Err e, w) => Some (Err e, w)
          | (Ok reader, w) =>
              let '(ifds, w) := read_ifds io reader w in
              match (l ← ifds;
                     projected ← match crop, decision, crop_crs with
                                 | Some c, Some (HEpsgToEpsg e), Some user =>
                                     Some <$> project_bbox_to_source_crs c user e
                                 | _, _, _ => Ok None
                                 end;
                     ifd ← ok_or (head l) ("async_tiff: no IFDs in " +:+ src);
                     plan ← plan_crop ifd crop crop_crs projected decision;
                     Ok (ifd, plan)) with
              | Err e => Some (Err e, w)
              | Ok (ifd, UseInProcess) => in_process src dst crop crop_crs w
              | Ok (ifd, Crop crop crs) =>
                  match tile_width ifd, tile_height ifd with
                  | Some _, Some _ =>
                      match ('(ox, pw, oy, ph) ← ifd_geo_transform ifd;
                             win ← match crop with
                                   | Some c => native_crs_pixel_window f64_display c ox pw oy ph
                                   | None => Ok (mkPixelWindow 0 0 (image_width ifd) (image_height ifd))
                                   end;
                             Ok (mkGeo ox pw oy ph, win)) with
                      | Err e => Some (Err e, w)
                      | Ok (geo, win) => fetch_and_stitch_then_write dst ifd reader src geo win w
                      end
                  | _, _ => in_process src dst crop crs w
                  end
              end
          end
      end
  end.

Definition download_via_async_tiff_with_crs (src dst : string) (crop : option CropWindow)
    (crop_crs : option string) (w : W) : option (result string string * W) :=
  download_via_async_tiff_with_crs_and_meta src dst crop crop_crs None w.
End download.

(** ** Opening a file without libgdal *)

(** The code's own [open_reader] and [open_async_inner], which the download takes as
    operations of [TiffIO], over object_store and async-tiff. *)
Section opening.
Context {Store W Meta : Type} (env : string → option string).
Context (build : S3Config → W → result string Store * W).
Context (local_store : string → W → result string Store * W).     (* LocalFileSystem::new_with_prefix *)
Context (canonicalize : string → result string string).
Context (try_open : Store * string → W → result string Meta * W).
Context (read_all_ifds : Meta → Store * string → W → result string (list ImageFileDirectory) * W).

Notation Pool := (btree (string * string) Store).

(** A call of [shared_s3_for] with no other in between. *)
Definition shared_s3_for (bucket region : string) (pool : Pool) (w : W) : result string Store * Pool * W :=
  let key := (bucket, region) in
  let '(c, pool, w) := pool_step env build key Looking pool w in
  let '(c, pool, w) := pool_step env build key c pool w in
  let '(c, pool, w) := pool_step env build key c pool w in
  (match c with Got r => r | _ => Err "" end, pool, w).

(** An [ObjectReader] is a store and a key in it. *)
Definition open_object (parsed : ParsedSource) (pool : Pool) (w : W)
    : result string (Store * string) * Pool * W :=
  match parsed with
  | S3 bucket key region =>
      let '(r, pool, w) := shared_s3_for bucket region pool w in
      (store ← r; Ok (store, key), pool, w)
  | Local abs_dir file_name =>
      let '(r, w) := local_store abs_dir w in
      (local ← map_err (λ e, "LocalFileSystem " +:+ abs_dir +:+ ": " +:+ e) r; Ok (local, file_name), pool, w)
  end.

Definition open_async_inner (reader : Store * string) (w : W) : result string (list ImageFileDirectory) * W :=
  match try_open reader w with
  | (Err e, w) => (Err ("TiffMetadataReader::try_open: " +:+ e), w)
  | (Ok meta, w) =>
      let '(r, w) := read_all_ifds meta reader w in
      (map_err (λ e, "read_all_ifds: " +:+ e) r, w)
  end.

Definition open_local (path : string) (pool : Pool) (w : W) : result string (list ImageFileDirectory) * Pool * W :=
  match parse_local_path canonicalize path with
  | Err e => (Err e, pool, w)
  | Ok parsed =>
      match open_object parsed pool w with
      | (Err e, pool, w) => (Err e, pool, w)
      | (Ok reader, pool, w) => let '(r, w) := open_async_inner reader w in (r, pool, w)
      end
  end.

(** [open_async] of async_io.rs. *)
Definition open_async (path : string) (w : W) : result string (list ImageFileDirectory) * W :=
  match abs ← map_err (λ e, "async_io canonicalize " +:+ path +:+ ": " +:+ e) (canonicalize path);
        dir ← ok_or (parent abs) ("async_io: no parent for " +:+ abs);
        name ← ok_or (snd <$> rsplit_once "/" abs) ("async_io: no file name for " +:+ abs);
        Ok (dir, name) with
  | Err e => (Err e, w)
  | Ok (dir, name) =>
      match local_store dir w with
      | (Err e, w) => (Err ("LocalFileSystem: " +:+ e), w)
      | (Ok store, w) => open_async_inner (store, name) w
      end
  end.

(** A call for a known bucket and region builds no client; another builds one, which
    it then shares, or fails and leaves the pool as it was. *)
Lemma shared_s3_for_pooled bucket region pool w r pool' w' :
  shared_s3_for bucket region pool w = (r, pool', w') →
  match bt_get (bucket, region) pool with
  | Some store => r = Ok store ∧ pool' = pool ∧ w' = w
  | None => ∃ b, build (s3_config env (bucket, region)) w = (b, w') ∧
      match b with
      | Ok store => r = Ok store ∧ pool' = bt_insert (bucket, region) store pool
      | Err e => r = Err ("AmazonS3Builder " +:+ bucket +:+ ": " +:+ e) ∧ pool' = pool
      end
  end.
Proof.
  unfold shared_s3_for, pool_step. destruct (bt_get (bucket, region) pool) as [store|] eqn:Eg; cbn.
  - by intros [= <- <- <-].
  - destruct (build _ w) as [[store|e] w1]; cbn; [rewrite Eg|]; intros [= <- <- <-]; by eexists.
Qed.

(** Both ways to open a local file find the same directories of it and leave
    the same world; only the texts of errors differ. *)
Lemma open_local_is_open_async path pool w :
  let '(r, pool', w') := open_local path pool w in
  let '(r', w'') := open_async path w in
  pool' = pool ∧ w' = w'' ∧ (∀ ifds, r = Ok ifds ↔ r' = Ok ifds).
Proof.
  unfold open_local, open_async, parse_local_path. destruct (canonicalize path) as [abs|]; cbn; [|done].
  destruct (parent abs) as [dir|]; cbn; [|done]. destruct (rsplit_once "/" abs) as [[? name]|]; cbn; [|done].
  destruct (local_store dir w) as [[store|e] w1]; cbn; [|done]. by destruct (open_async_inner _ w1).
Qed.
End opening.

(** ** What the stitching shows *)

Section stitched.
Context {T : Type} (img : Z → Z → T).

Definition tile_block (tile_w tile_h tx ty r c : Z) : bool :=
  block (ty * tile_h) (ty * tile_h + tile_h) (tx * tile_w) (tx * tile_w + tile_w) r c.
Definition read_pixels (rw : ReadWindow) (r c : Z) : bool :=
  block (r_row_start rw) (r_row_end rw) (r_col_start rw) (r_col_end rw) r c.

(** A tile shows the image where it lies in the raster. *)
Definition tile_shows (size : Z * Z) (tile_w tile_h tx ty : Z) (data : list T) : Prop :=
  length data = Z.to_nat (tile_w * tile_h) ∧
  ∀ i j, 0 ≤ i < tile_h → 0 ≤ j < tile_w → in_raster size (ty * tile_h + i) (tx * tile_w + j) = true →
    data !! Z.to_nat (i * tile_w + j) = Some (img (ty * tile_h + i) (tx * tile_w + j)).

(** The read window lies in the pixel window and in the raster. *)
Record inside (w : PixelWindow) (size : Z * Z) (rw : ReadWindow) : Prop := {
  in_col : Z.max (col_off w) 0 ≤ r_col_start rw;
  in_col_end : r_col_end rw ≤ Z.min (col_off w + cols w) size.1;
  in_row : Z.max (row_off w) 0 ≤ r_row_start rw;
  in_row_end : r_row_end rw ≤ Z.min (row_off w + rows w) size.2 }.

Lemma tile_index_le (tile_w tile_h a b n m : Z) :
  0 ≤ a → 0 ≤ b → 0 ≤ n → b + n ≤ tile_w → a + 1 ≤ m → m ≤ tile_h →
  a * tile_w + b + n ≤ tile_w * tile_h.
Proof.
  intros. transitivity ((a + 1) * tile_w); [lia|]. rewrite (Z.mul_comm tile_w).
  apply Z.mul_le_mono_nonneg_r; lia.
Qed.

Lemma place_tile_holds w fill S out size rw tile_w tile_h tx ty data :
  0 ≤ cols w → 0 ≤ rows w → 0 < tile_w → 0 < tile_h → 0 ≤ tx → 0 ≤ ty → inside w size rw →
  tile_shows size tile_w tile_h tx ty data → holds img w fill S out →
  ∃ out', place_tile out w tx ty data tile_w tile_h rw = Some out' ∧
    holds img w fill (λ r c, S r c || (tile_block tile_w tile_h tx ty r c && read_pixels rw r c)) out'.
Proof.
  intros Hc Hr Htw Hth Htx Hty [] [Hlen Hdata] Hout. unfold place_tile.
  set (px := tx * tile_w) in *. set (py := ty * tile_h) in *.
  assert (0 ≤ px) by nia. assert (0 ≤ py) by nia.
  set (c0 := Z.max px (r_col_start rw)). set (r0 := Z.max py (r_row_start rw)).
  set (c1 := Z.min (px + tile_w) (r_col_end rw)). set (r1 := Z.min (py + tile_h) (r_row_end rw)).
  assert (∀ r c, tile_block tile_w tile_h tx ty r c && read_pixels rw r c = block r0 r1 c0 c1 r c) as Hblk.
  { intros r c. apply eq_true_iff_eq. unfold tile_block, read_pixels.
    rewrite andb_true_iff, !block_spec. fold px py. unfold c0, c1, r0, r1. lia. }
  destruct ((c1 <=? c0) || (r1 <=? r0)) eqn:E.
  - exists out. split; [done|]. eapply holds_ext; [|exact Hout]. intros r c _ _. rewrite Hblk.
    destruct (S r c); [done|]. cbn [orb]. symmetry. apply not_true_iff_false. rewrite block_spec.
    apply orb_true_iff in E as [E%Z.leb_le|E%Z.leb_le]; lia.
  - apply orb_false_iff in E as [Ec%Z.leb_gt Er%Z.leb_gt].
    assert (px ≤ c0 ∧ c1 ≤ px + tile_w ∧ py ≤ r0 ∧ r1 ≤ py + tile_h) as (? & ? & ? & ?)
      by (unfold c0, c1, r0, r1; lia).
    assert (Z.max (col_off w) 0 ≤ c0 ∧ c1 ≤ Z.min (col_off w + cols w) size.1 ∧
      Z.max (row_off w) 0 ≤ r0 ∧ r1 ≤ Z.min (row_off w + rows w) size.2) as (? & ? & ? & ?)
      by (unfold c0, c1, r0, r1; lia).
    clearbody c0 c1 r0 r1 px py.
    destruct (place_block img w fill S out data
      (λ i, Z.to_nat ((r0 + Z.of_nat i - py) * tile_w + (c0 - px))) r0 c0
      (Z.to_nat (r1 - r0)) (Z.to_nat (c1 - c0))) as (out' & Hcopy & Hout'); [lia..| | |exact Hout|].
    + intros i Hi. rewrite Hlen.
      pose proof (tile_index_le tile_w tile_h (r0 + Z.of_nat i - py) (c0 - px) (c1 - c0)
        (r0 + Z.of_nat i - py + 1)) as Hle.
      assert (0 ≤ (r0 + Z.of_nat i - py) * tile_w) by (apply Z.mul_nonneg_nonneg; lia). lia.
    + intros i j Hi Hj.
      assert (0 ≤ (r0 + Z.of_nat i - py) * tile_w) by (apply Z.mul_nonneg_nonneg; lia).
      replace (_ + j)%nat with (Z.to_nat ((r0 + Z.of_nat i - py) * tile_w + (c0 + Z.of_nat j - px))) by lia.
      rewrite Hdata; [do 2 f_equal; lia|lia|lia|]. unfold in_raster. apply block_spec. lia.
    + exists out'. split.
      * rewrite <- Hcopy. do 2 f_equal.
      * eapply holds_ext; [|exact Hout']. intros r c _ _. rewrite Hblk. do 2 f_equal; lia.
Qed.

(** The tiles over a window are all those that meet it. *)
Lemma elem_of_z_range i a b : i ∈ z_range a b ↔ a ≤ i < b.
Proof.
  unfold z_range. rewrite list_elem_of_fmap. setoid_rewrite elem_of_seq. split.
  - intros (k & -> & Hk). lia.
  - intros Hi. exists (Z.to_nat (i - a)). lia.
Qed.

Lemma tile_range_covers a b n i : 0 < n → 0 ≤ a → a ≤ i < b →
  (tile_range a b n).1 ≤ i / n < (tile_range a b n).2.
Proof.
  intros Hn Ha Hi. unfold tile_range.
  destruct (Z.leb_spec b a); [lia|]. destruct (Z.eqb_spec n 0); [lia|]. simpl.
  split; [apply Z.div_le_mono; lia|]. pose proof (Z.div_le_mono i (b - 1) n). lia.
Qed.

Lemma tile_range_nonempty a b n i : (tile_range a b n).1 ≤ i < (tile_range a b n).2 → a < b.
Proof. unfold tile_range. destruct (Z.leb_spec b a); simpl; lia. Qed.

Lemma tile_range_pos a b n i : 0 < n → 0 ≤ a → (tile_range a b n).1 ≤ i → 0 ≤ i.
Proof.
  unfold tile_range. destruct (_ || _); simpl; [lia|]. intros. pose proof (Z.div_pos a n). lia.
Qed.

Lemma elem_of_tile_indices rw tile_w tile_h tx ty :
  (tx, ty) ∈ tile_indices rw tile_w tile_h ↔
  (tile_range (r_col_start rw) (r_col_end rw) tile_w).1 ≤ tx < (tile_range (r_col_start rw) (r_col_end rw) tile_w).2 ∧
  (tile_range (r_row_start rw) (r_row_end rw) tile_h).1 ≤ ty < (tile_range (r_row_start rw) (r_row_end rw) tile_h).2.
Proof.
  unfold tile_indices. destruct (tile_range _ _ tile_w) as [c0 c1]. destruct (tile_range _ _ tile_h) as [r0 r1].
  simpl. rewrite list_elem_of_bind. split.
  - intros (y & Hin & Hy%elem_of_z_range). apply list_elem_of_fmap in Hin as (x & [= -> ->] & Hx%elem_of_z_range). done.
  - intros [Hx Hy]. exists ty. split; [|by apply elem_of_z_range].
    apply (list_elem_of_fmap_2 (λ tx, (tx, ty))). by apply elem_of_z_range.
Qed.

Definition covered (tiles : list (Z * Z)) (tile_w tile_h r c : Z) : bool :=
  existsb (λ p : Z * Z, tile_block tile_w tile_h p.1 p.2 r c) tiles.

Lemma indices_cover rw tile_w tile_h r c : 0 < tile_w → 0 < tile_h →
  0 ≤ r_col_start rw → 0 ≤ r_row_start rw → read_pixels rw r c = true →
  covered (tile_indices rw tile_w tile_h) tile_w tile_h r c = true.
Proof.
  intros Hw Hh Hc Hr Hb%block_spec. unfold covered. apply existsb_exists.
  exists (c / tile_w, r / tile_h). split.
  - apply list_elem_of_In, elem_of_tile_indices. split; apply tile_range_covers; lia.
  - unfold tile_block. apply block_spec. simpl.
    pose proof (Z.div_mod c tile_w ltac:(lia)). pose proof (Z.mod_pos_bound c tile_w ltac:(lia)).
    pose proof (Z.div_mod r tile_h ltac:(lia)). pose proof (Z.mod_pos_bound r tile_h ltac:(lia)). lia.
Qed.
End stitched.

Section agreement.
Context `{NumCast} (t : PixelType) (img : Z → Z → pixel t) (size : Z * Z).
Context (tile_w tile_h : Z).
Hypothesis cast_same : ∀ x, cast_pixel t t x = Some x.

(** The tile read at an index of the grid. *)
Definition shows (p : Z * Z) (tile : Tile) : Prop :=
  tile_x tile = p.1 ∧ tile_y tile = p.2 ∧
  ∃ data, tile_decode tile = Ok (Typed t data) ∧ tile_shows img size tile_w tile_h p.1 p.2 data.

Lemma tile_pixels_same data : tile_pixels t (Typed t data) = Ok data.
Proof.
  unfold tile_pixels. f_equal. induction data as [|x data IH]; [done|].
  rewrite fmap_cons, IH, cast_same. done.
Qed.

Lemma stitch_rest_holds w rw idx rest : 0 ≤ cols w → 0 ≤ rows w → 0 < tile_w → 0 < tile_h →
  inside w size rw → Forall (λ p : Z * Z, 0 ≤ p.1 ∧ 0 ≤ p.2) idx → Forall2 shows idx rest →
  ∀ fill S out, holds img w fill S out →
  ∃ out', stitch_rest t w tile_w tile_h rw rest out = Some (Ok out') ∧
    holds img w fill (λ r c, S r c || (covered idx tile_w tile_h r c && read_pixels rw r c)) out'.
Proof.
  intros Hc Hr Hw Hh Hin Hpos Hsh fill. revert Hpos.
  induction Hsh as [|p tile idx rest (Hx & Hy & data & Hd & Hdata) _ IH]; intros Hpos S out Hout; simpl.
  - exists out. split; [done|]. eapply holds_ext; [|exact Hout]. intros. by rewrite orb_false_r.
  - apply Forall_cons in Hpos as [[Hp1 Hp2] Hpos]. rewrite Hd. cbn [map_err mbind result_bind].
    rewrite tile_pixels_same, Hx, Hy.
    destruct (place_tile_holds img w fill S out size rw tile_w tile_h p.1 p.2 data) as (out1 & -> & Hout1);
      [done..|]. cbn [mbind option_bind].
    destruct (IH Hpos _ _ Hout1) as (out' & -> & Hout'). exists out'. split; [done|].
    eapply holds_ext; [|exact Hout']. intros r c _ _. cbn beta.
    destruct (S r c); [done|]. cbn [orb]. unfold covered. cbn [existsb].
    destruct (tile_block _ _ p.1 p.2 r c), (read_pixels rw r c), (existsb _ idx); done.
Qed.

Lemma typed_inj data data' :
  @Ok string _ (Typed t data) = Ok (Typed t data') → data = data'.
Proof. intros [= Hp]. by apply (Eqdep_dec.inj_pair2_eq_dec _ (λ x y : PixelType, decide (x = y))) in Hp. Qed.

(** The tiles of a window that meets the raster, stitched, show the window. *)
Lemma stitched_window w tiles : sane w size → 0 < tile_w → 0 < tile_h →
  let rw := read_window w size.1 size.2 in
  Forall2 shows (tile_indices rw tile_w tile_h) tiles →
  match tiles with
  | [] => ∀ r c, 0 ≤ r - row_off w < rows w → 0 ≤ c - col_off w < cols w → in_raster size r c = false
  | first :: rest =>
      ∀ data, tile_decode first = Ok (Typed t data) →
      ∃ out, stitch t w tile_w tile_h rw (tile_x first) (tile_y first) data rest = Some (Ok out) ∧
        holds img w (pixel_default t) (in_raster size) out
  end.
Proof.
  intros Hs Hw Hh rw Hsh.
  assert (rw = mkReadWindow (Z.max (col_off w) 0) (Z.max (row_off w) 0)
    (Z.min (Z.max (col_off w + cols w) 0) size.1) (Z.min (Z.max (row_off w + rows w) 0) size.2)) as Erw
    by (by apply read_window_sane).
  assert (∀ r c, 0 ≤ r - row_off w < rows w → 0 ≤ c - col_off w < cols w →
    in_raster size r c = read_pixels rw r c) as Hread.
  { intros r c ??. apply eq_true_iff_eq. unfold in_raster, read_pixels. rewrite !block_spec, Erw. simpl. lia. }
  assert (∀ r c, read_pixels rw r c = true → covered (tile_indices rw tile_w tile_h) tile_w tile_h r c = true) as Hcov.
  { intros r c. apply indices_cover; [done..|rewrite Erw; simpl; lia|rewrite Erw; simpl; lia]. }
  assert (Forall (λ p : Z * Z, 0 ≤ p.1 ∧ 0 ≤ p.2) (tile_indices rw tile_w tile_h)) as Hpos.
  { apply Forall_forall. intros [tx ty] [[Hx _] [Hy _]]%elem_of_tile_indices.
    split; (eapply tile_range_pos; [| |eassumption]; [done|rewrite Erw; simpl; lia]). }
  destruct tiles as [|first rest].
  - apply Forall2_nil_inv_r in Hsh. rewrite Hsh in Hcov. intros r c Hr Hc. rewrite Hread by done.
    apply not_true_iff_false. by intros Hin%Hcov.
  - intros data Hd. destruct (tile_indices rw tile_w tile_h) as [|[tx ty] idx] eqn:Eidx;
      [by apply Forall2_nil_inv_l in Hsh|].
    apply Forall2_cons in Hsh as [(Hx & Hy & data' & Hd' & Hdata) Hsh].
    rewrite Hd in Hd'. apply typed_inj in Hd' as <-.
    assert ((tx, ty) ∈ tile_indices rw tile_w tile_h) as Hin by (rewrite Eidx; by left).
    apply elem_of_tile_indices in Hin as [Hcs%tile_range_nonempty Hrs%tile_range_nonempty].
    apply Forall_cons in Hpos as [[Hp1 Hp2] Hpos]. pose proof Hs as [].
    assert (inside w size rw) as Hin by (rewrite Erw in *; simpl in *; split; simpl; lia).
    assert (holds img w (pixel_default t) (λ _ _, false) (blank t (pixel_default t) w)) as Hblank.
    { unfold blank. rewrite wrap_small by (unfold in_u; nia). apply blank_holds; lia. }
    unfold stitch. rewrite Hx, Hy. simpl fst in *. simpl snd in *.
    destruct (place_tile_holds img w (pixel_default t) (λ _ _, false) (blank t (pixel_default t) w)
      size rw tile_w tile_h tx ty data) as (out1 & -> & Hout1); [lia|lia|done..|]. cbn [mbind option_bind].
    destruct (stitch_rest_holds w rw idx rest ltac:(lia) ltac:(lia) Hw Hh Hin Hpos Hsh _ _ _ Hout1)
      as (out & -> & Hout). exists out. split; [done|].
    eapply holds_ext; [|exact Hout]. intros r c Hr Hc. cbn beta. rewrite Hread by done.
    specialize (Hcov r c). unfold covered in *. cbn [existsb fst snd] in Hcov.
    destruct (read_pixels rw r c); [|by rewrite !andb_false_r].
    rewrite !andb_true_r. by apply Hcov.
Qed.

(** C10: the two download paths produce the same pixels: for a window over a
    raster that both GDAL and the tiles show, the in-process copy shows the
    raster inside of it and the fill elsewhere, at the requested size, and the
    buffer stitched from the tiles the window needs (whatever their size and
    however the window cuts them) has the same length and the same value at every
    pixel of the raster; outside of it they differ only in the fill, so that they
    are equal when the raster has no nodata value of its own.  No slice is out of
    range.  When the window needs
    no tile it lies outside of the raster. *)
Theorem stitch_equals_copy band w nodata tiles :
  sane w size → 0 < tile_w → 0 < tile_h → reads_image band img size →
  let rw := read_window w size.1 size.2 in
  Forall2 shows (tile_indices rw tile_w tile_h) tiles →
  match tiles with
  | [] => ∀ r c, 0 ≤ r - row_off w < rows w → 0 ≤ c - col_off w < cols w → in_raster size r c = false
  | first :: rest =>
      ∃ data out1 out2, tile_decode first = Ok (Typed t data) ∧
        window_data t band size w nodata = Some (Ok out1) ∧
        stitch t w tile_w tile_h rw (tile_x first) (tile_y first) data rest = Some (Ok out2) ∧
        holds img w (fill_value t nodata) (in_raster size) out1 ∧ length out1 = length out2 ∧
        (∀ r c, 0 ≤ r < rows w → 0 ≤ c < cols w → in_raster size (row_off w + r) (col_off w + c) = true →
           out1 !! Z.to_nat (r * cols w + c) = out2 !! Z.to_nat (r * cols w + c)) ∧
        (fill_value t nodata = pixel_default t → out1 = out2)
  end.
Proof.
  intros Hs Hw Hh Hb rw Hsh. pose proof (stitched_window w tiles Hs Hw Hh Hsh) as Hst.
  destruct tiles as [|first rest]; [exact Hst|].
  assert (∃ data, tile_decode first = Ok (Typed t data)) as [data Hd].
  { destruct (tile_indices rw tile_w tile_h); [by apply Forall2_nil_inv_l in Hsh|].
    apply Forall2_cons in Hsh as [(_ & _ & data & Hd & _) _]. by exists data. }
  destruct (Hst data Hd) as (out2 & H2 & Hout2).
  destruct (window_data_holds t band img size w nodata Hs Hb) as (out1 & H1 & Hout1).
  exists data, out1, out2. do 4 (split; [done|]). split_and!.
  - by rewrite (proj1 Hout1), (proj1 Hout2).
  - intros r c Hr Hc Hin. rewrite (proj2 Hout1), (proj2 Hout2) by done. by rewrite Hin.
  - intros Hf. rewrite Hf in Hout1. destruct Hs. eapply holds_inj; [| |done..]; lia.
Qed.
End agreement.

(** ** The pool *)

Section pool_facts.
Context {Store W : Type} (env : string → option string).
Context (build : S3Config → W → result string Store * W).

Record pool_inv (calls : list ((string * string) * PoolCall Store))
    (pool : btree (string * string) Store) : Prop := {
  pool_wf : bt_wf pool;
  pool_got : ∀ key s, (key, Got (Ok s)) ∈ calls → bt_get key pool = Some s }.

Lemma pool_step_inv key c pool w c' pool' w' calls i :
  pool_inv calls pool → calls !! i = Some (key, c) →
  pool_step env build key c pool w = (c', pool', w') →
  pool_inv (<[i := (key, c')]> calls) pool' ∧
  (∀ k s, bt_get k pool = Some s → bt_get k pool' = Some s).
Proof.
  intros [Hwf Hgot] Hi Hstep.
  assert (∀ k s, (k, Got (Ok s)) ∈ <[i := (key, c')]> calls →
    (k, Got (Ok s)) ∈ calls ∨ (k = key ∧ c' = Got (Ok s))) as Hin.
  { intros k s (j & Hj)%list_elem_of_lookup. destruct (decide (j = i)) as [->|Hne].
    - rewrite list_lookup_insert_eq in Hj by (by eapply lookup_lt_Some). injection Hj as <- <-. by right.
    - rewrite list_lookup_insert_ne in Hj by done. left. by eapply list_elem_of_lookup_2. }
  assert (pool' = pool → (∀ s, c' = Got (Ok s) → bt_get key pool = Some s) →
    pool_inv (<[i := (key, c')]> calls) pool' ∧ (∀ k s, bt_get k pool = Some s → bt_get k pool' = Some s))
    as Hsame.
  { intros -> Hc. split; [|done]. split; [done|]. intros k s [?|[-> ?]]%Hin; [by apply Hgot|by apply Hc]. }
  destruct c as [| |store|r]; simpl in Hstep.
  - injection Hstep as <- <- <-. apply Hsame; [done|]. intros s.
    destruct (bt_get key pool); [by intros [= ->]|done].
  - destruct (build _ w) as [[s|e] w1]; injection Hstep as <- <- <-; by apply Hsame.
  - destruct (bt_get key pool) as [entry|] eqn:E; injection Hstep as <- <- <-.
    + apply Hsame; [done|]. by intros s [= ->].
    + assert (∀ k s, bt_get k pool = Some s → bt_get k (bt_insert key store pool) = Some s) as Hmono.
      { intros k s Hk. rewrite bt_get_insert_ne; [done..|]. intros ->. congruence. }
      split; [|done]. split; [by apply bt_wf_insert|].
      intros k s [Hk|[-> [= ->]]]%Hin; [by apply Hmono, Hgot|by apply bt_get_insert_eq].
  - injection Hstep as <- <- <-. apply Hsame; [done|]. intros s [= ->].
    apply Hgot. by eapply list_elem_of_lookup_2.
Qed.

Lemma run_pool_inv sched : ∀ calls pool w calls' pool' w',
  pool_inv calls pool → run_pool env build sched calls pool w = (calls', pool', w') →
  pool_inv calls' pool' ∧ (∀ k s, bt_get k pool = Some s → bt_get k pool' = Some s).
Proof.
  induction sched as [|i sched IH]; intros calls pool w calls' pool' w' Hinv Hrun; simpl in Hrun.
  { by injection Hrun as <- <- <-. }
  destruct (calls !! i) as [[key c]|] eqn:Hi; [|by eapply IH].
  destruct (pool_step env build key c pool w) as [[c1 pool1] w1] eqn:Hs.
  destruct (pool_step_inv _ _ _ _ _ _ _ _ _ Hinv Hi Hs) as [Hinv1 Hmono].
  destruct (IH _ _ _ _ _ _ Hinv1 Hrun) as [Hinv' Hmono']. split; [done|]. eauto.
Qed.

(** Concurrent downloads share one client per bucket and region: in whatever
    order the look-ups, the constructions and the insertions of any number of
    calls happen, every call that succeeds for a key is given the same client,
    the one the pool holds, and a client once in the pool is never replaced. *)
Theorem pool_converges sched calls pool w calls' pool' w' :
  bt_wf pool → (∀ key c, (key, c) ∈ calls → c = Looking) →
  run_pool env build sched calls pool w = (calls', pool', w') →
  (∀ key s1 s2, (key, Got (Ok s1)) ∈ calls' → (key, Got (Ok s2)) ∈ calls' →
     s1 = s2 ∧ bt_get key pool' = Some s1) ∧
  (∀ key s, bt_get key pool = Some s → bt_get key pool' = Some s).
Proof.
  intros Hwf Hnew Hrun. destruct (run_pool_inv sched calls pool w calls' pool' w') as [[_ Hgot] Hmono].
  - split; [done|]. by intros key s ?%Hnew.
  - done.
  - split; [|done]. intros key s1 s2 H1%Hgot H2%Hgot. split; congruence.
Qed.
End pool_facts.

(** ** Examples *)

Definition demo_img (r c : Z) : pixel UInt8 := r * 10 + c + 1.
Definition demo_pixels (r0 c0 n h : Z) : list (pixel UInt8) :=
  (λ k, demo_img (r0 + Z.of_nat k / n) (c0 + Z.of_nat k mod n)) <$> seq 0 (Z.to_nat (n * h)).
Definition demo_band : Band :=
  mkBand (Known UInt8) (Some (f64_of_Z 255))
    (λ t p q, match t return result string (list (pixel t)) with
              | UInt8 => Ok (demo_pixels p.2 p.1 q.1 q.2)
              | _ => Err "type"
              end).
Definition demo_tile (tile_w tile_h : Z) (p : Z * Z) : Tile :=
  mkTile p.1 p.2 (Ok (Typed UInt8 (demo_pixels (p.2 * tile_h) (p.1 * tile_w) tile_w tile_h))).

Lemma demo_pixels_lookup r0 c0 n h i j : 0 ≤ i < h → 0 ≤ j < n →
  demo_pixels r0 c0 n h !! Z.to_nat (i * n + j) = Some (demo_img (r0 + i) (c0 + j)).
Proof.
  intros Hi Hj. unfold demo_pixels. rewrite list_lookup_fmap.
  assert (0 ≤ i * n + j < n * h) as Hk.
  { split; [nia|]. apply Z.lt_le_trans with ((i + 1) * n); [lia|].
    rewrite (Z.mul_comm n). apply Z.mul_le_mono_nonneg_r; lia. }
  rewrite lookup_seq_lt by lia. simpl. rewrite Z2Nat.id by lia.
  rewrite Z.div_add_l, Z.div_small by lia. rewrite (Z.add_comm (i * n)), Z.mod_add, Z.mod_small by lia.
  do 2 f_equal. lia.
Qed.

Lemma demo_band_reads size : reads_image demo_band demo_img size.
Proof.
  intros c0 r0 n h ??????. exists (demo_pixels r0 c0 n h). split; [done|].
  split; [unfold demo_pixels; by rewrite length_fmap, length_seq|].
  intros i j Hi Hj. by apply demo_pixels_lookup.
Qed.

Section demo.
Local Instance demo_cast : NumCast := {
  cast_f64 := λ t, match t return f64 → option (pixel t) with Float32 => Some | _ => λ x, Some (f64_to_i64 x) end;
  cast_pixel := λ s t, match s, t return pixel s → option (pixel t) with
    | Float32, Float32 => Some | Float32, _ => λ x, Some (f64_to_i64 x)
    | _, Float32 => λ x, Some (f64_of_Z x) | _, _ => Some end }.

(** A window over the left edge of a raster of 4 by 4 pixels in tiles of 2 by 2. *)
Definition demo_window : PixelWindow := mkPixelWindow (-1) 1 4 3.
Definition demo_tiles : list Tile :=
  demo_tile 2 2 <$> tile_indices (read_window demo_window 4 4) 2 2.

Lemma stitch_equals_copy_witness :
  ∃ out1 out2, window_data UInt8 demo_band (4, 4) demo_window None = Some (Ok out1) ∧
    out1 = out2 ∧ out1 = [0; 11; 12; 13; 0; 21; 22; 23; 0; 31; 32; 33].
Proof.
  destruct (@stitch_equals_copy demo_cast UInt8 demo_img (4, 4) 2 2 (λ x, eq_refl) demo_band demo_window None
    demo_tiles) as (data & out1 & out2 & _ & H1 & _ & _ & _ & _ & Heq).
  - split; simpl; lia.
  - lia.
  - lia.
  - apply demo_band_reads.
  - unfold demo_tiles. apply Forall2_fmap_r, Forall_Forall2_diag, Forall_true. intros [tx ty].
    split; [done|]. split; [done|]. eexists. split; [reflexivity|].
    split; [unfold demo_pixels; by rewrite length_fmap, length_seq|].
    intros i j Hi Hj _. by apply demo_pixels_lookup.
  - exists out1, out2. split; [exact H1|]. split; [by apply Heq|].
    vm_compute in H1. by injection H1 as <-.
Defined.

(** With a nodata value the two paths fill the margin differently: the tiles are
    stitched into zeros. *)
Example margins_differ :
  window_data UInt8 demo_band (4, 4) demo_window (no_data_value demo_band) =
    Some (Ok [255; 11; 12; 13; 255; 21; 22; 23; 255; 31; 32; 33]) ∧
  (match demo_tiles with
   | first :: rest =>
       match tile_decode first with
       | Ok (Typed UInt8 data) =>
           stitch UInt8 demo_window 2 2 (read_window demo_window 4 4) (tile_x first) (tile_y first) data rest
       | _ => None
       end
   | [] => None
   end) = Some (Ok [0; 11; 12; 13; 0; 21; 22; 23; 0; 31; 32; 33]).
Proof. split; vm_compute; reflexivity. Qed.

(** Two downloads race for a client; the second one built is dropped. *)
Lemma pool_converges_witness :
  let key := ("sentinel-cogs", "us-west-2") in
  let '(calls, pool, w) := run_pool (λ _, None) (λ _ (n : Z), (Ok n, n + 1)) [0; 1; 0; 1; 1; 0]%nat
    [(key, Looking); (key, Looking)] [] 7 in
  calls = [(key, Got (Ok 8)); (key, Got (Ok 8))] ∧ w = 9 ∧ bt_get key pool = Some 8.
Proof.
  set (key := ("sentinel-cogs", "us-west-2")). cbv zeta.
  destruct (run_pool _ _ _ _ _ _) as [[calls pool] w] eqn:E.
  assert (∀ k c, (k, c) ∈ [(key, Looking); (key, Looking)] → c = @Looking Z) as Hnew.
  { intros k c [[= _ ->]|[= _ ->]%list_elem_of_singleton]%elem_of_cons; done. }
  destruct (pool_converges _ _ _ _ _ _ _ _ _ bt_wf_nil Hnew E) as [H _].
  vm_compute in E. injection E as <- <- <-. split; [done|]. split; [done|].
  refine (proj2 (H key 8 8 _ _)); by left.
Defined.

(** The hint's coordinate system is kept when the file disagrees with it: the
    box projected for the hint is laid over the grid of the file. *)
Example wrong_hint_is_used (ifd : ImageFileDirectory) c projected :
  ifd_epsg_from_gkd ifd = Some 32634 →
  ∀ io : TiffIO unit unit unit unit unit,
  hint_decision (Some (mkHint (Some 32633) None None None None)) (Some "EPSG:4326") =
    Some (HEpsgToEpsg 32633) ∧
  plan_crop io ifd (Some c) (Some "EPSG:4326") (Some projected) (Some (HEpsgToEpsg 32633)) =
    Ok (Crop (Some projected) (Some "EPSG:32633")).
Proof. intros He io. split; [vm_compute; reflexivity|]. done. Qed.
End demo.
