(* ===== verification/Stac.v ===== *)
(** * STAC search and the arguments of load_collection

    apps/orbit-openeo/src/geo_executor/stac.rs and the pure helpers of
    eval_load.rs: scenes and their band metadata, the search request with its
    retry loop, the reading of a response, the guard on asset links, and the
    parsing of bounding boxes, coordinate systems, temporal extents and cloud
    cover limits.  HTTP and the texts of numbers and JSON are parameters. *)

From Stdlib Require Import Ascii.
From S2P Require Import Prelude BTree F64 Text Json Executor Arrays Resilience UrlPolicy Cube Window.
Local Open Scope Z_scope.

(** ** Scenes *)

Record BandMetadata := mkBandMetadata {
  epsg : option Z;
  geo_transform : option (list f64);
  raster_size : option (Z * Z);
  dtype : option string;
  nodata : option f64;
  scale : option f64;
  offset : option f64 }.

Record StacScene := mkStacScene {
  scene_id : string;
  scene_bands : btree string string;
  band_metadata : btree string BandMetadata;
  scene_datetime : option string }.

(** [BandPathResolver::band_paths] of a [FeatureCollection]. *)
Definition band_paths (scenes : list StacScene) (band_name : string) : list string :=
  omap (λ s, bt_get band_name (scene_bands s)) scenes.

Definition canonical_band_name (k : string) : string :=
  match k with
  | "red" | "Red" => "B04"
  | "nir" | "Nir" | "NIR" => "B08"
  | "scl" => "SCL"
  | "blue" => "B02"
  | "green" => "B03"
  | "swir16" | "SWIR16" => "B11"
  | "swir22" | "SWIR22" => "B12"
  | "b02" | "b03" | "b04" | "b05" | "b06" | "b07" | "b08" | "b8a" | "b09" | "b11" | "b12" =>
      to_ascii_uppercase k
  | _ => k
  end.

Definition stac_dtype_to_gdal_name (s : string) : string :=
  match s with
  | "uint8" => "Byte" | "int8" => "Int8" | "uint16" => "UInt16" | "int16" => "Int16"
  | "uint32" => "UInt32" | "int32" => "Int32" | "uint64" => "UInt64" | "int64" => "Int64"
  | "float32" => "Float32" | "float64" => "Float64"
  | _ => s
  end.

Definition stac_transform_to_gdal (arr : list Value) : option (list f64) :=
  if (length arr <? 6)%nat then None
  else
    match omap as_f64 (take 6 arr) with
    | [a; b; c; d; e; f] => Some [c; a; b; f; d; e]
    | _ => None
    end.

(** [entry(k).or_insert(v)] *)
Definition or_insert {A} (k : string) (v : A) (m : btree string A) : btree string A :=
  match bt_get k m with Some _ => m | None => bt_insert k v m end.

Definition asset_href (v : Value) : option string := jget "href" v ≫= as_str.

Definition collect_band_hrefs (assets : Value) : btree string string :=
  match as_object assets with
  | None => []
  | Some map =>
      foldl (λ out e, match asset_href e.2 with
                      | Some href => or_insert (canonical_band_name e.1) href out
                      | None => out
                      end) [] map
  end.

Definition parse_asset_band_metadata (asset : Value) (item_epsg : option Z) : BandMetadata :=
  let first_band := (jget "raster:bands" asset ≫= as_array) ≫= head in
  let number k := (first_band ≫= jget k) ≫= as_f64 in
  mkBandMetadata
    (match jget "proj:epsg" asset ≫= as_u64 with Some u => Some (wrap 32 u) | None => item_epsg end)
    ((jget "proj:transform" asset ≫= as_array) ≫= stac_transform_to_gdal)
    (arr ← jget "proj:shape" asset ≫= as_array;
     rows ← head arr ≫= as_u64; cols ← (arr !! 1%nat) ≫= as_u64; Some (cols, rows))
    (stac_dtype_to_gdal_name <$> ((first_band ≫= jget "data_type") ≫= as_str))
    (number "nodata") (number "scale") (number "offset").

Definition collect_band_metadata (assets : Value) (item_epsg : option Z)
    : btree string BandMetadata :=
  match as_object assets with
  | None => []
  | Some map =>
      foldl (λ out e, match asset_href e.2 with
                      | Some _ => or_insert (canonical_band_name e.1)
                                    (parse_asset_band_metadata e.2 item_epsg) out
                      | None => out
                      end) [] map
  end.

(** ** The search *)

Definition cloud_cover (f : Value) : f64 :=
  default (f64_of_Z 101) ((jget "properties" f ≫= jget "eo:cloud_cover") ≫= as_f64).

(** One feature of a response; a feature without links gives no scene. *)
Definition scene_of_feature (f : Value) : option StacScene :=
  let assets := default Null (jget "assets" f) in
  let item_epsg := wrap 32 <$> ((jget "properties" f ≫= jget "proj:epsg") ≫= as_u64) in
  let bands := collect_band_hrefs assets in
  if bool_decide (bands = []) then None
  else Some (mkStacScene (default "<no-id>" (jget "id" f ≫= as_str)) bands
               (collect_band_metadata assets item_epsg)
               ((jget "properties" f ≫= jget "datetime") ≫= as_str)).

Definition scenes_of_payload (payload : Value) : list StacScene :=
  let features := default [] (jget "features" payload ≫= as_array) in
  omap scene_of_feature (sort_by (λ a b, sort_le true (cloud_cover a) (cloud_cover b)) features).

(** The searcher; its HTTP client is the [post] of the search below. *)
Record HttpStacSearcher := mkSearcher { base_url : string; retry : RetryPolicy; url_policy : UrlPolicy }.
Definition HttpStacSearcher_new (base_url : string) : HttpStacSearcher :=
  mkSearcher (trim_end_slashes base_url) RetryPolicy_default default_policy.
Definition with_retry (r : RetryPolicy) (h : HttpStacSearcher) : HttpStacSearcher :=
  mkSearcher (base_url h) r (url_policy h).
Definition with_url_policy (p : UrlPolicy) (h : HttpStacSearcher) : HttpStacSearcher :=
  mkSearcher (base_url h) (retry h) p.

(** The link of the first candidate asset that has one. *)
Definition pick_asset_href (assets : Value) (candidates : list string) : option string :=
  head (omap (λ k, jget k assets ≫= asset_href) candidates).

Definition search_body (collection_id : string) (bbox : list f64) (datetime : option string)
    (limit : Z) (max_cloud_cover : option f64) : Value :=
  let body := [("collections", Array [JString collection_id]);
               ("bbox", Array (json_of_f64 <$> bbox)); ("limit", Number (PosInt limit))] in
  let body := match datetime with Some dt => assoc_set "datetime" (JString dt) body | None => body end in
  let body := match max_cloud_cover with
              | Some cc => assoc_set "query" (Object [("eo:cloud_cover",
                             Object [("lt", json_of_f64 cc)])]) body
              | None => body
              end in
  Object body.

(** What a POST gives: no response, or a status with the body read as JSON. *)
Inductive Outcome := SendError (e : string) | Response (status : Z) (body : result string Value).

Inductive search_event := EPost (url : string) (body : Value) | EBackoff (attempt : Z).

Section search.
Context {W : Type} (post : string → Value → W → Outcome * W).
Context (retry : RetryPolicy) (url_policy : UrlPolicy).
Context (policy_text : UrlPolicyError → string) (status_text : Z → string).

(** [HTTP 2xx], [HTTP 5xx] *)
Definition is_success (status : Z) : bool := (200 <=? status) && (status <? 300).
Definition is_server_error (status : Z) : bool := (500 <=? status) && (status <? 600).

(** The result of an attempt: a payload, an error to retry, or a final error. *)
Inductive attempt := Payload (v : Value) | Transient (e : string) | Final (e : string).

Definition classify_outcome (url : string) (o : Outcome) : attempt :=
  match o with
  | SendError e => Transient ("STAC search " +:+ url +:+ ": " +:+ e)
  | Response status body =>
      if is_success status then
        match body with
        | Ok v => Payload v
        | Err e => Transient ("STAC search decode: " +:+ e)
        end
      else
        let m := "STAC search " +:+ url +:+ ": HTTP " +:+ status_text status in
        if is_server_error status then Transient m else Final m
  end.

(** The retry loop, with its requests and waits; [None] is out of fuel, which
    [search_attempts] excludes. *)
Fixpoint search_loop (fuel : nat) (url : string) (body : Value) (n : Z) (w : W)
    : option (result ExecError Value * W * list search_event) :=
  match fuel with
  | O => None
  | S fuel =>
      let '(o, w) := post url body w in
      match classify_outcome url o with
      | Payload v => Some (Ok v, w, [EPost url body])
      | Final e => Some (Err (ExecBackend e), w, [EPost url body])
      | Transient e =>
          let n := n + 1 in
          if should_retry retry n then
            '(r, w, tr) ← search_loop fuel url body n w;
            Some (r, w, EPost url body :: EBackoff n :: tr)
          else Some (Err (ExecBackend e), w, [EPost url body])
      end
  end.

Definition search (base_url collection_id : string) (bbox : list f64) (datetime : option string)
    (limit : Z) (max_cloud_cover : option f64) (w : W)
    : option (result ExecError (list StacScene) * W * list search_event) :=
  let body := search_body collection_id bbox datetime limit max_cloud_cover in
  let url := base_url +:+ "/search" in
  match check url_policy url with
  | Err e => Some (Err (ExecBackend ("url_policy: " +:+ policy_text e)), w, [])
  | Ok _ =>
      match search_loop (S (Z.to_nat (max_attempts retry))) url body 0 w with
      | Some (r, w, tr) => Some (scenes_of_payload <$> r, w, tr)
      | None => None
      end
  end.
End search.

(** ** Bands *)

Definition band_aliases (band : string) : list string :=
  match band with
  | "B01" => ["coastal"; "B1"]
  | "B02" => ["blue"; "B2"]
  | "B03" => ["green"; "B3"]
  | "B04" => ["red"; "Red"; "B4"]
  | "B05" => ["rededge1"; "rededge"; "B5"]
  | "B06" => ["rededge2"; "B6"]
  | "B07" => ["rededge3"; "B7"]
  | "B08" => ["nir"; "Nir"; "NIR"; "B8"]
  | "B8A" => ["nir08"; "B8a"]
  | "B09" => ["nir09"; "watervapor"; "B9"]
  | "B11" => ["swir16"; "SWIR16"; "B11_swir"]
  | "B12" => ["swir22"; "SWIR22"; "B12_swir"]
  | "SCL" => ["scl"]
  | _ => []
  end.

Definition resolve {A} (m : btree string A) (band : string) : option A :=
  head (omap (λ k, bt_get k m) (band :: band_aliases band)).
Definition resolve_band_href (scene : StacScene) (band : string) : option string :=
  resolve (scene_bands scene) band.
Definition resolve_band_metadata (scene : StacScene) (band : string) : option BandMetadata :=
  resolve (band_metadata scene) band.

(** ** The guard on asset links *)

Definition is_private_172 (h : string) : bool :=
  match strip_prefix "172." h with
  | Some rest =>
      match parse_uint 8 (first_piece (λ c, bool_decide (c = "."%char)) rest) with
      | Some n => (16 <=? n) && (n <=? 31)
      | None => false
      end
  | None => false
  end.

(** The host as the guard reads it out of a link. *)
Definition href_host (href : string) : string :=
  let after := match split_once_str "://" href with Some (_, rest) => rest | None => "" end in
  let authority := first_piece delimiter after in
  let host := match rsplit_once "@" authority with Some (_, h) => h | None => authority end in
  first_piece (λ c, bool_decide (c = ":"%char)) host.

Definition blocked_host (is_s3 : bool) (h : string) : bool :=
  bool_decide (h = "") || bool_decide (h = "localhost") || bool_decide (h = "169.254.169.254")
  || bool_decide (h = "metadata.google.internal")
  || starts_with "127." h || starts_with "0." h || starts_with "10." h
  || starts_with "192.168." h || starts_with "169.254." h || starts_with "[" h
  || is_private_172 h || (negb is_s3 && negb (has_char "." h)).

Definition validate_asset_href (href : string) : result ExecError unit :=
  let lower := to_ascii_lowercase href in
  let is_s3 := starts_with "s3://" lower in
  let scheme_ok := starts_with "https://" lower || starts_with "http://" lower || is_s3 in
  if negb scheme_ok then
    Err (InvalidGraph ("load_collection: asset href scheme not allowed (only http/https/s3): "
      +:+ href))
  else
    let host := href_host href in
    if blocked_host is_s3 (to_ascii_lowercase (trim host)) then
      Err (InvalidGraph ("load_collection: asset href host '" +:+ host
        +:+ "' is blocked by the SSRF guard"))
    else Ok tt.

Definition vsicurl_path (href : string) : result ExecError string :=
  if starts_with "https://" href || starts_with "http://" href then Ok ("/vsicurl/" +:+ href)
  else Err (InvalidGraph ("P3 (ORBIT_VSICURL_STREAM): refusing non-http(s) href `" +:+ href +:+ "`")).

(** ** Extents *)

Section extents.
Context (f64_display : f64 → string) (to_text : Value → string).

Definition parse_bbox_crs (v : option Value) : result ExecError string :=
  let invalid m := Err (InvalidGraph ("spatial_extent.crs invalid: " +:+ m)) in
  match v with
  | None | Some Null => Ok "EPSG:4326"
  | Some (Number n) =>
      match as_u64 (Number n), as_i64 (Number n) with
      | Some u, _ => Ok ("EPSG:" +:+ pretty u)
      | None, Some i =>
          if i <? 0 then invalid ("negative EPSG code " +:+ pretty i) else Ok ("EPSG:" +:+ pretty i)
      | None, None => invalid ("non-integer numeric " +:+ to_text (Number n))
      end
  | Some (JString s) =>
      let s := trim s in
      if bool_decide (s = "") then invalid "empty string"
      else if has_char ":" s then Ok s
      else if str_all is_digit s then Ok ("EPSG:" +:+ s)
      else invalid ("unqualified non-numeric string `" +:+ s +:+ "`")
  | Some other => invalid ("expected integer or string, got " +:+ to_text other)
  end.

Definition parse_bbox (v : Value) : result ExecError (list f64 * string) :=
  match jget "west" v ≫= as_f64, jget "south" v ≫= as_f64,
        jget "east" v ≫= as_f64, jget "north" v ≫= as_f64 with
  | Some w, Some s, Some e, Some n =>
      if negb (f64_ltb w e) then
        Err (InvalidGraph ("spatial_extent: west (" +:+ f64_display w +:+ ") must be < east ("
          +:+ f64_display e +:+ ")"))
      else if negb (f64_ltb s n) then
        Err (InvalidGraph ("spatial_extent: south (" +:+ f64_display s +:+ ") must be < north ("
          +:+ f64_display n +:+ ")"))
      else crs ← parse_bbox_crs (jget "crs" v); Ok ([w; s; e; n], crs)
  | _, _, _, _ => Err (InvalidGraph "spatial_extent must have numeric west/south/east/north")
  end.
End extents.

Fixpoint count_char (c : ascii) (s : string) : nat :=
  match s with
  | EmptyString => 0
  | String d s' => (if bool_decide (c = d) then 1 else 0) + count_char c s'
  end.

Definition normalise_iso (s : string) (is_start : bool) : string :=
  if bool_decide (s = "..") || has_char "T" s || has_char ":" s then s
  else if (String.length s =? 10)%nat && (count_char "-" s =? 2)%nat then
    s +:+ (if is_start then "T00:00:00Z" else "T23:59:59Z")
  else s.

Definition parse_temporal (v : Value) : result ExecError string :=
  arr ← ok_or (as_array v) (InvalidGraph "temporal_extent must be an array");
  match arr with
  | [a; b] => Ok (normalise_iso (default ".." (as_str a)) true +:+ "/"
                  +:+ normalise_iso (default ".." (as_str b)) false)
  | _ => Err (InvalidGraph "temporal_extent must have two entries")
  end.

(** The loop over the nodes of the predicate; a malformed node ends it. *)
Fixpoint cloud_cover_limit (pg : list (string * Value)) : option f64 :=
  match pg with
  | [] => None
  | (_, node) :: pg' =>
      pid ← jget "process_id" node ≫= as_str;
      if negb (bool_decide (pid = "lt")) && negb (bool_decide (pid = "lte"))
      then cloud_cover_limit pg'
      else
        args ← jget "arguments" node ≫= as_object;
        let x_ok := bool_decide ((x ← assoc_get "x" args; jget "from_parameter" x ≫= as_str)
                                 = Some "value") in
        y ← assoc_get "y" args ≫= as_f64;
        if x_ok then Some y else cloud_cover_limit pg'
  end.

Definition parse_eo_cloud_cover_lt (props : Value) : option f64 :=
  pg ← (jget "eo:cloud_cover" props ≫= jget "process_graph") ≫= as_object;
  cloud_cover_limit pg.

(** ** Links and metadata in step *)

Section lockstep.
Context {A B : Type} (R : string → A → B → Prop).

Definition step_entry (e1 : string * A) (e2 : string * B) : Prop := e1.1 = e2.1 ∧ R e1.1 e1.2 e2.2.
Definition in_step (m1 : btree string A) (m2 : btree string B) : Prop := Forall2 step_entry m1 m2.

Lemma in_step_get k m1 m2 : in_step m1 m2 → option_Forall2 (R k) (bt_get k m1) (bt_get k m2).
Proof.
  induction 1 as [|[k1 a] [k2 b] m1 m2 [Hk Hr] _ IH]; simpl; [constructor|]. simpl in *. subst k2.
  destruct (cmp k k1) eqn:E; [|constructor|done].
  apply cmp_eq in E as ->. by constructor.
Qed.

Lemma in_step_insert k a b m1 m2 : R k a b → in_step m1 m2 →
  in_step (bt_insert k a m1) (bt_insert k b m2).
Proof.
  intros Hr. induction 1 as [|[k1 a1] [k2 b1] m1 m2 [Hk Hr1] Hm IH]; simpl.
  - by repeat constructor.
  - simpl in *. subst k2. destruct (cmp k k1) eqn:E; constructor; try done; by constructor.
Qed.

Lemma in_step_or_insert k a b m1 m2 : R k a b → in_step m1 m2 →
  in_step (or_insert k a m1) (or_insert k b m2).
Proof.
  intros Hr Hm. unfold or_insert. destruct (in_step_get k _ _ Hm); [done|]. by apply in_step_insert.
Qed.

Lemma in_step_resolve m1 m2 band : in_step m1 m2 →
  match resolve m1 band, resolve m2 band with
  | Some a, Some b => ∃ k, k ∈ band :: band_aliases band ∧ R k a b
  | None, None => True
  | _, _ => False
  end.
Proof.
  intros Hm. unfold resolve. generalize (band :: band_aliases band). intros l.
  induction l as [|k l IH]; simpl; [done|].
  destruct (in_step_get k _ _ Hm) as [a b Hr|]; simpl; [exists k; split; [by left|done]|].
  destruct (head _), (head _); try done.
  destruct IH as (k' & Hk & Hr). exists k'. split; [by right|done].
Qed.
End lockstep.

(** The asset behind a link and its metadata. *)
Definition from_asset (assets : list (string * Value)) (item_epsg : option Z) (band href : string)
    (m : BandMetadata) : Prop :=
  ∃ k asset, (k, asset) ∈ assets ∧ canonical_band_name k = band ∧ asset_href asset = Some href ∧
    m = parse_asset_band_metadata asset item_epsg.

Lemma collect_in_step assets item_epsg :
  in_step (from_asset (default [] (as_object assets)) item_epsg)
    (collect_band_hrefs assets) (collect_band_metadata assets item_epsg).
Proof.
  unfold collect_band_hrefs, collect_band_metadata.
  destruct (as_object assets) as [map|]; [|constructor]. simpl.
  assert (∀ l o1 o2, (∀ e, e ∈ l → e ∈ map) → in_step (from_asset map item_epsg) o1 o2 →
    in_step (from_asset map item_epsg)
      (foldl (λ out e, match asset_href e.2 with
                       | Some href => or_insert (canonical_band_name e.1) href out
                       | None => out end) o1 l)
      (foldl (λ out e, match asset_href e.2 with
                       | Some _ => or_insert (canonical_band_name e.1)
                                     (parse_asset_band_metadata e.2 item_epsg) out
                       | None => out end) o2 l)) as H.
  { induction l as [|[k v] l IH]; intros o1 o2 Hin Ho; simpl; [done|].
    apply IH; [intros; apply Hin; by right|]. destruct (asset_href v) as [href|] eqn:E; [|done].
    apply in_step_or_insert; [|done]. exists k, v. repeat split; [apply Hin; by left|done]. }
  apply H; [done|constructor].
Qed.

(** ** The retry loop *)

Section attempts.
Context {W : Type} (post : string → Value → W → Outcome * W).
Context (retry : RetryPolicy) (status_text : Z → string).
Context (url : string) (body : Value).

(** The world before the [k]-th request, counted from 0, and its outcome. *)
Fixpoint post_state (k : nat) (w : W) : W :=
  match k with O => w | S k => post_state k (post url body w).2 end.
Definition post_attempt (k : nat) (w : W) : attempt :=
  classify_outcome status_text url (post url body (post_state k w)).1.

(** The events of [k + 1] requests, [n] having been made before. *)
Fixpoint search_trace (n : Z) (k : nat) : list search_event :=
  match k with
  | O => [EPost url body]
  | S k => EPost url body :: EBackoff (n + 1) :: search_trace (n + 1) k
  end.

Lemma search_loop_spec fuel : ∀ n w, 0 ≤ n → (Z.to_nat (max_attempts retry - n) < fuel)%nat →
  ∃ k : nat, (k = 0%nat ∨ n + Z.of_nat k < max_attempts retry) ∧
    (∀ j, (j < k)%nat → ∃ e, post_attempt j w = Transient e) ∧
    search_loop post retry status_text fuel url body n w =
      Some (match post_attempt k w with Payload v => Ok v | Transient e | Final e => Err (ExecBackend e) end,
            post_state (S k) w, search_trace n k) ∧
    ((∃ e, post_attempt k w = Transient e) → max_attempts retry ≤ n + Z.of_nat k + 1).
Proof.
  induction fuel as [|fuel IH]; intros n w Hn Hf; [lia|].
  cbn [search_loop]. destruct (post url body w) as [o w'] eqn:Ho.
  assert (post_attempt 0 w = classify_outcome status_text url o) as H0
    by (unfold post_attempt; simpl; by rewrite Ho).
  destruct (classify_outcome status_text url o) as [v|e|e] eqn:Hc.
  1, 3: exists 0%nat; rewrite H0; simpl; rewrite Ho;
    (split; [by left|]); (split; [lia|]); (split; [done|]); by intros [? ?].
  unfold should_retry. destruct (Z.ltb_spec (n + 1) (max_attempts retry)) as [Hlt|Hge].
  - destruct (IH (n + 1) w') as (k & Hk & Hj & -> & Hlast); [lia..|]. exists (S k).
    assert (∀ i, post_attempt (S i) w = post_attempt i w') as HS
      by (intros i; unfold post_attempt; simpl; by rewrite Ho).
    rewrite HS. simpl. rewrite Ho. split; [right; lia|]. split; [|split; [done|]].
    + intros [|j] Hlt'; [by exists e|]. rewrite HS. apply Hj. lia.
    + intros He. apply Hlast in He. lia.
  - exists 0%nat. rewrite H0. simpl. rewrite Ho. split; [by left|]. split; [lia|].
    split; [done|]. intros _. lia.
Qed.
End attempts.

(** ** Properties *)

(** C28: a search whose address the policy refuses makes no request; otherwise it
    posts the same request, at most [max_attempts] times and at least once, backs
    off between attempts, tries again only after network errors, server errors and
    unreadable bodies, and gives the scenes of the first answer, or the error of
    the last attempt. *)
Theorem search_attempts {W} (post : string → Value → W → Outcome * W) (retry : RetryPolicy)
    (url_policy : UrlPolicy) (policy_text : UrlPolicyError → string) (status_text : Z → string)
    (base_url collection_id : string) (bbox : list f64) (datetime : option string) (limit : Z)
    (max_cloud_cover : option f64) (w : W) :
  let url := base_url +:+ "/search" in
  let body := search_body collection_id bbox datetime limit max_cloud_cover in
  let run := search post retry url_policy policy_text status_text base_url collection_id bbox
               datetime limit max_cloud_cover w in
  let answer k := post_attempt post status_text url body k w in
  match check url_policy url with
  | Err e => run = Some (Err (ExecBackend ("url_policy: " +:+ policy_text e)), w, [])
  | Ok _ =>
      ∃ k : nat, (k = 0%nat ∨ Z.of_nat k < max_attempts retry) ∧
        (∀ j, (j < k)%nat → ∃ e, answer j = Transient e) ∧
        ((∃ e, answer k = Transient e) → max_attempts retry ≤ Z.of_nat k + 1) ∧
        run = Some (match answer k with
                    | Payload v => Ok (scenes_of_payload v)
                    | Transient e | Final e => Err (ExecBackend e)
                    end, post_state post url body (S k) w, search_trace url body 0 k)
  end.
Proof.
  intros url body run answer. unfold run, search. fold url. fold body.
  destruct (check url_policy url); [|done].
  destruct (search_loop_spec post retry status_text url body
    (S (Z.to_nat (max_attempts retry))) 0 w) as (k & Hk & Hj & -> & Hlast); [lia..|].
  exists k. split; [destruct Hk; [by left|right; lia]|]. split; [done|].
  split; [intros He; apply Hlast in He; lia|]. unfold answer.
  by destruct (post_attempt post status_text url body k w).
Qed.

(** In every scene of a response the links and the metadata of the bands are
    in step: whatever band is asked for, through the same aliases, either both
    are found, and they are the link of one asset of the feature and that asset's
    own metadata, or neither is; and the scene has a link. *)
Theorem scene_links_match_metadata (f : Value) (s : StacScene) (band : string)
    (Hs : scene_of_feature f = Some s) :
  scene_bands s ≠ [] ∧
  match resolve_band_href s band, resolve_band_metadata s band with
  | Some href, Some m =>
      ∃ k asset, (k, asset) ∈ default [] (jget "assets" f ≫= as_object) ∧
        canonical_band_name k ∈ band :: band_aliases band ∧
        asset_href asset = Some href ∧
        ∃ item_epsg, m = parse_asset_band_metadata asset item_epsg
  | None, None => True
  | _, _ => False
  end.
Proof.
  unfold scene_of_feature in Hs. case_bool_decide as Hne; [done|]. injection Hs as <-.
  split; [done|]. unfold resolve_band_href, resolve_band_metadata. cbn [scene_bands band_metadata].
  set (assets := default Null (jget "assets" f)).
  set (epsg := wrap 32 <$> _).
  pose proof (in_step_resolve _ _ _ band (collect_in_step assets epsg)) as H.
  destruct (resolve (collect_band_hrefs assets) band) as [href|],
    (resolve (collect_band_metadata assets epsg) band) as [m|]; try done.
  destruct H as (k & Hk & (k' & asset & Hin & <- & Hh & Hm)). exists k', asset.
  split; [|split; [done|split; [done|by exists epsg]]].
  subst assets. by destruct (jget "assets" f).
Qed.

Definition demo_feature : Value := Object [
  ("id", JString "S2A"); ("properties", Object [("eo:cloud_cover", Number (PosInt 7))]);
  ("assets", Object [
     ("red", Object [("href", JString "https://x.y/red.tif"); ("proj:epsg", Number (PosInt 32633))]);
     ("B04", Object [("href", JString "https://x.y/B04.tif")])])].

Lemma scene_links_match_metadata_witness :
  ∃ s, scene_of_feature demo_feature = Some s ∧
    resolve_band_href s "B04" = Some "https://x.y/red.tif" ∧ scene_bands s ≠ [].
Proof.
  eexists. split; [vm_compute; reflexivity|]. split; [vm_compute; reflexivity|].
  apply (scene_links_match_metadata demo_feature _ "B04"). vm_compute. reflexivity.
Defined.

(** The aliases of a canonical key that stand before it take its place. *)
Example alias_hides_canonical_key :
  collect_band_hrefs (default Null (jget "assets" demo_feature)) = [("B04", "https://x.y/red.tif")].
Proof. vm_compute. reflexivity. Qed.
