(* ===== verification/Load.v ===== *)
(** * The load_collection process: fetching assets and building the cube

    eval_load.rs ([eval_load_collection]) and the cached, policy-checked fetch of
    geo_executor/mod.rs.  The downloads of a load run concurrently and complete
    in any order: each is a task of atomic actions, and a schedule says which
    task acts next.  The catalog, the STAC searcher, the signer, the downloader
    and the file cache are the executor's plug-in points and are parameters; the
    cache of crates/orbit-geo has the operations of [Cache]. *)

From S2P Require Import Prelude BTree F64 Text Json Executor UrlPolicy Cube Window Stac.
Local Open Scope Z_scope.

Definition to_hint (meta : BandMetadata) : option BandMetadataHint :=
  match epsg meta with
  | Some _ => Some (mkHint (epsg meta) (geo_transform meta) (raster_size meta) (dtype meta) (nodata meta))
  | None => None
  end.

(** The file cache, as the fetch uses it. *)
Record CacheOps (W : Type) := mkCacheOps {
  cache_get : string → W → option string * W;
  cache_insert : string → string → W → result string string * W }.
Arguments cache_get {W}. Arguments cache_insert {W}.

(** The parts of a [GeoExecutor] that loading uses. *)
Record Loader (W : Type) := mkLoader {
  catalog : option (string → result CatalogError Collection);
  searcher : option (string → list f64 → option string → Z → option f64 → W →
                     result ExecError (list StacScene) * W);
  sign : string → result ExecError string;
  download : string → string → CropWindow → option string → option BandMetadataHint → W →
             result ExecError unit * W;
  cache : option (CacheOps W);
  scratch_dir : string;
  url_policy : UrlPolicy }.
Arguments catalog {W}. Arguments searcher {W}. Arguments sign {W}. Arguments download {W}.
Arguments cache {W}. Arguments scratch_dir {W}. Arguments url_policy {W}.

(** ** Fetching one asset *)

Record Task := mkTask {
  t_scene : nat; t_band : string; t_href : string; t_dst : string; t_hint : option BandMetadataHint }.

(** A fetch looks in the cache, and on a miss downloads and fills the cache on a
    blocking thread; the semaphore only delays it. *)
Inductive TaskState := Waiting | Missed | Finished (r : result ExecError string).

Section fetch.
Context {W : Type} (g : Loader W) (policy_text : UrlPolicyError → string).
Context (crop : CropWindow) (crop_crs : string).

Definition fetch_blocking (t : Task) (w : W) : result ExecError string * W :=
  match sign g (t_href t) with
  | Err e => (Err e, w)
  | Ok signed =>
      match download g signed (t_dst t) crop (Some crop_crs) (t_hint t) w with
      | (Err e, w) => (Err e, w)
      | (Ok _, w) =>
          match cache g with
          | Some c =>
              let '(r, w) := cache_insert c (t_href t) (t_dst t) w in
              (map_err (λ e, ExecBackend ("FileCache insert " +:+ t_href t +:+ ": " +:+ e)) r, w)
          | None => (Ok (t_dst t), w)
          end
      end
  end.

Definition fetch_step (t : Task) (s : TaskState) (w : W) : TaskState * W :=
  match s with
  | Waiting =>
      match check (url_policy g) (t_href t) with
      | Err e => (Finished (Err (ExecBackend ("url_policy: " +:+ policy_text e))), w)
      | Ok _ =>
          match cache g with
          | Some c => let '(hit, w) := cache_get c (t_href t) w in
                      (match hit with Some p => Finished (Ok p) | None => Missed end, w)
          | None => (Missed, w)
          end
      end
  | Missed => let '(r, w) := fetch_blocking t w in (Finished r, w)
  | Finished r => (Finished r, w)
  end.

(** The stream of completed fetches, collected until it ends or fails.  Entry
    [i] of the schedule lets the [i]-th task act; [None] is a schedule that stops
    before the stream does. *)
Fixpoint pump (sched : list nat) (tasks : list (Task * TaskState))
    (got : list (nat * string * string)) (w : W)
    : option (result ExecError (list (nat * string * string)) * W) :=
  if forallb (λ e, match e.2 with Finished _ => true | _ => false end) tasks then Some (Ok got, w)
  else
    match sched with
    | [] => None
    | i :: sched =>
        match tasks !! i with
        | None | Some (_, Finished _) => pump sched tasks got w
        | Some (t, s) =>
            let '(s, w) := fetch_step t s w in
            match s with
            | Finished (Err e) => Some (Err e, w)
            | Finished (Ok p) =>
                pump sched (<[i := (t, s)]> tasks) (got ++ [(t_scene t, t_band t, p)]) w
            | _ => pump sched (<[i := (t, s)]> tasks) got w
            end
        end
    end.
End fetch.

(** ** Loading *)

Section load.
Context {W : Type} (g : Loader W).
Context `{DebugText} (f64_display : f64 → string) (to_text : Value → string).
Context (policy_text : UrlPolicyError → string).

Definition dst_path (band : string) (i : nat) : string :=
  scratch_dir g +:+ "/" +:+ band +:+ "_" +:+ pretty i +:+ ".tif".

(** One task for each band a scene has, in order; a link the guard refuses
    fails the load before anything is fetched. *)
Fixpoint dispatch (work : list (nat * StacScene * string)) : result ExecError (list Task) :=
  match work with
  | [] => Ok []
  | (i, s, band) :: work =>
      match resolve_band_href s band with
      | None => dispatch work
      | Some href =>
          _ ← validate_asset_href href;
          ts ← dispatch work;
          Ok (mkTask i band href (dst_path band i) (resolve_band_metadata s band ≫= to_hint) :: ts)
      end
  end.

Definition work_list (scenes : list StacScene) (bands : list string)
    : list (nat * StacScene * string) :=
  concat (imap (λ i s, (λ b, (i, s, b)) <$> bands) scenes).

Definition requested (args : btree string Value) : list string :=
  match bt_get "bands" args ≫= as_array with
  | Some arr => omap as_str arr
  | None => ["B04"; "B08"; "SCL"]
  end.

(** [per_band]: a slot for every scene of every requested band. *)
Definition empty_slots (n : nat) (bands : list string) : btree string (list (option string)) :=
  foldl (λ m b, bt_insert b (replicate n None) m) [] bands.
Definition fill_slot (m : btree string (list (option string))) (r : nat * string * string)
    : btree string (list (option string)) :=
  let '(i, b, p) := r in
  match bt_get b m with Some slots => bt_insert b (<[i := Some p]> slots) m | None => m end.

(** The bands present on every scene, with their paths. *)
Definition complete (slots : list (option string)) : option (list string) :=
  if forallb (λ o : option string, match o with Some _ => true | None => false end) slots
  then Some (omap id slots) else None.
Definition complete_bands (m : btree string (list (option string))) : btree string (list string) :=
  omap (λ e : string * list (option string), p ← complete e.2; Some (e.1, p)) m.

Definition scale_entry (first : StacScene) (band : string) : option (f64 * f64) :=
  meta ← resolve_band_metadata first band;
  let s := default f64_one (scale meta) in
  let o := default f64_zero (offset meta) in
  if negb (f64_eqb s f64_one) || negb (f64_eqb o f64_zero) then Some (s, o) else None.
Definition scale_entries (scenes : list StacScene) (kept : btree string (list string))
    : btree string (f64 * f64) :=
  match scenes with
  | first :: _ => omap (λ e : string * list string, p ← scale_entry first e.1; Some (e.1, p)) kept
  | [] => []
  end.

Definition cube_value (id_str : string) (bbox : list f64) (scenes : list StacScene)
    (kept : btree string (list string)) : Value :=
  let scales := scale_entries scenes kept in
  Object [("__cube", Object (
    [("collection", JString id_str)]
    ++ (if bool_decide (scales = []) then []
        else [("band_scales", Object
                (prod_map id (λ p : f64 * f64, Array [json_of_f64 p.1; json_of_f64 p.2]) <$> scales))])
    ++ [("bbox", Array (json_of_f64 <$> bbox));
        ("scene_count", Number (PosInt (Z.of_nat (length scenes))))]
    ++ match mapM scene_datetime scenes with
       | Some dts => [("datetimes", str_array dts)]
       | None => []
       end
    ++ [("bands", Object (prod_map id str_array <$> kept))]))].

Definition first_error {A E} (f : A → result E unit) (l : list A) : result E unit :=
  _ ← result_traverse f l; Ok tt.

(** Download the work and put the files together: the eager way to a cube. *)
Definition download_cube (sched : list nat) (id_str : string) (bbox : list f64) (crs : string)
    (scenes : list StacScene) (bands : list string) (w : W) : option (result ExecError Value * W) :=
  match dispatch (work_list scenes bands) with
  | Err e => Some (Err e, w)
  | Ok tasks =>
      let crop := mkCropWindow (nth 0 bbox f64_zero) (nth 1 bbox f64_zero)
                    (nth 2 bbox f64_zero) (nth 3 bbox f64_zero) in
      match pump g policy_text crop crs sched ((λ t, (t, Waiting)) <$> tasks) [] w with
      | None => None
      | Some (Err e, w) => Some (Err e, w)
      | Some (Ok got, w) =>
          let kept := complete_bands (foldl fill_slot (empty_slots (length scenes) bands) got) in
          if bool_decide (kept = []) then
            Some (Err (ExecBackend ("load_collection: none of the requested bands "
              +:+ debug_strings bands +:+ " are present on every scene")), w)
          else Some (Ok (cube_value id_str bbox scenes kept), w)
      end
  end.

(** The bands and the coordinate system of a load are checked before its scenes
    are delivered. *)
Definition check_request (bands : list string) (crs : string) : result ExecError unit :=
  if bool_decide (bands = [])
  then Err (InvalidGraph "load_collection: `bands` argument must contain at least one band")
  else
    _ ← first_error (λ b, validate_identifier b "load_collection.bands") bands;
    map_err (λ e, InvalidGraph ("load_collection.spatial_extent.crs: " +:+ e))
      (validate_crs_spec debug_char crs).

(** The search; [deliver] makes the cube of the scenes found. *)
Definition load_cube
    (deliver : string → list f64 → string → list StacScene → list string → W →
               option (result ExecError Value * W))
    (search : string → list f64 → option string → Z → option f64 → W →
              result ExecError (list StacScene) * W)
    (id_str : string) (spatial : Value) (args : btree string Value) (w : W)
    : option (result ExecError Value * W) :=
  match parse_bbox f64_display to_text spatial with
  | Err e => Some (Err e, w)
  | Ok (bbox, crs) =>
      let datetime := match parse_temporal <$> bt_get "temporal_extent" args with
                      | Some (Ok s) => Some s | _ => None end in
      let limit := Z.max 1 (Z.min (default 3 (bt_get "limit" args ≫= as_u64)) 50) in
      let cloud := bt_get "properties" args ≫= parse_eo_cloud_cover_lt in
      match search id_str bbox datetime limit cloud w with
      | (Err e, w) => Some (Err e, w)
      | (Ok [], w) =>
          Some (Err (ExecBackend ("STAC search returned no scenes for collection `" +:+ id_str
            +:+ "` in bbox " +:+ debug_f64s bbox)), w)
      | (Ok scenes, w) =>
          match check_request (requested args) crs with
          | Err e => Some (Err e, w)
          | Ok _ => deliver id_str bbox crs scenes (requested args) w
          end
      end
  end.

Definition load_with
    (deliver : string → list f64 → string → list StacScene → list string → W →
               option (result ExecError Value * W))
    (args : btree string Value) (w : W) : option (result ExecError Value * W) :=
  match bt_get "id" args ≫= as_str with
  | None => Some (Err (InvalidGraph "load_collection: `id` argument must be a string"), w)
  | Some id_str =>
      match (match catalog g with Some get => Some (get id_str) | None => None end) with
      | Some (Err (CollectionNotFound c)) => Some (Err (ExecBackend ("CollectionNotFound: " +:+ c)), w)
      | Some (Err e) => Some (Err (ExecBackend ("catalog: " +:+ catalog_error_text e)), w)
      | _ =>
          match searcher g, bt_get "spatial_extent" args with
          | Some search, Some spatial => load_cube deliver search id_str spatial args w
          | _, _ => Some (Ok (Object [("type", JString "DataCube"); ("collection", JString id_str)]), w)
          end
      end
  end.

(** [eval_load_collection] with eager downloads (ORBIT_VSICURL_STREAM unset). *)
Definition eval_load_collection (args : btree string Value) (sched : list nat) (w : W)
    : option (result ExecError Value * W) :=
  load_with (download_cube sched) args w.
End load.

(** ** The stream of fetches *)

Section pump_facts.
Context {W : Type} (g : Loader W) (policy_text : UrlPolicyError → string).
Context (crop : CropWindow) (crop_crs : string).

(** Where a fetched path comes from: the task's own file, or the cache. *)
Definition served (href dst p : string) : Prop :=
  match cache g with
  | None => p = dst
  | Some c => ∃ w w', cache_get c href w = (Some p, w') ∨ cache_insert c href dst w = (Ok p, w')
  end.

Definition state_ok (got : list (nat * string * string)) (t : Task) (s : TaskState) : Prop :=
  match s with
  | Waiting => True
  | Missed => check (url_policy g) (t_href t) = Ok tt
  | Finished (Ok p) => check (url_policy g) (t_href t) = Ok tt ∧ served (t_href t) (t_dst t) p ∧
                       (t_scene t, t_band t, p) ∈ got
  | Finished (Err _) => False
  end.

Record pump_inv (tasks : list (Task * TaskState)) (got : list (nat * string * string)) : Prop := {
  inv_states : ∀ t s, (t, s) ∈ tasks → state_ok got t s;
  inv_got : ∀ i b p, (i, b, p) ∈ got → ∃ t, t ∈ tasks.*1 ∧ t_scene t = i ∧ t_band t = b ∧
    served (t_href t) (t_dst t) p }.

Lemma state_ok_more got got' t s : (∀ r, r ∈ got → r ∈ got') → state_ok got t s → state_ok got' t s.
Proof. intros Hg. destruct s as [| |[p|e]]; simpl; naive_solver. Qed.

Lemma fetch_step_ok t s w s' w' got : state_ok got t s → (∀ r, s ≠ Finished r) →
  fetch_step g policy_text crop crop_crs t s w = (s', w') →
  match s' with
  | Finished (Ok p) => check (url_policy g) (t_href t) = Ok tt ∧ served (t_href t) (t_dst t) p
  | Finished (Err _) => True
  | _ => s = Waiting ∧ s' = Missed ∧ check (url_policy g) (t_href t) = Ok tt
  end.
Proof.
  intros Hs Hn. destruct s as [| |r]; simpl; [| |by destruct (Hn r)].
  - destruct (check (url_policy g) (t_href t)) as [[]|e]; [|by intros [= <- _]].
    unfold served. destruct (cache g) as [c|]; [|by intros [= <- _]].
    destruct (cache_get c (t_href t) w) as [[p|] w1] eqn:E; intros [= <- <-]; [|done].
    split; [done|]. by exists w, w1; left.
  - simpl in Hs. unfold fetch_blocking, served.
    destruct (sign g (t_href t)) as [signed|e]; [|by intros [= <- _]].
    destruct (download g _ _ _ _ _ w) as [[[]|e] w1]; [|by intros [= <- _]].
    destruct (cache g) as [c|]; [|by intros [= <- _]].
    destruct (cache_insert c (t_href t) (t_dst t) w1) as [[p|e] w2] eqn:E; intros [= <- _]; [|done].
    split; [done|]. by exists w1, w2; right.
Qed.

(** The tasks of a list are those of the list with one state changed. *)
Lemma insert_states i t s s' (tasks : list (Task * TaskState)) : tasks !! i = Some (t, s) →
  (<[i := (t, s')]> tasks).*1 = tasks.*1 ∧
  ∀ t0 s0, (t0, s0) ∈ <[i := (t, s')]> tasks → (t0, s0) ∈ tasks ∨ (t0 = t ∧ s0 = s').
Proof.
  intros Hi. split.
  - rewrite list_fmap_insert. simpl. apply list_insert_id. by rewrite list_lookup_fmap, Hi.
  - intros t0 s0 Hin. apply list_elem_of_lookup in Hin as [j Hj].
    destruct (decide (j = i)) as [->|Hne].
    + rewrite list_lookup_insert_eq in Hj by (by eapply lookup_lt_Some). injection Hj as <- <-. by right.
    + rewrite list_lookup_insert_ne in Hj by done. left. by eapply list_elem_of_lookup_2.
Qed.

Definition all_finished (tasks : list (Task * TaskState)) : bool :=
  forallb (λ e, match e.2 with Finished _ => true | _ => false end) tasks.

Lemma pump_ok sched : ∀ tasks got w got' w',
  pump_inv tasks got → pump g policy_text crop crop_crs sched tasks got w = Some (Ok got', w') →
  ∃ tasks', tasks'.*1 = tasks.*1 ∧ all_finished tasks' = true ∧ pump_inv tasks' got'.
Proof.
  induction sched as [|i sched IH]; intros tasks got w got' w' Hinv Hr; cbn [pump] in Hr;
    fold (all_finished tasks) in Hr; destruct (all_finished tasks) eqn:Hall;
    try (injection Hr as <- <-; by exists tasks); [done|].
  destruct (tasks !! i) as [[t s]|] eqn:Hi; [|by eapply IH].
  assert (state_ok got t s) as Hs by (eapply inv_states; [done|by eapply list_elem_of_lookup_2]).
  destruct (match s with Finished _ => true | _ => false end) eqn:Hf.
  { destruct s; try done. by eapply IH. }
  destruct (fetch_step g policy_text crop crop_crs t s w) as [s' w1] eqn:Hstep.
  pose proof (fetch_step_ok t s w s' w1 got Hs ltac:(by intros r ->) Hstep) as Hok.
  destruct (insert_states i t s s' tasks Hi) as [Hfst Hin].
  assert (∃ r, (match s' with
      | Finished (Err e) => Some (Err e, w1)
      | Finished (Ok p) => pump g policy_text crop crop_crs sched (<[i := (t, s')]> tasks)
                             (got ++ [(t_scene t, t_band t, p)]) w1
      | _ => pump g policy_text crop crop_crs sched (<[i := (t, s')]> tasks) got w1
      end) = r ∧ r = Some (Ok got', w')) as (r & Hr' & ->).
  { eexists. split; [reflexivity|]. destruct s; [| |done]; exact Hr. }
  clear Hr. rewrite <- Hfst.
  assert (t ∈ tasks.*1) as Htin
    by (apply list_elem_of_lookup_2, (list_elem_of_fmap_2 fst) in Hi; exact Hi).
  destruct s' as [| |[p|e]]; [by destruct Hok as (_ & ? & _)| | |done].
  - eapply IH; [|exact Hr']. destruct Hok as (_ & _ & Hc). split.
    + intros t0 s0 [Hin0|[-> ->]]%Hin; [by eapply inv_states|done].
    + intros i0 b p Hg. rewrite Hfst. by eapply inv_got.
  - destruct Hok as [Hc Hsv]. eapply IH; [|exact Hr']. split.
    + intros t0 s0 [Hin0|[-> ->]]%Hin.
      * eapply state_ok_more; [|by eapply inv_states]. intros r0. rewrite elem_of_app. by left.
      * simpl. rewrite elem_of_app, list_elem_of_singleton. by repeat split; [..|right].
    + intros i0 b q [Hg|Hg%list_elem_of_singleton]%elem_of_app; rewrite Hfst; [by eapply inv_got|].
      injection Hg as -> -> ->. by exists t.
Qed.

(** ** Progress *)

(** The actions a task has still to take. *)
Definition actions_left (s : TaskState) : nat :=
  match s with Waiting => 2 | Missed => 1 | Finished _ => 0 end.

Definition turns (i : nat) (sched : list nat) : nat := length (filter (λ j, j = i) sched).

Lemma fetch_step_progress t s w s' w' : fetch_step g policy_text crop crop_crs t s w = (s', w') →
  (actions_left s' ≤ actions_left s - 1)%nat.
Proof.
  destruct s as [| |r]; simpl.
  - destruct (check _ _); [|by intros [= <- _]; simpl; lia].
    destruct (cache g) as [c|]; [|by intros [= <- _]; simpl; lia].
    destruct (cache_get c _ w) as [[] ?]; intros [= <- _]; simpl; lia.
  - destruct (fetch_blocking _ _ _ _ w) as [r w1]. intros [= <- _]. simpl. lia.
  - by intros [= <- _].
Qed.

Lemma pump_completes sched : ∀ tasks got w,
  (∀ i t s, tasks !! i = Some (t, s) → (actions_left s ≤ turns i sched)%nat) →
  is_Some (pump g policy_text crop crop_crs sched tasks got w).
Proof.
  assert (∀ tasks, (∀ i t s, tasks !! i = Some (t, s) → actions_left s = 0%nat) →
    all_finished tasks = true) as Hdone.
  { intros tasks H. unfold all_finished. apply forallb_forall. intros [t s] Hin.
    apply list_elem_of_In, list_elem_of_lookup in Hin as [i Hi]. apply H in Hi. by destruct s. }
  induction sched as [|i sched IH]; intros tasks got w Hf; cbn [pump];
    fold (all_finished tasks); destruct (all_finished tasks) eqn:Hall; try by eexists.
  - rewrite Hdone in Hall; [done|]. intros i t s Hi. apply Hf in Hi. unfold turns in Hi. simpl in Hi. lia.
  - assert (∀ j, j ≠ i → turns j (i :: sched) = turns j sched) as Hne
      by (intros j Hj; unfold turns; by rewrite filter_cons, decide_False).
    assert (turns i (i :: sched) = S (turns i sched)) as Heq
      by (unfold turns; by rewrite filter_cons, decide_True).
    destruct (tasks !! i) as [[t s]|] eqn:Hi.
    + destruct (decide (actions_left s = 0%nat)) as [Hz|Hz].
      * destruct s; try done. apply IH. intros j t0 s0 Hj. destruct (decide (j = i)) as [->|Hji].
        { rewrite Hi in Hj. injection Hj as <- <-. simpl. lia. }
        apply Hf in Hj as Hj'. by rewrite Hne in Hj'.
      * destruct (fetch_step g policy_text crop crop_crs t s w) as [s' w1] eqn:Hstep.
        pose proof (fetch_step_progress _ _ _ _ _ Hstep) as Hp.
        assert (∀ j t0 s0, <[i := (t, s')]> tasks !! j = Some (t0, s0) →
          (actions_left s0 ≤ turns j sched)%nat) as Hf'.
        { intros j t0 s0 Hj. destruct (decide (j = i)) as [->|Hji].
          - rewrite list_lookup_insert_eq in Hj by (by eapply lookup_lt_Some). injection Hj as <- <-.
            apply Hf in Hi. rewrite Heq in Hi. lia.
          - rewrite list_lookup_insert_ne in Hj by done. apply Hf in Hj as Hj'. by rewrite Hne in Hj'. }
        destruct s; [| |done]; destruct s' as [| |[p|e]]; first [by apply IH|by eexists].
    + apply IH. intros j t0 s0 Hj. apply Hf in Hj as Hj'.
      destruct (decide (j = i)) as [->|Hji]; [congruence|]. by rewrite Hne in Hj'.
Qed.
End pump_facts.

(** ** The slots of the bands *)

Lemma complete_Some slots paths : complete slots = Some paths ↔ slots = Some <$> paths.
Proof.
  unfold complete. split.
  - destruct (forallb _ slots) eqn:E; [|done]. intros [= <-].
    induction slots as [|[p|] slots IH]; [done| |done]. simpl. f_equal. by apply IH.
  - intros ->. assert (omap id (Some <$> paths) = paths) as ->
      by (induction paths as [|p paths IH]; [done|]; simpl; f_equal; exact IH).
    assert (forallb (λ o : option string, match o with Some _ => true | None => false end)
      (Some <$> paths) = true) as -> by (by induction paths). done.
Qed.

Record slots_inv (n : nat) (bands : list string) (got : list (nat * string * string))
    (m : btree string (list (option string))) : Prop := {
  sl_wf : bt_wf m;
  sl_keys : ∀ b, is_Some (bt_get b m) ↔ b ∈ bands;
  sl_length : ∀ b slots, bt_get b m = Some slots → length slots = n;
  sl_from : ∀ b slots i p, bt_get b m = Some slots → slots !! i = Some (Some p) → (i, b, p) ∈ got;
  sl_to : ∀ b slots i p, bt_get b m = Some slots → (i, b, p) ∈ got → (i < n)%nat →
            ∃ p', slots !! i = Some (Some p') }.

Lemma empty_slots_inv n bands : slots_inv n bands [] (empty_slots n bands).
Proof.
  assert (∀ bands m, bt_wf m → bt_wf (foldl (λ m b, bt_insert b (replicate n None) m) m bands) ∧
    ∀ b, bt_get b (foldl (λ m b, bt_insert b (replicate n (None (A := string))) m) m bands) =
      if bool_decide (b ∈ bands) then Some (replicate n None) else bt_get b m) as H.
  { clear bands. induction bands as [|b0 bands IH]; intros m Hm; simpl; [done|].
    destruct (IH (bt_insert b0 (replicate n None) m)) as [Hwf Hget]; [by apply bt_wf_insert|].
    split; [done|]. intros b. rewrite Hget. case_bool_decide as Hb.
    - by rewrite bool_decide_eq_true_2 by (by right).
    - destruct (decide (b = b0)) as [->|Hne].
      + rewrite bt_get_insert_eq by done. by rewrite bool_decide_eq_true_2 by (by left).
      + rewrite bt_get_insert_ne by done. rewrite bool_decide_eq_false_2; [done|].
        by intros [?|?]%elem_of_cons. }
  destruct (H bands [] bt_wf_nil) as [Hwf Hget]. fold (empty_slots n bands) in *.
  assert (∀ b slots, bt_get b (empty_slots n bands) = Some slots → slots = replicate n None) as Hs
    by (intros b slots; rewrite Hget; case_bool_decide; simpl; naive_solver).
  split; [done| | | |].
  - intros b. rewrite Hget. case_bool_decide; simpl; [by split|].
    split; [by intros [? ?]|done].
  - intros b slots ->%Hs. apply length_replicate.
  - intros b slots i p ->%Hs Hi. by apply lookup_replicate in Hi as [? _].
  - intros b slots i p _ Hin. by apply not_elem_of_nil in Hin.
Qed.

Lemma fill_slot_inv n bands got m i b p : b ∈ bands →
  slots_inv n bands got m → slots_inv n bands (got ++ [(i, b, p)]) (fill_slot m (i, b, p)).
Proof.
  intros Hb [Hwf Hkeys Hlen Hfrom Hto]. unfold fill_slot.
  destruct (proj2 (Hkeys b) Hb) as [slots Hs]. rewrite Hs.
  assert (∀ b0, bt_get b0 (bt_insert b (<[i := Some p]> slots) m) =
    if decide (b0 = b) then Some (<[i := Some p]> slots) else bt_get b0 m) as Hget.
  { intros b0. destruct (decide (b0 = b)) as [->|]; [by apply bt_get_insert_eq|by apply bt_get_insert_ne]. }
  split; [by apply bt_wf_insert| | | |].
  - intros b0. rewrite Hget. destruct (decide (b0 = b)) as [->|]; [|by apply Hkeys].
    split; [done|by eexists].
  - intros b0 slots0. rewrite Hget. destruct (decide (b0 = b)) as [->|]; [|apply Hlen].
    intros [= <-]. rewrite length_insert. by eapply Hlen.
  - intros b0 slots0 i0 q. rewrite Hget, elem_of_app.
    destruct (decide (b0 = b)) as [->|]; [|intros; left; by eapply Hfrom].
    intros [= <-]. destruct (decide (i0 = i)) as [->|Hne].
    + intros Hi. apply list_lookup_insert_Some in Hi as [(_ & [= <-] & _)|(? & _)]; [|done].
      right. by left.
    + rewrite list_lookup_insert_ne by done. intros Hi. left. by eapply Hfrom.
  - intros b0 slots0 i0 q. rewrite Hget, elem_of_app, list_elem_of_singleton. intros Hs0 Hin Hi0.
    destruct (decide (b0 = b)) as [->|Hne].
    + injection Hs0 as <-. destruct (decide (i0 = i)) as [->|Hne].
      * exists p. apply list_lookup_insert_eq. by rewrite (Hlen _ _ Hs).
      * rewrite list_lookup_insert_ne by done. destruct Hin as [Hin|[= -> _]]; [|done].
        by eapply Hto.
    + destruct Hin as [Hin|[= _ -> _]]; [|done]. by eapply Hto.
Qed.

Lemma filled_slots n bands got : (∀ i b p, (i, b, p) ∈ got → b ∈ bands) →
  slots_inv n bands got (foldl fill_slot (empty_slots n bands) got).
Proof.
  induction got as [|[[i b] p] got IH] using rev_ind; intros Hb; [apply empty_slots_inv|].
  rewrite foldl_app. simpl. apply fill_slot_inv.
  - apply (Hb i b p). rewrite elem_of_app. right. by left.
  - apply IH. intros i0 b0 p0 Hin. apply (Hb i0 b0 p0). rewrite elem_of_app. by left.
Qed.

(** The bands that are kept, and their paths. *)
Lemma kept_bands n bands got : (∀ i b p, (i, b, p) ∈ got → b ∈ bands) →
  let kept := complete_bands (foldl fill_slot (empty_slots n bands) got) in
  bt_wf kept ∧
  (∀ b, is_Some (bt_get b kept) ↔ b ∈ bands ∧ ∀ i, (i < n)%nat → ∃ p, (i, b, p) ∈ got) ∧
  ∀ b paths, bt_get b kept = Some paths →
    length paths = n ∧ ∀ i p, paths !! i = Some p → (i, b, p) ∈ got.
Proof.
  intros Hb kept. pose proof (filled_slots n bands got Hb) as [Hwf Hkeys Hlen Hfrom Hto].
  unfold kept, complete_bands. set (m := foldl fill_slot _ got) in *.
  split; [by apply (bt_wf_omap (λ _, complete))|].
  assert (∀ b, bt_get b (omap (λ e : string * list (option string), p ← complete e.2; Some (e.1, p)) m)
    = bt_get b m ≫= complete) as Hget by (intros b; by apply (bt_get_omap (λ _, complete))).
  split.
  - intros b. rewrite Hget. split.
    + intros [paths (slots & Hs & Hc%complete_Some)%bind_Some]. split; [apply Hkeys; by eexists|].
      intros i Hi. apply Hlen in Hs as Hl. subst slots. rewrite length_fmap in Hl.
      destruct (lookup_lt_is_Some_2 paths i) as [p Hp]; [lia|]. exists p.
      eapply Hfrom; [done|]. by rewrite list_lookup_fmap, Hp.
    + intros [[slots Hs]%Hkeys Hall]. rewrite Hs. simpl. apply Hlen in Hs as Hl.
      assert (Forall (λ o : option string, is_Some o) slots) as Hsome.
      { apply Forall_forall. intros o Ho. apply list_elem_of_lookup in Ho as [i Hi].
        apply lookup_lt_Some in Hi as Hlt. destruct (Hall i) as [p Hp]; [lia|].
        destruct (Hto b slots i p Hs Hp) as [p' Hp']; [lia|]. rewrite Hp' in Hi.
        injection Hi as <-. by eexists. }
      assert (∃ paths, slots = Some <$> paths) as [paths E].
      { clear -Hsome. induction Hsome as [|o slots [p ->] _ [paths ->]]; [by exists []|].
        by exists (p :: paths). }
      exists paths. by apply complete_Some.
  - intros b paths. rewrite Hget. intros (slots & Hs & Hc%complete_Some)%bind_Some.
    apply Hlen in Hs as Hl. subst slots. rewrite length_fmap in Hl. split; [done|].
    intros i p Hp. eapply Hfrom; [done|]. by rewrite list_lookup_fmap, Hp.
Qed.

(** ** The loaded cube *)

Lemma elem_of_work_list i s b scenes bands :
  (i, s, b) ∈ work_list scenes bands ↔ scenes !! i = Some s ∧ b ∈ bands.
Proof.
  unfold work_list. rewrite list_elem_of_In, in_concat. split.
  - intros (l & Hl%list_elem_of_In & Hin%list_elem_of_In).
    apply elem_of_lookup_imap in Hl as (j & s' & -> & Hj).
    apply list_elem_of_fmap in Hin as (b' & [= -> -> ->] & Hb). done.
  - intros [Hi Hb]. exists ((λ b, (i, s, b)) <$> bands). rewrite <- !list_elem_of_In. split.
    + apply elem_of_lookup_imap. by exists i, s.
    + by apply (list_elem_of_fmap_2 (λ b, (i, s, b))).
Qed.

Section loaded.
Context {W : Type} (g : Loader W).

Definition task_of (work : list (nat * StacScene * string)) (t : Task) : Prop :=
  ∃ s, (t_scene t, s, t_band t) ∈ work ∧ resolve_band_href s (t_band t) = Some (t_href t) ∧
    t_dst t = dst_path g (t_band t) (t_scene t) ∧ validate_asset_href (t_href t) = Ok tt.

Lemma dispatch_spec work : ∀ ts, dispatch g work = Ok ts →
  (∀ t, t ∈ ts → task_of work t) ∧
  ∀ i s b href, (i, s, b) ∈ work → resolve_band_href s b = Some href →
    ∃ t, t ∈ ts ∧ t_scene t = i ∧ t_band t = b ∧ t_href t = href.
Proof.
  induction work as [|[[i s] b] work IH]; intros ts; simpl.
  - intros [= <-]. split; [by intros t ?%not_elem_of_nil|by intros ???? ?%not_elem_of_nil].
  - assert (∀ t, task_of work t → task_of ((i, s, b) :: work) t) as Hmore
      by (intros t (s' & ? & ?); exists s'; split; [by right|done]).
    destruct (resolve_band_href s b) as [href|] eqn:Hr.
    + destruct (validate_asset_href href) as [[]|] eqn:Hv; [|done]. simpl.
      destruct (dispatch g work) as [ts'|]; [|done]. intros [= <-].
      destruct (IH ts' eq_refl) as [H1 H2]. split.
      * intros t [->|Ht]%elem_of_cons; [|by apply Hmore, H1].
        exists s. simpl. split; [by left|done].
      * intros i' s' b' h' [[= -> -> ->]|Hin]%elem_of_cons Hr'.
        -- rewrite Hr in Hr'. injection Hr' as <-. eexists. split; [by left|done].
        -- destruct (H2 _ _ _ _ Hin Hr') as (t & Ht & ?). exists t. split; [by right|done].
    + intros Hd. destruct (IH ts Hd) as [H1 H2]. split; [by intros t Ht; apply Hmore, H1|].
      intros i' s' b' h' [[= -> -> ->]|Hin]%elem_of_cons Hr'; [congruence|by eapply H2].
Qed.

Definition scene_numbers (s : StacScene) : Prop :=
  ∀ b m, resolve_band_metadata s b = Some m →
    is_finite (default f64_one (scale m)) = true ∧ is_finite (default f64_zero (offset m)) = true.

Lemma scale_entries_ok scenes kept : Forall scene_numbers scenes → bt_wf kept →
  bt_wf (scale_entries scenes kept) ∧ Forall (λ e, finite_pair e.2) (scale_entries scenes kept).
Proof.
  intros Hn Hwf. destruct scenes as [|first scenes]; [split; constructor|].
  split; [by apply (bt_wf_omap (λ b _, scale_entry first b))|].
  apply Forall_cons in Hn as [Hf _]. apply Forall_forall.
  intros e ([b paths] & _ & He)%list_elem_of_omap. cbn [fst] in He.
  apply bind_Some in He as (p & Hp & [= <-]). simpl.
  unfold scale_entry in Hp. apply bind_Some in Hp as (m & Hm & Hp).
  destruct (_ || _); [|done]. injection Hp as <-. by apply Hf in Hm.
Qed.

Definition loaded_cube (id_str : string) (bbox : list f64) (scenes : list StacScene)
    (kept : btree string (list string)) : DataCube :=
  mkDataCube kept (scale_entries scenes kept) (Some id_str) (Some bbox)
    (Some (Z.of_nat (length scenes))) (mapM scene_datetime scenes)
    None None None None None None None [].

Lemma loaded_cube_wf id_str bbox scenes kept :
  bt_wf kept → Forall (λ x, is_finite x = true) bbox → Forall scene_numbers scenes →
  cube_wf (loaded_cube id_str bbox scenes kept).
Proof.
  intros Hk Hb Hs. destruct (scale_entries_ok scenes kept Hs Hk).
  split; simpl; try done; [by intros l [= <-]|constructor..].
Qed.

Lemma cube_value_decodes serde_error id_str bbox scenes kept :
  bt_wf kept → Forall (λ x, is_finite x = true) bbox → Forall scene_numbers scenes →
  from_envelope_owned serde_error (cube_value id_str bbox scenes kept) =
  Ok (loaded_cube id_str bbox scenes kept).
Proof.
  intros Hk Hb Hs. destruct (scale_entries_ok scenes kept Hs Hk) as [Hwf Hfin].
  assert (de_map (de_vec as_str) (Object (prod_map id str_array <$> kept)) = Some kept) as Hkept
    by (apply de_map_encoded; [done|]; intros; apply de_str_array).
  assert (de_vec as_f64 (Array (json_of_f64 <$> bbox)) = Some bbox) as Hbbox.
  { unfold de_vec. simpl. apply mapM_fmap_id. intros x Hx. rewrite Forall_forall in Hb.
    by apply as_f64_json, Hb. }
  assert (de_map de_pair (Object (prod_map id (λ p : f64 * f64,
      Array [json_of_f64 p.1; json_of_f64 p.2]) <$> scale_entries scenes kept)) =
    Some (scale_entries scenes kept)) as Hscales.
  { apply (de_map_encoded (λ p : f64 * f64, Array [json_of_f64 p.1; json_of_f64 p.2])); [done|].
    intros k [x y] Hx. rewrite Forall_forall in Hfin. destruct (Hfin _ Hx) as [? ?].
    simpl in *. by rewrite !as_f64_json. }
  unfold loaded_cube, cube_value. cbv zeta.
  set (scales := scale_entries scenes kept) in *.
  set (kv := Object (prod_map id str_array <$> kept)) in *.
  set (bv := Array (json_of_f64 <$> bbox)) in *.
  set (sv := Object (prod_map id _ <$> scales)) in *.
  pose (members := λ dts : option (list string),
    [("collection", JString id_str)] ++
    (if bool_decide (scales = []) then [] else [("band_scales", sv)]) ++
    [("bbox", bv); ("scene_count", Number (PosInt (Z.of_nat (length scenes))))] ++
    match dts with Some dts => [("datetimes", str_array dts)] | None => [] end ++
    [("bands", kv)]).
  change (from_envelope_owned serde_error
    (Object [("__cube", Object (members (mapM scene_datetime scenes)))]) =
    Ok (mkDataCube kept scales (Some id_str) (Some bbox) (Some (Z.of_nat (length scenes)))
      (mapM scene_datetime scenes) None None None None None None None [])).
  assert (∀ dts, from_map (members dts) = Some (mkDataCube kept scales (Some id_str) (Some bbox)
      (Some (Z.of_nat (length scenes))) dts None None None None None None None [])) as H.
  { intros dts. unfold members, from_map. case_bool_decide as Hsc; destruct dts as [dts|];
      unfold de_default, de_option; simpl;
      rewrite ?Hkept, ?Hbbox, ?Hscales, ?de_str_array; simpl; rewrite ?Hsc; done. }
  clearbody members. unfold from_envelope_owned, from_envelope, from_value. simpl. by rewrite H.
Qed.
End loaded.

(** ** The load as a whole *)

Lemma parse_bbox_numbers `{DebugText} f64_display to_text v bbox crs :
  numbers_ok v = true → parse_bbox f64_display to_text v = Ok (bbox, crs) →
  Forall (λ x, is_finite x = true) bbox.
Proof.
  intros Hv Hp. unfold parse_bbox in Hp.
  destruct (jget "west" v ≫= as_f64) as [w|] eqn:Hw; [|done].
  destruct (jget "south" v ≫= as_f64) as [s|] eqn:Hs; [|done].
  destruct (jget "east" v ≫= as_f64) as [e|] eqn:He; [|done].
  destruct (jget "north" v ≫= as_f64) as [n|] eqn:Hn; [|done].
  destruct (negb _); [done|]. destruct (negb _); [done|].
  destruct (parse_bbox_crs _ _) as [c|]; [|done]. injection Hp as <- _.
  assert (∀ k x, jget k v ≫= as_f64 = Some x → is_finite x = true) as Hk.
  { intros k x (y & Hj & Hy)%bind_Some. eapply as_f64_finite; [|exact Hy].
    by eapply numbers_ok_jget. }
  repeat constructor; by eapply Hk.
Qed.

Lemma first_error_ok {A E} (f : A → result E unit) (l : list A) :
  first_error f l = Ok tt → ∀ x, x ∈ l → f x = Ok tt.
Proof.
  unfold first_error. intros Hf. destruct (result_traverse f l) as [u|] eqn:Ht; [|done]. clear Hf.
  revert u Ht. induction l as [|y l IH]; intros u Ht x Hx; [by apply not_elem_of_nil in Hx|].
  simpl in Ht. destruct (f y) as [[]|] eqn:Hy; [|done]. simpl in Ht.
  destruct (result_traverse f l) as [u'|]; [|done].
  apply elem_of_cons in Hx as [->|Hx]; [done|by eapply IH].
Qed.

(** What a successful stream of fetches over the tasks of a load gives. *)
Lemma pump_loaded {W} (g : Loader W) policy_text crop crs sched work ts got w w' :
  dispatch g work = Ok ts →
  pump g policy_text crop crs sched ((λ t, (t, Waiting)) <$> ts) [] w = Some (Ok got, w') →
  (∀ i b p, (i, b, p) ∈ got → ∃ s href, (i, s, b) ∈ work ∧ resolve_band_href s b = Some href ∧
     served g href (dst_path g b i) p) ∧
  (∀ i s b href, (i, s, b) ∈ work → resolve_band_href s b = Some href →
     validate_asset_href href = Ok tt ∧ check (url_policy g) href = Ok tt ∧ ∃ p, (i, b, p) ∈ got).
Proof.
  intros Hd Hp. destruct (dispatch_spec g work ts Hd) as [Hof Hex].
  apply pump_ok in Hp as (tasks' & Hfst & Hall & [Hst Hgot]).
  2: { split; [|by intros i b p ?%not_elem_of_nil].
       intros t s (t' & [= -> ->] & _)%list_elem_of_fmap. done. }
  assert (tasks'.*1 = ts) as Hts.
  { rewrite Hfst. rewrite <- list_fmap_compose. apply list_fmap_id. }
  split.
  - intros i b p Hin. destruct (Hgot _ _ _ Hin) as (t & Ht & <- & <- & Hs). rewrite Hts in Ht.
    destruct (Hof t Ht) as (s & Hw & Hr & Hdst & _). exists s, (t_href t).
    by rewrite <- Hdst.
  - intros i s b href Hin Hr. destruct (Hex _ _ _ _ Hin Hr) as (t & Ht & <- & <- & <-).
    destruct (Hof t Ht) as (_ & _ & _ & _ & Hv). split; [done|].
    rewrite <- Hts in Ht. apply list_elem_of_fmap in Ht as ([t' st] & -> & Hin').
    pose proof (Hst _ _ Hin') as Hok. unfold all_finished in Hall. rewrite forallb_forall in Hall.
    specialize (Hall (t', st) (proj1 (list_elem_of_In _ _) Hin')). simpl in Hall.
    destruct st as [| |[p|e]]; try done. simpl in Hok. destruct Hok as (Hc & _ & Hg).
    split; [done|]. by exists p.
Qed.

Section theorems.
Context {W : Type} (g : Loader W) (serde_error : Value → string).
Context `{DebugText} (f64_display : f64 → string) (to_text : Value → string).
Context (policy_text : UrlPolicyError → string).

(** The cube a load promises: for every requested band that all the scenes
    have, one file per scene, in the order of the scenes and of [datetimes]. *)
Record aligned (scenes : list StacScene) (bands : list string) (c : DataCube) : Prop := {
  al_wf : cube_wf c;
  al_count : scene_count c = Some (Z.of_nat (length scenes));
  al_times : datetimes c = mapM scene_datetime scenes;
  al_some : Cube.bands c ≠ [];
  al_bands : ∀ b, is_Some (bt_get b (Cube.bands c)) ↔
    b ∈ bands ∧ ∀ s, s ∈ scenes → is_Some (resolve_band_href s b);
  al_paths : ∀ b paths, bt_get b (Cube.bands c) = Some paths → length paths = length scenes ∧
    ∀ i p, paths !! i = Some p → ∃ s href, scenes !! i = Some s ∧
      resolve_band_href s b = Some href ∧ served g href (dst_path g b i) p }.

Lemma load_cube_aligned search id_str spatial args sched w v w' :
  numbers_ok spatial = true →
  (∀ bbox dt limit cloud w ss w', search id_str bbox dt limit cloud w = (Ok ss, w') → Forall scene_numbers ss) →
  load_cube f64_display to_text (download_cube g policy_text sched) search id_str spatial args w
    = Some (Ok v, w') →
  ∃ bbox crs dt limit cloud scenes w1 c,
    parse_bbox f64_display to_text spatial = Ok (bbox, crs) ∧
    search id_str bbox dt limit cloud w = (Ok scenes, w1) ∧ 1 ≤ limit ≤ 50 ∧
    from_envelope_owned serde_error v = Ok c ∧ aligned scenes (requested args) c ∧
    (∀ s b href, s ∈ scenes → b ∈ requested args → resolve_band_href s b = Some href →
       validate_asset_href href = Ok tt ∧ check (url_policy g) href = Ok tt).
Proof.
  intros Hnum Hscenes Hl. unfold load_cube in Hl.
  destruct (parse_bbox f64_display to_text spatial) as [[bbox crs]|] eqn:Hb; [|done].
  pose proof (parse_bbox_numbers _ _ _ _ _ Hnum Hb) as Hfin. cbv zeta in Hl.
  set (dt := match parse_temporal <$> bt_get "temporal_extent" args with
             | Some (Ok s) => Some s | _ => None end) in *.
  set (limit := Z.max 1 _) in *. set (cloud := _ ≫= parse_eo_cloud_cover_lt) in *.
  destruct (search id_str bbox dt limit cloud w) as [[scenes|e] w1] eqn:Hs; [|done].
  pose proof (Hscenes _ _ _ _ _ _ _ Hs) as Hsn.
  destruct scenes as [|s0 scenes]; [done|]. set (ss := s0 :: scenes) in *.
  destruct (check_request _ _) as [[]|]; [|done]. unfold download_cube in Hl.
  destruct (dispatch g _) as [ts|] eqn:Hd; [|done].
  destruct (pump _ _ _ _ _ _ _ w1) as [[[got|] w2]|] eqn:Hp; [|done..].
  case_bool_decide as Hk; [done|]. injection Hl as <- <-.
  destruct (pump_loaded _ _ _ _ _ _ _ _ _ _ Hd Hp) as [Hfrom Hto].
  assert (∀ i b p, (i, b, p) ∈ got → b ∈ requested args) as Hbands.
  { intros i b p Hin. destruct (Hfrom _ _ _ Hin) as (s & ? & [_ ?]%elem_of_work_list & _). done. }
  destruct (kept_bands (length ss) _ got Hbands) as (Hwf & Hkeys & Hpaths).
  set (kept := complete_bands _) in *.
  exists bbox, crs, dt, limit, cloud, ss, w1, (loaded_cube id_str bbox ss kept).
  split; [done|]. split; [exact Hs|]. split; [unfold limit; lia|].
  split; [by apply cube_value_decodes|]. split; [split; simpl|].
  - by apply loaded_cube_wf.
  - done.
  - done.
  - done.
  - intros b. rewrite Hkeys. split; intros [Hb0 Hall]; (split; [done|]).
    + intros s [i Hi]%list_elem_of_lookup. apply lookup_lt_Some in Hi as Hlt.
      destruct (Hall i Hlt) as [p Hin]. destruct (Hfrom _ _ _ Hin) as (s' & href & [Hi' _]%elem_of_work_list & Hr & _).
      rewrite Hi in Hi'. injection Hi' as <-. by eexists.
    + intros i [s Hi]%lookup_lt_is_Some_2.
      destruct (Hall s) as [href Hr]; [by eapply list_elem_of_lookup_2|].
      eapply Hto; [|done]. by apply elem_of_work_list.
  - intros b paths [Hlen Hin]%Hpaths. split; [done|]. intros i p Hi%Hin.
    destruct (Hfrom _ _ _ Hi) as (s & href & [Hi' _]%elem_of_work_list & Hr & Hserved).
    by exists s, href.
  - intros s b href [i Hi]%list_elem_of_lookup Hb0 Hr.
    destruct (Hto i s b href) as (? & ? & _); [by apply elem_of_work_list|done|done].
Qed.

(** C6: Whatever the order in which the downloads of a load act and complete, a
    load that finds scenes returns an envelope that decodes to a well-formed
    cube aligned with the search result: its bands are exactly the requested
    bands every scene has (under one of their names), path [i] of a band is the
    file fetched for that band of scene [i], the scene count and the datetimes
    are the scenes', and every link fetched passed the asset guard and the URL
    policy.  The search is asked for one to fifty scenes. *)
Theorem load_aligned search args spatial id_str sched w v w' :
  searcher g = Some search → bt_get "spatial_extent" args = Some spatial →
  bt_get "id" args ≫= as_str = Some id_str → numbers_ok spatial = true →
  (∀ bbox dt limit cloud w ss w', search id_str bbox dt limit cloud w = (Ok ss, w') → Forall scene_numbers ss) →
  eval_load_collection g f64_display to_text policy_text args sched w = Some (Ok v, w') →
  ∃ bbox crs dt limit cloud scenes w1 c,
    parse_bbox f64_display to_text spatial = Ok (bbox, crs) ∧
    search id_str bbox dt limit cloud w = (Ok scenes, w1) ∧ 1 ≤ limit ≤ 50 ∧
    from_envelope_owned serde_error v = Ok c ∧ aligned scenes (requested args) c ∧
    (∀ s b href, s ∈ scenes → b ∈ requested args → resolve_band_href s b = Some href →
       validate_asset_href href = Ok tt ∧ check (url_policy g) href = Ok tt).
Proof.
  intros Hg Hsp Hid Hnum Hscenes Hl. unfold eval_load_collection, load_with in Hl.
  rewrite Hid, Hg, Hsp in Hl.
  assert (load_cube f64_display to_text (download_cube g policy_text sched) search id_str spatial args w
    = Some (Ok v, w')) as Hc.
  { destruct (catalog g) as [get|]; [|exact Hl]. by destruct (get id_str) as [?|[]]. }
  by eapply load_cube_aligned.
Qed.

(** A load always ends: there is a number of tasks [n], fixed by the call,
    such that under every schedule that gives each of the first [n] tasks two
    turns, in any order, the load returns a value or an error. *)
Theorem load_completes args w : ∃ n, ∀ sched,
  (∀ i, (i < n)%nat → (2 ≤ turns i sched)%nat) →
  is_Some (eval_load_collection g f64_display to_text policy_text args sched w).
Proof.
  unfold eval_load_collection, load_with.
  destruct (_ ≫= as_str) as [id_str|]; [|by exists 0%nat].
  assert (∃ n, ∀ sched, (∀ i, (i < n)%nat → (2 ≤ turns i sched)%nat) →
    is_Some (match searcher g, bt_get "spatial_extent" args with
      | Some search, Some spatial =>
          load_cube f64_display to_text (download_cube g policy_text sched) search id_str spatial args w
      | _, _ => Some (Ok (Object [("type", JString "DataCube"); ("collection", JString id_str)]), w)
      end)) as [n Hn].
  2: { exists n. intros sched Hs. specialize (Hn sched Hs).
       destruct (catalog g) as [get|]; [|exact Hn]. by destruct (get id_str) as [?|[]]. }
  destruct (searcher g) as [search|]; [|by exists 0%nat].
  destruct (bt_get "spatial_extent" args) as [spatial|]; [|by exists 0%nat]. unfold load_cube.
  destruct (parse_bbox f64_display to_text spatial) as [[bbox crs]|]; [|by exists 0%nat]. cbv zeta.
  destruct (search _ _ _ _ _ _) as [[[|s0 scenes]|] w1]; [by exists 0%nat| |by exists 0%nat].
  destruct (check_request _ _); [|by exists 0%nat]. unfold download_cube.
  destruct (dispatch g _) as [ts|]; [|by exists 0%nat].
  exists (length ts). intros sched Hs.
  destruct (pump_completes g policy_text (mkCropWindow (nth 0 bbox f64_zero) (nth 1 bbox f64_zero)
    (nth 2 bbox f64_zero) (nth 3 bbox f64_zero)) crs sched ((λ t, (t, Waiting)) <$> ts) [] w1) as [[[got|] w2] ->].
  - intros i t s Hi. rewrite list_lookup_fmap in Hi. apply fmap_Some in Hi as (t' & Ht & [= -> ->]).
    simpl. apply Hs. by eapply lookup_lt_Some.
  - by case_bool_decide.
  - done.
Qed.
End theorems.

(** A load of two bands of two scenes; the world is the list of the downloads
    made so far, with their crop windows. *)
Section demo.
Local Instance plain_debug : DebugText := {| debug_char := λ c, c; debug_strings := λ _, ""; debug_f64s := λ _, "" |}.

Definition demo_scene (id date : string) : StacScene :=
  mkStacScene id [("B04", "https://x.y/" +:+ id +:+ "/B04.tif"); ("B08", "https://x.y/" +:+ id +:+ "/B08.tif")]
    [] (Some date).
Definition demo_loader : Loader (list (string * CropWindow)) :=
  mkLoader _ None
    (Some (λ _ _ _ _ _ w, (Ok [demo_scene "s1" "2024-05-01"; demo_scene "s2" "2024-05-11"], w)))
    (λ href, Ok href) (λ _ dst crop _ _ w, (Ok tt, w ++ [(dst, crop)])) None "/tmp" default_policy.
Definition demo_extent (west : Z) : Value :=
  Object [("west", Number (PosInt west)); ("south", Number (PosInt 47));
          ("east", Number (PosInt 16)); ("north", Number (PosInt 48))].
Definition demo_args (west : Z) : btree string Value :=
  [("bands", Array [JString "B08"]); ("id", JString "s2-l2a"); ("spatial_extent", demo_extent west)].
Definition demo_load (west : Z) (sched : list nat) :=
  eval_load_collection demo_loader (λ _, "") (λ _, "") (λ _, "") (demo_args west) sched.

Definition demo_result : Value * list (string * CropWindow) :=
  match demo_load 14 [1; 0; 0; 1]%nat [] with Some (Ok v, w) => (v, w) | _ => (Null, []) end.

Lemma demo_scenes_numbers :
  Forall scene_numbers [demo_scene "s1" "2024-05-01"; demo_scene "s2" "2024-05-11"].
Proof.
  assert (∀ names, omap (λ k, bt_get k ([] : btree string BandMetadata)) names = []) as H
    by (intros names; by induction names).
  assert (∀ id date, scene_numbers (demo_scene id date)) as Hs
    by (intros id date b m Hm; unfold resolve_band_metadata, resolve in Hm;
        simpl band_metadata in Hm; by rewrite H in Hm).
  by rewrite !Forall_cons.
Qed.

Lemma load_aligned_witness : ∃ c,
  demo_load 14 [1; 0; 0; 1]%nat [] = Some (Ok demo_result.1, demo_result.2) ∧
  from_envelope_owned (λ _, "") demo_result.1 = Ok c ∧
  Cube.bands c = [("B08", ["/tmp/B08_0.tif"; "/tmp/B08_1.tif"])] ∧
  aligned demo_loader [demo_scene "s1" "2024-05-01"; demo_scene "s2" "2024-05-11"] ["B08"] c.
Proof.
  destruct (load_aligned demo_loader (λ _, "") (λ _, "") (λ _, "") (λ _, "")
    (λ _ _ _ _ _ w, (Ok [demo_scene "s1" "2024-05-01"; demo_scene "s2" "2024-05-11"], w))
    (demo_args 14) (demo_extent 14) "s2-l2a" [1; 0; 0; 1]%nat [] demo_result.1 demo_result.2)
    as (bb & crs & dt & limit & cloud & ss & w1 & c & H).
  1-3: reflexivity.
  - vm_compute. reflexivity.
  - intros bb dt limit cloud w ss w' [= <- _]. by apply demo_scenes_numbers.
  - vm_compute. reflexivity.
  - destruct H as (_ & [= <- _] & _ & Hc & Hal & _). exists c.
    split; [vm_compute; reflexivity|]. split; [exact Hc|]. split; [|exact Hal].
    vm_compute in Hc. injection Hc as <-. reflexivity.
Defined.

(** Two loads of one executor write to the same files: the second replaces the
    rasters the first one's cube names. *)
Example second_load_overwrites :
  ∃ v1 v2 w1 w2 c1 c2, demo_load 14 [0; 0; 1; 1]%nat [] = Some (Ok v1, w1) ∧
    demo_load 15 [0; 0; 1; 1]%nat w1 = Some (Ok v2, w2) ∧
    from_envelope_owned (λ _, "") v1 = Ok c1 ∧ from_envelope_owned (λ _, "") v2 = Ok c2 ∧
    Cube.bands c1 = Cube.bands c2 ∧ bbox c1 ≠ bbox c2 ∧
    w2.*1 = ["/tmp/B08_0.tif"; "/tmp/B08_1.tif"; "/tmp/B08_0.tif"; "/tmp/B08_1.tif"].
Proof.
  do 6 eexists. split; [vm_compute; reflexivity|]. split; [vm_compute; reflexivity|].
  split; [vm_compute; reflexivity|]. split; [vm_compute; reflexivity|]. split; [reflexivity|].
  split; [|vm_compute; reflexivity]. vm_compute. intros [=].
Qed.

(** With a file cache, whose key is the link alone, a second load over another
    extent downloads nothing and is given the crops of the first. *)
Definition demo_cache : CacheOps (list CropWindow * btree string string) :=
  mkCacheOps _ (λ k w, (bt_get k w.2, w))
    (λ k p w, (Ok ("/cache" +:+ p), (w.1, bt_insert k ("/cache" +:+ p) w.2))).
Definition cached_loader : Loader (list CropWindow * btree string string) :=
  mkLoader _ None
    (Some (λ _ _ _ _ _ w, (Ok [demo_scene "s1" "2024-05-01"], w)))
    (λ href, Ok href) (λ _ _ crop _ _ w, (Ok tt, (w.1 ++ [crop], w.2))) (Some demo_cache)
    "/tmp" default_policy.
Definition cached_load (west : Z) :=
  eval_load_collection cached_loader (λ _, "") (λ _, "") (λ _, "") (demo_args west) [0; 0]%nat.

Example cached_crop_is_reused :
  ∃ v1 v2 w1 w2 c1 c2, cached_load 14 ([], []) = Some (Ok v1, w1) ∧
    cached_load 15 w1 = Some (Ok v2, w2) ∧ w2 = w1 ∧
    from_envelope_owned (λ _, "") v1 = Ok c1 ∧ from_envelope_owned (λ _, "") v2 = Ok c2 ∧
    Cube.bands c1 = Cube.bands c2 ∧ bbox c1 ≠ bbox c2.
Proof.
  do 6 eexists. split; [vm_compute; reflexivity|]. split; [vm_compute; reflexivity|].
  split; [reflexivity|]. split; [vm_compute; reflexivity|]. split; [vm_compute; reflexivity|].
  split; [reflexivity|]. vm_compute. intros [=].
Qed.
End demo.
