(* ===== verification/Stream.v ===== *)
(** * load_collection by streaming: cropped virtual rasters

    eval_load.rs with ORBIT_VSICURL_STREAM=1: nothing is downloaded; for every
    band of every scene the load writes a VRT document that shows the pixels of
    the extent in the remote raster, and GDAL reads them when they are used.  The
    model has the metadata of a source (from the search result or from opening
    the raster), the pixel window, the text of the document and the stream of
    documents.  A reader of documents of this form, [read_vrt], and what GDAL
    shows for one, [vrt_pixels], are the specification the text is checked
    against: they follow the VRT format, not code of the program. *)

From Stdlib Require Import Ascii.
From S2P Require Import Prelude BTree F64 Text Json Executor UrlPolicy Cube Window Stac Load.
Local Open Scope Z_scope.

(** [p3_stream_enabled], over the process's environment. *)
Definition p3_stream_enabled (env : string → option string) : bool :=
  bool_decide (env "ORBIT_VSICURL_STREAM" = Some "1").

(** ** Sources and windows *)

Record SourceMeta := mkSourceMeta {
  cols_total : Z; rows_total : Z; dtype_name : string; src_nodata : option f64;
  srs_wkt : string; src_gt : list f64 }.

Record AoiWindow := mkAoiWindow { aoi : PixelWindow; out_gt : list f64 }.

(** GDAL and the file system, as streaming uses them besides [Gdal]. *)
Record Streamer (SR W : Type) := mkStreamer {
  from_epsg : Z → result string SR;
  from_wkt : string → result string SR;
  to_wkt : SR → result string string;
  write_file : string → string → W → result string unit * W }.
Arguments from_epsg {SR W}. Arguments from_wkt {SR W}. Arguments to_wkt {SR W}.
Arguments write_file {SR W}.

(** GDAL's name of a pixel type. *)
Definition type_name (d : DType) : string :=
  match d with
  | Known UInt8 => "Byte" | Known UInt16 => "UInt16" | Known Int16 => "Int16"
  | Known Float32 => "Float32" | OtherType name => name
  end.

Definition xml_char (c : ascii) : string :=
  if bool_decide (c = "<"%char) then "&lt;"
  else if bool_decide (c = ">"%char) then "&gt;"
  else if bool_decide (c = "&"%char) then "&amp;"
  else if bool_decide (c = dquote) then "&quot;"
  else if bool_decide (c = "'"%char) then "&apos;"
  else chr c.
Fixpoint xml_escape (s : string) : string :=
  match s with EmptyString => "" | String c s' => xml_char c +:+ xml_escape s' end.

(** [r.ok()] *)
Definition result_ok {E A} (r : result E A) : option A := match r with Ok x => Some x | Err _ => None end.

Section stream.
Context {SR DS W : Type} (gdal : Gdal SR DS W) (io : Streamer SR W).
Context (f64_display fmt1 sci16 : f64 → string).

Definition backend {A} (what : string) (r : result string A) : result ExecError A :=
  map_err (λ e, ExecBackend (what +:+ ": " +:+ e)) r.

Definition try_source_meta_from_band_metadata (meta : BandMetadata) : option SourceMeta :=
  epsg ← epsg meta;
  gt ← Stac.geo_transform meta;
  size ← Stac.raster_size meta;
  dtype ← dtype meta;
  sr ← result_ok (from_epsg io epsg);
  wkt ← result_ok (to_wkt io (traditional_axes gdal sr));
  Some (mkSourceMeta (size : Z * Z).1 size.2 dtype (nodata meta) wkt gt).

Definition probe_source (src : string) (w : W) : result ExecError SourceMeta :=
  ds ← backend ("P3 probe open " +:+ src) (open_dataset gdal src w);
  geo ← backend ("P3 probe geo_transform " +:+ src) (Window.geo_transform ds);
  sr ← backend ("P3 probe spatial_ref " +:+ src) (spatial_ref ds);
  wkt ← backend ("P3 probe to_wkt " +:+ src) (to_wkt io (traditional_axes gdal sr));
  band ← backend ("P3 probe rasterband " +:+ src) (rasterband ds);
  Ok (mkSourceMeta (Window.raster_size ds).1 (Window.raster_size ds).2 (type_name (band_type band))
        (no_data_value band) wkt geo).

Definition compute_aoi_window (meta : SourceMeta) (crop : CropWindow) (crop_crs : string)
    : result ExecError AoiWindow :=
  let '(origin_x, pix_w, origin_y, pix_h) :=
    (gt (src_gt meta) 0, gt (src_gt meta) 1, gt (src_gt meta) 3, gt (src_gt meta) 5) in
  if is_zero pix_w || is_zero pix_h then
    Err (ExecBackend ("P3 compute_aoi_window: degenerate geo_transform pix_w=" +:+ f64_display pix_w
      +:+ " pix_h=" +:+ f64_display pix_h))
  else
    src_sr ← backend "P3 src SpatialRef::from_wkt" (from_wkt io (srs_wkt meta));
    work_sr ← backend ("P3 work SpatialRef::from_definition(" +:+ crop_crs +:+ ")")
                (from_definition gdal crop_crs);
    xform ← backend "P3 CoordTransform"
              (coord_transform gdal (traditional_axes gdal work_sr) (traditional_axes gdal src_sr));
    b ← backend "P3 transform_bounds" (xform [min_x crop; min_y crop; max_x crop; max_y crop]);
    let '(pulx, plry, plrx, puly) := (gt b 0, gt b 1, gt b 2, gt b 3) in
    let '(col_off, cols_f) := projwin_axis pulx plrx origin_x pix_w in
    let '(row_off, rows_f) := projwin_axis puly plry origin_y pix_h in
    let where_ := "(src=[" +:+ f64_display origin_x +:+ "," +:+ f64_display origin_y +:+ "] "
      +:+ pretty (cols_total meta) +:+ "x" +:+ pretty (rows_total meta) +:+ ", crop projects to ["
      +:+ fmt1 pulx +:+ "," +:+ fmt1 plrx +:+ "] x [" +:+ fmt1 plry +:+ "," +:+ fmt1 puly +:+ "])" in
    if no_pixels cols_f rows_f then
      Err (ExecBackend ("P3: degenerate projwin produces 0-pixel window " +:+ where_))
    else
      let cols := f64_to_u64 cols_f in
      let rows := f64_to_u64 rows_f in
      let in_x := (0 <? isize (col_off + isize cols)) && (col_off <? isize (cols_total meta)) in
      let in_y := (0 <? isize (row_off + isize rows)) && (row_off <? isize (rows_total meta)) in
      if negb in_x || negb in_y then
        Err (ExecBackend ("P3: crop window does not intersect source raster " +:+ where_))
      else
        let win := mkPixelWindow col_off row_off cols rows in
        Ok (mkAoiWindow win (out_geo_transform origin_x pix_w origin_y pix_h win)).

(** ** The document *)

Definition nl : string := chr newline.
Definition attr (name value : string) : string :=
  " " +:+ name +:+ "=" +:+ chr dquote +:+ value +:+ chr dquote.
Definition rect (tag : string) (x y w h : Z) : string :=
  "      <" +:+ tag +:+ attr "xOff" (pretty x) +:+ attr "yOff" (pretty y) +:+ attr "xSize" (pretty w)
  +:+ attr "ySize" (pretty h) +:+ "/>" +:+ nl.

Definition format_geotransform (g : list f64) : string :=
  join ", " ((λ i, sci16 (gt g i)) <$> seq 0 6).

(** The part of the raster in the window, and its place in the window. *)
Record Rects := mkRects { src_x : Z; src_y : Z; dst_x : Z; dst_y : Z; src_w : Z; src_h : Z }.
Definition vrt_rects (meta : SourceMeta) (win : PixelWindow) : Rects :=
  let rw := read_window win (cols_total meta) (rows_total meta) in
  mkRects (r_col_start rw) (r_row_start rw)
    (wrap 64 (r_col_start rw - col_off win)) (wrap 64 (r_row_start rw - row_off win))
    (Z.max (isize (r_col_end rw - r_col_start rw)) 0) (Z.max (isize (r_row_end rw - r_row_start rw)) 0).

Definition nodata_xml (meta : SourceMeta) : string :=
  match src_nodata meta with
  | Some n => "    <NoDataValue>" +:+ f64_display n +:+ "</NoDataValue>" +:+ nl
  | None => ""
  end.

Definition build_vrt_xml (src_for_vrt : string) (meta : SourceMeta) (win : AoiWindow) : string :=
  let r := vrt_rects meta (aoi win) in
  "<VRTDataset" +:+ attr "rasterXSize" (pretty (cols (aoi win)))
    +:+ attr "rasterYSize" (pretty (rows (aoi win))) +:+ ">" +:+ nl
  +:+ "  <SRS>" +:+ xml_escape (srs_wkt meta) +:+ "</SRS>" +:+ nl
  +:+ "  <GeoTransform>" +:+ format_geotransform (out_gt win) +:+ "</GeoTransform>" +:+ nl
  +:+ "  <VRTRasterBand" +:+ attr "dataType" (dtype_name meta) +:+ attr "band" "1" +:+ ">" +:+ nl
  +:+ nodata_xml meta
  +:+ "    <SimpleSource>" +:+ nl
  +:+ "      <SourceFilename" +:+ attr "relativeToVRT" "0" +:+ ">" +:+ xml_escape src_for_vrt
    +:+ "</SourceFilename>" +:+ nl
  +:+ "      <SourceBand>1</SourceBand>" +:+ nl
  +:+ rect "SrcRect" (src_x r) (src_y r) (src_w r) (src_h r)
  +:+ rect "DstRect" (dst_x r) (dst_y r) (src_w r) (src_h r)
  +:+ "    </SimpleSource>" +:+ nl +:+ "  </VRTRasterBand>" +:+ nl +:+ "</VRTDataset>" +:+ nl.

Definition emit_cropped_vrt_p3 (src_for_vrt dst_vrt : string) (crop : CropWindow)
    (crop_crs : string) (cached_meta : option SourceMeta) (w : W) : result ExecError string * W :=
  match (meta ← match cached_meta with Some m => Ok m | None => probe_source src_for_vrt w end;
         win ← compute_aoi_window meta crop crop_crs;
         Ok (meta, win)) with
  | Err e => (Err e, w)
  | Ok (meta, win) =>
      match create_parent gdal dst_vrt w with
      | (Err e, w) => (Err (ExecBackend ("P3 mkdir " +:+ default "" (parent dst_vrt) +:+ ": " +:+ e)), w)
      | (Ok _, w) =>
          let '(r, w) := write_file io dst_vrt (build_vrt_xml src_for_vrt meta win) w in
          (_ ← backend ("P3 write VRT " +:+ dst_vrt) r; Ok dst_vrt, w)
      end
  end.

(** ** Streaming a load *)

Record StreamTask := mkStreamTask {
  p_scene : nat; p_band : string; p_vsi : string; p_dst : string; p_meta : option SourceMeta }.

Context (g : Loader W) `{DebugText} (to_text : Value → string).

Definition vrt_path (band : string) (i : nat) : string :=
  scratch_dir g +:+ "/" +:+ band +:+ "_" +:+ pretty i +:+ "_p3.vrt".

Fixpoint stream_dispatch (work : list (nat * StacScene * string)) : result ExecError (list StreamTask) :=
  match work with
  | [] => Ok []
  | (i, s, band) :: work =>
      match resolve_band_href s band with
      | None => stream_dispatch work
      | Some href =>
          _ ← validate_asset_href href;
          vsi ← vsicurl_path href;
          ts ← stream_dispatch work;
          Ok (mkStreamTask i band vsi (vrt_path band i)
                (resolve_band_metadata s band ≫= try_source_meta_from_band_metadata) :: ts)
      end
  end.

(** The stream of documents: entry [i] of the schedule lets the [i]-th of the
    tasks that are left write its document, on a blocking thread; the semaphore
    only delays it.  [None] is a schedule that stops before the stream does. *)
Fixpoint stream_pump (crop : CropWindow) (crop_crs : string) (sched : list nat)
    (pending : list StreamTask) (got : list (nat * string * string)) (w : W)
    : option (result ExecError (list (nat * string * string)) * W) :=
  match pending, sched with
  | [], _ => Some (Ok got, w)
  | _, [] => None
  | _, i :: sched =>
      match pending !! i with
      | None => stream_pump crop crop_crs sched pending got w
      | Some t =>
          match emit_cropped_vrt_p3 (p_vsi t) (p_dst t) crop crop_crs (p_meta t) w with
          | (Err e, w) => Some (Err e, w)
          | (Ok p, w) =>
              stream_pump crop crop_crs sched (delete i pending) (got ++ [(p_scene t, p_band t, p)]) w
          end
      end
  end.

Definition stream_cube_value (id_str : string) (bbox : list f64) (crs : string) (scenes : list StacScene)
    (kept : btree string (list string)) : Value :=
  Object [("__cube", Object
    [("collection", JString id_str); ("bbox", Array (json_of_f64 <$> bbox));
     ("scene_count", Number (PosInt (Z.of_nat (length scenes))));
     ("bands", Object (prod_map id str_array <$> kept));
     ("crs", JString crs); ("p3_vsicurl_stream", Bool true)])].

Definition stream_cube (sched : list nat) (id_str : string) (bbox : list f64) (crs : string)
    (scenes : list StacScene) (bands : list string) (w : W) : option (result ExecError Value * W) :=
  match stream_dispatch (work_list scenes bands) with
  | Err e => Some (Err e, w)
  | Ok tasks =>
      let crop := mkCropWindow (nth 0 bbox f64_zero) (nth 1 bbox f64_zero)
                    (nth 2 bbox f64_zero) (nth 3 bbox f64_zero) in
      match stream_pump crop crs sched tasks [] w with
      | None => None
      | Some (Err e, w) => Some (Err e, w)
      | Some (Ok got, w) =>
          let kept := complete_bands (foldl fill_slot (empty_slots (length scenes) bands) got) in
          if bool_decide (kept = []) then
            Some (Err (ExecBackend ("load_collection (P3): none of the requested bands "
              +:+ debug_strings bands +:+ " are present on every scene")), w)
          else Some (Ok (stream_cube_value id_str bbox crs scenes kept), w)
      end
  end.

(** [eval_load_collection], in both modes. *)
Definition eval_load_collection_in (env : string → option string) (policy_text : UrlPolicyError → string)
    (args : btree string Value) (sched : list nat) (w : W) : option (result ExecError Value * W) :=
  load_with g f64_display to_text
    (if p3_stream_enabled env then stream_cube sched else download_cube g policy_text sched) args w.
End stream.

(** ** Reading a document *)

Fixpoint xml_unescape_fuel (fuel : nat) (s : string) : string :=
  match fuel, s with
  | S fuel, String c s' =>
      match strip_prefix "&lt;" s, strip_prefix "&gt;" s, strip_prefix "&amp;" s,
            strip_prefix "&quot;" s, strip_prefix "&apos;" s with
      | Some t, _, _, _, _ => String "<" (xml_unescape_fuel fuel t)
      | _, Some t, _, _, _ => String ">" (xml_unescape_fuel fuel t)
      | _, _, Some t, _, _ => String "&" (xml_unescape_fuel fuel t)
      | _, _, _, Some t, _ => String dquote (xml_unescape_fuel fuel t)
      | _, _, _, _, Some t => String "'" (xml_unescape_fuel fuel t)
      | _, _, _, _, _ => String c (xml_unescape_fuel fuel s')
      end
  | _, _ => ""
  end.
Definition xml_unescape (s : string) : string := xml_unescape_fuel (String.length s) s.

Record Vrt := mkVrt {
  v_cols : Z; v_rows : Z; v_srs : string; v_gt : string; v_type : string; v_nodata : option string;
  v_source : string; v_src : list Z; v_dst : list Z }.

Definition read_attr (name s : string) : option (string * string) :=
  s ← strip_prefix (" " +:+ name +:+ "=" +:+ chr dquote) s; split_once dquote s.
Definition read_num (name s : string) : option (Z * string) :=
  '(v, s) ← read_attr name s; n ← parse_uint 64 v; Some (n, s).
(** A line [op]text[cl], where [cl] starts with a left angle bracket. *)
Definition read_elem (op cl s : string) : option (string * string) :=
  s ← strip_prefix op s;
  '(v, s) ← split_once "<"%char s;
  s ← strip_prefix (cl +:+ nl) s;
  Some (v, s).
Definition read_nodata (s : string) : option (option string * string) :=
  match read_elem "    <NoDataValue>" "/NoDataValue>" s with
  | Some (n, s) => Some (Some n, s)
  | None => Some (None, s)
  end.
Definition read_rect (tag s : string) : option (list Z * string) :=
  s ← strip_prefix ("      <" +:+ tag) s;
  '(x, s) ← read_num "xOff" s;
  '(y, s) ← read_num "yOff" s;
  '(w, s) ← read_num "xSize" s;
  '(h, s) ← read_num "ySize" s;
  s ← strip_prefix ("/>" +:+ nl) s;
  Some ([x; y; w; h], s).

(** A VRT document of one band with one simple source. *)
Definition read_vrt (s : string) : option Vrt :=
  s ← strip_prefix "<VRTDataset" s;
  '(cols, s) ← read_num "rasterXSize" s;
  '(rows, s) ← read_num "rasterYSize" s;
  s ← strip_prefix (">" +:+ nl) s;
  '(srs, s) ← read_elem "  <SRS>" "/SRS>" s;
  '(gt, s) ← read_elem "  <GeoTransform>" "/GeoTransform>" s;
  s ← strip_prefix "  <VRTRasterBand" s;
  '(dtype, s) ← read_attr "dataType" s;
  s ← strip_prefix (attr "band" "1" +:+ ">" +:+ nl) s;
  '(nodata, s) ← read_nodata s;
  s ← strip_prefix ("    <SimpleSource>" +:+ nl) s;
  '(src, s) ← read_elem ("      <SourceFilename" +:+ attr "relativeToVRT" "0" +:+ ">") "/SourceFilename>" s;
  s ← strip_prefix ("      <SourceBand>1</SourceBand>" +:+ nl) s;
  '(srcr, s) ← read_rect "SrcRect" s;
  '(dstr, s) ← read_rect "DstRect" s;
  _ ← strip_prefix ("    </SimpleSource>" +:+ nl +:+ "  </VRTRasterBand>" +:+ nl +:+ "</VRTDataset>" +:+ nl) s;
  Some (mkVrt cols rows (xml_unescape srs) gt dtype nodata (xml_unescape src) srcr dstr).

(** What GDAL shows: the source rectangle at the place of the destination
    rectangle, which has its size, and the nodata value elsewhere. *)
Definition vrt_pixels {T} (v : Vrt) (img : Z → Z → T) (fill : T) : list T :=
  match v_src v, v_dst v with
  | [sx; sy; sw; sh], [dx; dy; _; _] =>
      (λ k, let r := k / v_cols v in let c := k mod v_cols v in
            if block dy (dy + sh) dx (dx + sw) r c then img (r - dy + sy) (c - dx + sx) else fill)
        <$> (Z.of_nat <$> seq 0 (Z.to_nat (v_cols v * v_rows v)))
  | _, _ => []
  end.

(** ** Text *)

Lemma xml_escape_clean c s : c = "<"%char ∨ c = dquote → has_char c (xml_escape s) = false.
Proof.
  intros Hc. induction s as [|a s IH]; [done|]. simpl. rewrite has_char_app, IH, orb_false_r.
  unfold xml_char. repeat case_bool_decide; destruct Hc as [->| ->]; try done; simpl;
    rewrite orb_false_r; by apply bool_decide_eq_false.
Qed.

Lemma strip_prefix_other a p b s : a ≠ b → strip_prefix (String a p) (String b s) = None.
Proof. intros Hab. simpl. by rewrite bool_decide_eq_false_2. Qed.

Lemma xml_unescape_escape_fuel s : ∀ fuel, (String.length (xml_escape s) ≤ fuel)%nat →
  xml_unescape_fuel fuel (xml_escape s) = s.
Proof.
  induction s as [|a s IH]; intros fuel Hf; [by destruct fuel|].
  cbn [xml_escape] in Hf |- *. rewrite str_length_app in Hf. unfold xml_char in Hf |- *.
  destruct fuel as [|fuel]; [repeat case_bool_decide; simpl in Hf; lia|].
  repeat case_bool_decide; subst; simpl in Hf.
  1-5: cbn; f_equal; apply IH; lia.
  change (chr a +:+ xml_escape s) with (String a (xml_escape s)). cbn [xml_unescape_fuel].
  rewrite !strip_prefix_other by congruence. f_equal. apply IH. lia.
Qed.

(** Unescaping gives back what was escaped. *)
Lemma xml_unescape_escape s : xml_unescape (xml_escape s) = s.
Proof. by apply xml_unescape_escape_fuel. Qed.


(** ** Reading what was written *)

Lemma split_once_at c v s : has_char c v = false → split_once c (v +:+ String c s) = Some (v, s).
Proof. intros Hv. by apply split_once_Some. Qed.

Lemma read_attr_attr name v s : has_char dquote v = false → read_attr name (attr name v +:+ s) = Some (v, s).
Proof.
  intros Hv. unfold read_attr, attr.
  replace ((" " +:+ name +:+ "=" +:+ chr dquote +:+ v +:+ chr dquote) +:+ s)
    with ((" " +:+ name +:+ "=" +:+ chr dquote) +:+ v +:+ String dquote s)
    by (unfold chr; by autorewrite with str).
  rewrite strip_prefix_app. simpl. by apply split_once_at.
Qed.

Lemma read_num_attr name z s : 0 ≤ z < 2 ^ 64 → read_num name (attr name (pretty z) +:+ s) = Some (z, s).
Proof.
  intros Hz. unfold read_num. rewrite read_attr_attr by (apply pretty_Z_no_char; [done|lia]). simpl.
  by rewrite parse_uint_pretty by (done || lia).
Qed.

Lemma strip_prefix_eq p s t : s = p +:+ t → strip_prefix p s = Some t.
Proof. intros ->. apply strip_prefix_app. Qed.

Lemma read_elem_eq op cl v doc s : has_char "<"%char v = false →
  doc = op +:+ v +:+ String "<" cl +:+ nl +:+ s → read_elem op cl doc = Some (v, s).
Proof.
  intros Hv ->. unfold read_elem. rewrite strip_prefix_app. cbn [mbind option_bind].
  change (String "<" cl +:+ nl +:+ s) with (String "<" (cl +:+ nl +:+ s)).
  rewrite split_once_at by done. cbn [mbind option_bind].
  by rewrite (strip_prefix_eq (cl +:+ nl) (cl +:+ nl +:+ s) s (eq_sym (str_app_assoc cl nl s))).
Qed.

Lemma read_rect_rect tag x y w h s : 0 ≤ x < 2 ^ 64 → 0 ≤ y < 2 ^ 64 → 0 ≤ w < 2 ^ 64 → 0 ≤ h < 2 ^ 64 →
  read_rect tag (rect tag x y w h +:+ s) = Some ([x; y; w; h], s).
Proof.
  intros Hx Hy Hw Hh. unfold read_rect, rect.
  replace (("      <" +:+ tag +:+ attr "xOff" (pretty x) +:+ attr "yOff" (pretty y) +:+ attr "xSize" (pretty w)
    +:+ attr "ySize" (pretty h) +:+ "/>" +:+ nl) +:+ s)
    with (("      <" +:+ tag) +:+ attr "xOff" (pretty x) +:+ attr "yOff" (pretty y) +:+ attr "xSize" (pretty w)
    +:+ attr "ySize" (pretty h) +:+ ("/>" +:+ nl) +:+ s) by (by rewrite !str_app_assoc).
  rewrite strip_prefix_app. cbn [mbind option_bind].
  do 4 (rewrite read_num_attr by done; cbn [mbind option_bind]).
  by rewrite strip_prefix_app.
Qed.

Record rects_fit (meta : SourceMeta) (win : AoiWindow) : Prop := {
  fit_cols : 0 ≤ cols (aoi win) < 2 ^ 64; fit_rows : 0 ≤ rows (aoi win) < 2 ^ 64;
  fit_src_x : 0 ≤ src_x (vrt_rects meta (aoi win)) < 2 ^ 64;
  fit_src_y : 0 ≤ src_y (vrt_rects meta (aoi win)) < 2 ^ 64;
  fit_dst_x : 0 ≤ dst_x (vrt_rects meta (aoi win)) < 2 ^ 64;
  fit_dst_y : 0 ≤ dst_y (vrt_rects meta (aoi win)) < 2 ^ 64;
  fit_src_w : 0 ≤ src_w (vrt_rects meta (aoi win)) < 2 ^ 64;
  fit_src_h : 0 ≤ src_h (vrt_rects meta (aoi win)) < 2 ^ 64 }.

Definition vrt_of (f64_display sci16 : f64 → string) (src : string) (meta : SourceMeta) (win : AoiWindow) : Vrt :=
  let r := vrt_rects meta (aoi win) in
  mkVrt (cols (aoi win)) (rows (aoi win)) (srs_wkt meta) (format_geotransform sci16 (out_gt win))
    (dtype_name meta) (f64_display <$> src_nodata meta) src
    [src_x r; src_y r; src_w r; src_h r] [dst_x r; dst_y r; src_w r; src_h r].

Lemma format_geotransform_clean sci16 g c : (∀ x, has_char c (sci16 x) = false) →
  c ≠ ","%char → c ≠ " "%char → has_char c (format_geotransform sci16 g) = false.
Proof.
  intros Hs H1 H2. unfold format_geotransform. cbn [seq fmap list_fmap join].
  rewrite !has_char_app, !Hs. cbn [has_char orb]. by rewrite !bool_decide_eq_false_2.
Qed.

Lemma read_nodata_xml f64_display meta X : (∀ x, has_char "<"%char (f64_display x) = false) →
  read_nodata (nodata_xml f64_display meta +:+ "    <SimpleSource>" +:+ X) =
  Some (f64_display <$> src_nodata meta, "    <SimpleSource>" +:+ X).
Proof.
  intros Hd. unfold nodata_xml, read_nodata. destruct (src_nodata meta) as [n|]; [|reflexivity].
  erewrite (read_elem_eq "    <NoDataValue>" "/NoDataValue>" (f64_display n)); [reflexivity|done|].
  rewrite !str_app_assoc. reflexivity.
Qed.

(** The document of a window reads back: whatever the link and the coordinate
    system are, they come back unchanged. *)
Lemma read_vrt_build f64_display sci16 src meta win :
  (∀ x, has_char "<"%char (f64_display x) = false) → (∀ x, has_char "<"%char (sci16 x) = false) →
  has_char dquote (dtype_name meta) = false → rects_fit meta win →
  read_vrt (build_vrt_xml f64_display sci16 src meta win) = Some (vrt_of f64_display sci16 src meta win).
Proof.
  intros Hd Hs Ht []. unfold read_vrt, build_vrt_xml. cbv zeta.
  rewrite strip_prefix_app. cbn [mbind option_bind].
  do 2 (rewrite read_num_attr by done; cbn [mbind option_bind]).
  erewrite strip_prefix_eq; [|reflexivity]. cbn [mbind option_bind].
  erewrite (read_elem_eq "  <SRS>" "/SRS>" (xml_escape (srs_wkt meta)));
    [|by apply xml_escape_clean; left|reflexivity]. cbn [mbind option_bind].
  erewrite (read_elem_eq "  <GeoTransform>" "/GeoTransform>" (format_geotransform sci16 (out_gt win)));
    [|by apply format_geotransform_clean|reflexivity]. cbn [mbind option_bind].
  erewrite strip_prefix_eq; [|reflexivity]. cbn [mbind option_bind].
  rewrite read_attr_attr by done. cbn [mbind option_bind].
  erewrite strip_prefix_eq; [|reflexivity]. cbn [mbind option_bind].
  rewrite read_nodata_xml by done. cbn [mbind option_bind].
  erewrite strip_prefix_eq; [|reflexivity]. cbn [mbind option_bind].
  erewrite (read_elem_eq _ "/SourceFilename>" (xml_escape src));
    [|by apply xml_escape_clean; left|reflexivity]. cbn [mbind option_bind].
  erewrite strip_prefix_eq; [|reflexivity]. cbn [mbind option_bind].
  do 2 (rewrite read_rect_rect by done; cbn [mbind option_bind]).
  erewrite strip_prefix_eq; [|by rewrite str_app_nil_r]. cbn [mbind option_bind].
  by rewrite !xml_unescape_escape.
Qed.

(** ** The pixels shown *)

Lemma vrt_rects_sane meta win : sane win (cols_total meta, rows_total meta) →
  vrt_rects meta win =
  mkRects (Z.max (col_off win) 0) (Z.max (row_off win) 0)
    (Z.max (col_off win) 0 - col_off win) (Z.max (row_off win) 0 - row_off win)
    (Z.max (Z.min (Z.max (col_off win + cols win) 0) (cols_total meta) - Z.max (col_off win) 0) 0)
    (Z.max (Z.min (Z.max (row_off win + rows win) 0) (rows_total meta) - Z.max (row_off win) 0) 0).
Proof.
  intros Hs. pose proof (read_window_sane win (cols_total meta, rows_total meta) Hs) as E.
  unfold vrt_rects. cbn [fst snd] in E. rewrite E. destruct Hs. simpl in *.
  rewrite !isize_id, !wrap_small by (unfold in_u; lia). done.
Qed.

Lemma rects_fit_sane meta aw : sane (aoi aw) (cols_total meta, rows_total meta) → rects_fit meta aw.
Proof.
  intros Hs. pose proof (vrt_rects_sane meta (aoi aw) Hs) as E. destruct Hs. simpl in *.
  split; rewrite ?E; cbn [src_x src_y dst_x dst_y src_w src_h]; lia.
Qed.

(** GDAL shows the image where the window lies in the raster, the nodata value
    elsewhere. *)
Lemma vrt_pixels_holds {T} f64_display sci16 src meta aw (img : Z → Z → T) fill :
  sane (aoi aw) (cols_total meta, rows_total meta) →
  holds img (aoi aw) fill (in_raster (cols_total meta, rows_total meta))
    (vrt_pixels (vrt_of f64_display sci16 src meta aw) img fill).
Proof.
  intros Hs. unfold vrt_pixels, vrt_of. cbn [v_src v_dst v_cols v_rows]. rewrite vrt_rects_sane by done.
  cbn [src_x src_y dst_x dst_y src_w src_h]. destruct Hs. set (win := aoi aw) in *. simpl in *.
  split; [by rewrite !length_fmap, length_seq|]. intros r c Hr Hc.
  assert (0 ≤ r * cols win + c < cols win * rows win) as Hk by nia.
  rewrite !list_lookup_fmap, lookup_seq_lt by lia. cbn [fmap option_fmap option_map].
  rewrite Nat.add_0_l, Z2Nat.id by lia.
  assert ((r * cols win + c) / cols win = r) as ->
    by (symmetry; apply (Z.div_unique _ _ _ c); [by left|lia]).
  assert ((r * cols win + c) mod cols win = c) as ->
    by (symmetry; apply (Z.mod_unique _ _ r); [by left|lia]).
  f_equal.
  replace (r - _ + Z.max (row_off win) 0) with (row_off win + r) by lia.
  replace (c - _ + Z.max (col_off win) 0) with (col_off win + c) by lia.
  unfold in_raster. simpl.
  match goal with |- (if ?a then _ else _) = (if ?b then _ else _) => assert (a = b) as ->; [|done] end.
  apply eq_true_iff_eq. rewrite !block_spec. lia.
Qed.

(** ** The window *)

Section equivalence.
Context {SR DS W : Type} (gdal : Gdal SR DS W) (io : Streamer SR W) `{NumCast}.
Context (f64_display fmt1 sci16 : f64 → string) (debug_char : string → string).

(** The in-process copy's window and the streamed one are the same window, or
    both are refused. *)
Lemma aoi_window_crop_window meta sr sr' crop crs aw :
  from_wkt io (srs_wkt meta) = Ok sr' →
  (∀ work, coord_transform gdal work (traditional_axes gdal sr') = coord_transform gdal work sr) →
  validate_crs_spec debug_char crs = Ok tt →
  compute_aoi_window gdal io f64_display fmt1 meta crop crs = Ok aw ↔
  is_zero (gt (src_gt meta) 1) || is_zero (gt (src_gt meta) 5) = false ∧
  crop_window gdal f64_display fmt1 debug_char sr (src_gt meta) (cols_total meta, rows_total meta)
    (Some crop) (Some crs) = Ok (aoi aw) ∧
  out_gt aw = out_geo_transform (gt (src_gt meta) 0) (gt (src_gt meta) 1) (gt (src_gt meta) 3)
                (gt (src_gt meta) 5) (aoi aw).
Proof.
  intros Hwkt Hct Hcrs. unfold compute_aoi_window, crop_window. cbn [mbind option_bind].
  rewrite Hcrs, Hwkt. destruct (_ || _); [by split; [|intros [? _]]|]. cbn [map_err backend].
  unfold backend, with_text.
  destruct (from_definition gdal crs) as [work|e]; cbn [mbind result_bind map_err fst snd]; [|by split; [|intros (_ & ? & _)]].
  rewrite Hct. destruct (coord_transform gdal (traditional_axes gdal work) sr) as [xform|e]; cbn [mbind result_bind map_err fst snd];
    [|by split; [|intros (_ & ? & _)]].
  destruct (xform [min_x crop; min_y crop; max_x crop; max_y crop]) as [b|e]; cbn [mbind result_bind map_err fst snd]; [|by split; [|intros (_ & ? & _)]].
  destruct (projwin_axis (gt b 0) (gt b 2) (gt (src_gt meta) 0) (gt (src_gt meta) 1)) as [co cf].
  destruct (projwin_axis (gt b 3) (gt b 1) (gt (src_gt meta) 3) (gt (src_gt meta) 5)) as [ro rf].
  destruct (no_pixels cf rf); cbn [mbind result_bind map_err fst snd]; [by split; [|intros (_ & ? & _)]|].
  destruct (negb _ || negb _); cbn [mbind result_bind map_err fst snd]; [by split; [|intros (_ & ? & _)]|].
  split; [by intros [= <-]|]. intros (_ & [= E] & Eg). destruct aw as [a g']. simpl in *. by subst.
Qed.

Lemma probe_source_spec src w m : probe_source gdal io src w = Ok m ↔
  ∃ ds geo sr wkt band, open_dataset gdal src w = Ok ds ∧ Window.geo_transform ds = Ok geo ∧
    spatial_ref ds = Ok sr ∧ to_wkt io (traditional_axes gdal sr) = Ok wkt ∧ rasterband ds = Ok band ∧
    m = mkSourceMeta (Window.raster_size ds).1 (Window.raster_size ds).2 (type_name (band_type band))
          (no_data_value band) wkt geo.
Proof.
  unfold probe_source, backend.
  destruct (open_dataset gdal src w) as [ds|]; simpl;
    [|split; [done|intros (?&?&?&?&?&?&?&?&?&?&?); congruence]].
  destruct (Window.geo_transform ds) as [geo|] eqn:Eg; simpl;
    [|split; [done|intros (?&?&?&?&?&?&?&?&?&?&?); congruence]].
  destruct (spatial_ref ds) as [sr|] eqn:Es; simpl;
    [|split; [done|intros (?&?&?&?&?&?&?&?&?&?&?); congruence]].
  destruct (to_wkt io (traditional_axes gdal sr)) as [wkt|] eqn:Ew; simpl;
    [|split; [done|intros (?&?&?&?&?&?&?&?&?&?&?); congruence]].
  destruct (rasterband ds) as [band|] eqn:Eb; simpl;
    [|split; [done|intros (?&?&?&?&?&?&?&?&?&?&?); congruence]].
  split; [intros [= <-]; by exists ds, geo, sr, wkt, band|].
  intros (?&?&?&?&?&?&?&?&?&?&->); congruence.
Qed.

(** C7: Streaming shows the pixels a download would have copied.  When a document
    is written for a band of a source, the in-process download of the same extent
    has a window too, and, for a window of sane size, the document reads back as a
    raster of that window's size, place and coordinate system over the very
    link, and the pixels GDAL shows for it are the pixels the download writes
    into its file, value for value, also where the window leaves the raster.
    GDAL's part is that WKT text stands for the coordinate system it was made
    from. *)
Theorem streamed_pixels_are_downloaded t src dst crop crs cached ds sr band sr' geo wkt w p w'
    (img : Z → Z → pixel t) :
  open_dataset gdal src w = Ok ds → Window.geo_transform ds = Ok geo → spatial_ref ds = Ok sr →
  rasterband ds = Ok band → band_type band = Known t → reads_image band img (Window.raster_size ds) →
  to_wkt io (traditional_axes gdal sr) = Ok wkt → from_wkt io wkt = Ok sr' →
  (∀ work, coord_transform gdal work (traditional_axes gdal sr') =
           coord_transform gdal work (traditional_axes gdal sr)) →
  (∀ x c, c = "<"%char ∨ c = dquote → has_char c (f64_display x) = false ∧ has_char c (sci16 x) = false) →
  validate_crs_spec debug_char crs = Ok tt →
  (∀ m, cached = Some m → probe_source gdal io src w = Ok m) →
  emit_cropped_vrt_p3 gdal io f64_display fmt1 sci16 src dst crop crs cached w = (Ok p, w') →
  ∃ win w1 doc,
    crop_window gdal f64_display fmt1 debug_char (traditional_axes gdal sr) geo (Window.raster_size ds)
      (Some crop) (Some crs) = Ok win ∧
    create_parent gdal dst w = (Ok tt, w1) ∧ write_file io dst doc w1 = (Ok tt, w') ∧ p = dst ∧
    (sane win (Window.raster_size ds) →
     ∃ v out, read_vrt doc = Some v ∧ v_source v = src ∧ v_srs v = wkt ∧
       v_gt v = format_geotransform sci16 (out_geo_transform (gt geo 0) (gt geo 1) (gt geo 3) (gt geo 5) win) ∧
       v_type v = type_name (Known t) ∧ v_nodata v = f64_display <$> no_data_value band ∧
       window_data t band (Window.raster_size ds) win (no_data_value band) = Some (Ok out) ∧
       (v_cols v, v_rows v) = (cols win, rows win) ∧
       vrt_pixels v img (fill_value t (no_data_value band)) = out).
Proof.
  intros Ho Hg Hsr Hb Ht Himg Hwkt Hsr' Hct Htext Hcrs Hcached He.
  set (m := mkSourceMeta (Window.raster_size ds).1 (Window.raster_size ds).2 (type_name (Known t))
    (no_data_value band) wkt geo).
  assert (probe_source gdal io src w = Ok m) as Hm.
  { apply probe_source_spec. exists ds, geo, sr, wkt, band. by rewrite Ht. }
  unfold emit_cropped_vrt_p3 in He.
  assert (match cached with Some m => Ok m | None => probe_source gdal io src w end = Ok m) as Em.
  { destruct cached as [m'|]; [|done]. specialize (Hcached m' eq_refl). congruence. }
  rewrite Em in He. cbn [mbind result_bind] in He. clear Em Hcached.
  destruct (compute_aoi_window gdal io f64_display fmt1 m crop crs) as [aw|] eqn:Ea; [|done].
  apply (aoi_window_crop_window m (traditional_axes gdal sr) sr' crop crs aw) in Ea as (_ & Hw & Hgt);
    [|done..]. cbn in He.
  destruct (create_parent gdal dst w) as [[[]|] w1] eqn:Ec; [|done].
  destruct (write_file io dst _ w1) as [[[]|] w2] eqn:Ewr; [|done]. injection He as <- <-.
  simpl in Hw, Hgt. rewrite <- surjective_pairing in Hw.
  eexists _, w1, _. split; [exact Hw|]. split; [done|]. split; [exact Ewr|]. split; [done|]. intros Hsane.
  assert (sane (aoi aw) (cols_total m, rows_total m)) as Hs by (simpl; by rewrite <- surjective_pairing).
  destruct (window_data_holds t band img (Window.raster_size ds) (aoi aw) (no_data_value band) Hsane Himg)
    as (out & Hout & Hholds).
  pose proof (vrt_pixels_holds f64_display sci16 src m aw img (fill_value t (no_data_value band)) Hs) as Hv.
  exists (vrt_of f64_display sci16 src m aw), out. split_and!; try done.
  - apply read_vrt_build; [naive_solver..| |by apply rects_fit_sane]. by destruct t.
  - simpl. by rewrite Hgt.
  - simpl in Hv. rewrite <- surjective_pairing in Hv. destruct Hsane.
    eapply holds_inj; [| |exact Hv|exact Hholds]; lia.
Qed.
End equivalence.

(** ** The streamed load *)

Section streamed.
Context {SR DS W : Type} (gdal : Gdal SR DS W) (io : Streamer SR W).
Context (f64_display fmt1 sci16 : f64 → string).
Context (g : Loader W) `{DebugText} (to_text : Value → string).

(** The document of a link was written for a window of its raster. *)
Definition emitted (crop : CropWindow) (crs vsi dst : string) (cached : option SourceMeta) : Prop :=
  ∃ w w', emit_cropped_vrt_p3 gdal io f64_display fmt1 sci16 vsi dst crop crs cached w = (Ok dst, w').

Lemma emit_path crop crs vsi dst cached w p w' :
  emit_cropped_vrt_p3 gdal io f64_display fmt1 sci16 vsi dst crop crs cached w = (Ok p, w') → p = dst.
Proof.
  unfold emit_cropped_vrt_p3. destruct (_ ≫= _) as [[m win]|]; [|done].
  destruct (create_parent gdal dst w) as [[[]|] w1]; [|done].
  destruct (write_file io dst _ w1) as [[[]|] w2]; [|done]. by intros [= <-].
Qed.

Definition task_result (t : StreamTask) : nat * string * string := (p_scene t, p_band t, p_dst t).

Lemma stream_pump_ok crop crs sched : ∀ pending got w got' w',
  stream_pump gdal io f64_display fmt1 sci16 crop crs sched pending got w = Some (Ok got', w') →
  (∀ r, r ∈ got' ↔ r ∈ got ∨ r ∈ task_result <$> pending) ∧
  ∀ t, t ∈ pending → emitted crop crs (p_vsi t) (p_dst t) (p_meta t).
Proof.
  assert (∀ got : list (nat * string * string), (∀ r, r ∈ got ↔ r ∈ got ∨ r ∈ task_result <$> []) ∧
    ∀ t, t ∈ [] → emitted crop crs (p_vsi t) (p_dst t) (p_meta t)) as Hnil.
  { intros got. split; [|by intros t ?%not_elem_of_nil]. intros r. simpl. rewrite elem_of_nil. tauto. }
  induction sched as [|i sched IH]; intros pending got w got' w' Hr.
  - destruct pending; [|done]. injection Hr as <- <-. apply Hnil.
  - destruct pending as [|t0 pending]; [injection Hr as <- <-; apply Hnil|].
    assert (∃ ts, ts = t0 :: pending) as [ts Ets] by by eexists.
    cbn [stream_pump] in Hr. rewrite <- Ets in Hr |- *. clear Ets.
    destruct (ts !! i) as [t|] eqn:Hi; [|by eapply IH].
    destruct (emit_cropped_vrt_p3 _ _ _ _ _ _ _ _ _ _ w) as [[p|] w1] eqn:He; [|done].
    apply emit_path in He as Hp. subst p. destruct (IH _ _ _ _ _ Hr) as [Hgot Hem].
    pose proof (delete_Permutation ts i t Hi) as Hperm. split.
    + intros r. rewrite Hgot, elem_of_app, list_elem_of_singleton, (Permutation_map task_result Hperm).
      change (map task_result (t :: delete i ts)) with (task_result t :: (task_result <$> delete i ts)).
      rewrite elem_of_cons. unfold task_result at 2. tauto.
    + intros t1 Ht1. rewrite Hperm in Ht1. apply elem_of_cons in Ht1 as [->|Ht1]; [|by apply Hem].
      by exists w, w1.
Qed.

Definition stream_task_of (work : list (nat * StacScene * string)) (t : StreamTask) : Prop :=
  ∃ s href, (p_scene t, s, p_band t) ∈ work ∧ resolve_band_href s (p_band t) = Some href ∧
    p_dst t = vrt_path g (p_band t) (p_scene t) ∧ validate_asset_href href = Ok tt ∧
    vsicurl_path href = Ok (p_vsi t).

Lemma stream_dispatch_spec work : ∀ ts, stream_dispatch gdal io g work = Ok ts →
  (∀ t, t ∈ ts → stream_task_of work t) ∧
  ∀ i s b, (i, s, b) ∈ work → is_Some (resolve_band_href s b) → (i, b, vrt_path g b i) ∈ task_result <$> ts.
Proof.
  induction work as [|[[i s] b] work IH]; intros ts; simpl.
  - intros [= <-]. split; [by intros t ?%not_elem_of_nil|by intros ??? ?%not_elem_of_nil].
  - assert (∀ t, stream_task_of work t → stream_task_of ((i, s, b) :: work) t) as Hmore
      by (intros t (s' & h & ? & ?); exists s', h; split; [by right|done]).
    destruct (resolve_band_href s b) as [href|] eqn:Hr.
    + destruct (validate_asset_href href) as [[]|] eqn:Hv; [|done]. simpl.
      destruct (vsicurl_path href) as [vsi|] eqn:Hvsi; [|done]. simpl.
      destruct (stream_dispatch gdal io g work) as [ts'|]; [|done]. intros [= <-].
      destruct (IH ts' eq_refl) as [H1 H2]. split.
      * intros t [->|Ht]%elem_of_cons; [|by apply Hmore, H1]. exists s, href. simpl. by split; [left|].
      * intros i' s' b' [[= -> -> ->]|Hin]%elem_of_cons Hs; [by left|]. right. by eapply H2.
    + intros Hd. destruct (IH ts Hd) as [H1 H2]. split; [by intros t Ht; apply Hmore, H1|].
      intros i' s' b' [[= -> -> ->]|Hin]%elem_of_cons Hs; [|by eapply H2].
      rewrite Hr in Hs. by destruct Hs.
Qed.
End streamed.

Definition streamed_cube (id_str : string) (bbox : list f64) (crs : string) (scenes : list StacScene)
    (kept : btree string (list string)) : DataCube :=
  mkDataCube kept [] (Some id_str) (Some bbox) (Some (Z.of_nat (length scenes))) None
    None None None None None None None [("crs", JString crs); ("p3_vsicurl_stream", Bool true)].

Lemma stream_cube_decodes serde_error id_str bbox crs scenes kept :
  bt_wf kept → Forall (λ x, is_finite x = true) bbox →
  from_envelope_owned serde_error (stream_cube_value id_str bbox crs scenes kept) =
  Ok (streamed_cube id_str bbox crs scenes kept).
Proof.
  intros Hk Hb.
  assert (de_map (de_vec as_str) (Object (prod_map id str_array <$> kept)) = Some kept) as Hkept
    by (apply de_map_encoded; [done|]; intros; apply de_str_array).
  assert (de_vec as_f64 (Array (json_of_f64 <$> bbox)) = Some bbox) as Hbbox.
  { unfold de_vec. simpl. apply mapM_fmap_id. intros x Hx. rewrite Forall_forall in Hb.
    by apply as_f64_json, Hb. }
  unfold from_envelope_owned, from_envelope, from_value, stream_cube_value, streamed_cube. simpl.
  set (kv := Object (prod_map id str_array <$> kept)) in *.
  set (bv := Array (json_of_f64 <$> bbox)) in *.
  unfold from_map, de_default, de_option. simpl. rewrite Hkept, Hbbox. done.
Qed.

Section streamed_load.
Context {SR DS W : Type} (gdal : Gdal SR DS W) (io : Streamer SR W).
Context (f64_display fmt1 sci16 : f64 → string) (serde_error : Value → string).
Context (g : Loader W) `{DebugText} (to_text : Value → string).

(** The cube a streamed load promises: the bands a download would keep, each
    with one document per scene, written for the scene's link; no datetimes and
    no scales. *)
Record streamed_ok (crop : CropWindow) (crs : string) (scenes : list StacScene) (bands : list string)
    (c : DataCube) : Prop := {
  st_wf : cube_wf c;
  st_count : scene_count c = Some (Z.of_nat (length scenes));
  st_times : datetimes c = None;
  st_scales : band_scales c = [];
  st_bands : ∀ b, is_Some (bt_get b (Cube.bands c)) ↔
    b ∈ bands ∧ ∀ s, s ∈ scenes → is_Some (resolve_band_href s b);
  st_paths : ∀ b paths, bt_get b (Cube.bands c) = Some paths → length paths = length scenes ∧
    ∀ i p, paths !! i = Some p → p = vrt_path g b i ∧ ∃ s href vsi cached, scenes !! i = Some s ∧
      resolve_band_href s b = Some href ∧ validate_asset_href href = Ok tt ∧
      vsicurl_path href = Ok vsi ∧
      emitted gdal io f64_display fmt1 sci16 crop crs vsi p cached }.

Lemma stream_cube_ok crop sched id_str bbox crs scenes bands w v w' :
  crop = mkCropWindow (nth 0 bbox f64_zero) (nth 1 bbox f64_zero) (nth 2 bbox f64_zero) (nth 3 bbox f64_zero) →
  Forall (λ x, is_finite x = true) bbox →
  stream_cube gdal io f64_display fmt1 sci16 g sched id_str bbox crs scenes bands w = Some (Ok v, w') →
  ∃ c, from_envelope_owned serde_error v = Ok c ∧ streamed_ok crop crs scenes bands c.
Proof.
  intros -> Hfin Hl. unfold stream_cube in Hl.
  destruct (stream_dispatch _ _ _ _) as [ts|] eqn:Hd; [|done].
  destruct (stream_pump _ _ _ _ _ _ _ _ _ _ w) as [[[got|] w2]|] eqn:Hp; [|done..].
  case_bool_decide as Hk; [done|]. injection Hl as <- <-.
  destruct (stream_dispatch_spec gdal io g _ ts Hd) as [Hof Hex].
  apply stream_pump_ok in Hp as [Hgot Hem].
  assert (∀ i b p, (i, b, p) ∈ got → ∃ t, t ∈ ts ∧ (i, b, p) = task_result t) as Hfrom.
  { intros i b p [?%not_elem_of_nil|(t & E & Ht)%list_elem_of_fmap]%Hgot; [done|by exists t]. }
  assert (∀ i b p, (i, b, p) ∈ got → b ∈ bands) as Hbands.
  { intros i b p (t & Ht & [= -> -> ->])%Hfrom.
    by destruct (Hof t Ht) as (? & ? & [_ ?]%elem_of_work_list & _). }
  destruct (kept_bands (length scenes) _ got Hbands) as (Hwf & Hkeys & Hpaths).
  set (kept := complete_bands _) in *. exists (streamed_cube id_str bbox crs scenes kept).
  split; [by apply stream_cube_decodes|]. split; simpl; [|done..| |].
  - split; simpl; try done; [constructor|by intros l [= <-]| |].
    + repeat constructor.
    + apply Forall_forall. intros e [->|[->|?%not_elem_of_nil]%elem_of_cons]%elem_of_cons; [| |done];
        by apply (bool_decide_unpack _).
  - intros b. rewrite Hkeys. split; intros [Hb0 Hall]; (split; [done|]).
    + intros s [i Hi]%list_elem_of_lookup. apply lookup_lt_Some in Hi as Hlt.
      destruct (Hall i Hlt) as [p (t & Ht & [= -> -> ->])%Hfrom].
      destruct (Hof t Ht) as (s' & href & [Hi' _]%elem_of_work_list & Hr & _).
      rewrite Hi in Hi'. injection Hi' as <-. by eexists.
    + intros i [s Hi]%lookup_lt_is_Some_2. exists (vrt_path g b i). apply Hgot. right.
      eapply Hex; [by apply elem_of_work_list|]. apply Hall. by eapply list_elem_of_lookup_2.
  - intros b paths [Hlen Hin]%Hpaths. split; [done|].
    intros i p (t & Ht & [= -> -> ->])%Hin%Hfrom.
    destruct (Hof t Ht) as (s & href & [Hi' _]%elem_of_work_list & Hr & Hdst & Hv & Hvsi).
    split; [done|]. exists s, href, (p_vsi t), (p_meta t). split_and!; try done. by apply Hem.
Qed.

(** A streamed load returns a cube with the bands a download would return,
    exactly the requested bands every scene has, whatever the order in which the
    documents are written: path [i] of a band is the document of scene [i],
    written for that scene's link, which passed the asset guard and is an http
    or https link.  Unlike a downloaded cube it has no datetimes and no scales. *)
Theorem streamed_load_aligned env policy_text search args spatial id_str sched w v w' :
  env "ORBIT_VSICURL_STREAM" = Some "1" →
  searcher g = Some search → bt_get "spatial_extent" args = Some spatial →
  bt_get "id" args ≫= as_str = Some id_str → numbers_ok spatial = true →
  eval_load_collection_in gdal io f64_display fmt1 sci16 g to_text env policy_text args sched w
    = Some (Ok v, w') →
  ∃ bbox crs dt limit cloud scenes w1 c,
    parse_bbox f64_display to_text spatial = Ok (bbox, crs) ∧
    search id_str bbox dt limit cloud w = (Ok scenes, w1) ∧ 1 ≤ limit ≤ 50 ∧
    from_envelope_owned serde_error v = Ok c ∧
    streamed_ok (mkCropWindow (nth 0 bbox f64_zero) (nth 1 bbox f64_zero) (nth 2 bbox f64_zero)
      (nth 3 bbox f64_zero)) crs scenes (requested args) c.
Proof.
  intros Henv Hg Hsp Hid Hnum Hl. unfold eval_load_collection_in, p3_stream_enabled in Hl.
  rewrite Henv in Hl. cbn in Hl. unfold load_with in Hl. rewrite Hid, Hg, Hsp in Hl.
  assert (load_cube f64_display to_text (stream_cube gdal io f64_display fmt1 sci16 g sched)
    search id_str spatial args w = Some (Ok v, w')) as Hc.
  { destruct (catalog g) as [get|]; [|exact Hl]. by destruct (get id_str) as [?|[]]. }
  clear Hl. unfold load_cube in Hc.
  destruct (parse_bbox f64_display to_text spatial) as [[bbox crs]|] eqn:Hb; [|done].
  pose proof (parse_bbox_numbers _ _ _ _ _ Hnum Hb) as Hfin. cbv zeta in Hc.
  set (dt := match parse_temporal <$> bt_get "temporal_extent" args with
             | Some (Ok s) => Some s | _ => None end) in *.
  set (limit := Z.max 1 _) in *. set (cloud := _ ≫= parse_eo_cloud_cover_lt) in *.
  destruct (search id_str bbox dt limit cloud w) as [[scenes|e] w1] eqn:Hs; [|done].
  destruct scenes as [|s0 scenes]; [done|]. set (ss := s0 :: scenes) in *.
  destruct (check_request _ _) as [[]|]; [|done].
  destruct (stream_cube_ok _ _ _ _ _ _ _ _ _ _ eq_refl Hfin Hc) as (c & Hdec & Hok).
  exists bbox, crs, dt, limit, cloud, ss, w1, c. split_and!; try done; unfold limit; lia.
Qed.
End streamed_load.

(** ** Witnesses and examples *)

Module Demo.

#[local] Instance demo_cast : NumCast :=
  {| cast_f64 t := match t with Float32 => λ x, Some x | _ => λ x, Some (f64_to_i64 x) end;
     cast_pixel s t := match s, t with
       | Float32, Float32 => λ x, Some x | Float32, _ => λ x, Some (f64_to_i64 x)
       | _, Float32 => λ x, Some (f64_of_Z x) | _, _ => λ x, Some x end |}.
#[local] Instance demo_debug : DebugText :=
  {| debug_char := λ c, c; debug_strings := λ _, ""; debug_f64s := λ _, "" |}.

(** A raster of four columns and three rows whose pixel is ten times its row
    plus its column, over the square from (0, 0) to (4, 3); its nodata value is 7. *)
Definition demo_pixel (t : PixelType) (r c : Z) : pixel t :=
  match t with Float32 => f64_of_Z (10 * r + c) | _ => 10 * r + c end.
Definition demo_band : Band :=
  mkBand (Known UInt16) (Some (f64_of_Z 7))
    (λ t '(c0, r0) '(n, h),
       Ok ((λ k, demo_pixel t (r0 + k / n) (c0 + k mod n)) <$> (Z.of_nat <$> seq 0 (Z.to_nat (n * h))))).
Definition demo_geo : list f64 :=
  [f64_zero; f64_one; f64_zero; f64_of_Z 3; f64_zero; f64_of_Z (-1)].
Definition demo_source : Source string := mkSource _ (Ok demo_geo) (4, 3) (Ok "EPSG:4326") (Ok demo_band).

(** The world is the files written. *)
Definition Files := btree string string.
Definition demo_gdal : Gdal string unit Files :=
  mkGdal _ _ _ (λ _ w, (Ok tt, w)) (λ _ _, Ok demo_source) (λ d, Ok d) (λ s, s) (λ _ _, Ok (λ b, Ok b))
    (λ _, Ok tt) (λ _ _ _, Ok tt) (λ d _, Ok d) (λ d _, Ok d) (λ _, Ok tt) (λ d _, Ok d)
    (λ _ d _ _, Ok d) (λ _ _ w, (Ok tt, w)).
Definition demo_io : Streamer string Files :=
  mkStreamer _ _ (λ n, Ok ("EPSG:" +:+ pretty n)) (λ t, Ok t) (λ s, Ok s)
    (λ p t w, (Ok tt, bt_insert p t w)).
Definition demo_crop : CropWindow := mkCropWindow (f64_of_Z 2) f64_zero (f64_of_Z 6) (f64_of_Z 2).
Definition plain (_ : f64) : string := "0".
Definition demo_emit :=
  emit_cropped_vrt_p3 demo_gdal demo_io plain plain plain "/vsicurl/https://x.y/a.tif?s=1&t=2" "/tmp/a.vrt"
    demo_crop "EPSG:4326" None [].
Definition demo_files : Files := demo_emit.2.

Lemma demo_reads t : reads_image demo_band (demo_pixel t) (4, 3).
Proof.
  intros c0 r0 n h Hc Hr Hn Hh Hc1 Hr1. eexists. split; [reflexivity|].
  split; [by rewrite !length_fmap, length_seq|]. intros i j Hi Hj.
  rewrite !list_lookup_fmap, lookup_seq_lt by nia. cbn [fmap option_fmap option_map].
  rewrite Nat.add_0_l, Z2Nat.id by nia.
  rewrite <- (Z.div_unique (i * n + j) n i j), <- (Z.mod_unique (i * n + j) n i j) by lia. done.
Qed.

(** Two of the window's four columns lie outside the raster. *)
Lemma streamed_pixels_are_downloaded_witness : ∃ doc v,
  bt_get "/tmp/a.vrt" demo_files = Some doc ∧ read_vrt doc = Some v ∧
  v_source v = "/vsicurl/https://x.y/a.tif?s=1&t=2" ∧
  vrt_pixels v (demo_pixel UInt16) 7 = [12; 13; 7; 7; 22; 23; 7; 7].
Proof.
  destruct (streamed_pixels_are_downloaded demo_gdal demo_io plain plain plain (λ c, c) UInt16
    "/vsicurl/https://x.y/a.tif?s=1&t=2" "/tmp/a.vrt" demo_crop "EPSG:4326" None demo_source "EPSG:4326"
    demo_band "EPSG:4326" demo_geo "EPSG:4326" [] "/tmp/a.vrt" demo_files (demo_pixel UInt16))
    as (win & w1 & doc & Hw & Hp & Hwr & _ & Hs).
  1-5: reflexivity.
  - apply demo_reads.
  - reflexivity.
  - reflexivity.
  - reflexivity.
  - intros x c [->| ->]; by split.
  - vm_compute. reflexivity.
  - intros m [=].
  - vm_compute. reflexivity.
  - vm_compute in Hw. injection Hw as <-. vm_compute in Hp. injection Hp as <-.
    destruct Hs as (v & out & Hv & Hsrc & _ & _ & _ & _ & Hout & _ & Hpix); [split; vm_compute; by repeat split|].
    exists doc, v. split; [|split; [exact Hv|split; [exact Hsrc|]]].
    + assert (demo_files = bt_insert "/tmp/a.vrt" doc []) as ->; [|reflexivity].
      apply (f_equal snd) in Hwr. symmetry. exact Hwr.
    + vm_compute in Hout. injection Hout as <-. exact Hpix.
Defined.

(** A streamed load of two scenes; one link has the plain http scheme, which the
    default URL policy refuses. *)
Definition demo_scene (id date href : string) : StacScene :=
  mkStacScene id [("B08", href)] [] (Some date).
Definition demo_loader : Loader Files :=
  mkLoader _ None
    (Some (λ _ _ _ _ _ w, (Ok [demo_scene "s1" "2024-05-01" "https://x.y/1.tif";
                               demo_scene "s2" "2024-05-11" "http://x.y/2.tif"], w)))
    (λ href, Ok href) (λ _ _ _ _ _ w, (Ok tt, w)) None "/tmp" default_policy.
Definition demo_extent : Value :=
  Object [("west", Number (PosInt 1)); ("south", Number (PosInt 0));
          ("east", Number (PosInt 3)); ("north", Number (PosInt 2))].
Definition demo_args : btree string Value :=
  [("bands", Array [JString "B08"]); ("id", JString "s2-l2a"); ("spatial_extent", demo_extent)].
Definition demo_env (mode : string) (k : string) : option string :=
  if bool_decide (k = "ORBIT_VSICURL_STREAM") then Some mode else None.
Definition demo_load (mode : string) (sched : list nat) :=
  eval_load_collection_in demo_gdal demo_io plain plain plain demo_loader (λ _, "") (demo_env mode)
    (λ _, "refused") demo_args sched [].
Definition demo_result : Value * Files :=
  match demo_load "1" [1; 0]%nat with Some (Ok v, w) => (v, w) | _ => (Null, []) end.

Lemma streamed_load_aligned_witness : ∃ c,
  from_envelope_owned (λ _, "") demo_result.1 = Ok c ∧
  Cube.bands c = [("B08", ["/tmp/B08_0_p3.vrt"; "/tmp/B08_1_p3.vrt"])] ∧ datetimes c = None.
Proof.
  destruct (streamed_load_aligned demo_gdal demo_io plain plain plain (λ _, "") demo_loader (λ _, "")
    (demo_env "1") (λ _, "refused")
    (λ _ _ _ _ _ w, (Ok [demo_scene "s1" "2024-05-01" "https://x.y/1.tif";
                         demo_scene "s2" "2024-05-11" "http://x.y/2.tif"], w))
    demo_args demo_extent "s2-l2a" [1; 0]%nat [] demo_result.1 demo_result.2)
    as (bb & crs & dt & limit & cloud & ss & w1 & c & _ & _ & _ & Hc & Hok).
  1-6: vm_compute; reflexivity.
  exists c. split; [exact Hc|]. destruct Hok as [_ _ Ht _ _ _]. split; [|exact Ht].
  vm_compute in Hc. injection Hc as <-. reflexivity.
Defined.

(** The same request, downloaded, is refused by the executor's URL policy. *)
Example streaming_skips_the_policy :
  is_ok (default (Err (ExecBackend ""), []) (demo_load "1" [0; 0]%nat)).1 = true ∧
  demo_load "0" [0; 0; 1; 1]%nat = Some (Err (ExecBackend "url_policy: refused"), []).
Proof. split; vm_compute; reflexivity. Qed.

(** The pixel type of a band's metadata is copied into the document as it is: a
    search result can name a source of its own. *)
Definition injected_dtype : string :=
  "Byte" +:+ chr dquote +:+ "><SimpleSource><SourceFilename>/vsicurl/http://169.254.169.254/x"
  +:+ "</SourceFilename></SimpleSource></VRTRasterBand><VRTRasterBand dataType=" +:+ chr dquote +:+ "Byte".
Definition injected_meta : SourceMeta := mkSourceMeta 4 3 injected_dtype None "EPSG:4326" demo_geo.
Example dtype_is_not_escaped :
  let doc := build_vrt_xml plain plain "/vsicurl/https://x.y/a.tif" injected_meta
               (mkAoiWindow (mkPixelWindow 0 0 4 3) demo_geo) in
  str_contains "<SourceFilename>/vsicurl/http://169.254.169.254/x</SourceFilename>" doc = true ∧
  validate_asset_href "http://169.254.169.254/x" ≠ Ok tt.
Proof. split; [vm_compute; reflexivity|vm_compute; discriminate]. Qed.
End Demo.
