(* ===== verification/Timeline.v ===== *)
(** * Times behind the timestamps

    Times as rational numbers of seconds, the texts that stand for them in a cube
    and in a temporal extent, and the meaning of an extent.  The order of times is
    compared with the order of their texts, which is what the code uses. *)

From Stdlib Require Import Ascii.
From S2P Require Import Prelude BTree F64 Text Json Calendar Stac.
Local Open Scope Z_scope.

(** ** The text order *)

Lemma cmp_app_same (s a b : string) : cmp (s +:+ a) (s +:+ b) = cmp a b.
Proof.
  induction s as [|c s IH]; [done|]. cbn [String.app]. rewrite <- IH.
  unfold cmp, ord_string. simpl. unfold Ascii.compare. by rewrite N.compare_refl.
Qed.

Lemma cmp_app_lt (a b x y : string) :
  String.length a = String.length b → cmp a b = Lt → cmp (a +:+ x) (b +:+ y) = Lt.
Proof.
  revert b. induction a as [|c a IH]; intros [|d b]; [done..|].
  unfold cmp, ord_string in *. simpl. intros [= Hl].
  destruct (Ascii.compare c d); [by apply IH|done..].
Qed.

Lemma count_char_app c a b : count_char c (a +:+ b) = (count_char c a + count_char c b)%nat.
Proof. induction a as [|d a IH]; [done|]. simpl. rewrite IH. lia. Qed.

(** ** Padded numbers *)

Definition pad_ok (w : nat) (n : Z) : bool :=
  (String.length (pad0 w n) =? w)%nat &&
  (count_char "-" (pad0 w n) =? 0)%nat &&
  negb (has_char "T" (pad0 w n)) && negb (has_char ":" (pad0 w n)).
Definition pad_step (w : nat) (n : Z) : bool :=
  match cmp (pad0 w n) (pad0 w (n + 1)) with Lt => true | _ => false end.

Lemma pad2_ok_all : forallb (pad_ok 2) (Z.of_nat <$> seq 0 100) = true.
Proof. vm_compute. reflexivity. Qed.
Lemma pad2_step_all : forallb (pad_step 2) (Z.of_nat <$> seq 0 99) = true.
Proof. vm_compute. reflexivity. Qed.
Lemma pad4_ok_all : forallb (pad_ok 4) (Z.of_nat <$> seq 0 10000) = true.
Proof. vm_compute. reflexivity. Qed.
Lemma pad4_step_all : forallb (pad_step 4) (Z.of_nat <$> seq 0 9999) = true.
Proof. vm_compute. reflexivity. Qed.

(** [n] is printed with exactly [w] digits. *)
Definition digits_fit (w : nat) (n : Z) : Prop :=
  w = 2%nat ∧ 0 ≤ n < 100 ∨ w = 4%nat ∧ 0 ≤ n < 10000.

Lemma pad_spec w n : digits_fit w n → pad_ok w n = true.
Proof.
  intros [[-> Hn]|[-> Hn]].
  - exact (forallb_range _ _ pad2_ok_all n Hn).
  - exact (forallb_range _ _ pad4_ok_all n Hn).
Qed.

Lemma pad_length w n : digits_fit w n → String.length (pad0 w n) = w.
Proof. intros H%pad_spec. unfold pad_ok in H. rewrite !andb_true_iff, !Nat.eqb_eq in H. tauto. Qed.

Lemma pad_next w n : digits_fit w n → digits_fit w (n + 1) → cmp (pad0 w n) (pad0 w (n + 1)) = Lt.
Proof.
  intros Hn Hn'. assert (pad_step w n = true) as H.
  { destruct Hn as [[-> Hn]|[-> Hn]], Hn' as [[? Hn']|[? Hn']]; try done.
    - assert (0 ≤ n < 99) as Hr by lia. exact (forallb_range _ _ pad2_step_all n Hr).
    - assert (0 ≤ n < 9999) as Hr by lia. exact (forallb_range _ _ pad4_step_all n Hr). }
  unfold pad_step in H. by destruct (cmp _ _).
Qed.

Lemma pad_lt w a b : digits_fit w a → digits_fit w b → a < b → cmp (pad0 w a) (pad0 w b) = Lt.
Proof.
  intros Ha. assert (∀ k : nat, digits_fit w (a + 1 + Z.of_nat k) →
    cmp (pad0 w a) (pad0 w (a + 1 + Z.of_nat k)) = Lt) as H.
  { induction k as [|k IH]; intros Hk.
    - rewrite Z.add_0_r in *. by apply pad_next.
    - replace (a + 1 + Z.of_nat (S k)) with (a + 1 + Z.of_nat k + 1) in * by lia.
      assert (digits_fit w (a + 1 + Z.of_nat k)) as Hk' by (unfold digits_fit in *; lia).
      apply (cmp_trans _ (pad0 w (a + 1 + Z.of_nat k))); [by apply IH|by apply pad_next]. }
  intros Hb Hab. specialize (H (Z.to_nat (b - a - 1))).
  replace (a + 1 + Z.of_nat (Z.to_nat (b - a - 1))) with b in H by lia. by apply H.
Qed.

(** Texts that start with padded numbers compare by the numbers first. *)
Lemma pad_lex w a b x y : digits_fit w a → digits_fit w b → a < b ∨ a = b ∧ cmp x y = Lt →
  cmp (pad0 w a +:+ x) (pad0 w b +:+ y) = Lt.
Proof.
  intros Ha Hb [Hab|[-> Hxy]]; [|by rewrite cmp_app_same].
  apply cmp_app_lt; [by rewrite !pad_length|by apply pad_lt].
Qed.

(** ** Dates *)

Definition date_lt (a b : Z * Z * Z) : Prop :=
  let '(y, m, d) := a in let '(y', m', d') := b in
  y < y' ∨ y = y' ∧ (m < m' ∨ m = m' ∧ d < d').

Lemma next_day_later a : date_lt a (next_day a).
Proof.
  destruct a as [[y m] d]. unfold next_day, date_lt.
  destruct (d <? month_length y m); [lia|]. destruct (Z.ltb_spec m 12); lia.
Qed.

Lemma date_lt_trans a b c : date_lt a b → date_lt b c → date_lt a c.
Proof. destruct a as [[? ?] ?], b as [[? ?] ?], c as [[? ?] ?]. simpl. lia. Qed.

Lemma days_later z z' : z < z' → date_lt (days_to_ymd z) (days_to_ymd z').
Proof.
  intros Hz. replace z' with (z + 1 + Z.of_nat (Z.to_nat (z' - z - 1))) by lia.
  induction (Z.to_nat (z' - z - 1)) as [|k IH].
  - rewrite Z.add_0_r, days_to_ymd_succ. apply next_day_later.
  - apply (date_lt_trans _ _ _ IH).
    replace (z + 1 + Z.of_nat (S k)) with (z + 1 + Z.of_nat k + 1) by lia.
    rewrite days_to_ymd_succ. apply next_day_later.
Qed.

Definition date_fits (a : Z * Z * Z) : Prop :=
  let '(y, m, d) := a in digits_fit 4 y ∧ digits_fit 2 m ∧ digits_fit 2 d.

Lemma month_day_fits (n : nat) : let '(_, m, d) := days_to_ymd (Z.of_nat n) in
  1 ≤ m ≤ 12 ∧ 1 ≤ d ≤ 31.
Proof.
  induction n as [|n IH]; [vm_compute; intuition congruence|].
  rewrite Nat2Z.inj_succ, <- Z.add_1_r, days_to_ymd_succ.
  destruct (days_to_ymd (Z.of_nat n)) as [[y m] d]. unfold next_day.
  assert (month_length y m ≤ 31).
  { unfold month_length. destruct (m =? 2), (leap y); try lia; by destruct (_ || _). }
  destruct (Z.ltb_spec d (month_length y m)); [lia|]. destruct (Z.ltb_spec m 12); lia.
Qed.

(** The days from 1970-01-01 to 9999-12-31. *)
Definition DAY_LIMIT : Z := 2932897.

Lemma days_fit z : 0 ≤ z < DAY_LIMIT → date_fits (days_to_ymd z).
Proof.
  unfold DAY_LIMIT. intros Hz. pose proof (month_day_fits (Z.to_nat z)) as Hmd.
  rewrite Z2Nat.id in Hmd by lia.
  pose proof (days_later z 2932897 ltac:(lia)) as Hhi.
  pose proof (days_later (-1) z ltac:(lia)) as Hlo.
  change (days_to_ymd 2932897) with (10000, 1, 1) in Hhi.
  change (days_to_ymd (-1)) with (1969, 12, 31) in Hlo.
  destruct (days_to_ymd z) as [[y m] d]. unfold date_fits, digits_fit, date_lt in *. lia.
Qed.

(** ** Timestamps *)

(** A timestamp of the second [t] that ends in [tail]: ["Z"], or a fraction. *)
Definition clock (date : Z * Z * Z) (secs : Z) (tail : string) : string :=
  let '(y, m, d) := date in
  pad0 4 y +:+ "-" +:+ pad0 2 m +:+ "-" +:+ pad0 2 d +:+ "T" +:+
  pad0 2 (secs / 3600) +:+ ":" +:+ pad0 2 (secs / 60 mod 60) +:+ ":" +:+
  pad0 2 (secs mod 60) +:+ tail.
Definition at_second (t : Z) (tail : string) : string :=
  clock (days_to_ymd (t / 86400)) (t mod 86400) tail.

Definition TIME_LIMIT : Z := 86400 * DAY_LIMIT.

Lemma iso8601_at t : 0 ≤ t < TIME_LIMIT → iso8601 t = at_second t "Z".
Proof.
  unfold TIME_LIMIT, DAY_LIMIT. intros Ht. unfold iso8601.
  rewrite to_signed_small by (simpl; lia). reflexivity.
Qed.

Lemma cmp_dash (s x y : string) : cmp x y = Lt → cmp (s +:+ x) (s +:+ y) = Lt.
Proof. by rewrite cmp_app_same. Qed.

Lemma clock_lt date date' s s' x y : date_fits date → date_fits date' →
  0 ≤ s < 86400 → 0 ≤ s' < 86400 → date_lt date date' ∨ date = date' ∧ s < s' →
  cmp (clock date s x) (clock date' s' y) = Lt.
Proof.
  destruct date as [[yr m] d], date' as [[yr' m'] d']. unfold clock.
  intros (Hy & Hm & Hd) (Hy' & Hm' & Hd') Hs Hs' Hlt.
  assert (∀ s, 0 ≤ s < 86400 → digits_fit 2 (s / 3600) ∧ digits_fit 2 (s / 60 mod 60) ∧ digits_fit 2 (s mod 60)) as Hf
    by (intros u Hu; unfold digits_fit; Z.to_euclidean_division_equations; lia).
  destruct (Hf s Hs) as (F1 & F2 & F3), (Hf s' Hs') as (F1' & F2' & F3').
  apply pad_lex; [done..|]. destruct Hlt as [[|[-> Hlt]]|[[= -> -> ->] Hlt]]; [by left|right..];
    (split; [done|]; apply cmp_dash, pad_lex; [done..|]).
  - destruct Hlt as [|[-> Hlt]]; [by left|]. right. split; [done|].
    apply cmp_dash, pad_lex; [done..|]. by left.
  - right. split; [done|]. apply cmp_dash, pad_lex; [done..|]. right. split; [done|].
    apply cmp_dash, pad_lex; [done..|].
    destruct (decide (s / 3600 = s' / 3600)) as [E1|E1];
      [right; split; [done|]; apply cmp_dash, pad_lex; [done..|]
      |left; Z.to_euclidean_division_equations; lia].
    destruct (decide (s / 60 mod 60 = s' / 60 mod 60)) as [E2|E2];
      [right; split; [done|]; apply cmp_dash, pad_lex; [done..|]; left
      |left]; Z.to_euclidean_division_equations; lia.
Qed.

(** The order of seconds is the order of their timestamps, whatever follows. *)
Lemma at_second_lt t t' x y : 0 ≤ t → t < t' → t' < TIME_LIMIT →
  cmp (at_second t x) (at_second t' y) = Lt.
Proof.
  unfold TIME_LIMIT, at_second. intros H0 Hlt Ht.
  assert (∀ u, 0 ≤ u < 86400 * DAY_LIMIT → 0 ≤ u / 86400 < DAY_LIMIT) as Hday.
  { intros u Hu. split; [apply Z.div_pos; lia|apply Z.div_lt_upper_bound; lia]. }
  apply clock_lt; [apply days_fit, Hday; lia..|by apply Z.mod_pos_bound|by apply Z.mod_pos_bound|].
  destruct (decide (t / 86400 = t' / 86400)) as [E|E].
  - right. split; [by rewrite E|]. Z.to_euclidean_division_equations; lia.
  - left. apply days_later. Z.to_euclidean_division_equations; lia.
Qed.

Lemma at_second_same t x y : cmp (at_second t x) (at_second t y) = cmp x y.
Proof.
  unfold at_second, clock. destruct (days_to_ymd _) as [[? ?] ?]. by rewrite !cmp_app_same.
Qed.

(** ** Times, bounds and extents *)

(** A moment [sec + num / 10^digits], and its RFC 3339 text in UTC: the fraction is
    written when it has digits. *)
Record Moment := mkMoment { sec : Z; digits : nat; num : Z }.

Definition moment_ok (x : Moment) : Prop :=
  0 ≤ sec x < TIME_LIMIT ∧ 0 ≤ num x < 10 ^ Z.of_nat (digits x).
Definition moment_text (x : Moment) : string :=
  at_second (sec x) (match digits x with
                     | O => "Z"
                     | _ => "." +:+ pad0 (digits x) (num x) +:+ "Z"
                     end).

(** The moment against a whole number of seconds. *)
Definition not_before (a : Z) (x : Moment) : bool :=
  a * 10 ^ Z.of_nat (digits x) <=? sec x * 10 ^ Z.of_nat (digits x) + num x.
Definition not_after (a : Z) (x : Moment) : bool :=
  sec x * 10 ^ Z.of_nat (digits x) + num x <=? a * 10 ^ Z.of_nat (digits x).

(** A bound of a temporal extent: none, a whole second, or a whole UTC day counted
    from 1970-01-01. *)
Inductive TimeBound := Unbounded (v : Value) | Instant (a : Z) | Day (n : Z).

Definition bound_ok (b : TimeBound) : Prop :=
  match b with
  | Unbounded v => as_str v = None
  | Instant a => 0 ≤ a < TIME_LIMIT
  | Day n => 0 ≤ n < DAY_LIMIT
  end.
Definition day_text (n : Z) : string :=
  let '(y, m, d) := days_to_ymd n in pad0 4 y +:+ "-" +:+ pad0 2 m +:+ "-" +:+ pad0 2 d.
Definition bound_value (b : TimeBound) : Value :=
  match b with
  | Unbounded v => v
  | Instant a => JString (iso8601 a)
  | Day n => JString (day_text n)
  end.

(** An extent is a closed interval of seconds; a day as the start is its first
    moment, and a day as the end is that whole day. *)
Definition starts_by (b : TimeBound) (x : Moment) : bool :=
  match b with
  | Unbounded _ => true
  | Instant a => not_before a x
  | Day n => not_before (86400 * n) x
  end.
Definition ends_by (b : TimeBound) (x : Moment) : bool :=
  match b with
  | Unbounded _ => true
  | Instant a => not_after a x
  | Day n => negb (not_before (86400 * (n + 1)) x)
  end.
Definition in_extent (start end_ : TimeBound) (x : Moment) : bool :=
  starts_by start x && ends_by end_ x.

(** The second of the bound that [x] is compared with. *)
Definition start_second (b : TimeBound) : option Z :=
  match b with Unbounded _ => None | Instant a => Some a | Day n => Some (86400 * n) end.
Definition end_second (b : TimeBound) : option Z :=
  match b with Instant a => Some a | _ => None end.

(** A fraction of the very second of a bound is what the text order gets wrong. *)
Definition clear_of (start end_ : TimeBound) (x : Moment) : Prop :=
  digits x = 0%nat ∨ start_second start ≠ Some (sec x) ∧ end_second end_ ≠ Some (sec x).

(** ** What [normalise_iso] makes of a bound *)

Definition char_free (s : string) : Prop :=
  has_char "T" s = false ∧ has_char ":" s = false ∧ count_char "-" s = 0%nat.

Lemma pad_char_free w n : digits_fit w n → char_free (pad0 w n).
Proof.
  intros H%pad_spec. unfold pad_ok in H.
  rewrite !andb_true_iff, !negb_true_iff, !Nat.eqb_eq in H. split_and!; tauto.
Qed.

Lemma normalise_at_second t tail b : normalise_iso (at_second t tail) b = at_second t tail.
Proof.
  assert (has_char "T" (at_second t tail) = true) as H.
  { unfold at_second, clock. destruct (days_to_ymd _) as [[? ?] ?].
    rewrite !has_char_app. simpl. by rewrite !orb_true_r. }
  unfold normalise_iso. rewrite H, orb_true_r. done.
Qed.

Lemma day_text_shape n : 0 ≤ n < DAY_LIMIT →
  has_char "T" (day_text n) = false ∧ has_char ":" (day_text n) = false ∧
  String.length (day_text n) = 10%nat ∧ count_char "-" (day_text n) = 2%nat.
Proof.
  intros Hf%days_fit. unfold day_text. destruct (days_to_ymd n) as [[y m] d].
  destruct Hf as (Hy & Hm & Hd).
  destruct (pad_char_free _ _ Hy) as (Y1 & Y2 & Y3), (pad_char_free _ _ Hm) as (M1 & M2 & M3),
    (pad_char_free _ _ Hd) as (D1 & D2 & D3).
  rewrite !has_char_app, !str_length_app, !count_char_app, !pad_length by done.
  rewrite Y1, Y2, Y3, M1, M2, M3, D1, D2, D3. done.
Qed.

Lemma normalise_day n b : 0 ≤ n < DAY_LIMIT →
  normalise_iso (day_text n) b = at_second (86400 * n + if b then 0 else 86399) "Z".
Proof.
  intros Hn. destruct (day_text_shape n Hn) as (HT & HC & Hl & Hc).
  assert (day_text n ≠ "..") as Hne by (intros E; rewrite E in Hl; simpl in Hl; lia).
  unfold normalise_iso. rewrite HT, HC, Hl, Hc, bool_decide_eq_false_2 by exact Hne.
  cbn [orb andb Nat.eqb]. unfold at_second.
  assert ((86400 * n + (if b then 0 else 86399)) / 86400 = n) as ->
    by (destruct b; Z.to_euclidean_division_equations; lia).
  assert ((86400 * n + (if b then 0 else 86399)) mod 86400 = if b then 0 else 86399) as ->
    by (destruct b; Z.to_euclidean_division_equations; lia).
  unfold day_text, clock. destruct (days_to_ymd n) as [[y m] d].
  rewrite !str_app_assoc. by destruct b.
Qed.

(** ** The text order is the order of moments *)

(** A moment's text against that of a whole second: the seconds decide, and in the
    same second a moment with a fraction comes first. *)
Lemma moment_cmp x a : moment_ok x → 0 ≤ a < TIME_LIMIT →
  cmp (moment_text x) (at_second a "Z") =
  match Z.compare (sec x) a with
  | Eq => if (digits x =? 0)%nat then Eq else Lt
  | c => c
  end.
Proof.
  intros [Hs _] Ha. unfold moment_text. destruct (Z.compare_spec (sec x) a) as [->|E|E].
  - rewrite at_second_same. by destruct (digits x).
  - apply at_second_lt; lia.
  - apply cmp_gt_lt, at_second_lt; lia.
Qed.

Lemma not_before_sec a x : moment_ok x → not_before a x = (a <=? sec x).
Proof.
  intros [_ Hn]. unfold not_before. destruct (Z.leb_spec a (sec x)); [|]; 
    [apply Z.leb_le|apply Z.leb_gt]; nia.
Qed.

Lemma not_after_sec a x : moment_ok x → digits x = 0%nat ∨ sec x ≠ a →
  not_after a x = (sec x <=? a).
Proof.
  intros [_ Hn] Hc. unfold not_after. destruct (Z.leb_spec (sec x) a);
    [apply Z.leb_le|apply Z.leb_gt]; [|nia].
  destruct Hc as [E|Hne]; [rewrite E in *; simpl in *; lia|nia].
Qed.
