(* ===== verification/CubeOps.v ===== *)
(** * Processes on the metadata of a cube

    eval_cube_ops.rs: filter_temporal, filter_bbox, filter_spatial, filter_bands,
    rename_labels, add_dimension and drop_dimension.  They decode the envelope
    of their argument, change the cube and encode it again; only the two spatial
    filters touch rasters, through the crop of crates/orbit-geo ([crop_raster],
    GDAL) and the clock that names their files. *)

From S2P Require Import Prelude BTree F64 Text Json Executor Cube Window Calendar Stac Load Timeline.
Local Open Scope Z_scope.

(** [a >= b] and [a <= b] on texts. *)
Definition str_ge (a b : string) : bool := match cmp a b with Lt => false | _ => true end.
Definition str_le (a b : string) : bool := match cmp a b with Gt => false | _ => true end.

Definition with_times (b : btree string (list string)) (dts : list string) (c : DataCube) : DataCube :=
  mkDataCube b (band_scales c) (cube_collection c) (bbox c) (Some (Z.of_nat (length dts))) (Some dts)
    (times c) (layers c) (layer_names c) (source_band c) (masked_bands c) (masked_by c)
    (replacement c) (extras c).
Definition with_bbox (l : list f64) (c : DataCube) : DataCube :=
  mkDataCube (bands c) (band_scales c) (cube_collection c) (Some l) (scene_count c) (datetimes c)
    (times c) (layers c) (layer_names c) (source_band c) (masked_bands c) (masked_by c)
    (replacement c) (extras c).
Definition with_layers (b : btree string (list string)) (n : option Z) (names : list string)
    (c : DataCube) : DataCube :=
  mkDataCube b (band_scales c) (cube_collection c) (bbox c) (scene_count c) (datetimes c)
    (times c) n (Some names) (source_band c) (masked_bands c) (masked_by c) (replacement c) (extras c).
Definition with_extras (e : btree string Value) (c : DataCube) : DataCube :=
  mkDataCube (bands c) (band_scales c) (cube_collection c) (bbox c) (scene_count c) (datetimes c)
    (times c) (layers c) (layer_names c) (source_band c) (masked_bands c) (masked_by c)
    (replacement c) e.

Definition Args := btree string Value.

Section ops.
Context (serde_error : Value → string).
Context `{DebugText} (f64_display : f64 → string) (to_text : Value → string).

Definition need (k : string) (m : string) (args : Args) : result ExecError Value :=
  ok_or (bt_get k args) (InvalidGraph m).
Definition decode (who : string) (data : Value) : result ExecError DataCube :=
  map_err (λ e, InvalidGraph (who +:+ ": input is not a cube: " +:+ cube_error_text e))
    (from_envelope_owned serde_error data).

(** ** filter_temporal *)

Definition inside (start end_ : option string) (dt : string) : bool :=
  match start with Some s => str_ge dt s | None => true end &&
  match end_ with Some e => str_le dt e | None => true end.

Definition keep_indices (start end_ : option string) (dts : list string) : list nat :=
  (filter (λ e : nat * string, inside start end_ e.2 = true) (imap pair dts)).*1.

Definition prune (n : nat) (keep : list nat) (paths : list string) : list string :=
  if (length paths =? n)%nat then omap (λ i, paths !! i) keep else paths.

Definition filter_cube (start end_ : option string) (cube : DataCube) : result ExecError DataCube :=
  dts ← ok_or (datetimes cube) (InvalidGraph ("filter_temporal: cube has no per-scene datetimes "
    +:+ "(load_collection did not supply STAC `properties.datetime`); cannot filter by time"));
  let keep := keep_indices start end_ dts in
  if bool_decide (keep = []) then
    Err (ExecBackend "filter_temporal: no scenes fall within the requested extent")
  else Ok (with_times (prod_map id (prune (length dts) keep) <$> bands cube)
             (omap (λ i, dts !! i) keep) cube).

Definition eval_filter_temporal (args : Args) : result ExecError Value :=
  data ← need "data" "filter_temporal: missing `data`" args;
  extent ← ok_or (bt_get "extent" (bt_remove "data" args) ≫= as_array)
    (InvalidGraph "filter_temporal: `extent` must be a 2-element array");
  match extent with
  | [e0; e1] =>
      let start := (λ s, normalise_iso s true) <$> as_str e0 in
      let end_ := (λ s, normalise_iso s false) <$> as_str e1 in
      cube ← decode "filter_temporal" data;
      cube ← filter_cube start end_ cube;
      Ok (to_envelope cube)
  | _ => Err (InvalidGraph "filter_temporal: `extent` must have exactly two elements")
  end.

(** ** filter_bbox and filter_spatial *)

(** The least box around the numeric pairs found so far. *)
Record Bounds := mkBounds { b_min_x : f64; b_min_y : f64; b_max_x : f64; b_max_y : f64; found : bool }.

Definition f64_infinity : f64 := SpecFloat.S754_infinity false.
Definition f64_neg_infinity : f64 := SpecFloat.S754_infinity true.
Definition no_bounds : Bounds :=
  mkBounds f64_infinity f64_infinity f64_neg_infinity f64_neg_infinity false.
Definition add_point (x y : f64) (b : Bounds) : Bounds :=
  mkBounds (f64_min (b_min_x b) x) (f64_min (b_min_y b) y) (f64_max (b_max_x b) x)
    (f64_max (b_max_y b) y) true.

(** The numbers an array starts with, when they make it a position. *)
Definition position (arr : list Value) : option (f64 * f64) :=
  match arr with
  | Number a :: Number b :: _ => x ← as_f64 (Number a); y ← as_f64 (Number b); Some (x, y)
  | _ => None
  end.

Fixpoint walk (v : Value) (b : Bounds) : Bounds :=
  match v with
  | Array arr =>
      match position arr with
      | Some (x, y) => add_point x y b
      | None => (fix go l b := match l with [] => b | v :: l => go l (walk v b) end) arr b
      end
  | Object m =>
      (fix go (m : list (string * Value)) b := match m with [] => b | e :: m => go m (walk e.2 b) end) m b
  | _ => b
  end.

Definition geojson_bbox (v : Value) : option (list f64) :=
  match jget "west" v ≫= as_f64, jget "south" v ≫= as_f64,
        jget "east" v ≫= as_f64, jget "north" v ≫= as_f64 with
  | Some w, Some s, Some e, Some n => Some [w; s; e; n]
  | _, _, _, _ =>
      let b := walk v no_bounds in
      if found b && f64_ltb (b_min_x b) (b_max_x b) && f64_ltb (b_min_y b) (b_max_y b)
      then Some [b_min_x b; b_min_y b; b_max_x b; b_max_y b] else None
  end.

Section crop.
Context {W : Type} (scratch_dir : string) (now_nanos : W → Z * W).
Context (crop_raster : string → string → CropWindow → string → W → result string string * W).

(** The scenes of one band, in order. *)
Fixpoint recrop_paths (who key crs : string) (crop : CropWindow) (t : nat) (paths : list string)
    (w : W) : result ExecError (list string) * W :=
  match paths with
  | [] => (Ok [], w)
  | src :: paths =>
      let '(nanos, w) := now_nanos w in
      let dst := scratch_dir +:+ "/" +:+ who +:+ "_" +:+ key +:+ "_t" +:+ pretty t +:+ "_"
                 +:+ pretty nanos +:+ ".tif" in
      match crop_raster src dst crop crs w with
      | (Err e, w) => (Err (ExecBackend (who +:+ ": crop " +:+ key +:+ " t=" +:+ pretty t +:+ ": " +:+ e)), w)
      | (Ok out, w) =>
          match recrop_paths who key crs crop (S t) paths w with
          | (Err e, w) => (Err e, w)
          | (Ok outs, w) => (Ok (out :: outs), w)
          end
      end
  end.

Fixpoint recrop_bands (who crs : string) (crop : CropWindow) (keys : list string) (cube : DataCube)
    (w : W) : result ExecError DataCube * W :=
  match keys with
  | [] => (Ok cube, w)
  | key :: keys =>
      match validate_identifier key (who +:+ ".band_key") with
      | Err e => (Err e, w)
      | Ok _ =>
          match take_band key cube with
          | (Err _, _) => (Err (ExecBackend (who +:+ ": band `" +:+ key +:+ "` vanished")), w)
          | (Ok paths, cube) =>
              match recrop_paths who key crs crop 0 paths w with
              | (Err e, w) => (Err e, w)
              | (Ok outs, w) =>
                  recrop_bands who crs crop keys (set_bands (bt_insert key outs (bands cube)) cube) w
              end
          end
      end
  end.

Definition recrop_cube_to_bbox (data : Value) (box : list f64) (crs who : string) (w : W)
    : result ExecError Value * W :=
  match decode who data with
  | Err e => (Err e, w)
  | Ok cube =>
      if bool_decide (bands cube = []) then (Err (InvalidGraph (who +:+ ": cube has no bands")), w)
      else
        let crop := mkCropWindow (nth 0 box f64_zero) (nth 1 box f64_zero)
                      (nth 2 box f64_zero) (nth 3 box f64_zero) in
        match recrop_bands who crs crop (bands cube).*1 cube w with
        | (Err e, w) => (Err e, w)
        | (Ok cube, w) => (Ok (to_envelope (with_bbox box cube)), w)
        end
  end.

Definition eval_filter_bbox (args : Args) (w : W) : result ExecError Value * W :=
  match (data ← need "data" "filter_bbox: missing `data`" args;
         extent ← need "extent" "filter_bbox: missing `extent` bounding box" (bt_remove "data" args);
         b ← parse_bbox f64_display to_text extent;
         _ ← map_err (λ e, InvalidGraph ("filter_bbox.extent.crs: " +:+ e))
               (validate_crs_spec debug_char b.2);
         Ok (data, b)) with
  | Err e => (Err e, w)
  | Ok (data, (box, crs)) => recrop_cube_to_bbox data box crs "filter_bbox" w
  end.

Definition eval_filter_spatial (args : Args) (w : W) : result ExecError Value * W :=
  match (data ← need "data" "filter_spatial: missing `data`" args;
         geometries ← need "geometries" "filter_spatial: missing `geometries`" (bt_remove "data" args);
         box ← ok_or (geojson_bbox geometries)
           (InvalidGraph ("filter_spatial: could not derive a bbox from `geometries` "
             +:+ "(expected GeoJSON with numeric coordinates)"));
         Ok (data, box)) with
  | Err e => (Err e, w)
  | Ok (data, box) => recrop_cube_to_bbox data box "EPSG:4326" "filter_spatial" w
  end.
End crop.

(** ** filter_bands *)

Fixpoint all_available (requested : list string) (cube : DataCube) : result ExecError unit :=
  match requested with
  | [] => Ok tt
  | b :: requested =>
      match bt_get b (bands cube) with
      | Some _ => all_available requested cube
      | None => Err (InvalidGraph ("filter_bands: band `" +:+ b +:+ "` not available (have: "
                  +:+ debug_strings (bands cube).*1 +:+ ")"))
      end
  end.

(** The requested bands move from the cube to the result, one by one. *)
Definition keep_band (s : btree string (list string) * btree string (list string)) (b : string)
    : btree string (list string) * btree string (list string) :=
  match bt_get b s.1 with
  | Some paths => (bt_remove b s.1, bt_insert b paths s.2)
  | None => s
  end.

Definition strings (l : list Value) : list string := omap as_str l.

Definition eval_filter_bands (args : Args) : result ExecError Value :=
  data ← need "data" "filter_bands: missing `data`" args;
  arr ← ok_or (bt_get "bands" (bt_remove "data" args) ≫= as_array)
    (InvalidGraph "filter_bands: `bands` must be an array of band names");
  let requested := strings arr in
  if bool_decide (requested = []) then Err (InvalidGraph "filter_bands: `bands` array is empty")
  else
    cube ← decode "filter_bands" data;
    _ ← all_available requested cube;
    Ok (to_envelope (with_layers (foldl keep_band (bands cube, []) requested).2
          (Some (Z.of_nat (length requested))) requested cube)).

(** ** rename_labels *)

Fixpoint move_bands (pairs : list (string * string))
    (from renamed : btree string (list string))
    : result ExecError (btree string (list string) * btree string (list string)) :=
  match pairs with
  | [] => Ok (from, renamed)
  | (old, new) :: pairs =>
      _ ← validate_identifier new "rename_labels.target";
      paths ← ok_or (bt_get old from)
        (InvalidGraph ("rename_labels: source band `" +:+ old +:+ "` not found"));
      move_bands pairs (bt_remove old from) (bt_insert new paths renamed)
  end.

(** [entry(k).or_insert(v)] for the bands that were not renamed. *)
Definition forward_band (renamed : btree string (list string)) (e : string * list string)
    : btree string (list string) :=
  match bt_get e.1 renamed with Some _ => renamed | None => bt_insert e.1 e.2 renamed end.

Definition rename_cube (source : option (list string)) (target : list string) (cube : DataCube)
    : result ExecError DataCube :=
  old_keys ←
    match source with
    | Some src =>
        if (length src =? length target)%nat then Ok src
        else Err (InvalidGraph ("rename_labels: source (" +:+ pretty (length src)
               +:+ ") and target (" +:+ pretty (length target) +:+ ") length mismatch"))
    | None =>
        let existing := (bands cube).*1 in
        if (length existing =? length target)%nat then Ok existing
        else Err (InvalidGraph ("rename_labels: cube has " +:+ pretty (length existing)
               +:+ " bands but target has " +:+ pretty (length target)
               +:+ " labels (omit source only for full rename)"))
    end;
  moved ← move_bands (zip old_keys target) (bands cube) [];
  let renamed := foldl forward_band moved.2 moved.1 in
  Ok (with_layers renamed (layers cube) renamed.*1 cube).

Definition eval_rename_labels (args : Args) : result ExecError Value :=
  data ← need "data" "rename_labels: missing `data`" args;
  let args := bt_remove "data" args in
  let dimension := default "bands" (bt_get "dimension" args ≫= as_str) in
  if negb (bool_decide (dimension ∈ ["bands"; "band"])) then
    Err (InvalidGraph ("rename_labels: only `bands` dimension supported (got `" +:+ dimension +:+ "`)"))
  else
    target ← ok_or (bt_get "target" args ≫= as_array)
      (InvalidGraph "rename_labels: `target` must be an array");
    cube ← decode "rename_labels" data;
    cube ← rename_cube (strings <$> (bt_get "source" args ≫= as_array)) (strings target) cube;
    Ok (to_envelope cube).

(** ** add_dimension and drop_dimension *)

Definition added (name : string) (label : Value) (dim_type : string) : Value :=
  Object [("name", JString name); ("label", label); ("type", JString dim_type)].

Definition add_extra (d : Value) (e : btree string Value) : btree string Value :=
  match default (Array []) (bt_get "added_dimensions" e) with
  | Array arr => bt_insert "added_dimensions" (Array (arr ++ [d])) e
  | _ => e
  end.

Definition eval_add_dimension (args : Args) : result ExecError Value :=
  data ← need "data" "add_dimension: missing `data`" args;
  let args := bt_remove "data" args in
  name ← ok_or (bt_get "name" args ≫= as_str) (InvalidGraph "add_dimension: missing `name`");
  let label := default Null (bt_get "label" args) in
  let dim_type := default "other" (bt_get "type" args ≫= as_str) in
  _ ← validate_identifier name "add_dimension.name";
  cube ← decode "add_dimension" data;
  Ok (to_envelope (with_extras (add_extra (added name label dim_type) (extras cube)) cube)).

Definition is_dimension (name : string) (d : Value) : bool :=
  bool_decide (jget "name" d ≫= as_str = Some name).

Definition drop_extra (name : string) (e : btree string Value) : option (btree string Value) :=
  match bt_get "added_dimensions" e with
  | Some (Array arr) =>
      let kept := filter (λ d, is_dimension name d = false) arr in
      if (length kept =? length arr)%nat then None
      else Some (bt_insert "added_dimensions" (Array kept) e)
  | _ => None
  end.

Definition eval_drop_dimension (args : Args) : result ExecError Value :=
  data ← need "data" "drop_dimension: missing `data`" args;
  name ← ok_or (bt_get "name" (bt_remove "data" args) ≫= as_str)
    (InvalidGraph "drop_dimension: missing `name`");
  if bool_decide (name ∈ ["bands"; "band"; "t"; "time"; "x"; "y"; "spatial"]) then
    Err (InvalidGraph ("drop_dimension: cannot drop load-bearing dimension `" +:+ name
      +:+ "` (only metadata dimensions added via add_dimension may be dropped)"))
  else
    cube ← decode "drop_dimension" data;
    e ← ok_or (drop_extra name (extras cube))
      (InvalidGraph ("drop_dimension: dimension `" +:+ name
        +:+ "` not found (only metadata dimensions added via add_dimension can be dropped)"));
    Ok (to_envelope (with_extras e cube)).
End ops.

(** ** Facts on scenes and labels *)

Lemma select_lookup {A} (p : string → bool) dts : ∀ l : list A, length l = length dts →
  omap (λ i, l !! i) (filter (λ e : nat * string, p e.2 = true) (imap pair dts)).*1 =
  (filter (λ e : A * string, p e.2 = true) (zip l dts)).*1.
Proof.
  induction dts as [|d dts IH]; intros [|x l] Hl; try done. injection Hl as Hl.
  assert (imap pair (d :: dts) = (0%nat, d) :: (prod_map S id <$> imap pair dts)) as ->
    by (simpl; f_equal; by rewrite fmap_imap).
  rewrite !filter_cons. cbn [snd].
  assert (omap (λ i, (x :: l) !! i)
      (filter (λ e : nat * string, p e.2 = true) (prod_map S id <$> imap pair dts)).*1 =
    (filter (λ e : A * string, p e.2 = true) (zip l dts)).*1) as E.
  { rewrite <- (IH l Hl). generalize (imap (@pair nat string) dts) as m. clear.
    induction m as [|[i s] m IH]; [done|]. rewrite fmap_cons, !filter_cons. simpl.
    destruct (decide (p s = true)); [|apply IH]. simpl.
    destruct (l !! i); [f_equal|]; exact IH. }
  simpl zip. rewrite filter_cons. cbn [snd]. destruct (decide (p d = true)); [|exact E].
  simpl. f_equal. exact E.
Qed.

Lemma select_times (p : string → bool) dts :
  omap (λ i, dts !! i) (filter (λ e : nat * string, p e.2 = true) (imap pair dts)).*1 =
  filter (λ d, p d = true) dts.
Proof.
  rewrite select_lookup by done. induction dts as [|d dts IH]; [done|]. simpl zip.
  rewrite !filter_cons. cbn [snd]. destruct (decide (p d = true)); [|exact IH].
  rewrite fmap_cons. f_equal. exact IH.
Qed.

Lemma keep_indices_nil start end_ dts :
  keep_indices start end_ dts = [] ↔ filter (λ d, inside start end_ d = true) dts = [].
Proof.
  rewrite <- select_times. fold (keep_indices start end_ dts). split; [by intros ->|].
  intros H. destruct (keep_indices start end_ dts) as [|i l] eqn:E; [done|]. exfalso.
  assert (i ∈ keep_indices start end_ dts) as Hi by (rewrite E; by left).
  apply list_elem_of_fmap in Hi as ([j d] & -> & [_ Hj]%list_elem_of_filter).
  apply elem_of_lookup_imap in Hj as (j' & d' & [= -> ->] & Hd). simpl in *. by rewrite Hd in H.
Qed.

Lemma bt_get_fmap {A B} (f : A → B) k (t : btree string A) :
  bt_get k (prod_map id f <$> t) = f <$> bt_get k t.
Proof. induction t as [|[k' v] t IH]; simpl; [done|]. by destruct (cmp k k'). Qed.

Lemma bt_wf_fmap {A B} (f : A → B) (t : btree string A) : bt_wf t → bt_wf (prod_map id f <$> t).
Proof.
  induction 1 as [|e t Hwf IH Hall]; [constructor|]. rewrite fmap_cons. constructor; [done|].
  rewrite Forall_fmap. eapply Forall_impl; [exact Hall|]. by intros [k v].
Qed.

Lemma with_times_wf b dts c : bt_wf b → cube_wf c → cube_wf (with_times b dts c).
Proof. intros Hb []. by split. Qed.
Lemma with_layers_wf b n names c : bt_wf b → cube_wf c → cube_wf (with_layers b n names c).
Proof. intros Hb []. by split. Qed.

(** Selecting by the text of an element is selecting by what the text means. *)
Section selection.
Context {A : Type} (text : A → string) (p : A → bool) (start end_ : option string).

Lemma filter_text xs : Forall (λ x, inside start end_ (text x) = p x) xs →
  filter (λ d, inside start end_ d = true) (text <$> xs) = text <$> filter (λ x, p x = true) xs.
Proof.
  induction 1 as [|x xs Hx _ IH]; [done|]. rewrite fmap_cons, !filter_cons, Hx.
  destruct (decide (p x = true)); [|done]. rewrite fmap_cons. by f_equal.
Qed.

Lemma prune_spec xs paths : Forall (λ x, inside start end_ (text x) = p x) xs →
  let keep := keep_indices start end_ (text <$> xs) in
  let kept := filter (λ x, p x = true) xs in
  if (length paths =? length xs)%nat
  then length (prune (length xs) keep paths) = length kept ∧
       zip (prune (length xs) keep paths) kept =
         filter (λ e : string * A, p e.2 = true) (zip paths xs)
  else prune (length xs) keep paths = paths.
Proof.
  intros Hp. cbv zeta. unfold prune, keep_indices.
  destruct (Nat.eqb_spec (length paths) (length xs)) as [E|]; [|done].
  rewrite (select_lookup (inside start end_)) by (by rewrite length_fmap).
  assert ((filter (λ e : string * string, inside start end_ e.2 = true) (zip paths (text <$> xs))).*1 =
      (filter (λ e : string * A, p e.2 = true) (zip paths xs)).*1 ∧
    filter (λ x, p x = true) xs = (filter (λ e : string * A, p e.2 = true) (zip paths xs)).*2)
    as [-> ->].
  { revert paths E. induction Hp as [|x xs Hx _ IH]; intros [|y paths]; try done. intros [= E].
    rewrite fmap_cons. simpl zip. rewrite !filter_cons. cbn [snd]. rewrite Hx.
    destruct (IH paths E) as [E1 E2]. destruct (decide _); [|done].
    rewrite !fmap_cons. cbn [fst snd]. by rewrite E1, E2. }
  split; [by rewrite !length_fmap|by rewrite zip_fst_snd].
Qed.
End selection.

(** The comparison of texts finds the moments inside the extent. *)
Lemma after_start b x : bound_ok b → moment_ok x → 
  digits x = 0%nat ∨ start_second b ≠ Some (sec x) →
  match (λ s, normalise_iso s true) <$> as_str (bound_value b) with
  | Some s => str_ge (moment_text x) s | None => true end = starts_by b x.
Proof.
  intros Hb Hx Hc. assert (∀ a, 0 ≤ a < TIME_LIMIT → digits x = 0%nat ∨ a ≠ sec x →
    str_ge (moment_text x) (at_second a "Z") = not_before a x) as H.
  { intros a Ha Hne. unfold str_ge. rewrite moment_cmp, not_before_sec by done.
    destruct (Z.compare_spec (sec x) a) as [E|E|E], (Z.leb_spec a (sec x)); try done; try lia.
    destruct Hne as [-> |Hne]; [done|congruence]. }
  destruct b as [v|a|n]; simpl in *.
  - by rewrite Hb.
  - rewrite iso8601_at, normalise_at_second by done. apply H; [done|]. destruct Hc as [|Hc]; [by left|right; congruence].
  - rewrite normalise_day by done. rewrite Z.add_0_r. unfold TIME_LIMIT in H.
    apply H; [lia|]. destruct Hc as [|Hc]; [by left|right; congruence].
Qed.

Lemma before_end b x : bound_ok b → moment_ok x →
  digits x = 0%nat ∨ end_second b ≠ Some (sec x) →
  match (λ s, normalise_iso s false) <$> as_str (bound_value b) with
  | Some s => str_le (moment_text x) s | None => true end = ends_by b x.
Proof.
  intros Hb Hx Hc. assert (∀ a, 0 ≤ a < TIME_LIMIT →
    str_le (moment_text x) (at_second a "Z") = (sec x <=? a)) as H.
  { intros a Ha. unfold str_le. rewrite moment_cmp by done.
    destruct (Z.compare_spec (sec x) a) as [E|E|E], (Z.leb_spec (sec x) a); try done; try lia.
    by destruct (digits x). }
  destruct b as [v|a|n]; simpl in *.
  - by rewrite Hb.
  - rewrite iso8601_at, normalise_at_second, H by done. rewrite not_after_sec; [done..|].
    destruct Hc as [|Hc]; [by left|right; congruence].
  - rewrite normalise_day by done. unfold TIME_LIMIT in H. rewrite H by lia.
    rewrite not_before_sec by done.
    destruct (Z.leb_spec (sec x) (86400 * n + 86399)), (Z.leb_spec (86400 * (n + 1)) (sec x));
      try done; lia.
Qed.

Lemma inside_extent start end_ x : bound_ok start → bound_ok end_ → moment_ok x →
  clear_of start end_ x →
  inside ((λ s, normalise_iso s true) <$> as_str (bound_value start))
         ((λ s, normalise_iso s false) <$> as_str (bound_value end_)) (moment_text x) =
  in_extent start end_ x.
Proof.
  intros Hs He Hx Hc. unfold inside, in_extent.
  rewrite after_start, before_end; [done|done|done|..|done|done|]; destruct Hc as [|[]]; auto.
Qed.

Section labels.
Context `{DebugText}.

Definition label_ok (s : string) : Prop := validate_identifier s "rename_labels.target" = Ok tt.

Lemma move_bands_spec pairs : ∀ from renamed from' renamed',
  bt_wf from → bt_wf renamed → move_bands pairs from renamed = Ok (from', renamed') →
  bt_wf from' ∧ bt_wf renamed' ∧ NoDup pairs.*1 ∧ Forall label_ok pairs.*2 ∧
  (∀ k, bt_get k from' = if decide (k ∈ pairs.*1) then None else bt_get k from) ∧
  (∀ k, k ∉ pairs.*2 → bt_get k renamed' = bt_get k renamed) ∧
  (NoDup pairs.*2 → ∀ old new, (old, new) ∈ pairs →
     is_Some (bt_get old from) ∧ bt_get new renamed' = bt_get old from).
Proof.
  induction pairs as [|[old new] pairs IH]; intros from renamed from' renamed' Hf Hr Hm; simpl in Hm.
  { injection Hm as <- <-. split_and!; try done; try apply NoDup_nil_2.
    by intros _ ?? ?%not_elem_of_nil. }
  destruct (validate_identifier new _) as [[]|] eqn:Hv; [|done]. cbn [mbind result_bind] in Hm.
  destruct (bt_get old from) as [paths|] eqn:Ho; [|done]. cbn [ok_or mbind result_bind] in Hm.
  destruct (IH _ _ _ _ (bt_wf_remove old from Hf) (bt_wf_insert new paths renamed Hr) Hm)
    as (Hf' & Hr' & Hnd & Hall & Hfrom & Hkeep & Hmove).
  assert (∀ k, bt_get k (bt_remove old from) = if decide (k = old) then None else bt_get k from) as Hrem.
  { intros k. rewrite bt_get_remove by done. destruct (decide (k = old)) as [->|Hne].
    - by rewrite cmp_refl.
    - destruct (cmp k old) eqn:E; [|done..]. by apply cmp_eq in E. }
  assert (∀ old' new', (old', new') ∈ pairs → NoDup pairs.*2 → old' ≠ old) as Hother.
  { intros old' new' Hin Hn2. destruct (Hmove Hn2 _ _ Hin) as [[p Hp] _]. rewrite Hrem in Hp.
    by destruct (decide (old' = old)). }
  assert (old ∉ pairs.*1) as Hold.
  { intros Hin. clear -Hm Hin Hf. assert (bt_get old (bt_remove old from) = None) as Hn
      by (rewrite bt_get_remove by done; by rewrite cmp_refl).
    assert (bt_wf (bt_remove old from)) as Hw by by apply bt_wf_remove.
    revert Hm Hn Hw. generalize (bt_remove old from) as f, (bt_insert new paths renamed) as r.
    induction pairs as [|[o n] pairs IH]; intros f r Hm Hn Hw; [by apply not_elem_of_nil in Hin|].
    simpl in Hm. destruct (validate_identifier n _) as [[]|]; [|done]. cbn [mbind result_bind] in Hm.
    destruct (bt_get o f) as [q|] eqn:Eq; [|done]. cbn [ok_or mbind result_bind] in Hm.
    simpl in Hin. apply elem_of_cons in Hin as [->|Hin]; [congruence|].
    apply (IH Hin _ _ Hm); [|by apply bt_wf_remove]. rewrite bt_get_remove by done.
    by destruct (cmp old o). }
  split_and!; [done|done|..]; simpl.
  - by constructor.
  - by constructor.
  - intros k. rewrite Hfrom, Hrem.
    destruct (decide (k ∈ pairs.*1)) as [Hk|Hk]; [by rewrite decide_True by by right|].
    destruct (decide (k = old)) as [->|Hne]; [by rewrite decide_True by by left|].
    rewrite decide_False; [done|]. by intros [?|?]%elem_of_cons.
  - intros k [Hk1 Hk2]%not_elem_of_cons. rewrite Hkeep by done. by apply bt_get_insert_ne.
  - intros [Hn1 Hn2]%NoDup_cons old' new' [[= -> ->]|Hin]%elem_of_cons.
    + rewrite Hkeep by done. rewrite bt_get_insert_eq by done. by rewrite Ho.
    + destruct (Hmove Hn2 _ _ Hin) as [Hs ->]. rewrite Hrem in Hs |- *.
      by rewrite decide_False in Hs |- * by by eapply Hother.
Qed.

Lemma move_bands_ok pairs : ∀ from renamed, bt_wf from → NoDup pairs.*1 → Forall label_ok pairs.*2 →
  (∀ k, k ∈ pairs.*1 → is_Some (bt_get k from)) → ∃ r, move_bands pairs from renamed = Ok r.
Proof.
  induction pairs as [|[old new] pairs IH]; intros from renamed Hf Hnd Hall Hs; [by eexists|].
  simpl in *. apply NoDup_cons in Hnd as [Ho Hnd]. apply Forall_cons in Hall as [-> Hall].
  destruct (Hs old) as [p ->]; [by left|]. cbn [ok_or mbind result_bind].
  apply IH; [by apply bt_wf_remove|done|done|]. intros k Hk. rewrite bt_get_remove by done.
  destruct (cmp k old) eqn:E; [apply cmp_eq in E as ->; done|..]; apply Hs; by right.
Qed.

Lemma forward_spec from : ∀ renamed, bt_wf from → bt_wf renamed →
  bt_wf (foldl forward_band renamed from) ∧
  ∀ k, bt_get k (foldl forward_band renamed from) =
    match bt_get k renamed with Some v => Some v | None => bt_get k from end.
Proof.
  induction from as [|[k0 v0] from IH]; intros renamed Hf Hr.
  { split; [done|]. intros k. simpl. by destruct (bt_get k renamed). }
  apply bt_wf_tail in Hf as [Hf Hall]. simpl.
  assert (bt_wf (forward_band renamed (k0, v0))) as Hwf.
  { unfold forward_band. simpl. destruct (bt_get k0 renamed); [done|by apply bt_wf_insert]. }
  destruct (IH _ Hf Hwf) as [H1 H2]. split; [done|]. intros k. rewrite H2. unfold forward_band. simpl.
  destruct (decide (k = k0)) as [->|Hne].
  - rewrite cmp_refl. destruct (bt_get k0 renamed) as [v|] eqn:E; [by rewrite E|].
    by rewrite bt_get_insert_eq.
  - assert (bt_get k (match bt_get k0 renamed with Some _ => renamed | None => bt_insert k0 v0 renamed end)
      = bt_get k renamed) as ->.
    { destruct (bt_get k0 renamed); [done|]. by apply bt_get_insert_ne. }
    destruct (bt_get k renamed); [done|].
    destruct (cmp k k0) eqn:E; [by apply cmp_eq in E| |done].
    apply bt_get_below. eapply Forall_impl; [exact Hall|]. intros [k1 v1] Hlt. simpl in *.
    by eapply cmp_trans.
Qed.
End labels.

(** ** The box around geometries *)

(** The positions of a geometry, in the order of the walk. *)
Fixpoint positions (v : Value) : list (f64 * f64) :=
  match v with
  | Array arr =>
      match position arr with
      | Some p => [p]
      | None => concat (positions <$> arr)
      end
  | Object m => concat ((λ e : string * Value, positions e.2) <$> m)
  | _ => []
  end.

Definition add_points (b : Bounds) (l : list (f64 * f64)) : Bounds :=
  foldl (λ b p, add_point p.1 p.2 b) b l.

Lemma walk_positions v : ∀ b, walk v b = add_points b (positions v).
Proof.
  unfold add_points. induction v as [|?|?|?|arr IH|m IH] using Value_ind'; intros b0; try done.
  - cbn [walk positions]. destruct (position arr) as [[x y]|]; [done|].
    revert b0. induction IH as [|v arr Hv _ IH]; intros b0; [done|].
    rewrite fmap_cons. cbn [concat]. rewrite foldl_app, <- Hv. apply IH.
  - cbn [walk positions]. revert b0. induction IH as [|e m He _ IH]; intros b0; [done|].
    rewrite fmap_cons. cbn [concat]. rewrite foldl_app, <- He. apply IH.
Qed.

Lemma position_finite arr x y : numbers_ok (Array arr) = true → position arr = Some (x, y) →
  is_finite x = true ∧ is_finite y = true.
Proof.
  intros Hn Hp. destruct arr as [|a [|b arr]]; [done|by destruct a|].
  apply numbers_ok_elems in Hn. apply Forall_cons in Hn as [Ha [Hb _]%Forall_cons].
  destruct a as [| |d| | |]; try done. destruct b as [| |c| | |]; try done.
  unfold position in Hp. apply bind_Some in Hp as (x' & Hx & (y' & Hy & [= <- <-])%bind_Some).
  split; [by apply (as_f64_finite (Number d))|by apply (as_f64_finite (Number c))].
Qed.

Lemma positions_finite v : numbers_ok v = true →
  Forall (λ p : f64 * f64, is_finite p.1 = true ∧ is_finite p.2 = true) (positions v).
Proof.
  induction v as [|?|?|?|arr IH|m IH] using Value_ind'; intros Hn; try constructor.
  - cbn [positions]. destruct (position arr) as [[x y]|] eqn:Hp.
    + constructor; [by apply (position_finite arr)|constructor].
    + apply numbers_ok_elems in Hn. clear Hp. induction IH as [|v arr Hv _ IH]; [constructor|].
      apply Forall_cons in Hn as [H1 H2]. rewrite fmap_cons. cbn [concat]. apply Forall_app. auto.
  - cbn [positions]. simpl in Hn. induction IH as [|e m He _ IH]; [constructor|].
    simpl in Hn. apply andb_prop in Hn as [H1 H2]. rewrite fmap_cons. cbn [concat].
    apply Forall_app. auto.
Qed.

Definition le (x y : f64) : Prop := f64_leb x y = true.

Lemma le_key x y : is_nan x = false → is_nan y = false →
  le x y ↔ cmp (order_key x) (order_key y) ≠ Gt.
Proof.
  intros Hx Hy. unfold le, f64_leb, SpecFloat.SFleb. rewrite SFcompare_key by done.
  by destruct (cmp _ _).
Qed.

Lemma le_refl x : is_nan x = false → le x x.
Proof. intros Hx. apply le_key; [done..|]. by rewrite cmp_refl. Qed.

Lemma le_trans x y z : is_nan x = false → is_nan y = false → is_nan z = false →
  le x y → le y z → le x z.
Proof.
  intros Hx Hy Hz. rewrite !le_key by done. intros H1 H2.
  destruct (cmp (order_key x) (order_key y)) eqn:E1; [|destruct (cmp (order_key y) (order_key z)) eqn:E2|done].
  - apply cmp_eq in E1 as ->. done.
  - apply cmp_eq in E2 as <-. by rewrite E1.
  - by rewrite (cmp_trans _ _ _ E1 E2).
  - done.
Qed.

Lemma f64_min_spec x y : is_nan x = false → is_nan y = false →
  le (f64_min x y) x ∧ le (f64_min x y) y ∧ (f64_min x y = x ∨ f64_min x y = y).
Proof.
  intros Hx Hy. unfold f64_min. rewrite Hx, Hy. destruct (f64_ltb y x) eqn:E.
  - split; [|split; [by apply le_refl|by right]]. apply le_key; [done..|].
    unfold f64_ltb, SpecFloat.SFltb in E. rewrite SFcompare_key in E by done. by destruct (cmp _ _).
  - split; [by apply le_refl|split; [|by left]]. by apply f64_nlt_le.
Qed.

Lemma f64_max_spec x y : is_nan x = false → is_nan y = false →
  le x (f64_max x y) ∧ le y (f64_max x y) ∧ (f64_max x y = x ∨ f64_max x y = y).
Proof.
  intros Hx Hy. unfold f64_max. rewrite Hx, Hy. destruct (f64_ltb x y) eqn:E.
  - split; [|split; [by apply le_refl|by right]]. apply le_key; [done..|].
    unfold f64_ltb, SpecFloat.SFltb in E. rewrite SFcompare_key in E by done. by destruct (cmp _ _).
  - split; [by apply le_refl|split; [|by left]]. by apply f64_nlt_le.
Qed.

(** [m] is the fold of a selection [f] over [l] from [m0]: a bound of [l] that is
    [m0] or one of its elements. *)
Lemma fold_bound (f : f64 → f64 → f64) (R : f64 → f64 → Prop) l : ∀ m0,
  (∀ x, is_nan x = false → R x x) →
  (∀ x y z, is_nan x = false → is_nan y = false → is_nan z = false → R x y → R y z → R x z) →
  (∀ x y, is_nan x = false → is_nan y = false → R (f x y) x ∧ R (f x y) y ∧ (f x y = x ∨ f x y = y)) →
  is_nan m0 = false → Forall (λ x, is_nan x = false) l →
  let m := foldl f m0 l in
  is_nan m = false ∧ R m m0 ∧ Forall (R m) l ∧ (m = m0 ∨ m ∈ l).
Proof.
  intros m0 Hrefl Htrans Hf Hm0 Hl. revert m0 Hm0.
  induction Hl as [|x l Hx Hl IH]; intros m0 Hm0; simpl.
  - split_and!; [done|by apply Hrefl|constructor|by left].
  - destruct (Hf m0 x Hm0 Hx) as (H1 & H2 & H3).
    assert (is_nan (f m0 x) = false) as Hn by (by destruct H3 as [-> | ->]).
    destruct (IH _ Hn) as (Hm & Hr & Hall & Hin). split_and!; [done| | |].
    + by apply (Htrans _ (f m0 x)).
    + constructor; [by apply (Htrans _ (f m0 x))|done].
    + rewrite elem_of_cons. destruct Hin as [Hin|Hin]; [|by right; right].
      rewrite Hin. destruct H3; auto.
Qed.

Lemma add_points_fold l : ∀ b, add_points b l =
  mkBounds (foldl f64_min (b_min_x b) l.*1) (foldl f64_min (b_min_y b) l.*2)
    (foldl f64_max (b_max_x b) l.*1) (foldl f64_max (b_max_y b) l.*2)
    (match l with [] => found b | _ => true end).
Proof.
  induction l as [|[x y] l IH]; intros b; simpl; [by destruct b|].
  unfold add_points in *. simpl. rewrite IH. simpl. by destruct l.
Qed.

(** ** Properties *)

Section theorems.
Context (serde_error : Value → string).

(** C11: filter_temporal keeps exactly the scenes acquired inside the extent, bounds
    included, and keeps the cube aligned.  Scenes are moments of 1970 to 9999 written
    as RFC 3339 UTC timestamps, with or without a fraction of a second; a bound is
    open, a timestamp of a whole second, or a date that stands for its whole day; and
    no moment with a fraction falls in the very second of a bound, where the text
    order fails ([fraction_before_second]).  Then the datetimes left are those of the
    scenes inside, in order; the k-th path of every band that follows the time axis
    and the k-th datetime still come from the same scene; bands off the time axis
    and everything else are untouched; and the scene count is the number of kept
    scenes.  With no scene inside it is an error, never an empty cube. *)
Theorem filter_temporal_aligned args data start end_ c (scenes : list Moment) :
  bt_wf args → bt_get "data" args = Some data →
  bt_get "extent" args = Some (Array [bound_value start; bound_value end_]) →
  bound_ok start → bound_ok end_ →
  Forall moment_ok scenes → Forall (clear_of start end_) scenes →
  numbers_ok data = true → from_envelope_owned serde_error data = Ok c →
  datetimes c = Some (moment_text <$> scenes) →
  let kept := filter (λ x, in_extent start end_ x = true) scenes in
  if bool_decide (kept = []) then
    eval_filter_temporal serde_error args =
      Err (ExecBackend "filter_temporal: no scenes fall within the requested extent")
  else ∃ v b', eval_filter_temporal serde_error args = Ok v ∧
    from_envelope_owned serde_error v = Ok (with_times b' (moment_text <$> kept) c) ∧
    ∀ k, match bt_get k (bands c), bt_get k b' with
         | Some paths, Some paths' =>
             if (length paths =? length scenes)%nat
             then length paths' = length kept ∧
                  zip paths' kept =
                    filter (λ e : string * Moment, in_extent start end_ e.2 = true) (zip paths scenes)
             else paths' = paths
         | None, None => True
         | _, _ => False
         end.
Proof.
  intros Hwf Hdata Hext Hs He Hok Hclear Hnum Hc Hdts kept.
  set (s := (λ s, normalise_iso s true) <$> as_str (bound_value start)).
  set (e := (λ s, normalise_iso s false) <$> as_str (bound_value end_)).
  assert (Forall (λ x, inside s e (moment_text x) = in_extent start end_ x) scenes) as Hin.
  { apply Forall_forall. intros x Hx. rewrite Forall_forall in Hok, Hclear.
    by apply inside_extent; [..|apply Hok|apply Hclear]. }
  unfold eval_filter_temporal, need. rewrite Hdata. cbn [ok_or mbind result_bind].
  rewrite bt_get_remove_ne by done. rewrite Hext. cbn [mbind option_bind as_array ok_or result_bind].
  fold s e. unfold decode. rewrite Hc. cbn [map_err mbind result_bind].
  unfold filter_cube. rewrite Hdts. cbn [ok_or mbind result_bind]. cbv zeta.
  set (keep := keep_indices s e (moment_text <$> scenes)).
  assert (omap (λ i, (moment_text <$> scenes) !! i) keep = moment_text <$> kept) as Ht.
  { unfold keep, keep_indices. rewrite select_times. by apply filter_text. }
  assert (keep = [] ↔ kept = []) as Hnil.
  { unfold keep. rewrite keep_indices_nil, (filter_text _ _ _ _ _ Hin).
    fold kept. split; [apply fmap_nil_inv|intros E; by rewrite E]. }
  rewrite (bool_decide_ext _ _ Hnil). case_bool_decide as Hk; [done|]. cbn [mbind result_bind].
  pose proof (decoded_wf _ _ _ Hnum Hc) as Hcwf. rewrite length_fmap, Ht.
  eexists _, (prod_map id (prune (length scenes) keep) <$> bands c). split; [done|]. split.
  - apply decode_encoded, with_times_wf; [|done]. apply bt_wf_fmap, (wf_bands c Hcwf).
  - intros k. rewrite bt_get_fmap. destruct (bt_get k (bands c)) as [paths|]; [|done]. simpl.
    by apply (prune_spec moment_text).
Qed.

(** Renaming labels moves bands and loses none: when the new labels differ
    from each other and from the bands that keep their name, every renamed band's
    paths are found under its new label, every other band where it was; and
    renaming the new labels back to the old ones restores the bands. *)
Theorem rename_labels_moves `{DebugText} source target c c' :
  let olds := default (bands c).*1 source in
  cube_wf c → NoDup target → (∀ t, t ∈ target → t ∈ olds ∨ bt_get t (bands c) = None) →
  rename_cube source target c = Ok c' →
  cube_wf c' ∧ length olds = length target ∧
  (∀ i old new, olds !! i = Some old → target !! i = Some new →
     is_Some (bt_get old (bands c)) ∧ bt_get new (bands c') = bt_get old (bands c)) ∧
  (∀ k, k ∉ olds → k ∉ target → bt_get k (bands c') = bt_get k (bands c)) ∧
  (Forall label_ok olds → ∃ c'', rename_cube (Some target) olds c' = Ok c'' ∧ bands c'' = bands c).
Proof.
  intros olds Hwf Hnd Hfresh Hr. unfold rename_cube in Hr.
  assert (length olds = length target ∧
    (moved ← move_bands (zip olds target) (bands c) [];
     let renamed := foldl forward_band moved.2 moved.1 in
     Ok (with_layers renamed (layers c) renamed.*1 c)) = Ok c') as [Hlen Hm].
  { destruct source as [src|]; simpl in olds; subst olds;
      [destruct (Nat.eqb_spec (length src) (length target))
      |destruct (Nat.eqb_spec (length (bands c).*1) (length target))]; done. }
  clear Hr. destruct (move_bands _ _ _) as [[from' renamed']|] eqn:Hmv; [|done].
  cbn [mbind result_bind fst snd] in Hm. injection Hm as <-.
  destruct (move_bands_spec _ _ _ _ _ (wf_bands c Hwf) bt_wf_nil Hmv)
    as (Hf' & Hr' & Hn1 & Hv & Hfrom & Hkeep & Hmove).
  rewrite fst_zip in Hn1, Hfrom by lia. rewrite snd_zip in Hv, Hkeep, Hmove by lia.
  destruct (forward_spec from' renamed' Hf' Hr') as [Hbwf Hget].
  set (b' := foldl forward_band renamed' from') in *.
  assert (∀ i old new, olds !! i = Some old → target !! i = Some new →
    is_Some (bt_get old (bands c)) ∧ bt_get new b' = bt_get old (bands c)) as Hmoved.
  { intros i old new Ho Hn. destruct (Hmove Hnd old new) as [[p Hp] E].
    { apply list_elem_of_lookup. exists i. by apply lookup_zip_Some. }
    split; [by eexists|]. by rewrite Hget, E, Hp. }
  assert (∀ k, k ∉ target → bt_get k b' = if decide (k ∈ olds) then None else bt_get k (bands c)) as Hrest.
  { intros k Hk. rewrite Hget, Hkeep by done. by rewrite Hfrom. }
  split; [by apply with_layers_wf|]. split; [done|]. split; [exact Hmoved|].
  split; [intros k Ho Hk; cbn [bands with_layers]; rewrite Hrest by done; by rewrite decide_False|].
  intros Hok. unfold rename_cube. rewrite <- Hlen, Nat.eqb_refl. cbn [mbind result_bind].
  cbn [bands with_layers].
  destruct (move_bands_ok (zip target olds) b' []) as [[f r] Hback]; [done|by rewrite fst_zip by lia|
    by rewrite snd_zip by lia| |].
  { rewrite fst_zip by lia. intros k [i Hi]%list_elem_of_lookup. apply lookup_lt_Some in Hi as Hlt.
    destruct (lookup_lt_is_Some_2 olds i) as [old Ho]; [lia|]. destruct (Hmoved _ _ _ Ho Hi) as [Hs E].
    by rewrite E. }
  rewrite Hback. eexists. split; [reflexivity|]. cbn [bands with_layers fst snd].
  destruct (move_bands_spec _ _ _ _ _ Hbwf bt_wf_nil Hback) as (Hf2 & Hr2 & _ & _ & Hfrom2 & Hkeep2 & Hmove2).
  rewrite fst_zip in Hfrom2 by lia. rewrite snd_zip in Hkeep2, Hmove2 by lia.
  destruct (forward_spec f r Hf2 Hr2) as [Hb2 Hget2].
  apply bt_ext; [done|exact (wf_bands c Hwf)|]. intros k. rewrite Hget2.
  destruct (decide (k ∈ olds)) as [[i Hi]%list_elem_of_lookup|Hk].
  - apply lookup_lt_Some in Hi as Hlt. destruct (lookup_lt_is_Some_2 target i) as [new Hn]; [lia|].
    destruct (Hmoved _ _ _ Hi Hn) as [[p Hp] E].
    destruct (Hmove2 Hn1 new k) as [_ E2].
    { apply list_elem_of_lookup. exists i. by apply lookup_zip_Some. }
    by rewrite E2, E, Hp.
  - rewrite Hkeep2 by done. simpl. rewrite Hfrom2. destruct (decide (k ∈ target)) as [Ht|Ht].
    + by destruct (Hfresh k Ht).
    + rewrite Hrest by done. by rewrite decide_False.
Qed.

(** The box filter_spatial crops to is the least one around the geometry:
    every position of the GeoJSON value lies in it, and each of its sides passes
    through one of them. *)
Theorem geojson_bbox_least v w s e n : numbers_ok v = true →
  (jget "west" v ≫= as_f64 = None) → geojson_bbox v = Some [w; s; e; n] →
  (∀ x y, (x, y) ∈ positions v → le w x ∧ le x e ∧ le s y ∧ le y n) ∧
  w ∈ (positions v).*1 ∧ e ∈ (positions v).*1 ∧ s ∈ (positions v).*2 ∧ n ∈ (positions v).*2.
Proof.
  intros Hn Hw Hb. unfold geojson_bbox in Hb. rewrite Hw, walk_positions, add_points_fold in Hb.
  assert (Forall (λ x, is_nan x = false) (positions v).*1 ∧
          Forall (λ x, is_nan x = false) (positions v).*2) as [H1 H2].
  { pose proof (positions_finite v Hn) as Hf. split; apply Forall_fmap; eapply Forall_impl;
      try exact Hf; intros p [? ?]; by apply finite_not_nan. }
  cbn [b_min_x b_min_y b_max_x b_max_y found no_bounds] in Hb.
  destruct (positions v) as [|p l] eqn:Hp; [done|].
  pose proof (λ l, fold_bound f64_min le l f64_infinity le_refl le_trans f64_min_spec eq_refl) as Hmin.
  assert (∀ l, Forall (λ x, is_nan x = false) l → let m := foldl f64_max f64_neg_infinity l in
    is_nan m = false ∧ le f64_neg_infinity m ∧ Forall (λ x, le x m) l ∧ (m = f64_neg_infinity ∨ m ∈ l)) as Hmax.
  { intros l0 Hl0. apply (fold_bound f64_max (λ m x, le x m)); [exact le_refl| |exact f64_max_spec|done|done].
    intros x y z Hx Hy Hz Hyx Hzy. by apply (le_trans _ y). }
  destruct (Hmin _ H1) as (_ & _ & Hwx & Hwin), (Hmin _ H2) as (_ & _ & Hsy & Hsin).
  destruct (Hmax _ H1) as (_ & _ & Hex & Hein), (Hmax _ H2) as (_ & _ & Hny & Hnin).
  set (w' := foldl f64_min f64_infinity (p :: l).*1) in *.
  set (s' := foldl f64_min f64_infinity (p :: l).*2) in *.
  set (e' := foldl f64_max f64_neg_infinity (p :: l).*1) in *.
  set (n' := foldl f64_max f64_neg_infinity (p :: l).*2) in *.
  cbn [andb] in Hb. destruct (f64_ltb w' e') eqn:Hwe; [|done]. cbn [andb] in Hb.
  destruct (f64_ltb s' n') eqn:Hsn; [|done]. injection Hb as <- <- <- <-.
  assert (∀ y, f64_ltb f64_infinity y = false) as Hinf by (intros [[]|[]| |[]]; done).
  assert (∀ y, f64_ltb y f64_neg_infinity = false) as Hninf by (intros [[]|[]| |[]]; done).
  rewrite Forall_forall in Hwx, Hsy, Hex, Hny.
  split; [|split_and!].
  - intros x y Hin. pose proof (list_elem_of_fmap_2 fst _ _ Hin) as Hx.
    pose proof (list_elem_of_fmap_2 snd _ _ Hin) as Hy. auto.
  - destruct Hwin as [E|]; [|done]. by rewrite E, Hinf in Hwe.
  - destruct Hein as [E|]; [|done]. by rewrite E, Hninf in Hwe.
  - destruct Hsin as [E|]; [|done]. by rewrite E, Hinf in Hsn.
  - destruct Hnin as [E|]; [|done]. by rewrite E, Hninf in Hsn.
Qed.
End theorems.

(** ** Examples *)


(** Two scenes with fractions of a second, of 2024-06-01 and 2024-06-02. *)
Definition demo_scenes : list Moment := [mkMoment 1717238791 3 24; mkMoment 1717325189 3 24].
Definition demo_times_cube : DataCube :=
  with_times (bands demo_cube) ["2024-06-01T10:46:31.024Z"; "2024-06-02T10:46:29.024Z"] demo_cube.
Definition demo_times_args : Args :=
  [("data", to_envelope demo_times_cube); ("extent", Array [JString "2024-06-02"; Null])].

Lemma filter_temporal_aligned_witness : ∃ v b',
  eval_filter_temporal (λ _, "") demo_times_args = Ok v ∧
  from_envelope_owned (λ _, "") v =
    Ok (with_times b' ["2024-06-02T10:46:29.024Z"] demo_times_cube) ∧
  b' = [("B04", ["/tmp/r1.tif"]); ("SCL", ["/tmp/s1.tif"])].
Proof.
  destruct (filter_temporal_aligned (λ _, "") demo_times_args (to_envelope demo_times_cube)
    (Day 19876) (Unbounded Null) demo_times_cube demo_scenes) as (v & b' & Hv & Hc & _).
  - by repeat constructor.
  - reflexivity.
  - vm_compute. reflexivity.
  - vm_compute. split; [discriminate|reflexivity].
  - reflexivity.
  - repeat (constructor; [by vm_compute|]). constructor.
  - repeat (constructor; [right; split; vm_compute; discriminate|]). constructor.
  - vm_compute. reflexivity.
  - vm_compute. reflexivity.
  - vm_compute. reflexivity.
  - exists v, b'. split; [exact Hv|]. split; [exact Hc|].
    vm_compute in Hv. injection Hv as <-. vm_compute in Hc. by injection Hc as <-.
Defined.

(** A fraction of a second sorts before the same second without one, so a scene
    acquired after the start of the extent can be left out. *)
Example fraction_before_second :
  inside (Some "2024-06-01T10:00:00Z") None "2024-06-01T10:00:00.500Z" = false.
Proof. reflexivity. Qed.

Section rename_demo.
Local Instance plain_debug : DebugText :=
  {| debug_char := λ c, c; debug_strings := λ _, ""; debug_f64s := λ _, "" |}.

Definition renamed_demo : DataCube :=
  match rename_cube (Some ["B04"]) ["red"] demo_cube with Ok c => c | Err _ => demo_cube end.

Lemma rename_labels_moves_witness :
  cube_wf renamed_demo ∧ bands renamed_demo =
    [("SCL", ["/tmp/s0.tif"; "/tmp/s1.tif"]); ("red", ["/tmp/r0.tif"; "/tmp/r1.tif"])] ∧
  ∃ c'', rename_cube (Some ["red"]) ["B04"] renamed_demo = Ok c'' ∧ bands c'' = bands demo_cube.
Proof.
  destruct (rename_labels_moves (Some ["B04"]) ["red"] demo_cube renamed_demo)
    as (Hwf & _ & _ & _ & Hback).
  - exact demo_cube_wf.
  - apply (bool_decide_unpack _). vm_compute. exact I.
  - intros t ->%list_elem_of_singleton. right. reflexivity.
  - vm_compute. reflexivity.
  - split; [exact Hwf|]. split; [vm_compute; reflexivity|]. apply Hback.
    constructor; [reflexivity|constructor].
Defined.

(** Renaming onto the label of a band that stays replaces that band. *)
Example rename_drops_a_band :
  bands <$> (match rename_cube (Some ["B04"]) ["SCL"] demo_cube with Ok c => Some c | Err _ => None end) =
  Some [("SCL", ["/tmp/r0.tif"; "/tmp/r1.tif"])].
Proof. vm_compute. reflexivity. Qed.
End rename_demo.

Definition demo_triangle : Value :=
  let pt x y := Array [Number (PosInt x); Number (PosInt y)] in
  Object [("type", JString "Polygon");
          ("coordinates", Array [Array [pt 3 4; pt 9 5; pt 6 8; pt 3 4]])].

Lemma geojson_bbox_least_witness :
  geojson_bbox demo_triangle = Some (f64_of_Z <$> [3; 4; 9; 8]) ∧
  ((f64_of_Z 6, f64_of_Z 8) ∈ positions demo_triangle → le (f64_of_Z 3) (f64_of_Z 6)).
Proof.
  split; [vm_compute; reflexivity|]. intros Hin.
  refine (proj1 (proj1 (geojson_bbox_least demo_triangle _ (f64_of_Z 4) (f64_of_Z 9) (f64_of_Z 8)
    _ _ _) _ _ Hin)); vm_compute; reflexivity.
Defined.
