(* ===== verification/Jobs.v ===== *)
(** * The batch-job routes: apps/orbit-openeo/src/routes/jobs.rs

    Each handler is a function of the request and the stores it reads or
    changes.  serde's derived deserializer of the node map is a parameter; the
    new job's id and the time are arguments.  Starting and cancelling a job spawn
    and signal tasks: they are in Supervisor.v. *)

From Stdlib Require Import Ascii.
From S2P Require Import Prelude Text BTree F64 Json Calendar JobStore FileStore Metrics Runner.
From S2P Require Import ProcessGraph Catalog.
Local Open Scope Z_scope.

(** ** Responses *)

Inductive HttpBody := NoBody | JsonBody (v : Value) | RawBody (bytes : list Z).
Record HttpResponse := mkHttp {
  h_status : Z; h_headers : list (string * string); h_body : HttpBody }.

Definition empty_response (status : Z) : HttpResponse := mkHttp status [] NoBody.
Definition json_response (status : Z) (v : Value) : HttpResponse := mkHttp status [] (JsonBody v).

Definition code_body (code : string) : Value := Object [("code", JString code)].
Definition error_body (code message : string) : Value :=
  Object [("code", JString code); ("message", JString message)].
Definition quoted (s : string) : string := "'" +:+ s +:+ "'".
Definition not_found (job_id : string) : HttpResponse :=
  json_response 404 (error_body "JobNotFound" ("job " +:+ quoted job_id +:+ " not found")).
Definition not_found_code : HttpResponse := json_response 404 (code_body "JobNotFound").
Definition internal (message : string) : HttpResponse :=
  json_response 500 (error_body "Internal" message).
Definition number (n : Z) : Value := Number (PosInt n).

Definition DEFAULT_USER : string := "anonymous".

Definition log_json (l : JobLogEntry) : Value := Object [
  ("id", JString (le_id l)); ("level", JString (le_level l));
  ("message", JString (le_message l)); ("time", JString (le_time l))].

(** The loop that renders the recorded assets; a repeated name replaces the
    earlier entry. *)
Definition asset_json (job_id : string) (a : JobAsset) : Value := Object [
  ("href", JString ("/jobs/" +:+ job_id +:+ "/results/" +:+ as_name a));
  ("type", JString (as_media_type a));
  ("roles", Array [JString "data"]);
  ("file:size", number (as_size a))].
Definition assets_obj (r : JobRecord) : list (string * Value) :=
  foldl (λ m a, assoc_set (as_name a) (asset_json (jr_id r) a) m) [] (jr_assets r).

Definition results_json (r : JobRecord) : Value := Object [
  ("stac_version", JString "1.0.0");
  ("type", JString "Feature");
  ("id", JString (jr_id r));
  ("geometry", Null);
  ("bbox", Null);
  ("properties", Object [("datetime", JString (iso8601 (jr_updated r)));
                         ("title", opt_json (jr_title r))]);
  ("assets", Object (assets_obj r));
  ("links", Array [
    Object [("rel", JString "self"); ("href", JString ("/jobs/" +:+ jr_id r +:+ "/results"));
            ("type", JString "application/json")];
    Object [("rel", JString "canonical"); ("href", JString ("/jobs/" +:+ jr_id r));
            ("type", JString "application/json")]])].

Definition str_member (k : string) (v : Value) : option string := jget k v ≫= as_str.

(** ** Handlers *)

Section handlers.
Context {St Fs : Type} `{JobStore St} `{FileStore Fs} `{Petgraph}.
Context (nodes_of_json : Value → result string (btree string Process)).

Definition job_logs (job_id : string) (st : St) : HttpResponse :=
  match get_logs job_id st with
  | Ok logs => json_response 200 (Object [("logs", Array (log_json <$> logs)); ("links", Array [])])
  | Err (NotFound _) => not_found job_id
  | Err e => internal (job_error_text e)
  end.

Definition list_jobs (st : St) : HttpResponse :=
  let jobs := match list_for_user DEFAULT_USER st with Ok l => l | Err _ => [] end in
  json_response 200 (Object [("jobs", Array (to_openeo_json <$> jobs)); ("links", Array [])]).

Definition create_job (id : string) (now : Z) (body : Value) (st : St) : HttpResponse * St :=
  let title := str_member "title" body in
  let description := str_member "description" body in
  let process_inner :=
    match jget "process" body with
    | Some p => p
    | None => Object [("process_graph", default Null (jget "process_graph" body))]
    end in
  match jget "process" body ≫= jget "process_graph" with
  | None =>
      (json_response 400 (error_body "ProcessGraphMissing"
         "request body must contain process.process_graph"), st)
  | Some pg_val =>
      match nodes_of_json pg_val with
      | Err e => (json_response 400 (error_body "ProcessGraphInvalid" e), st)
      | Ok nodes =>
          match build (mkProcessGraph nodes) with
          | Err e => (json_response 400 (error_body "ProcessGraphInvalid" (graph_error_text e)), st)
          | Ok _ =>
              match unsupported_process_ids body process_ids with
              | [] =>
                  match create id now DEFAULT_USER title description process_inner st with
                  | (Ok rec, st') =>
                      (mkHttp 201 [("location", "/jobs/" +:+ jr_id rec);
                                   ("openeo-identifier", jr_id rec)]
                         (JsonBody (to_openeo_json rec)), st')
                  | (Err e, st') => (internal (job_error_text e), st')
                  end
              | unsupported =>
                  (json_response 400 (error_body "ProcessUnsupported"
                     ("unsupported process(es): " +:+ join ", " unsupported)), st)
              end
          end
      end
  end.

Definition get_job (job_id : string) (st : St) : HttpResponse :=
  match get job_id st with
  | Ok rec => json_response 200 (to_openeo_json rec)
  | Err (NotFound _) => not_found job_id
  | Err e => internal (job_error_text e)
  end.

Definition update_job (now : Z) (job_id : string) (patch : Value) (st : St) : HttpResponse * St :=
  match set_metadata now job_id (str_member "title" patch) (str_member "description" patch) st with
  | (Ok _, st') => (empty_response 204, st')
  | (Err (NotFound _), st') => (not_found_code, st')
  | (Err e, st') => (internal (job_error_text e), st')
  end.

Definition delete_job_route (job_id : string) (st : St) : HttpResponse * St :=
  match delete_job job_id st with
  | (Ok _, st') => (empty_response 204, st')
  | (Err (NotFound _), st') => (not_found job_id, st')
  | (Err e, st') => (internal (job_error_text e), st')
  end.

(** Release arithmetic: the sum of the sizes wraps. *)
Definition total_size (r : JobRecord) : Z :=
  foldl (λ acc a, wrap 64 (acc + as_size a)) 0 (jr_assets r).

Definition estimate_job (job_id : string) (st : St) : HttpResponse :=
  match get job_id st with
  | Err (NotFound _) => not_found job_id
  | Err e => internal (job_error_text e)
  | Ok rec =>
      let secs := sat_sub (jr_updated rec) (jr_created rec) in
      json_response 200 (Object [
        ("costs", number 0);
        ("duration", JString ("PT" +:+ pretty (Z.to_N secs) +:+ "S"));
        ("size", number (total_size rec));
        ("downloads_included", number 0)])
  end.

Definition get_results (job_id : string) (st : St) : HttpResponse :=
  match get job_id st with
  | Err (NotFound _) => not_found_code
  | Err e => internal (job_error_text e)
  | Ok rec =>
      if bool_decide (jr_status rec ≠ Finished) then
        json_response 404 (error_body "JobNotFinished"
          ("job " +:+ quoted job_id +:+ " is in state " +:+ quoted (status_as_str (jr_status rec))))
      else json_response 200 (results_json rec)
  end.

Definition find_asset (asset_name : string) (r : JobRecord) : option JobAsset :=
  List.find (λ a, bool_decide (as_name a = asset_name)) (jr_assets r).

Definition download_asset (job_id asset_name : string) (st : St) (files : Fs) : HttpResponse :=
  match get job_id st with
  | Err (NotFound _) => not_found_code
  | Err e => internal (job_error_text e)
  | Ok rec =>
      match find_asset asset_name rec with
      | None =>
          json_response 404 (error_body "ResultNotFound"
            ("asset " +:+ quoted asset_name +:+ " not produced by job " +:+ quoted job_id))
      | Some asset =>
          match get_file (mkFileKey (jr_id rec) (as_name asset)) files with
          | Ok bytes =>
              mkHttp 200 [("content-type", as_media_type asset);
                          ("content-length", pretty (Z.to_N (as_size asset)))] (RawBody bytes)
          | Err FNotFound => json_response 404 (code_body "ResultNotFound")
          | Err e => internal (file_error_text e)
          end
      end
  end.
End handlers.

(** ** Lemmas *)

Lemma assoc_get_foldl_set {A} (f : A → string) (g : A → Value) l m k :
  assoc_get k (foldl (λ m a, assoc_set (f a) (g a) m) m l) =
  match List.find (λ a, bool_decide (f a = k)) (rev l) with
  | Some a => Some (g a)
  | None => assoc_get k m
  end.
Proof.
  revert m. induction l as [|a l IH] using rev_ind; intros m; [done|].
  rewrite foldl_app, rev_app_distr. simpl. case_bool_decide as E.
  - subst. by rewrite assoc_get_set_eq.
  - rewrite assoc_get_set_ne by congruence. apply IH.
Qed.

(** Every recorded asset is in the manifest, under the latest entry of its name. *)
Lemma assets_obj_complete r a :
  a ∈ jr_assets r →
  ∃ b, b ∈ jr_assets r ∧ as_name b = as_name a ∧
    assoc_get (as_name a) (assets_obj r) = Some (asset_json (jr_id r) b).
Proof.
  intros Ha. unfold assets_obj. rewrite assoc_get_foldl_set.
  destruct (List.find _ (rev (jr_assets r))) as [b|] eqn:E.
  - apply find_some in E as [Hb Hn]. apply bool_decide_eq_true in Hn.
    exists b. split; [|done]. by apply list_elem_of_In, in_rev.
  - exfalso. assert (a ∈ rev (jr_assets r)) as Hin.
    { by apply list_elem_of_In, in_rev; rewrite rev_involutive; apply list_elem_of_In. }
    apply list_elem_of_In in Hin. pose proof (find_none _ _ E a Hin) as H.
    rewrite bool_decide_eq_false in H. done.
Qed.

Lemma unsupported_nil body :
  unsupported_process_ids body process_ids = [] ↔
  ∀ pid, pid ∈ (collect_process_ids body).*1 → is_known_process pid = true.
Proof.
  unfold unsupported_process_ids. split.
  - intros Hn pid Hpid. apply process_ids_known.
    destruct (decide (pid ∈ process_ids)) as [|Hno]; [done|]. exfalso.
    assert (pid ∈ filter (λ id, id ∉ process_ids) (collect_process_ids body).*1) as Hin
      by (by apply list_elem_of_filter).
    rewrite Hn in Hin. by apply elem_of_nil in Hin.
  - intros Hall. destruct (filter _ _) as [|pid l] eqn:E; [done|]. exfalso.
    assert (pid ∈ filter (λ id, id ∉ process_ids) (collect_process_ids body).*1) as Hin
      by (rewrite E; apply list_elem_of_here).
    apply list_elem_of_filter in Hin as [Hno Hpid]. by apply Hno, process_ids_known, Hall.
Qed.

Lemma find_snoc {A} (p : A → bool) l x :
  p x = true →
  List.find p (l ++ [x]) = match List.find p l with Some y => Some y | None => Some x end.
Proof.
  intros Hx. induction l as [|y l IH]; simpl; [by rewrite Hx|]. by destruct (p y).
Qed.

(** A refused submission: the conditions cannot all hold. *)
Ltac refused :=
  split; [split; [discriminate|]|by split];
  intros (? & ? & ? & ? & ? & ? & Hok & Hk); simplify_eq; try congruence.

(** ** Properties *)

(** A submission is accepted exactly when it has a process graph that decodes
    to nodes, builds, and only uses known processes in its outer graph; a refused
    one gets 400 and leaves the store alone; an accepted one gets 201 and the job
    is there: its detail is what the submission returned, the caller's listing
    has it, its log is empty and its results are not ready. *)
Theorem create_job_outcomes `{JobStoreLaws St, Petgraph}
    (nodes_of_json : Value → result string (btree string Process))
    (st : St) (m : Jobs) (id : string) (now : Z) (body : Value)
    (Hrep : rep st m) (Hfresh : m !! id = None) (Hnow : in_u 64 now)
    (Hbody : ∀ p, jget "process" body = Some p → no_float p = true) :
  let '(resp, st') := create_job nodes_of_json id now body st in
  (h_status resp = 201 ↔
     ∃ p pg nodes, jget "process" body = Some p ∧ jget "process_graph" p = Some pg ∧
       nodes_of_json pg = Ok nodes ∧ is_ok (build (mkProcessGraph nodes)) = true ∧
       ∀ pid, pid ∈ (collect_process_ids body).*1 → is_known_process pid = true) ∧
  (h_status resp ≠ 201 → h_status resp = 400 ∧ st' = st) ∧
  (h_status resp = 201 →
     ∃ p v, jget "process" body = Some p ∧ h_body resp = JsonBody v ∧
       h_headers resp = [("location", "/jobs/" +:+ id); ("openeo-identifier", id)] ∧
       rep st' (<[id := (new_record id now DEFAULT_USER (str_member "title" body)
                           (str_member "description" body) p, [])]> m) ∧
       get_job id st' = json_response 200 v ∧
       (∃ l, list_jobs st' = json_response 200 (Object [("jobs", Array l); ("links", Array [])]) ∧
          v ∈ l) ∧
       job_logs id st' =
         json_response 200 (Object [("logs", Array []); ("links", Array [])]) ∧
       h_status (get_results id st') = 404).
Proof.
  unfold create_job.
  destruct (jget "process" body) as [p|] eqn:Hp; simpl; [|by refused].
  destruct (jget "process_graph" p) as [pg|] eqn:Hpg; simpl; [|by refused].
  destruct (nodes_of_json pg) as [nodes|] eqn:Hn; simpl; [|by refused].
  destruct (build (mkProcessGraph nodes)) as [an|] eqn:Hb; simpl.
  2:{ refused. assert (x1 = nodes) as -> by congruence. by rewrite Hb in Hok. }
  pose proof (unsupported_nil body) as Hun.
  destruct (unsupported_process_ids body process_ids) as [|u us] eqn:Hu; simpl.
  2:{ refused. by apply Hun in Hk. }
  destruct (create_law st m id now DEFAULT_USER (str_member "title" body)
    (str_member "description" body) p Hrep Hfresh Hnow
    (keeps_plain_process _ (Hbody p eq_refl))) as [Hr Hrep'].
  destruct (create _ _ _ _ _ _ _) as [r st']. simpl in *. subst r. simpl.
  split; [|split; [done|]].
  - split; [|done]. intros _. exists p, pg, nodes. rewrite Hb. repeat split; try done. by apply Hun.
  - intros _. set (rec := new_record id now DEFAULT_USER _ _ p) in *.
    exists p, (to_openeo_json rec). split; [done|]. split; [done|]. split; [done|].
    split; [exact Hrep'|].
    assert (get id st' = Ok rec) as Hget.
    { rewrite (get_law _ _ id Hrep'). unfold spec_get. by rewrite lookup_insert_eq. }
    split; [by unfold get_job; rewrite Hget|]. split; [|split].
    + destruct (list_law _ _ DEFAULT_USER Hrep') as (l & Hl & Hperm).
      unfold list_jobs. rewrite Hl. eexists. split; [reflexivity|].
      apply (list_elem_of_fmap_2 to_openeo_json). rewrite Hperm. apply list_elem_of_filter.
      split; [done|]. apply (list_elem_of_fmap_2 fst _ (rec, [])).
      apply (list_elem_of_fmap_2 snd _ (id, (rec, []))). apply elem_of_map_to_list.
      apply lookup_insert_eq.
    + unfold job_logs. rewrite (get_logs_law _ _ id Hrep'). unfold spec_get.
      by rewrite lookup_insert_eq.
    + unfold get_results. by rewrite Hget.
Qed.

(** A decoder of node maps, for the examples. *)
Definition plain_node (e : string * Value) : option (string * Process) :=
  pid ← str_member "process_id" e.2;
  let args := match jget "arguments" e.2 with Some (Object m) => bt_of_list m | _ => [] end in
  Some (e.1, mkProcess pid args (jget "result" e.2 ≫= as_bool)).
Definition plain_nodes (v : Value) : result string (btree string Process) :=
  match as_object v with
  | Some m => match mapM plain_node m with Some l => Ok (bt_of_list l) | None => Err "node" end
  | None => Err "invalid type"
  end.

Definition demo_body : Value := Object [("title", JString "t"); ("process", Object [
  ("process_graph", Object [
    ("load", Object [("process_id", JString "load_collection"); ("arguments", Object [])]);
    ("save", Object [("process_id", JString "save_result");
       ("arguments", Object [("data", Object [("from_node", JString "load")])]);
       ("result", Bool true)])])])].

Lemma create_job_outcomes_witness :
  let '(resp, st') := create_job plain_nodes "j1" 5 demo_body InMemory_new in
  h_status resp = 201 ∧ ∃ v, h_body resp = JsonBody v ∧ get_job "j1" st' = json_response 200 v.
Proof.
  assert (in_u 64 5) as Hnow by (split; reflexivity || (vm_compute; congruence)).
  assert (∀ p, jget "process" demo_body = Some p → no_float p = true) as Hbody.
  { intros p [= <-]. reflexivity. }
  pose proof (create_job_outcomes plain_nodes InMemory_new ∅ "j1" 5 demo_body
    InMemory_new_rep eq_refl Hnow Hbody) as H.
  assert (h_status (create_job plain_nodes "j1" 5 demo_body InMemory_new).1 = 201) as H201
    by (vm_compute; reflexivity).
  destruct (create_job plain_nodes "j1" 5 demo_body InMemory_new) as [resp st'].
  cbn [fst] in H201. split; [exact H201|].
  destruct H as (_ & _ & H). destruct (H H201) as (p & v & _ & Hb & _ & _ & Hg & _).
  exists v. split; [exact Hb|exact Hg].
Defined.

(** Results are guarded. The manifest is served exactly for finished jobs and
    then has an entry for every recorded asset; a download succeeds exactly when
    the job exists, recorded an asset of that name, and the file store has that
    job's file, whose bytes it returns; so no request reads another job's files
    or a file that is not a recorded asset. *)
Theorem results_guarded `{JobStoreLaws St, FileStore Fs} (st : St) (m : Jobs) (files : Fs)
    (job_id asset_name : string) (Hrep : rep st m) :
  (h_status (get_results job_id st) = 200 ↔
     ∃ r lg, m !! job_id = Some (r, lg) ∧ jr_status r = Finished) ∧
  (∀ v, get_results job_id st = json_response 200 v →
     ∃ r lg objs, m !! job_id = Some (r, lg) ∧ jget "assets" v = Some (Object objs) ∧
       ∀ a, a ∈ jr_assets r → ∃ b, b ∈ jr_assets r ∧ as_name b = as_name a ∧
         assoc_get (as_name a) objs = Some (asset_json (jr_id r) b)) ∧
  (∀ bytes, h_status (download_asset job_id asset_name st files) = 200 ∧
            h_body (download_asset job_id asset_name st files) = RawBody bytes ↔
     ∃ r lg, m !! job_id = Some (r, lg) ∧ (∃ a, a ∈ jr_assets r ∧ as_name a = asset_name) ∧
       get_file (mkFileKey (jr_id r) asset_name) files = Ok bytes).
Proof.
  unfold get_results, download_asset. rewrite (get_law st m job_id Hrep). unfold spec_get.
  destruct (m !! job_id) as [[r lg]|]; simpl.
  2:{ split; [split; [done|by intros (? & ? & ? & _)]|]. split; [done|].
      split; [by intros []|by intros (? & ? & ? & _)]. }
  split; [|split].
  - case_bool_decide as E; simpl; [|split; [|done]].
    + split; [done|]. intros (r' & lg' & [= <- <-] & Hr). done.
    + intros _. exists r, lg. split; [done|]. by destruct (decide (jr_status r = Finished)).
  - case_bool_decide as E; [done|]. intros v [= <-]. exists r, lg, (assets_obj r).
    split; [done|]. split; [reflexivity|]. apply assets_obj_complete.
  - intros bytes. unfold find_asset. destruct (List.find _ _) as [a|] eqn:Hf; simpl.
    + apply find_some in Hf as [Ha Hn]. apply list_elem_of_In in Ha.
      apply bool_decide_eq_true in Hn as <-. split.
      * destruct (get_file _ _) as [bs|[]] eqn:Hg; simpl; [|by intros []..].
        intros [_ [= <-]]. exists r, lg. split; [done|]. split; [by exists a|done].
      * intros (r' & lg' & [= <- <-] & _ & Hg). by rewrite Hg.
    + split; [by intros []|]. intros (r' & lg' & [= <- <-] & (a & Ha & Hn) & _).
      apply list_elem_of_In in Ha. pose proof (find_none _ _ Hf a Ha) as Hno.
      by apply bool_decide_eq_false in Hno.
Qed.

Definition demo_assets_store : InMemoryJobStore :=
  (add_asset 6 "j1" (mkJobAsset "result.tif" "image/tiff" 3)
     (create "j1" 5 "alice" None None Null InMemory_new).2).2.

Lemma results_guarded_witness :
  h_status (get_results "j1" demo_assets_store) ≠ 200 ∧
  h_status (download_asset "j1" "result.tif" demo_assets_store
     [(mkFileKey "j1" "result.tif", [1; 2; 3])]) = 200.
Proof.
  set (ops := [OCreate "j1" 5 "alice" None None Null;
               OAddAsset 6 "j1" (mkJobAsset "result.tif" "image/tiff" 3)]).
  assert (ops_ok InMemoryJobStore ops ∅) as Hok by (repeat split; vm_compute; congruence).
  destruct (run_simulation ops InMemory_new ∅ InMemory_new_rep Hok) as [_ Hrep].
  destruct (results_guarded _ _ ([(mkFileKey "j1" "result.tif", [1; 2; 3])] : InMemoryFileStore)
    "j1" "result.tif" Hrep) as (Hres & _ & Hdown).
  split.
  - intros H%Hres. destruct H as (r & lg & E & Hf). vm_compute in E. injection E as <- <-.
    vm_compute in Hf. discriminate Hf.
  - apply (proj2 (Hdown [1; 2; 3])). eexists _, _. split; [vm_compute; reflexivity|].
    split; [|vm_compute; reflexivity]. eexists. split; [apply list_elem_of_here|reflexivity].
Defined.

(** C1: end to end, a finished run can be fetched, on a job's first run and on any
    later one: when the executor answers and the bytes can be stored, then after the
    run the manifest is served and the download of the produced asset answers 200
    with exactly the executor's bytes.  When the job had recorded no asset of that
    name before, the media type and the length sent are those of the result; a later
    run keeps the headers recorded first ([rerun_length_mismatch]). *)
Theorem finished_run_is_downloadable `{JobStoreLaws St, FileStoreLaws Fs} (clk : nat → Z)
    (Hclk : ∀ i, in_u 64 (clk i)) (elapsed : f64) (job_id user_id : string)
    (timeout_var : option string) (executor : Value → option (result ExecError SyncResult))
    (body : Value) (w : World St Fs) (m : Jobs) (e : Entry) (r : SyncResult) (files : Fs)
    (Hrep : rep (w_store w) m) (Hjob : m !! job_id = Some e) (Hid : jr_id e.1 = job_id)
    (Hexec : executor body = Some (Ok r)) (Hsize : in_u 64 (Z.of_nat (length (sr_body r))))
    (Hput : put_file (mkFileKey job_id (default_asset_name (content_type r))) (sr_body r)
              (w_files w) = (Ok (), files)) :
  let '(o, w') := run_job quiet clk elapsed job_id user_id timeout_var executor body w in
  o = RunFinished ∧
  h_status (get_results job_id (w_store w')) = 200 ∧
  ∃ ct len,
    download_asset job_id (default_asset_name (content_type r)) (w_store w') (w_files w') =
      mkHttp 200 [("content-type", ct); ("content-length", len)] (RawBody (sr_body r)) ∧
    (find_asset (default_asset_name (content_type r)) e.1 = None →
       ct = content_type r ∧ len = pretty (Z.to_N (Z.of_nat (length (sr_body r))))).
Proof.
  pose proof (run_job_working clk Hclk elapsed job_id user_id timeout_var executor body w m e
    Hrep Hjob) as Hrun.
  destruct (run_job _ _ _ _ _ _ _ _ _) as [o w']. rewrite Hexec in Hrun. simpl in Hrun.
  rewrite Hput in Hrun. simpl in Hrun.
  destruct Hrun as (-> & (e' & Hrep' & Hst & _ & Has & Hsame & _) & Hfiles). simpl in *.
  split; [done|].
  assert (get job_id (w_store w') = Ok e'.1) as Hget.
  { rewrite (get_law _ _ job_id Hrep'). unfold spec_get. by rewrite lookup_insert_eq. }
  assert (jr_id e'.1 = job_id) as Hid' by congruence.
  unfold get_results, download_asset. rewrite Hget. split.
  - by rewrite bool_decide_eq_false_2 by (intros Hne; by apply Hne).
  - set (name := default_asset_name (content_type r)) in *.
    set (new := mkJobAsset name (content_type r) (wrap 64 (Z.of_nat (length (sr_body r))))) in *.
    assert (find_asset name e'.1 = match find_asset name e.1 with Some b => Some b
                                                              | None => Some new end) as ->.
    { unfold find_asset. rewrite Has. apply find_snoc. by apply bool_decide_eq_true. }
    assert (∀ b, find_asset name e.1 = Some b → as_name b = name) as Hname.
    { intros b [_ Hb]%find_some. by apply bool_decide_eq_true in Hb. }
    destruct (find_asset name e.1) as [b|]; simpl.
    + rewrite (Hname b eq_refl), Hid', Hfiles, (put_get_law _ _ _ _ Hput). by eexists _, _.
    + rewrite Hid', Hfiles, (put_get_law _ _ _ _ Hput), wrap_small by done. by eexists _, _.
Qed.

Lemma finished_run_is_downloadable_witness :
  let w' := (run_job quiet (λ _, 7) f64_ten "j1" "alice" (Some "30") demo_executor Null
               demo_world).2 in
  download_asset "j1" "result.tif" (w_store w') (w_files w') =
    mkHttp 200 [("content-type", "image/tiff; application=geotiff"); ("content-length", "3")]
      (RawBody [1; 2; 3]).
Proof.
  assert (rep demo_store {["j1" := demo_job]}) as Hrep.
  { destruct (create_law InMemory_new ∅ "j1" 5 "alice" None None Null InMemory_new_rep)
      as [_ H]; [reflexivity|split; reflexivity || (vm_compute; congruence)|reflexivity|].
    exact H. }
  assert (∀ i : nat, in_u 64 7) as Hclk by (intros; split; reflexivity || (vm_compute; congruence)).
  pose proof (finished_run_is_downloadable (λ _, 7) Hclk f64_ten "j1" "alice" (Some "30")
    demo_executor Null demo_world {["j1" := demo_job]} demo_job
    (mkSyncResult "image/tiff; application=geotiff" [1; 2; 3])
    [(mkFileKey "j1" "result.tif", [1; 2; 3])]
    Hrep eq_refl eq_refl eq_refl ltac:(split; reflexivity || (vm_compute; congruence))
    eq_refl) as H.
  destruct (run_job _ _ _ _ _ _ _ _ _) as [o w']. destruct H as (_ & _ & ct & len & Hd & Hh).
  cbn [snd]. destruct (Hh eq_refl) as [Hct Hlen]. rewrite Hct, Hlen in Hd. exact Hd.
Defined.

(** A job that is run again with a result of another size: the download sends the
    length recorded by the first run with the bytes of the second. *)
Definition rerun (body : list Z) (w : World InMemoryJobStore InMemoryFileStore) :=
  (run_job quiet (λ _, 7) f64_ten "j1" "alice" None
     (λ _, Some (Ok (mkSyncResult "image/tiff" body))) Null w).2.
Example rerun_length_mismatch :
  let w := rerun [1; 2; 3; 4] (rerun [1; 2; 3] demo_world) in
  download_asset "j1" "result.tif" (w_store w) (w_files w) =
    mkHttp 200 [("content-type", "image/tiff"); ("content-length", "3")] (RawBody [1; 2; 3; 4]).
Proof. vm_compute. reflexivity. Qed.
