(* ===== verification/Supervisor.v ===== *)
(** * Starting and cancelling jobs: start_processing and discard_results of
    apps/orbit-openeo/src/routes/jobs.rs, and job_registry.rs

    The handlers and the supervisor tasks run concurrently on several threads.
    The model is a transition system: a label names one atomic action (the code
    between two points where another task may run), and [act] is its effect, so
    that a list of labels is one interleaving. *)

From S2P Require Import Prelude Text BTree F64 Json Calendar JobStore FileStore Metrics Runner.
From S2P Require Import ProcessGraph Catalog Jobs.
Local Open Scope Z_scope.

(** ** State *)

(** The spawned [run_job] task; the flag says that its abortion was requested. *)
Inductive inner_task := IRunning (aborting : bool) | IFinished | IPanicked | ICancelled.

(** What a supervisor does next. *)
Inductive phase :=
| Select        (* select! over the cancel signal and the inner task *)
| CancelRead    (* cancelled: read the job *)
| CancelWrite   (* not in a final state: mark it canceled *)
| PanicRead     (* the inner task panicked: read the job *)
| PanicWrite    (* not in a final state: mark it failed *)
| Deregister    (* leave the registry *)
| Release       (* drop the permit *)
| Done.

(** A supervisor; [s_notified] is the buffered permit of its [Notify]. *)
Record Sup := mkSup {
  s_job : string; s_notified : bool; s_inner : inner_task; s_phase : phase }.

(** A request in progress. *)
Inductive handler :=
| StartRead (job_id : string)
| StartSpawn (job_id : string) (rec : JobRecord)
| StartRegister (job_id : string) (sup : nat)
| DiscardRead (job_id : string)
| DiscardWrite (job_id : string).

Record Sys (St : Type) := mkSys {
  y_store : St;
  y_permits : nat;                  (* free permits of job_sem *)
  y_registry : gmap string nat;     (* JobRegistry: job id -> supervisor *)
  y_sups : list Sup;                (* every supervisor ever spawned *)
  y_handlers : list handler }.
Arguments mkSys {St}. Arguments y_store {St}. Arguments y_permits {St}.
Arguments y_registry {St}. Arguments y_sups {St}. Arguments y_handlers {St}.

Definition terminal (s : JobStatus) : bool :=
  match s with Finished | Error | Canceled => true | _ => false end.

Section system.
Context {St : Type} `{JobStore St}.
Implicit Types y : Sys St.

Definition set_store (st : St) y : Sys St :=
  mkSys st (y_permits y) (y_registry y) (y_sups y) (y_handlers y).
Definition set_sup (k : nat) (s : Sup) y : Sys St :=
  mkSys (y_store y) (y_permits y) (y_registry y) (<[k := s]> (y_sups y)) (y_handlers y).
Definition set_registry (r : gmap string nat) y : Sys St :=
  mkSys (y_store y) (y_permits y) r (y_sups y) (y_handlers y).
Definition set_handlers (hs : list handler) y : Sys St :=
  mkSys (y_store y) (y_permits y) (y_registry y) (y_sups y) hs.

Definition with_phase (p : phase) (s : Sup) : Sup :=
  mkSup (s_job s) (s_notified s) (s_inner s) p.
Definition with_inner (i : inner_task) (s : Sup) : Sup :=
  mkSup (s_job s) (s_notified s) i (s_phase s).
Definition with_notified (b : bool) (s : Sup) : Sup :=
  mkSup (s_job s) b (s_inner s) (s_phase s).

(** ** job_registry.rs *)

Definition register (id : string) (k : nat) y : Sys St :=
  set_registry (<[id := k]> (y_registry y)) y.

(** Signals the supervisor registered for the job; [notify_one] buffers. *)
Definition cancel (id : string) y : bool * Sys St :=
  match y_registry y !! id with
  | Some k =>
      (true, match y_sups y !! k with
             | Some s => set_sup k (with_notified true s) y
             | None => y
             end)
  | None => (false, y)
  end.

Definition deregister (id : string) y : Sys St := set_registry (delete id (y_registry y)) y.
Definition in_flight y : nat := size (y_registry y).
(** [drain] takes every handle out of the map and awaits them. *)
Definition drain y : list nat * Sys St :=
  ((map_to_list (y_registry y)).*2, set_registry ∅ y).

(** ** The handlers *)

(** [start_processing] up to its status check. *)
Definition start_read (job_id : string) (st : St) : HttpResponse + JobRecord :=
  match get job_id st with
  | Err (NotFound _) => inl not_found_code
  | Err e => inl (internal (job_error_text e))
  | Ok rec =>
      match jr_status rec with
      | Queued | Running =>
          inl (json_response 409 (error_body "JobLocked"
                 ("job " +:+ quoted job_id +:+ " is already " +:+ status_as_str (jr_status rec))))
      | _ => inr rec
      end
  end.

Definition queue_full : HttpResponse :=
  json_response 503 (error_body "QueueFull" "maximum concurrent jobs reached; retry later").

(** The rest: take a permit and spawn the supervisor; its index is returned. *)
Definition start_spawn (job_id : string) y : HttpResponse + (nat * Sys St) :=
  match y_permits y with
  | O => inl queue_full
  | S n =>
      inr (length (y_sups y),
           mkSys (y_store y) n (y_registry y)
             (y_sups y ++ [mkSup job_id false (IRunning false) Select]) (y_handlers y))
  end.

(** [discard_results] up to the write: the response, and whether to write. *)
Definition discard_read (job_id : string) y : HttpResponse * bool * Sys St :=
  match get job_id (y_store y) with
  | Ok rec =>
      let was_active := match jr_status rec with Queued | Running => true | _ => false end in
      (empty_response 204, was_active, (cancel job_id y).2)
  | Err (NotFound _) => (not_found_code, false, y)
  | Err e => (internal (job_error_text e), false, y)
  end.

(** ** Atomic actions *)

(** The calls [run_job] makes on the job store. *)
Inductive run_call :=
| CStatus (s : JobStatus) | CProgress (p : f64) | CLog (level message : string)
| CAsset (a : JobAsset).
Definition run_effect (now : Z) (id : string) (c : run_call) (st : St) : St :=
  match c with
  | CStatus s => (set_status now id s st).2
  | CProgress p => (set_progress now id p st).2
  | CLog level message => (append_log now id level message st).2
  | CAsset a => (add_asset now id a st).2
  end.

Inductive label :=
| LRequest (h : handler)                     (* a request arrives *)
| LHandler (now : Z) (i : nat)               (* a handler's next action *)
| LRun (now : Z) (k : nat) (c : run_call)    (* the inner task calls the store *)
| LInner (k : nat) (i : inner_task)          (* the inner task ends *)
| LCancel (k : nat)                          (* select!: the cancel branch *)
| LJoin (k : nat)                            (* select!: the join branch *)
| LSup (now : Z) (k : nat)                   (* the supervisor's next action *)
| LDrain
| LOther (f : St → St).                      (* another request changes the store *)

Definition act_handler (now : Z) (i : nat) y : option (Sys St) :=
  h ← y_handlers y !! i;
  let drop y := set_handlers (delete i (y_handlers y)) y in
  let continue h y := set_handlers (<[i := h]> (y_handlers y)) y in
  match h with
  | StartRead id =>
      Some (match start_read id (y_store y) with
            | inl _ => drop y
            | inr rec => continue (StartSpawn id rec) y
            end)
  | StartSpawn id _ =>
      Some (match start_spawn id y with
            | inl _ => drop y
            | inr (k, y') => continue (StartRegister id k) y'
            end)
  | StartRegister id k => Some (drop (register id k y))
  | DiscardRead id =>
      let '(_, write, y') := discard_read id y in
      Some (if write then continue (DiscardWrite id) y' else drop y')
  | DiscardWrite id => Some (drop (set_store (set_status now id Canceled (y_store y)).2 y))
  end.

(** A job in no final state gets the status [s]; [p] is the writing phase. *)
Definition act_read (k : nat) (s : Sup) (p : phase) y : Sys St :=
  set_sup k (with_phase
    (match get (s_job s) (y_store y) with
     | Ok rec => if terminal (jr_status rec) then Deregister else p
     | Err _ => Deregister
     end) s) y.

Definition act_sup (now : Z) (k : nat) y : option (Sys St) :=
  s ← y_sups y !! k;
  match s_phase s with
  | CancelRead => Some (act_read k s CancelWrite y)
  | PanicRead => Some (act_read k s PanicWrite y)
  | CancelWrite =>
      Some (set_sup k (with_phase Deregister s)
              (set_store (set_status now (s_job s) Canceled (y_store y)).2 y))
  | PanicWrite =>
      Some (set_sup k (with_phase Deregister s)
              (set_store (set_status now (s_job s) Error (y_store y)).2 y))
  | Deregister => Some (set_sup k (with_phase Release s) (deregister (s_job s) y))
  | Release =>
      Some (set_sup k (with_phase Done s)
              (mkSys (y_store y) (S (y_permits y)) (y_registry y) (y_sups y) (y_handlers y)))
  | Select | Done => None
  end.

Definition act (l : label) y : option (Sys St) :=
  match l with
  | LRequest h =>
      match h with
      | StartRead _ | DiscardRead _ => Some (set_handlers (y_handlers y ++ [h]) y)
      | _ => None
      end
  | LHandler now i => act_handler now i y
  | LRun now k c =>
      s ← y_sups y !! k;
      match s_inner s with
      | IRunning _ => Some (set_store (run_effect now (s_job s) c (y_store y)) y)
      | _ => None
      end
  | LInner k i =>
      s ← y_sups y !! k;
      match s_inner s, i with
      | IRunning _, IFinished | IRunning _, IPanicked | IRunning true, ICancelled =>
          Some (set_sup k (with_inner i s) y)
      | _, _ => None
      end
  | LCancel k =>
      s ← y_sups y !! k;
      match s_phase s, s_notified s with
      | Select, true =>
          let i := match s_inner s with IRunning _ => IRunning true | i => i end in
          Some (set_sup k (mkSup (s_job s) false i CancelRead) y)
      | _, _ => None
      end
  | LJoin k =>
      s ← y_sups y !! k;
      match s_phase s, s_inner s with
      | Select, IFinished | Select, ICancelled => Some (set_sup k (with_phase Deregister s) y)
      | Select, IPanicked => Some (set_sup k (with_phase PanicRead s) y)
      | _, _ => None
      end
  | LSup now k => act_sup now k y
  | LDrain => Some (drain y).2
  | LOther f => Some (set_store (f (y_store y)) y)
  end.

Fixpoint exec (ls : list label) y : option (Sys St) :=
  match ls with
  | [] => Some y
  | l :: ls => y' ← act l y; exec ls y'
  end.

(** A fresh server with [n] permits. *)
Definition boot (n : nat) (st : St) : Sys St := mkSys st n ∅ [] [].
End system.

(** ** The invariant *)

#[export] Instance phase_eq_dec : EqDecision phase.
Proof. solve_decision. Defined.
#[export] Instance inner_eq_dec : EqDecision inner_task.
Proof. solve_decision. Defined.

(** A supervisor that holds its permit, and one whose job runs undisturbed. *)
Definition alive (s : Sup) : bool := bool_decide (s_phase s ≠ Done).
Definition running (s : Sup) : bool := bool_decide (s_inner s = IRunning false).
Definition count (p : Sup → bool) (l : list Sup) : nat := length (filter (λ s, p s = true) l).

Lemma count_app p l k : count p (l ++ k) = (count p l + count p k)%nat.
Proof. unfold count. by rewrite filter_app, length_app. Qed.

Lemma count_cons p s l : count p (s :: l) = (Nat.b2n (p s) + count p l)%nat.
Proof. unfold count. rewrite filter_cons. by destruct (p s). Qed.

Lemma count_insert p l k s s' :
  l !! k = Some s → (count p (<[k:=s']> l) + Nat.b2n (p s) = count p l + Nat.b2n (p s'))%nat.
Proof.
  revert k. induction l as [|x l IH]; intros [|k] Hk; [done..| |].
  - injection Hk as ->. simpl. rewrite !count_cons. lia.
  - specialize (IH k Hk). simpl. rewrite !count_cons. lia.
Qed.

Lemma count_le (p q : Sup → bool) l :
  (∀ s, s ∈ l → p s = true → q s = true) → (count p l ≤ count q l)%nat.
Proof.
  induction l as [|s l IH]; intros Hpq; [done|]. rewrite !count_cons.
  assert (count p l ≤ count q l)%nat by (apply IH; intros; apply Hpq; [by right|done]).
  destruct (p s) eqn:E; [|simpl; lia]. rewrite Hpq; [simpl; lia|by left|done].
Qed.

Section invariant.
Context {St : Type} `{JobStore St}.
Implicit Types y : Sys St.

Definition names (y : Sys St) (id : string) (k : nat) : Prop :=
  ∃ s, y_sups y !! k = Some s ∧ s_job s = id.

(** Permits are conserved, an undisturbed run has its supervisor waiting for it,
    and registry entries and pending registrations name a supervisor of their job. *)
Record inv (n : nat) (y : Sys St) : Prop := {
  inv_permits : (y_permits y + count alive (y_sups y) = n)%nat;
  inv_running : Forall (λ s, running s = true → s_phase s = Select) (y_sups y);
  inv_registry : ∀ id k, y_registry y !! id = Some k → names y id k;
  inv_pending : ∀ id k, StartRegister id k ∈ y_handlers y → names y id k }.

(** Changing one supervisor, and nothing but the store besides. *)
Lemma inv_set_sup n y k s s' st :
  inv n y → y_sups y !! k = Some s → s_job s' = s_job s → alive s' = alive s →
  (running s' = true → s_phase s' = Select) → inv n (set_sup k s' (set_store st y)).
Proof.
  intros [Hp Hr Hreg Hpend] Hk Hjob Halive Hrun.
  assert (∀ id j, names y id j → names (set_sup k s' (set_store st y)) id j) as Hnames.
  { intros id j (s0 & Hj & Hid). unfold names. simpl. destruct (decide (j = k)) as [->|Hne].
    - exists s'. rewrite list_lookup_insert_eq by (by eapply lookup_lt_Some).
      split; [done|]. rewrite Hjob. congruence.
    - exists s0. by rewrite list_lookup_insert_ne. }
  split; simpl.
  - pose proof (count_insert alive (y_sups y) k s s' Hk) as Hc. rewrite Halive in Hc. lia.
  - by apply Forall_insert.
  - auto.
  - auto.
Qed.

Lemma inv_handlers n y hs st :
  inv n y → (∀ h, h ∈ hs → h ∈ y_handlers y ∨ ∀ id k, h ≠ StartRegister id k) →
  inv n (set_handlers hs (set_store st y)).
Proof.
  intros [Hp Hr Hreg Hpend] Hhs. split; simpl; [done..|].
  intros id k Hin. destruct (Hhs _ Hin) as [Hold|Hnew]; [by apply Hpend|by destruct (Hnew id k)].
Qed.

Lemma inv_drop n y i : inv n y → inv n (set_handlers (delete i (y_handlers y)) y).
Proof.
  intros Hy. apply (inv_handlers n y (delete i (y_handlers y)) (y_store y) Hy).
  intros h Hh. left. by eapply list_elem_of_delete_inv.
Qed.

Lemma elem_of_insert_inv {A} (l : list A) i x z : z ∈ <[i:=x]> l → z = x ∨ z ∈ l.
Proof.
  intros [j Hj]%list_elem_of_lookup. apply list_lookup_insert_Some in Hj as [(_ & -> & _)|[_ Hj]];
    [by left|right]. by eapply list_elem_of_lookup_2.
Qed.

Lemma inv_continue n y i h :
  inv n y → (∀ id k, h ≠ StartRegister id k) →
  inv n (set_handlers (<[i:=h]> (y_handlers y)) y).
Proof.
  intros Hy Hh. apply (inv_handlers n y (<[i:=h]> (y_handlers y)) (y_store y) Hy).
  intros h' [->|?]%elem_of_insert_inv; auto.
Qed.

Lemma inv_store n y st : inv n y → inv n (set_store st y).
Proof. by intros [Hp Hr Hreg Hpend]. Qed.

Lemma inv_cancel n y id : inv n y → inv n (cancel id y).2.
Proof.
  intros Hy. unfold cancel. destruct (y_registry y !! id) as [k|]; simpl; [|done].
  destruct (y_sups y !! k) as [s|] eqn:Hk; [|done].
  apply (inv_set_sup n y k s (with_notified true s) (y_store y) Hy Hk); [done|done|].
  destruct Hy as [_ Hr _ _]. exact (Forall_lookup_1 _ _ _ _ Hr Hk).
Qed.

Lemma cancel_handlers id y : y_handlers (cancel id y).2 = y_handlers y.
Proof. unfold cancel. by repeat case_match. Qed.

Lemma inv_handler n now i y y' : inv n y → act_handler now i y = Some y' → inv n y'.
Proof.
  intros Hy. unfold act_handler. destruct (y_handlers y !! i) as [h|] eqn:Hi; simpl; [|done].
  destruct h as [id|id rec|id k|id|id].
  - intros [= <-]. destruct (start_read _ _); [by apply inv_drop|by apply inv_continue].
  - unfold start_spawn. destruct (y_permits y) as [|p] eqn:Ep; intros [= <-]; [by apply inv_drop|].
    destruct Hy as [Hp Hr Hreg Hpend].
    assert (∀ id' k', names y id' k' → ∃ s,
      (y_sups y ++ [mkSup id false (IRunning false) Select]) !! k' = Some s ∧ s_job s = id') as Hold.
    { intros id' k' (s & Hk & Hid). exists s. split; [|done]. by apply lookup_app_l_Some. }
    split; simpl.
    + rewrite count_app. unfold count at 2. simpl. lia.
    + apply Forall_app. split; [done|]. by constructor.
    + intros. by apply Hold, Hreg.
    + intros id' k' [[= -> ->]|Hin]%elem_of_insert_inv; [|by apply Hold, Hpend].
      unfold names. simpl. exists (mkSup id false (IRunning false) Select). split; [|done].
      by rewrite lookup_app_r, Nat.sub_diag by lia.
  - intros [= <-]. pose proof (inv_drop n y i Hy) as [Hp Hr Hreg Hpend]. split; simpl; [done..| |done].
    intros id' k'. rewrite lookup_insert_Some. intros [[<- <-]|[_ Hk]]; [|by apply Hreg].
    apply (inv_pending n y Hy). by eapply list_elem_of_lookup_2.
  - unfold discard_read.
    destruct (get id (y_store y)) as [rec|[|]]; intros [= <-]; [|by apply inv_drop..].
    pose proof (inv_cancel n y id Hy) as Hc. rewrite cancel_handlers.
    destruct (jr_status rec);
      rewrite <- (cancel_handlers id y); first [by apply inv_drop | by apply inv_continue].
  - intros [= <-]. apply inv_handlers; [done|].
    intros h Hh. left. by eapply list_elem_of_delete_inv.
Qed.

(** The supervisor's own actions. *)
Lemma inv_sup n now k y y' : inv n y → act_sup now k y = Some y' → inv n y'.
Proof.
  intros Hy. unfold act_sup. destruct (y_sups y !! k) as [s|] eqn:Hk; simpl; [|done].
  assert (running s = true → s_phase s = Select) as Hrun.
  { destruct Hy as [_ Hr _ _]. exact (Forall_lookup_1 _ _ _ _ Hr Hk). }
  assert (∀ p st, s_phase s ≠ Select → s_phase s ≠ Done → p ≠ Done →
    inv n (set_sup k (with_phase p s) (set_store st y))) as Hstep.
  { intros p st Hs Hd Hp. apply (inv_set_sup n y k s); [done|done|done| |].
    - unfold alive. simpl. by rewrite !bool_decide_eq_true_2.
    - intros Hr. by destruct (Hs (Hrun Hr)). }
  destruct (s_phase s) eqn:Hph; try done; intros [= <-].
  - unfold act_read. apply (Hstep _ (y_store y)); [done|done|]. by repeat case_match.
  - by apply Hstep.
  - unfold act_read. apply (Hstep _ (y_store y)); [done|done|]. by repeat case_match.
  - by apply Hstep.
  - pose proof (Hstep Release (y_store y)) as Hs. destruct Hs as [Hp Hr Hreg Hpend]; [done..|].
    split; simpl in *; [done|done| |done].
    intros id j [_ Hj]%lookup_delete_Some. by apply Hreg.
  - assert (inv n (set_sup k (with_phase Deregister s) (set_store (y_store y) y))) as Hy'
      by (by apply Hstep).
    destruct Hy as [Hp Hr Hreg Hpend]. destruct Hy' as [_ _ Hreg' Hpend'].
    assert (∀ id j, names y id j → ∃ s',
      <[k:=with_phase Done s]> (y_sups y) !! j = Some s' ∧ s_job s' = id) as Hnames.
    { intros id j (s0 & Hj & Hid). destruct (decide (j = k)) as [->|Hne].
      - exists (with_phase Done s). rewrite list_lookup_insert_eq by (by eapply lookup_lt_Some).
        split; [done|]. simpl. congruence.
      - exists s0. by rewrite list_lookup_insert_ne. }
    split; simpl.
    + pose proof (count_insert alive (y_sups y) k s (with_phase Done s) Hk) as Hc.
      unfold alive in Hc at 2 4. rewrite Hph in Hc. simpl in Hc. lia.
    + apply Forall_insert; [done|]. intros Hr'. specialize (Hrun Hr'). done.
    + intros. by apply Hnames, Hreg.
    + intros. by apply Hnames, Hpend.
Qed.

Lemma inv_act n l y y' : inv n y → act l y = Some y' → inv n y'.
Proof.
  intros Hy. destruct l as [h|now i|now k c|k i|k|k|now k| |f]; simpl.
  - assert ((∀ id k, h ≠ StartRegister id k) → inv n (set_handlers (y_handlers y ++ [h]) y)) as Hreq.
    { intros Hno. apply (inv_handlers n y (y_handlers y ++ [h]) (y_store y) Hy).
      intros h' [?| ->%list_elem_of_singleton]%elem_of_app; auto. }
    destruct h; try done; intros [= <-]; by apply Hreq.
  - by apply inv_handler.
  - destruct (y_sups y !! k) as [s|]; simpl; [|done].
    destruct (s_inner s); try done. intros [= <-]. by apply inv_store.
  - destruct (y_sups y !! k) as [s|] eqn:Hk; simpl; [|done]. intros Hi.
    assert (y' = set_sup k (with_inner i s) y ∧ i ≠ IRunning false) as [-> Hne]
      by (by destruct (s_inner s) as [[]| | |], i; simplify_eq).
    apply (inv_set_sup n y k s (with_inner i s) (y_store y) Hy Hk); [done|done|].
    unfold running. simpl. by rewrite bool_decide_eq_true.
  - destruct (y_sups y !! k) as [s|] eqn:Hk; simpl; [|done].
    destruct (s_phase s) eqn:Hph; try done. destruct (s_notified s); [|done]. intros [= <-].
    apply (inv_set_sup n y k s _ (y_store y) Hy Hk); [done| |].
    + unfold alive. simpl. by rewrite Hph.
    + unfold running. simpl. rewrite bool_decide_eq_true. by destruct (s_inner s).
  - destruct (y_sups y !! k) as [s|] eqn:Hk; simpl; [|done].
    destruct (s_phase s) eqn:Hph; try done.
    assert (∀ p, p ≠ Done → s_inner s ≠ IRunning false →
      inv n (set_sup k (with_phase p s) y)) as Hstep.
    { intros p Hp Hne. apply (inv_set_sup n y k s _ (y_store y) Hy Hk); [done| |].
      - unfold alive. simpl. rewrite Hph. by rewrite bool_decide_eq_true_2.
      - unfold running. simpl. by rewrite bool_decide_eq_true. }
    destruct (s_inner s) eqn:Hin; try done; intros [= <-]; by apply Hstep.
  - by apply inv_sup.
  - intros [= <-]. destruct Hy as [Hp Hr Hreg Hpend]. split; simpl; [done|done| |done].
    intros id k. by rewrite lookup_empty.
  - intros [= <-]. by apply inv_store.
Qed.

Lemma inv_exec n ls y y' : inv n y → exec ls y = Some y' → inv n y'.
Proof.
  revert y. induction ls as [|l ls IH]; intros y Hy; simpl; [by intros [= <-]|].
  destruct (act l y) as [y1|] eqn:E; simpl; [|done]. apply IH. by eapply inv_act.
Qed.

Lemma inv_boot n st : inv n (boot n st).
Proof.
  split; simpl; [unfold count; simpl; lia|constructor| |].
  - intros id k. by rewrite lookup_empty.
  - by intros id k ?%elem_of_nil.
Qed.
End invariant.

(** ** Signals *)

Section signals.
Context {St : Type} `{JobStore St}.
Implicit Types y : Sys St.

(** A supervisor in its select! with a cancel signal waiting. *)
Definition signalled (y : Sys St) (k : nat) : Prop :=
  ∃ s, y_sups y !! k = Some s ∧ s_phase s = Select ∧ s_notified s = true.

Lemma signalled_set y k j s s' :
  signalled y k → y_sups y !! j = Some s →
  (j = k → s_phase s' = Select ∧ s_notified s' = true) → signalled (set_sup j s' y) k.
Proof.
  intros (s0 & Hk & Hph & Hn) Hj Hs'. unfold signalled. simpl. destruct (decide (j = k)) as [->|Hne].
  - exists s'. rewrite list_lookup_insert_eq by (by eapply lookup_lt_Some). split; [done|auto].
  - exists s0. by rewrite list_lookup_insert_ne.
Qed.

Lemma signalled_same y y' k : y_sups y' = y_sups y → signalled y k → signalled y' k.
Proof. unfold signalled. by intros ->. Qed.

Lemma signalled_cancel y id k : signalled y k → signalled (cancel id y).2 k.
Proof.
  intros Hs. unfold cancel. destruct (y_registry y !! id) as [j|]; simpl; [|done].
  destruct (y_sups y !! j) as [s|] eqn:Hj; [|done]. eapply signalled_set; [done|done|].
  intros ->. destruct Hs as (s0 & Hk & Hph & _). by simplify_eq.
Qed.

Lemma signalled_start y y' id k j :
  start_spawn id y = inr (j, y') → signalled y k → signalled y' k.
Proof.
  unfold start_spawn. destruct (y_permits y); [done|]. intros [= <- <-] (s & Hk & Hs).
  exists s. split; [|done]. simpl. by apply lookup_app_l_Some.
Qed.

(** Only the supervisor's own select! takes the signal away. *)
Lemma signalled_act l y y' k :
  act l y = Some y' → signalled y k → signalled y' k ∨ l = LCancel k ∨ l = LJoin k.
Proof.
  intros Hact Hs. assert (∀ j s, y_sups y !! j = Some s → j = k →
    s_phase s = Select ∧ s_notified s = true) as Hself.
  { intros j s Hj ->. destruct Hs as (s0 & Hk & ?). by simplify_eq. }
  destruct l as [h|now i|now j c|j i|j|j|now j| |f]; simpl in Hact.
  - left. destruct h; try done; injection Hact as <-; by eapply signalled_same.
  - left. unfold act_handler in Hact. destruct (y_handlers y !! i) as [h|]; simpl in Hact; [|done].
    destruct h as [id|id rec|id j|id|id].
    + injection Hact as <-. destruct (start_read _ _); by eapply signalled_same.
    + injection Hact as <-. destruct (start_spawn id y) as [|[j y1]] eqn:E;
        [by eapply signalled_same|].
      eapply signalled_same; [|exact (signalled_start _ _ _ _ _ E Hs)]. done.
    + injection Hact as <-. by eapply signalled_same.
    + unfold discard_read in Hact. destruct (get id (y_store y)) as [rec|[|]]; simpl in Hact.
      * destruct (jr_status rec); injection Hact as <-;
          (eapply signalled_same; [|by apply (signalled_cancel y id)]; done).
      * injection Hact as <-. by eapply signalled_same.
      * injection Hact as <-. by eapply signalled_same.
    + injection Hact as <-. by eapply signalled_same.
  - left. destruct (y_sups y !! j) as [s|]; simpl in Hact; [|done].
    destruct (s_inner s); try done. injection Hact as <-. by eapply signalled_same.
  - left. destruct (y_sups y !! j) as [s|] eqn:Hj; simpl in Hact; [|done].
    assert (y' = set_sup j (with_inner i s) y) as -> by (by repeat case_match; simplify_eq).
    eapply signalled_set; [done|done|]. exact (Hself j s Hj).
  - destruct (decide (j = k)) as [->|Hne]; [by right; left|left].
    destruct (y_sups y !! j) as [s|] eqn:Hj; simpl in Hact; [|done].
    destruct (s_phase s), (s_notified s); try done. injection Hact as <-. by eapply signalled_set.
  - destruct (decide (j = k)) as [->|Hne]; [by right; right|left].
    destruct (y_sups y !! j) as [s|] eqn:Hj; simpl in Hact; [|done].
    destruct (s_phase s), (s_inner s); try done; injection Hact as <-; by eapply signalled_set.
  - left. unfold act_sup in Hact. destruct (y_sups y !! j) as [s|] eqn:Hj; simpl in Hact; [|done].
    assert (j ≠ k ∨ s_phase s = Select) as Hor.
    { destruct (decide (j = k)) as [->|]; [right|by left]. by apply (Hself k s). }
    destruct Hor as [Hne|Hph]; [|by rewrite Hph in Hact].
    assert (∀ y1 s', y_sups y1 = y_sups y → signalled (set_sup j s' y1) k) as Hset.
    { intros y1 s' Hy1. apply (signalled_same (set_sup j s' y)); [simpl; by rewrite Hy1|].
      by eapply signalled_set. }
    destruct (s_phase s); try done; injection Hact as <-; by apply Hset.
  - left. injection Hact as <-. by eapply signalled_same.
  - left. injection Hact as <-. by eapply signalled_same.
Qed.

(** *** After the choice *)

(** The actions left to a supervisor. *)
Definition rank (p : phase) : nat :=
  match p with
  | Select => 5 | CancelRead | PanicRead => 4 | CancelWrite | PanicWrite => 3
  | Deregister => 2 | Release => 1 | Done => 0
  end.
Definition own (k : nat) (l : label (St := St)) : nat :=
  match l with LSup _ j => if decide (j = k) then 1 else 0 | _ => 0 end.

(** The supervisor [k] has chosen, and at most [n] of its actions are left. *)
Definition chosen (n k : nat) (y : Sys St) : Prop :=
  ∃ s, y_sups y !! k = Some s ∧ s_phase s ≠ Select ∧ (rank (s_phase s) ≤ n)%nat.

Lemma chosen_same n k y y' : y_sups y' = y_sups y → chosen n k y → chosen n k y'.
Proof. unfold chosen. by intros ->. Qed.

Lemma chosen_set n k y j s s' :
  chosen n k y → y_sups y !! j = Some s → s_phase s' = s_phase s → chosen n k (set_sup j s' y).
Proof.
  intros (s0 & Hk & Hph & Hr) Hj Hs'. unfold chosen. simpl. destruct (decide (j = k)) as [->|Hne].
  - exists s'. rewrite list_lookup_insert_eq by (by eapply lookup_lt_Some). simplify_eq.
    by rewrite Hs'.
  - exists s0. by rewrite list_lookup_insert_ne.
Qed.

Lemma chosen_cancel n k id y : chosen n k y → chosen n k (cancel id y).2.
Proof.
  intros Hc. unfold cancel. destruct (y_registry y !! id) as [j|]; simpl; [|done].
  destruct (y_sups y !! j) eqn:Hj; [|done]. by eapply chosen_set.
Qed.

Lemma chosen_start n k y y' id j : start_spawn id y = inr (j, y') → chosen n k y → chosen n k y'.
Proof.
  unfold start_spawn. destruct (y_permits y); [done|]. intros [= <- <-] (s & Hk & Hs).
  exists s. split; [|done]. simpl. by apply lookup_app_l_Some.
Qed.

(** Another supervisor's choice. *)
Lemma chosen_select n k j l y y' : l = LCancel j ∨ l = LJoin j →
  act l y = Some y' → chosen n k y → chosen n k y'.
Proof.
  intros Hl Hact (s0 & Hk & Hph & Hr).
  assert (∃ s s', y_sups y !! j = Some s ∧ s_phase s = Select ∧ y' = set_sup j s' y)
    as (s & s' & Hj & Hsel & ->).
  { destruct Hl as [-> | ->]; simpl in Hact; destruct (y_sups y !! j) as [s|]; try done;
      simpl in Hact; destruct (s_phase s) eqn:Hsel, (s_notified s), (s_inner s); try done;
      injection Hact as <-; by eexists s, _. }
  assert (j ≠ k) by (intros ->; simplify_eq). exists s0. simpl.
  by rewrite list_lookup_insert_ne.
Qed.

(** A supervisor's own action uses one of them up; no other action adds one. *)
Lemma chosen_sup n k now j y y' : act_sup now j y = Some y' → chosen n k y →
  ((if decide (j = k) then 1 else 0) ≤ n)%nat ∧
  chosen (n - if decide (j = k) then 1 else 0) k y'.
Proof.
  intros Hact (s0 & Hk & Hph & Hr). unfold act_sup in Hact.
  destruct (y_sups y !! j) as [s|] eqn:Hj; simpl in Hact; [|done].
  destruct (decide (j = k)) as [->|Hne].
  - assert (s = s0) as -> by congruence.
    assert (∀ y1 p, y_sups y1 = y_sups y → p ≠ Select → (rank p < rank (s_phase s0))%nat →
      (1 ≤ n)%nat ∧ chosen (n - 1) k (set_sup k (with_phase p s0) y1)) as Hset.
    { intros y1 p Hy1 Hp Hlt. split; [lia|]. exists (with_phase p s0). simpl. rewrite Hy1.
      rewrite list_lookup_insert_eq by (by eapply lookup_lt_Some). split; [done|]. simpl.
      split; [done|lia]. }
    destruct (s_phase s0) eqn:Hp; try done; injection Hact as <-; try (apply Hset; [done..|simpl; lia]);
      (apply Hset; [done|by repeat case_match|simpl; repeat case_match; simpl; lia]).
  - split; [lia|].
    assert (∀ y1 p, y_sups y1 = y_sups y → chosen (n - 0) k (set_sup j (with_phase p s) y1)) as Hset.
    { intros y1 p Hy1. exists s0. simpl. rewrite Hy1, list_lookup_insert_ne by done.
      split; [done|]. split; [done|lia]. }
    destruct (s_phase s); try done; injection Hact as <-; by apply Hset.
Qed.

Lemma chosen_act n k l y y' : act l y = Some y' → chosen n k y →
  (own k l ≤ n)%nat ∧ chosen (n - own k l) k y'.
Proof.
  intros Hact Hc. destruct l as [h|now i|now j c|j i|j|j|now j| |f]; simpl in Hact;
    cbn [own]; rewrite ?Nat.sub_0_r; try (split; [lia|]).
  - destruct h; try done; injection Hact as <-; by eapply chosen_same.
  - unfold act_handler in Hact. destruct (y_handlers y !! i) as [h|]; simpl in Hact; [|done].
    destruct h as [id|id rec|id j|id|id].
    + injection Hact as <-. destruct (start_read _ _); by eapply chosen_same.
    + injection Hact as <-. destruct (start_spawn id y) as [|[j y1]] eqn:E; [by eapply chosen_same|].
      eapply chosen_same; [|exact (chosen_start _ _ _ _ _ _ E Hc)]. done.
    + injection Hact as <-. by eapply chosen_same.
    + unfold discard_read in Hact. destruct (get id (y_store y)) as [rec|[|]]; simpl in Hact.
      * destruct (jr_status rec); injection Hact as <-;
          (eapply chosen_same; [|by apply (chosen_cancel n k id y)]; done).
      * injection Hact as <-. by eapply chosen_same.
      * injection Hact as <-. by eapply chosen_same.
    + injection Hact as <-. by eapply chosen_same.
  - destruct (y_sups y !! j) as [s|]; simpl in Hact; [|done].
    destruct (s_inner s); try done. injection Hact as <-. by eapply chosen_same.
  - destruct (y_sups y !! j) as [s|] eqn:Hj; simpl in Hact; [|done].
    assert (y' = set_sup j (with_inner i s) y) as -> by (by repeat case_match; simplify_eq).
    by eapply chosen_set.
  - apply (chosen_select n k j (LCancel j) y y'); [by left|done|done].
  - apply (chosen_select n k j (LJoin j) y y'); [by right|done|done].
  - by eapply chosen_sup.
  - injection Hact as <-. by eapply chosen_same.
  - injection Hact as <-. by eapply chosen_same.
Qed.

(** Along any interleaving. *)
Lemma chosen_exec k ls : ∀ n y y', exec ls y = Some y' → chosen n k y →
  (list_sum (own k <$> ls) ≤ n)%nat ∧ chosen (n - list_sum (own k <$> ls)) k y'.
Proof.
  induction ls as [|l ls IH]; intros n y y'; cbn [exec].
  - intros [= <-]. simpl. rewrite Nat.sub_0_r. split; [lia|done].
  - rewrite fmap_cons. change (list_sum (own k l :: (own k <$> ls)))
      with (own k l + list_sum (own k <$> ls))%nat. destruct (act l y) as [y1|] eqn:E; simpl; [|done]. intros Hex Hc.
    destruct (chosen_act _ _ _ _ _ E Hc) as [Hn Hc1], (IH _ _ _ Hex Hc1) as [Hs Hc2].
    rewrite Nat.sub_add_distr. split; [lia|done].
Qed.

(** Until a supervisor that has chosen is done, its next action can be taken. *)
Lemma chosen_left n k ls y y' : chosen n k y → exec ls y = Some y' →
  (list_sum (own k <$> ls) ≤ n)%nat ∧
  ((∃ s, y_sups y' !! k = Some s ∧ s_phase s = Done) ∨
   (list_sum (own k <$> ls) < n)%nat ∧ ∀ t, is_Some (act (LSup t k) y')).
Proof.
  intros Hc Hex. destruct (chosen_exec _ _ _ _ _ Hex Hc) as [Hs (s & Hk & Hph & Hr)].
  split; [done|]. destruct (decide (s_phase s = Done)) as [E|E]; [left; by exists s|right].
  split; [destruct (s_phase s); simpl in Hr; done || lia|].
  intros t. simpl. unfold act_sup. rewrite Hk. simpl. destruct (s_phase s); done || by eexists.
Qed.

(** *** Settling *)

(** The actions [ls] end the supervision of the job [id] by [k]: its permit is free
    again, the registry no longer has the job, its run does not go on undisturbed,
    and the store answers [rec]. *)
Definition settles (k : nat) (id : string) (rec : JobRecord) (ls : list label) (y : Sys St) : Prop :=
  ∃ y' s, exec ls y = Some y' ∧ y_sups y' !! k = Some s ∧ s_phase s = Done ∧
    s_inner s ≠ IRunning false ∧ y_permits y' = S (y_permits y) ∧
    y_registry y' = delete id (y_registry y) ∧ get id (y_store y') = Ok rec.

Lemma settles_step k id rec l ls y y1 :
  act l y = Some y1 → y_permits y1 = y_permits y → y_registry y1 = y_registry y →
  settles k id rec ls y1 → settles k id rec (l :: ls) y.
Proof.
  intros Hact Hp Hr (y' & s & Hex & Hrest). exists y', s. simpl. rewrite Hact. simpl.
  by rewrite <- Hp, <- Hr.
Qed.

Lemma settles_dereg k s rec now y :
  y_sups y !! k = Some s → s_phase s = Deregister → s_inner s ≠ IRunning false →
  get (s_job s) (y_store y) = Ok rec → settles k (s_job s) rec (replicate 2 (LSup now k)) y.
Proof.
  intros Hk Hph Hin Hget. assert (k < length (y_sups y))%nat as Hlt by (by eapply lookup_lt_Some).
  set (y1 := set_sup k (with_phase Release s) (deregister (s_job s) y)).
  set (y2 := set_sup k (with_phase Done (with_phase Release s))
    (mkSys (y_store y1) (S (y_permits y1)) (y_registry y1) (y_sups y1) (y_handlers y1))).
  assert (act (LSup now k) y = Some y1) as H1.
  { simpl. unfold act_sup. rewrite Hk. simpl. by rewrite Hph. }
  assert (act (LSup now k) y1 = Some y2) as H2.
  { simpl. unfold act_sup. simpl. by rewrite list_lookup_insert_eq. }
  exists y2, (with_phase Done (with_phase Release s)). cbn [replicate exec].
  rewrite H1. cbn [mbind option_bind]. rewrite H2. split; [done|].
  split; [|done]. simpl. by rewrite list_lookup_insert_eq by (by rewrite length_insert).
Qed.
End signals.

(** A supervisor that has to mark its job leaves a final state as it is. *)
Lemma settles_mark `{JobStoreLaws St} (y : Sys St) k s m e now st :
  in_u 64 now → y_sups y !! k = Some s → s_inner s ≠ IRunning false →
  rep (y_store y) m → m !! s_job s = Some e →
  s_phase s = CancelRead ∧ st = Canceled ∨ s_phase s = PanicRead ∧ st = Error →
  settles k (s_job s) (if terminal (jr_status e.1) then e.1 else with_status st now e.1)
    (replicate (if terminal (jr_status e.1) then 3 else 4) (LSup now k)) y.
Proof.
  intros Hnow Hk Hin Hrep Hjob Hph.
  assert (k < length (y_sups y))%nat as Hlt by (by eapply lookup_lt_Some).
  assert (get (s_job s) (y_store y) = Ok e.1) as Hget.
  { rewrite (get_law _ _ _ Hrep). unfold spec_get. by rewrite Hjob. }
  set (wp := match s_phase s with CancelRead => CancelWrite | _ => PanicWrite end).
  assert (act (LSup now k) y = Some (act_read k s wp y)) as Hread.
  { simpl. unfold act_sup, wp. rewrite Hk. simpl. by destruct Hph as [[-> _]|[-> _]]. }
  unfold act_read in Hread. rewrite Hget in Hread.
  destruct (terminal (jr_status e.1)) eqn:Ht.
  - change (replicate 3 (LSup now k)) with (LSup now k :: replicate 2 (LSup (St := St) now k)).
    eapply settles_step; [exact Hread|done..|].
    eapply (settles_dereg k (with_phase Deregister s)); [|done..].
    simpl. by rewrite list_lookup_insert_eq.
  - change (replicate 4 (LSup now k)) with (LSup now k :: LSup now k :: replicate 2 (LSup (St := St) now k)).
    eapply settles_step; [exact Hread|done..|].
    destruct (set_status_law now (s_job s) st Hnow (y_store y) m Hrep) as [_ Hrep'].
    unfold spec_update in Hrep'. rewrite Hjob in Hrep'. simpl in Hrep'.
    eapply settles_step; [|..|eapply (settles_dereg k (with_phase Deregister (with_phase wp s)))].
    + simpl. unfold act_sup. simpl. rewrite list_lookup_insert_eq by done. simpl.
      instantiate (1 := set_sup k (with_phase Deregister (with_phase wp s))
        (set_store (set_status now (s_job s) st (y_store y)).2 (set_sup k (with_phase wp s) y))).
      unfold wp. by destruct Hph as [[-> ->]|[-> ->]].
    + done.
    + done.
    + simpl. by rewrite list_lookup_insert_eq by (by rewrite length_insert).
    + done.
    + done.
    + simpl. rewrite (get_law _ _ _ Hrep'). unfold spec_get. by rewrite lookup_alter_eq, Hjob.
Qed.

(** ** Properties *)

(** C3: the cap on concurrent jobs holds in every interleaving: after any sequence
    of actions from start-up with [n] permits, the free permits and the supervisors
    that have not ended add up to [n], at most [n] jobs run undisturbed, a start is
    refused with 503 exactly when all [n] are taken, and every registry entry names
    a supervisor of its job. *)
Theorem running_jobs_bounded `{JobStore St} (n : nat) (st : St) (ls : list label) (y : Sys St)
    (job_id : string) (Hexec : exec ls (boot n st) = Some y) :
  (y_permits y + count alive (y_sups y) = n)%nat ∧ (count running (y_sups y) ≤ n)%nat ∧
  (start_spawn job_id y = inl queue_full ↔ count alive (y_sups y) = n) ∧
  ∀ id k, y_registry y !! id = Some k → ∃ s, y_sups y !! k = Some s ∧ s_job s = id.
Proof.
  destruct (inv_exec n ls _ _ (inv_boot n st) Hexec) as [Hp Hr Hreg _].
  split; [done|]. split; [|split; [|done]].
  - assert (count running (y_sups y) ≤ count alive (y_sups y))%nat; [|lia].
    apply count_le. intros s Hs Hrun. rewrite Forall_forall in Hr.
    unfold alive. rewrite (Hr s Hs Hrun). done.
  - unfold start_spawn. destruct (y_permits y) as [|p]; split; try done; lia.
Qed.

(** C26: a cancelled job's supervision always ends.  Once its supervisor has been
    signalled, no action of any task takes the signal away but the supervisor's own
    choice, the cancel branch or, when the run has ended, the join branch.  Whichever
    it takes, from then on every interleaving leaves it at most four actions of its
    own, the next one always possible until it is done.  And when no other task steps
    in, on a working store, those actions free the permit and take the job out of the
    registry; a job in a final state keeps it; otherwise the cancel branch leaves the
    job Canceled, the join branch after a panic leaves it in Error, and after any
    other end it leaves the job as the run left it. *)
Theorem cancellation_settles `{JobStoreLaws St} (y : Sys St) (k : nat) (s : Sup) (m : Jobs)
    (e : Entry) (now : Z) (Hnow : in_u 64 now) (Hs : y_sups y !! k = Some s)
    (Hphase : s_phase s = Select) (Hsig : s_notified s = true)
    (Hrep : rep (y_store y) m) (Hjob : m !! s_job s = Some e) :
  let final := terminal (jr_status e.1) in
  (∀ l y', act l y = Some y' → signalled y' k ∨ l = LCancel k ∨ l = LJoin k) ∧
  (is_Some (act (LCancel k) y) ∧
   (is_Some (act (LJoin k) y) ↔ ∀ aborting, s_inner s ≠ IRunning aborting)) ∧
  (∀ l y1 ls y2, l = LCancel k ∨ l = LJoin k → act l y = Some y1 → exec ls y1 = Some y2 →
     (list_sum (own k <$> ls) ≤ 4)%nat ∧
     ((∃ s2, y_sups y2 !! k = Some s2 ∧ s_phase s2 = Done) ∨
      (list_sum (own k <$> ls) < 4)%nat ∧ ∀ t, is_Some (act (LSup t k) y2))) ∧
  settles k (s_job s) (if final then e.1 else with_status Canceled now e.1)
    (LCancel k :: replicate (if final then 3 else 4) (LSup now k)) y ∧
  (s_inner s = IPanicked →
     settles k (s_job s) (if final then e.1 else with_status Error now e.1)
       (LJoin k :: replicate (if final then 3 else 4) (LSup now k)) y) ∧
  (s_inner s = IFinished ∨ s_inner s = ICancelled →
     settles k (s_job s) e.1 (LJoin k :: replicate 2 (LSup now k)) y).
Proof.
  intros final. assert (k < length (y_sups y))%nat as Hlt by (by eapply lookup_lt_Some).
  set (i := match s_inner s with IRunning _ => IRunning true | i => i end).
  assert (i ≠ IRunning false) as Hi by (by unfold i; destruct (s_inner s)).
  set (sc := mkSup (s_job s) false i CancelRead).
  assert (act (LCancel k) y = Some (set_sup k sc y)) as Hcancel.
  { simpl. rewrite Hs. simpl. by rewrite Hphase, Hsig. }
  assert (act (LJoin k) y = match s_inner s with
    | IRunning _ => None
    | IPanicked => Some (set_sup k (with_phase PanicRead s) y)
    | _ => Some (set_sup k (with_phase Deregister s) y) end) as Hjoin.
  { simpl. rewrite Hs. simpl. rewrite Hphase. by destruct (s_inner s). }
  assert (∀ x, y_sups (set_sup k x y) !! k = Some x) as Hins
    by (intros x; by apply list_lookup_insert_eq).
  split; [|split; [|split; [|split; [|split]]]].
  - intros l y' Hact. eapply signalled_act; [exact Hact|]. by exists s.
  - rewrite Hcancel, Hjoin. split; [by eexists|].
    destruct (s_inner s) as [ab| | |]; (split; [done|by eexists]) || split; [by intros []|].
    intros Hne. by destruct (Hne ab).
  - intros l y1 ls y2 Hl Hact Hex. assert (chosen 4 k y1) as Hc.
    { destruct Hl as [-> | ->].
      - rewrite Hcancel in Hact. injection Hact as <-. exists sc. split; [apply Hins|].
        split; [done|simpl; lia].
      - rewrite Hjoin in Hact. destruct (s_inner s); try done; injection Hact as <-;
          (eexists; split; [apply Hins|]; split; [done|simpl; lia]). }
    by apply (chosen_left 4 k ls y1 y2).
  - eapply settles_step; [exact Hcancel|done..|].
    apply (settles_mark _ k sc m); [done|apply Hins|done|done|done|by left].
  - intros Hp. rewrite Hp in Hjoin. eapply settles_step; [exact Hjoin|done..|].
    apply (settles_mark _ k (with_phase PanicRead s) m);
      [done|apply Hins|by simpl; rewrite Hp|done|done|by right].
  - intros Hf. assert (act (LJoin k) y = Some (set_sup k (with_phase Deregister s) y)) as Hj.
    { rewrite Hjoin. by destruct Hf as [-> | ->]. }
    eapply settles_step; [exact Hj|done..|].
    apply (settles_dereg k (with_phase Deregister s));
      [apply Hins|done|simpl; by destruct Hf as [-> | ->]|].
    simpl. rewrite (get_law _ _ _ Hrep). unfold spec_get. by rewrite Hjob.
Qed.

(** ** Witnesses *)

Notation server := (Sys InMemoryJobStore).

(** One request to start the job, from arrival to registration, as handler [i]. *)
Definition start_actions (i : nat) : list (label (St := InMemoryJobStore)) :=
  LRequest (StartRead "j1") :: replicate 3 (LHandler 6 i).

Lemma running_jobs_bounded_witness :
  ∃ y : server, exec (start_actions 0) (boot 2 demo_store) = Some y ∧
    (y_permits y + count alive (y_sups y) = 2)%nat ∧ count running (y_sups y) = 1%nat.
Proof.
  eexists. split; [vm_compute; reflexivity|]. split; [|vm_compute; reflexivity].
  refine (proj1 (running_jobs_bounded 2 demo_store (start_actions 0) _ "j1" _)).
  vm_compute. reflexivity.
Defined.

Lemma cancellation_settles_witness :
  ∃ y y' : server, signalled y 0 ∧
    exec (LCancel 0 :: replicate 4 (LSup 7 0)) y = Some y' ∧
    get "j1" (y_store y') = Ok (with_status Canceled 7 demo_job.1).
Proof.
  set (s := mkSup "j1" true (IRunning false) Select).
  set (y := mkSys demo_store 1 {["j1" := 0%nat]} [s] []).
  assert (rep (y_store y) {["j1" := demo_job]}) as Hrep.
  { destruct (create_law InMemory_new ∅ "j1" 5 "alice" None None Null InMemory_new_rep)
      as [_ H]; [reflexivity|split; reflexivity || (vm_compute; congruence)|reflexivity|].
    exact H. }
  destruct (cancellation_settles y 0 s {["j1" := demo_job]} demo_job 7
    ltac:(split; reflexivity || (vm_compute; congruence)) eq_refl eq_refl eq_refl Hrep eq_refl)
    as (_ & _ & _ & (y' & s' & Hex & _ & _ & _ & _ & _ & Hget) & _).
  exists y, y'. split; [by exists s|]. split; [exact Hex|exact Hget].
Defined.

(** Starting a job is not exclusive, and three more races. From a server with
    one created job and two permits there are interleavings after which (1) the
    job runs under two supervisors at once, because both requests read its status
    before either run wrote it; (2) no supervisor is left but the registry still
    has an entry, because the run ended before the handler registered it; (3) the
    job runs but the registry has no entry, so it can be neither canceled nor
    drained, because a restart registered it before the first supervisor left; (4)
    a job that had finished ends Canceled. *)
Theorem start_races :
  (∃ ls (y : server), exec ls (boot 2 demo_store) = Some y ∧ count running (y_sups y) = 2%nat ∧
     Forall (λ s, s_job s = "j1") (y_sups y)) ∧
  (∃ ls (y : server), exec ls (boot 2 demo_store) = Some y ∧ count alive (y_sups y) = 0%nat ∧
     y_handlers y = [] ∧ in_flight y = 1%nat) ∧
  (∃ ls (y : server), exec ls (boot 2 demo_store) = Some y ∧ count running (y_sups y) = 1%nat ∧
     y_handlers y = [] ∧ in_flight y = 0%nat ∧ (cancel "j1" y).1 = false) ∧
  (∃ ls1 ls2 (y1 y2 : server), exec ls1 (boot 2 demo_store) = Some y1 ∧ exec ls2 y1 = Some y2 ∧
     jr_status <$> get "j1" (y_store y1) = Ok Finished ∧
     jr_status <$> get "j1" (y_store y2) = Ok Canceled).
Proof.
  split; [|split; [|split]].
  - exists ([LRequest (StartRead "j1"); LRequest (StartRead "j1"); LHandler 6 0; LHandler 6 1]
      ++ replicate 4 (LHandler 6 0)).
    eexists. split; [vm_compute; reflexivity|]. split; [vm_compute; reflexivity|].
    repeat constructor.
  - exists (LRequest (StartRead "j1") :: replicate 2 (LHandler 6 0) ++
      [LInner 0 IFinished; LJoin 0; LSup 6 0; LSup 6 0; LHandler 6 0]).
    eexists. split; [vm_compute; reflexivity|]. by vm_compute.
  - exists (start_actions 0 ++ [LRun 6 0 (CStatus Finished)] ++ start_actions 0 ++
      [LInner 0 IFinished; LJoin 0; LSup 6 0]).
    eexists. split; [vm_compute; reflexivity|]. by vm_compute.
  - exists (start_actions 0 ++ [LRun 6 0 (CStatus Running); LRequest (DiscardRead "j1");
      LHandler 6 0; LRun 6 0 (CStatus Finished)]), [LHandler 6 0].
    eexists _, _. split; [vm_compute; reflexivity|]. split; [vm_compute; reflexivity|].
    by vm_compute.
Qed.
