(* ===== verification/Interleave.v ===== *)
(** * Tasks as programs of atomic actions, under interference

    A task of an asynchronous runtime acts on shared state in atomic actions;
    between two of them other tasks act.  A task is a value of [prog]: it has
    returned, or its next action is a function on the state, which also decides
    how the task goes on.  [wp] is the rely-guarantee reading of a task: what
    holds when it returns, whatever others do within the rely, while each of its
    own actions stays within the guarantee. *)

From S2P Require Import Prelude.

Inductive prog (S A : Type) : Type :=
| Ret (a : A)
| Step (f : S → S) (k : S → prog S A).
Arguments Ret {S A} a.
Arguments Step {S A} f k.

Fixpoint prog_bind {S A B} (m : prog S A) (k : A → prog S B) : prog S B :=
  match m with
  | Ret a => k a
  | Step f rest => Step f (λ s, prog_bind (rest s) k)
  end.

(** One action, with its answer. *)
Definition atomic {S A} (f : S → A * S) : prog S A := Step (λ s, (f s).2) (λ s, Ret (f s).1).

(** The [?] operator after an action. *)
Definition prog_try {S A B E} (m : prog S (result E A)) (k : A → prog S (result E B))
    : prog S (result E B) :=
  prog_bind m (λ r, match r with Ok a => k a | Err e => Ret (Err e) end).

Declare Scope prog_scope.
Delimit Scope prog_scope with prog.
Notation "x ⇐ m ; k" := (prog_bind m (λ x, k))
  (at level 20, m at level 100, k at level 200, right associativity) : prog_scope.
Notation "x ⇐? m ; k" := (prog_try m (λ x, k))
  (at level 20, m at level 100, k at level 200, right associativity) : prog_scope.

Section logic.
Context {S : Type} (rely guar : S → S → Prop).

Fixpoint wp {A} (m : prog S A) (Q : A → S → Prop) (s : S) : Prop :=
  match m with
  | Ret a => ∀ s', rely s s' → Q a s'
  | Step f k => ∀ s', rely s s' → guar s' (f s') ∧ wp (k s') Q (f s')
  end.

Lemma wp_mono {A} (m : prog S A) (P Q : A → S → Prop) s :
  (∀ a s, P a s → Q a s) → wp m P s → wp m Q s.
Proof.
  intros HPQ. revert s. induction m as [a|f k IH]; simpl; intros s Hm s' Hs; [by apply HPQ, Hm|].
  destruct (Hm s' Hs) as [Hg Hw]. split; [done|]. by apply IH.
Qed.

Context `{!PreOrder rely}.

(** What a task will do is stable under the actions of others. *)
Lemma wp_rely {A} (m : prog S A) (Q : A → S → Prop) s s' :
  rely s s' → wp m Q s → wp m Q s'.
Proof. intros Hs Hm. destruct m as [a|f k]; simpl in *; intros s'' Hs'; apply Hm; by etrans. Qed.

Lemma wp_ret {A} (a : A) (Q : A → S → Prop) s : (∀ s', rely s s' → Q a s') → wp (Ret a) Q s.
Proof. done. Qed.

Lemma wp_bind {A B} (m : prog S A) (k : A → prog S B) (Q : B → S → Prop) s :
  wp m (λ a, wp (k a) Q) s → wp (prog_bind m k) Q s.
Proof.
  revert s. induction m as [a|f rest IH]; simpl; intros s Hm.
  - by apply Hm.
  - intros s' Hs. destruct (Hm s' Hs) as [Hg Hw]. split; [done|]. by apply IH.
Qed.

Lemma wp_atomic {A} (f : S → A * S) (Q : A → S → Prop) s :
  (∀ s', rely s s' → guar s' (f s').2 ∧ ∀ s'', rely (f s').2 s'' → Q (f s').1 s'') →
  wp (atomic f) Q s.
Proof. done. Qed.

Lemma wp_try {A B E} (m : prog S (result E A)) (k : A → prog S (result E B))
    (Q : result E B → S → Prop) s :
  wp m (λ r s', match r with Ok a => wp (k a) Q s' | Err e => ∀ s'', rely s' s'' → Q (Err e) s'' end) s →
  wp (prog_try m k) Q s.
Proof. intros Hm. apply wp_bind. eapply wp_mono; [|exact Hm]. intros [a|e] s'; done. Qed.

(** Running a task alone: it ends, in a state its specification allows, and each
    property that the guarantee preserves is preserved. *)
Lemma wp_runs {A} (m : prog S A) (Q : A → S → Prop) (I : S → S → Prop) `{!PreOrder I} s :
  (∀ s s', guar s s' → I s s') → wp m Q s → ∃ a s', Q a s' ∧ I s s'.
Proof.
  intros HI. revert s. induction m as [a|f k IH]; simpl; intros s Hm.
  - exists a, s. by split; [apply Hm|].
  - destruct (Hm s) as [Hg Hw]; [done|]. destruct (IH s (f s) Hw) as (a & s' & HQ & Hs').
    exists a, s'. split; [done|]. etrans; [by apply HI|done].
Qed.
End logic.

(** ** A pool of tasks over one shared state *)

Section pool.
Context {S A : Type}.

Record Pool := mkPool { shared : S; tasks : gmap string (prog S A) }.

(** The next action of a task, if it has one. *)
Definition step_task (id : string) (p : Pool) : Pool :=
  match tasks p !! id with
  | Some (Step f k) => mkPool (f (shared p)) (<[id := k (shared p)]> (tasks p))
  | _ => p
  end.

(** A change of the state that is not an action of any task. *)
Definition outside (f : S → S) (p : Pool) : Pool := mkPool (f (shared p)) (tasks p).

Definition spawn (id : string) (m : prog S A) (p : Pool) : Pool :=
  match tasks p !! id with
  | None => mkPool (shared p) (<[id := m]> (tasks p))
  | Some _ => p
  end.

(** Each task has its own rely, guarantee and specification; the guarantee of a
    task implies the rely of every other one. *)
Context (rely guar : string → S → S → Prop) (post : string → A → S → Prop).
Context (fresh : string → S → Prop).
Context `{!∀ id, PreOrder (rely id)}.
Hypothesis guar_rely : ∀ i j s s', i ≠ j → guar i s s' → rely j s s'.
Hypothesis fresh_rely : ∀ i s s', rely i s s' → fresh i s → fresh i s'.

Definition pool_ok (p : Pool) : Prop :=
  ∀ id, match tasks p !! id with
        | Some m => wp (rely id) (guar id) m (post id) (shared p)
        | None => fresh id (shared p)
        end.

Lemma step_task_ok id p : pool_ok p → pool_ok (step_task id p).
Proof.
  intros Hp. unfold step_task. destruct (tasks p !! id) as [[a|f k]|] eqn:Hid; [done| |done].
  pose proof (Hp id) as Hm. rewrite Hid in Hm. destruct (Hm (shared p)) as [Hg Hw]; [done|].
  intros j. simpl. destruct (decide (id = j)) as [<-|Hne].
  - rewrite lookup_insert_eq. exact Hw.
  - rewrite lookup_insert_ne by done. specialize (Hp j).
    destruct (tasks p !! j) as [m|].
    + eapply wp_rely; [done| |exact Hp]. by eapply guar_rely.
    + eapply fresh_rely; [|exact Hp]. by eapply guar_rely.
Qed.

Lemma outside_ok f p :
  (∀ id, rely id (shared p) (f (shared p))) → pool_ok p → pool_ok (outside f p).
Proof.
  intros Hf Hp j. specialize (Hp j). simpl. destruct (tasks p !! j) as [m|].
  - by eapply wp_rely; [done| |exact Hp].
  - by eapply fresh_rely; [|exact Hp].
Qed.

Lemma spawn_ok id m p :
  (∀ s, fresh id s → wp (rely id) (guar id) m (post id) s) → pool_ok p → pool_ok (spawn id m p).
Proof.
  intros Hm Hp. unfold spawn. destruct (tasks p !! id) as [m'|] eqn:Hid; [done|].
  intros j. simpl. destruct (decide (id = j)) as [<-|Hne].
  - rewrite lookup_insert_eq. apply Hm. specialize (Hp id). by rewrite Hid in Hp.
  - rewrite lookup_insert_ne by done. apply Hp.
Qed.
End pool.
Arguments Pool : clear implicits.
