(* ===== verification/Ir.v ===== *)
(** * The typed process-graph representation: apps/orbit-openeo/src/process_graph_ir.rs

    Nodes of a process graph lifted from JSON arguments into a typed enum, with
    callbacks as nested graphs.  serde's derived decoder of a node map is a
    parameter; its law is that it takes apart the value it is given, which bounds
    the nesting of callbacks. *)

From Stdlib Require Import Floats.SpecFloat.
From S2P Require Import Prelude BTree F64 Json ProcessGraph.
Local Open Scope Z_scope.

(** ** Arguments *)

Inductive IrError :=
| UnsupportedProcess (p : string)
| MissingArgument (process arg : string)
| BadArgument (process arg reason : string)
| UnresolvedFromNode (id : string).

Record BBox := mkBBox { west : f64; south : f64; east : f64; north : f64 }.

Definition num_field (v : Value) (k : string) : result IrError f64 :=
  ok_or (jget k v ≫= as_f64) (BadArgument "bbox" k "expected number").

Definition bbox_parse (v : Value) : result IrError BBox :=
  west ← num_field v "west";
  south ← num_field v "south";
  east ← num_field v "east";
  north ← num_field v "north";
  Ok (mkBBox west south east north).

Record TemporalExtent := mkTemporalExtent { te_start : string; te_end : string }.

Definition temporal_parse (v : Value) : result IrError TemporalExtent :=
  arr ← ok_or (as_array v) (BadArgument "temporal_extent" "value" "expected 2-array");
  match arr with
  | [a; b] => Ok (mkTemporalExtent (default ".." (as_str a)) (default ".." (as_str b)))
  | _ => Err (BadArgument "temporal_extent" "value"
                ("expected 2 entries, got " +:+ pretty (length arr)))
  end.

Inductive ArgValue := Ref (node : string) | Literal (v : Value).

(** [NodeRef::try_parse] *)
Definition node_ref (v : Value) : option string := jget "from_node" v ≫= as_str.

Definition arg_parse (v : Value) : ArgValue :=
  match node_ref v with Some n => Ref n | None => Literal v end.

(** The derived serialisation of [ArgValue], an untagged enum whose first variant
    holds a transparent string. *)
Definition arg_to_json (a : ArgValue) : Value :=
  match a with Ref n => JString n | Literal v => v end.
Definition arg_from_json (v : Value) : ArgValue :=
  match v with JString n => Ref n | _ => Literal v end.

(** ** Nodes and graphs *)

Inductive ProcessNode :=
| LoadCollection (id : string) (spatial_extent : option BBox)
    (temporal_extent : option TemporalExtent) (bands : option (list string))
| FilterBbox (data : ArgValue) (extent : BBox)
| FilterTemporal (data : ArgValue) (extent : TemporalExtent)
| FilterSpatial (data : ArgValue) (geometries : Value)
| Ndvi (data : ArgValue)
| Mask (data mask : ArgValue) (replacement : option ArgValue)
| ReduceDimension (data : ArgValue) (reducer : ProcessGraphIr) (dimension : string)
| Apply (data : ArgValue) (process : ProcessGraphIr)
| ResampleSpatial (data : ArgValue) (projection : Z) (resolution : option f64)
| MergeCubes (cube1 cube2 : ArgValue)
| SaveResult (data : ArgValue) (format : string)
| Add (x y : ArgValue)
| Subtract (x y : ArgValue)
| Multiply (x y : ArgValue)
| Divide (x y : ArgValue)
with ProcessGraphIr :=
| mkIr (ir_nodes : list (string * ProcessNode)) (ir_result_id : option string).

Definition ir_nodes (g : ProcessGraphIr) : btree string ProcessNode := let 'mkIr ns _ := g in ns.
Definition ir_result_id (g : ProcessGraphIr) : option string := let 'mkIr _ r := g in r.

Definition has_subgraph (n : ProcessNode) : bool :=
  match n with ReduceDimension _ _ _ | Apply _ _ => true | _ => false end.

Definition node_process_id (n : ProcessNode) : string :=
  match n with
  | LoadCollection _ _ _ _ => "load_collection"
  | FilterBbox _ _ => "filter_bbox"
  | FilterTemporal _ _ => "filter_temporal"
  | FilterSpatial _ _ => "filter_spatial"
  | Ndvi _ => "ndvi"
  | Mask _ _ _ => "mask"
  | ReduceDimension _ _ _ => "reduce_dimension"
  | Apply _ _ => "apply"
  | ResampleSpatial _ _ _ => "resample_spatial"
  | MergeCubes _ _ => "merge_cubes"
  | SaveResult _ _ => "save_result"
  | Add _ _ => "add"
  | Subtract _ _ => "subtract"
  | Multiply _ _ => "multiply"
  | Divide _ _ => "divide"
  end.

(** ** Lifting *)

Notation Args := (btree string Value).

Definition arg (args : Args) (key : string) : result IrError ArgValue :=
  ok_or (arg_parse <$> bt_get key args) (MissingArgument "<unknown>" key).

Definition data_arg (args : Args) : result IrError ArgValue := arg args "data".

Definition req_arg (process : string) (args : Args) (key : string) : result IrError Value :=
  ok_or (bt_get key args) (MissingArgument process key).

Definition str_arg (process : string) (args : Args) (key : string) : result IrError string :=
  v ← req_arg process args key; ok_or (as_str v) (BadArgument process key "expected string").

(** [.map(f).transpose()] *)
Definition transpose {A B} (f : A → result IrError B) (o : option A) : result IrError (option B) :=
  match o with Some a => b ← f a; Ok (Some b) | None => Ok None end.

(** [or_else] *)
Definition or_else {A} (r s : result IrError A) : result IrError A :=
  match r with Ok a => Ok a | Err _ => s end.

Definition binary (make : ArgValue → ArgValue → ProcessNode) (args : Args)
    : result IrError ProcessNode :=
  x ← arg args "x"; y ← arg args "y"; Ok (make x y).

(** The strings of an array; other entries are dropped. *)
Definition band_names (v : option Value) : option (list string) :=
  match v ≫= as_array with Some l => Some (omap as_str l) | None => None end.

Definition parse_load_collection (pid : string) (args : Args) : result IrError ProcessNode :=
  id ← str_arg pid args "id";
  spatial ← transpose bbox_parse (bt_get "spatial_extent" args);
  temporal ← transpose temporal_parse (bt_get "temporal_extent" args);
  Ok (LoadCollection id spatial temporal (band_names (bt_get "bands" args))).

Definition parse_filter_bbox (pid : string) (args : Args) : result IrError ProcessNode :=
  data ← data_arg args;
  v ← req_arg pid args "extent";
  extent ← bbox_parse v;
  Ok (FilterBbox data extent).

Definition parse_filter_temporal (pid : string) (args : Args) : result IrError ProcessNode :=
  data ← data_arg args;
  v ← req_arg pid args "extent";
  extent ← temporal_parse v;
  Ok (FilterTemporal data extent).

Definition parse_filter_spatial (pid : string) (args : Args) : result IrError ProcessNode :=
  data ← data_arg args;
  geometries ← req_arg pid args "geometries";
  Ok (FilterSpatial data geometries).

Definition parse_ndvi (_ : string) (args : Args) : result IrError ProcessNode :=
  data ← data_arg args; Ok (Ndvi data).

Definition parse_mask (_ : string) (args : Args) : result IrError ProcessNode :=
  data ← data_arg args;
  mask ← arg args "mask";
  Ok (Mask data mask (arg_parse <$> bt_get "replacement" args)).

Definition parse_resample_spatial (pid : string) (args : Args) : result IrError ProcessNode :=
  data ← data_arg args;
  v ← req_arg pid args "projection";
  projection ← ok_or (as_u64 v) (BadArgument pid "projection" "expected u64 (EPSG)");
  Ok (ResampleSpatial data (wrap 32 projection) (bt_get "resolution" args ≫= as_f64)).

Definition parse_merge_cubes (_ : string) (args : Args) : result IrError ProcessNode :=
  cube1 ← or_else (arg args "cube1") (arg args "data1");
  cube2 ← or_else (arg args "cube2") (arg args "data2");
  Ok (MergeCubes cube1 cube2).

Definition parse_save_result (_ : string) (args : Args) : result IrError ProcessNode :=
  data ← data_arg args;
  Ok (SaveResult data (default "GTiff" (bt_get "format" args ≫= as_str))).

(** The arms of the match on the process id, without those that carry a callback. *)
Definition leaf_arms : list (string * (string → Args → result IrError ProcessNode)) := [
  ("load_collection", parse_load_collection);
  ("filter_bbox", parse_filter_bbox);
  ("filter_temporal", parse_filter_temporal);
  ("filter_spatial", parse_filter_spatial);
  ("ndvi", parse_ndvi);
  ("mask", parse_mask);
  ("resample_spatial", parse_resample_spatial);
  ("merge_cubes", parse_merge_cubes);
  ("save_result", parse_save_result);
  ("add", λ _, binary Add);
  ("subtract", λ _, binary Subtract);
  ("multiply", λ _, binary Multiply);
  ("divide", λ _, binary Divide)].

Definition parse_leaf (pid : string) (args : Args) : result IrError ProcessNode :=
  match assoc_get pid leaf_arms with
  | Some arm => arm pid args
  | None => Err (UnsupportedProcess pid)
  end.

(** [?] where the recursion may have run out of fuel. *)
Definition try_ {A B} (m : option (result IrError A)) (k : A → option (result IrError B))
    : option (result IrError B) :=
  match m with
  | None => None
  | Some (Err e) => Some (Err e)
  | Some (Ok a) => k a
  end.

Section lift.
(** [serde_json::from_value] at a node map. *)
Context (decode_nodes : Value → result string (btree string Process)).

Section graph.
Context (parse : Process → option (result IrError ProcessNode)).

Fixpoint from_nodes_loop (ns : btree string Process) (out : btree string ProcessNode)
    (result_id : option string) : option (result IrError ProcessGraphIr) :=
  match ns with
  | [] => Some (Ok (mkIr out result_id))
  | (id, p) :: ns =>
      let result_id :=
        if is_result p && negb (bool_decide (is_Some result_id)) then Some id else result_id in
      try_ (parse p) (λ n, from_nodes_loop ns (bt_insert id n out) result_id)
  end.

Definition subgraph (process : string) (args : Args) (key : string)
    : option (result IrError ProcessGraphIr) :=
  try_ (Some (req_arg process args key)) (λ v,
    let pg_value := default v (jget "process_graph" v) in
    match decode_nodes pg_value with
    | Err e => Some (Err (BadArgument process key ("not a valid process_graph: " +:+ e)))
    | Ok ns => from_nodes_loop ns [] None
    end).

Definition parse_step (p : Process) : option (result IrError ProcessNode) :=
  let pid := process_id p in
  let args := arguments p in
  if bool_decide (pid = "reduce_dimension") then
    try_ (Some (data_arg args)) (λ data,
    try_ (subgraph pid args "reducer") (λ reducer,
    try_ (Some (str_arg pid args "dimension")) (λ dimension,
    Some (Ok (ReduceDimension data reducer dimension)))))
  else if bool_decide (pid = "apply") then
    try_ (Some (data_arg args)) (λ data,
    try_ (subgraph pid args "process") (λ process,
    Some (Ok (Apply data process))))
  else Some (parse_leaf pid args).
End graph.

(** The fuel bounds how deep callbacks nest. *)
Fixpoint parse (fuel : nat) (p : Process) : option (result IrError ProcessNode) :=
  match fuel with O => None | S fuel => parse_step (parse fuel) p end.

Definition from_nodes (fuel : nat) (ns : btree string Process) : option (result IrError ProcessGraphIr) :=
  from_nodes_loop (parse fuel) ns [] None.

Definition from_graph (fuel : nat) (g : ProcessGraph) : option (result IrError ProcessGraphIr) :=
  from_nodes fuel (nodes g).
End lift.

(** ** How deep callbacks nest *)

Definition args_size (p : Process) : nat := list_sum ((λ e, value_size e.2) <$> arguments p).
Definition graph_size (ns : btree string Process) : nat := list_sum ((λ e, args_size e.2) <$> ns).

Lemma bt_get_elem (k : string) {V} (t : btree string V) v : bt_get k t = Some v → (k, v) ∈ t.
Proof.
  induction t as [|[k' v'] t IH]; simpl; [done|]. destruct (cmp k k') eqn:E; intros H.
  - apply cmp_eq in E as ->. injection H as ->. by left.
  - done.
  - right. by apply IH.
Qed.

Section enough.
Context (decode_nodes : Value → result string (btree string Process)).
(** Decoding takes the value apart: arguments are parts of it. *)
Hypothesis decode_smaller : ∀ v ns, decode_nodes v = Ok ns → (graph_size ns < value_size v)%nat.
Hypothesis decode_wf : ∀ v ns, decode_nodes v = Ok ns → bt_wf ns.

Lemma from_nodes_loop_some f ns out r :
  (∀ e, e ∈ ns → is_Some (f e.2)) → is_Some (from_nodes_loop f ns out r).
Proof.
  revert out r. induction ns as [|[id p] ns IH]; intros out r Hf; simpl; [done|].
  destruct (Hf (id, p)) as [[n|e] Hn]; [by left| |]; simpl in Hn; rewrite Hn; simpl; [|done].
  apply IH. intros e He. apply Hf. by right.
Qed.

(** Fuel above the size of the arguments is enough. *)
Lemma parse_some fuel p : (args_size p < fuel)%nat → is_Some (parse decode_nodes fuel p).
Proof.
  revert p. induction fuel as [|fuel IH]; intros p Hs; [lia|]. simpl.
  assert (∀ key, is_Some (subgraph decode_nodes (parse decode_nodes fuel) (process_id p)
                            (arguments p) key)) as Hsub.
  { intros key. unfold subgraph, req_arg. destruct (bt_get key (arguments p)) as [v|] eqn:Hv; simpl; [|done].
    apply bt_get_elem in Hv. apply (elem_list_sum (λ e : string * Value, value_size e.2)) in Hv.
    change (list_sum _) with (args_size p) in Hv. simpl in Hv.
    assert (value_size (default v (jget "process_graph" v)) ≤ value_size v)%nat as Hd.
    { destruct (jget "process_graph" v) eqn:Hj; simpl; [|done]. apply jget_size in Hj. lia. }
    destruct (decode_nodes _) as [ns|e] eqn:Hns; [|done]. apply decode_smaller in Hns.
    apply from_nodes_loop_some. intros e He. apply IH.
    apply (elem_list_sum (λ e : string * Process, args_size e.2)) in He.
    change (list_sum _) with (graph_size ns) in He. lia. }
  unfold parse_step. destruct (Hsub "reducer") as [r1 ->], (Hsub "process") as [r2 ->].
  unfold try_. repeat case_goal; by eexists.
Qed.

Definition carries_callback (pid : string) : Prop := pid = "reduce_dimension" ∨ pid = "apply".

Definition labelled (pid : string) (n : ProcessNode) : Prop :=
  node_process_id n = pid ∧ (has_subgraph n = true ↔ carries_callback pid).

(** Splits a chain of binds that ended well. *)
Ltac binds H :=
  repeat match type of H with
  | mbind _ ?m = Ok _ => destruct m eqn:?; simpl in H; [|discriminate H]
  | Ok _ = Ok _ => injection H as <-
  end.

Lemma leaf_labelled pid args n : parse_leaf pid args = Ok n → ¬ carries_callback pid →
  labelled pid n.
Proof.
  intros Hn Hc. split; [|split; [|done]]; revert Hn; unfold parse_leaf, leaf_arms;
    cbn [assoc_get]; repeat match goal with
    | |- context [bool_decide (pid = ?s)] => destruct (bool_decide_reflect (pid = s)) as [->|_]
    end; unfold parse_load_collection, parse_filter_bbox, parse_filter_temporal, parse_filter_spatial,
        parse_ndvi, parse_mask, parse_resample_spatial, parse_merge_cubes, parse_save_result, binary;
    intros Hn; binds Hn; done.
Qed.

Lemma try_ok {A B} (m : option (result IrError A)) (k : A → option (result IrError B)) b :
  try_ m k = Some (Ok b) → ∃ a, m = Some (Ok a) ∧ k a = Some (Ok b).
Proof. destruct m as [[a|e]|]; simpl; [eauto|done|done]. Qed.

Lemma parse_labelled fuel p n :
  parse decode_nodes fuel p = Some (Ok n) → labelled (process_id p) n.
Proof.
  destruct fuel as [|fuel]; [done|]. simpl. unfold parse_step.
  case_bool_decide as Hr; [|case_bool_decide as Ha].
  - intros (data & _ & (red & _ & (dim & _ & [= <-])%try_ok)%try_ok)%try_ok. rewrite Hr.
    split; [done|]. split; [by left|done].
  - intros (data & _ & (pr & _ & [= <-])%try_ok)%try_ok. rewrite Ha.
    split; [done|]. split; [by right|done].
  - intros [= Hn]. apply (leaf_labelled _ _ _ Hn). intros [?|?]; done.
Qed.

Lemma from_nodes_loop_ok f ns out r ir :
  bt_wf ns → Forall (λ e, Forall (λ e', cmp e.1 e'.1 = Lt) ns) out → bt_wf out →
  from_nodes_loop f ns out r = Some (Ok ir) →
  ∃ l, ir_nodes ir = out ++ l ∧
    Forall2 (λ e e' : string * _, e'.1 = e.1 ∧ f e.2 = Some (Ok e'.2)) ns l ∧
    ir_result_id ir = match r with
                      | Some id => Some id
                      | None => fst <$> List.find (λ e, is_result e.2) ns
                      end.
Proof.
  revert out r. induction ns as [|[id p] ns IH]; intros out r Hns Hout Hwf; simpl.
  - intros [= <-]. exists []. simpl. rewrite app_nil_r. repeat split; [constructor|by destruct r].
  - intros (n & Hn & Hl)%try_ok. apply bt_wf_tail in Hns as [Hns Hlt].
    assert (bt_insert id n out = out ++ [(id, n)]) as Hins.
    { apply bt_insert_last. eapply Forall_impl; [exact Hout|]. intros e He.
      by apply Forall_cons in He as [He _]. }
    rewrite Hins in Hl. apply IH in Hl as (l & Hl & Hall & Hr); [|done| |].
    + exists ((id, n) :: l). rewrite Hl, <- app_assoc. split; [done|]. split; [by constructor|].
      rewrite Hr. destruct r; simpl.
      * by rewrite andb_false_r.
      * by destruct (is_result p).
    + apply Forall_app. split.
      * eapply Forall_impl; [exact Hout|]. intros e He. by apply Forall_cons in He as [_ He].
      * constructor; [|constructor]. eapply Forall_impl; [exact Hlt|]. done.
    + rewrite <- Hins. by apply bt_wf_insert.
Qed.

Lemma from_nodes_loop_err f ns out r err :
  from_nodes_loop f ns out r = Some (Err err) →
  ∃ l1 id p l2, ns = l1 ++ (id, p) :: l2 ∧ f p = Some (Err err) ∧
    Forall (λ e, ∃ n, f e.2 = Some (Ok n)) l1.
Proof.
  revert out r. induction ns as [|[id p] ns IH]; intros out r; simpl; [done|].
  destruct (f p) as [[n|e]|] eqn:Hf; simpl; [|intros [= ->]|done].
  - intros (l1 & id' & p' & l2 & -> & He & Hall)%IH. exists ((id, p) :: l1), id', p', l2.
    split; [done|]. split; [done|]. constructor; [by exists n|done].
  - exists [], id, p, ns. repeat split; [done|constructor].
Qed.

(** Lifting a graph always comes to an end, however deep its callbacks nest.  The
    typed graph has the keys of the graph in their order, each node the process of
    its source and a nested graph exactly for the processes that take a callback;
    its result is the first node marked as one; and lifting fails only with the
    error of the first node that cannot be lifted. *)
Theorem from_nodes_lifts fuel ns :
  bt_wf ns → (graph_size ns < fuel)%nat →
  match from_nodes decode_nodes fuel ns with
  | None => False
  | Some (Ok ir) =>
      Forall2 (λ e e' : string * _,
          e'.1 = e.1 ∧ parse decode_nodes fuel e.2 = Some (Ok e'.2) ∧ labelled (process_id e.2) e'.2)
        ns (ir_nodes ir) ∧
      ir_result_id ir = fst <$> List.find (λ e, is_result e.2) ns
  | Some (Err err) => ∃ l1 id p l2, ns = l1 ++ (id, p) :: l2 ∧
      parse decode_nodes fuel p = Some (Err err) ∧
      Forall (λ e, ∃ n, parse decode_nodes fuel e.2 = Some (Ok n)) l1
  end.
Proof.
  intros Hwf Hfuel. unfold from_nodes.
  destruct (from_nodes_loop_some (parse decode_nodes fuel) ns [] None) as [[ir|err] Hr].
  - intros e He. apply parse_some.
    apply (elem_list_sum (λ e : string * Process, args_size e.2)) in He.
    change (list_sum _) with (graph_size ns) in He. lia.
  - rewrite Hr. apply from_nodes_loop_ok in Hr as (l & Hl & Hall & Hres); [|done|constructor|constructor].
    simpl in Hl. rewrite Hl. split; [|done]. eapply Forall2_impl; [exact Hall|].
    intros e e' [He Hp]. split; [done|]. split; [done|]. by eapply parse_labelled.
  - rewrite Hr. by eapply from_nodes_loop_err.
Qed.
End enough.

(** A projection is narrowed to 32 bits before anything looks at it. *)
Example projection_wraps :
  parse_leaf "resample_spatial"
    [("data", Object [("from_node", JString "a")]); ("projection", Number (PosInt (2 ^ 32 + 4326)))] =
  Ok (ResampleSpatial (Ref "a") 4326 None).
Proof. reflexivity. Qed.

(** The derived serialisation does not tell a literal string from a link. *)
Example literal_string_becomes_ref :
  arg_from_json (arg_to_json (Literal (JString "GTiff"))) = Ref "GTiff".
Proof. reflexivity. Qed.
