(* ===== verification/Vector.v ===== *)
(** * Polygons on a raster: crates/eo-vector/src/lib.rs

    Rings in pixel coordinates, the scanline rasteriser with the even-odd rule
    and the mean of a raster inside of polygons.  A release build: the increment
    after the saturating cast wraps. *)

From Stdlib Require Import Floats.SpecFloat Sorted.
From S2P Require Import Prelude BTree F64 F64Value Json Executor Arrays.
Local Open Scope Z_scope.

Notation Point := (f64 * f64)%type.

Record PolygonRing := mkPolygonRing { vertices : list Point }.

Definition is_valid (r : PolygonRing) : bool := (3 <=? length (vertices r))%nat.

(** One vertex added to a box (minx, miny, maxx, maxy). *)
Definition grow (b : f64 * f64 * f64 * f64) (v : Point) : f64 * f64 * f64 * f64 :=
  let '(minx, miny, maxx, maxy) := b in
  let '(x, y) := v in
  (if f64_ltb x minx then x else minx, if f64_ltb y miny then y else miny,
   if f64_ltb maxx x then x else maxx, if f64_ltb maxy y then y else maxy).

Definition bbox (r : PolygonRing) : option (f64 * f64 * f64 * f64) :=
  match vertices r with
  | [] => None
  | (x, y) :: it => Some (foldl grow (x, y, x, y) it)
  end.

Inductive VectorError :=
| InvalidRing (n : nat)
| SizeMismatch (expected actual : Z).

(** ** The scanline rasteriser *)

Definition f64_half : f64 := Eval vm_compute in f64_div f64_one (f64_of_Z 2).

(** The centre of the [n]-th row or column. *)
Definition center (n : Z) : f64 := f64_add (f64_of_Z n) f64_half.

(** Where the horizontal line [yc] meets the edge, the upper end excluded. *)
Definition crossing (yc : f64) (e : Point * Point) : option f64 :=
  let '((x0, y0), (x1, y1)) := e in
  let '(ya, yb) := if f64_ltb y0 y1 then (y0, y1) else (y1, y0) in
  if f64_ltb yc ya || f64_leb yb yc then None
  else if f64_ltb (f64_abs (f64_sub y1 y0)) f64_epsilon then None
  else
    let t := f64_div (f64_sub yc y0) (f64_sub y1 y0) in
    Some (f64_add x0 (f64_mul t (f64_sub x1 x0))).

(** The edges of a ring, the last back to the first vertex. *)
Definition edges (vs : list Point) : list (Point * Point) :=
  zip vs (tail vs ++ take 1 vs).

Definition crossings (r : PolygonRing) (yc : f64) : list f64 :=
  omap (crossing yc) (edges (vertices r)).

(** [sort_by(partial_cmp .. unwrap_or(Equal))] *)
Definition sorted_crossings (r : PolygonRing) (y : Z) : list f64 :=
  sort_by (sort_le true) (crossings r (center y)).

Definition x_start (lo : f64) (cols : Z) : Z :=
  Z.min (f64_to_u64 (f64_max (f64_ceil lo) f64_zero)) cols.
Definition x_end (hi : f64) (cols : Z) : Z :=
  Z.min (wrap 64 (f64_to_u64 (f64_floor hi) + 1)) cols.

(** The pixels between two crossings. *)
Definition fill_span (y cols : Z) (lo hi : f64) (out : list Z) : list Z :=
  foldl (λ out x,
      if f64_leb lo (center x) && f64_ltb (center x) hi
      then <[Z.to_nat (y * cols + x) := 1]> out else out)
    out (seqZ (x_start lo cols) (x_end hi cols - x_start lo cols)).

Fixpoint fill_pairs (y cols : Z) (xs : list f64) (out : list Z) : list Z :=
  match xs with
  | lo :: hi :: xs => fill_pairs y cols xs (fill_span y cols lo hi out)
  | _ => out
  end.

Definition rasterise (r : PolygonRing) (rows cols : Z) : result VectorError (list Z) :=
  if negb (is_valid r) then Err (InvalidRing (length (vertices r)))
  else
    let out := replicate (Z.to_nat (rows * cols)) 0 in
    if (rows =? 0) || (cols =? 0) then Ok out
    else
      match bbox r with
      | None => Ok out   (* unreachable: the ring has a vertex *)
      | Some (_, miny, _, maxy) =>
          let y_start := Z.min (f64_to_u64 (f64_max (f64_floor miny) f64_zero)) (sat_sub rows 1) in
          let y_end := Z.min (f64_to_u64 (f64_ceil maxy)) rows in
          Ok (foldl (λ out y, fill_pairs y cols (sorted_crossings r y) out) out
                (seqZ y_start (y_end - y_start)))
      end.

(** ** Zonal means *)

Definition masked_sum (mask : list Z) (raster : list f64) : f64 * Z :=
  foldl (λ acc mv, if mv.1 =? 1 then (f64_add acc.1 mv.2, acc.2 + 1) else acc)
    (f64_zero, 0) (zip mask raster).

(** [raster] is the raster converted with [Into<f64>]. *)
Definition zonal_mean (rings : list PolygonRing) (raster : list f64) (rows cols : Z)
    : result VectorError (list f64) :=
  if negb (Z.of_nat (length raster) =? rows * cols) then
    Err (SizeMismatch (rows * cols) (Z.of_nat (length raster)))
  else
    result_traverse (λ r,
      mask ← rasterise r rows cols;
      let '(sum, count) := masked_sum mask raster in
      Ok (if 0 <? count then f64_div sum (f64_of_Z count) else S754_nan)) rings.

(** ** The rasteriser and the even-odd rule *)

Section fill.
Context (rows cols : Z).
Hypothesis rows_pos : 0 < rows.
Hypothesis cols_pos : 0 < cols.

Definition cell (y x : Z) : nat := Z.to_nat (y * cols + x).

Lemma cell_inj y x y' x' :
  0 ≤ y → 0 ≤ y' → 0 ≤ x < cols → 0 ≤ x' < cols → cell y x = cell y' x' → y = y' ∧ x = x'.
Proof.
  unfold cell. intros Hy Hy' Hx Hx' E.
  assert (0 ≤ y * cols) by nia. assert (0 ≤ y' * cols) by nia.
  assert (y * cols + x = y' * cols + x') as E' by lia.
  assert (y = y') as ->; [|split; [done|lia]].
  rewrite (Z.div_unique (y * cols + x) cols y x) by lia.
  rewrite E'. symmetry. apply (Z.div_unique _ cols y' x'); lia.
Qed.

Definition in_span (lo hi : f64) (x : Z) : bool :=
  (x_start lo cols <=? x) && (x <? x_end hi cols) && f64_leb lo (center x) && f64_ltb (center x) hi.

Lemma x_start_range lo : 0 ≤ x_start lo cols ≤ cols.
Proof.
  unfold x_start. assert (0 ≤ f64_to_u64 (f64_max (f64_ceil lo) f64_zero)); [|lia].
  unfold f64_to_u64. repeat case_match; lia.
Qed.

Lemma x_end_range hi : x_end hi cols ≤ cols.
Proof. unfold x_end. lia. Qed.

(** The value of a pixel after a step that sets those of row [y] chosen by [p]. *)
Definition sets (y : Z) (p : Z → bool) (out out' : list Z) : Prop :=
  length out' = length out ∧
  ∀ y' x', 0 ≤ y' < rows → 0 ≤ x' < cols →
    out' !! cell y' x' = if (y' =? y) && p x' then Some 1 else out !! cell y' x'.

Lemma cell_lt y x : 0 ≤ y < rows → 0 ≤ x < cols → (cell y x < Z.to_nat (rows * cols))%nat.
Proof. unfold cell. intros. apply Z2Nat.inj_lt; nia. Qed.

Lemma sets_id y p out : (∀ x, 0 ≤ x < cols → p x = false) → sets y p out out.
Proof. intros Hp. split; [done|]. intros y' x' Hy Hx. by rewrite Hp, andb_false_r. Qed.

Lemma sets_trans y p q r out1 out2 out3 :
  (∀ x, 0 ≤ x < cols → r x = p x || q x) →
  sets y p out1 out2 → sets y q out2 out3 → sets y r out1 out3.
Proof.
  intros Hr [Hl1 H1] [Hl2 H2]. split; [congruence|]. intros y' x' Hy Hx.
  rewrite H2, H1, Hr by done. destruct (y' =? y), (p x'), (q x'); done.
Qed.

Lemma fill_span_sets y lo hi out :
  length out = Z.to_nat (rows * cols) → 0 ≤ y < rows →
  sets y (in_span lo hi) out (fill_span y cols lo hi out).
Proof.
  intros Hlen Hy. pose proof (x_start_range lo) as Hs. pose proof (x_end_range hi) as He.
  unfold fill_span.
  set (p := λ x, f64_leb lo (center x) && f64_ltb (center x) hi).
  assert (∀ l out, length out = Z.to_nat (rows * cols) → Forall (λ x, 0 ≤ x < cols) l →
    sets y (λ x, bool_decide (x ∈ l) && p x) out
      (foldl (λ out x, if p x then <[Z.to_nat (y * cols + x) := 1]> out else out) out l)) as Hf.
  { clear out Hlen. intros l. induction l as [|a l IH]; intros out Hlen Hl; simpl.
    - by apply sets_id.
    - apply Forall_cons in Hl as [Ha Hl].
      assert (sets y (λ x, (x =? a) && p x) out
                (if p a then <[Z.to_nat (y * cols + a) := 1]> out else out)) as H1.
      { split; [destruct (p a); [apply length_insert|done]|]. intros y' x' Hy' Hx'.
        destruct (Z.eqb_spec x' a) as [->|Hne]; simpl.
        - destruct (p a); [|by rewrite andb_false_r]. rewrite andb_true_r.
          destruct (Z.eqb_spec y' y) as [->|Hny].
          + apply list_lookup_insert_eq. rewrite Hlen. by apply cell_lt.
          + apply list_lookup_insert_ne. intros E. apply (cell_inj y a y' a) in E; [|lia..].
            lia.
        - rewrite andb_false_r. destruct (p a); [|done]. apply list_lookup_insert_ne.
          intros E. apply (cell_inj y a y' x') in E; [|lia..]. lia. }
      eapply sets_trans; [|exact H1|apply IH; [|done]].
      + intros x _. simpl. destruct (Z.eqb_spec x a) as [->|Hne].
        * rewrite bool_decide_eq_true_2 by by left. simpl.
          by destruct (p a), (bool_decide (a ∈ l)).
        * simpl. f_equal. apply bool_decide_ext. rewrite elem_of_cons. naive_solver.
      + destruct H1 as [-> _]. done. }
  specialize (Hf (seqZ (x_start lo cols) (x_end hi cols - x_start lo cols)) out Hlen).
  destruct Hf as [Hfl Hf].
  { apply Forall_forall. intros x Hx. apply elem_of_seqZ in Hx. lia. }
  split; [exact Hfl|]. intros y' x' Hy' Hx'. rewrite Hf by done. unfold in_span, p.
  replace (bool_decide (x' ∈ seqZ (x_start lo cols) (x_end hi cols - x_start lo cols)))
    with ((x_start lo cols <=? x') && (x' <? x_end hi cols)).
  - by rewrite <- !andb_assoc.
  - symmetry.
    destruct (Z.leb_spec (x_start lo cols) x'), (Z.ltb_spec x' (x_end hi cols)); simpl;
      [apply bool_decide_eq_true_2|apply bool_decide_eq_false_2..]; rewrite elem_of_seqZ; lia.
Qed.

Fixpoint in_pairs (xs : list f64) (x : Z) : bool :=
  match xs with
  | lo :: hi :: xs => in_span lo hi x || in_pairs xs x
  | _ => false
  end.

Lemma fill_pairs_sets y xs : ∀ out,
  length out = Z.to_nat (rows * cols) → 0 ≤ y < rows →
  sets y (in_pairs xs) out (fill_pairs y cols xs out).
Proof.
  induction xs as [xs IH] using (induction_ltof1 _ length). unfold ltof in IH.
  intros out Hlen Hy. destruct xs as [|lo [|hi xs]]; simpl; [by apply sets_id..|].
  pose proof (fill_span_sets y lo hi out Hlen Hy) as H1.
  eapply sets_trans; [|exact H1|apply IH; [simpl; lia| |done]]; [done|].
  destruct H1 as [-> _]. done.
Qed.

Lemma fill_rows_sets r (ys : list Z) : ∀ out,
  length out = Z.to_nat (rows * cols) → NoDup ys → Forall (λ y, 0 ≤ y < rows) ys →
  let out' := foldl (λ out y, fill_pairs y cols (sorted_crossings r y) out) out ys in
  length out' = length out ∧
  ∀ y x, 0 ≤ y < rows → 0 ≤ x < cols →
    out' !! cell y x =
      if bool_decide (y ∈ ys) && in_pairs (sorted_crossings r y) x then Some 1 else out !! cell y x.
Proof.
  induction ys as [|a ys IH]; intros out Hlen Hnd Hys out'; simpl in *; [done|].
  apply NoDup_cons in Hnd as [Hna Hnd]. apply Forall_cons in Hys as [Ha Hys].
  destruct (fill_pairs_sets a (sorted_crossings r a) out Hlen Ha) as [Hl1 H1].
  destruct (IH (fill_pairs a cols (sorted_crossings r a) out)) as [Hl2 H2];
    [congruence|done|done|]. split; [unfold out'; congruence|].
  intros y x Hy Hx. unfold out'. rewrite H2, H1 by done.
  destruct (Z.eqb_spec y a) as [->|Hne]; simpl.
  - rewrite (bool_decide_eq_false_2 (a ∈ ys)) by done.
    by rewrite (bool_decide_eq_true_2 (a ∈ a :: ys)) by by left.
  - replace (bool_decide (y ∈ a :: ys)) with (bool_decide (y ∈ ys)); [done|].
    apply bool_decide_ext. rewrite elem_of_cons. naive_solver.
Qed.
End fill.

(** On comparable values, [<] is the negation of the converse [<=]. *)
Lemma f64_ltb_negb (x y : f64) : is_nan x = false → is_nan y = false → f64_ltb x y = negb (f64_leb y x).
Proof.
  intros Hx Hy. unfold f64_ltb, f64_leb, SFltb, SFleb. rewrite (SFcompare_swap x y).
  destruct (SFcompare x y) as [[]|] eqn:E; simpl; try done.
  apply SFcompare_nan in E as [E|E]; congruence.
Qed.

Lemma f64_leb_nan (x y : f64) : is_nan y = true → f64_leb x y = false.
Proof. destruct y; try done. by destruct x as [[]|[]| |[]]. Qed.

Lemma sort_le_leb_trans (a b x : f64) :
  is_nan a = false → is_nan b = false → sort_le true a b = true →
  f64_leb b x = true → f64_leb a x = true.
Proof.
  intros Ha Hb Hab Hbx. destruct (is_nan x) eqn:Hx; [by rewrite f64_leb_nan in Hbx|].
  assert (∀ u v, is_nan u = false → is_nan v = false → f64_leb u v = sort_le true u v) as Hle.
  { intros u v Hu Hv. unfold f64_leb, SFleb, sort_le. destruct (SFcompare u v) as [[]|] eqn:E; try done.
    apply SFcompare_nan in E as [E|E]; congruence. }
  rewrite Hle in * by done. by eapply sort_le_trans; [exact Ha|exact Hb| | |].
Qed.

Section even_odd.
Context (cols x : Z).

Notation left_of := (λ a : f64, f64_leb a (center x) = true).

(** How many of the crossings are not to the right of the pixel's centre. *)
Definition left_count (xs : list f64) : nat := length (filter left_of xs).

(** The crossings around the centre make it a pixel of a span. *)
Definition between (xs : list f64) : bool :=
  let c := left_count xs in
  Nat.odd c &&
  match xs !! pred c, xs !! c with
  | Some lo, Some hi => (x_start lo cols <=? x) && (x <? x_end hi cols)
  | _, _ => false
  end.

Lemma left_count_right a xs :
  StronglySorted (λ a b, sort_le true a b = true) (a :: xs) → Forall (λ a, is_nan a = false) (a :: xs) →
  f64_leb a (center x) = false → left_count (a :: xs) = 0%nat.
Proof.
  intros Hs Hn Ha. apply StronglySorted_inv in Hs as [_ Hall]. apply Forall_cons in Hn as [Hna Hn].
  unfold left_count. rewrite filter_cons_False by congruence.
  assert (filter left_of xs = []) as ->; [|done].
  apply list.elem_of_nil_inv. intros b [Hb Hin]%list_elem_of_filter.
  rewrite Forall_forall in Hall, Hn. specialize (Hall b Hin). specialize (Hn b Hin).
  enough (f64_leb a (center x) = true) by congruence. by apply (sort_le_leb_trans a b).
Qed.

Lemma in_pairs_between xs :
  StronglySorted (λ a b, sort_le true a b = true) xs → Forall (λ a, is_nan a = false) xs →
  in_pairs cols xs x = between xs.
Proof.
  induction xs as [xs IH] using (induction_ltof1 _ length). unfold ltof in IH.
  intros Hs Hn. destruct xs as [|lo [|hi xs]]; simpl; [done| |].
  - unfold between, left_count. rewrite filter_cons. destruct (decide _); [|done]. by simpl.
  - pose proof Hs as Hs0. apply StronglySorted_inv in Hs as [Hs1 Hall1].
    pose proof Hs1 as Hs10. apply StronglySorted_inv in Hs1 as [Hs2 Hall2].
    pose proof Hn as Hn0. apply Forall_cons in Hn as [Hlo Hn1].
    pose proof Hn1 as Hn10. apply Forall_cons in Hn1 as [Hhi Hn2].
    rewrite IH by (done || (simpl; lia)). unfold in_span.
    assert (∀ b, b ∈ xs → f64_leb hi (center x) = false → f64_leb b (center x) = false) as Hr.
    { intros b Hb Hh. destruct (f64_leb b (center x)) eqn:E; [|done].
      rewrite Forall_forall in Hall2, Hn2.
      enough (f64_leb hi (center x) = true) by congruence.
      apply (sort_le_leb_trans hi b); auto. }
    assert (f64_leb hi (center x) = false → left_count xs = 0%nat) as Hzero.
    { intros Hh. unfold left_count. replace (filter left_of xs) with (@nil f64); [done|].
      symmetry. apply list.elem_of_nil_inv. intros b [Hb Hin]%list_elem_of_filter.
      by rewrite Hr in Hb. }
    destruct (f64_leb lo (center x)) eqn:El; destruct (f64_leb hi (center x)) eqn:Eh.
    + assert (f64_ltb (center x) hi = false) as ->.
      { destruct (is_nan (center x)) eqn:Ec; [by rewrite f64_leb_nan in Eh|].
        by rewrite f64_ltb_negb, Eh. }
      rewrite andb_false_r. simpl. unfold between, left_count.
      rewrite !filter_cons_True by done. simpl.
      destruct (length (filter left_of xs)) as [|c]; [done|]. done.
    + assert (f64_ltb (center x) hi = true) as ->.
      { destruct (is_nan (center x)) eqn:Ec; [by rewrite f64_leb_nan in El|].
        by rewrite f64_ltb_negb, Eh. }
      rewrite !andb_true_r. unfold between at 2. unfold left_count at 1 2 3.
      rewrite filter_cons_True, filter_cons_False by congruence. simpl.
      fold (left_count xs). rewrite Hzero by done. simpl.
      unfold between. rewrite Hzero by done. simpl. by rewrite orb_false_r.
    + apply Forall_cons in Hall1 as [Hle _].
      enough (f64_leb lo (center x) = true) by congruence. by apply (sort_le_leb_trans lo hi).
    + rewrite andb_false_r. simpl. unfold between. rewrite (left_count_right lo) by done.
      by rewrite Hzero.
Qed.
End even_odd.

(** ** Rows, columns and centres by value *)

Lemma two_halves : 2 ^ 1074 = 2 * 2 ^ 1073.
Proof. by rewrite <- (Z.pow_add_r 2 1) by lia. Qed.

Lemma center_value n : 0 ≤ n < 2 ^ 52 →
  valid (center n) ∧ is_finite (center n) = true ∧ sval (center n) = (2 * n + 1) * 2 ^ 1073.
Proof.
  intros Hn. destruct (of_Z_exact n ltac:(lia)) as [Hf Hv].
  assert (sval f64_half = 2 ^ 1073) as Hh by (by vm_compute).
  assert (sval (f64_of_Z n) + sval f64_half = (2 * n + 1) * 2 ^ (-1 + 1074)) as HV.
  { rewrite Hv, Hh, two_halves. change (-1 + 1074) with 1073. lia. }
  destruct (add_exact (f64_of_Z n) f64_half (2 * n + 1) (-1)) as [Hfin Hval];
    [apply valid_of_Z|by vm_compute|done|done|lia|lia|done|].
  split; [|split; [exact Hfin|]].
  - apply valid_add; [apply valid_of_Z|by vm_compute].
  - unfold center. rewrite Hval, HV. done.
Qed.

Lemma to_u64_finite x : is_finite x = true →
  f64_to_u64 x = Z.max 0 (Z.min (f64_trunc_Z x) (2 ^ 64 - 1)).
Proof. by destruct x. Qed.

(** A start is rounded into range: it is not past [n] when the rounding is not. *)
Lemma start_le (c : f64) n : is_finite c = true → 0 ≤ n → f64_trunc_Z c ≤ n →
  f64_to_u64 (f64_max c f64_zero) ≤ n.
Proof.
  intros Hc Hn Ht. assert (f64_max c f64_zero = c ∨ f64_max c f64_zero = f64_zero) as [-> | ->].
  { unfold f64_max. rewrite finite_not_nan by done. simpl. destruct (f64_ltb c _); auto. }
  - rewrite to_u64_finite by done. lia.
  - done.
Qed.

Lemma x_start_le lo cols x : valid lo → 0 ≤ x < 2 ^ 52 → f64_leb lo (f64_of_Z x) = true →
  x_start lo cols ≤ x.
Proof.
  intros Hlo Hx Hle. destruct (of_Z_exact x ltac:(lia)) as [Hf Hv]. unfold x_start.
  assert (f64_to_u64 (f64_max (f64_ceil lo) f64_zero) ≤ x); [|lia].
  destruct (is_finite lo) eqn:Hfin.
  - rewrite f64_leb_sval, Hv in Hle by (done || apply valid_of_Z). apply Z.leb_le in Hle.
    destruct (ceil_value lo Hlo Hfin) as [Hc Ht]. apply start_le; [done|lia|]. rewrite Ht.
    pose proof (pow2_pos 1074 ltac:(lia)). Z.to_euclidean_division_equations. nia.
  - destruct lo as [|[]| |]; try done; [simpl; lia|].
    destruct (f64_of_Z x) as [[]|[]| |[]]; done.
Qed.

Lemma x_end_gt hi cols x : valid hi → 0 ≤ x < 2 ^ 52 → x < cols →
  f64_ltb (center x) hi = true → f64_ltb hi (f64_of_Z (2 ^ 63)) = true → x < x_end hi cols.
Proof.
  intros Hhi Hx Hcols Hlt Hbig. destruct (center_value x Hx) as (Hcv & Hcf & Hc). unfold x_end.
  assert (is_finite hi = true) as Hfin.
  { destruct hi as [|[]| |]; try done. destruct (center x) as [[]|[]| |[]]; done. }
  rewrite f64_ltb_sval, Hc in Hlt by done. apply Z.ltb_lt in Hlt.
  rewrite f64_ltb_sval in Hbig by (done || apply valid_of_Z). apply Z.ltb_lt in Hbig.
  assert (sval (f64_of_Z (2 ^ 63)) = 2 ^ 63 * 2 ^ 1074) as E by (by vm_compute). rewrite E in Hbig.
  destruct (floor_value hi Hhi Hfin) as [Hf Ht]. rewrite to_u64_finite, Ht by done.
  pose proof (pow2_pos 1073 ltac:(lia)).
  assert (x ≤ sval hi / 2 ^ 1074 < 2 ^ 63) as Hq.
  { rewrite two_halves in *. split; [apply Z.div_le_lower_bound; lia|apply Z.div_lt_upper_bound; lia]. }
  rewrite wrap_small; [lia|]. unfold in_u. lia.
Qed.

Lemma row_start_le v y : valid v → is_finite v = true → 0 ≤ y < 2 ^ 52 → f64_leb v (center y) = true →
  f64_to_u64 (f64_max (f64_floor v) f64_zero) ≤ y.
Proof.
  intros Hv Hf Hy Hle. destruct (center_value y Hy) as (Hcv & Hcf & Hc).
  rewrite f64_leb_sval, Hc in Hle by done. apply Z.leb_le in Hle.
  destruct (floor_value v Hv Hf) as [Hff Ht]. apply start_le; [done|lia|]. rewrite Ht.
  pose proof (pow2_pos 1073 ltac:(lia)).
  rewrite two_halves. enough (sval v / (2 * 2 ^ 1073) < y + 1) by lia. apply Z.div_lt_upper_bound; lia.
Qed.

Lemma row_end_gt v y : valid v → is_finite v = true → 0 ≤ y < 2 ^ 52 → f64_ltb (center y) v = true →
  y < f64_to_u64 (f64_ceil v).
Proof.
  intros Hv Hf Hy Hlt. destruct (center_value y Hy) as (Hcv & Hcf & Hc).
  rewrite f64_ltb_sval, Hc in Hlt by done. apply Z.ltb_lt in Hlt.
  destruct (ceil_value v Hv Hf) as [Hff Ht]. rewrite to_u64_finite, Ht by done.
  pose proof (pow2_pos 1073 ltac:(lia)).
  rewrite two_halves. enough (- sval v / (2 * 2 ^ 1073) < - y) by lia. apply Z.div_lt_upper_bound; lia.
Qed.

(** ** Edges and the even-odd rule *)

(** The ends of an edge are on different sides of the line [yc]; where the edge
    meets it. *)
Definition spans (yc : f64) (e : Point * Point) : bool :=
  xorb (f64_leb e.1.2 yc) (f64_leb e.2.2 yc).
Definition edge_x (yc : f64) (e : Point * Point) : f64 :=
  let '((x0, y0), (x1, y1)) := e in
  f64_add x0 (f64_mul (f64_div (f64_sub yc y0) (f64_sub y1 y0)) (f64_sub x1 x0)).

(** A pixel's centre is inside by the even-odd rule: an odd number of edges crosses
    the row's centre line to its right. *)
Definition inside (r : PolygonRing) (y x : Z) : bool :=
  Nat.odd (length (filter (λ e, spans (center y) e && f64_ltb (center x) (edge_x (center y) e) = true)
                     (edges (vertices r)))).

Definition vertex_ok (v : Point) : Prop :=
  (valid v.1 ∧ is_finite v.1 = true) ∧ valid v.2 ∧ is_finite v.2 = true.

(** An edge that spans the line is not flatter than the code's threshold. *)
Definition not_flat (e : Point * Point) : Prop :=
  f64_ltb (f64_abs (f64_sub e.2.2 e.1.2)) f64_epsilon = false.

Lemma edge_vertices vs e : e ∈ edges vs → e.1 ∈ vs ∧ e.2 ∈ vs.
Proof.
  unfold edges. destruct e as [a b]. intros [i Hi]%list_elem_of_lookup.
  apply lookup_zip_Some in Hi as [Ha Hb]. simpl. split; [by eapply list_elem_of_lookup_2|].
  destruct vs as [|v vs]; [done|]. apply list_elem_of_lookup_2 in Hb. simpl in Hb.
  apply elem_of_app in Hb as [Hb| ->%list_elem_of_singleton]; [by right|by left].
Qed.

Lemma crossing_spans yc e : valid yc → is_finite yc = true → vertex_ok e.1 → vertex_ok e.2 →
  (spans yc e = true → not_flat e) →
  crossing yc e = if spans yc e then Some (edge_x yc e) else None.
Proof.
  intros Hyc Hfc (_ & Hv0 & Hf0) (_ & Hv1 & Hf1) Hflat. destruct e as [[x0 y0] [x1 y1]].
  unfold spans, not_flat, crossing, edge_x in *. simpl in *.
  rewrite (f64_ltb_sval y0 y1), (f64_leb_sval y0 yc), (f64_leb_sval y1 yc) in * by done.
  assert ((let '(ya, yb) := if sval y0 <? sval y1 then (y0, y1) else (y1, y0) in
    f64_ltb yc ya || f64_leb yb yc) = negb (xorb (sval y0 <=? sval yc) (sval y1 <=? sval yc))) as E.
  { destruct (Z.ltb_spec (sval y0) (sval y1)); rewrite f64_ltb_sval, f64_leb_sval by done;
      destruct (Z.leb_spec (sval y0) (sval yc)), (Z.leb_spec (sval y1) (sval yc)); simpl;
      try lia; apply orb_true_iff || apply orb_false_iff;
      rewrite ?Z.ltb_lt, ?Z.leb_le, ?Z.ltb_ge, ?Z.leb_gt; lia. }
  destruct (if sval y0 <? sval y1 then (y0, y1) else (y1, y0)) as [ya yb]. rewrite E.
  destruct (xorb _ _); simpl; [by rewrite Hflat|done].
Qed.

Lemma edge_x_valid yc e : valid yc → vertex_ok e.1 → vertex_ok e.2 → valid (edge_x yc e).
Proof.
  intros Hyc ((Hx0 & _) & Hy0 & _) ((Hx1 & _) & Hy1 & _). destruct e as [[x0 y0] [x1 y1]]. simpl in *.
  apply valid_add; [done|]. apply valid_mul; [apply valid_div|]; by apply valid_sub.
Qed.

(** A closed ring crosses a line an even number of times. *)
Lemma odd_count {A} (p : A → bool) l :
  Nat.odd (length (filter (λ a, p a = true) l)) = foldr (λ a b, xorb (p a) b) false l.
Proof.
  induction l as [|a l IH]; [done|]. cbn [foldr]. rewrite <- IH, filter_cons.
  destruct (p a); simpl; [by rewrite Nat.odd_succ, <- Nat.negb_odd; destruct (Nat.odd _)|].
  by destruct (Nat.odd _).
Qed.

Lemma walk_parity (side : Point → bool) vs : ∀ v w,
  foldr (λ e b, xorb (xorb (side e.1) (side e.2)) b) false (zip (v :: vs) (vs ++ [w])) =
  xorb (side v) (side w).
Proof.
  induction vs as [|u vs IH]; intros v w.
  - simpl. by destruct (side v), (side w).
  - change (zip (v :: u :: vs) ((u :: vs) ++ [w])) with ((v, u) :: zip (u :: vs) (vs ++ [w])).
    cbn [foldr fst snd]. rewrite IH. by destruct (side v), (side u), (side w).
Qed.

Lemma spans_even yc vs : Nat.odd (length (filter (λ e, spans yc e = true) (edges vs))) = false.
Proof.
  rewrite odd_count. unfold spans. destruct vs as [|v vs]; [done|].
  change (edges (v :: vs)) with (zip (v :: vs) (vs ++ [v])).
  rewrite (walk_parity (λ p : Point, f64_leb p.2 yc)). by destruct (f64_leb _ _).
Qed.

(** ** The box of the rows *)

Lemma bbox_rows r minx miny maxx maxy : Forall vertex_ok (vertices r) →
  bbox r = Some (minx, miny, maxx, maxy) →
  (valid miny ∧ is_finite miny = true) ∧ (valid maxy ∧ is_finite maxy = true) ∧
  ∀ v, v ∈ vertices r → sval miny ≤ sval v.2 ≤ sval maxy.
Proof.
  unfold bbox. destruct (vertices r) as [|[x y] vs]; [done|].
  intros [[_ Hy] Hvs]%Forall_cons. cbn [snd] in Hy.
  assert (∀ vs b0 b1 b2 b3, Forall vertex_ok vs → valid b1 → is_finite b1 = true → valid b3 →
    is_finite b3 = true → ∀ c0 c1 c2 c3, foldl grow (b0, b1, b2, b3) vs = (c0, c1, c2, c3) →
    (valid c1 ∧ is_finite c1 = true) ∧ (valid c3 ∧ is_finite c3 = true) ∧
    sval c1 ≤ sval b1 ∧ sval b3 ≤ sval c3 ∧ ∀ v, v ∈ vs → sval c1 ≤ sval v.2 ≤ sval c3) as H.
  { clear. intros vs. induction vs as [|[vx vy] vs IH]; intros b0 b1 b2 b3 Hvs V1 F1 V3 F3 c0 c1 c2 c3; simpl.
    - intros [= <- <- <- <-]. split_and!; try done; try lia. by intros v ?%elem_of_nil.
    - apply Forall_cons in Hvs as [(_ & Vy & Fy) Hvs]. simpl in Vy, Fy.
      rewrite (f64_ltb_sval vy b1), (f64_ltb_sval b3 vy) by done. intros Hc.
      set (b1' := if sval vy <? sval b1 then vy else b1) in *.
      set (b3' := if sval b3 <? sval vy then vy else b3) in *.
      assert (valid b1' ∧ is_finite b1' = true) as [V1' F1'] by (unfold b1'; destruct (sval vy <? sval b1); split; assumption).
      assert (valid b3' ∧ is_finite b3' = true) as [V3' F3'] by (unfold b3'; destruct (sval b3 <? sval vy); split; assumption).
      destruct (IH _ _ _ _ Hvs V1' F1' V3' F3' _ _ _ _ Hc) as (Hc1 & Hc3 & H1 & H3 & Hall).
      unfold b1', b3' in *.
      split; [done|]. split; [done|]. revert H1 H3.
      destruct (Z.ltb_spec (sval vy) (sval b1)), (Z.ltb_spec (sval b3) (sval vy)); intros H1 H3;
        (split_and!; [lia|lia|]); intros v [->|Hv]%elem_of_cons; simpl; try lia; by apply Hall. }
  intros [= Hb]. destruct (H vs x y x y Hvs (proj1 Hy) (proj2 Hy) (proj1 Hy) (proj2 Hy) _ _ _ _ Hb)
    as (Hc1 & Hc3 & H1 & H3 & Hall).
  split; [done|]. split; [done|]. intros v [->|Hv]%elem_of_cons; [simpl; lia|by apply Hall].
Qed.

(** ** Crossings around a centre *)

Lemma left_prefix x xs :
  StronglySorted (λ a b, sort_le true a b = true) xs → Forall (λ a, is_nan a = false) xs →
  filter (λ a, f64_leb a (center x) = true) xs = take (left_count x xs) xs.
Proof.
  induction xs as [|a xs IH]; intros Hs Hn; [done|].
  destruct (f64_leb a (center x)) eqn:Ha.
  - unfold left_count. rewrite filter_cons_True by done. simpl. f_equal.
    apply StronglySorted_inv in Hs as [Hs _]. apply Forall_cons in Hn as [_ Hn]. by apply IH.
  - pose proof (left_count_right x a xs Hs Hn Ha) as H0. rewrite H0.
    unfold left_count in H0. by apply nil_length_inv in H0.
Qed.

Lemma left_right_count x xs : is_nan (center x) = false → Forall (λ a, is_nan a = false) xs →
  (left_count x xs + length (filter (λ a, f64_ltb (center x) a = true) xs) = length xs)%nat.
Proof.
  intros Hc. unfold left_count. induction 1 as [|a xs Ha _ IH]; [done|].
  rewrite !filter_cons, f64_ltb_negb by done.
  destruct (f64_leb a (center x)); simpl; rewrite <- IH; lia.
Qed.

Lemma left_boundary x xs i a :
  StronglySorted (λ a b, sort_le true a b = true) xs → Forall (λ a, is_nan a = false) xs →
  xs !! i = Some a → (left_count x xs ≤ i)%nat → f64_leb a (center x) = false.
Proof.
  revert i. induction xs as [|b xs IH]; intros i Hs Hn Hi Hc; [done|].
  pose proof Hs as [Hs' _]%StronglySorted_inv. pose proof Hn as [_ Hn']%Forall_cons.
  destruct (f64_leb b (center x)) eqn:Hb.
  - unfold left_count in Hc. rewrite filter_cons_True in Hc by done. simpl in Hc.
    destruct i as [|i]; [lia|]. apply (IH i); [done..|]. unfold left_count. lia.
  - pose proof (left_count_right x b xs Hs Hn Hb) as H0. unfold left_count in H0.
    apply nil_length_inv in H0. destruct (f64_leb a (center x)) eqn:Ha; [|done].
    assert (a ∈ filter (λ a, f64_leb a (center x) = true) (b :: xs)) as Hin
      by (apply list_elem_of_filter; split; [done|by eapply list_elem_of_lookup_2]).
    rewrite H0 in Hin. by apply elem_of_nil in Hin.
Qed.

(** A pixel of a span is inside; one inside is in a span unless its column was
    rounded away. *)
Lemma between_spec cols x xs : 0 ≤ x < 2 ^ 52 → x < cols →
  StronglySorted (λ a b, sort_le true a b = true) xs →
  Forall (λ a, valid a ∧ f64_ltb a (f64_of_Z (2 ^ 63)) = true) xs → Nat.odd (length xs) = false →
  let right := Nat.odd (length (filter (λ a, f64_ltb (center x) a = true) xs)) in
  (between cols x xs = true → right = true) ∧
  (right = true → Forall (λ a, f64_leb a (center x) = true → f64_leb a (f64_of_Z x) = true) xs →
   between cols x xs = true).
Proof.
  intros Hx Hcols Hs Hok Heven right.
  assert (Forall (λ a, is_nan a = false) xs) as Hn.
  { eapply Forall_impl; [exact Hok|]. intros a [_ Ha]. by destruct a. }
  destruct (center_value x Hx) as (Hcv & Hcf & _).
  pose proof (left_right_count x xs (finite_not_nan _ Hcf) Hn) as Hcount.
  assert (right = Nat.odd (left_count x xs)) as ->.
  { unfold right. rewrite <- Hcount, Nat.odd_add in Heven.
    by destruct (Nat.odd (left_count x xs)), (Nat.odd (length (filter _ xs))). }
  unfold between. set (c := left_count x xs) in *. split.
  - by intros [? _]%andb_true_iff.
  - intros Hodd Hclear. rewrite Hodd. simpl.
    assert (c ≠ 0)%nat by (intros E; by rewrite E in Hodd).
    assert (c ≠ length xs) by (intros E; congruence).
    destruct (lookup_lt_is_Some_2 xs (pred c)) as [lo Hlo]; [lia|].
    destruct (lookup_lt_is_Some_2 xs c) as [hi Hhi]; [lia|]. rewrite Hlo, Hhi.
    pose proof (left_prefix x xs Hs Hn) as Hpre. fold c in Hpre.
    assert (f64_leb lo (center x) = true) as Hl.
    { assert (lo ∈ take c xs) as Hin by (apply (list_elem_of_lookup_2 _ (pred c)); rewrite lookup_take_lt; [done|lia]).
      rewrite <- Hpre in Hin. by apply list_elem_of_filter in Hin as [? _]. }
    assert (f64_leb hi (center x) = false) as Hr by (by apply (left_boundary x xs c)).
    rewrite Forall_forall in Hclear, Hok.
    destruct (Hok lo) as [Hvlo _]; [by eapply list_elem_of_lookup_2|].
    destruct (Hok hi) as [Hvhi Hbig]; [by eapply list_elem_of_lookup_2|].
    apply andb_true_iff. rewrite Z.leb_le, Z.ltb_lt. split.
    + apply x_start_le; [done|done|]. apply Hclear; [by eapply list_elem_of_lookup_2|done].
    + apply x_end_gt; try done. rewrite f64_ltb_negb, Hr; [done|by apply finite_not_nan|].
      rewrite Forall_forall in Hn. apply Hn. by eapply list_elem_of_lookup_2.
Qed.

(** ** The rasteriser and the rule *)

(** On the line [yc], the edges that span it are steep enough and meet it at a
    number below 2^63. *)
Definition line_ok (r : PolygonRing) (yc : f64) : Prop :=
  ∀ e, e ∈ edges (vertices r) → spans yc e = true →
    not_flat e ∧ f64_ltb (edge_x yc e) (f64_of_Z (2 ^ 63)) = true.

(** No edge meets the line of row [y] right of the left edge of column [x] and not
    right of its centre. *)
Definition column_clear (r : PolygonRing) (y x : Z) : Prop :=
  ∀ e, e ∈ edges (vertices r) → spans (center y) e = true →
    f64_leb (edge_x (center y) e) (center x) = true →
    f64_leb (edge_x (center y) e) (f64_of_Z x) = true.

Lemma crossings_edges r yc : valid yc → is_finite yc = true → Forall vertex_ok (vertices r) →
  line_ok r yc →
  crossings r yc = edge_x yc <$> filter (λ e, spans yc e = true) (edges (vertices r)).
Proof.
  intros Hyc Hfc Hvs Hok. unfold crossings, line_ok in *. rewrite Forall_forall in Hvs.
  assert (∀ e, e ∈ edges (vertices r) →
    crossing yc e = if spans yc e then Some (edge_x yc e) else None) as H.
  { intros e He. destruct (edge_vertices _ _ He) as [H0 H1].
    apply crossing_spans; auto. intros Hs. by apply (Hok e He). }
  revert H. generalize (edges (vertices r)) as l. clear. intros l.
  induction l as [|e l IH]; intros H; [done|].
  cbn [omap list_omap]. rewrite filter_cons, H by by left.
  specialize (IH (λ e' He', H e' (list_elem_of_further _ _ _ He'))).
  destruct (spans yc e); cbn; [apply (f_equal (cons _))|]; exact IH.
Qed.

Lemma inside_crossings r y x :
  inside r y x = Nat.odd (length (filter (λ a, f64_ltb (center x) a = true)
    (edge_x (center y) <$> filter (λ e, spans (center y) e = true) (edges (vertices r))))).
Proof.
  unfold inside. f_equal. induction (edges (vertices r)) as [|e l IH]; [done|].
  rewrite !filter_cons. destruct (spans (center y) e); simpl.
  - rewrite filter_cons. destruct (f64_ltb _ _); simpl; [apply (f_equal S)|]; exact IH.
  - exact IH.
Qed.

(** A row that an edge spans is scanned. *)
Lemma spanned_row r y minx miny maxx maxy e : Forall vertex_ok (vertices r) →
  bbox r = Some (minx, miny, maxx, maxy) → 0 ≤ y < 2 ^ 52 →
  e ∈ edges (vertices r) → spans (center y) e = true →
  f64_to_u64 (f64_max (f64_floor miny) f64_zero) ≤ y < f64_to_u64 (f64_ceil maxy).
Proof.
  intros Hvs Hb Hy He Hs. destruct (bbox_rows _ _ _ _ _ Hvs Hb) as ((Vl & Fl) & (Vh & Fh) & Hbox).
  destruct (center_value y Hy) as (Vc & Fc & _). destruct (edge_vertices _ _ He) as [H0 H1].
  rewrite Forall_forall in Hvs. destruct (Hvs _ H0) as (_ & V0 & F0). destruct (Hvs _ H1) as (_ & V1 & F1).
  apply Hbox in H0, H1. unfold spans in Hs. rewrite !f64_leb_sval in Hs by done.
  split; [apply row_start_le|apply row_end_gt]; try done;
    rewrite ?f64_leb_sval, ?f64_ltb_sval, ?Z.leb_le, ?Z.ltb_lt by done;
    destruct (Z.leb_spec (sval e.1.2) (sval (center y))), (Z.leb_spec (sval e.2.2) (sval (center y)));
    try done; lia.
Qed.

Lemma odd_filter {A} (P : A → Prop) `{∀ a, Decision (P a)} l :
  Nat.odd (length (filter P l)) = true → ∃ a, a ∈ l ∧ P a.
Proof.
  intros Ho. destruct (filter P l) as [|a l'] eqn:E; [done|]. exists a.
  assert (a ∈ filter P l) as [? ?]%list_elem_of_filter by (rewrite E; by left). done.
Qed.

(** The span test on one row, by the rule. *)
Lemma row_rule r cols y x :
  Forall vertex_ok (vertices r) → 0 ≤ y < 2 ^ 52 → line_ok r (center y) → 0 ≤ x < 2 ^ 52 → x < cols →
  (in_pairs cols (sorted_crossings r y) x = true → inside r y x = true) ∧
  (inside r y x = true → column_clear r y x → in_pairs cols (sorted_crossings r y) x = true).
Proof.
  intros Hvs Hy Hline Hx Hcols. destruct (center_value y Hy) as (Vc & Fc & _).
  pose proof (crossings_edges r (center y) Vc Fc Hvs Hline) as Hc.
  set (xs := edge_x (center y) <$> _) in Hc.
  assert (Forall (λ a, valid a ∧ f64_ltb a (f64_of_Z (2 ^ 63)) = true) xs) as Hok.
  { apply Forall_fmap, Forall_forall. intros e [Hs He]%list_elem_of_filter.
    destruct (edge_vertices _ _ He) as [H0 H1]. rewrite Forall_forall in Hvs.
    split; [apply edge_x_valid; auto|by apply (Hline e He)]. }
  assert (Forall (λ a, is_nan a = false) xs) as Hn.
  { eapply Forall_impl; [exact Hok|]. intros a [_ Ha]. by destruct a. }
  assert (sorted_crossings r y ≡ₚ xs) as Hp by (unfold sorted_crossings; by rewrite sort_by_perm, Hc).
  assert (StronglySorted (λ a b, sort_le true a b = true) (sorted_crossings r y)) as Hsorted.
  { apply (sort_by_ordered (sort_le true) (λ a, is_nan a = false));
      [intros a b; apply sort_le_total|intros a b c; apply sort_le_trans|by rewrite Hc]. }
  rewrite in_pairs_between by (done || by rewrite Hp).
  assert (inside r y x =
    Nat.odd (length (filter (λ a, f64_ltb (center x) a = true) (sorted_crossings r y)))) as ->.
  { rewrite inside_crossings. fold xs. by rewrite Hp. }
  assert (Nat.odd (length (sorted_crossings r y)) = false) as Heven.
  { rewrite Hp. unfold xs. rewrite length_fmap. apply spans_even. }
  destruct (between_spec cols x (sorted_crossings r y)) as [H1 H2]; try done; [by rewrite Hp|].
  split; [exact H1|]. intros Hi Hclear. apply H2; [exact Hi|]. rewrite Hp.
  apply Forall_fmap, Forall_forall. intros e [Hs He]%list_elem_of_filter. simpl. by apply Hclear.
Qed.


Definition ratio (a b : Z) : f64 := f64_div (f64_of_Z a) (f64_of_Z b).

Definition square : PolygonRing :=
  mkPolygonRing [(ratio 1 1, ratio 0 1); (ratio 3 1, ratio 0 1); (ratio 3 1, ratio 2 1); (ratio 1 1, ratio 2 1)].

Lemma square_lines y : 0 ≤ y < 3 → line_ok square (center y).
Proof.
  intros Hy e He Hs. assert (y = 0 ∨ y = 1 ∨ y = 2) as Hc by lia.
  apply list_elem_of_In in He. destruct Hc as [-> | [-> | ->]]; simpl in He;
    destruct He as [<- | [<- | [<- | [<- | []]]]]; revert Hs; vm_compute; auto; discriminate.
Qed.


(** The mask of the square: the rule, and no pixel is lost. *)
Example square_mask :
  rasterise square 3 4 = Ok [0; 1; 1; 0;  0; 1; 1; 0;  0; 0; 0; 0] ∧
  map (λ p : Z * Z, inside square p.1 p.2) [(0, 0); (0, 1); (1, 2); (1, 3); (2, 1)] =
    [false; true; true; false; false].
Proof. by vm_compute. Qed.

(** A left edge at 1.2: the centre of the second column, 1.5, is inside, but the
    span starts at the crossing rounded up. *)
Example left_column_lost :
  let r := mkPolygonRing [(ratio 6 5, ratio 0 1); (ratio 3 1, ratio 0 1);
                          (ratio 3 1, ratio 2 1); (ratio 6 5, ratio 2 1)] in
  rasterise r 1 4 = Ok [0; 0; 1; 0] ∧ inside r 0 1 = true.
Proof. by vm_compute. Qed.

(** A right edge beyond the range of [usize]: the increment wraps and the row
    stays empty; a build with overflow checks panics. *)
Example far_edge_empties_row :
  rasterise (mkPolygonRing [(ratio 0 1, ratio 0 1); (ratio (2 ^ 70) 1, ratio 0 1);
                            (ratio (2 ^ 70) 1, ratio 2 1); (ratio 0 1, ratio 2 1)]) 1 4 = Ok [0; 0; 0; 0].
Proof. by vm_compute. Qed.
