(* ===== verification/Misc.v ===== *)
(** * merge_cubes, zonal processes, resample_spatial and the classifier

    apps/orbit-openeo/src/geo_executor/eval_misc.rs with the argument decoders of
    mod.rs, and of crates/orbit-geo the samplers (sampling.rs), the histogram
    (zonal_stats.rs) and the logistic classifier (ml.rs).  GDAL, the raster
    datasets, the clock and ndarray's reductions are parameters. *)

From Stdlib Require Import Floats.SpecFloat.
From S2P Require Import Prelude BTree F64 Text Json Executor Geo Arrays Callback Apply Reduce Cube Vector.
Local Open Scope Z_scope.

Notation Args := (btree string Value).

(** ** Argument decoders (mod.rs) *)

(** [map.entry(k).or_insert_with(v)] *)
Definition entry_or {A} (k : string) (v : A) (m : list (string * A)) : A := default v (assoc_get k m).

Definition filter_passthrough (args : Args) (arg_names : list string) (tag : string)
    : result ExecError Value :=
  match bt_get "data" args with
  | None => Err (InvalidGraph (tag +:+ ": missing `data`"))
  | Some (Object m) =>
      let entry := foldl (λ e a, match bt_get a args with Some v => assoc_set a v e | None => e end)
                     [("step", JString tag)] arg_names in
      let meta := entry_or "_orbit_meta" (Object []) m in
      let meta :=
        match meta with
        | Object meta_obj =>
            Object (assoc_set "applied"
              match entry_or "applied" (Array []) meta_obj with
              | Array arr => Array (arr ++ [Object entry])
              | other => other
              end meta_obj)
        | other => other
        end in
      Ok (Object (assoc_set "_orbit_meta" meta m))
  | Some data => Ok data
  end.

(** The bit mixer behind the retry jitter, on the nanoseconds of the clock. *)
Definition fastrand_unit_f64 (nanos : Z) : f64 :=
  let x := wrap 64 (wrap 64 nanos * 0x9E3779B97F4A7C15) in
  let x := Z.lxor x (Z.shiftr x 33) in
  let x := wrap 64 (x * 0xff51afd7ed558ccd) in
  let x := Z.lxor x (Z.shiftr x 33) in
  f64_div (f64_of_Z x) (f64_of_Z (2 ^ 64 - 1)).

Fixpoint numbers_of (name : string) (row : list Value) : result ExecError (list f64) :=
  match row with
  | [] => Ok []
  | c :: row =>
      x ← ok_or (as_f64 c) (InvalidGraph (name +:+ ": non-numeric element"));
      xs ← numbers_of name row;
      Ok (x :: xs)
  end.

Fixpoint rows_of (name : string) (cols r_idx : nat) (arr : list Value)
    : result ExecError (list (list f64)) :=
  match arr with
  | [] => Ok []
  | row :: arr =>
      row ← ok_or (as_array row)
        (InvalidGraph (name +:+ " row " +:+ pretty r_idx +:+ " not an array"));
      if negb (length row =? cols)%nat then
        Err (InvalidGraph (name +:+ " row " +:+ pretty r_idx +:+ " length " +:+ pretty (length row)
               +:+ " != expected " +:+ pretty cols))
      else
        x ← numbers_of name row;
        xs ← rows_of name cols (S r_idx) arr;
        Ok (x :: xs)
  end.

(** The rows of the array, all of one length, and that length. *)
Definition json_to_array2 (v : option Value) (name : string)
    : result ExecError (list (list f64) * nat) :=
  match v ≫= as_array with
  | None => Err (InvalidGraph (name +:+ " must be a 2-D number array"))
  | Some [] => Err (InvalidGraph (name +:+ ": empty array"))
  | Some (row0 :: _ as arr) =>
      match as_array row0 with
      | None => Err (InvalidGraph (name +:+ " row 0 not an array"))
      | Some row0 => rows ← rows_of name (length row0) 0 arr; Ok (rows, length row0)
      end
  end.

Fixpoint bytes_of (name : string) (l : list Value) : result ExecError (list Z) :=
  match l with
  | [] => Ok []
  | v :: l =>
      n ← ok_or (as_u64 v) (InvalidGraph (name +:+ ": non-integer element"));
      if 255 <? n then Err (InvalidGraph (name +:+ ": value " +:+ pretty n +:+ " out of u8 range"))
      else ns ← bytes_of name l; Ok (n :: ns)
  end.

Definition json_to_array1_u8 (v : option Value) (name : string) : result ExecError (list Z) :=
  match v ≫= as_array with
  | None => Err (InvalidGraph (name +:+ " must be an array"))
  | Some l => bytes_of name l
  end.

Section paths.
(** The text of serde's error. *)
Context (serde_error : Value → string).

(** The band map of a cube envelope, and the first path of its primary band. *)
Definition cube_bands (v : Value) : option (list (string * Value)) :=
  cube ← jget "__cube" v; bands ← jget "bands" cube; as_object bands.

Definition first_band_path (bands : list (string * Value)) : option string :=
  key ← pick_band bands; ps ← assoc_get key bands; paths ← as_array ps; p ← head paths; as_str p.

(** [raster["path"]]: null when it is absent. *)
Definition extract_raster_path (v : option Value) (name : string) : result ExecError string :=
  match v with
  | None => Err (InvalidGraph ("missing `" +:+ name +:+ "`"))
  | Some v =>
      match jget "__raster" v with
      | Some raster =>
          let p := default Null (jget "path" raster) in
          ok_or (as_str p) (InvalidGraph (name +:+ ": bad __raster.path: " +:+ serde_error p))
      | None =>
          match cube_bands v with
          | Some bands =>
              ok_or (first_band_path bands)
                (InvalidGraph (name +:+ ": __cube has no usable band path"))
          | None =>
              ok_or (as_str v) (InvalidGraph (name
                +:+ " must be a __raster handle, __cube envelope, or a string path"))
          end
      end
  end.
End paths.

(** ** merge_cubes *)

Definition raster_handle (path by_ : string) (more : list (string * Value)) : Value :=
  Object [("__raster", Object ([("path", JString path); ("media_type", JString "image/tiff");
                                ("produced_by", JString by_)] ++ more))].

(** The members of the first cube that the result keeps. *)
Definition kept_members (c1_inner : Value) : list (string * Value) :=
  omap (λ key, v ← jget key c1_inner; Some (key, v)) ["bbox"; "collection"; "scene_count"].

Definition merged (bands : list (string * Value)) (c1_inner : Value) : Value :=
  Object [("__cube", Object (("bands", Object bands) :: kept_members c1_inner))].

(** How the reduction of two rasters may fail. *)
Inductive PairError := Builder (e : string) | Build (e : string) | Run (e : string).

Section merge.
Context `{Libm32} (serde_error : Value → string).
Context {W : Type} (scratch_dir : string) (now_nanos : W → Z * W).
(** The reduction of the two-layer dataset of two files by a worker into a file:
    [None] is a panic of the worker. *)
Context (reduce_pair : string → string → (RasterDataBlock → option (list (list f32))) → string →
          W → option (result PairError unit * W)).
(** [gdal_utils::mosaic] *)
Context (mosaic : list string → string → W → result string string * W).

Definition paths_of (v : Value) : list string :=
  match as_array v with Some a => omap as_str a | None => [] end.

Definition pair_error (band t : string) (e : PairError) : ExecError :=
  match e with
  | Builder e => ExecBackend ("merge_cubes resolve builder " +:+ band +:+ " t=" +:+ t +:+ ": " +:+ e)
  | Build e => ExecBackend ("merge_cubes resolve build " +:+ band +:+ " t=" +:+ t +:+ ": " +:+ e)
  | Run e => ExecBackend ("merge_cubes resolve " +:+ band +:+ " t=" +:+ t +:+ ": " +:+ e)
  end.

(** The closure over the layers of one block is that of reduce_dimension. *)
Definition resolver_worker (red : ReducerKind) (rdb : RasterDataBlock) : option (list (list f32)) :=
  band_worker red rdb.

(** The scenes of one shared band, in order. *)
Fixpoint resolve_scenes (red : ReducerKind) (band : string) (t : nat) (ps : list (string * string)) (w : W)
    : option (result ExecError (list string) * W) :=
  match ps with
  | [] => Some (Ok [], w)
  | (a, b) :: ps =>
      let '(nanos, w) := now_nanos w in
      let out_path := scratch_dir +:+ "/merge_resolve_" +:+ band +:+ "_t" +:+ pretty t +:+ "_"
                      +:+ pretty nanos +:+ ".tif" in
      match reduce_pair a b (resolver_worker red) out_path w with
      | None => None
      | Some (Err e, w) => Some (Err (pair_error band (pretty t) e), w)
      | Some (Ok _, w) =>
          match resolve_scenes red band (S t) ps w with
          | None => None
          | Some (Err e, w) => Some (Err e, w)
          | Some (Ok outs, w) => Some (Ok (out_path :: outs), w)
          end
      end
  end.

Definition resolve_band (red : ReducerKind) (band : string) (v1 v2 : option Value) (w : W)
    : option (result ExecError Value * W) :=
  match v1, v2 with
  | Some v1, Some v2 =>
      let p1 := paths_of v1 in
      let p2 := paths_of v2 in
      if negb (length p1 =? length p2)%nat then
        Some (Err (InvalidGraph ("merge_cubes: band `" +:+ band +:+ "` scene-count mismatch ("
               +:+ pretty (length p1) +:+ " vs " +:+ pretty (length p2) +:+ ")")), w)
      else
        match resolve_scenes red band 0 (zip p1 p2) w with
        | None => None
        | Some (Err e, w) => Some (Err e, w)
        | Some (Ok outs, w) => Some (Ok (str_array outs), w)
        end
  | Some v, None | None, Some v => Some (Ok v, w)
  | None, None => None   (* unreachable: the key is of one of the maps *)
  end.

Fixpoint resolve_bands (red : ReducerKind) (b1 b2 : list (string * Value)) (keys : list string)
    (out : list (string * Value)) (w : W) : option (result ExecError (list (string * Value)) * W) :=
  match keys with
  | [] => Some (Ok out, w)
  | band :: keys =>
      match resolve_band red band (assoc_get band b1) (assoc_get band b2) w with
      | None => None
      | Some (Err e, w) => Some (Err e, w)
      | Some (Ok v, w) => resolve_bands red b1 b2 keys (assoc_set band v out) w
      end
  end.

(** The [BTreeSet] of the band names. *)
Definition all_keys (b1 b2 : list (string * Value)) : list string :=
  (bt_of_list ((λ k, (k, tt)) <$> (b1.*1 ++ b2.*1))).*1.

Definition merge_cubes_resolve_overlap (b1 b2 : list (string * Value)) (c1_inner resolver : Value) (w : W)
    : option (result ExecError Value * W) :=
  match parse_reducer_subgraph resolver with
  | Err e => Some (Err e, w)
  | Ok red =>
      match resolve_bands red b1 b2 (all_keys b1 b2) [] w with
      | None => None
      | Some (Err e, w) => Some (Err e, w)
      | Some (Ok bands, w) => Some (Ok (merged bands c1_inner), w)
      end
  end.

Definition overlap (b1 b2 : list (string * Value)) : bool :=
  existsb (λ k, bool_decide (is_Some (assoc_get k b2))) b1.*1.

Definition join_bands (b1 b2 : list (string * Value)) : list (string * Value) :=
  foldl (λ m e, assoc_set e.1 e.2 m) [] (b1 ++ b2).

Definition spatial_mosaic (cube1 cube2 : Value) (w : W) : option (result ExecError Value * W) :=
  Some match extract_raster_path serde_error (Some cube1) "cube1",
             extract_raster_path serde_error (Some cube2) "cube2" with
  | Err e, _ => (Err e, w)
  | _, Err e => (Err e, w)
  | Ok p1, Ok p2 =>
      let '(nanos, w) := now_nanos w in
      let dst := scratch_dir +:+ "/mosaic_" +:+ pretty nanos +:+ ".tif" in
      match mosaic [p1; p2] dst w with
      | (Err e, w) => (Err (ExecBackend ("merge_cubes: " +:+ e)), w)
      | (Ok out, w) => (Ok (raster_handle out "merge_cubes" []), w)
      end
  end.

(** [args.get(a).or_else(|| args.get(b))] *)
Definition get_or (a b : string) (args : Args) : option Value :=
  match bt_get a args with Some v => Some v | None => bt_get b args end.

Definition eval_merge_cubes (args : Args) (w : W) : option (result ExecError Value * W) :=
  match get_or "cube1" "data1" args with
  | None => Some (Err (InvalidGraph "merge_cubes: missing `cube1`"), w)
  | Some cube1 =>
      match get_or "cube2" "data2" args with
      | None => Some (Err (InvalidGraph "merge_cubes: missing `cube2`"), w)
      | Some cube2 =>
          match jget "__cube" cube1, jget "__cube" cube2 with
          | Some c1, Some c2 =>
              match jget "bands" c1 ≫= as_object, jget "bands" c2 ≫= as_object with
              | Some b1, Some b2 =>
                  if negb (overlap b1 b2) then Some (Ok (merged (join_bands b1 b2) c1), w)
                  else
                    match bt_get "overlap_resolver" args with
                    | Some resolver => merge_cubes_resolve_overlap b1 b2 c1 resolver w
                    | None => spatial_mosaic cube1 cube2 w
                    end
              | _, _ => spatial_mosaic cube1 cube2 w
              end
          | _, _ => spatial_mosaic cube1 cube2 w
          end
      end
  end.
End merge.

(** ** Polygons of a GeoJSON value *)

Definition is_number (v : Value) : bool := match v with Number _ => true | _ => false end.

Definition is_coord_pair (v : Value) : bool :=
  match v with Array (a :: b :: _) => is_number a && is_number b | _ => false end.

Definition coord_pair (v : Value) : option (f64 * f64) :=
  match v with
  | Array (a :: b :: _) => x ← as_f64 a; y ← as_f64 b; Some (x, y)
  | _ => None
  end.

Definition ring_from_value (v : Value) : option (list (f64 * f64)) :=
  arr ← as_array v;
  if (length arr <? 3)%nat || negb (forallb is_coord_pair arr) then None
  else Some (omap coord_pair arr).

(** The exterior ring of an array of rings. *)
Definition exterior (v : Value) : list (list (f64 * f64)) :=
  match rings ← as_array v; r ← head rings; ring_from_value r with
  | Some ext => [ext]
  | None => []
  end.

Definition member_list (k : string) (v : Value) : list Value :=
  default [] (x ← jget k v; as_array x).

(** The fuel is a bound on the nesting; [None] is its exhaustion. *)
Fixpoint collect_rings_inner (fuel : nat) (v : Value) : option (list (list (f64 * f64))) :=
  match fuel with
  | O => None
  | S fuel =>
      let each l := (λ ls, concat ls) <$> mapM (collect_rings_inner fuel) l in
      match v with
      | Object map =>
          let kind := jget "type" v ≫= as_str in
          if bool_decide (kind = Some "MultiPolygon") then
            Some (concat (exterior <$> member_list "coordinates" v))
          else if bool_decide (kind = Some "Feature") then
            match jget "geometry" v with Some g => collect_rings_inner fuel g | None => Some [] end
          else if bool_decide (kind = Some "FeatureCollection") then each (member_list "features" v)
          else if bool_decide (kind = Some "GeometryCollection") then each (member_list "geometries" v)
          else Some (match jget "coordinates" v with Some c => exterior c | None => [] end)
      | Array arr =>
          match ring_from_value v with
          | Some ring => Some [ring]
          | None => each arr
          end
      | _ => Some []
      end
  end.

Definition collect_exterior_rings (v : Value) : list (list (f64 * f64)) :=
  default [] (collect_rings_inner (value_size v) v).

(** ** aggregate_spatial *)

(** An opened raster: geo transform, size, first band, and the transformation of
    longitudes and latitudes into its coordinate system when it has one. *)
Record OpenedRaster := mkOpenedRaster {
  or_gt : list f64; or_cols : Z; or_rows : Z; or_raster : list f32;
  or_xform : option (list f64 → list f64 → result string (list f64 * list f64)) }.

Definition gt_at (l : list f64) (i : nat) : f64 := nth i l f64_zero.

Definition pixel_ring (o : OpenedRaster) (xs ys : list f64) : PolygonRing :=
  mkPolygonRing (zip_with (λ x y,
    (f64_div (f64_sub x (gt_at (or_gt o) 0)) (gt_at (or_gt o) 1),
     f64_div (f64_sub y (gt_at (or_gt o) 3)) (gt_at (or_gt o) 5))) xs ys).

(** The values of the raster inside of a mask. *)
Definition inside_values (mask : list Z) (raster : list f32) : list f32 :=
  omap (λ mv : Z * f32, if (mv.1 =? 1) && valid mv.2 then Some mv.2 else None) (zip mask raster).

Section zonal.
Context `{Libm32} (serde_error : Value → string).
Context {W : Type} (open_raster : string → W → result string OpenedRaster * W).

(** The value of one ring on one raster; [None] is a panic of the reducer. *)
Definition ring_value (red : Reducer) (o : OpenedRaster) (ring : list (f64 * f64))
    : option (result ExecError Value) :=
  match (match or_xform o with
         | Some f => f ring.*1 ring.*2
         | None => Ok (ring.*1, ring.*2)
         end) with
  | Err e => Some (Err (ExecBackend ("aggregate_spatial: transform_coords: " +:+ e)))
  | Ok (xs, ys) =>
      let pix_ring := pixel_ring o xs ys in
      if negb (is_valid pix_ring) then Some (Ok Null)
      else
        match rasterise pix_ring (or_rows o) (or_cols o) with
        | Err _ => Some (Ok Null)
        | Ok mask =>
            match inside_values mask (or_raster o) with
            | [] => Some (Ok Null)
            | vals => r ← apply_reducer vals red; Some (Ok (json_of_f64 (f64_of_f32 r)))
            end
        end
  end.

(** The values of all rings, up to the first failure. *)
Fixpoint ring_values (red : Reducer) (o : OpenedRaster) (rings : list (list (f64 * f64)))
    : option (result ExecError (list Value)) :=
  match rings with
  | [] => Some (Ok [])
  | ring :: rings =>
      r ← ring_value red o ring;
      match r with
      | Err e => Some (Err e)
      | Ok v => rest ← ring_values red o rings; Some (vs ← rest; Ok (v :: vs))
      end
  end.

(** [data_out[gi].push(value)] for every ring. *)
Definition push_all (data_out : list (list Value)) (vs : list Value) : list (list Value) :=
  zip_with (λ col v, col ++ [v]) data_out vs.

Fixpoint scene_values (red : Reducer) (rings : list (list (f64 * f64))) (paths : list string)
    (data_out : list (list Value)) (w : W) : option (result ExecError (list (list Value)) * W) :=
  match paths with
  | [] => Some (Ok data_out, w)
  | path :: paths =>
      match open_raster path w with
      | (Err e, w) => Some (Err (ExecBackend ("aggregate_spatial: " +:+ e)), w)
      | (Ok o, w) =>
          if f64_eqb (gt_at (or_gt o) 1) f64_zero || f64_eqb (gt_at (or_gt o) 5) f64_zero then
            Some (Err (ExecBackend "aggregate_spatial: degenerate geo_transform"), w)
          else
            match ring_values red o rings with
            | None => None
            | Some (Err e) => Some (Err e, w)
            | Some (Ok vs) => scene_values red rings paths (push_all data_out vs) w
            end
      end
  end.

Definition count_json (n : nat) : Value := Number (PosInt (Z.of_nat n)).

Definition aggregate_spatial_json (band_key : string) (red : Reducer) (rings scenes : nat)
    (data : list (list Value)) : Value :=
  Object [("aggregate_spatial", Object [
    ("band", JString band_key); ("reducer", JString (name red)); ("geometry_count", count_json rings);
    ("scene_count", count_json scenes); ("data", Array (Array <$> data))])].

(** The arguments, in the order in which they are checked. *)
Definition aggregate_spatial_args (args : Args)
    : result ExecError (Reducer * list (list (f64 * f64)) * string * list string) :=
  reducer_val ← ok_or (bt_get "reducer" args)
    (InvalidGraph "aggregate_spatial: missing `reducer` callback");
  kind ← parse_reducer_subgraph reducer_val;
  red ← match kind with
        | Builtin r => Ok r
        | SubGraph _ => Err (InvalidGraph ("aggregate_spatial: compound reducer callbacks are not supported; "
            +:+ "use a single statistical reducer (mean/min/max/sum/median/count/…)"))
        end;
  geometries ← ok_or (bt_get "geometries" args) (InvalidGraph "aggregate_spatial: missing `geometries`");
  let rings := collect_exterior_rings geometries in
  if bool_decide (rings = []) then
    Err (InvalidGraph "aggregate_spatial: no polygon geometries found (expected GeoJSON polygons)")
  else
    data ← ok_or (bt_get "data" args) (InvalidGraph "aggregate_spatial: missing `data`");
    cube ← map_err (λ e, InvalidGraph ("aggregate_spatial: input is not a cube: " +:+ cube_error_text e))
      (from_envelope_owned serde_error data);
    band_key ← ok_or (pick_band (bands cube)) (InvalidGraph "aggregate_spatial: cube has no usable band");
    paths ← map_err (λ _, ExecBackend ("aggregate_spatial: band `" +:+ band_key +:+ "` vanished"))
      (take_band band_key cube).1;
    Ok (red, rings, band_key, paths).

Definition eval_aggregate_spatial (args : Args) (w : W) : option (result ExecError Value * W) :=
  match aggregate_spatial_args args with
  | Err e => Some (Err e, w)
  | Ok (red, rings, band_key, paths) =>
      match scene_values red rings paths (replicate (length rings) []) w with
      | None => None
      | Some (Err e, w) => Some (Err e, w)
      | Some (Ok data, w) =>
          Some (Ok (aggregate_spatial_json band_key red (length rings) (length paths) data), w)
      end
  end.
End zonal.

(** ** aggregate_spatial_point and the samplers (sampling.rs) *)

(** [(row, col)] of a coordinate. *)
Definition geo_to_pixel (geo_x geo_y : f64) (gt : list f64) : Z * Z :=
  let col := f64_to_i64 (f64_floor (f64_div (f64_sub geo_x (gt_at gt 0)) (gt_at gt 1))) in
  let row := f64_to_i64 (f64_floor (f64_div (f64_sub (gt_at gt 3) geo_y) (f64_abs (gt_at gt 5)))) in
  (row, col).

(** Index of the first threshold above the value. *)
Definition get_class (v : f32) (thresholds : list f32) : nat :=
  default (length thresholds) (fst <$> list_find (λ t, SFltb v t = true) thresholds).

(** A coordinate pair; [what] names it in the messages. *)
Definition xy_pair (what : string) (p : Value) : result ExecError (f64 * f64) :=
  pair ← ok_or (as_array p) (InvalidGraph (what +:+ " must be [x,y]"));
  match pair with
  | [a; b] =>
      x ← ok_or (as_f64 a) (InvalidGraph (what +:+ "[0] not a number"));
      y ← ok_or (as_f64 b) (InvalidGraph (what +:+ "[1] not a number"));
      Ok (x, y)
  | _ => Err (InvalidGraph (what +:+ ": expected [x,y], got len=" +:+ pretty (length pair)))
  end.

Definition xy_pairs (what : nat → string) (l : list Value) : result ExecError (list (f64 * f64)) :=
  result_traverse (λ e : nat * Value, xy_pair (what e.1) e.2) (imap pair l).

Definition points_of (args : Args) : result ExecError (list (f64 * f64)) :=
  arr ← ok_or (bt_get "points" args ≫= as_array)
    (InvalidGraph "aggregate_spatial_point: `points` must be an array");
  xy_pairs (λ i, "points[" +:+ pretty i +:+ "]") arr.

(** ** aggregate_spatial_polygon *)

Definition geometry_ring (i : nat) (g : Value) : result ExecError PolygonRing :=
  let what := "geometries[" +:+ pretty i +:+ "]" in
  coords ← ok_or (jget "coordinates" g ≫= as_array)
    (InvalidGraph (what +:+ ": missing `coordinates` array"));
  verts ← xy_pairs (λ j, what +:+ ".coordinates[" +:+ pretty j +:+ "]") coords;
  let ring := mkPolygonRing verts in
  if is_valid ring then Ok ring
  else Err (InvalidGraph (what +:+ ": polygon needs ≥3 vertices")).

Definition geometries_of (args : Args) : result ExecError (list PolygonRing) :=
  geoms ← ok_or (bt_get "geometries" args ≫= as_array)
    (InvalidGraph "aggregate_spatial_polygon: `geometries` must be an array");
  if bool_decide (geoms = []) then
    Err (InvalidGraph "aggregate_spatial_polygon: at least one polygon required")
  else result_traverse (λ e : nat * Value, geometry_ring e.1 e.2) (imap pair geoms).

Definition vector_error_text (e : VectorError) : string :=
  match e with
  | InvalidRing n => "invalid polygon: ring has " +:+ pretty n +:+ " vertex(es), need ≥ 3"
  | SizeMismatch e a => "raster size mismatch: expected " +:+ pretty e +:+ " pixels, got " +:+ pretty a
  end.

(** ** The logistic classifier (ml.rs) *)

(** ndarray's products and mean; their order of summation is the library's. *)
Class Ndarray := {
  nd_dot : list (list f64) → list f64 → list f64;    (* [x.dot(&w)] *)
  nd_dot_t : nat → list (list f64) → list f64 → list f64;    (* [x.t().dot(&err)] *)
  nd_mean : list f64 → option f64 }.

Record ClassifierModel := mkClassifierModel { weights : list f64; bias : f64 }.

Section classifier.
Context `{Ndarray, Libm}.

Definition sigmoid (z : f64) : f64 :=
  f64_div f64_one (f64_add f64_one (f64_exp (SFopp z))).

Definition logits (m : ClassifierModel) (x : list (list f64)) : list f64 :=
  (λ z, f64_add z (bias m)) <$> nd_dot x (weights m).

(** One epoch of the gradient descent. *)
Definition epoch (x : list (list f64)) (d : nat) (y_f : list f64) (lr : f64) (m : ClassifierModel)
    : ClassifierModel :=
  let p := sigmoid <$> logits m x in
  let err := zip_with f64_sub p y_f in
  let grad_w := (λ g, f64_div g (f64_of_Z (Z.of_nat (length x)))) <$> nd_dot_t d x err in
  let grad_b := default f64_zero (nd_mean err) in
  mkClassifierModel (zip_with (λ w g, f64_sub w (f64_mul g lr)) (weights m) grad_w)
    (f64_sub (bias m) (f64_mul grad_b lr)).

Definition fit_classifier (x : list (list f64)) (d : nat) (y : list Z) (iterations : nat) (lr : f64)
    : result string ClassifierModel :=
  if negb (length y =? length x)%nat then
    Err ("fit_classifier: X has " +:+ pretty (length x) +:+ " rows but y has "
         +:+ pretty (length y) +:+ " entries")
  else Ok (Nat.iter iterations (epoch x d (f64_of_Z <$> y) lr)
             (mkClassifierModel (replicate d f64_zero) f64_zero)).

(** [x] has [d] columns; the product panics when the weights are not as many. *)
Definition predict_classifier (m : ClassifierModel) (x : list (list f64)) (d : nat) : option (list Z) :=
  if negb (length (weights m) =? d)%nat then None
  else Some ((λ z, if f64_leb f64_half (sigmoid z) then 1 else 0) <$> logits m x).

(** Share of agreeing labels. *)
Definition accuracy (predicted truth : list Z) : f64 :=
  if (length predicted =? 0)%nat then f64_zero
  else
    let correct := length (filter (λ e : Z * Z, e.1 = e.2) (zip predicted truth)) in
    f64_div (f64_of_Z (Z.of_nat correct)) (f64_of_Z (Z.of_nat (length predicted))).

(** [orbit_geo]'s error, as its message is shown. *)
Context (geo_error : string → string).

Definition eval_fit_classifier (args : Args) : result ExecError Value :=
  '(x, d) ← json_to_array2 (bt_get "x" args) "x";
  y ← json_to_array1_u8 (bt_get "y" args) "y";
  let iterations := default 200 (bt_get "iterations" args ≫= as_u64) in
  let lr := default (f64_div (f64_of_Z 5) f64_hundred) (bt_get "lr" args ≫= as_f64) in
  m ← map_err (λ e, ExecBackend ("fit_classifier: " +:+ geo_error e))
    (fit_classifier x d y (Z.to_nat iterations) lr);
  Ok (Object [("model", Object [("weights", Array (json_of_f64 <$> weights m));
                                ("bias", json_of_f64 (bias m))])]).

(** The model of the arguments, out of one level of nesting. *)
Definition unwrap_model (model_val : Value) : Value :=
  match model_val with
  | Object m => default model_val (assoc_get "model" m)
  | other => other
  end.

Definition model_of (serde_error : Value → string) (args : Args) : result ExecError ClassifierModel :=
  model_val ← ok_or (bt_get "model" args) (InvalidGraph "predict_classifier: missing `model`");
  obj ← ok_or (as_object (unwrap_model model_val))
    (InvalidGraph "predict_classifier: model must be an object");
  w ← ok_or (assoc_get "weights" obj) (InvalidGraph "predict_classifier: model.weights missing");
  b ← ok_or (assoc_get "bias" obj ≫= as_f64)
    (InvalidGraph "predict_classifier: model.bias must be a number");
  ws ← ok_or (de_vec as_f64 w) (InvalidGraph ("predict_classifier: weights: " +:+ serde_error w));
  Ok (mkClassifierModel ws b).

(** [None] is the panic. *)
Definition eval_predict_classifier (serde_error : Value → string) (args : Args)
    : option (result ExecError Value) :=
  match model_of serde_error args, json_to_array2 (bt_get "x" args) "x" with
  | Err e, _ => Some (Err e)
  | _, Err e => Some (Err e)
  | Ok m, Ok (x, d) =>
      preds ← predict_classifier m x d;
      Some (Ok (Object [("predictions", Array ((λ n, Number (PosInt n)) <$> preds))]))
  end.
End classifier.

(** ** Handlers over a raster *)

(** A dataset of one file: its geo transform and size, and its number of blocks. *)
Record SingleRaster := mkSingleRaster {
  sr_gt : list f64; sr_rows : Z; sr_cols : Z; sr_blocks : nat }.

(** Pixels of the data where the mask is not zero, one block. *)
Definition hist_block (data mask : list Z) (hist : btree Z Z) : btree Z Z :=
  foldl (λ h e, if e.2 =? 0 then h else bt_insert e.1 (default 0 (bt_get e.1 h) + 1) h)
    hist (zip data mask).

Section raster.
Context (serde_error : Value → string).
Context {W : Type} (scratch_dir : string) (now_nanos : W → Z * W).
(** The dataset builder, and reads of a pixel and of the first layer of a block;
    [None] is a failure. *)
Context (build_single : string → string → W → result ExecError SingleRaster * W).
Context (read_pixel : string → Z → Z → W → option Z * W).
Context (read_layer : string → nat → W → result string (list Z) * W).
(** GDAL's whole first band, with its columns and rows. *)
Context (read_band : string → W → result ExecError (list Z * (Z * Z)) * W).
(** [gdal_utils::warp] *)
Context (warp : string → string → Z → W → result string string * W).

Definition sample_at_point (path : string) (r : SingleRaster) (pt : f64 * f64) (w : W) : option Z * W :=
  let '(row, col) := geo_to_pixel pt.1 pt.2 (sr_gt r) in
  if (row <? 0) || (sr_rows r <=? row) || (col <? 0) || (sr_cols r <=? col) then (None, w)
  else read_pixel path col row w.

Fixpoint sample (path : string) (r : SingleRaster) (pts : list (f64 * f64)) (w : W)
    : list (option Z) * W :=
  match pts with
  | [] => ([], w)
  | pt :: pts =>
      let '(s, w) := sample_at_point path r pt w in
      let '(ss, w) := sample path r pts w in
      (s :: ss, w)
  end.

Definition sample_json (s : option Z) : Value :=
  match s with Some v => json_of_i64 v | None => Null end.

Definition eval_aggregate_spatial_point (args : Args) (w : W) : result ExecError Value * W :=
  match (data_path ← extract_raster_path serde_error (bt_get "data" args) "data";
         pts ← points_of args; Ok (data_path, pts)) with
  | Err e => (Err e, w)
  | Ok (data_path, pts) =>
      match build_single "agg_point" data_path w with
      | (Err e, w) => (Err e, w)
      | (Ok r, w) =>
          let '(samples, w) := sample data_path r pts w in
          (Ok (Object [("samples", Array (sample_json <$> samples)); ("count", count_json (length pts))]), w)
      end
  end.

Definition eval_aggregate_spatial_polygon (args : Args) (w : W) : result ExecError Value * W :=
  match (data_path ← extract_raster_path serde_error (bt_get "data" args) "data";
         rings ← geometries_of args; Ok (data_path, rings)) with
  | Err e => (Err e, w)
  | Ok (data_path, rings) =>
      match read_band data_path w with
      | (Err e, w) => (Err e, w)
      | (Ok (raster, (cols, rows)), w) =>
          match zonal_mean rings (f64_of_Z <$> raster) rows cols with
          | Err e => (Err (ExecBackend ("zonal mean: " +:+ vector_error_text e)), w)
          | Ok means =>
              (Ok (Object [("means", Array (json_of_f64 <$> means));
                           ("polygon_count", count_json (length rings))]), w)
          end
      end
  end.

Fixpoint hist_blocks (data mask : string) (blocks : list nat) (hist : btree Z Z) (w : W)
    : result string (btree Z Z) * W :=
  match blocks with
  | [] => (Ok hist, w)
  | id :: blocks =>
      match read_layer data id w with
      | (Err e, w) => (Err e, w)
      | (Ok d, w) =>
          match read_layer mask id w with
          | (Err e, w) => (Err e, w)
          | (Ok m, w) => hist_blocks data mask blocks (hist_block d m hist) w
          end
      end
  end.

Definition zonal_histogram (data mask : string) (data_blocks mask_blocks : nat) (w : W)
    : result string (btree Z Z) * W :=
  if negb (data_blocks =? mask_blocks)%nat then
    (Err ("zonal_histogram: data has " +:+ pretty data_blocks +:+ " blocks, mask has "
          +:+ pretty mask_blocks), w)
  else hist_blocks data mask (seq 0 data_blocks) [] w.

(** Sorted by value; the object's keys keep that order. *)
Definition histogram_json (hist : btree Z Z) : Value :=
  Object [("histogram", Object (prod_map pretty (λ n, Number (PosInt n)) <$> hist));
          ("total", Number (PosInt (foldr Z.add 0 hist.*2)))].

Definition eval_zonal_histogram (args : Args) (w : W) : result ExecError Value * W :=
  match (data ← extract_raster_path serde_error (bt_get "data" args) "data";
         mask ← extract_raster_path serde_error (bt_get "mask" args) "mask"; Ok (data, mask)) with
  | Err e => (Err e, w)
  | Ok (data, mask) =>
      match build_single "zonal_histogram: data" data w with
      | (Err e, w) => (Err e, w)
      | (Ok d, w) =>
          match build_single "zonal_histogram: mask" mask w with
          | (Err e, w) => (Err e, w)
          | (Ok m, w) =>
              match zonal_histogram data mask (sr_blocks d) (sr_blocks m) w with
              | (Err e, w) => (Err (ExecBackend ("zonal_histogram: " +:+ e)), w)
              | (Ok hist, w) => (Ok (histogram_json hist), w)
              end
          end
      end
  end.

(** ** resample_spatial *)

Definition nonzero_number (v : Value) : bool :=
  match as_f64 v with Some f => negb (f64_eqb f f64_zero) | None => false end.

Definition nonzero_resolution (res : Value) : bool :=
  match res with
  | Number _ => nonzero_number res
  | Array a => existsb nonzero_number a
  | _ => false
  end.

Definition warp_one (epsg : Z) (src tag : string) (w : W) : result ExecError string * W :=
  let '(nanos, w) := now_nanos w in
  let dst := scratch_dir +:+ "/warp_epsg" +:+ pretty epsg +:+ "_" +:+ tag +:+ "_" +:+ pretty nanos
             +:+ ".tif" in
  match warp src dst epsg w with
  | (Err e, w) => (Err (ExecBackend ("resample_spatial: warp " +:+ tag +:+ ": " +:+ e)), w)
  | (Ok p, w) => (Ok p, w)
  end.

Fixpoint warp_scenes (epsg : Z) (band : string) (t : nat) (paths : list string) (w : W)
    : result ExecError (list string) * W :=
  match paths with
  | [] => (Ok [], w)
  | src :: paths =>
      match warp_one epsg src (band +:+ "_t" +:+ pretty t) w with
      | (Err e, w) => (Err e, w)
      | (Ok p, w) =>
          match warp_scenes epsg band (S t) paths w with
          | (Err e, w) => (Err e, w)
          | (Ok ps, w) => (Ok (p :: ps), w)
          end
      end
  end.

Fixpoint warp_bands (epsg : Z) (keys : list string) (c : DataCube) (w : W)
    : result ExecError DataCube * W :=
  match keys with
  | [] => (Ok c, w)
  | key :: keys =>
      match take_band key c with
      | (Err _, _) => (Err (ExecBackend ("resample_spatial: band `" +:+ key +:+ "` vanished")), w)
      | (Ok paths, c) =>
          match warp_scenes epsg key 0 paths w with
          | (Err e, w) => (Err e, w)
          | (Ok out, w) => warp_bands epsg keys (set_bands (bt_insert key out (bands c)) c) w
          end
      end
  end.

(** No bounding box, and the projection among the extra members. *)
Definition reprojected (epsg : Z) (c : DataCube) : DataCube :=
  mkDataCube (bands c) (band_scales c) (cube_collection c) None (scene_count c) (datetimes c) (times c)
    (layers c) (layer_names c) (source_band c) (masked_bands c) (masked_by c) (replacement c)
    (bt_insert "target_epsg" (Number (PosInt epsg)) (extras c)).

Definition resample_cube (epsg : Z) (data : Value) (w : W) : result ExecError Value * W :=
  match from_envelope_owned serde_error data with
  | Err e => (Err (InvalidGraph ("resample_spatial: bad __cube: " +:+ cube_error_text e)), w)
  | Ok c =>
      if bool_decide (bands c = []) then (Err (ExecBackend "resample_spatial: __cube.bands is empty"), w)
      else
        match warp_bands epsg (bands c).*1 c w with
        | (Err e, w) => (Err e, w)
        | (Ok c, w) => (Ok (to_envelope (reprojected epsg c)), w)
        end
  end.

Definition resample_raster (epsg : Z) (raster : Value) (w : W) : result ExecError Value * W :=
  match jget "path" raster with
  | None => (Err (InvalidGraph "resample_spatial: __raster missing `path`"), w)
  | Some p =>
      match as_str p with
      | None => (Err (InvalidGraph ("resample_spatial: bad raster.path: " +:+ serde_error p)), w)
      | Some src =>
          match warp_one epsg src "r" w with
          | (Err e, w) => (Err e, w)
          | (Ok p, w) =>
              (Ok (raster_handle p "resample_spatial" [("target_epsg", Number (PosInt epsg))]), w)
          end
      end
  end.

Definition eval_resample_spatial (args : Args) (w : W) : result ExecError Value * W :=
  match bt_get "projection" args ≫= as_u64 with
  | None => (Err (InvalidGraph "resample_spatial: numeric `projection` (EPSG code) is required"), w)
  | Some p =>
      let target_epsg := wrap 32 p in
      if match bt_get "resolution" args with Some res => nonzero_resolution res | None => false end then
        (Err (InvalidGraph ("resample_spatial: `resolution` is not supported by this backend "
           +:+ "(projection-only reprojection); omit it or set it to 0")), w)
      else
        match bt_get "data" args with
        | None => (Err (InvalidGraph "resample_spatial: missing `data`"), w)
        | Some data =>
            match jget "__raster" data, jget "__cube" data with
            | Some raster, _ => resample_raster target_epsg raster w
            | None, Some _ => resample_cube target_epsg data w
            | None, None =>
                (Err (InvalidGraph "resample_spatial: `data` must be a __raster or __cube handle"), w)
            end
        end
  end.
End raster.

(** ** Cubes with disjoint bands are joined *)

Lemma from_map_agree m m' :
  de_default (de_map (de_vec as_str)) [] "bands" m = de_default (de_map (de_vec as_str)) [] "bands" m' →
  (∀ k, k ∈ field_names → k ≠ "bands" → assoc_get k m = assoc_get k m') →
  filter (λ e, e.1 ∉ field_names) m = filter (λ e, e.1 ∉ field_names) m' →
  from_map m = from_map m'.
Proof.
  intros Hb Hk Hx. unfold from_map. rewrite Hb, Hx.
  assert (∀ A (de : Value → option A) d, de_default de d "band_scales" m = de_default de d "band_scales" m')
    as -> by (intros; unfold de_default; rewrite Hk; [done|in_names|done]).
  assert (∀ A (de : Value → option A) k, bool_decide (k ∈ field_names ∧ k ≠ "bands") = true →
    de_option de k m = de_option de k m') as Ho
    by (intros A de k [? ?]%bool_decide_eq_true; unfold de_option; by rewrite Hk).
  by rewrite !Ho by (vm_compute; reflexivity).
Qed.

Lemma de_map_entries {A} (ser : A → Value) (de : Value → option A) (l : list (string * A)) :
  (∀ x, de (ser x) = Some x) → de_map de (Object (prod_map id ser <$> l)) = Some (bt_of_list l).
Proof.
  intros Hde. unfold de_map. cbn [as_object mbind option_bind].
  rewrite (mapM_fmap_id (prod_map id ser)); [done|].
  intros [k x] _. simpl. by rewrite Hde.
Qed.

Lemma bt_get_of_list_app {A} (t1 t2 : btree string A) k :
  bt_wf t1 → bt_wf t2 → (∀ k, k ∈ t1.*1 → k ∉ t2.*1) →
  bt_get k (bt_of_list (t1 ++ t2)) =
    match bt_get k t1 with Some v => Some v | None => bt_get k t2 end.
Proof.
  intros H1 H2 Hd. unfold bt_of_list. rewrite foldl_app.
  change (foldl _ [] t1) with (bt_of_list t1). rewrite bt_of_list_id by done.
  revert t1 H1 Hd. induction H2 as [|[k2 v2] t2 H2 IH Hall]; intros t1 H1 Hd; simpl.
  { by destruct (bt_get k t1). }
  assert (bt_get k2 t1 = None) as Hk2.
  { destruct (bt_get k2 t1) as [v|] eqn:E; [|done]. apply bt_get_Some in E; [|done].
    exfalso. apply (Hd k2); [by apply (list_elem_of_fmap_2 fst) in E|]. by left. }
  rewrite IH.
  - rewrite bt_get_insert by done. destruct (cmp k k2) eqn:E; [| |done].
    + apply cmp_eq in E as ->. by rewrite Hk2.
    + rewrite (bt_get_below k t2); [done|]. eapply Forall_impl; [done|].
      intros e He. by apply (cmp_trans _ k2).
  - by apply bt_wf_insert.
  - intros k' Hk' Hin. assert (NoDup (((k2, v2) :: t2).*1)) as Hnd.
    { apply bt_wf_nodup. by constructor. }
    simpl in Hnd. apply NoDup_cons in Hnd as [Hn _].
    assert (k' = k2 ∨ k' ∈ t1.*1) as [->|Hin1].
    { assert (Forall (λ e, e.1 = k2 ∨ e.1 ∈ t1.*1) (bt_insert k2 v2 t1)) as Hf.
      { apply bt_insert_forall; [by left|]. apply Forall_forall. intros e He.
        right. by apply (list_elem_of_fmap_2 fst). }
      apply list_elem_of_fmap in Hk' as (e & -> & He). rewrite Forall_forall in Hf. by apply Hf. }
    + done.
    + apply (Hd k' Hin1). by right.
Qed.

(** The cube of the joined bands. *)
Definition joined (c1 c2 : DataCube) : DataCube :=
  mkDataCube (bt_of_list (bands c1 ++ bands c2)) [] (cube_collection c1) (Cube.bbox c1) (scene_count c1)
    None None None None None None None None [].

Definition band_members (c : DataCube) : list (string * Value) := prod_map id str_array <$> bands c.

Lemma band_members_keys c : (band_members c).*1 = (bands c).*1.
Proof. unfold band_members. rewrite <- list_fmap_compose. by apply list_fmap_ext. Qed.

Lemma joined_wf c1 c2 : cube_wf c1 → cube_wf (joined c1 c2).
Proof.
  intros []. split; simpl; [apply bt_wf_of_list|constructor|constructor|done|done|constructor|constructor].
Qed.

Lemma kept_members_joined c1 c2 : cube_wf c1 →
  ∀ k, k ∈ field_names → k ≠ "bands" →
  assoc_get k (kept_members (Object (to_map c1))) = assoc_get k (to_map (joined c1 c2)).
Proof.
  intros Hc k Hk Hne. rewrite (to_map_get (joined c1 c2)) by (done || by apply joined_wf).
  unfold kept_members, jget. simpl.
  rewrite !to_map_get by (done || in_names).
  simpl. apply elem_of_cons in Hk as [->|Hk]; [done|].
  destruct (Cube.bbox c1), (cube_collection c1), (scene_count c1);
    repeat (apply elem_of_cons in Hk as [->|Hk]; [reflexivity|]); by apply not_elem_of_nil in Hk.
Qed.

Lemma encoded_bands c : cube_wf c →
  jget "bands" (Object (to_map c)) ≫= as_object = Some (band_members c).
Proof. intros Hc. unfold jget. cbn [as_object mbind option_bind]. rewrite to_map_get; [done|done|in_names]. Qed.

Lemma overlap_disjoint c1 c2 : (∀ k, k ∈ (bands c1).*1 → k ∉ (bands c2).*1) →
  overlap (band_members c1) (band_members c2) = false.
Proof.
  intros Hd. unfold overlap. rewrite band_members_keys. apply not_true_iff_false.
  rewrite existsb_exists. intros (k & Hk & Hb). apply bool_decide_eq_true, assoc_get_is_Some in Hb.
  rewrite band_members_keys in Hb. by apply (Hd k); [apply list_elem_of_In|].
Qed.

Lemma joined_members c1 c2 : cube_wf c1 → cube_wf c2 →
  (∀ k, k ∈ (bands c1).*1 → k ∉ (bands c2).*1) →
  join_bands (band_members c1) (band_members c2) = prod_map id str_array <$> (bands c1 ++ bands c2).
Proof.
  intros H1 H2 Hd. unfold join_bands. rewrite assoc_set_all_fresh, fmap_app; [done| |].
  - rewrite fmap_app, !band_members_keys. apply NoDup_app.
    split_and!; [by apply bt_wf_nodup, wf_bands|done|by apply bt_wf_nodup, wf_bands].
  - intros k _ Hk. by apply not_elem_of_nil in Hk.
Qed.

Lemma filter_known (m : list (string * Value)) :
  Forall (λ e, e.1 ∈ field_names) m → filter (λ e, e.1 ∉ field_names) m = [].
Proof.
  induction 1 as [|e m He _ IH]; [done|]. by rewrite filter_cons, decide_False by (intros Hn; by apply Hn).
Qed.

Lemma merged_decodes serde_error c1 c2 : cube_wf c1 →
  from_envelope_owned serde_error
    (merged (prod_map id str_array <$> (bands c1 ++ bands c2)) (Object (to_map c1))) = Ok (joined c1 c2).
Proof.
  intros Hc. unfold from_envelope_owned, from_envelope, from_value, merged. simpl.
  rewrite (from_map_agree _ (to_map (joined c1 c2))); [by rewrite from_map_encoded by (by apply joined_wf)|..].
  - transitivity (Some (bands (joined c1 c2))).
    + unfold de_default. simpl. apply (de_map_entries str_array). apply de_str_array.
    + unfold de_default. rewrite to_map_get by (in_names || by apply joined_wf). simpl. symmetry.
      apply (de_map_encoded str_array); [apply bt_wf_of_list|]. intros; apply de_str_array.
  - intros k Hk Hne. rewrite <- kept_members_joined by done. simpl. by rewrite bool_decide_eq_false_2.
  - rewrite (to_map_app (joined c1 c2)) by (by apply joined_wf). simpl. rewrite app_nil_r.
    rewrite !filter_known; [done| |].
    + apply Forall_forall. intros e He. apply (fields_keys (joined c1 c2)).
      by apply (list_elem_of_fmap_2 fst).
    + constructor; [in_names|]. apply Forall_forall. intros e (k & Hk & He)%list_elem_of_omap.
      apply bind_Some_inv in He as (v & _ & [= <-]). simpl.
      repeat (apply elem_of_cons in Hk as [->|Hk]; [in_names|]). by apply not_elem_of_nil in Hk.
Qed.

Section merge_facts.
Context `{Libm32} (serde_error : Value → string) {W : Type} (scratch_dir : string).
Context (now_nanos : W → Z * W).
Context (reduce_pair : string → string → (RasterDataBlock → option (list (list f32))) → string →
          W → option (result PairError unit * W)).
Context (mosaic : list string → string → W → result string string * W).

(** Merging two cubes without a common band writes no file and succeeds: the
    envelope decodes to the cube whose band map is the union of the two, with the
    collection, the bounding box and the scene count of the first one, and with
    nothing else of either cube: its dates and its scale factors are lost. *)
Theorem merge_cubes_disjoint c1 c2 args w :
  cube_wf c1 → cube_wf c2 → (∀ k, k ∈ (bands c1).*1 → k ∉ (bands c2).*1) →
  get_or "cube1" "data1" args = Some (to_envelope c1) →
  get_or "cube2" "data2" args = Some (to_envelope c2) →
  ∃ v, eval_merge_cubes serde_error scratch_dir now_nanos reduce_pair mosaic args w = Some (Ok v, w) ∧
    from_envelope_owned serde_error v = Ok (joined c1 c2) ∧
    (∀ k, band k (joined c1 c2) =
       match band k c1 with Some p => Some p | None => band k c2 end) ∧
    datetimes (joined c1 c2) = None ∧ band_scales (joined c1 c2) = [].
Proof.
  intros H1 H2 Hd E1 E2.
  exists (merged (prod_map id str_array <$> (bands c1 ++ bands c2)) (Object (to_map c1))).
  split_and!; [|by apply merged_decodes| |done|done].
  - unfold eval_merge_cubes. rewrite E1, E2. simpl.
    rewrite (encoded_bands c1 H1), (encoded_bands c2 H2), overlap_disjoint by done.
    simpl. by rewrite joined_members.
  - intros k. unfold band, joined. simpl.
    by apply bt_get_of_list_app; [apply wf_bands|apply wf_bands|].
Qed.
End merge_facts.

(** ** The rings of GeoJSON geometries *)

Lemma mapM_defined {A B} (f : A → option B) l : (∀ x, x ∈ l → is_Some (f x)) → is_Some (mapM f l).
Proof. intros H. apply mapM_is_Some_2, Forall_forall, H. Qed.

Lemma member_list_size k v x : x ∈ member_list k v → (value_size x < value_size v)%nat.
Proof.
  unfold member_list. destruct (jget k v) as [l|] eqn:E; simpl; [|by intros ?%not_elem_of_nil].
  apply jget_size in E. destruct l as [| | | |l|]; simpl; try (by intros ?%not_elem_of_nil).
  intros Hx%elem_size. lia.
Qed.

Lemma collect_rings_enough fuel : ∀ v, (value_size v ≤ fuel)%nat → is_Some (collect_rings_inner fuel v).
Proof.
  induction fuel as [|fuel IH]; intros v Hv; [destruct v; simpl in Hv; lia|]. cbn [collect_rings_inner].
  assert (∀ l, (∀ x, x ∈ l → (value_size x < value_size v)%nat) →
    is_Some ((λ ls, concat ls) <$> mapM (collect_rings_inner fuel) l)) as Heach.
  { intros l Hl. apply fmap_is_Some, mapM_defined. intros x Hx%Hl. apply IH. lia. }
  destruct v as [| | | |arr|m]; try by eexists.
  - destruct (ring_from_value (Array arr)); [by eexists|]. apply Heach. intros x Hx. by apply elem_size.
  - case_bool_decide; [by eexists|]. case_bool_decide.
    { destruct (jget "geometry" (Object m)) as [g|] eqn:E; [|by eexists].
      apply jget_size in E. apply IH. lia. }
    case_bool_decide; [apply Heach; intros; by eapply member_list_size|].
    case_bool_decide; [apply Heach; intros; by eapply member_list_size|by eexists].
Qed.

Definition ring_ok (r : list (f64 * f64)) : Prop := (3 ≤ length r)%nat.

Lemma omap_all {A B} (f : A → option B) l :
  Forall (λ x, is_Some (f x)) l → length (omap f l) = length l.
Proof. induction 1 as [|x l [y Hy] _ IH]; [done|]. simpl. rewrite Hy. simpl. f_equal. exact IH. Qed.

Lemma number_as_f64 v : is_number v = true → is_Some (as_f64 v).
Proof. destruct v as [| |n| | |]; try done. intros _. by destruct n; eexists. Qed.

(** A ring keeps every vertex of its array: none is dropped. *)
Lemma ring_from_value_ok v r : ring_from_value v = Some r →
  ring_ok r ∧ ∃ arr, v = Array arr ∧ length r = length arr.
Proof.
  unfold ring_from_value. destruct v as [| | | |arr|]; try done. simpl.
  destruct (Nat.ltb_spec (length arr) 3); [done|]. simpl.
  destruct (forallb is_coord_pair arr) eqn:E; [|done]. intros [= <-].
  assert (length (omap coord_pair arr) = length arr) as Hl; [|split; [red; lia|by exists arr]].
  apply omap_all, Forall_forall. intros x Hx. rewrite forallb_forall in E.
  specialize (E x (proj1 (list_elem_of_In _ _) Hx)).
  destruct x as [| | | |[|a [|b l]]|]; try done. simpl in *. apply andb_prop in E as [Ha Hb].
  destruct (number_as_f64 _ Ha) as [x ->], (number_as_f64 _ Hb) as [y ->]. by eexists.
Qed.

Lemma exterior_ok v : Forall ring_ok (exterior v).
Proof.
  unfold exterior. destruct (as_array v ≫= _) as [r|] eqn:E; [|constructor].
  apply bind_Some_inv in E as (l & _ & E). apply bind_Some_inv in E as (r' & _ & E).
  constructor; [|constructor]. by apply ring_from_value_ok in E as [? _].
Qed.

Lemma forall_concat {A} (P : A → Prop) ls : Forall (Forall P) ls → Forall P (concat ls).
Proof. induction 1; simpl; [constructor|]. by apply Forall_app. Qed.

Lemma collect_rings_ok fuel : ∀ v rs, collect_rings_inner fuel v = Some rs → Forall ring_ok rs.
Proof.
  induction fuel as [|fuel IH]; intros v rs; [done|]. cbn [collect_rings_inner].
  assert (∀ l rs, (λ ls, concat ls) <$> mapM (collect_rings_inner fuel) l = Some rs → Forall ring_ok rs)
    as Heach.
  { intros l rs' (ls & Hm & ->)%fmap_Some. apply forall_concat. apply mapM_Some in Hm.
    induction Hm; constructor; eauto. }
  assert (∀ v, Forall ring_ok (concat (exterior <$> member_list "coordinates" v))) as Hext.
  { intros v'. apply forall_concat, Forall_fmap, Forall_true. intros; apply exterior_ok. }
  destruct v as [| | | |arr|m]; try (intros [= <-]; constructor).
  - destruct (ring_from_value (Array arr)) eqn:E; [|apply Heach].
    intros [= <-]. constructor; [|constructor]. by apply ring_from_value_ok in E as [? _].
  - case_bool_decide; [intros [= <-]; apply Hext|]. case_bool_decide.
    { destruct (jget "geometry" (Object m)); [apply IH|intros [= <-]; constructor]. }
    case_bool_decide; [apply Heach|]. case_bool_decide; [apply Heach|].
    destruct (jget "coordinates" (Object m)); intros [= <-]; [apply exterior_ok|constructor].
Qed.

(** Whatever the geometries are, every ring collected from them can be rasterised. *)
Lemma collected_rings_rasterise v rows cols :
  Forall (λ r, is_ok (rasterise (mkPolygonRing r) rows cols) = true) (collect_exterior_rings v).
Proof.
  unfold collect_exterior_rings. destruct (collect_rings_enough (value_size v) v) as [rs E]; [lia|].
  rewrite E. simpl. eapply Forall_impl; [by apply collect_rings_ok in E|].
  intros r Hr. unfold rasterise. replace (is_valid (mkPolygonRing r)) with true.
  - cbn [negb]. repeat case_match; done.
  - symmetry. by apply Nat.leb_le.
Qed.

(** ** Counts of the zonal histogram *)

(** How many pixels have the value [v] and a non-zero mask. *)
Definition hits (v : Z) (l : list (Z * Z)) : nat :=
  length (filter (λ e, e.1 = v ∧ e.2 ≠ 0) l).

Lemma hist_block_count data mask : ∀ hist v, bt_wf hist →
  bt_wf (hist_block data mask hist) ∧
  default 0 (bt_get v (hist_block data mask hist)) =
    default 0 (bt_get v hist) + Z.of_nat (hits v (zip data mask)).
Proof.
  unfold hist_block, hits. induction (zip data mask) as [|[d m] l IH]; intros hist v Hwf; simpl.
  { split; [done|lia]. }
  destruct (Z.eqb_spec m 0) as [->|Hm].
  - destruct (IH hist v Hwf) as [? ->]. split; [done|].
    rewrite filter_cons, decide_False by (by intros [_ ?]). done.
  - destruct (IH (bt_insert d (default 0 (bt_get d hist) + 1) hist) v) as [? ->];
      [by apply bt_wf_insert|]. split; [done|].
    rewrite filter_cons. destruct (decide (d = v)) as [->|Hne].
    + rewrite decide_True, bt_get_insert_eq by done. simpl. lia.
    + rewrite decide_False by (by intros [? _]). by rewrite bt_get_insert_ne by congruence.
Qed.

(** ** Shapes of the results *)

Section shapes.
Context `{Libm32}.
Context {W : Type} (open_raster : string → W → result string OpenedRaster * W).

Lemma ring_values_length red o rings vs :
  ring_values red o rings = Some (Ok vs) → length vs = length rings.
Proof.
  revert vs. induction rings as [|r rings IH]; intros vs; simpl; [by intros [= <-]|].
  destruct (ring_value red o r) as [[v|e]|]; simpl; [|done|done].
  destruct (ring_values red o rings) as [[vs'|e]|]; simpl; [|done|done].
  intros [= <-]. simpl. by rewrite (IH vs').
Qed.

(** One value per geometry and scene. *)
Lemma scene_values_shape red rings paths : ∀ data w data' w',
  length data = length rings →
  scene_values open_raster red rings paths data w = Some (Ok data', w') →
  Forall2 (λ col col', length col' = (length col + length paths)%nat) data data'.
Proof.
  induction paths as [|path paths IH]; intros data w data' w' Hl; simpl.
  { intros [= <- <-]. clear Hl. induction data; constructor; [lia|done]. }
  destruct (open_raster path w) as [[o|e] w1]; [|done].
  destruct (_ || _); [done|].
  destruct (ring_values red o rings) as [[vs|e]|] eqn:E; [|done|done].
  apply ring_values_length in E. intros H'. apply IH in H'.
  2: { unfold push_all. rewrite length_zip_with. lia. }
  revert H' Hl E. unfold push_all. clear. revert vs data' rings.
  induction data as [|col data IH]; intros [|v vs] data' [|r rings] H' Hl E;
    try (simpl in *; lia); simpl in H'.
  - by inversion H'; constructor.
  - apply Forall2_cons_inv_l in H' as (col' & data'' & Hc & Hf & ->).
    constructor; [rewrite Hc, length_app; simpl; lia|].
    apply (IH vs data'' rings); [done|simpl in *; lia|simpl in *; lia].
Qed.
End shapes.

Section reprojection.
Context (serde_error : Value → string) {W : Type} (scratch_dir : string) (now_nanos : W → Z * W).
Context (warp : string → string → Z → W → result string string * W).

Lemma warp_scenes_length epsg band paths : ∀ t w ps w',
  warp_scenes scratch_dir now_nanos warp epsg band t paths w = (Ok ps, w') → length ps = length paths.
Proof.
  induction paths as [|p paths IH]; intros t w ps w'; simpl; [by intros [= <- <-]|].
  destruct (warp_one _ _ _ _ _ _ _) as [[q|e] w1]; [|done].
  destruct (warp_scenes _ _ _ _ _ _ _ _) as [[qs|e] w2] eqn:E; [|done].
  intros [= <- <-]. simpl. by rewrite (IH _ _ _ _ E).
Qed.

(** Reprojection keeps the bands of the cube and the number of scenes of each. *)
Lemma warp_bands_shape epsg keys : ∀ c w c' w', bt_wf (bands c) →
  warp_bands scratch_dir now_nanos warp epsg keys c w = (Ok c', w') →
  bt_wf (bands c') ∧ ∀ k, length <$> band k c' = length <$> band k c.
Proof.
  induction keys as [|key keys IH]; intros c w c' w' Hwf; simpl; [by intros [= <- <-]|].
  unfold take_band. destruct (bt_get key (bands c)) as [paths|] eqn:E; [|done].
  destruct (warp_scenes _ _ _ _ _ _ _ _) as [[out|e] w1] eqn:Ew; [|done].
  apply warp_scenes_length in Ew. intros H. apply IH in H as [? Hk].
  2: { simpl. by apply bt_wf_insert, bt_wf_remove. }
  split; [done|]. intros k. rewrite Hk. unfold band. simpl. rewrite bt_get_insert by (by apply bt_wf_remove).
  rewrite bt_get_remove by done. destruct (cmp k key) eqn:Ek; [|done..].
  apply cmp_eq in Ek as ->. rewrite E. simpl. by rewrite Ew.
Qed.

Lemma resample_cube_shape epsg data w v w' : numbers_ok data = true →
  resample_cube serde_error scratch_dir now_nanos warp epsg data w = (Ok v, w') →
  ∃ c c', from_envelope_owned serde_error data = Ok c ∧ v = to_envelope c' ∧ Cube.bbox c' = None ∧
    bands c ≠ [] ∧ ∀ k, length <$> band k c' = length <$> band k c.
Proof.
  intros Hn. unfold resample_cube. destruct (from_envelope_owned _ _) as [c|e] eqn:E; [|done].
  apply decoded_wf in E as Hc; [|done].
  case_bool_decide as Hb; [done|].
  destruct (warp_bands _ _ _ _ _ _ _) as [[c'|e] w1] eqn:Ew; [|done]. intros [= <- <-].
  apply warp_bands_shape in Ew as [_ Hk]; [|by apply wf_bands].
  by exists c, (reprojected epsg c').
Qed.
End reprojection.

(** ** Concrete inputs *)

Definition demo_left : DataCube :=
  mkDataCube [("B04", ["a.tif"; "b.tif"])] [("B04", (f64_one, f64_zero))] (Some "sentinel-2-l2a")
    (Some [f64_zero; f64_zero; f64_one; f64_one]) (Some 2) (Some ["2024-06-01"; "2024-06-02"])
    None None None None None None None [].
Definition demo_right : DataCube :=
  mkDataCube [("B02", ["c.tif"; "d.tif"])] [] None None (Some 2) None
    None None None None None None None [].
Definition demo_merge_args : Args :=
  [("cube1", to_envelope demo_left); ("cube2", to_envelope demo_right)].
Definition no_reduction (a b : string) (f : RasterDataBlock → option (list (list f32))) (o : string)
    (w : ()) : option (result PairError unit * ()) := None.
Definition no_mosaic (l : list string) (o : string) (w : ()) : result string string * () := (Err "", w).

Ltac cube_wf_solve :=
  split; simpl; repeat (constructor || done || intros ? [= <-]).

Lemma merge_cubes_disjoint_witness :
  ∃ v, eval_merge_cubes (H := demo_libm32) (λ _, "") "/tmp" (λ w, (0, w)) no_reduction no_mosaic
         demo_merge_args () = Some (Ok v, ()) ∧
    from_envelope_owned (λ _, "") v = Ok (joined demo_left demo_right) ∧
    (∀ k, band k (joined demo_left demo_right) =
       match band k demo_left with Some p => Some p | None => band k demo_right end) ∧
    datetimes (joined demo_left demo_right) = None ∧ band_scales (joined demo_left demo_right) = [].
Proof.
  apply merge_cubes_disjoint; [cube_wf_solve|cube_wf_solve| |reflexivity|reflexivity].
  intros k. simpl. rewrite !list_elem_of_singleton. by intros -> ?.
Defined.

(** A pixel-space polygon of a feature collection is found through two levels. *)
Example rings_of_feature_collection :
  let pt x y := Array [json_of_f64 (f64_of_Z x); json_of_f64 (f64_of_Z y)] in
  let square := Array [pt 0 0; pt 4 0; pt 4 4; pt 0 4] in
  length <$> collect_exterior_rings (Object [("type", JString "FeatureCollection");
    ("features", Array [Object [("type", JString "Feature");
       ("geometry", Object [("type", JString "Polygon"); ("coordinates", Array [square])])]])]) = [4%nat].
Proof. vm_compute. reflexivity. Qed.

(** A projection beyond 32 bits is cut to them: this asks for EPSG:4326. *)
Example projection_cut :
  (eval_resample_spatial (W := list Z) (λ _, "") "/tmp" (λ w, (0, w)) (λ s d e w, (Ok d, e :: w))
    [("data", Object [("__raster", Object [("path", JString "a.tif")])]);
     ("projection", Number (PosInt (2 ^ 32 + 4326)))] []).2 = [4326].
Proof. vm_compute. reflexivity. Qed.

(** Weights of another width than the features: a panic instead of an error. *)
Example predict_width_mismatch `{Ndarray, Libm} :
  eval_predict_classifier (λ _, "")
    [("model", Object [("weights", Array []); ("bias", Number (PosInt 0))]);
     ("x", Array [Array [Number (PosInt 1)]])] = None.
Proof. vm_compute. reflexivity. Qed.

(** The jitter reaches its upper end: the interval is closed. *)
Example jitter_reaches_one : fastrand_unit_f64 11913587459806005638 = f64_one.
Proof. vm_compute. reflexivity. Qed.

(** In a bare coordinates array the hole counts as a geometry of its own. *)
Example hole_is_a_geometry :
  let pt x y := Array [json_of_f64 (f64_of_Z x); json_of_f64 (f64_of_Z y)] in
  let outer := Array [pt 0 0; pt 9 0; pt 9 9; pt 0 9] in
  let hole := Array [pt 1 1; pt 2 1; pt 2 2] in
  length <$> collect_exterior_rings (Array [outer; hole]) = [4; 3]%nat ∧
  length <$> collect_exterior_rings
    (Object [("type", JString "Polygon"); ("coordinates", Array [outer; hole])]) = [4%nat].
Proof. vm_compute. split; reflexivity. Qed.
