(* ===== verification/Etl.v ===== *)
(** * The ETL engine's data: specifications, frames and SQLite statements

    crates/orbit-core (model.rs, error.rs) and, of crates/orbit-etl, spec.rs and
    the writers of engine.rs.  Polars and sqlx are third-party code: a frame is
    given by the calls the engine makes on it ([Frame]), the database by the
    statements it executes ([SqliteDb]), each with its documented behaviour as
    laws.  The engine itself, its jobs and their interleaving are in EtlEngine. *)

From Stdlib Require Import Ascii.
From S2P Require Import Prelude F64 Text Json.
Local Open Scope Z_scope.

(** ** orbit-core *)

Definition JobId : Type := string.

Inductive JobState := Pending | Running | Completed | Failed | Cancelled.
#[export] Instance JobState_eq_dec : EqDecision JobState.
Proof. solve_decision. Defined.

Definition is_terminal (s : JobState) : bool :=
  match s with Completed | Failed | Cancelled => true | _ => false end.

(** Instants are nanoseconds since 1970. *)
Record JobStatus := mkJobStatus {
  js_id : JobId; state : JobState; rows_read : Z; rows_written : Z;
  started_at : Z; finished_at : option Z; error : option string }.

(** Errors of other crates are carried as their text. *)
Inductive Error :=
| InvalidSpec (m : string)
| SourceNotFound (p : string)
| UnsupportedFormat
| Polars (e : string)
| Sql (e : string)
| Io (e : string)
| Serde (m : string)
| JobNotFound (id : string)
| JobTerminated
| Internal (m : string)
| Timeout (d : Z)
| ECancelled.

(** [to_string] of an error; [debug_duration] is [Duration]'s [Debug]. *)
Definition error_text (debug_duration : Z → string) (e : Error) : string :=
  match e with
  | InvalidSpec m => "invalid pipeline spec: " +:+ m
  | SourceNotFound p => "source file not found: " +:+ p
  | UnsupportedFormat => "source format unsupported"
  | Polars e => "polars error: " +:+ e
  | Sql e => "sql error: " +:+ e
  | Io e => "io error: " +:+ e
  | Serde m => "serialization error: " +:+ m
  | JobNotFound id => "job not found: " +:+ id
  | JobTerminated => "job already terminated"
  | Internal m => "internal: " +:+ m
  | Timeout d => "operation timed out after " +:+ debug_duration d
  | ECancelled => "job cancelled"
  end.

(** ** spec.rs *)

Inductive FileFormat := Csv | Parquet | JsonFormat.

Record FileSource := mkFileSource {
  path : string; format : FileFormat; has_header : bool; delimiter : string }.

Record PipelineSpec := mkPipelineSpec {
  source : FileSource; destination_table : string; sql_transform : option string;
  dedupe_column : option string; batch_size : Z }.

(** The file system: [exists], [canonicalize] and [File::open], which gives the
    content of a file. *)
Record FileSystem := mkFileSystem {
  exists_ : string → bool; canonicalize : string → result string string;
  open_file : string → result string string }.

Section spec.
(** [{:?}] of a string and of a path. *)
Context (debug_str : string → string).

Definition ident_char (c : ascii) : bool := is_alnum c || Ascii.eqb c "_".

(** Every byte of a character outside of ASCII fails the test on bytes. *)
Definition identifier_ok (name : string) : bool :=
  match name with
  | EmptyString => false
  | String first tail => (is_alpha first || Ascii.eqb first "_") && str_all ident_char tail
  end.

Definition validate_sql_identifier (name context : string) : result Error unit :=
  if bool_decide (name = "") then Err (InvalidSpec (context +:+ " is empty"))
  else if negb (identifier_ok name) then
    Err (InvalidSpec (context +:+ " must match [A-Za-z_][A-Za-z0-9_]*: got " +:+ debug_str name))
  else Ok tt.

Definition validate (fs : FileSystem) (s : PipelineSpec) : result Error unit :=
  if bool_decide (destination_table s = "") then
    Err (InvalidSpec "destination_table is empty")
  else
    _ ← validate_sql_identifier (destination_table s) "destination_table";
    if negb (exists_ fs (path (source s))) then Err (SourceNotFound (path (source s))) else Ok tt.

(** The components of a canonical path. *)
Definition components (p : string) : list string := filter (λ c, c ≠ "") (split "/" p).
Definition path_starts_with (p root : string) : bool :=
  bool_decide (components root `prefix_of` components p).

Definition validate_path_under_root (fs : FileSystem) (p root : string)
    : result Error string :=
  match canonicalize fs root with
  | Err e => Err (InvalidSpec ("data_root " +:+ debug_str root +:+ " does not exist: " +:+ e))
  | Ok canon_root =>
      match canonicalize fs p with
      | Err e => Err (InvalidSpec ("source path " +:+ debug_str p +:+ " cannot be resolved: " +:+ e))
      | Ok canon_path =>
          if negb (path_starts_with canon_path canon_root) then
            Err (InvalidSpec ("source path " +:+ debug_str canon_path +:+ " escapes data_root "
                   +:+ debug_str canon_root))
          else Ok canon_path
      end
  end.

Lemma validate_sql_identifier_ok name context :
  validate_sql_identifier name context = Ok tt ↔ identifier_ok name = true.
Proof.
  unfold validate_sql_identifier. destruct name as [|c s]; [by split|].
  rewrite bool_decide_eq_false_2 by done. destruct (identifier_ok _); simpl; by split.
Qed.
End spec.

(** ** Frames *)

Inductive DataType :=
| Boolean | UInt8 | UInt16 | UInt32 | UInt64 | Int8 | Int16 | Int32 | Int64
| Float32 | Float64 | StringType | Date | Datetime | Time | OtherType.

Inductive AnyValue :=
| AvNull
| AvBoolean (b : bool)
| AvString (s : string)
| AvStringOwned (s : string)
| AvInt8 (v : Z) | AvInt16 (v : Z) | AvInt32 (v : Z) | AvInt64 (v : Z)
| AvUInt8 (v : Z) | AvUInt16 (v : Z) | AvUInt32 (v : Z) | AvUInt64 (v : Z)
| AvFloat32 (v : f32)
| AvFloat64 (v : f64)
| AvOther (display : string).

(** Polars' [DataFrame] and [Column]. *)
Class Frame (F Col : Type) := {
  height : F → Z;
  columns : F → list Col;
  slice : F → Z → Z → F;
  name : Col → string;
  dtype : Col → DataType;
  get : Col → Z → result string AnyValue }.

Class FrameLaws (F Col : Type) `{Frame F Col} : Prop := {
  height_range f : 0 ≤ height f < 2 ^ 63;
  get_in_range f c i : c ∈ columns f → 0 ≤ i < height f → is_ok (get c i) = true;
  slice_height f a n : 0 ≤ a → 0 ≤ n → a + n ≤ height f → height (slice f a n) = n;
  slice_columns f a n : 0 ≤ a → 0 ≤ n → a + n ≤ height f →
    Forall2 (λ c d, name d = name c ∧ dtype d = dtype c ∧
               ∀ i, 0 ≤ i < n → get d i = get c (a + i))
      (columns f) (columns (slice f a n)) }.

(** ** Values bound to a statement *)

Inductive SqlVal := SNull | SInt (n : Z) | SReal (x : f64) | SText (s : string).

(** [Number::as_i64] *)
Definition as_i64 (n : JNumber) : option Z :=
  match n with
  | PosInt n => if n <? 2 ^ 63 then Some n else None
  | NegInt n => Some n
  | Float _ => None
  end.

Definition as_f64 (n : JNumber) : f64 :=
  match n with PosInt n | NegInt n => f64_of_Z n | Float x => x end.

(** [to_text] is the JSON text of a value. *)
Definition bind_json_value (to_text : Value → string) (v : Value) : SqlVal :=
  match v with
  | Null => SNull
  | Bool b => SInt (if b then 1 else 0)
  | Number n => match as_i64 n with Some i => SInt i | None => SReal (as_f64 n) end
  | JString s => SText s
  | other => SText (to_text other)
  end.

(** [Number::from(v)] for an integer, and [Number::from_f64] for a float. *)
Definition int_number (v : Z) : Value := Number (if v <? 0 then NegInt v else PosInt v).
Definition float_number (x : f64) : Value := if is_finite x then Number (Float x) else Null.

Definition anyvalue_to_json (av : AnyValue) : Value :=
  match av with
  | AvNull => Null
  | AvBoolean b => Bool b
  | AvString s | AvStringOwned s => JString s
  | AvInt8 v | AvInt16 v | AvInt32 v | AvInt64 v
  | AvUInt8 v | AvUInt16 v | AvUInt32 v | AvUInt64 v => int_number v
  | AvFloat32 v => float_number (f64_of_f32 v)
  | AvFloat64 v => float_number v
  | AvOther s => JString s
  end.

Definition polars_dtype_to_sqlite (dt : DataType) : string :=
  match dt with
  | Boolean => "INTEGER"
  | UInt8 | UInt16 | UInt32 | UInt64 | Int8 | Int16 | Int32 | Int64 => "INTEGER"
  | Float32 | Float64 => "REAL"
  | StringType => "TEXT"
  | Date | Datetime | Time => "TEXT"
  | OtherType => "TEXT"
  end.

(** ** The database *)

(** A selected row: the values of its columns. *)
Definition Row : Type := gmap string SqlVal.

(** [execute] of a text with its bound values gives the number of affected rows;
    [values] is the statement sqlx's [QueryBuilder] makes of a text, one tuple of
    placeholders for each row ([push_values]) and a final text.  A statement that
    fails changes nothing.  [begin] gives the state inside of a transaction, whose
    changes [commit] makes visible; a transaction that is dropped leaves the
    database as it was. *)
Class SqliteDb (D : Type) := {
  execute : string → list SqlVal → D → result string (Z * D);
  values : string → list (list SqlVal) → string → D → result string (Z * D);
  select : string → list SqlVal → D → result string (list Row);
  begin_ : D → result string D;
  commit : D → result string D;
  (** [try_get] at the types [String], [i64] and [Option<String>] *)
  get_text : Row → string → result string string;
  get_i64 : Row → string → result string Z;
  get_opt_text : Row → string → result string (option string) }.

Definition quoted (s : string) : string := chr dquote +:+ s +:+ chr dquote.

Section writers.
Context {F Col D : Type} `{Frame F Col} `{SqliteDb D}.
Context (debug_str : string → string) (to_text : Value → string).

Definition check_names (table : string) (dedupe_column : option string) (cols : list Col)
    : result Error unit :=
  _ ← validate_sql_identifier debug_str table "destination_table";
  _ ← match dedupe_column with
      | Some dc => validate_sql_identifier debug_str dc "dedupe_column"
      | None => Ok tt
      end;
  _ ← result_traverse (λ c, validate_sql_identifier debug_str (name c) "source column name") cols;
  Ok tt.

Definition column_ddl (dedupe_column : option string) (c : Col) : string :=
  quoted (name c) +:+ " " +:+ polars_dtype_to_sqlite (dtype c)
    +:+ (if bool_decide (Some (name c) = dedupe_column) then " UNIQUE" else "").

Definition table_ddl (table : string) (cols : list Col) (dedupe_column : option string) : string :=
  "CREATE TABLE IF NOT EXISTS " +:+ quoted table +:+ " ("
    +:+ join ", " (column_ddl dedupe_column <$> cols) +:+ ")".

Definition ensure_table (table : string) (df : F) (dedupe_column : option string) (db : D)
    : result Error unit * D :=
  match check_names table dedupe_column (columns df) with
  | Err e => (Err e, db)
  | Ok _ =>
      match execute (table_ddl table (columns df) dedupe_column) [] db with
      | Err e => (Err (Sql e), db)
      | Ok (_, db) => (Ok tt, db)
      end
  end.

Definition SQLITE_BIND_LIMIT : Z := 900.

Definition rows_per_batch (n_cols : Z) : Z := Z.max (SQLITE_BIND_LIMIT / Z.max n_cols 1) 1.

(** The cells of one row, as values to bind. *)
Definition row_cells (cols : list Col) (i : Z) : result Error (list SqlVal) :=
  result_traverse (λ c, match get c i with
                        | Err e => Err (Internal ("col get: " +:+ e))
                        | Ok av => Ok (bind_json_value to_text (anyvalue_to_json av))
                        end) cols.

Definition insert_init (table : string) (cols : list Col) : string :=
  "INSERT INTO " +:+ quoted table +:+ " (" +:+ join ", " ((λ c, quoted (name c)) <$> cols) +:+ ") ".

Definition conflict_clause (dedupe_column : option string) : string :=
  match dedupe_column with Some _ => " ON CONFLICT DO NOTHING" | None => "" end.

(** The loop over batches, inside of the transaction: the rows inserted and the
    new state, or the error that ends it. *)
Fixpoint insert_batches (fuel : nat) (table : string) (cols : list Col) (clause : string)
    (height row_idx total : Z) (tx : D) : option (result Error (Z * D)) :=
  if height <=? row_idx then Some (Ok (total, tx))
  else
    match fuel with
    | O => None
    | S fuel =>
        let batch_end := Z.min (row_idx + rows_per_batch (Z.of_nat (length cols))) height in
        match result_traverse (row_cells cols) (seqZ row_idx (batch_end - row_idx)) with
        | Err e => Some (Err e)
        | Ok rows =>
            match values (insert_init table cols) rows clause tx with
            | Err e => Some (Err (Sql e))
            | Ok (n, tx) => insert_batches fuel table cols clause height batch_end (total + n) tx
            end
        end
    end.

(** The transaction is one step: SQLite serialises its writers. *)
Definition insert_chunk (table : string) (df : F) (dedupe_column : option string) (db : D)
    : option (result Error Z * D) :=
  if height df =? 0 then Some (Ok 0, db)
  else
    match check_names table dedupe_column (columns df) with
    | Err e => Some (Err e, db)
    | Ok _ =>
        match begin_ db with
        | Err e => Some (Err (Sql e), db)
        | Ok tx =>
            match insert_batches (Z.to_nat (height df)) table (columns df)
                    (conflict_clause dedupe_column) (height df) 0 0 tx with
            | None => None
            | Some (Err e) => Some (Err e, db)
            | Some (Ok (total, tx)) =>
                match commit tx with
                | Err e => Some (Err (Sql e), db)
                | Ok db => Some (Ok total, db)
                end
            end
        end
    end.
End writers.

(** An INSERT reports the rows it inserted, which are all of them when no
    conflict is let through. *)
Class CountLaws (D : Type) `{SqliteDb D} : Prop := {
  values_count text rows clause d n d' :
    starts_with "INSERT INTO " text = true → values text rows clause d = Ok (n, d') →
    0 ≤ n ≤ Z.of_nat (length rows) ∧ (clause = "" → n = Z.of_nat (length rows)) }.

(** ** What the writers do *)

Section writer_facts.
Context {F Col D : Type} `{FrameLaws F Col} `{SqliteDb D}.
Context (debug_str : string → string) (to_text : Value → string).

(** The rows of a frame, as values to bind. *)
Definition frame_rows (df : F) : result Error (list (list SqlVal)) :=
  result_traverse (row_cells to_text (columns df)) (seqZ 0 (height df)).

(** One statement after the other. *)
Fixpoint run_statements (init clause : string) (groups : list (list (list SqlVal)))
    (total : Z) (tx : D) : result Error (Z * D) :=
  match groups with
  | [] => Ok (total, tx)
  | g :: groups =>
      match values init g clause tx with
      | Err e => Err (Sql e)
      | Ok (n, tx) => run_statements init clause groups (total + n) tx
      end
  end.

Lemma rows_per_batch_pos n : 1 ≤ rows_per_batch n.
Proof. unfold rows_per_batch. lia. Qed.

Lemma rows_per_batch_fits n : 0 ≤ n → rows_per_batch n * n ≤ Z.max SQLITE_BIND_LIMIT n.
Proof.
  intros Hn. unfold rows_per_batch, SQLITE_BIND_LIMIT.
  destruct (decide (n = 0)) as [->|]; [lia|]. rewrite (Z.max_l n 1) by lia.
  pose proof (Z.mul_div_le 900 n). destruct (Z.max_spec (900 / n) 1) as [[? ->]|[? ->]]; nia.
Qed.

Lemma row_cells_some (df : F) i :
  0 ≤ i < height df → ∃ r, row_cells to_text (columns df) i = Ok r ∧ length r = length (columns df).
Proof.
  intros Hi.
  assert (∀ cs, cs ⊆ columns df → ∃ r, row_cells to_text cs i = Ok r) as Hc.
  { unfold row_cells. induction cs as [|c cs IH]; intros Hcs; simpl; [by eexists|].
    pose proof (get_in_range df c i ltac:(set_solver) Hi) as Hg.
    destruct (get c i) as [v|e]; [|done].
    destruct IH as [r ->]; [set_solver|]. by eexists. }
  destruct (Hc (columns df)) as [r Hr]; [done|]. exists r. split; [done|].
  by apply result_traverse_length in Hr.
Qed.

Lemma rows_some (df : F) a n :
  0 ≤ a → a + n ≤ height df →
  ∃ rows, result_traverse (row_cells to_text (columns df)) (seqZ a n) = Ok rows ∧
    length rows = Z.to_nat n ∧ Forall (λ r, length r = length (columns df)) rows.
Proof.
  intros Ha Hn.
  assert (∀ l, Forall (λ i, 0 ≤ i < height df) l → ∃ rows,
    result_traverse (row_cells to_text (columns df)) l = Ok rows ∧
    length rows = length l ∧ Forall (λ r, length r = length (columns df)) rows) as Hl.
  { induction 1 as [|i l Hi _ IH]; simpl; [by exists []|].
    destruct (row_cells_some df i Hi) as (r & -> & Hr), IH as (rows & -> & Hlen & Hrows).
    exists (r :: rows). split; [done|]. split; [simpl; congruence|by constructor]. }
  destruct (Hl (seqZ a n)) as (rows & Hr & Hlen & Hall).
  - apply Forall_forall. intros i Hi. apply elem_of_seqZ in Hi. lia.
  - exists rows. by rewrite Hr, Hlen, length_seqZ.
Qed.

Lemma result_traverse_app {E A B} (f : A → result E B) l k ys zs :
  result_traverse f l = Ok ys → result_traverse f k = Ok zs →
  result_traverse f (l ++ k) = Ok (ys ++ zs).
Proof.
  rewrite !result_traverse_ok. apply Forall2_app.
Qed.

Definition group_ok (n_cols : nat) (g : list (list SqlVal)) : Prop :=
  g ≠ [] ∧ Z.of_nat (length (concat g)) ≤ Z.max SQLITE_BIND_LIMIT (Z.of_nat n_cols).

Lemma length_concat_const {A} (n : nat) (l : list (list A)) :
  Forall (λ r, length r = n) l → length (concat l) = (length l * n)%nat.
Proof. induction 1 as [|r l Hr _ IH]; simpl; [done|]. rewrite length_app. lia. Qed.

Lemma insert_batches_spec (df : F) (table clause : string) (fuel : nat) (row_idx total : Z) (tx : D) :
  0 ≤ row_idx ≤ height df → height df - row_idx ≤ Z.of_nat fuel →
  ∃ groups rows,
    result_traverse (row_cells to_text (columns df)) (seqZ row_idx (height df - row_idx)) = Ok rows ∧
    concat groups = rows ∧ Forall (group_ok (length (columns df))) groups ∧
    insert_batches to_text fuel table (columns df) clause (height df) row_idx total tx
      = Some (run_statements (insert_init table (columns df)) clause groups total tx).
Proof.
  revert row_idx total tx.
  induction fuel as [|fuel IH]; intros row_idx total tx Hi Hf; cbn [insert_batches].
  - exists [], []. replace (height df - row_idx) with 0 by lia.
    rewrite (proj2 (Z.leb_le _ _)) by lia. repeat split; constructor.
  - destruct (Z.leb_spec (height df) row_idx) as [Hle|Hlt].
    + exists [], []. replace (height df - row_idx) with 0 by lia. repeat split; constructor.
    + set (be := Z.min _ _).
      pose proof (rows_per_batch_pos (Z.of_nat (length (columns df)))) as Hpos.
      pose proof (rows_per_batch_fits (Z.of_nat (length (columns df)))) as Hfits.
      specialize (Hfits (Zle_0_nat _)).
      destruct (rows_some df row_idx (be - row_idx)) as (g & Hg & Hlen & Hall); [lia|lia|].
      assert (group_ok (length (columns df)) g) as Hok.
      { split; [intros ->; simpl in Hlen; lia|].
        rewrite (length_concat_const _ _ Hall), Hlen. nia. }
      destruct (rows_some df be (height df - be)) as (rest & Hrest & _); [lia|lia|].
      assert (result_traverse (row_cells to_text (columns df)) (seqZ row_idx (height df - row_idx))
                = Ok (g ++ rest)) as Hrows.
      { replace (height df - row_idx) with ((be - row_idx) + (height df - be)) by lia.
        rewrite seqZ_app by lia.
        replace (row_idx + (be - row_idx)) with be by lia. by apply result_traverse_app. }
      rewrite Hg.
      destruct (values (insert_init table (columns df)) g clause tx) as [[n tx']|e] eqn:Hv.
      * destruct (IH be (total + n) tx') as (groups & rows & Hr & Hc & Ha & He); [lia|lia|].
        rewrite Hrest in Hr. injection Hr as <-.
        exists (g :: groups), (g ++ rest). split; [done|]. split; [simpl; by rewrite Hc|].
        split; [by constructor|]. simpl. by rewrite Hv.
      * destruct (IH be total tx) as (groups & rows & Hr & Hc & Ha & _); [lia|lia|].
        rewrite Hrest in Hr. injection Hr as <-.
        exists (g :: groups), (g ++ rest). split; [done|]. split; [simpl; by rewrite Hc|].
        split; [by constructor|]. simpl. by rewrite Hv.
Qed.

(** C31: inserting a chunk of a frame always comes to an end and issues multi-row
    statements that together bind every row of the chunk once, in order, none of
    them empty and none with more bound values than SQLITE_BIND_LIMIT unless a
    single row already has more; the statements run in one transaction, so a
    failure of any of them leaves the database as it was. *)
Theorem insert_chunk_binds (table : string) (df : F) (dedupe_column : option string) (db tx : D) :
  0 < height df →
  check_names debug_str table dedupe_column (columns df) = Ok tt → begin_ db = Ok tx →
  ∃ groups rows, frame_rows df = Ok rows ∧ concat groups = rows ∧
    Forall (group_ok (length (columns df))) groups ∧
    insert_chunk debug_str to_text table df dedupe_column db =
      Some match run_statements (insert_init table (columns df)) (conflict_clause dedupe_column)
                   groups 0 tx with
           | Err e => (Err e, db)
           | Ok (total, tx) =>
               match commit tx with Err e => (Err (Sql e), db) | Ok db => (Ok total, db) end
           end.
Proof.
  intros Hh Hnames Hbegin.
  destruct (insert_batches_spec df table (conflict_clause dedupe_column) (Z.to_nat (height df)) 0 0 tx)
    as (groups & rows & Hr & Hc & Ha & He); [lia|lia|].
  rewrite Z.sub_0_r in Hr. exists groups, rows. split; [done|]. split; [done|]. split; [done|].
  unfold insert_chunk. rewrite (proj2 (Z.eqb_neq _ _)) by lia.
  rewrite Hnames, Hbegin, He.
  destruct (run_statements _ _ _ _ _) as [[total tx']|e]; [|done]. by destruct (commit tx').
Qed.

Lemma insert_chunk_some (table : string) (df : F) (dedupe_column : option string) (db : D) :
  is_Some (insert_chunk debug_str to_text table df dedupe_column db).
Proof.
  pose proof (height_range df). unfold insert_chunk. destruct (height df =? 0); [done|].
  destruct (check_names _ _ _ _); [|done]. destruct (begin_ db) as [tx|]; [|done].
  destruct (insert_batches_spec df table (conflict_clause dedupe_column) (Z.to_nat (height df)) 0 0 tx)
    as (groups & rows & _ & _ & _ & ->); [lia|lia|].
  destruct (run_statements _ _ _ _ _) as [[total tx']|e]; [|done]. by destruct (commit tx').
Qed.

Lemma run_statements_count `{!CountLaws D} table (cols : list Col) clause groups total tx n tx' :
  run_statements (insert_init table cols) clause groups total tx = Ok (n, tx') →
  total ≤ n ≤ total + Z.of_nat (length (concat groups)) ∧
  (clause = "" → n = total + Z.of_nat (length (concat groups))).
Proof.
  revert total tx. induction groups as [|g groups IH]; intros total tx; simpl.
  - intros [= <- <-]. lia.
  - destruct (values _ g clause tx) as [[m tx1]|e] eqn:Hv; [|done]. intros Hr.
    apply IH in Hr. apply values_count in Hv; [|done]. rewrite length_app.
    split; [lia|]. intros Hc. destruct Hr as [_ Hr], Hv as [_ Hv]. rewrite (Hr Hc), (Hv Hc). lia.
Qed.

Lemma insert_chunk_count `{!CountLaws D} (table : string) (df : F) (dedupe_column : option string)
    (d d' : D) n :
  insert_chunk debug_str to_text table df dedupe_column d = Some (Ok n, d') →
  0 ≤ n ≤ height df ∧ (dedupe_column = None → n = height df).
Proof.
  pose proof (height_range df). unfold insert_chunk. destruct (Z.eqb_spec (height df) 0) as [E|E].
  { intros [= <- <-]. rewrite E. lia. }
  destruct (check_names _ _ _ _); [|done]. destruct (begin_ d) as [tx|]; [|done].
  destruct (insert_batches_spec df table (conflict_clause dedupe_column) (Z.to_nat (height df)) 0 0 tx)
    as (groups & rows & Hr & Hc & _ & ->); [lia|lia|].
  destruct (run_statements _ _ _ _ _) as [[total tx']|e] eqn:Hs; [|done].
  destruct (commit tx') as [d1|e]; [|done]. intros [= <- <-].
  apply run_statements_count in Hs. apply result_traverse_length in Hr.
  rewrite Hc, Hr, length_seqZ in Hs. split; [lia|]. intros ->. destruct Hs as [_ Hs]. rewrite Hs by done. lia.
Qed.
End writer_facts.

(** ** Concrete instances *)

(** A frame as the headers of its columns and its rows, of which memory holds
    fewer than 2^63. *)
Record MemCol := mkMemCol { mc_name : string; mc_dtype : DataType; mc_values : list AnyValue }.
Record MemFrame := mkMemFrame { mf_headers : list (string * DataType); mf_rows : list (list AnyValue) }.

Definition mem_column (rows : list (list AnyValue)) (j : nat) (h : string * DataType) : MemCol :=
  mkMemCol h.1 h.2 ((λ r, default AvNull (r !! j)) <$> rows).

#[export] Instance mem_frame : Frame MemFrame MemCol := {
  height f := Z.min (Z.of_nat (length (mf_rows f))) (2 ^ 63 - 1);
  columns f := imap (mem_column (mf_rows f)) (mf_headers f);
  slice f a n := mkMemFrame (mf_headers f) (take (Z.to_nat n) (drop (Z.to_nat a) (mf_rows f)));
  name := mc_name;
  dtype := mc_dtype;
  get c i := ok_or (mc_values c !! Z.to_nat i) "out of bounds" }.

#[export] Instance mem_frame_laws : FrameLaws MemFrame MemCol.
Proof.
  split.
  - intros f. simpl. lia.
  - intros f c i Hc Hi. cbn in Hc, Hi |- *.
    apply list_elem_of_lookup in Hc as [j Hj]. rewrite list_lookup_imap in Hj.
    apply fmap_Some in Hj as (h & _ & ->). unfold mem_column. simpl. rewrite list_lookup_fmap.
    destruct (lookup_lt_is_Some_2 (mf_rows f) (Z.to_nat i)) as [r ->]; [lia|done].
  - intros f a n Ha Hn Hl. cbn in Hl |- *. rewrite length_take, length_drop. lia.
  - intros f a n Ha Hn Hl. cbn in Hl |- *. apply Forall2_same_length_lookup.
    split; [by rewrite !length_imap|]. intros j c d Hc Hd.
    rewrite list_lookup_imap in Hc, Hd. destruct (mf_headers f !! j) as [h|]; [|done].
    injection Hc as <-. injection Hd as <-. simpl. split; [done|]. split; [done|].
    intros i Hi. f_equal. rewrite !list_lookup_fmap, lookup_take_lt, lookup_drop by lia.
    do 2 f_equal. lia.
Qed.

(** A database that logs the rows of each statement. *)
Definition LogDb : Type := list (string * list (list SqlVal)).

#[local] Instance log_db : SqliteDb LogDb := {
  execute _ _ d := Ok (0, d);
  values text rows clause d := Ok (Z.of_nat (length rows), d ++ [(text, rows)]);
  select _ _ _ := Ok [];
  begin_ d := Ok d;
  commit d := Ok d;
  get_text _ _ := Err "column decode";
  get_i64 _ _ := Err "column decode";
  get_opt_text _ _ := Err "column decode" }.

Lemma insert_chunk_binds_witness :
  let df := mkMemFrame [("id", Int64)] [[AvInt64 1]; [AvInt64 2]] in
  ∃ groups rows, frame_rows (λ _, "") df = Ok rows ∧ concat groups = rows ∧
    Forall (group_ok 1) groups ∧
    insert_chunk (λ s, s) (λ _, "") "t" df None ([] : LogDb) =
      Some match run_statements (insert_init "t" (columns df)) "" groups 0 ([] : LogDb) with
           | Err e => (Err e, [])
           | Ok (total, tx) =>
               match commit tx with Err e => (Err (Sql e), []) | Ok db => (Ok total, db) end
           end.
Proof.
  refine (insert_chunk_binds (λ s, s) (λ _, "") "t"
    (mkMemFrame [("id", Int64)] [[AvInt64 1]; [AvInt64 2]]) None ([] : LogDb) [] _ _ _).
  - done.
  - reflexivity.
  - reflexivity.
Defined.
