(* ===== verification/EtlEngine.v ===== *)
(** * The ETL engine: crates/orbit-etl/src/engine.rs

    A pipeline is a task of atomic actions on the engine's shared maps, the
    database and its event channel, interleaved with the tasks of other jobs and
    with calls of [cancel_job].  Polars, the outcome of the blocking pool, the
    clock and the encoders of instants and specifications are parameters; a send
    into the event channel is recorded in [log] whether or not anyone receives
    it, and a full channel is a task that is not scheduled.  The gRPC service of
    apps/orbit-server, which translates requests and answers, is at the end. *)

From S2P Require Import Prelude F64 Text Json Etl Interleave.
Local Open Scope Z_scope.

(** ** State *)

Inductive Event :=
| EvStarted (job_id : JobId)
| EvProgress (job_id : JobId) (rows_read rows_written : Z)
| EvCompleted (job_id : JobId) (rows_read rows_written : Z)
| EvFailed (job_id : JobId) (error : string)
| EvCancelled (job_id : JobId) (rows_read rows_written : Z).

(** [cancels] holds the jobs with a registered flag, [raised] the jobs whose flag
    is set: a flag outlives its entry, since the task holds it too. *)
Record EngineState (D : Type) := mkEngine {
  db : D; jobs : gmap JobId JobStatus; cancels : gset JobId; raised : gset JobId;
  log : gmap JobId (list Event); files : FileSystem; clock : Z }.
Arguments mkEngine {D}. Arguments db {D}. Arguments jobs {D}. Arguments cancels {D}.
Arguments raised {D}. Arguments log {D}. Arguments files {D}. Arguments clock {D}.

(** Polars: scanning and reading sources, SQL and [collect]. *)
Class PolarsLib (F L : Type) := {
  scan_csv : FileSystem → string → bool → Z → result string L;
  scan_parquet : FileSystem → string → result string L;
  read_json : string → result string L;
  sql : string → L → result string L;
  collect : FileSystem → L → result string F }.

(** How a closure on the blocking pool ends. *)
Inductive Join := Joined | JoinError (e : string) | Elapsed.

(** What the engine is configured with, and the outcomes the runtime decides. *)
Record Config := mkConfig {
  data_root : option string; query_timeout : Z;
  read_join : JobId → option string; query_join : JobId → Join;
  spec_json : PipelineSpec → result string string;
  rfc3339 : Z → option string; parse_rfc3339 : string → result string Z;
  parse_uuid : string → result string JobId; parse_state : string → result string JobState;
  debug_str : string → string; debug_duration : Z → string; json_text : Value → string }.

Section engine.
Context {F Col D L : Type} `{Frame F Col} `{SqliteDb D} `{PolarsLib F L}.
Context (cfg : Config).
Implicit Type s : EngineState D.
Local Open Scope prog_scope.

Definition with_db s (d : D) : EngineState D :=
  mkEngine d (jobs s) (cancels s) (raised s) (log s) (files s) (clock s).
Definition with_jobs s j : EngineState D :=
  mkEngine (db s) j (cancels s) (raised s) (log s) (files s) (clock s).
Definition with_cancels s c r : EngineState D :=
  mkEngine (db s) (jobs s) c r (log s) (files s) (clock s).
Definition with_log s l : EngineState D :=
  mkEngine (db s) (jobs s) (cancels s) (raised s) l (files s) (clock s).

(** ** Private helpers *)

Definition state_json (st : JobState) : string :=
  quoted match st with
         | Pending => "Pending" | Running => "Running" | Completed => "Completed"
         | Failed => "Failed" | Cancelled => "Cancelled"
         end.

Definition format_time (t : Z) : string := default "" (rfc3339 cfg t).

(** One UPDATE of the job's row, its changes of the row aside. *)
Definition update_text (cols : list string) : string :=
  "UPDATE orbit_jobs SET " +:+ join ", " ((λ c, c +:+ " = ?") <$> cols) +:+ " WHERE id = ?".

Definition sql_update (cols : list string) (vals : list SqlVal) (id : JobId)
    : prog (EngineState D) (result Error unit) :=
  atomic (λ s, match execute (update_text cols) (vals ++ [SText id]) (db s) with
               | Err e => (Err (Sql e), s)
               | Ok (_, d) => (Ok tt, with_db s d)
               end).

(** [if let Some(mut s) = self.jobs.get_mut(&job_id)] *)
Definition update_job (id : JobId) (f : JobStatus → JobStatus) : prog (EngineState D) unit :=
  atomic (λ s, (tt, with_jobs s (alter f id (jobs s)))).

Definition send (id : JobId) (ev : Event) : prog (EngineState D) unit :=
  atomic (λ s, (tt, with_log s (<[id := default [] (log s !! id) ++ [ev]]> (log s)))).

Definition read_clock : prog (EngineState D) Z := atomic (λ s, (clock s, s)).

Definition flag_is_set (id : JobId) : prog (EngineState D) bool :=
  atomic (λ s, (bool_decide (id ∈ raised s), s)).

Definition set_running (j : JobStatus) : JobStatus :=
  mkJobStatus (js_id j) Running (rows_read j) (rows_written j) (started_at j) (finished_at j) (error j).
Definition set_rows (r w : Z) (j : JobStatus) : JobStatus :=
  mkJobStatus (js_id j) (state j) r w (started_at j) (finished_at j) (error j).
Definition set_completed (r w now : Z) (j : JobStatus) : JobStatus :=
  mkJobStatus (js_id j) Completed r w (started_at j) (Some now) (error j).
Definition set_failed (now : Z) (err : string) (j : JobStatus) : JobStatus :=
  mkJobStatus (js_id j) Failed (rows_read j) (rows_written j) (started_at j) (Some now) (Some err).
Definition set_cancelled (now : Z) (j : JobStatus) : JobStatus :=
  mkJobStatus (js_id j) Cancelled (rows_read j) (rows_written j) (started_at j) (Some now)
    (Some "cancelled").

Definition mark_running (id : JobId) : prog (EngineState D) (result Error unit) :=
  _ ⇐ update_job id set_running;
  sql_update ["state"] [SText (state_json Running)] id.

Definition bump_progress (id : JobId) (r w : Z) : prog (EngineState D) (result Error unit) :=
  _ ⇐ update_job id (set_rows r w);
  sql_update ["rows_read"; "rows_written"] [SInt (to_signed 64 r); SInt (to_signed 64 w)] id.

Definition mark_completed (id : JobId) (r w : Z) : prog (EngineState D) (result Error unit) :=
  now ⇐ read_clock;
  _ ⇐ update_job id (set_completed r w now);
  sql_update ["state"; "rows_read"; "rows_written"; "finished_at"]
    [SText (state_json Completed); SInt (to_signed 64 r); SInt (to_signed 64 w);
     SText (format_time now)] id.

Definition mark_failed (id : JobId) (err : string) : prog (EngineState D) (result Error unit) :=
  now ⇐ read_clock;
  _ ⇐ update_job id (set_failed now err);
  sql_update ["state"; "finished_at"; "error"]
    [SText (state_json Failed); SText (format_time now); SText err] id.

Definition mark_cancelled (id : JobId) : prog (EngineState D) (result Error unit) :=
  now ⇐ read_clock;
  _ ⇐ update_job id (set_cancelled now);
  sql_update ["state"; "finished_at"; "error"]
    [SText (state_json Cancelled); SText (format_time now); SText "cancelled"] id.

(** ** Sources *)

Definition first_byte (delim : string) : Z :=
  match delim with EmptyString => 44 | String c _ => byte_of c end.

Definition scan (fs : FileSystem) (src : FileSource) : result Error L :=
  match format src with
  | Csv => map_err Polars (scan_csv fs (path src) (has_header src) (first_byte (delimiter src)))
  | Parquet => map_err Polars (scan_parquet fs (path src))
  | JsonFormat =>
      match open_file fs (path src) with
      | Err e => Err (Io e)
      | Ok content => map_err Polars (read_json content)
      end
  end.

Definition read_source (id : JobId) (spec : PipelineSpec) : prog (EngineState D) (result Error L) :=
  atomic (λ s, (match read_join cfg id with
                | Some e => Err (Internal ("blocking task: " +:+ e))
                | None => scan (files s) (source spec)
                end, s)).

(** [r] is what the closure gives when it comes to its end. *)
Definition run_blocking_with_timeout {A} (timeout : Z) (j : Join) (r : result Error A)
    : result Error A :=
  match j with
  | Joined => r
  | JoinError e => Err (Internal ("blocking task: " +:+ e))
  | Elapsed => Err (Timeout timeout)
  end.

Definition transform (sql_transform : option string) (lf : L) : result Error L :=
  match sql_transform with Some q => map_err Polars (sql q lf) | None => Ok lf end.

Definition query (id : JobId) (spec : PipelineSpec) (lf : L)
    : prog (EngineState D) (result Error F) :=
  atomic (λ s, (run_blocking_with_timeout (query_timeout cfg) (query_join cfg id)
                  (lf ← transform (sql_transform spec) lf;
                   map_err Polars (collect (files s) lf)), s)).

(** ** Running a pipeline *)

(** An action on the database that answers with a result. *)
Definition on_db {A} (f : D → result Error A * D) : prog (EngineState D) (result Error A) :=
  atomic (λ s, let '(r, d) := f (db s) in (r, with_db s d)).

(** [insert_chunk] never runs out of its fuel ([Etl.insert_chunk_some]). *)
Definition insert_step (spec : PipelineSpec) (chunk : F) (d : D) : result Error Z * D :=
  default (Ok 0, d)
    (insert_chunk (debug_str cfg) (json_text cfg) (destination_table spec) chunk
       (dedupe_column spec) d).

Definition step_by (h batch : Z) : list Z := (λ i, i * batch) <$> seqZ 0 ((h + batch - 1) / batch).

Fixpoint insert_chunks (id : JobId) (spec : PipelineSpec) (df : F) (batch : Z)
    (starts : list Z) (written : Z) : prog (EngineState D) (result Error Z) :=
  match starts with
  | [] => Ret (Ok written)
  | chunk_start :: starts =>
      cancelled ⇐ flag_is_set id;
      if cancelled : bool then Ret (Err ECancelled)
      else
        let chunk_len := Z.min batch (height df - chunk_start) in
        let chunk := slice df chunk_start chunk_len in
        n ⇐? on_db (insert_step spec chunk);
        let written := written + n in
        _ ⇐? bump_progress id (height df) written;
        _ ⇐ send id (EvProgress id (height df) written);
        insert_chunks id spec df batch starts written
  end.

Definition batch_of (spec : PipelineSpec) : Z := Z.max (batch_size spec) 1.

(** [execute] *)
Definition execute_job (id : JobId) (spec : PipelineSpec) : prog (EngineState D) (result Error unit) :=
  _ ⇐? mark_running id;
  _ ⇐ send id (EvStarted id);
  lf ⇐? read_source id spec;
  df ⇐? query id spec lf;
  _ ⇐? on_db (ensure_table (debug_str cfg) (destination_table spec) df (dedupe_column spec));
  cancelled ⇐ flag_is_set id;
  if cancelled : bool then Ret (Err ECancelled)
  else
    written ⇐? insert_chunks id spec df (batch_of spec) (step_by (height df) (batch_of spec)) 0;
    _ ⇐? mark_completed id (height df) written;
    _ ⇐ send id (EvCompleted id (height df) written);
    Ret (Ok tt).

(** The spawned task. *)
Definition task (id : JobId) (spec : PipelineSpec) : prog (EngineState D) unit :=
  r ⇐ execute_job id spec;
  _ ⇐ atomic (λ s, (tt, with_cancels s (cancels s ∖ {[id]}) (raised s)));
  match r with
  | Ok _ => Ret tt
  | Err ECancelled =>
      snapshot ⇐ atomic (λ s, (match jobs s !! id with
                               | Some j => (rows_read j, rows_written j)
                               | None => (0, 0)
                               end, s));
      _ ⇐ mark_cancelled id;
      send id (EvCancelled id (snapshot : Z * Z).1 snapshot.2)
  | Err other =>
      let msg := error_text (debug_duration cfg) other in
      _ ⇐ mark_failed id msg;
      send id (EvFailed id msg)
  end.

Definition new_status (id : JobId) (now : Z) : JobStatus :=
  mkJobStatus id Pending 0 0 now None None.

Definition check_spec (fs : FileSystem) (spec : PipelineSpec) : result Error unit :=
  _ ← validate (debug_str cfg) fs spec;
  match data_root cfg with
  | Some root => _ ← validate_path_under_root (debug_str cfg) fs (path (source spec)) root; Ok tt
  | None => Ok tt
  end.

Definition INSERT_JOB : string :=
  "INSERT INTO orbit_jobs (id, state, started_at, spec_json) VALUES (?, ?, ?, ?)".

Definition insert_job (id : JobId) (now : Z) (json : string) (d : D) : result Error unit * D :=
  match execute INSERT_JOB
          [SText id; SText (state_json Pending); SText (format_time now); SText json] d with
  | Err e => (Err (Sql e), d)
  | Ok (_, d) => (Ok tt, d)
  end.

(** [run] up to the spawn: what the caller is answered.  [id] is the new UUID. *)
Definition run_handler (id : JobId) (spec : PipelineSpec) : prog (EngineState D) (result Error unit) :=
  _ ⇐? atomic (λ s, (check_spec (files s) spec, s));
  now ⇐ read_clock;
  _ ⇐ atomic (λ s, (tt, with_jobs s (<[id := new_status id now]> (jobs s))));
  _ ⇐ atomic (λ s, (tt, with_cancels s ({[id]} ∪ cancels s) (raised s ∖ {[id]})));
  match spec_json cfg spec with
  | Err m => Ret (Err (Serde m))
  | Ok json => on_db (insert_job id now json)
  end.

(** [run] with the task it spawns; the answer is the handler's. *)
Definition run (id : JobId) (spec : PipelineSpec) : prog (EngineState D) (result Error unit) :=
  _ ⇐? run_handler id spec;
  _ ⇐ task id spec;
  Ret (Ok tt).

(** ** Requests on jobs *)

Definition cancel_job (id : JobId) s : result Error bool * EngineState D :=
  if decide (id ∈ cancels s) then (Ok true, with_cancels s (cancels s) ({[id]} ∪ raised s))
  else (Ok false, s).

Definition row_to_status (row : Row) : result Error JobStatus :=
  id_str ← map_err Sql (get_text row "id");
  id ← map_err Internal (parse_uuid cfg id_str);
  state_str ← map_err Sql (get_text row "state");
  state ← map_err Serde (parse_state cfg state_str);
  rows_read ← map_err Sql (get_i64 row "rows_read");
  rows_written ← map_err Sql (get_i64 row "rows_written");
  started_at_str ← map_err Sql (get_text row "started_at");
  started_at ← map_err (λ e, Internal ("time parse: " +:+ e)) (parse_rfc3339 cfg started_at_str);
  finished_at_str ← map_err Sql (get_opt_text row "finished_at");
  finished_at ← match finished_at_str with
                | Some str =>
                    t ← map_err (λ e, Internal ("time parse: " +:+ e)) (parse_rfc3339 cfg str);
                    Ok (Some t)
                | None => Ok None
                end;
  error ← map_err Sql (get_opt_text row "error");
  Ok (mkJobStatus id state (wrap 64 rows_read) (wrap 64 rows_written) started_at finished_at error).

Definition SELECT_JOB : string := "SELECT * FROM orbit_jobs WHERE id = ?".

Definition status (id : JobId) s : result Error JobStatus :=
  match jobs s !! id with
  | Some j => Ok j
  | None =>
      rows ← map_err Sql (select SELECT_JOB [SText id] (db s));
      row ← ok_or (head rows) (JobNotFound id);
      row_to_status row
  end.

Definition SELECT_JOBS : string := "SELECT * FROM orbit_jobs ORDER BY started_at DESC LIMIT ?".

Definition list_jobs (limit : Z) s : result Error (list JobStatus) :=
  rows ← map_err Sql (select SELECT_JOBS [SInt limit] (db s));
  result_traverse row_to_status rows.

(** ** The engine as a transition system *)

Inductive Label :=
| LRun (id : JobId) (spec : PipelineSpec)   (* a call of [run], with its new id *)
| LAct (id : JobId)                          (* the next action of a job *)
| LCancel (id : JobId)                       (* a call of [cancel_job] *)
| LFiles (fs : FileSystem)                   (* the file system changes *)
| LTick (t : Z).                             (* the clock moves *)

Definition Engine : Type := Pool (EngineState D) (result Error unit).

Definition act (l : Label) (e : Engine) : Engine :=
  match l with
  | LRun id spec => spawn id (run id spec) e
  | LAct id => step_task id e
  | LCancel id => outside (λ s, (cancel_job id s).2) e
  | LFiles fs =>
      outside (λ s, mkEngine (db s) (jobs s) (cancels s) (raised s) (log s) fs (clock s)) e
  | LTick t =>
      outside (λ s, mkEngine (db s) (jobs s) (cancels s) (raised s) (log s) (files s) t) e
  end.

(** A fresh engine over a database. *)
Definition init (d : D) (fs : FileSystem) (now : Z) : Engine :=
  mkPool (mkEngine d ∅ ∅ ∅ ∅ fs now) ∅.

Definition after (ls : list Label) (e : Engine) : Engine := foldl (λ e l, act l e) e ls.
End engine.

(** ** What a job does, under interference *)

Section job_facts.
Context {F Col D L : Type} `{FrameLaws F Col} `{SqliteDb D} `{!CountLaws D} `{PolarsLib F L}.
Context (cfg : Config).
(** The specification each job is started with. *)
Context (specs : JobId → PipelineSpec).
Implicit Type s : EngineState D.

(** What is known of the job's row: [synced id d j] when it shows [j],
    [absent id d] before it exists; [same_row id] is what the others keep of it. *)
Context (same_row : JobId → D → D → Prop) (synced : JobId → D → JobStatus → Prop)
  (absent : JobId → D → Prop) (time_ok : Z → Prop).
Context (same_row_preorder : ∀ id, PreOrder (same_row id)).
#[local] Existing Instance same_row_preorder.

(** The columns of the UPDATE statements above. *)
Definition UPDATES : list (list string) :=
  [["state"]; ["rows_read"; "rows_written"];
   ["state"; "rows_read"; "rows_written"; "finished_at"]; ["state"; "finished_at"; "error"]].

(** The database after an update, whether or not it fails. *)
Definition updated (cols : list string) (vals : list SqlVal) (id : JobId) (d : D) : D :=
  match execute (update_text cols) (vals ++ [SText id]) d with Ok (_, d') => d' | Err _ => d end.

Record row_laws : Prop := {
  synced_same id d d' j : same_row id d d' → synced id d j → synced id d' j;
  absent_same id d d' : same_row id d d' → absent id d → absent id d';
  update_others id j cols vals d : id ≠ j → cols ∈ UPDATES → length cols = length vals →
    same_row j d (updated cols vals id d);
  insert_others id j now json d : id ≠ j → same_row j d (insert_job cfg id now json d).2;
  insert_synced id now json d d' : time_ok now → absent id d →
    insert_job cfg id now json d = (Ok tt, d') → synced id d' (new_status id now);
  ensure_same id j (df : F) d :
    same_row j d (ensure_table (debug_str cfg) (destination_table (specs id)) df
                    (dedupe_column (specs id)) d).2;
  insert_same id j (df : F) d : same_row j d (insert_step cfg (specs id) df d).2;
  sync_running id d j : synced id d j →
    synced id (updated ["state"] [SText (state_json Running)] id d) (set_running j);
  sync_rows id d j r w : 0 ≤ w ≤ r → r < 2 ^ 63 → synced id d j →
    synced id (updated ["rows_read"; "rows_written"]
                 [SInt (to_signed 64 r); SInt (to_signed 64 w)] id d) (set_rows r w j);
  sync_completed id d j r w now : 0 ≤ w ≤ r → r < 2 ^ 63 → time_ok now → synced id d j →
    synced id (updated ["state"; "rows_read"; "rows_written"; "finished_at"]
                 [SText (state_json Completed); SInt (to_signed 64 r); SInt (to_signed 64 w);
                  SText (format_time cfg now)] id d) (set_completed r w now j);
  sync_failed id d j now msg : time_ok now → synced id d j →
    synced id (updated ["state"; "finished_at"; "error"]
                 [SText (state_json Failed); SText (format_time cfg now); SText msg] id d)
      (set_failed now msg j);
  sync_cancelled id d j now : time_ok now → synced id d j →
    synced id (updated ["state"; "finished_at"; "error"]
                 [SText (state_json Cancelled); SText (format_time cfg now); SText "cancelled"] id d)
      (set_cancelled now j) }.
Definition events s (id : JobId) : list Event := default [] (log s !! id).

(** What a job relies on the others for. *)
Record rely (id : JobId) s s' : Prop := {
  rely_jobs : jobs s' !! id = jobs s !! id;
  rely_log : log s' !! id = log s !! id;
  rely_cancels : id ∈ cancels s' ↔ id ∈ cancels s;
  rely_raised : id ∈ raised s → id ∈ raised s';
  rely_row : same_row id (db s) (db s');
  rely_clock : time_ok (clock s) → time_ok (clock s') }.

(** What each of its actions guarantees. *)
Record guar (id : JobId) s s' : Prop := {
  guar_others j : id ≠ j → rely j s s';
  guar_events : events s id `prefix_of` events s' id;
  guar_raised : id ∈ cancels s → id ∈ raised s → id ∈ raised s' }.

#[export] Instance rely_preorder id : PreOrder (rely id).
Proof using same_row_preorder.
  clear -same_row_preorder.
  split.
  - intros s. split; done.
  - intros s1 s2 s3 [] []. split; [congruence|congruence|set_solver|auto|by etrans|auto].
Qed.

Hypothesis laws : row_laws.

(** The job's own part of the state. *)
Record at_ (id : JobId) (j : JobStatus) (evs : option (list Event)) (c : bool) s : Prop := {
  at_jobs : jobs s !! id = Some j;
  at_log : log s !! id = evs;
  at_cancels : id ∈ cancels s ↔ c = true;
  at_row : synced id (db s) j;
  at_clock : time_ok (clock s) }.

Lemma at_rely id j evs c s s' : rely id s s' → at_ id j evs c s → at_ id j evs c s'.
Proof.
  intros [] []. split; [congruence|congruence|naive_solver| |auto].
  by eapply (synced_same laws).
Qed.

Lemma wp_read {A} id (f : EngineState D → A) (Q : A → EngineState D → Prop) s :
  (∀ s', rely id s s' → Q (f s') s') → (∀ a s1 s2, rely id s1 s2 → Q a s1 → Q a s2) →
  wp (rely id) (guar id) (atomic (λ s, (f s, s))) Q s.
Proof.
  intros HQ Hst. apply wp_atomic. intros s' Hs. simpl. split.
  - split; [intros j _; by split|done|done].
  - intros s'' Hs''. eapply Hst; [done|]. by apply HQ.
Qed.

(** An update of the job in memory, then of its row. *)
Lemma wp_update id (f : JobStatus → JobStatus) cols vals j evs c s
    (Q : result Error unit → EngineState D → Prop) :
  cols ∈ UPDATES → length cols = length vals →
  (∀ d, synced id d j → synced id (updated cols vals id d) (f j)) →
  at_ id j evs c s →
  (∀ r s', r ≠ Err ECancelled → at_ id (f j) evs c s' → Q r s') →
  wp (rely id) (guar id) (prog_bind (update_job id f) (λ _, sql_update cols vals id)) Q s.
Proof.
  intros Hcols Hlen Hsync Hat HQ. apply wp_bind; [apply _|]. apply wp_atomic. intros s1 Hs1.
  pose proof (at_rely _ _ _ _ _ _ Hs1 Hat) as []. simpl. split.
  { split; [|done|done]. intros i Hne. split; try done. simpl. by rewrite lookup_alter_ne. }
  intros s2 [Hj Hl Hc Hr Hd Ht]. apply wp_atomic. intros s3 [Hj' Hl' Hc' Hr' Hd' Ht'].
  simpl in *. rewrite lookup_alter_eq, at_jobs0 in Hj. simpl in Hj.
  assert (synced id (db s3) j) as Hsy.
  { eapply (synced_same laws); [exact Hd'|]. by eapply (synced_same laws). }
  apply Hsync in Hsy. pose proof (λ i, update_others laws id i cols vals (db s3)) as Hoth.
  unfold updated in Hsy, Hoth.
  destruct (execute _ _ (db s3)) as [[n d]|e]; simpl.
  - split.
    + split; [|done|done]. intros i Hne. split; try done. by apply Hoth.
    + intros s4 [Hj4 Hl4 Hc4 Hr4 Hd4 Ht4]. simpl in *. apply HQ; [done|].
      split; [congruence|congruence|naive_solver| |auto]. by eapply (synced_same laws).
  - split.
    + split; [|done|done]. intros i Hne. by split.
    + intros s4 [Hj4 Hl4 Hc4 Hr4 Hd4 Ht4]. simpl in *. apply HQ; [done|].
      split; [congruence|congruence|naive_solver| |auto]. by eapply (synced_same laws).
Qed.

Lemma wp_timed_update id (f : Z → JobStatus → JobStatus) cols (vals : Z → list SqlVal) j evs c s
    (Q : result Error unit → EngineState D → Prop) :
  cols ∈ UPDATES → (∀ now, length cols = length (vals now)) →
  (∀ now d, time_ok now → synced id d j → synced id (updated cols (vals now) id d) (f now j)) →
  at_ id j evs c s →
  (∀ r now s', r ≠ Err ECancelled → at_ id (f now j) evs c s' → Q r s') →
  wp (rely id) (guar id)
    (prog_bind read_clock (λ now, prog_bind (update_job id (f now)) (λ _, sql_update cols (vals now) id)))
    Q s.
Proof.
  intros Hcols Hlen Hsync Hat HQ. apply wp_bind; [apply _|]. apply wp_read.
  - intros s' Hs. pose proof (at_rely _ _ _ _ _ _ Hs Hat) as Hat'.
    eapply wp_update; [done|done| |done|naive_solver]. intros d. apply Hsync. apply Hat'.
  - intros now s1 s2 Hs. eapply wp_rely; [apply _|exact Hs].
Qed.

Lemma wp_send id ev j evs c s (Q : unit → EngineState D → Prop) :
  at_ id j evs c s → (∀ s', at_ id j (Some (default [] evs ++ [ev])) c s' → Q tt s') →
  wp (rely id) (guar id) (send id ev) Q s.
Proof.
  intros Hat HQ. apply wp_atomic. intros s1 Hs1.
  pose proof (at_rely _ _ _ _ _ _ Hs1 Hat) as []. simpl. split.
  - split; [|unfold events; simpl; rewrite lookup_insert_eq; simpl; by eexists|done].
    intros i Hne. split; try done. simpl. by rewrite lookup_insert_ne.
  - intros s2 [Hj Hl Hc Hr Hd Ht]. apply HQ. simpl in *. rewrite lookup_insert_eq, at_log0 in Hl.
    split; [congruence|done|naive_solver| |auto]. by eapply (synced_same laws).
Qed.

(** An action on the database that leaves the rows of all jobs alone. *)
Lemma wp_on_db {A} id (f : D → result Error A * D) j evs c s (Q : result Error A → EngineState D → Prop) :
  (∀ i d, same_row i d (f d).2) → at_ id j evs c s →
  (∀ d s', at_ id j evs c s' → Q (f d).1 s') →
  wp (rely id) (guar id) (on_db f) Q s.
Proof.
  intros Hf Hat HQ. apply wp_atomic. intros s1 Hs1.
  pose proof (at_rely _ _ _ _ _ _ Hs1 Hat) as []. pose proof (λ i, Hf i (db s1)) as Hf1.
  pose proof (HQ (db s1)) as HQ1.
  destruct (f (db s1)) as [r d]. simpl in *. split.
  - split; [|done|done]. intros i Hne. by split.
  - intros s2 [Hj Hl Hc Hr Hd Ht]. apply HQ1. simpl in *.
    split; [congruence|congruence|naive_solver| |auto].
    eapply (synced_same laws); [exact Hd|].
    by eapply (synced_same laws); [apply Hf1|].
Qed.

(** ** The events of a job *)

(** The row counts reported after each chunk, for [n] rows read: never more than
    the rows handed to the database so far, and exactly those without a dedupe
    column. *)
Definition counts_ok (id : JobId) (n : Z) (ws : list Z) : Prop :=
  ∀ i w, ws !! i = Some w →
    let sent := Z.min ((Z.of_nat i + 1) * batch_of (specs id)) n in
    0 ≤ w ≤ sent ∧ (dedupe_column (specs id) = None → w = sent).

Definition running_events (id : JobId) (n : Z) (ws : list Z) : list Event :=
  EvStarted id :: ((λ w, EvProgress id n w) <$> ws).

(** The events of a job that has ended, and its status. *)
Inductive ended (id : JobId) : list Event → JobStatus → Prop :=
| ended_completed n ws w now j :
    counts_ok id n ws → Z.of_nat (length ws) = (n + batch_of (specs id) - 1) / batch_of (specs id) →
    w = default 0 (last ws) → (dedupe_column (specs id) = None → w = n) →
    js_id j = id → error j = None →
    ended id (running_events id n ws ++ [EvCompleted id n w]) (set_completed n w now j)
| ended_cancelled n ws now j :
    counts_ok id n ws → js_id j = id →
    ended id (running_events id n ws ++ [EvCancelled id (rows_read j) (rows_written j)])
      (set_cancelled now j)
| ended_failed pre msg now j :
    (pre = [] ∨ ∃ n ws, counts_ok id n ws ∧ pre = running_events id n ws) → js_id j = id →
    ended id (pre ++ [EvFailed id msg]) (set_failed now msg j).

Lemma batch_pos id : 1 ≤ batch_of (specs id).
Proof. unfold batch_of. lia. Qed.

Lemma counts_last id n ws :
  0 ≤ n → counts_ok id n ws →
  let sent := Z.min (Z.of_nat (length ws) * batch_of (specs id)) n in
  0 ≤ default 0 (last ws) ≤ sent ∧ (dedupe_column (specs id) = None → default 0 (last ws) = sent).
Proof.
  intros Hn Hc. pose proof (batch_pos id). destruct (last ws) as [w|] eqn:Hl; simpl.
  - rewrite last_lookup in Hl. pose proof (lookup_lt_Some _ _ _ Hl) as Hlt.
    apply Hc in Hl. replace (Z.of_nat (length ws)) with (Z.of_nat (pred (length ws)) + 1) by lia.
    exact Hl.
  - apply last_None in Hl as ->. simpl. lia.
Qed.

Lemma counts_snoc id n ws c :
  let k := Z.of_nat (length ws) in
  let chunk := Z.min (batch_of (specs id)) (n - k * batch_of (specs id)) in
  counts_ok id n ws → 0 ≤ n → k * batch_of (specs id) ≤ n → 0 ≤ c ≤ chunk →
  (dedupe_column (specs id) = None → c = chunk) →
  counts_ok id n (ws ++ [default 0 (last ws) + c]).
Proof.
  intros k chunk Hc Hn Hk Hchunk Hd i w Hi. pose proof (counts_last id n ws Hn Hc) as [Hl Hl'].
  pose proof (batch_pos id). fold k in Hl, Hl'.
  apply lookup_app_Some in Hi as [Hi|[Hi1 Hi]]; [by apply Hc|].
  apply list_lookup_singleton_Some in Hi as [Hi <-].
  replace (Z.of_nat i) with k by lia. unfold chunk in *. split; [lia|].
  intros E. rewrite (Hl' E), (Hd E). lia.
Qed.

Lemma wp_insert_chunks id (df : F) starts ws j c s (Q : result Error Z → EngineState D → Prop) :
  let n := height df in
  let b := batch_of (specs id) in
  let m := (n + b - 1) / b in
  Z.of_nat (length ws) ≤ m →
  starts = (λ i, i * b) <$> seqZ (Z.of_nat (length ws)) (m - Z.of_nat (length ws)) →
  counts_ok id n ws → js_id j = id → error j = None →
  at_ id j (Some (running_events id n ws)) c s →
  (∀ r j' ws' s', js_id j' = id → error j' = None → counts_ok id n ws' →
     at_ id j' (Some (running_events id n ws')) c s' →
     (∀ w, r = Ok w → Z.of_nat (length ws') = m ∧ w = default 0 (last ws')) → Q r s') →
  wp (rely id) (guar id) (insert_chunks cfg id (specs id) df b starts (default 0 (last ws))) Q s.
Proof.
  intros n b m. pose proof (batch_pos id) as Hb. fold b in Hb.
  pose proof (height_range df) as Hn. fold n in Hn.
  revert ws j s. induction starts as [|st starts IH]; intros ws j s Hm Hst Hc Hid He Hat HQ.
  - intros s' Hs. apply (HQ _ j ws); [done|done|done|by eapply at_rely|].
    intros w [= <-]. split; [|done]. symmetry in Hst. apply fmap_nil_inv in Hst.
    apply (f_equal length) in Hst. rewrite length_seqZ in Hst. simpl in Hst. lia.
  - destruct (decide (m - Z.of_nat (length ws) ≤ 0)) as [Hle|Hgt].
    { rewrite seqZ_nil in Hst by done. done. }
    rewrite seqZ_cons in Hst by lia. rewrite fmap_cons in Hst. injection Hst as -> Hst.
    set (k := Z.of_nat (length ws)) in *.
    assert (k * b < n) as Hk.
    { assert (k ≤ m - 1) as Hk by lia. unfold m in Hk.
      pose proof (Z.mul_div_le (n + b - 1) b). nia. }
    cbn [insert_chunks]. apply wp_bind; [apply _|]. apply wp_read.
    2:{ intros a s1 s2 Hs. eapply wp_rely; [apply _|exact Hs]. }
    intros s1 Hs1. apply (at_rely _ _ _ _ _ _ Hs1) in Hat. clear s Hs1.
    destruct (bool_decide (id ∈ raised s1)).
    { intros s' Hs. apply (HQ _ j ws); [done|done|done|by eapply at_rely|done]. }
    apply wp_try; [apply _|]. eapply wp_on_db; [intros; apply (insert_same laws)|done|].
    intros d s2 Hat2. fold n b.
    set (df' := slice df (k * b) (Z.min b (n - k * b))).
    assert (height df' = Z.min b (n - k * b)) as Hh by (apply slice_height; unfold n in *; lia).
    unfold insert_step.
    destruct (insert_chunk_some (debug_str cfg) (json_text cfg) (destination_table (specs id))
                df' (dedupe_column (specs id)) d) as [[r d'] Hr].
    rewrite Hr. cbn [default fst]. destruct r as [x|e]; cbv beta iota.
    2:{ intros s' Hs. apply (HQ _ j ws); [done|done|done|by eapply at_rely|done]. }
    destruct (insert_chunk_count _ _ _ _ _ _ _ _ Hr) as [Hx Hx']. rewrite Hh in Hx, Hx'.
    assert (counts_ok id n (ws ++ [default 0 (last ws) + x])) as Hc'.
    { apply counts_snoc; fold k b; auto; lia. }
    pose proof (counts_last id n _ (proj1 Hn) Hc') as [Hl _]. rewrite last_snoc in Hl. simpl in Hl.
    apply wp_try; [apply _|]. unfold bump_progress. eapply wp_update; [set_solver|done| |done|].
    { intros d2. apply (sync_rows laws); lia. }
    intros r s3 _ Hat3. destruct r as [[]|e]; cbv beta iota.
    2:{ intros s' Hs. apply (HQ _ (set_rows n (default 0 (last ws) + x) j) ws);
          [done|done|done|by eapply at_rely|done]. }
    apply wp_bind; [apply _|]. eapply wp_send; [done|]. intros s4 Hat4.
    replace (default 0 (last ws) + x) with (default 0 (last (ws ++ [default 0 (last ws) + x]))) at 1
      by (by rewrite last_snoc).
    eapply (IH _ (set_rows n (default 0 (last ws) + x) j)).
    + rewrite length_app. simpl. lia.
    + rewrite Hst, length_app. cbn [length].
      replace (Z.of_nat (length ws + 1)) with (Z.succ k) by lia.
      by replace (m - Z.succ k) with (Z.pred (m - k)) by lia.
    + done.
    + exact Hid.
    + exact He.
    + unfold running_events in Hat4 |- *. rewrite fmap_app. exact Hat4.
    + exact HQ.
Qed.

(** Where [execute] leaves the job. *)
Definition executed (id : JobId) (r : result Error unit) (evs : option (list Event)) (j : JobStatus)
    : Prop :=
  match r with
  | Ok _ => ∃ l, evs = Some l ∧ ended id l j
  | Err e => (evs = None ∧ e ≠ ECancelled) ∨
             ∃ n ws, counts_ok id n ws ∧ evs = Some (running_events id n ws)
  end.

Lemma executed_started id n e j : executed id (Err e) (Some (running_events id n [])) j.
Proof. right. by exists n, []. Qed.

Lemma wp_execute_job id j s (Q : result Error unit → EngineState D → Prop) :
  js_id j = id → error j = None → at_ id j None true s →
  (∀ r j' evs s', js_id j' = id → executed id r evs j' → at_ id j' evs true s' → Q r s') →
  wp (rely id) (guar id) (execute_job cfg id (specs id)) Q s.
Proof.
  intros Hid He Hat HQ. unfold execute_job.
  assert (∀ e j' n ws s', js_id j' = id → counts_ok id n ws →
    at_ id j' (Some (running_events id n ws)) true s' →
    ∀ s'', rely id s' s'' → Q (Err e) s'') as Hfail.
  { intros e j' n ws s' Hj' Hc Hat' s'' Hs. apply (HQ _ j' (Some (running_events id n ws))); [done| |].
    - right. by exists n, ws.
    - by eapply at_rely. }
  apply wp_try; [apply _|]. unfold mark_running.
  eapply wp_update; [set_solver|done|intros; by apply (sync_running laws)|done|]. intros r s1 Hr Hat1.
  destruct r as [[]|e]; cbv beta iota.
  2:{ intros s' Hs. eapply HQ; [|left; by split; [|intros ->]|by eapply at_rely]. done. }
  apply wp_bind; [apply _|]. eapply wp_send; [done|]. intros s2 Hat2.
  assert (∀ n, counts_ok id n []) as Hnil by (intros n i w; by rewrite lookup_nil).
  apply wp_try; [apply _|]. apply wp_read.
  2:{ intros [lf|e] s3 s4 Hs; [by eapply wp_rely; [apply _|]|]. intros Hq s5 Hs5. apply Hq. by etrans. }
  intros s3 Hs3. apply (at_rely _ _ _ _ _ _ Hs3) in Hat2. clear Hs3.
  destruct (match read_join cfg id with Some _ => _ | None => _ end) as [lf|e].
  2:{ exact (Hfail e (set_running j) 0 [] _ Hid (Hnil 0) Hat2). }
  apply wp_try; [apply _|]. apply wp_read.
  2:{ intros [df|e] s4 s5 Hs; [by eapply wp_rely; [apply _|]|]. intros Hq s6 Hs6. apply Hq. by etrans. }
  intros s4 Hs4. apply (at_rely _ _ _ _ _ _ Hs4) in Hat2. clear Hs4.
  destruct (run_blocking_with_timeout _ _ _) as [df|e].
  2:{ exact (Hfail e (set_running j) 0 [] _ Hid (Hnil 0) Hat2). }
  apply wp_try; [apply _|]. eapply wp_on_db; [intros; apply (ensure_same laws)|done|].
  intros d s5 Hat5. destruct (ensure_table _ _ _ _ _).1 as [[]|e]; cbv beta iota.
  2:{ exact (Hfail e (set_running j) 0 [] _ Hid (Hnil 0) Hat5). }
  apply wp_bind; [apply _|]. apply wp_read.
  2:{ intros a s6 s7 Hs. eapply wp_rely; [apply _|exact Hs]. }
  intros s6 Hs6. apply (at_rely _ _ _ _ _ _ Hs6) in Hat5. clear Hs6.
  destruct (bool_decide (id ∈ raised s6)).
  { exact (Hfail ECancelled (set_running j) 0 [] _ Hid (Hnil 0) Hat5). }
  apply wp_try; [apply _|]. pose proof (batch_pos id) as Hb. pose proof (height_range df) as Hn.
  eapply (wp_insert_chunks id df _ [] (set_running j)).
  { apply Z.div_pos; lia. }
  { unfold step_by. by rewrite Z.sub_0_r. }
  { apply Hnil. }
  { exact Hid. }
  { exact He. }
  { exact Hat5. }
  intros r j' ws s7 Hid' He' Hc Hat7 Hok. destruct r as [w|e]; cbv beta iota.
  2:{ exact (Hfail e j' (height df) ws _ Hid' Hc Hat7). }
  destruct (Hok w eq_refl) as [Hlen Hw]. pose proof (counts_last id _ ws (proj1 Hn) Hc) as [Hl Hl'].
  rewrite <- Hw in Hl, Hl'.
  apply wp_try; [apply _|]. unfold mark_completed.
  eapply (wp_timed_update id (λ now, set_completed (height df) w now) _
            (λ now, [SText (state_json Completed); SInt (to_signed 64 (height df));
                     SInt (to_signed 64 w); SText (format_time cfg now)])); [set_solver|done| |done|].
  { intros now d2 Hnow. apply (sync_completed laws); [lia|lia|done]. }
  intros r now s8 _ Hat8. destruct r as [[]|e]; cbv beta iota.
  2:{ exact (Hfail e (set_completed (height df) w now j') (height df) ws _ Hid' Hc Hat8). }
  apply wp_bind; [apply _|]. eapply wp_send; [done|]. intros s9 Hat9.
  intros s' Hs. eapply (HQ _ (set_completed (height df) w now j')); [exact Hid'| |by eapply at_rely].
  eexists. split; [done|]. constructor; try done. intros E. rewrite (Hl' E).
  rewrite Z.min_r; [done|]. rewrite Hlen.
  pose proof (Z.div_mod (height df + batch_of (specs id) - 1) (batch_of (specs id))).
  pose proof (Z.mod_pos_bound (height df + batch_of (specs id) - 1) (batch_of (specs id))). lia.
Qed.

(** What is left of a job: its status and events, or of a rejected call. *)
Definition post (id : JobId) (r : result Error unit) s : Prop :=
  match r with
  | Ok _ => ∃ j evs, at_ id j (Some evs) false s ∧ ended id evs j
  | Err _ => log s !! id = None ∧
             (jobs s !! id = None ∨ ∃ now, jobs s !! id = Some (new_status id now))
  end.

Definition fresh (id : JobId) s : Prop :=
  jobs s !! id = None ∧ log s !! id = None ∧ id ∉ cancels s ∧ absent id (db s) ∧ time_ok (clock s).

Lemma fresh_rely id s s' : rely id s s' → fresh id s → fresh id s'.
Proof.
  intros [] (Hj & Hl & Hc & Ha & Ht). repeat split; [congruence|congruence|naive_solver| |auto].
  by eapply (absent_same laws).
Qed.

Lemma wp_task id j s (Q : unit → EngineState D → Prop) :
  js_id j = id → error j = None → at_ id j None true s →
  (∀ j' evs s', at_ id j' (Some evs) false s' → ended id evs j' → Q tt s') →
  wp (rely id) (guar id) (task cfg id (specs id)) Q s.
Proof.
  intros Hid He Hat HQ. unfold task. apply wp_bind; [apply _|].
  eapply wp_execute_job; [done|done|done|]. intros r j' evs s1 Hid' Hex Hat1.
  apply wp_bind; [apply _|]. apply wp_atomic. intros s2 Hs2.
  apply (at_rely _ _ _ _ _ _ Hs2) in Hat1. clear Hs2. split.
  { split; [|done|done]. intros i Hne. split; try done. simpl. set_solver. }
  intros s3 Hs3.
  assert (at_ id j' evs false s3) as Hat3.
  { eapply at_rely; [exact Hs3|]. destruct Hat1. split; try done. simpl. set_solver. }
  clear Hs3 Hat1.
  assert (∀ e, e ≠ ECancelled → executed id (Err e) evs j' →
    wp (rely id) (guar id) (prog_bind (mark_failed cfg id (error_text (debug_duration cfg) e))
      (λ _, send id (EvFailed id (error_text (debug_duration cfg) e)))) Q s3) as Hfail.
  { intros e _ Hx. apply wp_bind; [apply _|]. unfold mark_failed.
    eapply (wp_timed_update id (λ now, set_failed now (error_text (debug_duration cfg) e)) _
              (λ now, [SText (state_json Failed); SText (format_time cfg now);
                       SText (error_text (debug_duration cfg) e)])); [set_solver|done| |done|].
    { intros now d Hnow. by apply (sync_failed laws). }
    intros r' now s4 _ Hat4. eapply wp_send; [done|]. intros s5 Hat5.
    eapply HQ; [exact Hat5|]. constructor; [|done].
    destruct Hx as [[-> _]|(n & ws & Hc & ->)]; [by left|right]. by exists n, ws. }
  destruct r as [[]|e].
  - intros s4 Hs4. destruct Hex as (l & -> & Hend). eapply HQ; [by eapply at_rely|done].
  - destruct e; try by apply Hfail.
    destruct Hex as [[_ []]|(n & ws & Hc & ->)]; [done|].
    apply wp_bind; [apply _|]. apply wp_read.
    2:{ intros a s4 s5 Hs. eapply wp_rely; [apply _|exact Hs]. }
    intros s4 Hs4. apply (at_rely _ _ _ _ _ _ Hs4) in Hat3. clear Hs4.
    rewrite (at_jobs _ _ _ _ _ Hat3). apply wp_bind; [apply _|]. unfold mark_cancelled.
    eapply (wp_timed_update id (λ now, set_cancelled now) _
              (λ now, [SText (state_json Cancelled); SText (format_time cfg now);
                       SText "cancelled"])); [set_solver|done| |done|].
    { intros now d Hnow. by apply (sync_cancelled laws). }
    intros r' now s5 _ Hat5. eapply wp_send; [done|]. intros s6 Hat6.
    eapply HQ; [exact Hat6|]. by constructor.
Qed.

Lemma wp_run id s : fresh id s → wp (rely id) (guar id) (run cfg id (specs id)) (post id) s.
Proof.
  intros Hf. unfold run, run_handler.
  assert (∀ e s1, fresh id s1 → ∀ s2, rely id s1 s2 → post id (Err e) s2) as Hrej.
  { intros e s1 Hf1 s2 Hs. destruct (fresh_rely _ _ _ Hs Hf1) as (Hj & Hl & _).
    split; [done|by left]. }
  apply wp_try; [apply _|]. apply wp_try; [apply _|]. apply wp_read.
  2:{ intros [[]|e] s1 s2 Hs; [by eapply wp_rely; [apply _|]|]. intros Hq s3 Hs3 s4 Hs4.
      apply (Hq s3); [by etrans|done]. }
  intros s1 Hs1. apply (fresh_rely _ _ _ Hs1) in Hf. clear Hs1.
  destruct (check_spec cfg (files s1) (specs id)) as [[]|e].
  2:{ intros s2 Hs2 s3 Hs3. eapply (Hrej e s1); [done|]. by etrans. }
  apply wp_bind; [apply _|]. apply wp_read.
  2:{ intros a s2 s3 Hs. eapply wp_rely; [apply _|exact Hs]. }
  intros s2 Hs2. apply (fresh_rely _ _ _ Hs2) in Hf. clear Hs2.
  set (now := clock s2). assert (time_ok now) as Hnow by apply Hf.
  apply wp_bind; [apply _|]. apply wp_atomic. intros s3 Hs3.
  destruct (fresh_rely _ _ _ Hs3 Hf) as (Hj & Hl & Hc & Ha & Ht). split.
  { split; [|done|done]. intros i Hne. split; try done. simpl. by rewrite lookup_insert_ne. }
  intros s4 [Hj4 Hl4 Hc4 Hr4 Hd4 Ht4]. simpl in Hj4, Hl4, Hc4, Hr4, Hd4, Ht4. rewrite lookup_insert_eq in Hj4.
  apply wp_bind; [apply _|]. apply wp_atomic. intros s5 [Hj5 Hl5 Hc5 Hr5 Hd5 Ht5]. split.
  { split; [|done|simpl; set_solver]. intros i Hne. split; try done; simpl; set_solver. }
  intros s6 [Hj6 Hl6 Hc6 Hr6 Hd6 Ht6]. simpl in Hj6, Hl6, Hc6, Hr6, Hd6, Ht6.
  assert (jobs s6 !! id = Some (new_status id now)) as HJ by congruence.
  assert (log s6 !! id = None) as HL by congruence.
  assert (absent id (db s6)) as HA by (repeat (eapply (absent_same laws); [done|]); done).
  assert (id ∈ cancels s6) as HC by set_solver.
  assert (time_ok (clock s6)) as HT by auto.
  assert (∀ e s7 s8, rely id s6 s7 → rely id s7 s8 → post id (Err e) s8) as Hrej6.
  { intros e s7 s8 [] []. split; [congruence|]. right. exists now. congruence. }
  destruct (spec_json cfg (specs id)) as [json|m].
  2:{ intros s7 Hs7 s8 Hs8. by eapply Hrej6. }
  apply wp_atomic. intros s7 [Hj7 Hl7 Hc7 Hr7 Hd7 Ht7].
  pose proof (λ i, insert_others laws id i now json (db s7)) as Hoth.
  assert (absent id (db s7)) as HA7 by (by eapply (absent_same laws)).
  destruct (insert_job cfg id now json (db s7)) as [r d] eqn:Hins. cbn [fst snd] in *. split.
  { split; [|done|done]. intros i Hne. split; try done. by apply Hoth. }
  intros s8 [Hj8 Hl8 Hc8 Hr8 Hd8 Ht8]. simpl in Hj8, Hl8, Hc8, Hr8, Hd8, Ht8. destruct r as [[]|e].
  2:{ intros s9 [Hj9 Hl9 _ _ _ _]. split; [congruence|]. right. exists now. congruence. }
  apply wp_bind; [apply _|]. eapply (wp_task id (new_status id now)); [done|done| |].
  - split; [congruence|congruence|set_solver| |auto].
    eapply (synced_same laws); [exact Hd8|]. by eapply (insert_synced laws).
  - intros j' evs s9 Hat9 Hend s10 Hs10. exists j', evs. split; [by eapply at_rely|done].
Qed.

(** ** Every interleaving *)

(** The calls an interleaving may hold: each job with its specification, and
    instants of the clock. *)
Definition label_ok (l : Label) : Prop :=
  match l with
  | LRun id spec => spec = specs id
  | LTick t => time_ok t
  | _ => True
  end.

Lemma act_ok l (e : Engine) :
  label_ok l → pool_ok rely guar post fresh e → pool_ok rely guar post fresh (act cfg l e).
Proof.
  intros Hl He. destruct l as [id spec|id|id|fs|t]; simpl in *.
  - subst spec. apply spawn_ok; [|done]. apply wp_run.
  - apply step_task_ok; [apply _| |apply fresh_rely|done].
    intros i j s s' Hne Hg. by apply Hg.
  - apply outside_ok; [apply _|apply fresh_rely| |done]. intros i. unfold cancel_job.
    destruct (decide _); [|done]. split; try done. simpl. set_solver.
  - apply outside_ok; [apply _|apply fresh_rely| |done]. intros i. by split.
  - apply outside_ok; [apply _|apply fresh_rely| |done]. intros i. by split.
Qed.

Lemma after_ok ls (e : Engine) :
  Forall label_ok ls → pool_ok rely guar post fresh e → pool_ok rely guar post fresh (after cfg ls e).
Proof.
  intros Hls. revert e. induction Hls as [|l ls Hl _ IH]; intros e He; [done|].
  apply IH. by apply act_ok.
Qed.

Lemma init_ok d fs now :
  (∀ id, absent id d) → time_ok now → pool_ok rely guar post fresh (init d fs now).
Proof.
  intros Ha Ht id. simpl. rewrite lookup_empty.
  split; [apply lookup_empty|]. split; [apply lookup_empty|]. split; [set_solver|]. by split.
Qed.
End job_facts.

(** ** A database that keeps the job table *)

Definition set_columns (cols : list string) (vals : list SqlVal) (r : Row) : Row :=
  foldl (λ r cv, <[cv.1 := cv.2]> r) r (zip cols vals).

(** The row of INSERT_JOB, with the defaults of the table. *)
Definition new_row (id : JobId) (state started spec : SqlVal) : Row :=
  <["id" := SText id]> (<["state" := state]> (<["rows_read" := SInt 0]>
  (<["rows_written" := SInt 0]> (<["started_at" := started]> (<["finished_at" := SNull]>
  (<["error" := SNull]> (<["spec_json" := spec]> ∅))))))).

(** The table [orbit_jobs], keyed by its primary key; table names are compared
    without case.  Statements on other tables leave it alone. *)
Class JobTable (D : Type) `{SqliteDb D} := {
  job_rows : D → gmap JobId Row;
  job_insert d id st started spec : job_rows d !! id = None →
    ∃ n d', execute INSERT_JOB [SText id; st; started; spec] d = Ok (n, d');
  job_insert_row d id st started spec n d' :
    execute INSERT_JOB [SText id; st; started; spec] d = Ok (n, d') →
    job_rows d' = <[id := new_row id st started spec]> (job_rows d);
  job_update d cols vals id : cols ∈ UPDATES → length cols = length vals →
    ∃ n d', execute (update_text cols) (vals ++ [SText id]) d = Ok (n, d');
  job_update_row d cols vals id n d' : cols ∈ UPDATES → length cols = length vals →
    execute (update_text cols) (vals ++ [SText id]) d = Ok (n, d') →
    job_rows d' = alter (set_columns cols vals) id (job_rows d);
  job_select d id :
    select SELECT_JOB [SText id] d = Ok (match job_rows d !! id with Some r => [r] | None => [] end);
  ddl_row (F Col : Type) `{Frame F Col} debug table (cols : list Col) dd d n d' :
    check_names debug table dd cols = Ok tt → to_ascii_lowercase table ≠ "orbit_jobs" →
    execute (table_ddl table cols dd) [] d = Ok (n, d') → job_rows d' = job_rows d;
  values_row (F Col : Type) `{Frame F Col} debug table (cols : list Col) dd rows clause d n d' :
    check_names debug table dd cols = Ok tt → to_ascii_lowercase table ≠ "orbit_jobs" →
    values (insert_init table cols) rows clause d = Ok (n, d') → job_rows d' = job_rows d;
  begin_row d d' : begin_ d = Ok d' → job_rows d' = job_rows d;
  commit_row d d' : commit d = Ok d' → job_rows d' = job_rows d;
  get_text_law (r : Row) c str : r !! c = Some (SText str) → get_text r c = Ok str;
  get_i64_law (r : Row) c n : r !! c = Some (SInt n) → get_i64 r c = Ok n;
  get_opt_text_some (r : Row) c str : r !! c = Some (SText str) → get_opt_text r c = Ok (Some str);
  get_opt_text_null (r : Row) c : r !! c = Some SNull → get_opt_text r c = Ok None }.

Section restart.
Context {F Col D L : Type} `{FrameLaws F Col} `{HD : SqliteDb D} `{!CountLaws D} `{!JobTable D}
  `{PolarsLib F L}.
Context (cfg : Config) (specs : JobId → PipelineSpec) (time_ok : Z → Prop).

(** Instants that have a text are read back from it. *)
Hypothesis rfc3339_law : ∀ t, time_ok t →
  ∃ str, rfc3339 cfg t = Some str ∧ parse_rfc3339 cfg str = Ok t.
Hypothesis parse_state_law : ∀ st, parse_state cfg (state_json st) = Ok st.
Hypothesis tables_law : ∀ id, to_ascii_lowercase (destination_table (specs id)) ≠ "orbit_jobs".

Definition opt_text (o : option string) : SqlVal :=
  match o with Some str => SText str | None => SNull end.

(** A row that shows a status. *)
Record shows (r : Row) (j : JobStatus) : Prop := {
  shows_id : r !! "id" = Some (SText (js_id j));
  shows_state : r !! "state" = Some (SText (state_json (state j)));
  shows_read : r !! "rows_read" = Some (SInt (to_signed 64 (rows_read j)));
  shows_written : r !! "rows_written" = Some (SInt (to_signed 64 (rows_written j)));
  shows_started : r !! "started_at" = Some (SText (format_time cfg (started_at j)));
  shows_finished : r !! "finished_at" = Some (opt_text (format_time cfg <$> finished_at j));
  shows_error : r !! "error" = Some (opt_text (error j));
  shows_bounds : in_u 64 (rows_read j) ∧ in_u 64 (rows_written j);
  shows_times : time_ok (started_at j) ∧ from_option time_ok True (finished_at j) }.

Definition same_row (id : JobId) (d d' : D) : Prop := job_rows d' !! id = job_rows d !! id.
Definition synced (id : JobId) (d : D) (j : JobStatus) : Prop :=
  ∃ r, job_rows d !! id = Some r ∧ shows r j.
Definition absent (id : JobId) (d : D) : Prop := job_rows d !! id = None.

Lemma same_row_pre id : PreOrder (same_row id).
Proof. unfold same_row. split; [done|]. intros d1 d2 d3. congruence. Qed.

Lemma format_time_law t : time_ok t → parse_rfc3339 cfg (format_time cfg t) = Ok t.
Proof. intros (str & Hf & Hp)%rfc3339_law. unfold format_time. by rewrite Hf. Qed.

(** The row is decoded to the status it shows. *)
Lemma row_to_status_shows id r j :
  js_id j = id → parse_uuid cfg id = Ok id → shows r j → row_to_status cfg r = Ok j.
Proof.
  intros Hid Hu []. unfold row_to_status.
  rewrite (get_text_law _ _ _ shows_id0), (get_text_law _ _ _ shows_state0),
    (get_i64_law _ _ _ shows_read0), (get_i64_law _ _ _ shows_written0),
    (get_text_law _ _ _ shows_started0). simpl. rewrite Hid, Hu. simpl.
  rewrite parse_state_law. simpl. rewrite (format_time_law _ (proj1 shows_times0)). simpl.
  assert (get_opt_text r "finished_at" = Ok (format_time cfg <$> finished_at j)) as ->.
  { destruct (finished_at j); [by apply get_opt_text_some|by apply get_opt_text_null]. }
  assert (get_opt_text r "error" = Ok (error j)) as ->.
  { destruct (error j); [by apply get_opt_text_some|by apply get_opt_text_null]. }
  destruct shows_bounds0. rewrite !wrap_to_signed by done. destruct j as [jid st rr rw sa fa er].
  simpl in *. subst jid. destruct fa as [t|]; simpl; [|done].
  by rewrite (format_time_law _ (proj2 shows_times0)).
Qed.

Lemma updated_row cols vals id d r :
  cols ∈ UPDATES → length cols = length vals → job_rows d !! id = Some r →
  job_rows (updated cols vals id d) !! id = Some (set_columns cols vals r).
Proof.
  intros Hc Hl Hr. unfold updated. destruct (job_update d cols vals id Hc Hl) as (n & d' & He).
  rewrite He. rewrite (job_update_row _ _ _ _ _ _ Hc Hl He), lookup_alter_eq, Hr. done.
Qed.

Lemma sync_update cols vals id d j j' :
  cols ∈ UPDATES → length cols = length vals → synced id d j →
  (∀ r, shows r j → shows (set_columns cols vals r) j') → synced id (updated cols vals id d) j'.
Proof.
  intros Hc Hl (r & Hr & Hs) Hf. exists (set_columns cols vals r).
  split; [by apply updated_row|by apply Hf].
Qed.

Lemma insert_batches_row table cols dd fuel (df : F) clause row_idx total tx total' tx' :
  check_names (debug_str cfg) table dd (columns df) = Ok tt →
  to_ascii_lowercase table ≠ "orbit_jobs" → cols = columns df →
  insert_batches (json_text cfg) fuel table cols clause (height df) row_idx total tx
    = Some (Ok (total', tx')) → job_rows tx' = job_rows tx.
Proof.
  intros Hn Ht ->. revert row_idx total tx. induction fuel as [|fuel IH]; intros row_idx total tx;
    cbn [insert_batches]; destruct (height df <=? row_idx).
  - by intros [= _ ->].
  - done.
  - by intros [= _ ->].
  - destruct (result_traverse _ _) as [rows|e]; [|done].
    destruct (values _ _ _ _) as [[n tx1]|e] eqn:Hv; [|done]. intros Hr. apply IH in Hr.
    rewrite Hr. by eapply values_row.
Qed.

Lemma insert_step_row id (df : F) d :
  job_rows (insert_step cfg (specs id) df d).2 = job_rows d.
Proof.
  unfold insert_step, insert_chunk. destruct (height df =? 0); [done|].
  destruct (check_names _ _ _ _) as [[]|e] eqn:Hn; [|done].
  destruct (begin_ d) as [tx|e] eqn:Hb; [|done].
  destruct (insert_batches _ _ _ _ _ _ _ _ _) as [[[total tx']|e]|] eqn:Hi; [|done|done].
  destruct (commit tx') as [d'|e] eqn:Hc; [|done]. simpl.
  rewrite (commit_row _ _ Hc), <- (begin_row _ _ Hb). by eapply insert_batches_row.
Qed.

Ltac shown :=
  intros ? []; split; unfold set_columns, Row in *; cbn [zip zip_with foldl fst snd];
  repeat (rewrite lookup_insert_eq || (rewrite lookup_insert_ne by done)); try done.

Lemma table_row_laws : row_laws cfg specs same_row synced absent time_ok.
Proof.
  split; unfold same_row, absent.
  - intros id d d' j Hd (r & Hr & Hs). exists r. by rewrite Hd.
  - intros id d d' -> Hd. done.
  - intros id j cols vals d Hne Hc Hl. unfold updated. destruct (execute _ _ _) as [[n d']|e] eqn:He; [|done].
    rewrite (job_update_row _ _ _ _ _ _ Hc Hl He). by rewrite lookup_alter_ne.
  - intros id j now json d Hne. unfold insert_job. destruct (execute _ _ _) as [[n d']|e] eqn:He; [|done].
    simpl. rewrite (job_insert_row _ _ _ _ _ _ _ He). by rewrite lookup_insert_ne.
  - intros id now json d d' Hnow Ha. unfold insert_job.
    destruct (execute _ _ _) as [[n d1]|e] eqn:He; [|done]. intros [= <-].
    exists (new_row id (SText (state_json Pending)) (SText (format_time cfg now)) (SText json)).
    rewrite (job_insert_row _ _ _ _ _ _ _ He), lookup_insert_eq. split; [done|].
    split; try done; by unfold in_u.
  - intros id j df d. unfold ensure_table. destruct (check_names _ _ _ _) as [[]|e] eqn:Hn; [|done].
    destruct (execute _ _ _) as [[n d']|e] eqn:He; [|done]. simpl.
    by rewrite (ddl_row _ _ _ _ _ _ _ _ _ Hn (tables_law id) He).
  - intros id j df d. by rewrite insert_step_row.
  - intros id d j Hs. eapply sync_update; [set_solver|done|exact Hs|]. shown.
  - intros id d j r w Hw Hr Hs. eapply sync_update; [set_solver|done|exact Hs|].
    shown.
    split; unfold in_u; simpl; lia.
  - intros id d j r w now Hw Hr Hnow Hs. eapply sync_update; [set_solver|done|exact Hs|].
    shown.
    + split; unfold in_u; simpl; lia.
    + by split; [apply shows_times0|].
  - intros id d j now msg Hnow Hs. eapply sync_update; [set_solver|done|exact Hs|].
    shown.
    by split; [apply shows_times0|].
  - intros id d j now Hnow Hs. eapply sync_update; [set_solver|done|exact Hs|].
    shown.
    by split; [apply shows_times0|].
Qed.

(** C20: with a database that executes the engine's statements on its job table,
    and no pipeline that writes into that table, the status of a job that has
    ended survives the process: a new engine opened on the same database answers
    [status] with what the old one has in memory, whatever was interleaved. *)
Theorem status_survives_restart d fs now ls id fs' now' :
  (∀ i, job_rows d !! i = None) → time_ok now → Forall (label_ok specs time_ok) ls →
  parse_uuid cfg id = Ok id →
  let e := after cfg ls (init d fs now) in
  tasks e !! id = Some (Ret (Ok tt)) →
  ∃ j, status cfg id (shared e) = Ok j ∧ is_terminal (state j) = true ∧
    status cfg id (shared (init (db (shared e)) fs' now' : Engine)) = Ok j.
Proof.
  intros Hd Hnow Hls Hu e Ht. pose proof table_row_laws as laws.
  pose proof (after_ok cfg specs _ _ _ _ same_row_pre laws ls (init d fs now) Hls
    (init_ok cfg specs _ _ _ _ same_row_pre laws d fs now Hd Hnow) id) as He. fold e in He.
  unfold JobId in *. rewrite Ht in He.
  destruct (He (shared e)) as (j & evs & Hat & Hend).
  { apply rely_preorder, same_row_pre. }
  destruct Hat as [Hj _ _ (r & Hr & Hs) _]. exists j. unfold status. rewrite Hj.
  split; [done|]. split; [by destruct Hend|]. simpl. rewrite lookup_empty, job_select. unfold JobId in *. rewrite Hr. simpl.
  eapply row_to_status_shows; [|exact Hu|exact Hs]. by destruct Hend.
Qed.
End restart.

(** ** Every job comes to one end *)

Section ends.
Context {F Col D L : Type} `{FrameLaws F Col} `{SqliteDb D} `{!CountLaws D} `{PolarsLib F L}.
Context (cfg : Config) (specs : JobId → PipelineSpec).

(** Nothing is known of the job's row. *)
Definition no_row : JobId → D → D → Prop := λ _ _ _, True.

#[local] Instance no_row_preorder id : PreOrder (no_row id).
Proof. by split. Qed.

Lemma no_row_laws : row_laws cfg specs no_row (λ _ _ _, True) (λ _ _, True) (λ _, True).
Proof. by split. Qed.

(** C19: under every interleaving of the calls, the jobs, cancellations, changes
    of the file system and the clock: a job whose task has ended has sent its
    start, its progress and exactly one final event (only the failure when it
    could not start), its status in memory is the one the final event announces,
    its cancellation flag is gone, the row counts it reported grow with the
    chunks and are the rows read when no dedupe column is given; a rejected call
    leaves no event; and the events sent so far by a task that still runs can be
    continued to those of an ended one. *)
Theorem job_ends_once d fs now ls id :
  Forall (label_ok specs (λ _, True)) ls →
  let e := after cfg ls (init d fs now) in
  match tasks e !! id with
  | None => jobs (shared e) !! id = None ∧ log (shared e) !! id = None
  | Some (Ret (Ok _)) => ∃ j evs,
      jobs (shared e) !! id = Some j ∧ log (shared e) !! id = Some evs ∧
      ended specs id evs j ∧ id ∉ cancels (shared e)
  | Some (Ret (Err _)) => log (shared e) !! id = None
  | Some (Step _ _) => ∃ j evs,
      events (shared e) id `prefix_of` evs ∧ (evs = [] ∨ ended specs id evs j)
  end.
Proof.
  intros Hls e. pose proof no_row_laws as laws.
  pose proof (after_ok cfg specs _ _ _ _ no_row_preorder laws ls (init d fs now) Hls
    (init_ok cfg specs _ _ _ _ no_row_preorder laws d fs now (λ _, I) I) id) as He. fold e in He.
  unfold JobId in *.
  destruct (tasks e !! id) as [[[[]|err]|f k]|] eqn:Ht.
  - destruct (He (shared e)) as (j & evs & [] & Hend); [done|]. exists j, evs.
    repeat split; try done. intros Hc. by apply at_cancels0 in Hc.
  - by apply (He (shared e)).
  - pose proof (rely_preorder (D:=D) no_row (λ _, True) no_row_preorder id) as Hpre.
    assert (PreOrder (λ s s' : EngineState D, events s id `prefix_of` events s' id)) as Hpre'.
    { split; [by intros ?|]. intros s1 s2 s3. by etrans. }
    apply (wp_runs _ _ _ _ (λ s s', events s id `prefix_of` events s' id)) in He as (r & s' & Hp & Hs').
    + destruct r as [[]|err].
      * destruct Hp as (j & evs & [] & Hend). exists j, evs. split; [|by right].
        unfold events in Hs' at 2. by rewrite at_log0 in Hs'.
      * destruct Hp as [Hp _]. exists (new_status id 0), []. split; [|by left].
        unfold events in Hs' at 2. by rewrite Hp in Hs'.
    + by intros s s' [].
  - by destruct He as (? & ? & _).
Qed.
End ends.

(** ** A concrete database, and Polars over frames in memory *)

(** The job table by key, and the rows inserted by each statement. *)
Record MemDb := mkMemDb { md_jobs : gmap JobId Row; md_rows : list (string * list (list SqlVal)) }.

Definition mem_update (sql : string) (vals : list SqlVal) (d : MemDb) : result string (Z * MemDb) :=
  match List.find (λ cols, bool_decide (update_text cols = sql)) UPDATES, last vals with
  | Some cols, Some (SText id) =>
      Ok (1, mkMemDb (alter (set_columns cols (take (length cols) vals)) id (md_jobs d)) (md_rows d))
  | _, _ => Err "syntax error"
  end.

Definition mem_execute (sql : string) (vals : list SqlVal) (d : MemDb) : result string (Z * MemDb) :=
  if bool_decide (sql = INSERT_JOB) then
    match vals with
    | [SText id; st; started; spec] =>
        match md_jobs d !! id with
        | None => Ok (1, mkMemDb (<[id := new_row id st started spec]> (md_jobs d)) (md_rows d))
        | Some _ => Err "UNIQUE constraint failed: orbit_jobs.id"
        end
    | _ => Err "parameters"
    end
  else if starts_with "CREATE TABLE IF NOT EXISTS " sql then Ok (0, d)
  else mem_update sql vals d.

#[export] Instance mem_db : SqliteDb MemDb := {
  execute := mem_execute;
  values sql rows clause d := Ok (Z.of_nat (length rows), mkMemDb (md_jobs d) (md_rows d ++ [(sql, rows)]));
  select sql vals d :=
    match vals with
    | [SText id] => Ok (match md_jobs d !! id with Some r => [r] | None => [] end)
    | _ => Ok ((map_to_list (md_jobs d)).*2)
    end;
  begin_ d := Ok d;
  commit d := Ok d;
  get_text r c := match r !! c with Some (SText s) => Ok s | _ => Err "column decode" end;
  get_i64 r c := match r !! c with Some (SInt n) => Ok n | _ => Err "column decode" end;
  get_opt_text r c :=
    match r !! c with Some (SText s) => Ok (Some s) | Some SNull => Ok None | _ => Err "column decode" end }.

#[export] Instance mem_db_counts : CountLaws MemDb.
Proof. split. intros text rows clause d n d' _ [= <- _]. lia. Qed.

Lemma mem_update_found cols vals id d :
  cols ∈ UPDATES → length cols = length vals →
  execute (update_text cols) (vals ++ [SText id]) d =
    Ok (1, mkMemDb (alter (set_columns cols vals) id (md_jobs d)) (md_rows d)).
Proof.
  intros Hc Hl.
  assert (List.find (λ c, bool_decide (update_text c = update_text cols)) UPDATES = Some cols ∧
          bool_decide (update_text cols = INSERT_JOB) = false ∧
          starts_with "CREATE TABLE IF NOT EXISTS " (update_text cols) = false) as (Hf & Hi & Hs).
  { unfold UPDATES in Hc. repeat (apply elem_of_cons in Hc as [->|Hc]; [by vm_compute|]).
    by apply not_elem_of_nil in Hc. }
  cbn [execute mem_db]. unfold mem_execute. rewrite Hi, Hs. unfold mem_update.
  rewrite Hf, last_snoc, Hl, take_app_length. done.
Qed.

#[export] Instance mem_job_table : JobTable MemDb.
Proof.
  unshelve eapply Build_JobTable; [exact md_jobs|..].
  - intros d id st t spec Ha. cbn. unfold mem_execute. rewrite bool_decide_eq_true_2 by done.
    rewrite Ha. eauto.
  - intros d id st t spec n d' He. cbn in He. unfold mem_execute in He.
    rewrite bool_decide_eq_true_2 in He by done.
    destruct (md_jobs d !! id); [done|]. by injection He as <- <-.
  - intros d cols vals id Hc Hl. rewrite mem_update_found by done. eauto.
  - intros d cols vals id n d' Hc Hl He. rewrite mem_update_found in He by done.
    by injection He as <- <-.
  - done.
  - intros F Col HF debug table cols dd d n d' _ _ He. cbn in He. unfold mem_execute in He.
    rewrite bool_decide_eq_false_2 in He by done. by injection He as <- <-.
  - intros F Col HF debug table cols dd rows clause d n d' _ _ [= _ <-]. done.
  - by intros d d' [= <-].
  - by intros d d' [= <-].
  - intros r c str Hr. cbn. by rewrite Hr.
  - intros r c n Hr. cbn. by rewrite Hr.
  - intros r c str Hr. cbn. by rewrite Hr.
  - intros r c Hr. cbn. by rewrite Hr.
Defined.

(** Sources that are one frame, and a query language with nothing in it. *)
Definition mem_polars (df : MemFrame) : PolarsLib MemFrame MemFrame := {|
  scan_csv _ _ _ _ := Ok df;
  scan_parquet _ _ := Ok df;
  read_json _ := Ok df;
  sql _ l := Ok l;
  collect _ l := Ok l |}.

Definition decode_state (str : string) : result string JobState :=
  match List.find (λ st, bool_decide (state_json st = str))
          [Pending; Running; Completed; Failed; Cancelled] with
  | Some st => Ok st
  | None => Err "unknown variant"
  end.

Definition demo_config : Config := {|
  data_root := None; query_timeout := 300000000000;
  read_join _ := None; query_join _ := Joined;
  spec_json _ := Ok "{}";
  rfc3339 t := if decide (t = 7) then Some "t7" else None;
  parse_rfc3339 str := if decide (str = "t7") then Ok 7 else Err "not an instant";
  parse_uuid str := Ok str; parse_state := decode_state;
  debug_str str := str; debug_duration _ := "300s"; json_text _ := "" |}.

Definition demo_fs : FileSystem := mkFileSystem (λ _, true) (λ p, Ok p) (λ _, Ok "").

Definition demo_spec : PipelineSpec :=
  mkPipelineSpec (mkFileSource "/data/in.csv" Csv true ",") "people" None None 2.

(** Three rows of two columns: two chunks. *)
Definition demo_frame : MemFrame :=
  mkMemFrame [("id", Int64); ("name", StringType)]
    [[AvInt64 1; AvString "a"]; [AvInt64 2; AvString "b"]; [AvInt64 3; AvNull]].

Definition demo_init : Engine (D:=MemDb) := init (mkMemDb ∅ []) demo_fs 7.

Definition demo_run (ls : list Label) : Engine (D:=MemDb) :=
  let _ := mem_polars demo_frame in after (L:=MemFrame) demo_config ls demo_init.

(** The job "j": its call, and [n] of its actions. *)
Definition demo_labels (n : nat) : list Label := LRun "j" demo_spec :: replicate n (LAct "j").

Lemma demo_labels_ok time_ok n : Forall (label_ok (λ _, demo_spec) time_ok) (demo_labels n).
Proof. constructor; [done|]. by apply Forall_replicate. Defined.

Lemma job_ends_once_witness :
  tasks (demo_run (demo_labels 30)) !! ("j" : string) = Some (Ret (Ok tt)) ∧
  ∃ j evs, jobs (shared (demo_run (demo_labels 30))) !! ("j" : string) = Some j ∧
    log (shared (demo_run (demo_labels 30))) !! ("j" : string) = Some evs ∧
    ended (λ _, demo_spec) "j" evs j ∧
    ("j" : string) ∉ cancels (shared (demo_run (demo_labels 30))).
Proof.
  assert (tasks (demo_run (demo_labels 30)) !! ("j" : string) = Some (Ret (Ok tt))) as Ht
    by (vm_compute; reflexivity).
  split; [exact Ht|].
  pose proof (job_ends_once (H2 := mem_polars demo_frame) demo_config (λ _, demo_spec)
    (mkMemDb ∅ []) demo_fs 7 (demo_labels 30) "j" (demo_labels_ok _ 30)) as He.
  cbv zeta in He.
  match type of He with
  | match ?x with _ => _ end =>
      assert (x = Some (Ret (Ok tt))) as Hx by (vm_compute; reflexivity); rewrite Hx in He
  end.
  exact He.
Defined.

Lemma status_survives_restart_witness : ∃ j,
  status demo_config "j" (shared (demo_run (demo_labels 30))) = Ok j ∧
  is_terminal (state j) = true ∧
  status demo_config "j"
    (shared (init (db (shared (demo_run (demo_labels 30)))) demo_fs 7 : Engine)) = Ok j.
Proof.
  refine (status_survives_restart (H1 := mem_polars demo_frame) demo_config (λ _, demo_spec)
    (λ t, t = 7) _ _ _ (mkMemDb ∅ []) demo_fs 7 (demo_labels 30) "j" demo_fs 7 _ _ _ _ _).
  - intros t ->. by exists "t7".
  - by intros [].
  - intros _. by vm_compute.
  - intros i. apply lookup_empty.
  - reflexivity.
  - apply demo_labels_ok.
  - reflexivity.
  - vm_compute. reflexivity.
Defined.

(** A cancellation that is accepted after the last check of the flag: the caller
    is told that the job was signalled, and the job completes. *)
Example late_cancel_completes :
  let e := demo_run (demo_labels 22) in
  (cancel_job "j" (shared e)).1 = Ok true ∧
  (let e' := demo_run (demo_labels 22 ++ LCancel "j" :: replicate 8 (LAct "j")) in
   tasks e' !! ("j" : string) = Some (Ret (Ok tt)) ∧
   state <$> jobs (shared e') !! ("j" : string) = Some Completed).
Proof. by vm_compute. Qed.

(** The engine's own table is an accepted destination. *)
Definition own_table_spec : PipelineSpec :=
  mkPipelineSpec (mkFileSource "/data/in.csv" Csv true ",") "orbit_jobs" None None 1024.

Example own_table_accepted :
  check_spec demo_config demo_fs own_table_spec = Ok tt ∧
  insert_init (F:=MemFrame) (destination_table own_table_spec) (columns demo_frame)
    = "INSERT INTO " +:+ quoted "orbit_jobs" +:+ " (" +:+ quoted "id" +:+ ", " +:+ quoted "name" +:+ ") ".
Proof. by vm_compute. Qed.

(** Unsigned integers above the range of [i64] are bound as rounded reals. *)
Example large_unsigned_rounded :
  bind_json_value (λ _, "") (anyvalue_to_json (AvUInt64 (2 ^ 63 + 1))) =
  bind_json_value (λ _, "") (anyvalue_to_json (AvUInt64 (2 ^ 63))).
Proof. by vm_compute. Qed.
