(* ===== verification/EtlService.v ===== *)
(** * The gRPC service of the ETL engine: apps/orbit-server/src/service.rs

    The translation between the messages of proto/etl.proto and the engine's
    types, and the four methods.  A protobuf enum is its number, a field that is
    not set its default.  Method calls on the engine are those of EtlEngine; the
    stream of a run's events is the job's event log, translated. *)

From S2P Require Import Prelude F64 Text Json Etl Interleave EtlEngine.
Local Open Scope Z_scope.

(** ** Messages *)

Record PbFileSource := mkPbFileSource {
  pb_path : string; pb_format : Z; pb_has_header : bool; pb_delimiter : string }.

Record PbPipelineSpec := mkPbPipelineSpec {
  pb_source : option PbFileSource; pb_destination_table : string; pb_sql_transform : string;
  pb_dedupe_column : string; pb_batch_size : Z }.

Record PbJobStatus := mkPbJobStatus {
  pb_id : string; pb_state : Z; pb_rows_read : Z; pb_rows_written : Z;
  pb_started_at : string; pb_finished_at : string; pb_error : string }.

Inductive PbEvent :=
| PbStarted (job_id : string)
| PbProgress (job_id : string) (rows_read rows_written : Z)
| PbCompleted (job_id : string) (rows_read rows_written : Z)
| PbFailed (job_id : string) (error : string).

(** tonic's [Status], by its code. *)
Inductive Status :=
| InvalidArgument (m : string)
| NotFound (m : string)
| FailedPrecondition (m : string)
| StatusInternal (m : string).

(** ** Encoding and decoding *)

(** [pb::FileFormat::try_from]; [None] is UNSPECIFIED, also for unknown numbers. *)
Definition decode_format (n : Z) : option FileFormat :=
  if n =? 1 then Some Csv else if n =? 2 then Some Parquet else if n =? 3 then Some JsonFormat
  else None.

Definition non_empty (s : string) : option string := if bool_decide (s = "") then None else Some s.

Definition decode_spec (p : PbPipelineSpec) : result Status PipelineSpec :=
  match pb_source p with
  | None => Err (InvalidArgument "source required")
  | Some f =>
      match decode_format (pb_format f) with
      | None => Err (InvalidArgument "file format required")
      | Some fmt =>
          Ok (mkPipelineSpec
                (mkFileSource (pb_path f) fmt (pb_has_header f)
                   (if bool_decide (pb_delimiter f = "") then "," else pb_delimiter f))
                (pb_destination_table p) (non_empty (pb_sql_transform p))
                (non_empty (pb_dedupe_column p))
                (if pb_batch_size p =? 0 then 1024 else pb_batch_size p))
      end
  end.

Definition encode_event (ev : Event) : PbEvent :=
  match ev with
  | EvStarted id => PbStarted id
  | EvProgress id r w => PbProgress id r w
  | EvCompleted id r w => PbCompleted id r w
  | EvFailed id e => PbFailed id e
  | EvCancelled id _ _ => PbFailed id "cancelled"
  end.

Definition encode_state (s : JobState) : Z :=
  match s with Pending => 1 | Running => 2 | Completed => 3 | Failed => 4 | Cancelled => 5 end.

Definition encode_status (cfg : Config) (s : JobStatus) : PbJobStatus :=
  mkPbJobStatus (js_id s) (encode_state (state s)) (rows_read s) (rows_written s)
    (format_time cfg (started_at s))
    (default "" (finished_at s ≫= rfc3339 cfg))
    (default "" (error s)).

Definition to_status (cfg : Config) (e : Error) : Status :=
  match e with
  | InvalidSpec m | Serde m | Internal m => InvalidArgument m
  | SourceNotFound p => NotFound ("source not found: " +:+ p)
  | JobNotFound id => NotFound ("job not found: " +:+ id)
  | JobTerminated => FailedPrecondition "job already terminated"
  | e => StatusInternal (error_text (debug_duration cfg) e)
  end.

(** ** Methods *)

Section service.
Context {F Col D L : Type} `{Frame F Col} `{SqliteDb D} `{PolarsLib F L}.
Context (cfg : Config).
Implicit Type s : EngineState D.
Local Open Scope prog_scope.

(** What the caller of RunPipeline is answered, and the pipeline it starts.  A
    request that is refused before [run] leaves the engine alone. *)
Definition run_pipeline (id : JobId) (req : PbPipelineSpec)
    : result Status (prog (EngineState D) (result Status unit)) :=
  spec ← decode_spec req;
  Ok (r ⇐ run cfg id spec; Ret (map_err (to_status cfg) r)).

(** The events a client of the stream has been sent. *)
Definition stream s (id : JobId) : list PbEvent := encode_event <$> events s id.

Definition parse_id (str : string) : result Status JobId :=
  map_err (λ e, InvalidArgument ("invalid job id: " +:+ e)) (parse_uuid cfg str).

Definition get_status (id : string) s : result Status PbJobStatus :=
  id ← parse_id id;
  st ← map_err (to_status cfg) (status cfg id s);
  Ok (encode_status cfg st).

Definition limit_of (limit : Z) : Z := if limit =? 0 then 50 else limit.

Definition list_jobs_reply (limit : Z) s : result Status (list PbJobStatus) :=
  js ← map_err (to_status cfg) (list_jobs cfg (limit_of limit) s);
  Ok (encode_status cfg <$> (js : list JobStatus)).

Definition cancel_job_reply (id : string) s : result Status bool * EngineState D :=
  match parse_id id with
  | Err e => (Err e, s)
  | Ok id => let '(r, s) := cancel_job id s in (map_err (to_status cfg) r, s)
  end.
End service.

(** Every message decodes to a specification the engine's loop can run: the
    batch size is positive and the delimiter is a character. *)
Lemma decode_spec_defaults p spec :
  0 ≤ pb_batch_size p → decode_spec p = Ok spec →
  1 ≤ batch_size spec ∧ delimiter (source spec) ≠ "" ∧
  sql_transform spec ≠ Some "" ∧ dedupe_column spec ≠ Some "".
Proof.
  intros Hb. unfold decode_spec, non_empty. destruct (pb_source p) as [f|]; [|done].
  destruct (decode_format (pb_format f)); [|done]. intros [= <-]. simpl.
  repeat case_bool_decide; destruct (Z.eqb_spec (pb_batch_size p) 0); repeat split; try done; try lia;
    congruence.
Qed.

(** A client that reads the whole stream can tell how the job ended. *)
Lemma encode_state_inj s t : encode_state s = encode_state t → s = t.
Proof. by destruct s, t. Qed.

(** A cancelled job and one that failed with the text cancelled look alike. *)
Example cancelled_like_failed : encode_event (EvCancelled "j" 3 2) = encode_event (EvFailed "j" "cancelled").
Proof. reflexivity. Qed.
