(* ===== verification/EtlServer.v ===== *)
(** * The ETL server: apps/orbit-server/src/main.rs and crates/orbit-config

    Start-up, the check of the bearer token and the dispatch of the calls to the
    methods of EtlService, over the transition system of EtlEngine; and the
    layered configuration.  Opening the database, canonicalising a path and
    figment are parameters; the limits on concurrency, time and size are tonic's. *)

From Stdlib Require Import Ascii.
From S2P Require Import Prelude Text Json Auth UrlPolicy Window Etl Interleave EtlEngine EtlService.
Local Open Scope Z_scope.

(** ** Authentication *)

(** The function of orbit-openeo's bearer.rs and basic.rs, written out once more. *)
Definition constant_time_eq (a b : list Z) : bool :=
  if negb (length a =? length b)%nat then false
  else foldl (λ diff '(x, y), Z.lor diff (Z.lxor x y)) 0 (zip a b) =? 0.

Section authentication.
(** [HeaderValue::to_str], none when the value holds other than visible ASCII. *)
Context (to_str : string → option string).

Definition authenticate_request (metadata : list (string * string)) (expected_token : option string)
    : result string () :=
  match expected_token with
  | None => Ok tt
  | Some expected =>
      header ← ok_or (assoc_get "authorization" metadata ≫= to_str) "missing authorization header";
      token ← ok_or (strip_prefix "Bearer " header) "authorization must be Bearer scheme";
      if negb (constant_time_eq (bytes_of token) (bytes_of expected)) then Err "invalid bearer token" else Ok tt
  end.
End authentication.

(** ** Start-up *)

Record Args := mkArgs {
  bind : IpAddr * Z; a_db : string; a_data_root : option string; max_msg_bytes : Z; concurrency : Z;
  request_timeout_secs : Z; auth_token : option string }.

(** The defaults of the options. *)
Definition Args_default : Args :=
  mkArgs (V4 [127; 0; 0; 1], 9876) "sqlite://./data/orbit.db?mode=rwc" None (4 * 1024 * 1024) 32 600 None.

(** The directory of the database's file, when it names one. *)
Definition db_dir (db : string) : option string :=
  path ← strip_prefix "sqlite://" db;
  dir ← parent (first_piece (λ c, Ascii.eqb c "?"%char) path);
  if bool_decide (dir = "") then None else Some dir.

Definition with_data_root (canon : string) (cfg : Config) : Config :=
  mkConfig (Some canon) (query_timeout cfg) (read_join cfg) (query_join cfg) (spec_json cfg) (rfc3339 cfg)
    (parse_rfc3339 cfg) (parse_uuid cfg) (parse_state cfg) (debug_str cfg) (debug_duration cfg) (json_text cfg).

(** What start-up does to the machine before it serves or refuses. *)
Inductive Effect := CreateDirs (dir : string) | OpenDatabase (db : string).

Section server.
Context {F Col D L : Type} `{Frame F Col} `{SqliteDb D} `{PolarsLib F L}.
Context (to_str : string → option string).
Context (open_engine : string → result string D) (canonicalize_root : string → result string string).
Context (show_addr : IpAddr * Z → string) (cfg : Config).

Record Server := mkServer { sv_config : Config; sv_token : option string; sv_db : D }.

Definition start (args : Args) : list Effect * result string Server :=
  let effects := option_list (CreateDirs <$> db_dir (a_db args)) ++ [OpenDatabase (a_db args)] in
  (effects,
   d ← open_engine (a_db args);
   cfg' ← match a_data_root args with
          | Some root =>
              canon ← map_err (λ e, "ORBIT_DATA_ROOT " +:+ debug_str cfg root +:+
                                 " does not exist or is not readable: " +:+ e) (canonicalize_root root);
              Ok (with_data_root canon cfg)
          | None => Ok cfg
          end;
   if negb (is_loopback (bind args).1) && bool_decide (auth_token args = None) then
     Err ("non-loopback bind " +:+ show_addr (bind args) +:+ " requires ORBIT_AUTH_TOKEN to be set. " +:+
          "Refusing to expose an unauthenticated gRPC service.")
   else Ok (mkServer cfg' (auth_token args) d)).

(** ** Calls *)

(** [id] is the UUID the engine gives to a new job. *)
Inductive Rpc :=
| RunPipeline (id : JobId) (req : PbPipelineSpec)
| GetStatus (id : string)
| ListJobs (limit : Z)
| CancelJob (id : string).

Inductive Reply :=
| Unauthenticated (m : string)
| Failure (e : Status)
| Started
| JobReply (s : PbJobStatus)
| JobsReply (l : list PbJobStatus)
| CancelReply (cancelled : bool).

Definition reply_of {A} (f : A → Reply) (r : result Status A) : Reply :=
  match r with Ok a => f a | Err e => Failure e end.

(** A call on the running server.  The events of a started pipeline are those of
    its log; the answer of its handler is the first of them or a failure. *)
Definition serve_rpc (sv : Server) (metadata : list (string * string)) (rpc : Rpc) (e : Engine (D:=D))
    : Reply * Engine (D:=D) :=
  match authenticate_request to_str metadata (sv_token sv) with
  | Err m => (Unauthenticated m, e)
  | Ok _ =>
      match rpc with
      | RunPipeline id req =>
          match decode_spec req with
          | Err st => (Failure st, e)
          | Ok spec => (Started, act (sv_config sv) (LRun id spec) e)
          end
      | GetStatus id => (reply_of JobReply (get_status (sv_config sv) id (shared e)), e)
      | ListJobs limit => (reply_of JobsReply (list_jobs_reply (sv_config sv) limit (shared e)), e)
      | CancelJob id =>
          let '(r, s) := cancel_job_reply (sv_config sv) id (shared e) in
          (reply_of CancelReply r, outside (λ _, s) e)
      end
  end.

(** What happens to a server: calls, and the engine's own actions. *)
Inductive Move :=
| Call (metadata : list (string * string)) (rpc : Rpc)
| Job (id : JobId)
| Files (fs : FileSystem)
| Tick (t : Z).

Definition move (sv : Server) (m : Move) (e : Engine (D:=D)) : list Reply * Engine (D:=D) :=
  match m with
  | Call metadata rpc => let '(r, e) := serve_rpc sv metadata rpc e in ([r], e)
  | Job id => ([], act (sv_config sv) (LAct id) e)
  | Files fs => ([], act (sv_config sv) (LFiles fs) e)
  | Tick t => ([], act (sv_config sv) (LTick t) e)
  end.

Fixpoint serve_all (sv : Server) (moves : list Move) (e : Engine (D:=D)) : list Reply * Engine (D:=D) :=
  match moves with
  | [] => ([], e)
  | m :: moves =>
      let '(rs, e) := move sv m e in
      let '(rs', e) := serve_all sv moves e in (rs ++ rs', e)
  end.
End server.
Arguments Server D : clear implicits.

(** ** crates/orbit-config/src/lib.rs *)

(** Durations are in nanoseconds. *)
Record OrbitConfig := mkOrbitConfig {
  oc_bind : string; oc_db : string; oc_data_root : option string; oc_max_msg_bytes : Z; oc_concurrency : Z;
  oc_request_timeout : Z; oc_query_timeout : Z; oc_auth_token : option string }.

Definition OrbitConfig_default : OrbitConfig :=
  mkOrbitConfig "127.0.0.1:9876" "sqlite://./data/orbit.db?mode=rwc" None (4 * 1024 * 1024) 32
    (600 * 10 ^ 9) (300 * 10 ^ 9) None.

Inductive ConfigError := Parse (m : string) | Invalid (m : string).

Definition validate (c : OrbitConfig) : result ConfigError () :=
  if oc_max_msg_bytes c =? 0 then Err (Invalid "max_msg_bytes must be > 0")
  else if oc_concurrency c =? 0 then Err (Invalid "concurrency must be > 0")
  else if oc_request_timeout c =? 0 then Err (Invalid "request_timeout must be > 0")
  else if oc_query_timeout c =? 0 then Err (Invalid "query_timeout must be > 0")
  else Ok tt.

Section config.
(** The layers of a figment, the last one wins; [extract] reads the result. *)
Inductive Layer := Defaults (c : OrbitConfig) | TomlFile (path : string) | EnvPrefixed (prefix : string).
Context (extract : list Layer → result string OrbitConfig) (path_exists : string → bool).

Definition extract_valid (layers : list Layer) : result ConfigError OrbitConfig :=
  cfg ← map_err Parse (extract layers); _ ← validate cfg; Ok cfg.

Definition toml_layer (toml_path : option string) : list Layer :=
  match toml_path with Some p => if path_exists p then [TomlFile p] else [] | None => [] end.
Definition load (toml_path : option string) : result ConfigError OrbitConfig :=
  extract_valid ([Defaults OrbitConfig_default] ++ toml_layer toml_path ++ [EnvPrefixed "ORBIT_"]).
Definition load_toml (toml_path : string) : result ConfigError OrbitConfig :=
  extract_valid [Defaults OrbitConfig_default; TomlFile toml_path].
Definition with_env_overrides (c : OrbitConfig) : result ConfigError OrbitConfig :=
  extract_valid [Defaults c; EnvPrefixed "ORBIT_"].
End config.

(** ** The token *)

Lemma token_eq_spec a b : constant_time_eq a b = true ↔ a = b.
Proof. exact (Auth.constant_time_eq_spec a b). Qed.

(** A call passes when no token is configured or its header is the token's. *)
Lemma authenticate_request_ok to_str metadata expected :
  authenticate_request to_str metadata expected = Ok tt ↔
  match expected with
  | None => True
  | Some token => assoc_get "authorization" metadata ≫= to_str = Some ("Bearer " +:+ token)
  end.
Proof.
  unfold authenticate_request. destruct expected as [token|]; [|done].
  destruct (assoc_get "authorization" metadata ≫= to_str) as [h|]; cbn [ok_or mbind result_bind]; [|done].
  destruct (strip_prefix "Bearer " h) as [t|] eqn:Ht; cbn [ok_or mbind result_bind].
  - apply strip_prefix_Some in Ht as ->. destruct (constant_time_eq _ _) eqn:E; cbn [negb].
    + apply token_eq_spec, bytes_of_inj in E as ->. done.
    + split; [done|]. intros Hh. assert (t = token) as -> by (by injection Hh).
      by rewrite (proj2 (token_eq_spec _ _) eq_refl) in E.
  - split; [done|]. intros Hh. assert (h = "Bearer " +:+ token) as -> by congruence. by rewrite strip_prefix_app in Ht.
Qed.

(** ** The served engine *)

Section served.
Context {F Col D L : Type} `{Frame F Col} `{SqliteDb D} `{PolarsLib F L}.
Context (to_str : string → option string) (open_engine : string → result string D).
Context (canonicalize_root : string → result string string) (show_addr : IpAddr * Z → string) (cfg : Config).

Definition carries (token : string) (m : Move) : Prop :=
  match m with
  | Call metadata _ => assoc_get "authorization" metadata ≫= to_str = Some ("Bearer " +:+ token)
  | _ => False
  end.

(** An engine on which nothing was ever asked. *)
Definition untouched (d : D) (e : Engine (D:=D)) : Prop :=
  tasks e = ∅ ∧ ∃ fs t, shared e = mkEngine d ∅ ∅ ∅ ∅ fs t.
Definition refused (r : Reply) : Prop := match r with Unauthenticated _ => True | _ => False end.

Lemma move_untouched sv token m d e rs e' : sv_token sv = Some token → ¬ carries token m → untouched d e →
  move (Col:=Col) (L:=L) to_str sv m e = (rs, e') → untouched d e' ∧ Forall refused rs.
Proof.
  intros Ht Hm [Htasks (fs & t & Hs)] Hmove.
  destruct m as [metadata rpc|id|fs'|t']; simpl in Hmove.
  - unfold serve_rpc in Hmove. destruct (authenticate_request to_str metadata (sv_token sv)) as [[]|msg] eqn:Ha.
    + rewrite Ht in Ha. by apply authenticate_request_ok in Ha.
    + injection Hmove as <- <-. split; [split; eauto|]. by repeat constructor.
  - injection Hmove as <- <-. unfold step_task. rewrite Htasks, lookup_empty. split; [split; eauto|done].
  - injection Hmove as <- <-. split; [|done]. split; [done|]. simpl. rewrite Hs. simpl. eauto.
  - injection Hmove as <- <-. split; [|done]. split; [done|]. simpl. rewrite Hs. simpl. eauto.
Qed.

Lemma serve_all_untouched sv token moves d : sv_token sv = Some token → Forall (λ m, ¬ carries token m) moves →
  ∀ e rs e', untouched d e → serve_all (Col:=Col) (L:=L) to_str sv moves e = (rs, e') →
  untouched d e' ∧ Forall refused rs.
Proof.
  intros Ht. induction 1 as [|m moves Hm _ IH]; intros e rs e' He; simpl; [by intros [= <- <-]|].
  destruct (move to_str sv m e) as [rs1 e1] eqn:E1. destruct (serve_all to_str sv moves e1) as [rs2 e2] eqn:E2.
  intros [= <- <-]. destruct (move_untouched sv token m d e rs1 e1 Ht Hm He E1) as [He1 Hr1].
  destruct (IH e1 rs2 e2 He1 E2) as [He2 Hr2]. split; [done|]. by apply Forall_app.
Qed.

(** The source of a pipeline lies below the root, as the file system resolves both. *)
Definition below (fs : FileSystem) (root path : string) : Prop :=
  ∃ r p, canonicalize fs root = Ok r ∧ canonicalize fs path = Ok p ∧ components r `prefix_of` components p.

Lemma check_spec_below (cfg' : Config) root fs spec : data_root cfg' = Some root → check_spec cfg' fs spec = Ok tt →
  below fs root (path (source spec)).
Proof.
  unfold check_spec. intros ->. destruct (Etl.validate _ _ _); cbn [mbind result_bind]; [|done].
  unfold validate_path_under_root, below. destruct (canonicalize fs root) as [r|]; [|done].
  destruct (canonicalize fs _) as [p|]; [|done]. unfold path_starts_with.
  case_bool_decide as Hp; [|done]. eauto.
Qed.

(** The first action of a pipeline refuses it without a trace or finds its source below the root. *)
Lemma first_action (cfg' : Config) root id spec (e : Engine (D:=D)) : data_root cfg' = Some root →
  tasks e !! id = Some (run (Col:=Col) (L:=L) cfg' id spec) →
  (∃ err, step_task id e = mkPool (shared e) (<[id := Ret (Err err)]> (tasks e))) ∨
  below (files (shared e)) root (path (source spec)).
Proof.
  intros Hroot Ht. destruct (check_spec cfg' (files (shared e)) spec) as [[]|err] eqn:Hc.
  - right. by eapply check_spec_below.
  - left. exists err. unfold step_task, JobId in *. rewrite Ht.
    unfold run, run_handler, prog_try, atomic. cbn -[check_spec task]. by rewrite Hc.
Qed.

(** C40: A started ETL server on an address that is not the loopback has a token,
    and whatever happens to it, while no call carries the header with that token
    every call is refused and the engine stays as it was opened: no job, no task,
    the database untouched.  With a data root the server runs with its
    canonical form, and the first action of every pipeline refuses it without
    touching the engine unless its source resolves below the root. *)
Theorem etl_server_confined args effects sv fs now :
  start open_engine canonicalize_root show_addr cfg args = (effects, Ok sv) →
  (is_loopback (bind args).1 = false →
    ∃ token, auth_token args = Some token ∧
      ∀ moves, Forall (λ m, ¬ carries token m) moves →
      let '(replies, e) := serve_all (Col:=Col) (L:=L) to_str sv moves (init (sv_db sv) fs now) in
      Forall refused replies ∧ untouched (sv_db sv) e) ∧
  (∀ root, a_data_root args = Some root →
    ∃ canon, canonicalize_root root = Ok canon ∧
      ∀ id spec (e : Engine (D:=D)), tasks e !! id = Some (run (Col:=Col) (L:=L) (sv_config sv) id spec) →
        (∃ err, step_task id e = mkPool (shared e) (<[id := Ret (Err err)]> (tasks e))) ∨
        below (files (shared e)) canon (path (source spec))).
Proof.
  unfold start. intros [= _ Hs]. destruct (open_engine (a_db args)) as [d|]; cbn [mbind result_bind] in Hs; [|done].
  destruct (match a_data_root args with Some _ => _ | None => _ end) as [cfg'|] eqn:Hroot;
    cbn [mbind result_bind] in Hs; [|done].
  destruct (negb (is_loopback (bind args).1) && bool_decide (auth_token args = None)) eqn:Hb; [done|].
  injection Hs as <-. cbn [sv_db sv_config sv_token]. split.
  - intros Hl. rewrite Hl in Hb. cbn in Hb. apply bool_decide_eq_false in Hb.
    destruct (auth_token args) as [token|]; [|done]. exists token. split; [done|]. intros moves Hall.
    destruct (serve_all _ _ moves _) as [replies e] eqn:Hserve.
    assert (untouched d (init d fs now)) as He by (split; [done|by exists fs, now]).
    destruct (serve_all_untouched (mkServer cfg' (Some token) d) token moves d eq_refl Hall _ _ _ He Hserve) as [Hu Hr].
    by split.
  - intros root Hr. rewrite Hr in Hroot. destruct (canonicalize_root root) as [canon|]; [|done].
    cbn in Hroot. injection Hroot as <-. exists canon. split; [done|]. intros id spec e Ht.
    by apply (first_action (with_data_root canon cfg)).
Qed.
End served.

(** A configuration that loads is one the server can run with. *)
Theorem loaded_config_valid extract path_exists toml_path c : load extract path_exists toml_path = Ok c →
  extract ([Defaults OrbitConfig_default] ++ toml_layer path_exists toml_path ++ [EnvPrefixed "ORBIT_"]) = Ok c ∧
  oc_max_msg_bytes c ≠ 0 ∧ oc_concurrency c ≠ 0 ∧ oc_request_timeout c ≠ 0 ∧ oc_query_timeout c ≠ 0.
Proof.
  unfold load, extract_valid. destruct (extract _) as [c'|]; cbn [map_err mbind result_bind]; [|done].
  unfold validate. destruct (Z.eqb_spec (oc_max_msg_bytes c') 0); [done|].
  destruct (Z.eqb_spec (oc_concurrency c') 0); [done|]. destruct (Z.eqb_spec (oc_request_timeout c') 0); [done|].
  destruct (Z.eqb_spec (oc_query_timeout c') 0); [done|]. by intros [= <-].
Qed.

(** ** Witnesses and examples *)

Module Demo.

Definition exposed_args : Args :=
  mkArgs (V4 [0; 0; 0; 0], 9876) "sqlite://./data/orbit.db?mode=rwc" (Some "/data/../data") 4194304 32 600 (Some "s3cr3t").
Definition demo_open (url : string) : result string MemDb := Ok (mkMemDb ∅ []).
Definition demo_canonicalize (root : string) : result string string :=
  if bool_decide (root = "/data/../data") then Ok "/data" else Err "no such directory".
Definition demo_start (args : Args) := start demo_open demo_canonicalize (λ _, "0.0.0.0:9876") demo_config args.
Definition demo_request : PbPipelineSpec :=
  mkPbPipelineSpec (Some (mkPbFileSource "/data/in.csv" 1 true ",")) "people" "" "" 2.
Definition intruder : list Move :=
  [Call [] (RunPipeline "j" demo_request); Job "j"; Call [("authorization", "Bearer guess")] (CancelJob "j");
   Call [("authorization", "Basic s3cr3t")] (ListJobs 0)].

Lemma etl_server_confined_witness :
  let _ := mem_polars demo_frame in
  ∃ sv, demo_start exposed_args =
      ([CreateDirs "./data"; OpenDatabase "sqlite://./data/orbit.db?mode=rwc"], Ok sv) ∧
    let '(replies, e) := serve_all (L:=MemFrame) Some sv intruder (init (sv_db sv) demo_fs 7) in
    Forall refused replies ∧ untouched (sv_db sv) e.
Proof.
  intros lib. eexists. split; [reflexivity|].
  destruct (etl_server_confined (L:=MemFrame) Some demo_open demo_canonicalize (λ _, "0.0.0.0:9876") demo_config
    exposed_args [CreateDirs "./data"; OpenDatabase "sqlite://./data/orbit.db?mode=rwc"]
    (mkServer (with_data_root "/data" demo_config) (Some "s3cr3t") (mkMemDb ∅ [])) demo_fs 7 eq_refl) as [Hexp _].
  destruct (Hexp eq_refl) as (token & Ht & Hall). injection Ht as <-. apply (Hall intruder).
  repeat (apply Forall_cons; split; [cbn; discriminate || (intros []) |]). apply Forall_nil. exact I.
Defined.

(** A server given an empty token starts on an open address and accepts a header
    that any client can send. *)
Example empty_token_opens_the_server :
  let args := mkArgs (V4 [0; 0; 0; 0], 9876) "sqlite::memory:" None 4194304 32 600 (Some "") in
  is_ok (demo_start args).2 = true ∧ authenticate_request Some [("authorization", "Bearer ")] (Some "") = Ok tt.
Proof. vm_compute. done. Qed.

(** The refusal to expose the service comes after the directory is made and the
    database opened. *)
Example refusal_after_opening :
  let args := mkArgs (V4 [0; 0; 0; 0], 9876) "sqlite:///var/x/orbit.db" None 4194304 32 600 None in
  (demo_start args).1 = [CreateDirs "/var/x"; OpenDatabase "sqlite:///var/x/orbit.db"] ∧ is_ok (demo_start args).2 = false.
Proof. vm_compute. done. Qed.

(** A configuration that exposes the server without a token is valid. *)
Example config_without_token_is_valid :
  validate (mkOrbitConfig "0.0.0.0:9876" "sqlite::memory:" None 1 1 1 1 None) = Ok tt.
Proof. reflexivity. Qed.
End Demo.
