(* ===== verification/OpenEo.v ===== *)
(** * The openEO client

    crates/orbit-geo/src/openeo.rs: one method per endpoint, the polling loop, and
    the helper that submits a graph and downloads its results.  The HTTP client,
    the clock, the file system, JSON's text form, SHA-256 and the URL parser are
    parameters over one state. *)

From Stdlib Require Import Ascii.
From stdpp Require Import sorting.
From S2P Require Import Prelude BTree F64 Text Json Cube.
Local Open Scope Z_scope.

Inductive OpenEoAuth := OidcBearer (token : string) | Basic (user password : string) | NoAuth.

(** The authorization that a request carries. *)
Inductive Authorization := Bearer (token : string) | BasicAuth (user password : string).

Definition auth_apply (a : OpenEoAuth) : option Authorization :=
  match a with
  | OidcBearer t => Some (Bearer t)
  | Basic u p => Some (BasicAuth u p)
  | NoAuth => None
  end.

Inductive JobStatus := Created | Queued | Running | Finished | Error | Canceled.

#[export] Instance JobStatus_eq_dec : EqDecision JobStatus.
Proof. solve_decision. Defined.

(** serde's names, in lower case. *)
Definition status_name (s : JobStatus) : string :=
  match s with
  | Created => "created" | Queued => "queued" | Running => "running"
  | Finished => "finished" | Error => "error" | Canceled => "canceled"
  end.

Definition all_statuses : list JobStatus := [Created; Queued; Running; Finished; Error; Canceled].

Definition status_of (v : Value) : option JobStatus :=
  s ← as_str v; find (λ st, bool_decide (status_name st = s)) all_statuses.

(** [{:?}] *)
Definition status_debug (s : JobStatus) : string :=
  match s with
  | Created => "Created" | Queued => "Queued" | Running => "Running"
  | Finished => "Finished" | Error => "Error" | Canceled => "Canceled"
  end.

Definition is_terminal (s : JobStatus) : bool :=
  match s with Finished | Error | Canceled => true | _ => false end.

Record JobInfo := mkJobInfo { ji_id : string; ji_status : JobStatus; ji_progress : option f64 }.

Definition job_info_of (v : Value) : option JobInfo :=
  m ← as_object v;
  id ← assoc_get "id" m ≫= as_str;
  status ← assoc_get "status" m ≫= status_of;
  progress ← de_option as_f64 "progress" m;
  Some (mkJobInfo id status progress).

Record Asset := mkAsset { a_href : string; a_title : option string; a_media_type : option string }.

Definition asset_of (v : Value) : option Asset :=
  m ← as_object v;
  href ← assoc_get "href" m ≫= as_str;
  title ← de_option as_str "title" m;
  media_type ← de_option as_str "type" m;
  Some (mkAsset href title media_type).

(** The assets of a results document, by name. *)
Definition results_of (v : Value) : option (btree string Asset) :=
  m ← as_object v; de_default (de_map asset_of) [] "assets" m.

(** Durations are in nanoseconds. *)
Record PollConfig := mkPollConfig { interval : Z; timeout : Z }.

Definition PollConfig_default : PollConfig :=
  mkPollConfig (10 * 10 ^ 9) (60 * 60 * 4 * 10 ^ 9).

Inductive Method := Get | Post | Delete.

Record Request := mkRequest {
  rq_method : Method; rq_url : string; rq_json : option Value; rq_auth : option Authorization }.

(** [rs_json] is the body decoded, [rs_text] the body as text. *)
Record Response := mkResponse {
  rs_status : Z; rs_status_text : string; rs_headers : list (string * string);
  rs_json : result string Value; rs_text : string; rs_bytes : result string string }.

Definition is_success (r : Response) : bool := (200 <=? rs_status r) && (rs_status r <? 300).

Record Client := mkClient { backend_url : string; auth : OpenEoAuth }.

(** The last piece of a text cut at its slashes. *)
Definition after_last_slash (s : string) : string :=
  match rsplit_once "/"%char s with Some (_, l) => l | None => s end.

(** [Path::with_extension] on the last component. *)
Definition with_extension (ext path : string) : string :=
  let '(dir, name) := match rsplit_once "/"%char path with Some (d, n) => (d +:+ "/", n) | None => ("", path) end in
  let stem := match rsplit_once "."%char name with
              | Some (EmptyString, _) | None => name
              | Some (stem, _) => stem
              end in
  dir +:+ stem +:+ "." +:+ ext.

(** ** Sorted paths *)

Definition string_le (a b : string) : Prop := cmp a b ≠ Gt.
#[local] Instance string_le_dec : RelDecision string_le.
Proof. intros a b. unfold string_le. solve_decision. Defined.

Section client.
Context {W : Type}.
Context (build_http : result string ()).
Context (send : Request → W → result string Response * W).
Context (now : W → Z) (sleep : Z → W → W).
(** The first six bytes of the digest in hexadecimal, and the last path segment of
    a URL that parses and has one. *)
Context (hash_prefix : string → string) (url_file_name : string → option string).
Context (create_dir_all : string → W → result string () * W) (file_exists : string → W → bool).
Context (write_file : string → string → W → result string () * W).
Context (rename : string → string → W → result string () * W).
(** [{:?}] of a duration, and the text of serde's error. *)
Context (duration_debug : Z → string) (decode_error : Value → string).

Definition http_map_err (e : string) : string := "openEO http: " +:+ e.

Definition Client_new (url : string) (a : OpenEoAuth) : result string Client :=
  match build_http with
  | Err e => Err ("reqwest: " +:+ e)
  | Ok _ => Ok (mkClient (trim_end_slashes url) a)
  end.

Definition request (c : Client) (m : Method) (path : string) (json : option Value) : Request :=
  mkRequest m (backend_url c +:+ path) json (auth_apply (auth c)).

(** The response to a request, or its failure when it is no success. *)
Definition call (r : Request) (failure : Response → string) (w : W) : result string Response * W :=
  match send r w with
  | (Err e, w) => (Err (http_map_err e), w)
  | (Ok resp, w) => (if is_success resp then Ok resp else Err (failure resp), w)
  end.

Definition with_text (what : string) (r : Response) : string :=
  "openEO " +:+ what +:+ " failed: " +:+ rs_status_text r +:+ " " +:+ rs_text r.
Definition with_status (what : string) (r : Response) : string :=
  "openEO " +:+ what +:+ " failed: " +:+ rs_status_text r.

Definition job_id_header (r : Response) : option string :=
  match assoc_get "openeo-identifier" (rs_headers r) with
  | Some v => Some v
  | None => assoc_get "location" (rs_headers r)
  end.

Definition create_job (c : Client) (process_graph : Value) (w : W) : result string string * W :=
  let body := Object [("process", Object [("process_graph", process_graph)]); ("title", JString "orbit-geo")] in
  match call (request c Post "/jobs" (Some body)) (with_text "create_job") w with
  | (Err e, w) => (Err e, w)
  | (Ok r, w) =>
      (match job_id_header r with
       | Some location => Ok (after_last_slash location)
       | None => Err "openEO create_job: missing job id header"
       end, w)
  end.

Definition start_job (c : Client) (job_id : string) (w : W) : result string () * W :=
  match call (request c Post ("/jobs/" +:+ job_id +:+ "/results") None) (with_text "start_job") w with
  | (Err e, w) => (Err e, w)
  | (Ok _, w) => (Ok (), w)
  end.

(** The decoded body, or the failure of its text or of its form. *)
Definition decode {A} (de : Value → option A) (r : Response) : result string A :=
  match rs_json r with
  | Err e => Err (http_map_err e)
  | Ok v => ok_or (de v) (http_map_err (decode_error v))
  end.

Definition get_job (c : Client) (job_id : string) (w : W) : result string JobInfo * W :=
  match call (request c Get ("/jobs/" +:+ job_id) None) (with_status "get_job") w with
  | (Err e, w) => (Err e, w)
  | (Ok r, w) => (decode job_info_of r, w)
  end.

(** The polling loop from its start time on; [None] is the fuel's end. *)
Fixpoint wait_loop (fuel : nat) (c : Client) (job_id : string) (cfg : PollConfig) (start : Z) (w : W)
    : option (result string JobInfo * W) :=
  match fuel with
  | O => None
  | S fuel =>
      match get_job c job_id w with
      | (Err e, w) => Some (Err e, w)
      | (Ok info, w) =>
          if is_terminal (ji_status info) then Some (Ok info, w)
          else if timeout cfg <? now w - start then
            Some (Err ("openEO job " +:+ job_id +:+ " did not complete within "
                        +:+ duration_debug (timeout cfg)), w)
          else wait_loop fuel c job_id cfg start (sleep (interval cfg) w)
      end
  end.

Definition wait_for_completion (fuel : nat) (c : Client) (job_id : string) (cfg : PollConfig) (w : W)
    : option (result string JobInfo * W) := wait_loop fuel c job_id cfg (now w) w.

Definition get_results (c : Client) (job_id : string) (w : W) : result string (list string) * W :=
  match call (request c Get ("/jobs/" +:+ job_id +:+ "/results") None) (with_status "get_results") w with
  | (Err e, w) => (Err e, w)
  | (Ok r, w) => (match decode results_of r with
       | Err e => Err e
       | Ok assets => Ok (List.map (λ e, a_href e.2) assets)
       end, w)
  end.

Definition delete_job (c : Client) (job_id : string) (w : W) : result string () * W :=
  match send (request c Delete ("/jobs/" +:+ job_id) None) w with
  | (Err e, w) => (Err (http_map_err e), w)
  | (Ok r, w) =>
      (if negb (is_success r) && negb (rs_status r =? 404) then Err (with_status "delete_job" r) else Ok (), w)
  end.

Definition asset_path (asset_url cache_dir : string) : string :=
  cache_dir +:+ "/" +:+ hash_prefix asset_url +:+ "_" +:+ default "asset.bin" (url_file_name asset_url).

Definition download_asset (c : Client) (asset_url cache_dir : string) (w : W) : result string string * W :=
  match create_dir_all cache_dir w with
  | (Err e, w) => (Err ("io: " +:+ e), w)
  | (Ok _, w) =>
      let out_path := asset_path asset_url cache_dir in
      if file_exists out_path w then (Ok out_path, w)
      else
        match call (mkRequest Get asset_url None (auth_apply (auth c)))
                (λ r, "openEO asset download failed for " +:+ asset_url +:+ ": " +:+ rs_status_text r) w with
        | (Err e, w) => (Err e, w)
        | (Ok r, w) =>
            let tmp := with_extension "part" out_path in
            match rs_bytes r with
            | Err e => (Err (http_map_err e), w)
            | Ok bytes =>
                match write_file tmp bytes w with
                | (Err e, w) => (Err ("io: " +:+ e), w)
                | (Ok _, w) =>
                    match rename tmp out_path w with
                    | (Err e, w) => (Err ("io: " +:+ e), w)
                    | (Ok _, w) => (Ok out_path, w)
                    end
                end
            end
        end
  end.

Fixpoint download_all (c : Client) (urls : list string) (cache_dir : string) (w : W)
    : result string (list string) * W :=
  match urls with
  | [] => (Ok [], w)
  | url :: urls =>
      match download_asset c url cache_dir w with
      | (Err e, w) => (Err e, w)
      | (Ok p, w) =>
          match download_all c urls cache_dir w with
          | (Err e, w) => (Err e, w)
          | (Ok ps, w) => (Ok (p :: ps), w)
          end
      end
  end.

(** The results of a finished job, sorted; the failure of the clean-up is ignored. *)
Definition download_results (c : Client) (job_id cache_dir : string) (w : W)
    : result string (list string) * W :=
  match get_results c job_id w with
  | (Err e, w) => (Err e, w)
  | (Ok urls, w) =>
      match download_all c urls cache_dir w with
      | (Err e, w) => (Err e, w)
      | (Ok paths, w) => (Ok (merge_sort string_le paths), (delete_job c job_id w).2)
      end
  end.

Definition submit_and_download (fuel : nat) (url : string) (process_graph : Value) (a : OpenEoAuth)
    (cache_dir : string) (poll : PollConfig) (w : W) : option (result string (list string) * W) :=
  match Client_new url a with
  | Err e => Some (Err e, w)
  | Ok c =>
      match create_job c process_graph w with
      | (Err e, w) => Some (Err e, w)
      | (Ok job_id, w) =>
          match start_job c job_id w with
          | (Err e, w) => Some (Err e, w)
          | (Ok _, w) =>
              '(r, w) ← wait_for_completion fuel c job_id poll w;
              Some match r with
              | Err e => (Err e, w)
              | Ok info =>
                  match ji_status info with
                  | Finished => download_results c job_id cache_dir w
                  | other => (Err ("openEO job " +:+ job_id +:+ " ended in non-Finished state: "
                                    +:+ status_debug other), w)
                  end
              end
          end
      end
  end.

(** ** The polling ends *)

(** Requests take no negative time, and sleeping takes at least the time asked for. *)
Class ClockLaws : Prop := {
  send_time r w : now w ≤ now (send r w).2;
  sleep_time d w : now w + d ≤ now (sleep d w) }.

Lemma get_job_time `{ClockLaws} c id w : now w ≤ now (get_job c id w).2.
Proof.
  unfold get_job, call. pose proof (send_time (request c Get ("/jobs/" +:+ id) None) w) as Ht.
  destruct (send _ w) as [[r|e] w1]; simpl in *; [|done]. by destruct (is_success r).
Qed.

Lemma wait_loop_ends `{ClockLaws} c id cfg start : 0 < interval cfg → 0 ≤ timeout cfg → ∀ fuel w,
  timeout cfg - (now w - start) < interval cfg * (Z.of_nat fuel - 1) →
  (1 ≤ fuel)%nat →
  is_Some (wait_loop fuel c id cfg start w).
Proof.
  intros Hi Ht. induction fuel as [|fuel IH]; intros w Hf Hf1; [lia|]. cbn [wait_loop].
  pose proof (get_job_time c id w) as Hg. destruct (get_job c id w) as [[info|e] w1]; [|by eexists].
  simpl in Hg. destruct (is_terminal _); [by eexists|].
  destruct (Z.ltb_spec (timeout cfg) (now w1 - start)); [by eexists|].
  pose proof (sleep_time (interval cfg) w1). destruct fuel as [|fuel]; [lia|]. apply IH; [|lia].
  replace (Z.of_nat (S (S fuel)) - 1) with (Z.of_nat (S fuel) - 1 + 1) in Hf by lia. lia.
Qed.

(** The job's end is awaited with at most timeout / interval + 2 requests. *)
Lemma wait_for_completion_ends `{ClockLaws} c id cfg w fuel :
  0 < interval cfg → 0 ≤ timeout cfg → timeout cfg / interval cfg + 2 < Z.of_nat fuel →
  is_Some (wait_for_completion fuel c id cfg w).
Proof.
  intros Hi Ht Hf. pose proof (Z.div_pos (timeout cfg) (interval cfg) Ht Hi).
  apply wait_loop_ends; [done|done| |lia].
  pose proof (Z.div_mod (timeout cfg) (interval cfg) ltac:(lia)).
  pose proof (Z.mod_pos_bound (timeout cfg) (interval cfg) Hi). nia.
Qed.

(** A terminal state is final: the loop reports what the backend said last. *)
Lemma wait_loop_terminal c id cfg start fuel : ∀ w info w',
  wait_loop fuel c id cfg start w = Some (Ok info, w') → is_terminal (ji_status info) = true.
Proof.
  induction fuel as [|fuel IH]; intros w info w'; cbn [wait_loop]; [done|].
  destruct (get_job c id w) as [[i|e] w1]; [|done].
  destruct (is_terminal (ji_status i)) eqn:E; [by intros [= <- _]|].
  destruct (_ <? _); [done|]. apply IH.
Qed.

(** A download that is in the cache sends nothing. *)
Lemma download_cached c url dir w w1 : create_dir_all dir w = (Ok (), w1) →
  file_exists (asset_path url dir) w1 = true → download_asset c url dir w = (Ok (asset_path url dir), w1).
Proof. intros Hd Hf. unfold download_asset. by rewrite Hd, Hf. Qed.
End client.

Lemma status_name_roundtrip s : status_of (JString (status_name s)) = Some s.
Proof. by destruct s. Qed.

Example location_stripped :
  after_last_slash "https://backend.example/jobs/abc123" = "abc123" ∧
  trim_end_slashes "https://backend.example//" = "https://backend.example" ∧
  with_extension "part" "/cache/0a1b_x.tif" = "/cache/0a1b_x.part".
Proof. by vm_compute. Qed.
