(* ===== verification/Raster.v ===== *)
(** * Block-parallel raster datasets

    crates/orbit-geo: source.rs, builder.rs, dataset.rs, composition.rs, writer.rs
    and processing.rs.  A dataset maps files and bands to the slots of a tensor and
    is cut into blocks; the workers of a thread pool read blocks, compute, and
    write into one file under a lock.  GDAL is a class of operations on opened
    files; the pool runs under a schedule, which picks a thread and a block for
    each step.  A panic is [None]. *)

From S2P Require Import Prelude F64 Text Json Grid OpenEo.
Local Open Scope Z_scope.

(** ** Errors (error.rs) *)

Inductive Error :=
| SourceNotFound (p : string)
| InconsistentMetadata (m : string)
| Worker (m : string)
| Io (m : string)
| Gdal (m : string)
| InvalidBuilder (m : string)
| Other (m : string).

Definition error_text (e : Error) : string :=
  match e with
  | SourceNotFound p => "source not found: " +:+ p
  | InconsistentMetadata m => "inconsistent metadata: " +:+ m
  | Worker m => "worker error: " +:+ m
  | Io m => "io: " +:+ m
  | Gdal m => "gdal: " +:+ m
  | InvalidBuilder m => "invalid builder: " +:+ m
  | Other m => m
  end.

(** ** Sources (source.rs) *)

Inductive DataSource :=
| Files (paths : list string)
| Stac (items_file : string) (resolution : option (f64 * f64))
| OpenEO (backend_url : string) (process_graph : Value) (auth : OpenEoAuth) (cache_dir : string).

Definition local_paths (s : DataSource) : list string :=
  match s with Files paths => paths | Stac _ _ | OpenEO _ _ _ _ => [] end.

(** The first path that is neither one of GDAL's virtual files nor exists. *)
Definition missing_path (path_exists : string → bool) (paths : list string) : option string :=
  find (λ p, negb (starts_with "/vsi" p) && negb (path_exists p)) paths.

Definition validate (path_exists : string → bool) (s : DataSource) : result Error () :=
  match s with
  | Files paths =>
      match missing_path path_exists paths with Some p => Err (SourceNotFound p) | None => Ok () end
  | Stac _ _ => Ok ()
  | OpenEO url _ _ _ =>
      if bool_decide (url = "") then Err (InvalidBuilder "openEO backend_url is empty") else Ok ()
  end.

(** ** Datasets (dataset.rs) *)

(** The file and its 1-based band that fill one slot of the tensor. *)
Record LayerMapping := mkLayerMapping {
  lm_source : string; lm_time_pos : Z; lm_layer_pos : Z; lm_band : Z }.

Record RasterDataset := mkRasterDataset {
  ds_shape : RasterShape; ds_epsg : Z; ds_gt : GeoTransform;
  ds_blocks : list RasterRegion; ds_mappings : list LayerMapping; ds_files : list string }.

Definition num_blocks (d : RasterDataset) : nat := length (ds_blocks d).

Definition block_region (d : RasterDataset) (id : nat) : option RasterRegion := ds_blocks d !! id.

(** The pairs of [iter()]. *)
Definition dataset_iter (d : RasterDataset) : list (nat * RasterRegion) := imap pair (ds_blocks d).

(** [count] is the number of bands of an opened file. *)
Definition layer_mappings_for_scene (count : string → result string Z) (path : string) (time_pos : Z)
    : result Error (list LayerMapping) :=
  n ← map_err (λ e, Other ("open " +:+ path +:+ " for band probe: " +:+ e)) (count path);
  if n =? 0 then Err (InconsistentMetadata (path +:+ " reports zero bands"))
  else Ok ((λ b, mkLayerMapping path time_pos (b - 1) b) <$> seqZ 1 n).

Fixpoint layer_mappings_loop (count : string → result string Z) (expected : option nat) (t : Z)
    (paths : list string) : result Error (list LayerMapping) :=
  match paths with
  | [] => Ok []
  | p :: paths =>
      ms ← layer_mappings_for_scene count p t;
      let n := default (length ms) expected in
      if negb (n =? length ms)%nat then
        Err (InconsistentMetadata ("scene " +:+ p +:+ " has " +:+ pretty (length ms)
               +:+ " bands; expected " +:+ pretty n +:+ " (matching scene 0)"))
      else rest ← layer_mappings_loop count (Some n) (t + 1) paths; Ok (ms ++ rest)
  end.

Definition layer_mappings_for_scenes (count : string → result string Z) (paths : list string)
    : result Error (list LayerMapping) := layer_mappings_loop count None 0 paths.

(** ** The builder (builder.rs) *)

Record Builder := mkBuilder {
  b_source : DataSource; b_block_size : BlockSize; b_overlap : Overlap;
  b_resolution : option (f64 * f64); b_epsg : option Z; b_gt : option GeoTransform;
  b_image_size : option (Z * Z) }.

Definition from_source (s : DataSource) : Builder :=
  mkBuilder s BlockSize_default (Overlap_uniform 0) None None None None.

Definition from_files (paths : list string) : result Error Builder :=
  if bool_decide (paths = []) then Err (InvalidBuilder "file list is empty")
  else Ok (from_source (Files paths)).

(** [band_paths] is the resolver of the caller. *)
Definition from_band_resolver (band_paths : string → list string) (band : string) : result Error Builder :=
  let paths := band_paths band in
  if bool_decide (paths = []) then
    Err (InvalidBuilder ("BandPathResolver returned no paths for band `" +:+ band +:+ "`"))
  else from_files paths.

(** Without files, with or without a template. *)
Definition from_scratch : Builder := from_source (Files []).

Definition block_size (s : BlockSize) (b : Builder) : Builder :=
  mkBuilder (b_source b) s (b_overlap b) (b_resolution b) (b_epsg b) (b_gt b) (b_image_size b).
Definition overlap (o : Overlap) (b : Builder) : Builder :=
  mkBuilder (b_source b) (b_block_size b) o (b_resolution b) (b_epsg b) (b_gt b) (b_image_size b).
Definition resolution (r : f64 * f64) (b : Builder) : Builder :=
  mkBuilder (b_source b) (b_block_size b) (b_overlap b) (Some r) (b_epsg b) (b_gt b) (b_image_size b).
Definition epsg (code : Z) (b : Builder) : Builder :=
  mkBuilder (b_source b) (b_block_size b) (b_overlap b) (b_resolution b) (Some code) (b_gt b) (b_image_size b).
Definition geo_transform (gt : GeoTransform) (b : Builder) : Builder :=
  mkBuilder (b_source b) (b_block_size b) (b_overlap b) (b_resolution b) (b_epsg b) (Some gt) (b_image_size b).
Definition image_size (rows cols : Z) (b : Builder) : Builder :=
  mkBuilder (b_source b) (b_block_size b) (b_overlap b) (b_resolution b) (b_epsg b) (b_gt b) (Some (rows, cols)).
Definition template (d : RasterDataset) (b : Builder) : Builder :=
  image_size (rs_rows (ds_shape d)) (rs_cols (ds_shape d)) (geo_transform (ds_gt d) (epsg (ds_epsg d) b)).

(** The values of a loop variable [x = from; while x < n { ..; x += step }]: [None]
    is a loop that does not end within the fuel.  The sum stays below 2^64, for
    [x] is a multiple of [step] below [n]. *)
Fixpoint offsets (fuel : nat) (step n from : Z) : option (list Z) :=
  if from <? n then
    match fuel with
    | O => None
    | S fuel => rest ← offsets fuel step n (from + step); Some (from :: rest)
    end
  else Some [].

(** The window of the block at [(r, c)] and its own transformation. *)
Definition region_at (shape : RasterShape) (bs : BlockSize) (ov : Overlap) (gt : GeoTransform)
    (epsg index r c : Z) : RasterRegion :=
  let block_rows := Z.min (bs_rows bs) (rs_rows shape - r) in
  let block_cols := Z.min (bs_cols bs) (rs_cols shape - c) in
  mkRasterRegion index
    (mkReadWindow (mkOffset (to_signed 64 r) (to_signed 64 c))
                  (mkSize (to_signed 64 block_rows) (to_signed 64 block_cols)))
    ov
    (mkGeoTransform (f64_add (origin_x gt) (f64_mul (f64_of_Z c) (pixel_width gt))) (pixel_width gt)
       (row_skew gt) (f64_add (origin_y gt) (f64_mul (f64_of_Z r) (pixel_height gt))) (col_skew gt)
       (pixel_height gt))
    epsg.

Definition partition_blocks (shape : RasterShape) (bs : BlockSize) (ov : Overlap) (gt : GeoTransform)
    (epsg : Z) : option (list RasterRegion) :=
  rs ← offsets (Z.to_nat (rs_rows shape)) (bs_rows bs) (rs_rows shape) 0;
  if bool_decide (rs = []) then Some []
  else
    cs ← offsets (Z.to_nat (rs_cols shape)) (bs_cols bs) (rs_cols shape) 0;
    Some (imap (λ i rc, region_at shape bs ov gt epsg (Z.of_nat i) rc.1 rc.2)
            (r ← rs; c ← cs; [(r, c)])).

(** What GDAL tells about an opened file. *)
Record Probe := mkProbe {
  p_cols : Z; p_rows : Z; p_count : Z; p_gt : result string GeoTransform; p_auth_code : option Z }.

Definition inspect_first_file (probe : string → result string Probe) (path : string)
    : result Error (RasterShape * Z * GeoTransform) :=
  p ← map_err Gdal (probe path);
  gt ← map_err Gdal (p_gt p);
  Ok (mkRasterShape 0 (p_count p) (p_rows p) (p_cols p), wrap 32 (default 0 (p_auth_code p)), gt).

(** One file is one time step of layer 0. *)
Definition default_mappings (paths : list string) : list LayerMapping :=
  imap (λ i p, mkLayerMapping p (Z.of_nat i) 0 1) paths.

(** [None]: the loop over the blocks does not end. *)
Definition build (path_exists : string → bool) (probe : string → result string Probe) (b : Builder)
    : option (result Error RasterDataset) :=
  match validate path_exists (b_source b) with
  | Err e => Some (Err e)
  | Ok _ =>
      match local_paths (b_source b) with
      | [] => Some (Err (InvalidBuilder "no local paths to build from"))
      | (first :: _) as paths =>
          match inspect_first_file probe first with
          | Err e => Some (Err e)
          | Ok (shape, epsg_code, gt) =>
              let shape := mkRasterShape (Z.of_nat (length paths)) (rs_layers shape) (rs_rows shape)
                             (rs_cols shape) in
              blocks ← partition_blocks shape (b_block_size b) (b_overlap b) gt epsg_code;
              let final_shape :=
                match b_image_size b with
                | Some (r, c) => mkRasterShape (rs_times shape) (rs_layers shape) r c
                | None => shape
                end in
              Some (Ok (mkRasterDataset final_shape (default epsg_code (b_epsg b)) (default gt (b_gt b))
                          blocks (default_mappings paths) paths))
          end
      end
  end.

(** ** Composition (composition.rs) *)

Definition check_spatial_alignment (a b : RasterDataset) : result Error () :=
  let dims d := pretty (rs_rows (ds_shape d)) +:+ ", " +:+ pretty (rs_cols (ds_shape d)) in
  if negb (rs_rows (ds_shape a) =? rs_rows (ds_shape b)) || negb (rs_cols (ds_shape a) =? rs_cols (ds_shape b))
  then Err (InconsistentMetadata ("spatial extent mismatch: a=(" +:+ dims a +:+ "), b=(" +:+ dims b +:+ ")"))
  else if negb (ds_epsg a =? ds_epsg b) then
    Err (InconsistentMetadata ("EPSG mismatch: a=" +:+ pretty (ds_epsg a) +:+ ", b=" +:+ pretty (ds_epsg b)))
  else Ok ().

(** The datasets joined with the given shape, the mappings of the second moved. *)
Definition joined_dataset (a b : RasterDataset) (shape : RasterShape) (move : LayerMapping → LayerMapping)
    : RasterDataset :=
  mkRasterDataset shape (ds_epsg a) (ds_gt a) (ds_blocks a)
    (ds_mappings a ++ (move <$> ds_mappings b)) (ds_files a ++ ds_files b).

(** Along the time axis. *)
Definition extend (a b : RasterDataset) : result Error RasterDataset :=
  let sa := ds_shape a in let sb := ds_shape b in
  _ ← check_spatial_alignment a b;
  if negb (rs_layers sa =? rs_layers sb) then
    Err (InconsistentMetadata ("extend: layer mismatch a=" +:+ pretty (rs_layers sa) +:+ " b="
           +:+ pretty (rs_layers sb)))
  else Ok (joined_dataset a b
             (mkRasterShape (rs_times sa + rs_times sb) (rs_layers sa) (rs_rows sa) (rs_cols sa))
             (λ m, mkLayerMapping (lm_source m) (lm_time_pos m + rs_times sa) (lm_layer_pos m) (lm_band m))).

(** Along the layer axis. *)
Definition stack (a b : RasterDataset) : result Error RasterDataset :=
  let sa := ds_shape a in let sb := ds_shape b in
  _ ← check_spatial_alignment a b;
  if negb (rs_times sa =? rs_times sb) then
    Err (InconsistentMetadata ("stack: time mismatch a=" +:+ pretty (rs_times sa) +:+ " b="
           +:+ pretty (rs_times sb)))
  else Ok (joined_dataset a b
             (mkRasterShape (rs_times sa) (rs_layers sa + rs_layers sb) (rs_rows sa) (rs_cols sa))
             (λ m, mkLayerMapping (lm_source m) (lm_time_pos m) (lm_layer_pos m + rs_layers sa) (lm_band m))).

(** ** Partitions *)

(** The rows (or columns) at which blocks start. *)
Lemma offsets_spec step n : 0 < step → 0 ≤ n →
  ∃ m, div_ceil n step = Some m ∧ offsets (Z.to_nat n) step n 0 = Some ((λ i, i * step) <$> seqZ 0 m).
Proof.
  intros Hs Hn. destruct (div_ceil_Some n step Hs) as [m Hm]. exists m. split; [done|].
  pose proof (div_ceil_spec n step m Hn Hs Hm) as [Hm0 Hb].
  assert (∀ fuel i, 0 ≤ i ≤ m → n - i * step ≤ Z.of_nat fuel →
    offsets fuel step n (i * step) = Some ((λ i, i * step) <$> seqZ i (m - i))) as H.
  { induction fuel as [|fuel IH]; intros i Hi Hf; simpl.
    - destruct (Z.ltb_spec (i * step) n); [lia|].
      assert (i = m) as -> by nia. rewrite Z.sub_diag. done.
    - destruct (Z.ltb_spec (i * step) n) as [Hlt|Hge].
      + assert (i < m) by nia. replace (i * step + step) with ((i + 1) * step) by lia.
        rewrite IH by lia. simpl. rewrite (seqZ_cons i (m - i)) by lia.
        replace (Z.pred (m - i)) with (m - (i + 1)) by lia. done.
      + assert (i = m) as -> by nia. by rewrite Z.sub_diag. }
  specialize (H (Z.to_nat n) 0 ltac:(lia) ltac:(lia)). rewrite Z.sub_0_r in H. exact H.
Qed.

(** A step of zero never ends. *)
Lemma offsets_zero_step n fuel : 0 < n → offsets fuel 0 n 0 = None.
Proof.
  intros Hn. induction fuel as [|fuel IH]; simpl; rewrite (proj2 (Z.ltb_lt _ _) Hn); [done|].
  change (0 + 0) with 0. by rewrite IH.
Qed.

Definition shape_grid (s : RasterShape) : GridShape := mkGridShape (rs_rows s) (rs_cols s).

Lemma bind_list_fmap {A B C} (f : A → B) (g : B → list C) l : (f <$> l) ≫= g = l ≫= g ∘ f.
Proof. induction l as [|x l IH]; [done|]. rewrite fmap_cons, !bind_cons. by rewrite IH. Qed.

Lemma fmap_grid {A B} (G : Z → Z → A) (h : A → B) l1 l2 :
  h <$> (l1 ≫= λ i, l2 ≫= λ j, [G i j]) = l1 ≫= λ i, l2 ≫= λ j, [h (G i j)].
Proof.
  induction l1 as [|i l1 IH]; [done|]. rewrite !bind_cons, fmap_app, IH. f_equal. clear.
  induction l2 as [|j l2 IH]; [done|]. rewrite !bind_cons, fmap_app. by rewrite IH.
Qed.

Lemma grid_map {B} (F : Z * Z → B) (G : Z → Z → B) (f1 f2 : Z → Z) l1 l2 :
  (∀ i j, F (f1 i, f2 j) = G i j) →
  F <$> ((f1 <$> l1) ≫= λ r, (f2 <$> l2) ≫= λ c, [(r, c)]) = l1 ≫= λ i, l2 ≫= λ j, [G i j].
Proof.
  intros HF. rewrite bind_list_fmap. induction l1 as [|i l1 IH]; [done|].
  rewrite !bind_cons, fmap_app. f_equal; [|exact IH]. clear IH. simpl. rewrite bind_list_fmap.
  induction l2 as [|j l2 IH]; [done|]. rewrite !bind_cons, fmap_app, IH. simpl. by rewrite HF.
Qed.

(** The windows of the partition are those of the kernel's grid, in its order. *)
Lemma partition_windows shape bs ov gt epsg : grid_ok (shape_grid shape) bs →
  ∃ regions grid, partition_blocks shape bs ov gt epsg = Some regions ∧
    enumerate_blocks false (shape_grid shape) bs = Some grid ∧
    rr_read_window <$> regions = snd <$> grid ∧ Forall (λ r, rr_overlap r = ov) regions.
Proof.
  intros [Hr Hc Hb1 Hb2]. cbn [shape_grid gs_rows gs_cols] in *. unfold in_u in *.
  destruct (offsets_spec _ _ Hb1 (proj1 Hr)) as (m1 & Hm1 & E1).
  destruct (offsets_spec _ _ Hb2 (proj1 Hc)) as (m2 & Hm2 & E2).
  unfold partition_blocks, enumerate_blocks. cbn [shape_grid gs_rows gs_cols].
  rewrite E1, Hm1, Hm2. cbn [mbind option_bind andb].
  case_bool_decide as Hnil.
  { eexists [], _. split; [done|]. split; [done|]. apply fmap_nil_inv in Hnil as ->. by split. }
  rewrite E2. cbn [mbind option_bind]. eexists _, _. split; [done|]. split; [done|]. split.
  - rewrite fmap_imap.
    assert (∀ (f : nat → Z * Z → ReadWindow) (g : Z * Z → ReadWindow) l, (∀ i x, f i x = g x) →
      imap f l = g <$> l) as Himap.
    { intros f g l. revert f. induction l as [|x l IH]; intros f Hf; [done|].
      rewrite imap_cons, Hf, fmap_cons. f_equal. apply IH. intros; apply Hf. }
    rewrite (Himap _ (λ rc, mkReadWindow (mkOffset (to_signed 64 rc.1) (to_signed 64 rc.2))
      (mkSize (to_signed 64 (Z.min (bs_rows bs) (rs_rows shape - rc.1)))
              (to_signed 64 (Z.min (bs_cols bs) (rs_cols shape - rc.2)))))) by done.
    rewrite (grid_map _ (λ br bc, (block_at (mkGridShape (rs_rows shape) (rs_cols shape)) bs br bc).2)) by done.
    by rewrite fmap_grid.
  - apply Forall_forall. intros r (k & rc & Hr' & _)%elem_of_lookup_imap. by rewrite Hr'.
Qed.

(** The partition tiles the raster: distinct, non-empty windows inside of it, and each
    pixel in exactly one of them. *)
Lemma partition_tiles shape bs ov gt epsg : grid_ok (shape_grid shape) bs →
  ∃ regions, partition_blocks shape bs ov gt epsg = Some regions ∧
    Forall (λ r, rr_overlap r = ov) regions ∧ NoDup (rr_read_window <$> regions) ∧
    (∀ w, w ∈ rr_read_window <$> regions →
       0 ≤ off_rows (rw_offset w) ∧ 0 < sz_rows (rw_size w) ∧
       off_rows (rw_offset w) + sz_rows (rw_size w) ≤ rs_rows shape ∧
       0 ≤ off_cols (rw_offset w) ∧ 0 < sz_cols (rw_size w) ∧
       off_cols (rw_offset w) + sz_cols (rw_size w) ≤ rs_cols shape) ∧
    (∀ r c, 0 ≤ r < rs_rows shape → 0 ≤ c < rs_cols shape →
       ∃ w, w ∈ rr_read_window <$> regions ∧ in_window r c w) ∧
    (∀ w w' r c, w ∈ rr_read_window <$> regions → w' ∈ rr_read_window <$> regions →
       in_window r c w → in_window r c w' → w = w').
Proof.
  intros Hok. destruct (partition_windows _ _ ov gt epsg Hok) as (regions & grid & E & Eg & Ew & Hov).
  exists regions. rewrite Ew. split; [done|]. split; [done|]. clear E Ew Hov.
  destruct (enumerate_blocks_total _ _ Hok) as (nr & nc & Hnr & Hnc & Eg').
  rewrite Eg in Eg'. injection Eg' as ->.
  pose proof (nr_spec _ _ _ Hok Hnr) as Hm1. pose proof (nc_spec _ _ _ Hok Hnc) as Hm2.
  assert (∀ w, w ∈ snd <$> grid_list (shape_grid shape) bs nr nc ↔ ∃ br bc, 0 ≤ br < nr ∧ 0 ≤ bc < nc ∧
    w = (block_at (shape_grid shape) bs br bc).2) as Hin.
  { intros w. rewrite list_elem_of_fmap. split.
    - intros (e & -> & (br & bc & ? & ? & ->)%elem_of_grid). eauto.
    - intros (br & bc & ? & ? & ->). eexists. split; [done|]. apply elem_of_grid. eauto. }
  assert (∀ br bc, 0 ≤ br < nr → 0 ≤ bc < nc →
    let w := (block_at (shape_grid shape) bs br bc).2 in
    off_rows (rw_offset w) = br * bs_rows bs ∧
    sz_rows (rw_size w) = Z.min (bs_rows bs) (rs_rows shape - br * bs_rows bs) ∧
    0 < sz_rows (rw_size w) ∧ off_cols (rw_offset w) = bc * bs_cols bs ∧
    sz_cols (rw_size w) = Z.min (bs_cols bs) (rs_cols shape - bc * bs_cols bs) ∧
    0 < sz_cols (rw_size w)) as Hdim.
  { intros br bc Hbr Hbc. destruct Hok as [Hr Hc Hb1 Hb2].
    destruct (axis_block _ _ _ br Hr Hb1 (proj2 Hm1) Hbr) as (E1 & E2 & Hp1).
    destruct (axis_block _ _ _ bc Hc Hb2 (proj2 Hm2) Hbc) as (E3 & E4 & Hp2).
    simpl in *. rewrite E1, E2, E3, E4. split_and!; (done || lia). }
  assert (∀ w w' r c, w ∈ snd <$> grid_list (shape_grid shape) bs nr nc →
    w' ∈ snd <$> grid_list (shape_grid shape) bs nr nc → in_window r c w → in_window r c w' → w = w') as Huniq.
  { intros w w' r c (br & bc & Hbr & Hbc & ->)%Hin (br' & bc' & Hbr' & Hbc' & ->)%Hin Hw Hw'.
    apply (in_window_block_at _ _ nr nc Hok Hnr Hnc) in Hw as [[_ ->] [_ ->]]; [|done..].
    by apply (in_window_block_at _ _ nr nc Hok Hnr Hnc) in Hw' as [[_ ->] [_ ->]]. }
  split_and!; [| | |done].
  - unfold grid_list. rewrite fmap_grid. apply NoDup_bind; [| |apply NoDup_seqZ].
    + intros i i' w Hi Hi' (j & ->%list_elem_of_singleton & Hj)%list_elem_of_bind
        (j' & Ew%list_elem_of_singleton & Hj')%list_elem_of_bind.
      apply elem_of_seqZ in Hi, Hi', Hj, Hj'.
      destruct (Hdim i j) as (E1 & _); [lia..|]. destruct (Hdim i' j') as (E2 & _); [lia..|].
      cbv zeta in E1, E2. rewrite Ew, E2 in E1. destruct Hok as [_ _ Hb1 _]. nia.
    + intros i Hi. apply NoDup_bind; [|intros; apply NoDup_singleton|apply NoDup_seqZ].
      intros j j' w Hj Hj' ->%list_elem_of_singleton Ew%list_elem_of_singleton.
      apply elem_of_seqZ in Hi, Hj, Hj'.
      destruct (Hdim i j) as (_ & _ & _ & E1 & _); [lia..|].
      destruct (Hdim i j') as (_ & _ & _ & E2 & _); [lia..|].
      cbv zeta in E1, E2. rewrite Ew, E2 in E1. destruct Hok as [_ _ _ Hb2]. nia.
  - intros w (br & bc & Hbr & Hbc & ->)%Hin. destruct (Hdim br bc Hbr Hbc) as (-> & -> & ? & -> & -> & ?).
    destruct Hok as [? ? Hb1 Hb2]. simpl in *. split_and!; nia.
  - intros r c Hr Hc. exists (block_at (shape_grid shape) bs (r / bs_rows bs) (c / bs_cols bs)).2.
    destruct Hok as [Hr' Hc' Hb1 Hb2] eqn:EOk.
    pose proof (axis_cell_bound _ _ _ _ Hb1 (proj2 Hm1) Hr) as Hbr.
    pose proof (axis_cell_bound _ _ _ _ Hb2 (proj2 Hm2) Hc) as Hbc. split.
    + apply Hin. eauto 10.
    + apply (in_window_block_at _ _ nr nc Hok Hnr Hnc); [done|done|]. simpl. split; split; (done || lia).
Qed.
