(* ===== verification/Blocks.v ===== *)
(** * Parallel block processing

    crates/orbit-geo/src/processing.rs and writer.rs (and array_ops.rs): reading a
    block through the handles a thread keeps open, the workers, the trimming of
    the overlap, and the writer behind its lock.  GDAL is a class of operations;
    the thread pool is a state that steps under a schedule. *)

From Stdlib Require Import Ascii.
From S2P Require Import Prelude F64 Text Grid OpenEo Raster.
Local Open Scope Z_scope.

(** ** Arrays *)

(** [(layers, rows, cols)] and the elements. *)
Record Array3 (V : Type) := mkArray3 { a_layers : Z; a_rows : Z; a_cols : Z; a_at : Z → Z → Z → V }.
Arguments mkArray3 {V}. Arguments a_layers {V}. Arguments a_rows {V}.
Arguments a_cols {V}. Arguments a_at {V}.

(** A block as a worker sees it; elements by time, layer, row and column. *)
Record DataBlock (R : Type) := mkDataBlock {
  db_shape : RasterShape; db_at : Z → Z → Z → Z → R; db_no_data : R; db_region : RasterRegion }.
Arguments mkDataBlock {R}. Arguments db_shape {R}. Arguments db_at {R}.
Arguments db_no_data {R}. Arguments db_region {R}.

(** [data.slice(s![.., r0..r1, c0..c1])] panics beyond the array; an end before the
    start counts as the start. *)
Definition slice {V} (a : Array3 V) (r0 r1 c0 c1 : Z) : option (Array3 V) :=
  let r1 := Z.max r0 r1 in
  let c1 := Z.max c0 c1 in
  if (r1 <=? a_rows a) && (c1 <=? a_cols a) then
    Some (mkArray3 (a_layers a) (r1 - r0) (c1 - c0) (λ l r c, a_at a l (r0 + r) (c0 + c)))
  else None.

Definition trim_overlap {V} (a : Array3 V) (region : RasterRegion) : option (Array3 V) :=
  let ov := rr_overlap region in
  if Overlap_is_zero ov then Some a
  else slice a (ov_top ov) (sat_sub (a_rows a) (ov_bottom ov)) (ov_left ov) (sat_sub (a_cols a) (ov_right ov)).

(** array_ops.rs *)
Definition trimm_array3 {V} (a : Array3 V) (n : Z) : option (Array3 V) :=
  slice a n (sat_sub (a_rows a) n) n (sat_sub (a_cols a) n).

Definition rect_view {V} (a : Array3 V) (row col h w : Z) : option (Array3 V) :=
  slice a row (row + h) col (col + w).

Definition fill_nodata_simple (a : Array3 f32) (nodata : f32) : Array3 f32 :=
  mkArray3 (a_layers a) (a_rows a) (a_cols a)
    (λ l r c, if is_nan (a_at a l r c) then nodata else a_at a l r c).

(** Index of the first largest element; an empty slice gives 0. *)
Definition argmax {A} (gt : A → A → bool) (xs : list A) : nat :=
  match xs with
  | [] => 0%nat
  | x :: xs =>
      (foldl (λ best ix, if gt ix.2 best.2 then ix else best) (0%nat, x) (imap (λ i y, (S i, y)) xs)).1
  end.

(** composition.rs: one layer of a block, as [(times, rows, cols)]. *)
Definition select_layer {R} (b : DataBlock R) (idx : Z) : option (Array3 R) :=
  if (0 <=? idx) && (idx <? rs_layers (db_shape b)) then
    Some (mkArray3 (rs_times (db_shape b)) (rs_rows (db_shape b)) (rs_cols (db_shape b))
            (λ t r c, db_at b t idx r c))
  else None.

(** ** Reading *)

(** GDAL on input files: opening, and the existence of a band. *)
Class GdalFiles := {
  ghandle : Type;
  gdal_open : string → result string ghandle;
  gdal_rasterband : ghandle → Z → result string () }.

(** The window of a band at an offset (col, row) of a size (cols, rows), as
    elements of one type by row and column. *)
Class GdalIn (R : Type) `{GdalFiles} :=
  gdal_read : ghandle → Z → Z * Z → Z * Z → result string (Z → Z → R).

(** The handles one thread has opened, whatever is read through them. *)
Notation Cache := (gmap string ghandle).

Definition show_pair (p : Z * Z) : string := "(" +:+ pretty p.1 +:+ ", " +:+ pretty p.2 +:+ ")".

Section read.
Context {R : Type} `{GdalIn R} (zero : R).

Definition cached_open (source : string) (cache : Cache) : result Error ghandle * Cache :=
  match cache !! source with
  | Some h => (Ok h, cache)
  | None =>
      match gdal_open source with
      | Err e => (Err (Other ("open " +:+ source +:+ " (cached): " +:+ e)), cache)
      | Ok h => (Ok h, <[source := h]> cache)
      end
  end.

Definition read_handle (h : ghandle) (source : string) (band : Z) (off size : Z * Z)
    : result Error (Z → Z → R) :=
  _ ← map_err (λ e, Other ("rasterband " +:+ pretty band +:+ " of " +:+ source +:+ ": " +:+ e))
    (gdal_rasterband h band);
  map_err (λ e, Other ("read_as " +:+ source +:+ " band " +:+ pretty band +:+ " window=" +:+ show_pair off
                        +:+ " size=" +:+ show_pair size +:+ ": " +:+ e))
    (gdal_read h band off size).

Definition read_window_cached (source : string) (band : Z) (off size : Z * Z) (cache : Cache)
    : result Error (Z → Z → R) * Cache :=
  match cached_open source cache with
  | (Err e, cache) => (Err e, cache)
  | (Ok h, cache) => (read_handle h source band off size, cache)
  end.

Definition Tensor := Z → Z → Z → Z → R.

Definition assign (data : Tensor) (t l : Z) (a : Z → Z → R) : Tensor :=
  λ t' l' r c, if (t' =? t) && (l' =? l) then a r c else data t' l' r c.

(** The read comes before the check of the slot. *)
Fixpoint read_mappings (shape : RasterShape) (off size : Z * Z) (ms : list LayerMapping) (data : Tensor)
    (cache : Cache) : result Error Tensor * Cache :=
  match ms with
  | [] => (Ok data, cache)
  | m :: ms =>
      match read_window_cached (lm_source m) (lm_band m) off size cache with
      | (Err e, cache) => (Err e, cache)
      | (Ok a, cache) =>
          if (rs_times shape <=? lm_time_pos m) || (rs_layers shape <=? lm_layer_pos m) then
            (Err (InconsistentMetadata ("layer_mapping time_pos=" +:+ pretty (lm_time_pos m) +:+ ", layer_pos="
               +:+ pretty (lm_layer_pos m) +:+ " out of bounds for shape times=" +:+ pretty (rs_times shape)
               +:+ ", layers=" +:+ pretty (rs_layers shape))), cache)
          else read_mappings shape off size ms (assign data (lm_time_pos m) (lm_layer_pos m) a) cache
      end
  end.

Definition window_offset (w : ReadWindow) : Z * Z := (off_cols (rw_offset w), off_rows (rw_offset w)).
Definition window_size (w : ReadWindow) : Z * Z := (wrap 64 (sz_cols (rw_size w)), wrap 64 (sz_rows (rw_size w))).

Definition block_shape (shape : RasterShape) (w : ReadWindow) : RasterShape :=
  mkRasterShape (rs_times shape) (rs_layers shape) (window_size w).2 (window_size w).1.

Definition read_block (d : RasterDataset) (region : RasterRegion) (cache : Cache)
    : result Error (DataBlock R) * Cache :=
  let w := rr_read_window region in
  let shape := block_shape (ds_shape d) w in
  match read_mappings shape (window_offset w) (window_size w) (ds_mappings d) (λ _ _ _ _, zero) cache with
  | (Err e, cache) => (Err e, cache)
  | (Ok data, cache) => (Ok (mkDataBlock shape data zero region), cache)
  end.

(** The mappings of one layer only; their slot is the only layer of the block. *)
Fixpoint read_layer_mappings (times : Z) (off size : Z * Z) (ms : list LayerMapping) (data : Tensor)
    (cache : Cache) : result Error Tensor * Cache :=
  match ms with
  | [] => (Ok data, cache)
  | m :: ms =>
      match read_window_cached (lm_source m) (lm_band m) off size cache with
      | (Err e, cache) => (Err e, cache)
      | (Ok a, cache) =>
          if times <=? lm_time_pos m then
            (Err (InconsistentMetadata ("layer_mapping time_pos=" +:+ pretty (lm_time_pos m)
               +:+ " out of bounds for shape.times=" +:+ pretty times)), cache)
          else read_layer_mappings times off size ms (assign data (lm_time_pos m) 0 a) cache
      end
  end.

Definition read_block_layer_idx (d : RasterDataset) (block_id : nat) (layer_idx : Z) (cache : Cache)
    : result Error (DataBlock R) * Cache :=
  let shape := ds_shape d in
  if rs_layers shape <=? layer_idx then
    (Err (InconsistentMetadata ("layer_idx=" +:+ pretty layer_idx +:+ " out of range (dataset has "
            +:+ pretty (rs_layers shape) +:+ " layers)")), cache)
  else
    match ds_blocks d !! block_id with
    | None => (Err (Other ("block_id " +:+ pretty block_id +:+ " out of range")), cache)
    | Some region =>
        let w := rr_read_window region in
        let bshape := mkRasterShape (rs_times shape) 1 (window_size w).2 (window_size w).1 in
        let ms := filter (λ m, lm_layer_pos m = layer_idx) (ds_mappings d) in
        match read_layer_mappings (rs_times shape) (window_offset w) (window_size w) ms
                (λ _ _ _ _, zero) cache with
        | (Err e, cache) => (Err e, cache)
        | (Ok data, cache) => (Ok (mkDataBlock bshape data zero region), cache)
        end
    end.
End read.

(** ** The writer (writer.rs) *)

(** GDAL and the file system on output files; [W] is the state of the files. *)
Class GdalOut (V W : Type) := {
  ods : Type;    (* a file opened for writing *)
  create_dir_all : string → W → result string () * W;
  gtiff_driver : result string ();
  gdal_create : string → Z → Z → Z → W → result string ods * W;    (* cols, rows, bands *)
  set_geo_transform : ods → GeoTransform → result string ods;
  set_spatial_ref : ods → Z → result string ods;    (* by EPSG code *)
  from_epsg : Z → result string ();
  out_rasterband : ods → Z → result string ();
  set_no_data_value : ods → Z → f64 → result string ods;
  gdal_close : ods → W → W;
  open_update : string → W → result string ods * W;
  gdal_write : ods → Z → Z * Z → Z * Z → (Z → Z → V) → result string () * ods;
  gdal_overviews : ods → string → list Z → result string () * ods;
  gdal_pixel : ods → Z → Z → Z → option V }.    (* band, row, col *)

(** A write that succeeds sets the pixels of its window in its band and no other;
    overviews are beside the pixels. *)
Class GdalOutLaws (V W : Type) `{GdalOut V W} : Prop := {
  gdal_write_ok ds b off size data ds' :
    gdal_write ds b off size data = (Ok (), ds') →
    ∀ b' r c, gdal_pixel ds' b' r c =
      if (b' =? b) && (off.2 <=? r) && (r <? off.2 + size.2) && (off.1 <=? c) && (c <? off.1 + size.1)
      then Some (data (r - off.2) (c - off.1)) else gdal_pixel ds b' r c;
  gdal_overviews_pixel ds s ls r ds' :
    gdal_overviews ds s ls = (r, ds') → ∀ b r c, gdal_pixel ds' b r c = gdal_pixel ds b r c }.

(** [Path::parent] of a path without a trailing slash, empty when it has none. *)
Definition parent (path : string) : string :=
  match rsplit_once "/"%char path with
  | Some ("", _) => "/"
  | Some (p, _) => p
  | None => ""
  end.

Section writer.
Context {V W : Type} `{GdalOut V W} (to_f64 : V → option f64).

Record Writer := mkWriter {
  wr_path : string; wr_rows : Z; wr_cols : Z; wr_bands : Z; wr_dataset : option ods }.

Definition with_dataset (w : Writer) (ds : option ods) : Writer :=
  mkWriter (wr_path w) (wr_rows w) (wr_cols w) (wr_bands w) ds.

Fixpoint set_no_data (ds : ods) (nd : f64) (bands : list Z) : result Error ods :=
  match bands with
  | [] => Ok ds
  | b :: bands =>
      _ ← map_err (λ e, Other ("rasterband " +:+ pretty b +:+ ": " +:+ e)) (out_rasterband ds b);
      ds ← map_err (λ e, Other ("set_no_data_value: " +:+ e)) (set_no_data_value ds b nd);
      set_no_data ds nd bands
  end.

(** Coordinate system, transformation and sentinel of a new file. *)
Definition describe (ds : ods) (gt : GeoTransform) (epsg_code bands : Z) (no_data : V) : result Error ods :=
  ds ← map_err (λ e, Other ("set_geo_transform: " +:+ e)) (set_geo_transform ds gt);
  ds ← (if 0 <? epsg_code then
          _ ← map_err (λ e, Other ("EPSG " +:+ pretty epsg_code +:+ ": " +:+ e)) (from_epsg epsg_code);
          map_err (λ e, Other ("set_spatial_ref: " +:+ e)) (set_spatial_ref ds epsg_code)
        else Ok ds);
  match to_f64 no_data with
  | Some nd => set_no_data ds nd (seqZ 1 bands)
  | None => Ok ds
  end.

(** The file is closed at the end, also when it could not be described. *)
Definition create (path : string) (gt : GeoTransform) (epsg_code rows cols bands : Z) (no_data : V) (w : W)
    : result Error Writer * W :=
  match (if bool_decide (parent path = "") then (Ok (), w) else create_dir_all (parent path) w) with
  | (Err e, w) => (Err (Io e), w)
  | (Ok _, w) =>
      match gtiff_driver with
      | Err e => (Err (Other ("get_driver GTiff: " +:+ e)), w)
      | Ok _ =>
          match gdal_create path cols rows bands w with
          | (Err e, w) => (Err (Other ("create GTiff at " +:+ path +:+ ": " +:+ e)), w)
          | (Ok ds, w) =>
              match describe ds gt epsg_code bands no_data with
              | Err e => (Err e, gdal_close ds w)
              | Ok ds => (Ok (mkWriter path rows cols bands None), gdal_close ds w)
              end
          end
      end
  end.

Definition ensure_open (wr : Writer) (w : W) : result Error ods * Writer * W :=
  match wr_dataset wr with
  | Some ds => (Ok ds, wr, w)
  | None =>
      match open_update (wr_path wr) w with
      | (Err e, w) => (Err (Other ("open_ex " +:+ wr_path wr +:+ ": " +:+ e)), wr, w)
      | (Ok ds, w) => (Ok ds, with_dataset wr (Some ds), w)
      end
  end.

(** One band after the other, as GDAL numbers them. *)
Fixpoint write_bands (ds : ods) (data : Array3 V) (off : Z * Z) (idxs : list Z) : result Error () * ods :=
  match idxs with
  | [] => (Ok (), ds)
  | i :: idxs =>
      match out_rasterband ds (i + 1) with
      | Err e => (Err (Other ("rasterband " +:+ pretty (i + 1) +:+ ": " +:+ e)), ds)
      | Ok _ =>
          match gdal_write ds (i + 1) off (a_cols data, a_rows data) (a_at data i) with
          | (Err e, ds) =>
              (Err (Other ("band " +:+ pretty (i + 1) +:+ " write at (" +:+ pretty off.1 +:+ "," +:+ pretty off.2
                 +:+ ") size (" +:+ pretty (a_cols data) +:+ "," +:+ pretty (a_rows data) +:+ "): " +:+ e)), ds)
          | (Ok _, ds) => write_bands ds data off idxs
          end
      end
  end.

Definition write_block (wr : Writer) (data : Array3 V) (window : ReadWindow) (w : W)
    : result Error () * Writer * W :=
  match ensure_open wr w with
  | (Err e, wr, w) => (Err e, wr, w)
  | (Ok ds, wr, w) =>
      let '(r, ds) := write_bands ds data (window_offset window) (seqZ 0 (a_layers data)) in
      (r, with_dataset wr (Some ds), w)
  end.

Definition build_overviews (wr : Writer) (resampling : string) (levels : list Z) (w : W)
    : result Error () * Writer * W :=
  match ensure_open wr w with
  | (Err e, wr, w) => (Err e, wr, w)
  | (Ok ds, wr, w) =>
      let '(r, ds) := gdal_overviews ds resampling levels in
      (map_err (λ e, Other ("build_overviews: " +:+ e)) r, with_dataset wr (Some ds), w)
  end.

Definition write_window3 (wr : Writer) (data : Array3 V) (row_off col_off : Z) (w : W)
    : result Error () * Writer * W :=
  write_block wr data
    (mkReadWindow (mkOffset row_off col_off) (mkSize (to_signed 64 (a_rows data)) (to_signed 64 (a_cols data)))) w.
End writer.
Arguments Writer V W {_}.

(** ** The pool *)

(** One block's work up to its write: reading, the worker and the trimming, with
    the thread's handles; then the window it is written to. *)
Record Job (V : Type) `{GdalFiles} := mkJob {
  j_compute : Cache → option (result Error (Array3 V)) * Cache;
  j_window : ReadWindow }.
Arguments mkJob {V _}. Arguments j_compute {V _}. Arguments j_window {V _}.

Section pool.
Context {V W : Type} `{GdalFiles, GdalOut V W}.

(** Blocks not begun, blocks computed and not written, each thread's handles, the
    writer behind the lock, the error that ends the loop, and whether a thread has
    panicked. *)
Record Pool := mkPool {
  todo : list (Job V); inflight : list (ReadWindow * Array3 V);
  caches : gmap nat Cache; writer : Writer V W; failure : option Error;
  panicked : bool; world : W }.

(** A scheduling decision: a thread begins a block, a computed block is written
    (and whether its error replaces an earlier one), or a block is given up
    because another one failed. *)
Inductive Choice := Begin (thread i : nat) (replace : bool) | Write (i : nat) (replace : bool) | Skip (i : nat).

Definition remove_nth {A} (i : nat) (l : list A) : list A := take i l ++ drop (S i) l.

Definition fail_with (replace : bool) (e : Error) (old : option Error) : option Error :=
  match old with Some e' => Some (if replace then e else e') | None => Some e end.

Definition begin_job (thread i : nat) (replace : bool) (p : Pool) : option Pool :=
  j ← todo p !! i;
  let '(r, cache) := j_compute j (default ∅ (caches p !! thread)) in
  let todo' := remove_nth i (todo p) in
  let caches' := <[thread := cache]> (caches p) in
  Some match r with
  | None => mkPool todo' (inflight p) caches' (writer p) (failure p) true (world p)
  | Some (Err e) =>
      mkPool todo' (inflight p) caches' (writer p) (fail_with replace e (failure p)) (panicked p) (world p)
  | Some (Ok a) =>
      mkPool todo' (inflight p ++ [(j_window j, a)]) caches' (writer p) (failure p) (panicked p) (world p)
  end.

Definition write_job (i : nat) (replace : bool) (p : Pool) : option Pool :=
  ' (window, a) ← inflight p !! i;
  let '(r, wr, w) := write_block (writer p) a window (world p) in
  Some (mkPool (todo p) (remove_nth i (inflight p)) (caches p) wr
          (match r with Err e => fail_with replace e (failure p) | Ok _ => failure p end) (panicked p) w).

Definition skip_job (i : nat) (p : Pool) : option Pool :=
  _ ← todo p !! i;
  if bool_decide (is_Some (failure p)) || panicked p then
    Some (mkPool (remove_nth i (todo p)) (inflight p) (caches p) (writer p) (failure p) (panicked p) (world p))
  else None.

Definition pool_step (p : Pool) (c : Choice) : option Pool :=
  match c with
  | Begin thread i replace => begin_job thread i replace p
  | Write i replace => write_job i replace p
  | Skip i => skip_job i p
  end.

Fixpoint run_pool (p : Pool) (schedule : list Choice) : option Pool :=
  match schedule with
  | [] => Some p
  | c :: schedule => p ← pool_step p c; run_pool p schedule
  end.

Definition finished (p : Pool) : bool := match todo p, inflight p with [], [] => true | _, _ => false end.

(** What [try_for_each] returns when every block is done with: [None] is a panic. *)
Definition pool_result (p : Pool) : option (result Error ()) :=
  if panicked p then None else Some match failure p with Some e => Err e | None => Ok () end.

Definition new_pool (jobs : list (Job V)) (wr : Writer V W) (w : W) : Pool :=
  mkPool jobs [] ∅ wr None false w.

(** [pool.install(|| blocks.par_iter().try_for_each(..))] under a schedule that
    brings all blocks to their end; [None] otherwise.  [rayon] tells whether the
    pool can be made. *)
Definition try_for_each (rayon : result string ()) (jobs : list (Job V)) (schedule : list Choice)
    (wr : Writer V W) (w : W) : option (option (result Error ()) * Writer V W * W) :=
  match rayon with
  | Err e => Some (Some (Err (Other ("rayon pool: " +:+ e))), wr, w)
  | Ok _ =>
      p ← run_pool (new_pool jobs wr w) schedule;
      if finished p then Some (pool_result p, writer p, world p) else None
  end.

(** The same, then the overviews. *)
Definition run_with_overviews (rayon : result string ()) (jobs : list (Job V)) (schedule : list Choice)
    (wr : Writer V W) (w : W) : option (option (result Error ()) * Writer V W * W) :=
  '(r, wr, w) ← try_for_each rayon jobs schedule wr w;
  match r with
  | Some (Ok _) =>
      let '(r, wr, w) := build_overviews wr "AVERAGE" [2; 4; 8; 16] w in Some (Some r, wr, w)
  | _ => Some (r, wr, w)
  end.
End pool.
Arguments Pool V W {_ _}.

(** ** The methods of a dataset (processing.rs) *)

Section methods.
Context {W : Type} `{GdalFiles}.
Context {R : Type} `{!GdalIn R} (zero : R).

(** The outcome of a worker on a block that was read, trimmed. *)
Definition finish {V} (region : RasterRegion) (out : option (Array3 V))
    : option (result Error (Array3 V)) :=
  a ← out; t ← trim_overlap a region; Some (Ok t).

Definition block_job {V} (d : RasterDataset) (worker : DataBlock R → option (Array3 V))
    (region : RasterRegion) : Job V :=
  mkJob (λ cache,
    match read_block zero d region cache with
    | (Err e, cache) => (Some (Err e), cache)
    | (Ok b, cache) => (finish region (worker b), cache)
    end) (write_window region).

(** One row of values as long as the block is wide; a single value is repeated, and
    another length cannot be assigned: a panic. *)
Definition row_values {V} (cols : Z) (out : list V) : option (Z → option V) :=
  if Z.of_nat (length out) =? cols then Some (λ c, out !! Z.to_nat c)
  else match out with [v] => Some (λ _, Some v) | _ => None end.

(** A worker on the rows of a block, one row (times, layers, cols) after the other. *)
Definition row_worker {V} (vzero : V) (worker : (Z → Z → Z → R) → option (list V)) (b : DataBlock R)
    : option (Array3 V) :=
  let rows := rs_rows (db_shape b) in
  let cols := rs_cols (db_shape b) in
  outs ← mapM (λ r,
    out ← worker (λ t l c, db_at b t l r c); row_values cols out) (seqZ 0 rows);
  Some (mkArray3 1 rows cols (λ _ r c, default vzero (outs !! Z.to_nat r ≫= λ f, f c))).

Section with_mask.
Context {U : Type} `{!GdalIn U} (mask_zero : U).

Definition mask_job {V} (d mask : RasterDataset) (worker : DataBlock R → DataBlock U → option (Array3 V))
    (rs : RasterRegion * RasterRegion) : Job V :=
  mkJob (λ cache,
    match read_block zero d rs.1 cache with
    | (Err e, cache) => (Some (Err e), cache)
    | (Ok b, cache) =>
        match read_block mask_zero mask rs.2 cache with
        | (Err e, cache) => (Some (Err e), cache)
        | (Ok m, cache) => (finish rs.1 (worker b m), cache)
        end
    end) (write_window rs.1).

Definition same_blocks (d mask : RasterDataset) : result Error () :=
  if negb (num_blocks d =? num_blocks mask)%nat then
    Err (InconsistentMetadata ("data has " +:+ pretty (num_blocks d) +:+ " blocks, mask has "
           +:+ pretty (num_blocks mask)))
  else Ok ().

(** The same per row of both blocks. *)
Definition row_mask_worker {V} (vzero : V) (worker : (Z → Z → Z → R) → (Z → Z → Z → U) → option (list V))
    (b : DataBlock R) (m : DataBlock U) : option (Array3 V) :=
  let rows := rs_rows (db_shape b) in
  let cols := rs_cols (db_shape b) in
  outs ← mapM (λ r,
    out ← worker (λ t l c, db_at b t l r c) (λ t l c, db_at m t l r c); row_values cols out) (seqZ 0 rows);
  Some (mkArray3 1 rows cols (λ _ r c, default vzero (outs !! Z.to_nat r ≫= λ f, f c))).
End with_mask.

Section to_writer.
Context {V : Type} `{!GdalOut V W} (rayon : result string ()) (schedule : list Choice).

(** The result of a method, and the writer and the files after it; [None] is a
    schedule that does not finish, and an inner [None] a panic. *)
Definition Outcome : Type := option (option (result Error ()) * Writer V W * W).

Definition failed (e : Error) (wr : Writer V W) (w : W) : Outcome := Some (Some (Err e), wr, w).

Definition apply_reduction_to_writer (d : RasterDataset) (wr : Writer V W)
    (worker : DataBlock R → Dimension → option (Array3 V)) (dim : Dimension) (w : W) : Outcome :=
  run_with_overviews rayon (block_job d (λ b, worker b dim) <$> ds_blocks d) schedule wr w.

Definition apply_reduction_row_pixel_to_writer (vzero : V) (d : RasterDataset) (wr : Writer V W)
    (worker : (Z → Z → Z → R) → option (list V)) (w : W) : Outcome :=
  run_with_overviews rayon (block_job d (row_worker vzero worker) <$> ds_blocks d) schedule wr w.

Context {U : Type} `{!GdalIn U} (mask_zero : U).

Definition masked_to_writer (d mask : RasterDataset) (wr : Writer V W)
    (worker : DataBlock R → DataBlock U → option (Array3 V)) (w : W) : Outcome :=
  match same_blocks d mask with
  | Err e => failed e wr w
  | Ok _ =>
      run_with_overviews rayon (mask_job mask_zero d mask worker <$> zip (ds_blocks d) (ds_blocks mask))
        schedule wr w
  end.

Definition apply_reduction_with_mask_to_writer (d mask : RasterDataset) (wr : Writer V W)
    (worker : DataBlock R → DataBlock U → Dimension → option (Array3 V)) (dim : Dimension) (w : W) : Outcome :=
  masked_to_writer d mask wr (λ b m, worker b m dim) w.

Definition apply_with_mask_to_writer (d mask : RasterDataset) (wr : Writer V W)
    (worker : DataBlock R → DataBlock U → option (Array3 V)) (w : W) : Outcome :=
  masked_to_writer d mask wr worker w.

Definition apply_reduction_row_pixel_with_mask_to_writer (vzero : V) (d mask : RasterDataset)
    (wr : Writer V W) (worker : (Z → Z → Z → R) → (Z → Z → Z → U) → option (list V)) (w : W) : Outcome :=
  masked_to_writer d mask wr (row_mask_worker vzero worker) w.

End to_writer.

(** The number of bands, from the worker's result on the first block; [cache] holds
    the handles of the calling thread. *)
Definition probe_output_layers {V} (d : RasterDataset) (worker : DataBlock R → option (Array3 V))
    (cache : Cache) : option (result Error Z) * Cache :=
  match head (ds_blocks d) with
  | None => (Some (Err (Other "dataset has no blocks")), cache)
  | Some region =>
      match read_block zero d region cache with
      | (Err e, cache) => (Some (Err e), cache)
      | (Ok b, cache) => (out ← worker b; Some (Ok (a_layers out)), cache)
      end
  end.

Definition probe_output_layers_with_mask {U} `{!GdalIn U} (mask_zero : U) {V} (d mask : RasterDataset)
    (worker : DataBlock R → DataBlock U → option (Array3 V)) (cache : Cache)
    : option (result Error Z) * Cache :=
  match head (ds_blocks d), head (ds_blocks mask) with
  | None, _ => (Some (Err (Other "dataset has no blocks")), cache)
  | _, None => (Some (Err (Other "mask has no blocks")), cache)
  | Some region, Some mask_region =>
      match read_block zero d region cache with
      | (Err e, cache) => (Some (Err e), cache)
      | (Ok b, cache) =>
          match read_block mask_zero mask mask_region cache with
          | (Err e, cache) => (Some (Err e), cache)
          | (Ok m, cache) => (out ← worker b m; Some (Ok (a_layers out)), cache)
          end
      end
  end.

End methods.

(** ** Writing to a path *)

(** Input files in a state of the file system: creating the output comes before the
    blocks are read, so that reading sees the files as they are then. *)
Class Storage (W : Type) := {
  handle : Type;
  open_file : W → string → result string handle;
  raster_band : W → handle → Z → result string () }.

Definition files_at `{Storage W} (w : W) : GdalFiles :=
  {| ghandle := handle; gdal_open := open_file w; gdal_rasterband := raster_band w |}.

Class ReadAt (R W : Type) `{Storage W} := read_at (w : W) : @GdalIn R (files_at w).

Section paths.
Context {W : Type} `{Storage W} {R U V : Type} `{!ReadAt R W, !ReadAt U W, !GdalOut V W}.
Context (zero : R) (mask_zero : U) (vzero : V) (to_f64 : V → option f64).
Context (rayon : result string ()) (schedule : list Choice).

(** The outcome of a method on a path: the writer is gone at its end. *)
Definition PathOutcome : Type := option (option (result Error ()) * W).

Definition close_writer (wr : Writer V W) (w : W) : W :=
  match wr_dataset wr with Some ds => gdal_close ds w | None => w end.

Definition into_path (d : RasterDataset) (out : string) (bands : Z) (na_value : V)
    (method : Writer V W → W → Outcome) (w : W) : PathOutcome :=
  match create to_f64 out (ds_gt d) (ds_epsg d) (rs_rows (ds_shape d)) (rs_cols (ds_shape d)) bands
          na_value w with
  | (Err e, w) => Some (Some (Err e), w)
  | (Ok wr, w) => '(r, wr, w) ← method wr w; Some (r, close_writer wr w)
  end.

(** [cache] holds the handles of the calling thread. *)
Definition apply (d : RasterDataset) (worker : DataBlock R → option (Array3 V)) (out : string)
    (cache : gmap string handle) (w : W) : PathOutcome :=
  match (@probe_output_layers (files_at w) R (read_at w) zero V d worker cache).1 with
  | None => Some (None, w)
  | Some (Err e) => Some (Some (Err e), w)
  | Some (Ok n_bands) =>
      into_path d out n_bands vzero (λ wr w,
        try_for_each rayon (@block_job (files_at w) R (read_at w) zero V d worker <$> ds_blocks d)
          schedule wr w) w
  end.

Definition apply_reduction (d : RasterDataset) (worker : DataBlock R → Dimension → option (Array3 V))
    (dim : Dimension) (out : string) (na_value : V) (w : W) : PathOutcome :=
  into_path d out 1 na_value (λ wr w,
    @apply_reduction_to_writer W (files_at w) R (read_at w) zero V _ rayon schedule d wr worker dim w) w.

Definition apply_reduction_with_mask (d mask : RasterDataset)
    (worker : DataBlock R → DataBlock U → Dimension → option (Array3 V)) (dim : Dimension) (out : string)
    (na_value : V) (w : W) : PathOutcome :=
  into_path d out 1 na_value (λ wr w,
    @apply_reduction_with_mask_to_writer W (files_at w) R (read_at w) zero V _ rayon schedule U (read_at w)
      mask_zero d mask wr worker dim w) w.

Definition apply_with_mask (d mask : RasterDataset) (worker : DataBlock R → DataBlock U → option (Array3 V))
    (out : string) (cache : gmap string handle) (w : W) : PathOutcome :=
  match (@probe_output_layers_with_mask (files_at w) R (read_at w) zero U (read_at w) mask_zero V
           d mask worker cache).1 with
  | None => Some (None, w)
  | Some (Err e) => Some (Some (Err e), w)
  | Some (Ok n_bands) =>
      into_path d out n_bands vzero (λ wr w,
        @apply_with_mask_to_writer W (files_at w) R (read_at w) zero V _ rayon schedule U (read_at w)
          mask_zero d mask wr worker w) w
  end.

(** ** Cloud-optimised output: a temporary file, converted at the end *)

Context (tempfile : W → result string string * W) (remove_file : string → W → W).
Context (convert_to_cog : string → string → W → result Error () * W).

(** The temporary path is removed when the method ends, however it ends. *)
Definition via_cog (out : string) (method : string → W → PathOutcome) (w : W) : PathOutcome :=
  match tempfile w with
  | (Err e, w) => Some (Some (Err (Other ("tempfile create: " +:+ e))), w)
  | (Ok tmp, w) =>
      let w := remove_file tmp w in
      '(r, w) ← method tmp w;
      match r with
      | Some (Ok _) => let '(r, w) := convert_to_cog tmp out w in Some (Some r, remove_file tmp w)
      | _ => Some (r, remove_file tmp w)
      end
  end.

Definition apply_cog (d : RasterDataset) (worker : DataBlock R → option (Array3 V)) (out : string)
    (cache : gmap string handle) (w : W) : PathOutcome :=
  via_cog out (λ tmp, apply d worker tmp cache) w.

Definition apply_with_mask_cog (d mask : RasterDataset)
    (worker : DataBlock R → DataBlock U → option (Array3 V)) (out : string) (cache : gmap string handle) (w : W)
    : PathOutcome :=
  via_cog out (λ tmp, apply_with_mask d mask worker tmp cache) w.

Definition apply_reduction_with_mask_cog (d mask : RasterDataset)
    (worker : DataBlock R → DataBlock U → Dimension → option (Array3 V)) (dim : Dimension) (out : string)
    (na_value : V) (w : W) : PathOutcome :=
  via_cog out (λ tmp, apply_reduction_with_mask d mask worker dim tmp na_value) w.
End paths.

(** ** Runs of the pool *)

Lemma remove_nth_perm {A} (l : list A) i x : l !! i = Some x → l ≡ₚ x :: remove_nth i l.
Proof.
  intros Hi. unfold remove_nth. rewrite <- (take_drop_middle l i x Hi) at 1.
  by rewrite Permutation_middle.
Qed.

Lemma remove_nth_length {A} (l : list A) i x : l !! i = Some x → length l = S (length (remove_nth i l)).
Proof. intros Hi. by rewrite (remove_nth_perm l i x Hi) at 1. Qed.

Lemma remove_nth_fmap {A B} (f : A → B) (l : list A) i : remove_nth i (f <$> l) = f <$> remove_nth i l.
Proof. unfold remove_nth. by rewrite fmap_app, fmap_take, fmap_drop. Qed.

Section runs.
Context {V W : Type} `{GdalFiles, GdalOutLaws V W}.
Implicit Types (p : Pool V W) (j : Job V) (a : Array3 V).

(** Every step brings the pool nearer to its end, and it is never stuck before. *)
Definition work_left p : nat := (2 * length (todo p) + length (inflight p))%nat.

Lemma pool_step_work p c p' : pool_step p c = Some p' → (work_left p' < work_left p)%nat.
Proof.
  unfold work_left. destruct c as [t i re|i re|i]; simpl.
  - unfold begin_job. destruct (todo p !! i) as [j|] eqn:Hi; [|done]. simpl.
    apply remove_nth_length in Hi as Hl.
    destruct (j_compute j _) as [[[a|e]|] cache]; intros [= <-]; simpl; rewrite ?length_app; simpl; lia.
  - unfold write_job. destruct (inflight p !! i) as [[w a]|] eqn:Hi; [|done]. simpl.
    apply remove_nth_length in Hi as Hl.
    destruct (write_block _ _ _ _) as [[r wr] w']. intros [= <-]. simpl. lia.
  - unfold skip_job. destruct (todo p !! i) as [j|] eqn:Hi; [|done]. simpl.
    apply remove_nth_length in Hi as Hl. destruct (_ || _); [|done]. intros [= <-]. simpl. lia.
Qed.

Lemma pool_not_stuck p : finished p = false → ∃ c p', pool_step p c = Some p'.
Proof.
  unfold finished. intros Hf. destruct (todo p) as [|j l] eqn:Ht.
  - destruct (inflight p) as [|[w a] l] eqn:Hi; [done|]. exists (Write 0 false). simpl.
    unfold write_job. rewrite Hi. simpl. destruct (write_block _ _ _ _) as [[r wr] w']. by eexists.
  - exists (Begin 0 0 false). simpl. unfold begin_job. rewrite Ht. simpl.
    destruct (j_compute j _) as [r cache]. by eexists.
Qed.

Lemma pool_finishes p : ∃ schedule p', run_pool p schedule = Some p' ∧ finished p' = true.
Proof.
  remember (work_left p) as n eqn:Hn. revert p Hn.
  induction (lt_wf n) as [n _ IH]. intros p ->. destruct (finished p) eqn:Hf; [by exists [], p|].
  destruct (pool_not_stuck p Hf) as (c & p1 & Hc).
  destruct (IH _ (pool_step_work _ _ _ Hc) p1 eq_refl) as (s & p2 & Hs & Hp2).
  exists (c :: s), p2. simpl. by rewrite Hc.
Qed.

(** The area an array covers when it is written at a window. *)
Definition covers (w : ReadWindow) a (r c : Z) : Prop :=
  off_rows (rw_offset w) ≤ r < off_rows (rw_offset w) + a_rows a ∧
  off_cols (rw_offset w) ≤ c < off_cols (rw_offset w) + a_cols a.

(** The opened output holds the array at the window. *)
Definition holds (wr : Writer V W) (w : ReadWindow) a : Prop :=
  ∃ ds, wr_dataset wr = Some ds ∧ ∀ l r c, 0 ≤ l < a_layers a → covers w a r c →
    gdal_pixel ds (l + 1) r c = Some (a_at a l (r - off_rows (rw_offset w)) (c - off_cols (rw_offset w))).

Lemma write_bands_ok ds a off idxs ds' :
  write_bands ds a off idxs = (Ok (), ds') →
  ∀ b r c, gdal_pixel ds' b r c =
    if decide (b - 1 ∈ idxs ∧ off.2 ≤ r < off.2 + a_rows a ∧ off.1 ≤ c < off.1 + a_cols a)
    then Some (a_at a (b - 1) (r - off.2) (c - off.1)) else gdal_pixel ds b r c.
Proof.
  revert ds. induction idxs as [|i idxs IH]; intros ds; cbn [write_bands].
  { intros [= ->] b r c. rewrite decide_False; [done|]. by intros [?%not_elem_of_nil _]. }
  destruct (out_rasterband ds (i + 1)) as [[]|e]; [|done].
  destruct (gdal_write _ _ _ _ _) as [[[]|e] ds1] eqn:Hw; [|done].
  intros Hb b r c. rewrite (IH _ Hb). pose proof (gdal_write_ok _ _ _ _ _ _ Hw b r c) as ->. simpl.
  destruct (decide (b - 1 ∈ idxs ∧ _)) as [[Hin Hr]|Hn].
  - rewrite decide_True; [done|]. split; [by right|done].
  - destruct (Z.eqb_spec b (i + 1)) as [->|Hne]; simpl.
    + replace (i + 1 - 1) with i in * by lia.
      destruct ((off.2 <=? r) && (r <? off.2 + a_rows a) && (off.1 <=? c) && (c <? off.1 + a_cols a)) eqn:E.
      * rewrite decide_True; [done|]. split; [by left|lia].
      * rewrite decide_False; [done|]. intros [_ ?]. lia.
    + rewrite decide_False; [done|]. intros [[?|?]%elem_of_cons Hr]; [lia|]. by apply Hn.
Qed.

Lemma write_block_ok wr a win w wr' w' : write_block wr a win w = (Ok (), wr', w') →
  holds wr' win a ∧
  ∀ win' a', (∀ r c, covers win a r c → covers win' a' r c → False) → holds wr win' a' → holds wr' win' a'.
Proof.
  unfold write_block, ensure_open.
  assert (∀ ds w1, (let '(r, ds) := write_bands ds a (window_offset win) (seqZ 0 (a_layers a)) in
     (r, with_dataset wr (Some ds), w1)) = (Ok (), wr', w') →
     holds wr' win a ∧ ∀ win' a', (∀ r c, covers win a r c → covers win' a' r c → False) →
       (∀ l r c, 0 ≤ l < a_layers a' → covers win' a' r c → gdal_pixel ds (l + 1) r c =
          Some (a_at a' l (r - off_rows (rw_offset win')) (c - off_cols (rw_offset win')))) →
       holds wr' win' a') as Hmain.
  { intros ds w1. destruct (write_bands _ _ _ _) as [r ds1] eqn:Hb. intros [= -> <- <-].
    pose proof (write_bands_ok _ _ _ _ _ Hb) as Hpx. simpl in Hpx. split.
    - exists ds1. split; [done|]. intros l r c Hl [Hr Hc]. rewrite Hpx, decide_True.
      + by replace (l + 1 - 1) with l by lia.
      + split; [|done]. apply elem_of_seqZ. lia.
    - intros win' a' Hdis Hold. exists ds1. split; [done|]. intros l r c Hl Hc.
      rewrite Hpx, decide_False; [by apply Hold|]. intros [_ Hr]. by apply (Hdis r c). }
  destruct (wr_dataset wr) as [ds|] eqn:Hds.
  - intros Hrun. apply Hmain in Hrun as [? Hk]. split; [done|].
    intros win' a' Hd (ds0 & E & Hp). rewrite Hds in E. injection E as <-. by apply Hk.
  - destruct (open_update _ _) as [[ds|e] w1]; [|done]. intros Hrun.
    assert (∀ x, with_dataset (with_dataset wr (Some ds)) x = with_dataset wr x) as Hwd by done.
    destruct (write_bands ds a _ _) as [r ds1] eqn:Hb.
    destruct (Hmain ds w1) as [? Hk]; [by rewrite Hb, <- Hrun|]. split; [done|].
    intros win' a' _ (ds0 & E & _). by rewrite Hds in E.
Qed.

(** *** What the jobs of a run compute

    [good] describes the handles a thread can have, [val] the outcome of a job. *)
Context (J : list (Job V)) (good : Cache → Prop) (val : Job V → option (result Error (Array3 V))).
Hypothesis good_empty : good ∅.
Hypothesis val_compute : ∀ j cache, j ∈ J → good cache →
  (j_compute j cache).1 = val j ∧ good (j_compute j cache).2.
Hypothesis J_nodup : NoDup J.
Hypothesis J_disjoint : ∀ j j' a a', j ∈ J → j' ∈ J → j ≠ j' → val j = Some (Ok a) → val j' = Some (Ok a') →
  ∀ r c, covers (j_window j) a r c → covers (j_window j') a' r c → False.

Definition flying (ja : Job V * Array3 V) : ReadWindow * Array3 V := (j_window ja.1, ja.2).

(** While nothing has failed, each job waits, is computed, or is in the output. *)
Definition in_order p : Prop :=
  ∃ infl done, todo p ++ infl.*1 ++ done.*1 ≡ₚ J ∧ inflight p = flying <$> infl ∧
    Forall (λ ja, val ja.1 = Some (Ok ja.2)) (infl ++ done) ∧
    Forall (λ ja, holds (writer p) (j_window ja.1) ja.2) done.

Record pool_inv p : Prop := {
  inv_caches : ∀ t c, caches p !! t = Some c → good c;
  inv_todo : ∀ j, j ∈ todo p → j ∈ J;
  inv_order : failure p = None → panicked p = false → in_order p }.

Lemma remove_nth_in {A} (l : list A) i x y : l !! i = Some x → y ∈ remove_nth i l → y ∈ l.
Proof. intros Hi Hy. rewrite (remove_nth_perm l i x Hi). by right. Qed.

Lemma begin_inv t i re p p' : pool_inv p → begin_job t i re p = Some p' → pool_inv p'.
Proof.
  intros [Hc Ht Ho]. unfold begin_job. destruct (todo p !! i) as [j|] eqn:Hi; [|done]. simpl.
  assert (j ∈ J) as Hj by (apply Ht; by eapply list_elem_of_lookup_2).
  destruct (val_compute j (default ∅ (caches p !! t)) Hj) as [Hv Hg].
  { destruct (caches p !! t) eqn:E; [by eapply Hc|done]. }
  destruct (j_compute j _) as [r cache]. simpl in Hv, Hg. subst r.
  assert (∀ t' c, <[t := cache]> (caches p) !! t' = Some c → good c) as Hc'.
  { intros t' c. destruct (decide (t = t')) as [->|]; [rewrite lookup_insert_eq; by intros [= <-]|].
    rewrite lookup_insert_ne by done. apply Hc. }
  assert (∀ k, k ∈ remove_nth i (todo p) → k ∈ J) as Ht' by (intros k Hk; by eapply Ht, remove_nth_in).
  destruct (val j) as [[a|e]|] eqn:Hvj; intros [= <-]; split; simpl; try done.
  - intros Hf Hp. destruct (Ho Hf Hp) as (infl & dn & Hperm & Hin & Hval & Hd).
    exists (infl ++ [(j, a)]), dn. split_and!; [|by rewrite Hin, fmap_app| |done].
    + rewrite <- Hperm, fmap_app, <- app_assoc. simpl.
      rewrite <- (Permutation_middle infl.*1), <- (Permutation_middle (remove_nth i (todo p))).
      change (j :: remove_nth i (todo p) ++ infl.*1 ++ dn.*1)
        with ((j :: remove_nth i (todo p)) ++ infl.*1 ++ dn.*1).
      apply Permutation_app_tail. symmetry. by apply remove_nth_perm.
    + rewrite <- app_assoc. apply Forall_app in Hval as [? ?]. apply Forall_app. split; [done|].
      by apply Forall_app; split; [constructor|].
  - unfold fail_with. by destruct (failure p).
Qed.

Lemma write_inv i re p p' : pool_inv p → write_job i re p = Some p' → pool_inv p'.
Proof.
  intros [Hc Ht Ho]. unfold write_job. destruct (inflight p !! i) as [[win a]|] eqn:Hi; [|done]. simpl.
  destruct (write_block _ _ _ _) as [[r wr] w'] eqn:Hw. intros [= <-]. split; simpl; [done|done|].
  destruct r as [[]|e]; [|unfold fail_with; by destruct (failure p)].
  intros Hf Hp. destruct (Ho Hf Hp) as (infl & dn & Hperm & Hin & Hval & Hd).
  rewrite Hin in Hi. apply list_lookup_fmap_Some in Hi as ([j a'] & E & Hi). injection E as -> ->.
  apply write_block_ok in Hw as [Hh Hkeep].
  pose proof (remove_nth_perm _ _ _ Hi) as Hpi.
  exists (remove_nth i infl), ((j, a') :: dn). split_and!.
  - rewrite <- Hperm. apply Permutation_app_head.
    transitivity (((j, a') :: remove_nth i infl).*1 ++ dn.*1).
    + simpl. by rewrite Permutation_middle.
    + apply Permutation_app_tail, fmap_Permutation. by symmetry.
  - by rewrite Hin, remove_nth_fmap.
  - assert (remove_nth i infl ++ (j, a') :: dn ≡ₚ infl ++ dn) as ->; [|done].
    rewrite <- Permutation_middle. change ((j, a') :: remove_nth i infl ++ dn) with
      (((j, a') :: remove_nth i infl) ++ dn). apply Permutation_app_tail. by symmetry.
  - constructor; [done|]. apply Forall_forall. intros [j2 a2] Hj2.
    rewrite Forall_forall in Hd. pose proof (Hd _ Hj2) as Hold. simpl in *.
    rewrite Forall_forall in Hval.
    assert ((j, a') ∈ infl) as Hji by (by eapply list_elem_of_lookup_2).
    assert (val j = Some (Ok a')) as Hv1 by (apply (Hval (j, a')), elem_of_app; by left).
    assert (val j2 = Some (Ok a2)) as Hv2 by (apply (Hval (j2, a2)), elem_of_app; by right).
    assert (j ∈ J) as HJ1. { rewrite <- Hperm, !elem_of_app. right; left. by apply (list_elem_of_fmap_2 fst) in Hji. }
    assert (j2 ∈ J) as HJ2. { rewrite <- Hperm, !elem_of_app. right; right. by apply (list_elem_of_fmap_2 fst) in Hj2. }
    apply Hkeep; [|done]. apply (J_disjoint j j2 a' a2); try done. intros ->.
    rewrite <- Hperm in J_nodup. apply NoDup_app in J_nodup as (_ & _ & Hnd).
    apply NoDup_app in Hnd as (_ & Hnd & _). apply (Hnd j2);
      [by apply (list_elem_of_fmap_2 fst) in Hji|by apply (list_elem_of_fmap_2 fst) in Hj2].
Qed.

Lemma skip_inv i p p' : pool_inv p → skip_job i p = Some p' → pool_inv p'.
Proof.
  intros [Hc Ht Ho]. unfold skip_job. destruct (todo p !! i) as [j|] eqn:Hi; [|done]. simpl.
  destruct (bool_decide _ || panicked p) eqn:E; [|done]. intros [= <-]. split; simpl; [done| |].
  - intros k Hk. by eapply Ht, remove_nth_in.
  - intros Hf Hp. rewrite Hf, Hp in E. by rewrite bool_decide_eq_false_2 in E by (by intros [? ?]).
Qed.

Lemma pool_run_inv schedule : ∀ p p', pool_inv p → run_pool p schedule = Some p' → pool_inv p'.
Proof.
  induction schedule as [|c s IH]; intros p p' Hp; simpl; [by intros [= <-]|].
  destruct (pool_step p c) as [p1|] eqn:Hs; [|done]. simpl. apply IH.
  destruct c; simpl in Hs; [by eapply begin_inv|by eapply write_inv|by eapply skip_inv].
Qed.

Lemma new_pool_inv wr w : pool_inv (new_pool J wr w).
Proof.
  split; simpl; [done|done|]. intros _ _. exists [], []. simpl. by rewrite app_nil_r.
Qed.

(** When the loop succeeds, every job did, and the output holds all results. *)
Lemma pool_success wr w schedule p :
  run_pool (new_pool J wr w) schedule = Some p → finished p = true → pool_result p = Some (Ok ()) →
  ∀ j, j ∈ J → ∃ a, val j = Some (Ok a) ∧ holds (writer p) (j_window j) a.
Proof.
  intros Hrun Hfin Hres j Hj. apply pool_run_inv in Hrun as [_ _ Ho]; [|apply new_pool_inv].
  unfold pool_result in Hres. destruct (panicked p) eqn:Hp; [done|].
  destruct (failure p) eqn:Hf; [done|]. destruct (Ho eq_refl eq_refl) as (infl & dn & Hperm & Hin & Hval & Hd).
  unfold finished in Hfin. destruct (todo p); [|done]. destruct (inflight p); [|done].
  symmetry in Hin. apply fmap_nil_inv in Hin as ->. simpl in *.
  rewrite <- Hperm in Hj. apply list_elem_of_fmap in Hj as ([j' a] & -> & Hja).
  rewrite Forall_forall in Hval, Hd. exists a. split; [by apply (Hval (j', a))|by apply (Hd (j', a))].
Qed.

Lemma run_pool_calm schedule : (∀ j, j ∈ J → val j ≠ None) →
  ∀ p p', pool_inv p → panicked p = false → run_pool p schedule = Some p' → panicked p' = false.
Proof.
  intros Hv. induction schedule as [|c s IH]; intros p p' Hi Hp; simpl; [by intros [= <-]|].
  destruct (pool_step p c) as [p1|] eqn:Hs; [|done]. simpl.
  apply IH; [by eapply (pool_run_inv [c] p); [|simpl; rewrite Hs]|].
  destruct Hi as [Hc Ht _]. destruct c as [t i re|i re|i]; simpl in Hs.
  - unfold begin_job in Hs. destruct (todo p !! i) as [j|] eqn:Hj; [|done]. simpl in Hs.
    assert (j ∈ J) as HJ by (apply Ht; by eapply list_elem_of_lookup_2).
    destruct (val_compute j (default ∅ (caches p !! t)) HJ) as [Hvj _].
    { destruct (caches p !! t) eqn:E; [by eapply Hc|done]. }
    destruct (j_compute j _) as [r cache]. simpl in Hvj. subst r. pose proof (Hv j HJ).
    destruct (val j) as [[a|e]|]; [| |done]; by injection Hs as <-.
  - unfold write_job in Hs. destruct (inflight p !! i) as [[win a]|]; [|done]. simpl in Hs.
    destruct (write_block _ _ _ _) as [[r wr] w']. by injection Hs as <-.
  - unfold skip_job in Hs. destruct (todo p !! i); [|done]. simpl in Hs.
    destruct (_ || _); [|done]. by injection Hs as <-.
Qed.

(** A job that fails or panics makes the loop fail or panic. *)
Lemma pool_failure wr w schedule p j :
  run_pool (new_pool J wr w) schedule = Some p → finished p = true → j ∈ J →
  (∀ a, val j ≠ Some (Ok a)) → pool_result p ≠ Some (Ok ()).
Proof.
  intros Hrun Hfin Hj Hv Hres. destruct (pool_success _ _ _ _ Hrun Hfin Hres j Hj) as (a & Ha & _).
  by apply (Hv a).
Qed.
End runs.

(** ** Reading a block *)

(** The pixels of a file's bands; a read that succeeds returns its window of them. *)
Class GdalInLaws (R : Type) `{GdalIn R} (px : string → Z → Z → Z → R) : Prop :=
  gdal_read_ok s h b off size f : gdal_open s = Ok h → gdal_read h b off size = Ok f →
    ∀ r c, 0 ≤ r < size.2 → 0 ≤ c < size.1 → f r c = px s b (off.2 + r) (off.1 + c).

(** The mapping that fills a slot: the last one of several. *)
Definition slot (ms : list LayerMapping) (t l : Z) : option LayerMapping :=
  last (filter (λ m, lm_time_pos m = t ∧ lm_layer_pos m = l) ms).

Lemma slot_cons m ms t l : slot (m :: ms) t l =
  match slot ms t l with
  | Some m' => Some m'
  | None => if decide (lm_time_pos m = t ∧ lm_layer_pos m = l) then Some m else None
  end.
Proof.
  unfold slot. rewrite filter_cons. destruct (decide _); [|by destruct (last _)]. by rewrite last_cons.
Qed.

Section reading.
Context {R : Type} `{GdalFiles, !GdalIn R} (zero : R) (px : string → Z → Z → Z → R) `{!GdalInLaws R px}.

(** The handles of a thread are those that opening would give now. *)
Definition fresh_handles (cache : Cache) : Prop := ∀ s h, cache !! s = Some h → gdal_open s = Ok h.

Lemma fresh_empty : fresh_handles ∅.
Proof. intros s h. by rewrite lookup_empty. Qed.

Lemma cached_open_fresh s cache : fresh_handles cache →
  (cached_open s cache).1 = (cached_open s ∅).1 ∧ fresh_handles (cached_open s cache).2 ∧
  ∀ h, (cached_open s cache).1 = Ok h → gdal_open s = Ok h.
Proof.
  intros Hf. unfold cached_open. rewrite lookup_empty. destruct (cache !! s) as [h|] eqn:E.
  - rewrite (Hf _ _ E). split_and!; [done|done|]. by intros h' [= <-].
  - destruct (gdal_open s) as [h|e] eqn:Eo; simpl; [|by split_and!].
    split_and!; [done| |by intros h' [= <-]].
    intros s' h'. destruct (decide (s = s')) as [->|]; [rewrite lookup_insert_eq; by intros [= <-]|].
    rewrite lookup_insert_ne by done. apply Hf.
Qed.

Lemma read_window_fresh s b off size cache : fresh_handles cache →
  (read_window_cached s b off size cache).1 = (read_window_cached s b off size ∅).1 ∧
  fresh_handles (read_window_cached s b off size cache).2 ∧
  ∀ f, (read_window_cached s b off size cache).1 = Ok f →
    ∀ r c, 0 ≤ r < size.2 → 0 ≤ c < size.1 → f r c = px s b (off.2 + r) (off.1 + c).
Proof.
  intros Hf. destruct (cached_open_fresh s cache Hf) as (E & Hf' & Ho).
  unfold read_window_cached. destruct (cached_open s cache) as [ro c1], (cached_open s ∅) as [ro' c2].
  simpl in *. subst ro'. destruct ro as [h|e]; [|by split_and!]. simpl. split_and!; [done|done|].
  intros f Hr. unfold read_handle in Hr. destruct (gdal_rasterband h b); [|done]. simpl in Hr.
  destruct (gdal_read h b off size) as [f'|] eqn:Eg; [|done]. injection Hr as ->.
  by eapply gdal_read_ok; [apply Ho|].
Qed.

Definition in_size (size : Z * Z) (r c : Z) : Prop := 0 ≤ r < size.2 ∧ 0 ≤ c < size.1.

Lemma read_mappings_fresh shape off size ms : ∀ data cache, fresh_handles cache →
  (read_mappings shape off size ms data cache).1 = (read_mappings shape off size ms data ∅).1 ∧
  fresh_handles (read_mappings shape off size ms data cache).2 ∧
  ∀ data', (read_mappings shape off size ms data cache).1 = Ok data' →
    ∀ t l r c, in_size size r c → data' t l r c =
      match slot ms t l with
      | Some m => px (lm_source m) (lm_band m) (off.2 + r) (off.1 + c)
      | None => data t l r c
      end.
Proof.
  induction ms as [|m ms IH]; intros data cache Hf; cbn [read_mappings].
  { split_and!; [done|done|]. by intros data' [= <-]. }
  pose proof (read_window_fresh (lm_source m) (lm_band m) off size cache Hf) as (E & Hf' & Hv).
  pose proof (read_window_fresh (lm_source m) (lm_band m) off size ∅ fresh_empty) as (_ & He & _).
  destruct (read_window_cached _ _ _ _ cache) as [ra c1], (read_window_cached _ _ _ _ ∅) as [ra' c2].
  simpl in *. subst ra'. destruct ra as [a|e]; [|by split_and!]. destruct (_ || _); [by split_and!|].
  destruct (IH (assign data (lm_time_pos m) (lm_layer_pos m) a) c1 Hf') as (E1 & Hf1 & Hd).
  destruct (IH (assign data (lm_time_pos m) (lm_layer_pos m) a) c2 He) as (E2 & _).
  split_and!; [by rewrite E1, E2|done|]. intros data' Hr t l r c Hin.
  rewrite (Hd _ Hr) by done. rewrite slot_cons. destruct (slot ms t l); [done|]. unfold assign.
  destruct (decide _) as [[-> ->]|Hn].
  - rewrite !Z.eqb_refl. simpl. destruct Hin. by apply Hv.
  - destruct (Z.eqb_spec t (lm_time_pos m)), (Z.eqb_spec l (lm_layer_pos m)); simpl; try done.
    destruct Hn. by split.
Qed.

(** The element of the tensor over the whole raster. *)
Definition source_pixel (d : RasterDataset) (t l r c : Z) : R :=
  match slot (ds_mappings d) t l with
  | Some m => px (lm_source m) (lm_band m) r c
  | None => zero
  end.

(** A block is the window of the tensor, whichever handles were already open. *)
Lemma read_block_fresh d region cache : fresh_handles cache →
  (read_block zero d region cache).1 = (read_block zero d region ∅).1 ∧
  fresh_handles (read_block zero d region cache).2 ∧
  ∀ b, (read_block zero d region ∅).1 = Ok b →
    let w := rr_read_window region in
    db_shape b = block_shape (ds_shape d) w ∧
    ∀ t l r c, in_size (window_size w) r c →
      db_at b t l r c = source_pixel d t l (off_rows (rw_offset w) + r) (off_cols (rw_offset w) + c).
Proof.
  intros Hf. unfold read_block.
  pose proof (λ cache, read_mappings_fresh (block_shape (ds_shape d) (rr_read_window region))
    (window_offset (rr_read_window region)) (window_size (rr_read_window region)) (ds_mappings d)
    (λ _ _ _ _, zero) cache) as Hall.
  destruct (Hall cache Hf) as (E & Hf' & _). destruct (Hall ∅ fresh_empty) as (_ & _ & Hd).
  destruct (read_mappings _ _ _ _ _ cache) as [r c1], (read_mappings _ _ _ _ _ ∅) as [r' c2].
  simpl in *. subst r'. destruct r as [data|e]; [|by split_and!]. split_and!; [done|done|].
  intros b [= <-]. split; [done|]. intros t l r c Hin. simpl.
  rewrite (Hd data eq_refl) by done. unfold source_pixel. by destruct (slot _ _ _).
Qed.
End reading.

(** ** Loops over the blocks of a partition *)

Definition small_window (shape : RasterShape) (w : ReadWindow) : Prop :=
  0 ≤ off_rows (rw_offset w) ∧ 0 < sz_rows (rw_size w) ∧
  off_rows (rw_offset w) + sz_rows (rw_size w) ≤ rs_rows shape ∧
  0 ≤ off_cols (rw_offset w) ∧ 0 < sz_cols (rw_size w) ∧
  off_cols (rw_offset w) + sz_cols (rw_size w) ≤ rs_cols shape.

Lemma small_window_size shape bs w : grid_ok (shape_grid shape) bs → small_window shape w →
  window_size w = (sz_cols (rw_size w), sz_rows (rw_size w)).
Proof.
  intros [Hr Hc _ _] Hw. unfold small_window, in_u in *. simpl in *. unfold window_size.
  rewrite !wrap_small by (unfold in_u; lia). done.
Qed.

Lemma write_window_zero shape bs region : grid_ok (shape_grid shape) bs →
  small_window shape (rr_read_window region) → rr_overlap region = Overlap_uniform 0 →
  write_window region = rr_read_window region.
Proof.
  intros [Hr Hc _ _] Hw Ho. unfold small_window, in_u in *. simpl in *.
  unfold write_window, inner_size. rewrite Ho. unfold Overlap_uniform. cbn [ov_top ov_bottom ov_left ov_right].
  change (to_signed 64 0) with 0. change (to_signed 64 (wrap 64 (0 + 0))) with 0.
  rewrite !Z.add_0_r, !Z.sub_0_r, !to_signed_small by lia.
  destruct region as [ix [[? ?] [? ?]] ov gt e]. done.
Qed.

(** What a job computes with no handle open. *)
Definition job_val `{GdalFiles} {V} (j : Job V) : option (result Error (Array3 V)) := (j_compute j ∅).1.

Section tiles.
Context {V W : Type} `{GdalFiles, GdalOutLaws V W}.
Context (shape : RasterShape) (bs : BlockSize) (gt : GeoTransform) (epsg : Z) (regions : list RasterRegion).
Hypothesis shape_ok : grid_ok (shape_grid shape) bs.
Hypothesis tiling : partition_blocks shape bs (Overlap_uniform 0) gt epsg = Some regions.

Lemma tile_region region : region ∈ regions →
  small_window shape (rr_read_window region) ∧ write_window region = rr_read_window region ∧
  Overlap_is_zero (rr_overlap region) = true.
Proof using shape_ok tiling.
  intros Hin. destruct (partition_tiles _ _ (Overlap_uniform 0) gt epsg shape_ok) as
    (regions' & E & Hov & _ & Hw & _). rewrite tiling in E. injection E as <-.
  rewrite Forall_forall in Hov. pose proof (Hov _ Hin) as Ho.
  assert (small_window shape (rr_read_window region)) as Hs
    by (apply Hw, list_elem_of_fmap; by exists region).
  split_and!; [done|by eapply write_window_zero|by rewrite Ho].
Qed.

(** One job per region; [P] is the value each pixel is to get, [None] a panic. *)
Context (J : list (Job V)) (P : Z → Z → option V).
Hypothesis J_windows : j_window <$> J = rr_read_window <$> regions.
Hypothesis J_compute : ∀ j cache, j ∈ J → fresh_handles cache →
  (j_compute j cache).1 = job_val j ∧ fresh_handles (j_compute j cache).2.
Hypothesis J_val : ∀ j, j ∈ J →
  match job_val j with
  | Some (Ok a) => a_layers a = 1 ∧ a_rows a = sz_rows (rw_size (j_window j)) ∧
      a_cols a = sz_cols (rw_size (j_window j)) ∧
      ∀ r c, 0 ≤ r < a_rows a → 0 ≤ c < a_cols a →
        P (off_rows (rw_offset (j_window j)) + r) (off_cols (rw_offset (j_window j)) + c) = Some (a_at a 0 r c)
  | Some (Err _) => True
  | None => ∃ r c, in_window r c (j_window j) ∧ P r c = None
  end.

Lemma tiles_nodup : NoDup J.
Proof using shape_ok tiling J_windows.
  apply (NoDup_fmap_1 j_window). rewrite J_windows.
  destruct (partition_tiles _ _ (Overlap_uniform 0) gt epsg shape_ok) as (regions' & E & _ & Hn & _).
  rewrite tiling in E. by injection E as <-.
Qed.

Lemma tiles_covers j a : j ∈ J → job_val j = Some (Ok a) →
  ∀ r c, covers (j_window j) a r c ↔ in_window r c (j_window j).
Proof using J_val.
  intros Hj Ha r c. pose proof (J_val j Hj) as Hv. rewrite Ha in Hv. destruct Hv as (_ & Hr & Hc & _).
  unfold covers, in_window. by rewrite Hr, Hc.
Qed.

Lemma tiles_disjoint j j' a a' : j ∈ J → j' ∈ J → j ≠ j' → job_val j = Some (Ok a) →
  job_val j' = Some (Ok a') → ∀ r c, covers (j_window j) a r c → covers (j_window j') a' r c → False.
Proof using shape_ok tiling J_windows J_val.
  intros Hj Hj' Hne Ha Ha' r c Hc%(tiles_covers _ _ Hj Ha) Hc'%(tiles_covers _ _ Hj' Ha').
  destruct (partition_tiles _ _ (Overlap_uniform 0) gt epsg shape_ok) as
    (regions' & E & _ & Hn & _ & _ & Hu). rewrite tiling in E. injection E as <-.
  rewrite <- J_windows in Hn, Hu.
  assert (j_window j = j_window j') as Hw
    by (apply (Hu _ _ r c); [by apply list_elem_of_fmap_2|by apply list_elem_of_fmap_2|done|done]).
  apply Hne. apply list_elem_of_lookup in Hj as [i Hi], Hj' as [i' Hi'].
  assert (i = i') as ->; [|congruence].
  eapply NoDup_lookup; [exact Hn| |]; rewrite list_lookup_fmap; [by rewrite Hi|rewrite Hi'; simpl; by rewrite Hw].
Qed.

(** A panic of the loop is a panic of some block. *)
Lemma tiles_panic wr w schedule p : run_pool (new_pool J wr w) schedule = Some p →
  panicked p = true → ∃ r c, 0 ≤ r < rs_rows shape ∧ 0 ≤ c < rs_cols shape ∧ P r c = None.
Proof using All.
  intros Hrun Hp. destruct (decide (Forall (λ j, is_Some (job_val j)) J)) as [Hall|Hn].
  - assert (panicked p = false); [|congruence].
    eapply (run_pool_calm J fresh_handles job_val fresh_empty J_compute tiles_nodup tiles_disjoint
      schedule _ (new_pool J wr w)); [apply new_pool_inv|done|exact Hrun].
    Unshelve. intros j Hj E. rewrite Forall_forall in Hall. pose proof (Hall j Hj) as [? Hs]. congruence.
  - apply not_Forall_Exists in Hn; [|apply _]. apply Exists_exists in Hn as (j & Hj & Hv).
    apply eq_None_not_Some in Hv. pose proof (J_val j Hj) as Hp'. rewrite Hv in Hp'.
    destruct Hp' as (r & c & Hrc & HP). exists r, c.
    assert (j_window j ∈ rr_read_window <$> regions) as (region & Ew & Hreg)%list_elem_of_fmap
      by (rewrite <- J_windows; by apply list_elem_of_fmap_2).
    destruct (tile_region _ Hreg) as (Hs & _). rewrite <- Ew in Hs.
    unfold small_window, in_window in *. split_and!; (lia || done).
Qed.

(** When every block is in the output, so is every pixel. *)
Lemma tiles_filled wr w schedule p ds : run_pool (new_pool J wr w) schedule = Some p →
  finished p = true → pool_result p = Some (Ok ()) →
  (∀ ds0, wr_dataset (writer p) = Some ds0 → ds0 = ds) →
  ∀ row col, 0 ≤ row < rs_rows shape → 0 ≤ col < rs_cols shape →
    is_Some (P row col) ∧ gdal_pixel ds 1 row col = P row col.
Proof using All.
  intros Hrun Hfin Hres Hds row col Hrow Hcol.
  destruct (partition_tiles _ _ (Overlap_uniform 0) gt epsg shape_ok) as (regions' & E & _ & _ & _ & Hcov & _).
  rewrite tiling in E. injection E as <-.
  destruct (Hcov row col Hrow Hcol) as (win & Hwin & Hin). rewrite <- J_windows in Hwin.
  apply list_elem_of_fmap in Hwin as (j & -> & Hj).
  destruct (pool_success J fresh_handles job_val fresh_empty J_compute tiles_nodup tiles_disjoint
    wr w schedule p Hrun Hfin Hres j Hj) as (a & Ha & ds1 & E1 & Hpx). apply Hds in E1 as ->.
  pose proof (proj2 (tiles_covers _ _ Hj Ha row col) Hin) as Hc.
  pose proof (J_val j Hj) as Hv. rewrite Ha in Hv. destruct Hv as (Hl & Hr & Hcc & Hat).
  specialize (Hpx 0 row col ltac:(lia) Hc). change (0 + 1) with 1 in Hpx. rewrite Hpx.
  unfold covers in Hc. rewrite <- Hat by lia.
  replace (off_rows (rw_offset (j_window j)) + (row - off_rows (rw_offset (j_window j)))) with row by lia.
  replace (off_cols (rw_offset (j_window j)) + (col - off_cols (rw_offset (j_window j)))) with col by lia.
  split; [|done].
  specialize (Hat (row - off_rows (rw_offset (j_window j))) (col - off_cols (rw_offset (j_window j)))
    ltac:(lia) ltac:(lia)).
  replace (off_rows (rw_offset (j_window j)) + (row - off_rows (rw_offset (j_window j)))) with row in Hat by lia.
  replace (off_cols (rw_offset (j_window j)) + (col - off_cols (rw_offset (j_window j)))) with col in Hat by lia.
  by rewrite Hat.
Qed.

(** The loop with its overviews, under every schedule. *)
Lemma tiles_run schedule wr w r wr' w' :
  run_with_overviews (Ok ()) J schedule wr w = Some (r, wr', w') →
  (r = None → ∃ row col, 0 ≤ row < rs_rows shape ∧ 0 ≤ col < rs_cols shape ∧ P row col = None) ∧
  (∀ j e, j ∈ J → job_val j = Some (Err e) → r ≠ Some (Ok ())) ∧
  (r = Some (Ok ()) → ∃ ds, wr_dataset wr' = Some ds ∧
     ∀ row col, 0 ≤ row < rs_rows shape → 0 ≤ col < rs_cols shape →
       is_Some (P row col) ∧ gdal_pixel ds 1 row col = P row col).
Proof using All.
  unfold run_with_overviews, try_for_each.
  destruct (run_pool _ _) as [p|] eqn:Hrun; [|done]. simpl.
  destruct (finished p) eqn:Hfin; [|done]. simpl.
  destruct (pool_result p) as [[[]|e]|] eqn:Hres.
  2: by intros [= <- <- <-].
  2: { intros [= <- <- <-]. split_and!; [|done|done]. intros _. unfold pool_result in Hres.
       destruct (panicked p) eqn:Hp; [|done]. by eapply tiles_panic. }
  destruct (build_overviews (writer p) _ _ (world p)) as [[ro wo] w2] eqn:Ho. intros [= <- <- <-].
  split_and!; [done| |].
  - intros j e Hj He _. destruct (pool_success J fresh_handles job_val fresh_empty J_compute tiles_nodup
      tiles_disjoint wr w schedule p Hrun Hfin Hres j Hj) as (a & Ha & _). congruence.
  - intros [= ->]. unfold build_overviews, ensure_open in Ho.
    assert (∃ ds ds', gdal_overviews ds "AVERAGE" [2; 4; 8; 16] = (Ok (), ds') ∧ wr_dataset wo = Some ds' ∧
      (∀ ds0, wr_dataset (writer p) = Some ds0 → ds0 = ds)) as (ds & ds' & Hov & Hwo & Hsame).
    { destruct (wr_dataset (writer p)) as [ds|] eqn:Ed.
      - destruct (gdal_overviews ds _ _) as [[[]|] ds'] eqn:Hov; [|done]. injection Ho as <- <-.
        exists ds, ds'. split_and!; [done|done|]. by intros ds0 [= ->].
      - destruct (open_update _ _) as [[ds|] w3]; [|done].
        destruct (gdal_overviews ds _ _) as [[[]|] ds'] eqn:Hov; [|done]. injection Ho as <- <-.
        by exists ds, ds'. }
    exists ds'. split; [done|]. intros row col Hrow Hcol.
    rewrite (gdal_overviews_pixel _ _ _ _ _ Hov). by eapply tiles_filled.
Qed.
End tiles.

(** Whatever the jobs, some schedule ends. *)
Lemma some_schedule_ends {V W} `{GdalFiles, GdalOut V W} (J : list (Job V)) wr w :
  ∃ schedule, is_Some (run_with_overviews (Ok ()) J schedule wr w).
Proof.
  unfold run_with_overviews, try_for_each.
  destruct (pool_finishes (new_pool J wr w)) as (s & p & Hs & Hp). exists s.
  rewrite Hs. simpl. rewrite Hp. simpl. destruct (pool_result p) as [[[]|]|]; [|by eexists..].
  destruct (build_overviews _ _ _ _) as [[? ?] ?]. by eexists.
Qed.

(** ** Reductions over blocks are reductions of pixels *)

(** The worker computes one layer, each pixel from the values at that pixel alone:
    [g] receives the numbers of times and layers and the values by time and layer,
    and is [None] where it panics, which makes the worker panic.  No block is empty. *)
Class Pointwise {R V : Type} (worker : DataBlock R → option (Array3 V))
    (g : Z → Z → (Z → Z → R) → option V) : Prop := {
  pw_spec b : 0 < rs_rows (db_shape b) → 0 < rs_cols (db_shape b) →
    match worker b with
    | Some a => a_layers a = 1 ∧ a_rows a = rs_rows (db_shape b) ∧ a_cols a = rs_cols (db_shape b) ∧
        ∀ r c, 0 ≤ r < a_rows a → 0 ≤ c < a_cols a →
          g (rs_times (db_shape b)) (rs_layers (db_shape b)) (λ t l, db_at b t l r c) = Some (a_at a 0 r c)
    | None => ∃ r c, 0 ≤ r < rs_rows (db_shape b) ∧ 0 ≤ c < rs_cols (db_shape b) ∧
        g (rs_times (db_shape b)) (rs_layers (db_shape b)) (λ t l, db_at b t l r c) = None
    end;
  pw_ext :: ∀ nt nl, Proper (pointwise_relation Z (pointwise_relation Z eq) ==> eq) (g nt nl) }.

Section pixelwise.
Context {W : Type} `{GdalFiles} {R : Type} `{!GdalIn R} (zero : R).
Context (px : string → Z → Z → Z → R) `{!GdalInLaws R px}.
Context {V : Type} `{!GdalOut V W, !GdalOutLaws V W}.
Context (d : RasterDataset) (bs : BlockSize) (gt : GeoTransform) (epsg : Z).
Hypothesis d_grid : grid_ok (shape_grid (ds_shape d)) bs.
Hypothesis d_blocks : partition_blocks (ds_shape d) bs (Overlap_uniform 0) gt epsg = Some (ds_blocks d).
Context (worker : DataBlock R → option (Array3 V)) (g : Z → Z → (Z → Z → R) → option V).
Context `{!Pointwise worker g}.

(** The worker's function of the source values at a pixel. *)
Definition pixel_at (row col : Z) : option V :=
  g (rs_times (ds_shape d)) (rs_layers (ds_shape d)) (λ t l, source_pixel zero px d t l row col).

(** The value of a block's job. *)
Lemma block_job_val region cache : region ∈ ds_blocks d → fresh_handles cache →
  (j_compute (block_job zero d worker region) cache).1 = job_val (block_job zero d worker region) ∧
  fresh_handles (j_compute (block_job zero d worker region) cache).2 ∧
  match job_val (block_job zero d worker region) with
  | Some (Ok a) => a_layers a = 1 ∧ a_rows a = sz_rows (rw_size (rr_read_window region)) ∧
      a_cols a = sz_cols (rw_size (rr_read_window region)) ∧
      ∀ r c, 0 ≤ r < a_rows a → 0 ≤ c < a_cols a →
        pixel_at (off_rows (rw_offset (rr_read_window region)) + r)
          (off_cols (rw_offset (rr_read_window region)) + c) = Some (a_at a 0 r c)
  | Some (Err _) => True
  | None => ∃ r c, in_window r c (rr_read_window region) ∧ pixel_at r c = None
  end.
Proof using All.
  intros Hin Hf. destruct (tile_region _ _ _ _ _ d_grid d_blocks _ Hin) as (Hs & _ & Hz).
  destruct (read_block_fresh zero px d region cache Hf) as (E & Hf' & _).
  destruct (read_block_fresh zero px d region ∅ fresh_empty) as (_ & _ & Hb).
  unfold job_val, block_job. simpl.
  destruct (read_block zero d region cache) as [rb c1], (read_block zero d region ∅) as [rb' c2].
  simpl in *. subst rb'. destruct rb as [b|e]; [|by split_and!].
  split_and!; [done|done|]. destruct (Hb b eq_refl) as [Hshape Hval].
  pose proof (small_window_size _ _ _ d_grid Hs) as Hsz. rewrite Hsz in Hval.
  pose proof (pw_spec (worker := worker) (g := g) b) as Hpw.
  unfold finish, trim_overlap. rewrite Hz, Hshape in *. unfold block_shape in Hpw. rewrite Hsz in Hpw.
  assert (0 < sz_rows (rw_size (rr_read_window region)) ∧ 0 < sz_cols (rw_size (rr_read_window region))) as [Hp1 Hp2]
    by (unfold small_window in Hs; lia).
  specialize (Hpw Hp1 Hp2).
  assert (∀ r c, 0 ≤ r < sz_rows (rw_size (rr_read_window region)) →
    0 ≤ c < sz_cols (rw_size (rr_read_window region)) →
    pixel_at (off_rows (rw_offset (rr_read_window region)) + r)
      (off_cols (rw_offset (rr_read_window region)) + c) =
    g (rs_times (ds_shape d)) (rs_layers (ds_shape d)) (λ t l, db_at b t l r c)) as Hpix.
  { intros r c Hr Hc. unfold pixel_at. apply pw_ext. intros t l. symmetry. apply Hval. by split. }
  simpl in *. destruct (worker b) as [a|]; simpl.
  - destruct Hpw as (Hl & Hr & Hc & Hat). split_and!; [done..|]. intros r c Hrr Hcc.
    rewrite Hpix by lia. by apply Hat.
  - destruct Hpw as (r & c & Hr & Hc & Hg).
    exists (off_rows (rw_offset (rr_read_window region)) + r), (off_cols (rw_offset (rr_read_window region)) + c).
    rewrite Hpix by done. split; [|done]. unfold in_window. lia.
Qed.

Definition jobs : list (Job V) := block_job zero d worker <$> ds_blocks d.

Lemma jobs_compute j cache : j ∈ jobs → fresh_handles cache →
  (j_compute j cache).1 = job_val j ∧ fresh_handles (j_compute j cache).2.
Proof using All.
  intros (region & -> & Hin)%list_elem_of_fmap Hf.
  by destruct (block_job_val region cache Hin Hf) as (? & ? & _).
Qed.

Lemma jobs_windows : j_window <$> jobs = rr_read_window <$> ds_blocks d.
Proof using d_grid d_blocks.
  unfold jobs. rewrite <- list_fmap_compose. apply list_fmap_ext. intros i region Hi.
  apply list_elem_of_lookup_2 in Hi. simpl.
  by destruct (tile_region _ _ _ _ _ d_grid d_blocks _ Hi) as (_ & -> & _).
Qed.

Lemma jobs_val j : j ∈ jobs →
  match job_val j with
  | Some (Ok a) => a_layers a = 1 ∧ a_rows a = sz_rows (rw_size (j_window j)) ∧
      a_cols a = sz_cols (rw_size (j_window j)) ∧
      ∀ r c, 0 ≤ r < a_rows a → 0 ≤ c < a_cols a →
        pixel_at (off_rows (rw_offset (j_window j)) + r) (off_cols (rw_offset (j_window j)) + c) =
        Some (a_at a 0 r c)
  | Some (Err _) => True
  | None => ∃ r c, in_window r c (j_window j) ∧ pixel_at r c = None
  end.
Proof using All.
  intros (region & -> & Hin)%list_elem_of_fmap.
  destruct (block_job_val region ∅ Hin fresh_empty) as (_ & _ & Hv).
  destruct (tile_region _ _ _ _ _ d_grid d_blocks _ Hin) as (_ & Hw & _).
  cbn [block_job j_window]. by rewrite Hw.
Qed.

Lemma reduction_run (dim : Dimension) schedule wr w r wr' w' :
  apply_reduction_to_writer zero (Ok ()) schedule d wr (λ b _, worker b) dim w = Some (r, wr', w') →
  (r = None → ∃ row col, 0 ≤ row < rs_rows (ds_shape d) ∧ 0 ≤ col < rs_cols (ds_shape d) ∧
     pixel_at row col = None) ∧
  (∀ j e, j ∈ jobs → job_val j = Some (Err e) → r ≠ Some (Ok ())) ∧
  (r = Some (Ok ()) → ∃ ds, wr_dataset wr' = Some ds ∧
     ∀ row col, 0 ≤ row < rs_rows (ds_shape d) → 0 ≤ col < rs_cols (ds_shape d) →
       is_Some (pixel_at row col) ∧ gdal_pixel ds 1 row col = pixel_at row col).
Proof using All.
  apply (tiles_run _ _ _ _ _ d_grid d_blocks _ _ jobs_windows jobs_compute jobs_val).
Qed.

(** C27: a block-parallel reduction is the pixelwise one.  For a dataset cut into
    blocks without overlap, and a worker that computes each pixel of a block from
    the values at that pixel: some schedule of the threads ends; and under every
    schedule that ends, whatever the order of the reads and writes and whichever
    handles the threads reuse, the method panics only where the worker's function
    panics at some pixel, it fails when some block cannot be read, and when it
    succeeds the single band of the output holds at every pixel of the raster the
    worker's function of the source values there. *)
Theorem reduction_pixelwise rayon (dim : Dimension) wr w :
  rayon = Ok () →
  (∃ schedule, is_Some (apply_reduction_to_writer zero rayon schedule d wr (λ b _, worker b) dim w)) ∧
  ∀ schedule r wr' w',
    apply_reduction_to_writer zero rayon schedule d wr (λ b _, worker b) dim w = Some (r, wr', w') →
    (r = None → ∃ row col, 0 ≤ row < rs_rows (ds_shape d) ∧ 0 ≤ col < rs_cols (ds_shape d) ∧
       pixel_at row col = None) ∧
    (∀ region e, region ∈ ds_blocks d → (read_block zero d region ∅).1 = Err e → r ≠ Some (Ok ())) ∧
    (r = Some (Ok ()) → ∃ ds, wr_dataset wr' = Some ds ∧
       ∀ row col, 0 ≤ row < rs_rows (ds_shape d) → 0 ≤ col < rs_cols (ds_shape d) →
         is_Some (pixel_at row col) ∧ gdal_pixel ds 1 row col = pixel_at row col).
Proof using All.
  intros ->. split; [apply some_schedule_ends|].
  intros schedule r wr' w' Hrun. destruct (reduction_run _ _ _ _ _ _ _ Hrun) as (H1 & H2 & H3).
  split_and!; [done| |done]. intros region e Hin Hr. apply (H2 (block_job zero d worker region) e).
  - by apply list_elem_of_fmap_2.
  - unfold job_val, block_job. simpl. destruct (read_block zero d region ∅) as [rb c]. simpl in Hr. by subst rb.
Qed.
End pixelwise.


(** ** The same with a mask *)

Definition grid_index (nr nc : Z) : list (Z * Z) := br ← seqZ 0 nr; bc ← seqZ 0 nc; [(br, bc)].

(** The windows of a partition, by the position of their block in the grid. *)
Lemma partition_by_index shape bs ov gt epsg regions nr nc : grid_ok (shape_grid shape) bs →
  partition_blocks shape bs ov gt epsg = Some regions →
  div_ceil (rs_rows shape) (bs_rows bs) = Some nr → div_ceil (rs_cols shape) (bs_cols bs) = Some nc →
  rr_read_window <$> regions = (λ p, (block_at (shape_grid shape) bs p.1 p.2).2) <$> grid_index nr nc.
Proof.
  intros Hok Hp Hnr Hnc.
  destruct (partition_windows shape bs ov gt epsg Hok) as (regions' & grid & E & Eg & Ew & _).
  rewrite Hp in E. injection E as <-. rewrite Ew.
  destruct (enumerate_blocks_total _ _ Hok) as (nr' & nc' & Hnr' & Hnc' & Eg').
  simpl in Hnr', Hnc'. rewrite Hnr in Hnr'. rewrite Hnc in Hnc'. injection Hnr' as <-. injection Hnc' as <-.
  rewrite Eg in Eg'. injection Eg' as ->. unfold grid_list, grid_index. by rewrite !fmap_grid.
Qed.

(** A worker on a block and its mask that never panics: each pixel from the values
    there and, where the mask's block has that pixel, the mask's values. *)
Class PointwiseMask {R U V : Type} (worker : DataBlock R → DataBlock U → option (Array3 V))
    (g : (Z → Z → R) → option (Z → Z → U) → V) : Prop := {
  pm_spec b m : ∃ a, worker b m = Some a ∧ a_layers a = 1 ∧ a_rows a = rs_rows (db_shape b) ∧
    a_cols a = rs_cols (db_shape b) ∧
    ∀ r c, 0 ≤ r < a_rows a → 0 ≤ c < a_cols a →
      a_at a 0 r c = g (λ t l, db_at b t l r c)
        (if (r <? rs_rows (db_shape m)) && (c <? rs_cols (db_shape m)) then Some (λ t l, db_at m t l r c) else None);
  pm_ext f f' o o' : (∀ t l, f t l = f' t l) →
    match o, o' with Some k, Some k' => ∀ t l, k t l = k' t l | None, None => True | _, _ => False end →
    g f o = g f' o' }.

Section masked.
Context {W : Type} `{GdalFiles} {R U V : Type} `{!GdalIn R, !GdalIn U} (zero : R) (mask_zero : U).
Context (px : string → Z → Z → Z → R) `{!GdalInLaws R px} (mx : string → Z → Z → Z → U) `{!GdalInLaws U mx}.
Context `{!GdalOut V W, !GdalOutLaws V W}.
Context (d mask : RasterDataset) (bs : BlockSize) (gt gt' : GeoTransform) (epsg epsg' nr nc : Z).
Hypothesis d_grid : grid_ok (shape_grid (ds_shape d)) bs.
Hypothesis d_blocks : partition_blocks (ds_shape d) bs (Overlap_uniform 0) gt epsg = Some (ds_blocks d).
Hypothesis m_grid : grid_ok (shape_grid (ds_shape mask)) bs.
Hypothesis m_blocks : partition_blocks (ds_shape mask) bs (Overlap_uniform 0) gt' epsg' = Some (ds_blocks mask).
(** As many rows and columns of blocks in both. *)
Hypothesis d_nr : div_ceil (rs_rows (ds_shape d)) (bs_rows bs) = Some nr.
Hypothesis d_nc : div_ceil (rs_cols (ds_shape d)) (bs_cols bs) = Some nc.
Hypothesis m_nr : div_ceil (rs_rows (ds_shape mask)) (bs_rows bs) = Some nr.
Hypothesis m_nc : div_ceil (rs_cols (ds_shape mask)) (bs_cols bs) = Some nc.
Context (worker : DataBlock R → DataBlock U → option (Array3 V)).
Context (g : (Z → Z → R) → option (Z → Z → U) → V) `{!PointwiseMask worker g}.

(** The value of a pixel of the data, with the mask's where it reaches. *)
Definition masked_pixel (row col : Z) : V :=
  g (λ t l, source_pixel zero px d t l row col)
    (if (row <? rs_rows (ds_shape mask)) && (col <? rs_cols (ds_shape mask))
     then Some (λ t l, source_pixel mask_zero mx mask t l row col) else None).

(** Blocks at the same place of the two lists begin at the same pixel. *)
Lemma paired_windows i rd rm : ds_blocks d !! i = Some rd → ds_blocks mask !! i = Some rm →
  rw_offset (rr_read_window rm) = rw_offset (rr_read_window rd) ∧
  ∀ r c, 0 ≤ r < sz_rows (rw_size (rr_read_window rd)) → 0 ≤ c < sz_cols (rw_size (rr_read_window rd)) →
    (r < sz_rows (rw_size (rr_read_window rm)) ↔
       off_rows (rw_offset (rr_read_window rd)) + r < rs_rows (ds_shape mask)) ∧
    (c < sz_cols (rw_size (rr_read_window rm)) ↔
       off_cols (rw_offset (rr_read_window rd)) + c < rs_cols (ds_shape mask)).
Proof using All.
  intros Hd Hm.
  pose proof (partition_by_index _ _ _ _ _ _ _ _ d_grid d_blocks d_nr d_nc) as Ed.
  pose proof (partition_by_index _ _ _ _ _ _ _ _ m_grid m_blocks m_nr m_nc) as Em.
  assert ((rr_read_window <$> ds_blocks d) !! i = Some (rr_read_window rd)) as Hd' by by rewrite list_lookup_fmap, Hd.
  assert ((rr_read_window <$> ds_blocks mask) !! i = Some (rr_read_window rm)) as Hm' by by rewrite list_lookup_fmap, Hm.
  rewrite Ed in Hd'. rewrite Em in Hm'. rewrite list_lookup_fmap in Hd', Hm'.
  destruct (grid_index nr nc !! i) as [[br bc]|] eqn:Ei; [|done]. simpl in Hd', Hm'.
  injection Hd' as Wd. injection Hm' as Wm.
  apply list_elem_of_lookup_2 in Ei. unfold grid_index in Ei.
  apply list_elem_of_bind in Ei as (br' & (bc' & E%list_elem_of_singleton & Hbc)%list_elem_of_bind & Hbr).
  injection E as <- <-. apply elem_of_seqZ in Hbr, Hbc.
  pose proof (nr_spec _ _ _ d_grid d_nr) as [_ Hdr]. pose proof (nc_spec _ _ _ d_grid d_nc) as [_ Hdc].
  pose proof (nr_spec _ _ _ m_grid m_nr) as [_ Hmr]. pose proof (nc_spec _ _ _ m_grid m_nc) as [_ Hmc].
  destruct d_grid as [Hr Hc Hb1 Hb2], m_grid as [Hr' Hc' _ _].
  destruct (axis_block _ _ _ br Hr Hb1 Hdr ltac:(lia)) as (E1 & E2 & _).
  destruct (axis_block _ _ _ bc Hc Hb2 Hdc ltac:(lia)) as (E3 & E4 & _).
  destruct (axis_block _ _ _ br Hr' Hb1 Hmr ltac:(lia)) as (_ & E5 & _).
  destruct (axis_block _ _ _ bc Hc' Hb2 Hmc ltac:(lia)) as (_ & E6 & _).
  rewrite <- Wd, <- Wm. unfold block_at. simpl in *. rewrite E1, E2, E3, E4, E5, E6.
  split; [done|]. intros r c Hrr Hcc. lia.
Qed.

Definition masked_jobs : list (Job V) :=
  mask_job zero mask_zero d mask worker <$> zip (ds_blocks d) (ds_blocks mask).

Lemma blocks_length : length (ds_blocks mask) = length (ds_blocks d).
Proof using d_grid d_blocks m_grid m_blocks d_nr d_nc m_nr m_nc.
  rewrite <- (length_fmap rr_read_window (ds_blocks mask)), <- (length_fmap rr_read_window (ds_blocks d)).
  rewrite (partition_by_index _ _ _ _ _ _ _ _ d_grid d_blocks d_nr d_nc).
  rewrite (partition_by_index _ _ _ _ _ _ _ _ m_grid m_blocks m_nr m_nc). by rewrite !length_fmap.
Qed.

Lemma masked_windows : j_window <$> masked_jobs = rr_read_window <$> ds_blocks d.
Proof using d_grid d_blocks m_grid m_blocks d_nr d_nc m_nr m_nc.
  unfold masked_jobs. rewrite <- (fst_zip (ds_blocks d) (ds_blocks mask)) at 2 by (by rewrite blocks_length).
  rewrite <- !list_fmap_compose. apply list_fmap_ext. intros i [rd rm] Hi%list_elem_of_lookup_2. simpl.
  apply elem_of_zip_l in Hi. by destruct (tile_region _ _ _ _ _ d_grid d_blocks _ Hi) as (_ & -> & _).
Qed.

Lemma mask_job_val i rd rm cache : ds_blocks d !! i = Some rd → ds_blocks mask !! i = Some rm →
  fresh_handles cache → let j := mask_job zero mask_zero d mask worker (rd, rm) in
  (j_compute j cache).1 = job_val j ∧ fresh_handles (j_compute j cache).2 ∧
  match job_val j with
  | Some (Ok a) => a_layers a = 1 ∧ a_rows a = sz_rows (rw_size (rr_read_window rd)) ∧
      a_cols a = sz_cols (rw_size (rr_read_window rd)) ∧
      ∀ r c, 0 ≤ r < a_rows a → 0 ≤ c < a_cols a →
        masked_pixel (off_rows (rw_offset (rr_read_window rd)) + r)
          (off_cols (rw_offset (rr_read_window rd)) + c) = a_at a 0 r c
  | Some (Err _) => True
  | None => False
  end.
Proof using All.
  intros Hd Hm Hf. apply list_elem_of_lookup_2 in Hd as Hdin, Hm as Hmin.
  destruct (tile_region _ _ _ _ _ d_grid d_blocks _ Hdin) as (Hs & _ & Hz).
  destruct (tile_region _ _ _ _ _ m_grid m_blocks _ Hmin) as (Hs' & _ & _).
  destruct (paired_windows i rd rm Hd Hm) as [Hoff Hsz].
  destruct (read_block_fresh zero px d rd cache Hf) as (E & Hf1 & _).
  destruct (read_block_fresh zero px d rd ∅ fresh_empty) as (_ & Hf1' & Hb).
  unfold job_val, mask_job. simpl.
  destruct (read_block zero d rd cache) as [rb c1], (read_block zero d rd ∅) as [rb' c1']. simpl in *. subst rb'.
  destruct rb as [b|e]; [|by split_and!]. destruct (Hb b eq_refl) as [Hshape Hval].
  destruct (read_block_fresh mask_zero mx mask rm c1 Hf1) as (E & Hf2 & _).
  destruct (read_block_fresh mask_zero mx mask rm c1' Hf1') as (E' & _ & _).
  destruct (read_block_fresh mask_zero mx mask rm ∅ fresh_empty) as (_ & _ & Hk). rewrite <- E in E', Hk.
  destruct (read_block mask_zero mask rm c1) as [rm1 c2], (read_block mask_zero mask rm c1') as [rm2 c2'].
  simpl in *. subst rm2. destruct rm1 as [m|e]; [|by split_and!].
  destruct (pm_spec (worker := worker) (g := g) b m) as (a & -> & Hl & Hr & Hc & Hat).
  unfold finish, trim_overlap. rewrite Hz. simpl. split_and!; [done|done|done| | |].
  - rewrite Hr, Hshape. unfold block_shape. cbn [rs_rows]. by rewrite (small_window_size _ _ _ d_grid Hs).
  - rewrite Hc, Hshape. unfold block_shape. cbn [rs_cols]. by rewrite (small_window_size _ _ _ d_grid Hs).
  - intros r c Hrr Hcc. rewrite Hat by done.
    destruct (Hk m eq_refl) as [Hmshape Hmval].
    rewrite Hr, Hshape in Hrr. rewrite Hc, Hshape in Hcc. unfold block_shape in Hrr, Hcc. cbn [rs_rows rs_cols] in Hrr, Hcc.
    rewrite (small_window_size _ _ _ d_grid Hs) in Hrr, Hcc, Hval. simpl in Hrr, Hcc.
    rewrite Hmshape. unfold block_shape. cbn [rs_rows rs_cols].
    rewrite (small_window_size _ _ _ m_grid Hs') in Hmval |- *. simpl in Hmval |- *.
    rewrite Hoff in Hmval. destruct (Hsz r c Hrr Hcc) as [Hsr Hsc].
    unfold masked_pixel. apply pm_ext; [intros t l; symmetry; apply Hval; by split|].
    destruct (Z.ltb_spec r (sz_rows (rw_size (rr_read_window rm)))),
      (Z.ltb_spec (off_rows (rw_offset (rr_read_window rd)) + r) (rs_rows (ds_shape mask))),
      (Z.ltb_spec c (sz_cols (rw_size (rr_read_window rm)))),
      (Z.ltb_spec (off_cols (rw_offset (rr_read_window rd)) + c) (rs_cols (ds_shape mask))); simpl; try lia; try done.
    intros t l. symmetry. apply Hmval. split; simpl; lia.
Qed.

(** Every pixel of a masked reduction that succeeds; it does not panic. *)
Lemma masked_run schedule wr w r wr' w' :
  masked_to_writer zero (Ok ()) schedule mask_zero d mask wr worker w = Some (r, wr', w') →
  r ≠ None ∧
  (r = Some (Ok ()) → ∃ ds, wr_dataset wr' = Some ds ∧
     ∀ row col, 0 ≤ row < rs_rows (ds_shape d) → 0 ≤ col < rs_cols (ds_shape d) →
       gdal_pixel ds 1 row col = Some (masked_pixel row col)).
Proof using All.
  unfold masked_to_writer, same_blocks, num_blocks. rewrite blocks_length, Nat.eqb_refl. simpl. intros Hrun.
  assert (∀ j, j ∈ masked_jobs → ∃ i rd rm, ds_blocks d !! i = Some rd ∧ ds_blocks mask !! i = Some rm ∧
    j = mask_job zero mask_zero d mask worker (rd, rm)) as Hj.
  { intros j ([rd rm] & -> & [i Hi]%list_elem_of_lookup)%list_elem_of_fmap.
    apply lookup_zip_Some in Hi as [? ?]. by exists i, rd, rm. }
  destruct (tiles_run _ _ _ _ _ d_grid d_blocks masked_jobs (λ r c, Some (masked_pixel r c)) masked_windows)
    with (schedule := schedule) (wr := wr) (w := w) (r := r) (wr' := wr') (w' := w') as (Hpanic & _ & Hok);
    [| |exact Hrun|].
  - intros j cache (i & rd & rm & Hd & Hm & ->)%Hj Hf. by destruct (mask_job_val i rd rm cache Hd Hm Hf) as (? & ? & _).
  - intros j (i & rd & rm & Hd & Hm & ->)%Hj.
    destruct (mask_job_val i rd rm ∅ Hd Hm fresh_empty) as (_ & _ & Hv).
    destruct (tile_region _ _ _ _ _ d_grid d_blocks _ (list_elem_of_lookup_2 _ _ _ Hd)) as (_ & Hw & _).
    cbn [mask_job j_window fst]. rewrite Hw.
    destruct (job_val _) as [[a|e]|]; [|done|done]. destruct Hv as (? & ? & ? & Hat).
    split_and!; [done..|]. intros. by rewrite Hat.
  - split.
    + intros E. by destruct (Hpanic E) as (? & ? & _ & _ & ?).
    + intros E. destruct (Hok E) as (ds & Eds & Hall). exists ds. split; [done|]. intros. by apply Hall.
Qed.
End masked.

(** ** A concrete GDAL, and a reduction run on it *)

Module Demo.
#[local] Instance demo_files : GdalFiles := {|
  ghandle := string; gdal_open s := Ok s; gdal_rasterband _ _ := Ok () |}.

Definition demo_px (s : string) (b r c : Z) : Z := Z.of_nat (String.length s) * 100 + 10 * r + c.

#[local] Instance demo_in : GdalIn Z := λ s b off size, Ok (λ r c, demo_px s b (off.2 + r) (off.1 + c)).

#[local] Instance demo_in_laws : GdalInLaws Z demo_px.
Proof. intros s h b off size f [= ->] [= <-]. done. Qed.

#[local] Instance demo_out : GdalOut Z () := {|
  ods := Z → Z → Z → option Z;
  create_dir_all _ w := (Ok (), w); gtiff_driver := Ok ();
  gdal_create _ _ _ _ w := (Ok (λ _ _ _, None), w);
  set_geo_transform ds _ := Ok ds; set_spatial_ref ds _ := Ok ds; from_epsg _ := Ok ();
  out_rasterband _ _ := Ok (); set_no_data_value ds _ _ := Ok ds; gdal_close _ w := w;
  open_update _ w := (Ok (λ _ _ _, None), w);
  gdal_write ds b off size data := (Ok (), λ b' r c,
    if (b' =? b) && (off.2 <=? r) && (r <? off.2 + size.2) && (off.1 <=? c) && (c <? off.1 + size.1)
    then Some (data (r - off.2) (c - off.1)) else ds b' r c);
  gdal_overviews ds _ _ := (Ok (), ds);
  gdal_pixel ds b r c := ds b r c |}.

#[local] Instance demo_out_laws : GdalOutLaws Z ().
Proof. split; [by intros ?????? [= <-]|by intros ????? [= _ <-]]. Qed.

Definition demo_gt : GeoTransform :=
  mkGeoTransform f64_zero f64_one f64_zero f64_zero f64_zero f64_neg_one.
Definition demo_bs : BlockSize := mkBlockSize 2 2.
Definition demo_shape : RasterShape := mkRasterShape 2 1 3 3.

Definition demo_blocks (ov : Overlap) : list RasterRegion :=
  default [] (partition_blocks demo_shape demo_bs ov demo_gt 4326).

Definition demo_dataset (ov : Overlap) : RasterDataset :=
  mkRasterDataset demo_shape 4326 demo_gt (demo_blocks ov) (default_mappings ["a"; "bc"]) ["a"; "bc"].

Definition sum_times (nt nl : Z) (f : Z → Z → Z) : Z := foldr Z.add 0 ((λ t, f t 0) <$> seqZ 0 nt).
Definition demo_pixel (nt nl : Z) (f : Z → Z → Z) : option Z := Some (sum_times nt nl f).

Definition demo_worker (b : DataBlock Z) : option (Array3 Z) :=
  let s := db_shape b in
  Some (mkArray3 1 (rs_rows s) (rs_cols s) (λ _ r c, sum_times (rs_times s) (rs_layers s) (λ t l, db_at b t l r c))).

#[local] Instance demo_pointwise : Pointwise demo_worker demo_pixel.
Proof.
  split.
  - intros b _ _. by split_and!.
  - intros nt nl f f' Hf. unfold demo_pixel, sum_times. do 2 f_equal. apply list_fmap_ext. intros i t _. apply Hf.
Qed.

Definition demo_writer : Writer Z () := mkWriter "out.tif" 3 3 1 None.

Lemma demo_grid_ok : grid_ok (shape_grid demo_shape) demo_bs.
Proof. split; unfold in_u; simpl; lia. Qed.

(** Two threads, out of order: blocks are begun from the back, written from the front. *)
Definition demo_schedule : list Choice :=
  [Begin 0 3 false; Begin 1 2 false; Write 1 false; Begin 0 0 false; Begin 1 0 false;
   Write 0 false; Write 0 false; Write 0 false].

(** The output after a run of the demonstration, row by row. *)
Definition demo_output (ov : Overlap) (schedule : list Choice) : option (list (option Z)) :=
  '(_, wr, _) ← apply_reduction_to_writer 0 (Ok ()) schedule (demo_dataset ov) demo_writer
    (λ b _, demo_worker b) Time ();
  ds ← wr_dataset wr;
  Some (List.concat (List.map (λ r, List.map (λ c, gdal_pixel ds 1 r c) (seqZ 0 3)) (seqZ 0 3))).

Example demo_run : demo_output (Overlap_uniform 0) demo_schedule =
  Some (Some <$> [300; 302; 304; 320; 322; 324; 340; 342; 344]).
Proof. vm_compute. reflexivity. Qed.

(** With an overlap the blocks read no more than their own window, and the trimmed
    border of each is written by no block: these pixels stay empty. *)
Example overlap_leaves_gaps : demo_output (mkOverlap 1 0 0 0) demo_schedule =
  Some [None; None; None; Some 320; Some 322; Some 324; None; None; None].
Proof. vm_compute. reflexivity. Qed.

Lemma reduction_pixelwise_witness :
  (∃ schedule, is_Some (apply_reduction_to_writer 0 (Ok ()) schedule (demo_dataset (Overlap_uniform 0))
     demo_writer (λ b _, demo_worker b) Time ())) ∧
  ∀ schedule r wr' w',
    apply_reduction_to_writer 0 (Ok ()) schedule (demo_dataset (Overlap_uniform 0)) demo_writer
      (λ b _, demo_worker b) Time () = Some (r, wr', w') →
    (r = None → ∃ row col, 0 ≤ row < 3 ∧ 0 ≤ col < 3 ∧
       pixel_at 0 demo_px (demo_dataset (Overlap_uniform 0)) demo_pixel row col = None) ∧
    (∀ region e, region ∈ demo_blocks (Overlap_uniform 0) →
       (read_block 0 (demo_dataset (Overlap_uniform 0)) region ∅).1 = Err e → r ≠ Some (Ok ())) ∧
    (r = Some (Ok ()) → ∃ ds, wr_dataset wr' = Some ds ∧ ∀ row col, 0 ≤ row < 3 → 0 ≤ col < 3 →
       is_Some (pixel_at 0 demo_px (demo_dataset (Overlap_uniform 0)) demo_pixel row col) ∧
       gdal_pixel ds 1 row col = pixel_at 0 demo_px (demo_dataset (Overlap_uniform 0)) demo_pixel row col).
Proof.
  apply (reduction_pixelwise 0 demo_px (demo_dataset (Overlap_uniform 0)) demo_bs demo_gt 4326
    demo_grid_ok eq_refl demo_worker demo_pixel (Ok ()) Time demo_writer () eq_refl).
Defined.

(** A block size of zero: the loop over the rows never ends. *)
Example zero_block_size :
  partition_blocks demo_shape (mkBlockSize 0 0) (Overlap_uniform 0) demo_gt 4326 = None.
Proof. vm_compute. reflexivity. Qed.
End Demo.
