(* ===== verification/Sampling.v ===== *)
(** * Points in blocked datasets, and sources

    crates/orbit-geo/src/sampling.rs (the lookup of the block that holds a cell,
    and samples at many points), the constructors of source.rs, the counting sum of
    composition.rs and the plain download of providers.rs, which runs
    gdal_translate. *)

From Stdlib Require Import Ascii.
From S2P Require Import Prelude F64 Text Window Misc Grid Raster Blocks.
Local Open Scope Z_scope.

(** ** source.rs *)

Definition from_file (path : string) : DataSource := Files [path].
Definition source_from_files (paths : list string) : DataSource := Files paths.

Record DataSourceBuilder := mkDataSourceBuilder { dsb_paths : list string }.
Definition DataSourceBuilder_new : DataSourceBuilder := mkDataSourceBuilder [].
Definition file (path : string) (b : DataSourceBuilder) : DataSourceBuilder := mkDataSourceBuilder (dsb_paths b ++ [path]).
Definition files (paths : list string) (b : DataSourceBuilder) : DataSourceBuilder :=
  mkDataSourceBuilder (foldl (λ l p, l ++ [p]) (dsb_paths b) paths).
Definition build_source (b : DataSourceBuilder) : DataSource := Files (dsb_paths b).

Lemma files_build paths b : build_source (files paths b) = Files (dsb_paths b ++ paths).
Proof.
  unfold build_source, files. simpl. f_equal. generalize (dsb_paths b).
  induction paths as [|p paths IH]; intros l; simpl; [by rewrite app_nil_r|]. by rewrite IH, <- (assoc_L (++)).
Qed.

(** ** sampling.rs *)

(** The cell inside one block, [as usize] of the window's fields included. *)
Definition cell_in_block (global_row global_col : Z) (e : nat * RasterRegion) : option (nat * Z * Z) :=
  let w := rr_read_window e.2 in
  let off_row := wrap 64 (off_rows (rw_offset w)) in
  let off_col := wrap 64 (off_cols (rw_offset w)) in
  let h := wrap 64 (sz_rows (rw_size w)) in
  let w := wrap 64 (sz_cols (rw_size w)) in
  if (off_row <=? global_row) && (global_row <? wrap 64 (off_row + h)) &&
     (off_col <=? global_col) && (global_col <? wrap 64 (off_col + w))
  then Some (e.1, global_row - off_row, global_col - off_col) else None.

Definition block_id_rowcol (d : RasterDataset) (global_row global_col : Z) : option (nat * Z * Z) :=
  head (omap (cell_in_block global_row global_col) (dataset_iter d)).

(** [sample] is [sample_at_point] on the dataset, none on a failure. *)
Definition extract_blockwise {A} (sample : f64 * f64 → option A) (points : list (f64 * f64)) : list (option A) :=
  sample <$> points.

Definition gt_list (gt : GeoTransform) : list f64 :=
  [origin_x gt; pixel_width gt; row_skew gt; origin_y gt; col_skew gt; pixel_height gt].
Definition geoms_to_global_indices (d : RasterDataset) (points : list (f64 * f64)) : list (Z * Z) :=
  (λ p, geo_to_pixel p.1 p.2 (gt_list (ds_gt d))) <$> points.

(** ** composition.rs: the sum over one dimension *)

(** The elements of a block along an axis of [times, layers, rows, cols]. *)
Definition axis_length (s : RasterShape) (axis : nat) : option Z :=
  [rs_times s; rs_layers s; rs_rows s; rs_cols s] !! axis.
Definition along {R} (b : DataBlock R) (axis : nat) (i : Z) (rest : Z * Z * Z) : R :=
  let '(x, y, z) := rest in
  match axis with
  | 0%nat => db_at b i x y z
  | 1%nat => db_at b x i y z
  | 2%nat => db_at b x y i z
  | _ => db_at b x y z i
  end.
(** [sum_dim]: the element at the three remaining indices; [None] is the panic on
    an axis the block does not have.  [to_f64] is the cast, zero where it fails,
    [sum] is ndarray's sum of a lane, whose order of additions is its own. *)
Definition sum_dim {R} (to_f64 : R → f64) (sum : list f64 → f64) (b : DataBlock R) (axis : nat)
    : option (Z * Z * Z → f64) :=
  n ← axis_length (db_shape b) axis;
  Some (λ rest, sum ((λ i, to_f64 (along b axis i rest)) <$> seqZ 0 n)).

(** ** providers.rs: the download by gdal_translate *)

Section download.
Context {W : Type} (create_dir_all : string → W → result string () * W).
(** [Command::status]: the program could not be started, or its exit code is
    zero or not. *)
Context (run_status : string → list string → W → result string (bool * string) * W).
Context (f64_display : f64 → string) (debug_char : string → string).

Definition download_via_gdal_translate_with_crs (src dst : string) (crop : option CropWindow)
    (crop_crs : option string) (w : W) : result Error string * W :=
  let '(r, w) :=
    match Window.parent dst with
    | Some p => if bool_decide (p = "") then (Ok (), w) else create_dir_all p w
    | None => (Ok (), w)
    end in
  match r with
  | Err e => (Err (Io e), w)
  | Ok _ =>
      let argv := build_gdal_translate_argv f64_display debug_char src dst crop crop_crs in
      let program := default "" (head argv) in
      match run_status program (tail argv) w with
      | (Err e, w) => (Err (Other ("spawn `" +:+ program +:+ "`: " +:+ e +:+ " — is gdal installed and on PATH?")), w)
      | (Ok (success, status), w) =>
          (if success then Ok dst
           else Err (Other ("`" +:+ program +:+ " … " +:+ dst +:+ "` exited with status " +:+ status)), w)
      end
  end.
Definition download_via_gdal_translate (src dst : string) (crop : option CropWindow) : W → result Error string * W :=
  download_via_gdal_translate_with_crs src dst crop (Some "EPSG:4326").

(** [set] is GDAL's [set_config_option], whose failure is ignored. *)
Definition anonymous_s3_options : list (string * string) := [
  ("AWS_NO_SIGN_REQUEST", "YES"); ("GDAL_HTTP_MULTIPLEX", "YES"); ("GDAL_HTTP_VERSION", "2"); ("VSI_CACHE", "TRUE");
  ("VSI_CACHE_SIZE", "26214400"); ("GDAL_DISABLE_READDIR_ON_OPEN", "EMPTY_DIR");
  ("CPL_VSIL_CURL_ALLOWED_EXTENSIONS", ".tif,.TIF,.tiff,.jp2")].
Definition configure_anonymous_s3 (set : string → string → W → result string () * W) (w : W) : W :=
  foldl (λ w kv, (set kv.1 kv.2 w).2) w anonymous_s3_options.
End download.

(** ** Cells and blocks *)

(** A window whose fields are those of a raster that fits. *)
Definition small_window (w : ReadWindow) : Prop :=
  0 ≤ off_rows (rw_offset w) ∧ 0 < sz_rows (rw_size w) ∧ off_rows (rw_offset w) + sz_rows (rw_size w) < 2 ^ 63 ∧
  0 ≤ off_cols (rw_offset w) ∧ 0 < sz_cols (rw_size w) ∧ off_cols (rw_offset w) + sz_cols (rw_size w) < 2 ^ 63.

Lemma cell_in_block_small r c id region : small_window (rr_read_window region) →
  cell_in_block r c (id, region) =
    let w := rr_read_window region in
    if decide (in_window r c w) then Some (id, r - off_rows (rw_offset w), c - off_cols (rw_offset w)) else None.
Proof.
  intros (H1 & H2 & H3 & H4 & H5 & H6). unfold cell_in_block. cbn [fst snd].
  assert (∀ x, 0 ≤ x < 2 ^ 63 → wrap 64 x = x) as Hwrap by (intros; apply wrap_small; unfold in_u; lia).
  cbv zeta. unfold in_window. set (w := rr_read_window region) in *.
  rewrite (Hwrap (off_rows _)), (Hwrap (off_cols _)), (Hwrap (sz_rows _)), (Hwrap (sz_cols _)) by lia.
  rewrite !Hwrap by lia.
  repeat match goal with
  | |- context [?a <=? ?b] => destruct (Z.leb_spec a b)
  | |- context [?a <? ?b] => destruct (Z.ltb_spec a b)
  end; cbn [andb]; case_decide; try done; exfalso; lia.
Qed.

Lemma block_lookup_some (blocks : list RasterRegion) r c k : Forall (λ b, small_window (rr_read_window b)) blocks →
  ∀ id lr lc, head (omap (cell_in_block r c) (imap (λ i b, (k + i, b)%nat) blocks)) = Some (id, lr, lc) ↔
    ∃ i b, id = (k + i)%nat ∧ blocks !! i = Some b ∧ in_window r c (rr_read_window b) ∧
      lr = r - off_rows (rw_offset (rr_read_window b)) ∧ lc = c - off_cols (rw_offset (rr_read_window b)) ∧
      ∀ j b', (j < i)%nat → blocks !! j = Some b' → ¬ in_window r c (rr_read_window b').
Proof.
  intros Hall. revert k. induction Hall as [|b blocks Hb _ IH]; intros k id lr lc.
  { simpl. split; [done|]. by intros (i & b & _ & ? & _). }
  rewrite imap_cons. cbn [omap list_omap]. rewrite Nat.add_0_r, cell_in_block_small by done. cbv zeta.
  case_decide as Hin; cbn [head].
  - split.
    + intros [= <- <- <-]. exists 0%nat, b. rewrite Nat.add_0_r. split_and!; try done. intros; lia.
    + intros ([|i] & b' & -> & Hi & Hw & -> & -> & Hfirst).
      * simpl in Hi. injection Hi as <-. by rewrite Nat.add_0_r.
      * by destruct (Hfirst 0%nat b ltac:(lia) eq_refl).
  - rewrite <- (imap_ext (λ i b, (S k + i, b)%nat)) by (intros; simpl; f_equal; lia). rewrite IH. split.
    + intros (i & b' & -> & Hi & Hw & -> & -> & Hfirst). exists (S i), b'. split_and!; try done; [lia|].
      intros [|j] b'' Hj Hb''; [by injection Hb'' as <-|]. apply (Hfirst j b''); [lia|done].
    + intros ([|i] & b' & -> & Hi & Hw & -> & -> & Hfirst); [by injection Hi as <-|].
      exists i, b'. split_and!; try done; [lia|]. intros j b'' Hj Hb''. apply (Hfirst (S j) b''); [lia|done].
Qed.

(** In a dataset cut into blocks by the builder, every cell of the raster is found
    in exactly the block whose window holds it, with its position in that block,
    and a cell outside of the raster in none. *)
Theorem block_id_rowcol_correct shape bs ov gt epsg (d : RasterDataset) r c :
  grid_ok (shape_grid shape) bs → partition_blocks shape bs ov gt epsg = Some (ds_blocks d) →
  (0 ≤ r < rs_rows shape ∧ 0 ≤ c < rs_cols shape →
    ∃ id lr lc b, block_id_rowcol d r c = Some (id, lr, lc) ∧ ds_blocks d !! id = Some b ∧
      let w := rr_read_window b in
      off_rows (rw_offset w) + lr = r ∧ off_cols (rw_offset w) + lc = c ∧
      0 ≤ lr < sz_rows (rw_size w) ∧ 0 ≤ lc < sz_cols (rw_size w) ∧
      ∀ id' b', ds_blocks d !! id' = Some b' → in_window r c (rr_read_window b') → id' = id) ∧
  (¬ (0 ≤ r < rs_rows shape ∧ 0 ≤ c < rs_cols shape) → block_id_rowcol d r c = None).
Proof.
  intros Hok Hp. destruct (partition_tiles shape bs ov gt epsg Hok) as (regions & E & _ & Hnd & Hins & Hcov & Huniq).
  rewrite Hp in E. injection E as <-. pose proof Hok as [Hr Hc _ _]. cbn [shape_grid gs_rows gs_cols] in Hr, Hc.
  unfold in_u in *.
  assert (Forall (λ b, small_window (rr_read_window b)) (ds_blocks d)) as Hsmall.
  { apply Forall_forall. intros b Hb. destruct (Hins (rr_read_window b)) as (? & ? & ? & ? & ? & ?);
      [by apply list_elem_of_fmap_2|]. unfold small_window. lia. }
  pose proof (block_lookup_some (ds_blocks d) r c 0 Hsmall) as Hlook.
  assert (∀ i b, ds_blocks d !! i = Some b → rr_read_window b ∈ rr_read_window <$> ds_blocks d) as Hmem.
  { intros i b Hb. by eapply list_elem_of_fmap_2, list_elem_of_lookup_2. }
  unfold block_id_rowcol, dataset_iter. split.
  - intros [Hrr Hcc]. destruct (Hcov r c Hrr Hcc) as (w & (b & -> & (i & Hi)%list_elem_of_lookup_1)%list_elem_of_fmap & Hw).
    assert (∀ j b', ds_blocks d !! j = Some b' → in_window r c (rr_read_window b') → j = i) as Hone.
    { intros j b' Hj Hw'. assert (rr_read_window b' = rr_read_window b) as Ew by (eapply Huniq; eauto).
      eapply NoDup_lookup; [exact Hnd| |by rewrite list_lookup_fmap, Hi]. by rewrite list_lookup_fmap, Hj; simpl; rewrite Ew. }
    eexists i, _, _, b. split.
    { apply Hlook. exists i, b. split_and!; try done. intros j b' Hj Hb' Hw'. specialize (Hone j b' Hb' Hw'). lia. }
    split; [done|]. unfold in_window in Hw. cbv zeta. split_and!; try lia. exact Hone.
  - intros Hout. destruct (head _) as [[[id lr] lc]|] eqn:E; [|done]. exfalso.
    destruct (proj1 (Hlook id lr lc) eq_refl) as (i & b & _ & Hi & Hw & _). destruct (Hins (rr_read_window b)) as (? & ? & ? & ? & ? & ?);
      [by eapply Hmem|]. unfold in_window in Hw. lia.
Qed.
