(* ===== verification/Scenes.v ===== *)
(** * Scenes: the rasters of a cube through the block processing

    What the processes on pixels share (apps/orbit-openeo/src/geo_executor): the
    handlers as programs over the state of the files, the dataset of one scene,
    and a reduction of it into a new file.  The second half says which pixels
    such a step leaves in which file.  GDAL's files are a class of operations,
    with laws. *)

From Stdlib Require Import Ascii.
From S2P Require Import Prelude F64 Text Grid Executor Raster Blocks.
Local Open Scope Z_scope.

(** ** Programs *)

(** How a handler ends: with a result, in a panic, or not at all, because a loop
    does not end or a schedule leaves blocks undone. *)
Inductive Ending (W A : Type) := Done (r : result ExecError A) (w : W) | Panicked (w : W) | Endless.
Arguments Done {W A}. Arguments Panicked {W A}. Arguments Endless {W A}.

Definition M (W A : Type) : Type := W → Ending W A.

#[export] Instance M_ret {W} : MRet (M W) := λ A a w, Done (Ok a) w.
#[export] Instance M_bind {W} : MBind (M W) := λ A B f m w,
  match m w with
  | Done (Ok a) w => f a w
  | Done (Err e) w => Done (Err e) w
  | Panicked w => Panicked w
  | Endless => Endless
  end.

Definition lift {W A} (r : result ExecError A) : M W A := λ w, Done r w.
Definition state {W A} (f : W → A * W) : M W A := λ w, let '(a, w) := f w in Done (Ok a) w.

(** Whether a program succeeds. *)
Definition success {W A} (e : Ending W A) : bool := match e with Done (Ok _) _ => true | _ => false end.

Lemma succeeds {W A} (e : Ending W A) : success e = true → ∃ v w, e = Done (Ok v) w.
Proof. destruct e as [[v|]w| |]; try done. by exists v, w. Qed.

(** [for x in xs { .. }] with the position of [x]; the results in order. *)
Fixpoint for_each {W A B} (f : nat → A → M W B) (i : nat) (xs : list A) : M W (list B) :=
  match xs with
  | [] => mret []
  | x :: xs => y ← f i x; ys ← for_each f (S i) xs; mret (y :: ys)
  end.

Lemma bind_done {W A B} (m : M W A) (f : A → M W B) w b w' :
  (m ≫= f) w = Done (Ok b) w' ↔ ∃ a w1, m w = Done (Ok a) w1 ∧ f a w1 = Done (Ok b) w'.
Proof.
  unfold mbind, M_bind. destruct (m w) as [[a|e] w1|w1|].
  - split; [eauto|]. by intros (? & ? & [= <- <-] & ?).
  - split; [done|]. by intros (? & ? & [=] & ?).
  - split; [done|]. by intros (? & ? & [=] & ?).
  - split; [done|]. by intros (? & ? & [=] & ?).
Qed.

Lemma ret_done {W A} (a b : A) (w w' : W) : (mret a : M W A) w = Done (Ok b) w' ↔ a = b ∧ w = w'.
Proof. unfold mret, M_ret. split; [by intros [= -> ->]|by intros [-> ->]]. Qed.

Lemma lift_done {W A} (r : result ExecError A) b (w w' : W) :
  lift r w = Done (Ok b) w' ↔ r = Ok b ∧ w = w'.
Proof. unfold lift. split; [by intros [= -> ->]|by intros [-> ->]]. Qed.

Lemma state_done {W A} (f : W → A * W) b (w w' : W) : state f w = Done (Ok b) w' ↔ f w = (b, w').
Proof. unfold state. destruct (f w). split; [by intros [= -> ->]|by intros [= -> ->]]. Qed.

(** Invariants of a loop: [P] speaks of the results so far and the state. *)
Lemma for_each_inv {W A B} (f : nat → A → M W B) (P : list B → W → Prop) xs i w ys w' :
  (∀ x ys w y w', xs !! length ys = Some x → P ys w → f (i + length ys)%nat x w = Done (Ok y) w' →
     P (ys ++ [y]) w') →
  P [] w → for_each f i xs w = Done (Ok ys) w' → P ys w' ∧ length ys = length xs.
Proof.
  intros Hstep.
  assert (∀ rest acc w ys w', (∀ n x, rest !! n = Some x → xs !! (length acc + n)%nat = Some x) → P acc w →
    for_each f (i + length acc)%nat rest w = Done (Ok ys) w' →
    P (acc ++ ys) w' ∧ length ys = length rest) as H.
  { induction rest as [|x rest IH]; intros acc v zs v' Hsub HP; simpl.
    - intros [<- <-]%ret_done. by rewrite app_nil_r.
    - intros (y & v1 & Hf & (us & v2 & Hl & [<- <-]%ret_done)%bind_done)%bind_done.
      assert (P (acc ++ [y]) v1) as HP1.
      { apply (Hstep x acc v y v1); [|done|done]. specialize (Hsub 0%nat x eq_refl). by rewrite Nat.add_0_r in Hsub. }
      destruct (IH (acc ++ [y]) v1 us v2) as [H1 H2]; [|done| |].
      + intros n z Hz. rewrite length_app. simpl. specialize (Hsub (S n) z Hz).
        by replace (length acc + 1 + n)%nat with (length acc + S n)%nat by lia.
      + rewrite length_app. simpl. by replace (i + (length acc + 1))%nat with (S (i + length acc)) by lia.
      + rewrite <- app_assoc in H1. simpl in *. by rewrite H2. }
  intros HP Hl. apply (H xs [] w ys w' ltac:(done) HP). simpl. by rewrite Nat.add_0_r.
Qed.

(** ** The dataset of a scene, and a reduction of it *)

(** Element types of rasters: [zero], the conversion of the sentinel, and GDAL's
    typed reads and writes. *)
Class Element (R W : Type) `{Storage W} := {
  el_zero : R; el_to_f64 : R → option f64;
  el_read :: ReadAt R W; el_out :: GdalOut R W }.

(** What the builder asks of a file in a state of the file system. *)
Class Probing (W : Type) := {
  file_exists : W → string → bool;
  probe_file : W → string → result string Probe }.

(** The size of the raster at a path, rows and columns, as GDAL reports it. *)
Definition raster_size `{Probing W} (w : W) (p : string) : option (Z * Z) :=
  match probe_file w p with Ok pr => Some (p_rows pr, p_cols pr) | Err _ => None end.

Definition f64_ten : f64 := Eval vm_compute in f64_of_Z 10.
Definition f64_minus_ten : f64 := Eval vm_compute in f64_of_Z (-10).

Section scene.
Context {W : Type} `{Storage W, Probing W} (crop_size : Z).

(** [RasterDatasetBuilder::from_files(..).resolution(..).block_size(..).build()]
    with the shape and the mappings set afterwards; the errors of the two fallible
    calls are prefixed each in its way. *)
Definition scene_dataset (builder_at build_at : string) (paths : list string) (times layers : Z)
    (mappings : list LayerMapping) : M W RasterDataset := λ w,
  match from_files paths with
  | Err e => Done (Err (ExecBackend (builder_at +:+ error_text e))) w
  | Ok b =>
      match build (file_exists w) (probe_file w)
              (block_size (mkBlockSize crop_size crop_size) (resolution (f64_ten, f64_minus_ten) b)) with
      | None => Endless
      | Some (Err e) => Done (Err (ExecBackend (build_at +:+ error_text e))) w
      | Some (Ok d) =>
          Done (Ok (mkRasterDataset (mkRasterShape times layers (rs_rows (ds_shape d)) (rs_cols (ds_shape d)))
                      (ds_epsg d) (ds_gt d) (ds_blocks d) mappings (ds_files d))) w
      end
  end.

(** A method on a path as a program. *)
Definition run_path (at_ : string) (method : W → PathOutcome (W:=W)) : M W () := λ w,
  match method w with
  | None => Endless
  | Some (None, w) => Panicked w
  | Some (Some (Err e), w) => Done (Err (ExecBackend (at_ +:+ error_text e))) w
  | Some (Some (Ok _), w) => Done (Ok ()) w
  end.

Context (rayon : result string ()) (schedule : list Choice).

Definition reduce_to {R V} `{!Element R W, !Element V W} (at_ : string) (d : RasterDataset)
    (worker : DataBlock R → Dimension → option (Array3 V)) (dim : Dimension) (out : string) (na : V) : M W () :=
  run_path at_ (apply_reduction el_zero el_to_f64 rayon schedule d worker dim out na).

Definition mask_to {R U V} `{!Element R W, !Element U W, !Element V W} (at_ : string) (d mask : RasterDataset)
    (worker : DataBlock R → DataBlock U → Dimension → option (Array3 V)) (dim : Dimension) (out : string)
    (na : V) : M W () :=
  run_path at_ (apply_reduction_with_mask el_zero el_zero el_to_f64 rayon schedule d mask worker dim out na).
End scene.

(** [PathBuf::join]. *)
Definition join_path (dir name : string) : string :=
  if starts_with "/" name then name
  else if bool_decide (dir = "") || ends_with "/" dir then dir +:+ name
  else dir +:+ "/" +:+ name.

(** [scratch_dir.join(format!("{prefix}_t{t}.tif"))] *)
Definition scene_name (scratch_dir prefix : string) (t : nat) : string :=
  join_path scratch_dir (prefix +:+ "_t" +:+ pretty (Z.of_nat t) +:+ ".tif").

(** Integer samples, each of its own type as in the code. *)
Record i16 := I16 { i16_val : Z }.
Record u8 := U8 { u8_val : Z }.

(** ** The pixels of files *)

(** The contents of files, by band (from 1), row and column. *)
Class Pixels (W : Type) `{Storage W, Probing W} := {
  raw : Type;
  file_pixel : W → string → Z → Z → Z → raw }.

Section same_file.
Context `{Pixels W}.

(** A path names the same raster in two states. *)
Definition same_file (p : string) (w w' : W) : Prop :=
  probe_file w p = probe_file w' p ∧ ∀ b r c, file_pixel w p b r c = file_pixel w' p b r c.

#[export] Instance same_file_equiv p : Equivalence (same_file p).
Proof.
  split.
  - by intros w.
  - intros w w' [A1 A2]. by split; [|intros; by rewrite A2].
  - intros w1 w2 w3 [A1 A2] [A3 A4]. split; [by rewrite A1|]. intros. by rewrite A2.
Qed.

(** Nothing but [p] is touched. *)
Definition only (p : string) (w w' : W) : Prop := ∀ q, q ≠ p → same_file q w w'.

#[export] Instance only_equiv p : Equivalence (only p).
Proof.
  split.
  - by intros w q _.
  - intros w w' Hw q Hq. symmetry. by apply Hw.
  - intros w1 w2 w3 A1 A2 q Hq. etrans; [by apply A1|by apply A2].
Qed.
End same_file.

(** GDAL's promises for one element type: what a file opened for writing is called
    and how large it is, that every call touches its own path alone, and that closing
    it puts the pixels into the file; [in_range] are the values the type has.
    Different texts are taken to be different files. *)
Class ElementLaws (R W : Type) `{Pixels W, !Element R W} := {
  of_raw : raw → R;
  to_raw : R → raw;
  in_range : R → Prop;
  of_to_raw v : in_range v → of_raw (to_raw v) = v;
  ods_path : ods (V:=R) (W:=W) → string;
  ods_size : ods (V:=R) (W:=W) → Z * Z;    (* rows, columns *)
  el_in_laws w :: @GdalInLaws R (files_at w) (read_at w) (λ p b r c, of_raw (file_pixel w p b r c));
  el_out_laws :: GdalOutLaws R W;
  mkdir_frame p w r w' q : create_dir_all p w = (r, w') → same_file q w w';
  create_frame p c r b w ro w' : gdal_create p c r b w = (ro, w') →
    only p w w' ∧ ∀ ds, ro = Ok ds → ods_path ds = p ∧ ods_size ds = (r, c);
  gt_kept ds gt ds' : set_geo_transform ds gt = Ok ds' →
    ods_path ds' = ods_path ds ∧ ods_size ds' = ods_size ds;
  ref_kept ds e ds' : set_spatial_ref ds e = Ok ds' →
    ods_path ds' = ods_path ds ∧ ods_size ds' = ods_size ds;
  no_data_kept ds b v ds' : set_no_data_value ds b v = Ok ds' →
    ods_path ds' = ods_path ds ∧ ods_size ds' = ods_size ds;
  update_frame p w ro w' : open_update p w = (ro, w') →
    only p w w' ∧
    match ro with
    | Ok ds => ods_path ds = p ∧ raster_size w p = Some (ods_size ds)
    | Err _ => same_file p w w'
    end;
  write_kept ds b off size data r ds' : gdal_write ds b off size data = (r, ds') →
    ods_path ds' = ods_path ds ∧ ods_size ds' = ods_size ds;
  overviews_kept ds s l r ds' : gdal_overviews ds s l = (r, ds') →
    ods_path ds' = ods_path ds ∧ ods_size ds' = ods_size ds;
  close_frame ds w : only (ods_path ds) w (gdal_close ds w);
  close_size ds w : raster_size (gdal_close ds w) (ods_path ds) = Some (ods_size ds);
  close_pixel ds w b r c v : gdal_pixel ds b r c = Some v →
    file_pixel (gdal_close ds w) (ods_path ds) b r c = to_raw v }.

Section frames.
Context {V W : Type} `{ElementLaws V W}.
Implicit Types (wr : Writer V W).

(** A dataset opened for writing keeps its path and its size. *)
Definition kept (ds ds' : ods (V:=V) (W:=W)) : Prop := ods_path ds' = ods_path ds ∧ ods_size ds' = ods_size ds.

Lemma kept_trans ds1 ds2 ds3 : kept ds1 ds2 → kept ds2 ds3 → kept ds1 ds3.
Proof. intros [A1 A2] [A3 A4]. split; congruence. Qed.

(** The writer's file is the one of its path, and as large as it was made. *)
Definition own_file wr (w : W) : Prop :=
  match wr_dataset wr with
  | Some ds => ods_path ds = wr_path wr ∧ ods_size ds = (wr_rows wr, wr_cols wr)
  | None => raster_size w (wr_path wr) = Some (wr_rows wr, wr_cols wr)
  end.

(** The writer after a call: the same file, and nothing else touched. *)
Definition own_step wr wr' (w w' : W) : Prop :=
  (wr_path wr', wr_rows wr', wr_cols wr') = (wr_path wr, wr_rows wr, wr_cols wr) ∧
  own_file wr' w' ∧ only (wr_path wr) w w'.

Lemma own_step_trans wr1 wr2 wr3 w1 w2 w3 : own_step wr1 wr2 w1 w2 → own_step wr2 wr3 w2 w3 → own_step wr1 wr3 w1 w3.
Proof.
  intros ([= A1 A2 A3] & _ & A4) ([= A5 A6 A7] & A8 & A9). split_and!; [congruence|done|].
  rewrite A1 in A9. by etrans.
Qed.

Lemma set_no_data_kept bands : ∀ ds nd ds', set_no_data ds nd bands = Ok ds' → kept ds ds'.
Proof.
  induction bands as [|b bands IH]; intros ds nd ds'; simpl; [by intros [= ->]|].
  destruct (out_rasterband ds b); [|done]. simpl.
  destruct (set_no_data_value ds b nd) as [ds1|] eqn:E; [|done]. simpl. intros Hs.
  eapply kept_trans; [by eapply no_data_kept|by eapply IH].
Qed.

Lemma describe_kept ds gt epsg_code bands na ds' :
  describe el_to_f64 ds gt epsg_code bands na = Ok ds' → kept ds ds'.
Proof.
  unfold describe. destruct (set_geo_transform ds gt) as [ds1|] eqn:E1; [|done]. simpl. intros Hd.
  eapply kept_trans; [by eapply gt_kept|]. revert Hd. clear E1.
  assert (∀ ds2, kept ds1 ds2 →
    match el_to_f64 na with Some nd => set_no_data ds2 nd (seqZ 1 bands) | None => Ok ds2 end = Ok ds' →
    kept ds1 ds') as Hrest.
  { intros ds2 Hp. destruct (el_to_f64 na); [|by intros [= ->]]. intros Hs.
    eapply kept_trans; [exact Hp|by eapply set_no_data_kept]. }
  destruct (0 <? epsg_code); simpl; [|by apply Hrest].
  destruct (from_epsg epsg_code); [|done]. simpl.
  destruct (set_spatial_ref ds1 epsg_code) as [ds2|] eqn:E2; [|done]. simpl. apply Hrest. by eapply ref_kept.
Qed.

Lemma create_only path gt epsg_code rows cols bands na w r w' :
  create (V:=V) el_to_f64 path gt epsg_code rows cols bands na w = (r, w') →
  only path w w' ∧ ∀ wr, r = Ok wr →
    (wr_path wr, wr_rows wr, wr_cols wr) = (path, rows, cols) ∧ own_file wr w'.
Proof.
  unfold create.
  destruct (if bool_decide (parent path = "") then _ else _) as [[[]|e] w1] eqn:Emk.
  2:{ intros [= <- <-]. split; [|done]. case_bool_decide; [done|]. intros q _. by eapply mkdir_frame. }
  assert (only path w w1) as A1.
  { case_bool_decide; [by injection Emk as <-|]. intros q _. by eapply mkdir_frame. }
  destruct gtiff_driver; [|by intros [= <- <-]].
  destruct (gdal_create path cols rows bands w1) as [[ds|e] w2] eqn:Ec; apply create_frame in Ec as [A2 Hp].
  2:{ intros [= <- <-]. split; [by etrans|done]. }
  destruct (Hp ds eq_refl) as [Hpath Hsize]. clear Hp.
  destruct (describe el_to_f64 ds gt epsg_code bands na) as [ds'|e] eqn:Ed; intros [= <- <-].
  - apply describe_kept in Ed as [Ep Es]. split.
    + etrans; [exact A1|]. etrans; [exact A2|]. rewrite <- Hpath, <- Ep. apply close_frame.
    + intros wr [= <-]. split; [done|]. unfold own_file. simpl.
      rewrite <- Hpath, <- Ep, close_size, Es. by rewrite Hsize.
  - split; [|done]. etrans; [exact A1|]. etrans; [exact A2|]. rewrite <- Hpath. apply close_frame.
Qed.

Lemma ensure_open_own wr w r wr' w' : ensure_open wr w = (r, wr', w') → own_file wr w →
  own_step wr wr' w w' ∧ ∀ ds, r = Ok ds → ods_path ds = wr_path wr ∧ ods_size ds = (wr_rows wr, wr_cols wr).
Proof.
  intros He Hown. unfold ensure_open in He. unfold own_step, own_file in *.
  destruct (wr_dataset wr) as [ds|] eqn:E.
  { injection He as <- <- <-. rewrite E. destruct Hown. split; [by split_and!|]. by intros ds' [= <-]. }
  destruct (open_update (wr_path wr) w) as [[ds|e] w1] eqn:Eo; apply update_frame in Eo as [Ho Hp].
  - injection He as <- <- <-. simpl. destruct Hp as [Hpath Hsize]. rewrite Hown in Hsize.
    injection Hsize as Hsize. symmetry in Hsize. split; [by split_and!|]. by intros ? [= <-].
  - injection He as <- <- <-. rewrite E. split; [|done]. split_and!; [done| |done].
    unfold raster_size. by rewrite <- (proj1 Hp).
Qed.

Lemma write_bands_kept ds a off idxs r ds' :
  write_bands (V:=V) (W:=W) ds a off idxs = (r, ds') → kept ds ds'.
Proof.
  revert ds. induction idxs as [|i idxs IH]; intros ds; simpl; [by intros [= _ <-]|].
  destruct (out_rasterband ds (i + 1)); [|by intros [= _ <-]].
  destruct (gdal_write _ _ _ _ _) as [[[]|e] ds1] eqn:E; apply write_kept in E.
  - intros Hw. eapply kept_trans; [exact E|by apply IH].
  - by intros [= _ <-].
Qed.

(** A call on the opened dataset that keeps its path and size. *)
Lemma on_dataset_own wr w ds ds' wr1 w1 : own_step wr wr1 w w1 →
  ods_path ds = wr_path wr ∧ ods_size ds = (wr_rows wr, wr_cols wr) → kept ds ds' →
  own_step wr (with_dataset wr1 (Some ds')) w w1.
Proof.
  intros (A1 & A2 & A3) [A4 A5] [A6 A7]. injection A1 as A8 A9 A10. split_and!; [simpl; congruence| |done].
  unfold own_file. simpl. split; congruence.
Qed.

Lemma write_block_own wr a win w r wr' w' : write_block wr a win w = (r, wr', w') → own_file wr w →
  own_step wr wr' w w'.
Proof.
  unfold write_block. destruct (ensure_open wr w) as [[ro wr1] w1] eqn:E. intros Hw Hown.
  destruct (ensure_open_own _ _ _ _ _ E Hown) as [Ho Hds].
  destruct ro as [ds|e]; [|by injection Hw as <- <- <-].
  destruct (write_bands _ _ _ _) as [r1 ds1] eqn:Eb. injection Hw as <- <- <-.
  eapply on_dataset_own; [exact Ho|by apply Hds|by eapply write_bands_kept].
Qed.

Lemma build_overviews_own wr s l w r wr' w' : build_overviews wr s l w = (r, wr', w') → own_file wr w →
  own_step wr wr' w w'.
Proof.
  unfold build_overviews. destruct (ensure_open wr w) as [[ro wr1] w1] eqn:E. intros Hw Hown.
  destruct (ensure_open_own _ _ _ _ _ E Hown) as [Ho Hds].
  destruct ro as [ds|e]; [|by injection Hw as <- <- <-].
  destruct (gdal_overviews _ _ _) as [r1 ds1] eqn:Eb. injection Hw as <- <- <-.
  eapply on_dataset_own; [exact Ho|by apply Hds|by eapply overviews_kept].
Qed.

Context `{GdalFiles}.

Lemma pool_step_own wr w p c p' : own_step wr (writer p) w (world p) → pool_step p c = Some p' →
  own_step wr (writer p') w (world p').
Proof.
  intros Ho. destruct c as [t i re|i re|i]; simpl.
  - unfold begin_job. destruct (todo p !! i) as [j|]; [|done]. simpl.
    destruct (j_compute j _) as [[[a|e]|] cache]; by intros [= <-].
  - unfold write_job. destruct (inflight p !! i) as [[win a]|]; [|done]. simpl.
    destruct (write_block _ _ _ _) as [[r wr1] w'] eqn:E. intros [= <-]. simpl.
    eapply own_step_trans; [exact Ho|]. eapply write_block_own; [exact E|]. apply Ho.
  - unfold skip_job. destruct (todo p !! i); [|done]. simpl. destruct (_ || _); [|done]. by intros [= <-].
Qed.

Lemma own_step_refl wr w : own_file wr w → own_step wr wr w w.
Proof. intros Ho. by split_and!. Qed.

Lemma run_own rayon J schedule wr w r wr' w' :
  run_with_overviews rayon J schedule wr w = Some (r, wr', w') → own_file wr w → own_step wr wr' w w'.
Proof.
  unfold run_with_overviews, try_for_each. intros Hrun Hown.
  destruct rayon as [[]|e]; [|injection Hrun as <- <- <-; by apply own_step_refl].
  destruct (run_pool _ _) as [p|] eqn:Ep; [|done]. simpl in Hrun.
  assert (own_step wr (writer p) w (world p)) as Ho.
  { assert (own_step wr (writer (new_pool J wr w)) w (world (new_pool J wr w))) as A0
      by by apply own_step_refl.
    revert A0 Ep. generalize (new_pool J wr w). clear -schedule.
    induction schedule as [|c s IH]; intros p0 A0; simpl; [by intros [= <-]|].
    destruct (pool_step p0 c) as [p1|] eqn:Es; [|done]. simpl. apply IH. by eapply pool_step_own. }
  destruct (finished p); [|done]. simpl in Hrun.
  destruct (pool_result p) as [[[]|e]|]; [|by injection Hrun as <- <- <-..].
  destruct (build_overviews _ _ _ _) as [[ro wo] w2] eqn:Eo. injection Hrun as <- <- <-.
  eapply own_step_trans; [exact Ho|]. eapply build_overviews_own; [exact Eo|]. apply Ho.
Qed.
End frames.

(** ** The output of a reduction *)

(** The pixels of a file as elements of one type. *)
Definition px {R W} `{ElementLaws R W} (w : W) : string → Z → Z → Z → R :=
  λ p b r c, of_raw (file_pixel w p b r c).

(** No mapping reads the file that is written. *)
Definition reads_not (out : string) (d : RasterDataset) : Prop := ∀ m, m ∈ ds_mappings d → lm_source m ≠ out.

Lemma source_pixel_ext {R} (zero : R) (px1 px2 : string → Z → Z → Z → R) d t l r c :
  (∀ m, m ∈ ds_mappings d → px1 (lm_source m) (lm_band m) r c = px2 (lm_source m) (lm_band m) r c) →
  source_pixel zero px1 d t l r c = source_pixel zero px2 d t l r c.
Proof.
  intros Hpx. unfold source_pixel. destruct (slot (ds_mappings d) t l) as [m|] eqn:E; [|done].
  apply Hpx. unfold slot in E. apply last_Some_elem_of in E. by apply list_elem_of_filter in E as [_ ?].
Qed.

Lemma px_only {R W} `{ElementLaws R W} (out : string) (w w' : W) p b r c : only out w w' → p ≠ out →
  px (R:=R) w' p b r c = px w p b r c.
Proof. intros Ho Hp. unfold px. by rewrite (proj2 (Ho p Hp)). Qed.

(** A dataset as [build] cuts it. *)
Definition cut (crop : Z) (d : RasterDataset) : Prop :=
  grid_ok (shape_grid (ds_shape d)) (mkBlockSize crop crop) ∧
  ∃ gt epsg, partition_blocks (ds_shape d) (mkBlockSize crop crop) (Overlap_uniform 0) gt epsg = Some (ds_blocks d).

(** A raster of that shape whose band holds the values [P]. *)
Definition filled {V W} `{ElementLaws V W} (w : W) (out : string) (shape : RasterShape) (P : Z → Z → option V) : Prop :=
  raster_size w out = Some (rs_rows shape, rs_cols shape) ∧
  ∀ row col, 0 ≤ row < rs_rows shape → 0 ≤ col < rs_cols shape →
    ∃ v, P row col = Some v ∧ file_pixel w out 1 row col = to_raw v.

Definition panics {V} (shape : RasterShape) (P : Z → Z → option V) : Prop :=
  ∃ row col, 0 ≤ row < rs_rows shape ∧ 0 ≤ col < rs_cols shape ∧ P row col = None.

(** What a step that writes the raster [out] leaves: other files are as before; if it
    succeeds the file has the values [P], and if it panics [P] does somewhere. *)
Definition writes {V W A} `{ElementLaws V W} (out : string) (shape : RasterShape) (P : Z → Z → option V)
    (w : W) (e : Ending W A) : Prop :=
  match e with
  | Done r w' => only out w w' ∧ (is_ok r = true → filled w' out shape P)
  | Panicked w' => only out w w' ∧ panics shape P
  | Endless => True
  end.

Section path_output.
Context {V W : Type} `{ElementLaws V W} (rayon : result string ()) (schedule : list Choice).

(** A loop over blocks between the creation of the file and its closing. *)
Lemma path_writes at_ d out na (method : Writer V W → W → option (option (result Raster.Error ()) * Writer V W * W))
    (P : Z → Z → option V) w :
  (∀ wr w1 r wr' w', only out w w1 → method wr w1 = Some (r, wr', w') →
     ∃ files J, @run_with_overviews V W files _ rayon J schedule wr w1 = Some (r, wr', w') ∧
     (r = None → panics (ds_shape d) P) ∧
     (r = Some (Ok ()) → ∃ ds, wr_dataset wr' = Some ds ∧
        ∀ row col, 0 ≤ row < rs_rows (ds_shape d) → 0 ≤ col < rs_cols (ds_shape d) →
          is_Some (P row col) ∧ gdal_pixel ds 1 row col = P row col)) →
  writes out (ds_shape d) P w (run_path at_ (into_path el_to_f64 d out 1 na method) w).
Proof.
  intros Hm. unfold run_path, into_path.
  destruct (create _ _ _ _ _ _ _ _ w) as [[wr|e] w1] eqn:Ec;
    apply create_only in Ec as [Ho Hwr]; [|by split].
  destruct (Hwr wr eq_refl) as [[= Hp Hrows Hcols] Hown]. clear Hwr.
  destruct (method wr w1) as [[[r wr'] w2]|] eqn:Em; [|done]. simpl.
  destruct (Hm _ _ _ _ _ Ho Em) as (files & J & Hrun & Hpanic & Hok).
  destruct (run_own _ _ _ _ _ _ _ _ Hrun Hown) as ([= Hp' Hrows' Hcols'] & Hown' & Hf).
  rewrite Hp in Hp', Hf. unfold own_file in Hown'.
  assert (only out w (close_writer wr' w2)) as Hall.
  { etrans; [exact Ho|]. etrans; [exact Hf|]. unfold close_writer.
    destruct (wr_dataset wr') as [ds|] eqn:E; [|done]. destruct Hown' as [Hpath _].
    rewrite <- Hp', <- Hpath. apply close_frame. }
  destruct r as [[[]|e]|]; (split; [exact Hall|]); [|done|by apply Hpanic].
  intros _. destruct (Hok eq_refl) as (ds & Eds & Hpx). rewrite Eds in Hown'. destruct Hown' as [Hpath Hsize].
  unfold close_writer. rewrite Eds, <- Hp', <- Hpath. split.
  - rewrite close_size, Hsize. congruence.
  - intros row col Hr Hc. destruct (Hpx row col Hr Hc) as [[v Hv] Hg]. exists v. split; [done|].
    apply close_pixel. by rewrite Hg.
Qed.
End path_output.

Section reduction.
Context {V W : Type} `{ElementLaws V W}.
Context {R : Type} `{!Element R W, !ElementLaws R W}.

Lemma reduce_writes crop rayon schedule at_ d (worker : DataBlock R → option (Array3 V)) g dim out na w :
  Pointwise worker g → cut crop d → reads_not out d →
  writes out (ds_shape d) (pixel_at el_zero (px w) d g) w
    (reduce_to rayon schedule at_ d (λ b _, worker b) dim out na w).
Proof.
  intros Hpw (Hgrid & gt & epsg & Hcut) Hread. apply (path_writes rayon schedule).
  intros wr w1 r wr' w' Ho Hrun. exists (files_at w1). eexists. split; [exact Hrun|].
  assert (∀ row col, pixel_at el_zero (px w) d g row col = pixel_at el_zero (px w1) d g row col) as Hpx.
  { intros row col. unfold pixel_at. apply pw_ext. intros t l. apply source_pixel_ext. intros m Hm.
    symmetry. apply (px_only out); [done|by apply Hread]. }
  destruct rayon as [[]|e].
  - destruct (@reduction_run W (files_at w1) R (read_at w1) el_zero (px w1) _ V _ _ d _ _ _ Hgrid Hcut
      worker g Hpw dim schedule wr w1 r wr' w' Hrun) as (Hpanic & _ & Hok).
    split.
    + intros Hr. destruct (Hpanic Hr) as (row & col & ? & ? & E). exists row, col. by rewrite Hpx.
    + intros Hr. destruct (Hok Hr) as (ds & E & Hall). exists ds. split; [done|]. intros row col Hrow Hcol.
      rewrite Hpx. by apply Hall.
  - by injection Hrun as <- <- <-.
Qed.
End reduction.

Section masked_reduction.
Context {V W : Type} `{ElementLaws V W}.
Context {R : Type} `{!Element R W, !ElementLaws R W} {U : Type} `{!Element U W, !ElementLaws U W}.

(** As many rows and columns of blocks. *)
Definition same_grid (crop : Z) (d mask : RasterDataset) : Prop :=
  div_ceil (rs_rows (ds_shape d)) crop = div_ceil (rs_rows (ds_shape mask)) crop ∧
  div_ceil (rs_cols (ds_shape d)) crop = div_ceil (rs_cols (ds_shape mask)) crop.

Lemma mask_writes crop rayon schedule at_ d mask (worker : DataBlock R → DataBlock U → option (Array3 V)) g
    dim out na w :
  PointwiseMask worker g → cut crop d → cut crop mask → same_grid crop d mask →
  reads_not out d → reads_not out mask →
  writes out (ds_shape d) (λ row col, Some (masked_pixel el_zero el_zero (px w) (px w) d mask g row col)) w
    (mask_to rayon schedule at_ d mask (λ b m _, worker b m) dim out na w).
Proof.
  intros Hpm (Hgrid & gt & epsg & Hcut) (Hgrid' & gt' & epsg' & Hcut') [Hnr Hnc] Hread Hread'.
  destruct (div_ceil_Some (rs_rows (ds_shape d)) crop (go_brows _ _ Hgrid)) as [nr Hnr1].
  destruct (div_ceil_Some (rs_cols (ds_shape d)) crop (go_bcols _ _ Hgrid)) as [nc Hnc1].
  assert (∀ w1, only out w w1 → ∀ row col,
    masked_pixel el_zero el_zero (px w1) (px w1) d mask g row col =
    masked_pixel el_zero el_zero (px w) (px w) d mask g row col) as Hpx.
  { intros w1 Ho row col. unfold masked_pixel. apply (pm_ext (worker := worker)).
    - intros t l. apply source_pixel_ext. intros m Hm. apply (px_only out); [done|by apply Hread].
    - destruct (_ && _); [|done]. intros t l. apply source_pixel_ext. intros m Hm.
      apply (px_only out); [done|by apply Hread']. }
  apply (path_writes rayon schedule). intros wr w1 r wr' w' Ho Hrun. exists (files_at w1).
  pose proof (@blocks_length d mask _ gt gt' epsg epsg' nr nc Hgrid Hcut Hgrid' Hcut' Hnr1 Hnc1
    (eq_trans (eq_sym Hnr) Hnr1) (eq_trans (eq_sym Hnc) Hnc1)) as Hlen.
  assert (∃ J, run_with_overviews (H := files_at w1) rayon J schedule wr w1 = Some (r, wr', w')) as [J HJ].
  { unfold apply_reduction_with_mask_to_writer, masked_to_writer, same_blocks, num_blocks in Hrun.
    rewrite Hlen, Nat.eqb_refl in Hrun. simpl in Hrun. by eexists. }
  exists J. split; [exact HJ|]. destruct rayon as [[]|e].
  - destruct (@masked_run W (files_at w1) R U V (read_at w1) (read_at w1) el_zero el_zero (px w1) _ (px w1) _ _ _
      d mask _ gt gt' epsg epsg' nr nc Hgrid Hcut Hgrid' Hcut' Hnr1 Hnc1 (eq_trans (eq_sym Hnr) Hnr1)
      (eq_trans (eq_sym Hnc) Hnc1) worker g Hpm schedule wr w1 r wr' w' Hrun) as [Hn Hok].
    split; [done|]. intros Hr. destruct (Hok Hr) as (ds & E & Hall). exists ds. split; [done|].
    intros row col Hrow Hcol. rewrite (Hall row col Hrow Hcol), (Hpx w1 Ho). by split.
  - unfold run_with_overviews, try_for_each in HJ. by injection HJ as <- <- <-.
Qed.
End masked_reduction.

(** ** The dataset of a scene *)

Section datasets.
Context {W : Type} `{Storage W, Probing W} (crop_size : Z).
Hypothesis crop_pos : 0 < crop_size.

Definition size_ok (w : W) (p : string) : Prop :=
  ∀ rows cols, raster_size w p = Some (rows, cols) → in_u 63 rows ∧ in_u 63 cols.

Lemma scene_dataset_done b1 b2 p paths times layers ms w d w' : size_ok w p →
  scene_dataset crop_size b1 b2 (p :: paths) times layers ms w = Done (Ok d) w' →
  w' = w ∧ cut crop_size d ∧ ds_mappings d = ms ∧ ∃ rows cols, raster_size w p = Some (rows, cols) ∧
    ds_shape d = mkRasterShape times layers rows cols.
Proof using crop_pos.
  intros Hsize. unfold scene_dataset, from_files. rewrite bool_decide_false by done.
  unfold build. cbn [b_source block_size resolution from_source local_paths].
  destruct (validate _ _); [|done]. unfold inspect_first_file, raster_size at 1.
  destruct (probe_file w p) as [pr|] eqn:Epr; [|done]. cbn [map_err mbind result_bind].
  destruct (p_gt pr) as [gt|]; [|done]. cbn [map_err mbind result_bind].
  destruct (Hsize (p_rows pr) (p_cols pr)) as [Hr Hc]; [by unfold raster_size; rewrite Epr|].
  match goal with |- context [partition_blocks ?s ?b ?o ?g ?e] =>
    destruct (partition_blocks s b o g e) as [blocks|] eqn:Ep; [|done] end.
  cbn. intros [= <- <-]. split_and!; [done| |done|by eexists _, _]. split.
  - by split.
  - eexists gt, _. exact Ep.
Qed.

Lemma scene_dataset_state b1 b2 paths times layers ms w r w' :
  scene_dataset crop_size b1 b2 paths times layers ms w = Done r w' → w' = w.
Proof.
  unfold scene_dataset. destruct (from_files paths); [|by intros [= _ <-]].
  destruct (build _ _ _) as [[|]|]; [| |done]; by intros [= _ <-].
Qed.
End datasets.

(** ** Loops over scenes *)

(** What holds of a file holds as long as nothing touches it. *)
Lemma filled_same {V W} `{ElementLaws V W} (w w' : W) out shape (P : Z → Z → option V) :
  same_file out w w' → filled w out shape P → filled w' out shape P.
Proof.
  intros [A1 A2] [A3 A4]. split; [unfold raster_size; by rewrite <- A1|].
  intros row col Hr Hc. destruct (A4 row col Hr Hc) as (v & Hv & Hp). exists v. by rewrite <- A2.
Qed.

Section scene_loop.
Context {A W : Type} `{Pixels W} (xs : list A) (out : nat → string) (step : nat → A → M W string).
Context (Q : nat → A → W → Prop) (w : W).
Hypothesis out_inj : ∀ i j, (i < length xs)%nat → (j < length xs)%nat → out i = out j → i = j.
Hypothesis Q_same : ∀ t x w1 w2, same_file (out t) w1 w2 → Q t x w1 → Q t x w2.

(** Nothing but the outputs of the scenes. *)
Definition only_outputs (n : nat) (w1 w2 : W) : Prop := ∀ q, (∀ t, (t < n)%nat → q ≠ out t) → same_file q w1 w2.

Hypothesis step_ok : ∀ t x w1 y w2, xs !! t = Some x → only_outputs t w w1 → step t x w1 = Done (Ok y) w2 →
  y = out t ∧ only (out t) w1 w2 ∧ Q t x w2.

(** Each scene in its own file; files of other scenes and other files are kept. *)
Lemma scene_loop_done ys w' : for_each step 0 xs w = Done (Ok ys) w' →
  ys = out <$> seq 0 (length xs) ∧ only_outputs (length xs) w w' ∧ ∀ t x, xs !! t = Some x → Q t x w'.
Proof using All.
  intros Hl.
  destruct (for_each_inv step (λ ys w1, ys = out <$> seq 0 (length ys) ∧ only_outputs (length ys) w w1 ∧
    ∀ t x, (t < length ys)%nat → xs !! t = Some x → Q t x w1) xs 0 w ys w') as [(E & Ho & HQ) Hlen]; [| |exact Hl|].
  - intros x acc w1 y w2 Hx (Eacc & Ho & HQ) Hs. simpl in Hs.
    destruct (step_ok _ _ _ _ _ Hx Ho Hs) as (-> & Hf & Hnew).
    assert (length acc < length xs)%nat as Hlt by (by apply lookup_lt_Some in Hx).
    rewrite length_app. simpl. rewrite Nat.add_1_r, seq_S, fmap_app, <- Eacc. split_and!; [done| |].
    + intros q Hq. etrans; [apply Ho; intros; apply Hq; lia|]. apply Hf, Hq. lia.
    + intros t z Ht Hz. destruct (decide (t = length acc)) as [->|Hne]; [congruence|].
      apply (Q_same t z w1); [|apply HQ; [lia|done]]. apply Hf. intros E.
      apply Hne. apply out_inj; [lia|done|done].
  - split_and!; [done| |simpl; lia]. by intros q _.
  - rewrite Hlen in *. split_and!; [done|done|]. intros t x Hx. apply HQ; [by apply lookup_lt_Some in Hx|done].
Qed.
End scene_loop.

(** ** Names of output files *)

Lemma str_app_inv_r (a b t : string) : a +:+ t = b +:+ t → a = b.
Proof.
  intros E. apply bytes_of_inj. apply (app_inv_tail (bytes_of t)). rewrite <- !bytes_of_app. by rewrite E.
Qed.

(** Names [prefix ++ "_t" ++ number ++ ".tif"] tell prefix and number apart. *)
Lemma scene_name_inj p1 p2 (t1 t2 : nat) :
  p1 +:+ "_t" +:+ pretty (Z.of_nat t1) +:+ ".tif" = p2 +:+ "_t" +:+ pretty (Z.of_nat t2) +:+ ".tif" →
  p1 = p2 ∧ t1 = t2.
Proof.
  intros E.
  assert (∀ (p : string) (t : nat), rsplit_once "_"%char (p +:+ "_t" +:+ pretty (Z.of_nat t) +:+ ".tif") =
    Some (p, "t" +:+ pretty (Z.of_nat t) +:+ ".tif")) as Hsplit.
  { intros p t. apply (rsplit_once_app "_"%char p ("t" +:+ pretty (Z.of_nat t) +:+ ".tif")).
    rewrite !has_char_app, pretty_Z_no_char by (done || lia). done. }
  pose proof (f_equal (rsplit_once "_"%char) E) as E2. rewrite !Hsplit in E2. injection E2 as -> E2. split; [done|].
  rewrite !str_app_nil in E2. apply str_app_inv_r in E2. apply (inj pretty) in E2. lia.
Qed.

Lemma join_path_inj dir a b : starts_with "/" a = starts_with "/" b → join_path dir a = join_path dir b → a = b.
Proof.
  unfold join_path. intros ->. destruct (starts_with "/" b); [done|].
  destruct (_ || _); intros E; apply (inj (String.app dir)) in E; [done|]. by injection E.
Qed.

(** ** One scene *)

(** The element a slot gets from the files. *)
Definition mapped {R} (zero : R) (px : string → Z → Z → Z → R) (ms : list LayerMapping) (t l r c : Z) : R :=
  match slot ms t l with Some m => px (lm_source m) (lm_band m) r c | None => zero end.

Section scene_steps.
Context {V W : Type} `{ElementLaws V W} {R : Type} `{!Element R W, !ElementLaws R W}.
Context (crop_size : Z) (crop_pos : 0 < crop_size).

(** The dataset of a scene reduced into a new file. *)
Lemma reduce_scene_done rayon schedule b1 b2 at_ p paths nt nl ms
    (worker : DataBlock R → Dimension → option (Array3 V)) g dim out na w y w' :
  Pointwise (λ b, worker b dim) g → size_ok w p → (∀ m, m ∈ ms → lm_source m ≠ out) →
  (rds ← scene_dataset crop_size b1 b2 (p :: paths) nt nl ms;
   _ ← reduce_to rayon schedule at_ rds worker dim out na; mret out) w = Done (Ok y) w' →
  y = out ∧ only out w w' ∧ ∃ rows cols, raster_size w p = Some (rows, cols) ∧
    filled w' out (mkRasterShape nt nl rows cols)
      (λ row col, g nt nl (λ t l, mapped el_zero (px w) ms t l row col)).
Proof using crop_pos.
  intros Hpw Hsize Hread (d & w1 & Hd & ([] & w2 & Hr & [<- <-]%ret_done)%bind_done)%bind_done.
  apply (scene_dataset_done crop_size crop_pos) in Hd as (-> & Hcut & Hms & rows & cols & Hrs & Hshape); [|done].
  split; [done|].
  pose proof (reduce_writes crop_size rayon schedule at_ d (λ b, worker b dim) g dim out na w Hpw Hcut) as Hw.
  assert (reads_not out d) as Hn by (unfold reads_not; by rewrite Hms). specialize (Hw Hn).
  assert (reduce_to rayon schedule at_ d (λ b _, worker b dim) dim out na w = Done (Ok ()) w2) as E by exact Hr.
  cbv beta in Hw. rewrite E in Hw. destruct Hw as [Ho Hf]. split; [done|]. exists rows, cols. split; [done|].
  specialize (Hf eq_refl). rewrite Hshape in Hf. unfold pixel_at, source_pixel in Hf.
  rewrite Hshape, Hms in Hf. exact Hf.
Qed.

Context {U : Type} `{!Element U W, !ElementLaws U W}.

Lemma mask_scene_done rayon schedule b1 b2 b3 b4 at_ p mp nt nl ms ms'
    (worker : DataBlock R → DataBlock U → Dimension → option (Array3 V)) g dim out na w y w' rows cols mrows mcols :
  PointwiseMask (λ b m, worker b m dim) g → size_ok w p → size_ok w mp →
  (∀ m, m ∈ ms → lm_source m ≠ out) → (∀ m, m ∈ ms' → lm_source m ≠ out) →
  raster_size w p = Some (rows, cols) → raster_size w mp = Some (mrows, mcols) →
  div_ceil rows crop_size = div_ceil mrows crop_size → div_ceil cols crop_size = div_ceil mcols crop_size →
  (rds ← scene_dataset crop_size b1 b2 [p] nt nl ms; mrds ← scene_dataset crop_size b3 b4 [mp] nt nl ms';
   mask_to rayon schedule at_ rds mrds worker dim out na) w = Done (Ok y) w' →
  only out w w' ∧
    filled w' out (mkRasterShape nt nl rows cols) (λ row col, Some (g
      (λ t l, mapped el_zero (px w) ms t l row col)
      (if (row <? mrows) && (col <? mcols) then Some (λ t l, mapped el_zero (px w) ms' t l row col) else None))).
Proof using crop_pos.
  intros Hpm Hsize Hsize' Hread Hread' Hs1 Hs2 Hg1 Hg2
    (d & w1 & Hd & (m & w2 & Hm & Hr)%bind_done)%bind_done.
  apply (scene_dataset_done crop_size crop_pos) in Hd as (-> & Hcut & Hms & r & c & Hrs & Hshape); [|done].
  apply (scene_dataset_done crop_size crop_pos) in Hm as (-> & Hcut' & Hms' & r' & c' & Hrs' & Hshape'); [|done].
  rewrite Hs1 in Hrs. injection Hrs as <- <-. rewrite Hs2 in Hrs'. injection Hrs' as <- <-.
  pose proof (mask_writes crop_size rayon schedule at_ d m (λ b m, worker b m dim) g dim out na w Hpm Hcut Hcut') as Hw.
  unfold same_grid in Hw. rewrite Hshape, Hshape' in Hw. specialize (Hw (conj Hg1 Hg2)).
  unfold reads_not in Hw. rewrite Hms, Hms' in Hw. specialize (Hw Hread Hread').
  assert (mask_to rayon schedule at_ d m (λ b m _, worker b m dim) dim out na w = Done (Ok y) w') as E by exact Hr.
  cbv beta in Hw. rewrite E in Hw. destruct Hw as [Ho Hf]. split; [done|]. specialize (Hf eq_refl).
  unfold masked_pixel, source_pixel in Hf. rewrite Hms, Hms', Hshape' in Hf. exact Hf.
Qed.
End scene_steps.

Lemma scene_names_inj scratch_dir prefix i j :
  scene_name scratch_dir prefix i = scene_name scratch_dir prefix j → i = j.
Proof.
  intros E%join_path_inj; [by apply scene_name_inj in E as [_ ?]|].
  destruct prefix as [|c s]; [done|]. rewrite !str_app_cons. unfold starts_with. simpl.
  by destruct (bool_decide _).
Qed.

(** A file name shows how the prefix it was made from ends. *)
Lemma scene_name_suffix scratch_dir p1 p2 s1 s2 b1 b2 t1 t2 :
  last (bytes_of s1) = Some b1 → last (bytes_of s2) = Some b2 → b1 ≠ b2 →
  scene_name scratch_dir (p1 +:+ s1) t1 ≠ scene_name scratch_dir (p2 +:+ s2) t2.
Proof.
  intros E1 E2 Hne.
  assert (∀ p t, ∃ pre, scene_name scratch_dir p t = (pre +:+ p) +:+ "_t" +:+ pretty (Z.of_nat t) +:+ ".tif") as Hform.
  { intros p t. unfold scene_name, join_path. destruct (starts_with _ _); [by exists ""|].
    destruct (_ || _); [exists scratch_dir|exists (scratch_dir +:+ "/")]; by rewrite !str_app_assoc. }
  destruct (Hform (p1 +:+ s1) t1) as [q1 ->], (Hform (p2 +:+ s2) t2) as [q2 ->].
  intros [E _]%scene_name_inj. rewrite <- !str_app_assoc in E.
  apply (f_equal (last ∘ bytes_of)) in E. simpl in E. rewrite !(bytes_of_app _ s1), !(bytes_of_app _ s2) in E.
  rewrite !last_app, E1, E2 in E. by injection E.
Qed.

(** ** Files in memory

    A file system that keeps the laws, to run the processes on. *)

Module Memory.
(** A sample, as it was written. *)
Inductive cell := Int (z : Z) | Real (x : f32).

Definition cell_Z (c : cell) : Z := match c with Int z => z | Real x => f64_trunc_Z x end.
Definition cell_f32 (c : cell) : f32 := match c with Int z => f32_of_Z z | Real x => x end.

Record file := mkFile { f_rows : Z; f_cols : Z; f_cells : Z → Z → Z → cell }.
Record dataset (R : Type) := mkDataset {
  o_path : string; o_rows : Z; o_cols : Z; o_cells : Z → Z → Z → option R }.
Arguments mkDataset {R}. Arguments o_path {R}. Arguments o_rows {R}. Arguments o_cols {R}. Arguments o_cells {R}.

Notation World := (gmap string file).

Definition gt : GeoTransform := mkGeoTransform f64_zero f64_one f64_zero f64_zero f64_zero f64_neg_one.

#[export] Instance storage : Storage World := {|
  handle := file;
  open_file w p := match w !! p with Some f => Ok f | None => Err "no such file" end;
  raster_band _ _ _ := Ok () |}.

#[export] Instance probing : Probing World := {|
  file_exists w p := bool_decide (is_Some (w !! p));
  probe_file w p := match w !! p with
    | Some f => Ok (mkProbe (f_cols f) (f_rows f) 1 (Ok gt) None)
    | None => Err "no such file"
    end |}.

#[export] Instance pixels : Pixels World := {|
  raw := cell; file_pixel w p b r c := match w !! p with Some f => f_cells f b r c | None => Int 0 end |}.

(** Elements of one type. *)
Section element.
Context {R : Type} (of_cell : cell → R) (to_cell : R → cell).

Definition close (ds : dataset R) (w : World) : World :=
  <[o_path ds := mkFile (o_rows ds) (o_cols ds)
      (λ b r c, match o_cells ds b r c with Some v => to_cell v | None => Int 0 end)]> w.

Definition write (ds : dataset R) (b : Z) (off size : Z * Z) (data : Z → Z → R) : dataset R :=
  mkDataset (o_path ds) (o_rows ds) (o_cols ds) (λ b' r c,
    if (b' =? b) && (off.2 <=? r) && (r <? off.2 + size.2) && (off.1 <=? c) && (c <? off.1 + size.1)
    then Some (data (r - off.2) (c - off.1)) else o_cells ds b' r c).

Definition out : GdalOut R World := {|
  ods := dataset R;
  create_dir_all _ w := (Ok (), w); gtiff_driver := Ok ();
  gdal_create p c r _ w := (Ok (mkDataset p r c (λ _ _ _, None)), w);
  set_geo_transform ds _ := Ok ds; set_spatial_ref ds _ := Ok ds; from_epsg _ := Ok ();
  out_rasterband _ _ := Ok (); set_no_data_value ds _ _ := Ok ds; gdal_close := close;
  open_update p w := match w !! p with
    | Some f => (Ok (mkDataset p (f_rows f) (f_cols f) (λ b r c, Some (of_cell (f_cells f b r c)))), w)
    | None => (Err "no such file", w)
    end;
  gdal_write ds b off size data := (Ok (), write ds b off size data);
  gdal_overviews ds _ _ := (Ok (), ds);
  gdal_pixel := o_cells |}.

Definition element : Element R World :=
  Build_Element R World _ (of_cell (Int 0)) (λ _, None)
    (λ w h b off size, Ok (λ r c, of_cell (f_cells h b (off.2 + r) (off.1 + c)))) out.

Lemma close_only ds w : only (o_path ds) w (close ds w).
Proof.
  intros q Hq. unfold close. split; simpl; [by rewrite lookup_insert_ne|].
  intros b r c. by rewrite lookup_insert_ne.
Qed.

Definition laws : @ElementLaws R World _ _ _ element.
Proof.
  refine (@Build_ElementLaws R World _ _ _ element of_cell to_cell (λ v, of_cell (to_cell v) = v) (λ v H, H)
    o_path (λ ds, (o_rows ds, o_cols ds)) _ _ _ _ _ _ _ _ _ _ _ _ _).
  - intros w s h b off size f Ho [= <-] r c _ _. simpl in *. by destruct (w !! s); [injection Ho as ->|].
  - split; [by intros ?????? [= <-]|by intros ????? [= _ <-]].
  - by intros p w r w' q [= _ <-].
  - intros p c r b w ro w' [= <- <-]. split; [done|]. by intros ds [= <-].
  - by intros ds g ds' [= <-].
  - by intros ds g ds' [= <-].
  - by intros ds b v ds' [= <-].
  - intros p w ro w' Hu. simpl in Hu. unfold raster_size. simpl.
    destruct (w !! p); injection Hu as <- <-; by split_and!.
  - by intros ds b off size data r ds' [= _ <-].
  - by intros ds s l r ds' [= _ <-].
  - exact close_only.
  - intros ds w. unfold raster_size. simpl. unfold close. by rewrite lookup_insert_eq.
  - intros ds w b r c v Hv. simpl in *. unfold close. rewrite lookup_insert_eq. simpl. by rewrite Hv.
Defined.
End element.

#[export] Instance el_i16 : Element i16 World := element (λ c, I16 (cell_Z c)) (λ v, Int (i16_val v)).
#[export] Instance el_u8 : Element u8 World := element (λ c, U8 (cell_Z c)) (λ v, Int (u8_val v)).
#[export] Instance el_f32 : Element f32 World := element cell_f32 Real.
#[export] Instance laws_i16 : ElementLaws i16 World := laws (λ c, I16 (cell_Z c)) (λ v, Int (i16_val v)).
#[export] Instance laws_u8 : ElementLaws u8 World := laws (λ c, U8 (cell_Z c)) (λ v, Int (u8_val v)).
#[export] Instance laws_f32 : ElementLaws f32 World := laws cell_f32 Real.

(** One thread, block after block. *)
Definition one_by_one (n : nat) : list Choice := mjoin (replicate n [Begin 0 0 false; Write 0 false]).
End Memory.
