(* ===== verification/PixelProcs.v ===== *)
(** * The mask and ndvi processes

    apps/orbit-openeo/src/geo_executor: eval_ndvi.rs, eval_mask_from_values.rs and
    eval_mask.rs.  Each decodes the envelopes of its arguments, reduces the raster of
    every scene by itself into a new file, and encodes a cube of the new files.  The
    schedule of the threads is given for each output file; GDAL, the gdalwarp
    program and serde's printers are parameters. *)

From Stdlib Require Import Ascii.
From S2P Require Import Prelude BTree F64 Text Json Grid Executor Apply Cube CubeOps Raster Blocks Scenes.
Local Open Scope Z_scope.

Definition F32_INDEX_BANDS : list string := ["ndvi"; "ndmi"; "ndwi"; "evi"; "savi"; "msavi"].

(** The band of one file as the layer of a scene. *)
Definition layer_of (layer : nat) (p : string) : LayerMapping := mkLayerMapping p 0 (Z.of_nat layer) 1.

Definition at_scene (t : nat) : string := " t=" +:+ pretty (Z.of_nat t) +:+ ": ".

(** A cube with these members and no other. *)
Definition output_cube (b : btree string (list string)) (box : option (list f64)) (scenes : nat)
    (times layers : option Z) (names : option (list string)) : DataCube :=
  mkDataCube b [] None box (Some (Z.of_nat scenes)) None times layers names None None None None [].

Definition with_source (band : string) (c : DataCube) : DataCube :=
  mkDataCube (bands c) (band_scales c) (cube_collection c) (bbox c) (scene_count c) (datetimes c) (times c)
    (layers c) (layer_names c) (Some band) (masked_bands c) (masked_by c) (replacement c) (extras c).

Definition with_masking (names : list string) (by_ : string) (rep : option Z) (c : DataCube) : DataCube :=
  mkDataCube (bands c) (band_scales c) (cube_collection c) (bbox c) (scene_count c) (datetimes c) (times c)
    (layers c) (layer_names c) (source_band c) (Some names) (Some by_) rep (extras c).

(** [for (k, v) in m { out.insert(k, v) }] *)
Definition insert_all {A} (m out : btree string A) : btree string A :=
  foldl (λ out e, bt_insert e.1 e.2 out) out m.

Definition str_arg (k d : string) (args : Args) : string := default d (bt_get k args ≫= as_str).

(** ** Workers *)

(** The normalised difference of one pixel. *)
Definition ndvi_value (rv nv : i16) : f32 :=
  if (i16_val rv <=? 0) || (i16_val nv <=? 0) then SENTINEL_NDVI_NA
  else
    let r_f := f32_of_Z (i16_val rv) in
    let n_f := f32_of_Z (i16_val nv) in
    let denom := f32_add r_f n_f in
    if f64_ltb (f64_abs denom) f32_one then SENTINEL_NDVI_NA else f32_div (f32_sub n_f r_f) denom.

(** Slicing layer 1 panics where the block has one layer only. *)
Definition pure_ndvi_worker (rdb : DataBlock i16) (_ : Dimension) : option (Array3 f32) :=
  let s := db_shape rdb in
  if (1 <=? rs_times s) && (2 <=? rs_layers s) then
    Some (mkArray3 1 (rs_rows s) (rs_cols s) (λ _ row col, ndvi_value (db_at rdb 0 0 row col) (db_at rdb 0 1 row col)))
  else None.

Definition in_set (values : list Z) (v : u8) : u8 := U8 (if bool_decide (u8_val v ∈ values) then 1 else 0).

(** Indexing time 0, layer 0. *)
Definition first_plane {R V} (b : DataBlock R) (f : R → V) : option (Array3 V) :=
  let s := db_shape b in
  if (0 <? rs_rows s) && (0 <? rs_cols s) && negb ((1 <=? rs_times s) && (1 <=? rs_layers s)) then None
  else Some (mkArray3 1 (rs_rows s) (rs_cols s) (λ _ row col, f (db_at b 0 0 row col))).

Definition from_values_worker (values : list Z) (rdb : DataBlock u8) (_ : Dimension) : option (Array3 u8) :=
  first_plane rdb (in_set values).

(** The data where the mask's block has the pixel and [hidden] does not hide it.  Both
    blocks have a time and a layer: their datasets are given that shape. *)
Definition mask_worker (hidden : u8 → bool) (rep : i16) (rdb : DataBlock i16) (mblock : DataBlock u8)
    (_ : Dimension) : option (Array3 i16) :=
  let s := db_shape rdb in
  Some (mkArray3 1 (rs_rows s) (rs_cols s) (λ _ row col,
    if (row <? rs_rows (db_shape mblock)) && (col <? rs_cols (db_shape mblock)) then
      if hidden (db_at mblock 0 0 row col) then rep else db_at rdb 0 0 row col
    else rep)).

(** ** ndvi *)

Section procs.
Context {W : Type} `{Storage W, Probing W, !Element i16 W, !Element u8 W, !Element f32 W}.
Context (serde_error : Value → string) (to_text : Value → string) `{DebugText}.
Context (scratch_dir : string) (crop_size : Z) (rayon : result string ()) (schedule : string → list Choice).

Definition decode_cube (message : string) (data : Value) : result ExecError DataCube :=
  map_err (λ e, InvalidGraph (message +:+ cube_error_text e)) (from_envelope_owned serde_error data).

Definition take_paths (band message : string) (cube : DataCube) : result ExecError (list string * DataCube) :=
  match take_band band cube with
  | (Ok paths, cube) => Ok (paths, cube)
  | (Err _, _) => Err (InvalidGraph message)
  end.

Definition ndvi_scene (target_band : string) (t : nat) (rn : string * string) : M W string :=
  rds ← scene_dataset crop_size ("ndvi: builder" +:+ at_scene t) ("ndvi: build" +:+ at_scene t)
          [rn.1; rn.2] 1 2 [layer_of 0 rn.1; layer_of 1 rn.2];
  let out_path := scene_name scratch_dir target_band t in
  _ ← reduce_to rayon (schedule out_path) ("ndvi: apply_reduction" +:+ at_scene t) rds pure_ndvi_worker Layer
        out_path SENTINEL_NDVI_NA;
  mret out_path.

(** The cube of the new band and the bands that are left. *)
Definition ndvi_cube (red_band nir_band target_band : string) (ndvi_paths : list string) (cube : DataCube)
    : DataCube :=
  let rest := filter (λ e : string * list string,
    ¬ (e.1 = red_band ∨ e.1 = nir_band ∨ e.1 = target_band)) (bands cube) in
  output_cube (insert_all rest (bt_insert target_band ndvi_paths [])) (bbox cube) (length ndvi_paths)
    (Some (Z.of_nat (length ndvi_paths))) (Some 1) (Some [target_band]).

Definition eval_ndvi (args : Args) : M W Value :=
  let nir_band := str_arg "nir" "B08" args in
  let red_band := str_arg "red" "B04" args in
  let target_band := str_arg "target_band" "ndvi" args in
  data ← lift (need "data" "ndvi: missing `data`" args);
  cube ← lift (decode_cube ("ndvi: input is not a downloaded cube "
    +:+ "(call load_collection with spatial_extent first): ") data);
  '(reds, cube) ← lift (take_paths red_band
    ("ndvi: band `" +:+ red_band +:+ "` not loaded — add it to load_collection.bands") cube);
  '(nirs, cube) ← lift (take_paths nir_band
    ("ndvi: band `" +:+ nir_band +:+ "` not loaded — add it to load_collection.bands") cube);
  if negb (length reds =? length nirs)%nat || bool_decide (reds = []) then
    lift (Err (ExecBackend ("ndvi: mismatched scene counts (" +:+ red_band +:+ "=" +:+ pretty (length reds)
      +:+ ", " +:+ nir_band +:+ "=" +:+ pretty (length nirs) +:+ ")")))
  else
    ndvi_paths ← for_each (ndvi_scene target_band) 0 (zip reds nirs);
    mret (to_envelope (ndvi_cube red_band nir_band target_band ndvi_paths cube)).

(** ** mask_from_values *)

Definition DEFAULT_SCL_MASK_VALUES : list Z := [3; 8; 9; 10; 11].
Definition MAX_VALUES_LEN : Z := 4096.

Fixpoint u8_values (arr : list Value) : result ExecError (list Z) :=
  match arr with
  | [] => Ok []
  | v :: arr =>
      n ← ok_or (as_u64 v) (InvalidGraph "mask_from_values: `values` must be an array of non-negative integers");
      if 255 <? n then
        Err (InvalidGraph ("mask_from_values: value " +:+ pretty n +:+ " out of u8 range (SCL classes fit in 0..=255)"))
      else rest ← u8_values arr; Ok (n :: rest)
  end.

Definition values_arg (args : Args) : result ExecError (list Z) :=
  match bt_get "values" args with
  | None | Some Null => Ok DEFAULT_SCL_MASK_VALUES
  | Some (Array arr) =>
      if MAX_VALUES_LEN <? Z.of_nat (length arr) then
        Err (InvalidGraph ("mask_from_values: `values` array length " +:+ pretty (length arr)
          +:+ " exceeds maximum " +:+ pretty MAX_VALUES_LEN))
      else
        out ← u8_values arr;
        if bool_decide (out = []) then Err (InvalidGraph "mask_from_values: `values` must be a non-empty array")
        else Ok out
  | Some other => Err (InvalidGraph ("mask_from_values: `values` must be an array, got " +:+ to_text other))
  end.

Definition build_mask (values : list Z) (target_band : string) (t : nat) (src_path : string) : M W string :=
  let out_path := scene_name scratch_dir (target_band +:+ "_from_values") t in
  src_rds ← scene_dataset crop_size ("mask_from_values: builder" +:+ at_scene t)
              ("mask_from_values: build" +:+ at_scene t) [src_path] 1 1 [layer_of 0 src_path];
  _ ← reduce_to rayon (schedule out_path) ("mask_from_values: apply_reduction" +:+ at_scene t) src_rds
        (from_values_worker values) Layer out_path (U8 0);
  mret out_path.

Definition from_values_cube (band_name target_band : string) (mask_paths : list string) (cube : DataCube)
    : DataCube :=
  with_source band_name
    (output_cube (bt_insert target_band mask_paths []) (bbox cube) (length mask_paths) None (Some 1)
       (Some [target_band])).

Definition eval_mask_from_values (args : Args) : M W Value :=
  let band_name := str_arg "band" "SCL" args in
  let target_band := str_arg "target_band" "mask" args in
  _ ← lift (validate_identifier band_name "mask_from_values.band");
  _ ← lift (validate_identifier target_band "mask_from_values.target_band");
  values ← lift (values_arg args);
  data ← lift (need "data" "mask_from_values: missing `data`" args);
  cube ← lift (decode_cube ("mask_from_values: input is not a downloaded cube "
    +:+ "(call load_collection with spatial_extent first): ") data);
  '(src_paths, cube) ← lift (take_paths band_name ("mask_from_values: __cube.bands has no `" +:+ band_name
    +:+ "` band — `load_collection.bands` must include `" +:+ chr dquote +:+ band_name +:+ chr dquote +:+ "`") cube);
  if bool_decide (src_paths = []) then
    lift (Err (InvalidGraph ("mask_from_values: __cube.bands[" +:+ band_name
      +:+ "] is empty (no scenes loaded)")))
  else
    mask_paths ← for_each (build_mask values target_band) 0 src_paths;
    mret (to_envelope (from_values_cube band_name target_band mask_paths cube)).

(** ** mask *)

Definition i16_min : Z := - 32768.

(** [f.clamp(i16::MIN, i16::MAX) as i16] *)
Definition i16_of_f64 (f : f64) : Z := f64_trunc_Z (f64_clamp f (f64_of_Z i16_min) (f64_of_Z 32767)).

Definition replacement_arg (args : Args) : result ExecError Z :=
  match bt_get "replacement" args with
  | None | Some Null => Ok i16_min
  | Some (Number n) =>
      match as_f64 (Number n) with
      | Some f => Ok (i16_of_f64 f)
      | None => Err (InvalidGraph "mask: replacement number out of range")
      end
  | Some other => Err (InvalidGraph ("mask: replacement must be a number or null, got " +:+ to_text other))
  end.

(** One scene of one band through the mask's worker; [who] begins the errors. *)
Definition mask_scene (who label data_word mask_word : string) (hidden : u8 → bool) (rep : Z) (t : nat)
    (band_path mask_path out_path : string) : M W () :=
  let data_label := who +:+ ": " +:+ label +:+ data_word in
  let mask_label := who +:+ ": " +:+ mask_word in
  data_rds ← scene_dataset crop_size (data_label +:+ " builder" +:+ at_scene t)
               (data_label +:+ " build" +:+ at_scene t) [band_path] 1 1 [layer_of 0 band_path];
  mask_rds ← scene_dataset crop_size (mask_label +:+ " builder" +:+ at_scene t)
               (mask_label +:+ " build" +:+ at_scene t) [mask_path] 1 1 [layer_of 0 mask_path];
  mask_to rayon (schedule out_path) (who +:+ ": " +:+ label +:+ " apply_reduction_with_mask" +:+ at_scene t)
    data_rds mask_rds (mask_worker hidden (I16 rep)) Layer out_path (I16 rep).

(** All scenes of a band; [name] begins the names of the new files. *)
Definition mask_band (scene : nat → string → string → string → M W ()) (name : string)
    (paths mask_paths : list string) : M W (list string) :=
  for_each (λ t p,
    let out_path := scene_name scratch_dir name t in
    _ ← scene t p.1 p.2 out_path; mret out_path) 0 (zip paths mask_paths).

(** The same for the bands of a cube, in the order of their keys. *)
Definition each_band (body : string * list string → M W (list string))
    (data_bands : btree string (list string)) : M W (list (string * list string)) :=
  for_each (λ _ e, masked ← body e; mret (e.1, masked)) 0 data_bands.

Definition apply_one (replacement : Z) (label : string) (t : nat) (band_path mask_path out_path : string)
    : M W () :=
  mask_scene "mask" label " data" "mask" (λ v, 0 <? u8_val v) replacement t band_path mask_path out_path.

(** The band keys are checked one by one, as their turn comes. *)
Definition mask_bands (replacement : Z) (mask_paths : list string) (data_bands : btree string (list string))
    : M W (btree string (list string)) :=
  masked ← each_band (λ e,
    _ ← lift (validate_identifier e.1 "mask.bands");
    mask_band (apply_one replacement e.1) (e.1 +:+ "_mask") e.2 mask_paths) data_bands;
  mret (bt_of_list masked).

Definition same_scene_counts (who what : string) (n : nat) (data_bands : btree string (list string))
    : result ExecError () :=
  match find (λ e : string * list string, negb (length e.2 =? n)%nat) data_bands with
  | Some e => Err (ExecBackend (who +:+ ": scene count mismatch (" +:+ e.1 +:+ "=" +:+ pretty (length e.2)
      +:+ ", " +:+ what +:+ "=" +:+ pretty n +:+ ")"))
  | None => Ok ()
  end.

(** The classification bands, which are passed on. *)
Definition scl_passthrough (cube : DataCube) : btree string (list string) :=
  filter (λ e, e.1 ∈ ["SCL"; "scl"]) (bands cube).

(** The bands of 16-bit samples. *)
Definition maskable (cube : DataCube) : btree string (list string) :=
  filter (λ e, e.1 ∉ ["SCL"; "scl"] ++ F32_INDEX_BANDS) (bands cube).

Definition mask_cube (replacement : Z) (masked scl : btree string (list string)) (n : nat)
    (box : option (list f64)) : DataCube :=
  with_masking masked.*1 "mask" (Some replacement)
    (output_cube (insert_all scl masked) box n None None None).

Definition eval_mask (args : Args) : M W Value :=
  replacement ← lift (replacement_arg args);
  data_outer ← lift (need "data" "mask: missing `data.__cube` (run load_collection first)" args);
  data_cube ← lift (decode_cube "mask: missing `data.__cube` (run load_collection first): " data_outer);
  let data_bands := maskable data_cube in
  if bool_decide (data_bands = []) then
    lift (Err (InvalidGraph ("mask: data.__cube has no maskable bands (need ≥1 i16 band in `bands`, "
      +:+ "excluding SCL and index bands like ndvi/ndmi)")))
  else
    mask_outer ← lift (need "mask" "mask: missing `mask.__cube` (mask must be a downloaded cube)" args);
    mcube ← lift (decode_cube "mask: missing `mask.__cube` (mask must be a downloaded cube): " mask_outer);
    match bands mcube with
    | [(_, mask_paths)] =>
        _ ← lift (same_scene_counts "mask" "mask" (length mask_paths) data_bands);
        masked ← mask_bands replacement mask_paths data_bands;
        mret (to_envelope (mask_cube replacement masked (scl_passthrough data_cube) (length mask_paths)
                             (bbox data_cube)))
    | b => lift (Err (InvalidGraph ("mask: mask.__cube must have exactly one band, found " +:+ pretty (length b))))
    end.

(** ** mask_scl_dilation *)

(** The programs the resampling calls: opening for its metadata, and gdalwarp, which
    answers with its status. *)
Record RasterInfo := mkRasterInfo {
  ri_cols : Z; ri_rows : Z; ri_gt : result string GeoTransform; ri_projection : string }.

Context (raster_info : W → string → result string RasterInfo) (mkdirs : string → W → result string () * W).
Context (spawn : list string → W → result string (option string) * W).  (* [None] is success *)
Context (f64_display : f64 → string).

Definition RESOLUTION_TOLERANCE_M : f64 := Eval vm_compute in f64_div f64_one (f64_of_Z 10).

Definition same_step (a b : f64) : bool := f64_leb (f64_abs (f64_sub a b)) RESOLUTION_TOLERANCE_M.

Definition warp_argv (data : RasterInfo) (gt : GeoTransform) (scl_path out_path : string) : list string :=
  let xmin := origin_x gt in
  let ymax := origin_y gt in
  let xmax := f64_add (origin_x gt) (f64_mul (pixel_width gt) (f64_of_Z (ri_cols data))) in
  let ymin := f64_add (origin_y gt) (f64_mul (pixel_height gt) (f64_of_Z (ri_rows data))) in
  ["gdalwarp"; "-q"; "-overwrite"; "-r"; "near"; "-te"; f64_display (f64_min xmin xmax);
   f64_display (f64_min ymin ymax); f64_display (f64_max xmin xmax); f64_display (f64_max ymin ymax);
   "-tr"; f64_display (f64_abs (pixel_width gt)); f64_display (f64_abs (pixel_height gt))]
  ++ (if bool_decide (ri_projection data = "") then [] else ["-t_srs"; ri_projection data])
  ++ [scl_path; out_path].

(** The file of an earlier call is taken when its size fits. *)
Definition resampled_before (w : W) (out_path : string) (data : RasterInfo) : bool :=
  file_exists w out_path &&
  match raster_info w out_path with
  | Ok prev => (ri_cols prev =? ri_cols data) && (ri_rows prev =? ri_rows data)
  | Err _ => false
  end.

Definition run_warp (argv : list string) (scl_path out_path : string) : M W string :=
  status ← state (spawn argv);
  status ← lift (map_err (λ e, ExecBackend ("mask_scl: spawn `gdalwarp`: " +:+ e
    +:+ " — is gdal installed and on PATH?")) status);
  match status with
  | None => mret out_path
  | Some code => lift (Err (ExecBackend ("mask_scl: gdalwarp exited with status " +:+ code +:+ " (scl="
      +:+ scl_path +:+ ", out=" +:+ out_path +:+ ")")))
  end.

Definition open_info (what path : string) (w : W) : result ExecError RasterInfo :=
  map_err (λ e, ExecBackend ("mask_scl: open " +:+ what +:+ " " +:+ path +:+ ": " +:+ e)) (raster_info w path).

Definition resample_scl_to_data_grid (scl_path data_path out_path : string) : M W string :=
  w ← state (λ w, (w, w));
  data ← lift (open_info "data" data_path w);
  scl ← lift (open_info "scl" scl_path w);
  data_gt ← lift (map_err (λ e, ExecBackend ("mask_scl: geo_transform data: " +:+ e)) (ri_gt data));
  scl_gt ← lift (map_err (λ e, ExecBackend ("mask_scl: geo_transform scl: " +:+ e)) (ri_gt scl));
  if (ri_cols scl =? ri_cols data) && (ri_rows scl =? ri_rows data)
     && same_step (pixel_width data_gt) (pixel_width scl_gt)
     && same_step (pixel_height data_gt) (pixel_height scl_gt) then mret scl_path
  else if resampled_before w out_path data then mret out_path
  else
    _ ← (if bool_decide (parent out_path = "") then mret ()
         else r ← state (mkdirs (parent out_path));
              lift (map_err (λ e, ExecBackend ("mask_scl: mkdir " +:+ parent out_path +:+ ": " +:+ e)) r));
    run_warp (warp_argv data data_gt scl_path out_path) scl_path out_path.

(** Members of the list that are not bytes are passed over. *)
Definition mask2_arg (args : Args) : list Z :=
  match bt_get "mask2_values" args ≫= as_array with
  | Some arr => filter (λ v, v ≤ 255) (omap as_u64 arr)
  | None => [3; 8; 9; 10; 11]
  end.

(** The classification on the grid of each band, scene by scene. *)
Definition resample_band (band_key : string) (band_paths scl_paths : list string) : M W (list string) :=
  for_each (λ t scl_path,
    data_path ← lift (ok_or (band_paths !! t) (ExecBackend ("mask_scl: missing band `" +:+ band_key
      +:+ "` path at scene t=" +:+ pretty (Z.of_nat t))));
    resample_scl_to_data_grid scl_path data_path
      (scene_name scratch_dir ("scl_resampled_" +:+ band_key) t))
    0 scl_paths.

Definition resample_bands (band_paths : btree string (list string)) (scl_paths : list string)
    : M W (list (string * list string)) :=
  each_band (λ e,
    _ ← lift (validate_identifier e.1 "mask_scl_dilation.bands");
    resample_band e.1 e.2 scl_paths) band_paths.

Definition mask_scl_bands (mask2 : list Z) (band_paths : btree string (list string))
    (effective : btree string (list string)) : M W (btree string (list string)) :=
  masked ← each_band (λ e,
    scls ← lift (ok_or (bt_get e.1 effective)
      (ExecBackend ("mask_scl: missing resampled SCL for band `" +:+ e.1 +:+ "`")));
    mask_band (mask_scene "mask_scl" e.1 "" "scl" (λ v, bool_decide (u8_val v ∈ mask2)) 0)
      (e.1 +:+ "_masked") e.2 scls) band_paths;
  mret (bt_of_list masked).

Definition mask_scl_cube (scl_band_name : string) (masked : btree string (list string))
    (scl_paths : list string) (box : option (list f64)) : DataCube :=
  with_masking masked.*1 "mask_scl_dilation" None
    (output_cube (bt_insert scl_band_name scl_paths masked) box (length scl_paths) None None None).

Definition eval_mask_scl_dilation (args : Args) : M W Value :=
  let scl_band_name := str_arg "scl_band_name" "SCL" args in
  _ ← lift (validate_identifier scl_band_name "mask_scl_dilation.scl_band_name");
  data ← lift (need "data" "mask_scl_dilation: missing `data`" args);
  cube ← lift (decode_cube ("mask_scl_dilation: input is not a downloaded cube "
    +:+ "(call load_collection with spatial_extent first): ") data);
  '(scl_paths, cube) ← lift (take_paths scl_band_name ("mask_scl_dilation: __cube.bands has no `" +:+ scl_band_name
    +:+ "` band — `load_collection.bands` must include `" +:+ chr dquote +:+ scl_band_name +:+ chr dquote
    +:+ "`") cube);
  let band_paths := bands cube in
  if bool_decide (band_paths = []) then
    lift (Err (InvalidGraph ("mask_scl_dilation: __cube.bands has no data bands (only the SCL mask was found) — "
      +:+ "apply mask BEFORE `ndvi` per openEO spec")))
  else
    _ ← lift (same_scene_counts "mask_scl_dilation" "scl" (length scl_paths) band_paths);
    effective ← resample_bands band_paths scl_paths;
    masked ← mask_scl_bands (mask2_arg args) band_paths (bt_of_list effective);
    mret (to_envelope (mask_scl_cube scl_band_name masked scl_paths (bbox cube))).
End procs.

(** ** Workers by pixel *)

Definition ndvi_pixel (nt nl : Z) (f : Z → Z → i16) : option f32 :=
  if (1 <=? nt) && (2 <=? nl) then Some (ndvi_value (f 0 0) (f 0 1)) else None.

#[export] Instance ndvi_pointwise dim : Pointwise (λ b, pure_ndvi_worker b dim) ndvi_pixel.
Proof.
  split.
  - intros b Hr Hc. unfold pure_ndvi_worker, ndvi_pixel. cbv zeta. destruct (_ && _); [by split_and!|].
    exists 0, 0. split_and!; (done || lia).
  - intros nt nl f f' Hf. unfold ndvi_pixel. by rewrite !Hf.
Qed.

Definition from_values_pixel (values : list Z) (nt nl : Z) (f : Z → Z → u8) : option u8 :=
  if (1 <=? nt) && (1 <=? nl) then Some (in_set values (f 0 0)) else None.

#[export] Instance from_values_pointwise values dim :
  Pointwise (λ b, from_values_worker values b dim) (from_values_pixel values).
Proof.
  split.
  - intros b Hr Hc. unfold from_values_worker, first_plane, from_values_pixel. cbv zeta.
    rewrite (proj2 (Z.ltb_lt _ _) Hr), (proj2 (Z.ltb_lt _ _) Hc). simpl.
    destruct (_ && _); simpl; [by split_and!|]. exists 0, 0. split_and!; (done || lia).
  - intros nt nl f f' Hf. unfold from_values_pixel. by rewrite !Hf.
Qed.

Definition mask_pixel (hidden : u8 → bool) (rep : i16) (f : Z → Z → i16) (o : option (Z → Z → u8)) : i16 :=
  match o with Some k => if hidden (k 0 0) then rep else f 0 0 | None => rep end.

#[export] Instance mask_pointwise hidden rep dim :
  PointwiseMask (λ b m, mask_worker hidden rep b m dim) (mask_pixel hidden rep).
Proof.
  split.
  - intros b m. eexists. split; [done|]. split_and!; [done..|]. intros r c _ _. simpl.
    by destruct (_ && _).
  - intros f f' o o' Hf Ho. unfold mask_pixel. destruct o as [k|], o' as [k'|]; try done. by rewrite Hf, Ho.
Qed.

(** ** What the processes leave in the files *)

(** Two answers of one call are the same. *)
Ltac same_value E :=
  match type of E with ?x = _ =>
    match goal with H : x = _ |- _ => lazymatch H with E => fail | _ => rewrite H in E; injection E as <- end end
  end.

Section facts.
Context {W : Type} `{Pixels W, !Element i16 W, !ElementLaws i16 W, !Element u8 W, !ElementLaws u8 W}.
Context `{!Element f32 W, !ElementLaws f32 W} `{DebugText}.
Context (serde_error : Value → string) (to_text : Value → string).
Context (scratch_dir : string) (crop_size : Z) (rayon : result string ()) (schedule : string → list Choice).
Hypothesis crop_pos : 0 < crop_size.

(** The source can be read as it was at the beginning throughout the loop: it is a
    raster of a size that fits, and not one of the outputs. *)
Definition source_ok (prefix : string) (w : W) (p : string) : Prop :=
  size_ok w p ∧ ∀ t, p ≠ scene_name scratch_dir prefix t.

Lemma source_ok_later prefix w w1 n p : source_ok prefix w p → only_outputs (scene_name scratch_dir prefix) n w w1 →
  same_file p w w1 ∧ size_ok w1 p.
Proof.
  intros [Hs Hn] Ho. assert (same_file p w w1) as Hp by (apply Ho; intros; apply Hn). split; [done|].
  intros rows cols Hr. apply Hs. unfold raster_size in *. by rewrite (proj1 Hp).
Qed.

Lemma px_same {R} `{!Element R W, !ElementLaws R W} (w w1 : W) p b r c : same_file p w w1 →
  px (R:=R) w1 p b r c = px w p b r c.
Proof. intros [_ E]. unfold px. by rewrite E. Qed.

Lemma raster_size_same (w w1 : W) p : same_file p w w1 → raster_size w1 p = raster_size w p.
Proof. intros [E _]. unfold raster_size. by rewrite E. Qed.

(** The index raster of one scene. *)
Definition ndvi_written (target : string) (w : W) (t : nat) (rn : string * string) (w' : W) : Prop :=
  ∃ rows cols, raster_size w rn.1 = Some (rows, cols) ∧
    filled w' (scene_name scratch_dir target t) (mkRasterShape 1 2 rows cols)
      (λ r c, Some (ndvi_value (px w rn.1 1 r c) (px w rn.2 1 r c))).

Lemma ndvi_scenes target w reds nirs paths w' : length reds = length nirs →
  Forall (source_ok target w) (reds ++ nirs) →
  for_each (ndvi_scene scratch_dir crop_size rayon schedule target) 0 (zip reds nirs) w = Done (Ok paths) w' →
  paths = scene_name scratch_dir target <$> seq 0 (length reds) ∧ only_outputs (scene_name scratch_dir target) (length reds) w w' ∧
  ∀ t rn, zip reds nirs !! t = Some rn → ndvi_written target w t rn w'.
Proof using crop_pos.
  intros Hlen Hsrc Hl.
  assert (length reds = length (zip reds nirs)) as -> by (rewrite length_zip_with; lia).
  eapply (scene_loop_done _ (scene_name scratch_dir target)); [| | |exact Hl].
  - intros i j _ _. apply scene_names_inj.
  - intros t rn w1 w2 Hs (rows & cols & Hr & Hf). exists rows, cols. split; [done|]. by eapply filled_same.
  - intros t [red nir] w1 y w2 Hx Ho Hstep. unfold ndvi_scene in Hstep. simpl in Hstep.
    rewrite Forall_app, !Forall_forall in Hsrc. destruct Hsrc as [Hsr Hsn].
    apply lookup_zip_Some in Hx as [Hx1 Hx2].
    pose proof (Hsr _ (list_elem_of_lookup_2 _ _ _ Hx1)) as Hred.
    pose proof (Hsn _ (list_elem_of_lookup_2 _ _ _ Hx2)) as Hnir.
    destruct (source_ok_later _ _ _ _ _ Hred Ho) as [Hp1 Hsz]. destruct (source_ok_later _ _ _ _ _ Hnir Ho) as [Hp2 _].
    eapply (reduce_scene_done crop_size crop_pos _ _ _ _ _ _ _ _ _ _ pure_ndvi_worker ndvi_pixel) in Hstep
      as (-> & Hf & rows & cols & Hrs & Hfill); [|apply _|done|].
    + split_and!; [done|done|]. exists rows, cols. rewrite (raster_size_same w w1) in Hrs by done. split; [done|].
      destruct Hfill as [A1 A2]. split; [done|]. intros r c Hr Hc. destruct (A2 r c Hr Hc) as (v & Hv & Hp).
      exists v. split; [|done]. rewrite <- Hv. unfold ndvi_pixel. simpl.
      cbn [mapped]. unfold mapped. change (slot [layer_of 0 red; layer_of 1 nir] 0 0) with (Some (layer_of 0 red)).
      change (slot [layer_of 0 red; layer_of 1 nir] 0 1) with (Some (layer_of 1 nir)). simpl.
      by rewrite !(px_same w w1).
    + intros m [->| ->%list_elem_of_singleton]%elem_of_cons; simpl; [apply Hred|apply Hnir].
Qed.

Definition from_values_written (values : list Z) (target : string) (w : W) (t : nat) (p : string) (w' : W)
    : Prop :=
  ∃ rows cols, raster_size w p = Some (rows, cols) ∧
    filled w' (scene_name scratch_dir (target +:+ "_from_values") t) (mkRasterShape 1 1 rows cols)
      (λ r c, Some (in_set values (px w p 1 r c))).

Lemma from_values_scenes values target w srcs paths w' :
  Forall (source_ok (target +:+ "_from_values") w) srcs →
  for_each (build_mask scratch_dir crop_size rayon schedule values target) 0 srcs w = Done (Ok paths) w' →
  paths = scene_name scratch_dir (target +:+ "_from_values") <$> seq 0 (length srcs) ∧
  only_outputs (scene_name scratch_dir (target +:+ "_from_values")) (length srcs) w w' ∧
  ∀ t p, srcs !! t = Some p → from_values_written values target w t p w'.
Proof using crop_pos.
  intros Hsrc Hl. rewrite Forall_forall in Hsrc.
  eapply (scene_loop_done _ (scene_name scratch_dir (target +:+ "_from_values"))); [| | |exact Hl].
  - intros i j _ _. apply scene_names_inj.
  - intros t p w1 w2 Hs (rows & cols & Hr & Hf). exists rows, cols. split; [done|]. by eapply filled_same.
  - intros t p w1 y w2 Hx Ho Hstep. unfold build_mask in Hstep.
    pose proof (Hsrc _ (list_elem_of_lookup_2 _ _ _ Hx)) as Hp.
    destruct (source_ok_later _ _ _ _ _ Hp Ho) as [Hs Hsz].
    eapply (reduce_scene_done crop_size crop_pos _ _ _ _ _ _ _ _ _ _ (from_values_worker values)
      (from_values_pixel values)) in Hstep as (-> & Hf & rows & cols & Hrs & Hfill); [|apply _|done|].
    + split_and!; [done|done|]. exists rows, cols. rewrite (raster_size_same w w1) in Hrs by done. split; [done|].
      destruct Hfill as [A1 A2]. split; [done|]. intros r c Hr Hc. destruct (A2 r c Hr Hc) as (v & Hv & Hpx).
      exists v. split; [|done]. rewrite <- Hv. unfold from_values_pixel, mapped. simpl.
      change (slot [layer_of 0 p] 0 0) with (Some (layer_of 0 p)). simpl. by rewrite (px_same w w1).
    + intros m ->%list_elem_of_singleton. apply Hp.
Qed.

(** The raster behind a mask: what is hidden, or beyond the mask, is replaced. *)
Definition masked_value (hidden : u8 → bool) (rep : Z) (w : W) (p m : string) (mrows mcols r c : Z) : i16 :=
  if (r <? mrows) && (c <? mcols) then if hidden (px w m 1 r c) then I16 rep else px w p 1 r c else I16 rep.

Definition mask_written (hidden : u8 → bool) (rep : Z) (w : W) (out : string) (pm : string * string) (w' : W)
    : Prop :=
  ∃ rows cols mrows mcols, raster_size w pm.1 = Some (rows, cols) ∧ raster_size w pm.2 = Some (mrows, mcols) ∧
    filled w' out (mkRasterShape 1 1 rows cols)
      (λ r c, Some (masked_value hidden rep w pm.1 pm.2 mrows mcols r c)).

(** Rasters that are cut into as many rows and columns of blocks. *)
Definition aligned (w : W) (p m : string) : Prop :=
  ∀ rows cols mrows mcols, raster_size w p = Some (rows, cols) → raster_size w m = Some (mrows, mcols) →
    div_ceil rows crop_size = div_ceil mrows crop_size ∧ div_ceil cols crop_size = div_ceil mcols crop_size.

Lemma mask_scene_written who label dw mw hidden rep t p m out w w1 w2 :
  size_ok w1 p → size_ok w1 m → p ≠ out → m ≠ out → same_file p w w1 → same_file m w w1 → aligned w p m →
  mask_scene crop_size rayon schedule who label dw mw hidden rep t p m out w1 = Done (Ok ()) w2 →
  only out w1 w2 ∧ mask_written hidden rep w out (p, m) w2.
Proof using crop_pos.
  intros Hs1 Hs2 Hn1 Hn2 Hp Hm Hal. unfold mask_scene. intros Hrun.
  assert (∃ rows cols mrows mcols, raster_size w p = Some (rows, cols) ∧ raster_size w m = Some (mrows, mcols))
    as (rows & cols & mrows & mcols & E1 & E2).
  { pose proof Hrun as (d & w3 & Hd & (k & w4 & Hk & _)%bind_done)%bind_done.
    apply (scene_dataset_done crop_size crop_pos) in Hd as (-> & _ & _ & r & c & E1 & _); [|done].
    apply (scene_dataset_done crop_size crop_pos) in Hk as (-> & _ & _ & r' & c' & E2 & _); [|done].
    rewrite (raster_size_same w w1) in E1, E2 by done. by exists r, c, r', c'. }
  destruct (Hal _ _ _ _ E1 E2) as [Hg1 Hg2].
  eapply (mask_scene_done crop_size crop_pos _ _ _ _ _ _ _ p m 1 1 [layer_of 0 p] [layer_of 0 m]
    (mask_worker hidden (I16 rep)) (mask_pixel hidden (I16 rep)) Layer out _ w1 () w2 rows cols mrows mcols) in Hrun
    as [Ho Hf]; [|apply _|done|done|by intros ? ->%list_elem_of_singleton|by intros ? ->%list_elem_of_singleton
     |by rewrite (raster_size_same w w1)|by rewrite (raster_size_same w w1)|done|done].
  split; [done|]. exists rows, cols, mrows, mcols. split_and!; [done|done|].
  destruct Hf as [A1 A2]. split; [done|]. intros r c Hr Hc. destruct (A2 r c Hr Hc) as (v & Hv & Hpx).
  exists v. split; [|done]. rewrite <- Hv. f_equal. unfold masked_value, mapped, mask_pixel.
  destruct (_ && _); [|done].
  change (slot [layer_of 0 p] 0 0) with (Some (layer_of 0 p)).
  change (slot [layer_of 0 m] 0 0) with (Some (layer_of 0 m)). simpl.
  by rewrite (px_same (R:=i16) w w1), (px_same (R:=u8) w w1) by done.
Qed.

Lemma mask_written_same hidden rep w out pm w1 w2 : same_file out w1 w2 →
  mask_written hidden rep w out pm w1 → mask_written hidden rep w out pm w2.
Proof.
  intros Hs (rows & cols & mrows & mcols & E1 & E2 & Hf). exists rows, cols, mrows, mcols.
  split_and!; [done|done|by eapply filled_same].
Qed.

(** All scenes of a band, from a state in which its sources are as at the start. *)
Lemma mask_band_written who label dw mw hidden rep name paths masks w w1 ys w2 :
  (∀ p, p ∈ paths ++ masks → source_ok name w1 p ∧ same_file p w w1) →
  (∀ p m, p ∈ paths → m ∈ masks → aligned w p m) →
  mask_band scratch_dir (mask_scene crop_size rayon schedule who label dw mw hidden rep) name paths masks w1 =
    Done (Ok ys) w2 →
  ys = scene_name scratch_dir name <$> seq 0 (length (zip paths masks)) ∧
  only_outputs (scene_name scratch_dir name) (length (zip paths masks)) w1 w2 ∧
  ∀ t pm, zip paths masks !! t = Some pm → mask_written hidden rep w (scene_name scratch_dir name t) pm w2.
Proof using crop_pos.
  intros Hsrc Hal Hl. unfold mask_band in Hl.
  apply (scene_loop_done (zip paths masks) (scene_name scratch_dir name) _
    (λ t pm u, mask_written hidden rep w (scene_name scratch_dir name t) pm u) w1) in Hl; [exact Hl| | |].
  - intros i j _ _. apply scene_names_inj.
  - intros t pm u1 u2. apply mask_written_same.
  - intros t [p m] u y u' Hx Ho ([] & u1 & Hs & [<- <-]%ret_done)%bind_done. simpl in Hs. split; [done|].
    apply lookup_zip_Some in Hx as [Hx1%list_elem_of_lookup_2 Hx2%list_elem_of_lookup_2].
    destruct (Hsrc p ltac:(apply elem_of_app; by left)) as [Hp1 Hp2].
    destruct (Hsrc m ltac:(apply elem_of_app; by right)) as [Hm1 Hm2].
    destruct (source_ok_later _ _ _ _ _ Hp1 Ho) as [Hp3 Hp4], (source_ok_later _ _ _ _ _ Hm1 Ho) as [Hm3 Hm4].
    eapply (mask_scene_written who label dw mw hidden rep t p m _ w u); try done.
    + apply Hp1. + apply Hm1. + by etrans. + by etrans. + by apply Hal.
Qed.

(** A key that begins a relative name. *)
Definition key_ok (k : string) : Prop := k ≠ "" ∧ starts_with "/" k = false.

Lemma validated_key name field : validate_identifier name field = Ok () → key_ok name.
Proof.
  intros (Hl & Hc & _)%validate_identifier_spec. destruct name as [|c s]; [simpl in Hl; lia|]. split; [done|].
  simpl in Hc. apply andb_prop in Hc as [Hc _]. unfold starts_with. simpl.
  case_bool_decide as Ec; [|done]. by subst c.
Qed.

Lemma band_name_inj suffix k1 k2 t1 t2 : key_ok k1 → key_ok k2 →
  scene_name scratch_dir (k1 +:+ suffix) t1 = scene_name scratch_dir (k2 +:+ suffix) t2 → k1 = k2 ∧ t1 = t2.
Proof.
  intros [A1 A2] [A3 A4] E. apply join_path_inj in E.
  - apply scene_name_inj in E as [E ->]. by apply str_app_inv_r in E.
  - assert (∀ k x, key_ok k → starts_with "/" ((k +:+ suffix) +:+ x) = false) as Hk; [|by rewrite !Hk].
    intros [|c k] x [? Hs]; [done|]. rewrite !str_app_cons. revert Hs. unfold starts_with. simpl.
    by destruct (bool_decide _).
Qed.

(** Nothing but the outputs of bands. *)
Definition only_bands (suffix : string) (w u : W) : Prop :=
  ∀ q, (∀ k t, q ≠ scene_name scratch_dir (k +:+ suffix) t) → same_file q w u.

(** A band with the names of its new files. *)
Definition new_band (suffix : string) (masks_of : string → list string) (e : string * list string)
    : string * list string :=
  (e.1, scene_name scratch_dir (e.1 +:+ suffix) <$> seq 0 (length (zip e.2 (masks_of e.1)))).

Lemma each_band_written suffix body (masks_of : string → list string) hidden rep w
    (data_bands : btree string (list string)) ys w' :
  NoDup data_bands.*1 →
  (∀ e u y u', e ∈ data_bands → only_bands suffix w u → body e u = Done (Ok y) u' →
     key_ok e.1 ∧ let n := length (zip e.2 (masks_of e.1)) in
     y = scene_name scratch_dir (e.1 +:+ suffix) <$> seq 0 n ∧
     only_outputs (scene_name scratch_dir (e.1 +:+ suffix)) n u u' ∧
     ∀ t pm, zip e.2 (masks_of e.1) !! t = Some pm →
       mask_written hidden rep w (scene_name scratch_dir (e.1 +:+ suffix) t) pm u') →
  each_band body data_bands w = Done (Ok ys) w' →
  ys = new_band suffix masks_of <$> data_bands ∧
  only_bands suffix w w' ∧
  ∀ e, e ∈ data_bands → ∀ t pm, zip e.2 (masks_of e.1) !! t = Some pm →
    mask_written hidden rep w (scene_name scratch_dir (e.1 +:+ suffix) t) pm w'.
Proof.
  intros Hnd Hbody Hl. unfold each_band in Hl.
  apply (for_each_inv _ (λ acc u, acc = new_band suffix masks_of <$> take (length acc) data_bands ∧ only_bands suffix w u ∧
    ∀ e, e ∈ take (length acc) data_bands → key_ok e.1 ∧
      ∀ t pm, zip e.2 (masks_of e.1) !! t = Some pm →
        mask_written hidden rep w (scene_name scratch_dir (e.1 +:+ suffix) t) pm u)) in Hl
    as [(E & Ho & Hall) Hlen].
  - rewrite Hlen, take_ge in E, Hall by lia. split_and!; [done|done|]. intros e He. by apply Hall.
  - intros e acc u y u' He (Eacc & Ho & Hall) (m & u1 & Hb & [<- <-]%ret_done)%bind_done.
    pose proof (list_elem_of_lookup_2 _ _ _ He) as Hin.
    destruct (Hbody e u m u1 Hin Ho Hb) as (Hkey & -> & Hf & Hnew).
    rewrite length_app. simpl. rewrite Nat.add_1_r, (take_S_r _ _ e) by done. split_and!.
    + by rewrite fmap_app, <- Eacc.
    + intros q Hq. etrans; [by apply Ho|]. apply Hf. intros t _. apply Hq.
    + intros e' [Hold| ->%list_elem_of_singleton]%elem_of_app; [|by split].
      destruct (Hall e' Hold) as [Hkey' Hw]. split; [done|]. intros t pm Hpm.
      apply (mask_written_same _ _ _ _ _ u); [|by apply Hw]. apply Hf. intros t' _ Heq.
      apply (band_name_inj suffix) in Heq as [Ek _]; [|done|done].
      apply list_elem_of_lookup in Hold as [j Hj]. apply lookup_take_Some in Hj as [Hj Hlt].
      assert (j = length acc); [|lia].
      eapply NoDup_lookup; [exact Hnd| |]; rewrite list_lookup_fmap; [by rewrite Hj|rewrite He; simpl; by rewrite Ek].
  - split_and!; [done|by intros q _|]. intros e []%elem_of_nil.
Qed.

(** *** The processes as a whole *)

(** The sources of a process: of a size that fits, and no output of the process. *)
Definition sources_ok (suffix : string) (w : W) (paths : list string) : Prop :=
  ∀ p, p ∈ paths → size_ok w p ∧ ∀ k t, p ≠ scene_name scratch_dir (k +:+ suffix) t.

Definition all_paths (b : btree string (list string)) : list string := mjoin b.*2.

Lemma elem_of_all_paths b k paths p : (k, paths) ∈ b → p ∈ paths → p ∈ all_paths b.
Proof.
  intros Hb Hp. unfold all_paths. apply list_elem_of_join. exists paths. split; [done|].
  by apply (list_elem_of_fmap_2 snd) in Hb.
Qed.

Lemma all_paths_band b (k : string) ps p : bt_get k b = Some ps → p ∈ ps → p ∈ all_paths b.
Proof.
  intros Hb Hp. apply (elem_of_all_paths b k ps); [|done]. clear -Hb.
  induction b as [|[k' ps'] b IH]; [done|]. simpl in Hb. destruct (cmp k k') eqn:Ec; [|done|right; by apply IH].
  injection Hb as ->. apply cmp_eq in Ec as ->. left.
Qed.

Lemma decode_cube_ok m v c : decode_cube serde_error m v = Ok c → from_envelope_owned serde_error v = Ok c.
Proof. unfold decode_cube. by destruct (from_envelope_owned serde_error v) as [|e]; intros [= <-]. Qed.

Lemma need_ok k m args v : need k m args = Ok v → bt_get k args = Some v.
Proof. unfold need. by destruct (bt_get k args); intros [= <-]. Qed.

Lemma take_paths_ok b m c ps c' : take_paths b m c = Ok (ps, c') →
  band b c = Some ps ∧ c' = set_bands (bt_remove b (bands c)) c.
Proof. unfold take_paths, take_band, band. by destruct (bt_get b (bands c)); intros [= <- <-]. Qed.

Lemma same_scene_counts_ok who what n b : same_scene_counts who what n b = Ok () →
  ∀ e, e ∈ b → length e.2 = n.
Proof.
  unfold same_scene_counts. destruct (find _ b) eqn:E; [done|]. intros _ e He.
  apply list_elem_of_In in He. pose proof (find_none _ _ E e He) as Hn. simpl in Hn.
  destruct (Nat.eqb_spec (length e.2) n); done.
Qed.

(** mask: what it returns and what it leaves in the files. *)
Lemma eval_mask_done args w v w' data mask dc mc :
  eval_mask serde_error to_text scratch_dir crop_size rayon schedule args w = Done (Ok v) w' →
  bt_get "data" args = Some data → bt_get "mask" args = Some mask →
  from_envelope_owned serde_error data = Ok dc → from_envelope_owned serde_error mask = Ok mc →
  bt_wf (bands dc) →
  sources_ok "_mask" w (all_paths (maskable dc) ++ all_paths (bands mc)) →
  (∀ p m, p ∈ all_paths (maskable dc) → m ∈ all_paths (bands mc) → aligned w p m) →
  ∃ rep key masks, replacement_arg to_text args = Ok rep ∧ bands mc = [(key, masks)] ∧
    v = to_envelope (mask_cube rep (new_band "_mask" (λ _, masks) <$> maskable dc) (scl_passthrough dc)
          (length masks) (bbox dc)) ∧
    only_bands "_mask" w w' ∧
    ∀ e, e ∈ maskable dc → length e.2 = length masks ∧ ∀ t pm, zip e.2 masks !! t = Some pm →
      mask_written (λ v, 0 <? u8_val v) rep w (scene_name scratch_dir (e.1 +:+ "_mask") t) pm w'.
Proof using crop_pos.
  intros Hrun Hdata Hmask Hdc Hmc Hwf Hsrc Hal. unfold eval_mask in Hrun.
  apply bind_done in Hrun as (rep & w1 & [Hrep <-]%lift_done & Hrun).
  apply bind_done in Hrun as (data' & w1 & [E <-]%lift_done & Hrun). apply need_ok in E. same_value E.
  apply bind_done in Hrun as (dc' & w1 & [E <-]%lift_done & Hrun). apply decode_cube_ok in E. same_value E.
  case_bool_decide as Hne; [by apply lift_done in Hrun as [? _]|].
  apply bind_done in Hrun as (mask' & w1 & [E <-]%lift_done & Hrun). apply need_ok in E. same_value E.
  apply bind_done in Hrun as (mc' & w1 & [E <-]%lift_done & Hrun). apply decode_cube_ok in E. same_value E.
  destruct (bands mc) as [|[key masks] [|? ?]] eqn:Eb; [by apply lift_done in Hrun as [? _]| |by apply lift_done in Hrun as [? _]].
  apply bind_done in Hrun as ([] & w1 & [Hcount <-]%lift_done & Hrun).
  apply bind_done in Hrun as (masked & w1 & (ys & w2 & Hbands & [<- <-]%ret_done)%bind_done & [<- <-]%ret_done).
  pose proof (same_scene_counts_ok _ _ _ _ Hcount) as Hlen.
  assert (all_paths [(key, masks)] = masks) as Em by (unfold all_paths; simpl; apply app_nil_r).
  rewrite Em in Hsrc, Hal.
  apply (each_band_written "_mask" _ (λ _, masks) (λ v, 0 <? u8_val v) rep w) in Hbands as (-> & Ho & Hall).
  - exists rep, key, masks. split_and!; [done|done| |done|].
    + rewrite bt_of_list_id; [done|]. apply (bt_wf_fmap_keys (new_band "_mask" (λ _, masks))); [done|].
      by apply bt_wf_filter.
    + intros e He. split; [by apply Hlen|]. by apply Hall.
  - apply bt_wf_nodup. by apply bt_wf_filter.
  - intros [k paths] u y u' He Ho ([] & u1 & [Hk <-]%lift_done & Hb)%bind_done. simpl in *.
    split; [by eapply validated_key|].
    apply (mask_band_written _ _ _ _ _ _ _ paths masks w) in Hb as (-> & Hf & Hw).
    + by split_and!.
    + intros p Hp. assert (p ∈ all_paths (maskable dc) ++ masks) as Hp'.
      { apply elem_of_app in Hp as [Hp|Hp]; apply elem_of_app; [left; by eapply elem_of_all_paths|by right]. }
      destruct (Hsrc p Hp') as [Hs Hn]. assert (same_file p w u) as Hsame by by apply Ho.
      split; [|done]. split; [|intros t; apply Hn]. intros rows cols Hr. apply Hs.
      by rewrite <- (raster_size_same w u).
    + intros p m Hp Hm. apply Hal; [by eapply elem_of_all_paths|done].
Qed.

(** mask_from_values: what it returns and what it leaves in the files. *)
Lemma eval_mask_from_values_done args v w w' data dc :
  eval_mask_from_values serde_error to_text scratch_dir crop_size rayon schedule args w = Done (Ok v) w' →
  bt_get "data" args = Some data → from_envelope_owned serde_error data = Ok dc →
  let target := str_arg "target_band" "mask" args in
  (∀ srcs, band (str_arg "band" "SCL" args) dc = Some srcs → sources_ok "_from_values" w srcs) →
  ∃ values srcs, values_arg to_text args = Ok values ∧ band (str_arg "band" "SCL" args) dc = Some srcs ∧
    let outs := scene_name scratch_dir (target +:+ "_from_values") <$> seq 0 (length srcs) in
    v = to_envelope (from_values_cube (str_arg "band" "SCL" args) target outs dc) ∧
    only_bands "_from_values" w w' ∧
    ∀ t p, srcs !! t = Some p → from_values_written values target w t p w'.
Proof using crop_pos.
  intros Hrun Hdata Hdc target Hsrc. unfold eval_mask_from_values in Hrun. cbv zeta in Hrun.
  apply bind_done in Hrun as ([] & w1 & [_ <-]%lift_done & Hrun).
  apply bind_done in Hrun as ([] & w1 & [_ <-]%lift_done & Hrun).
  apply bind_done in Hrun as (values & w1 & [Hvalues <-]%lift_done & Hrun).
  apply bind_done in Hrun as (data' & w1 & [E <-]%lift_done & Hrun). apply need_ok in E. same_value E.
  apply bind_done in Hrun as (dc' & w1 & [E <-]%lift_done & Hrun). apply decode_cube_ok in E. same_value E.
  apply bind_done in Hrun as ([srcs dc'] & w1 & [E <-]%lift_done & Hrun).
  apply take_paths_ok in E as [Eb ->]. specialize (Hsrc _ Eb).
  case_bool_decide; [by apply lift_done in Hrun as [? _]|].
  apply bind_done in Hrun as (paths & w1 & Hl & [<- <-]%ret_done).
  apply from_values_scenes in Hl as (-> & Ho & Hall).
  - exists values, srcs. split; [done|]. split; [done|]. split.
    { unfold from_values_cube. cbn [bbox set_bands]. done. }
    split; [|done]. intros q Hq. apply Ho. intros t _. apply Hq.
  - apply Forall_forall. intros p Hp. destruct (Hsrc p Hp) as [Hs Hn]. split; [done|]. intros t. apply Hn.
Qed.

(** ndvi: what it returns and what it leaves in the files. *)
Lemma eval_ndvi_done args v w w' data dc :
  let target := str_arg "target_band" "ndvi" args in
  let red := str_arg "red" "B04" args in let nir := str_arg "nir" "B08" args in
  eval_ndvi serde_error scratch_dir crop_size rayon schedule args w = Done (Ok v) w' →
  bt_get "data" args = Some data → from_envelope_owned serde_error data = Ok dc →
  (∀ p, p ∈ all_paths (bands dc) → source_ok target w p) →
  ∃ reds nirs, reds ≠ [] ∧ length reds = length nirs ∧ band red dc = Some reds ∧
    bt_get nir (bt_remove red (bands dc)) = Some nirs ∧
    let outs := scene_name scratch_dir target <$> seq 0 (length reds) in
    v = to_envelope (ndvi_cube red nir target outs
          (set_bands (bt_remove nir (bt_remove red (bands dc))) dc)) ∧
    only_outputs (scene_name scratch_dir target) (length reds) w w' ∧
    ∀ t rn, zip reds nirs !! t = Some rn → ndvi_written target w t rn w'.
Proof using crop_pos.
  intros target red nir Hrun Hdata Hdc Hsrc. unfold eval_ndvi in Hrun. cbv zeta in Hrun.
  apply bind_done in Hrun as (data' & w1 & [E <-]%lift_done & Hrun). apply need_ok in E. same_value E.
  apply bind_done in Hrun as (dc' & w1 & [E <-]%lift_done & Hrun). apply decode_cube_ok in E. same_value E.
  apply bind_done in Hrun as ([reds c1] & w1 & [E1 <-]%lift_done & Hrun). apply take_paths_ok in E1 as [Er ->].
  apply bind_done in Hrun as ([nirs c2] & w1 & [E2 <-]%lift_done & Hrun). apply take_paths_ok in E2 as [En ->].
  destruct (Nat.eqb_spec (length reds) (length nirs)) as [Hlen|]; simpl in Hrun;
    [|by apply lift_done in Hrun as [? _]].
  case_bool_decide as Hne; [by apply lift_done in Hrun as [? _]|].
  apply bind_done in Hrun as (paths & w1 & Hl & [<- <-]%ret_done).
  assert (∀ (b : btree string (list string)) k p, p ∈ all_paths (bt_remove k b) → p ∈ all_paths b) as Hrem.
  { intros b k p. unfold all_paths. rewrite !list_elem_of_join. intros (ps & Hp & (e & -> & He)%list_elem_of_fmap).
    exists e.2. split; [done|]. apply list_elem_of_fmap. exists e. split; [done|].
    assert (Forall (λ e, e ∈ b) (bt_remove k b)) as HF by (apply bt_remove_forall; by apply Forall_forall).
    rewrite Forall_forall in HF. by apply HF. }
  apply ndvi_scenes in Hl as (-> & Ho & Hw); [|done|].
  - exists reds, nirs. do 4 (split; [done|]). split; [done|]. split; [exact Ho|exact Hw].
  - apply Forall_app. split; apply Forall_forall; intros p Hp; apply Hsrc; [by eapply all_paths_band|].
    apply (Hrem _ red). by eapply all_paths_band.
Qed.

(** The cube of an index can be passed on: it has the new band, and no member that JSON
    cannot hold. *)
Lemma ndvi_cube_passed red nir target outs c : cube_wf c → let out := ndvi_cube red nir target outs c in
  from_envelope_owned serde_error (to_envelope out) = Ok out ∧ band target out = Some outs.
Proof.
  intros Hc out. assert (bt_wf (bt_insert target outs [])) as Hi by apply bt_wf_insert, bt_wf_nil. split.
  - apply decode_encoded. destruct Hc. split; simpl; [|constructor|constructor|done|done|constructor|constructor].
    unfold insert_all. by apply bt_wf_foldl.
  - unfold band, out, ndvi_cube, insert_all. cbn [bands output_cube]. rewrite bt_get_foldl_ne; [|done|].
    + apply bt_get_insert_eq, bt_wf_nil.
    + intros (e & -> & [Hk _]%list_elem_of_filter)%list_elem_of_fmap. by apply Hk; right; right.
Qed.

(** The SCL raster of a scene has the size of the scene's band. *)
Definition same_size (w : W) (p m : string) : Prop := raster_size w p = raster_size w m.

(** C8: the two mask processes in sequence, as the graphs use them: [mask_from_values]
    makes a mask of a classification band and [mask] applies it to the cube.  When
    both succeed, the cube that comes out has every 16-bit band of the cube, each
    scene in a file of its own of the same size, and there every pixel is the one of
    the source where the class of that pixel is not among the values, and the
    replacement where it is, whatever the schedules of the two block loops; the
    classification band is passed on, and files that are no outputs are as before.
    The sources are rasters other than the outputs. *)
Theorem mask_of_values_pixels args1 args2 v1 v2 w0 w1 w2 data dc scl :
  eval_mask_from_values serde_error to_text scratch_dir crop_size rayon schedule args1 w0 = Done (Ok v1) w1 →
  eval_mask serde_error to_text scratch_dir crop_size rayon schedule args2 w1 = Done (Ok v2) w2 →
  bt_get "data" args1 = Some data → bt_get "data" args2 = Some data → bt_get "mask" args2 = Some v1 →
  numbers_ok data = true → from_envelope_owned serde_error data = Ok dc →
  band (str_arg "band" "SCL" args1) dc = Some scl →
  sources_ok "_from_values" w0 (all_paths (maskable dc) ++ scl) → sources_ok "_mask" w0 (all_paths (maskable dc)) →
  (∀ p m, p ∈ all_paths (maskable dc) → m ∈ scl → same_size w0 p m) →
  (∀ z, 0 ≤ z < 256 → in_range (U8 z)) →
  ∃ values rep masks, values_arg to_text args1 = Ok values ∧ replacement_arg to_text args2 = Ok rep ∧
    length masks = length scl ∧
    v2 = to_envelope (mask_cube rep (new_band "_mask" (λ _, masks) <$> maskable dc) (scl_passthrough dc)
           (length scl) (bbox dc)) ∧
    (∀ q, (∀ k t, q ≠ scene_name scratch_dir (k +:+ "_from_values") t ∧
                  q ≠ scene_name scratch_dir (k +:+ "_mask") t) → same_file q w0 w2) ∧
    ∀ k paths, (k, paths) ∈ maskable dc → length paths = length scl ∧
      ∀ t p s, paths !! t = Some p → scl !! t = Some s → ∃ rows cols, raster_size w0 p = Some (rows, cols) ∧
        filled w2 (scene_name scratch_dir (k +:+ "_mask") t) (mkRasterShape 1 1 rows cols)
          (λ r c, Some (if bool_decide (u8_val (px w0 s 1 r c) ∈ values) then I16 rep else px w0 p 1 r c)).
Proof using crop_pos.
  intros Hrun1 Hrun2 Hd1 Hd2 Hm2 Hnum Hdc Hscl Hsrc Hsrc' Hsize Hrange.
  pose proof (decoded_wf _ _ _ Hnum Hdc) as Hwf.
  destruct (eval_mask_from_values_done _ _ _ _ _ _ Hrun1 Hd1 Hdc) as (values & srcs & Hvalues & E & -> & Ho1 & Hw1).
  { intros srcs E. assert (srcs = scl) as -> by congruence. intros p Hp. apply Hsrc, elem_of_app. by right. }
  assert (srcs = scl) as -> by congruence. clear E.
  set (target := str_arg "target_band" "mask" args1) in *.
  set (outs := scene_name scratch_dir (target +:+ "_from_values") <$> seq 0 (length scl)) in *.
  assert (length outs = length scl) as Hlen by (unfold outs; by rewrite length_fmap, length_seq).
  set (mc := from_values_cube (str_arg "band" "SCL" args1) target outs dc) in *.
  assert (from_envelope_owned serde_error (to_envelope mc) = Ok mc) as Hmc.
  { apply decode_encoded. destruct Hwf. split; simpl; [|constructor|constructor|done|done|constructor|constructor].
    repeat constructor. }
  assert (∀ p, p ∈ all_paths (maskable dc) → same_file p w0 w1) as Hkeep.
  { intros p Hp. apply Ho1. apply (Hsrc p), elem_of_app. by left. }
  assert (∀ p, p ∈ scl → ∃ rows cols, raster_size w0 p = Some (rows, cols) → in_u 63 rows ∧ in_u 63 cols) as Hs.
  { intros p _. by exists 0, 0. }
  assert (∀ t, (t < length scl)%nat → ∃ s rows cols, scl !! t = Some s ∧ raster_size w0 s = Some (rows, cols) ∧
    raster_size w1 (scene_name scratch_dir (target +:+ "_from_values") t) = Some (rows, cols)) as Hout.
  { intros t [s Es]%lookup_lt_is_Some_2. destruct (Hw1 _ _ Es) as (rows & cols & E1 & E2 & _).
    by exists s, rows, cols. }
  assert (∀ m, m ∈ outs → ∃ t, (t < length scl)%nat ∧ m = scene_name scratch_dir (target +:+ "_from_values") t) as Houts.
  { intros m (t & -> & Ht%elem_of_seq)%list_elem_of_fmap. exists t. split; [lia|done]. }
  assert (all_paths (bands mc) = outs) as Em by (unfold all_paths; simpl; apply app_nil_r).
  destruct (eval_mask_done _ _ _ _ _ _ _ _ Hrun2 Hd2 Hm2 Hdc Hmc (wf_bands _ Hwf)) as
    (rep & key & masks & Hrep & Eb & Ev & Ho2 & Hw2).
  { rewrite Em. intros p [Hp|Hp]%elem_of_app.
    - split; [|by apply Hsrc']. intros rows cols Hr. apply (proj1 (Hsrc' p Hp)).
      by rewrite <- (raster_size_same w0 w1) by by apply Hkeep.
    - destruct (Houts p Hp) as (t & Ht & ->). split.
      + destruct (Hout t Ht) as (s & rows & cols & Es & E1 & E2). intros rows' cols' E3.
        rewrite E2 in E3. injection E3 as <- <-. apply (proj1 (Hsrc s ltac:(apply elem_of_app; right; by eapply list_elem_of_lookup_2))).
        done.
      + intros k t'. by eapply scene_name_suffix.
  }
  { rewrite Em. intros p m Hp Hm rows cols mrows mcols E1 E2. destruct (Houts m Hm) as (t & Ht & ->).
    destruct (Hout t Ht) as (s & rows' & cols' & Es & E3 & E4). rewrite E4 in E2. injection E2 as <- <-.
    rewrite (raster_size_same w0 w1) in E1 by by apply Hkeep.
    pose proof (Hsize p s Hp ltac:(by eapply list_elem_of_lookup_2)) as Hsz. unfold same_size in Hsz.
    rewrite Hsz, E3 in E1. by injection E1 as <- <-. }
  simpl in Eb. injection Eb as <- <-.
  exists values, rep, outs. split_and!; [done|done|done|by rewrite <- Hlen| |].
  - intros q Hq. etrans; [apply Ho1; intros k t; apply (Hq k t)|apply Ho2; intros k t; apply (Hq k t)].
  - intros k paths He. destruct (Hw2 _ He) as [Hl Hall]. simpl in Hl, Hall. split; [congruence|].
    intros t p s Hp Hst. pose proof (elem_of_all_paths _ _ _ p He ltac:(by eapply list_elem_of_lookup_2)) as Hpin.
    pose proof (lookup_lt_Some _ _ _ Hst) as Ht.
    destruct (Hw1 _ _ Hst) as (rows & cols & E1 & E2 & Hfill).
    destruct (Hall t (p, scene_name scratch_dir (target +:+ "_from_values") t)) as
      (rows' & cols' & mrows & mcols & E3 & E4 & Hf).
    { apply lookup_zip_Some. split; [done|]. unfold outs. rewrite list_lookup_fmap, lookup_seq_lt by done. done. }
    simpl in E3, E4, Hf, E2. rewrite (raster_size_same w0 w1) in E3 by by apply Hkeep.
    rewrite E2 in E4. injection E4 as <- <-.
    pose proof (Hsize p s Hpin ltac:(by eapply list_elem_of_lookup_2)) as Hsz. unfold same_size in Hsz.
    rewrite E3, E1 in Hsz. injection Hsz as -> ->. exists rows, cols. split; [done|].
    destruct Hf as [A1 A2]. split; [done|]. simpl in *. intros r c Hr Hc.
    destruct (A2 r c Hr Hc) as (v & Hv & Hpx). exists v. split; [|done]. rewrite <- Hv. f_equal.
    unfold masked_value. rewrite (proj2 (Z.ltb_lt _ _) (proj2 Hr)), (proj2 (Z.ltb_lt _ _) (proj2 Hc)). simpl.
    rewrite (px_same (R:=i16) w0 w1) by by apply Hkeep.
    destruct (Hfill r c Hr Hc) as (u & [= <-] & Hu).
    assert (px (R:=u8) w1 (scene_name scratch_dir (target +:+ "_from_values") t) 1 r c =
      in_set values (px w0 s 1 r c)) as ->.
    { unfold px at 1. rewrite Hu. apply of_to_raw, Hrange. case_bool_decide; lia. }
    simpl. by case_bool_decide.
Qed.
End facts.

(** ** A run *)

Module Demo.
Import Memory.

#[local] Instance demo_debug : DebugText := {|
  debug_char s := s; debug_strings _ := ""; debug_f64s _ := "" |}.
Definition demo_text (v : Value) : string := "".

(** A red band and its classes: the class of a pixel is its column, 8 to 10. *)
Definition demo_world : World :=
  <["b4.tif" := mkFile 3 3 (λ _ r c, Int (100 + 10 * r + c))]> (<["scl.tif" := mkFile 3 3 (λ _ _ c, Int (8 + c))]> ∅).

Definition demo_data : Value := Object [("__cube", Object [("bands", Object [
  ("B04", Array [JString "b4.tif"]); ("SCL", Array [JString "scl.tif"])])])].

Definition demo_args : Args := bt_of_list [("data", demo_data);
  ("values", Array [Number (PosInt 8); Number (PosInt 9)])].
Definition mask_args (mask : Value) : Args := bt_of_list [("data", demo_data); ("mask", mask)].

Definition demo_schedule (p : string) : list Choice := one_by_one 4.

Definition values_run : Ending World Value :=
  eval_mask_from_values demo_text demo_text "/s" 2 (Ok ()) demo_schedule demo_args demo_world.
Definition mask_run : Ending World Value :=
  match values_run with
  | Done (Ok v) w => eval_mask demo_text demo_text "/s" 2 (Ok ()) demo_schedule (mask_args v) w
  | _ => Endless
  end.

Definition cells (w : World) (p : string) : list Z :=
  match w !! p with
  | Some f => r ← seqZ 0 3; c ← seqZ 0 3; [cell_Z (f_cells f 1 r c)]
  | None => []
  end.

(** Columns of the classes 8 and 9 are replaced by the smallest value. *)
Example mask_run_pixels :
  match mask_run with Done (Ok _) w => cells w "/s/B04_mask_t0.tif" | _ => [] end =
  [-32768; -32768; 102; -32768; -32768; 112; -32768; -32768; 122].
Proof. vm_compute. reflexivity. Qed.

Lemma demo_sources suffix p : p ∈ ["b4.tif"; "scl.tif"] →
  size_ok demo_world p ∧ ∀ k t, p ≠ scene_name "/s" (k +:+ suffix) t.
Proof.
  intros Hp. split.
  - assert (raster_size demo_world p = Some (3, 3)) as E
      by (apply elem_of_cons in Hp as [->| ->%list_elem_of_singleton]; reflexivity).
    intros rows cols. rewrite E. intros [= <- <-]. unfold in_u. lia.
  - intros k t E. assert (∀ x, ∃ y, join_path "/s" x = String "/"%char y) as Hj.
    { intros x. unfold join_path. destruct (starts_with "/" x) eqn:Hs; [|by exists ("s/" +:+ x)].
      apply starts_with_spec in Hs as [y ->]. by exists y. }
    unfold scene_name in E. destruct (Hj ((k +:+ suffix) +:+ "_t" +:+ pretty (Z.of_nat t) +:+ ".tif")) as [y Hy].
    rewrite Hy in E. apply elem_of_cons in Hp as [->| ->%list_elem_of_singleton]; done.
Qed.

Lemma mask_of_values_pixels_witness : ∃ v1 w1 v2 w2, values_run = Done (Ok v1) w1 ∧ mask_run = Done (Ok v2) w2 ∧
  ∃ rep rows cols, raster_size demo_world "b4.tif" = Some (rows, cols) ∧
    filled w2 (scene_name "/s" ("B04" +:+ "_mask") 0) (mkRasterShape 1 1 rows cols)
      (λ r c, Some (if bool_decide (u8_val (px demo_world "scl.tif" 1 r c) ∈ [8; 9]) then I16 rep
                    else px demo_world "b4.tif" 1 r c)).
Proof.
  destruct (succeeds values_run ltac:(vm_compute; reflexivity)) as (v1 & w1 & R1).
  destruct (succeeds mask_run ltac:(vm_compute; reflexivity)) as (v2 & w2 & R2).
  exists v1, w1, v2, w2.
  split; [done|]. split; [done|]. unfold mask_run in R2. rewrite R1 in R2.
  destruct (mask_of_values_pixels demo_text demo_text "/s" 2 (Ok ()) demo_schedule ltac:(lia) demo_args (mask_args v1)
    v1 v2 demo_world w1 w2 demo_data (mkDataCube [("B04", ["b4.tif"]); ("SCL", ["scl.tif"])] [] None None None None None
      None None None None None None []) ["scl.tif"] R1 R2) as (values & rep & masks & Hv & _ & _ & _ & _ & Hall);
    [reflexivity|reflexivity|reflexivity|reflexivity|reflexivity|reflexivity| | | | |].
  - intros p Hp. by apply demo_sources.
  - intros p Hp. apply demo_sources. apply list_elem_of_singleton in Hp as ->. by left.
  - intros p m ->%list_elem_of_singleton ->%list_elem_of_singleton. vm_compute. reflexivity.
  - intros z Hz. reflexivity.
  - destruct (Hall "B04" ["b4.tif"]) as [_ Hp]; [by left|].
    destruct (Hp 0%nat "b4.tif" "scl.tif" eq_refl eq_refl) as (rows & cols & E3 & E4).
    exists rep, rows, cols. split; [exact E3|]. revert Hv. intros [= <-]. exact E4.
Defined.

(** A target band that is an absolute path names a file outside the scratch directory. *)
Example ndvi_escapes_scratch : scene_name "/s" "/etc/x" 0 = "/etc/x_t0.tif".
Proof. vm_compute. reflexivity. Qed.

(** A second [mask] over the result of the first writes the very files it reads. *)
Example chained_mask_overwrites :
  match mask_run with
  | Done (Ok v) w =>
      match from_envelope_owned demo_text v with
      | Ok c => band "B04" c = Some [scene_name "/s" ("B04" +:+ "_mask") 0]
      | Err _ => False
      end
  | _ => False
  end.
Proof. vm_compute. reflexivity. Qed.
End Demo.
