(* ===== verification/ReduceProcs.v ===== *)
(** * apply and reduce_dimension over rasters

    The handlers of apps/orbit-openeo/src/geo_executor/eval_apply.rs and
    eval_reduce.rs, on top of the kernels of Apply and Reduce and the block
    processing: which bands and scenes are read, which files are written, and the
    cube that is returned.  The clock that names files and the schedules of the
    block loops are parameters. *)

From S2P Require Import Prelude BTree F64 Text Json Grid Executor Arrays Callback Apply Reduce.
From S2P Require Import Cube CubeOps Raster Blocks Scenes PixelProcs.
Local Open Scope Z_scope.

(** ** Blocks and rows *)

(** The first plane of a block as rows, and a block of one layer from rows. *)
Definition block_rows (b : DataBlock f32) : list (list f32) :=
  (λ r, (λ c, db_at b 0 0 r c) <$> seqZ 0 (rs_cols (db_shape b))) <$> seqZ 0 (rs_rows (db_shape b)).

Definition of_rows (s : RasterShape) (rows : list (list f32)) : Array3 f32 :=
  mkArray3 1 (rs_rows s) (rs_cols s)
    (λ _ r c, default SENTINEL_NDVI_NA (rows !! Z.to_nat r ≫= λ row, row !! Z.to_nat c)).

(** A block as the reducers see it. *)
Definition to_block (b : DataBlock f32) : RasterDataBlock :=
  mkBlock (Z.to_nat (rs_times (db_shape b))) (Z.to_nat (rs_layers (db_shape b)))
    (Z.to_nat (rs_rows (db_shape b))) (Z.to_nat (rs_cols (db_shape b)))
    (λ t l r c, db_at b (Z.of_nat t) (Z.of_nat l) (Z.of_nat r) (Z.of_nat c)).

Section procs.
Context `{Libm, Libm32} (to_text : Value → string).

Definition apply_block (sub_pg : Value) (scale offset : f64) (rdb : DataBlock f32) (_ : Dimension)
    : option (Array3 f32) :=
  of_rows (db_shape rdb) <$> apply_worker to_text sub_pg scale offset (block_rows rdb).

Definition time_block (red : ReducerKind) (rdb : DataBlock f32) (_ : Dimension) : option (Array3 f32) :=
  of_rows (db_shape rdb) <$> time_worker red (to_block rdb).

Definition band_block (red : ReducerKind) (rdb : DataBlock f32) (_ : Dimension) : option (Array3 f32) :=
  of_rows (db_shape rdb) <$> band_worker red (to_block rdb).

Context {W : Type} `{Storage W, Probing W, !Element f32 W}.
Context (serde_error : Value → string) `{DebugText} (scratch_dir : string) (crop_size : Z).
Context (rayon : result string ()) (schedule : string → list Choice) (now_nanos : W → Z * W).

(** ** apply *)

(** A panic of the callback is a panic of the handler. *)
Definition lift_fault {A} (r : option (result Fault A)) : M W A := λ w,
  match r with
  | None => Endless
  | Some (Ok a) => Done (Ok a) w
  | Some (Err (Apply.Error e)) => Done (Err e) w
  | Some (Err Panic) => Panicked w
  end.

(** An index out of range. *)
Definition lift_panic {A} (o : option A) : M W A := λ w,
  match o with Some a => Done (Ok a) w | None => Panicked w end.

Definition process_graph_of (process : Value) : result ExecError Value :=
  ok_or (match process with Object m => assoc_get "process_graph" m | _ => None end)
    (InvalidGraph "apply: `process` must be a Process object with `process_graph`").

Definition apply_scene (sub_pg : Value) (band_key : string) (scale offset : f64) (t : nat) (in_path : string)
    : M W string :=
  rds ← scene_dataset crop_size ("apply: builder" +:+ at_scene t) ("apply: build" +:+ at_scene t) [in_path] 1 1
          [layer_of 0 in_path];
  nanos ← state now_nanos;
  let out_path := join_path scratch_dir ("apply_" +:+ band_key +:+ "_t" +:+ pretty (Z.of_nat t) +:+ "_"
                    +:+ pretty nanos +:+ ".tif") in
  _ ← reduce_to rayon (schedule out_path) ("apply: apply_reduction" +:+ at_scene t) rds
        (apply_block sub_pg scale offset) Layer out_path SENTINEL_NDVI_NA;
  mret out_path.

Definition apply_band (sub_pg : Value) (cube : DataCube) (band_key : string) : M W (string * list string) :=
  let '(scale, offset) := default (f64_one, f64_zero) (bt_get band_key (band_scales cube)) in
  '(paths, _) ← lift (take_paths band_key ("apply: band `" +:+ band_key +:+ "` vanished from cube") cube);
  if bool_decide (paths = []) then lift (Err (ExecBackend ("apply: empty band `" +:+ band_key +:+ "` in input cube")))
  else
    out_paths ← for_each (apply_scene sub_pg band_key scale offset) 0 paths;
    mret (band_key, out_paths).

Definition not_scl (cube : DataCube) : list string := filter (λ k, k ≠ "SCL") (bands cube).*1.

(** The new bands, and the bands that were left. *)
Definition apply_cube (applied : btree string (list string)) (cube : DataCube) : DataCube :=
  let n := foldl Nat.max 0%nat (length <$> applied.*2) in
  let rest := filter (λ e : string * list string, e.1 ∉ not_scl cube) (bands cube) in
  output_cube (insert_all rest (insert_all applied [])) (bbox cube) n (Some (Z.of_nat n))
    (Some (Z.of_nat (length applied))) (Some applied.*1).

Fixpoint first_error {A} (f : A → result ExecError ()) (l : list A) : result ExecError () :=
  match l with [] => Ok () | x :: l => _ ← f x; first_error f l end.

Definition eval_apply (args : Args) : M W Value :=
  process ← lift (need "process" "apply: missing `process` sub-callback" args);
  sub_pg ← lift (process_graph_of process);
  _ ← lift_fault (eval_apply_subgraph to_text sub_pg f64_zero);
  data ← lift (need "data" "apply: missing `data`" args);
  cube ← lift (decode_cube serde_error
    "apply: input is not a downloaded cube (run load_collection + ndvi first): " data);
  let band_keys := not_scl cube in
  if bool_decide (band_keys = []) then
    lift (Err (InvalidGraph "apply: __cube.bands has no non-SCL band to apply over"))
  else
    _ ← lift (first_error (λ k, validate_identifier k "apply.band_key") band_keys);
    applied ← for_each (λ _, apply_band sub_pg cube) 0 band_keys;
    mret (to_envelope (apply_cube (bt_of_list applied) cube)).

(** ** reduce_dimension *)

(** The cube of one band, as it is written out. *)
Definition reduced_envelope (band_key : string) (paths : list string) (by_ : string) : Value :=
  Object [("__cube", Object [
    ("bands", Object [(band_key, str_array paths)]);
    ("produced_by", JString by_);
    ("scene_count", Number (PosInt (Z.of_nat (length paths))))])].

(** An index band if there is one, else any band but the classification. *)
Definition pick_band (cube : DataCube) : option string :=
  match find (λ k, bool_decide (is_Some (band k cube))) F32_INDEX_BANDS with
  | Some k => Some k
  | None => find (λ k, negb (bool_decide (k = "SCL"))) (bands cube).*1
  end.

Definition time_mappings (paths : list string) : list LayerMapping :=
  imap (λ t p, mkLayerMapping p (Z.of_nat t) 0 1) paths.

Definition reduce_time (reducer : ReducerKind) (paths : list string) : M W string :=
  rds ← scene_dataset crop_size "reduce_dimension: builder: " "reduce_dimension: build: " paths
          (Z.of_nat (length paths)) 1 (time_mappings paths);
  nanos ← state now_nanos;
  let out_path := join_path scratch_dir ("reduce_" +:+ pretty nanos +:+ ".tif") in
  _ ← reduce_to rayon (schedule out_path) "reduce_dimension: apply_reduction: " rds (time_block reducer) Time
        out_path SENTINEL_NDVI_NA;
  mret out_path.

(** The bands of scene [t] as the layers of a dataset. *)
Definition reduce_bands_scene (reducer : ReducerKind) (band_paths : list (list string)) (t : nat) : M W string :=
  let at_ := "t=" +:+ pretty (Z.of_nat t) +:+ ": " in
  paths ← lift_panic (mapM (λ ps : list string, ps !! t) band_paths);
  rds ← scene_dataset crop_size ("reduce(bands): builder " +:+ at_) ("reduce(bands): build " +:+ at_) paths
          1 (Z.of_nat (length band_paths)) (imap layer_of paths);
  nanos ← state now_nanos;
  let out_path := join_path scratch_dir ("reduce_bands_t" +:+ pretty (Z.of_nat t) +:+ "_" +:+ pretty nanos
                    +:+ ".tif") in
  _ ← reduce_to rayon (schedule out_path) ("reduce(bands): apply_reduction " +:+ at_) rds (band_block reducer)
        Layer out_path SENTINEL_NDVI_NA;
  mret out_path.

Fixpoint check_scene_counts (n : nat) (l : list (string * list string)) : result ExecError () :=
  match l with
  | [] => Ok ()
  | (k, v) :: l =>
      if negb (length v =? n)%nat then
        Err (InvalidGraph ("reduce_dimension(bands): band `" +:+ k +:+ "` has " +:+ pretty (length v)
          +:+ " scenes, expected " +:+ pretty n))
      else check_scene_counts n l
  end.

Definition eval_reduce_dimension_bands (args : Args) : M W Value :=
  reducer_val ← lift (need "reducer" "reduce_dimension(bands): missing `reducer` sub-process callback" args);
  reducer ← lift (parse_reducer_subgraph reducer_val);
  data ← lift (need "data" "reduce_dimension(bands): missing `data`" args);
  cube ← lift (decode_cube serde_error "reduce_dimension(bands): input is not a downloaded cube: " data);
  let by_ := "reduce_dimension(bands, " +:+ reducer_kind_label reducer in
  match filter (λ e : string * list string, e.1 ≠ "SCL") (bands cube) with
  | [] => lift (Err (InvalidGraph "reduce_dimension(bands): cube has no non-SCL band to reduce"))
  | [(_, paths)] => mret (reduced_envelope "result" paths (by_ +:+ ", single-band-passthrough)"))
  | (_, first) :: _ as band_paths =>
      _ ← lift (check_scene_counts (length first) band_paths);
      out_paths ← for_each (λ _, reduce_bands_scene reducer band_paths.*2) 0 (seq 0 (length first));
      mret (reduced_envelope "result" out_paths (by_ +:+ ")"))
  end.

Definition eval_reduce_dimension (args : Args) : M W Value :=
  dim ← lift (ok_or (bt_get "dimension" args ≫= as_str)
    (InvalidGraph "reduce_dimension: missing `dimension` (must be a string)"));
  if bool_decide (dim ∈ ["bands"; "band"]) then eval_reduce_dimension_bands args
  else if negb (bool_decide (dim ∈ ["t"; "time"; "temporal"])) then
    lift (Err (InvalidGraph ("reduce_dimension: dimension `" +:+ dim
      +:+ "` not supported (only `t`/`time`/`temporal` and `bands`/`band`)")))
  else
    reducer_val ← lift (need "reducer" "reduce_dimension: missing `reducer` sub-process callback" args);
    reducer ← lift (parse_reducer_subgraph reducer_val);
    data ← lift (need "data" "reduce_dimension: missing `data`" args);
    cube ← lift (decode_cube serde_error "reduce_dimension: input is not a downloaded cube: " data);
    index_key ← lift (ok_or (pick_band cube) (InvalidGraph ("reduce_dimension: __cube.bands has no usable band "
      +:+ "(cube is empty or only contains SCL)")));
    '(paths, _) ← lift (take_paths index_key
      ("reduce_dimension: band `" +:+ index_key +:+ "` vanished from cube") cube);
    if bool_decide (paths = []) then lift (Err (ExecBackend "reduce_dimension: empty input cube"))
    else
      out_path ← reduce_time reducer paths;
      mret (reduced_envelope index_key [out_path] ("reduce_dimension(" +:+ reducer_kind_label reducer +:+ ")")).
End procs.

(** ** Planes of pixels *)

Lemma mapM_compose {A B C} (g : A → B) (f : B → option C) (l : list A) : mapM f (g <$> l) = mapM (f ∘ g) l.
Proof.
  induction l as [|x l IH]; [done|]. change (mapM f (g <$> (x :: l))) with (y ← f (g x); k ← mapM f (g <$> l); mret (y :: k)).
  rewrite IH. done.
Qed.

(** A plane computed pixel by pixel panics where a pixel does. *)
Lemma plane_spec (s : RasterShape) (P : nat → nat → option f32) :
  match of_rows s <$> mapM (λ row, mapM (P row) (seq 0 (Z.to_nat (rs_cols s)))) (seq 0 (Z.to_nat (rs_rows s))) with
  | Some a => a_layers a = 1 ∧ a_rows a = rs_rows s ∧ a_cols a = rs_cols s ∧
      ∀ r c, 0 ≤ r < a_rows a → 0 ≤ c < a_cols a → P (Z.to_nat r) (Z.to_nat c) = Some (a_at a 0 r c)
  | None => ∃ r c, 0 ≤ r < rs_rows s ∧ 0 ≤ c < rs_cols s ∧ P (Z.to_nat r) (Z.to_nat c) = None
  end.
Proof.
  destruct (mapM _ _) as [l|] eqn:E; simpl.
  - split_and!; [done..|]. intros r c Hr Hc. apply mapM_Some in E.
    destruct (Forall2_lookup_l _ _ _ (Z.to_nat r) (Z.to_nat r) E) as (row & Hrow & Er);
      [rewrite lookup_seq; lia|].
    apply mapM_Some in Er.
    destruct (Forall2_lookup_l _ _ _ (Z.to_nat c) (Z.to_nat c) Er) as (v & Hv & Ev);
      [rewrite lookup_seq; lia|]. by rewrite Hrow; simpl; rewrite Hv.
  - apply mapM_None_1, Exists_exists in E as (row & Hrow%elem_of_seq & Er).
    apply mapM_None_1, Exists_exists in Er as (col & Hcol%elem_of_seq & Ec).
    exists (Z.of_nat row), (Z.of_nat col). rewrite !Nat2Z.id. split_and!; (lia || done).
Qed.

(** A worker that is a plane of pixels, for blocks seen as values by time and layer. *)
Lemma plane_pointwise (worker : DataBlock f32 → option (Array3 f32)) (g : Z → Z → (Z → Z → f32) → option f32) :
  (∀ b, worker b = of_rows (db_shape b) <$>
     mapM (λ row, mapM (λ col, g (rs_times (db_shape b)) (rs_layers (db_shape b))
         (λ t l, db_at b t l (Z.of_nat row) (Z.of_nat col)))
       (seq 0 (Z.to_nat (rs_cols (db_shape b))))) (seq 0 (Z.to_nat (rs_rows (db_shape b))))) →
  (∀ nt nl f f', (∀ t l, f t l = f' t l) → g nt nl f = g nt nl f') → Pointwise worker g.
Proof.
  intros Hw Hg. split.
  - intros b _ _. rewrite Hw.
    pose proof (plane_spec (db_shape b) (λ row col, g (rs_times (db_shape b)) (rs_layers (db_shape b))
      (λ t l, db_at b t l (Z.of_nat row) (Z.of_nat col)))) as Hp.
    destruct (_ <$> _) as [a|].
    + destruct Hp as (Hl & Hr & Hc & Hat). split_and!; [done..|]. intros r c Hrr Hcc.
      rewrite <- Hat by done. apply Hg. intros t l. by rewrite !Z2Nat.id by lia.
    + destruct Hp as (r & c & Hr & Hc & E). exists r, c. split_and!; [lia..|].
      rewrite <- E. apply Hg. intros t l. by rewrite !Z2Nat.id by lia.
  - intros nt nl f f' Hf. apply Hg. intros t l. apply Hf.
Qed.

Section pixels.
Context `{Libm, Libm32} (to_text : Value → string).

Definition apply_value (sub_pg : Value) (scale offset : f64) (nt nl : Z) (f : Z → Z → f32) : option f32 :=
  apply_pixel to_text sub_pg scale offset (f 0 0).

Lemma apply_pointwise sub_pg scale offset dim :
  Pointwise (λ b, apply_block to_text sub_pg scale offset b dim) (apply_value sub_pg scale offset).
Proof.
  apply plane_pointwise.
  - intros b. unfold apply_block, apply_worker, block_rows, apply_value. f_equal. unfold seqZ at 2.
    rewrite !mapM_compose. apply mapM_ext. intros row. unfold compose, seqZ. rewrite !mapM_compose.
    apply mapM_ext. intros col. unfold compose. by rewrite !Z.add_0_r.
  - intros nt nl f f' Hf. unfold apply_value. by rewrite Hf.
Qed.

Definition time_value (red : ReducerKind) (nt nl : Z) (f : Z → Z → f32) : option f32 :=
  reduce_pixel red ((λ t, f (Z.of_nat t) 0) <$> seq 0 (Z.to_nat nt)).

Definition band_value (red : ReducerKind) (nt nl : Z) (f : Z → Z → f32) : option f32 :=
  reduce_pixel red ((λ l, f 0 (Z.of_nat l)) <$> seq 0 (Z.to_nat nl)).

Lemma time_pointwise red dim : Pointwise (λ b, time_block red b dim) (time_value red).
Proof.
  apply plane_pointwise; [done|]. intros nt nl f f' Hf. unfold time_value. f_equal.
  apply list_fmap_ext. intros i t _. apply Hf.
Qed.

Lemma band_pointwise red dim : Pointwise (λ b, band_block red b dim) (band_value red).
Proof.
  apply plane_pointwise; [done|]. intros nt nl f f' Hf. unfold band_value. f_equal.
  apply list_fmap_ext. intros i t _. apply Hf.
Qed.
End pixels.

(** ** Slots of lists of files *)

Lemma slot_imap_none (mk : nat → string → LayerMapping) paths t l :
  (∀ j q, ¬ (lm_time_pos (mk j q) = t ∧ lm_layer_pos (mk j q) = l)) → slot (imap mk paths) t l = None.
Proof.
  revert mk. induction paths as [|p paths IH]; intros mk Hmk; [done|].
  rewrite imap_cons, slot_cons, IH by (intros; apply Hmk). by rewrite decide_False.
Qed.

Lemma slot_imap (mk : nat → string → LayerMapping) paths i p t l : paths !! i = Some p →
  (∀ j q, lm_time_pos (mk j q) = t ∧ lm_layer_pos (mk j q) = l ↔ j = i) →
  slot (imap mk paths) t l = Some (mk i p).
Proof.
  revert mk i. induction paths as [|q paths IH]; intros mk [|i] Hp Hmk; simpl in Hp; try done.
  - injection Hp as ->. rewrite imap_cons, slot_cons.
    rewrite slot_imap_none by (intros j q Hj; apply Hmk in Hj; lia).
    rewrite decide_True; [done|]. by apply Hmk.
  - rewrite imap_cons, slot_cons, (IH (mk ∘ S) i Hp); [done|]. intros j r. unfold compose. rewrite Hmk. lia.
Qed.

(** Reading the slots of a list in order is reading its files in order. *)
Lemma mapped_files {R} (zero : R) px (mk : nat → string → LayerMapping) (pos : nat → Z * Z) paths r c :
  (∀ j q, lm_source (mk j q) = q ∧ lm_band (mk j q) = 1) →
  (∀ i j q, lm_time_pos (mk j q) = (pos i).1 ∧ lm_layer_pos (mk j q) = (pos i).2 ↔ j = i) →
  (λ i, mapped zero px (imap mk paths) (pos i).1 (pos i).2 r c) <$> seq 0 (length paths) =
  (λ p, px p 1 r c) <$> paths.
Proof.
  intros Hs Hpos. apply list_eq. intros i. rewrite !list_lookup_fmap.
  destruct (paths !! i) as [p|] eqn:E; simpl.
  - rewrite lookup_seq_lt by by eapply lookup_lt_Some. simpl. f_equal. unfold mapped.
    rewrite (slot_imap mk paths i p) by (done || apply Hpos). by destruct (Hs i p) as [-> ->].
  - apply lookup_ge_None in E. by rewrite lookup_seq_ge.
Qed.

Section facts.
Context {W : Type} `{Pixels W, !Element f32 W, !ElementLaws f32 W, !Element i16 W, !ElementLaws i16 W} `{Libm, Libm32, DebugText}.
Context (serde_error : Value → string) (scratch_dir : string) (crop_size : Z).
Context (rayon : result string ()) (schedule : string → list Choice) (now_nanos : W → Z * W).
Hypothesis crop_pos : 0 < crop_size.
(** Looking at the clock touches no file. *)
Hypothesis clock_only : ∀ w q, same_file q w (now_nanos w).2.

(** The output of a reduction over time. *)
Definition reduce_name (nanos : Z) : string := join_path scratch_dir ("reduce_" +:+ pretty nanos +:+ ".tif").

Lemma clock_step {A} (f : Z → M W A) w r w' : (nanos ← state now_nanos; f nanos) w = Done (Ok r) w' →
  ∃ nanos w1, (∀ q, same_file q w w1) ∧ f nanos w1 = Done (Ok r) w'.
Proof using clock_only.
  intros (nanos & w1 & E%state_done & Hf)%bind_done. exists nanos, w1. split; [|done].
  intros q. pose proof (clock_only w q) as Hq. by rewrite E in Hq.
Qed.

Lemma reduce_time_done reducer p paths w out w' :
  (∀ q, q ∈ p :: paths → ∀ n, q ≠ reduce_name n) → size_ok w p →
  reduce_time scratch_dir crop_size rayon schedule now_nanos reducer (p :: paths) w = Done (Ok out) w' →
  ∃ nanos, out = reduce_name nanos ∧ only out w w' ∧ ∃ rows cols, raster_size w p = Some (rows, cols) ∧
    filled w' out (mkRasterShape (Z.of_nat (length (p :: paths))) 1 rows cols)
      (λ r c, reduce_pixel reducer ((λ q, px w q 1 r c) <$> (p :: paths))).
Proof using crop_pos clock_only.
  intros Hn Hsize Hrun. unfold reduce_time in Hrun.
  apply bind_done in Hrun as (d & w1 & Hd & Hrun).
  pose proof (scene_dataset_state _ _ _ _ _ _ _ _ _ _ Hd) as ->.
  apply clock_step in Hrun as (nanos & w1 & Hclock & Hrun).
  exists nanos. set (out' := join_path _ _) in Hrun.
  assert (scene_dataset crop_size "reduce_dimension: builder: " "reduce_dimension: build: " (p :: paths)
    (Z.of_nat (length (p :: paths))) 1 (time_mappings (p :: paths)) w = Done (Ok d) w) as Hd' by exact Hd.
  apply (scene_dataset_done crop_size crop_pos) in Hd' as (_ & Hcut & Hms & rows & cols & Hrs & Hshape); [|done].
  apply bind_done in Hrun as ([] & w2 & Hr & [<- <-]%ret_done). split; [done|].
  pose proof (reduce_writes crop_size rayon (schedule out') "reduce_dimension: apply_reduction: " d
    (λ b, time_block reducer b Time) (time_value reducer) Time out' SENTINEL_NDVI_NA w1 (time_pointwise reducer Time) Hcut) as Hw.
  assert (reads_not out' d) as Hread.
  { intros m Hm. rewrite Hms in Hm. apply elem_of_lookup_imap in Hm as (t & q & -> & Hq).
    exact (Hn q (list_elem_of_lookup_2 _ _ _ Hq) nanos). }
  specialize (Hw Hread).
  assert (reduce_to rayon (schedule out') "reduce_dimension: apply_reduction: " d
    (λ b _, time_block reducer b Time) Time out' SENTINEL_NDVI_NA w1 = Done (Ok ()) w2) as E by exact Hr.
  cbv beta in Hw. rewrite E in Hw. destruct Hw as [Ho Hf]. specialize (Hf eq_refl). rewrite Hshape in Hf.
  split; [intros q Hq; etrans; [apply Hclock|by apply Ho]|].
  exists rows, cols. split; [done|]. destruct Hf as [A1 A2]. split; [done|]. intros r c Hrr Hcc.
  destruct (A2 r c Hrr Hcc) as (v & Hv & Hp). exists v. split; [|done]. rewrite <- Hv.
  unfold pixel_at, time_value, source_pixel. rewrite Hshape, Hms. cbn [rs_times rs_layers].
  rewrite Nat2Z.id. f_equal.
  rewrite <- (mapped_files (el_zero : f32) (px w) (λ t p, mkLayerMapping p (Z.of_nat t) 0 1) (λ t, (Z.of_nat t, 0))).
  - apply list_fmap_ext. intros i t _. unfold mapped, time_mappings. simpl fst. simpl snd.
    destruct (slot _ _ _) as [m|]; [|done]. by rewrite (px_same (R:=f32) w w1).
  - done.
  - intros i j q. simpl. lia.
Qed.
(** reduce_dimension over time: what it returns and what it leaves in the files. *)
Lemma eval_reduce_time_done args v w w' data cube key :
  eval_reduce_dimension serde_error scratch_dir crop_size rayon schedule now_nanos args w = Done (Ok v) w' →
  (∃ dim, bt_get "dimension" args ≫= as_str = Some dim ∧ dim ∈ ["t"; "time"; "temporal"]) →
  bt_get "data" args = Some data → from_envelope_owned serde_error data = Ok cube → pick_band cube = Some key →
  (∀ paths p, band key cube = Some paths → p ∈ paths → size_ok w p ∧ ∀ n, p ≠ reduce_name n) →
  ∃ callback reducer p ps nanos, bt_get "reducer" args = Some callback ∧
    parse_reducer_subgraph callback = Ok reducer ∧ band key cube = Some (p :: ps) ∧
    let out := reduce_name nanos in
    v = reduced_envelope key [out] ("reduce_dimension(" +:+ reducer_kind_label reducer +:+ ")") ∧
    only out w w' ∧ ∃ rows cols, raster_size w p = Some (rows, cols) ∧
    filled w' out (mkRasterShape (Z.of_nat (length (p :: ps))) 1 rows cols)
      (λ r c, reduce_pixel reducer ((λ q, px w q 1 r c) <$> (p :: ps))).
Proof using crop_pos clock_only.
  intros Hrun (dim & Hdim & Htime) Hdata Hcube Hpick Hsrc. unfold eval_reduce_dimension in Hrun.
  apply bind_done in Hrun as (dim' & w1 & [E <-]%lift_done & Hrun). rewrite Hdim in E. injection E as <-.
  assert (bool_decide (dim ∈ ["bands"; "band"]) = false) as Eb.
  { apply bool_decide_eq_false. intros Hb. repeat (apply elem_of_cons in Htime as [->|Htime]; [by set_solver|]).
    by apply elem_of_nil in Htime. }
  rewrite Eb, (bool_decide_eq_true_2 (dim ∈ ["t"; "time"; "temporal"])) in Hrun by done. simpl in Hrun. clear Eb.
  apply bind_done in Hrun as (callback & w1 & [Hcb <-]%lift_done & Hrun). apply need_ok in Hcb.
  apply bind_done in Hrun as (reducer & w1 & [Hred <-]%lift_done & Hrun).
  apply bind_done in Hrun as (data' & w1 & [E <-]%lift_done & Hrun). apply need_ok in E.
  rewrite Hdata in E. injection E as <-.
  apply bind_done in Hrun as (cube' & w1 & [E <-]%lift_done & Hrun). apply decode_cube_ok in E.
  rewrite Hcube in E. injection E as <-. rewrite Hpick in Hrun.
  apply bind_done in Hrun as (key' & w1 & [[= <-] <-]%lift_done & Hrun).
  apply bind_done in Hrun as ([paths c'] & w1 & [[Hb ->]%take_paths_ok <-]%lift_done & Hrun).
  case_bool_decide; [by apply lift_done in Hrun as [? _]|]. destruct paths as [|p ps]; [done|].
  apply bind_done in Hrun as (out & w1 & Hr & [<- <-]%ret_done).
  apply reduce_time_done in Hr as (nanos & -> & Ho & Hf).
  - exists callback, reducer, p, ps, nanos. split; [done|]. split; [done|]. split; [done|]. by split.
  - intros q Hq. by apply (Hsrc _ q Hb).
  - apply (Hsrc _ p Hb). by left.
Qed.

Lemma reduce_name_fresh t n : scene_name scratch_dir "ndvi" t ≠ reduce_name n.
Proof. intros E%join_path_inj; done. Qed.

(** C9: an index over time, as graphs compute it: [ndvi] makes the index of every scene
    and [reduce_dimension] over time reduces it.  When both succeed, the cube that comes
    out has one raster, of the size of the scenes, and every pixel of it is the
    reduction of the index values of that pixel in all scenes, in order of scenes,
    whatever the schedules of the block loops of the two processes; files that are no
    outputs are as before.  The sources are rasters of one size other than the
    outputs. *)
Theorem ndvi_over_time_pixels args1 args2 v1 v2 w0 w1 w2 data dc dim :
  eval_ndvi serde_error scratch_dir crop_size rayon schedule args1 w0 = Done (Ok v1) w1 →
  eval_reduce_dimension serde_error scratch_dir crop_size rayon schedule now_nanos args2 w1 = Done (Ok v2) w2 →
  str_arg "target_band" "ndvi" args1 = "ndvi" →
  bt_get "dimension" args2 ≫= as_str = Some dim → dim ∈ ["t"; "time"; "temporal"] →
  bt_get "data" args1 = Some data → bt_get "data" args2 = Some v1 →
  numbers_ok data = true → from_envelope_owned serde_error data = Ok dc →
  (∀ p, p ∈ all_paths (bands dc) → source_ok scratch_dir "ndvi" w0 p) →
  (∀ p q, p ∈ all_paths (bands dc) → q ∈ all_paths (bands dc) → same_size w0 p q) →
  (∀ rv nv, in_range (ndvi_value rv nv)) →
  ∃ callback reducer reds nirs nanos, bt_get "reducer" args2 = Some callback ∧
    parse_reducer_subgraph callback = Ok reducer ∧
    band (str_arg "red" "B04" args1) dc = Some reds ∧
    bt_get (str_arg "nir" "B08" args1) (bt_remove (str_arg "red" "B04" args1) (bands dc)) = Some nirs ∧
    length reds = length nirs ∧
    v2 = reduced_envelope "ndvi" [reduce_name nanos]
           ("reduce_dimension(" +:+ reducer_kind_label reducer +:+ ")") ∧
    (∀ q, (∀ t, q ≠ scene_name scratch_dir "ndvi" t) → q ≠ reduce_name nanos → same_file q w0 w2) ∧
    ∃ p rows cols, head reds = Some p ∧ raster_size w0 p = Some (rows, cols) ∧
      filled w2 (reduce_name nanos) (mkRasterShape (Z.of_nat (length reds)) 1 rows cols)
        (λ r c, reduce_pixel reducer
          (zip_with (λ p q, ndvi_value (px w0 p 1 r c) (px w0 q 1 r c)) reds nirs)).
Proof using crop_pos clock_only.
  intros Hrun1 Hrun2 Ht Hdim Htime Hd1 Hd2 Hnum Hdc Hsrc Hsize Hrange.
  pose proof (decoded_wf _ _ _ Hnum Hdc) as Hwf.
  destruct (eval_ndvi_done serde_error scratch_dir crop_size rayon schedule crop_pos args1 v1 w0 w1 data dc Hrun1 Hd1 Hdc)
    as (reds & nirs & Hne & Hlen & Hr & Hn & Hv1 & Ho1 & Hw1); [by rewrite Ht|].
  cbv zeta in Hv1. rewrite Ht in Hv1, Ho1, Hw1. subst v1.
  set (outs := scene_name scratch_dir "ndvi" <$> seq 0 (length reds)) in *.
  set (c := set_bands _ dc) in *.
  assert (cube_wf c) as Hc by (destruct Hwf; split; simpl; auto using bt_wf_remove).
  destruct (ndvi_cube_passed serde_error (str_arg "red" "B04" args1) (str_arg "nir" "B08" args1) "ndvi" outs c Hc)
    as [Hdec Hband].
  set (out := ndvi_cube _ _ _ _ _) in *.
  assert (∃ p ps, reds = p :: ps) as (p & ps & Ereds) by (destruct reds as [|p ps]; [done|by exists p, ps]).
  assert (∀ t rd, reds !! t = Some rd → ∃ rows cols, raster_size w0 p = Some (rows, cols) ∧ size_ok w0 rd ∧
    raster_size w0 rd = Some (rows, cols) ∧ raster_size w1 (scene_name scratch_dir "ndvi" t) = Some (rows, cols)) as Hs.
  { intros t rd Et. assert (is_Some (nirs !! t)) as [nr En] by (apply lookup_lt_is_Some_2; rewrite <- Hlen; by eapply lookup_lt_Some).
    destruct (Hw1 t (rd, nr)) as (rows & cols & E1 & E2 & _); [by apply lookup_zip_Some|].
    assert (∀ q, q ∈ reds → q ∈ all_paths (bands dc)) as Hin by (intros q Hq; by eapply all_paths_band).
    assert (rd ∈ reds) as Hrd by by eapply list_elem_of_lookup_2.
    exists rows, cols. split_and!; [|by apply Hsrc, Hin|done|done].
    rewrite <- E1. apply Hsize; apply Hin; [rewrite Ereds; by left|done]. }
  destruct (eval_reduce_time_done args2 v2 w1 w2 (to_envelope out) out "ndvi" Hrun2) as
    (callback & reducer & q & qs & nanos & Hcb & Hred & Hps & Hv2 & Ho2 & rows & cols & E1 & Hf);
    [by exists dim|done|done| | |].
  { unfold pick_band. simpl. by rewrite Hband. }
  { rewrite Hband. intros paths q [= <-] (t & -> & Hlt%elem_of_seq)%list_elem_of_fmap.
    destruct (lookup_lt_is_Some_2 reds t) as [rd Et]; [lia|]. destruct (Hs t rd Et) as (rows & cols & _ & Hok & E1 & E2).
    split; [|by apply reduce_name_fresh]. intros rows' cols'. rewrite E2, <- E1. apply Hok. }
  rewrite Hband in Hps. injection Hps as Hps.
  destruct (Hs 0%nat p) as (rows' & cols' & E2 & _ & _ & E3); [by rewrite Ereds|].
  assert (q = scene_name scratch_dir "ndvi" 0) as -> by (unfold outs in Hps; rewrite Ereds in Hps; by injection Hps).
  rewrite E3 in E1. injection E1 as -> ->.
  exists callback, reducer, reds, nirs, nanos. do 6 (split; [done|]). split.
  { intros q Hq1 Hq2. etrans; [apply Ho1; intros t _; apply Hq1|by apply Ho2]. }
  exists p, rows, cols. split; [by rewrite Ereds|]. split; [done|].
  destruct Hf as [A1 A2]. split; [done|]. simpl in *. intros r c' Hrr Hcc. destruct (A2 r c' Hrr Hcc) as (v & Hv & Hp).
  exists v. split; [|done]. rewrite <- Hv. f_equal.
  change (zip_with (λ p q, ndvi_value (px w0 p 1 r c') (px w0 q 1 r c')) reds nirs =
    (λ q, px w1 q 1 r c') <$> (scene_name scratch_dir "ndvi" 0 :: qs)).
  rewrite <- Hps. unfold outs. apply list_eq. intros t. rewrite lookup_zip_with, !list_lookup_fmap.
  destruct (reds !! t) as [rd|] eqn:Et; simpl.
  - rewrite lookup_seq_lt by by eapply lookup_lt_Some.
    destruct (lookup_lt_is_Some_2 nirs t) as [nr En]; [rewrite <- Hlen; by eapply lookup_lt_Some|].
    rewrite En. simpl. f_equal. destruct (Hw1 t (rd, nr)) as (rows' & cols' & E1 & _ & Hfill); [by apply lookup_zip_Some|].
    destruct (Hs t rd Et) as (rows2 & cols2 & E4 & _ & E5 & _). simpl in E1, Hfill.
    rewrite E4 in E2. injection E2 as <- <-. rewrite E5 in E1. injection E1 as <- <-.
    destruct (Hfill r c' Hrr Hcc) as (u & [= <-] & Hu). unfold px at 3. by rewrite Hu, of_to_raw.
  - apply lookup_ge_None in Et. by rewrite lookup_seq_ge.
Qed.
End facts.

(** ** A run *)

Module Demo.
Import Memory.

#[local] Instance demo_debug : DebugText := {|
  debug_char s := s; debug_strings _ := ""; debug_f64s _ := "" |}.
#[local] Existing Instance Reduce.demo_libm32.
Definition demo_text (v : Value) : string := "".
Definition demo_clock (w : World) : Z * World := (7, w).

(** Two scenes of two pixels: the red band and the near-infrared one. *)
Definition demo_world : World :=
  <["r0.tif" := mkFile 1 2 (λ _ _ c, Int (100 + 100 * c))]>
  (<["r1.tif" := mkFile 1 2 (λ _ _ c, Int (100 - 200 * c))]>
  (<["n0.tif" := mkFile 1 2 (λ _ _ c, Int 300)]> (<["n1.tif" := mkFile 1 2 (λ _ _ c, Int 100)]> ∅))).

Definition demo_data : Value := Object [("__cube", Object [("bands", Object [
  ("B04", Array [JString "r0.tif"; JString "r1.tif"]); ("B08", Array [JString "n0.tif"; JString "n1.tif"])])])].

Definition ndvi_args : Args := bt_of_list [("data", demo_data)].
Definition reducer : Value := Object [("process_graph", Object [("m", Object [("process_id", JString "mean");
  ("arguments", Object [("data", Object [("from_parameter", JString "data")])]); ("result", Bool true)])])].
Definition reduce_args (v : Value) : Args :=
  bt_of_list [("data", v); ("dimension", JString "t"); ("reducer", reducer)].

Definition demo_schedule (p : string) : list Choice := one_by_one 1.

Definition ndvi_run : Ending World Value :=
  eval_ndvi demo_text "/s" 2 (Ok ()) demo_schedule ndvi_args demo_world.
Definition reduce_run : Ending World Value :=
  match ndvi_run with
  | Done (Ok v) w => eval_reduce_dimension demo_text "/s" 2 (Ok ()) demo_schedule demo_clock (reduce_args v) w
  | _ => Endless
  end.

(** The mean of 0.5 and 0; and 0.2, where the second scene has no data. *)
Example reduce_run_pixels :
  match reduce_run with
  | Done (Ok _) w => match w !! reduce_name "/s" 7 with
      | Some f => f_cells f 1 0 0 = Real (f32_div (f32_of_Z 1) (f32_of_Z 4)) ∧
                  f_cells f 1 0 1 = Real (f32_div (f32_of_Z 1) (f32_of_Z 5))
      | None => False
      end
  | _ => False
  end.
Proof. vm_compute. done. Qed.

Definition demo_cube : DataCube := set_bands [("B04", ["r0.tif"; "r1.tif"]); ("B08", ["n0.tif"; "n1.tif"])] DataCube_new.

Lemma demo_source p : p ∈ all_paths (bands demo_cube) →
  raster_size demo_world p = Some (1, 2) ∧ source_ok "/s" "ndvi" demo_world p.
Proof.
  intros Hp. assert (raster_size demo_world p = Some (1, 2) ∧ starts_with "/" p = false) as [E Hs].
  { simpl in Hp. repeat (apply elem_of_cons in Hp as [->|Hp]; [by split; vm_compute|]). by apply elem_of_nil in Hp. }
  split; [done|]. split.
  - intros rows cols. rewrite E. intros [= <- <-]. unfold in_u. lia.
  - intros t ->. done.
Qed.

Lemma ndvi_over_time_pixels_witness : ∃ v1 w1 v2 w2, ndvi_run = Done (Ok v1) w1 ∧ reduce_run = Done (Ok v2) w2 ∧
  ∃ callback reducer reds nirs nanos, parse_reducer_subgraph callback = Ok reducer ∧
    band "B04" demo_cube = Some reds ∧ band "B08" demo_cube = Some nirs ∧ ∃ rows cols,
      filled w2 (reduce_name "/s" nanos) (mkRasterShape (Z.of_nat (length reds)) 1 rows cols)
        (λ r c, reduce_pixel reducer
          (zip_with (λ p q, ndvi_value (px demo_world p 1 r c) (px demo_world q 1 r c)) reds nirs)).
Proof.
  destruct (succeeds ndvi_run ltac:(vm_compute; reflexivity)) as (v1 & w1 & R1).
  destruct (succeeds reduce_run ltac:(vm_compute; reflexivity)) as (v2 & w2 & R2).
  exists v1, w1, v2, w2. split; [done|]. split; [done|]. unfold reduce_run in R2. rewrite R1 in R2.
  destruct (ndvi_over_time_pixels demo_text "/s" 2 (Ok ()) demo_schedule demo_clock ltac:(lia)
    ltac:(intros w q; split; [done|by intros]) ndvi_args (reduce_args v1)
    v1 v2 demo_world w1 w2 demo_data demo_cube "t" R1 R2)
    as (callback & red & reds & nirs & nanos & _ & Hred & E1 & E2 & _ & _ & _ & p & rows & cols & _ & _ & Hf);
    [reflexivity|reflexivity|by left|reflexivity|reflexivity|reflexivity|reflexivity| | | |].
  - intros p Hp. by apply demo_source.
  - intros p q Hp Hq. apply demo_source in Hp as [Hp _], Hq as [Hq _]. unfold same_size. by rewrite Hp, Hq.
  - intros rv nv. reflexivity.
  - exists callback, red, reds, nirs, nanos. split; [exact Hred|]. split; [exact E1|]. split; [exact E2|].
    exists rows, cols. exact Hf.
Defined.
End Demo.
