(* ===== verification/BlockExec.v ===== *)
(** * The bounded block executor: apps/orbit-openeo/src/block_executor.rs

    The memory budget with its compare-and-swap loop, and [run_blocks], as transition
    systems: an actor's action is the code between two points where another thread may
    act, and a list of actors is one interleaving. *)

From S2P Require Import Prelude.
Local Open Scope Z_scope.

Inductive BlockExecError :=
| Worker (message : string)
| Cancelled
| BudgetExhausted (requested available : Z).

(** ** The memory budget *)

Record MemoryBudget := mkBudget { used : Z; cap : Z }.

Definition MemoryBudget_new (cap_bytes : Z) : MemoryBudget := mkBudget 0 cap_bytes.
Definition saturating_sub (a b : Z) : Z := Z.max 0 (a - b).
Definition saturating_add (a b : Z) : Z := Z.min (2 ^ 64 - 1) (a + b).
Definition available (b : MemoryBudget) : Z := saturating_sub (cap b) (used b).

(** A caller of [try_reserve], up to the drop of its guard. *)
Inductive reservation :=
| Loading (bytes : Z)
| Swapping (bytes cur : Z)               (* [cur] was read; the exchange is next *)
| Guarding (bytes : Z)                   (* holds a [MemoryGuard] *)
| Dropped
| Refused (e : BlockExecError).

(** The next action of a caller; a weak exchange may fail for no reason. *)
Definition reserve_step (spurious : bool) (t : reservation) (b : MemoryBudget)
    : option (reservation * MemoryBudget) :=
  match t with
  | Loading bytes => Some (Swapping bytes (used b), b)
  | Swapping bytes cur =>
      let next := saturating_add cur bytes in
      if cap b <? next then Some (Refused (BudgetExhausted bytes (saturating_sub (cap b) cur)), b)
      else if (used b =? cur) && negb spurious then Some (Guarding bytes, mkBudget next (cap b))
      else Some (Swapping bytes (used b), b)
  | Guarding bytes => Some (Dropped, mkBudget (wrap 64 (used b - bytes)) (cap b))
  | Dropped | Refused _ => None
  end.

Inductive budget_step : MemoryBudget * list reservation → MemoryBudget * list reservation → Prop :=
| step_call b ts bytes : in_u 64 bytes → budget_step (b, ts) (b, ts ++ [Loading bytes])
| step_caller b ts i t spurious t' b' : ts !! i = Some t → reserve_step spurious t b = Some (t', b') →
    budget_step (b, ts) (b', <[i := t']> ts).

(** A list of turns, to run the system: a call, or the caller that acts. *)
Inductive turn := Call (bytes : Z) | Turn (i : nat).
Definition take_turn (s : MemoryBudget * list reservation) (x : turn) : option (MemoryBudget * list reservation) :=
  match x with
  | Call bytes => if fits 64 bytes then Some (s.1, s.2 ++ [Loading bytes]) else None
  | Turn i => t ← s.2 !! i; '(t', b') ← reserve_step false t s.1; Some (b', <[i := t']> s.2)
  end.
Fixpoint take_turns (xs : list turn) (s : MemoryBudget * list reservation) : option (MemoryBudget * list reservation) :=
  match xs with [] => Some s | x :: xs => s ← take_turn s x; take_turns xs s end.

Definition guarded (t : reservation) : Z := match t with Guarding bytes => bytes | _ => 0 end.
Definition total_guarded (ts : list reservation) : Z := foldr (λ t n, guarded t + n) 0 ts.

(** ** run_blocks *)

Section executor.
Context {O : Type}.
Context (total_blocks n_threads : nat).
(** The outcome of each block, [None] for a panic; how a panic reads as a join error;
    whether there is a progress callback. *)
Context (worker : nat → option (result string O)) (join_error : nat → string) (progress : bool).

(** A spawned task. *)
Inductive phase :=
| Spawned                                           (* waits for a thread *)
| Working                                           (* was not cancelled *)
| Counting (r : result string O)                    (* [done.fetch_add] is next *)
| Reporting (r : result string O) (n : nat)         (* the progress callback is next *)
| Ending (r : option (result string O))             (* drops its permit *)
| Ended (r : option (result string O)).

(** [run_blocks] itself. *)
Inductive driver :=
| Checking (id : nat)
| Acquiring (id : nat)
| Awaiting (k : nat) (out : list O)
| Returned (r : result BlockExecError (list O)).

Record State := mkState {
  s_cancel : bool; s_permits : nat; s_tasks : list phase; s_done : nat;
  s_reports : list (nat * nat); s_driver : driver }.

Definition start (cancelled : bool) : State :=
  mkState cancelled (Nat.max n_threads 1) [] 0 [] (Checking 0).

Definition joined (k : nat) (out : list O) (r : option (result string O)) : driver :=
  match r with
  | None => Returned (Err (Worker (join_error k)))
  | Some (Ok v) => Awaiting (S k) (out ++ [v])
  | Some (Err e) => Returned (Err (if bool_decide (e = "cancelled") then Cancelled else Worker e))
  end.

Definition with_driver (d : driver) (s : State) : State :=
  mkState (s_cancel s) (s_permits s) (s_tasks s) (s_done s) (s_reports s) d.
Definition with_task (k : nat) (p : phase) (s : State) : State :=
  mkState (s_cancel s) (s_permits s) (<[k := p]> (s_tasks s)) (s_done s) (s_reports s) (s_driver s).

(** [None]: nothing to do, or blocked. *)
Definition drive (s : State) : option State :=
  match s_driver s with
  | Checking id =>
      Some (with_driver
        (if (id <? total_blocks)%nat then
           if s_cancel s then Returned (Err Cancelled) else Acquiring id
         else Awaiting 0 []) s)
  | Acquiring id =>
      match s_permits s with
      | 0%nat => None
      | S n => Some (mkState (s_cancel s) n (s_tasks s ++ [Spawned]) (s_done s) (s_reports s) (Checking (S id)))
      end
  | Awaiting k out =>
      match s_tasks s !! k with
      | None => Some (with_driver (Returned (Ok out)) s)
      | Some (Ended r) => Some (with_driver (joined k out r) s)
      | Some _ => None
      end
  | Returned _ => None
  end.

Definition task_step (k : nat) (s : State) : option State :=
  match s_tasks s !! k with
  | Some Spawned => Some (with_task k (if s_cancel s then Ending (Some (Err "cancelled")) else Working) s)
  | Some Working => Some (with_task k (match worker k with None => Ending None | Some r => Counting r end) s)
  | Some (Counting r) =>
      let n := S (s_done s) in
      Some (mkState (s_cancel s) (s_permits s)
        (<[k := if progress then Reporting r n else Ending (Some r)]> (s_tasks s)) n (s_reports s) (s_driver s))
  | Some (Reporting r n) =>
      Some (mkState (s_cancel s) (s_permits s) (<[k := Ending (Some r)]> (s_tasks s)) (s_done s)
        (s_reports s ++ [(n, total_blocks)]) (s_driver s))
  | Some (Ending r) =>
      Some (mkState (s_cancel s) (S (s_permits s)) (<[k := Ended r]> (s_tasks s)) (s_done s) (s_reports s)
        (s_driver s))
  | Some (Ended _) | None => None
  end.

Inductive actor := Cancel | Driver | Task (k : nat).

#[export] Instance actor_eq_dec : EqDecision actor.
Proof. solve_decision. Defined.

Definition act (a : actor) (s : State) : option State :=
  match a with
  | Cancel => Some (mkState true (s_permits s) (s_tasks s) (s_done s) (s_reports s) (s_driver s))
  | Driver => drive s
  | Task k => task_step k s
  end.

(** An actor whose turn comes when it cannot act waits. *)
Definition step (s : State) (a : actor) : State := default s (act a s).
Definition run (schedule : list actor) (s : State) : State := foldl step s schedule.

(** One block after the other, up to the first that fails. *)
Fixpoint sequential (id n : nat) : result BlockExecError (list O) :=
  match n with
  | 0%nat => Ok []
  | S n =>
      match worker id with
      | None => Err (Worker (join_error id))
      | Some (Err e) => Err (if bool_decide (e = "cancelled") then Cancelled else Worker e)
      | Some (Ok v) => out ← sequential (S id) n; Ok (v :: out)
      end
  end.
End executor.

(** ** The budget is kept *)

Lemma total_guarded_insert ts i t t' : ts !! i = Some t →
  total_guarded (<[i := t']> ts) = total_guarded ts - guarded t + guarded t'.
Proof.
  revert i. induction ts as [|u ts IH]; intros [|i]; simpl; intros E; try done.
  - injection E as ->. lia.
  - rewrite (IH i E). lia.
Qed.

Lemma total_guarded_app ts us : total_guarded (ts ++ us) = total_guarded ts + total_guarded us.
Proof. induction ts as [|t ts IH]; simpl; [done|]. rewrite IH. lia. Qed.

(** Sizes are machine words, and what was read was within the cap. *)
Definition bytes_ok (c : Z) (t : reservation) : Prop :=
  match t with
  | Loading n | Guarding n => in_u 64 n
  | Swapping n cur => in_u 64 n ∧ 0 ≤ cur ≤ c
  | _ => True
  end.

(** The books balance: what is used is what live guards hold. *)
Record budget_inv (c : Z) (s : MemoryBudget * list reservation) : Prop := {
  bi_cap : cap s.1 = c;
  bi_used : used s.1 = total_guarded s.2;
  bi_bound : 0 ≤ used s.1 ≤ c;
  bi_bytes : Forall (bytes_ok c) s.2;
  bi_refused : ∀ i req av, s.2 !! i = Some (Refused (BudgetExhausted req av)) → av < req }.

Lemma total_guarded_ge c ts i t : Forall (bytes_ok c) ts → ts !! i = Some t → guarded t ≤ total_guarded ts.
Proof.
  intros Hok. revert i. induction Hok as [|u ts Hu Hok IH]; intros [|i] E; simpl in *; try done.
  - injection E as ->. assert (0 ≤ total_guarded ts); [|lia]. clear -Hok.
    induction Hok as [|v ts Hv _ IH]; simpl; [done|]. destruct v; simpl in *; unfold in_u in *; lia.
  - specialize (IH i E). destruct u; simpl in *; unfold in_u in *; lia.
Qed.

Lemma lookup_insert_refused (ts : list reservation) i t' j e :
  <[i := t']> ts !! j = Some (Refused e) → t' = Refused e ∨ ts !! j = Some (Refused e).
Proof. intros [(_ & E & _)|[_ E]]%list_lookup_insert_Some; [by left|by right]. Qed.

(** A caller moves on. *)
Lemma caller_inv c b ts i t b' t' : budget_inv c (b, ts) → ts !! i = Some t → cap b' = c →
  used b' = used b - guarded t + guarded t' → 0 ≤ used b' ≤ c → bytes_ok c t' →
  (∀ req av, t' = Refused (BudgetExhausted req av) → av < req) → budget_inv c (b', <[i := t']> ts).
Proof.
  intros [I1 I2 I3 I4 I5] Et Hcap Hused Hbound Hok Href. simpl in *. split; cbn [fst snd]; [done| |done| |].
  - rewrite (total_guarded_insert _ _ _ _ Et). lia.
  - by apply Forall_insert.
  - intros j req av [E|E]%lookup_insert_refused; [by apply Href|by eapply I5].
Qed.

Lemma budget_step_inv c s s' : c < 2 ^ 64 - 1 → budget_inv c s → budget_step s s' → budget_inv c s'.
Proof.
  intros Hc Hinv Hs. pose proof Hinv as [I1 I2 I3 I4 I5].
  destruct Hs as [b ts bytes Hb|b ts i t spurious t' b' Et Hstep]; simpl in *.
  - split; simpl; [done| |done| |].
    + rewrite total_guarded_app. simpl. lia.
    + apply Forall_app. split; [done|]. by constructor.
    + intros j req av [E|[_ E]]%lookup_app_Some; [by eapply I5|].
      by apply list_lookup_singleton_Some in E as [_ ?].
  - pose proof (Forall_lookup_1 _ _ _ _ I4 Et) as Hbt. pose proof (total_guarded_ge _ _ _ _ I4 Et) as Hge.
    destruct t as [bytes|bytes cur|bytes| |e]; simpl in Hstep, Hbt, Hge; try done.
    + injection Hstep as <- <-. apply (caller_inv c b ts i _ _ _ Hinv Et); simpl; try done; lia.
    + destruct Hbt as [Hb Hcur]. destruct (Z.ltb_spec (cap b) (saturating_add cur bytes)) as [Hlt|Hle]; simpl in Hstep.
      * injection Hstep as <- <-. apply (caller_inv c b ts i _ _ _ Hinv Et); simpl; try done; [lia|].
        intros req av [= <- <-]. unfold saturating_add, saturating_sub, in_u in *. lia.
      * destruct ((used b =? cur) && negb spurious) eqn:E; injection Hstep as <- <-.
        -- apply andb_prop in E as [E%Z.eqb_eq _]. unfold saturating_add, in_u in *.
           apply (caller_inv c b ts i _ _ _ Hinv Et); simpl; try done; lia.
        -- apply (caller_inv c b ts i _ _ _ Hinv Et); simpl; try done; lia.
    + injection Hstep as <- <-. unfold wrap, in_u in *. rewrite Z.mod_small by lia.
      apply (caller_inv c b ts i _ _ _ Hinv Et); simpl; try done; lia.
Qed.

(** C35: the memory budget holds under every interleaving of callers, each between the
    read, the exchanges and the drop of its guard, and whichever exchanges fail for no
    reason: what is used is exactly what the live guards hold and never exceeds the
    cap, so the subtraction of a drop does not wrap, and a refused caller asked for
    more than it is told was available.  The cap is any but the largest machine word. *)
Theorem budget_never_exceeded (c : Z) (s : MemoryBudget * list reservation) : 0 ≤ c < 2 ^ 64 - 1 →
  rtc budget_step (MemoryBudget_new c, []) s →
  used s.1 = total_guarded s.2 ∧ 0 ≤ used s.1 ≤ cap s.1 ∧ available s.1 = c - total_guarded s.2 ∧
  ∀ i req av, s.2 !! i = Some (Refused (BudgetExhausted req av)) → av < req.
Proof.
  intros Hc Hrun. assert (budget_inv c s) as [I1 I2 I3 I4 I5].
  { assert (budget_inv c (MemoryBudget_new c, [])) as H0 by (split; simpl; auto with lia || done).
    revert H0. induction Hrun as [|x y z Hxy _ IH]; intros Hx; [done|]. apply IH.
    eapply budget_step_inv; [lia|exact Hx|exact Hxy]. }
  split_and!; [done|lia|lia| |done]. unfold available, saturating_sub. lia.
Qed.

Lemma turns_step xs s s' : take_turns xs s = Some s' → rtc budget_step s s'.
Proof.
  revert s. induction xs as [|x xs IH]; intros s Hs; simpl in Hs; [by injection Hs as ->|].
  apply bind_Some in Hs as (s1 & Ht & Hs). eapply rtc_l; [|by apply IH]. destruct s as [b ts].
  destruct x as [bytes|i]; simpl in Ht.
  - destruct (fits 64 bytes) eqn:E; [|done]. injection Ht as <-. apply step_call. by apply fits_spec.
  - apply bind_Some in Ht as (t & Et & ([t' b'] & Hr & [= <-])%bind_Some). by eapply step_caller.
Qed.

(** With the largest word as the cap, for "no limit", the addition saturates, and the
    drops of two large reservations wrap around: one byte stays in use for ever. *)
Example unlimited_budget_wraps :
  let m := 2 ^ 64 - 1 in
  match take_turns [Call m; Call m; Turn 0; Turn 0; Turn 1; Turn 1; Turn 0; Turn 1] (MemoryBudget_new m, []) with
  | Some s => used s.1 = 1 ∧ total_guarded s.2 = 0
  | None => False
  end.
Proof. vm_compute. done. Qed.

(** ** run_blocks: permits, outcomes, and its end *)

Lemma sum_insert {A} (f : A → nat) (l : list A) i x y : l !! i = Some x →
  (sum_list_with f (<[i := y]> l) + f x = sum_list_with f l + f y)%nat.
Proof.
  revert i. induction l as [|z l IH]; intros [|i] E; simpl in *; try done.
  - injection E as ->. lia.
  - specialize (IH i E). lia.
Qed.

Section facts.
Context {O : Type} (total_blocks n_threads : nat).
Context (worker : nat → option (result string O)) (join_error : nat → string) (progress : bool).
Implicit Types (s : State (O:=O)) (p : phase (O:=O)).

Local Notation act := (act total_blocks worker join_error progress).
Local Notation step := (step total_blocks worker join_error progress).
Local Notation run := (run total_blocks worker join_error progress).
Local Notation start := (start n_threads).
Local Notation sequential := (sequential worker join_error).

(** A task has a permit until it ends. *)
Definition holding p : nat := match p with Ended _ => 0 | _ => 1 end.
Definition active s : nat := sum_list_with holding (s_tasks s).

Definition outcome_ok (cancelled : bool) (k : nat) (r : option (result string O)) : Prop :=
  r = worker k ∨ r = Some (Err "cancelled") ∧ cancelled = true.

Definition phase_ok (cancelled : bool) (k : nat) p : Prop :=
  match p with
  | Spawned | Working => True
  | Counting r | Reporting r _ => worker k = Some r
  | Ending r | Ended r => outcome_ok cancelled k r
  end.

(** The blocks before [k] succeeded with these results. *)
Definition all_ok (k : nat) (out : list O) : Prop :=
  length out = k ∧ ∀ j v, out !! j = Some v → worker j = Some (Ok v).

Definition driver_ok (cancelled : bool) (n : nat) (d : driver (O:=O)) : Prop :=
  match d with
  | Checking id => id = n ∧ (id ≤ total_blocks)%nat
  | Acquiring id => id = n ∧ (id < total_blocks)%nat
  | Awaiting k out => n = total_blocks ∧ (k ≤ n)%nat ∧ all_ok k out
  | Returned r => r = sequential 0 total_blocks ∨ r = Err Cancelled ∧ cancelled = true
  end.

Record inv (s : State) : Prop := {
  i_permits : (s_permits s + active s)%nat = Nat.max n_threads 1;
  i_tasks : ∀ k p, s_tasks s !! k = Some p → phase_ok (s_cancel s) k p;
  i_driver : driver_ok (s_cancel s) (length (s_tasks s)) (s_driver s) }.

(** Blocks that succeed are passed one after the other. *)
Lemma sequential_prefix id out n : (∀ j v, out !! j = Some v → worker (id + j)%nat = Some (Ok v)) →
  sequential id (length out + n) = (rest ← sequential (id + length out) n; Ok (out ++ rest)).
Proof.
  revert id. induction out as [|v out IH]; intros id Hout; simpl.
  - rewrite Nat.add_0_r. by destruct (sequential id n).
  - pose proof (Hout 0%nat v eq_refl) as Hv. rewrite Nat.add_0_r in Hv. rewrite Hv.
    rewrite (IH (S id)); [|intros j u Hj; replace (S id + j)%nat with (id + S j)%nat by lia; by apply Hout].
    replace (S id + length out)%nat with (id + S (length out))%nat by lia.
    by destruct (sequential (id + S (length out)) n).
Qed.

Lemma all_ok_sequential k out : (k ≤ total_blocks)%nat → all_ok k out →
  sequential 0 total_blocks = (rest ← sequential k (total_blocks - k); Ok (out ++ rest)).
Proof.
  intros Hk [<- Hout]. replace total_blocks with (length out + (total_blocks - length out))%nat at 1 by lia.
  by rewrite (sequential_prefix 0 out).
Qed.

Lemma joined_ok cancelled k out r : (k < total_blocks)%nat → all_ok k out → outcome_ok cancelled k r →
  driver_ok cancelled total_blocks (joined join_error k out r).
Proof.
  intros Hk Hout [->|[-> Hc]]; simpl; [|by right].
  pose proof (all_ok_sequential k out ltac:(lia) Hout) as E.
  replace (total_blocks - k)%nat with (S (total_blocks - S k)) in E by lia. simpl in E.
  unfold joined. destruct (worker k) as [[v|e]|] eqn:Ew; simpl in *; [|by left..].
  split_and!; [done|lia|]. destruct Hout as [Hl Hout]. split; [rewrite length_app; simpl; lia|].
  intros j u [Hj|[Hlj Hj]]%lookup_app_Some; [by apply Hout|].
  apply list_lookup_singleton_Some in Hj as [Hj <-]. by replace j with k by lia.
Qed.

(** A task's action changes its own phase alone. *)
Lemma task_inv s k p p' permits done reports : inv s → s_tasks s !! k = Some p →
  phase_ok (s_cancel s) k p' → (permits + holding p' = s_permits s + holding p)%nat →
  inv (mkState (s_cancel s) permits (<[k := p']> (s_tasks s)) done reports (s_driver s)).
Proof.
  intros [I1 I2 I3] Ek Hp Hn. split; cbn [s_permits s_tasks s_cancel s_driver].
  - unfold active in *. cbn [s_tasks]. pose proof (sum_insert holding _ _ _ p' Ek). lia.
  - intros j q [(-> & <- & _)|[_ Hj]]%list_lookup_insert_Some; [done|by apply I2].
  - by rewrite length_insert.
Qed.

Lemma driver_inv s d : inv s → driver_ok (s_cancel s) (length (s_tasks s)) d → inv (with_driver d s).
Proof. by intros [I1 I2 I3] Hd. Qed.

Lemma phase_ok_cancel c k p : phase_ok c k p → phase_ok true k p.
Proof. destruct p; simpl; try done; intros [?|[? _]]; [by left|by right|by left|by right]. Qed.

Lemma act_inv a s s' : inv s → act a s = Some s' → inv s'.
Proof.
  intros Hinv Ha. pose proof Hinv as [I1 I2 I3]. destruct a as [| |k]; simpl in Ha.
  - injection Ha as <-. split; simpl; [done| |].
    + intros k p Hk. by eapply phase_ok_cancel, I2.
    + destruct (s_driver s); simpl in *; try done. destruct I3 as [?|[? _]]; [by left|by right].
  - unfold drive in Ha. destruct (s_driver s) as [id|id|k out|r] eqn:Ed; simpl in I3; try done.
    + injection Ha as <-. apply driver_inv; [done|]. destruct (Nat.ltb_spec id total_blocks).
      * destruct (s_cancel s) eqn:Ec; simpl; [by right|]. by destruct I3.
      * simpl. destruct I3. split; [lia|]. split; [lia|]. split; [done|by intros j v [=]].
    + destruct (s_permits s) as [|n] eqn:En; [done|]. injection Ha as <-. split; cbn [s_permits s_tasks s_cancel s_driver].
      * unfold active in *. cbn [s_tasks]. rewrite sum_list_with_app. simpl. lia.
      * intros j p [Hj|[_ Hj]]%lookup_app_Some; [by apply I2|].
        by apply list_lookup_singleton_Some in Hj as [_ <-].
      * rewrite length_app. simpl. lia.
    + destruct I3 as (Hn & Hk & Hout). destruct (s_tasks s !! k) as [[| | | | |r]|] eqn:Ek; try done; injection Ha as <-.
      * apply driver_inv; [done|]. rewrite Hn. apply joined_ok; [|done|by apply (I2 _ _ Ek)].
        rewrite <- Hn. by eapply lookup_lt_Some.
      * apply driver_inv; [done|]. simpl. left. apply lookup_ge_None in Ek.
        assert (k = total_blocks) as -> by lia. rewrite (all_ok_sequential _ _ (Nat.le_refl _) Hout), Nat.sub_diag.
        simpl. by rewrite app_nil_r.
  - unfold task_step in Ha. destruct (s_tasks s !! k) as [p|] eqn:Ek; [|done]. pose proof (I2 _ _ Ek) as Hp.
    destruct p as [| |r|r n|r|r]; simpl in Ha; try done; injection Ha as <-;
      (eapply (task_inv s k _ _ _ _ _ Hinv Ek)).
    + destruct (s_cancel s); [by right|done].
    + by destruct (s_cancel s).
    + destruct (worker k) as [r|] eqn:Ew; simpl; [done|by left].
    + by destruct (worker k).
    + destruct progress; [done|by left].
    + by destruct progress.
    + by left.
    + done.
    + done.
    + simpl. lia.
Qed.

Lemma step_inv s a : inv s → inv (step s a).
Proof. intros Hs. unfold BlockExec.step. destruct (act a s) eqn:E; simpl; [by eapply act_inv|done]. Qed.

Lemma run_inv xs s : inv s → inv (run xs s).
Proof. revert s. induction xs as [|a xs IH]; intros s Hs; simpl; [done|]. by apply IH, step_inv. Qed.

Lemma start_inv cancelled : inv (start cancelled).
Proof. split; [unfold active; cbn; lia|done|split; [done|lia]]. Qed.

(** *** Every action but a cancellation is progress *)

Definition weight p : nat :=
  match p with
  | Spawned => 5 | Working => 4 | Counting _ => 3 | Reporting _ _ => 2 | Ending _ => 1 | Ended _ => 0
  end.

Definition ahead (d : driver (O:=O)) : nat :=
  match d with
  | Checking id => 8 * (total_blocks - id) + total_blocks + 3
  | Acquiring id => 8 * (total_blocks - id) + total_blocks + 2
  | Awaiting k _ => total_blocks - k + 1
  | Returned _ => 0
  end.

Definition measure s : nat := ahead (s_driver s) + sum_list_with weight (s_tasks s).

Lemma task_measure s k p p' permits done reports : s_tasks s !! k = Some p → (weight p' < weight p)%nat →
  (measure (mkState (s_cancel s) permits (<[k := p']> (s_tasks s)) done reports (s_driver s)) < measure s)%nat.
Proof.
  intros Ek Hw. unfold measure. cbn [s_driver s_tasks]. pose proof (sum_insert weight _ _ _ p' Ek). lia.
Qed.

Lemma act_measure a s s' : inv s → act a s = Some s' → a ≠ Cancel → (measure s' < measure s)%nat.
Proof.
  intros [_ _ I3] Ha Hc. destruct a as [| |k]; [done| |]; simpl in Ha.
  - unfold drive in Ha. destruct (s_driver s) as [id|id|k out|r] eqn:Ed; simpl in I3; try done.
    + injection Ha as <-. unfold measure. simpl. rewrite Ed. destruct (Nat.ltb_spec id total_blocks); simpl; [|lia].
      destruct (s_cancel s); simpl; lia.
    + destruct (s_permits s); [done|]. injection Ha as <-. unfold measure. simpl. rewrite Ed, sum_list_with_app.
      simpl. lia.
    + destruct I3 as (Hn & Hk & _). destruct (s_tasks s !! k) as [[| | | | |r]|] eqn:Ek; try done; injection Ha as <-;
        unfold measure; simpl; rewrite Ed; simpl; [|lia].
      apply lookup_lt_Some in Ek. destruct r as [[v|e]|]; simpl; lia.
  - unfold task_step in Ha. destruct (s_tasks s !! k) as [p|] eqn:Ek; [|done].
    destruct p as [| |r|r n|r|r]; simpl in Ha; try done; injection Ha as <-; apply (task_measure s k _ _ _ _ _ Ek).
    + destruct (s_cancel s); simpl; lia.
    + destruct (worker k); simpl; lia.
    + destruct progress; simpl; lia.
    + simpl. lia.
    + simpl. lia.
Qed.

Lemma step_measure s a : inv s → (measure (step s a) ≤ measure s)%nat.
Proof.
  intros Hs. unfold BlockExec.step. destruct (act a s) as [s'|] eqn:E; simpl; [|lia].
  destruct (decide (a = Cancel)) as [->|Hc]; [by injection E as <-|]. pose proof (act_measure a s s' Hs E Hc). lia.
Qed.

Lemma run_measure xs s : inv s → (measure (run xs s) ≤ measure s)%nat.
Proof.
  revert s. induction xs as [|a xs IH]; intros s Hs; simpl; [lia|].
  etrans; [by apply IH, step_inv|by apply step_measure].
Qed.

(** Whoever can act still can after the action of another. *)
Lemma act_stays a b s s' : a ≠ b → a ≠ Cancel → is_Some (act a s) → act b s = Some s' → is_Some (act a s').
Proof.
  intros Hab Hc [sa Ha] Hb.
  assert (∀ k p p', s_tasks s !! k = Some p → (∀ r, p ≠ Ended r) → a = Driver →
    s_driver s' = s_driver s → (s_permits s ≤ s_permits s')%nat → s_tasks s' = <[k := p']> (s_tasks s) →
    is_Some (act a s')) as Htask.
  { intros k p p' Ek Hp -> Ed Hn Et. simpl in *. unfold drive in *. rewrite Ed.
    destruct (s_driver s) as [id|id|j out|r]; [by eexists| | |done].
    - destruct (s_permits s); [done|]. destruct (s_permits s'); [lia|by eexists].
    - rewrite Et. destruct (decide (j = k)) as [->|Hj].
      + rewrite Ek in Ha. destruct p; try done. by destruct (Hp r).
      + rewrite list_lookup_insert_ne by done. destruct (s_tasks s !! j) as [[]|]; try done; by eexists. }
  destruct b as [| |k]; simpl in Hb.
  - injection Hb as <-. destruct a as [| |k]; [done| |]; simpl in *.
    + unfold drive in *. simpl. destruct (s_driver s); [by eexists| | |done].
      * destruct (s_permits s); [done|by eexists].
      * destruct (s_tasks s !! k) as [[]|]; try done; by eexists.
    + unfold task_step in *. simpl. destruct (s_tasks s !! k) as [[]|]; try done; by eexists.
  - destruct a as [| |k]; [done|done|]. simpl in *. unfold task_step in *.
    destruct (s_tasks s !! k) as [p|] eqn:Ek; [|done].
    assert (s_tasks s' !! k = Some p) as ->.
    { unfold drive in Hb. destruct (s_driver s) as [id|id|j out|r]; [by injection Hb as <-| | |done].
      - destruct (s_permits s); [done|]. injection Hb as <-. simpl. by apply lookup_app_l_Some.
      - destruct (s_tasks s !! j) as [[]|]; try done; by injection Hb as <-. }
    destruct p; try done; by eexists.
  - unfold task_step in Hb. destruct (s_tasks s !! k) as [p|] eqn:Ek; [|done].
    assert (∃ p', (∀ r, p ≠ Ended r) ∧ s_driver s' = s_driver s ∧ (s_permits s ≤ s_permits s')%nat ∧
      s_tasks s' = <[k := p']> (s_tasks s)) as (p' & Hp & Ed & Hn & Et).
    { destruct p; try done; injection Hb as <-; eexists; split_and!; simpl; (done || lia). }
    destruct a as [| |j]; [done|by eapply Htask|]. simpl in *. unfold task_step in *. rewrite Et.
    rewrite list_lookup_insert_ne by congruence. destruct (s_tasks s !! j) as [[]|]; try done; by eexists.
Qed.

(** Nothing is stuck before [run_blocks] returns. *)
Lemma someone_acts s : inv s → (∀ r, s_driver s ≠ Returned r) →
  ∃ a, a ≠ Cancel ∧ is_Some (act a s) ∧ (a = Driver ∨ ∃ k, a = Task k ∧ (k < total_blocks)%nat).
Proof.
  intros [I1 I2 I3] Hr.
  assert (∀ k p, s_tasks s !! k = Some p → (∀ r, p ≠ Ended r) → is_Some (act (Task k) s)) as Htask.
  { intros k p Ek Hp. simpl. unfold task_step. rewrite Ek. destruct p; try (by eexists). by destruct (Hp r). }
  destruct (s_driver s) as [id|id|k out|r] eqn:Ed; simpl in I3.
  - exists Driver. split_and!; [done| |by left]. simpl. unfold drive. rewrite Ed. by eexists.
  - destruct (s_permits s) as [|n] eqn:En.
    + assert (∃ k p, s_tasks s !! k = Some p ∧ ∀ r, p ≠ Ended r) as (k & p & Ek & Hp).
      { unfold active in I1. assert (0 < sum_list_with holding (s_tasks s))%nat as Hs by lia. clear -Hs.
        induction (s_tasks s) as [|p ts IH]; simpl in Hs; [lia|]. destruct (decide (holding p = 0%nat)) as [E|E].
        - destruct IH as (k & q & Ek & Hq); [lia|]. by exists (S k), q.
        - exists 0%nat, p. split; [done|]. intros r ->. done. }
      exists (Task k). split; [done|]. split; [by eapply Htask|]. right. exists k. split; [done|].
      apply lookup_lt_Some in Ek. lia.
    + exists Driver. split_and!; [done| |by left]. simpl. unfold drive. rewrite Ed, En. by eexists.
  - destruct I3 as (Hn & Hk & _). destruct (s_tasks s !! k) as [p|] eqn:Ek.
    + destruct (decide (holding p = 0%nat)) as [Hp|Hp].
      * exists Driver. split_and!; [done| |by left]. simpl. unfold drive. rewrite Ed, Ek.
        by destruct p; try done; eexists.
      * exists (Task k). split; [done|]. split; [eapply Htask; [done|]; by intros r ->|].
        right. exists k. split; [done|]. apply lookup_lt_Some in Ek. lia.
    + exists Driver. split_and!; [done| |by left]. simpl. unfold drive. rewrite Ed, Ek. by eexists.
  - by destruct (Hr r).
Qed.

(** A stretch of a schedule in which each actor has a turn. *)
Definition round_of (xs : list actor) : Prop := Driver ∈ xs ∧ ∀ k, (k < total_blocks)%nat → Task k ∈ xs.

Lemma step_act b s s' : act b s = Some s' → step s b = s'.
Proof. unfold BlockExec.step. by intros ->. Qed.
Lemma step_idle b s : act b s = None → step s b = s.
Proof. unfold BlockExec.step. by intros ->. Qed.
Lemma run_cons b xs s : run (b :: xs) s = run xs (step s b).
Proof. done. Qed.
Lemma run_app xs ys s : run (xs ++ ys) s = run ys (run xs s).
Proof. unfold BlockExec.run. apply foldl_app. Qed.

Lemma run_acts xs s a : inv s → is_Some (act a s) → a ≠ Cancel → a ∈ xs → (measure (run xs s) < measure s)%nat.
Proof.
  revert s. induction xs as [|b xs IH]; intros s Hs Ha Hc Hin; [by apply elem_of_nil in Hin|].
  rewrite run_cons. destruct (act b s) as [s'|] eqn:Eb.
  - destruct (decide (b = Cancel)) as [->|Hb].
    + apply elem_of_cons in Hin as [->|Hin]; [done|]. pose proof (step_measure s Cancel Hs) as Hm.
      eapply Nat.lt_le_trans; [|exact Hm]. apply IH; [by apply step_inv| |done|done].
      rewrite (step_act _ _ _ Eb). by eapply act_stays.
    + pose proof (act_measure b s s' Hs Eb Hb) as Hm. rewrite (step_act _ _ _ Eb).
      eapply Nat.le_lt_trans; [apply run_measure; by eapply act_inv|done].
  - assert (b ≠ a) as Hba by (intros ->; destruct Ha as [? Ha]; congruence).
    rewrite (step_idle _ _ Eb). apply IH; [done..|].
    by apply elem_of_cons in Hin as [->|Hin].
Qed.

Lemma returned_stays xs s r : s_driver s = Returned r → s_driver (run xs s) = Returned r.
Proof.
  revert s. induction xs as [|a xs IH]; intros s Hr; simpl; [done|]. apply IH. unfold BlockExec.step.
  destruct a as [| |k]; simpl; [done| |].
  - unfold drive. by rewrite Hr.
  - unfold task_step. destruct (s_tasks s !! k) as [[]|]; done.
Qed.

Lemma rounds_return rounds s : inv s → Forall round_of rounds → (measure s ≤ length rounds)%nat →
  ∃ r, s_driver (run (mjoin rounds) s) = Returned r.
Proof.
  revert s. induction rounds as [|xs rounds IH]; intros s Hs Hr Hm.
  - simpl. destruct (s_driver s) as [id|id|k out|r] eqn:Ed; [| | |by exists r];
      unfold measure in Hm; rewrite Ed in Hm; simpl in Hm; lia.
  - apply Forall_cons in Hr as [[Hd Ht] Hr]. simpl. rewrite run_app.
    destruct (s_driver s) as [id|id|k out|r] eqn:Ed;
      [| | |exists r; by apply returned_stays, returned_stays];
      (destruct (someone_acts s Hs) as (a & Hc & Ha & Hin); [by rewrite Ed|];
       apply IH; [by apply run_inv|done|];
       assert (a ∈ xs) as Hin' by (destruct Hin as [->|(j & -> & Hj)]; [done|by apply Ht]);
       pose proof (run_acts xs s a Hs Ha Hc Hin'); simpl in Hm; lia).
Qed.

Lemma start_measure c : measure (start c) = (9 * total_blocks + 3)%nat.
Proof. unfold measure. cbn. lia. Qed.

(** Only a cancellation raises the flag. *)
Lemma run_cancel xs s : Cancel ∉ xs → s_cancel (run xs s) = s_cancel s.
Proof.
  revert s. induction xs as [|a xs IH]; intros s Hx; simpl; [done|]. apply not_elem_of_cons in Hx as [Ha Hx].
  rewrite IH by done. unfold BlockExec.step. destruct a as [| |k]; [done| |]; simpl.
  - unfold drive. destruct (s_driver s); try done; [by destruct (s_permits s)|].
    by destruct (s_tasks s !! _) as [[]|].
  - unfold task_step. by destruct (s_tasks s !! k) as [[]|].
Qed.

(** C34: [run_blocks] under every schedule of itself, its tasks and whoever cancels.  At
    most [max n_threads 1] tasks hold a permit at any time; what it returns is the
    outcome of the blocks run one after the other, up to the first that fails or
    panics, unless it was cancelled, when it may be [Cancelled] instead; and it does
    return, without deadlock, within [9 * total_blocks + 3] rounds in which every
    actor has a turn, whatever happens between the turns. *)
Theorem run_blocks_correct (cancelled : bool) (schedule : list actor) :
  let s := run schedule (start cancelled) in
  (s_permits s + active s = Nat.max n_threads 1)%nat ∧
  (∀ r, s_driver s = Returned r → r = sequential 0 total_blocks ∨
     r = Err Cancelled ∧ (cancelled = true ∨ Cancel ∈ schedule)) ∧
  (∀ rounds, schedule = mjoin rounds → Forall round_of rounds → (9 * total_blocks + 3 ≤ length rounds)%nat →
     ∃ r, s_driver s = Returned r).
Proof.
  intros s. pose proof (run_inv schedule _ (start_inv cancelled)) as [I1 I2 I3]. split_and!; [done| |].
  - intros r Hr. fold s in I3. rewrite Hr in I3. destruct I3 as [->|[-> Hc]]; [by left|right; split; [done|]].
    destruct (decide (Cancel ∈ schedule)) as [|Hn]; [by right|left]. unfold s in Hc. by rewrite run_cancel in Hc.
  - intros rounds -> Hr Hl. apply rounds_return; [apply start_inv|done|]. by rewrite start_measure.
Qed.
End facts.

(** ** Runs *)

Module Demo.
(** Two blocks on one thread; the second fails. *)
Definition demo_worker (k : nat) : option (result string Z) :=
  match k with 0%nat => Some (Ok 10) | _ => Some (Err "boom") end.
Definition demo_join (k : nat) : string := "panicked".
Definition demo_rounds : list (list actor) := replicate 21 [Driver; Task 1; Task 0].

Example blocks_demo_run : s_driver (run 2 demo_worker demo_join true (mjoin demo_rounds) (start 1 false)) =
  Returned (Err (Worker "boom")).
Proof. vm_compute. reflexivity. Qed.

(** Cancelled between the two blocks. *)
Example demo_cancelled :
  s_driver (run 2 demo_worker demo_join true ([Driver; Driver; Cancel] ++ mjoin demo_rounds) (start 1 false)) =
  Returned (Err Cancelled).
Proof. vm_compute. reflexivity. Qed.

Lemma run_blocks_correct_witness : ∃ r : result BlockExecError (list Z),
  s_driver (run 2 demo_worker demo_join true (mjoin demo_rounds) (start 1 false)) = Returned r ∧
  r = sequential demo_worker demo_join 0 2.
Proof.
  destruct (run_blocks_correct 2 1 demo_worker demo_join true false (mjoin demo_rounds)) as (_ & Hval & Hend).
  destruct (Hend demo_rounds eq_refl) as [r Hr].
  - apply Forall_replicate. split; [by left|]. intros [|[|k]] Hk; [|by right; left|lia]. right. right. by left.
  - vm_compute. lia.
  - exists r. split; [exact Hr|]. destruct (Hval r Hr) as [E|[_ [E|E]]]; [exact E|discriminate|].
    exfalso. revert E. apply (bool_decide_eq_false_1 (Cancel ∈ mjoin demo_rounds)). vm_compute. reflexivity.
Defined.

Lemma budget_never_exceeded_witness : ∃ s, take_turns [Call 400; Turn 0; Turn 0; Call 700; Turn 1; Turn 1]
    (MemoryBudget_new 1000, []) = Some s ∧ 0 ≤ used s.1 ≤ cap s.1 ∧
  s.2 !! 1%nat = Some (Refused (BudgetExhausted 700 600)).
Proof.
  eexists. split; [vm_compute; reflexivity|]. split; [|vm_compute; reflexivity].
  apply (budget_never_exceeded 1000); [lia|].
  apply (turns_step [Call 400; Turn 0; Turn 0; Call 700; Turn 1; Turn 1]). vm_compute. reflexivity.
Defined.
End Demo.
