(* ===== verification/SubGraph.v ===== *)
(** * The default evaluator of callbacks

    DefaultSubGraphEvaluator of apps/orbit-openeo/src/geo_executor/sub_graph.rs: a
    memoised walk like the one of Callback, which gives up beyond a nesting instead of
    relying on the stack alone; its kernel of statistics over an array. *)

From Stdlib Require Import SpecFloat.
From S2P Require Import Prelude BTree F64 Json ProcessGraph Executor Cube Callback.
Local Open Scope Z_scope.

(** [SubGraphEvaluator]: the interface to callers. *)
Class SubGraphEvaluator := {
  evaluate_subgraph : Value → btree string Value → result ExecError Value }.

Section evaluator.
Context (to_text : Value → string) `{DebugText}.

(** ** The kernel *)

Definition data_arr (pid : string) (args : btree string Value) : result ExecError (list f64) :=
  d ← ok_or (bt_get "data" args) (InvalidGraph ("subgraph: `" +:+ pid +:+ "` needs `data`"));
  arr ← ok_or (as_array d)
    (InvalidGraph ("subgraph: `" +:+ pid +:+ ".data` expected array, got " +:+ to_text d));
  result_traverse (λ v, ok_or (as_f64 v)
    (InvalidGraph ("subgraph: `" +:+ pid +:+ ".data` element not numeric: " +:+ to_text v))) arr.

(** [iter().sum::<f64>()] starts from -0.0. *)
Definition f64_sum (l : list f64) : f64 := foldl f64_add (S754_zero true) l.

Definition nonempty (pid : string) (args : btree string Value) : result ExecError (list f64) :=
  xs ← data_arr pid args;
  match xs with
  | [] => Err (InvalidGraph ("subgraph: " +:+ pid +:+ " of empty array"))
  | _ => Ok xs
  end.

Definition apply_kernel (pid : string) (args : btree string Value) : result ExecError Value :=
  let number f xs := Ok (json_of_f64 (f xs)) in
  match pid with
  | "mean" => xs ← nonempty pid args; number (λ xs, f64_div (f64_sum xs) (f64_of_Z (Z.of_nat (length xs)))) xs
  | "sum" => xs ← data_arr pid args; number f64_sum xs
  | "min" => xs ← nonempty pid args; number (foldl f64_min (S754_infinity false)) xs
  | "max" => xs ← nonempty pid args; number (foldl f64_max (S754_infinity true)) xs
  | "count" => xs ← data_arr pid args; number (λ xs, f64_of_Z (Z.of_nat (length xs))) xs
  | _ => Err (InvalidGraph ("subgraph: unsupported process `" +:+ pid +:+ "` in DefaultSubGraphEvaluator "
      +:+ "(this kernel covers reducer-style processes; per-pixel arithmetic "
      +:+ "lives in eval_apply's own kernel)"))
  end.

(** ** The walk *)

Context (nodes : list (string * Value)) (params : btree string Value).

Definition depth_error : ExecError :=
  InvalidGraph ("subgraph: argument/from_node recursion exceeded depth limit ("
    +:+ pretty MAX_SUBGRAPH_DEPTH +:+ ")").
Definition cycle_error (id : string) : ExecError :=
  InvalidGraph ("subgraph: cycle detected at node `" +:+ id +:+ "`").

(** The process and the arguments of a node. *)
Definition node_parts (id : string) : result ExecError (string * list (string * Value)) :=
  node ← ok_or (assoc_get id nodes) (InvalidGraph ("subgraph: unknown node reference `" +:+ id +:+ "`"));
  pid ← ok_or (jget "process_id" node ≫= as_str)
    (InvalidGraph ("subgraph: node `" +:+ id +:+ "` has no process_id"));
  args ← ok_or (jget "arguments" node ≫= as_object)
    (InvalidGraph ("subgraph: node `" +:+ id +:+ "` has no arguments object"));
  Ok (pid, args).

(** What an argument is: a value at hand, an error, or the value of a node. *)
Definition arg_ref (v : Value) : result ExecError Value + string :=
  match as_object v with
  | None => inl (Ok v)
  | Some obj =>
      match assoc_get "from_parameter" obj with
      | Some (JString p) =>
          inl (ok_or (bt_get p params) (InvalidGraph ("subgraph: unbound parameter `" +:+ p
            +:+ "` (bindings: " +:+ debug_strings params.*1 +:+ ")")))
      | _ =>
          match assoc_get "from_node" obj with
          | Some (JString target) => inr target
          | _ => inl (Ok v)
          end
      end
  end.

(** [budget] is [MAX_SUBGRAPH_DEPTH + 1 - depth]: a call beyond the limit has none.  An
    argument is one deeper than its node, the node it names one deeper still. *)
Fixpoint eval_node_value (budget : nat) (id : string) (s : Frame (V:=Value))
    : result ExecError Value * Frame (V:=Value) :=
  match budget with
  | O => (Err depth_error, s)
  | S budget =>
      match memo s !! id with
      | Some v => (Ok v, s)
      | None =>
          if bool_decide (id ∈ in_progress s) then (Err (cycle_error id), s)
          else
            let s := push id s in
            match node_parts id with
            | Err e => (Err e, s)
            | Ok (pid, args) =>
                let resolve_arg v s :=
                  match budget with
                  | O => (Err depth_error, s)
                  | S budget =>
                      match arg_ref v with
                      | inl r => (r, s)
                      | inr target => eval_node_value budget target s
                      end
                  end in
                let resolve_args := fix resolve_args args resolved s :=
                  match args with
                  | [] => (Ok resolved, s)
                  | (k, v) :: args =>
                      match resolve_arg v s with
                      | (Err e, s) => (Err e, s)
                      | (Ok r, s) => resolve_args args (bt_insert k r resolved) s
                      end
                  end in
                match resolve_args args [] s with
                | (Err e, s) => (Err e, s)
                | (Ok resolved, s) =>
                    match apply_kernel pid resolved with
                    | Err e => (Err e, s)
                    | Ok value => (Ok value, finish id value s)
                    end
                end
            end
      end
  end.
End evaluator.

Definition evaluate_nodes `{DebugText} (to_text : Value → string) (nodes : list (string * Value))
    (params : btree string Value) : result ExecError Value :=
  '(result_id, _) ← find_unique_result_node nodes "subgraph";
  (eval_node_value to_text nodes params (Z.to_nat (MAX_SUBGRAPH_DEPTH + 1)) result_id Frame_new).1.

Definition default_evaluate_subgraph `{DebugText} (to_text : Value → string) (graph : Value)
    (params : btree string Value) : result ExecError Value :=
  nodes_map ← match as_object graph with
    | Some obj =>
        if bool_decide (is_Some (assoc_get "process_graph" obj)) then require_subgraph graph "subgraph" else Ok obj
    | None => Err (InvalidGraph "subgraph: process_graph must be an object")
    end;
  evaluate_nodes to_text nodes_map params.

#[export] Instance DefaultSubGraphEvaluator `{DebugText} (to_text : Value → string) : SubGraphEvaluator := {|
  evaluate_subgraph := default_evaluate_subgraph to_text |}.

#[export] Instance ExecError_eq_dec : EqDecision ExecError.
Proof. solve_decision. Defined.

(** ** What the walk computes *)

Section semantics.
Context `{DebugText} (to_text : Value → string) (nodes : list (string * Value)) (params : btree string Value).

Local Notation eval := (eval_node_value to_text nodes params).
Local Notation Body := (Prog ExecError Value).

(** A node as a computation that asks for the nodes it refers to. *)
Definition arg_body (v : Value) : Body Value :=
  match arg_ref params v with inl r => lift r | inr target => ask target end.

Fixpoint args_body (args : list (string * Value)) (resolved : btree string Value) : Body (btree string Value) :=
  match args with
  | [] => mret resolved
  | (k, v) :: args => r ← arg_body v; args_body args (bt_insert k r resolved)
  end.

Definition body (id : string) : Body Value :=
  '(pid, args) ← lift (node_parts nodes id);
  resolved ← args_body args [];
  lift (apply_kernel to_text pid resolved).

Local Notation scheme := (eval_node body cycle_error).

Lemma run_lift {A} rec (r : result ExecError A) s : run rec (lift r : Body A) s = Some (r, s).
Proof. done. Qed.

Lemma run_bind {A B} rec (p : Body A) (f : A → Body B) s : run rec (p ≫= f) s =
  match run rec p s with Some (Ok a, s') => run rec (f a) s' | Some (Err e, s') => Some (Err e, s') | None => None end.
Proof.
  unfold mbind, Prog_bind. revert s. induction p as [[a|e]|id k IH]; intros s; simpl; [done..|].
  destruct (rec id s) as [[[v|e] s']|]; [apply IH|done..].
Qed.

Lemma run_body rec id s : run rec (body id) s =
  match node_parts nodes id with
  | Ok (pid, args) =>
      match run rec (args_body args []) s with
      | Some (Ok resolved, s') => Some (apply_kernel to_text pid resolved, s')
      | Some (Err e, s') => Some (Err e, s')
      | None => None
      end
  | Err e => Some (Err e, s)
  end.
Proof.
  unfold body. rewrite run_bind, run_lift. destruct (node_parts nodes id) as [[pid args]|e]; [|done].
  by rewrite run_bind.
Qed.

Lemma run_arg rec v s : run rec (arg_body v) s =
  match arg_ref params v with inl r => Some (r, s) | inr target => rec target s end.
Proof.
  unfold arg_body. destruct (arg_ref params v) as [r|target]; [done|]. simpl.
  by destruct (rec target s) as [[[w|e] u]|].
Qed.

(** The walk with a budget is the walk of Callback, where it does not exhaust it. *)
Lemma eval_scheme budget : ∀ fuel id s r s', (budget ≤ fuel)%nat → eval budget id s = (r, s') →
  r ≠ Err depth_error → scheme fuel id s = Some (r, s').
Proof.
  induction budget as [budget IH] using lt_wf_ind. intros fuel id s r s' Hf Hr Hne.
  destruct budget as [|budget]; simpl in Hr; [by injection Hr as <- _|].
  destruct fuel as [|fuel]; [lia|]. simpl.
  destruct (memo s !! id) as [v|]; [by injection Hr as <- <-|].
  case_bool_decide; [by injection Hr as <- <-|].
  rewrite run_body. destruct (node_parts nodes id) as [[pid args]|e]; [|by injection Hr as <- <-].
  match type of Hr with context [?f args [] (push id s)] => set (go := f) in Hr end.
  assert (∀ args resolved u r1 u', go args resolved u = (r1, u') → r1 ≠ Err depth_error →
    run (scheme fuel) (args_body args resolved) u = Some (r1, u')) as Hgo.
  { clear Hr. induction args0 as [|[k v] args0 IHa]; intros resolved u r1 u' Hu Hn; simpl in Hu |- *;
      [by injection Hu as <- <-|]. rewrite run_bind.
    destruct budget as [|budget]; [by injection Hu as <- _|]. rewrite run_arg.
    destruct (arg_ref params v) as [[w|e]|target] eqn:Ea.
    - by apply IHa.
    - by injection Hu as <- <-.
    - destruct (eval budget target u) as [[w|e] u1] eqn:Et.
      + rewrite (IH budget ltac:(lia) fuel target u (Ok w) u1) by (done || lia). by apply IHa.
      + injection Hu as <- <-. assert (e ≠ depth_error) as He by congruence.
        rewrite (IH budget ltac:(lia) fuel target u (Err e) u1) by (done || lia || congruence). done. }
  destruct (go args [] (push id s)) as [[resolved|e] u] eqn:Eg.
  - rewrite (Hgo _ _ _ _ _ Eg) by done.
    destruct (apply_kernel to_text pid resolved); by injection Hr as <- <-.
  - injection Hr as <- <-. rewrite (Hgo _ _ _ _ _ Eg) by congruence. done.
Qed.

(** A level of the walk is a level of the scheme over the walk with two levels less. *)
Lemma eval_unfold budget id s : eval (S (S budget)) id s =
  match memo s !! id with
  | Some v => (Ok v, s)
  | None =>
      if bool_decide (id ∈ in_progress s) then (Err (cycle_error id), s)
      else match run (λ id u, Some (eval budget id u)) (body id) (push id s) with
           | Some (Ok v, u) => (Ok v, finish id v u)
           | Some (Err e, u) => (Err e, u)
           | None => (Err depth_error, s)
           end
  end.
Proof.
  remember (S budget) as b eqn:Eb. simpl. destruct (memo s !! id); [done|]. case_bool_decide; [done|].
  rewrite run_body. destruct (node_parts nodes id) as [[pid args]|e]; [|done].
  match goal with |- context [?f args [] (push id s)] => set (go := f) end.
  assert (∀ args resolved u, run (λ id u, Some (eval budget id u)) (args_body args resolved) u =
    Some (go args resolved u)) as Hgo.
  { induction args0 as [|[k v] args0 IHa]; intros resolved u; [done|]. simpl. rewrite run_bind, run_arg, Eb.
    destruct (arg_ref params v) as [[w|e]|target]; [by rewrite IHa; subst b|done|].
    destruct (eval budget target u) as [[w|e] u1]; [by rewrite IHa; subst b|done]. }
  rewrite Hgo. destruct (go args [] (push id s)) as [[resolved|e] u]; [|done].
  by destruct (apply_kernel to_text pid resolved).
Qed.

(** Nothing is exhausted where the nodes nest no deeper than half the budget. *)
Definition answers (budget n : nat) (rec : string → Frame → result ExecError Value * Frame) : Prop :=
  ∀ id u m r, runs body m (body id) r → (m ≤ n)%nat → memo_ok body u → chain body id (in_progress u) →
    ∃ u', rec id u = (r, u') ∧ memo_ok body u' ∧ (is_ok r = true → in_progress u' = in_progress u).

Lemma run_answers budget n rec id0 l p m r : answers budget n rec → runs body m p r → (m ≤ S n)%nat →
  chain body id0 l → (∀ b, asks body p b → calls body id0 b) →
  ∀ u, in_progress u = id0 :: l → memo_ok body u →
  ∃ u', run (λ id u, Some (rec id u)) p u = Some (r, u') ∧ memo_ok body u' ∧
    (is_ok r = true → in_progress u' = id0 :: l).
Proof.
  intros Hrec Hruns. induction Hruns as [r|id k v m1 m2 r Hb _ Hk IHk|id k e m1 Hb _]; intros Hm Hl Hasks u Hu Hmemo.
  - by exists u.
  - assert (calls body id0 id) as Hcall by (apply Hasks; constructor).
    destruct (Hrec id u m1 (Ok v)) as (u1 & E & Hm1 & Hs1); [done|lia|done|by rewrite Hu|].
    simpl. rewrite E. apply IHk; [lia|done| |by rewrite Hs1|done].
    intros b Hask. apply Hasks. by eapply asks_later.
  - assert (calls body id0 id) as Hcall by (apply Hasks; constructor).
    destruct (Hrec id u m1 (Err e)) as (u1 & E & Hm1 & Hs1); [done|lia|done|by rewrite Hu|].
    simpl. rewrite E. by exists u1.
Qed.

Lemma eval_answers n : ∀ budget, (2 * n + 2 ≤ budget)%nat → answers budget n (eval budget).
Proof.
  induction n as [|n IH]; intros budget Hb id u m r Hr Hm Hmemo Hchain;
    (destruct budget as [|[|budget]]; [lia..|]; rewrite eval_unfold;
     destruct (memo u !! id) as [v|] eqn:Ev;
      [destruct (Hmemo _ _ Ev) as [k Hk]; destruct (runs_fun _ _ _ _ Hk _ _ Hr) as [_ ->]; by exists u|];
     case_bool_decide as Hin;
      [exfalso; apply (cycle_no_value body id id r); [done|by eapply chain_in|by exists m]|]).
  - assert (m = 0%nat) as -> by lia.
    inversion Hr as [r0 E1 E2| |]; [|lia]. simpl.
    destruct r as [v|e]; [|by exists (push id u)].
    exists (finish id v (push id u)). split; [done|]. split; [|done].
    intros i w. simpl. destruct (decide (i = id)) as [->|Hne].
    + rewrite lookup_insert_eq. intros [= ->]. by exists 0%nat.
    + rewrite lookup_insert_ne by done. apply Hmemo.
  - destruct (run_answers budget n (eval budget) id (in_progress u) (body id) m r (IH budget ltac:(lia)) Hr ltac:(lia)
      Hchain ltac:(done) (push id u) eq_refl Hmemo) as (u1 & -> & Hm1 & Hs1).
    destruct r as [v|e]; [|by exists u1]. exists (finish id v u1). split; [done|]. split.
    + intros i w. simpl. destruct (decide (i = id)) as [->|Hne].
      * rewrite lookup_insert_eq. intros [= ->]. by exists m.
      * rewrite lookup_insert_ne by done. apply Hm1.
    + intros _. simpl. by rewrite Hs1.
Qed.

Lemma empty_memo : memo_ok body Frame_new.
Proof. intros i v. simpl. by rewrite lookup_empty. Qed.

(** The default evaluator of callbacks computes the meaning of its result node: the
    value or the error of the recursive evaluation without memo and stack, each node
    afresh; it may give up instead with the error of the limit, but not where the nodes
    nest no deeper than 31; and it reports a cycle only where the result node reaches
    one, when it has no meaning. *)
Theorem default_evaluator_semantics id node : find_unique_result_node nodes "subgraph" = Ok (id, node) →
  let r := evaluate_nodes to_text nodes params in
  (r = Err depth_error ∨ evaluates body id r ∨
   (∀ r', ¬ evaluates body id r') ∧ ∃ i, r = Err (cycle_error i) ∧ rtc (calls body) id i ∧ tc (calls body) i i) ∧
  (∀ n r', runs body n (body id) r' → (n ≤ 31)%nat → r = r').
Proof.
  intros Hid r. assert (r = (eval 65 id Frame_new).1) as -> by (unfold r, evaluate_nodes; by rewrite Hid).
  split.
  - destruct (eval 65 id Frame_new) as [r1 s1] eqn:E. cbn [fst].
    assert (r1 = Err depth_error ∨ r1 ≠ Err depth_error) as [->|Hne]; [|by left|right].
    { destruct r1 as [v|e]; [by right|]. destruct (decide (e = depth_error)) as [->|Hne]; [by left|right].
      by intros [= ->]. }
    apply (eval_scheme 65 65) in E; [|lia|done].
    apply eval_node_sound in E as (_ & _ & [[n Hn]|(i & -> & Hi & Hc)]);
      [left; by exists n| |apply empty_memo|done].
    right. split; [intros r'; by apply cycle_no_value with i|]. by exists i.
  - intros n r' Hr Hn.
    by destruct (eval_answers n 65 ltac:(lia) id Frame_new n r' Hr (Nat.le_refl _) empty_memo I) as (u & -> & _).
Qed.
End semantics.

(** ** Runs *)

Module Demo.
#[local] Instance demo_debug : DebugText := {|
  debug_char s := s; debug_strings _ := ""; debug_f64s _ := "" |}.
Definition demo_text (v : Value) : string := "".

Definition from_node (id : string) : Value := Object [("from_node", JString id)].
Definition call (pid : string) (data : Value) (result : bool) : Value :=
  Object [("process_id", JString pid); ("arguments", Object [("data", data)]); ("result", Bool result)].
(** The mean of a bound array; a node that reads itself. *)
Definition demo_nodes : list (string * Value) := [("m", call "mean" (Object [("from_parameter", JString "data")]) true)].
Definition demo_params : btree string Value :=
  [("data", Array [Number (PosInt 1); Number (PosInt 2)])].

Example mean_run : evaluate_nodes demo_text demo_nodes demo_params =
  Ok (Number (Float (f64_div (f64_of_Z 3) (f64_of_Z 2)))).
Proof. vm_compute. reflexivity. Qed.

Example cycle_run : evaluate_nodes demo_text [("c", call "sum" (from_node "c") true)] demo_params =
  Err (cycle_error "c").
Proof. vm_compute. reflexivity. Qed.

(** A chain of 33 nodes is beyond the limit, although it has a meaning. *)
Definition demo_chain (n : nat) : list (string * Value) :=
  (λ i : nat, (pretty i, call "count" (if (i =? n)%nat then Array [] else from_node (pretty (S i))) (i =? 0)%nat)) <$> seq 0 (S n).

Example chain_run : evaluate_nodes demo_text (demo_chain 33) demo_params = Err depth_error.
Proof. vm_compute. reflexivity. Qed.

Lemma default_evaluator_semantics_witness : ∃ r, evaluate_nodes demo_text demo_nodes demo_params = r ∧
  runs (body demo_text demo_nodes demo_params) 0 (body demo_text demo_nodes demo_params "m") r.
Proof.
  exists (Ok (Number (Float (f64_div (f64_of_Z 3) (f64_of_Z 2))))).
  assert (runs (body demo_text demo_nodes demo_params) 0 (body demo_text demo_nodes demo_params "m")
    (Ok (Number (Float (f64_div (f64_of_Z 3) (f64_of_Z 2)))))) as Hr.
  { assert (body demo_text demo_nodes demo_params "m" = Done (Ok (Number (Float (f64_div (f64_of_Z 3) (f64_of_Z 2))))))
      as -> by (vm_compute; reflexivity). constructor. }
  split; [|exact Hr].
  destruct (default_evaluator_semantics demo_text demo_nodes demo_params "m"
    (call "mean" (Object [("from_parameter", JString "data")]) true)) as [_ Hs]; [vm_compute; reflexivity|].
  exact (Hs 0%nat _ Hr ltac:(lia)).
Defined.
End Demo.
