(* ===== verification/Credentials.v ===== *)
(** * Credentials: apps/orbit-openeo/src/routes/credentials.rs

    The store of issued bearer tokens, the device-code flow and the routes on them.  A
    handler is a function of what the system gives it (the time at each reading of the
    clock, the bytes of the random generator), the request, and the stores.  The
    base64 alphabet of the random text is the library's, a parameter. *)

From S2P Require Import Prelude Text Json Jobs Auth.
Local Open Scope Z_scope.

(** ** Tokens *)

Record IssuedToken := mkIssued { access_token : string; expires_at : Z }.

Record TokenStore := mkTokens { tk_inner : gmap string Z; tk_counter : Z }.
Definition TokenStore_new : TokenStore := mkTokens ∅ 0.

(** [now_secs() + ttl_seconds]; the random bytes alone make the token. *)
Definition issue (base64url : list Z → string) (now : Z) (random : list Z) (ttl_seconds : Z) (s : TokenStore)
    : IssuedToken * TokenStore :=
  let exp := wrap 64 (now + ttl_seconds) in
  let token := base64url random in
  (mkIssued token exp, mkTokens (<[token := exp]> (tk_inner s)) (wrap 64 (tk_counter s + 1))).

Definition is_valid (now : Z) (token : string) (s : TokenStore) : bool :=
  match tk_inner s !! token with Some exp => now <? exp | None => false end.

Definition tokens_len (s : TokenStore) : nat := size (tk_inner s).
Definition tokens_is_empty (s : TokenStore) : bool := bool_decide (tokens_len s = 0%nat).

(** How many random bytes a token of so many bits takes. *)
Definition csprng_bytes (bits : Z) : Z := (bits + 7) / 8.

(** ** Device codes *)

Record DeviceSession := mkSession {
  device_code : string; user_code : string; expires_in : Z; interval : Z; issued : Z; approved : bool;
  provider_id : string }.

Inductive DevicePollOutcome := Approved | Pending | Expired.

Record DeviceCodeStore := mkDevices { dv_inner : gmap string DeviceSession; dv_counter : Z }.
Definition DeviceCodeStore_new : DeviceCodeStore := mkDevices ∅ 0.

(** Letters and digits without I, O, 0 and 1. *)
Definition ALPHA : list Z := bytes_of "ABCDEFGHJKLMNPQRSTUVWXYZ23456789".

Definition csprng_user_chunk (random : list Z) : string :=
  string_of ((λ b, nth (Z.to_nat (b mod Z.of_nat (length ALPHA))) ALPHA 0) <$> random).

Definition start_session (base64url : list Z → string) (now : Z) (random chunk1 chunk2 : list Z)
    (provider : string) (s : DeviceCodeStore) : DeviceSession * DeviceCodeStore :=
  let code := "dc-" +:+ base64url random in
  let session := mkSession code (csprng_user_chunk chunk1 +:+ "-" +:+ csprng_user_chunk chunk2)
                   600 5 now false provider in
  (session, mkDevices (<[code := session]> (dv_inner s)) (wrap 64 (dv_counter s + 1))).

Definition poll (now : Z) (code : string) (s : DeviceCodeStore) : DevicePollOutcome :=
  match dv_inner s !! code with
  | None => Expired
  | Some x =>
      if wrap 64 (issued x + expires_in x) <? now then Expired
      else if approved x then Approved else Pending
  end.

Definition approve (code : string) (s : DeviceCodeStore) : bool * DeviceCodeStore :=
  match dv_inner s !! code with
  | Some x =>
      (true, mkDevices (<[code := mkSession (device_code x) (user_code x) (expires_in x) (interval x) (issued x)
                                    true (provider_id x)]> (dv_inner s)) (dv_counter s))
  | None => (false, s)
  end.

Definition devices_len (s : DeviceCodeStore) : nat := size (dv_inner s).

(** ** The routes *)

Record OidcProvider := mkOidcProvider {
  op_id : string; op_issuer : string; op_title : string; op_scopes : list string }.

Definition provider_json (p : OidcProvider) : Value := Object [
  ("id", JString (op_id p)); ("issuer", JString (op_issuer p)); ("title", JString (op_title p));
  ("scopes", Array (JString <$> op_scopes p))].

Record CredState := mkCred { c_tokens : TokenStore; c_devices : DeviceCodeStore }.
Definition CredState_new : CredState := mkCred TokenStore_new DeviceCodeStore_new.

(** What a request finds: the clock at its two readings, and fresh random bytes. *)
Record Given := mkGiven {
  g_now : Z; g_now_issue : Z; g_random : list Z; g_chunk1 : list Z; g_chunk2 : list Z }.

Definition str_member (k d : string) (v : Value) : string := default d (jget k v ≫= as_str).

Definition TTL : Z := 3600.
Definition DEVICE_GRANT : string := "urn:ietf:params:oauth:grant-type:device_code".

Section routes.
Context (base64url : list Z → string) (policy : AuthPolicy) (oidc_providers : list OidcProvider).

Definition basic_ok (header : option string) : bool :=
  let parsed := match header with
    | Some h => match Basic_parse h with Ok c => Some c | Err _ => None end
    | None => None
    end in
  match policy, parsed with
  | Open, _ => true
  | Basic u p, Some c => Basic_matches c u p
  | Any _ (Some (u, p)), Some c => Basic_matches c u p
  | _, _ => false
  end.

Definition credentials_basic (g : Given) (header : option string) (s : CredState) : HttpResponse * CredState :=
  if negb (basic_ok header) then
    (mkHttp 401 [("www-authenticate", "Basic")]
       (JsonBody (error_body "AuthenticationRequired" "Basic credentials required")), s)
  else
    let '(token, tokens) := issue base64url (g_now_issue g) (g_random g) TTL (c_tokens s) in
    (json_response 200 (Object [("access_token", JString (access_token token))]), mkCred tokens (c_devices s)).

Definition credentials_oidc : HttpResponse :=
  json_response 200 (Object [("providers", Array (provider_json <$> oidc_providers))]).

Definition credentials_oidc_device_init (g : Given) (body : option Value) (s : CredState)
    : HttpResponse * CredState :=
  let provider := match body with Some b => str_member "provider_id" "default" b | None => "default" end in
  let '(x, devices) := start_session base64url (g_now g) (g_random g) (g_chunk1 g) (g_chunk2 g) provider
                         (c_devices s) in
  (json_response 200 (Object [
     ("device_code", JString (device_code x)); ("user_code", JString (user_code x));
     ("verification_uri", JString "/credentials/oidc/verify");
     ("verification_uri_complete", JString ("/credentials/oidc/verify?user_code=" +:+ user_code x));
     ("expires_in", number (expires_in x)); ("interval", number (interval x))]),
   mkCred (c_tokens s) devices).

Definition oauth_error (e : string) : HttpResponse := json_response 400 (Object [("error", JString e)]).

Definition credentials_oidc_device_token (g : Given) (body : Value) (s : CredState) : HttpResponse * CredState :=
  if negb (bool_decide (str_member "grant_type" "" body = DEVICE_GRANT)) then
    (json_response 400 (Object [("error", JString "unsupported_grant_type");
       ("error_description", JString ("expected grant_type=" +:+ DEVICE_GRANT))]), s)
  else
    match poll (g_now g) (str_member "device_code" "" body) (c_devices s) with
    | Approved =>
        let '(token, tokens) := issue base64url (g_now_issue g) (g_random g) TTL (c_tokens s) in
        (json_response 200 (Object [("access_token", JString (access_token token));
           ("token_type", JString "Bearer"); ("expires_in", number TTL)]), mkCred tokens (c_devices s))
    | Pending => (oauth_error "authorization_pending", s)
    | Expired => (oauth_error "expired_token", s)
    end.

(** ** A history of requests *)

Inductive request :=
| GetBasic (header : option string)
| GetOidc
| PostDevice (body : option Value)
| PostToken (body : Value)
| Approve (code : string).     (* out of band *)

Definition serve (g : Given) (r : request) (s : CredState) : HttpResponse * CredState :=
  match r with
  | GetBasic header => credentials_basic g header s
  | GetOidc => (credentials_oidc, s)
  | PostDevice body => credentials_oidc_device_init g body s
  | PostToken body => credentials_oidc_device_token g body s
  | Approve code => (empty_response 204, mkCred (c_tokens s) (approve code (c_devices s)).2)
  end.

Definition after (history : list (Given * request)) : CredState :=
  foldl (λ s e, (serve e.1 e.2 s).2) CredState_new history.
End routes.

(** ** What the histories leave *)

(** Every letter of a user code is as likely as every other: a random byte gives each in
    the same number of cases. *)
Lemma user_code_uniform : Forall (λ c,
  length (filter (λ b, bytes_of (csprng_user_chunk [b]) = [c]) (seqZ 0 256)) = 8%nat) ALPHA.
Proof. apply (bool_decide_unpack _). vm_compute. exact I. Qed.

Section facts.
Context (base64url : list Z → string) (policy : AuthPolicy) (oidc_providers : list OidcProvider).
Implicit Types history : list (Given * request).

Local Notation after := (after base64url policy oidc_providers).
Local Notation serve := (serve base64url policy oidc_providers).

Lemma after_snoc history e : after (history ++ [e]) = (serve e.1 e.2 (after history)).2.
Proof. unfold Credentials.after. by rewrite foldl_app. Qed.

(** The request that makes the device code, and its approval. *)
Definition starts (code : string) (e : Given * request) : Prop :=
  match e.2 with PostDevice _ => "dc-" +:+ base64url (g_random e.1) = code | _ => False end.
Definition approves (code : string) (e : Given * request) : Prop := e.2 = Approve code.

(** [e] is the last request of the history with the property, [later] what follows it. *)
Definition last_with (P : Given * request → Prop) history (e : Given * request) (later : list (Given * request))
    : Prop := ∃ before, history = before ++ e :: later ∧ P e ∧ ∀ x, x ∈ later → ¬ P x.

Lemma last_with_here P history e : P e → last_with P (history ++ [e]) e [].
Proof. intros HP. exists history. split; [done|]. split; [done|]. by intros x ?%elem_of_nil. Qed.

Lemma last_with_later P history e later x : last_with P history e later → ¬ P x →
  last_with P (history ++ [x]) e (later ++ [x]).
Proof.
  intros (b & -> & HP & Hl) Hx. exists b. split; [by rewrite <- app_assoc|]. split; [done|].
  intros y [Hy| ->%list_elem_of_singleton]%elem_of_app; [by apply Hl|done].
Qed.

Lemma last_with_unique P history e1 l1 e2 l2 : last_with P history e1 l1 → last_with P history e2 l2 →
  e1 = e2 ∧ l1 = l2.
Proof.
  intros (b1 & E1 & P1 & H1) (b2 & E2 & P2 & H2). rewrite E1 in E2. clear E1.
  revert b2 E2. induction b1 as [|x b1 IH]; intros [|y b2] E; simpl in E.
  - by injection E as <- <-.
  - injection E as <- ->. exfalso. apply (H1 e2); [|done]. apply elem_of_app. right. by left.
  - injection E as -> <-. exfalso. apply (H2 e1); [|done]. apply elem_of_app. right. by left.
  - injection E as _ E. by apply IH in E.
Qed.

(** A request of another kind. *)
Ltac elsewhere H := apply H; [done|by intros []|by unfold approves].

(** A store after a history is the last session made for the code. *)
Lemma devices_after history code :
  match dv_inner (c_devices (after history)) !! code with
  | Some x => ∃ e later, last_with (starts code) history e later ∧ issued x = g_now e.1 ∧ expires_in x = 600 ∧
      (approved x = true ↔ ∃ y, y ∈ later ∧ approves code y)
  | None => ∀ e, e ∈ history → ¬ starts code e
  end.
Proof.
  induction history as [|e history IH] using rev_ind.
  { simpl. rewrite lookup_empty. by intros e ?%elem_of_nil. }
  rewrite after_snoc.
  assert (∀ M : gmap string DeviceSession, M !! code = dv_inner (c_devices (after history)) !! code → ¬ starts code e →
    ¬ approves code e → match M !! code with
    | Some x => ∃ e' later, last_with (starts code) (history ++ [e]) e' later ∧ issued x = g_now e'.1 ∧
        expires_in x = 600 ∧ (approved x = true ↔ ∃ y, y ∈ later ∧ approves code y)
    | None => ∀ e', e' ∈ history ++ [e] → ¬ starts code e'
    end) as Hsame.
  { intros M -> Hs Ha. destruct (dv_inner _ !! code) as [x|].
    - destruct IH as (e' & later & Hl & Hi & Hx & Hap). exists e', (later ++ [e]). split; [by apply last_with_later|].
      split; [done|]. split; [done|]. rewrite Hap. split; intros (y & Hy & Hya).
      + exists y. split; [apply elem_of_app; by left|done].
      + apply elem_of_app in Hy as [Hy| ->%list_elem_of_singleton]; [by exists y|done].
    - intros e' [He| ->%list_elem_of_singleton]%elem_of_app; [by apply IH|done]. }
  destruct e as [g [header| |body|body|c]]; simpl.
  - unfold credentials_basic. destruct (negb _); simpl; elsewhere Hsame.
  - elsewhere Hsame.
  - destruct (decide ("dc-" +:+ base64url (g_random g) = code)) as [<-|Hne].
    + rewrite lookup_insert_eq. exists (g, PostDevice body), []. split; [by apply last_with_here|].
      split; [done|]. split; [done|]. split; [done|]. by intros (y & ?%elem_of_nil & _).
    + apply Hsame; [by rewrite lookup_insert_ne|done|by unfold approves].
  - unfold credentials_oidc_device_token. destruct (negb _); [elsewhere Hsame|].
    destruct (poll _ _ _); simpl; elsewhere Hsame.
  - unfold approve. destruct (decide (c = code)) as [->|Hne].
    + destruct (dv_inner (c_devices (after history)) !! code) as [x|] eqn:Ex; simpl; [rewrite lookup_insert_eq|rewrite Ex].
      * destruct IH as (e' & later & Hl & Hi & Hx & Hap). exists e', (later ++ [(g, Approve code)]).
        split; [apply last_with_later; [done|by intros []]|]. split; [done|]. split; [done|]. split; [intros _|done].
        exists (g, Approve code). split; [apply elem_of_app; right; by left|done].
      * intros e' [He| ->%list_elem_of_singleton]%elem_of_app; [by apply IH|by intros []].
    + destruct (dv_inner (c_devices (after history)) !! c) as [x|] eqn:Ex; simpl; apply Hsame; try by intros [].
      * by rewrite lookup_insert_ne.
      * unfold approves. simpl. congruence.
      * done.
      * unfold approves. simpl. congruence.
Qed.

(** The device-code flow over every history of requests.  A token request is granted
    exactly when it names the device grant and a code that was started, was approved
    after its last start, and is at most 600 seconds old. *)
Theorem device_token_granted history g body : in_u 63 (g_now g) →
  (∀ e, e ∈ history → in_u 63 (g_now e.1)) →
  let code := str_member "device_code" "" body in
  h_status (serve g (PostToken body) (after history)).1 = 200 ↔
  str_member "grant_type" "" body = DEVICE_GRANT ∧
  ∃ e later y, last_with (starts code) history e later ∧ y ∈ later ∧ approves code y ∧
    g_now g ≤ g_now e.1 + 600.
Proof.
  intros Hg Hh code. simpl. unfold credentials_oidc_device_token. fold code.
  case_bool_decide as Hgrant; simpl; [|naive_solver]. unfold poll.
  pose proof (devices_after history code) as Hd. destruct (dv_inner _ !! code) as [x|]; simpl.
  - destruct Hd as (e & later & Hl & Hi & Hx & Hap). pose proof Hl as (b & -> & _ & _).
    assert (in_u 63 (g_now e.1)) as He by (apply Hh, elem_of_app; right; by left).
    rewrite Hi, Hx. unfold wrap. rewrite Z.mod_small by (unfold in_u in *; lia).
    destruct (Z.ltb_spec (g_now e.1 + 600) (g_now g)) as [Hlt|Hle]; simpl.
    + split; [done|]. intros (_ & e' & l' & y & Hl' & _ & _ & Hle).
      destruct (last_with_unique _ _ _ _ _ _ Hl Hl') as [<- <-]. lia.
    + destruct (approved x) eqn:Ea; simpl.
      * split; [|done]. intros _. split; [done|]. destruct (proj1 Hap eq_refl) as (y & Hy & Hya).
        by exists e, later, y.
      * split; [done|]. intros (_ & e' & l' & y & Hl' & Hy & Hya & _).
        destruct (last_with_unique _ _ _ _ _ _ Hl Hl') as [<- <-].
        by assert (false = true) by (apply Hap; by exists y).
  - split; [done|]. intros (_ & e & later & y & (b & -> & Hs & _) & _).
    exfalso. apply (Hd e); [|done]. apply elem_of_app. right. by left.
Qed.

(** A request that is answered with the token, after the history [before]. *)
Definition grants (token : string) before (e : Given * request) : Prop :=
  h_status (serve e.1 e.2 (after before)).1 = 200 ∧ base64url (g_random e.1) = token ∧
  match e.2 with GetBasic _ | PostToken _ => True | _ => False end.

(** The tokens that are valid after a history at a time are those whose last grant is
    less than an hour old; what a grant answers is the token it stores. *)
Theorem token_valid_one_hour history token now : (∀ e, e ∈ history → in_u 63 (g_now_issue e.1)) →
  is_valid now token (c_tokens (after history)) = true ↔
  ∃ before e later, history = before ++ e :: later ∧ grants token before e ∧ now < g_now_issue e.1 + TTL ∧
    ∀ l1 x l2, later = l1 ++ x :: l2 → ¬ grants token (before ++ e :: l1) x.
Proof.
  unfold is_valid. induction history as [|e history IH] using rev_ind; intros Hh.
  { simpl. rewrite lookup_empty. split; [done|]. by intros ([|? ?] & ? & ? & ? & _). }
  rewrite after_snoc.
  assert (∀ x, x ∈ history → in_u 63 (g_now_issue x.1)) as Hh' by (intros x Hx; apply Hh, elem_of_app; by left).
  specialize (IH Hh').
  assert (∀ M : gmap string Z, M !! token = tk_inner (c_tokens (after history)) !! token → ¬ grants token history e →
    match M !! token with Some exp => now <? exp | None => false end = true ↔
    ∃ before x later, history ++ [e] = before ++ x :: later ∧ grants token before x ∧ now < g_now_issue x.1 + TTL ∧
      ∀ l1 y l2, later = l1 ++ y :: l2 → ¬ grants token (before ++ x :: l1) y) as Hsame.
  { intros M -> Hn. rewrite IH. split; intros (before & x & later & E & Hg & Hnow & Hl).
    - exists before, x, (later ++ [e]). split; [by rewrite E, <- app_assoc|]. split; [done|]. split; [done|].
      intros l1 y l2 El. destruct l2 as [|z l2 _] using rev_ind.
      + apply app_inj_tail in El as [<- <-]. by rewrite <- E.
      + assert (later ++ [e] = (l1 ++ y :: l2) ++ [z]) as El' by (rewrite El, <- app_assoc; done).
        apply app_inj_tail in El' as [El' _]. by apply (Hl l1 y l2).
    - destruct later as [|z later _] using rev_ind.
      + apply app_inj_tail in E as [<- <-]. done.
      + assert (history ++ [e] = (before ++ x :: later) ++ [z]) as E' by (rewrite E, <- app_assoc; done).
        apply app_inj_tail in E' as [-> _]. exists before, x, later. split_and!; [done..|].
        intros l1 y l2 ->. apply (Hl l1 y (l2 ++ [z])). by rewrite <- app_assoc. }
  assert (∀ exp, exp = wrap 64 (g_now_issue e.1 + TTL) → grants token history e →
    (now <? exp) = true ↔
    ∃ before x later, history ++ [e] = before ++ x :: later ∧ grants token before x ∧ now < g_now_issue x.1 + TTL ∧
      ∀ l1 y l2, later = l1 ++ y :: l2 → ¬ grants token (before ++ x :: l1) y) as Hnew.
  { intros exp -> Hg. assert (in_u 63 (g_now_issue e.1)) as He by (apply Hh, elem_of_app; right; by left).
    unfold wrap. rewrite Z.mod_small by (unfold in_u, TTL in *; lia). rewrite Z.ltb_lt. split.
    - intros Hnow. exists history, e, []. split_and!; [done..|]. by intros [|? ?] ? ? [=].
    - intros (before & x & later & E & Hgx & Hnow & Hl). destruct later as [|z later _] using rev_ind.
      + by apply app_inj_tail in E as [_ <-].
      + assert (history ++ [e] = (before ++ x :: later) ++ [z]) as E' by (rewrite E, <- app_assoc; done).
        apply app_inj_tail in E' as [-> <-]. exfalso. by apply (Hl later e []). }
  destruct e as [g [header| |body|body|c]]; simpl.
  - unfold credentials_basic. destruct (negb (basic_ok policy header)) eqn:Eb; simpl.
    + apply Hsame; [done|]. intros (Hs & _). simpl in Hs. unfold credentials_basic in Hs. by rewrite Eb in Hs.
    + destruct (decide (base64url (g_random g) = token)) as [<-|Hne].
      * rewrite lookup_insert_eq. apply Hnew; [done|]. split_and!; simpl; [|done|done].
        unfold credentials_basic. by rewrite Eb.
      * apply Hsame; [by rewrite lookup_insert_ne|]. by intros (_ & ? & _).
  - apply Hsame; [done|]. by intros (_ & _ & ?).
  - apply Hsame; [done|]. by intros (_ & _ & ?).
  - unfold credentials_oidc_device_token. destruct (negb _) eqn:Eb; simpl.
    + apply Hsame; [done|]. intros (Hs & _). simpl in Hs. unfold credentials_oidc_device_token in Hs. by rewrite Eb in Hs.
    + destruct (poll _ _ _) eqn:Ep; simpl;
        try (apply Hsame; [done|]; intros (Hs & _); simpl in Hs; unfold credentials_oidc_device_token in Hs;
             rewrite Eb in Hs; by rewrite Ep in Hs).
      destruct (decide (base64url (g_random g) = token)) as [<-|Hne].
      * rewrite lookup_insert_eq. apply Hnew; [done|]. split_and!; simpl; [|done|done].
        unfold credentials_oidc_device_token. by rewrite Eb, Ep.
      * apply Hsame; [by rewrite lookup_insert_ne|]. by intros (_ & ? & _).
  - apply Hsame; [done|]. by intros (_ & _ & ?).
Qed.
End facts.

(** ** Runs *)

Module Demo.
Definition demo_b64 (l : list Z) : string := string_of ((λ b, 65 + b mod 26) <$> l).
Definition demo_policy : AuthPolicy := Basic "aladdin" "sesam".
Definition given (now : Z) (random : list Z) : Given := mkGiven now now random [0; 1; 2; 3] [255; 31; 32; 8].
Definition token_body (code : string) : Value := Object [
  ("grant_type", JString DEVICE_GRANT); ("device_code", JString code)].

Definition demo_history : list (Given * request) := [
  (given 1000 [0; 1; 2], PostDevice None); (given 1010 [], Approve "dc-ABC")].

Definition demo_serve := serve demo_b64 demo_policy [].

Example user_codes : user_code (start_session demo_b64 0 [] [0; 1; 2; 3] [255; 31; 32; 8] "p" DeviceCodeStore_new).1 =
  "ABCD-99AJ".
Proof. vm_compute. reflexivity. Qed.

Lemma device_token_granted_witness :
  h_status (demo_serve (given 1600 [7]) (PostToken (token_body "dc-ABC")) (after demo_b64 demo_policy [] demo_history)).1 = 200.
Proof.
  apply (device_token_granted demo_b64 demo_policy [] demo_history (given 1600 [7]) (token_body "dc-ABC")).
  - unfold in_u. simpl. lia.
  - intros e He. apply elem_of_cons in He as [->|He]; [unfold in_u; simpl; lia|].
    apply list_elem_of_singleton in He as ->. unfold in_u. simpl. lia.
  - split; [reflexivity|].
    exists (given 1000 [0; 1; 2], PostDevice None), [(given 1010 [], Approve "dc-ABC")], (given 1010 [], Approve "dc-ABC").
    split; [|split; [by left|split; [reflexivity|simpl; lia]]].
    exists []. split; [reflexivity|]. split; [reflexivity|]. intros x ->%list_elem_of_singleton. by intros [].
Defined.

(** An approved code gives another token at every poll. *)
Example approved_code_again :
  let s := after demo_b64 demo_policy [] (demo_history ++ [(given 1020 [7], PostToken (token_body "dc-ABC"))]) in
  h_status (demo_serve (given 1030 [8]) (PostToken (token_body "dc-ABC")) s).1 = 200.
Proof. vm_compute. reflexivity. Qed.

(** The token that was just issued does not authenticate: the policy knows its own
    secrets alone. *)
Example issued_token_is_rejected :
  let r := demo_serve (given 1000 [4; 5; 6]) (GetBasic (Some "Basic YWxhZGRpbjpzZXNhbQ==")) CredState_new in
  h_body r.1 = JsonBody (Object [("access_token", JString "EFG")]) ∧
  is_valid 1001 "EFG" (c_tokens r.2) = true ∧ check demo_policy (Some "Bearer EFG") = BadScheme.
Proof. vm_compute. done. Qed.
End Demo.
