(* ===== verification/Routes.v ===== *)
(** * Routes: the handlers of apps/orbit-openeo/src/routes/ other than jobs and credentials

    files.rs, process_graphs.rs with udp_store.rs, validation.rs with schema.rs,
    result.rs, catalogs.rs with the STAC catalog of catalog.rs, discovery.rs,
    services.rs, spec.rs, products.rs and subscription.rs.  A handler is a function of
    the request and of the store it uses; [None] is a panic. *)

From Stdlib Require Import Sorted.
From S2P Require Import Prelude Text BTree F64 Json ProcessGraph Catalog FileStore Metrics Mask Executor Runner Jobs.
Local Open Scope Z_scope.

Definition failure (status : Z) (code message : string) : HttpResponse :=
  json_response status (error_body code message).

(** ** files.rs *)

Section files.
Context {Fs : Type} `{FileStore Fs}.

Definition entry_json (e : FileEntry) : Value := Object [
  ("path", JString (fe_path e)); ("size", number (fe_size e))].

(** A listing that fails is an empty one. *)
Definition list_files_route (user_id : string) (files : Fs) : HttpResponse :=
  let entries := match list_files user_id files with Ok l => l | Err _ => [] end in
  json_response 200 (Object [("files", Array (entry_json <$> entries)); ("links", Array [])]).

Definition download_file (user_id path : string) (files : Fs) : HttpResponse :=
  match get_file (mkFileKey user_id path) files with
  | Ok bytes => mkHttp 200 [("content-type", "application/octet-stream")] (RawBody bytes)
  | Err FNotFound => failure 404 "FilePathNotFound" "file not found"
  | Err (Forbidden p) => failure 400 "FilePathInvalid" p
  | Err (Io e) => internal e
  end.

Definition upload_file (user_id path : string) (body : list Z) (files : Fs) : HttpResponse * Fs :=
  match put_file (mkFileKey user_id path) body files with
  | (Ok _, files') => (empty_response 200, files')
  | (Err (Forbidden p), files') => (failure 400 "FilePathInvalid" p, files')
  | (Err e, files') => (internal (file_error_text e), files')
  end.

Definition delete_file_route (user_id path : string) (files : Fs) : HttpResponse * Fs :=
  match delete_file (mkFileKey user_id path) files with
  | (Ok _, files') => (empty_response 204, files')
  | (Err (Forbidden p), files') => (failure 400 "FilePathInvalid" p, files')
  | (Err e, files') => (internal (file_error_text e), files')
  end.
End files.

(** ** udp_store.rs *)

Notation UdpStore := (btree string Value).
Definition UdpStore_new : UdpStore := [].

(** The body as stored: the id of the path replaces the one it carries. *)
Definition udp_object (id : string) (body : Value) : Value :=
  match body with Object m => Object (assoc_set "id" (JString id) m) | v => v end.

Definition udp_put (id : string) (body : Value) (s : UdpStore) : UdpStore := bt_insert id (udp_object id body) s.
Definition udp_get (id : string) (s : UdpStore) : option Value := bt_get id s.
Definition udp_delete (id : string) (s : UdpStore) : bool * UdpStore :=
  (bool_decide (is_Some (bt_get id s)), bt_remove id s).

Definition summary_keys : list string := ["summary"; "description"; "categories"; "parameters"; "returns"].
Definition udp_summary (e : string * Value) : Value :=
  Object (match e.2 with
    | Object b => foldl (λ s k, match assoc_get k b with Some v => assoc_set k v s | None => s end)
                    [("id", JString e.1)] summary_keys
    | _ => [("id", JString e.1)]
    end).
Definition list_summaries (s : UdpStore) : list Value := udp_summary <$> s.

(** ** process_graphs.rs *)

Definition graph_not_found (id : string) : HttpResponse :=
  failure 404 "ProcessGraphNotFound" ("process graph " +:+ quoted id +:+ " not found").

Definition udp_list (s : UdpStore) : HttpResponse :=
  json_response 200 (Object [("process_graphs", Array (list_summaries s)); ("links", Array [])]).

Definition udp_get_one (id : string) (s : UdpStore) : HttpResponse :=
  match udp_get id s with Some udp => json_response 200 udp | None => graph_not_found id end.

Definition udp_store (id : string) (body : Value) (s : UdpStore) : HttpResponse * UdpStore :=
  match jget "process_graph" body ≫= as_object with
  | None => (failure 400 "ProcessGraphInvalid" "body must contain a `process_graph` object", s)
  | Some _ => (empty_response 200, udp_put id body s)
  end.

Definition udp_remove (id : string) (s : UdpStore) : HttpResponse * UdpStore :=
  let '(existed, s') := udp_delete id s in
  ((if existed then empty_response 204 else graph_not_found id), s').

(** ** schema.rs *)

Inductive SchemaError := SchemaParse (e : string) | SchemaNotFound (name : string) | SchemaInvalid (schema errors : string).

Definition schema_error_text (e : SchemaError) : string :=
  match e with
  | SchemaParse e => "parse openapi.json: " +:+ e
  | SchemaNotFound name => "schema not found: " +:+ name
  | SchemaInvalid schema errors => "validation failed for " +:+ schema +:+ ": " +:+ errors
  end.

(** A compiled validator: the texts of the errors it finds. *)
Notation Validator := (Value → list string).
Notation SchemaRegistry := (gmap string Validator).

(** [from_str] is serde_json's parser, [validator_for] the compiler of schemas; a schema
    that does not compile is skipped. *)
Definition schemas_from_openapi (from_str : string → result string Value)
    (validator_for : Value → result string Validator) (openapi : string) : result SchemaError SchemaRegistry :=
  spec ← map_err SchemaParse (from_str openapi);
  schemas ← ok_or ((jget "components" spec ≫= jget "schemas") ≫= as_object) (SchemaParse "missing components.schemas");
  Ok (foldl (λ (m : SchemaRegistry) (e : string * Value),
        match validator_for e.2 with Ok v => <[e.1 := v]> m | Err _ => m end) ∅ schemas).

Definition schemas_has (name : string) (r : SchemaRegistry) : bool := bool_decide (is_Some (r !! name)).
Definition schemas_validate (name : string) (value : Value) (r : SchemaRegistry) : result SchemaError unit :=
  match r !! name with
  | None => Err (SchemaNotFound name)
  | Some v => match v value with [] => Ok () | errors => Err (SchemaInvalid name (join "; " errors)) end
  end.

(** ** validation.rs *)

(** [s.split(sep)] on a non-empty separator. *)
Fixpoint split_on_fuel (fuel : nat) (sep s : string) : list string :=
  match fuel, split_once_str sep s with
  | S fuel, Some (a, b) => a :: split_on_fuel fuel sep b
  | _, _ => [s]
  end.
Definition split_on (sep s : string) : list string := split_on_fuel (String.length s) sep s.

Definition validation_error (m : string) : Value := error_body "ValidationError" m.

(** The loop over the candidate names: the first that is registered decides. *)
Fixpoint schema_errors (candidates : list string) (body : Value) (r : SchemaRegistry) : list Value :=
  match candidates with
  | [] => []
  | c :: rest =>
      if schemas_has c r then
        match schemas_validate c body r with
        | Ok _ => []
        | Err (SchemaInvalid _ e) => validation_error <$> split_on "; " e
        | Err other => [validation_error (schema_error_text other)]
        end
      else schema_errors rest body r
  end.

Definition unsupported_error (bad : string) : Value :=
  error_body "ProcessUnsupported" ("process `" +:+ bad +:+ "` is not supported by this backend").

Definition validate_route (r : SchemaRegistry) (body : Value) : HttpResponse :=
  json_response 200 (Object [("errors", Array (schema_errors ["process_graph"; "process"] body r ++
    (unsupported_error <$> unsupported_process_ids body process_ids)))]).

(** ** result.rs *)

(** [ProcessGraphExecutor::run_sync]; [None] is a panic, the state is then unspecified. *)
Class ProcessGraphExecutor (W : Type) := {
  exec_run_sync : Value → W → option (result ExecError SyncResult * W) }.

Definition exec_failure (e : ExecError) : HttpResponse :=
  match e with
  | InvalidGraph msg => failure 400 "InvalidProcessGraph" msg
  | UnknownProcess name => failure 400 "ProcessUnsupported" name
  | ExecBackend msg => internal msg
  | PerPixelComputation msg => internal ("per_pixel: " +:+ msg)
  end.

Definition sync_compute `{ProcessGraphExecutor W} (body : Value) (w : W) : option (HttpResponse * W) :=
  match exec_run_sync body w with
  | Some (Ok r, w') => Some (mkHttp 200 [("content-type", content_type r)] (RawBody (sr_body r)), w')
  | Some (Err e, w') => Some (exec_failure e, w')
  | None => None
  end.

(** ** catalog.rs: collections and the STAC catalog *)

(** The flattened object: the named fields, then the others. *)
Definition collection_json (c : Collection) : Value :=
  Object (foldl (λ m (e : string * Value), assoc_set e.1 e.2 m)
    [("id", JString (col_id c)); ("stac_version", JString (stac_version c));
     ("description", JString (description c)); ("license", JString (license c))] (extra c)).

Definition collection_keys : list string := ["id"; "stac_version"; "description"; "license"].

(** A string member with a default when it is absent; of another kind it is an error. *)
Definition text_member (k : string) (d : option string) (m : list (string * Value)) : option string :=
  match assoc_get k m with Some v => as_str v | None => d end.

Definition collection_of_json (v : Value) : option Collection :=
  m ← as_object v;
  id ← text_member "id" None m;
  version ← text_member "stac_version" None m;
  descr ← text_member "description" (Some "") m;
  lic ← text_member "license" (Some "proprietary") m;
  Some (mkCollection id version descr lic (filter (λ e, e.1 ∉ collection_keys) m)).

(** What the HTTP client brings back: an error of the transport, or a status with the
    body, decoded or not. *)
Inductive Reply := NoReply (e : string) | Answer (status : Z) (body : result string Value).

Record HttpStacCatalog := mkHttpCatalog { hc_base : string; hc_get : string → Reply; hc_parse_error : Value → string;
  hc_status_text : Z → string }.
Definition HttpStacCatalog_new (base_url : string) (get : string → Reply) (parse_error : Value → string)
    (status_text : Z → string) : HttpStacCatalog :=
  mkHttpCatalog (trim_end_slashes base_url) get parse_error status_text.

Definition success (status : Z) : bool := (200 <=? status) && (status <? 300).

Definition http_list (c : HttpStacCatalog) : result CatalogError (list Collection) :=
  let url := hc_base c +:+ "/collections" in
  match hc_get c url with
  | NoReply e => Err (CatalogBackend (url +:+ ": " +:+ e))
  | Answer status body =>
      if negb (success status) then Err (CatalogBackend (url +:+ ": HTTP " +:+ hc_status_text c status))
      else match body with
        | Err e => Err (CatalogBackend (url +:+ ": decode: " +:+ e))
        | Ok v => Ok (omap collection_of_json (default [] (jget "collections" v ≫= as_array)))
        end
  end.

Definition http_get_collection (id : string) (c : HttpStacCatalog) : result CatalogError Collection :=
  let url := hc_base c +:+ "/collections/" +:+ id in
  match hc_get c url with
  | NoReply e => Err (CatalogBackend (url +:+ ": " +:+ e))
  | Answer status body =>
      if bool_decide (status = 404) then Err (CollectionNotFound id)
      else if negb (success status) then Err (CatalogBackend (url +:+ ": HTTP " +:+ hc_status_text c status))
      else match body with
        | Err e => Err (CatalogBackend (url +:+ ": decode: " +:+ e))
        | Ok v => ok_or (collection_of_json v) (CatalogBackend (url +:+ ": parse: " +:+ hc_parse_error c v))
        end
  end.

#[export] Instance HttpStac_catalog : CollectionCatalog HttpStacCatalog := {
  catalog_list := http_list; catalog_get := http_get_collection }.

(** ** catalogs.rs *)

Section catalogs.
Context {C : Type} `{CollectionCatalog C}.

Definition list_collections (c : C) : HttpResponse :=
  let l := match catalog_list c with Ok l => l | Err _ => [] end in
  json_response 200 (Object [("collections", Array (collection_json <$> l)); ("links", Array [])]).

Definition get_collection (id : string) (c : C) : HttpResponse :=
  match catalog_get id c with
  | Ok x => json_response 200 (collection_json x)
  | Err (CollectionNotFound _) =>
      failure 404 "CollectionNotFound" ("collection " +:+ quoted id +:+ " not found")
  | Err (CatalogBackend msg) => internal msg
  end.
End catalogs.

Definition list_processes : HttpResponse :=
  json_response 200 (Object [("processes", Array process_descriptions); ("links", Array [])]).

Definition format_json (title data_type : string) : Value := Object [
  ("title", JString title); ("gis_data_types", Array [JString data_type]); ("parameters", Object [])].
Definition output_formats_map : Value := Object [
  ("GTiff", format_json "GeoTIFF" "raster"); ("COG", format_json "Cloud-Optimized GeoTIFF" "raster");
  ("PNG", format_json "Portable Network Graphics" "raster"); ("JSON", format_json "JSON" "other")].

Definition list_file_formats : HttpResponse :=
  json_response 200 (Object [("input", Object []); ("output", output_formats_map)]).
Definition list_output_formats : HttpResponse := json_response 200 (Object [("output", output_formats_map)]).
Definition list_service_types : HttpResponse := json_response 200 (Object []).
Definition list_udf_runtimes : HttpResponse := json_response 200 (Object []).

(** ** discovery.rs *)

Definition health : HttpResponse := json_response 200 (Object [("status", JString "ok")]).

Definition metrics_route (display : f64 → string) (r : InMemoryRecorder) : HttpResponse :=
  mkHttp 200 [("content-type", "text/plain; version=0.0.4; charset=utf-8")]
    (RawBody (bytes_of (to_prometheus display r))).

Definition conformance_classes : list string := [
  "https://api.openeo.org/1.3.0"; "https://api.stacspec.org/v1.0.0/core";
  "https://api.stacspec.org/v1.0.0/collections"].
Definition conforms_to : string * Value := ("conformsTo", Array (JString <$> conformance_classes)).
Definition conformance : HttpResponse := json_response 200 (Object [conforms_to]).

Definition endpoint_list : list (string * list string) := [
  ("/", ["GET"]); ("/.well-known/openeo", ["GET"]); ("/conformance", ["GET"]);
  ("/credentials/basic", ["GET"]); ("/credentials/oidc", ["GET"; "POST"]); ("/credentials/oidc/token", ["POST"]);
  ("/me", ["GET"]); ("/collections", ["GET"]); ("/collections/{collection_id}", ["GET"]);
  ("/processes", ["GET"]); ("/process_graphs", ["GET"]);
  ("/process_graphs/{process_graph_id}", ["GET"; "PUT"; "DELETE"]);
  ("/jobs", ["GET"; "POST"]); ("/jobs/{job_id}", ["GET"; "PATCH"; "DELETE"]);
  ("/jobs/{job_id}/results", ["GET"; "POST"; "DELETE"]); ("/jobs/{job_id}/estimate", ["GET"]);
  ("/jobs/{job_id}/logs", ["GET"]); ("/result", ["POST"]);
  ("/files/{user_id}", ["GET"]); ("/files/{user_id}/{path}", ["GET"; "PUT"; "DELETE"]);
  ("/services", ["GET"; "POST"]); ("/services/{service_id}", ["GET"; "PATCH"; "DELETE"]);
  ("/service_types", ["GET"]); ("/file_formats", ["GET"]); ("/output_formats", ["GET"]);
  ("/udf_runtimes", ["GET"]); ("/validation", ["POST"]); ("/subscription", ["GET"])].
Definition endpoint_json (e : string * list string) : Value := Object [
  ("path", JString e.1); ("methods", Array (JString <$> e.2))].

Definition SCOPE_URL : string :=
  "https://github.com/NU/orbit-rs/blob/main/mvp/orbit-etl/apps/orbit-openeo/BACKEND-SCOPE.md".
Definition link_json (rel href : string) : Value := Object [
  ("rel", JString rel); ("href", JString href); ("type", JString "application/json")].

Definition capabilities (api_version backend_id : string) : HttpResponse :=
  json_response 200 (Object [
    ("api_version", JString api_version); ("backend_version", JString "0.1.0");
    ("stac_version", JString "1.0.0"); ("id", JString backend_id); ("title", JString "orbit-rs openEO");
    ("description", JString "orbit-rs openEO 1.3.0 façade"); ("production", Bool false); conforms_to;
    ("endpoints", Array (endpoint_json <$> endpoint_list));
    ("links", Array [link_json "self" "/"; link_json "version-history" "/.well-known/openeo";
       link_json "data" "/collections"; link_json "conformance" "/conformance";
       Object [("rel", JString "about"); ("href", JString SCOPE_URL); ("type", JString "text/markdown");
               ("title", JString "Backend scope contract (MAY / WILL NOT) — reference backend, NOT certified")]]);
    ("scope", Object [("certified", Bool false); ("tenancy", JString "single-tenant");
       ("spec_pin", JString "openEO 1.3.0"); ("contract", JString SCOPE_URL)])]).

Definition well_known (api_version : string) : HttpResponse :=
  json_response 200 (Object [
    ("versions", Array [Object [("url", JString "/"); ("production", Bool false);
       ("api_version", JString api_version)]]);
    ("scope", Object [("certified", Bool false); ("contract", JString SCOPE_URL)])]).

Definition me : HttpResponse :=
  json_response 200 (Object [("user_id", JString "anonymous"); ("name", JString "anonymous")]).

(** ** services.rs, spec.rs, products.rs, subscription.rs *)

Definition services_list : HttpResponse :=
  json_response 200 (Object [("services", Array []); ("links", Array [])]).
Definition services_create (spec : Value) : HttpResponse := empty_response 501.
Definition services_get (id : string) : HttpResponse := json_response 404 (code_body "ServiceNotFound").
Definition services_update (id : string) (spec : Value) : HttpResponse := empty_response 501.
Definition services_remove (id : string) : HttpResponse := empty_response 204.

(** The two documents that are compiled in are parameters. *)
Definition openapi_json (document : list Z) : HttpResponse :=
  mkHttp 200 [("content-type", "application/json")] (RawBody document).
Definition openapi_yaml (document : list Z) : HttpResponse :=
  mkHttp 200 [("content-type", "application/yaml")] (RawBody document).

Definition mask_kind_text (k : MaskKind) : string :=
  match k with
  | Sentinel2Scl => "sentinel2_scl" | LandsatC2QaPixel => "landsat_c2_qa_pixel" | MaskNone => "none"
  end.
Definition names_json (l : list string) : Value := Array (JString <$> l).
Definition product_json (p : Product) : Value := Object [
  ("id", JString (pr_id p)); ("title", JString (pr_title p)); ("platform", JString (pr_platform p));
  ("native_resolution_m", json_of_f64 (native_resolution_m p)); ("mask_kind", JString (mask_kind_text (mask_kind p)));
  ("band_aliases", Object [("red", names_json (red (band_aliases p))); ("nir", names_json (ba_nir (band_aliases p)));
     ("swir2", names_json (ba_swir2 (band_aliases p))); ("mask", names_json (ba_mask (band_aliases p)))])].
Definition list_products : HttpResponse :=
  json_response 200 (Object [("products", Array (product_json <$> known_products)); ("links", Array [])]).

(** The frames of the socket, in order: one text, then the closing handshake. *)
Inductive Frame := FText (s : string) | FClose.
Definition quote_text (s : string) : string := chr dquote +:+ s +:+ chr dquote.
Definition handle_socket : list Frame := [
  FText ("{" +:+ quote_text "openeo.message" +:+ ":" +:+ quote_text "connected" +:+ "," +:+ quote_text "note" +:+ ":" +:+
         quote_text "event stream not yet implemented" +:+ "}");
  FClose].

(** ** Facts *)

Lemma files_put_get `{FileStoreLaws Fs} user path body (files : Fs) :
  h_status (upload_file user path body files).1 = 200 →
  download_file user path (upload_file user path body files).2 =
    mkHttp 200 [("content-type", "application/octet-stream")] (RawBody body).
Proof.
  unfold upload_file, download_file. destruct (put_file _ _ _) as [[[]|e] files'] eqn:E; simpl.
  - intros _. by rewrite (put_get_law _ _ _ _ E).
  - by destruct e.
Qed.

(** What a history of requests leaves under an id: the last accepted PUT, unless deleted
    since. *)
Inductive udp_request := UdpPut (id : string) (body : Value) | UdpDelete (id : string).

Definition udp_serve (s : UdpStore) (r : udp_request) : UdpStore :=
  match r with UdpPut id body => (udp_store id body s).2 | UdpDelete id => (udp_remove id s).2 end.

Definition udp_stored (m : string → option Value) (r : udp_request) (id : string) : option Value :=
  match r with
  | UdpPut i body =>
      if bool_decide (i = id ∧ is_Some (jget "process_graph" body ≫= as_object)) then Some (udp_object id body)
      else m id
  | UdpDelete i => if bool_decide (i = id) then None else m id
  end.

Lemma udp_serve_wf s r : bt_wf s → bt_wf (udp_serve s r).
Proof.
  intros Hs. destruct r as [i b|i]; simpl; [unfold udp_store; destruct (_ ≫= _)|]; simpl; [|done|].
  - by apply bt_wf_insert.
  - by apply bt_wf_remove.
Qed.

Lemma udp_summary_no_graph e : jget "process_graph" (udp_summary e) = None.
Proof.
  destruct e as [id v]. unfold udp_summary, jget. destruct v as [| | | | |b]; [done..|].
  cbn [as_object mbind option_bind fst snd].
  assert (∀ l m, "process_graph" ∉ l → assoc_get "process_graph" m = None →
    assoc_get "process_graph" (foldl (λ s k, match assoc_get k b with Some v => assoc_set k v s | None => s end) m l)
      = (None : option Value)) as H.
  { induction l as [|k l IH]; intros m Hl Hm; [done|]. apply not_elem_of_cons in Hl as [Hk Hl].
    simpl. apply IH; [done|]. destruct (assoc_get k b); [|done]. by rewrite assoc_get_set_ne by congruence. }
  apply H; [|done]. unfold summary_keys. set_solver.
Qed.

(** The PUT, GET, DELETE and listing of stored process graphs over a history: GET answers
    what was last stored, with the id of its path; the listing has one summary for each, in
    the order of their ids, without the graph. *)
Theorem udp_endpoints (history : list udp_request) :
  let s := foldl udp_serve UdpStore_new history in
  let m := foldl udp_stored (λ _, None) history in
  (∀ id, udp_get_one id s = match m id with Some v => json_response 200 v | None => graph_not_found id end) ∧
  (∀ id, (udp_remove id s).1 = match m id with Some _ => empty_response 204 | None => graph_not_found id end) ∧
  list_summaries s = (λ id, udp_summary (id, default Null (m id))) <$> s.*1 ∧
  StronglySorted (λ a b, cmp a b = Lt) s.*1 ∧ (∀ id, id ∈ s.*1 ↔ is_Some (m id)) ∧
  (∀ v, v ∈ list_summaries s → jget "process_graph" v = None).
Proof.
  intros s m.
  assert (bt_wf s ∧ ∀ id, bt_get id s = m id) as [Hwf Hm].
  { subst s m. induction history as [|r history [Hw IH]] using rev_ind; [split; [constructor|done]|].
    rewrite !foldl_app. simpl. split; [by apply udp_serve_wf|]. intros id.
    destruct r as [i b|i]; simpl.
    - unfold udp_store, udp_put. destruct (jget _ b ≫= as_object) as [g|] eqn:Eg; simpl.
      + case_bool_decide as E; [destruct E as [-> _]; by rewrite bt_get_insert_eq by done|].
        rewrite bt_get_insert_ne; [apply IH|done|]. intros ->. apply E. eauto.
      + case_bool_decide as E; [destruct E as [_ [? [=]]]|apply IH].
    - case_bool_decide as E; [subst; rewrite bt_get_remove by done; by rewrite cmp_refl|rewrite bt_get_remove_ne; [apply IH|done|done]]. }
  unfold udp_get_one, udp_get, udp_remove, udp_delete. split; [intros id; by rewrite Hm|].
  split; [intros id; simpl; rewrite Hm; by destruct (m id)|].
  split; [|split; [by apply bt_keys_sorted|split]].
  - unfold list_summaries. rewrite <- list_fmap_compose. apply list_fmap_ext. intros i [k v] Hi%list_elem_of_lookup_2.
    simpl. rewrite <- Hm. by rewrite (proj2 (bt_get_Some _ _ _ Hwf) Hi).
  - intros id. rewrite <- Hm, list_elem_of_fmap. split.
    + intros ([k v] & -> & Hin). simpl. rewrite (proj2 (bt_get_Some _ _ _ Hwf) Hin). eauto.
    + intros [v Hv%bt_get_Some]; [|done]. by exists (id, v).
  - intros v ([k o] & -> & _)%list_elem_of_fmap. apply udp_summary_no_graph.
Qed.
