(* ===== verification/GeoExec.v ===== *)
(** * The executor itself: apps/orbit-openeo/src/geo_executor/mod.rs and download.rs

    Building a [GeoExecutor], its scratch directory from creation to drop, the signers and
    downloaders it is given, the synchronous fetch, the rendering of a raster as an 8-bit
    image, and the masked index worker.  GDAL and the transports are parameters. *)

From Stdlib Require Import Ascii SpecFloat.
From S2P Require Import Prelude Text BTree F64 Json Grid FileStore UrlPolicy Mask Executor Registry Cube Window Stac Load Apply.
From S2P Require Import Raster Blocks Scenes.
Local Open Scope Z_scope.

(** ** Signers *)

Inductive AssetSigner :=
| NoopAssetSigner
| PlanetaryComputerSigner (sas_token : string)
| BearerSigner (token : string)
| OtherSigner (f : string → result ExecError string).

Fixpoint url_encode (s : string) : string :=
  match s with
  | EmptyString => ""
  | String b s =>
      if unreserved b then String b (url_encode s)
      else String "%" (String (hex_upper (byte_of b / 16)) (String (hex_upper (byte_of b mod 16)) (url_encode s)))
  end.

(** Where a query already starts, another member is appended. *)
Definition separator (href : string) : string := if has_char "?" href then "&" else "?".

Definition sign_with (s : AssetSigner) (href : string) : result ExecError string :=
  match s with
  | NoopAssetSigner => Ok href
  | PlanetaryComputerSigner sas =>
      if bool_decide (sas = "") then Ok href else Ok (href +:+ separator href +:+ sas)
  | BearerSigner token =>
      if bool_decide (token = "") then Ok href
      else Ok (href +:+ separator href +:+ "header.Authorization=" +:+ url_encode ("Bearer " +:+ token))
  | OtherSigner f => f href
  end.

(** ** Downloaders *)

Section downloaders.
Context {W : Type}.

(** A function that downloads a crop: source, destination, crop, its CRS, the state. *)
Notation Fetch := (string → string → option CropWindow → option string → W → result string unit * W).

Inductive Downloader :=
| GdalTranslateDownloader | InProcessGdalDownloader | AsyncTiffDownloader
| OtherDownloader (f : string → string → CropWindow → option string → W → result ExecError unit * W).

(** gdal_translate is a program; the other two are [Window.download_in_process_with_crs]
    and [AsyncTiff.download_via_async_tiff_with_crs_and_meta]. *)
Context (gdal_translate in_process : Fetch).
Context (async_tiff : string → string → option CropWindow → option string → option BandMetadataHint →
           W → result string unit * W).

Definition backend_error (what src_url : string) (r : result string unit * W) : result ExecError unit * W :=
  (map_err (λ e, ExecBackend (what +:+ " " +:+ src_url +:+ ": " +:+ e)) r.1, r.2).

Definition download_with_meta (d : Downloader) (src_url dst_path : string) (crop : CropWindow)
    (crop_crs : option string) (hint : option BandMetadataHint) (w : W) : result ExecError unit * W :=
  match d with
  | GdalTranslateDownloader =>
      backend_error "gdal_translate" src_url (gdal_translate (vsi_rewrite src_url) dst_path (Some crop) crop_crs w)
  | InProcessGdalDownloader =>
      backend_error "in_process_download" src_url (in_process (vsi_rewrite src_url) dst_path (Some crop) crop_crs w)
  | AsyncTiffDownloader =>
      backend_error "async_tiff" src_url (async_tiff src_url dst_path (Some crop) crop_crs hint w)
  | OtherDownloader f => f src_url dst_path crop crop_crs w
  end.

Definition download_plain (d : Downloader) (src_url dst_path : string) (crop : CropWindow)
    (crop_crs : option string) (w : W) : result ExecError unit * W :=
  download_with_meta d src_url dst_path crop crop_crs None w.

(** ** The executor *)

Notation Searcher := (string → list f64 → option string → Z → option f64 → W → result ExecError (list StacScene) * W).
Notation CatalogGet := (string → result CatalogError Collection).

Record GeoExecutor := mkGeoExecutor {
  ge_catalog : option CatalogGet;
  ge_searcher : option Searcher;
  ge_downloader : Downloader;
  ge_signer : AssetSigner;
  ge_scratch_dir : string;
  ge_owns_scratch : bool;
  ge_cache : option (CacheOps W);
  ge_crop_size : Z;
  ge_crop_offset : Z;
  ge_download_sem : Z;                      (* permits *)
  ge_url_policy : UrlPolicy;
  ge_registry : ProcessRegistry W }.

(** Directories of the file system: a set of paths, closed under [create_dir_all]. *)
Notation Dirs := (gset string).

Fixpoint ancestors (prefix s : string) : list string :=
  match s with
  | EmptyString => [prefix]
  | String c r =>
      (if bool_decide (c = "/"%char ∧ prefix ≠ "") then [prefix] else []) ++ ancestors (prefix +:+ chr c) r
  end.
Definition create_dir_all (path : string) (d : Dirs) : Dirs := d ∪ list_to_set (ancestors "" path).
Definition below (path q : string) : Prop := q = path ∨ starts_with (path +:+ "/") q = true.
#[export] Instance below_dec path q : Decision (below path q) := _.
Definition remove_dir_all (path : string) (d : Dirs) : Dirs := filter (λ q, ¬ below path q) d.

Definition SCRATCH_PREFIX : string := "orbit-geoexec-".

(** [defaults] is the registry with the default handlers; the clock gives nanoseconds. *)
Definition GeoExecutor_new (defaults : ProcessRegistry W) (temp_dir : string) (nanos : Z) (d : Dirs)
    : GeoExecutor * Dirs :=
  let scratch := join_path temp_dir (SCRATCH_PREFIX +:+ pretty nanos) in
  (mkGeoExecutor None None GdalTranslateDownloader NoopAssetSigner scratch true None 256 0 6 default_policy defaults,
   create_dir_all scratch d).

Implicit Types g : GeoExecutor.

Definition with_cache (c : CacheOps W) g : GeoExecutor :=
  mkGeoExecutor (ge_catalog g) (ge_searcher g) (ge_downloader g) (ge_signer g) (ge_scratch_dir g) (ge_owns_scratch g)
    (Some c) (ge_crop_size g) (ge_crop_offset g) (ge_download_sem g) (ge_url_policy g) (ge_registry g).
Definition with_signer (s : AssetSigner) g : GeoExecutor :=
  mkGeoExecutor (ge_catalog g) (ge_searcher g) (ge_downloader g) s (ge_scratch_dir g) (ge_owns_scratch g)
    (ge_cache g) (ge_crop_size g) (ge_crop_offset g) (ge_download_sem g) (ge_url_policy g) (ge_registry g).
Definition set_catalog (c : CatalogGet) g : GeoExecutor :=
  mkGeoExecutor (Some c) (ge_searcher g) (ge_downloader g) (ge_signer g) (ge_scratch_dir g) (ge_owns_scratch g)
    (ge_cache g) (ge_crop_size g) (ge_crop_offset g) (ge_download_sem g) (ge_url_policy g) (ge_registry g).
Definition with_searcher (s : Searcher) g : GeoExecutor :=
  mkGeoExecutor (ge_catalog g) (Some s) (ge_downloader g) (ge_signer g) (ge_scratch_dir g) (ge_owns_scratch g)
    (ge_cache g) (ge_crop_size g) (ge_crop_offset g) (ge_download_sem g) (ge_url_policy g) (ge_registry g).
Definition with_downloader (dl : Downloader) g : GeoExecutor :=
  mkGeoExecutor (ge_catalog g) (ge_searcher g) dl (ge_signer g) (ge_scratch_dir g) (ge_owns_scratch g)
    (ge_cache g) (ge_crop_size g) (ge_crop_offset g) (ge_download_sem g) (ge_url_policy g) (ge_registry g).
Definition with_inprocess_downloader g : GeoExecutor := with_downloader InProcessGdalDownloader g.
Definition with_async_tiff_downloader g : GeoExecutor := with_downloader AsyncTiffDownloader g.
Definition with_scratch_dir (dir : string) (gd : GeoExecutor * Dirs) : GeoExecutor * Dirs :=
  let '(g, d) := gd in
  (mkGeoExecutor (ge_catalog g) (ge_searcher g) (ge_downloader g) (ge_signer g) dir false
     (ge_cache g) (ge_crop_size g) (ge_crop_offset g) (ge_download_sem g) (ge_url_policy g) (ge_registry g),
   create_dir_all dir d).
Definition with_crop (offset size : Z) g : GeoExecutor :=
  mkGeoExecutor (ge_catalog g) (ge_searcher g) (ge_downloader g) (ge_signer g) (ge_scratch_dir g) (ge_owns_scratch g)
    (ge_cache g) size offset (ge_download_sem g) (ge_url_policy g) (ge_registry g).
Definition with_download_concurrency (permits : Z) g : GeoExecutor :=
  mkGeoExecutor (ge_catalog g) (ge_searcher g) (ge_downloader g) (ge_signer g) (ge_scratch_dir g) (ge_owns_scratch g)
    (ge_cache g) (ge_crop_size g) (ge_crop_offset g) (Z.max permits 1) (ge_url_policy g) (ge_registry g).
Definition with_url_policy (p : UrlPolicy) g : GeoExecutor :=
  mkGeoExecutor (ge_catalog g) (ge_searcher g) (ge_downloader g) (ge_signer g) (ge_scratch_dir g) (ge_owns_scratch g)
    (ge_cache g) (ge_crop_size g) (ge_crop_offset g) (ge_download_sem g) p (ge_registry g).

Definition GeoExecutor_with_catalog (defaults : ProcessRegistry W) (temp_dir : string) (nanos : Z) (c : CatalogGet)
    (d : Dirs) : GeoExecutor * Dirs :=
  let '(g, d) := GeoExecutor_new defaults temp_dir nanos d in (set_catalog c g, d).

(** [path.file_name()]: the last component, none at the root, after [..], or of an empty path. *)
Definition file_name (path : string) : option string :=
  match rev (filter (λ c, ¬ (c = "" ∨ c = ".")) (split "/" path)) with
  | c :: _ => if bool_decide (c = "..") then None else Some c
  | [] => None
  end.

(** [Drop::drop]; a failure of the removal is only logged. *)
Definition drop_executor (g : GeoExecutor) (d : Dirs) : Dirs :=
  if negb (ge_owns_scratch g) then d
  else if bool_decide (ge_scratch_dir g = "") then d
  else if match file_name (ge_scratch_dir g) with Some n => starts_with SCRATCH_PREFIX n | None => false end
       then remove_dir_all (ge_scratch_dir g) d
       else d.

(** The parts that load_collection uses. *)
Definition loader_of g : Loader W :=
  mkLoader W (ge_catalog g) (ge_searcher g) (sign_with (ge_signer g)) (download_with_meta (ge_downloader g))
    (ge_cache g) (ge_scratch_dir g) (ge_url_policy g).

(** [fetch_with_cache]: the synchronous fetch, which no code calls; it does not ask the
    URL policy. *)
Definition fetch_with_cache g (href dst : string) (crop : CropWindow) (crop_crs : option string) (w : W)
    : result ExecError string * W :=
  let '(hit, w) := match ge_cache g with Some c => cache_get c href w | None => (None, w) end in
  match hit with
  | Some cached => (Ok cached, w)
  | None =>
      match sign_with (ge_signer g) href with
      | Err e => (Err e, w)
      | Ok signed =>
          match download_plain (ge_downloader g) signed dst crop crop_crs w with
          | (Err e, w) => (Err e, w)
          | (Ok _, w) =>
              match ge_cache g with
              | Some c =>
                  let '(r, w) := cache_insert c href dst w in
                  (map_err (λ e, ExecBackend ("FileCache insert " +:+ href +:+ ": " +:+ e)) r, w)
              | None => (Ok dst, w)
              end
          end
      end
  end.
End downloaders.
Arguments Downloader : clear implicits.
Arguments GeoExecutor : clear implicits.

(** ** Rendering as 8-bit grey *)

Definition f32_half : f32 := Eval vm_compute in f32_div f32_one (f32_of_Z 2).
Definition f32_epsilon : f32 := Eval vm_compute in f32_div f32_one (f32_of_Z (2 ^ 23)).
Definition f32_zero : f32 := S754_zero false.
Definition i16_min : f32 := Eval vm_compute in f32_of_Z (-32768).
Definition f32_255 : f32 := Eval vm_compute in f32_of_Z 255.

(** [x.round()]: half away from zero. *)
Definition half_away (n d : Z) : Z := Z.sgn n * ((2 * Z.abs n + d) / (2 * d)).
Definition f32_round (x : f32) : f32 := f32_of_f64 (round_int half_away x).
(** [x as u8] *)
Definition f32_to_u8 (x : f32) : Z := Z.min 255 (f64_to_u64 x).

Definition is_nodata (p : f32) : bool :=
  negb (is_finite p) || f64_ltb (f64_abs (f32_sub p SENTINEL_NDVI_NA)) f32_half ||
  f64_ltb (f64_abs (f32_sub p i16_min)) f32_half.

Definition extremes (pixels : list f32) : f32 * f32 :=
  let '(mn, mx) := foldl (λ '(mn, mx) p,
    if is_nodata p then (mn, mx)
    else (if f64_ltb p mn then p else mn, if f64_ltb mx p then p else mx))
    (S754_infinity false, S754_infinity true) pixels in
  if f64_eqb mn (S754_infinity false) then (f32_zero, f32_one) else (mn, mx).

Definition grey_level (mn span p : f32) : Z :=
  if is_nodata p then 0
  else f32_to_u8 (f64_clamp (f32_round (f32_mul (f32_div (f32_sub p mn) span) f32_255)) f32_zero f32_255).

Definition u8_pixels (pixels : list f32) : list Z :=
  let '(mn, mx) := extremes pixels in
  let span := f64_max (f32_sub mx mn) f32_epsilon in
  grey_level mn span <$> pixels.

(** GDAL: opening the file and its first band, and the image as a PNG through the MEM and
    PNG drivers; each step can fail with a text. *)
Record PngGdal (W DS Mem Png : Type) := mkPngGdal {
  pg_open : string → W → result string DS;
  pg_band : DS → result string (Z * Z);
  pg_read : DS → Z * Z → result string (list f32);
  pg_mem_driver : result string ();
  pg_mem_create : Z * Z → result string Mem;
  pg_mem_band : Mem → result string ();
  pg_mem_write : Mem → Z * Z → list Z → result string Mem;
  pg_png_driver : result string ();
  pg_create_copy : Mem → result string Png;
  pg_vsi_bytes : Png → result string (list Z) }.
Arguments mkPngGdal {W DS Mem Png}. Arguments pg_open {W DS Mem Png}. Arguments pg_band {W DS Mem Png}.
Arguments pg_read {W DS Mem Png}. Arguments pg_mem_driver {W DS Mem Png}. Arguments pg_mem_create {W DS Mem Png}.
Arguments pg_mem_band {W DS Mem Png}. Arguments pg_mem_write {W DS Mem Png}. Arguments pg_png_driver {W DS Mem Png}.
Arguments pg_create_copy {W DS Mem Png}. Arguments pg_vsi_bytes {W DS Mem Png}.

Definition png_step {A} (what : string) (r : result string A) : result ExecError A :=
  map_err (λ e, ExecBackend ("png: " +:+ what +:+ ": " +:+ e)) r.

Definition raster_to_png_bytes {W DS Mem Png} (io : PngGdal W DS Mem Png) (tiff_path : string) (w : W)
    : result ExecError (list Z) :=
  src ← png_step ("open " +:+ tiff_path) (pg_open io tiff_path w);
  size ← png_step "band 1" (pg_band io src);
  pixels ← png_step "read" (pg_read io src size);
  let levels := u8_pixels pixels in
  _ ← png_step "MEM driver" (pg_mem_driver io);
  mem ← png_step "mem create" (pg_mem_create io size);
  _ ← png_step "mem band" (pg_mem_band io mem);
  mem ← png_step "mem write" (pg_mem_write io mem size levels);
  _ ← png_step "PNG driver" (pg_png_driver io);
  copy ← png_step "create_copy" (pg_create_copy io mem);
  png_step "read vsimem" (pg_vsi_bytes io copy).

(** ** The masked index worker *)

Definition scl_is_clear_sky (scl : Z) : bool :=
  match scl_to_mask_value (from_u8 scl) with Clear | Water | Mask.Snow => true | _ => false end.
Definition landsat_qa_is_clear_sky (qa : Z) : bool :=
  match qa_to_mask_value (from_u16 qa) with Clear => true | _ => false end.

(** The index of one observation, when it counts. *)
Definition observed_ndvi (rv nv : i16) (scl : u8) : option f32 :=
  if negb (scl_is_clear_sky (u8_val scl)) then None
  else
    let r_f := f32_of_Z (i16_val rv) in
    let n_f := f32_of_Z (i16_val nv) in
    let denom := f32_add r_f n_f in
    if f64_ltb f32_one (f64_abs denom) && (0 <? i16_val rv) && (0 <? i16_val nv)
    then Some (f32_div (f32_sub n_f r_f) denom) else None.

(** The two running arrays, over the times. *)
Definition accumulate (at_ : Z → Z → Z → option f32) (acc : (Z → Z → f32) * (Z → Z → Z)) (t : Z)
    : (Z → Z → f32) * (Z → Z → Z) :=
  (λ row col, match at_ t row col with Some x => f32_add (acc.1 row col) x | None => acc.1 row col end,
   λ row col, match at_ t row col with Some _ => wrap 32 (acc.2 row col + 1) | None => acc.2 row col end).

(** Slicing panics where the block has fewer than two layers, or the mask lacks a time or
    its layer; indexing the mask beyond its rows or columns panics. *)
Definition ndvi_masked_worker (rdb : DataBlock i16) (mask : DataBlock u8) (_ : Dimension) : option (Array3 f32) :=
  let s := db_shape rdb in
  let m := db_shape mask in
  if (0 <? rs_times s) && negb ((2 <=? rs_layers s) && (rs_times s <=? rs_times m) && (1 <=? rs_layers m)) then None
  else if (0 <? rs_times s) && (0 <? rs_rows s) && (0 <? rs_cols s) &&
          negb ((rs_rows s <=? rs_rows m) && (rs_cols s <=? rs_cols m)) then None
  else
    let at_ t row col := observed_ndvi (db_at rdb t 0 row col) (db_at rdb t 1 row col) (db_at mask t 0 row col) in
    let '(sum, count) := foldl (accumulate at_) (λ _ _, f32_zero, λ _ _, 0) (seqZ 0 (rs_times s)) in
    Some (mkArray3 1 (rs_rows s) (rs_cols s) (λ _ row col,
      if 0 <? count row col then f32_div (sum row col) (f32_of_Z (count row col)) else SENTINEL_NDVI_NA)).

(** ** Facts *)

Lemma hex_upper_digit d : 0 ≤ d < 16 → hex_digit (hex_upper d) = Some d.
Proof.
  intros Hd. assert (d ∈ seqZ 0 16) as Hin by (apply elem_of_seqZ; lia).
  revert d Hin Hd. apply (Forall_forall (λ d, 0 ≤ d < 16 → hex_digit (hex_upper d) = Some d)).
  vm_compute seqZ. repeat (constructor; [reflexivity|]). constructor.
Qed.

Lemma decode_escape h l hi lo s : hex_digit h = Some hi → hex_digit l = Some lo →
  decode_loop (String "%" (String h (String l s))) = String (ascii_of (Z.lor (Z.shiftl hi 4) lo)) (decode_loop s).
Proof. intros Hh Hl. simpl. by rewrite Hh, Hl. Qed.

Lemma decode_plain b s : b ≠ "%"%char → decode_loop (String b s) = String b (decode_loop s).
Proof.
  intros Hb. destruct s as [|h [|l s]]; [done..|]. cbn [decode_loop].
  by rewrite (proj2 (Ascii.eqb_neq b percent) Hb).
Qed.

(** A value in a query is what was put there: decoding gives it back, and the encoding has
    no character that ends it. *)
Lemma url_encode_decode s : decode_loop (url_encode s) = s ∧
  str_all (λ c, unreserved c || bool_decide (c = "%"%char)) (url_encode s) = true.
Proof.
  induction s as [|b s [IH Ha]]; [done|]. cbn [url_encode]. destruct (unreserved b) eqn:E.
  - split; [|cbn [str_all]; by rewrite E, Ha]. rewrite decode_plain, IH; [done|]. by intros ->.
  - pose proof (byte_of_range b) as Hb. pose proof (Z.div_mod (byte_of b) 16 ltac:(lia)) as Hdm.
    assert (0 ≤ byte_of b / 16 < 16 ∧ 0 ≤ byte_of b mod 16 < 16) as Hd.
    { split; [|by apply Z.mod_pos_bound]. split; [apply Z.div_pos; lia|apply Z.div_lt_upper_bound; lia]. }
    split.
    + destruct Hd as [Hq Hr]. rewrite (decode_escape _ _ _ _ _ (hex_upper_digit _ Hq) (hex_upper_digit _ Hr)).
      rewrite IH. f_equal. rewrite <- (ascii_of_byte_of b) at 3. f_equal. rewrite Z.shiftl_mul_pow2 by lia.
      rewrite (lor_add 4); [|lia|by apply Z.mod_mul|done]. change (2 ^ 4) with 16. rewrite Hdm at 3. lia.
    + cbn [str_all]. rewrite Ha, andb_true_r.
      assert (∀ d, 0 ≤ d < 16 → unreserved (hex_upper d) = true) as Hu.
      { intros d Hd0. assert (d ∈ seqZ 0 16) as Hin by (apply elem_of_seqZ; lia). clear Hd0. revert d Hin.
        apply (Forall_forall (λ d, unreserved (hex_upper d) = true)). apply (bool_decide_unpack _). by vm_compute. }
      rewrite !Hu by apply Hd. by rewrite bool_decide_true, orb_true_r by done.
Qed.

(** What [drop] removes.  An executor built by [new] and any of the setters owns its
    scratch directory until [with_scratch_dir] gives it another. *)
(** The last component of a path joined with a name is the name. *)
Lemma file_name_join dir name : has_char "/" name = false → name ≠ "" → name ≠ "." → name ≠ ".." →
  file_name (join_path dir name) = Some name.
Proof.
  intros Hs H1 H2 H3.
  assert (∃ dirs, split "/" (join_path dir name) = dirs ++ [name]) as [dirs E].
  { unfold join_path. assert (starts_with "/" name = false) as ->.
    { apply not_true_iff_false. intros (t & ->)%starts_with_spec. done. }
    destruct (bool_decide (dir = "")) eqn:Et; simpl.
    - apply bool_decide_eq_true in Et as ->. exists []. by apply split_none.
    - destruct (ends_with "/" dir) eqn:Ee.
      + assert (∃ a, dir = a +:+ "/") as [a ->].
        { clear -Ee. revert Ee. induction dir as [|c r IH]; [done|]. simpl.
          case_bool_decide as E; [intros _; exists ""; by rewrite E|].
          intros [a ->]%IH. by exists (String c a). }
        exists (split "/" a). rewrite str_app_assoc. change ("/" +:+ name) with (String "/" name).
        rewrite split_app. by rewrite (split_none _ _ Hs).
      + exists (split "/" dir). change ("/" +:+ name) with (String "/" name). rewrite split_app.
        by rewrite (split_none _ _ Hs). }
  unfold file_name. rewrite E, filter_app, rev_app_distr.
  rewrite filter_cons_True by (by intros [?|?]). simpl. by rewrite bool_decide_eq_false_2.
Qed.

Section scratch.
Context {W : Type} (defaults : ProcessRegistry W) (temp_dir : string) (nanos : Z).

Definition own_scratch : string := join_path temp_dir (SCRATCH_PREFIX +:+ pretty nanos).

Inductive built (d0 : gset string) : GeoExecutor W * gset string → Prop :=
| built_new : built d0 (GeoExecutor_new defaults temp_dir nanos d0)
| built_dir dir gd : built d0 gd → built d0 (with_scratch_dir dir gd)
| built_set g g' d : built d0 (g, d) → ge_scratch_dir g' = ge_scratch_dir g → ge_owns_scratch g' = ge_owns_scratch g →
    built d0 (g', d).

Lemma own_scratch_name : 0 ≤ nanos → file_name own_scratch = Some (SCRATCH_PREFIX +:+ pretty nanos).
Proof.
  intros Hn. apply file_name_join; [|done..].
  rewrite has_char_app, pretty_Z_no_char by done. done.
Qed.

Theorem drop_removes_own_scratch d0 g d : 0 ≤ nanos → built d0 (g, d) →
  drop_executor g d = if ge_owns_scratch g then remove_dir_all own_scratch d else d.
Proof.
  intros Hn Hb. unfold drop_executor. destruct (ge_owns_scratch g) eqn:Eo; simpl; [|done].
  assert (ge_scratch_dir g = own_scratch) as ->.
  { remember (g, d) as gd eqn:Egd. revert g d Egd Eo.
    induction Hb as [|dir [g1 d1] Hb IH|g1 g' d1 Hb IH Hs Ho]; intros g d [= <- <-]; simpl; [done|done|].
    intros Eo. rewrite Hs. apply (IH g1 d1); [done|congruence]. }
  rewrite own_scratch_name by done.
  rewrite bool_decide_false; [done|]. intros E. pose proof (own_scratch_name Hn) as Hf. by rewrite E in Hf.
Qed.
End scratch.


(** The image: one level in range per pixel, none for a pixel without data. *)
Lemma u8_pixels_range pixels :
  length (u8_pixels pixels) = length pixels ∧ Forall (in_u 8) (u8_pixels pixels) ∧
  ∀ i p, pixels !! i = Some p → is_nodata p = true → u8_pixels pixels !! i = Some 0.
Proof.
  unfold u8_pixels. destruct (extremes pixels) as [mn mx]. cbv zeta. split; [by rewrite length_fmap|].
  split.
  - apply Forall_fmap, Forall_forall. intros p _. unfold compose, grey_level. destruct (is_nodata p); [done|].
    unfold f32_to_u8, in_u. assert (∀ x, 0 ≤ f64_to_u64 x) as H.
    { intros x. unfold f64_to_u64. repeat case_match; lia. }
    match goal with |- context [f64_to_u64 ?x] => specialize (H x) end. lia.
  - intros i p Hi Hp. rewrite list_lookup_fmap, Hi. simpl. unfold grey_level. by rewrite Hp.
Qed.

Lemma accumulate_fold at_ ts sum count row col :
  let acc := foldl (accumulate at_) (sum, count) ts in
  let l := omap (λ t, at_ t row col) ts in
  acc.1 row col = foldl f32_add (sum row col) l ∧
  acc.2 row col = foldl (λ n _, wrap 32 (n + 1)) (count row col) l.
Proof.
  cbv zeta. revert sum count. induction ts as [|t ts IH]; intros sum count; [done|].
  cbn [foldl]. destruct (accumulate at_ (sum, count) t) as [sum' count'] eqn:E.
  destruct (IH sum' count') as [-> ->]. unfold accumulate in E. simplify_eq/=. by destruct (at_ t row col).
Qed.

Lemma count_wrap {A} (l : list A) n : 0 ≤ n → n + Z.of_nat (length l) < 2 ^ 32 →
  foldl (λ n _, wrap 32 (n + 1)) n l = n + Z.of_nat (length l).
Proof.
  revert n. induction l as [|x l IH]; intros n Hn Hl; simpl in *; [lia|].
  unfold wrap at 2. rewrite Z.mod_small by lia. rewrite IH; lia.
Qed.

(** Every pixel of the masked worker is the mean of the index over the times where it is
    clear and both values are positive, or the sentinel. *)
Theorem ndvi_masked_pixels rdb mask dim a row col :
  ndvi_masked_worker rdb mask dim = Some a → 0 ≤ rs_times (db_shape rdb) < 2 ^ 32 →
  let seen := omap (λ t, observed_ndvi (db_at rdb t 0 row col) (db_at rdb t 1 row col) (db_at mask t 0 row col))
                (seqZ 0 (rs_times (db_shape rdb))) in
  a_at a 0 row col =
    match seen with
    | [] => SENTINEL_NDVI_NA
    | _ => f32_div (foldl f32_add f32_zero seen) (f32_of_Z (Z.of_nat (length seen)))
    end.
Proof.
  intros Ha Ht seen. unfold ndvi_masked_worker in Ha. cbv zeta in Ha.
  destruct (_ && negb _); [done|]. destruct (_ && negb _); [done|].
  set (at_ := λ t row col, observed_ndvi (db_at rdb t 0 row col) (db_at rdb t 1 row col) (db_at mask t 0 row col)) in Ha.
  pose proof (accumulate_fold at_ (seqZ 0 (rs_times (db_shape rdb))) (λ _ _, f32_zero) (λ _ _, 0) row col) as [Hs Hc].
  destruct (foldl _ _ _) as [sum count]. injection Ha as <-. simpl in *.
  change (omap _ _) with seen in Hs, Hc.
  assert (Z.of_nat (length seen) < 2 ^ 32) as Hlen.
  { assert (∀ (f : Z → option f32) l, length (omap f l) ≤ length l)%nat as H.
    { intros f l. induction l as [|x l IH]; csimpl; [done|]. destruct (f x); csimpl; lia. }
    pose proof (H (λ t, at_ t row col) (seqZ 0 (rs_times (db_shape rdb)))) as Hle. rewrite length_seqZ in Hle.
    change (omap _ _) with seen in Hle. lia. }
  rewrite (count_wrap seen 0) in Hc by lia. rewrite Hs, Hc. destruct seen as [|x l]; [done|].
  rewrite (proj2 (Z.ltb_lt _ _)) by (simpl; lia). by rewrite Z.add_0_l.
Qed.

(** ** Runs *)

Module Demo.
(** A directory the operator names is kept; the one made before it is left behind. *)
Example scratch_left_behind :
  let gd := with_scratch_dir "/data/keep" (GeoExecutor_new (ProcessRegistry_new (W := ())) "/tmp" 7 ∅) in
  drop_executor gd.1 gd.2 = gd.2 ∧ "/tmp/orbit-geoexec-7" ∈ gd.2 ∧ "/data/keep" ∈ gd.2.
Proof. split; [reflexivity|]. split; apply (bool_decide_unpack _); vm_compute; exact I. Qed.

Example drop_cleans :
  let gd := GeoExecutor_new (ProcessRegistry_new (W := ())) "/tmp" 7 {["/tmp/orbit-geoexec-7x"; "/tmp/orbit-geoexec-7/a"]} in
  drop_executor gd.1 gd.2 = {["/tmp/orbit-geoexec-7x"; "/tmp"]}.
Proof. apply (bool_decide_unpack _). vm_compute. exact I. Qed.

(** The smallest value is black, as a pixel without data is; the largest is white. *)
Example grey_levels :
  u8_pixels (f32_of_Z <$> [-9999; 10; 20; 30; -32768]) = [0; 0; 128; 255; 0].
Proof. vm_compute. reflexivity. Qed.

Example bearer_in_query :
  sign_with (BearerSigner "a/b") "https://h/x.tif?v=1" = Ok "https://h/x.tif?v=1&header.Authorization=Bearer%20a%2Fb".
Proof. vm_compute. reflexivity. Qed.

(** Snow counts as clear sky. *)
Example snow_is_clear : scl_is_clear_sky 11 = true.
Proof. reflexivity. Qed.
End Demo.
