(* ===== verification/GeoCache.v ===== *)
(** * The file cache of the executors, under concurrent callers

    crates/orbit-geo/src/cache.rs, the cache a [GeoExecutor] is given.  Its index
    is behind a read-write lock, its counters and access times are atomics, and
    an insertion is four separate actions: copy the file, read its size, record
    the entry under the lock, evict under the lock.  Here callers are tasks of
    such actions, and a schedule says which task acts next.  The code of the
    index is that of crates/orbit-cache, so the data and the eviction loop are
    those of Cache. *)

From S2P Require Import Prelude Cache.
Local Open Scope Z_scope.

(** ** The actions *)

(** The counters and the index, with the files. *)
Record CacheWorld := mkCacheWorld { cw_cache : FileCache; cw_fs : FileSystem }.

(** [FileCache::open] over the listing of its directory. *)
Definition geo_open (root : string) (max_bytes : Z) (listing : list (option string * bool * FileMeta))
    (fs : FileSystem) : CacheWorld :=
  mkCacheWorld (FileCache_open root max_bytes listing) fs.

Inductive Call := CallGet (url : string) | CallInsert (url src : string) | CallClear.

(** Where a call is; an insertion knows the size it has read. *)
Inductive Point :=
| Starting | Copied | Measured (len : Z) | Recorded (len : Z) | Finished (r : result IoError (option string)).
Definition Task : Type := Call * Point.

Section actions.
Context `{DiskFaults} (sha256 : string → list Z) (iter_order : CacheIndex → list (string * CacheEntry)).

Definition geo_key (url : string) : string := key_for sha256 url.
Definition cached_path (w : CacheWorld) (url : string) : string :=
  path_join (fc_root (cw_cache w)) (geo_key url).

(** [get], under the read lock. *)
Definition geo_get (now : Z) (url : string) (w : CacheWorld) : option string * CacheWorld :=
  let '(r, c) := get sha256 now (cw_cache w) url in (r, mkCacheWorld c (cw_fs w)).

(** The four actions of [insert]. *)
Definition insert_copy (now : Z) (url src : string) (w : CacheWorld) : Point * CacheWorld :=
  match fs_copy now src (cached_path w url) (cw_fs w) with
  | (Err e, fs) => (Finished (Err e), mkCacheWorld (cw_cache w) fs)
  | (Ok _, fs) => (Copied, mkCacheWorld (cw_cache w) fs)
  end.
Definition insert_measure (url : string) (w : CacheWorld) : Point * CacheWorld :=
  match fs_metadata (cached_path w url) (cw_fs w) with
  | Ok meta => (Measured (fm_len meta), w)
  | Err e => (Finished (Err e), w)
  end.
Definition insert_record (now : Z) (url : string) (len : Z) (w : CacheWorld) : Point * CacheWorld :=
  let c := cw_cache w in
  (Recorded len,
   mkCacheWorld (mkFileCache (fc_root c) (fc_max_bytes c)
     (<[geo_key url := mkCacheEntry (cached_path w url) len now]> (fc_index c)) (fc_hits c) (fc_misses c))
     (cw_fs w)).

(** [evict_if_needed]; the loop has fuel for every entry. *)
Definition geo_evict (w : CacheWorld) : CacheWorld :=
  match evict_if_needed iter_order (cw_cache w) (cw_fs w) with
  | Some (c, fs) => mkCacheWorld c fs
  | None => w
  end.

Definition geo_clear (w : CacheWorld) : CacheWorld :=
  let '(c, fs) := clear (cw_cache w) (cw_fs w) in mkCacheWorld c fs.

Definition geo_stats (w : CacheWorld) : CacheSnapshot := snapshot (cw_cache w).

(** One action of a task. *)
Definition act (now : Z) (t : Task) (w : CacheWorld) : Task * CacheWorld :=
  let '(call, p) := t in
  match call, p with
  | CallGet url, Starting => let '(r, w) := geo_get now url w in ((call, Finished (Ok r)), w)
  | CallClear, Starting => ((call, Finished (Ok None)), geo_clear w)
  | CallInsert url src, Starting => let '(p, w) := insert_copy now url src w in ((call, p), w)
  | CallInsert url _, Copied => let '(p, w) := insert_measure url w in ((call, p), w)
  | CallInsert url _, Measured len => let '(p, w) := insert_record now url len w in ((call, p), w)
  | CallInsert url _, Recorded _ =>
      let p := Finished (Ok (Some (cached_path w url))) in ((call, p), geo_evict w)
  | _, _ => (t, w)
  end.

(** A schedule names, at each step, the task that acts and the clock. *)
Fixpoint run (sched : list (nat * Z)) (tasks : list Task) (w : CacheWorld) : list Task * CacheWorld :=
  match sched with
  | [] => (tasks, w)
  | (i, now) :: sched =>
      match tasks !! i with
      | None => run sched tasks w
      | Some t => let '(t, w) := act now t w in run sched (<[i := t]> tasks) w
      end
  end.
End actions.

(** ** The invariant *)

(** The bytes of a task's entry that are recorded and not yet evicted for. *)
Definition pending (t : Task) : Z := match t.2 with Recorded len => len | _ => 0 end.
Definition total_pending (tasks : list Task) : Z := foldr (λ t acc, pending t + acc) 0 tasks.

(** Sizes lie below [L], and the path a call answers is the one of its link. *)
Definition sane_point (sha256 : string → list Z) (root : string) (L : Z) (t : Task) : Prop :=
  match t with
  | (_, Measured len) | (_, Recorded len) => 0 ≤ len ≤ L
  | (CallGet url, Finished (Ok (Some p))) | (CallInsert url _, Finished (Ok (Some p))) =>
      p = path_join root (geo_key sha256 url)
  | _ => True
  end.

Record bounded (sha256 : string → list Z) (root : string) (max L : Z) (tasks : list Task)
    (w : CacheWorld) : Prop := {
  b_root : fc_root (cw_cache w) = root;
  b_max : fc_max_bytes (cw_cache w) = max;
  b_paths : ∀ k e, fc_index (cw_cache w) !! k = Some e → ce_path e = path_join root k;
  b_sizes : ∀ k e, fc_index (cw_cache w) !! k = Some e → 0 ≤ ce_size_bytes e;
  b_files : ∀ p m, cw_fs w !! p = Some m → 0 ≤ fm_len m ≤ L;
  b_points : Forall (sane_point sha256 root L) tasks;
  b_total : total_bytes (fc_index (cw_cache w)) ≤ max + total_pending tasks }.

Lemma total_pending_insert i t t' tasks : tasks !! i = Some t →
  total_pending (<[i := t']> tasks) = total_pending tasks - pending t + pending t'.
Proof.
  revert i. induction tasks as [|t0 tasks IH]; intros [|i] Hi; try done; simpl.
  - injection Hi as ->. lia.
  - rewrite (IH i Hi). lia.
Qed.

Lemma pending_bound sha256 root L t : 0 ≤ L → sane_point sha256 root L t → 0 ≤ pending t ≤ L.
Proof. intros HL Ht. destruct t as [[] []]; unfold pending, sane_point in *; simpl in *; lia. Qed.

Lemma total_pending_bound sha256 root L tasks : 0 ≤ L → Forall (sane_point sha256 root L) tasks →
  0 ≤ total_pending tasks ≤ Z.of_nat (length tasks) * L.
Proof.
  intros HL. induction 1 as [|t tasks Ht _ IH]; simpl; [lia|].
  pose proof (pending_bound sha256 root L t HL Ht). lia.
Qed.

(** Recording an entry adds at most its size. *)
Lemma total_bytes_record k e (index : CacheIndex) : (∀ k e, index !! k = Some e → 0 ≤ ce_size_bytes e) →
  total_bytes (<[k := e]> index) ≤ ce_size_bytes e + total_bytes index.
Proof.
  intros Hpos. rewrite <- insert_delete_eq, total_bytes_insert by apply lookup_delete_eq.
  destruct (index !! k) as [e'|] eqn:He; [|rewrite delete_id by done; lia].
  rewrite (total_bytes_delete k e' index) by done. specialize (Hpos _ _ He). lia.
Qed.

(** Touching an entry keeps the sizes. *)
Lemma total_bytes_touch k e e' (index : CacheIndex) : index !! k = Some e →
  ce_size_bytes e' = ce_size_bytes e → total_bytes (<[k := e']> index) = total_bytes index.
Proof.
  intros He Hs. rewrite <- insert_delete_eq, total_bytes_insert by apply lookup_delete_eq.
  rewrite (total_bytes_delete k e index) by done. lia.
Qed.

Section step.
Context `{DiskFaults} (sha256 : string → list Z) (iter_order : CacheIndex → list (string * CacheEntry)).
Context (root : string) (max L : Z).
Hypothesis Hiter : iter_order_ok iter_order.
Hypothesis Hmax : 0 < max.
Hypothesis HL : 0 ≤ L.

(** A copy leaves no file longer than its source. *)
Lemma copy_bounded now src dst fs r fs' : fs_copy now src dst fs = (r, fs') →
  (∀ p m, fs !! p = Some m → 0 ≤ fm_len m ≤ L) → ∀ p m, fs' !! p = Some m → 0 ≤ fm_len m ≤ L.
Proof using HL.
  unfold fs_copy. intros Hc Hfiles p m Hp. destruct (fs !! src) as [ms|] eqn:Hs;
    [|injection Hc as <- <-; by eapply Hfiles].
  assert (0 ≤ (if decide (src = dst) then 0 else fm_len ms) ≤ L) as Hlen
    by (case_decide; [lia|by eapply Hfiles]).
  destruct (copy_fault _ _ _ _) as [[n|]|]; injection Hc as <- <-; [|by eapply Hfiles|];
    (apply lookup_insert_Some in Hp as [[_ <-]|[_ Hp]]; [simpl; lia|by eapply Hfiles]).
Qed.

Lemma evict_step tasks w : bounded sha256 root max L tasks w → max + Z.of_nat (length tasks) * L < 2 ^ 64 →
  let w' := geo_evict iter_order w in
  fc_root (cw_cache w') = root ∧ fc_max_bytes (cw_cache w') = max ∧
  fc_index (cw_cache w') ⊆ fc_index (cw_cache w) ∧ total_bytes (fc_index (cw_cache w')) ≤ max ∧
  ∀ p m, cw_fs w' !! p = Some m → cw_fs w !! p = Some m.
Proof using Hiter Hmax HL.
  intros [Hroot Hm Hpaths Hsizes Hfiles Hpts Htot] Hfit.
  pose proof (total_pending_bound sha256 root L tasks HL Hpts) as Hp.
  assert (sizes_ok (fc_index (cw_cache w))) as Hok by (split; [done|lia]).
  unfold geo_evict, evict_if_needed. rewrite Hm. destruct (Z.eqb_spec max 0); [lia|].
  destruct (evict_loop_spec iter_order Hiter (S (size (fc_index (cw_cache w)))) max
    (fc_index (cw_cache w)) (cw_fs w)) as (ix & fs' & -> & Hsub & _ & Hle & _ & _ & _ & Hfs); [lia|done|lia|].
  simpl. split_and!; try done. intros p m Hpm.
  destruct (Hfs p) as [E|[E _]]; congruence.
Qed.

Lemma act_bounded i now t tasks w t' w' : bounded sha256 root max L tasks w → tasks !! i = Some t →
  max + Z.of_nat (length tasks) * L < 2 ^ 64 →
  act sha256 iter_order now t w = (t', w') → bounded sha256 root max L (<[i := t']> tasks) w'.
Proof using Hiter Hmax HL.
  intros Hb Hi Hfit Ha.
  assert (sane_point sha256 root L t) as Ht by (destruct Hb; by eapply Forall_lookup_1).
  assert (∀ (t' : Task), sane_point sha256 root L t' → Forall (sane_point sha256 root L) (<[i:=t']> tasks)) as Hpts'
    by (intros; apply Forall_insert; [by destruct Hb|done]).
  destruct t as [call p]. unfold act in Ha.
  destruct call as [url|url src|]; destruct p as [| |len|len|r];
    try (injection Ha as <- <-; by rewrite list_insert_id).
  - (* get *)
    unfold geo_get, get in Ha. destruct Hb as [Hroot Hm Hpaths Hsizes Hfiles Hpts Htot].
    destruct (fc_index (cw_cache w) !! key_for sha256 url) as [e|] eqn:He; injection Ha as <- <-.
    + split; simpl; [done..| | |done|apply Hpts'; by eapply Hpaths|].
      * intros k e' [[<- <-]|[_ Hk]]%lookup_insert_Some; simpl; by eapply Hpaths.
      * intros k e' [[<- <-]|[_ Hk]]%lookup_insert_Some; simpl; by eapply Hsizes.
      * rewrite (total_bytes_touch _ e), (total_pending_insert i _ _ _ Hi) by done. unfold pending. simpl. lia.
    + split; simpl; try done; [by apply Hpts'|]. rewrite (total_pending_insert i _ _ _ Hi). unfold pending. simpl. lia.
  - (* copy *)
    unfold insert_copy in Ha. destruct Hb as [Hroot Hm Hpaths Hsizes Hfiles Hpts Htot].
    assert (∀ r fs, fs_copy now src (cached_path sha256 w url) (cw_fs w) = (r, fs) →
      ∀ p m, fs !! p = Some m → 0 ≤ fm_len m ≤ L) as Hcopy by (intros r fs Hc; exact (copy_bounded _ _ _ _ _ _ Hc Hfiles)).
    destruct (fs_copy _ _ _ _) as [[[]|e] fs] eqn:Hc; injection Ha as <- <-;
      (split; simpl; try done; [by eapply Hcopy|by apply Hpts'|]);
      rewrite (total_pending_insert i _ _ _ Hi); unfold pending; simpl; lia.
  - (* measure *)
    unfold insert_measure in Ha. destruct Hb as [Hroot Hm Hpaths Hsizes Hfiles Hpts Htot].
    unfold fs_metadata in Ha.
    destruct (stat_fails _ _); [|destruct (cw_fs w !! cached_path sha256 w url) as [m|] eqn:Hp];
      cbn [ok_or] in Ha; injection Ha as <- <-;
      (split; try done; [apply Hpts'; try done; by eapply Hfiles|]);
      rewrite (total_pending_insert i _ _ _ Hi); unfold pending; simpl; lia.
  - (* record *)
    unfold insert_record in Ha. destruct Hb as [Hroot Hm Hpaths Hsizes Hfiles Hpts Htot].
    injection Ha as <- <-. unfold sane_point in Ht. simpl in Ht. split; simpl; try done.
    + intros k e [[<- <-]|[_ Hk]]%lookup_insert_Some; simpl; [|by eapply Hpaths].
      unfold cached_path, geo_key. by rewrite Hroot.
    + intros k e [[<- <-]|[_ Hk]]%lookup_insert_Some; simpl; [lia|by eapply Hsizes].
    + by apply Hpts'.
    + rewrite (total_pending_insert i _ _ _ Hi). unfold pending. simpl.
      pose proof (total_bytes_record (geo_key sha256 url)
        (mkCacheEntry (cached_path sha256 w url) len now) (fc_index (cw_cache w)) Hsizes) as Hle.
      simpl in Hle. lia.
  - (* evict *)
    injection Ha as <- <-. destruct (evict_step tasks w Hb Hfit) as (Hroot' & Hm' & Hsub & Hle & Hfs').
    destruct Hb as [Hroot Hm Hpaths Hsizes Hfiles Hpts Htot]. split; try done.
    + intros k e Hk. by eapply Hpaths, lookup_weaken.
    + intros k e Hk. by eapply Hsizes, lookup_weaken.
    + intros p m Hp%Hfs'. by eapply Hfiles.
    + apply Hpts'. simpl. unfold cached_path. by rewrite Hroot.
    + apply (Z.le_trans _ (max + 0)); [lia|]. apply Z.add_le_mono_l.
      apply (total_pending_bound sha256 root L _ HL), Hpts'. simpl. unfold cached_path. by rewrite Hroot.
  - (* clear *)
    unfold geo_clear, clear in Ha. injection Ha as <- <-.
    destruct Hb as [Hroot Hm Hpaths Hsizes Hfiles Hpts Htot].
    split; simpl; try done; [|by apply Hpts'|].
    2: { rewrite total_bytes_empty. apply Z.add_nonneg_nonneg; [lia|].
         by apply (total_pending_bound sha256 root L _ HL), Hpts'. }
    intros p m Hp. eapply (Hfiles p). revert Hp. generalize (map_to_list (fc_index (cw_cache w))).
    intros l. induction l as [|e l IH]; simpl; [done|]. intros Hp. apply IH.
    destruct (fs_remove_lookup (ce_path e.2) p (foldr (λ e fs, fs_remove (ce_path e.2) fs) (cw_fs w) l))
      as [E|[_ E]]; congruence.
Qed.
End step.

Lemma run_bounded `{DiskFaults} sha256 iter_order root max L sched : iter_order_ok iter_order → 0 < max → 0 ≤ L →
  ∀ tasks w, max + Z.of_nat (length tasks) * L < 2 ^ 64 → bounded sha256 root max L tasks w →
  let '(tasks', w') := run sha256 iter_order sched tasks w in
  bounded sha256 root max L tasks' w' ∧ length tasks' = length tasks.
Proof.
  intros Hiter Hmax HL. induction sched as [|[i now] sched IH]; intros tasks w Hfit Hb; simpl; [done|].
  destruct (tasks !! i) as [t|] eqn:Hi; [|by apply IH].
  destruct (act sha256 iter_order now t w) as [t' w'] eqn:Ha.
  pose proof (act_bounded sha256 iter_order root max L Hiter Hmax HL i now t tasks w t' w' Hb Hi Hfit Ha) as Hb'.
  specialize (IH (<[i:=t']> tasks) w'). rewrite length_insert in IH. by apply IH.
Qed.

(** Eviction never prefers a recently used entry, whatever the other tasks do. *)
Definition keeps_recent (before after : CacheIndex) : Prop :=
  after ⊆ before ∧ ∀ k e k' e', before !! k = Some e → after !! k = None → after !! k' = Some e' →
    ce_last_access e ≤ ce_last_access e'.

Definition recording (t : Task) : bool := match t.2 with Recorded _ => true | _ => false end.
Definition ended (t : Task) : bool := match t.2 with Finished _ => true | _ => false end.

(** C37: Whatever the order in which the actions of concurrent lookups, insertions
    and clears on one cache fall, and whichever of their copies, size readings and
    removals fail, the recorded bytes never exceed the cap by more
    than the entries recorded by insertions that have not evicted yet, hence
    not by more than one file per insertion under way, and not at all once the
    calls have ended.  Every entry lies at the path of its key, every call
    that answers a path answers the one of its link, and an eviction drops no
    entry used more recently than one it keeps. *)
Theorem concurrent_cache_bounded `{DiskFaults} sha256 iter_order root max L calls sched w tasks' w' :
  iter_order_ok iter_order → 0 < max → 0 ≤ L → max + Z.of_nat (length calls) * L < 2 ^ 64 →
  cache_wf (cw_cache w) → fc_root (cw_cache w) = root → fc_max_bytes (cw_cache w) = max →
  total_bytes (fc_index (cw_cache w)) ≤ max →
  (∀ p m, cw_fs w !! p = Some m → 0 ≤ fm_len m ≤ L) →
  run sha256 iter_order sched ((λ c, (c, Starting)) <$> calls) w = (tasks', w') →
  let index' := fc_index (cw_cache w') in
  total_bytes index' ≤ max + total_pending tasks' ∧
  total_pending tasks' ≤ Z.of_nat (length (filter (λ t, recording t = true) tasks')) * L ∧
  (Forall (λ t, ended t = true) tasks' → total_bytes index' ≤ max) ∧
  (∀ k e, index' !! k = Some e → ce_path e = path_join root k) ∧
  (∀ url src p, (CallGet url, Finished (Ok (Some p))) ∈ tasks' ∨
     (CallInsert url src, Finished (Ok (Some p))) ∈ tasks' → p = path_join root (geo_key sha256 url)) ∧
  keeps_recent index' (fc_index (cw_cache (geo_evict iter_order w'))).
Proof.
  intros Hiter Hmax HL Hfit (Hpaths & Hsizes & _) Hroot Hm Htot Hfiles Hr index'.
  assert (total_pending ((λ c, (c, Starting)) <$> calls) = 0) as Hp0
    by (clear; induction calls as [|c calls IH]; [done|]; exact IH).
  assert (bounded sha256 root max L ((λ c, (c, Starting)) <$> calls) w) as Hb.
  { split; try done; [by rewrite <- Hroot|by apply Hsizes| |lia].
    apply Forall_fmap, Forall_true. by intros []. }
  pose proof (run_bounded sha256 iter_order root max L sched Hiter Hmax HL
    ((λ c, (c, Starting)) <$> calls) w) as Hrun.
  rewrite length_fmap, Hr in Hrun. destruct (Hrun Hfit Hb) as [Hb' Hlen]. clear Hrun Hb Hp0 Hpaths Hsizes Htot Hfiles.
  assert (sizes_ok index') as Hok.
  { destruct Hb' as [_ _ _ Hsz _ Hpts Htot]. split; [done|].
    pose proof (total_pending_bound sha256 root L _ HL Hpts). rewrite Hlen in *. unfold index'. lia. }
  destruct Hb' as [Hroot' Hm' Hpaths Hsizes Hfiles Hpts Htot]. split_and!; [done| | |done| |].
  - clear -Hpts HL. induction Hpts as [|t tasks Ht _ IH]; [simpl; lia|].
    pose proof (pending_bound sha256 root L t HL Ht) as Hpt. cbn [total_pending foldr].
    fold (total_pending tasks). rewrite filter_cons. case_decide as Hd; [simpl; lia|].
    assert (pending t = 0) as ->; [|lia]. by destruct t as [c []].
  - intros Hall. assert (total_pending tasks' = 0) as E; [|unfold index'; lia]. clear -Hall.
    induction Hall as [|[c p] tasks Hp _ IH]; simpl in *; [done|]. rewrite IH. by destruct p.
  - intros url src p [Hin|Hin]; rewrite Forall_forall in Hpts; by apply Hpts in Hin.
  - unfold geo_evict, evict_if_needed. rewrite Hm'. destruct (Z.eqb_spec max 0); [lia|].
    destruct (evict_loop_spec iter_order Hiter (S (size index')) max index' (cw_fs w'))
      as (ix & fs' & He & Hsub & _ & _ & _ & Hord & _); [lia|done|lia|].
    fold index'. rewrite He. by split.
Qed.

(** ** Witnesses and examples *)

Module Demo.
#[local] Existing Instance no_faults.

Definition demo_sha (url : string) : list Z := [Z.of_nat (String.length url)].
Definition demo_world (max : Z) : CacheWorld :=
  mkCacheWorld (mkFileCache "/c" max ∅ 0 0)
    {["/a" := mkFileMeta 40 None; "/b" := mkFileMeta 70 None]}.
Definition demo_calls : list Call := [CallInsert "u" "/a"; CallInsert "vv" "/b"; CallGet "u"].
(** Both insertions record before either evicts. *)
Definition demo_sched : list (nat * Z) :=
  [(0%nat, 1); (0%nat, 1); (1%nat, 2); (1%nat, 2); (0%nat, 3); (1%nat, 4); (2%nat, 5); (0%nat, 6); (1%nat, 7)].
Definition demo_run := run demo_sha map_to_list demo_sched ((λ c, (c, Starting)) <$> demo_calls) (demo_world 100).

Lemma concurrent_cache_bounded_witness :
  total_bytes (fc_index (cw_cache demo_run.2)) ≤ 100 ∧
  demo_run.1 !! 2%nat = Some (CallGet "u", Finished (Ok (Some "/c/01"))).
Proof.
  assert (∃ ts w, demo_run = (ts, w)) as (ts & w' & E) by (destruct demo_run as [ts w']; by exists ts, w').
  destruct (concurrent_cache_bounded demo_sha map_to_list "/c" 100 70 demo_calls demo_sched (demo_world 100)
    ts w') as (_ & _ & Hq & _); [by intros m|lia|lia|simpl; lia| |done|done| | |exact E|].
  - split; [intros k e Hk; by destruct (lookup_empty_Some k e Hk)|]. split; [|done].
    split; [intros k e Hk; by destruct (lookup_empty_Some k e Hk)|]. simpl. by rewrite total_bytes_empty.
  - simpl. rewrite total_bytes_empty. lia.
  - intros p m Hp. change (cw_fs (demo_world 100))
      with ({["/a" := mkFileMeta 40 None; "/b" := mkFileMeta 70 None]} : FileSystem) in Hp.
    apply lookup_insert_Some in Hp as [[_ <-]|[_ [_ <-]%lookup_singleton_Some]]; simpl; lia.
  - assert (ts = demo_run.1) as -> by (by rewrite E). split.
    + rewrite E. apply Hq. apply (bool_decide_unpack _). vm_compute. exact I.
    + vm_compute. reflexivity.
Defined.

(** A file larger than the cap is copied, recorded, evicted at once, and its path
    is answered all the same. *)
Example insert_answers_an_evicted_path :
  let '(ts, w) := run demo_sha map_to_list [(0%nat, 1); (0%nat, 1); (0%nat, 1); (0%nat, 1)]
                    [(CallInsert "vv" "/b", Starting)] (demo_world 50) in
  ts = [(CallInsert "vv" "/b", Finished (Ok (Some "/c/02")))] ∧ cw_fs w !! "/c/02" = None ∧
  size (fc_index (cw_cache w)) = 0%nat.
Proof. vm_compute. done. Qed.

(** Two insertions of one link: the first one's clear-out falls between the
    second one's copy and its record, and from then on the cache answers hits
    with a file that does not exist. *)
Example race_leaves_a_dangling_entry :
  let '(ts, w) := run demo_sha map_to_list
                    [(0%nat, 1); (0%nat, 1); (0%nat, 1); (1%nat, 2); (1%nat, 2); (2%nat, 3); (1%nat, 4); (3%nat, 5)]
                    [(CallInsert "u" "/a", Starting); (CallInsert "u" "/a", Starting); (CallClear, Starting);
                     (CallGet "u", Starting)] (demo_world 100) in
  ts !! 3%nat = Some (CallGet "u", Finished (Ok (Some "/c/01"))) ∧ cw_fs w !! "/c/01" = None.
Proof. vm_compute. done. Qed.
End Demo.
