(* ===== verification/GdalTools.v ===== *)
(** * GDAL's programs, and files that appear at once

    crates/orbit-geo/src/gdal_utils.rs and rasterization.rs, and
    crates/eo-io/src/atomic.rs: the wrappers around GDAL's command-line programs,
    the probes of rasters and vectors, and the conversion to a cloud-optimised
    file, which is written next to its destination and renamed.  The programs,
    GDAL and the temporary files of the system are parameters; a world with the
    files on disk and every state they went through makes crashes visible. *)

From Stdlib Require Import Ascii.
From S2P Require Import Prelude F64 Text FileStore Window Raster Blocks Scenes GeoExec.
Local Open Scope Z_scope.

(** ** The system *)

(** How [Command::output] ends: the program could not be started, or it ran. *)
Inductive RunOutcome := SpawnFailed (not_found : bool) (e : string) | Exited (success : bool) (stderr : string).

Record System (W : Type) := mkSystem {
  run_program : string → list string → W → RunOutcome * W;
  remove_file : string → W → W;
  rename : string → string → W → result string unit * W;
  temp_file : string → W → result string string * W;   (* the suffix; a new empty file *)
  persist : string → W → result string unit * W;       (* [TempPath::persist] to its own path *)
  now_nanos : W → Z;
  process_id : Z }.
Arguments run_program {W}. Arguments remove_file {W}. Arguments rename {W}. Arguments temp_file {W}.
Arguments persist {W}. Arguments now_nanos {W}. Arguments process_id {W}.

Section tools.
Context {W : Type} (sys : System W) (debug_path : string → string) (f64_display : f64 → string).

(** ** eo-io: atomic.rs *)

Definition staging_path_for (dst : string) (w : W) : string :=
  let dir := default "." (Window.parent dst) in
  let base := default "out" (file_name dst) in
  join_path dir ("." +:+ base +:+ ".staging." +:+ pretty (process_id sys) +:+ "." +:+ pretty (now_nanos sys w)).

(** The error is the text of [AtomicError::Rename]. *)
Definition atomic_replace (staging dst : string) (w : W) : result Error unit * W :=
  match rename sys staging dst w with
  | (Ok _, w) => (Ok tt, w)
  | (Err e, w) =>
      (Err (Other ("atomic_replace " +:+ debug_path staging +:+ " -> " +:+ debug_path dst +:+ ": " +:+ e)),
       remove_file sys staging w)
  end.

(** ** gdal_utils.rs: programs *)

(** The three ways a program fails. *)
Definition outcome_error (missing spawn failed : string) (o : RunOutcome) : result Error unit :=
  match o with
  | SpawnFailed true _ => Err (Other missing)
  | SpawnFailed false e => Err (Other (spawn +:+ " spawn: " +:+ e))
  | Exited true _ => Ok tt
  | Exited false stderr => Err (Other (failed +:+ " failed: " +:+ stderr))
  end.

Definition path_hint (tool program : string) : string :=
  tool +:+ ": " +:+ program +:+ " not found on PATH".
Definition install_hint (program : string) : string :=
  path_hint "mosaic" program +:+ " — install GDAL with the CLI tools enabled".

(** The temporary document is removed when the function ends, however it ends. *)
Definition mosaic (inputs : list string) (output : string) (w : W) : result Error string * W :=
  if bool_decide (inputs = []) then (Err (Other "mosaic: inputs list is empty"), w)
  else
    match temp_file sys ".vrt" w with
    | (Err e, w) => (Err (Other ("create temp VRT: " +:+ e)), w)
    | (Ok vrt, w) =>
        let w := remove_file sys vrt w in
        let '(o, w) := run_program sys "gdalbuildvrt" (vrt :: inputs) w in
        match outcome_error (install_hint "gdalbuildvrt") "gdalbuildvrt" "gdalbuildvrt" o with
        | Err e => (Err e, remove_file sys vrt w)
        | Ok _ =>
            let '(o, w) := run_program sys "gdal_translate" ["-of"; "GTiff"; vrt; output] w in
            (_ ← outcome_error (install_hint "gdal_translate") "gdal_translate" "gdal_translate" o; Ok output,
             remove_file sys vrt w)
        end
    end.

Definition cog_args (src staging : string) : list string :=
  ["-of"; "COG"; "-co"; "BLOCKSIZE=512"; "-co"; "COMPRESS=LZW"; "-co"; "OVERVIEW_RESAMPLING=AVERAGE";
   src; staging].

Definition convert_to_cog (src dst : string) (w : W) : result Error string * W :=
  let staging := staging_path_for dst w in
  let '(o, w) := run_program sys "gdal_translate" (cog_args src staging) w in
  match outcome_error (path_hint "convert_to_cog" "gdal_translate") "gdal_translate"
          "gdal_translate -of COG" o with
  | Err e => (Err e, remove_file sys staging w)
  | Ok _ =>
      let '(r, w) := atomic_replace staging dst w in
      (_ ← r; Ok dst, w)
  end.

Definition warp (src dst : string) (target_epsg : Z) (w : W) : result Error string * W :=
  let '(o, w) := run_program sys "gdalwarp"
    ["-t_srs"; "EPSG:" +:+ pretty target_epsg; "-of"; "GTiff"; "-overwrite"; src; dst] w in
  (_ ← outcome_error (path_hint "warp" "gdalwarp") "gdalwarp" "gdalwarp" o; Ok dst, w).

(** A missing program is not told apart here. *)
Definition translate_with_driver (src dst driver : string) (w : W) : result Error string * W :=
  let '(o, w) := run_program sys "gdal_translate" ["-of"; driver; src; dst] w in
  (_ ← match o with
       | SpawnFailed _ e => Err (Other ("gdal_translate spawn: " +:+ e))
       | Exited _ _ => outcome_error "" "" ("gdal_translate -of " +:+ driver) o
       end; Ok dst, w).
Definition translate (src dst : string) : W → result Error string * W :=
  translate_with_driver src dst "GTiff".

Definition mosaic_keep_inputs (inputs : list string) (output : string) : W → result Error string * W :=
  mosaic inputs output.
Definition mosaic_translate_cleanup (inputs : list string) (output : string) : W → result Error string * W :=
  mosaic inputs output.

Fixpoint mosaic_steps (steps : list (list string * string)) (w : W) : result Error (list string) * W :=
  match steps with
  | [] => (Ok [], w)
  | (inputs, out) :: steps =>
      match mosaic_translate_cleanup inputs out w with
      | (Err e, w) => (Err e, w)
      | (Ok p, w) => let '(r, w) := mosaic_steps steps w in (ps ← r; Ok (p :: ps), w)
      end
  end.
Definition mosaic_translate_cleanup_time_steps (inputs_per_step : list (list string)) (outputs : list string)
    (w : W) : result Error (list string) * W :=
  if negb (length inputs_per_step =? length outputs)%nat then
    (Err (Other ("mosaic_translate_cleanup_time_steps: input/output count mismatch: "
       +:+ pretty (Z.of_nat (length inputs_per_step)) +:+ " vs " +:+ pretty (Z.of_nat (length outputs)))), w)
  else mosaic_steps (zip inputs_per_step outputs) w.

(** rasterization.rs *)
Definition rasterize (vector_src output : string) (width height : Z) (bbox : f64 * f64 * f64 * f64)
    (burn_value no_data : f64) (w : W) : result Error string * W :=
  let '(min_x, min_y, max_x, max_y) := bbox in
  let '(o, w) := run_program sys "gdal_rasterize"
    ["-burn"; f64_display burn_value; "-a_nodata"; f64_display no_data;
     "-ts"; pretty width; pretty height;
     "-te"; f64_display min_x; f64_display min_y; f64_display max_x; f64_display max_y;
     "-of"; "GTiff"; "-ot"; "Float64"; "-init"; f64_display no_data; vector_src; output] w in
  (_ ← outcome_error (path_hint "rasterize" "gdal_rasterize") "gdal_rasterize" "gdal_rasterize" o;
   Ok output, w).

(** ** gdal_utils.rs: names and temporary files *)

(** [path.file_stem()]: the name up to its last dot, a leading dot aside. *)
Definition file_stem_str (path : string) : string :=
  match file_name path with
  | None => ""
  | Some name => match rsplit_once "." name with
                 | Some ("", _) | None => name
                 | Some (stem, _) => stem
                 end
  end.

Definition create_temp_file (ext : string) (w : W) : result Error string * W :=
  let suffix := if starts_with "." ext then ext else "." +:+ ext in
  match temp_file sys suffix w with
  | (Err e, w) => (Err (Other ("create_temp_file: " +:+ e)), w)
  | (Ok owned, w) =>
      let '(r, w) := persist sys owned w in
      (_ ← map_err (λ e, Other ("create_temp_file: persist " +:+ debug_path owned +:+ " failed: " +:+ e)) r;
       Ok owned, w)
  end.
End tools.

(** ** gdal_utils.rs: probes *)

Record BasicRasterInfo := mkBasicRasterInfo {
  bi_rows : Z; bi_cols : Z; bi_bands : Z; bi_epsg : Z; bi_geo_transform : list f64 }.

(** What the probes ask of GDAL. *)
Record RasterFile := mkRasterFile {
  rf_size : Z * Z; rf_count : Z; rf_geo_transform : result string (list f64);
  rf_auth_code : option Z }.   (* [spatial_ref().ok()?.auth_code().ok()] *)
Record Envelope := mkEnvelope { env_MinX : f64; env_MinY : f64; env_MaxX : f64; env_MaxY : f64 }.

Definition is_infinite (x : f64) : bool :=
  match x with SpecFloat.S754_infinity _ => true | _ => false end.
Definition infinity : f64 := SpecFloat.S754_infinity false.
Definition neg_infinity : f64 := SpecFloat.S754_infinity true.

Section probes.
Context {SR : Type} (open_raster : string → result string RasterFile).
Context (from_epsg : Z → result string SR).
Context (transform : SR → SR → result string (list (f64 * f64) → result string (list (f64 * f64)))).
Context (open_vector : string → result string (list (result string (list (option Envelope))))).

Definition read_basic_raster_info (path : string) : result Error BasicRasterInfo :=
  ds ← map_err (λ e, Other ("open " +:+ path +:+ ": " +:+ e)) (open_raster path);
  Ok (mkBasicRasterInfo (rf_size ds).2 (rf_size ds).1 (rf_count ds)
        (wrap 32 (default 0 (rf_auth_code ds)))
        (match rf_geo_transform ds with Ok g => g | Err _ => replicate 6 f64_zero end)).

Definition widen_x (box : f64 * f64 * f64 * f64) (x : f64) : f64 * f64 * f64 * f64 :=
  let '(min_x, min_y, max_x, max_y) := box in (f64_min min_x x, min_y, f64_max max_x x, max_y).
Definition widen_y (box : f64 * f64 * f64 * f64) (y : f64) : f64 * f64 * f64 * f64 :=
  let '(min_x, min_y, max_x, max_y) := box in (min_x, f64_min min_y y, max_x, f64_max max_y y).
Definition nowhere : f64 * f64 * f64 * f64 := (infinity, infinity, neg_infinity, neg_infinity).

(** The upper left and lower right corner of a raster in the target system. *)
Definition raster_corners (target_sr : SR) (target_epsg : Z) (info : BasicRasterInfo)
    : result Error (list (f64 * f64)) :=
  src_sr ← if 0 <? bi_epsg info then
             map_err (λ e, Other ("src EPSG:" +:+ pretty (bi_epsg info) +:+ ": " +:+ e)) (from_epsg (bi_epsg info))
           else Ok target_sr;
  let g := gt (bi_geo_transform info) in
  let corners := [(g 0%nat, g 3%nat);
                  (f64_add (g 0%nat) (f64_mul (f64_of_Z (bi_cols info)) (g 1%nat)),
                   f64_add (g 3%nat) (f64_mul (f64_of_Z (bi_rows info)) (g 5%nat)))] in
  if negb (bi_epsg info =? target_epsg) && (0 <? bi_epsg info) then
    xf ← map_err (λ e, Other ("CoordTransform: " +:+ e)) (transform src_sr target_sr);
    map_err (λ e, Other ("transform: " +:+ e)) (xf corners)
  else Ok corners.

Fixpoint union_extent (target_sr : SR) (target_epsg : Z) (files : list string)
    (box : f64 * f64 * f64 * f64) : result Error (f64 * f64 * f64 * f64) :=
  match files with
  | [] => Ok box
  | path :: files =>
      info ← read_basic_raster_info path;
      corners ← raster_corners target_sr target_epsg info;
      union_extent target_sr target_epsg files (foldl widen_y (foldl widen_x box corners.*1) corners.*2)
  end.

Definition compute_raster_union_extent (files : list string) (target_epsg : Z)
    : result Error (f64 * f64 * f64 * f64) :=
  if bool_decide (files = []) then Err (Other "compute_raster_union_extent: empty input list")
  else
    target_sr ← map_err (λ e, Other ("target EPSG:" +:+ pretty target_epsg +:+ ": " +:+ e)) (from_epsg target_epsg);
    union_extent target_sr target_epsg files nowhere.

Definition widen_envelope (box : f64 * f64 * f64 * f64) (e : Envelope) : f64 * f64 * f64 * f64 :=
  let '(min_x, min_y, max_x, max_y) := box in
  (f64_min min_x (env_MinX e), f64_min min_y (env_MinY e), f64_max max_x (env_MaxX e), f64_max max_y (env_MaxY e)).

(** A layer is its features, each with the envelope of its geometry, if it has
    one.  The target system is not used. *)
Fixpoint layers_extent (li : Z) (layers : list (result string (list (option Envelope))))
    (box : f64 * f64 * f64 * f64) : result Error (f64 * f64 * f64 * f64) :=
  match layers with
  | [] => Ok box
  | layer :: layers =>
      features ← map_err (λ e, Other ("layer " +:+ pretty li +:+ ": " +:+ e)) layer;
      layers_extent (li + 1) layers (foldl widen_envelope box (omap id features))
  end.
Definition compute_vector_extent (vector_path : string) (target_epsg : Z)
    : result Error (f64 * f64 * f64 * f64) :=
  layers ← map_err (λ e, Other ("open vector " +:+ vector_path +:+ ": " +:+ e)) (open_vector vector_path);
  box ← layers_extent 0 layers nowhere;
  if is_infinite box.1.1.1 then
    Err (Other ("compute_vector_extent: no features found in " +:+ vector_path))
  else Ok box.
End probes.

(** ** Conversions and crashes *)

(** The files on disk, and every state they have gone through. *)
Record World (C : Type) := mkWorld { disk : gmap string C; seen : list (gmap string C) }.
Arguments mkWorld {C}. Arguments disk {C}. Arguments seen {C}.

Section disk.
Context {C : Type}.
(** A program: the states of the disk while it runs, and how it ends. *)
Context (program : string → list string → gmap string C → list (gmap string C) * RunOutcome).
Context (rename_error : string → string → option string) (pid : Z) (clock : World C → Z).

Definition put (d : gmap string C) (w : World C) : World C := mkWorld d (seen w ++ [d]).

Definition disk_run (p : string) (args : list string) (w : World C) : RunOutcome * World C :=
  let '(ds, o) := program p args (disk w) in
  (o, mkWorld (default (disk w) (last ds)) (seen w ++ ds)).
Definition disk_rename (a b : string) (w : World C) : result string unit * World C :=
  match rename_error a b, disk w !! a with
  | Some e, _ => (Err e, w)
  | None, None => (Err "No such file or directory", w)
  | None, Some c => (Ok tt, put (<[b := c]> (delete a (disk w))) w)
  end.
Definition disk_system : System (World C) :=
  mkSystem _ disk_run (λ p w, put (delete p (disk w)) w) disk_rename
    (λ _ w, (Err "no temporary files", w)) (λ _ w, (Ok tt, w)) clock pid.

(** A file named after [out], in any directory: [out] itself, the overviews and
    masks a driver puts in temporary files next to it, auxiliary metadata. *)
Definition named_after (out k : string) : Prop :=
  ∃ name, file_name k = Some name ∧ starts_with (file_stem_str out) name = true.

(** gdal_translate, asked to write [out], changes files named after [out] and
    possibly some others, [aside] (statistics of its input, temporary files). *)
Definition writes_its_own (aside : string → Prop) : Prop := ∀ args out d ds o,
  last args = Some out → program "gdal_translate" args d = (ds, o) →
  ∀ d', d' ∈ ds → ∀ k, ¬ named_after out k → ¬ aside k → d' !! k = d !! k.

(** What the program left in the staging file when it ended well. *)
Definition converted (src staging : string) (d : gmap string C) (c : C) : Prop :=
  ∃ ds stderr, program "gdal_translate" (cog_args src staging) d = (ds, Exited true stderr) ∧
    default d (last ds) !! staging = Some c.
End disk.

Lemma file_name_no_slash path n : file_name path = Some n → has_char "/" n = false.
Proof.
  unfold file_name. destruct (rev _) as [|c cs] eqn:E; [done|]. case_bool_decide; [done|]. intros [= <-].
  assert (c ∈ rev (filter (λ c, ¬ (c = "" ∨ c = ".")) (split "/" path))) as Hin by (rewrite E; by left).
  rewrite list_elem_of_In, <- in_rev, <- list_elem_of_In in Hin.
  apply list_elem_of_filter in Hin as [_ Hin]. by apply split_pieces in Hin as [? _].
Qed.

(** The name of a staging file. *)
Lemma staging_file_name {W} (sys : System W) dst w : 0 ≤ process_id sys → 0 ≤ now_nanos sys w →
  file_name (staging_path_for sys dst w) =
    Some ("." +:+ default "out" (file_name dst) +:+ ".staging." +:+ pretty (process_id sys) +:+ "."
          +:+ pretty (now_nanos sys w)).
Proof.
  intros Hp Hn. set (base := default "out" (file_name dst)).
  assert (has_char "/" base = false) as Hb.
  { unfold base. destruct (file_name dst) as [b|] eqn:Eb; [by apply file_name_no_slash in Eb|done]. }
  apply file_name_join; [|done| |].
  - by rewrite !has_char_app, Hb, !pretty_Z_no_char by done.
  - intros H%(f_equal String.length). rewrite !str_length_app in H. simpl in H. lia.
  - intros H%(f_equal String.length). rewrite !str_length_app in H. simpl in H. lia.
Qed.

Lemma staging_stem {W} (sys : System W) dst w : 0 ≤ process_id sys → 0 ≤ now_nanos sys w →
  file_stem_str (staging_path_for sys dst w) =
    "." +:+ default "out" (file_name dst) +:+ ".staging." +:+ pretty (process_id sys).
Proof.
  intros Hp Hn. unfold file_stem_str. rewrite staging_file_name by done.
  set (stem := "." +:+ default "out" (file_name dst) +:+ ".staging." +:+ pretty (process_id sys)).
  assert ("." +:+ default "out" (file_name dst) +:+ ".staging." +:+ pretty (process_id sys) +:+ "."
    +:+ pretty (now_nanos sys w) = stem +:+ String "." (pretty (now_nanos sys w))) as ->
    by (unfold stem; by rewrite !str_app_assoc).
  rewrite rsplit_once_app; [done|]. by apply pretty_Z_no_char.
Qed.

(** A destination is not named after its own staging file, which has another name. *)
Lemma staging_apart {W} (sys : System W) dst w : 0 ≤ process_id sys → 0 ≤ now_nanos sys w →
  ¬ named_after (staging_path_for sys dst w) dst.
Proof.
  intros Hp Hn (name & Hname & (t & Ht)%starts_with_spec). rewrite staging_stem in Ht by done.
  rewrite Hname in Ht. cbn [default from_option] in Ht. apply (f_equal String.length) in Ht.
  rewrite !str_length_app in Ht. unfold id in Ht. simpl in Ht. lia.
Qed.

Lemma staging_own {W} (sys : System W) dst w : 0 ≤ process_id sys → 0 ≤ now_nanos sys w →
  named_after (staging_path_for sys dst w) (staging_path_for sys dst w).
Proof.
  intros Hp Hn. eexists. split; [by apply staging_file_name|]. rewrite staging_stem by done.
  apply starts_with_spec. exists ("." +:+ pretty (now_nanos sys w)). by rewrite !str_app_assoc.
Qed.

Section conversion.
Context {C : Type}.
Context (program : string → list string → gmap string C → list (gmap string C) * RunOutcome).
Context (rename_error : string → string → option string) (pid : Z) (clock : World C → Z).
Context (debug_path : string → string).
Notation sys := (disk_system program rename_error pid clock).

End conversion.

(** ** Witnesses and examples *)

Module Demo.

(** A gdal_translate that, asked for one output, writes overviews to a temporary
    file next to it, the output in two steps, and the statistics of the input. *)
Definition demo_out : string := "/out/.a.tif.staging.7.9".
Definition demo_stats : string := "/in.tif.aux.xml".
Definition demo_program (prog : string) (args : list string) (d : gmap string string)
    : list (gmap string string) * RunOutcome :=
  if bool_decide (prog = "gdal_translate" ∧ last args = Some demo_out) then
    let d1 := <[demo_out +:+ ".ovr.tmp" := "levels"]> d in
    let d2 := <[demo_out := "part"]> d1 in
    let d3 := <[demo_stats := "stats"]> (<[demo_out := "whole"]> (delete (demo_out +:+ ".ovr.tmp") d2)) in
    ([d1; d2; d3], Exited true "")
  else ([], SpawnFailed true "").
Lemma demo_writes_its_own : writes_its_own demo_program (λ k, k = demo_stats).
Proof.
  intros args out d ds o Ho Hp d' Hd k Hk Hs. unfold demo_program in Hp.
  case_bool_decide as E; [|injection Hp as <- <-; by apply not_elem_of_nil in Hd].
  destruct E as [_ E]. assert (out = demo_out) as -> by congruence.
  assert (k ≠ demo_out) as H1 by (intros ->; apply Hk; by exists ".a.tif.staging.7.9").
  assert (k ≠ demo_out +:+ ".ovr.tmp") as H2
    by (intros ->; apply Hk; by exists ".a.tif.staging.7.9.ovr.tmp").
  injection Hp as <- <-. repeat (apply elem_of_cons in Hd as [->|Hd]);
    [..|by apply not_elem_of_nil in Hd];
    by rewrite ?lookup_insert_ne, ?lookup_delete_ne, ?lookup_insert_ne by done.
Qed.
Definition demo_disk : gmap string string := {["/out/a.tif" := "old"; "/in.tif" := "in"]}.
Definition demo_convert :=
  convert_to_cog (disk_system demo_program (λ _ _, None) 7 (λ _, 9)) id "/in.tif" "/out/a.tif"
    (mkWorld demo_disk []).


(** Only two corners of a raster are reprojected: under a rotation the union
    extent has no height, though the raster reaches ten units up and down. *)
Definition demo_rotation (l : list (f64 * f64)) : result string (list (f64 * f64)) :=
  Ok ((λ p : f64 * f64, (f64_sub p.1 p.2, f64_add p.1 p.2)) <$> l).
Example union_extent_misses_corners :
  compute_raster_union_extent (SR := Z)
    (λ _, Ok (mkRasterFile (10, 10) 1 (Ok [f64_zero; f64_one; f64_zero; f64_zero; f64_zero; f64_of_Z (-1)])
                (Some 32633)))
    (λ n, Ok n) (λ _ _, Ok demo_rotation) ["/a.tif"] 3857
  = Ok (f64_zero, f64_zero, f64_of_Z 20, f64_zero) ∧
  demo_rotation [(f64_of_Z 10, f64_zero)] = Ok [(f64_of_Z 10, f64_of_Z 10)].
Proof. split; vm_compute; reflexivity. Qed.
End Demo.
