(* ===== verification/Cli.v ===== *)
(** * The command line: apps/orbit-cli/src/main.rs

    The offline commands on rasters, over the program wrappers of GdalTools, and
    the commands that talk to the ETL server: the request a run sends, what it
    makes of the stream of events, and the reports on jobs.  The gRPC client, the
    spinner's drawing, the sampling of a raster and the generated names of the
    job states are parameters. *)

From S2P Require Import Prelude F64 Text Json Window Etl Interleave EtlEngine EtlService Raster GdalTools.
Local Open Scope Z_scope.

(** ** Formats *)

Inductive FmtArg := FmtCsv | FmtParquet | FmtJson.
#[export] Instance fmt_arg_dec : EqDecision FmtArg.
Proof. solve_decision. Defined.

(** The number of the enum's variant. *)
Definition to_pb (f : FmtArg) : Z := match f with FmtCsv => 1 | FmtParquet => 2 | FmtJson => 3 end.

Definition from_extension (ext : string) : option FmtArg :=
  let ext := to_ascii_lowercase ext in
  if bool_decide (ext = "csv") then Some FmtCsv
  else if bool_decide (ext ∈ ["parquet"; "pq"]) then Some FmtParquet
  else if bool_decide (ext ∈ ["json"; "ndjson"]) then Some FmtJson
  else None.
(** [extension] is [Path::extension] as text. *)
Definition from_path (extension : string → option string) (p : string) : option FmtArg :=
  extension p ≫= from_extension.

(** ** Commands *)

Inductive GeoCmd :=
| Rasterize (vector output : string) (width height : Z) (bbox : list f64) (burn_value no_data : f64)
| MosaicCmd (inputs : list string) (output : string)
| Sample (raster : string) (x y : f64)
| Warp (input output : string) (target_epsg : Z)
| GetImagery (urls : option string).

Inductive EtlCmd :=
| RunCmd (input table : string) (format : option FmtArg) (sql dedupe : option string) (batch : Z) (no_header : bool)
| StatusCmd (id : string)
| ListCmd (limit : Z)
| CancelCmd (id : string).

Inductive Cmd := CmdEtl (c : EtlCmd) | CmdGeo (c : GeoCmd).

(** ** The run command *)

Definition run_request (input table : string) (fmt : FmtArg) (sql dedupe : option string) (batch : Z) (no_header : bool)
    : PbPipelineSpec :=
  mkPbPipelineSpec (Some (mkPbFileSource input (to_pb fmt) (negb no_header) ","))
    table (default "" sql) (default "" dedupe) batch.

(** What the spinner shows: its message, or its last one. *)
Inductive Spinner := SetMessage (m : string) | FinishWith (m : string) | AbandonWith (m : string).

Definition event_message (e : PbEvent) : Spinner :=
  match e with
  | PbStarted id => SetMessage ("job " +:+ id +:+ " started")
  | PbProgress _ r w => SetMessage ("read=" +:+ pretty r +:+ " written=" +:+ pretty w)
  | PbCompleted id r w =>
      FinishWith ("✓ completed read=" +:+ pretty r +:+ " written=" +:+ pretty w +:+ " (" +:+ id +:+ ")")
  | PbFailed _ e => AbandonWith ("✗ failed: " +:+ e)
  end.

(** The loop over the stream; an event that is not set is passed over. *)
Fixpoint follow (stream : list (result string (option PbEvent))) : list Spinner * result string () :=
  match stream with
  | [] => ([], Ok tt)
  | Err e :: _ => ([], Err e)
  | Ok None :: stream => follow stream
  | Ok (Some ev) :: stream =>
      match ev with
      | PbFailed _ e => ([event_message ev], Err ("pipeline failed: " +:+ e))
      | _ => let '(shown, r) := follow stream in (event_message ev :: shown, r)
      end
  end.

Section status.
Context (state_debug : Z → option string).      (* {:?} of the generated enum *)

Definition status_lines (s : PbJobStatus) : list string :=
  ["id          : " +:+ pb_id s;
   "state       : " +:+ default "?" (state_debug (pb_state s));
   "rows_read   : " +:+ pretty (pb_rows_read s);
   "rows_written: " +:+ pretty (pb_rows_written s);
   "started_at  : " +:+ pb_started_at s] ++
  (if bool_decide (pb_finished_at s = "") then [] else ["finished_at : " +:+ pb_finished_at s]) ++
  (if bool_decide (pb_error s = "") then [] else ["error       : " +:+ pb_error s]).

Definition list_lines (jobs : list PbJobStatus) : list string :=
  match jobs with [] => ["no jobs."] | _ => concat (map (λ s, status_lines s ++ [""]) jobs) end.
End status.

(** The client: a connection and its four calls. *)
Record Client := mkClient {
  cl_run : PbPipelineSpec → result string (list (result string (option PbEvent)));
  cl_status : string → result string PbJobStatus;
  cl_list : Z → result string (list PbJobStatus);
  cl_cancel : string → result string bool }.

(** What a command writes: lines on the standard output, and the spinner. *)
Definition Output : Type := list string * list Spinner.

Definition handle_etl (extension : string → option string) (state_debug : Z → option string) (cl : Client) (cmd : EtlCmd)
    : Output * result string () :=
  match cmd with
  | RunCmd input table format sql dedupe batch no_header =>
      match match format with Some f => Some f | None => from_path extension input end with
      | None => (([], []), Err "cannot infer format from extension; pass --format")
      | Some fmt =>
          match cl_run cl (run_request input table fmt sql dedupe batch no_header) with
          | Err e => (([], []), Err e)
          | Ok stream => let '(shown, r) := follow stream in (([], shown), r)
          end
      end
  | StatusCmd id =>
      match cl_status cl id with
      | Err e => (([], []), Err e)
      | Ok s => ((status_lines state_debug s, []), Ok tt)
      end
  | ListCmd limit =>
      match cl_list cl limit with
      | Err e => (([], []), Err e)
      | Ok jobs => ((list_lines state_debug jobs, []), Ok tt)
      end
  | CancelCmd id =>
      match cl_cancel cl id with
      | Err e => (([], []), Err e)
      | Ok b => ((["cancelled: " +:+ (if b then "true" else "false")], []), Ok tt)
      end
  end.

(** ** The offline commands *)

Section geo.
Context {W : Type} (sys : System W) (debug_path : string → string) (f64_display : f64 → string).
Context (error_text : Error → string).                       (* Display of orbit-geo's errors *)
Context (sample : string → f64 → f64 → result string Z).     (* the 16-bit sample at a point *)
Context (read_lines : option string → result string (list string)).   (* of a file, or of the standard input *)

Definition printed (line : string → string) (r : result Error string * W) : (Output * result string ()) * W :=
  match r with
  | (Ok out, w) => ((([line out], []), Ok tt), w)
  | (Err e, w) => ((([], []), Err (error_text e)), w)
  end.

Definition imagery_lines (lines : list string) : list string :=
  vsi_rewrite <$> filter (λ s, trim s ≠ "") lines.

Definition handle_geo (cmd : GeoCmd) (w : W) : (Output * result string ()) * W :=
  match cmd with
  | Rasterize vector output width height bbox burn_value no_data =>
      match bbox with
      | [b0; b1; b2; b3] =>
          printed (λ out, "rasterized -> " +:+ out)
            (rasterize sys f64_display vector output width height (b0, b1, b2, b3) burn_value no_data w)
      | _ => ((([], []), Err "--bbox requires 4 values"), w)
      end
  | MosaicCmd inputs output => printed (λ out, "mosaic -> " +:+ out) (mosaic sys inputs output w)
  | Sample raster x y =>
      (match sample raster x y with
       | Err e => (([], []), Err e)
       | Ok v => (([f64_display x +:+ " " +:+ f64_display y +:+ " " +:+ pretty v], []), Ok tt)
       end, w)
  | Warp input output target_epsg =>
      printed (λ out, "warped -> " +:+ out +:+ " (EPSG:" +:+ pretty target_epsg +:+ ")")
        (warp sys input output target_epsg w)
  | GetImagery urls =>
      (match read_lines urls with
       | Err e => (([], []), Err e)
       | Ok lines => ((imagery_lines lines, []), Ok tt)
       end, w)
  end.

Context (extension : string → option string) (state_debug : Z → option string).
Context (connect : string → result string Client).

(** [main] on parsed arguments: the offline commands need no server. *)
Definition main (endpoint : string) (cmd : Cmd) (w : W) : (Output * result string ()) * W :=
  match cmd with
  | CmdGeo geo => handle_geo geo w
  | CmdEtl etl =>
      (match connect endpoint with
       | Err e => (([], []), Err e)
       | Ok cl => handle_etl extension state_debug cl etl
       end, w)
  end.
End geo.

(** ** The client and the server *)

(** What a run asks for is what the server's engine is given. *)
Lemma run_request_decoded input table fmt sql dedupe batch no_header :
  decode_spec (run_request input table fmt sql dedupe batch no_header) =
  Ok (mkPipelineSpec
        (mkFileSource input (match fmt with FmtCsv => Csv | FmtParquet => Parquet | FmtJson => JsonFormat end)
           (negb no_header) ",")
        table (sql ≫= non_empty) (dedupe ≫= non_empty) (if batch =? 0 then 1024 else batch)).
Proof. by destruct fmt, sql, dedupe. Qed.

(** The stream the client reads of a job's log. *)
Definition stream_of (evs : list Event) : list (result string (option PbEvent)) :=
  (λ ev, Ok (Some (encode_event ev))) <$> evs.

Lemma follow_quiet evs rest : Forall (λ ev, match encode_event ev with PbFailed _ _ => False | _ => True end) evs →
  follow (stream_of evs ++ rest) =
    (let '(shown, r) := follow rest in (((λ ev, event_message (encode_event ev)) <$> evs) ++ shown, r)).
Proof.
  induction 1 as [|ev evs Hev _ IH]; [cbn; by destruct (follow rest)|].
  destruct (follow rest) as [shown r]. unfold stream_of in *. rewrite fmap_cons. cbn [app follow].
  rewrite IH. by destruct ev.
Qed.

Section outcome.
Context (cfg : Config) (specs : JobId → PipelineSpec).

Lemma running_quiet id n ws :
  Forall (λ ev, match encode_event ev with PbFailed _ _ => False | _ => True end) (running_events id n ws).
Proof. unfold running_events. constructor; [done|]. apply Forall_fmap, Forall_true. done. Qed.

(** A run ends well exactly when its job has completed: of a job that has ended,
    as every job of the engine does, the client that reads the whole stream
    reports success for a completed one and the job's error for any other, and
    what it shows last are the counts of the job's status. *)
Theorem run_reports_outcome id evs j : ended specs id evs j →
  let '(shown, r) := follow (stream_of evs) in
  match state j with
  | Completed =>
      r = Ok tt ∧ last shown = Some (FinishWith ("✓ completed read=" +:+ pretty (rows_read j) +:+ " written=" +:+
                    pretty (rows_written j) +:+ " (" +:+ js_id j +:+ ")"))
  | Cancelled => r = Err "pipeline failed: cancelled"
  | _ => ∃ msg, error j = Some msg ∧ r = Err ("pipeline failed: " +:+ msg)
  end.
Proof.
  intros He. assert (∀ pre ev, stream_of (pre ++ [ev]) = stream_of pre ++ stream_of [ev]) as Happ
    by (intros; unfold stream_of; by rewrite fmap_app).
  inversion He as [n ws w now j' Hc Hl Hw Hd Hid Herr|n ws now j' Hc Hid|pre msg now j' Hpre Hid]; subst.
  - rewrite Happ, follow_quiet by apply running_quiet. split; [reflexivity|]. exact (last_snoc _ _).
  - rewrite Happ, follow_quiet by apply running_quiet. cbn. done.
  - destruct Hpre as [->|(n & ws & _ & ->)].
    + cbn. eauto.
    + rewrite Happ, follow_quiet by apply running_quiet. cbn. eauto.
Qed.
End outcome.

(** ** Witnesses and examples *)

Module Demo.

Definition demo_spec : PipelineSpec := mkPipelineSpec (mkFileSource "/in.csv" Csv true ",") "t" None None 2.
Definition demo_status : JobStatus := set_completed 3 3 9 (mkJobStatus "j" Running 3 3 1 None None).
Definition demo_log : list Event := [EvStarted "j"; EvProgress "j" 3 2; EvProgress "j" 3 3; EvCompleted "j" 3 3].

Lemma run_reports_outcome_witness :
  ended (λ _, demo_spec) "j" demo_log demo_status ∧
  (follow (stream_of demo_log)).2 = Ok tt ∧
  last (follow (stream_of demo_log)).1 = Some (FinishWith "✓ completed read=3 written=3 (j)").
Proof.
  assert (ended (λ _, demo_spec) "j" demo_log demo_status) as He.
  { change demo_log with (running_events "j" 3 [2; 3] ++ [EvCompleted "j" 3 3]).
    apply ended_completed; try done. intros i w Hi.
    destruct i as [|[|i]]; simpl in Hi; simplify_eq; vm_compute; split; intros; congruence || (split; congruence). }
  split; [exact He|]. exact (run_reports_outcome (λ _, demo_spec) "j" demo_log demo_status He).
Defined.

(** A stream that ends without an outcome (the server went away) is a success
    to the command line. *)
Example lost_stream_is_success : (follow (stream_of [EvStarted "j"; EvProgress "j" 10 4])).2 = Ok tt.
Proof. reflexivity. Qed.

(** Blank lines are dropped, but the others are rewritten with their blanks: an
    indented link is not recognised. *)
Example indented_link_kept : imagery_lines ["https://h/a.tif"; "  "; " https://h/b.tif"] =
  ["/vsicurl/https://h/a.tif"; " https://h/b.tif"].
Proof. vm_compute. reflexivity. Qed.
End Demo.
