(* ===== verification/Contracts.v ===== *)
(** * Typed cubes, alignment, provenance, storage and errors

    datacube.rs, alignment.rs, provenance.rs, storage_contracts.rs,
    typed_errors.rs and engine_bridge.rs of apps/orbit-openeo: the contracts the
    outputs of the server are described by.  The compact printer of serde_json
    and the printers of floating-point numbers are parameters. *)

From Stdlib Require Import Ascii Sorting.Sorted.
From stdpp Require sorting.
From S2P Require Import Prelude BTree F64 Text Json Calendar Catalog Executor Runner Cube EtlEngine.
Local Open Scope Z_scope.

(** ** datacube.rs *)

Inductive Dim := Time | BandDim | DimY | DimX.
#[export] Instance Dim_eq_dec : EqDecision Dim.
Proof. solve_decision. Defined.

Definition dim_rank (d : Dim) : Z :=
  match d with Time => 0 | BandDim => 1 | DimY => 2 | DimX => 3 end.
#[export] Instance ord_Dim : Ord Dim := λ a b, Z.compare (dim_rank a) (dim_rank b).
#[export] Instance ord_Dim_laws : OrdLaws Dim.
Proof.
  split; unfold cmp, ord_Dim.
  - intros x y. rewrite Z.compare_eq_iff. split; [by destruct x, y|by intros ->].
  - intros. apply Z.compare_antisym.
  - intros x y z. rewrite !Z.compare_lt_iff. lia.
Qed.

Definition dim_str (d : Dim) : string :=
  match d with Time => "time" | BandDim => "band" | DimY => "y" | DimX => "x" end.

Inductive Coords := Numeric (values : list f64) | Labels (values : list string).
Definition coords_len (c : Coords) : Z :=
  match c with Numeric l => Z.of_nat (length l) | Labels l => Z.of_nat (length l) end.
Definition coords_is_empty (c : Coords) : bool := coords_len c =? 0.

(** Six numbers, in GDAL's order. *)
Definition GeoTransform : Type := list f64.
Definition coefficient (g : GeoTransform) (i : nat) : f64 := nth i g f64_zero.
Definition ulx (g : GeoTransform) : f64 := coefficient g 0.
Definition dx (g : GeoTransform) : f64 := coefficient g 1.
Definition uly (g : GeoTransform) : f64 := coefficient g 3.
Definition dy (g : GeoTransform) : f64 := coefficient g 5.

Definition Crs : Type := string.
Definition crs_epsg (code : Z) : Crs := "EPSG:" +:+ pretty code.
Definition crs_equals (a b : Crs) : bool := bool_decide (a = b).

Record Provenance := mkProvenance {
  pv_stac_ids : list string; pv_graph_hash : option string;
  pv_software_version : option string; pv_processed_at : option string }.

Inductive CubeError :=
| MissingBand (name : string)
| CoordLenMismatch (dim : string) (expected actual : Z)
| MissingDim (dim : string).

Record BandSpec := mkBandSpec {
  bs_name : string; bs_nodata : option f64; bs_scale : f64; bs_offset : f64;
  bs_units : option string; bs_paths_per_time : list string }.

Record RasterCube := mkRasterCube {
  rc_dims : list Dim; rc_coords : btree Dim Coords; rc_crs : Crs; rc_transform : GeoTransform;
  rc_bands : list BandSpec; rc_provenance : Provenance }.

Definition validate_dim (c : RasterCube) (d : Dim) : result CubeError unit :=
  coords ← ok_or (bt_get d (rc_coords c)) (MissingDim (dim_str d));
  if bool_decide (d = BandDim) && negb (coords_len coords =? Z.of_nat (length (rc_bands c)))
  then Err (CoordLenMismatch (dim_str d) (Z.of_nat (length (rc_bands c))) (coords_len coords))
  else Ok tt.
Definition validate (c : RasterCube) : result CubeError unit :=
  _ ← result_traverse (validate_dim c) (rc_dims c); Ok tt.

Definition band (c : RasterCube) (name : string) : result CubeError BandSpec :=
  ok_or (snd <$> list_find (λ b, bs_name b = name) (rc_bands c)) (MissingBand name).
Definition resolution (c : RasterCube) : f64 * f64 :=
  (f64_abs (dx (rc_transform c)), f64_abs (dy (rc_transform c))).
Definition time_steps (c : RasterCube) : Z :=
  match bt_get Time (rc_coords c) with Some t => coords_len t | None => 1 end.
Definition band_count (c : RasterCube) : Z := Z.of_nat (length (rc_bands c)).

(** ** alignment.rs *)

Inductive ResampleMethod := NearestNeighbor | Bilinear | Cubic | Average.

Inductive AlignError :=
| ACrsMismatch (lhs rhs : string)
| AResolutionMismatch (lhs_x lhs_y rhs_x rhs_y : f64)
| GridNotSnapped (lhs_ulx lhs_uly rhs_ulx rhs_uly tol : f64).

Inductive AlignmentReport :=
| Aligned
| NeedsResample (method : ResampleMethod) (target_resolution : f64 * f64).

Definition millionth : f64 := Eval vm_compute in f64_div f64_one (f64_of_Z 1000000).
Definition milli : f64 := Eval vm_compute in f64_div f64_one (f64_of_Z 1000).

Definition approx_eq (a b : f64) : bool :=
  let rel := if f64_ltb (f64_abs b) (f64_abs a) then f64_abs a else f64_abs b in
  f64_ltb (f64_abs (f64_sub a b)) (f64_mul (f64_max rel f64_one) millionth).

(** [x.fract()] *)
Definition fract (x : f64) : f64 := f64_sub x (f64_trunc x).
Definition snaps (a b d tol : f64) : bool :=
  let off := f64_abs (fract (f64_div (f64_sub a b) d)) in
  f64_ltb off tol || f64_ltb (f64_sub f64_one off) tol.
Definition grids_snap (a b : GeoTransform) (tol : f64) : bool :=
  snaps (ulx a) (ulx b) (dx a) tol && snaps (uly a) (uly b) (dy a) tol.

Definition suggest_method_for_band_names (c : RasterCube) : ResampleMethod :=
  let any_mask := existsb (λ b,
    let n := to_ascii_lowercase (bs_name b) in
    str_contains "scl" n || str_contains "qa" n || str_contains "mask" n || str_contains "class" n)
    (rc_bands c) in
  if any_mask then NearestNeighbor else Bilinear.

Definition align (lhs rhs : RasterCube) : result AlignError AlignmentReport :=
  if negb (crs_equals (rc_crs lhs) (rc_crs rhs)) then Err (ACrsMismatch (rc_crs lhs) (rc_crs rhs))
  else
    let '(lx, ly) := resolution lhs in
    let '(rx, ry) := resolution rhs in
    if negb (approx_eq lx rx) || negb (approx_eq ly ry) then
      Ok (NeedsResample (suggest_method_for_band_names rhs) (lx, ly))
    else
      let tol := f64_mul lx milli in
      if negb (grids_snap (rc_transform lhs) (rc_transform rhs) tol) then
        Err (GridNotSnapped (ulx (rc_transform lhs)) (uly (rc_transform lhs))
               (ulx (rc_transform rhs)) (uly (rc_transform rhs)) tol)
      else Ok Aligned.

Definition is_mask_cube (c : RasterCube) : bool :=
  existsb (λ b,
    let n := to_ascii_lowercase (bs_name b) in
    bool_decide (n = "scl") || bool_decide (n = "qa_pixel") || str_contains "mask" n) (rc_bands c).

(** ** provenance.rs *)

Record ProvenanceRecord := mkProvenanceRecord {
  stac_ids : list string; graph_hash : string; band_mapping : btree string string;
  software_version : string; crs : Crs; transform : GeoTransform;
  nodata : btree string f64; scale : btree string f64; offset : btree string f64;
  processed_at : string }.

(** The days are already counted from 0000-03-01. *)
Definition provenance_days_to_ymd (z : Z) : Z * Z * Z :=
  let era := z / 146097 in
  let doe := z - era * 146097 in
  let yoe := (doe - doe / 1460 + doe / 36524 - doe / 146096) / 365 in
  let y := yoe + era * 400 in
  let doy := doe - (365 * yoe + yoe / 4 - yoe / 100) in
  let mp := (5 * doy + 2) / 153 in
  let d := doy - (153 * mp + 2) / 5 + 1 in
  let m := if mp <? 10 then mp + 3 else mp - 9 in
  let y := if m <=? 2 then y + 1 else y in
  (y, m, d).
Definition now_rfc3339 (now : Z) : string :=
  let days := now / 86400 in
  let secs_of_day := now mod 86400 in
  format_timestamp (provenance_days_to_ymd (days + 719468)) secs_of_day.

Definition ProvenanceRecord_new (graph_hash software_version : string) (now : Z) : ProvenanceRecord :=
  mkProvenanceRecord [] graph_hash [] software_version (crs_epsg 4326) (replicate 6 f64_zero)
    [] [] [] (now_rfc3339 now).

Definition fnv1a_64 (bytes : list Z) : Z :=
  foldl (λ h b, wrap 64 (Z.lxor h b * 1099511628211)) 14695981039346656037 bytes.

Section hash.
Context (to_text : Value → string).

Definition quoted (k : string) : string := chr dquote +:+ k +:+ chr dquote.

(** The keys are sorted; [m[k]] is the text of the member [k]. *)
Fixpoint canonical_json (v : Value) : string :=
  match v with
  | Object m =>
      let texts := map (λ e : string * Value, (e.1, canonical_json e.2)) m in
      "{" +:+ join "," ((λ k, quoted k +:+ ":" +:+ default "" (assoc_get k texts))
                          <$> sort_by_key id (map fst m)) +:+ "}"
  | Array l => "[" +:+ join "," (map canonical_json l) +:+ "]"
  | _ => to_text v
  end.

Definition graph_hash_of (graph_json : Value) : string :=
  hex016 (fnv1a_64 (bytes_of (canonical_json graph_json))).
End hash.

(** ** storage_contracts.rs *)

Inductive StorageError := NotTiff (magic : list Z) | TooShort (len : Z).
Inductive StorageFormat := GTiff | COG | NetCDF | JSON | PNG.

Definition media_type (f : StorageFormat) : string :=
  match f with
  | GTiff | COG | NetCDF => "image/tiff"
  | JSON => "application/json"
  | PNG => "image/png"
  end.

Definition validate_tiff_bytes (bytes : list Z) : result StorageError unit :=
  if (length bytes <? 8)%nat then Err (TooShort (Z.of_nat (length bytes)))
  else
    let magic := take 4 bytes in
    if negb (bool_decide (magic = [73; 73; 42; 0])) && negb (bool_decide (magic = [77; 77; 0; 42]))
    then Err (NotTiff magic)
    else Ok tt.
Definition validate_cog_bytes (bytes : list Z) : result StorageError unit :=
  _ ← validate_tiff_bytes bytes; Ok tt.

Definition floats_json (m : btree string f64) : Value := Object (prod_map id json_of_f64 <$> m).

Definition stac_item_for_asset (item_id asset_name asset_href media_type : string)
    (prov : ProvenanceRecord) : Value :=
  Object [
    ("type", JString "Feature"); ("stac_version", JString "1.0.0"); ("id", JString item_id);
    ("geometry", Null);
    ("properties", Object [
      ("datetime", JString (processed_at prov)); ("orbit:graph_hash", JString (graph_hash prov));
      ("orbit:software_version", JString (software_version prov));
      ("orbit:source_stac_ids", str_array (stac_ids prov))]);
    ("assets", Object [(asset_name, Object [
      ("href", JString asset_href); ("type", JString media_type); ("roles", str_array ["data"]);
      ("orbit:band_mapping", Object (prod_map id JString <$> band_mapping prov));
      ("orbit:nodata", floats_json (nodata prov)); ("orbit:scale", floats_json (scale prov));
      ("orbit:offset", floats_json (offset prov))])]);
    ("links", Array [])].

(** ** typed_errors.rs *)

Inductive OrbitError :=
| OMissingBand (m : string)
| OCrsMismatch (lhs rhs : string)
| OResolutionMismatch (lhs_x lhs_y rhs_x rhs_y : f64)
| InvalidChunkPlan (m : string)
| UnsupportedProcess (p : string)
| OIo (m : string)
| OGdal (m : string)
| OStac (m : string)
| OInvalidGraph (m : string)
| OAuth (m : string)
| OOther (m : string).

Definition code (e : OrbitError) : string :=
  match e with
  | OMissingBand _ => "MissingBand" | OCrsMismatch _ _ => "CrsMismatch"
  | OResolutionMismatch _ _ _ _ => "ResolutionMismatch" | InvalidChunkPlan _ => "InvalidChunkPlan"
  | UnsupportedProcess _ => "ProcessUnsupported" | OIo _ => "Io" | OGdal _ => "Gdal"
  | OStac _ => "Stac" | OInvalidGraph _ => "InvalidProcessGraph"
  | OAuth _ => "AuthenticationRequired" | OOther _ => "Internal"
  end.

Definition http_status (e : OrbitError) : Z :=
  match e with
  | OMissingBand _ | OCrsMismatch _ _ | OResolutionMismatch _ _ _ _ | InvalidChunkPlan _
  | UnsupportedProcess _ | OInvalidGraph _ => 400
  | OAuth _ => 401
  | OStac _ => 502
  | OIo _ | OGdal _ | OOther _ => 500
  end.

Definition orbit_error_text (f64_display : f64 → string) (e : OrbitError) : string :=
  match e with
  | OMissingBand m => "missing band: " +:+ m
  | OCrsMismatch l r => "CRS mismatch: lhs=" +:+ l +:+ ", rhs=" +:+ r
  | OResolutionMismatch a b c d =>
      "resolution mismatch: lhs=(" +:+ f64_display a +:+ "," +:+ f64_display b +:+ "), rhs=("
      +:+ f64_display c +:+ "," +:+ f64_display d +:+ ")"
  | InvalidChunkPlan m => "invalid chunk plan: " +:+ m
  | UnsupportedProcess p => "unsupported process: " +:+ p
  | OIo m => "io: " +:+ m
  | OGdal m => "gdal: " +:+ m
  | OStac m => "stac: " +:+ m
  | OInvalidGraph m => "invalid process graph: " +:+ m
  | OAuth m => "auth: " +:+ m
  | OOther m => "internal: " +:+ m
  end.
Definition to_openeo_json (f64_display : f64 → string) (e : OrbitError) : Value :=
  Object [("code", JString (code e)); ("message", JString (orbit_error_text f64_display e))].

Definition classify_backend (m : string) : OrbitError :=
  let lower := to_ascii_lowercase m in
  if str_contains "crsmismatch" lower || str_contains "crs mismatch" lower then OCrsMismatch "" m
  else if str_contains "missingband" lower || str_contains "missing band" lower then OMissingBand m
  else if str_contains "resolution mismatch" lower then
    OResolutionMismatch f64_zero f64_zero f64_zero f64_zero
  else if starts_with "gdal:" lower || starts_with "gdal_translate" lower || starts_with "tiff" lower
          || str_contains "gdalwarp" lower then OGdal m
  else if str_contains "stac" lower || str_contains "collectionnotfound" lower then OStac m
  else if starts_with "io" lower || str_contains "read " lower || str_contains "write " lower
          || str_contains "filecache" lower then OIo m
  else OOther m.

Definition orbit_error_of (e : ExecError) : OrbitError :=
  match e with
  | InvalidGraph m => OInvalidGraph m
  | UnknownProcess p => UnsupportedProcess p
  | ExecBackend m => classify_backend m
  | PerPixelComputation m => OInvalidGraph m
  end.

(** ** engine_bridge.rs *)

Definition etl_event_kind (e : Event) : JobEventKind :=
  match e with
  | EvStarted _ => Started
  | EvProgress _ _ _ => Progress
  | EvCompleted _ _ _ => Completed
  | EvFailed _ _ => Failed
  | EvCancelled _ _ _ => Cancelled
  end.

(** The task of the bridge: the events the bus is given while the stream yields
    [events].  The caller's closure keeps a state. *)
Fixpoint spawn_bridge {E S} (map_kind : S → E → JobEventKind * S) (user job : string) (s : S)
    (events : list E) : list JobEvent :=
  match events with
  | [] => []
  | ev :: events =>
      let '(kind, s) := map_kind s ev in
      mkJobEvent user job kind :: spawn_bridge map_kind user job s events
  end.

(** ** Sorted keys *)

(** Sorting forgets the order. *)
Lemma sort_strings_perm (l l' : list string) : l ≡ₚ l' → sort_by_key id l = sort_by_key id l'.
Proof.
  intros Hp. apply (sorting.StronglySorted_unique_strong (in_order id)).
  - intros x y _ _ Hxy Hyx. unfold in_order, id in *. rewrite cmp_antisym in Hyx.
    destruct (cmp x y) eqn:E; [by apply cmp_eq|done|done].
  - apply sort_by_key_sorted.
  - apply sort_by_key_sorted.
  - by rewrite !sort_by_key_perm.
Qed.

(** ** The hash of a process graph *)

(** Documents that differ in the order of the members of their objects, at any
    depth. *)
Inductive json_same : Value → Value → Prop :=
| same_refl v : json_same v v
| same_trans u v w : json_same u v → json_same v w → json_same u w
| same_order m m' : NoDup m.*1 → m ≡ₚ m' → json_same (Object m) (Object m')
| same_element l1 v v' l2 : json_same v v' → json_same (Array (l1 ++ v :: l2)) (Array (l1 ++ v' :: l2))
| same_member m1 k v v' m2 :
    json_same v v' → json_same (Object (m1 ++ (k, v) :: m2)) (Object (m1 ++ (k, v') :: m2)).

#[export] Instance json_same_equivalence : Equivalence json_same.
Proof.
  split; [by intros v; constructor| |by intros u v w; apply same_trans].
  intros u v H. induction H as [v|u v w _ IH1 _ IH2|m m' Hnd Hp|l1 v v' l2 _ IH|m1 k v v' m2 _ IH].
  - constructor.
  - by eapply same_trans.
  - apply same_order; [|by symmetry]. by rewrite <- Hp.
  - by apply same_element.
  - by apply same_member.
Qed.

Lemma assoc_get_Some_iff {A} (m : list (string * A)) k v : NoDup m.*1 →
  assoc_get k m = Some v ↔ (k, v) ∈ m.
Proof.
  induction m as [|[k0 v0] m IH]; intros Hnd; simpl; [by split; [|intros ?%not_elem_of_nil]|].
  apply NoDup_cons in Hnd as [Hk0 Hnd]. rewrite elem_of_cons. case_bool_decide as E.
  - subst k0. split; [intros [= <-]; by left|]. intros [[= <-]|Hin]; [done|].
    destruct Hk0. by apply (list_elem_of_fmap_2 fst) in Hin.
  - rewrite IH by done. split; [by right|]. by intros [[= -> ->]|?].
Qed.

Lemma assoc_get_perm {A} (m m' : list (string * A)) k : NoDup m.*1 → m ≡ₚ m' →
  assoc_get k m = assoc_get k m'.
Proof.
  intros Hnd Hp. assert (NoDup m'.*1) as Hnd' by (by rewrite <- Hp).
  apply option_eq. intros v. by rewrite !assoc_get_Some_iff, Hp.
Qed.

(** The hash of a process graph does not depend on the order of the members
    of its objects, at any depth: the canonical text respects the equivalence
    of reordered documents, and so does the hash. *)
Theorem graph_hash_key_order (to_text : Value → string) (v w : Value) : json_same v w →
  canonical_json to_text v = canonical_json to_text w ∧ graph_hash_of to_text v = graph_hash_of to_text w.
Proof.
  intros H. unfold graph_hash_of. assert (canonical_json to_text v = canonical_json to_text w) as E; [|by rewrite E].
  induction H as [v|u v w _ IH1 _ IH2|m m' Hnd Hp|l1 v v' l2 _ IH|m1 k v v' m2 _ IH].
  - done.
  - congruence.
  - cbn [canonical_json]. change (map fst m) with (m.*1). change (map fst m') with (m'.*1).
    rewrite (sort_strings_perm m.*1 m'.*1) by (by rewrite Hp).
    do 3 f_equal. apply list_fmap_ext. intros i k _. do 3 f_equal.
    apply assoc_get_perm; [|by apply Permutation_map].
    change (NoDup (((λ e, (e.1, canonical_json to_text e.2)) <$> m).*1)).
    by rewrite <- list_fmap_compose.
  - simpl. rewrite !map_app. simpl. by rewrite IH.
  - simpl. rewrite !map_app. simpl. by rewrite IH.
Qed.

(** The date of a record is the one the job store would print. *)
Lemma provenance_date days : provenance_days_to_ymd (days + 719468) = days_to_ymd days.
Proof. reflexivity. Qed.
Lemma now_rfc3339_iso8601 now : 0 ≤ now < 2 ^ 63 → now_rfc3339 now = iso8601 now.
Proof. intros Hn. unfold now_rfc3339, iso8601. rewrite to_signed_small by (simpl; lia). reflexivity. Qed.

(** The bridge publishes one event per event of the engine, in order. *)
Lemma spawn_bridge_pure {E} (f : E → JobEventKind) user job events :
  spawn_bridge (λ (_ : unit) e, (f e, ())) user job () events =
  (λ e, mkJobEvent user job (f e)) <$> events.
Proof. induction events as [|e events IH]; simpl; [done|]. by rewrite IH. Qed.

(** A cube that validates has coordinates on every dimension it names. *)
Lemma validate_coords c : validate c = Ok tt → ∀ d, d ∈ rc_dims c → ∃ coords,
  bt_get d (rc_coords c) = Some coords ∧ (d = BandDim → coords_len coords = band_count c).
Proof.
  unfold validate. intros Hv d Hd.
  destruct (result_traverse (validate_dim c) (rc_dims c)) as [us|] eqn:Ht; [|done].
  apply result_traverse_ok in Ht. apply list_elem_of_lookup in Hd as [i Hi].
  destruct (Forall2_lookup_l _ _ _ _ _ Ht Hi) as (u & _ & Hu). unfold validate_dim in Hu.
  destruct (bt_get d (rc_coords c)) as [coords|]; [|done]. exists coords. split; [done|]. simpl in Hu.
  intros ->. rewrite bool_decide_eq_true_2 in Hu by done. simpl in Hu.
  destruct (Z.eqb_spec (coords_len coords) (Z.of_nat (length (rc_bands c)))); done.
Qed.

(** ** Witnesses and examples *)

Module Demo.

Definition demo_graph : Value :=
  Object [("load", Object [("id", JString "s2"); ("bands", Array [JString "B04"])]); ("save", Null)].
Definition demo_reordered : Value :=
  Object [("save", Null); ("load", Object [("bands", Array [JString "B04"]); ("id", JString "s2")])].
Definition demo_text (v : Value) : string :=
  match v with JString s => quoted s | _ => "null" end.

Lemma graph_hash_key_order_witness :
  graph_hash_of demo_text demo_graph = graph_hash_of demo_text demo_reordered.
Proof.
  apply graph_hash_key_order. transitivity (Object [("load", Object [("bands", Array [JString "B04"]);
    ("id", JString "s2")]); ("save", Null)]).
  - apply (same_member [] "load" _ _ [("save", Null)]). apply same_order; [|by constructor].
    apply (bool_decide_unpack _). vm_compute. exact I.
  - apply same_order; [|by constructor]. apply (bool_decide_unpack _). vm_compute. exact I.
Defined.

(** Keys are not escaped: different documents have one canonical text. *)
Example canonical_json_collides : ∃ k,
  canonical_json demo_text (Object [(k, JString "x")]) =
  canonical_json demo_text (Object [("a", Null); ("b", JString "x")]).
Proof. exists ("a" +:+ chr dquote +:+ ":null," +:+ chr dquote +:+ "b"). vm_compute. reflexivity. Qed.

(** The tolerance is a thousandth of the resolution in map units, but is compared
    with a fraction of a pixel: with pixels of a kilometre every offset snaps. *)
Definition demo_cube (pixel origin : Z) : RasterCube :=
  mkRasterCube [] [] "EPSG:32633"
    [f64_of_Z origin; f64_of_Z pixel; f64_zero; f64_zero; f64_zero; f64_of_Z (- pixel)] []
    (mkProvenance [] None None None).
Example coarse_grids_always_snap :
  align (demo_cube 1000 0) (demo_cube 1000 500) = Ok Aligned ∧
  is_ok (align (demo_cube 10 0) (demo_cube 10 5)) = false.
Proof. split; vm_compute; reflexivity. Qed.
End Demo.
