(* ===== verification/ApiDiff.v ===== *)
(** * The differ of public surfaces

    tools/api-diff/src/lib.rs and main.rs: the public items of two source trees,
    each with the hash of its signature in a normal form that leaves out the
    names of the parameters, joined into rows.

    The syntax trees are those of syn, as far as the code looks at them; a type,
    a pattern or a generic parameter is a node of which only the token text is
    known ([to_tokens]).  The parser, the walk over the directory, SipHash, the
    order of the hash map and the CSV writer are parameters. *)

From Stdlib Require Import Ascii Sorted.
From S2P Require Import Prelude BTree Text Catalog Executor.
Local Open Scope Z_scope.

(** ** Symbols and rows *)

Inductive ItemKind := Fn | Struct | Enum | Trait | TypeAlias | Const | Static | Mod.
#[export] Instance item_kind_dec : EqDecision ItemKind.
Proof. solve_decision. Defined.

Definition tag (k : ItemKind) : string :=
  match k with
  | Fn => "fn" | Struct => "struct" | Enum => "enum" | Trait => "trait"
  | TypeAlias => "type" | Const => "const" | Static => "static" | Mod => "mod"
  end.

Record Symbol := mkSymbol {
  s_crate_name : string; s_module_path : string; s_kind : ItemKind; s_name : string;
  s_signature_hash : string }.

Definition join_key (s : Symbol) : string :=
  s_module_path s +:+ "::" +:+ tag (s_kind s) +:+ "::" +:+ s_name s.

Record DiffRow := mkDiffRow {
  r_module_path : string; r_kind : ItemKind; r_name : string; in_left : bool; in_right : bool;
  signature_match : option bool; left_hash : option string; right_hash : option string }.

(** ** Syntax trees *)

Inductive Visibility := VisPublic | VisRestricted | VisInherited.
Definition is_public (v : Visibility) : bool := match v with VisPublic => true | _ => false end.

Inductive FnArg (Node : Type) :=
| Receiver (reference mutability : bool) (ty : Node)
| Typed (pat ty : Node).
Arguments Receiver {Node} reference mutability ty.
Arguments Typed {Node} pat ty.

Record Signature (Node : Type) := mkSignature {
  asyncness : bool; unsafety : bool; sig_ident : string; generics : list Node;
  inputs : list (FnArg Node); output : option Node }.
Arguments mkSignature {Node}.
Arguments asyncness {Node}.
Arguments unsafety {Node}.
Arguments sig_ident {Node}.
Arguments generics {Node}.
Arguments inputs {Node}.
Arguments output {Node}.

Record Field (Node : Type) := mkField { f_vis : Visibility; f_ident : option string; f_ty : Node }.
Arguments mkField {Node}.
Arguments f_vis {Node}.
Arguments f_ident {Node}.
Arguments f_ty {Node}.

Inductive Fields (Node : Type) := Unit | Named (l : list (Field Node)) | Unnamed (l : list (Field Node)).
Arguments Unit {Node}.
Arguments Named {Node} l.
Arguments Unnamed {Node} l.

Inductive Item (Node : Type) :=
| ItemFn (vis : Visibility) (sig : Signature Node)
| ItemStruct (vis : Visibility) (ident : string) (gens : list Node) (fields : Fields Node)
| ItemEnum (vis : Visibility) (ident : string) (gens : list Node) (variants : list (string * Fields Node))
| ItemTrait (vis : Visibility) (ident : string) (gens : list Node) (methods : list (Signature Node))
| ItemType (vis : Visibility) (ident : string) (gens : list Node) (ty : Node)
| ItemConst (vis : Visibility) (ident : string) (ty : Node)
| ItemStatic (vis : Visibility) (ident : string) (ty : Node)
| ItemMod (vis : Visibility) (ident : string) (content : option (list (Item Node)))
| ItemImpl (methods : list (Visibility * Signature Node))
| ItemOther.
Arguments ItemFn {Node}.
Arguments ItemStruct {Node}.
Arguments ItemEnum {Node}.
Arguments ItemTrait {Node}.
Arguments ItemType {Node}.
Arguments ItemConst {Node}.
Arguments ItemStatic {Node}.
Arguments ItemMod {Node}.
Arguments ItemImpl {Node}.
Arguments ItemOther {Node}.

(** ** Normal forms *)

(** The loop of [quote_to_string]: every run of whitespace becomes one space. *)
Fixpoint squeeze (fuel : nat) (prev_ws : bool) (s : string) : string :=
  match fuel with
  | O => ""
  | S fuel =>
      match ws_strip s with
      | Some s' => (if prev_ws then "" else " ") +:+ squeeze fuel true s'
      | None => match s with EmptyString => "" | String c s' => String c (squeeze fuel false s') end
      end
  end.

Section normal_forms.
Context {Node : Type} (to_tokens : Node → string).

Definition quote_to_string (t : Node) : string :=
  let s := to_tokens t in trim (squeeze (S (String.length s)) false s).
Definition format_type : Node → string := quote_to_string.

(** The parameters between angle brackets, where there are any. *)
Definition angle (gens : list Node) : string :=
  match gens with [] => "" | _ => "<" +:+ join "," (quote_to_string <$> gens) +:+ ">" end.

Definition normalise_arg (arg : FnArg Node) : string :=
  match arg with
  | Receiver true true _ => "&mut self"
  | Receiver true false _ => "&self"
  | Receiver false true _ => "mut self"
  | Receiver false false _ => "self"
  | Typed _ ty => "_: " +:+ format_type ty
  end.

Definition normalise_fn_sig (sig : Signature Node) : string :=
  (if asyncness sig then "async " else "") +:+ (if unsafety sig then "unsafe " else "") +:+
  "fn " +:+ sig_ident sig +:+ angle (generics sig) +:+
  "(" +:+ join "," (normalise_arg <$> inputs sig) +:+ ")" +:+
  match output sig with None => "" | Some ty => " -> " +:+ format_type ty end.

Definition public_fields (l : list (Field Node)) : list (Field Node) :=
  filter (λ f, is_public (f_vis f) = true) l.

Definition normalise_struct (ident : string) (gens : list Node) (fields : Fields Node) : string :=
  "struct " +:+ ident +:+ angle gens +:+
  match fields with
  | Unit => ""
  | Named l =>
      " { " +:+ join "," ((λ f, default "" (f_ident f) +:+ ": " +:+ format_type (f_ty f)) <$> public_fields l) +:+ " }"
  | Unnamed l => "(" +:+ join "," ((λ f, format_type (f_ty f)) <$> public_fields l) +:+ ")"
  end.

Definition normalise_enum (ident : string) (variants : list (string * Fields Node)) : string :=
  "enum " +:+ ident +:+ " { " +:+ join "," variants.*1 +:+ " }".
Definition normalise_trait (ident : string) (gens : list Node) : string := "trait " +:+ ident +:+ angle gens.
Definition normalise_type_alias (ident : string) (ty : Node) : string :=
  "type " +:+ ident +:+ " = " +:+ format_type ty.

(** ** Collection *)

Context (sip_hash : string → Z).          (* DefaultHasher of a str, 64 bits *)
Definition hash_signature (s : string) : string := hex016 (sip_hash s).

Definition symbol_parts (item : Item Node) : option (ItemKind * string * string) :=
  match item with
  | ItemFn vis sig => if is_public vis then Some (Fn, sig_ident sig, normalise_fn_sig sig) else None
  | ItemStruct vis id gens fields => if is_public vis then Some (Struct, id, normalise_struct id gens fields) else None
  | ItemEnum vis id _ variants => if is_public vis then Some (Enum, id, normalise_enum id variants) else None
  | ItemTrait vis id gens _ => if is_public vis then Some (Trait, id, normalise_trait id gens) else None
  | ItemType vis id _ ty => if is_public vis then Some (TypeAlias, id, normalise_type_alias id ty) else None
  | ItemConst vis id ty =>
      if is_public vis then Some (Const, id, "const " +:+ id +:+ ": " +:+ format_type ty) else None
  | ItemStatic vis id ty =>
      if is_public vis then Some (Static, id, "static " +:+ id +:+ ": " +:+ format_type ty) else None
  | ItemMod vis id _ => if is_public vis then Some (Mod, id, "mod " +:+ id) else None
  | ItemImpl _ | ItemOther => None
  end.

Definition symbol_from_item (crate_name module_path : string) (item : Item Node) : option Symbol :=
  '(kind, name, sig_src) ← symbol_parts item;
  Some (mkSymbol crate_name module_path kind name (hash_signature sig_src)).

Definition inner_path (module_path ident : string) : string :=
  if bool_decide (module_path = "") then ident else module_path +:+ "." +:+ ident.

(** The symbols an item pushes: its own, then those of a public inline module. *)
Fixpoint item_symbols (crate_name module_path : string) (item : Item Node) : list Symbol :=
  option_list (symbol_from_item crate_name module_path item) ++
  match item with
  | ItemMod VisPublic id (Some items) => concat (map (item_symbols crate_name (inner_path module_path id)) items)
  | _ => []
  end.
Definition walk_items (items : list (Item Node)) (crate_name module_path : string) (out : list Symbol) : list Symbol :=
  out ++ concat (map (item_symbols crate_name module_path) items).

Context (parse_file : string → result string (list (Item Node))).   (* syn *)

Definition collect_file (src crate_name module_path : string) (out : list Symbol) : result string (list Symbol) :=
  items ← parse_file src; Ok (walk_items items crate_name module_path out).

(** [p.extension()] of a file name: what follows the last dot, if it is not the first character. *)
Definition extension (name : string) : option string :=
  '(stem, ext) ← rsplit_once "." name;
  if bool_decide (stem = "") then None else Some ext.

Definition drop_last (comps : list string) : list string := take (length comps - 1) comps.
Fixpoint after_src (comps : list string) : list string :=
  match comps with
  | [] => []
  | c :: comps => if bool_decide (c = "src") then comps else after_src comps
  end.

(** [derive_module_path] on the components below the root. *)
Definition derive_module_path (rel : list string) : string * string :=
  let comps :=
    match last rel with
    | None => rel
    | Some name =>
        let name := default name (strip_suffix ".rs" name) in
        if bool_decide (name ∈ ["mod"; "lib"; "main"]) then drop_last rel else drop_last rel ++ [name]
    end in
  (match comps with _ :: name :: _ => name | _ => "unknown" end, join "." (after_src comps)).

(** An entry of the walk: its components below the root, its file name, its
    path, and what reading it gives. *)
Record Entry := mkEntry {
  e_rel : list string; e_file_name : option string; e_path : string; e_contents : result string string }.

Fixpoint collect_entries (entries : list Entry) (out : list Symbol) : result string (list Symbol) :=
  match entries with
  | [] => Ok out
  | e :: entries =>
      if bool_decide (e_file_name e ≫= extension = Some "rs") then
        src ← map_err (λ c, "read " +:+ e_path e +:+ ": " +:+ c) (e_contents e);
        let '(crate_name, module_path) := derive_module_path (e_rel e) in
        out ← map_err (λ c, "parse " +:+ e_path e +:+ ": " +:+ c) (collect_file src crate_name module_path out);
        collect_entries entries out
      else collect_entries entries out
  end.
Definition collect_tree (entries : list Entry) : result string (list Symbol) := collect_entries entries [].
End normal_forms.

(** ** The join *)

Definition Sides : Type := option Symbol * option Symbol.

Definition enter_left (m : gmap string Sides) (s : Symbol) : gmap string Sides :=
  <[join_key s := (Some s, (default (None, None) (m !! join_key s)).2)]> m.
Definition enter_right (m : gmap string Sides) (s : Symbol) : gmap string Sides :=
  <[join_key s := ((default (None, None) (m !! join_key s)).1, Some s)]> m.

(** The row of an entry; one without a side is the [unreachable!] arm. *)
Definition row_of (sides : Sides) : option DiffRow :=
  let '(l, r) := sides in
  any ← match l with Some s => Some s | None => r end;
  Some (mkDiffRow (s_module_path any) (s_kind any) (s_name any) (bool_decide (is_Some l)) (bool_decide (is_Some r))
    match l, r with
    | Some a, Some b => Some (bool_decide (s_signature_hash a = s_signature_hash b))
    | _, _ => None
    end (s_signature_hash <$> l) (s_signature_hash <$> r)).

Section diff.
Context (into_values : gmap string Sides → list Sides).   (* the order of the hash map *)

(** None is a panic. *)
Definition diff (left right : list Symbol) : option (list DiffRow) :=
  let m := foldl enter_right (foldl enter_left ∅ left) right in
  rows ← mapM row_of (into_values m);
  Some (sort_by_key (λ r, (r_module_path r, r_name r)) rows).

Definition bool_text (b : bool) : string := if b then "true" else "false".
Definition csv_header : list string :=
  ["module_path"; "kind"; "name"; "in_left"; "in_right"; "signature_match"; "left_hash"; "right_hash"].
Definition csv_record (r : DiffRow) : list string :=
  [r_module_path r; tag (r_kind r); r_name r; bool_text (in_left r); bool_text (in_right r);
   default "" (bool_text <$> signature_match r); default "" (left_hash r); default "" (right_hash r)].

Context {Out : Type} (write_record : list string → Out → result string Out) (flush : Out → result string Out).
Fixpoint write_records (records : list (list string)) (out : Out) : result string Out :=
  match records with
  | [] => Ok out
  | r :: records => out ← write_record r out; write_records records out
  end.
Definition write_csv (out : Out) (rows : list DiffRow) : result string Out :=
  out ← write_records (csv_header :: (csv_record <$> rows)) out; flush out.

(** The line on standard error. *)
Definition summary (left right : list Symbol) (rows : list DiffRow) : string :=
  "left=" +:+ pretty (Z.of_nat (length left)) +:+ ", right=" +:+ pretty (Z.of_nat (length right)) +:+
  ", rows=" +:+ pretty (Z.of_nat (length rows)) +:+
  ", only_left=" +:+ pretty (Z.of_nat (length (filter (λ r, in_left r && negb (in_right r) = true) rows))) +:+
  ", only_right=" +:+ pretty (Z.of_nat (length (filter (λ r, negb (in_left r) && in_right r = true) rows))) +:+
  ", sig_mismatch=" +:+ pretty (Z.of_nat (length (filter (λ r, signature_match r = Some false) rows))).

(** [main] after the parse of the arguments: the lines on standard error and
    the output, [create] is [File::create]. *)
Definition main (stdout : Out) (create : string → result string Out)
    (left right : result string (list Symbol)) (out : string) : list string * option (result string Out) :=
  match left with
  | Err e => ([], Some (Err e))
  | Ok lsyms =>
      match right with
      | Err e => ([], Some (Err e))
      | Ok rsyms =>
          match diff lsyms rsyms with
          | None => ([], None)
          | Some rows =>
              ([summary lsyms rsyms rows],
               Some (if bool_decide (out = "-") then write_csv stdout rows
                     else f ← create out; write_csv f rows))
          end
      end
  end.
End diff.

(** ** What is collected *)

(** [item] lies at module path [mp] below [items] at [base], through public inline modules only. *)
Inductive exposed {Node} : list (Item Node) → string → Item Node → string → Prop :=
| exposed_here items base item : item ∈ items → exposed items base item base
| exposed_inside items base id inner item mp :
    ItemMod VisPublic id (Some inner) ∈ items → exposed inner (inner_path base id) item mp →
    exposed items base item mp.

Section collection.
Context {Node : Type} (to_tokens : Node → string) (sip_hash : string → Z).

Lemma concat_map_elem {A B} (f : A → list B) (l : list A) (y : B) :
  y ∈ concat (map f l) ↔ ∃ x, x ∈ l ∧ y ∈ f x.
Proof.
  induction l as [|a l IH]; simpl.
  - split; [by intros ?%not_elem_of_nil|]. intros (x & ?%not_elem_of_nil & _). done.
  - rewrite elem_of_app, IH. split.
    + intros [H|(x & Hx & Hy)]; [exists a|exists x]; split; set_solver.
    + intros (x & [->|Hx]%elem_of_cons & Hy); [by left|right; eauto].
Qed.

Lemma option_list_elem {A} (o : option A) (x : A) : x ∈ option_list o ↔ o = Some x.
Proof. destruct o as [y|]; simpl; [rewrite list_elem_of_singleton; naive_solver|]. split; [by intros ?%not_elem_of_nil|done]. Qed.

Lemma item_symbols_unfold crate mp (item : Item Node) :
  item_symbols to_tokens sip_hash crate mp item =
  option_list (symbol_from_item to_tokens sip_hash crate mp item) ++
  match item with
  | ItemMod VisPublic id (Some items) =>
      concat (map (item_symbols to_tokens sip_hash crate (inner_path mp id)) items)
  | _ => []
  end.
Proof. by destruct item. Qed.

(** Induction over an item and the items of its module. *)
Lemma item_induction (P : Item Node → Prop) :
  (∀ item, (∀ vis id items, item = ItemMod vis id (Some items) → Forall P items) → P item) → ∀ item, P item.
Proof.
  intros Hstep. fix IH 1. intros item. apply Hstep.
  destruct item as [| | | | | | |vis id [items|]| |]; try done.
  assert (Forall P items) as Hall.
  { clear -IH. induction items as [|it items IHi]; constructor; [apply IH|exact IHi]. }
  by intros ? ? ? [= _ _ <-].
Qed.

Lemma exposed_mono (items items' : list (Item Node)) base item mp :
  items ⊆ items' → exposed items base item mp → exposed items' base item mp.
Proof.
  intros Hsub He. inversion He as [? ? ? Hin|? ? ? ? ? ? Hin He']; subst; [by apply exposed_here, Hsub|].
  eapply exposed_inside; [by apply Hsub|done].
Qed.

Lemma item_symbols_sound crate s item : ∀ mp,
  s ∈ item_symbols to_tokens sip_hash crate mp item →
  ∃ item' mp', exposed [item] mp item' mp' ∧ symbol_from_item to_tokens sip_hash crate mp' item' = Some s.
Proof.
  induction item as [item IH] using item_induction. intros mp Hs.
  rewrite item_symbols_unfold, elem_of_app, option_list_elem in Hs. destruct Hs as [Hs|Hs].
  { exists item, mp. split; [|done]. apply exposed_here. set_solver. }
  destruct item as [| | | | | | |[] id [items|]| |]; try (by apply not_elem_of_nil in Hs).
  specialize (IH _ _ _ eq_refl). rewrite Forall_forall in IH.
  apply concat_map_elem in Hs as (it & Hit & Hs). destruct (IH it Hit _ Hs) as (i' & m' & He & Hsym).
  exists i', m'. split; [|done]. apply (exposed_inside _ _ id items); [by apply list_elem_of_singleton|].
  eapply exposed_mono; [|exact He]. by intros ? ->%list_elem_of_singleton.
Qed.

(** The symbols of a file are those of the items reachable through public modules. *)
Theorem walk_items_exposed items crate base s :
  s ∈ walk_items to_tokens sip_hash items crate base [] ↔
  ∃ item mp, exposed items base item mp ∧ symbol_from_item to_tokens sip_hash crate mp item = Some s.
Proof.
  unfold walk_items. simpl. rewrite concat_map_elem. split.
  - intros (it & Hit & Hs). destruct (item_symbols_sound crate s it base Hs) as (i' & m' & He & Hsym).
    exists i', m'. split; [|done]. eapply exposed_mono; [|exact He]. by intros ? ->%list_elem_of_singleton.
  - intros (item & mp & He & Hsym). induction He as [items base item Hin|items base id inner item mp Hin _ IH].
    + exists item. split; [done|]. rewrite item_symbols_unfold, elem_of_app, option_list_elem. by left.
    + exists (ItemMod VisPublic id (Some inner)). split; [done|].
      rewrite item_symbols_unfold, elem_of_app. right. apply concat_map_elem, IH, Hsym.
Qed.

(** Functions that differ only in the patterns of their parameters (and in the type written for self). *)
Definition same_arg (a b : FnArg Node) : Prop :=
  match a, b with
  | Receiver r m _, Receiver r' m' _ => r = r' ∧ m = m'
  | Typed _ ty, Typed _ ty' => ty = ty'
  | _, _ => False
  end.
Definition same_signature (a b : Signature Node) : Prop :=
  asyncness a = asyncness b ∧ unsafety a = unsafety b ∧ sig_ident a = sig_ident b ∧ generics a = generics b ∧
  Forall2 same_arg (inputs a) (inputs b) ∧ output a = output b.

Lemma signature_ignores_names vis a b crate mp : same_signature a b →
  symbol_from_item to_tokens sip_hash crate mp (ItemFn vis a) =
  symbol_from_item to_tokens sip_hash crate mp (ItemFn vis b).
Proof.
  intros (Ha & Hu & Hi & Hg & Hargs & Ho). unfold symbol_from_item, symbol_parts.
  assert (normalise_fn_sig to_tokens a = normalise_fn_sig to_tokens b) as E.
  { unfold normalise_fn_sig. rewrite Ha, Hu, Hi, Hg, Ho. do 6 f_equal.
    assert (normalise_arg to_tokens <$> inputs a = normalise_arg to_tokens <$> inputs b) as ->; [|done].
    induction Hargs as [|x y l k Hxy _ IH]; [done|]. rewrite !fmap_cons, IH. f_equal.
    destruct x as [r m ?|? ty], y as [r' m' ?|? ty']; simpl in *; try done; [by destruct Hxy as [-> ->]|by subst]. }
  by rewrite E, Hi.
Qed.
End collection.

(** ** The join of two trees *)

(** The symbol of a tree that stands for a key: the last one collected. *)
Definition symbol_for (key : string) (l : list Symbol) : option Symbol :=
  last (filter (λ s, join_key s = key) l).

(** The map after both loops. *)
Lemma last_snoc_filter {A} (P : A → Prop) `{∀ x, Decision (P x)} (l : list A) (x : A) :
  last (filter P (l ++ [x])) = if decide (P x) then Some x else last (filter P l).
Proof. rewrite filter_app, filter_cons, filter_nil. case_decide; [apply last_snoc|by rewrite app_nil_r]. Qed.

Definition has_key (key : string) (l : list Symbol) : bool := existsb (λ s, bool_decide (join_key s = key)) l.
Lemma has_key_spec key l : has_key key l = true ↔ key ∈ join_key <$> l.
Proof.
  unfold has_key. rewrite existsb_exists, list_elem_of_fmap. split.
  - intros (s & Hs & <-%bool_decide_eq_true). exists s. split; [done|]. by apply list_elem_of_In.
  - intros (s & -> & Hs). exists s. split; [by apply list_elem_of_In|]. by apply bool_decide_eq_true.
Qed.

Definition sides_of (left right : list Symbol) (key : string) : option Sides :=
  if has_key key left || has_key key right then Some (symbol_for key left, symbol_for key right) else None.

Lemma symbol_for_None key l : symbol_for key l = None ↔ key ∉ join_key <$> l.
Proof.
  unfold symbol_for. rewrite last_None, list_elem_of_fmap. split.
  - intros E (s & -> & Hs). assert (s ∈ filter (λ t, join_key t = join_key s) l) as Hin
      by (by apply list_elem_of_filter). rewrite E in Hin. by apply not_elem_of_nil in Hin.
  - intros Hn. destruct (filter _ l) as [|s k] eqn:E; [done|]. exfalso. apply Hn.
    assert (s ∈ filter (λ s, join_key s = key) l) as [Hk Hs]%list_elem_of_filter by (rewrite E; set_solver).
    by exists s.
Qed.

Lemma symbol_for_Some key l s : symbol_for key l = Some s → s ∈ l ∧ join_key s = key.
Proof.
  unfold symbol_for. intros Hl%last_Some_elem_of%list_elem_of_filter. tauto.
Qed.

Lemma symbol_for_snoc key l s :
  symbol_for key (l ++ [s]) = if decide (join_key s = key) then Some s else symbol_for key l.
Proof. unfold symbol_for. exact (last_snoc_filter (λ t, join_key t = key) l s). Qed.
Lemma has_key_snoc key l s : has_key key (l ++ [s]) = has_key key l || bool_decide (join_key s = key).
Proof. unfold has_key. rewrite existsb_app. simpl. by rewrite orb_false_r. Qed.
Lemma symbol_for_absent key l : has_key key l = false → symbol_for key l = None.
Proof. intros H. apply symbol_for_None. rewrite <- has_key_spec, H. done. Qed.

Lemma lookup_enter_left m s key :
  enter_left m s !! key =
    if decide (join_key s = key) then Some (Some s, (default (None, None) (m !! key)).2) else m !! key.
Proof. unfold enter_left. case_decide; [subst; by rewrite lookup_insert_eq|by rewrite lookup_insert_ne]. Qed.
Lemma lookup_enter_right m s key :
  enter_right m s !! key =
    if decide (join_key s = key) then Some ((default (None, None) (m !! key)).1, Some s) else m !! key.
Proof. unfold enter_right. case_decide; [subst; by rewrite lookup_insert_eq|by rewrite lookup_insert_ne]. Qed.

Lemma entered_left l key : foldl enter_left ∅ l !! key = sides_of l [] key.
Proof.
  revert key. induction l as [|s l IH] using rev_ind; intros key; [apply lookup_empty|].
  rewrite foldl_app. cbn [foldl]. rewrite lookup_enter_left, IH. unfold sides_of.
  rewrite symbol_for_snoc, has_key_snoc. case_decide as E.
  - rewrite bool_decide_true, orb_true_r by done. by destruct (_ || _).
  - rewrite bool_decide_false by done. by rewrite !orb_false_r.
Qed.

Lemma joined_lookup left right key :
  foldl enter_right (foldl enter_left ∅ left) right !! key = sides_of left right key.
Proof.
  revert key. induction right as [|s right IH] using rev_ind; intros key; [apply entered_left|].
  rewrite foldl_app. cbn [foldl]. rewrite lookup_enter_right, IH. unfold sides_of.
  rewrite symbol_for_snoc, has_key_snoc. case_decide as E.
  - rewrite bool_decide_true, !orb_true_r by done. destruct (has_key key left) eqn:El; [done|].
    rewrite (symbol_for_absent _ left) by done. by destruct (has_key key right).
  - rewrite bool_decide_false by done. by rewrite !orb_false_r.
Qed.

(** The key of a row, and what the row says of the two trees. *)
Definition row_key (r : DiffRow) : string :=
  r_module_path r +:+ "::" +:+ tag (r_kind r) +:+ "::" +:+ r_name r.
Definition any_side (sides : Sides) : option Symbol := match sides.1 with Some s => Some s | None => sides.2 end.
Definition describes (left right : list Symbol) (r : DiffRow) : Prop :=
  let l := symbol_for (row_key r) left in
  let r' := symbol_for (row_key r) right in
  in_left r = bool_decide (row_key r ∈ join_key <$> left) ∧
  in_right r = bool_decide (row_key r ∈ join_key <$> right) ∧
  left_hash r = s_signature_hash <$> l ∧ right_hash r = s_signature_hash <$> r' ∧
  signature_match r =
    match left_hash r, right_hash r with Some a, Some b => Some (bool_decide (a = b)) | _, _ => None end.

Lemma symbol_for_is_Some key l : bool_decide (is_Some (symbol_for key l)) = bool_decide (key ∈ join_key <$> l).
Proof.
  apply bool_decide_ext. rewrite <- not_eq_None_Some, symbol_for_None.
  destruct (decide (key ∈ join_key <$> l)); tauto.
Qed.

Lemma sides_of_any left right key sides : sides_of left right key = Some sides →
  ∃ s, any_side sides = Some s ∧ join_key s = key.
Proof.
  unfold sides_of, any_side. destruct (_ || _) eqn:E; [|done]. intros [= <-]. simpl.
  destruct (symbol_for key left) as [s|] eqn:El; [exists s; split; [done|by apply (symbol_for_Some key left)]|].
  destruct (symbol_for key right) as [s|] eqn:Er; [exists s; split; [done|by apply (symbol_for_Some key right)]|].
  apply symbol_for_None in El. apply symbol_for_None in Er. rewrite <- has_key_spec in El, Er.
  apply orb_true_iff in E. tauto.
Qed.

Lemma row_of_describes left right key sides r : sides_of left right key = Some sides → row_of sides = Some r →
  row_key r = key ∧ describes left right r.
Proof.
  intros Hs Hr. destruct (sides_of_any left right key sides Hs) as (s & Hany & Hk).
  assert (sides = (symbol_for key left, symbol_for key right)) as ->.
  { unfold sides_of in Hs. destruct (_ || _); [|done]. by injection Hs. }
  unfold row_of in Hr. unfold any_side in Hany. simpl in Hany. rewrite Hany in Hr. cbn [mbind option_bind] in Hr.
  injection Hr as <-. assert (∀ a b c d e, row_key (mkDiffRow (s_module_path s) (s_kind s) (s_name s) a b c d e) = key)
    as Hkey by (intros; exact Hk).
  split; [apply Hkey|]. unfold describes. rewrite Hkey, <- !symbol_for_is_Some. simpl. split_and!; try done.
  by destruct (symbol_for key left), (symbol_for key right).
Qed.

Definition sides_key (sides : Sides) : string := default "" (join_key <$> any_side sides).

Lemma row_of_key sides r : row_of sides = Some r → row_key r = sides_key sides.
Proof.
  unfold row_of, sides_key, any_side. destruct sides as [[l|] [r'|]]; cbn; [by intros [= <-]..|done].
Qed.
Lemma rows_keys (vs : list Sides) rows : Forall2 (λ r sides, row_of sides = Some r) rows vs →
  row_key <$> rows = sides_key <$> vs.
Proof. induction 1 as [|sides r vs rows Hr _ IH]; [done|]. rewrite !fmap_cons, IH. f_equal. by apply row_of_key. Qed.

Lemma has_key_app key l k : has_key key (l ++ k) = has_key key l || has_key key k.
Proof. apply existsb_app. Qed.

Lemma joined_keys left right (m : gmap string Sides) : (∀ key, m !! key = sides_of left right key) →
  sides_key <$> (map_to_list m).*2 = (map_to_list m).*1 ∧
  ∀ key, key ∈ (map_to_list m).*1 ↔ key ∈ join_key <$> left ++ right.
Proof.
  intros Hm. split.
  - rewrite <- list_fmap_compose. apply list_fmap_ext. intros i [key sides] Hi.
    apply list_elem_of_lookup_2, elem_of_map_to_list in Hi. rewrite Hm in Hi.
    destruct (sides_of_any left right key sides Hi) as (s & Hs & <-). simpl. unfold sides_key. by rewrite Hs.
  - intros key. rewrite <- has_key_spec, has_key_app, list_elem_of_fmap. split.
    + intros ([? sides] & -> & Hi%elem_of_map_to_list). rewrite Hm in Hi. unfold sides_of in Hi.
      simpl. by destruct (_ || _).
    + intros Hk. exists (key, (symbol_for key left, symbol_for key right)). split; [done|].
      apply elem_of_map_to_list. rewrite Hm. unfold sides_of. by rewrite Hk.
Qed.

Section join.
Context (into_values : gmap string Sides → list Sides).
Hypothesis into_values_perm : ∀ m, into_values m ≡ₚ (map_to_list m).*2.

(** C38: The differ never reaches its [unreachable!] arm.  It writes exactly one
    row for every key (module path, kind and name) of a symbol of either tree,
    in the order of module path and name; the row says in which trees the key
    occurs, carries the hash of the last symbol collected for it on each side,
    and compares the hashes exactly when both sides have it. *)
Theorem diff_correct left right :
  ∃ rows, diff into_values left right = Some rows ∧
    StronglySorted (in_order (λ r, (r_module_path r, r_name r))) rows ∧
    NoDup (row_key <$> rows) ∧
    (∀ key, key ∈ row_key <$> rows ↔ key ∈ join_key <$> left ++ right) ∧
    Forall (describes left right) rows.
Proof using into_values_perm.
  unfold diff. set (m := foldl enter_right (foldl enter_left ∅ left) right).
  assert (∀ key, m !! key = sides_of left right key) as Hm by apply joined_lookup.
  destruct (joined_keys left right m Hm) as [Hfst Hdom].
  assert (∀ sides, sides ∈ into_values m → ∃ key, sides_of left right key = Some sides) as Hin.
  { intros sides. rewrite into_values_perm, list_elem_of_fmap. intros ([key ?] & -> & Hk%elem_of_map_to_list).
    exists key. by rewrite <- Hm. }
  destruct (mapM row_of (into_values m)) as [rows|] eqn:Hrows.
  2: { apply mapM_None in Hrows. apply Exists_exists in Hrows as ([l r] & (key & Hk)%Hin & Hnone).
       apply sides_of_any in Hk as (s & Hs & _). unfold any_side in Hs. unfold row_of in Hnone.
       simpl in Hs. rewrite Hs in Hnone. done. }
  cbn [mbind option_bind]. eexists. split; [done|]. apply mapM_Some, Forall2_flip in Hrows.
  assert (row_key <$> rows ≡ₚ (map_to_list m).*1) as Hkeys
    by (by rewrite (rows_keys _ _ Hrows), into_values_perm, Hfst).
  split_and!; [apply sort_by_key_sorted| | |].
  - rewrite (sort_by_key_perm _ rows), Hkeys. apply NoDup_fst_map_to_list.
  - intros key. by rewrite (sort_by_key_perm _ rows), Hkeys.
  - rewrite (sort_by_key_perm _ rows). apply Forall_forall. intros r (i & Hi)%list_elem_of_lookup_1.
    destruct (Forall2_lookup_l _ _ _ _ _ Hrows Hi) as (sides & Hs & Hrow).
    apply list_elem_of_lookup_2, Hin in Hs as (key & Hs). by eapply row_of_describes.
Qed.
End join.

(** ** Witnesses and examples *)

Module Demo.

(** Nodes are their token text. *)
Definition demo_hash (s : string) : Z := Z.of_nat (String.length s).
Definition demo_fn (name pat ty : string) : Item string :=
  ItemFn VisPublic (mkSignature false false name [] [Typed pat ty] (Some "i32")).
Definition demo_symbols (items : list (Item string)) : list Symbol :=
  walk_items id demo_hash items "demo" "geo" [].
Definition left_items : list (Item string) :=
  [demo_fn "shared" "x" "i32"; demo_fn "only_left" "x" "i32"; ItemFn VisRestricted (mkSignature false false "hidden" [] [] None);
   ItemMod VisPublic "inner" (Some [demo_fn "nested" "x" "f64"])].
Definition right_items : list (Item string) := [demo_fn "shared" "y" "&  str"; demo_fn "only_right" "x" "i32"].
Definition demo_diff : option (list DiffRow) :=
  diff (λ m, (map_to_list m).*2) (demo_symbols left_items) (demo_symbols right_items).

Lemma diff_correct_witness :
  ∃ rows, demo_diff = Some rows ∧ NoDup (row_key <$> rows) ∧ "geo.inner::fn::nested" ∈ row_key <$> rows ∧
    (λ r, (row_key r, signature_match r)) <$> rows =
      [("geo::mod::inner", None); ("geo::fn::only_left", None); ("geo::fn::only_right", None);
       ("geo::fn::shared", Some false); ("geo.inner::fn::nested", None)].
Proof.
  destruct (diff_correct (λ m, (map_to_list m).*2) (λ m, reflexivity _) (demo_symbols left_items)
    (demo_symbols right_items)) as (rows & Hd & _ & Hnd & Hk & _).
  exists rows. split; [exact Hd|]. split; [exact Hnd|]. split.
  - apply Hk. apply (bool_decide_unpack _). vm_compute. exact I.
  - assert (Some ((λ r, (row_key r, signature_match r)) <$> rows) = fmap (λ r, (row_key r, signature_match r)) <$> demo_diff)
      as E by (unfold demo_diff; by rewrite Hd). vm_compute in E. by injection E.
Defined.

(** Parameter names do not count, runs of white space do not count. *)
Example names_and_spaces_ignored :
  demo_symbols [demo_fn "read" "path" "& std :: path"] = demo_symbols [demo_fn "read" "p" "&   std ::  path"].
Proof. vm_compute. reflexivity. Qed.

(** The payload of a variant, the methods of a trait and those of an
    implementation do not enter any hash. *)
Example payloads_and_methods_ignored :
  demo_symbols [ItemEnum VisPublic "E" [] [("A", Unnamed [mkField VisInherited None "i32"])];
                ItemTrait VisPublic "T" [] [mkSignature false false "f" [] [] None];
                ItemImpl [(VisPublic, mkSignature false false "m" [] [] None)]] =
  demo_symbols [ItemEnum VisPublic "E" [] [("A", Unit)]; ItemTrait VisPublic "T" [] []].
Proof. vm_compute. reflexivity. Qed.

(** Below a root that is itself a src directory, every module path is empty
    and the crate is the second component of the file. *)
Example src_root_loses_modules :
  derive_module_path ["geo"; "tile.rs"] = ("tile", "") ∧ derive_module_path ["geo"; "grid"; "tile.rs"] = ("grid", "") ∧
  derive_module_path ["crates"; "orbit-geo"; "src"; "geo"; "mod.rs"] = ("orbit-geo", "geo").
Proof. vm_compute. done. Qed.

(** Two crates with a function of the same name at their roots share a row:
    the first one's hash is lost. *)
Example crates_share_a_row :
  let read (crate ty : string) := option_list (symbol_from_item id demo_hash crate "" (demo_fn "read" "x" ty)) in
  let both := read "a" "i32" ++ read "b" "f64x" in
  option_map length (diff (λ m, (map_to_list m).*2) both (read "b" "f64x")) = Some 1%nat ∧
  option_map (map signature_match) (diff (λ m, (map_to_list m).*2) both (read "a" "i32")) = Some [Some false].
Proof. vm_compute. done. Qed.
End Demo.
