(* ===== verification/Discovery.v ===== *)
(** * STAC discovery: searches, signers, item lists and downloads

    crates/eo-catalog (search requests and the in-memory client, the asset
    signers, the known providers), crates/orbit-geo/src/stac.rs (downloads of
    item assets), stac_helpers.rs (derived lists) and dsl/ (the query builder).

    An item of the stac crate is its id, its assets in order and the additional
    fields of its properties, which is what the code reads of it.  HTTP, SHA-256,
    the URL parser and the faults of the disk are parameters. *)

From Stdlib Require Import Ascii Sorted.
From S2P Require Import Prelude BTree F64 Text Json Catalog OpenEo Window.
Local Open Scope Z_scope.

(** ** crates/eo-catalog/src/client.rs *)

Record Bbox := mkBbox { b_west : f64; b_south : f64; b_east : f64; b_north : f64 }.

Record SearchRequest := mkSearchRequest {
  sr_bbox : option Bbox; sr_datetime : option string; sr_collections : list string; sr_ids : list string;
  sr_filter : option string; sr_limit : option Z }.
Definition SearchRequest_default : SearchRequest := mkSearchRequest None None [] [] None None.
Definition with_bbox (b : Bbox) (r : SearchRequest) : SearchRequest :=
  mkSearchRequest (Some b) (sr_datetime r) (sr_collections r) (sr_ids r) (sr_filter r) (sr_limit r).
Definition with_collection (c : string) (r : SearchRequest) : SearchRequest :=
  mkSearchRequest (sr_bbox r) (sr_datetime r) (sr_collections r ++ [c]) (sr_ids r) (sr_filter r) (sr_limit r).
Definition with_datetime (d : string) (r : SearchRequest) : SearchRequest :=
  mkSearchRequest (sr_bbox r) (Some d) (sr_collections r) (sr_ids r) (sr_filter r) (sr_limit r).
Definition with_limit (n : Z) (r : SearchRequest) : SearchRequest :=
  mkSearchRequest (sr_bbox r) (sr_datetime r) (sr_collections r) (sr_ids r) (sr_filter r) (Some n).

Record InMemoryItem := mkInMemoryItem {
  im_id : string; im_collection : string; im_bbox : Bbox; im_datetime : string }.

Inductive InMemoryError := BadDatetime (s : string).

Definition parse_datetime (s : string) : result InMemoryError (option string * option string) :=
  if bool_decide (s = "") then Err (BadDatetime s)
  else match split_once "/" s with
  | Some (lhs, rhs) =>
      let start := if bool_decide (lhs = "..") then None else Some lhs in
      let stop := if bool_decide (rhs = "..") then None else Some rhs in
      match start, stop with
      | None, None => Err (BadDatetime s)
      | _, _ => Ok (start, stop)
      end
  | None => Ok (Some s, Some s)
  end.

(** [a < b] on texts. *)
Definition text_lt (a b : string) : bool := bool_decide (cmp a b = Lt).

Definition datetime_matches (start stop : option string) (item : string) : bool :=
  match start with
  | Some s => if text_lt item s then false else match stop with Some e => negb (text_lt e item) | None => true end
  | None => match stop with Some e => negb (text_lt e item) | None => true end
  end.

Definition bbox_intersects (a b : Bbox) : bool :=
  negb (f64_ltb (b_east a) (b_west b) || f64_ltb (b_east b) (b_west a) ||
        f64_ltb (b_north a) (b_south b) || f64_ltb (b_north b) (b_south a)).

Definition item_matches (req : SearchRequest) (dt_filter : option (option string * option string))
    (it : InMemoryItem) : bool :=
  match sr_ids req with
  | _ :: _ => bool_decide (im_id it ∈ sr_ids req)
  | [] =>
      if match sr_collections req with [] => false | cs => negb (bool_decide (im_collection it ∈ cs)) end then false
      else if match sr_bbox req with Some b => negb (bbox_intersects b (im_bbox it)) | None => false end then false
      else match dt_filter with
           | Some (start, stop) => datetime_matches start stop (im_datetime it)
           | None => true
           end
  end.

(** [search] of the in-memory client. *)
Definition search (items : list InMemoryItem) (req : SearchRequest) : result InMemoryError (list string) :=
  dt_filter ← match sr_datetime req with
              | None => Ok None
              | Some s => Some <$> parse_datetime s
              end;
  let out := im_id <$> filter (λ it, item_matches req dt_filter it = true) items in
  Ok (take (Z.to_nat (default 100 (sr_limit req))) out).

(** ** crates/eo-catalog/src/auth.rs *)

Inductive AuthError := RequestFailed (s : string) | UnsupportedScheme (s : string) | Unauthenticated (s : string).

Inductive AssetSigner :=
| NoopSigner
| BearerSigner (token : string)
| QueryStringSigner (params : btree string string).

Definition QueryStringSigner_new : btree string string := [].
Definition with_param (key value : string) (params : btree string string) : btree string string :=
  bt_insert key value params.

Definition query_string (params : btree string string) : string :=
  join "&" ((λ e : string * string, e.1 +:+ "=" +:+ e.2) <$> params).

Definition signable_schemes : list string := ["http://"; "https://"; "s3://"; "gs://"; "az://"].

Definition sign (s : AssetSigner) (href : string) : result AuthError string :=
  match s with
  | NoopSigner => Ok href
  | BearerSigner token =>
      if bool_decide (token = "") then Err (Unauthenticated "empty bearer token") else Ok href
  | QueryStringSigner params =>
      if negb (existsb (λ p, starts_with p (to_ascii_lowercase href)) signable_schemes) then Err (UnsupportedScheme href)
      else match params with
           | [] => Ok href
           | _ => Ok (href +:+ (if has_char "?" href then "&" else "?") +:+ query_string params)
           end
  end.

Definition header (s : AssetSigner) (href : string) : btree string string :=
  match s with BearerSigner token => [("authorization", "Bearer " +:+ token)] | _ => [] end.

(** ** crates/eo-catalog/src/provider.rs *)

Inductive CatalogProvider :=
| PlanetaryComputer | EarthSearch | EarthData | UsgsLandsat | Custom (endpoint : string).

Definition default_endpoint (p : CatalogProvider) : option string :=
  Some match p with
  | PlanetaryComputer => "https://planetarycomputer.microsoft.com/api/stac/v1"
  | EarthSearch => "https://earth-search.aws.element84.com/v1"
  | EarthData => "https://cmr.earthdata.nasa.gov/stac"
  | UsgsLandsat => "https://landsatlook.usgs.gov/stac-server"
  | Custom endpoint => endpoint
  end.
Definition provider_tag (p : CatalogProvider) : string :=
  match p with
  | PlanetaryComputer => "planetary-computer" | EarthSearch => "earth-search" | EarthData => "earth-data"
  | UsgsLandsat => "usgs-landsat" | Custom _ => "custom"
  end.

(** ** crates/orbit-geo/src/stac_helpers.rs *)

Record Item := mkItem {
  it_id : string; it_assets : list (string * string); it_fields : list (string * Value) }.

(** A [BTreeSet] as the map of its elements. *)
Definition set_insert (t : btree string ()) (k : string) : btree string () := bt_insert k () t.

Definition get_asset_names (items : list Item) : list string :=
  (foldl (λ names it, foldl set_insert names (it_assets it).*1) [] items).*1.

Definition get_asset_href (it : Item) (asset_name : string) : option string := assoc_get asset_name (it_assets it).

Definition get_sources_for_asset (items : list Item) (asset_name : string) : list string :=
  omap (λ it, get_asset_href it asset_name) items.

Definition item_datetime (it : Item) : option string := assoc_get "datetime" (it_fields it) ≫= as_str.

Definition get_sorted_datetimes (items : list Item) : list (nat * string) :=
  sort_by_key snd (omap (λ e : nat * Item, pair e.1 <$> item_datetime e.2) (imap pair items)).

Definition get_items_for_date (items : list Item) (date_iso : string) : list Item :=
  filter (λ it, item_datetime it = Some date_iso) items.

Definition unique_datetimes_in_range (items : list Item) (start_iso end_iso : string) : list string :=
  (foldl (λ seen it,
     match item_datetime it with
     | Some dt => if negb (text_lt dt start_iso) && negb (text_lt end_iso dt) then set_insert seen dt else seen
     | None => seen
     end) [] items).*1.

Definition swap_coordinates (coords : list (f64 * f64)) : list (f64 * f64) := (λ c, (c.2, c.1)) <$> coords.

Section tiles.
Context (parse_i64 : string → option Z).     (* str::parse::<i64> *)

Definition utm_zone (it : Item) : option string :=
  pretty <$> (v ← assoc_get "mgrs:utm_zone" (it_fields it);
              match as_i64 v with Some z => Some z | None => as_str v ≫= parse_i64 end).

Definition tile_of (it : Item) : option string :=
  z ← utm_zone it;
  b ← assoc_get "mgrs:latitude_band" (it_fields it) ≫= as_str;
  s ← assoc_get "mgrs:grid_square" (it_fields it) ≫= as_str;
  Some (z +:+ b +:+ s).

Definition filter_items_by_tile (items : list Item) (tile_id : string) : list Item :=
  filter (λ it, tile_of it = Some tile_id) items.
End tiles.

(** ** crates/orbit-geo/src/dsl *)

Module Provider.
Definition EARTH_SEARCH_V1 : string := "https://earth-search.aws.element84.com/v1".
Definition PLANETARY_COMPUTER : string := "https://planetarycomputer.microsoft.com/api/stac/v1".
Definition USGS_LANDSAT_LOOK : string := "https://landsatlook.usgs.gov/stac-server".
Definition DEA : string := "https://explorer.sandbox.dea.ga.gov.au/stac".
End Provider.

Inductive Collection := Sentinel2 | Landsat8 | Landsat7 | Landsat5.
#[export] Instance collection_dec : EqDecision Collection.
Proof. solve_decision. Defined.

Definition id_for (c : Collection) (provider_url : string) : string :=
  let on p := bool_decide (provider_url = p) in
  match c with
  | Sentinel2 =>
      if on Provider.EARTH_SEARCH_V1 then "sentinel-2-l2a"
      else if on Provider.PLANETARY_COMPUTER then "sentinel-2-l2a"
      else if on Provider.DEA then "ga_s2am_ard_3" else ""
  | Landsat8 =>
      if on Provider.EARTH_SEARCH_V1 then "landsat-c2-l2"
      else if on Provider.PLANETARY_COMPUTER then "landsat-c2-l2"
      else if on Provider.USGS_LANDSAT_LOOK then "landsat-c2l2-sr" else ""
  | Landsat7 | Landsat5 =>
      if on Provider.EARTH_SEARCH_V1 then "landsat-c2-l2"
      else if on Provider.PLANETARY_COMPUTER then "landsat-c2-l2" else ""
  end.

Definition collection_debug (c : Collection) : string :=
  match c with Sentinel2 => "Sentinel2" | Landsat8 => "Landsat8" | Landsat7 => "Landsat7" | Landsat5 => "Landsat5" end.

Section bands.
Context (debug_str : string → string).       (* {:?} of a text *)

Definition canonical_bands (name : string) (c : Collection) : result string string :=
  ok_or
    (assoc_get name
       match c with
       | Sentinel2 => [("blue", "B02"); ("green", "B03"); ("red", "B04"); ("nir", "B08"); ("swir1", "B11"); ("swir2", "B12")]
       | Landsat8 => [("red", "red"); ("green", "green"); ("blue", "blue"); ("nir", "nir08"); ("swir1", "swir16"); ("swir2", "swir22")]
       | Landsat7 | Landsat5 => [("red", "red"); ("green", "green"); ("blue", "blue"); ("nir", "nir08")]
       end)
    ("canonical_bands: unknown (" +:+ debug_str name +:+ ", " +:+ collection_debug c +:+ ")").
End bands.

Inductive Cmp := Less | Greater | LessEq | GreaterEq | Equal | NotEqual.
Definition cmp_op (c : Cmp) : string :=
  match c with
  | Less => "lt" | Greater => "gt" | LessEq => "lte" | GreaterEq => "gte" | Equal => "eq" | NotEqual => "neq"
  end.
Definition cmp_to_json (c : Cmp) (value : f64) : Value := Object [(cmp_op c, json_of_f64 value)].
Definition cloudcover_filter (op : Cmp) (value : f64) : string * Value := ("eo:cloud_cover", cmp_to_json op value).

Inductive Intersects := IBbox (b : Bbox) | IScene (ids : list string) | IGeometry (g : Value).
Definition as_bbox (i : Intersects) : option Bbox := match i with IBbox b => Some b | _ => None end.
Definition as_scene (i : Intersects) : option (list string) := match i with IScene s => Some s | _ => None end.
Definition as_geometry (i : Intersects) : option Value := match i with IGeometry g => Some g | _ => None end.

(** The fields of [stac_client::SearchParams] the filter sets. *)
Record SearchParams := mkSearchParams {
  sp_bbox : option (list f64); sp_ids : option (list string); sp_intersects : option Value }.
Definition apply_to (i : Intersects) (p : SearchParams) : SearchParams :=
  match i with
  | IBbox b => mkSearchParams (Some [b_west b; b_south b; b_east b; b_north b]) (sp_ids p) (sp_intersects p)
  | IScene ids => mkSearchParams (sp_bbox p) (Some ids) (sp_intersects p)
  | IGeometry g => mkSearchParams (sp_bbox p) (sp_ids p) (Some g)
  end.

Record ImageQueryBuilder := mkBuilder {
  qb_provider : option string; qb_collection : option Collection; qb_intersects : option Intersects;
  qb_datetime : option string; qb_bands : option (list string); qb_cloudcover : option (Cmp * f64);
  qb_limit : option Z }.
Definition ImageQueryBuilder_new : ImageQueryBuilder := mkBuilder None None None None None None None.
Definition provider (p : string) (b : ImageQueryBuilder) : ImageQueryBuilder :=
  mkBuilder (Some p) (qb_collection b) (qb_intersects b) (qb_datetime b) (qb_bands b) (qb_cloudcover b) (qb_limit b).
Definition collection (c : Collection) (b : ImageQueryBuilder) : ImageQueryBuilder :=
  mkBuilder (qb_provider b) (Some c) (qb_intersects b) (qb_datetime b) (qb_bands b) (qb_cloudcover b) (qb_limit b).
Definition intersects (i : Intersects) (b : ImageQueryBuilder) : ImageQueryBuilder :=
  mkBuilder (qb_provider b) (qb_collection b) (Some i) (qb_datetime b) (qb_bands b) (qb_cloudcover b) (qb_limit b).
Definition datetime (d : string) (b : ImageQueryBuilder) : ImageQueryBuilder :=
  mkBuilder (qb_provider b) (qb_collection b) (qb_intersects b) (Some d) (qb_bands b) (qb_cloudcover b) (qb_limit b).
Definition bands (l : list string) (b : ImageQueryBuilder) : ImageQueryBuilder :=
  mkBuilder (qb_provider b) (qb_collection b) (qb_intersects b) (qb_datetime b) (Some l) (qb_cloudcover b) (qb_limit b).
Definition cloudcover (op : Cmp) (x : f64) (b : ImageQueryBuilder) : ImageQueryBuilder :=
  mkBuilder (qb_provider b) (qb_collection b) (qb_intersects b) (qb_datetime b) (qb_bands b) (Some (op, x)) (qb_limit b).
Definition limit (n : Z) (b : ImageQueryBuilder) : ImageQueryBuilder :=
  mkBuilder (qb_provider b) (qb_collection b) (qb_intersects b) (qb_datetime b) (qb_bands b) (qb_cloudcover b) (Some n).

Record ImageQuery := mkImageQuery {
  iq_provider : string; iq_collection : Collection; iq_intersects : Intersects; iq_datetime : option string;
  iq_bands : option (list string); iq_cloudcover : option (Cmp * f64); iq_limit : option Z }.

(** The display of [Error::InvalidBuilder]. *)
Definition invalid_builder (msg : string) : string := "invalid builder: " +:+ msg.

Definition build (b : ImageQueryBuilder) : result string ImageQuery :=
  p ← ok_or (qb_provider b) (invalid_builder "ImageQueryBuilder: provider not set");
  c ← ok_or (qb_collection b) (invalid_builder "ImageQueryBuilder: collection not set");
  i ← ok_or (qb_intersects b) (invalid_builder "ImageQueryBuilder: intersects not set");
  Ok (mkImageQuery p c i (qb_datetime b) (qb_bands b) (qb_cloudcover b) (qb_limit b)).

Definition get_remote (q : ImageQuery) (asset_hrefs : list string) : list string := vsi_rewrite <$> asset_hrefs.

(** ** crates/orbit-geo/src/stac.rs: downloads *)

Record DownloadOpts := mkDownloadOpts { do_asset_keys : option (list string); do_timeout_secs : Z }.

(** The files, and the links requested so far, latest first. *)
Record Disk := mkDisk { d_files : gmap string string; d_requests : list string }.

Section downloads.
Context (build_http : Z → result string ()).                       (* reqwest, with a timeout in seconds *)
Context (get : string → Disk → result string (result string string)).  (* the response; then its body *)
Context (sha6 : string → string) (url_file_name : string → option string).
(** The fault of a write, with what it leaves of the file, and that of a rename. *)
Context (write_fault : string → Disk → option (string * option string)) (rename_fault : string → Disk → option string).
Context (create_dir_all : string → result string ()).

Definition http_timeout (opts : DownloadOpts) : Z :=
  if do_timeout_secs opts =? 0 then 300 else do_timeout_secs opts.

Definition write_file (path bytes : string) (w : Disk) : result string () * Disk :=
  match write_fault path w with
  | None => (Ok tt, mkDisk (<[path := bytes]> (d_files w)) (d_requests w))
  | Some (e, rest) =>
      (Err e, match rest with Some s => mkDisk (<[path := s]> (d_files w)) (d_requests w) | None => w end)
  end.
Definition rename (src dst : string) (w : Disk) : result string () * Disk :=
  match rename_fault src w with
  | Some e => (Err e, w)
  | None => (Ok tt, match d_files w !! src with
                    | Some s => mkDisk (<[dst := s]> (delete src (d_files w))) (d_requests w)
                    | None => w
                    end)
  end.

Definition wanted (opts : DownloadOpts) (key : string) : bool :=
  match do_asset_keys opts with None => true | Some want => bool_decide (key ∈ want) end.

(** The file of an asset. *)
Definition asset_file (cache_dir : string) (asset : string * string) : string :=
  cache_dir +:+ "/" +:+ sha6 asset.2 +:+ "_" +:+ default (asset.1 +:+ ".bin") (url_file_name asset.2).

Definition part_of (path : string) : string := with_extension "part" path.

(** One asset: the file if it is there, else its download. *)
Definition fetch_asset (cache_dir : string) (asset : string * string) (w : Disk) : result string string * Disk :=
  let url := asset.2 in
  let path := asset_file cache_dir asset in
  if bool_decide (is_Some (d_files w !! path)) then (Ok path, w)
  else
    let resp := get url w in
    let w := mkDisk (d_files w) (url :: d_requests w) in
    match resp with
    | Err e => (Err ("download " +:+ url +:+ ": " +:+ e), w)
    | Ok (Err e) => (Err ("download body: " +:+ e), w)
    | Ok (Ok bytes) =>
        match write_file (part_of path) bytes w with
        | (Err e, w) => (Err ("io: " +:+ e), w)
        | (Ok _, w) =>
            match rename (part_of path) path w with
            | (Err e, w) => (Err ("io: " +:+ e), w)
            | (Ok _, w) => (Ok path, w)
            end
        end
    end.

Fixpoint fetch_assets (cache_dir : string) (assets : list (string * string)) (w : Disk)
    : result string (list string) * Disk :=
  match assets with
  | [] => (Ok [], w)
  | a :: assets =>
      match fetch_asset cache_dir a w with
      | (Err e, w) => (Err e, w)
      | (Ok p, w) =>
          match fetch_assets cache_dir assets w with
          | (Err e, w) => (Err e, w)
          | (Ok ps, w) => (Ok (p :: ps), w)
          end
      end
  end.

Definition selected_assets (opts : DownloadOpts) (items : list Item) : list (string * string) :=
  filter (λ a, wanted opts a.1 = true) (concat (it_assets <$> items)).

Definition download_items (items : list Item) (cache_dir : string) (opts : DownloadOpts) (w : Disk)
    : result string (list string) * Disk :=
  match create_dir_all cache_dir with
  | Err e => (Err ("io: " +:+ e), w)
  | Ok _ =>
      match build_http (http_timeout opts) with
      | Err e => (Err ("reqwest builder: " +:+ e), w)
      | Ok _ =>
          match fetch_assets cache_dir (selected_assets opts items) w with
          | (Err e, w) => (Err e, w)
          | (Ok out, w) => (Ok (sort_by_key id out), w)
          end
      end
  end.
End downloads.

(** ** stac.rs: the rustac program, and the wrapped crates *)

Section rustac.
Context {W : Type}.
(** A run of rustac: it could not be started, or whether it succeeded, with what it wrote. *)
Context (run_rustac : list string → W → result string (bool * string * string) * W).
Context (json_from_slice : string → result string Value) (item_from_value : Value → result string Item).

Definition query_geoparquet_cli (href : string) (extra_args : list string) (w : W) : result string (list Item) * W :=
  match run_rustac ("search" :: href :: extra_args) w with
  | (Err e, w) => (Err ("spawn rustac CLI: " +:+ e), w)
  | (Ok (false, _, stderr), w) => (Err ("rustac search failed: " +:+ stderr), w)
  | (Ok (true, stdout, _), w) =>
      (match json_from_slice stdout with
       | Err e => Err ("parse rustac output: " +:+ e)
       | Ok value =>
           let features := default [] (jget "features" value ≫= as_array) in
           Ok (omap (λ v, match item_from_value v with Ok it => Some it | Err _ => None end) features)
       end, w)
  end.

Record StacGeoParquetReader := mkReader { gp_href : string }.
Definition open_geoparquet (href : string) : result string StacGeoParquetReader := Ok (mkReader href).
Definition search_geoparquet (r : StacGeoParquetReader) (extra_args : list string) : W → result string (list Item) * W :=
  query_geoparquet_cli (gp_href r) extra_args.
End rustac.

Definition prefixed {A} (what : string) (r : result string A) : result string A :=
  map_err (λ e, what +:+ e) r.

Section wrapped.
(** The client of the stac-client crate, its validator, and stac-io. *)
Context {Client Params Collections Items V : Type}.
Context (client_new : string → result string Client) (get_collections : Client → result string Collections).
Context (client_search : Client → Params → result string Items).
Context (validator_new : result string V) (validator_validate : V → Value → result string ()).

Record StacClient := mkStacClient { inner : Client }.
Definition StacClient_new (root : string) : result string StacClient :=
  c ← prefixed "stac-client: " (client_new root); Ok (mkStacClient c).
Definition collections (c : StacClient) : result string Collections :=
  prefixed "stac get_collections: " (get_collections (inner c)).
Definition stac_search (c : StacClient) (params : Params) : result string Items :=
  prefixed "stac search: " (client_search (inner c) params).
Definition validate_stac (value : Value) : result string () :=
  validator ← prefixed "stac-validate Validator::new: " validator_new;
  prefixed "stac-validate failed: " (validator_validate validator value).

(** stac-io, for one type of documents. *)
Context {T W : Type} (io_write : string → T → W → result string () * W) (io_read : string → W → result string T).
Definition write_stac (path : string) (value : T) (w : W) : result string () * W :=
  let '(r, w) := io_write path value w in (prefixed "stac-io write: " r, w).
Definition read_stac (href : string) (w : W) : result string T := prefixed "stac-io read: " (io_read href w).
End wrapped.

(** ** apps/orbit-openeo/src/typed_stac.rs *)

Definition typed_asset_href (item : Item) (asset_name : string) : option string := get_asset_href item asset_name.
Definition pick_typed_asset_href (item : Item) (candidates : list string) : option string :=
  head (omap (typed_asset_href item) candidates).
Definition asset_names (items : list Item) : list string := get_asset_names items.

(** ** Searches *)

(** What the comments of the search promise of an item. *)
Definition in_interval (range : option string * option string) (t : string) : Prop :=
  (∀ s, range.1 = Some s → cmp t s ≠ Lt) ∧ (∀ e, range.2 = Some e → cmp e t ≠ Lt).

Lemma text_lt_false a b : text_lt a b = false ↔ cmp a b ≠ Lt.
Proof. unfold text_lt. apply bool_decide_eq_false. Qed.

Lemma datetime_matches_spec start stop t : datetime_matches start stop t = true ↔ in_interval (start, stop) t.
Proof.
  unfold datetime_matches, in_interval. simpl.
  assert (∀ o : option string, (∀ e, o = Some e → cmp e t ≠ Lt) ↔
    match o with Some e => negb (text_lt e t) | None => true end = true) as Hstop.
  { intros [e|]; [|naive_solver]. rewrite negb_true_iff, text_lt_false. naive_solver. }
  rewrite Hstop. destruct start as [s|]; [|naive_solver].
  destruct (text_lt t s) eqn:E.
  - split; [done|]. intros [Hs _]. apply bool_decide_eq_true in E. by destruct (Hs s eq_refl).
  - apply text_lt_false in E. naive_solver.
Qed.

(** The boxes have a point in common, when no bound is a NaN. *)
Definition boxes_meet (a b : Bbox) : Prop :=
  f64_ltb (b_east a) (b_west b) = false ∧ f64_ltb (b_east b) (b_west a) = false ∧
  f64_ltb (b_north a) (b_south b) = false ∧ f64_ltb (b_north b) (b_south a) = false.

Lemma bbox_intersects_spec a b : bbox_intersects a b = true ↔ boxes_meet a b.
Proof. unfold bbox_intersects, boxes_meet. rewrite negb_true_iff, !orb_false_iff. tauto. Qed.

Definition accepts (req : SearchRequest) (it : InMemoryItem) : Prop :=
  if decide (sr_ids req = []) then
    (sr_collections req = [] ∨ im_collection it ∈ sr_collections req) ∧
    (∀ b, sr_bbox req = Some b → boxes_meet b (im_bbox it)) ∧
    (∀ s range, sr_datetime req = Some s → parse_datetime s = Ok range → in_interval range (im_datetime it))
  else im_id it ∈ sr_ids req.

Lemma item_matches_spec req dt it :
  (match sr_datetime req with None => Ok None | Some s => Some <$> parse_datetime s end) = Ok dt →
  item_matches req dt it = true ↔ accepts req it.
Proof.
  intros Hdt. unfold item_matches, accepts.
  destruct (sr_ids req) as [|i ids] eqn:Hids.
  2: { rewrite decide_False by done. apply bool_decide_eq_true. }
  rewrite decide_True by done.
  assert ((∀ s range, sr_datetime req = Some s → parse_datetime s = Ok range → in_interval range (im_datetime it)) ↔
    match dt with Some (start, stop) => datetime_matches start stop (im_datetime it) | None => true end = true) as ->.
  { destruct (sr_datetime req) as [s|]; [|injection Hdt as <-; naive_solver].
    destruct (parse_datetime s) as [[start stop]|] eqn:Hp; [|done]. injection Hdt as <-.
    rewrite datetime_matches_spec. split; [intros H; by apply (H s)|].
    intros H s' r [= <-]. rewrite Hp. by intros [= <-]. }
  assert ((∀ b, sr_bbox req = Some b → boxes_meet b (im_bbox it)) ↔
    match sr_bbox req with Some b => negb (bbox_intersects b (im_bbox it)) | None => false end = false) as ->.
  { destruct (sr_bbox req) as [b|]; [|naive_solver]. rewrite negb_false_iff, bbox_intersects_spec. naive_solver. }
  assert ((sr_collections req = [] ∨ im_collection it ∈ sr_collections req) ↔
    match sr_collections req with [] => false | cs => negb (bool_decide (im_collection it ∈ cs)) end = false) as ->.
  { destruct (sr_collections req) as [|c cs]; [naive_solver|]. rewrite negb_false_iff, bool_decide_eq_true. naive_solver. }
  destruct (match sr_collections req with [] => _ | _ => _ end); [naive_solver|].
  destruct (match sr_bbox req with Some _ => _ | None => _ end); naive_solver.
Qed.

(** The in-memory search fails exactly on a malformed time expression, and
    otherwise lists the ids of the accepted items, in catalog order, up to the limit. *)
Theorem search_correct items req :
  match search items req with
  | Err e => ∃ s, sr_datetime req = Some s ∧ parse_datetime s = Err e ∧ e = BadDatetime s ∧ (s = "" ∨ s = "../..")
  | Ok ids =>
      ∃ hits, hits `sublist_of` items ∧ (∀ it, it ∈ hits ↔ it ∈ items ∧ accepts req it) ∧
        ids = take (Z.to_nat (default 100 (sr_limit req))) (im_id <$> hits)
  end.
Proof.
  unfold search.
  destruct (match sr_datetime req with None => _ | Some s => _ end) as [dt|e] eqn:Hdt; cbn [mbind result_bind].
  - exists (filter (λ it, item_matches req dt it = true) items). split; [apply sublist_filter|]. split; [|done].
    intros it. rewrite list_elem_of_filter, (item_matches_spec req dt it Hdt). tauto.
  - destruct (sr_datetime req) as [s|]; [|done]. exists s. split; [done|].
    destruct (parse_datetime s) as [r|e'] eqn:Hp; [done|]. injection Hdt as <-. split; [done|].
    unfold parse_datetime in Hp. case_bool_decide as Hs; [injection Hp as <-; auto|].
    destruct (split_once "/" s) as [[l r]|] eqn:Hspl; [|done].
    case_bool_decide as Hl; case_bool_decide as Hr; try done. injection Hp as <-. split; [done|]. right.
    apply split_once_Some in Hspl as [-> _]. by subst.
Qed.

(** ** Signing *)

Lemma bt_get_foldl {V} (l : list (string * V)) k v t : bt_wf t → NoDup l.*1 → (k, v) ∈ l →
  bt_get k (foldl (λ t e, bt_insert e.1 e.2 t) t l) = Some v.
Proof.
  revert t. induction l as [|[k' v'] l IH]; intros t Hwf Hnd Hin; [by apply not_elem_of_nil in Hin|].
  simpl in *. apply NoDup_cons in Hnd as [Hk Hnd]. apply elem_of_cons in Hin as [[= <- <-]|Hin].
  - rewrite bt_get_foldl_ne by (done || by apply bt_wf_insert). by apply bt_get_insert_eq.
  - apply IH; [by apply bt_wf_insert|done|done].
Qed.

Definition params_of (l : list (string * string)) : btree string string :=
  foldl (λ t e, with_param e.1 e.2 t) QueryStringSigner_new l.

(** The signed link does not depend on the order in which the parameters were added. *)
Theorem signature_order (l k : list (string * string)) href : NoDup l.*1 → l ≡ₚ k →
  sign (QueryStringSigner (params_of l)) href = sign (QueryStringSigner (params_of k)) href.
Proof.
  intros Hnd Hp. assert (params_of l = params_of k) as ->; [|done].
  assert (NoDup k.*1) as Hnd' by (by rewrite <- Hp).
  unfold params_of, with_param, QueryStringSigner_new. apply bt_ext; [apply bt_wf_foldl, bt_wf_nil..|].
  intros key. destruct (decide (key ∈ l.*1)) as [Hin|Hout].
  - apply list_elem_of_fmap in Hin as ([? v] & -> & Hin). simpl.
    rewrite (bt_get_foldl l _ v), (bt_get_foldl k _ v); try done; [apply bt_wf_nil|by rewrite <- Hp|apply bt_wf_nil].
  - rewrite !bt_get_foldl_ne; try done; try apply bt_wf_nil. by rewrite <- Hp.
Qed.

(** A link is signed only under an allowed scheme, and the parameters follow it. *)
Lemma signed_link params href signed : sign (QueryStringSigner params) href = Ok signed →
  (∃ p, p ∈ signable_schemes ∧ starts_with p (to_ascii_lowercase href) = true) ∧
  ∃ rest, signed = href +:+ rest.
Proof.
  unfold sign. destruct (existsb _ _) eqn:E; [|done]. simpl. intros H. split.
  - apply existsb_exists in E as (p & Hp & Hs). exists p. split; [by apply list_elem_of_In|done].
  - destruct params as [|e params].
    + injection H as <-. exists "". clear. induction href as [|c s IH]; [done|]. change (String c s = String c (s +:+ "")). by rewrite <- IH.
    + injection H as <-. by eexists.
Qed.

(** ** Lists of items *)

Lemma set_insert_foldl (l : list string) t : bt_wf t →
  bt_wf (foldl set_insert t l) ∧ ∀ k, k ∈ (foldl set_insert t l).*1 ↔ k ∈ t.*1 ∨ k ∈ l.
Proof.
  assert (∀ k (t : btree string ()), bt_wf t → k ∈ t.*1 ↔ bt_get k t = Some tt) as Hget.
  { intros k t' Hwf. rewrite (bt_get_Some k tt t' Hwf), list_elem_of_fmap. split.
    - intros ([? []] & -> & Hin). done.
    - intros Hin. by exists (k, tt). }
  revert t. induction l as [|x l IH]; intros t Hwf; simpl; [split; [done|]; intros k; set_solver|].
  assert (bt_wf (set_insert t x)) as Hwf' by (by apply bt_wf_insert).
  destruct (IH (set_insert t x) Hwf') as [Hw Hin]. split; [done|]. intros k.
  rewrite Hin, (Hget k (set_insert t x)), (Hget k t), elem_of_cons by done. unfold set_insert.
  destruct (decide (x = k)) as [->|Hne].
  - rewrite bt_get_insert_eq by done. tauto.
  - rewrite bt_get_insert_ne by done. naive_solver.
Qed.

Definition ascending (l : list string) : Prop := StronglySorted (λ a b, cmp a b = Lt) l.

Lemma set_of_ascending (l : list string) :
  ascending (foldl set_insert [] l).*1 ∧ ∀ k, k ∈ (foldl set_insert [] l).*1 ↔ k ∈ l.
Proof.
  destruct (set_insert_foldl l [] bt_wf_nil) as [Hwf Hin]. split; [by apply bt_keys_sorted|].
  intros k. rewrite Hin. simpl. set_solver.
Qed.

Definition names_of (items : list Item) : list string := concat (map (λ it, (it_assets it).*1) items).
Definition times_in (items : list Item) (lo hi : string) : list string :=
  filter (λ t, negb (text_lt t lo) && negb (text_lt hi t) = true) (omap item_datetime items).

Lemma get_asset_names_set items : get_asset_names items = (foldl set_insert [] (names_of items)).*1.
Proof.
  unfold get_asset_names. f_equal. generalize ([] : btree string ()).
  induction items as [|it items IH]; intros t; [done|]. unfold names_of in *. simpl. by rewrite IH, foldl_app.
Qed.
Lemma unique_datetimes_set items lo hi :
  unique_datetimes_in_range items lo hi = (foldl set_insert [] (times_in items lo hi)).*1.
Proof.
  unfold unique_datetimes_in_range. f_equal. generalize ([] : btree string ()).
  induction items as [|it items IH]; intros t; [done|]. unfold times_in in *. cbn [foldl omap list_omap].
  rewrite IH. destruct (item_datetime it) as [dt|]; [|done]. rewrite filter_cons.
  destruct (negb (text_lt dt lo) && negb (text_lt hi dt)); [by rewrite decide_True|by rewrite decide_False].
Qed.

Lemma assoc_get_keys {A} k (m : list (string * A)) : is_Some (assoc_get k m) ↔ k ∈ m.*1.
Proof.
  induction m as [|[k' v] m IH]; simpl; [split; [by intros [? ?]|by intros ?%not_elem_of_nil]|].
  rewrite elem_of_cons. destruct (decide (k = k')) as [->|Hne].
  - rewrite bool_decide_true by done. split; [by left|by eexists].
  - rewrite bool_decide_false by done. rewrite IH. naive_solver.
Qed.

(** The derived lists: the asset names and the times of a range are the sets
    they should be, in ascending order; the times of the items are sorted, and
    each is that of the item of its index. *)
Theorem item_lists items lo hi :
  (ascending (get_asset_names items) ∧
   ∀ n, n ∈ get_asset_names items ↔ ∃ it, it ∈ items ∧ is_Some (get_asset_href it n)) ∧
  (ascending (unique_datetimes_in_range items lo hi) ∧
   ∀ t, t ∈ unique_datetimes_in_range items lo hi ↔
     ∃ it, it ∈ items ∧ item_datetime it = Some t ∧ cmp t lo ≠ Lt ∧ cmp hi t ≠ Lt) ∧
  (StronglySorted (in_order snd) (get_sorted_datetimes items) ∧
   ∀ i t, (i, t) ∈ get_sorted_datetimes items ↔ ∃ it, items !! i = Some it ∧ item_datetime it = Some t).
Proof.
  rewrite get_asset_names_set, unique_datetimes_set.
  destruct (set_of_ascending (names_of items)) as [Hn Hn']. destruct (set_of_ascending (times_in items lo hi)) as [Ht Ht'].
  split_and!; [done| |done| |apply sort_by_key_sorted|].
  - intros n. rewrite Hn'. unfold names_of, get_asset_href. rewrite list_elem_of_In, in_concat.
    setoid_rewrite in_map_iff. setoid_rewrite assoc_get_keys. setoid_rewrite list_elem_of_In. naive_solver.
  - intros t. rewrite Ht'. unfold times_in. rewrite list_elem_of_filter, list_elem_of_omap, andb_true_iff, !negb_true_iff,
      !text_lt_false. naive_solver.
  - intros i t. unfold get_sorted_datetimes. rewrite (sort_by_key_perm _ _), list_elem_of_omap. split.
    + intros ([j it] & Hin & Hf). apply elem_of_lookup_imap in Hin as (j' & it' & [= -> ->] & Hi). simpl in Hf.
      destruct (item_datetime it') eqn:E; [|done]. injection Hf as -> ->. eauto.
    + intros (it & Hi & Hdt). exists (i, it). split; [apply elem_of_lookup_imap; eauto|]. simpl. by rewrite Hdt.
Qed.

(** ** Downloads *)

Section download_facts.
Context (get : string → Disk → result string (result string string)).
Context (sha6 : string → string) (url_file_name : string → option string).
Context (write_fault : string → Disk → option (string * option string)) (rename_fault : string → Disk → option string).
Context (cache_dir : string) (sel : list (string * string)).
Let file (a : string * string) : string := asset_file sha6 url_file_name cache_dir a.
(** No staging file is itself the file of an asset. *)
Hypothesis staging_apart : ∀ a b, a ∈ sel → b ∈ sel → part_of (file a) ≠ file b.

(** The file of [a] holds a whole body answered for a link with that file. *)
Definition holds_body (w : Disk) (a : string * string) : Prop :=
  ∃ a' v s, a' ∈ sel ∧ file a' = file a ∧ get a'.2 v = Ok (Ok s) ∧ d_files w !! file a = Some s.

(** What downloads do to the disk. *)
Record downloads_step (w w' : Disk) : Prop := {
  ds_others : ∀ p, p ∉ file <$> sel → p ∉ (λ a, part_of (file a)) <$> sel → d_files w' !! p = d_files w !! p;
  ds_whole : ∀ a, a ∈ sel → d_files w' !! file a = d_files w !! file a ∨
    (d_files w !! file a = None ∧ holds_body w' a);
  ds_requests : ∃ extra, d_requests w' = extra ++ d_requests w ∧
    ∀ u, u ∈ extra → ∃ a, a ∈ sel ∧ a.2 = u ∧ d_files w !! file a = None }.

Lemma downloads_refl w : downloads_step w w.
Proof. split; [done|by left|]. exists []. split; [done|]. by intros u ?%not_elem_of_nil. Qed.

Lemma holds_body_stable w w' a : d_files w' !! file a = d_files w !! file a → holds_body w a → holds_body w' a.
Proof. intros E (a' & v & s & ? & ? & ? & Hs). exists a', v, s. by rewrite E. Qed.

Lemma downloads_trans w1 w2 w3 : downloads_step w1 w2 → downloads_step w2 w3 → downloads_step w1 w3.
Proof.
  intros [Ho Hw (e1 & He1 & Hr1)] [Ho' Hw' (e2 & He2 & Hr2)]. split.
  - intros p Hp Hq. by rewrite Ho', Ho.
  - intros a Ha. destruct (Hw a Ha) as [E|[E (a' & v & s & Hin & Hf & Hg & Hs)]], (Hw' a Ha) as [E'|[E' H']].
    + left. congruence.
    + right. split; [congruence|done].
    + right. split; [done|]. apply (holds_body_stable w2); [done|]. by exists a', v, s.
    + congruence.
  - exists (e2 ++ e1). split; [by rewrite He2, He1, (assoc_L (++))|].
    intros u [Hu|Hu]%elem_of_app; [|by apply Hr1]. destruct (Hr2 u Hu) as (a & Ha & Hau & Hn).
    exists a. split; [done|]. split; [done|].
    destruct (Hw a Ha) as [E|[E _]]; congruence.
Qed.

(** Writing a staging file. *)
Lemma write_part_step w w' a bytes r : a ∈ sel → write_file write_fault (part_of (file a)) bytes w = (r, w') →
  downloads_step w w' ∧ (r = Ok tt → d_files w' !! part_of (file a) = Some bytes).
Proof using staging_apart.
  intros Ha Hr. assert (∀ s, downloads_step w (mkDisk (<[part_of (file a) := s]> (d_files w)) (d_requests w))) as Hstep.
  { intros s. split; simpl.
    - intros p _ Hp. rewrite lookup_insert_ne; [done|]. intros <-. apply Hp. apply list_elem_of_fmap. by exists a.
    - intros b Hb. left. apply lookup_insert_ne. by apply staging_apart.
    - exists []. split; [done|]. by intros u ?%not_elem_of_nil. }
  unfold write_file in Hr. destruct (write_fault _ w) as [[e [s|]]|]; injection Hr as <- <-.
  - by split.
  - split; [apply downloads_refl|done].
  - split; [apply Hstep|]. intros _. simpl. apply lookup_insert_eq.
Qed.

Lemma fetch_asset_step a w r w' : a ∈ sel →
  fetch_asset get sha6 url_file_name write_fault rename_fault cache_dir a w = (r, w') →
  downloads_step w w' ∧ ∀ p, r = Ok p → p = file a ∧ is_Some (d_files w' !! p).
Proof using staging_apart.
  intros Ha. unfold fetch_asset. fold (file a). case_bool_decide as Hex.
  { intros [= <- <-]. split; [apply downloads_refl|]. by intros p [= <-]. }
  apply eq_None_not_Some in Hex. set (w1 := mkDisk (d_files w) (a.2 :: d_requests w)).
  assert (downloads_step w w1) as H1.
  { split; [done|by left|]. exists [a.2]. split; [done|]. intros u ->%list_elem_of_singleton. by exists a. }
  destruct (get a.2 w) as [[bytes|e]|e] eqn:Hget; [|by intros [= <- <-]..].
  destruct (write_file write_fault (part_of (file a)) bytes w1) as [[[]|e] w2] eqn:Hwr;
    destruct (write_part_step _ _ _ _ _ Ha Hwr) as [H2 Hpart].
  2: { intros [= <- <-]. split; [by eapply downloads_trans|done]. }
  specialize (Hpart eq_refl). unfold rename. destruct (rename_fault _ w2) as [e|].
  { intros [= <- <-]. split; [by eapply downloads_trans|done]. }
  rewrite Hpart. intros [= <- <-]. split.
  2: { intros p [= <-]. split; [done|]. simpl. rewrite lookup_insert_eq. by eexists. }
  apply (downloads_trans _ w2); [by eapply downloads_trans|]. 
  assert (d_files w2 !! file a = None) as Hnone.
  { unfold write_file in Hwr. destruct (write_fault _ w1) as [[]|]; [done|]. injection Hwr as <-. simpl.
    rewrite lookup_insert_ne by (by apply staging_apart). done. }
  split; simpl.
  - intros p Hp Hq. rewrite lookup_insert_ne, lookup_delete_ne; [done|..];
      intros <-; [apply Hq|apply Hp]; apply list_elem_of_fmap; by exists a.
  - intros b Hb. destruct (decide (file a = file b)) as [E|Hne].
    + right. rewrite <- E. split; [done|]. exists a, w, bytes. split_and!; [done|done|done|].
      simpl. rewrite <- E. apply lookup_insert_eq.
    + left. rewrite lookup_insert_ne, lookup_delete_ne by (done || by apply staging_apart). done.
  - exists []. split; [done|]. by intros u ?%not_elem_of_nil.
Qed.

Lemma fetch_assets_step assets w r w' : assets ⊆ sel →
  fetch_assets get sha6 url_file_name write_fault rename_fault cache_dir assets w = (r, w') →
  downloads_step w w' ∧ ∀ ps, r = Ok ps → ps = file <$> assets ∧ Forall (λ p, is_Some (d_files w' !! p)) ps.
Proof using staging_apart.
  revert w r w'. induction assets as [|a assets IH]; intros w r w' Hsub; simpl.
  { intros [= <- <-]. split; [apply downloads_refl|]. intros ps [= <-]. by split. }
  destruct (fetch_asset _ _ _ _ _ _ a w) as [r1 w1] eqn:H1.
  destruct (fetch_asset_step a w r1 w1 ltac:(set_solver) H1) as [Hs1 Hp1].
  destruct r1 as [p|e]; [|by intros [= <- <-]].
  destruct (fetch_assets _ _ _ _ _ _ assets w1) as [r2 w2] eqn:H2.
  destruct (IH w1 r2 w2 ltac:(set_solver) H2) as [Hs2 Hp2].
  destruct r2 as [ps|e]; intros [= <- <-]; (split; [by eapply downloads_trans|]); [|done].
  intros ps' [= <-]. destruct (Hp2 ps eq_refl) as [-> Hall]. destruct (Hp1 p eq_refl) as [-> Hex].
  split; [done|]. constructor; [|done]. destruct Hs2 as [_ Hw _].
  destruct (Hw a ltac:(set_solver)) as [E|[_ (? & ? & s & _ & _ & _ & Hs)]]; [by rewrite E|by rewrite Hs].
Qed.
End download_facts.

(** A staging file's name ends in .part. *)
Lemma part_of_ends path : ends_with ".part" (part_of path) = true.
Proof.
  unfold part_of, with_extension.
  destruct (match rsplit_once _ path with Some (d, n) => _ | None => _ end) as [dir name].
  change ("." +:+ "part") with ".part". rewrite <- str_app_assoc. apply ends_with_app.
Qed.

(** C39: Downloading the assets of items whose files' names do not end in .part: in
    every outcome, failures and faults of the disk included, the file of an asset
    holds what it held before or a whole body that was answered for a link of that
    file; the only other files that may change are the assets' staging files, their
    names with the extension .part, which a failure may leave behind; and only links
    whose file was missing are requested, so a run over a complete cache requests
    nothing.  A success answers exactly the files of the selected assets, sorted, and
    all exist. *)
Theorem downloads_are_whole build_http get sha6 url_file_name write_fault rename_fault create_dir_all items cache_dir
    opts w r w' :
  let sel := selected_assets opts items in
  let file := asset_file sha6 url_file_name cache_dir in
  (∀ a, a ∈ sel → ends_with ".part" (file a) = false) →
  download_items build_http get sha6 url_file_name write_fault rename_fault create_dir_all items cache_dir opts w = (r, w') →
  downloads_step get sha6 url_file_name cache_dir sel w w' ∧
  ((∀ a, a ∈ sel → is_Some (d_files w !! file a)) → d_requests w' = d_requests w) ∧
  ∀ paths, r = Ok paths →
    paths ≡ₚ file <$> sel ∧ StronglySorted (in_order id) paths ∧ Forall (λ p, is_Some (d_files w' !! p)) paths.
Proof.
  intros sel file Hnames Hd.
  assert (∀ a b, a ∈ sel → b ∈ sel → part_of (file a) ≠ file b) as Happart.
  { intros a b _ Hb E. specialize (Hnames b Hb). by rewrite <- E, part_of_ends in Hnames. }
  assert (downloads_step get sha6 url_file_name cache_dir sel w w' ∧
    ∀ paths, r = Ok paths → paths ≡ₚ file <$> sel ∧ StronglySorted (in_order id) paths ∧
      Forall (λ p, is_Some (d_files w' !! p)) paths) as [Hs Hok].
  { unfold download_items in Hd. destruct (create_dir_all cache_dir); [|injection Hd as <- <-; split; [apply downloads_refl|done]].
    destruct (build_http _); [|injection Hd as <- <-; split; [apply downloads_refl|done]].
    destruct (fetch_assets _ _ _ _ _ _ _ w) as [r1 w1] eqn:Hf.
    destruct (fetch_assets_step get sha6 url_file_name write_fault rename_fault cache_dir sel Happart sel w r1 w1
      ltac:(done) Hf) as [Hstep Hps].
    destruct r1 as [ps|e]; injection Hd as <- <-; (split; [done|]); [|done]. intros paths [= <-].
    destruct (Hps ps eq_refl) as [-> Hall]. split; [apply sort_by_key_perm|]. split; [apply sort_by_key_sorted|].
    rewrite Forall_forall in *. intros p. rewrite (sort_by_key_perm id). apply Hall. }
  split; [done|]. split; [|done]. intros Hall. destruct Hs as [_ _ (extra & -> & Hr)].
  destruct extra as [|u extra]; [done|]. destruct (Hr u ltac:(set_solver)) as (a & Ha & _ & Hn).
  destruct (Hall a Ha) as [s Hs]. fold file in Hn. congruence.
Qed.

(** ** Witnesses and examples *)

Module Demo.

Definition box (w s e n : Z) : Bbox := mkBbox (f64_of_Z w) (f64_of_Z s) (f64_of_Z e) (f64_of_Z n).
Definition demo_items : list InMemoryItem :=
  [mkInMemoryItem "S2_A" "sentinel-2-l2a" (box 10 50 11 51) "2024-06-30T10:00:00Z";
   mkInMemoryItem "S2_B" "sentinel-2-l2a" (box 11 50 12 51) "2024-06-15T10:00:00Z"].

(** Boxes that only touch are taken to intersect; an item of the last day of an
    interval of dates is left out, and so is the item of the day asked for. *)
Example touching_boxes_intersect :
  bbox_intersects (box 10 50 11 51) (box 11 50 12 51) = true ∧
  search demo_items (with_bbox (box 10 50 11 51) SearchRequest_default) = Ok ["S2_A"; "S2_B"].
Proof. vm_compute. done. Qed.
Example last_day_excluded :
  search demo_items (with_datetime "2024-06-01/2024-06-30" SearchRequest_default) = Ok ["S2_B"] ∧
  search demo_items (with_datetime "2024-06-15" SearchRequest_default) = Ok [].
Proof. vm_compute. done. Qed.

(** The zone of a tile loses its leading zero, so a padded tile id matches no item. *)
Example padded_zone_never_matches :
  let it := mkItem "x" [] [("mgrs:utm_zone", Number (PosInt 5)); ("mgrs:latitude_band", JString "Q");
                           ("mgrs:grid_square", JString "KB")] in
  filter_items_by_tile (parse_uint 63) [it] "05QKB" = [] ∧ filter_items_by_tile (parse_uint 63) [it] "5QKB" = [it].
Proof. vm_compute. done. Qed.

(** A Bearer signer without a token refuses to sign, and still hands out a header. *)
Example empty_token_header :
  sign (BearerSigner "") "https://x" = Err (Unauthenticated "empty bearer token") ∧
  header (BearerSigner "") "https://x" = [("authorization", "Bearer ")].
Proof. done. Qed.

(** Two items of one band each; the second link's body breaks off. *)
Definition scene_items : list Item :=
  [mkItem "a" [("red", "https://h/a/B04.tif"); ("nir", "https://h/a/B08.tif")] [];
   mkItem "b" [("red", "https://h/b/B04.tif")] []].
Definition demo_get (url : string) (w : Disk) : result string (result string string) :=
  if bool_decide (url = "https://h/b/B04.tif") then Ok (Err "reset") else Ok (Ok ("body of " +:+ url)).
Definition demo_hash (url : string) : string := first_piece (λ c, Ascii.eqb c "."%char) (default "" (strip_prefix "https://h/" url)).
Definition demo_name (url : string) : option string := Some (after_last_slash url).
Definition demo_download (want : string) :=
  download_items (λ _, Ok tt) demo_get demo_hash demo_name (λ _ _, None) (λ _ _, None) (λ _, Ok tt) scene_items "/cache"
    (mkDownloadOpts (Some [want]) 0) (mkDisk ∅ []).

Lemma downloads_are_whole_witness :
  (demo_download "nir").1 = Ok ["/cache/a/B08_B08.tif"] ∧
  ∃ w', (demo_download "red").2 = w' ∧
    downloads_step demo_get demo_hash demo_name "/cache" (selected_assets (mkDownloadOpts (Some ["red"]) 0) scene_items)
      (mkDisk ∅ []) w'.
Proof.
  split; [vm_compute; reflexivity|]. exists (demo_download "red").2. split; [reflexivity|].
  destruct (demo_download "red") as [r w'] eqn:E.
  apply (downloads_are_whole (λ _, Ok tt) demo_get demo_hash demo_name (λ _ _, None) (λ _ _, None) (λ _, Ok tt)
    scene_items "/cache" (mkDownloadOpts (Some ["red"]) 0) (mkDisk ∅ []) r w'); [|exact E].
  assert (selected_assets (mkDownloadOpts (Some ["red"]) 0) scene_items =
    [("red", "https://h/a/B04.tif"); ("red", "https://h/b/B04.tif")]) as -> by (vm_compute; reflexivity).
  intros a [->|[->|[]%not_elem_of_nil]%elem_of_cons]%elem_of_cons; vm_compute; reflexivity.
Defined.

(** A link whose name already ends in .part is written in place: what a broken
    write leaves of it is later taken for the file. *)
Example part_name_not_atomic :
  let items := [mkItem "a" [("x", "https://h/a/x.part")] []] in
  let run fault := download_items (λ _, Ok tt) demo_get demo_hash demo_name fault (λ _ _, None) (λ _, Ok tt) items
                     "/cache" (mkDownloadOpts None 0) in
  let '(r, w) := run (λ _ _, Some ("disk full", Some "bo")) (mkDisk ∅ []) in
  r = Err "io: disk full" ∧ d_files w !! "/cache/a/x_x.part" = Some "bo" ∧
  (run (λ _ _, None) w).1 = Ok ["/cache/a/x_x.part"].
Proof. vm_compute. done. Qed.
End Demo.
