(* ===== verification/Server.v ===== *)
(** * The server: apps/orbit-openeo/src/lib.rs, state.rs and main.rs

    The shared state, the routes of every module as one table, the layers around it
    (panics, body limit, authentication), and what the command line makes of them.  axum's
    matching of paths and its extractors, the body-limit layer, the clock and the sources
    of identifiers are parameters; a request is one step on the state.  The event bus and
    the recorder's writers are used by the job runner alone and are modelled there. *)

From Stdlib Require Import Ascii.
From S2P Require Import Prelude Text BTree F64 Json UrlPolicy ProcessGraph Catalog JobStore FileStore Metrics Executor Registry.
From S2P Require Import Runner Supervisor Jobs Auth Credentials Routes Load GeoExec.
Local Open Scope Z_scope.

(** ** Plug-in points: either of two implementations *)

Section either.
Context {A B : Type}.

#[export] Instance either_files `{FileStore A, FileStore B} : FileStore (A + B) := {
  put_file k b s := match s with
    | inl s => let '(r, s) := put_file k b s in (r, inl s) | inr s => let '(r, s) := put_file k b s in (r, inr s) end;
  get_file k s := match s with inl s => get_file k s | inr s => get_file k s end;
  delete_file k s := match s with
    | inl s => let '(r, s) := delete_file k s in (r, inl s) | inr s => let '(r, s) := delete_file k s in (r, inr s) end;
  list_files u s := match s with inl s => list_files u s | inr s => list_files u s end }.

Definition on_either {R} (f : A → R * A) (g : B → R * B) (s : A + B) : R * (A + B) :=
  match s with inl s => let '(r, s) := f s in (r, inl s) | inr s => let '(r, s) := g s in (r, inr s) end.
Definition at_either {R} (f : A → R) (g : B → R) (s : A + B) : R := match s with inl s => f s | inr s => g s end.

#[export] Instance either_jobs `{JobStore A, JobStore B} : JobStore (A + B) := {
  create id now u t d p := on_either (create id now u t d p) (create id now u t d p);
  get id := at_either (get id) (get id);
  list_for_user u := at_either (list_for_user u) (list_for_user u);
  set_status now id s := on_either (set_status now id s) (set_status now id s);
  set_progress now id p := on_either (set_progress now id p) (set_progress now id p);
  set_metadata now id t d := on_either (set_metadata now id t d) (set_metadata now id t d);
  delete_job id := on_either (delete_job id) (delete_job id);
  add_asset now id a := on_either (add_asset now id a) (add_asset now id a);
  append_log now id l m := on_either (append_log now id l m) (append_log now id l m);
  get_logs id := at_either (get_logs id) (get_logs id);
  recover_orphans now := on_either (recover_orphans now) (recover_orphans now) }.

#[export] Instance either_catalog `{CollectionCatalog A, CollectionCatalog B} : CollectionCatalog (A + B) := {
  catalog_list := at_either catalog_list catalog_list;
  catalog_get id := at_either (catalog_get id) (catalog_get id) }.

#[export] Instance either_executor `{ProcessGraphExecutor A, ProcessGraphExecutor B} : ProcessGraphExecutor (A + B) := {
  exec_run_sync body s := match s with
    | inl s => match exec_run_sync body s with Some (r, s) => Some (r, inl s) | None => None end
    | inr s => match exec_run_sync body s with Some (r, s) => Some (r, inr s) | None => None end
    end }.
End either.

(** ** Requests and the two job handlers in one step *)

Section processing.
Context {St : Type} `{JobStore St}.

Definition start_processing (job_id : string) (y : Sys St) : HttpResponse * Sys St :=
  match start_read job_id (y_store y) with
  | inl r => (r, y)
  | inr _ =>
      match start_spawn job_id y with
      | inl r => (r, y)
      | inr (k, y') => (empty_response 202, register job_id k y')
      end
  end.

Definition discard_results (now : Z) (job_id : string) (y : Sys St) : HttpResponse * Sys St :=
  let '(r, write, y') := discard_read job_id y in
  (r, if write then set_store (set_status now job_id Canceled (y_store y')).2 y' else y').
End processing.

(** A request: its method, path, [Authorization] value when it is a readable string, and
    the rest that the extractors look at. *)
Record Request (B : Type) := mkRequest {
  rq_method : string; rq_path : string; rq_auth : option string; rq_rest : B }.
Arguments mkRequest {B}. Arguments rq_method {B}. Arguments rq_path {B}.
Arguments rq_auth {B}. Arguments rq_rest {B}.

(** ** The table of routes *)

Inductive endpoint :=
| ECapabilities | EWellKnown | EConformance | EMe | EHealth | EMetrics
| EListCollections | EGetCollection | EListProcesses | EFileFormats | EOutputFormats | EServiceTypes | EUdfRuntimes
| EBasic | EOidc | EDeviceInit | EDeviceToken
| EListFiles | EDownloadFile | EUploadFile | EDeleteFile
| EListJobs | ECreateJob | EGetJob | EUpdateJob | EDeleteJob | EEstimateJob | EJobLogs
| EGetResults | EStartProcessing | EDiscardResults | EDownloadAsset
| ESyncCompute
| EUdpList | EUdpGet | EUdpStore | EUdpRemove
| EServices | ECreateService | EGetService | EUpdateService | ERemoveService
| EValidate | ESubscription | EOpenapiJson | EOpenapiYaml | EProducts.

Notation Table := (list (string * list (string * endpoint))).

Definition discovery_router : Table := [
  ("/", [("GET", ECapabilities)]); ("/.well-known/openeo", [("GET", EWellKnown)]);
  ("/conformance", [("GET", EConformance)]); ("/me", [("GET", EMe)]); ("/health", [("GET", EHealth)]);
  ("/metrics", [("GET", EMetrics)])].
Definition catalogs_router : Table := [
  ("/collections", [("GET", EListCollections)]); ("/collections/{collection_id}", [("GET", EGetCollection)]);
  ("/processes", [("GET", EListProcesses)]); ("/file_formats", [("GET", EFileFormats)]);
  ("/output_formats", [("GET", EOutputFormats)]); ("/service_types", [("GET", EServiceTypes)]);
  ("/udf_runtimes", [("GET", EUdfRuntimes)])].
Definition credentials_router : Table := [
  ("/credentials/basic", [("GET", EBasic)]); ("/credentials/oidc", [("GET", EOidc); ("POST", EDeviceInit)]);
  ("/credentials/oidc/token", [("POST", EDeviceToken)])].
Definition files_router : Table := [
  ("/files/{user_id}", [("GET", EListFiles)]);
  ("/files/{user_id}/{path}", [("GET", EDownloadFile); ("PUT", EUploadFile); ("DELETE", EDeleteFile)])].
Definition jobs_router : Table := [
  ("/jobs", [("GET", EListJobs); ("POST", ECreateJob)]);
  ("/jobs/{job_id}", [("GET", EGetJob); ("PATCH", EUpdateJob); ("DELETE", EDeleteJob)]);
  ("/jobs/{job_id}/estimate", [("GET", EEstimateJob)]); ("/jobs/{job_id}/logs", [("GET", EJobLogs)]);
  ("/jobs/{job_id}/results", [("GET", EGetResults); ("POST", EStartProcessing); ("DELETE", EDiscardResults)]);
  ("/jobs/{job_id}/results/{asset_name}", [("GET", EDownloadAsset)])].
Definition result_router : Table := [("/result", [("POST", ESyncCompute)])].
Definition process_graphs_router : Table := [
  ("/process_graphs", [("GET", EUdpList)]);
  ("/process_graphs/{process_graph_id}", [("GET", EUdpGet); ("PUT", EUdpStore); ("DELETE", EUdpRemove)])].
Definition services_router : Table := [
  ("/services", [("GET", EServices); ("POST", ECreateService)]);
  ("/services/{service_id}", [("GET", EGetService); ("PATCH", EUpdateService); ("DELETE", ERemoveService)])].
Definition validation_router : Table := [("/validation", [("POST", EValidate)])].
Definition subscription_router : Table := [("/subscription", [("GET", ESubscription)])].
Definition spec_router : Table := [
  ("/openapi", [("GET", EOpenapiJson)]); ("/openapi.json", [("GET", EOpenapiJson)]);
  ("/openapi.yaml", [("GET", EOpenapiYaml)])].
Definition products_router : Table := [("/products", [("GET", EProducts)])].

(** The merged routers; /products is in builds with the geo kernel only. *)
Definition api (geo_kernel : bool) : Table :=
  discovery_router ++ catalogs_router ++ credentials_router ++ files_router ++ jobs_router ++ result_router ++
  process_graphs_router ++ services_router ++ validation_router ++ subscription_router ++ spec_router ++
  (if geo_kernel then products_router else []).

(** The handler of a method, and whether the body of its answer is dropped: a GET route
    answers HEAD as well. *)
Definition method_handler (ms : list (string * endpoint)) (method : string) : option (endpoint * bool) :=
  match assoc_get method ms with
  | Some h => Some (h, false)
  | None => if bool_decide (method = "HEAD") then (λ h, (h, true)) <$> assoc_get "GET" ms else None
  end.

(** ** The state and its builder *)

Record AppState (St Fs C W : Type) := mkAppState {
  s_schemas : SchemaRegistry;
  s_auth : AuthPolicy;
  s_api_version : string;
  s_backend_id : string;
  s_executor : W;
  s_files : Fs;
  s_security : RouteSecurityMap;
  s_creds : CredState;                 (* tokens and device_codes *)
  s_oidc_providers : list OidcProvider;
  s_catalog : C;
  s_jobs : Sys St;                     (* jobs, job_sem and job_registry *)
  s_metrics : InMemoryRecorder;
  s_udp : UdpStore }.
Arguments mkAppState {St Fs C W}. Arguments s_schemas {St Fs C W}. Arguments s_auth {St Fs C W}.
Arguments s_api_version {St Fs C W}. Arguments s_backend_id {St Fs C W}. Arguments s_executor {St Fs C W}.
Arguments s_files {St Fs C W}. Arguments s_security {St Fs C W}. Arguments s_creds {St Fs C W}.
Arguments s_oidc_providers {St Fs C W}. Arguments s_catalog {St Fs C W}. Arguments s_jobs {St Fs C W}.
Arguments s_metrics {St Fs C W}. Arguments s_udp {St Fs C W}.

Section state.
Context {St Fs C W : Type}.
Implicit Types s : AppState St Fs C W.

Definition set_executor (w : W) s : AppState St Fs C W :=
  mkAppState (s_schemas s) (s_auth s) (s_api_version s) (s_backend_id s) w (s_files s) (s_security s) (s_creds s)
    (s_oidc_providers s) (s_catalog s) (s_jobs s) (s_metrics s) (s_udp s).
Definition set_files (f : Fs) s : AppState St Fs C W :=
  mkAppState (s_schemas s) (s_auth s) (s_api_version s) (s_backend_id s) (s_executor s) f (s_security s) (s_creds s)
    (s_oidc_providers s) (s_catalog s) (s_jobs s) (s_metrics s) (s_udp s).
Definition set_creds (c : CredState) s : AppState St Fs C W :=
  mkAppState (s_schemas s) (s_auth s) (s_api_version s) (s_backend_id s) (s_executor s) (s_files s) (s_security s) c
    (s_oidc_providers s) (s_catalog s) (s_jobs s) (s_metrics s) (s_udp s).
Definition set_jobs (y : Sys St) s : AppState St Fs C W :=
  mkAppState (s_schemas s) (s_auth s) (s_api_version s) (s_backend_id s) (s_executor s) (s_files s) (s_security s)
    (s_creds s) (s_oidc_providers s) (s_catalog s) y (s_metrics s) (s_udp s).
Definition set_udp (u : UdpStore) s : AppState St Fs C W :=
  mkAppState (s_schemas s) (s_auth s) (s_api_version s) (s_backend_id s) (s_executor s) (s_files s) (s_security s)
    (s_creds s) (s_oidc_providers s) (s_catalog s) (s_jobs s) (s_metrics s) u.

(** What the builder was given so far; the two credential stores are one field. *)
Record AppStateBuilder := mkBuilder {
  b_schemas : option SchemaRegistry; b_auth : option AuthPolicy; b_api_version : option string;
  b_backend_id : option string; b_executor : option W; b_files : option Fs; b_security : option RouteSecurityMap;
  b_tokens : option TokenStore; b_device_codes : option DeviceCodeStore; b_oidc_providers : option (list OidcProvider);
  b_catalog : option C; b_jobs : option St; b_metrics : option InMemoryRecorder; b_job_sem : option nat }.
Definition AppStateBuilder_new : AppStateBuilder :=
  mkBuilder None None None None None None None None None None None None None None.

(** [permits.max(1)] *)
Definition job_concurrency (permits : nat) : nat := Nat.max permits 1.

(** The setters; the event bus is the trace of published events of Runner.v and has no field. *)
Implicit Types b : AppStateBuilder.
Definition with_schemas (x : SchemaRegistry) b : AppStateBuilder :=
  mkBuilder (Some x) (b_auth b) (b_api_version b) (b_backend_id b) (b_executor b) (b_files b) (b_security b)
    (b_tokens b) (b_device_codes b) (b_oidc_providers b) (b_catalog b) (b_jobs b) (b_metrics b) (b_job_sem b).
Definition with_auth (x : AuthPolicy) b : AppStateBuilder :=
  mkBuilder (b_schemas b) (Some x) (b_api_version b) (b_backend_id b) (b_executor b) (b_files b) (b_security b)
    (b_tokens b) (b_device_codes b) (b_oidc_providers b) (b_catalog b) (b_jobs b) (b_metrics b) (b_job_sem b).
Definition with_api_version (x : string) b : AppStateBuilder :=
  mkBuilder (b_schemas b) (b_auth b) (Some x) (b_backend_id b) (b_executor b) (b_files b) (b_security b)
    (b_tokens b) (b_device_codes b) (b_oidc_providers b) (b_catalog b) (b_jobs b) (b_metrics b) (b_job_sem b).
Definition with_backend_id (x : string) b : AppStateBuilder :=
  mkBuilder (b_schemas b) (b_auth b) (b_api_version b) (Some x) (b_executor b) (b_files b) (b_security b)
    (b_tokens b) (b_device_codes b) (b_oidc_providers b) (b_catalog b) (b_jobs b) (b_metrics b) (b_job_sem b).
Definition with_executor (x : W) b : AppStateBuilder :=
  mkBuilder (b_schemas b) (b_auth b) (b_api_version b) (b_backend_id b) (Some x) (b_files b) (b_security b)
    (b_tokens b) (b_device_codes b) (b_oidc_providers b) (b_catalog b) (b_jobs b) (b_metrics b) (b_job_sem b).
Definition with_files (x : Fs) b : AppStateBuilder :=
  mkBuilder (b_schemas b) (b_auth b) (b_api_version b) (b_backend_id b) (b_executor b) (Some x) (b_security b)
    (b_tokens b) (b_device_codes b) (b_oidc_providers b) (b_catalog b) (b_jobs b) (b_metrics b) (b_job_sem b).
Definition with_security (x : RouteSecurityMap) b : AppStateBuilder :=
  mkBuilder (b_schemas b) (b_auth b) (b_api_version b) (b_backend_id b) (b_executor b) (b_files b) (Some x)
    (b_tokens b) (b_device_codes b) (b_oidc_providers b) (b_catalog b) (b_jobs b) (b_metrics b) (b_job_sem b).
Definition with_tokens (x : TokenStore) b : AppStateBuilder :=
  mkBuilder (b_schemas b) (b_auth b) (b_api_version b) (b_backend_id b) (b_executor b) (b_files b) (b_security b)
    (Some x) (b_device_codes b) (b_oidc_providers b) (b_catalog b) (b_jobs b) (b_metrics b) (b_job_sem b).
Definition with_device_codes (x : DeviceCodeStore) b : AppStateBuilder :=
  mkBuilder (b_schemas b) (b_auth b) (b_api_version b) (b_backend_id b) (b_executor b) (b_files b) (b_security b)
    (b_tokens b) (Some x) (b_oidc_providers b) (b_catalog b) (b_jobs b) (b_metrics b) (b_job_sem b).
Definition with_oidc_providers (x : list OidcProvider) b : AppStateBuilder :=
  mkBuilder (b_schemas b) (b_auth b) (b_api_version b) (b_backend_id b) (b_executor b) (b_files b) (b_security b)
    (b_tokens b) (b_device_codes b) (Some x) (b_catalog b) (b_jobs b) (b_metrics b) (b_job_sem b).
Definition with_catalog (x : C) b : AppStateBuilder :=
  mkBuilder (b_schemas b) (b_auth b) (b_api_version b) (b_backend_id b) (b_executor b) (b_files b) (b_security b)
    (b_tokens b) (b_device_codes b) (b_oidc_providers b) (Some x) (b_jobs b) (b_metrics b) (b_job_sem b).
Definition with_jobs (x : St) b : AppStateBuilder :=
  mkBuilder (b_schemas b) (b_auth b) (b_api_version b) (b_backend_id b) (b_executor b) (b_files b) (b_security b)
    (b_tokens b) (b_device_codes b) (b_oidc_providers b) (b_catalog b) (Some x) (b_metrics b) (b_job_sem b).
Definition with_metrics (x : InMemoryRecorder) b : AppStateBuilder :=
  mkBuilder (b_schemas b) (b_auth b) (b_api_version b) (b_backend_id b) (b_executor b) (b_files b) (b_security b)
    (b_tokens b) (b_device_codes b) (b_oidc_providers b) (b_catalog b) (b_jobs b) (Some x) (b_job_sem b).
Definition with_job_concurrency (x : nat) b : AppStateBuilder :=
  mkBuilder (b_schemas b) (b_auth b) (b_api_version b) (b_backend_id b) (b_executor b) (b_files b) (b_security b)
    (b_tokens b) (b_device_codes b) (b_oidc_providers b) (b_catalog b) (b_jobs b) (b_metrics b) (Some (job_concurrency x)).

(** [build]: the defaults are those of each store; the default executor is a local one on
    the catalog that was resolved. *)
Definition build_state (empty_catalog : C) (local : C → W) (files : Fs) (jobs : St) (b : AppStateBuilder)
    : AppState St Fs C W :=
  let catalog := default empty_catalog (b_catalog b) in
  mkAppState (default ∅ (b_schemas b)) (default Open (b_auth b)) (default "1.3.0" (b_api_version b))
    (default "orbit-rs" (b_backend_id b)) (default (local catalog) (b_executor b)) (default files (b_files b))
    (default ∅ (b_security b))
    (mkCred (default TokenStore_new (b_tokens b)) (default DeviceCodeStore_new (b_device_codes b)))
    (default [] (b_oidc_providers b)) catalog (boot (default 16%nat (b_job_sem b)) (default jobs (b_jobs b)))
    (default Recorder_new (b_metrics b)) UdpStore_new.
End state.

(** ** One request *)

(** What the system gives the handlers. *)
Record Fresh := mkFresh { f_job_id : string; f_now : Z; f_given : Given }.

Definition bad_params : HttpResponse := empty_response 500.

Section serve.
Context {St Fs C W B : Type}.
Context `{JobStore St} `{FileStore Fs} `{CollectionCatalog C} `{ProcessGraphExecutor W} `{Petgraph}.
Context (nodes_of_json : Value → result string (btree string Process)).
Context (display : f64 → string) (base64url : list Z → string) (openapi_doc openapi_yaml_doc : list Z).

(** The extractors, with the answers they reject a request with. *)
Context (extract_json : B → result HttpResponse Value) (extract_opt_json : B → result HttpResponse (option Value)).
Context (extract_bytes : B → result HttpResponse (list Z)) (ws_upgrade : B → HttpResponse).

(** axum's router: the template a path matches, with the decoded segments of its
    parameters; its answers where no template or method matches; and the answer of the
    body-limit layer to a request beyond so many bytes. *)
Context (match_path : string → option (string * result HttpResponse (list string))).
Context (no_route : HttpResponse) (wrong_method : list string → HttpResponse).
Context (too_large : Z → Request B → option HttpResponse).

Notation State := (AppState St Fs C W).
Implicit Types s : State.

(** [None] is a panic of the handler. *)
Notation Handled := (option HttpResponse * State)%type.

Definition reply (r : HttpResponse) s : Handled := (Some r, s).

Definition with_segment (ps : list string) s (k : string → Handled) : Handled :=
  match ps with [a] => k a | _ => reply bad_params s end.
Definition with_segments (ps : list string) s (k : string → string → Handled) : Handled :=
  match ps with [a; b] => k a b | _ => reply bad_params s end.
Definition with_json (rest : B) s (k : Value → Handled) : Handled :=
  match extract_json rest with Ok v => k v | Err r => reply r s end.

Definition jobs_result s (p : HttpResponse * St) : Handled :=
  (Some p.1, set_jobs (set_store p.2 (s_jobs s)) s).
Definition files_result s (p : HttpResponse * Fs) : Handled := (Some p.1, set_files p.2 s).
Definition creds_result s (p : HttpResponse * CredState) : Handled := (Some p.1, set_creds p.2 s).
Definition udp_result s (p : HttpResponse * UdpStore) : Handled := (Some p.1, set_udp p.2 s).

Definition handle (f : Fresh) (e : endpoint) (ps : list string) (rq : Request B) s : Handled :=
  let rest := rq_rest rq in
  let store := y_store (s_jobs s) in
  match e with
  | ECapabilities => reply (capabilities (s_api_version s) (s_backend_id s)) s
  | EWellKnown => reply (well_known (s_api_version s)) s
  | EConformance => reply conformance s
  | EMe => reply me s
  | EHealth => reply health s
  | EMetrics => reply (metrics_route display (s_metrics s)) s
  | EListCollections => reply (list_collections (s_catalog s)) s
  | EGetCollection => with_segment ps s (λ id, reply (get_collection id (s_catalog s)) s)
  | EListProcesses => reply list_processes s
  | EFileFormats => reply list_file_formats s
  | EOutputFormats => reply list_output_formats s
  | EServiceTypes => reply list_service_types s
  | EUdfRuntimes => reply list_udf_runtimes s
  | EBasic => creds_result s (credentials_basic base64url (s_auth s) (f_given f) (rq_auth rq) (s_creds s))
  | EOidc => reply (credentials_oidc (s_oidc_providers s)) s
  | EDeviceInit =>
      match extract_opt_json rest with
      | Ok body => creds_result s (credentials_oidc_device_init base64url (f_given f) body (s_creds s))
      | Err r => reply r s
      end
  | EDeviceToken => with_json rest s (λ body,
      creds_result s (credentials_oidc_device_token base64url (f_given f) body (s_creds s)))
  | EListFiles => with_segment ps s (λ user, reply (list_files_route user (s_files s)) s)
  | EDownloadFile => with_segments ps s (λ user path, reply (download_file user path (s_files s)) s)
  | EUploadFile => with_segments ps s (λ user path,
      match extract_bytes rest with
      | Ok body => files_result s (upload_file user path body (s_files s))
      | Err r => reply r s
      end)
  | EDeleteFile => with_segments ps s (λ user path, files_result s (delete_file_route user path (s_files s)))
  | EListJobs => reply (list_jobs store) s
  | ECreateJob => with_json rest s (λ body,
      jobs_result s (create_job nodes_of_json (f_job_id f) (f_now f) body store))
  | EGetJob => with_segment ps s (λ id, reply (get_job id store) s)
  | EUpdateJob => with_segment ps s (λ id, with_json rest s (λ patch,
      jobs_result s (update_job (f_now f) id patch store)))
  | EDeleteJob => with_segment ps s (λ id, jobs_result s (delete_job_route id store))
  | EEstimateJob => with_segment ps s (λ id, reply (estimate_job id store) s)
  | EJobLogs => with_segment ps s (λ id, reply (job_logs id store) s)
  | EGetResults => with_segment ps s (λ id, reply (get_results id store) s)
  | EStartProcessing => with_segment ps s (λ id,
      let '(r, y) := start_processing id (s_jobs s) in (Some r, set_jobs y s))
  | EDiscardResults => with_segment ps s (λ id,
      let '(r, y) := discard_results (f_now f) id (s_jobs s) in (Some r, set_jobs y s))
  | EDownloadAsset => with_segments ps s (λ id asset, reply (download_asset id asset store (s_files s)) s)
  | ESyncCompute => with_json rest s (λ body,
      match sync_compute body (s_executor s) with
      | Some (r, w) => (Some r, set_executor w s)
      | None => (None, s)
      end)
  | EUdpList => reply (udp_list (s_udp s)) s
  | EUdpGet => with_segment ps s (λ id, reply (udp_get_one id (s_udp s)) s)
  | EUdpStore => with_segment ps s (λ id, with_json rest s (λ body, udp_result s (udp_store id body (s_udp s))))
  | EUdpRemove => with_segment ps s (λ id, udp_result s (udp_remove id (s_udp s)))
  | EServices => reply services_list s
  | ECreateService => with_json rest s (λ spec, reply (services_create spec) s)
  | EGetService => with_segment ps s (λ id, reply (services_get id) s)
  | EUpdateService => with_segment ps s (λ id, with_json rest s (λ spec, reply (services_update id spec) s))
  | ERemoveService => with_segment ps s (λ id, reply (services_remove id) s)
  | EValidate => with_json rest s (λ body, reply (validate_route (s_schemas s) body) s)
  | ESubscription => reply (ws_upgrade rest) s
  | EOpenapiJson => reply (openapi_json openapi_doc) s
  | EOpenapiYaml => reply (openapi_yaml openapi_yaml_doc) s
  | EProducts => reply list_products s
  end.

Definition strip_body (drop : bool) (r : HttpResponse) : HttpResponse :=
  if drop then mkHttp (h_status r) (h_headers r) NoBody else r.

(** The routed service under the layers. *)
Definition route_request (t : Table) (f : Fresh) (rq : Request B) s : Handled :=
  match match_path (rq_path rq) with
  | None => reply no_route s
  | Some (template, ps) =>
      match assoc_get template t with
      | None => reply no_route s
      | Some ms =>
          match method_handler ms (rq_method rq) with
          | None => reply (wrong_method ms.*1) s
          | Some (e, head) =>
              match ps with
              | Err r => reply r s
              | Ok ps => let '(o, s') := handle f e ps rq s in (strip_body head <$> o, s')
              end
          end
      end
  end.

Definition unauthorized (msg : string) : HttpResponse :=
  mkHttp 401 [("www-authenticate", "Bearer, Basic")] (JsonBody (error_body "AuthenticationRequired" msg)).

(** The template in force when the authentication layer runs. *)
Definition matched_template (t : Table) (path : string) : option string :=
  match match_path path with
  | Some (template, _) => if bool_decide (is_Some (assoc_get template t)) then Some template else None
  | None => None
  end.

Definition BODY_LIMIT : Z := 128 * 1024 * 1024.
Definition panic_to_500 : HttpResponse := internal "internal server error".

(** [build_router]: panics outermost, then the body limit, then authentication. *)
Definition serve_request (t : Table) (f : Fresh) (rq : Request B) s : HttpResponse * State :=
  match too_large BODY_LIMIT rq with
  | Some r => (r, s)
  | None =>
      match enforce to_ascii_uppercase (mkAuthLayer (s_security s) (s_auth s)) (matched_template t (rq_path rq))
              (rq_method rq) (rq_auth rq) with
      | Unauthorized msg => (unauthorized msg, s)
      | Forwarded => let '(o, s') := route_request t f rq s in (default panic_to_500 o, s')
      end
  end.

Definition serve_all (t : Table) (history : list (Fresh * Request B)) s : State :=
  foldl (λ s e, (serve_request t e.1 e.2 s).2) s history.
End serve.

(** ** The document: spec/openapi.json *)

Definition anyone : Value := Object [].
Definition bearer : Value := Object [("Bearer", Array [])].
Definition basic : Value := Object [("Basic", Array [])].
Definition op (alternatives : list Value) : Value := Object [("security", Array alternatives)].

(** The paths of the document, each operation with the one member that is read. *)
Definition OPENAPI_PATHS : Value := Object [("paths", Object [
  ("/", Object [("get", op [anyone])]);
  ("/.well-known/openeo", Object [("get", op [anyone])]);
  ("/file_formats", Object [("get", op [anyone; bearer])]);
  ("/conformance", Object [("get", op [anyone; bearer])]);
  ("/collections", Object [("get", op [anyone; bearer])]);
  ("/collections/{collection_id}", Object [("get", op [anyone; bearer])]);
  ("/collections/{collection_id}/queryables", Object [("get", op [anyone; bearer])]);
  ("/processes", Object [("get", op [anyone; bearer])]);
  ("/udf_runtimes", Object [("get", op [anyone; bearer])]);
  ("/credentials/oidc", Object [("get", op [anyone])]);
  ("/credentials/basic", Object [("get", op [basic])]);
  ("/validation", Object [("post", op [anyone; bearer])]);
  ("/result", Object [("post", op [bearer])]);
  ("/process_graphs", Object [("get", op [bearer])]);
  ("/process_graphs/{process_graph_id}", Object [("parameters", Array []); ("get", op [bearer]); ("put", op [bearer]); ("delete", op [bearer])]);
  ("/service_types", Object [("get", op [anyone; bearer])]);
  ("/services", Object [("get", op [bearer]); ("post", op [bearer])]);
  ("/services/{service_id}", Object [("parameters", Array []); ("patch", op [bearer]); ("get", op [bearer]); ("delete", op [bearer])]);
  ("/services/{service_id}/logs", Object [("get", op [bearer])]);
  ("/jobs", Object [("get", op [bearer]); ("post", op [bearer])]);
  ("/jobs/{job_id}", Object [("parameters", Array []); ("patch", op [bearer]); ("get", op [bearer]); ("delete", op [bearer])]);
  ("/jobs/{job_id}/estimate", Object [("get", op [bearer])]);
  ("/jobs/{job_id}/logs", Object [("get", op [bearer])]);
  ("/jobs/{job_id}/results", Object [("parameters", Array []); ("get", op [bearer]); ("post", op [bearer]); ("delete", op [bearer])]);
  ("/files", Object [("get", op [bearer])]);
  ("/files/{path}", Object [("parameters", Array []); ("get", op [bearer]); ("put", op [bearer]); ("delete", op [bearer])]);
  ("/me", Object [("get", op [bearer])])])].

Definition SECURITY : RouteSecurityMap :=
  match from_spec to_ascii_uppercase OPENAPI_PATHS with Ok m => m | Err _ => ∅ end.

Lemma SECURITY_read : from_spec to_ascii_uppercase OPENAPI_PATHS = Ok SECURITY.
Proof.
  assert (is_ok (from_spec to_ascii_uppercase OPENAPI_PATHS) = true) as H by (vm_compute; reflexivity).
  unfold SECURITY. by destruct (from_spec _ _).
Qed.

(** ** main.rs *)

Record Args := mkArgs {
  bind : IpAddr * Z; auth_token : option string; backend_id : string; files_dir : option string;
  stac_url : string; executor_name : string; db_url : string }.

(** The options set on GDAL before any file is opened. *)
Definition vsicurl_options : list (string * string) := [
  ("VSI_CACHE", "TRUE"); ("VSI_CACHE_SIZE", "536870912"); ("CPL_VSIL_CURL_CHUNK_SIZE", "16384");
  ("GDAL_HTTP_MAX_RETRY", "5"); ("GDAL_HTTP_RETRY_DELAY", "1"); ("CPL_VSIL_CURL_USE_HEAD", "NO")].
(** [set] is GDAL's [set_config_option]; a failure is only logged. *)
Definition configure_gdal_for_vsicurl {G} (set : string → string → G → result string () * G) (g : G) : G :=
  foldl (λ g kv, (set kv.1 kv.2 g).2) g vsicurl_options.

Section main.
Context (getenv : string → option string).

Definition is_one (name : string) : bool := bool_decide (getenv name = Some "1").

(** How long the shutdown waits for running jobs, in seconds. *)
Definition drain_secs : Z := default 30 (getenv "ORBIT_SHUTDOWN_DRAIN_SECS" ≫= parse_uint 64).

Context {Wg : Type}.
Implicit Types g : GeoExecutor Wg.

Definition choose_downloader (async_tiff_feature : bool) g : GeoExecutor Wg :=
  if async_tiff_feature then
    if is_one "ORBIT_INPROCESS_DOWNLOADER" then with_inprocess_downloader g
    else if is_one "ORBIT_SUBPROCESS_DOWNLOADER" then g
    else with_async_tiff_downloader g
  else if is_one "ORBIT_SUBPROCESS_DOWNLOADER" then g
  else with_inprocess_downloader g.

Definition override_concurrency g : GeoExecutor Wg :=
  match getenv "ORBIT_DOWNLOAD_CONCURRENCY" ≫= parse_uint 64 with
  | Some n => if 1 <=? n then with_download_concurrency n g else g
  | None => g
  end.

Definition pin_scratch (gd : GeoExecutor Wg * gset string) : GeoExecutor Wg * gset string :=
  match getenv "ORBIT_SCRATCH_DIR" with
  | Some dir => if bool_decide (dir = "") then gd else with_scratch_dir dir gd
  | None => gd
  end.

Context (make_searcher : string → string → list f64 → option string → Z → option f64 → Wg →
           result ExecError (list Stac.StacScene) * Wg).

Definition geo_executor (async_tiff_feature : bool) (stac_url : string)
    (gd : GeoExecutor Wg * gset string) : GeoExecutor Wg * gset string :=
  let '(g, d) := gd in
  let g := if bool_decide (stac_url = "") then g else with_searcher (make_searcher stac_url) g in
  pin_scratch (override_concurrency (choose_downloader async_tiff_feature g), d).

(** A GeoExecutor with its world and the directories; a local executor with its catalog. *)
Record GeoState := mkGeoState { gs_exec : GeoExecutor Wg; gs_dirs : gset string; gs_world : Wg }.
Record LocalExecutor (C : Type) := mkLocal { le_catalog : option C }.
Arguments mkLocal {C}. Arguments le_catalog {C}.

(** [Geo.run_sync], and the local executor of [Executor]. *)
Context (geo_run : GeoExecutor Wg → Value → Wg → option (result ExecError SyncResult * Wg)).
Context {C : Type} `{CollectionCatalog C} `{Petgraph} (to_text : Value → string)
  (nodes_of_json : Value → result string (btree string Process)).

#[local] Instance geo_process_executor : ProcessGraphExecutor GeoState := {
  exec_run_sync body st :=
    match geo_run (gs_exec st) body (gs_world st) with
    | Some (r, w) => Some (r, mkGeoState (gs_exec st) (gs_dirs st) w)
    | None => None
    end }.
#[local] Instance local_process_executor : ProcessGraphExecutor (LocalExecutor C) := {
  exec_run_sync body l :=
    match local_run_sync to_text nodes_of_json (le_catalog l) body with Some r => Some (r, l) | None => None end }.

Context {St Fs : Type} `{JobStore St}.
Notation Files := (InMemoryFileStore + Fs)%type.
Notation JobsOf := (InMemoryJobStore + St)%type.
Notation Executor := (LocalExecutor C + GeoState)%type.

Context (geo_kernel async_tiff_feature : bool) (show_addr : IpAddr * Z → string)
  (from_str : string → result string Value) (validator_for : Value → result string Validator) (OPENAPI_JSON : string)
  (open_files : string → result string Fs) (http_catalog : string → C) (empty_catalog : C)
  (open_jobs : string → result string St) (now : Z)
  (defaults : ProcessRegistry Wg) (temp_dir : string) (nanos : Z) (dirs : gset string) (world : Wg).

Definition choose_executor (args : Args) (catalog : C) : result string Executor :=
  if bool_decide (executor_name args = "geo") then
    if geo_kernel then
      let '(g, d) := geo_executor async_tiff_feature (stac_url args)
                       (GeoExecutor_with_catalog defaults temp_dir nanos (λ id, catalog_get id catalog) dirs) in
      Ok (inr (mkGeoState g d world))
    else Err ("--executor geo requires the `geo-kernel` cargo feature; " +:+
              "rebuild with `cargo build --features geo-kernel`")
  else Ok (inl (mkLocal (Some catalog))).

(** The store on a database recovers its orphans; a failure to is only logged. *)
Definition choose_jobs (args : Args) : result string (option JobsOf) :=
  if bool_decide (db_url args = "") then Ok None
  else
    store ← map_err (λ e, "opening " +:+ db_url args +:+ ": " +:+ e) (open_jobs (db_url args));
    Ok (Some (inr (recover_orphans now store).2)).

Definition choose_files (args : Args) : result string (option Files) :=
  match files_dir args with
  | Some dir =>
      backend ← map_err (λ e, "failed to open file store at " +:+ dir +:+ ": " +:+ e) (open_files dir);
      Ok (Some (inr backend))
  | None => Ok None
  end.

Definition security_error_text (e : SecurityMapError) : string :=
  match e with ParseError e => "openapi parse: " +:+ e | NoPaths => "openapi missing paths" end.

(** [main] up to serving; the server then runs [build_router] on this state. *)
Definition start (args : Args) : result string (AppState JobsOf Files C Executor) :=
  if negb (is_loopback (bind args).1) && bool_decide (auth_token args = None) then
    Err ("non-loopback bind " +:+ show_addr (bind args) +:+ " requires ORBIT_OPENEO_AUTH_TOKEN. " +:+
         "Refusing to expose an unauthenticated openEO server.")
  else
    schemas ← map_err schema_error_text (schemas_from_openapi from_str validator_for OPENAPI_JSON);
    security ← map_err security_error_text (from_openapi_json to_ascii_uppercase from_str OPENAPI_JSON);
    let auth := match auth_token args with Some t => Bearer t | None => Open end in
    files ← choose_files args;
    let catalog := if bool_decide (stac_url args = "") then empty_catalog else http_catalog (stac_url args) in
    executor ← choose_executor args catalog;
    jobs ← choose_jobs args;
    Ok (build_state empty_catalog (λ c, inl (mkLocal (Some c))) (inl []) (inl InMemory_new)
          (mkBuilder (Some schemas) (Some auth) None (Some (backend_id args)) (Some executor) files (Some security)
             None None None (Some catalog) jobs None None)).
End main.

(** ** What is open *)

Definition open_to_all (sec : RouteSecurityMap) (template method : string) : bool :=
  match route_get to_ascii_uppercase sec method template with None => true | Some r => is_public r end.

Definition accepted (pol : AuthPolicy) (header : option string) : Prop :=
  pol = Open ∨ ∃ h, header = Some h ∧ accepts pol h.

Lemma enforce_unaccepted sec pol template method header : ¬ accepted pol header →
  enforce to_ascii_uppercase (mkAuthLayer sec pol) (Some template) method header = Forwarded →
  open_to_all sec template method = true.
Proof.
  intros Hna. unfold enforce, open_to_all. simpl. destruct (route_get _ sec method template) as [r|]; [|done].
  destruct (is_public r); [done|].
  destruct (check pol header) eqn:E; try done; intros _; exfalso; apply Hna.
  - left. by apply (check_open pol header).
  - right. destruct header as [h|]; [|by apply check_spec in E]. exists h. split; [done|]. by apply check_spec.
Qed.

(** The endpoints that a request reaches on an open method, GET handlers under HEAD included. *)
Definition reachable (e : endpoint) : bool :=
  match e with
  | ECreateJob | EUpdateJob | EDeleteJob | EStartProcessing | EDiscardResults | ESyncCompute
  | EUdpStore | EUdpRemove | ECreateService | EUpdateService | ERemoveService => false
  | _ => true
  end.

(** Computed from the table and the document. *)
Lemma open_table geo_kernel : forallb (λ t,
  forallb (λ m, implb (open_to_all SECURITY t.1 m.1) (reachable m.2)) t.2 &&
  match assoc_get "GET" t.2 with Some h => reachable h | None => true end) (api geo_kernel) = true.
Proof. destruct geo_kernel; vm_compute; reflexivity. Qed.

Lemma open_reaches geo_kernel template ms method e head :
  assoc_get template (api geo_kernel) = Some ms → method_handler ms method = Some (e, head) →
  open_to_all SECURITY template method = true → reachable e = true.
Proof.
  intros Ht Hm Ho. pose proof (open_table geo_kernel) as Hall. rewrite forallb_forall in Hall.
  apply assoc_get_In, list_elem_of_In in Ht. apply Hall, andb_true_iff in Ht as [Hms Hget]. cbn [fst snd] in Hms, Hget.
  unfold method_handler in Hm. destruct (assoc_get method ms) as [h|] eqn:E.
  - injection Hm as <- _. rewrite forallb_forall in Hms. apply assoc_get_In, list_elem_of_In, Hms in E. cbn [fst snd] in E.
    by rewrite Ho in E.
  - clear Hall Hms Ho. destruct (bool_decide _); [|done]. destruct (assoc_get "GET" ms); [|done]. by injection Hm as <- _.
Qed.

(** ** What a client without credentials can change *)

Section confined.
Context {St Fs C W B : Type}.
Context `{JobStore St} `{FileStore Fs} `{CollectionCatalog C} `{ProcessGraphExecutor W} `{Petgraph}.
Context (nodes_of_json : Value → result string (btree string Process)).
Context (display : f64 → string) (base64url : list Z → string) (openapi_doc openapi_yaml_doc : list Z).
Context (extract_json : B → result HttpResponse Value) (extract_opt_json : B → result HttpResponse (option Value)).
Context (extract_bytes : B → result HttpResponse (list Z)) (ws_upgrade : B → HttpResponse).
Context (match_path : string → option (string * result HttpResponse (list string))).
Context (no_route : HttpResponse) (wrong_method : list string → HttpResponse).
Context (too_large : Z → Request B → option HttpResponse).

Notation State := (AppState St Fs C W).
Implicit Types s : State.
Local Notation handle := (handle nodes_of_json display base64url openapi_doc openapi_yaml_doc extract_json
  extract_opt_json extract_bytes ws_upgrade).
Local Notation serve_request := (serve_request nodes_of_json display base64url openapi_doc openapi_yaml_doc extract_json
  extract_opt_json extract_bytes ws_upgrade match_path no_route wrong_method too_large).
Local Notation serve_all := (serve_all nodes_of_json display base64url openapi_doc openapi_yaml_doc extract_json
  extract_opt_json extract_bytes ws_upgrade match_path no_route wrong_method too_large).

(** [s'] differs from [s] in the files and the device sessions only. *)
Definition confined s s' : Prop :=
  s' = set_files (s_files s') (set_creds (mkCred (c_tokens (s_creds s)) (c_devices (s_creds s'))) s).

Lemma confined_refl s : confined s s.
Proof. by destruct s as [???????[] ?????]. Qed.
Lemma confined_trans s1 s2 s3 : confined s1 s2 → confined s2 s3 → confined s1 s3.
Proof. unfold confined. intros -> ->. done. Qed.

(** No device session is approved: nothing in the program approves one. *)
Definition none_approved s : Prop := map_Forall (λ _ x, approved x = false) (dv_inner (c_devices (s_creds s))).

Lemma basic_ok_accepted pol header : basic_ok pol header = true → accepted pol header.
Proof.
  unfold basic_ok, accepted. destruct header as [h|]; [|destruct pol as [| | |? [[? ?]|]]; simpl; auto; done].
  destruct (Basic_parse h) as [c|e] eqn:E; [|destruct pol as [| | |? [[? ?]|]]; simpl; auto; done].
  assert (∀ u p, Basic_matches c u p = true → basic_header h u p) as Hb.
  { intros u p [<- <-]%Basic_matches_spec. by apply Basic_parse_Ok. }
  destruct pol as [|t|u p|b [[u p]|]]; simpl; [auto|done| | |done].
  - intros Hm. right. exists h. split; [done|]. by apply Hb.
  - intros Hm. right. exists h. split; [done|]. right. exists u, p. split; [done|]. by apply Hb.
Qed.

Definition writes_files (e : endpoint) : Prop := e = EUploadFile ∨ e = EDeleteFile.

Lemma handle_reachable f e ps rq s : reachable e = true → ¬ accepted (s_auth s) (rq_auth rq) → none_approved s →
  let s' := (handle f e ps rq s).2 in
  confined s s' ∧ none_approved s' ∧ (¬ writes_files e → s_files s' = s_files s).
Proof.
  intros Hr Hna Hap.
  assert (∀ r, let s' := (reply r s : option HttpResponse * State).2 in
    confined s s' ∧ none_approved s' ∧ (¬ writes_files e → s_files s' = s_files s)) as Hsame.
  { intros r. split; [apply confined_refl|done]. }
  assert (∀ p : HttpResponse * CredState, c_tokens p.2 = c_tokens (s_creds s) →
    map_Forall (λ _ x, approved x = false) (dv_inner (c_devices p.2)) →
    let s' := (creds_result s p).2 in
    confined s s' ∧ none_approved s' ∧ (¬ writes_files e → s_files s' = s_files s)) as Hcreds.
  { intros [r [t d]] Ht Hd. simpl in *. subst. split; [by destruct s|done]. }
  assert (∀ p : HttpResponse * Fs, writes_files e → let s' := (files_result s p).2 in
    confined s s' ∧ none_approved s' ∧ (¬ writes_files e → s_files s' = s_files s)) as Hfiles.
  { intros [r fs] He. simpl. split; [by destruct s as [???????[] ?????]|]. split; [done|]. done. }
  destruct e; try discriminate Hr; cbn [Server.handle]; try apply Hsame;
    unfold with_segment, with_segments, with_json;
    try (destruct ps as [|a [|b [|? ?]]]; apply Hsame).
  - (* basic *) unfold credentials_basic. destruct (basic_ok (s_auth s) (rq_auth rq)) eqn:E.
    + exfalso. by apply Hna, basic_ok_accepted.
    + by apply Hcreds.
  - (* device_init *) destruct (extract_opt_json (rq_rest rq)) as [body|r]; [|apply Hsame].
    apply Hcreds; [done|]. simpl. by apply map_Forall_insert_2.
  - (* device_token *) destruct (extract_json (rq_rest rq)) as [body|r]; [|apply Hsame].
    unfold credentials_oidc_device_token. destruct (negb _); [by apply Hcreds|].
    unfold poll. destruct (dv_inner _ !! _) as [x|] eqn:E; [|by apply Hcreds].
    rewrite (Hap _ _ E). destruct (_ <? _); by apply Hcreds.
  - (* upload *) destruct ps as [|a [|b [|? ?]]]; try apply Hsame.
    destruct (extract_bytes (rq_rest rq)) as [body|r]; [|apply Hsame]. apply Hfiles. by left.
  - (* delete *) destruct ps as [|a [|b [|? ?]]]; try apply Hsame. apply Hfiles. by right.
  - (* validate *) destruct (extract_json (rq_rest rq)); apply Hsame.
Qed.

Definition writes (e : endpoint) : bool := match e with EUploadFile | EDeleteFile => true | _ => false end.

Lemma writers_table geo_kernel : forallb (λ t,
  forallb (λ m, implb (writes m.2)
    (bool_decide (t.1 = "/files/{user_id}/{path}") && bool_decide (m.1 = "PUT" ∨ m.1 = "DELETE"))) t.2 &&
  match assoc_get "GET" t.2 with Some h => negb (writes h) | None => true end) (api geo_kernel) = true.
Proof. destruct geo_kernel; vm_compute; reflexivity. Qed.

(** A PUT or DELETE of a file. *)
Definition file_write (rq : Request B) : Prop :=
  (rq_method rq = "PUT" ∨ rq_method rq = "DELETE") ∧
  ∃ ps, match_path (rq_path rq) = Some ("/files/{user_id}/{path}", ps).

Lemma writers_reached geo_kernel template ms method e head :
  assoc_get template (api geo_kernel) = Some ms → method_handler ms method = Some (e, head) → writes_files e →
  template = "/files/{user_id}/{path}" ∧ (method = "PUT" ∨ method = "DELETE").
Proof.
  intros Ht Hm He. assert (writes e = true) as Hw by (by destruct He as [-> | ->]). clear He.
  pose proof (writers_table geo_kernel) as Hall. rewrite forallb_forall in Hall.
  apply assoc_get_In, list_elem_of_In in Ht. apply Hall, andb_true_iff in Ht as [Hms Hget]. cbn [fst snd] in Hms, Hget.
  unfold method_handler in Hm. destruct (assoc_get method ms) as [h|] eqn:E.
  - injection Hm as <- _. rewrite forallb_forall in Hms. apply assoc_get_In, list_elem_of_In, Hms in E.
    cbn [fst snd] in E. rewrite Hw in E. cbn [implb] in E. apply andb_true_iff in E as [E1 E2].
    by apply bool_decide_eq_true in E1, E2.
  - clear Hall Hms. destruct (bool_decide _); [|done]. destruct (assoc_get "GET" ms); [|done]. injection Hm as <- _. by rewrite Hw in Hget.
Qed.

Lemma serve_confined geo_kernel f rq s :
  s_security s = SECURITY → ¬ accepted (s_auth s) (rq_auth rq) → none_approved s →
  let s' := (serve_request (api geo_kernel) f rq s).2 in
  confined s s' ∧ none_approved s' ∧ (¬ file_write rq → s_files s' = s_files s).
Proof.
  intros Hsec Hna Hap. unfold Server.serve_request. rewrite Hsec.
  assert (confined s s ∧ none_approved s ∧ (¬ file_write rq → s_files s = s_files s)) as Hsame
    by (split; [apply confined_refl|done]).
  destruct (too_large BODY_LIMIT rq) as [r|]; [done|].
  destruct (enforce _ _ _ _ _) as [|msg] eqn:Ee; [|done].
  unfold route_request. unfold matched_template in Ee.
  destruct (match_path (rq_path rq)) as [[template ps]|] eqn:Em; [|done].
  destruct (assoc_get template (api geo_kernel)) as [ms|] eqn:Et; [|done].
  rewrite bool_decide_true in Ee by eauto. apply enforce_unaccepted in Ee; [|done].
  destruct (method_handler ms (rq_method rq)) as [[e head]|] eqn:Eh; [|done].
  destruct ps as [ps|r]; [|done].
  pose proof (handle_reachable f e ps rq s (open_reaches _ _ _ _ _ _ Et Eh Ee) Hna Hap) as (Hc & Hn & Hf).
  destruct (handle f e ps rq s) as [o s']. simpl in *. split; [done|]. split; [done|].
  intros Hw. apply Hf. intros He. apply Hw. destruct (writers_reached _ _ _ _ _ _ Et Eh He) as [-> Hm].
  split; [done|]. by exists (Ok ps).
Qed.

Lemma history_confined geo_kernel (history : list (Fresh * Request B)) s :
  s_security s = SECURITY → none_approved s → (∀ e, e ∈ history → ¬ accepted (s_auth s) (rq_auth e.2)) →
  let s' := serve_all (api geo_kernel) history s in
  confined s s' ∧ ((∀ e, e ∈ history → ¬ file_write e.2) → s_files s' = s_files s).
Proof.
  intros Hsec Hap Hna.
  assert (let s' := serve_all (api geo_kernel) history s in
    confined s s' ∧ none_approved s' ∧ ((∀ e, e ∈ history → ¬ file_write e.2) → s_files s' = s_files s)) as H'; [|naive_solver].
  induction history as [|[f rq] history IH] using rev_ind; [split; [apply confined_refl|done]|].
  unfold Server.serve_all. rewrite foldl_app. cbn [foldl fst snd].
  destruct IH as (Hc & Hn & Hf).
  { intros e He. apply Hna, elem_of_app. by left. }
  unfold Server.serve_all in Hc, Hn, Hf. set (s1 := foldl _ s history) in *.
  destruct (serve_confined geo_kernel f rq s1) as (Hc' & Hn' & Hf').
  - by rewrite Hc.
  - assert (s_auth s1 = s_auth s) as -> by (by rewrite Hc). apply (Hna (f, rq)), elem_of_app. right. by left.
  - done.
  - split; [by apply (confined_trans s s1)|]. split; [done|]. intros Hw. rewrite Hf'.
    + apply Hf. intros e He. apply Hw, elem_of_app. by left.
    + apply (Hw (f, rq)), elem_of_app. right. by left.
Qed.
End confined.

(** ** A server that is exposed *)

Section exposed.
Context {Wg C St Fs B : Type} `{CollectionCatalog C} `{Petgraph} `{JobStore St} `{FileStore Fs}.
Context (getenv : string → option string)
  (make_searcher : string → string → list f64 → option string → Z → option f64 → Wg →
     result ExecError (list Stac.StacScene) * Wg)
  (geo_run : GeoExecutor Wg → Value → Wg → option (result ExecError SyncResult * Wg))
  (to_text : Value → string) (nodes_of_json : Value → result string (btree string Process))
  (geo_kernel async_tiff_feature : bool) (show_addr : IpAddr * Z → string)
  (from_str : string → result string Value) (validator_for : Value → result string Validator) (OPENAPI_JSON : string)
  (open_files : string → result string Fs) (http_catalog : string → C) (empty_catalog : C)
  (open_jobs : string → result string St) (now : Z)
  (defaults : ProcessRegistry Wg) (temp_dir : string) (nanos : Z) (dirs : gset string) (world : Wg).
Context (display : f64 → string) (base64url : list Z → string) (openapi_doc openapi_yaml_doc : list Z).
Context (extract_json : B → result HttpResponse Value) (extract_opt_json : B → result HttpResponse (option Value)).
Context (extract_bytes : B → result HttpResponse (list Z)) (ws_upgrade : B → HttpResponse).
Context (match_path : string → option (string * result HttpResponse (list string))).
Context (no_route : HttpResponse) (wrong_method : list string → HttpResponse).
Context (too_large : Z → Request B → option HttpResponse).

(** [main] with everything it is given, and the server it runs. *)
Definition started : Args → result string (AppState (InMemoryJobStore + St) (InMemoryFileStore + Fs) C
    (LocalExecutor C + GeoState)) :=
  start getenv make_searcher geo_kernel async_tiff_feature show_addr from_str validator_for
    OPENAPI_JSON open_files http_catalog empty_catalog open_jobs now defaults temp_dir nanos dirs world.

Definition running :=
  serve_all (W := LocalExecutor C + GeoState)
    (H2 := @either_executor _ _ (local_process_executor to_text nodes_of_json) (geo_process_executor geo_run))
    nodes_of_json display base64url openapi_doc openapi_yaml_doc extract_json extract_opt_json extract_bytes
    ws_upgrade match_path no_route wrong_method too_large (api geo_kernel)
    (St := InMemoryJobStore + St) (Fs := InMemoryFileStore + Fs).

Lemma started_ok args s : started args = Ok s →
  (∃ security, from_openapi_json to_ascii_uppercase from_str OPENAPI_JSON = Ok security ∧ s_security s = security) ∧
  s_auth s = match auth_token args with Some t => Bearer t | None => Open end ∧
  s_creds s = CredState_new ∧
  (is_loopback (bind args).1 = false → is_Some (auth_token args)).
Proof.
  unfold started, start. destruct (is_loopback (bind args).1); simpl.
  - destruct (schemas_from_openapi _ _ _); simpl; [|done].
    destruct (from_openapi_json _ _ _) as [security|]; simpl; [|done].
    destruct (choose_files _ _); simpl; [|done]. destruct (choose_executor _ _ _ _ _ _ _ _ _ _ _); simpl; [|done].
    destruct (choose_jobs _ _ _); simpl; [|done]. intros [= <-]. by split; [eauto|].
  - case_bool_decide as Et; [done|].
    destruct (schemas_from_openapi _ _ _); simpl; [|done].
    destruct (from_openapi_json _ _ _) as [security|]; simpl; [|done].
    destruct (choose_files _ _); simpl; [|done]. destruct (choose_executor _ _ _ _ _ _ _ _ _ _ _); simpl; [|done].
    destruct (choose_jobs _ _ _); simpl; [|done]. intros [= <-]. split; [eauto|]. split; [done|]. split; [done|].
    intros _. by apply not_eq_None_Some.
Qed.

(** C4: a server that [main] starts on an address other than a loopback one has a token,
    and clients that do not send it change nothing but files and pending device sessions,
    whatever they request and in whatever order: no job, stored process graph, executor
    state, issued token or setting changes, and a file changes only by a PUT or DELETE
    under /files. *)
Theorem exposed_server_confined args s history :
  started args = Ok s → is_loopback (bind args).1 = false →
  (∃ spec, from_str OPENAPI_JSON = Ok spec ∧ from_spec to_ascii_uppercase spec = Ok SECURITY) →
  ∃ token, auth_token args = Some token ∧
    ((∀ e, e ∈ history → rq_auth e.2 ≠ Some ("Bearer " +:+ token)) →
     let s' := running history s in
     confined s s' ∧
     ((∀ e, e ∈ history → ¬ file_write match_path e.2) → s_files s' = s_files s)).
Proof.
  intros Hs Hl (spec & Hdoc & Hspec). destruct (started_ok _ _ Hs) as ((sec & Hsec & Es) & Ha & Hc & Ht).
  destruct (Ht Hl) as [token Et]. exists token. split; [done|]. intros Hno.
  unfold from_openapi_json in Hsec. rewrite Hdoc in Hsec. cbn in Hsec. rewrite Hspec in Hsec. injection Hsec as <-.
  apply history_confined; [done|unfold none_approved; rewrite Hc; apply map_Forall_empty|].
  intros e He. rewrite Ha, Et. intros [?|(h & Hh & Hacc)]; [done|]. apply (Hno e He). rewrite Hh. by f_equal.
Qed.
End exposed.

(** ** The advertised endpoints *)

Definition serves (t : Table) (template method : string) : bool :=
  match assoc_get template t with Some ms => bool_decide (is_Some (assoc_get method ms)) | None => false end.
Definition advertises (template method : string) : bool :=
  match assoc_get template endpoint_list with Some ms => bool_decide (method ∈ ms) | None => false end.

(** Every endpoint that the capabilities list is mounted, in both builds; what is mounted
    and not listed is this. *)
Lemma advertised_is_mounted geo_kernel :
  (∀ template method, advertises template method = true → serves (api geo_kernel) template method = true) ∧
  (t ← api true; m ← t.2; if advertises t.1 m.1 then [] else [(t.1, m.1)]) =
    [("/health", "GET"); ("/metrics", "GET"); ("/jobs/{job_id}/results/{asset_name}", "GET"); ("/openapi", "GET");
     ("/openapi.json", "GET"); ("/openapi.yaml", "GET"); ("/products", "GET")].
Proof.
  split; [|vm_compute; reflexivity]. intros template method Ha. unfold advertises in Ha.
  destruct (assoc_get template endpoint_list) as [ms|] eqn:E; [|done]. apply bool_decide_eq_true in Ha.
  assert (forallb (λ e, forallb (serves (api geo_kernel) e.1) e.2) endpoint_list = true) as Hall
    by (destruct geo_kernel; vm_compute; reflexivity).
  rewrite forallb_forall in Hall. apply assoc_get_In, list_elem_of_In, Hall in E. rewrite forallb_forall in E.
  by apply E, list_elem_of_In.
Qed.

(** ** Runs *)

Module Demo.
Notation DemoState := (AppState (InMemoryJobStore + InMemoryJobStore) (InMemoryFileStore + InMemoryFileStore)
  InMemoryCatalog (LocalExecutor InMemoryCatalog + GeoState (Wg := ()))).
Notation Rest := (list Z * Value)%type.

(** The methods and templates that anyone reaches, HEAD apart. *)
Example open_endpoints :
  (t ← api true; m ← t.2; if open_to_all SECURITY t.1 m.1 then [(t.1, m.1)] else []) =
    [("/", "GET"); ("/.well-known/openeo", "GET"); ("/conformance", "GET"); ("/health", "GET"); ("/metrics", "GET");
     ("/collections", "GET"); ("/collections/{collection_id}", "GET"); ("/processes", "GET"); ("/file_formats", "GET");
     ("/output_formats", "GET"); ("/service_types", "GET"); ("/udf_runtimes", "GET"); ("/credentials/oidc", "GET");
     ("/credentials/oidc", "POST"); ("/credentials/oidc/token", "POST"); ("/files/{user_id}", "GET");
     ("/files/{user_id}/{path}", "GET"); ("/files/{user_id}/{path}", "PUT"); ("/files/{user_id}/{path}", "DELETE");
     ("/jobs/{job_id}/results/{asset_name}", "GET"); ("/validation", "POST"); ("/subscription", "GET");
     ("/openapi", "GET"); ("/openapi.json", "GET"); ("/openapi.yaml", "GET"); ("/products", "GET")].
Proof. vm_compute. reflexivity. Qed.

(** A matcher of templates, segment by segment. *)
Fixpoint segments (template path : list string) : option (list string) :=
  match template, path with
  | [], [] => Some []
  | t :: ts, p :: ps =>
      rest ← segments ts ps;
      if starts_with "{" t then Some (p :: rest) else if bool_decide (t = p) then Some rest else None
  | _, _ => None
  end.
Definition demo_match (path : string) : option (string * result HttpResponse (list string)) :=
  head (omap (λ t, ps ← segments (split "/" t.1) (split "/" path); Some (t.1, Ok ps)) (api true)).

Definition demo_args : Args :=
  mkArgs (V4 [0; 0; 0; 0], 9080) (Some "s3cret") "orbit-rs" None "" "local" "".
Definition demo_document : Value :=
  match OPENAPI_PATHS with
  | Object m => Object (("components", Object [("schemas", Object [])]) :: m)
  | v => v
  end.

Definition demo_start (args : Args) : result string DemoState :=
  started (λ _, None) (λ _ _ _ _ _ _ w, (Ok [], w)) true true (λ _, "") (λ _, Ok demo_document) (λ _, Err "")
    "" (λ _, Err "") (λ _, mkInMemoryCatalog []) (mkInMemoryCatalog []) (λ _, Err "") 0 ProcessRegistry_new
    "/tmp" 0 ∅ () args.

Definition demo_run (s : DemoState) (history : list (Fresh * Request Rest)) : DemoState :=
  running (λ _ _ _, None) (λ _, "") (λ _, Err "") true (λ _, "") (λ _, "") [] [] (λ b, Ok b.2) (λ b, Ok (Some b.2))
    (λ b, Ok b.1) (λ _, empty_response 426) demo_match (empty_response 404) (λ _, empty_response 405) (λ _ _, None)
    history s.

Definition demo_fresh : Fresh := mkFresh "job-1" 1 (mkGiven 1 1 [] [] []).
Definition demo_put (path : string) (body : list Z) : Fresh * Request Rest :=
  (demo_fresh, mkRequest "PUT" path None (body, Null)).
Definition demo_requests : list (Fresh * Request Rest) := [
  (demo_fresh, mkRequest "POST" "/jobs" None ([], Null)); (demo_fresh, mkRequest "DELETE" "/jobs/job-1" None ([], Null));
  (demo_fresh, mkRequest "POST" "/credentials/oidc" (Some "Bearer guess") ([], Null))].

Lemma exposed_server_confined_witness : ∃ s, demo_start demo_args = Ok s ∧
  let s' := demo_run s demo_requests in confined s s' ∧ s_files s' = s_files s.
Proof.
  eexists. split; [reflexivity|].
  match goal with |- context [demo_run ?st _] => set (s := st) end.
  edestruct (exposed_server_confined (C := InMemoryCatalog) (Wg := ()) (St := InMemoryJobStore) (Fs := InMemoryFileStore)
    (λ _, None) (λ _ _ _ _ _ _ w, (Ok [], w)) (λ _ _ _, None) (λ _, "") (λ _, Err "") true true (λ _, "")
    (λ _, Ok demo_document) (λ _, Err "") "" (λ _, Err "") (λ _, mkInMemoryCatalog []) (mkInMemoryCatalog [])
    (λ _, Err "") 0 ProcessRegistry_new "/tmp" 0 ∅ () (λ _, "") (λ _, "") [] [] (λ b : Rest, Ok b.2) (λ b, Ok (Some b.2))
    (λ b, Ok b.1) (λ _, empty_response 426) demo_match (empty_response 404) (λ _, empty_response 405) (λ _ _, None)
    demo_args s demo_requests) as (token & Et & Hs).
  - reflexivity.
  - reflexivity.
  - exists demo_document. split; [reflexivity|]. exact SECURITY_read.
  - injection Et as <-. destruct Hs as [Hc Hf].
    + intros e He. unfold demo_requests in He. apply list_elem_of_In in He. destruct He as [<-|[<-|[<-|[]]]]; discriminate.
    + split; [exact Hc|]. apply Hf. intros e He. unfold demo_requests in He. apply list_elem_of_In in He.
      destruct He as [<-|[<-|[<-|[]]]]; intros [[Hm|Hm] [ps Hp]]; try discriminate Hm; vm_compute in Hp; discriminate Hp.
Defined.

(** The handler's own answers: without the token a submission is refused, and its HEAD twin
    of a protected GET is answered. *)
Definition demo_status (s : DemoState) (method path : string) : Z :=
  h_status (serve_request (W := LocalExecutor InMemoryCatalog + GeoState (Wg := ()))
    (H2 := @either_executor _ _ (local_process_executor (λ _, "") (λ _, Err "")) (geo_process_executor (λ _ _ _, None)))
    (λ _, Err "") (λ _, "") (λ _, "") [] [] (λ b : Rest, Ok b.2) (λ b, Ok (Some b.2))
    (λ b, Ok b.1) (λ _, empty_response 426) demo_match (empty_response 404) (λ _, empty_response 405) (λ _ _, None)
    (api true) demo_fresh (mkRequest method path None ([], Null)) s).1.

Example head_is_not_guarded : ∃ s, demo_start demo_args = Ok s ∧
  demo_status s "GET" "/jobs" = 401 ∧ demo_status s "HEAD" "/jobs" = 200 ∧
  demo_status s "GET" "/jobs/none" = 401 ∧ demo_status s "HEAD" "/jobs/none" = 404.
Proof. eexists. split; [reflexivity|]. vm_compute. done. Qed.

(** Without the token, anyone replaces the bytes of a result: assets are files of the
    user that the job's id names. *)
Example results_are_overwritten : ∃ s, demo_start demo_args = Ok s ∧
  let s1 := set_files (put_file (mkFileKey "job-1" "result.json") [1; 2] (s_files s)).2 s in
  get_file (mkFileKey "job-1" "result.json") (s_files s1) = Ok [1; 2] ∧
  get_file (mkFileKey "job-1" "result.json") (s_files (demo_run s1 [demo_put "/files/job-1/result.json" [6; 6]])) = Ok [6; 6].
Proof. eexists. split; [reflexivity|]. vm_compute. done. Qed.
End Demo.
